(* ===== verification/_CoqProject ===== *)
-Q . S2P
Prelude.v
Pipe.v
Bytes.v
Layout.v
Ports.v
Blocks.v
Sleeplock.v
Bio.v
Ide.v
LogDisk.v
Log.v
LogSafety.v
Mem.v
Spinlock.v
Kalloc.v
Vm.v
Freevm.v
Uimage.v
Segment.v
Kstring.v
Txn.v
Fs.v
FsDisk.v
FsAlloc.v
FsInode.v
FsFile.v
FsCache.v
FsSpec.v
FsCrash.v
FsDir.v
FsPath.v
Mkfs.v
Boot.v
Proc.v
ProcInv.v
Grep.v
Ulib.v
Console.v
Kbd.v
Procdump.v
Mp.v
Apic.v
Apboot.v
Start.v
Bootmain.v
Kernel.v
File.v
Sysarg.v
Sysfile.v
Kproc.v
Exec.v
ExecSpec.v
Init.v
Trap.v
FileRefs.v
Fork.v
Umalloc.v
Sh.v
ShParse.v
ShRun.v
UserProgs.v
