(* ===== verification/Prelude.v ===== *)
(** * A verification of the xv6-64 operating system

    The repository is a small Unix in C: a kernel for multiprocessor x86-64
    machines with processes, virtual memory, pipes, a file system
    with a write-ahead log, a console and the drivers below it, a program that builds
    disk images, and user programs such as a shell.  This library
    translates its C code into Gallina, one definition per function, and proves what
    the parts promise each other and the user.

    ** How C code is written here

    Code that changes state is a value of the monad [M St A] of this file: a
    function from a state to an [outcome], which is a result with the new state ([Ok]), a
    process that goes to sleep on a channel ([Sleep]), or a failure
    ([Fail]): a kernel panic with its message, undefined behaviour, or the end of the
    fuel of a loop.  A loop that is not structural gets fuel, and
    the theorems about it include that the fuel is enough.  The state of a
    component is a record; pointers to the
    elements of an array are indices, a null pointer is [None].  A record that contains
    the state of another component gives the code of that component access by a
    [lens] ([zoom]).  Integers are in [Z]; where C wraps or extends them, [wrap]
    and [sext] say so ([u8], [u32], [s32] ...).  [wp m Q s] says that [m]
    from [s] returns, and that result and state satisfy [Q]; the rules for
    it, and the tactic [wp_step], are the base of the proofs about code.

    Spin locks appear as booleans in the state that [acquire] and [release] test and set: a
    critical section of one processor is atomic, taking a lock twice fails.  Spinlock.v justifies this:
    it models the lock itself with its atomic exchange and the interrupt flags.
    Concurrency is modelled where code waits: Pipe.v, Proc.v, Ide.v and the system
    calls that sleep interleave the critical sections of all processes in every order.

    ** The parts

    The disk and the log.  Bio.v is the buffer cache (bio.c) over the memory disk
    (memide.c); Blocks.v is the interface it gives its clients, a type class with its
    laws, and Bio.v proves that the cache satisfies it.  Log.v is the log (log.c) over this
    interface, LogDisk.v says what the blocks on disk mean, and LogSafety.v
    proves that a transaction is atomic wherever the machine stops, also during
    recovery.  Txn.v is the interface of the log for the file system, with the proofs
    that the log and a plain disk satisfy it.  Ide.v is the driver of the IDE disk
    (ide.c) with its queue and its interrupts, which keeps the same contract; Ports.v has the
    instructions that reach a device and the interrupt numbers.

    The file system (fs.c).  Layout.v and Bytes.v have the on-disk format, Fs.v the
    code.  FsDisk.v states the invariant of the blocks on disk ([fs_ok]); FsAlloc.v,
    FsInode.v, FsFile.v and FsCache.v prove that every operation keeps it and
    what it does to the contents of files; FsSpec.v has the resulting theorems about
    readi, writei and iput, FsDir.v about directories, FsPath.v about
    path names, and FsCrash.v joins files and log: a write is atomic under crashes.
    Mkfs.v is the program that builds the image (mkfs.c), with the proof that the
    image is such a file system; Boot.v boots the kernel from it and
    reads the files back.

    Memory.  Mem.v has physical memory and addresses, Kalloc.v the page allocator
    (kalloc.c), Vm.v the four-level page tables and the operations on
    user memory (vm.c); Freevm.v proves that freevm gives back exactly the pages of an address
    space, Uimage.v says what it means that an address space holds given bytes.  Segment.v has the segment and gate descriptors and the task state
    (vm.c, trap.c, mmu.h), Kstring.v the memory and string functions (string.c).

    The machine.  Bootmain.v is the boot loader (bootmain.c), Mp.v the search for
    the processors in the tables of the firmware (mp.c), Apic.v the interrupt controllers and the
    clock (lapic.c, ioapic.c), Apboot.v what a started processor executes (entryother.S, the
    part of entry.S for it, mpenter and mpmain of main.c), Start.v the start of the other processors
    (startothers of main.c).  What a device does is a type class, and each class
    has a simulated device that satisfies it.

    Processes.  Spinlock.v has spin locks and the nesting of interrupts off
    (spinlock.c), Sleeplock.v the locks that sleep (sleeplock.c).  Proc.v is the process table
    with scheduler, sleep, wakeup, exit, wait and kill (proc.c) as a system of several
    processors; ProcInv.v proves its invariants.  Pipe.v is the ring buffer of a
    pipe with its readers and writers (pipe.c).  Console.v is the console (console.c),
    Kbd.v the keyboard and the serial port (kbd.c, uart.c) that feed it, Procdump.v the
    list of processes that control-P prints (procdump of proc.c), with the theorem that the input of
    the console is a line editor.

    System calls.  Kernel.v is the state of the whole kernel.  File.v has open
    files (file.c), Sysarg.v, Sysfile.v, Kproc.v, Exec.v and Trap.v the system calls
    (syscall.c, sysfile.c, sysproc.c, proc.c, exec.c, trap.c) composed from the
    components.  FileRefs.v proves that reference counts of open files are exact across all of them,
    Fork.v that fork copies a process, ExecSpec.v that exec replaces its memory by the program of
    a file.  Init.v composes the start of the system on the state of the whole kernel: from the image of mkfs and
    zero tables, through the set-up of memory, userinit, the scheduler, forkret and recovery, to the
    program /init in memory.

    User programs.  Grep.v is grep (grep.c) with its matcher, Ulib.v the C library
    (ulib.c, printf.c), Umalloc.v the allocator (umalloc.c) with sbrk as the kernel grows and shrinks the memory of a
    process, Sh.v, ShParse.v and
    ShRun.v the shell (sh.c): its language, its parser and what its commands
    run in which order, UserProgs.v the small programs (cat.c, wc.c, echo.c, ls.c, forktest.c, stressfs.c ...).

    ** What the theorems show

    Durability and atomicity: a commit, and a write to a file, survive a crash at any point
    entirely or not at all (LogSafety.v, FsCrash.v).  Functional
    behaviour: reading, writing, truncating, linking, path lookup, fork, exec, copying and freeing address
    spaces and memory, allocation, the formatted output and the shell do what their
    specifications say, on every branch.  Invariants: block ownership and the free
    map, page ownership, reference counts, the process table and its tree, the free list of
    malloc.  Start: the boot loader places the kernel, the kernel starts the /init of the image, every processor
    of the table comes up once, on a stack and with tables of its own, a trap finds the stack of the
    process.  Ordering: no wakeup is lost in pipes, in wait, or at the disk, the scheduler is fair, mutual exclusion of
    spin locks.  Round trips: what is written is read back, what mkfs copies the
    kernel reads, what is typed is what a read of the console returns.
    Equivalence with reference definitions: the matcher of grep and regular expressions, the
    parser of the shell and its grammar.  Some theorems show where the code
    fails: they state a defect with the input that exhibits it.

    ** Bounds and fuel

    Tables have the sizes of param.h.  Loops get as fuel the number of
    elements they scan or the number of bytes they copy, so that each round
    uses one; the parser of the shell gets four times the length of the line and a constant, since between two
    calls at the same level a character is consumed; malloc gets twice the number of
    units of the heap, since it scans the list at most twice.  A loop that polls a device has its fuel as an
    argument, and the class of the device says how soon it answers.  Theorems state that the code
    returns, so that too little fuel would make them false.

    ** What is not modelled

    Of the assembly files only the start of a processor is modelled, by its effect on memory and registers; the
    others (trap vectors, context switch, system call stubs) are not part
    of the translation, and the switch of a process is the change of the
    process that runs.  The function main of main.c calls the
    initialisation of each component once, in turn: the components have these
    functions; Init.v composes those that set up memory, the tables and the first process, but not
    those of the devices, whose states are apart.  The test suite (usertests.c) checks
    the system from outside.  Of x86.h the functions that wrap a single
    instruction appear where they are used; the padding of structs is in the
    offsets of the fields where code reads them from memory or from disk. *)

From stdpp Require Export prelude gmap strings numbers.

#[global] Open Scope Z_scope.
#[global] Arguments Nat.mul : simpl never.

(** * Machine integers

    A C integer of width [w] is a [Z]; [wrap w] is the conversion to the
    unsigned type of that width and [sext w] the conversion to the signed
    one (two's complement). *)

Definition wrap (w z : Z) : Z := z mod 2 ^ w.
Definition sext (w z : Z) : Z :=
  let u := wrap w z in if u <? 2 ^ (w - 1) then u else u - 2 ^ w.

Abbreviation u8 := (wrap 8) (only parsing).
Abbreviation u16 := (wrap 16) (only parsing).
Abbreviation u32 := (wrap 32) (only parsing).
Abbreviation u64 := (wrap 64) (only parsing).
Abbreviation s8 := (sext 8) (only parsing).
Abbreviation s16 := (sext 16) (only parsing).
Abbreviation s32 := (sext 32) (only parsing).
Abbreviation s64 := (sext 64) (only parsing).

(** * Outcomes of kernel code

    A piece of kernel code run in a state [s] either returns a value and a
    new state, or calls [sleep] on a channel (the kernel thread is suspended
    and the state is the one it leaves to the others), or never returns:
    it calls [panic], it executes something C leaves undefined (a null or
    wild dereference, an index out of range), or the model's fuel ran out. *)

Inductive failure :=
| Panic (msg : string)
| Undefined (what : string)
| OutOfFuel.

Inductive outcome (St A : Type) :=
| Ok (a : A) (s : St)
| Sleep (chan : Z) (s : St)
| Fail (f : failure).
Arguments Ok {St A} a s.
Arguments Sleep {St A} chan s.
Arguments Fail {St A} f.

Definition M (St A : Type) : Type := St → outcome St A.

#[global] Instance M_ret {St} : MRet (M St) := λ A a s, Ok a s.
#[global] Instance M_bind {St} : MBind (M St) := λ A B k m s,
  match m s with
  | Ok a s' => k a s'
  | Sleep c s' => Sleep c s'
  | Fail f => Fail f
  end.

Section ops.
Context {St : Type}.

Definition gets {A} (f : St → A) : M St A := λ s, Ok (f s) s.
Definition modify (f : St → St) : M St unit := λ s, Ok tt (f s).
Definition panic {A} (msg : string) : M St A := λ _, Fail (Panic msg).
Definition undefined {A} (what : string) : M St A := λ _, Fail (Undefined what).
Definition out_of_fuel {A} : M St A := λ _, Fail OutOfFuel.
Definition sleep_on {A} (chan : Z) : M St A := λ s, Sleep chan s.
(** [when c m] is [if (c) m;] *)
Definition when (c : bool) (m : M St unit) : M St unit := if c then m else mret tt.
(** a partial lookup whose failure is undefined behaviour in C *)
Definition the {A} (what : string) (o : option A) : M St A :=
  match o with Some a => mret a | None => undefined what end.
End ops.

(** A call that returns, or sleeps on a channel with the rest of its work. *)
Inductive susp (R A : Type) :=
| Returns (a : A)
| Sleeps (chan : Z) (rest : R).
Arguments Returns {R A} a.
Arguments Sleeps {R A} chan rest.

(** * Weakest preconditions: the code returns, and the post-condition holds *)

Definition wp {St A} (m : M St A) (Q : A → St → Prop) (s : St) : Prop :=
  match m s with Ok a s' => Q a s' | _ => False end.

(** * Lenses: one component's state inside a larger one *)

Record lens (St C : Type) := Lens { view : St → C; over : C → St → St }.
Arguments Lens {St C} view over.
Arguments view {St C} l s.
Arguments over {St C} l c s.

Class LensLaws {St C} (l : lens St C) := {
  view_over c s : view l (over l c s) = c;
  over_view s : over l (view l s) s = s;
  over_over c c' s : over l c (over l c' s) = over l c s;
}.

(** [zoom l m] runs the component's code [m] on its part of the state. *)
Definition zoom {St C A} (l : lens St C) (m : M C A) : M St A := λ s,
  match m (view l s) with
  | Ok a c => Ok a (over l c s)
  | Sleep ch c => Sleep ch (over l c s)
  | Fail f => Fail f
  end.

(** The spinlock of a component, seen from the one CPU that runs it: held or
    not. [acquire] of a held lock and [release] of a free one panic, as in
    spinlock.c (component Spinlock models the locks of several CPUs). *)
Definition acquire {St} (l : lens St bool) : M St unit :=
  h ← gets (view l); if (h : bool) then panic "acquire" else modify (over l true).
Definition release {St} (l : lens St bool) : M St unit :=
  h ← gets (view l); if (h : bool) then modify (over l false) else panic "release".

(** * Rules for [wp] *)

Section wp.
Context {St : Type}.
Implicit Types s : St.

Lemma wp_mono {A} (m : M St A) (P Q : A → St → Prop) s :
  wp m P s → (∀ a s', P a s' → Q a s') → wp m Q s.
Proof. unfold wp. destruct (m s); naive_solver. Qed.

Lemma wp_ret {A} (a : A) Q s : wp (mret a) Q s ↔ Q a s.
Proof. done. Qed.

Lemma wp_bind {A B} (m : M St A) (k : A → M St B) Q s :
  wp (m ≫= k) Q s ↔ wp m (λ a s', wp (k a) Q s') s.
Proof. unfold wp, mbind, M_bind. by destruct (m s). Qed.

Lemma wp_gets {A} (f : St → A) Q s : wp (gets f) Q s ↔ Q (f s) s.
Proof. done. Qed.

Lemma wp_modify (f : St → St) Q s : wp (modify f) Q s ↔ Q tt (f s).
Proof. done. Qed.

Lemma wp_when c (m : M St unit) Q s :
  wp (when c m) Q s ↔ if c then wp m Q s else Q tt s.
Proof. by destruct c. Qed.

Lemma wp_the {A} what (o : option A) (a : A) Q s :
  o = Some a → wp (the what o) Q s ↔ Q a s.
Proof. by intros ->. Qed.

(** The two readings of [wp]: as a run that returns. *)
Lemma wp_run {A} (m : M St A) Q s :
  wp m Q s ↔ ∃ a s', m s = Ok a s' ∧ Q a s'.
Proof. unfold wp. destruct (m s); naive_solver. Qed.

Lemma wp_eq {A} (m : M St A) a s s' :
  m s = Ok a s' → ∀ Q : A → St → Prop, Q a s' → wp m Q s.
Proof. unfold wp. by intros ->. Qed.

Lemma bind_run {A B} (m : M St A) (k : A → M St B) s a s' :
  m s = Ok a s' → (m ≫= k) s = k a s'.
Proof. unfold mbind, M_bind. by intros ->. Qed.

Lemma bind_ok {A B} (m : M St A) (k : A → M St B) s b s'' :
  (m ≫= k) s = Ok b s'' ↔ ∃ a s', m s = Ok a s' ∧ k a s' = Ok b s''.
Proof. unfold mbind, M_bind. destruct (m s); naive_solver. Qed.
End wp.

Lemma wp_zoom {St C A} (l : lens St C) (m : M C A) Q s :
  wp (zoom l m) Q s ↔ wp m (λ a c, Q a (over l c s)) (view l s).
Proof. unfold wp, zoom. by destruct (m (view l s)). Qed.

Lemma zoom_run {St C A} (l : lens St C) (m : M C A) s a c :
  m (view l s) = Ok a c → zoom l m s = Ok a (over l c s).
Proof. unfold zoom. by intros ->. Qed.

Lemma acquire_run {St} (l : lens St bool) s :
  view l s = false → acquire l s = Ok tt (over l true s).
Proof. intros H. unfold acquire, mbind, M_bind, gets. by rewrite H. Qed.

Lemma release_run {St} (l : lens St bool) s :
  view l s = true → release l s = Ok tt (over l false s).
Proof. intros H. unfold release, mbind, M_bind, gets. by rewrite H. Qed.

Lemma wp_acquire {St} (l : lens St bool) Q s :
  view l s = false → wp (acquire l) Q s ↔ Q tt (over l true s).
Proof. intros H. unfold acquire. by rewrite wp_bind, wp_gets, H. Qed.

Lemma wp_release {St} (l : lens St bool) Q s :
  view l s = true → wp (release l) Q s ↔ Q tt (over l false s).
Proof. intros H. unfold release. by rewrite wp_bind, wp_gets, H. Qed.

(** One step of symbolic execution. *)
Ltac wp_step :=
  match goal with
  | |- wp (mret _) _ _ => apply wp_ret
  | |- wp (_ ≫= _) _ _ => apply wp_bind
  | |- wp (gets _) _ _ => apply wp_gets
  | |- wp (modify _) _ _ => apply wp_modify
  | |- wp (when _ _) _ _ => apply wp_when
  | |- wp (zoom _ _) _ _ => apply wp_zoom
  | |- wp (acquire _) _ _ => apply wp_acquire; [by simpl|]
  | |- wp (release _) _ _ => apply wp_release; [by simpl|]
  end; simpl.
Ltac wp_steps := repeat wp_step.

(** * Integers *)

Create Rewrite HintDb ints.

Lemma wrap_range w z : 0 ≤ w → 0 ≤ wrap w z < 2 ^ w.
Proof. intros. apply Z.mod_pos_bound. lia. Qed.

Lemma wrap_small w z : 0 ≤ z < 2 ^ w → wrap w z = z.
Proof. apply Z.mod_small. Qed.

Lemma wrap_idemp w z : wrap w (wrap w z) = wrap w z.
Proof. apply Zmod_mod. Qed.

Lemma wrap_add_l w a b : wrap w (wrap w a + b) = wrap w (a + b).
Proof. apply Zplus_mod_idemp_l. Qed.

Lemma wrap_add_r w a b : wrap w (a + wrap w b) = wrap w (a + b).
Proof. apply Zplus_mod_idemp_r. Qed.

Lemma wrap_sub_l w a b : wrap w (wrap w a - b) = wrap w (a - b).
Proof. apply Zminus_mod_idemp_l. Qed.

Lemma wrap_sub_r w a b : wrap w (a - wrap w b) = wrap w (a - b).
Proof. apply Zminus_mod_idemp_r. Qed.

#[export] Hint Rewrite wrap_idemp wrap_add_l wrap_add_r wrap_sub_l wrap_sub_r : ints.

Lemma sext_range w z : 0 < w → - 2 ^ (w - 1) ≤ sext w z < 2 ^ (w - 1).
Proof.
  intros Hw. unfold sext.
  pose proof (wrap_range w z ltac:(lia)).
  assert (2 ^ w = 2 * 2 ^ (w - 1)) by (rewrite <- Z.pow_succ_r by lia; f_equal; lia).
  destruct (Z.ltb_spec (wrap w z) (2 ^ (w - 1))); lia.
Qed.

Lemma sext_small w z : 0 < w → - 2 ^ (w - 1) ≤ z < 2 ^ (w - 1) → sext w z = z.
Proof.
  intros Hw Hz. unfold sext.
  assert (2 ^ w = 2 * 2 ^ (w - 1)) by (rewrite <- Z.pow_succ_r by lia; f_equal; lia).
  destruct (Z.lt_ge_cases z 0).
  - assert (wrap w z = z + 2 ^ w) as ->.
    { unfold wrap. rewrite <- (Z.mod_small (z + 2 ^ w) (2 ^ w)) by lia.
      rewrite <- Zplus_mod_idemp_r, Z_mod_same_full. f_equal; lia. }
    destruct (Z.ltb_spec (z + 2 ^ w) (2 ^ (w - 1))); lia.
  - rewrite wrap_small by lia.
    destruct (Z.ltb_spec z (2 ^ (w - 1))); lia.
Qed.

Lemma wrap_mod w m z : 0 ≤ w → 0 < m → (m | 2 ^ w) → wrap w z mod m = z mod m.
Proof.
  intros. unfold wrap. by apply Z.mod_mod_divide.
Qed.

(** Unsigned subtraction undoes unsigned addition. *)
Lemma wrap_sub_eq w a b c :
  0 ≤ a < 2 ^ w → 0 ≤ c < 2 ^ w → wrap w (a - b) = c ↔ a = wrap w (b + c).
Proof.
  intros Ha Hc. split.
  - intros <-. autorewrite with ints. replace (b + (a - b)) with a by lia.
    by rewrite wrap_small.
  - intros ->. autorewrite with ints. replace (b + c - b) with c by lia.
    by rewrite wrap_small.
Qed.

(** * Lists *)

Lemma alter_known {A} (f : A → A) (l : list A) i x :
  l !! i = Some x → alter f i l = <[i := f x]> l.
Proof.
  intros H. apply list_eq. intros j. rewrite list_lookup_alter, list_lookup_insert.
  pose proof (lookup_lt_Some _ _ _ H).
  repeat case_decide; simplify_eq; try tauto. by rewrite H.
Qed.

Lemma list_lookup_insert_dec {A} (l : list A) i x j :
  (i < length l)%nat → <[i := x]> l !! j = if decide (j = i) then Some x else l !! j.
Proof.
  intros Hi. case_decide as E; [subst; by apply list_lookup_insert_eq|].
  by apply list_lookup_insert_ne.
Qed.

Lemma list_lookup_total_insert_dec `{Inhabited A} (l : list A) i x j :
  (i < length l)%nat → <[i := x]> l !!! j = if decide (j = i) then x else l !!! j.
Proof.
  intros Hi. case_decide as E; [subst; by apply list_lookup_total_insert_eq|].
  by apply list_lookup_total_insert_ne.
Qed.
