(* ===== verification/Pipe.v ===== *)
(** Pipes (src/pipe.c): the ring buffer shared by a reader and a writer.

    [Code] is a translation of pipewrite, piperead and pipeclose over any
    kernel state that holds the pipe; [System] runs them as the threads of a
    step relation with sleeping and wakeups. *)

From S2P Require Import Prelude.

Definition PIPESIZE : Z := 512.

(** struct pipe; [p_lock] says whether the spinlock is held. *)
Record pipe := Pipe {
  p_lock : bool;
  p_data : list Z;
  p_nread : Z;
  p_nwrite : Z;
  p_readopen : bool;
  p_writeopen : bool;
}.

Definition set_p_lock (b : bool) (p : pipe) : pipe :=
  Pipe b (p_data p) (p_nread p) (p_nwrite p) (p_readopen p) (p_writeopen p).
Definition set_p_readopen (b : bool) (p : pipe) : pipe :=
  Pipe (p_lock p) (p_data p) (p_nread p) (p_nwrite p) b (p_writeopen p).
Definition set_p_writeopen (b : bool) (p : pipe) : pipe :=
  Pipe (p_lock p) (p_data p) (p_nread p) (p_nwrite p) (p_readopen p) b.

Definition pipe_lock : lens pipe bool := Lens p_lock set_p_lock.

(** [p->data[p->nwrite++ % PIPESIZE] = c] *)
Definition push (c : Z) (p : pipe) : pipe :=
  Pipe (p_lock p) (<[Z.to_nat (p_nwrite p mod PIPESIZE) := c]> (p_data p))
    (p_nread p) (u32 (p_nwrite p + 1)) (p_readopen p) (p_writeopen p).

(** [p->data[p->nread++ % PIPESIZE]] *)
Definition pop (p : pipe) : Z * pipe :=
  (p_data p !!! Z.to_nat (p_nread p mod PIPESIZE),
   Pipe (p_lock p) (p_data p) (u32 (p_nread p + 1)) (p_nwrite p)
     (p_readopen p) (p_writeopen p)).

(** [p->nwrite == p->nread + PIPESIZE] and [p->nread == p->nwrite] *)
Definition pipe_full (p : pipe) : bool := p_nwrite p =? u32 (p_nread p + PIPESIZE).
Definition pipe_empty (p : pipe) : bool := p_nread p =? p_nwrite p.

(** The number of bytes in the pipe. *)
Definition pipe_len (p : pipe) : Z := u32 (p_nwrite p - p_nread p).

(** The addresses of [p->nread] and [p->nwrite] inside the struct at [pa]: a
    spinlock takes 104 bytes and the data 512. *)
Definition chan_nread (pa : Z) : Z := pa + 616.
Definition chan_nwrite (pa : Z) : Z := pa + 620.

Section Code.
Context {St : Type} (pl : lens St pipe) (pa : Z).
Context (wakeup : Z → M St unit) (kfree : Z → M St unit) (killed : St → bool).

Definition p_acquire : M St unit := zoom pl (acquire pipe_lock).
Definition p_release : M St unit := zoom pl (release pipe_lock).

(** The loop of pipewrite from byte i on, [bs] being the bytes from i to n.
    [sleep] releases the lock; the thread resumes at the test of the while. *)
Fixpoint pipewrite_loop (n : Z) (bs : list Z) : M St (susp (list Z) Z) :=
  match bs with
  | [] =>
      wakeup (chan_nread pa);;
      p_release;;
      mret (Returns n)
  | c :: bs' =>
      p ← gets (view pl);
      if pipe_full p then
        k ← gets killed;
        if negb (p_readopen p) || k then
          p_release;;
          mret (Returns (-1))
        else
          wakeup (chan_nread pa);;
          p_release;;
          mret (Sleeps (chan_nwrite pa) bs)
      else
        zoom pl (modify (push c));;
        pipewrite_loop n bs'
  end.

Definition pipewrite (n : Z) (bs : list Z) : M St (susp (list Z) Z) :=
  p_acquire;;
  pipewrite_loop n bs.

(** The copy loop of piperead: at most [n] bytes. *)
Fixpoint piperead_copy (n : nat) : M St (list Z) :=
  match n with
  | O => mret []
  | S n' =>
      p ← gets (view pl);
      if pipe_empty p then mret []
      else
        zoom pl (modify (λ p, (pop p).2));;
        rest ← piperead_copy n';
        mret ((pop p).1 :: rest)
  end.

(** Returns the count and the bytes stored from [addr] on. *)
Definition piperead (n : Z) : M St (susp Z (Z * list Z)) :=
  p_acquire;;
  p ← gets (view pl);
  if pipe_empty p && p_writeopen p then
    k ← gets killed;
    if (k : bool) then
      p_release;;
      mret (Returns (-1, []))
    else
      p_release;;
      mret (Sleeps (chan_nread pa) n)
  else
    bs ← piperead_copy (Z.to_nat n);
    wakeup (chan_nwrite pa);;
    p_release;;
    mret (Returns (Z.of_nat (length bs), bs)).

Definition pipeclose (writable : bool) : M St unit :=
  p_acquire;;
  (if writable then
     zoom pl (modify (set_p_writeopen false));;
     wakeup (chan_nread pa)
   else
     zoom pl (modify (set_p_readopen false));;
     wakeup (chan_nwrite pa));;
  p ← gets (view pl);
  if negb (p_readopen p) && negb (p_writeopen p) then
    p_release;;
    kfree pa
  else p_release.
End Code.

(** pipealloc's initialisation of a fresh page: the data bytes are whatever
    the page held. *)
Definition pipe_init (junk : list Z) : pipe := Pipe false junk 0 0 true true.

(** * The threads that use one pipe

    A thread that calls read or write is ready until it runs: it acquires the
    lock and runs its critical section to the end, which returns or sleeps.
    A sleeping thread becomes ready by a wakeup on its channel or by kill.
    A side is closed only when no call on that side is in progress (the caller
    holds a reference to the file). [w_written] and [w_read] are the histories
    of the bytes that entered and left the pipe. *)

Module System.

Inductive op :=
| OWrite (n : Z) (bs : list Z)
| ORead (n : Z).

Inductive tstat :=
| TIdle
| TReady (o : op)
| TAsleep (ch : Z) (o : op).

Record thread := Thread { t_stat : tstat; t_killed : bool }.

Record world := World {
  w_pipe : pipe;
  w_threads : gmap nat thread;
  w_freed : bool;
  w_written : list Z;
  w_read : list Z;
}.

Definition set_pipe (p : pipe) (w : world) : world :=
  World p (w_threads w) (w_freed w) (w_written w) (w_read w).
Definition set_threads (ts : gmap nat thread) (w : world) : world :=
  World (w_pipe w) ts (w_freed w) (w_written w) (w_read w).
Definition pipe_of : lens world pipe := Lens w_pipe set_pipe.

(** wakeup (proc.c) on the threads at hand. *)
Definition wake_thread (ch : Z) (t : thread) : thread :=
  match t_stat t with
  | TAsleep ch' o => if ch' =? ch then Thread (TReady o) (t_killed t) else t
  | _ => t
  end.
Definition wake (ch : Z) (w : world) : world :=
  set_threads (wake_thread ch <$> w_threads w) w.
Definition wakeup (ch : Z) : M world unit := modify (wake ch).
Definition kfree (a : Z) : M world unit :=
  modify (λ w, World (w_pipe w) (w_threads w) true (w_written w) (w_read w)).
Definition killed (tid : nat) (w : world) : bool :=
  match w_threads w !! tid with Some t => t_killed t | None => false end.

Definition set_stat (tid : nat) (st : tstat) (w : world) : world :=
  set_threads (alter (λ t, Thread st (t_killed t)) tid (w_threads w)) w.
Definition log_written (bs : list Z) (w : world) : world :=
  World (w_pipe w) (w_threads w) (w_freed w) (w_written w ++ bs) (w_read w).
Definition log_read (bs : list Z) (w : world) : world :=
  World (w_pipe w) (w_threads w) (w_freed w) (w_written w) (w_read w ++ bs).

Definition active (t : thread) : option op :=
  match t_stat t with TIdle => None | TReady o => Some o | TAsleep _ o => Some o end.
Arguments active !t /.
Definition is_write (o : op) : bool := match o with OWrite _ _ => true | ORead _ => false end.

Definition side_open (writable : bool) (p : pipe) : bool :=
  if writable then p_writeopen p else p_readopen p.

Section Step.
Context (pa : Z).

Inductive step : world → world → Prop :=
| step_call tid t o w :
    w_threads w !! tid = Some t → t_stat t = TIdle →
    side_open (is_write o) (w_pipe w) = true →
    step w (set_stat tid (TReady o) w)
| step_write tid t n bs r w w' :
    w_threads w !! tid = Some t → t_stat t = TReady (OWrite n bs) →
    pipewrite pipe_of pa wakeup (killed tid) n bs w = Ok r w' →
    step w (log_written (take (Z.to_nat (pipe_len (w_pipe w') - pipe_len (w_pipe w))) bs)
             (set_stat tid (match r with
                            | Returns _ => TIdle
                            | Sleeps ch rest => TAsleep ch (OWrite n rest)
                            end) w'))
| step_read tid t n r w w' :
    w_threads w !! tid = Some t → t_stat t = TReady (ORead n) →
    piperead pipe_of pa wakeup (killed tid) n w = Ok r w' →
    step w (match r with
            | Returns (_, bs) => log_read bs (set_stat tid TIdle w')
            | Sleeps ch n' => set_stat tid (TAsleep ch (ORead n')) w'
            end)
| step_kill tid t w :
    w_threads w !! tid = Some t →
    step w (set_threads (<[tid := Thread (match t_stat t with
                                          | TAsleep _ o => TReady o
                                          | st => st
                                          end) true]> (w_threads w)) w)
| step_close writable w w' :
    side_open writable (w_pipe w) = true →
    (∀ tid t o, w_threads w !! tid = Some t → active t = Some o → is_write o ≠ writable) →
    pipeclose pipe_of pa wakeup kfree writable w = Ok tt w' →
    step w w'.
End Step.

(** A fresh pipe with idle threads. *)
Definition start (junk : list Z) (tids : gmap nat unit) : world :=
  World (pipe_init junk) ((λ _, Thread TIdle false) <$> tids) false [] [].

End System.

(** * The bytes in the pipe, oldest first *)

Definition contents (p : pipe) : list Z :=
  (λ k, p_data p !!! Z.to_nat ((p_nread p + k) mod PIPESIZE)) <$> seqZ 0 (pipe_len p).

Record pipe_wf (p : pipe) : Prop := {
  wf_data : length (p_data p) = Z.to_nat PIPESIZE;
  wf_nread : 0 ≤ p_nread p < 2 ^ 32;
  wf_nwrite : 0 ≤ p_nwrite p < 2 ^ 32;
  wf_len : pipe_len p ≤ PIPESIZE;
}.

(** * Ring buffer arithmetic *)

Lemma u32_mod_pipesize z : wrap 32 z mod PIPESIZE = z mod PIPESIZE.
Proof. apply wrap_mod; [lia|done|]. by exists (2 ^ 23). Qed.

Lemma mod_pipesize_lt z : (Z.to_nat (z mod PIPESIZE) < Z.to_nat PIPESIZE)%nat.
Proof. pose proof (Z.mod_pos_bound z PIPESIZE). unfold PIPESIZE in *. lia. Qed.

Lemma mod_pipesize_inj a b :
  a ≤ b < a + PIPESIZE → Z.to_nat (a mod PIPESIZE) = Z.to_nat (b mod PIPESIZE) → a = b.
Proof. unfold PIPESIZE. intros. Z.div_mod_to_equations. lia. Qed.

Lemma pipe_len_range p : 0 ≤ pipe_len p < 2 ^ 32.
Proof. by apply wrap_range. Qed.

Lemma length_contents p : Z.of_nat (length (contents p)) = pipe_len p.
Proof.
  unfold contents. rewrite length_fmap, length_seqZ.
  pose proof (pipe_len_range p). lia.
Qed.

Lemma pipe_full_spec p : pipe_wf p → pipe_full p = bool_decide (pipe_len p = PIPESIZE).
Proof.
  intros [_ Hr Hw _]. unfold pipe_full, pipe_len.
  destruct (Z.eqb_spec (p_nwrite p) (wrap 32 (p_nread p + PIPESIZE))) as [E|E];
    symmetry; [apply bool_decide_eq_true_2|apply bool_decide_eq_false_2];
    by rewrite wrap_sub_eq.
Qed.

Lemma pipe_empty_spec p : pipe_wf p → pipe_empty p = bool_decide (contents p = []).
Proof.
  intros [_ Hr Hw _]. unfold pipe_empty.
  assert (contents p = [] ↔ p_nread p = p_nwrite p) as Hiff.
  { rewrite <- length_zero_iff_nil. pose proof (length_contents p) as HL.
    transitivity (pipe_len p = 0); [lia|]. unfold pipe_len.
    rewrite wrap_sub_eq by lia. rewrite Z.add_0_r, wrap_small by done. naive_solver. }
  destruct (Z.eqb_spec (p_nread p) (p_nwrite p)); symmetry;
    [apply bool_decide_eq_true_2|apply bool_decide_eq_false_2]; tauto.
Qed.

Lemma push_len p c : pipe_wf p → pipe_len p < PIPESIZE → pipe_len (push c p) = pipe_len p + 1.
Proof.
  intros Hwf Hl. pose proof (pipe_len_range p). unfold PIPESIZE in *.
  unfold pipe_len at 1; simpl. autorewrite with ints.
  replace (p_nwrite p + 1 - p_nread p) with (p_nwrite p - p_nread p + 1) by lia.
  rewrite <- wrap_add_l. fold (pipe_len p). rewrite wrap_small; lia.
Qed.

Lemma push_wf p c : pipe_wf p → pipe_len p < PIPESIZE → pipe_wf (push c p).
Proof.
  intros Hwf Hl. pose proof (push_len p c Hwf Hl). destruct Hwf.
  split; simpl; [by rewrite length_insert|done|by apply wrap_range|lia].
Qed.

Lemma push_contents p c :
  pipe_wf p → pipe_len p < PIPESIZE → contents (push c p) = contents p ++ [c].
Proof.
  intros Hwf Hl. pose proof (pipe_len_range p). unfold contents at 1.
  rewrite push_len by done. rewrite seqZ_app by lia. rewrite fmap_app. simpl.
  assert (∀ k, (p_nread p + k) mod PIPESIZE = p_nwrite p mod PIPESIZE ↔
               (p_nread p + k) mod PIPESIZE = (p_nread p + pipe_len p) mod PIPESIZE) as Hw.
  { intros k. rewrite <- (u32_mod_pipesize (p_nread p + pipe_len p)).
    unfold pipe_len. autorewrite with ints.
    replace (p_nread p + (p_nwrite p - p_nread p)) with (p_nwrite p) by lia.
    by rewrite wrap_small by apply Hwf. }
  assert (Z.to_nat (p_nwrite p mod PIPESIZE) < length (p_data p))%nat as Hin.
  { rewrite (wf_data _ Hwf). apply mod_pipesize_lt. }
  f_equal.
  - apply list_fmap_ext. intros i k Hk. apply lookup_seqZ in Hk as [Hik Hk]. simpl.
    rewrite list_lookup_total_insert_ne; [done|]. intros E.
    assert ((p_nread p + k) mod PIPESIZE = p_nwrite p mod PIPESIZE) as E'%Hw.
    { pose proof (Z.mod_pos_bound (p_nread p + k) PIPESIZE).
      pose proof (Z.mod_pos_bound (p_nwrite p) PIPESIZE). unfold PIPESIZE in *. lia. }
    assert (p_nread p + k = p_nread p + pipe_len p); [|lia].
    apply mod_pipesize_inj; [lia|by rewrite E'].
  - assert ((p_nread p + pipe_len p) mod PIPESIZE = p_nwrite p mod PIPESIZE) as E
      by by apply Hw.
    simpl. replace (Z.of_nat 0 + (0 + pipe_len p)) with (pipe_len p) by lia.
    rewrite E. by rewrite list_lookup_total_insert_eq.
Qed.

Lemma pop_len p : 0 < pipe_len p → pipe_len (pop p).2 = pipe_len p - 1.
Proof.
  intros Hl. pose proof (pipe_len_range p).
  unfold pipe_len at 1; simpl. autorewrite with ints.
  replace (p_nwrite p - (p_nread p + 1)) with (p_nwrite p - p_nread p - 1) by lia.
  rewrite <- wrap_sub_l. fold (pipe_len p). rewrite wrap_small; lia.
Qed.

Lemma pop_wf p : pipe_wf p → 0 < pipe_len p → pipe_wf (pop p).2.
Proof.
  intros Hwf Hl. pose proof (pop_len p Hl). destruct Hwf.
  split; simpl in *; [done|by apply wrap_range|done|lia].
Qed.

Lemma pop_contents p :
  pipe_wf p → 0 < pipe_len p → contents p = (pop p).1 :: contents (pop p).2.
Proof.
  intros Hwf Hl. pose proof (pipe_len_range p).
  unfold contents at 1. rewrite seqZ_cons, fmap_cons by lia.
  f_equal; [by rewrite Z.add_0_r|].
  unfold contents. rewrite pop_len by done. simpl.
  change (Z.succ 0) with (1 + 0). rewrite <- fmap_add_seqZ, <- list_fmap_compose.
  apply list_fmap_ext. intros i k _. simpl. f_equal.
  rewrite <- (u32_mod_pipesize (p_nread p + (1 + k))).
  rewrite <- (u32_mod_pipesize (wrap 32 (p_nread p + 1) + k)).
  autorewrite with ints.
  by replace (p_nread p + 1 + k) with (p_nread p + (1 + k)) by lia.
Qed.

(** * What the operations do, in any state that holds the pipe

    [wake] is the effect of a wakeup; it leaves this pipe alone. *)
Class PipeEnv {St} (pl : lens St pipe) (wakeup : Z → M St unit) (killed : St → bool)
    (wake : Z → St → St) := {
  env_lens :: LensLaws pl;
  env_wakeup ch s : wakeup ch s = Ok tt (wake ch s);
  env_wake_pipe ch s : view pl (wake ch s) = view pl s;
  env_wake_killed ch s : killed (wake ch s) = killed s;
  env_over_killed p s : killed (over pl p s) = killed s;
  env_wake_over ch p s : wake ch (over pl p s) = over pl p (wake ch s);
}.

Section Specs.
Context {St : Type} (pl : lens St pipe) (pa : Z).
Context (wakeup : Z → M St unit) (kfree : Z → M St unit) (killed : St → bool).
Context (wake : Z → St → St) `{!PipeEnv pl wakeup killed wake}.
Implicit Types (s : St) (p : pipe) (bs : list Z).

Lemma p_acquire_run s :
  p_lock (view pl s) = false →
  p_acquire pl s = Ok tt (over pl (set_p_lock true (view pl s)) s).
Proof. intros H. by apply zoom_run, acquire_run. Qed.

Lemma p_release_run s :
  p_lock (view pl s) = true →
  p_release pl s = Ok tt (over pl (set_p_lock false (view pl s)) s).
Proof. intros H. by apply zoom_run, release_run. Qed.

(** The bytes a writer can append before the pipe is full. *)
Definition room p bs : nat := length bs `min` Z.to_nat (PIPESIZE - pipe_len p).

(** [p] after the bytes [bs] were pushed. *)
Definition push_all bs p : pipe := fold_left (λ p c, push c p) bs p.

(** Where a write of [bs] into [p] leaves the pipe, and its result. *)
Definition write_result (n : Z) (k : bool) p bs : susp (list Z) Z :=
  if decide (length bs ≤ room p bs)%nat then Returns n
  else if negb (p_readopen p) || k then Returns (-1)
  else Sleeps (chan_nwrite pa) (drop (room p bs) bs).

Definition write_wakes (k : bool) p bs : bool :=
  bool_decide (length bs ≤ room p bs)%nat || negb (negb (p_readopen p) || k).

Lemma room_cons_full p c bs : PIPESIZE ≤ pipe_len p → room p (c :: bs) = 0%nat.
Proof. unfold room. lia. Qed.

Lemma room_cons p c bs :
  pipe_wf p → pipe_len p < PIPESIZE → room p (c :: bs) = S (room (push c p) bs).
Proof. intros. unfold room. rewrite push_len, length_cons by done. lia. Qed.

Lemma pipewrite_loop_run n bs s :
  let p := view pl s in
  pipe_wf p → p_lock p = true →
  pipewrite_loop pl pa wakeup killed n bs s =
    Ok (write_result n (killed s) p bs)
       (over pl (set_p_lock false (push_all (take (room p bs) bs) p))
          (if write_wakes (killed s) p bs then wake (chan_nread pa) s else s)).
Proof.
  revert s. induction bs as [|c bs IH]; intros s p Hwf Hlk; subst p; simpl.
  - erewrite bind_run by apply env_wakeup.
    rewrite (bind_run _ _ _ _ _ (p_release_run _ ltac:(by rewrite env_wake_pipe))).
    by rewrite env_wake_pipe.
  - unfold mbind at 1, M_bind at 1, gets at 1.
    rewrite pipe_full_spec by done. case_bool_decide as Hf.
    + unfold mbind at 1, M_bind at 1, gets at 1. unfold write_result, write_wakes.
      rewrite room_cons_full by lia. rewrite bool_decide_eq_false_2 by (simpl; lia).
      rewrite decide_False by (simpl; lia). simpl.
      destruct (negb (p_readopen (view pl s)) || killed s).
      * by rewrite (bind_run _ _ _ _ _ (p_release_run _ Hlk)).
      * erewrite bind_run by apply env_wakeup.
        rewrite (bind_run _ _ _ _ _ (p_release_run _ ltac:(by rewrite env_wake_pipe))).
        by rewrite env_wake_pipe.
    + assert (pipe_len (view pl s) < PIPESIZE) as Hl by (pose proof (wf_len _ Hwf); lia).
      erewrite bind_run by by apply zoom_run.
      rewrite IH by (rewrite view_over; solve [by apply push_wf|done]).
      rewrite !view_over, env_over_killed. unfold write_result, write_wakes.
      rewrite room_cons by done. rewrite length_cons. simpl. f_equal.
      * repeat case_decide; try lia; done.
      * rewrite (bool_decide_ext (S (length bs) ≤ S (room (push c (view pl s)) bs))%nat
          (length bs ≤ room (push c (view pl s)) bs)%nat) by lia.
        destruct (bool_decide _ || _); rewrite ?env_wake_over, over_over; done.
Qed.

Lemma push_all_spec bs p :
  pipe_wf p → (length bs ≤ Z.to_nat (PIPESIZE - pipe_len p))%nat →
  pipe_wf (push_all bs p) ∧ contents (push_all bs p) = contents p ++ bs ∧
  p_lock (push_all bs p) = p_lock p ∧ p_readopen (push_all bs p) = p_readopen p ∧
  p_writeopen (push_all bs p) = p_writeopen p.
Proof.
  revert p. induction bs as [|c bs IH]; intros p Hwf Hl; simpl in *.
  { rewrite app_nil_r. done. }
  destruct (IH (push c p)) as (?&Hc&?&?&?).
  - apply push_wf; [done|lia].
  - rewrite push_len by (done || lia). lia.
  - rewrite Hc, push_contents by (done || lia). by rewrite <- app_assoc.
Qed.

Lemma push_all_lock bs b p : push_all bs (set_p_lock b p) = set_p_lock b (push_all bs p).
Proof.
  revert p. induction bs as [|c bs IH]; intros p; simpl; [done|].
  by rewrite <- (IH (push c p)).
Qed.

Lemma push_all_lock_eq bs p : p_lock (push_all bs p) = p_lock p.
Proof.
  revert p. induction bs as [|c bs IH]; intros p; simpl; [done|].
  by rewrite (IH (push c p)).
Qed.

Lemma set_p_lock_id b p : p_lock p = b → set_p_lock b p = p.
Proof. destruct p; simpl. by intros ->. Qed.

(** The pipe and the result after a write of [bs] by a thread. *)
Lemma pipewrite_run n bs s :
  let p := view pl s in
  pipe_wf p → p_lock p = false →
  pipewrite pl pa wakeup killed n bs s =
    Ok (write_result n (killed s) p bs)
       (over pl (push_all (take (room p bs) bs) p)
          (if write_wakes (killed s) p bs then wake (chan_nread pa) s else s)).
Proof.
  intros p Hwf Hlk. unfold pipewrite.
  rewrite (bind_run _ _ _ _ _ (p_acquire_run _ Hlk)).
  rewrite pipewrite_loop_run by (rewrite view_over; solve [destruct Hwf; by split|done]).
  rewrite view_over, env_over_killed.
  change (write_result n (killed s) (set_p_lock true (view pl s)) bs)
    with (write_result n (killed s) p bs).
  change (room (set_p_lock true (view pl s)) bs) with (room p bs).
  change (write_wakes (killed s) (set_p_lock true (view pl s)) bs)
    with (write_wakes (killed s) p bs).
  rewrite push_all_lock. change (set_p_lock false (set_p_lock true ?q)) with (set_p_lock false q).
  rewrite set_p_lock_id by (by rewrite push_all_lock_eq). f_equal.
  destruct (write_wakes _ _ _); by rewrite ?env_wake_over, over_over.
Qed.

(** [p] after [n] bytes were popped. *)
Fixpoint pop_all (n : nat) p : pipe :=
  match n with O => p | S n => pop_all n (pop p).2 end.

Lemma piperead_copy_run n s :
  let p := view pl s in
  pipe_wf p →
  piperead_copy pl n s =
    Ok (take n (contents p)) (over pl (pop_all (n `min` length (contents p)) p) s).
Proof.
  revert s. induction n as [|n IH]; intros s p Hwf; subst p; simpl.
  { by rewrite over_view. }
  unfold mbind at 1, M_bind at 1, gets at 1.
  rewrite pipe_empty_spec by done. case_bool_decide as He.
  { rewrite He. simpl. by rewrite over_view. }
  assert (0 < pipe_len (view pl s)) as Hl.
  { rewrite <- length_contents. destruct (contents _); [done|simpl; lia]. }
  erewrite bind_run by by apply zoom_run.
  erewrite bind_run by (apply IH; rewrite view_over; by apply pop_wf).
  rewrite view_over, over_over, (pop_contents (view pl s)) by done. done.
Qed.

Lemma pop_all_spec n p :
  pipe_wf p → (n ≤ length (contents p))%nat →
  pipe_wf (pop_all n p) ∧ contents (pop_all n p) = drop n (contents p) ∧
  p_lock (pop_all n p) = p_lock p ∧ p_readopen (pop_all n p) = p_readopen p ∧
  p_writeopen (pop_all n p) = p_writeopen p.
Proof.
  revert p. induction n as [|n IH]; intros p Hwf Hl; [done|].
  assert (0 < pipe_len p) by (rewrite <- length_contents; lia).
  rewrite (pop_contents p) in Hl |- * by done. rewrite length_cons in Hl.
  apply (IH (pop p).2); [by apply pop_wf|lia].
Qed.

Lemma pop_all_lock n b p : pop_all n (set_p_lock b p) = set_p_lock b (pop_all n p).
Proof.
  revert p. induction n as [|n IH]; intros p; [done|]. apply (IH (pop p).2).
Qed.

Lemma piperead_run n s :
  let p := view pl s in
  pipe_wf p → p_lock p = false →
  piperead pl pa wakeup killed n s =
    if pipe_empty p && p_writeopen p then
      Ok (if killed s then Returns (-1, []) else Sleeps (chan_nread pa) n) s
    else
      let bs := take (Z.to_nat n) (contents p) in
      Ok (Returns (Z.of_nat (length bs), bs))
         (over pl (pop_all (length bs) p) (wake (chan_nwrite pa) s)).
Proof.
  intros p Hwf Hlk. unfold piperead.
  rewrite (bind_run _ _ _ _ _ (p_acquire_run _ Hlk)).
  unfold mbind at 1, M_bind at 1, gets at 1. rewrite view_over.
  change (pipe_empty (set_p_lock true (view pl s))) with (pipe_empty p).
  change (p_writeopen (set_p_lock true (view pl s))) with (p_writeopen p).
  destruct (pipe_empty p && p_writeopen p).
  - unfold mbind at 1, M_bind at 1, gets at 1. rewrite env_over_killed.
    destruct (killed s); erewrite bind_run by (apply p_release_run; by rewrite view_over);
      rewrite view_over, over_over; change (set_p_lock false (set_p_lock true ?q))
        with (set_p_lock false q); rewrite set_p_lock_id, over_view by done; done.
  - erewrite bind_run by (apply piperead_copy_run; rewrite view_over; by destruct Hwf).
    rewrite view_over, over_over. change (contents (set_p_lock true (view pl s))) with (contents p).
    erewrite bind_run by apply env_wakeup.
    erewrite bind_run
      by (apply p_release_run; rewrite env_wake_over, view_over, pop_all_lock; done).
    rewrite env_wake_over, view_over, over_over, pop_all_lock.
    change (set_p_lock false (set_p_lock true ?q)) with (set_p_lock false q).
    rewrite length_take. fold p. cbv zeta.
    destruct (pop_all_spec (Z.to_nat n `min` length (contents p)) p Hwf) as (_&_&Hl&_); [lia|].
    rewrite set_p_lock_id; [done|congruence].
Qed.
End Specs.

(** * Invariants of the system of threads *)

Section Invariants.
Import System.
Context (pa : Z).
Implicit Types (w : world) (p : pipe) (t : thread).

#[local] Instance pipe_of_laws : LensLaws pipe_of.
Proof. split; by intros; destruct s. Qed.

Lemma wake_thread_killed ch t : t_killed (wake_thread ch t) = t_killed t.
Proof. unfold wake_thread. destruct (t_stat t); try done. by case_match. Qed.

Lemma wake_thread_active ch t : active (wake_thread ch t) = active t.
Proof. destruct t as [[] k]; try done. unfold wake_thread; simpl. by destruct (_ =? _). Qed.

#[local] Instance system_env tid : PipeEnv pipe_of wakeup (killed tid) wake.
Proof.
  split; try done; try apply _.
  intros ch w. unfold killed, wake; simpl. rewrite lookup_fmap.
  destruct (w_threads w !! tid); simpl; [apply wake_thread_killed|done].
Qed.

(** The pipe is well formed and unlocked between critical sections, and what
    was written is what was read followed by what is in the pipe. *)
Record fifo w : Prop := {
  fifo_wf : pipe_wf (w_pipe w);
  fifo_lock : p_lock (w_pipe w) = false;
  fifo_hist : w_written w = w_read w ++ contents (w_pipe w);
}.

(** A thread in a call holds its side of the pipe open. *)
Definition sides_held w : Prop :=
  ∀ tid t o, w_threads w !! tid = Some t → active t = Some o →
    side_open (is_write o) (w_pipe w) = true.

(** Whoever sleeps has a reason to. *)
Definition asleep_ok p t : Prop :=
  match t_stat t with
  | TAsleep ch (ORead _) => ch = chan_nread pa ∧ contents p = [] ∧ p_writeopen p = true
  | TAsleep ch (OWrite _ _) => ch = chan_nwrite pa ∧ pipe_len p = PIPESIZE ∧ p_readopen p = true
  | _ => True
  end.
Definition no_lost_wakeup w : Prop :=
  ∀ tid t, w_threads w !! tid = Some t → asleep_ok (w_pipe w) t.
Definition none_killed w : Prop :=
  map_Forall (λ _ t, t_killed t = false) (w_threads w).

Lemma start_fifo junk tids : length junk = 512%nat → fifo (start junk tids).
Proof.
  intros Hj. split; [|done|done]. split; simpl; [by rewrite Hj|lia|lia|].
  unfold pipe_len; simpl. by vm_compute.
Qed.

(** What a write leaves: the bytes taken, and a full pipe if not all fitted. *)
Lemma write_effect p bs :
  pipe_wf p →
  let p' := push_all (take (room p bs) bs) p in
  pipe_wf p' ∧ contents p' = contents p ++ take (room p bs) bs ∧
  p_lock p' = p_lock p ∧ p_readopen p' = p_readopen p ∧ p_writeopen p' = p_writeopen p ∧
  pipe_len p' = pipe_len p + Z.of_nat (room p bs) ∧
  ((room p bs < length bs)%nat → pipe_len p' = PIPESIZE).
Proof.
  intros Hwf p'. pose proof (pipe_len_range p).
  assert (length (take (room p bs) bs) = room p bs) as HL
    by (rewrite length_take; unfold room; lia).
  destruct (push_all_spec (take (room p bs) bs) p) as (?&Hc&?&?&?);
    [done|rewrite HL; unfold room; lia|].
  assert (pipe_len p' = pipe_len p + Z.of_nat (room p bs)) as Hlen.
  { rewrite <- !length_contents. unfold p'. rewrite Hc, length_app, HL. lia. }
  repeat split; try done; try apply H0. pose proof (wf_len _ Hwf).
  unfold room in *. lia.
Qed.

Lemma read_effect n p :
  pipe_wf p →
  let bs := take n (contents p) in
  let p' := pop_all (length bs) p in
  pipe_wf p' ∧ contents p = bs ++ contents p' ∧ p_lock p' = p_lock p ∧
  p_readopen p' = p_readopen p ∧ p_writeopen p' = p_writeopen p.
Proof.
  intros Hwf bs p'. destruct (pop_all_spec (length bs) p) as (?&Hc&?&?&?);
    [done|unfold bs; rewrite length_take; lia|].
  repeat split; try done; try apply H. unfold p'. rewrite Hc. unfold bs.
  rewrite length_take. rewrite <- (take_drop n (contents p)) at 1. f_equal.
  destruct (decide (n ≤ length (contents p))%nat); [by rewrite Nat.min_l by lia|].
  rewrite Nat.min_r by lia. by rewrite !drop_ge by lia.
Qed.

Lemma lookup_set_stat tid st w tid' t' :
  w_threads (set_stat tid st w) !! tid' = Some t' →
  (∃ t, w_threads w !! tid' = Some t ∧ tid' = tid ∧ t' = Thread st (t_killed t)) ∨
  (w_threads w !! tid' = Some t' ∧ tid' ≠ tid).
Proof.
  unfold set_stat; simpl. rewrite lookup_alter. case_decide as E; [subst|naive_solver].
  intros (t&->&?)%fmap_Some. naive_solver.
Qed.

Lemma lookup_wake ch w tid t' :
  w_threads (wake ch w) !! tid = Some t' →
  ∃ t, w_threads w !! tid = Some t ∧ t' = wake_thread ch t.
Proof. unfold wake; simpl. rewrite lookup_fmap. intros (t&->&?)%fmap_Some. eauto. Qed.

(** The state after a close. *)
Lemma pipeclose_run writable w w' :
  pipe_wf (w_pipe w) → p_lock (w_pipe w) = false →
  pipeclose pipe_of pa wakeup kfree writable w = Ok tt w' →
  w_threads w' = w_threads (wake (if writable then chan_nread pa else chan_nwrite pa) w) ∧
  w_pipe w' = (if writable then set_p_writeopen else set_p_readopen) false (w_pipe w) ∧
  w_written w' = w_written w ∧ w_read w' = w_read w.
Proof.
  intros Hwf Hlk. destruct w as [[lk d r wr ro wo] ts fr ww wrd]; simpl in *; subst lk.
  destruct writable, ro, wo; intros [= <-]; done.
Qed.

Lemma step_fifo w w' : fifo w → step pa w w' → fifo w'.
Proof.
  intros [Hwf Hlk Hh]. destruct 1 as
    [tid t o w Ht Hst Hop|tid t n bs r w w' Ht Hst Hrun|tid t n r w w' Ht Hst Hrun
    |tid t w Ht|writable w w' Hop Hact Hrun].
  - by split.
  - rewrite (pipewrite_run pipe_of pa wakeup (killed tid) wake) in Hrun by done.
    injection Hrun as <- <-.
    destruct (write_effect (w_pipe w) bs Hwf) as (Hwf'&Hc&Hlk'&Hro&Hwo&Hlen&_).
    split; simpl; [done|by rewrite Hlk'|].
    rewrite Hc, Hlen. replace (_ + _ - _) with (Z.of_nat (room (w_pipe w) bs)) by lia.
    rewrite Nat2Z.id. destruct (write_wakes _ _ _); simpl; by rewrite Hh, app_assoc.
  - rewrite (piperead_run pipe_of pa wakeup (killed tid) wake) in Hrun by done.
    simpl in Hrun. destruct (pipe_empty _ && _).
    + injection Hrun as <- <-. destruct (killed tid w); simpl; split; simpl; try done.
      by rewrite app_nil_r.
    + injection Hrun as <- <-.
      destruct (read_effect (Z.to_nat n) (w_pipe w) Hwf) as (Hwf'&Hc&Hlk'&_).
      split; simpl; [done|by rewrite Hlk'|]. by rewrite Hh, <- app_assoc, Hc at 1.
  - by split.
  - apply pipeclose_run in Hrun as (_&Hp&Hw&Hr); [|done..].
    rewrite <- Hw, <- Hr in Hh. destruct Hwf.
    destruct writable; split; rewrite Hp; try done; by split.
Qed.

(** Every thread after a step comes from a thread of the state before it;
    only the one that moved has another operation. *)
Lemma write_threads tid w n bs r w' tid' t' :
  pipe_wf (w_pipe w) → p_lock (w_pipe w) = false →
  pipewrite pipe_of pa wakeup (killed tid) n bs w = Ok r w' →
  w_threads w' !! tid' = Some t' →
  ∃ t, w_threads w !! tid' = Some t ∧
    t' = if write_wakes (killed tid w) (w_pipe w) bs then wake_thread (chan_nread pa) t else t.
Proof.
  intros Hwf Hlk Hrun Ht. rewrite (pipewrite_run pipe_of pa wakeup (killed tid) wake) in Hrun by done.
  injection Hrun as <- <-. simpl in Ht. destruct (write_wakes _ _ _); [by apply lookup_wake|eauto].
Qed.

Lemma step_sides w w' : fifo w → sides_held w → step pa w w' → sides_held w'.
Proof.
  intros [Hwf Hlk _] Hs. destruct 1 as
    [tid t o w Ht Hst Hop|tid t n bs r w w' Ht Hst Hrun|tid t n r w w' Ht Hst Hrun
    |tid t w Ht|writable w w' Hop Hact Hrun]; intros tid' t' o' Ht' Ho'.
  - apply lookup_set_stat in Ht' as [(t0&?&?&->)|[? ?]]; simpl in *; [by simplify_eq|eauto].
  - assert (side_open true (w_pipe w') = side_open true (w_pipe w) ∧
            side_open false (w_pipe w') = side_open false (w_pipe w)) as [E1 E2].
    { rewrite (pipewrite_run pipe_of pa wakeup (killed tid) wake) in Hrun by done.
      injection Hrun as <- <-. simpl.
      by destruct (write_effect (w_pipe w) bs Hwf) as (_&_&_&->&->&_). }
    assert (∀ b, side_open b (w_pipe w') = side_open b (w_pipe w)) as E by (by intros []).
    change (side_open (is_write o') (w_pipe w') = true). rewrite E.
    apply lookup_set_stat in Ht' as [(t0&Ht0&->&->)|[Ht0 ?]];
      eapply write_threads in Ht0 as (t1&Ht1&Et); try done; subst.
    + assert (is_write o' = true) as -> by by destruct r; simplify_eq/=.
      eapply (Hs tid t (OWrite n bs)); [done|]. unfold active. by rewrite Hst.
    + eapply Hs; [done|]. revert Ho'. case_match; by rewrite ?wake_thread_active.
  - rewrite (piperead_run pipe_of pa wakeup (killed tid) wake) in Hrun by done.
    assert (is_write (ORead n) = false) by done.
    assert (side_open false (w_pipe w) = true).
    { eapply (Hs tid t (ORead n)); [done|]. unfold active. by rewrite Hst. }
    simpl in Hrun. destruct (pipe_empty _ && _).
    + injection Hrun as <- <-. destruct (killed tid w); simpl in *;
        apply lookup_set_stat in Ht' as [(t0&?&?&->)|[? ?]]; simplify_eq/=; eauto.
    + injection Hrun as <- <-. simpl in Ht'.
      apply (lookup_set_stat tid TIdle (wake (chan_nwrite pa) w)) in Ht'. simpl.
      destruct (read_effect (Z.to_nat n) (w_pipe w) Hwf) as (_&_&_&Hro&Hwo).
      assert (∀ b p', p_readopen p' = p_readopen (w_pipe w) → p_writeopen p' = p_writeopen (w_pipe w) →
        side_open b p' = side_open b (w_pipe w)) as E by (by intros []).
      rewrite (E _ _ Hro Hwo).
      destruct Ht' as [(t0&?&?&->)|[Ht' ?]]; simplify_eq/=.
      apply (lookup_wake (chan_nwrite pa)) in Ht' as (t0&?&->).
      rewrite wake_thread_active in Ho'. eauto.
  - simpl in *. rewrite lookup_insert in Ht'. case_decide; simplify_eq; [|eauto].
    eapply Hs; [done|]. revert Ho'. unfold active. by destruct (t_stat t).
  - apply pipeclose_run in Hrun as (Hts&Hp&_); [|done..]. rewrite Hts in Ht'.
    apply lookup_wake in Ht' as (t0&Ht0&->). rewrite wake_thread_active in Ho'.
    pose proof (Hact _ _ _ Ht0 Ho'). pose proof (Hs _ _ _ Ht0 Ho').
    rewrite Hp. by destruct writable, (is_write o').
Qed.

(** Threads persist, and a killed one stays killed. *)
Definition persists w w' : Prop :=
  ∀ tid t, w_threads w !! tid = Some t →
    ∃ t', w_threads w' !! tid = Some t' ∧ (t_killed t = true → t_killed t' = true).

Lemma persists_trans w1 w2 w3 : persists w1 w2 → persists w2 w3 → persists w1 w3.
Proof.
  intros H1 H2 tid t (t2&Ht2&?)%H1. apply H2 in Ht2 as (t3&?&?). naive_solver.
Qed.

Lemma persists_set_stat tid st w : persists w (set_stat tid st w).
Proof.
  intros tid' t Ht. unfold set_stat; simpl. rewrite lookup_alter.
  case_decide; subst; rewrite ?Ht; simpl; eexists; split; done.
Qed.

Lemma persists_wake ch w : persists w (wake ch w).
Proof.
  intros tid t Ht. unfold wake; simpl. rewrite lookup_fmap, Ht. simpl.
  eexists; split; [done|]. by rewrite wake_thread_killed.
Qed.

Lemma persists_same w w' : w_threads w = w_threads w' → persists w w'.
Proof. intros E tid t. rewrite E. eauto. Qed.

Lemma step_persists w w' : fifo w → step pa w w' → persists w w'.
Proof.
  intros [Hwf Hlk _]. destruct 1 as
    [tid t o w Ht Hst Hop|tid t n bs r w w' Ht Hst Hrun|tid t n r w w' Ht Hst Hrun
    |tid t w Ht|writable w w' Hop Hact Hrun].
  - apply persists_set_stat.
  - eapply persists_trans; [|apply persists_set_stat].
    rewrite (pipewrite_run pipe_of pa wakeup (killed tid) wake) in Hrun by done.
    injection Hrun as <- <-. destruct (write_wakes _ _ _);
      [eapply persists_trans; [apply persists_wake|]|]; by apply persists_same.
  - apply persists_trans with w'.
    + rewrite (piperead_run pipe_of pa wakeup (killed tid) wake) in Hrun by done.
      simpl in Hrun. destruct (pipe_empty _ && _); injection Hrun as <- <-;
        [|eapply persists_trans; [apply persists_wake|]]; by apply persists_same.
    + destruct r as [[]|]; apply persists_set_stat.
  - intros tid' t' Ht'. simpl. rewrite lookup_insert. case_decide; [|by eauto].
    eexists; split; done.
  - apply pipeclose_run in Hrun as (Hts&_); [|done..].
    eapply persists_trans; [apply persists_wake|by apply persists_same].
Qed.

Lemma step_none_killed w w' : fifo w → step pa w w' → none_killed w' → none_killed w.
Proof.
  intros Hf Hst Hk tid t Ht.
  destruct (step_persists w w' Hf Hst tid t Ht) as (t'&Ht'&Hkk).
  specialize (Hk _ _ Ht'). simpl in *. destruct (t_killed t); [|done].
  rewrite Hkk in Hk; done.
Qed.

(** Waking one side leaves the sleepers of the other with their reason. *)
Lemma asleep_wake_readers p p' t :
  asleep_ok p t →
  (pipe_len p = PIPESIZE → p_readopen p = true → pipe_len p' = PIPESIZE ∧ p_readopen p' = true) →
  asleep_ok p' (wake_thread (chan_nread pa) t).
Proof.
  destruct t as [[|o|ch [n bs|n]] k]; unfold asleep_ok, wake_thread; simpl; try done.
  - intros (->&Hl&Hro) Hp. destruct (Z.eqb_spec (chan_nwrite pa) (chan_nread pa)); simpl; [done|].
    naive_solver.
  - intros (->&_) _. by rewrite Z.eqb_refl.
Qed.

Lemma asleep_wake_writers p p' t :
  asleep_ok p t →
  (contents p = [] → p_writeopen p = true → contents p' = [] ∧ p_writeopen p' = true) →
  asleep_ok p' (wake_thread (chan_nwrite pa) t).
Proof.
  destruct t as [[|o|ch [n bs|n]] k]; unfold asleep_ok, wake_thread; simpl; try done.
  - intros (->&_) _. by rewrite Z.eqb_refl.
  - intros (->&Hl&Hro) Hp. destruct (Z.eqb_spec (chan_nread pa) (chan_nwrite pa)) as [E|]; simpl;
      [unfold chan_nread, chan_nwrite in E; lia|]. naive_solver.
Qed.

Lemma step_write_wakeup tid t n bs r w w' :
  fifo w → sides_held w → none_killed w → no_lost_wakeup w →
  w_threads w !! tid = Some t → t_stat t = TReady (OWrite n bs) →
  pipewrite pipe_of pa wakeup (killed tid) n bs w = Ok r w' →
  no_lost_wakeup (set_stat tid (match r with
                            | Returns _ => TIdle
                            | Sleeps ch rest => TAsleep ch (OWrite n rest)
                            end) w').
Proof.
  intros [Hwf Hlk _] Hs Hk Hn Ht Hst Hrun tid' t' Ht'.
  assert (killed tid w = false) as Hkt by (unfold killed; rewrite Ht; eauto).
  apply lookup_set_stat in Ht' as [(t0&Ht0&->&->)|[Ht0 Hne]].
  - rewrite (pipewrite_run pipe_of pa wakeup (killed tid) wake) in Hrun by done.
    injection Hrun as <- <-. unfold write_result; simpl.
    destruct (write_effect (w_pipe w) bs Hwf) as (_&_&_&Hro&_&_&Hfull).
    case_decide; simpl; [done|]. rewrite Hkt, orb_false_r.
    destruct (p_readopen (w_pipe w)) eqn:E; simpl; [|done].
    unfold asleep_ok; simpl. repeat split; [apply Hfull; lia|congruence].
  - eapply write_threads in Ht0 as (t1&Ht1&->); [|done..].
    rewrite (pipewrite_run pipe_of pa wakeup (killed tid) wake) in Hrun by done.
    injection Hrun as <- <-. simpl.
    destruct (write_effect (w_pipe w) bs Hwf) as (_&Hc&_&Hro&Hwo&Hlen&Hfull).
    assert (pipe_len (w_pipe w) = PIPESIZE → room (w_pipe w) bs = 0%nat)
      by (unfold room; lia).
    destruct (write_wakes _ _ _) eqn:Hww.
    + eapply asleep_wake_readers; [by eapply Hn|]. intros. rewrite Hlen, Hro. split; [lia|done].
    + unfold write_wakes in Hww. rewrite Hkt, orb_false_r, negb_involutive in Hww.
      apply orb_false_iff in Hww as [_ Hnr].
      specialize (Hn _ _ Ht1). unfold asleep_ok in *.
      destruct (t_stat t1) as [|o|ch [n' bs'|n']] eqn:E1; try done.
      * destruct Hn as (_&_&?). congruence.
      * specialize (Hs _ t1 (ORead n') Ht1). unfold active in Hs. rewrite E1 in Hs.
        specialize (Hs eq_refl). simpl in Hs. congruence.
Qed.

Lemma step_no_lost_wakeup w w' :
  fifo w → sides_held w → none_killed w → no_lost_wakeup w → step pa w w' → no_lost_wakeup w'.
Proof.
  intros Hf Hs Hk Hn. destruct 1 as
    [tid t o w Ht Hst Hop|tid t n bs r w w' Ht Hst Hrun|tid t n r w w' Ht Hst Hrun
    |tid t w Ht|writable w w' Hop Hact Hrun].
  - intros tid' t' Ht'.
    apply lookup_set_stat in Ht' as [(t0&?&?&->)|[? ?]]; [done|by eapply Hn].
  - by eapply step_write_wakeup.
  - destruct Hf as [Hwf Hlk _].
    rewrite (piperead_run pipe_of pa wakeup (killed tid) wake) in Hrun by done.
    assert (killed tid w = false) as Hkt by (unfold killed; rewrite Ht; eauto).
    rewrite Hkt in Hrun. simpl in Hrun. rewrite pipe_empty_spec in Hrun by done.
    destruct (bool_decide _ && _) eqn:E; injection Hrun as <- <-; intros tid' t' Ht'.
    + apply andb_true_iff in E as [?%bool_decide_eq_true ?].
      apply lookup_set_stat in Ht' as [(t0&?&?&->)|[? ?]]; [done|by eapply Hn].
    + apply (lookup_set_stat tid TIdle (wake (chan_nwrite pa) w)) in Ht'
        as [(t0&?&?&->)|[Ht' ?]]; [done|].
      apply lookup_wake in Ht' as (t0&Ht0&->). eapply asleep_wake_writers; [by eapply Hn|].
      intros He Hwo. exfalso. rewrite Hwo, bool_decide_eq_true_2 in E; done.
  - intros tid' t' Ht'. simpl in *. rewrite lookup_insert in Ht'.
    case_decide; simplify_eq; [|by eapply Hn]. unfold asleep_ok; simpl.
    by destruct (t_stat t).
  - destruct Hf as [Hwf Hlk _]. apply pipeclose_run in Hrun as (Hts&Hp&_); [|done..].
    intros tid' t' Ht'. rewrite Hts in Ht'. apply lookup_wake in Ht' as (t0&Ht0&->).
    rewrite Hp. specialize (Hn _ _ Ht0). destruct writable.
    + by eapply asleep_wake_readers.
    + by eapply asleep_wake_writers.
Qed.

Lemma reachable_inv junk tids w :
  length junk = 512%nat → rtc (step pa) (start junk tids) w →
  fifo w ∧ sides_held w ∧ (none_killed w → no_lost_wakeup w).
Proof.
  intros Hj Hr. revert w Hr.
  apply (rtc_ind_r (R := step pa) (λ w, fifo w ∧ sides_held w ∧ (none_killed w → no_lost_wakeup w))
    (start junk tids)).
  - split_and!; [by apply start_fifo| |].
    + intros tid t o. simpl. rewrite lookup_fmap. intros (?&_&->)%fmap_Some. done.
    + intros _ tid t. simpl. rewrite lookup_fmap. intros (?&_&->)%fmap_Some. done.
  - intros w1 w2 _ Hst (Hf&Hs&Hn). split_and!; [by eapply step_fifo|by eapply step_sides|].
    intros Hk. pose proof (step_none_killed _ _ Hf Hst Hk). eapply step_no_lost_wakeup; eauto.
Qed.
End Invariants.

(** * The pipe's properties *)

Section Properties.
Import System.

(** C32. A pipe is a bounded queue.  From a fresh pipe (whatever the page held
    before), after any interleaving of calls, critical sections of pipewrite and
    piperead, sleeps, wakeups, kills and closes by any number of threads: the
    bytes that entered the pipe are those that left it followed by those still
    in it, in order; at most PIPESIZE bytes are in it, although nread and
    nwrite wrap around at 2^32; and the lock is free between critical
    sections. *)
Theorem pipe_fifo pa junk tids w :
  length junk = 512%nat → rtc (step pa) (start junk tids) w →
  w_written w = w_read w ++ contents (w_pipe w) ∧
  (length (contents (w_pipe w)) ≤ 512)%nat ∧ p_lock (w_pipe w) = false.
Proof.
  intros Hj Hr. destruct (reachable_inv pa junk tids w Hj Hr) as ([Hwf Hlk Hh]&_).
  split_and!; try done. pose proof (wf_len _ Hwf). rewrite <- length_contents in *.
  unfold PIPESIZE in *. lia.
Qed.

(** C33. No wakeup is lost.  In every state reachable from a fresh pipe in which
    no thread was killed, a sleeping reader sleeps on &p->nread and the pipe is
    empty with its write side open, and a sleeping writer sleeps on &p->nwrite
    and the pipe is full with its read side open. *)
Theorem pipe_no_lost_wakeup pa junk tids w tid t :
  length junk = 512%nat → rtc (step pa) (start junk tids) w → none_killed w →
  w_threads w !! tid = Some t → asleep_ok pa (w_pipe w) t.
Proof.
  intros Hj Hr Hk Ht. destruct (reachable_inv pa junk tids w Hj Hr) as (_&_&Hn).
  by eapply Hn.
Qed.

(** A pipe, a reader (thread 0) that finds it empty and sleeps, and a writer
    (thread 1) of three bytes. *)
Definition demo_start : world := start (replicate 512 0) {[0%nat := tt; 1%nat := tt]}.

Definition demo_run {A} (tid : nat) (m : (world → bool) → M world A) (k : A → world → world)
    (w : world) : world :=
  match m (killed tid) w with Ok r w' => k r w' | _ => w end.

Definition demo_write tid n bs w : world :=
  demo_run tid (λ k, pipewrite pipe_of 0 wakeup k n bs)
    (λ r w', log_written (take (Z.to_nat (pipe_len (w_pipe w') - pipe_len (w_pipe w))) bs)
             (set_stat tid (match r with
                            | Returns _ => TIdle
                            | Sleeps ch rest => TAsleep ch (OWrite n rest)
                            end) w')) w.
Definition demo_read tid n w : world :=
  demo_run tid (λ k, piperead pipe_of 0 wakeup k n)
    (λ r w', match r with
             | Returns (_, bs) => log_read bs (set_stat tid TIdle w')
             | Sleeps ch n' => set_stat tid (TAsleep ch (ORead n')) w'
             end) w.

Definition demo1 : world := demo_read 0 10 (set_stat 0 (TReady (ORead 10)) demo_start).
Definition demo2 : world :=
  demo_write 1 3 [7; 8; 9] (set_stat 1 (TReady (OWrite 3 [7; 8; 9])) demo1).

Ltac demo_call t o := eapply rtc_l; [eapply (step_call _ t _ o); reflexivity|].
Ltac demo_write_step t :=
  eapply rtc_l; [eapply (step_write _ t); [reflexivity|reflexivity|vm_compute; reflexivity]|].
Ltac demo_read_step t :=
  eapply rtc_l; [eapply (step_read _ t); [reflexivity|reflexivity|vm_compute; reflexivity]|].
Ltac demo_kill_step t := eapply rtc_l; [eapply (step_kill _ t); reflexivity|].

Lemma demo2_reachable : rtc (step 0) demo_start demo2.
Proof.
  demo_call 0%nat (ORead 10). demo_read_step 0%nat.
  demo_call 1%nat (OWrite 3 [7; 8; 9]). demo_write_step 1%nat.
  vm_compute. apply rtc_refl.
Qed.

Lemma pipe_fifo_witness :
  w_written demo2 = w_read demo2 ++ contents (w_pipe demo2) ∧
  (length (contents (w_pipe demo2)) ≤ 512)%nat ∧ p_lock (w_pipe demo2) = false.
Proof.
  apply (pipe_fifo 0 (replicate 512 0) {[0%nat := tt; 1%nat := tt]} demo2);
    [reflexivity|apply demo2_reachable].
Defined.

Lemma demo1_reachable : rtc (step 0) demo_start demo1.
Proof.
  demo_call 0%nat (ORead 10). demo_read_step 0%nat. vm_compute. apply rtc_refl.
Qed.

Lemma pipe_no_lost_wakeup_witness :
  asleep_ok 0 (w_pipe demo1) (Thread (TAsleep (chan_nread 0) (ORead 10)) false).
Proof.
  apply (pipe_no_lost_wakeup 0 (replicate 512 0) {[0%nat := tt; 1%nat := tt]} demo1 0%nat);
    [reflexivity|apply demo1_reachable| |reflexivity].
  apply (bool_decide_unpack _). vm_compute. exact I.
Defined.

(** A killed writer leaves readers asleep.  pipewrite returns -1 on a full
    pipe when its process was killed, without the wakeup of the readers that
    its other exit performs: a state is reachable in which a reader, not
    killed, sleeps on &p->nread although the pipe holds PIPESIZE bytes. *)
Theorem pipe_killed_writer_strands_reader :
  ∃ w, rtc (step 0) demo_start w ∧
    w_threads w !! 0%nat = Some (Thread (TAsleep (chan_nread 0) (ORead 10)) false) ∧
    pipe_len (w_pipe w) = PIPESIZE ∧ p_writeopen (w_pipe w) = true.
Proof.
  eexists. split.
  - demo_call 0%nat (ORead 10). demo_read_step 0%nat.
    demo_call 1%nat (OWrite 600 (replicate 600 7)). demo_kill_step 1%nat.
    demo_write_step 1%nat. apply rtc_refl.
  - vm_compute. done.
Qed.
End Properties.
