(* ===== verification/Bytes.v ===== *)
(** Arrays of bytes: ranges, little-endian fields and C strings in them.

    A byte is a [Z] in [0, 256); a block, a page or a struct is a list of
    them.  A field of a struct is read and written at its offset, in
    little-endian order. *)

From S2P Require Import Prelude.

Definition is_byte (b : Z) : Prop := 0 ≤ b < 256.
Abbreviation bytes := (Forall is_byte).

(** [sub off n l]: the [n] elements of [l] from [off] on. *)
Definition sub {A} (off n : nat) (l : list A) : list A := take n (drop off l).

(** [splice off new l]: [l] with the elements from [off] on replaced by [new]. *)
Definition splice {A} (off : nat) (new l : list A) : list A :=
  take off l ++ new ++ drop (off + length new) l.

(** Little-endian decoding and encoding. *)
Fixpoint le_dec (l : list Z) : Z :=
  match l with
  | [] => 0
  | b :: l => b + 256 * le_dec l
  end.
Fixpoint le_enc (n : nat) (z : Z) : list Z :=
  match n with
  | O => []
  | S n => z mod 256 :: le_enc n (z / 256)
  end.

Definition get_le (n off : nat) (l : list Z) : Z := le_dec (sub off n l).
Definition put_le (n off : nat) (z : Z) (l : list Z) : list Z := splice off (le_enc n z) l.

Abbreviation get_u16 := (get_le 2).
Abbreviation get_u32 := (get_le 4).
Abbreviation put_u16 := (put_le 2).
Abbreviation put_u32 := (put_le 4).

(** Character constants and string literals: the codes of the characters of a string. *)
Definition chars (s : string) : list Z :=
  (λ a, Z.of_N (Ascii.N_of_ascii a)) <$> String.list_ascii_of_string s.

(** The C string that starts the array [l]: what comes before the null. *)
Fixpoint until_null (l : list Z) : list Z :=
  match l with [] => [] | x :: l => if x =? 0 then [] else x :: until_null l end.

Lemma until_null_app l r : 0 ∉ l → until_null (l ++ 0 :: r) = l.
Proof.
  induction l as [|x l IH]; intros Hl; simpl; [done|]. rewrite not_elem_of_cons in Hl.
  destruct (Z.eqb_spec x 0); [naive_solver|]. f_equal. apply IH. naive_solver.
Qed.

(** * Ranges *)

Section ranges.
Context {A : Type}.
Implicit Types (l new : list A).

Lemma length_sub off n l : (off + n ≤ length l)%nat → length (sub off n l) = n.
Proof. intros. unfold sub. rewrite length_take, length_drop. lia. Qed.

Lemma lookup_sub off n l i :
  sub off n l !! i = if decide (i < n)%nat then l !! (off + i)%nat else None.
Proof.
  unfold sub. case_decide.
  - by rewrite lookup_take_lt, lookup_drop.
  - by rewrite lookup_take_ge by lia.
Qed.

Lemma length_splice off new l :
  (off + length new ≤ length l)%nat → length (splice off new l) = length l.
Proof. intros. unfold splice. rewrite !length_app, length_take, length_drop. lia. Qed.

Lemma lookup_splice off new l i :
  (off + length new ≤ length l)%nat →
  splice off new l !! i =
    if decide (off ≤ i < off + length new)%nat then new !! (i - off)%nat else l !! i.
Proof.
  intros Hl. unfold splice. case_decide as Hd.
  - rewrite lookup_app_r; rewrite length_take; [|lia].
    rewrite lookup_app_l by lia. f_equal. lia.
  - destruct (decide (i < off)%nat).
    + rewrite lookup_app_l by (rewrite length_take; lia). by rewrite lookup_take_lt.
    + rewrite lookup_app_r; rewrite length_take; [|lia].
      rewrite lookup_app_r by lia. rewrite lookup_drop. f_equal. lia.
Qed.

Lemma sub_splice_same off new l :
  (off + length new ≤ length l)%nat → sub off (length new) (splice off new l) = new.
Proof.
  intros Hl. apply list_eq. intros i. rewrite lookup_sub.
  case_decide; [|symmetry; apply lookup_ge_None; lia].
  rewrite lookup_splice by done. rewrite decide_True by lia. f_equal. lia.
Qed.

Lemma sub_splice_other off new l off' n :
  (off + length new ≤ length l)%nat →
  (off' + n ≤ off ∨ off + length new ≤ off')%nat →
  sub off' n (splice off new l) = sub off' n l.
Proof.
  intros Hl Hd. apply list_eq. intros i. rewrite !lookup_sub. case_decide; [|done].
  rewrite lookup_splice by done. by rewrite decide_False by lia.
Qed.

Lemma splice_all new l : length new = length l → splice 0 new l = new.
Proof. intros E. unfold splice. simpl. rewrite E, drop_all, app_nil_r. done. Qed.

Lemma sub_all l n : (length l ≤ n)%nat → sub 0 n l = l.
Proof. intros. unfold sub. rewrite drop_0. by apply take_ge. Qed.

Lemma splice_forall (P : A → Prop) off new l :
  Forall P new → Forall P l → Forall P (splice off new l).
Proof.
  intros. unfold splice. rewrite !Forall_app. split_and!; [by apply Forall_take|done|by apply Forall_drop].
Qed.

Lemma sub_forall (P : A → Prop) off n l : Forall P l → Forall P (sub off n l).
Proof. intros. unfold sub. by apply Forall_take, Forall_drop. Qed.
End ranges.

(** * Little-endian fields *)

Lemma length_le_enc n z : length (le_enc n z) = n.
Proof. revert z. induction n; intros; simpl; auto. Qed.

Lemma le_enc_bytes n z : bytes (le_enc n z).
Proof.
  revert z. induction n; intros; simpl; constructor; [|done].
  apply Z.mod_pos_bound. lia.
Qed.

Lemma pow256_S n : 256 ^ Z.of_nat (S n) = 256 * 256 ^ Z.of_nat n.
Proof. rewrite Nat2Z.inj_succ, Z.pow_succ_r by lia. done. Qed.

Lemma le_dec_enc n z : le_dec (le_enc n z) = z mod 256 ^ Z.of_nat n.
Proof.
  revert z. induction n as [|n IH]; intros z; [by rewrite Z.mod_1_r|].
  simpl le_enc. simpl le_dec. rewrite IH, pow256_S.
  rewrite (Z.rem_mul_r z 256) by lia. lia.
Qed.

Lemma le_dec_range l : bytes l → 0 ≤ le_dec l < 256 ^ Z.of_nat (length l).
Proof.
  induction 1 as [|b l Hb Hl IH]; [by simpl|].
  change (length (b :: l)) with (S (length l)). rewrite pow256_S. unfold is_byte in Hb.
  simpl. lia.
Qed.

Lemma le_enc_dec l : bytes l → le_enc (length l) (le_dec l) = l.
Proof.
  induction 1 as [|b l Hb Hl IH]; [done|]. unfold is_byte in Hb. simpl.
  replace ((b + 256 * le_dec l) mod 256) with b.
  - replace ((b + 256 * le_dec l) / 256) with (le_dec l); [by rewrite IH|].
    rewrite Z.mul_comm, Z.div_add, Z.div_small by lia. lia.
  - rewrite Z.mul_comm, Z_mod_plus_full, Z.mod_small by lia. done.
Qed.

Section fields.
Implicit Types (l : list Z) (z : Z) (n off : nat).

Lemma length_put_le n off z l : (off + n ≤ length l)%nat → length (put_le n off z l) = length l.
Proof. intros. apply length_splice. by rewrite length_le_enc. Qed.

Lemma put_le_bytes n off z l : bytes l → bytes (put_le n off z l).
Proof. intros. apply splice_forall; [apply le_enc_bytes|done]. Qed.

Lemma get_put_le_same n off z l :
  (off + n ≤ length l)%nat → get_le n off (put_le n off z l) = z mod 256 ^ Z.of_nat n.
Proof.
  intros. unfold get_le, put_le.
  pose proof (sub_splice_same off (le_enc n z) l) as E. rewrite length_le_enc in E.
  rewrite E by done. apply le_dec_enc.
Qed.

Lemma get_put_le_other n off z l n' off' :
  (off + n ≤ length l)%nat → (off' + n' ≤ off ∨ off + n ≤ off')%nat →
  get_le n' off' (put_le n off z l) = get_le n' off' l.
Proof.
  intros. unfold get_le, put_le. f_equal. apply sub_splice_other; by rewrite length_le_enc.
Qed.

Lemma get_le_range n off l :
  bytes l → (off + n ≤ length l)%nat → 0 ≤ get_le n off l < 256 ^ Z.of_nat n.
Proof.
  intros Hb Hl. unfold get_le.
  pose proof (le_dec_range (sub off n l) (sub_forall _ _ _ _ Hb)) as Hr.
  by rewrite length_sub in Hr.
Qed.

Lemma put_get_le n off l :
  bytes l → (off + n ≤ length l)%nat → put_le n off (get_le n off l) l = l.
Proof.
  intros Hb Hl. unfold put_le, get_le.
  pose proof (le_enc_dec (sub off n l) (sub_forall _ _ _ _ Hb)) as E.
  rewrite length_sub in E by done. rewrite E. unfold splice, sub.
  rewrite length_take, length_drop, Nat.min_l by lia.
  rewrite <- (take_drop off l) at 4. f_equal.
  rewrite <- (take_drop n (drop off l)) at 2. by rewrite drop_drop.
Qed.
End fields.

(** * Arrays of 32-bit words in a block *)

Definition u32s (off cnt : nat) (l : list Z) : list Z :=
  (λ i, get_u32 (off + 4 * i)%nat l) <$> seq 0 cnt.
