(* ===== verification/Layout.v ===== *)
(** The kernel's parameters (src/param.h) and the on-disk format of the file
    system (src/fs.h, src/stat.h): block layout, superblock, inodes and
    directory entries as bytes in blocks. *)

From S2P Require Import Prelude Bytes.

(** * src/param.h *)

Definition NPROC : Z := 64.
Definition KSTACKSIZE : Z := 4096.
Definition NCPU : Z := 8.
Definition NOFILE : nat := 16.
Definition NFILE : nat := 100.
Definition NINODE : nat := 50.
Definition NDEV : Z := 10.
Definition ROOTDEV : Z := 1.
Definition MAXARG : Z := 32.
Definition MAXOPBLOCKS : Z := 10.
Definition LOGSIZE : Z := MAXOPBLOCKS * 3.
Definition NBUF : nat := Z.to_nat (MAXOPBLOCKS * 3).
Definition FSSIZE : Z := 1000.

(** * src/fs.h *)

Definition ROOTINO : Z := 1.
Definition BSIZE : Z := 512.

Record superblock := Superblock {
  sb_size : Z;
  sb_nblocks : Z;
  sb_ninodes : Z;
  sb_nlog : Z;
  sb_logstart : Z;
  sb_inodestart : Z;
  sb_bmapstart : Z;
}.

Definition NDIRECT : nat := 12.
Definition NINDIRECT : nat := Z.to_nat (BSIZE / 4).
Definition MAXFILE : Z := Z.of_nat NDIRECT + Z.of_nat NINDIRECT.

Record dinode := Dinode {
  di_type : Z;
  di_major : Z;
  di_minor : Z;
  di_nlink : Z;
  di_size : Z;
  di_addrs : list Z;
}.

(** sizeof(struct dinode): four shorts, a uint and thirteen uints. *)
Definition DINODE_SIZE : Z := 4 * 2 + 4 + 4 * (Z.of_nat NDIRECT + 1).
Definition IPB : Z := BSIZE / DINODE_SIZE.
Definition IBLOCK (i : Z) (sb : superblock) : Z := i / IPB + sb_inodestart sb.
Definition BPB : Z := BSIZE * 8.
Definition BBLOCK (b : Z) (sb : superblock) : Z := b / BPB + sb_bmapstart sb.

Definition DIRSIZ : nat := 14.
Record dirent := Dirent { de_inum : Z; de_name : list Z }.
Definition DIRENT_SIZE : Z := 16.

(** * src/stat.h *)

Definition T_DIR : Z := 1.
Definition T_FILE : Z := 2.
Definition T_DEV : Z := 3.

(** * src/buf.h *)

Definition B_VALID : Z := 2.
Definition B_DIRTY : Z := 4.

(** * Structs as bytes *)

(** A block of the disk or of the cache. *)
Definition block (d : list Z) : Prop := length d = Z.to_nat BSIZE ∧ bytes d.
Definition zero_block : list Z := replicate (Z.to_nat BSIZE) 0.

(** The memmove of readsb: struct superblock at the start of block 1. *)
Definition sb_of_bytes (d : list Z) : superblock :=
  Superblock (get_u32 0 d) (get_u32 4 d) (get_u32 8 d) (get_u32 12 d)
    (get_u32 16 d) (get_u32 20 d) (get_u32 24 d).

(** struct dinode in the block [d] at byte [off]. *)
Definition dinode_of_bytes (off : nat) (d : list Z) : dinode :=
  Dinode (s16 (get_u16 off d)) (s16 (get_u16 (off + 2) d))
    (s16 (get_u16 (off + 4) d)) (s16 (get_u16 (off + 6) d))
    (get_u32 (off + 8) d) (u32s (off + 12) (NDIRECT + 1) d).

Fixpoint put_u32s (off : nat) (ws : list Z) (d : list Z) : list Z :=
  match ws with
  | [] => d
  | w :: ws => put_u32s (off + 4) ws (put_u32 off w d)
  end.

Definition dinode_to_bytes (off : nat) (di : dinode) (d : list Z) : list Z :=
  put_u32s (off + 12) (di_addrs di)
    (put_u32 (off + 8) (di_size di)
      (put_u16 (off + 6) (di_nlink di)
        (put_u16 (off + 4) (di_minor di)
          (put_u16 (off + 2) (di_major di)
            (put_u16 off (di_type di) d))))).

Definition dirent_of_bytes (d : list Z) : dirent :=
  Dirent (get_u16 0 d) (sub 2 DIRSIZ d).
Definition dirent_to_bytes (de : dirent) : list Z :=
  le_enc 2 (de_inum de) ++ de_name de.

Lemma NBUF_eq : NBUF = 30%nat.
Proof. done. Qed.
#[global] Opaque NBUF.

Lemma put_le_block n off z d :
  block d → Z.of_nat (off + n) ≤ BSIZE → block (put_le n off z d).
Proof.
  intros [Hl Hb] Ho. split; [|by apply put_le_bytes]. rewrite length_put_le; [done|].
  rewrite Hl. lia.
Qed.

Lemma length_put_u32s off ws d :
  (off + 4 * length ws ≤ length d)%nat → length (put_u32s off ws d) = length d.
Proof.
  revert off d. induction ws as [|w ws IH]; intros off d Hl; simpl in *; [done|].
  rewrite IH; rewrite length_put_le; lia.
Qed.

Lemma put_u32s_bytes off ws d : bytes d → bytes (put_u32s off ws d).
Proof.
  revert off d. induction ws as [|w ws IH]; intros off d Hl; simpl in *; [done|].
  apply IH. by apply put_le_bytes.
Qed.

#[global] Instance block_dec d : Decision (block d).
Proof. unfold block, is_byte. apply _. Defined.
