(* ===== verification/Ports.v ===== *)
(** Interrupt numbers (src/traps.h) and port input and output (src/x86.h): the instructions through which drivers reach the
    devices.  A device is a type of states [D] with these operations; each driver states in a
    class of its own what it relies on. *)

From S2P Require Import Prelude.

Definition T_IRQ0 : Z := 32.
Definition IRQ_TIMER : Z := 0.
Definition IRQ_KBD : Z := 1.
Definition IRQ_COM1 : Z := 4.
Definition IRQ_IDE : Z := 14.
Definition IRQ_ERROR : Z := 19.
Definition IRQ_SPURIOUS : Z := 31.

(** insl and outsl transfer a number of four-byte words. *)
Class Ports (D : Type) := {
  inb : Z → D → Z * D;
  outb : Z → Z → D → D;
  insl : Z → nat → D → list Z * D;
  outsl : Z → list Z → D → D;
}.

(** A read of a port and a write to one, for a device in a larger state. *)
Definition io_in `{Ports D} {St} (dev : lens St D) (port : Z) : M St Z := λ s,
  let '(v, d) := inb port (view dev s) in Ok v (over dev d s).
Definition io_out `{Ports D} {St} (dev : lens St D) (port v : Z) : M St unit :=
  modify (λ s, over dev (outb port (u8 v) (view dev s)) s).
