(* ===== verification/Blocks.v ===== *)
(** The interface between the buffer cache and its clients (log.c, fs.c):
    what bread, bwrite and brelse promise.

    The client sees blocks through [view]: the cached contents of a block if
    it is cached and the disk's otherwise.  [held] are the buffers it has
    locked, [dirty] the blocks that are marked B_DIRTY and therefore stay in
    the cache, and [trace] the sequence of completed disk writes. *)

From S2P Require Import Prelude Bytes Layout.

Class BlockIO (St : Type) := {
  bread : Z → Z → M St nat;
  bwrite : nat → M St unit;
  brelse : nat → M St unit;
  (** b->data, stores into it, b->blockno, and b->flags |= B_DIRTY *)
  bdata : nat → St → list Z;
  set_bdata : nat → list Z → M St unit;
  bblockno : nat → St → Z;
  mark_dirty : nat → M St unit;
  (** the state of a machine that boots on a disk *)
  boot : list (list Z) → St;
}.

(** A sequence of block writes applied to a disk. *)
Definition apply_writes (tr : list (Z * list Z)) (d : list (list Z)) : list (list Z) :=
  fold_left (λ d w, <[Z.to_nat w.1 := w.2]> d) tr d.

Class BlockIOSpec (St : Type) `{!BlockIO St} := {
  bio_inv : St → Prop;
  bview : St → list (list Z);
  bdisk : St → list (list Z);
  btrace : St → list (Z * list Z);
  bdirty : St → gset Z;
  bheld : St → gmap nat Z;

  bio_view_length s : bio_inv s → length (bview s) = length (bdisk s);
  bio_view_blocks s : bio_inv s → Forall block (bview s);
  bio_disk_blocks s : bio_inv s → Forall block (bdisk s);
  bio_held_data s b n : bio_inv s → bheld s !! b = Some n →
    bview s !! Z.to_nat n = Some (bdata b s);
  bio_held_blockno s b n : bio_inv s → bheld s !! b = Some n → bblockno b s = n;
  bio_held_range s b n :
    bio_inv s → bheld s !! b = Some n → 0 ≤ n < Z.of_nat (length (bdisk s));
  bio_held_inj s b b' n :
    bio_inv s → bheld s !! b = Some n → bheld s !! b' = Some n → b = b';
  bio_clean s n :
    bio_inv s → 0 ≤ n < Z.of_nat (length (bdisk s)) → n ∉ bdirty s →
    (∀ b, bheld s !! b ≠ Some n) → bdisk s !! Z.to_nat n = bview s !! Z.to_nat n;

  bread_spec s n :
    bio_inv s → 0 ≤ n < Z.of_nat (length (bdisk s)) →
    (∀ b, bheld s !! b ≠ Some n) →
    n ∈ bdirty s ∨ (size (bdirty s ∪ map_img (bheld s)) < NBUF)%nat →
    wp (bread ROOTDEV n) (λ b s',
      bio_inv s' ∧ bview s' = bview s ∧ bdisk s' = bdisk s ∧ btrace s' = btrace s ∧
      bdirty s' = bdirty s ∧ bheld s !! b = None ∧ bheld s' = <[b := n]> (bheld s)) s;
  set_bdata_spec s b n d :
    bio_inv s → bheld s !! b = Some n → block d →
    wp (set_bdata b d) (λ _ s',
      bio_inv s' ∧ bview s' = <[Z.to_nat n := d]> (bview s) ∧ bdisk s' = bdisk s ∧
      btrace s' = btrace s ∧ bdirty s' = bdirty s ∧ bheld s' = bheld s) s;
  mark_dirty_spec s b n :
    bio_inv s → bheld s !! b = Some n →
    wp (mark_dirty b) (λ _ s',
      bio_inv s' ∧ bview s' = bview s ∧ bdisk s' = bdisk s ∧
      btrace s' = btrace s ∧ bdirty s' = {[n]} ∪ bdirty s ∧ bheld s' = bheld s) s;
  bwrite_spec s b n :
    bio_inv s → bheld s !! b = Some n →
    wp (bwrite b) (λ _ s',
      bio_inv s' ∧ bview s' = bview s ∧ bdisk s' = <[Z.to_nat n := bdata b s]> (bdisk s) ∧
      btrace s' = btrace s ++ [(n, bdata b s)] ∧ bdirty s' = bdirty s ∖ {[n]} ∧
      bheld s' = bheld s) s;
  brelse_spec s b n :
    bio_inv s → bheld s !! b = Some n →
    n ∈ bdirty s ∨ bdisk s !! Z.to_nat n = bview s !! Z.to_nat n →
    wp (brelse b) (λ _ s',
      bio_inv s' ∧ bview s' = bview s ∧ bdisk s' = bdisk s ∧
      btrace s' = btrace s ∧ bdirty s' = bdirty s ∧ bheld s' = delete b (bheld s)) s;
  boot_spec d :
    Forall block d →
    bio_inv (boot d) ∧ bdisk (boot d) = d ∧ btrace (boot d) = [] ∧
    bdirty (boot d) = ∅ ∧ bheld (boot d) = ∅;
}.

(** * Sequences of writes *)

Section writes.
Implicit Types (d : list (list Z)) (w : list (Z * list Z)) (k : nat).

Lemma apply_writes_app w1 w2 d : apply_writes (w1 ++ w2) d = apply_writes w2 (apply_writes w1 d).
Proof. apply fold_left_app. Qed.

Lemma length_apply_writes w d : length (apply_writes w d) = length d.
Proof.
  revert d. induction w as [|x w IH]; intros d; simpl; [done|]. by rewrite IH, length_insert.
Qed.

Lemma apply_writes_other w d k :
  (∀ x, x ∈ w → Z.to_nat x.1 ≠ k) → apply_writes w d !! k = d !! k.
Proof.
  revert d. induction w as [|x w IH]; intros d Hk; simpl; [done|].
  rewrite IH by (intros y Hy; apply Hk; set_solver).
  apply list_lookup_insert_ne, Hk. set_solver.
Qed.

Lemma apply_writes_block w d :
  Forall (block ∘ snd) w → Forall block d → Forall block (apply_writes w d).
Proof.
  revert d. induction w as [|x w IH]; intros d Hw Hd; simpl; [done|].
  apply Forall_cons_1 in Hw as [? ?]. apply IH; [done|]. by apply Forall_insert.
Qed.

Lemma apply_writes_last w d x :
  NoDup (Z.to_nat ∘ fst <$> w) → x ∈ w → (Z.to_nat x.1 < length d)%nat →
  apply_writes w d !! Z.to_nat x.1 = Some x.2.
Proof.
  revert d. induction w as [|y w IH]; intros d Hnd Hx Hlt; [set_solver|].
  apply list.NoDup_cons in Hnd as [Hy Hnd]. simpl. apply elem_of_cons in Hx as [->|Hx].
  - rewrite apply_writes_other; [by apply list_lookup_insert_eq|].
    intros z Hz E. apply Hy. apply list_elem_of_fmap. by exists z.
  - apply IH; [done..|]. by rewrite length_insert.
Qed.

(** Writes hide what was in the blocks that they write. *)
Lemma apply_writes_agree w d d' :
  length d = length d' →
  (∀ k, d !! k = d' !! k ∨ ∃ x, x ∈ w ∧ Z.to_nat x.1 = k) →
  apply_writes w d = apply_writes w d'.
Proof.
  revert d d'. induction w as [|x w IH]; intros d d' Hl Hag; simpl.
  - apply list_eq. intros k. destruct (Hag k) as [?|(?&?&_)]; [done|set_solver].
  - apply IH; [by rewrite !length_insert|]. intros k.
    destruct (decide (k = Z.to_nat x.1)) as [->|Hk].
    + left. destruct (decide (Z.to_nat x.1 < length d)%nat).
      * by rewrite !list_lookup_insert_eq by lia.
      * rewrite !lookup_ge_None_2; [done|rewrite length_insert; lia..].
    + rewrite !list_lookup_insert_ne by done. destruct (Hag k) as [?|(y&Hy&?)]; [by left|].
      apply elem_of_cons in Hy as [->|Hy]; [done|]. right. eauto.
Qed.

Lemma apply_writes_lookup_eq w d d' k :
  length d = length d' → d !! k = d' !! k → apply_writes w d !! k = apply_writes w d' !! k.
Proof.
  revert d d'. induction w as [|x w IH]; intros d d' Hl Hk; simpl; [done|].
  apply IH; [by rewrite !length_insert|]. destruct (decide (k = Z.to_nat x.1)) as [->|Hne].
  - destruct (decide (Z.to_nat x.1 < length d)%nat).
    + by rewrite !list_lookup_insert_eq by lia.
    + rewrite !lookup_ge_None_2; [done|rewrite length_insert; lia..].
  - by rewrite !list_lookup_insert_ne.
Qed.
End writes.
