(* ===== verification/Sleeplock.v ===== *)
(** Sleep locks (src/sleeplock.c): long-term locks whose waiters sleep. *)

From S2P Require Import Prelude.

(** struct sleeplock; [sl_lk] says whether its spinlock is held. *)
Record sleeplock := Sleeplock { sl_lk : bool; sl_locked : bool; sl_pid : Z }.

Definition set_sl_lk (b : bool) (l : sleeplock) : sleeplock :=
  Sleeplock b (sl_locked l) (sl_pid l).
Definition set_sl_locked (b : bool) (pid : Z) (l : sleeplock) : sleeplock :=
  Sleeplock (sl_lk l) b pid.

Definition sl_lk_lens : lens sleeplock bool := Lens sl_lk set_sl_lk.

Definition initsleeplock : sleeplock := Sleeplock false false 0.

Section Code.
Context {St : Type} (sl : lens St sleeplock) (chan : Z) (wakeup : Z → M St unit).

Definition sl_acquire : M St unit := zoom sl (acquire sl_lk_lens).
Definition sl_release : M St unit := zoom sl (release sl_lk_lens).

(** [pid] is proc->pid; [sleep] releases the spinlock, and the thread resumes
    at the test of the while, that is with a new [acquiresleep]. *)
Definition acquiresleep (pid : Z) : M St unit :=
  sl_acquire;;
  l ← gets (view sl);
  if sl_locked l then
    sl_release;;
    sleep_on chan
  else
    zoom sl (modify (set_sl_locked true pid));;
    sl_release.

Definition releasesleep : M St unit :=
  sl_acquire;;
  zoom sl (modify (set_sl_locked false 0));;
  wakeup chan;;
  sl_release.

Definition holdingsleep : M St bool :=
  sl_acquire;;
  r ← gets (λ s, sl_locked (view sl s));
  sl_release;;
  mret r.
End Code.
