(* ===== verification/Bio.v ===== *)
(** The disk driver with a memory disk (src/memide.c) and the buffer cache
    (src/bio.c).

    Buffers are numbered: [struct buf *] is an index below NBUF, and NBUF is
    bcache.head.  The prev and next fields of the buffers and of the head,
    which form the doubly linked MRU list, are the arrays [bc_prev] and
    [bc_next]; the other fields are in [bc_bufs]. *)

From S2P Require Import Prelude Bytes Layout Blocks Sleeplock.

(** struct buf, without prev and next *)
Record buf := Buf {
  b_flags : Z;
  b_dev : Z;
  b_blockno : Z;
  b_lock : sleeplock;
  b_refcnt : Z;
  b_data : list Z;
}.

Definition set_b_flags (f : Z) (b : buf) : buf :=
  Buf f (b_dev b) (b_blockno b) (b_lock b) (b_refcnt b) (b_data b).
Definition set_b_lock (l : sleeplock) (b : buf) : buf :=
  Buf (b_flags b) (b_dev b) (b_blockno b) l (b_refcnt b) (b_data b).
Definition set_b_refcnt (r : Z) (b : buf) : buf :=
  Buf (b_flags b) (b_dev b) (b_blockno b) (b_lock b) r (b_data b).
Definition set_b_data (d : list Z) (b : buf) : buf :=
  Buf (b_flags b) (b_dev b) (b_blockno b) (b_lock b) (b_refcnt b) d.

(** bcache, the disk, the process that runs, the wakeups issued so far and
    the disk writes completed so far. *)
Record bcache := Bcache {
  bc_lock : bool;
  bc_bufs : list buf;
  bc_next : list nat;
  bc_prev : list nat;
  bc_disk : list (list Z);
  bc_pid : Z;
  bc_wakes : list Z;
  bc_trace : list (Z * list Z);
}.

Definition set_bc_lock (l : bool) (s : bcache) : bcache :=
  Bcache l (bc_bufs s) (bc_next s) (bc_prev s) (bc_disk s) (bc_pid s) (bc_wakes s) (bc_trace s).
Definition set_bc_bufs (bs : list buf) (s : bcache) : bcache :=
  Bcache (bc_lock s) bs (bc_next s) (bc_prev s) (bc_disk s) (bc_pid s) (bc_wakes s) (bc_trace s).
Definition set_bc_next (nx : list nat) (s : bcache) : bcache :=
  Bcache (bc_lock s) (bc_bufs s) nx (bc_prev s) (bc_disk s) (bc_pid s) (bc_wakes s) (bc_trace s).
Definition set_bc_prev (pv : list nat) (s : bcache) : bcache :=
  Bcache (bc_lock s) (bc_bufs s) (bc_next s) pv (bc_disk s) (bc_pid s) (bc_wakes s) (bc_trace s).
Definition bcache_lock : lens bcache bool := Lens bc_lock set_bc_lock.

(** &bcache.head *)
Definition HEAD : nat := NBUF.

Definition getbuf (b : nat) : M bcache buf :=
  bs ← gets bc_bufs; the "buf" (bs !! b).
(** an assignment to fields of *b *)
Definition updbuf (b : nat) (f : buf → buf) : M bcache unit :=
  modify (λ s, set_bc_bufs (alter f b (bc_bufs s)) s).
(** b->next, b->prev and assignments to them *)
Definition get_next (b : nat) : M bcache nat :=
  nx ← gets bc_next; the "next" (nx !! b).
Definition get_prev (b : nat) : M bcache nat :=
  pv ← gets bc_prev; the "prev" (pv !! b).
Definition set_next (b x : nat) : M bcache unit :=
  modify (λ s, set_bc_next (<[b := x]> (bc_next s)) s).
Definition set_prev (b x : nat) : M bcache unit :=
  modify (λ s, set_bc_prev (<[b := x]> (bc_prev s)) s).

Definition wakeup (ch : Z) : M bcache unit :=
  modify (λ s, Bcache (bc_lock s) (bc_bufs s) (bc_next s) (bc_prev s) (bc_disk s) (bc_pid s)
                 (bc_wakes s ++ [ch]) (bc_trace s)).

(** b->lock *)
Definition zero_buf : buf := Buf 0 0 0 initsleeplock 0 zero_block.
Definition buf_at (s : bcache) (b : nat) : buf := default zero_buf (bc_bufs s !! b).
Definition buf_lock (b : nat) : lens bcache sleeplock :=
  Lens (λ s, b_lock (buf_at s b))
       (λ l s, set_bc_bufs (alter (set_b_lock l) b (bc_bufs s)) s).

Definition b_acquiresleep (b : nat) : M bcache unit :=
  pid ← gets bc_pid; acquiresleep (buf_lock b) (Z.of_nat b) pid.
Definition b_releasesleep (b : nat) : M bcache unit :=
  releasesleep (buf_lock b) (Z.of_nat b) wakeup.
Definition b_holdingsleep (b : nat) : M bcache bool := holdingsleep (buf_lock b).

Definition dirtyb (b : buf) : bool := negb (Z.land (b_flags b) B_DIRTY =? 0).
Definition validb (b : buf) : bool := negb (Z.land (b_flags b) B_VALID =? 0).

(** ideinit of memide.c: the image in memory, of which the whole blocks are the disk. *)
Definition memide_init (image : list Z) : M bcache unit :=
  let blocks := (λ i, sub (i * Z.to_nat BSIZE) (Z.to_nat BSIZE) image) <$> seq 0 (length image / Z.to_nat BSIZE) in
  modify (λ s, Bcache (bc_lock s) (bc_bufs s) (bc_next s) (bc_prev s) blocks (bc_pid s) (bc_wakes s) (bc_trace s)).

(** iderw of memide.c; disksize is the number of blocks of the image. *)
Definition iderw (b : nat) : M bcache unit :=
  h ← b_holdingsleep b;
  if negb h then panic "iderw: buf not locked" else
  bf ← getbuf b;
  if Z.land (b_flags bf) (Z.lor B_VALID B_DIRTY) =? B_VALID then panic "iderw: nothing to do" else
  if negb (b_dev bf =? 1) then panic "iderw: request not for disk 1" else
  disk ← gets bc_disk;
  if Z.of_nat (length disk) <=? b_blockno bf then panic "iderw: block out of range" else
  (if dirtyb bf then
     updbuf b (λ bf, set_b_flags (Z.land (b_flags bf) (Z.lnot B_DIRTY)) bf);;
     modify (λ s, Bcache (bc_lock s) (bc_bufs s) (bc_next s) (bc_prev s)
                    (<[Z.to_nat (b_blockno bf) := b_data bf]> (bc_disk s)) (bc_pid s)
                    (bc_wakes s) (bc_trace s ++ [(b_blockno bf, b_data bf)]))
   else
     d ← the "memdisk" (disk !! Z.to_nat (b_blockno bf));
     updbuf b (set_b_data d));;
  updbuf b (λ bf, set_b_flags (Z.lor (b_flags bf) B_VALID) bf).

(** One iteration of the loop of binit. *)
Definition binit_buf (b : nat) : M bcache unit :=
  n ← get_next HEAD;
  set_next b n;;
  set_prev b HEAD;;
  updbuf b (set_b_lock initsleeplock);;
  n ← get_next HEAD;
  set_prev n b;;
  set_next HEAD b.

Fixpoint binit_bufs (bs : list nat) : M bcache unit :=
  match bs with
  | [] => mret tt
  | b :: bs => binit_buf b;; binit_bufs bs
  end.

Definition binit : M bcache unit :=
  modify (set_bc_lock false);;
  set_prev HEAD HEAD;;
  set_next HEAD HEAD;;
  binit_bufs (seq 0 NBUF).

(** The two searches of bget. *)
Fixpoint bget_cached (fuel : nat) (dev blockno : Z) (b : nat) : M bcache (option nat) :=
  if decide (b = HEAD) then mret None else
  match fuel with
  | O => out_of_fuel
  | S fuel =>
      bf ← getbuf b;
      if (b_dev bf =? dev) && (b_blockno bf =? blockno) then mret (Some b)
      else n ← get_next b; bget_cached fuel dev blockno n
  end.

Fixpoint bget_unused (fuel : nat) (b : nat) : M bcache (option nat) :=
  if decide (b = HEAD) then mret None else
  match fuel with
  | O => out_of_fuel
  | S fuel =>
      bf ← getbuf b;
      if (b_refcnt bf =? 0) && (Z.land (b_flags bf) B_DIRTY =? 0) then mret (Some b)
      else p ← get_prev b; bget_unused fuel p
  end.

Definition bget (dev blockno : Z) : M bcache nat :=
  acquire bcache_lock;;
  first ← get_next HEAD;
  hit ← bget_cached NBUF dev blockno first;
  match hit with
  | Some b =>
      updbuf b (λ bf, set_b_refcnt (u32 (b_refcnt bf + 1)) bf);;
      release bcache_lock;;
      b_acquiresleep b;;
      mret b
  | None =>
      last ← get_prev HEAD;
      victim ← bget_unused NBUF last;
      match victim with
      | Some b =>
          updbuf b (λ bf, Buf 0 dev blockno (b_lock bf) 1 (b_data bf));;
          release bcache_lock;;
          b_acquiresleep b;;
          mret b
      | None => panic "bget: no buffers"
      end
  end.

Definition bread (dev blockno : Z) : M bcache nat :=
  b ← bget dev blockno;
  bf ← getbuf b;
  when (negb (validb bf)) (iderw b);;
  mret b.

Definition bwrite (b : nat) : M bcache unit :=
  h ← b_holdingsleep b;
  if negb h then panic "bwrite" else
  updbuf b (λ bf, set_b_flags (Z.lor (b_flags bf) B_DIRTY) bf);;
  iderw b.

(** "no one is waiting for it": the block of the if in brelse. *)
Definition brelse_mru (b : nat) : M bcache unit :=
  n ← get_next b;
  p ← get_prev b;
  set_prev n p;;
  set_next p n;;
  first ← get_next HEAD;
  set_next b first;;
  set_prev b HEAD;;
  first ← get_next HEAD;
  set_prev first b;;
  set_next HEAD b.

Definition brelse (b : nat) : M bcache unit :=
  h ← b_holdingsleep b;
  if negb h then panic "brelse" else
  b_releasesleep b;;
  acquire bcache_lock;;
  updbuf b (λ bf, set_b_refcnt (u32 (b_refcnt bf - 1)) bf);;
  bf ← getbuf b;
  when (b_refcnt bf =? 0) (brelse_mru b);;
  release bcache_lock.

(** Zeroed memory (the bss) before binit, with a disk image. *)
Definition bss (disk : list (list Z)) : bcache :=
  Bcache false (replicate NBUF zero_buf) (replicate (S NBUF) 0%nat) (replicate (S NBUF) 0%nat)
    disk 0 [] [].

Definition boot_cache (disk : list (list Z)) : bcache :=
  match binit (bss disk) with Ok _ s => s | _ => bss disk end.

(** * Doubly linked lists *)

(** From node [x] the nodes [l] are linked in this order and [y] follows. *)
Fixpoint linked (nx pv : nat → nat) (x : nat) (l : list nat) (y : nat) : Prop :=
  match l with
  | [] => nx x = y ∧ pv y = x
  | a :: l => nx x = a ∧ pv a = x ∧ linked nx pv a l y
  end.

(** The MRU list: the buffers in [order] between the head and itself. *)
Definition mru (s : bcache) (order : list nat) : Prop :=
  length (bc_next s) = S NBUF ∧ length (bc_prev s) = S NBUF ∧
  order ≡ₚ seq 0 NBUF ∧
  linked (λ i, bc_next s !!! i) (λ i, bc_prev s !!! i) HEAD order HEAD.

Section linked.
Implicit Types (nx pv : nat → nat) (l : list nat) (x y : nat).

Lemma linked_app nx pv x l1 a l2 y :
  linked nx pv x (l1 ++ a :: l2) y ↔ linked nx pv x l1 a ∧ linked nx pv a l2 y.
Proof.
  revert x. induction l1 as [|c l1 IH]; intros x; simpl; [tauto|].
  rewrite IH. tauto.
Qed.

Lemma linked_ext nx pv nx' pv' x l y :
  (∀ i, i ∈ x :: l → nx' i = nx i) → (∀ i, i ∈ l ++ [y] → pv' i = pv i) →
  linked nx pv x l y → linked nx' pv' x l y.
Proof.
  revert x. induction l as [|a l IH]; intros x Hn Hp; simpl.
  - rewrite Hn, Hp by set_solver. done.
  - rewrite Hn, Hp by set_solver. intros (?&?&?). split_and!; [done..|].
    apply IH; set_solver.
Qed.

Lemma linked_next nx pv x l y : linked nx pv x l y → nx x ∈ l ++ [y].
Proof. destruct l; simpl; [intros [-> _]|intros [-> _]]; set_solver. Qed.

Lemma linked_prev nx pv x l y : linked nx pv x l y → pv y ∈ x :: l.
Proof.
  revert x. induction l as [|a l IH]; intros x; simpl; [intros [_ ->]; set_solver|].
  intros (_&_&H%IH). set_solver.
Qed.

(** Removing a node by joining its neighbours. *)
Lemma linked_unlink nx pv nx' pv' x l1 b l2 y :
  NoDup (l1 ++ b :: l2) → x ∉ l1 ++ b :: l2 → y ∉ l1 ++ b :: l2 →
  linked nx pv x l1 b → linked nx pv b l2 y →
  (∀ i, nx' i = if decide (i = pv b) then nx b else nx i) →
  (∀ i, pv' i = if decide (i = nx b) then pv b else pv i) →
  linked nx' pv' x (l1 ++ l2) y.
Proof.
  revert x. induction l1 as [|c l1 IH]; intros x Hnd Hx Hy H1 H2 Hnx Hpv; simpl in *.
  - destruct H1 as [Hxb Hbx]. destruct l2 as [|a l2]; simpl in *.
    + destruct H2 as [Hby _]. rewrite Hnx, Hpv, Hby, Hbx, !decide_True by done. done.
    + destruct H2 as (Hba&_&H2). rewrite Hnx, Hpv, Hba, Hbx, !decide_True by done.
      split_and!; [done..|]. eapply linked_ext, H2.
      * intros i Hi. rewrite Hnx, decide_False; [done|]. rewrite Hbx. clear -Hx Hi. set_solver.
      * intros i Hi. rewrite Hpv, decide_False; [done|]. rewrite Hba.
        apply list.NoDup_cons in Hnd as [_ [Ha _]%list.NoDup_cons].
        clear -Ha Hy Hi. set_solver.
  - destruct H1 as (Hxc&Hcx&H1). apply list.NoDup_cons in Hnd as [Hc Hnd].
    pose proof (linked_prev _ _ _ _ _ H1) as Hp. pose proof (linked_next _ _ _ _ _ H2) as Hn.
    split_and!.
    + rewrite Hnx, decide_False; [done|]. clear -Hx Hp. set_solver.
    + rewrite Hpv, decide_False; [done|]. clear -Hc Hy Hn. set_solver.
    + apply IH; [done|clear -Hc; set_solver|clear -Hy; set_solver|done..].
Qed.

(** Inserting a node after the head of a circular list. *)
Lemma linked_insert nx pv nx' pv' h l b :
  NoDup l → h ∉ l → b ∉ h :: l →
  linked nx pv h l h →
  (∀ i, nx' i = if decide (i = h) then b else if decide (i = b) then nx h else nx i) →
  (∀ i, pv' i = if decide (i = nx h) then b else if decide (i = b) then h else pv i) →
  linked nx' pv' h (b :: l) h.
Proof.
  intros Hnd Hh Hb H1 Hnx Hpv. pose proof (linked_next _ _ _ _ _ H1) as Hn. simpl.
  apply not_elem_of_cons in Hb as [Hbh Hbl].
  split_and!.
  - by rewrite Hnx, decide_True.
  - rewrite Hpv, decide_False, decide_True; [done..|]. clear -Hn Hbh Hbl. set_solver.
  - destruct l as [|a l]; simpl in *.
    + destruct H1 as [H1 H2]. by rewrite Hnx, Hpv, decide_False, !decide_True.
    + destruct H1 as (H1&H2&H3).
      rewrite Hnx, Hpv, decide_False, !decide_True by done.
      split_and!; [done..|]. apply list.NoDup_cons in Hnd as [Ha _].
      eapply linked_ext, H3.
      * intros i Hi. rewrite Hnx, !decide_False; [done|clear -Hi Hbl; set_solver|].
        clear -Hi Hh. set_solver.
      * intros i Hi. rewrite Hpv, H1, !decide_False; [done|clear -Hi Hbl Hbh; set_solver|].
        clear -Hi Ha Hh. set_solver.
Qed.
End linked.

(** * The cache as its clients see it *)

Definition is_cached (n : Z) (bf : buf) : Prop := b_dev bf = 1 ∧ b_blockno bf = n.
#[global] Instance is_cached_dec n bf : Decision (is_cached n bf).
Proof. unfold is_cached. apply _. Defined.

Definition cached (bufs : list buf) (n : Z) : option buf :=
  snd <$> list_find (is_cached n) bufs.
Definition view_at (s : bcache) (n : Z) : list Z :=
  match cached (bc_bufs s) n with
  | Some bf => b_data bf
  | None => bc_disk s !!! Z.to_nat n
  end.
Definition c_view (s : bcache) : list (list Z) :=
  view_at s <$> seqZ 0 (Z.of_nat (length (bc_disk s))).
Definition c_dirty (s : bcache) : gset Z :=
  list_to_set (b_blockno <$> filter (λ bf, dirtyb bf = true) (bc_bufs s)).
Definition c_held (s : bcache) : gmap nat Z :=
  omap (λ bf, if sl_locked (b_lock bf) then Some (b_blockno bf) else None)
    (map_seq 0 (bc_bufs s)).

(** A buffer that has never been used, or one that caches a block of disk 1:
    unless it is locked or dirty it agrees with the disk. *)
Inductive buf_ok (disk : list (list Z)) (bf : buf) : Prop :=
| buf_fresh :
    b_dev bf = 0 → b_flags bf = 0 → b_refcnt bf = 0 →
    sl_lk (b_lock bf) = false → sl_locked (b_lock bf) = false → buf_ok disk bf
| buf_used :
    b_dev bf = 1 → 0 ≤ b_blockno bf < Z.of_nat (length disk) →
    b_flags bf = B_VALID ∨ b_flags bf = Z.lor B_VALID B_DIRTY →
    b_refcnt bf = (if sl_locked (b_lock bf) then 1 else 0) →
    sl_lk (b_lock bf) = false → block (b_data bf) →
    (sl_locked (b_lock bf) = false → b_flags bf = B_VALID →
     disk !! Z.to_nat (b_blockno bf) = Some (b_data bf)) → buf_ok disk bf.

Record cache_inv (s : bcache) : Prop := {
  ci_lock : bc_lock s = false;
  ci_len : length (bc_bufs s) = NBUF;
  ci_mru : ∃ order, mru s order;
  ci_bufs : Forall (buf_ok (bc_disk s)) (bc_bufs s);
  ci_uniq : ∀ i j bi bj, bc_bufs s !! i = Some bi → bc_bufs s !! j = Some bj →
    b_dev bi = 1 → b_dev bj = 1 → b_blockno bi = b_blockno bj → i = j;
  ci_disk : Forall block (bc_disk s);
}.

Section abstraction.
Implicit Types (s : bcache) (bf : buf) (n : Z).

Lemma c_held_lookup s b n :
  c_held s !! b = Some n ↔
  ∃ bf, bc_bufs s !! b = Some bf ∧ sl_locked (b_lock bf) = true ∧ b_blockno bf = n.
Proof.
  unfold c_held. rewrite lookup_omap, lookup_map_seq_0.
  destruct (bc_bufs s !! b) as [bf|]; simpl; [|by split; [|intros (?&?&_)]].
  destruct (sl_locked (b_lock bf)) eqn:?; split; try intros (?&?&?&?); intros; simplify_eq; eauto; congruence.
Qed.

Lemma c_dirty_elem s n :
  n ∈ c_dirty s ↔ ∃ i bf, bc_bufs s !! i = Some bf ∧ dirtyb bf = true ∧ b_blockno bf = n.
Proof.
  unfold c_dirty. rewrite elem_of_list_to_set, list_elem_of_fmap.
  setoid_rewrite list_elem_of_filter. setoid_rewrite list_elem_of_lookup. naive_solver.
Qed.

Lemma cached_Some s n bf :
  cache_inv s →
  cached (bc_bufs s) n = Some bf ↔ ∃ i, bc_bufs s !! i = Some bf ∧ is_cached n bf.
Proof.
  intros Hinv. unfold cached. split.
  - intros ([i x]&(Hi&?&_)%list_find_Some&->)%fmap_Some. eauto.
  - intros (i&Hi&Hc). apply fmap_Some. exists (i, bf). split; [|done].
    apply list_find_Some. split_and!; [done..|]. intros j y Hj Hlt Hy.
    destruct Hc, Hy. assert (i = j); [|lia]. eapply (ci_uniq s Hinv); eauto. congruence.
Qed.

Lemma cached_None s n :
  cached (bc_bufs s) n = None ↔ ∀ i bf, bc_bufs s !! i = Some bf → ¬ is_cached n bf.
Proof.
  unfold cached. rewrite fmap_None, list_find_None, Forall_lookup. naive_solver.
Qed.

Lemma c_view_length s : length (c_view s) = length (bc_disk s).
Proof. unfold c_view. rewrite length_fmap, length_seqZ. lia. Qed.

Lemma c_view_lookup s n :
  0 ≤ n < Z.of_nat (length (bc_disk s)) → c_view s !! Z.to_nat n = Some (view_at s n).
Proof.
  intros Hn. unfold c_view. rewrite list_lookup_fmap, lookup_seqZ_lt by lia. simpl.
  do 2 f_equal. lia.
Qed.

Lemma view_block s n :
  cache_inv s → 0 ≤ n < Z.of_nat (length (bc_disk s)) → block (view_at s n).
Proof.
  intros Hinv Hn. unfold view_at. destruct (cached _ n) as [bf|] eqn:E.
  - apply cached_Some in E as (i&Hi&Hc&_); [|done].
    pose proof (Forall_lookup_1 _ _ _ _ (ci_bufs s Hinv) Hi) as [Hd|]; [|done]. congruence.
  - apply Forall_lookup_total_1; [apply Hinv|lia].
Qed.

Lemma c_view_blocks s : cache_inv s → Forall block (c_view s).
Proof.
  intros Hinv. unfold c_view. apply Forall_fmap, Forall_lookup. intros i n [-> Hi]%lookup_seqZ.
  apply view_block; [done|lia].
Qed.

Lemma c_view_ext s s' :
  length (bc_disk s') = length (bc_disk s) →
  (∀ n, 0 ≤ n < Z.of_nat (length (bc_disk s)) → view_at s' n = view_at s n) →
  c_view s' = c_view s.
Proof.
  intros Hl Hv. unfold c_view. rewrite Hl. apply list_fmap_ext. intros i n [-> Hi]%lookup_seqZ.
  apply Hv. lia.
Qed.
End abstraction.

(** * Replacing one buffer

    Every operation of the cache ends with one buffer changed; [replaced]
    collects what makes that change sound. *)

Record replaced (s : bcache) (i : nat) (bf bf' : buf) (s' : bcache) : Prop := {
  rp_old : bc_bufs s !! i = Some bf;
  rp_new : bc_bufs s' = <[i := bf']> (bc_bufs s);
  rp_lock : bc_lock s' = false;
  rp_mru : ∃ order, mru s' order;
  rp_len : length (bc_disk s') = length (bc_disk s);
  rp_blocks : Forall block (bc_disk s');
  rp_disk : ∀ k, k ≠ Z.to_nat (b_blockno bf') → bc_disk s' !! k = bc_disk s !! k;
  rp_ok : buf_ok (bc_disk s') bf';
  rp_dev : b_dev bf' = 1;
  rp_key : ∀ j bj, j ≠ i → bc_bufs s !! j = Some bj → b_dev bj = 1 →
    b_blockno bj ≠ b_blockno bf';
  rp_evict : b_dev bf = 1 ∧ b_blockno bf = b_blockno bf' ∨
    sl_locked (b_lock bf) = false ∧ dirtyb bf = false;
}.

Section replaced.
Context (s : bcache) (i : nat) (bf bf' : buf) (s' : bcache).
Context (Hinv : cache_inv s) (R : replaced s i bf bf' s').

Lemma rp_lookup j :
  bc_bufs s' !! j = if decide (j = i) then Some bf' else bc_bufs s !! j.
Proof using R.
  rewrite (rp_new _ _ _ _ _ R). apply list_lookup_insert_dec.
  eapply lookup_lt_Some, R.
Qed.

Lemma rp_range : 0 ≤ b_blockno bf' < Z.of_nat (length (bc_disk s)).
Proof using R.
  destruct R as [? ? ? ? <- ? ? [Hd|] Hd' ? ?]; [congruence|done].
Qed.

Lemma rp_inv : cache_inv s'.
Proof using Hinv R.
  split; try apply R.
  - rewrite (rp_new _ _ _ _ _ R), length_insert. apply Hinv.
  - apply Forall_lookup. intros j bj. rewrite rp_lookup. case_decide as Hj.
    { intros [= <-]. apply R. }
    intros Hbj. pose proof (Forall_lookup_1 _ _ _ _ (ci_bufs s Hinv) Hbj) as [|].
    + by apply buf_fresh.
    + apply buf_used; try done; [by rewrite (rp_len _ _ _ _ _ R)|].
      rewrite (rp_disk _ _ _ _ _ R); [auto|].
      pose proof (rp_key _ _ _ _ _ R j bj Hj Hbj). pose proof rp_range. lia.
  - intros j k bj bk. rewrite !rp_lookup.
    repeat case_decide; simplify_eq; intros; simplify_eq; try done.
    + exfalso. by eapply (rp_key _ _ _ _ _ R k bk).
    + exfalso. by eapply (rp_key _ _ _ _ _ R j bj).
    + by eapply (ci_uniq s Hinv).
Qed.

Lemma rp_view_at n :
  0 ≤ n < Z.of_nat (length (bc_disk s)) →
  view_at s' n = if decide (n = b_blockno bf') then b_data bf' else view_at s n.
Proof using Hinv R.
  intros Hn. pose proof rp_range as Hr. pose proof rp_inv as Hinv'.
  case_decide as E.
  - unfold view_at. erewrite (proj2 (cached_Some s' n bf' Hinv')); [done|].
    exists i. rewrite rp_lookup, decide_True by done. split; [done|].
    split; [apply R|done].
  - assert (bc_disk s' !!! Z.to_nat n = bc_disk s !!! Z.to_nat n) as Hd.
    { rewrite !list_lookup_total_alt, (rp_disk _ _ _ _ _ R); [done|lia]. }
    unfold view_at. destruct (cached (bc_bufs s') n) as [x|] eqn:Hx.
    + apply cached_Some in Hx as (j&Hj&Hk); [|done]. rewrite rp_lookup in Hj.
      case_decide; simplify_eq; [by destruct Hk|].
      erewrite (proj2 (cached_Some s n x Hinv)); eauto.
    + destruct (cached (bc_bufs s) n) as [x|] eqn:Hx'; [|done].
      apply cached_Some in Hx' as (j&Hj&Hk); [|done].
      destruct (decide (j = i)) as [->|].
      * rewrite (rp_old _ _ _ _ _ R) in Hj. simplify_eq.
        destruct Hk as [Hd1 Hn1]. destruct (rp_evict _ _ _ _ _ R) as [[]|[Hl Hcl]]; [congruence|].
        pose proof (Forall_lookup_1 _ _ _ _ (ci_bufs s Hinv) (rp_old _ _ _ _ _ R))
          as [|? ? [Hf|Hf] ? ? ? Hsame]; [congruence| |].
        { rewrite Hd, list_lookup_total_alt, <- Hn1, Hsame by done. done. }
        { unfold dirtyb in Hcl. by rewrite Hf in Hcl. }
      * exfalso. eapply (proj1 (cached_None s' n) Hx j x); [|done].
        by rewrite rp_lookup, decide_False.
Qed.

Lemma rp_view : c_view s' = <[Z.to_nat (b_blockno bf') := b_data bf']> (c_view s).
Proof using Hinv R.
  pose proof rp_range. apply list_eq_same_length with (length (bc_disk s)).
  - by rewrite length_insert, c_view_length.
  - by rewrite c_view_length, (rp_len _ _ _ _ _ R).
  - intros k x y Hk. rewrite list_lookup_insert_dec by (rewrite c_view_length; lia).
    rewrite <- (Nat2Z.id k), (c_view_lookup s') by (rewrite (rp_len _ _ _ _ _ R); lia).
    rewrite rp_view_at by lia. rewrite c_view_lookup by lia.
    repeat case_decide; intros; simplify_eq; lia || done.
Qed.

Lemma rp_dirty :
  c_dirty s' = if dirtyb bf' then {[b_blockno bf']} ∪ c_dirty s
               else c_dirty s ∖ {[b_blockno bf']}.
Proof using Hinv R.
  assert (∀ n, n ∈ c_dirty s' ↔ n = b_blockno bf' ∧ dirtyb bf' = true ∨
            n ∈ c_dirty s ∧ n ≠ b_blockno bf') as Hd.
  { intros n. rewrite !c_dirty_elem. split.
    - intros (j&x&Hj&?&<-). rewrite rp_lookup in Hj. case_decide; simplify_eq; [by left|].
      right. split; [by eauto|]. eapply (rp_key _ _ _ _ _ R); [done..|].
      pose proof (Forall_lookup_1 _ _ _ _ (ci_bufs s Hinv) Hj) as [? Hf|]; [|done].
      unfold dirtyb in *. by rewrite Hf in *.
    - intros [[-> ?]|[(j&x&Hj&?&<-) Hne]].
      { exists i, bf'. by rewrite rp_lookup, decide_True. }
      exists j, x. rewrite rp_lookup. case_decide; [|done]. subst j. exfalso.
      rewrite (rp_old _ _ _ _ _ R) in Hj. simplify_eq.
      destruct (rp_evict _ _ _ _ _ R) as [[]|[]]; congruence. }
  apply set_eq. intros n. rewrite Hd. clear Hd.
  destruct (dirtyb bf'), (decide (n = b_blockno bf')); set_solver.
Qed.

Lemma rp_held :
  c_held s' = if sl_locked (b_lock bf') then <[i := b_blockno bf']> (c_held s)
              else delete i (c_held s).
Proof using R.
  unfold c_held. apply map_eq. intros j. rewrite lookup_omap, lookup_map_seq_0, rp_lookup.
  destruct (sl_locked (b_lock bf')) eqn:E; case_decide; subst.
  - by rewrite lookup_insert_eq; simpl; rewrite E.
  - by rewrite lookup_insert_ne, lookup_omap, lookup_map_seq_0.
  - by rewrite lookup_delete_eq; simpl; rewrite E.
  - by rewrite lookup_delete_ne, lookup_omap, lookup_map_seq_0.
Qed.
End replaced.

(** * What each primitive does, as an equation *)

Definition put_buf (b : nat) (bf : buf) (s : bcache) : bcache :=
  set_bc_bufs (<[b := bf]> (bc_bufs s)) s.

Section run.
Implicit Types (s : bcache) (bf : buf) (b : nat).

Lemma put_put b bf bf' s : put_buf b bf (put_buf b bf' s) = put_buf b bf s.
Proof. unfold put_buf, set_bc_bufs. simpl. by rewrite list_insert_insert_eq. Qed.

Lemma put_id b bf s : bc_bufs s !! b = Some bf → put_buf b bf s = s.
Proof. intros H. destruct s. unfold put_buf, set_bc_bufs. simpl in *. by rewrite list_insert_id. Qed.

Lemma put_lookup b bf bf' s : bc_bufs s !! b = Some bf → bc_bufs (put_buf b bf' s) !! b = Some bf'.
Proof. intros H. simpl. eapply list_lookup_insert_eq, lookup_lt_Some, H. Qed.

Lemma getbuf_run b bf s : bc_bufs s !! b = Some bf → getbuf b s = Ok bf s.
Proof. intros H. unfold getbuf, mbind, M_bind, gets, the. by rewrite H. Qed.

Lemma updbuf_run b bf f s :
  bc_bufs s !! b = Some bf → updbuf b f s = Ok tt (put_buf b (f bf) s).
Proof. intros H. unfold updbuf, modify, put_buf. by erewrite alter_known. Qed.

Lemma buf_lock_view b bf s : bc_bufs s !! b = Some bf → view (buf_lock b) s = b_lock bf.
Proof. intros H. simpl. unfold buf_at. by rewrite H. Qed.

Lemma buf_lock_over b bf l s :
  bc_bufs s !! b = Some bf → over (buf_lock b) l s = put_buf b (set_b_lock l bf) s.
Proof. intros H. simpl. unfold put_buf. by erewrite alter_known. Qed.

Lemma sl_acquire_run b bf s :
  bc_bufs s !! b = Some bf → sl_lk (b_lock bf) = false →
  sl_acquire (buf_lock b) s = Ok tt (put_buf b (set_b_lock (set_sl_lk true (b_lock bf)) bf) s).
Proof.
  intros Hb Hl. unfold sl_acquire. erewrite zoom_run, buf_lock_over; [done..|].
  erewrite buf_lock_view by done. by apply acquire_run.
Qed.

Lemma sl_release_run b bf s :
  bc_bufs s !! b = Some bf → sl_lk (b_lock bf) = true →
  sl_release (buf_lock b) s = Ok tt (put_buf b (set_b_lock (set_sl_lk false (b_lock bf)) bf) s).
Proof.
  intros Hb Hl. unfold sl_release. erewrite zoom_run, buf_lock_over; [done..|].
  erewrite buf_lock_view by done. by apply release_run.
Qed.

Lemma b_holdingsleep_run b bf s :
  bc_bufs s !! b = Some bf → sl_lk (b_lock bf) = false →
  b_holdingsleep b s = Ok (sl_locked (b_lock bf)) s.
Proof.
  intros Hb Hl. unfold b_holdingsleep, holdingsleep.
  erewrite bind_run by (eapply sl_acquire_run; eassumption).
  erewrite bind_run by done. erewrite buf_lock_view by by eapply put_lookup.
  erewrite bind_run by (eapply sl_release_run; [by eapply put_lookup|done]).
  rewrite put_put, put_id; [done|]. rewrite Hb. by destruct bf as [? ? ? [] ? ?]; simplify_eq/=.
Qed.

Lemma b_acquiresleep_run b bf s :
  bc_bufs s !! b = Some bf → sl_lk (b_lock bf) = false → sl_locked (b_lock bf) = false →
  b_acquiresleep b s = Ok tt (put_buf b (set_b_lock (Sleeplock false true (bc_pid s)) bf) s).
Proof.
  intros Hb Hl Hu. unfold b_acquiresleep, acquiresleep. rewrite (bind_run _ _ _ (bc_pid s) s) by done.
  erewrite bind_run by (eapply sl_acquire_run; eassumption).
  erewrite bind_run by done. erewrite buf_lock_view by by eapply put_lookup. simpl. rewrite Hu.
  erewrite bind_run by (eapply zoom_run; erewrite buf_lock_view by (by eapply put_lookup); done).
  erewrite buf_lock_over by by eapply put_lookup. rewrite put_put.
  erewrite sl_release_run; [|by eapply put_lookup|done]. by rewrite put_put.
Qed.

(** the wakeups issued *)
Definition woken (ch : Z) (s : bcache) : bcache :=
  Bcache (bc_lock s) (bc_bufs s) (bc_next s) (bc_prev s) (bc_disk s) (bc_pid s)
    (bc_wakes s ++ [ch]) (bc_trace s).

Lemma b_releasesleep_run b bf s :
  bc_bufs s !! b = Some bf → sl_lk (b_lock bf) = false →
  b_releasesleep b s = Ok tt (woken (Z.of_nat b) (put_buf b (set_b_lock initsleeplock bf) s)).
Proof.
  intros Hb Hl. unfold b_releasesleep, releasesleep.
  erewrite bind_run by (eapply sl_acquire_run; eassumption).
  erewrite bind_run by (eapply zoom_run; erewrite buf_lock_view by (by eapply put_lookup); done).
  erewrite buf_lock_over by by eapply put_lookup. rewrite put_put.
  erewrite bind_run by done. erewrite sl_release_run; [|by eapply (put_lookup _ bf)|done].
  f_equal. unfold put_buf, woken, set_bc_bufs. simpl. by rewrite list_insert_insert_eq.
Qed.
End run.

(** a completed disk write *)
Definition written (n : Z) (d : list Z) (s : bcache) : bcache :=
  Bcache (bc_lock s) (bc_bufs s) (bc_next s) (bc_prev s) (<[Z.to_nat n := d]> (bc_disk s))
    (bc_pid s) (bc_wakes s) (bc_trace s ++ [(n, d)]).

Section disk.
Implicit Types (s : bcache) (bf : buf) (b : nat).

Lemma iderw_write_run b bf s :
  bc_bufs s !! b = Some bf → sl_lk (b_lock bf) = false → sl_locked (b_lock bf) = true →
  b_dev bf = 1 → b_blockno bf < Z.of_nat (length (bc_disk s)) →
  b_flags bf = Z.lor B_VALID B_DIRTY →
  iderw b s = Ok tt (written (b_blockno bf) (b_data bf) (put_buf b (set_b_flags B_VALID bf) s)).
Proof.
  intros Hb Hl Hk Hd Hn Hf. unfold iderw.
  erewrite bind_run by (eapply b_holdingsleep_run; eassumption). rewrite Hk. simpl.
  erewrite (bind_run (getbuf b)) by by apply getbuf_run. rewrite Hf, Hd. simpl.
  erewrite bind_run by done. rewrite (proj2 (Z.leb_gt _ _)) by done.
  unfold dirtyb. rewrite Hf. simpl.
  erewrite bind_run by (erewrite bind_run by (eapply updbuf_run; eassumption); done).
  erewrite updbuf_run; [|by eapply put_lookup]. f_equal. unfold written, put_buf, set_bc_bufs. simpl.
  rewrite list_insert_insert_eq, Hf. done.
Qed.

Lemma iderw_read_run b bf d s :
  bc_bufs s !! b = Some bf → sl_lk (b_lock bf) = false → sl_locked (b_lock bf) = true →
  b_dev bf = 1 → bc_disk s !! Z.to_nat (b_blockno bf) = Some d →
  b_blockno bf < Z.of_nat (length (bc_disk s)) → b_flags bf = 0 →
  iderw b s = Ok tt (put_buf b (set_b_flags B_VALID (set_b_data d bf)) s).
Proof.
  intros Hb Hl Hk Hd Hn Hr Hf. unfold iderw.
  erewrite bind_run by (eapply b_holdingsleep_run; eassumption). rewrite Hk. simpl.
  erewrite (bind_run (getbuf b)) by by apply getbuf_run. rewrite Hf, Hd. simpl.
  erewrite bind_run by done. rewrite (proj2 (Z.leb_gt _ _)) by done.
  unfold dirtyb. rewrite Hf. simpl.
  erewrite bind_run by (erewrite bind_run by (by rewrite Hn); eapply updbuf_run; eassumption).
  erewrite updbuf_run by by eapply put_lookup. simpl. by rewrite put_put, Hf.
Qed.

Lemma bwrite_run b bf s :
  bc_bufs s !! b = Some bf → sl_lk (b_lock bf) = false → sl_locked (b_lock bf) = true →
  b_dev bf = 1 → b_blockno bf < Z.of_nat (length (bc_disk s)) →
  b_flags bf = B_VALID ∨ b_flags bf = Z.lor B_VALID B_DIRTY →
  bwrite b s = Ok tt (written (b_blockno bf) (b_data bf) (put_buf b (set_b_flags B_VALID bf) s)).
Proof.
  intros Hb Hl Hk Hd Hn Hf. unfold bwrite.
  erewrite bind_run by (eapply b_holdingsleep_run; eassumption). rewrite Hk. simpl.
  erewrite bind_run by (eapply updbuf_run; eassumption). cbv beta.
  assert (Z.lor (b_flags bf) B_DIRTY = Z.lor B_VALID B_DIRTY) as -> by by destruct Hf as [-> | ->].
  erewrite iderw_write_run; [|by eapply put_lookup|done..]. by rewrite put_put.
Qed.

(** The search from the head finds the buffer of a cached block. *)
Lemma bget_cached_run s dev n l x fuel :
  linked (λ i, bc_next s !!! i) (λ i, bc_prev s !!! i) x l HEAD →
  (length l ≤ fuel)%nat → Forall (λ b, b < length (bc_bufs s))%nat l →
  HEAD ∉ l → (∀ b, b ∈ l → b < length (bc_next s))%nat →
  ∃ r, bget_cached fuel dev n (bc_next s !!! x) s = Ok r s ∧
    match r with
    | Some b => ∃ bf, bc_bufs s !! b = Some bf ∧ b_dev bf = dev ∧ b_blockno bf = n
    | None => ∀ b bf, b ∈ l → bc_bufs s !! b = Some bf → ¬ (b_dev bf = dev ∧ b_blockno bf = n)
    end.
Proof.
  revert x fuel. induction l as [|a l IH]; intros x fuel Hl Hfuel Hall Hhd Hnx.
  { destruct Hl as [-> _]. exists None. split; [|set_solver].
    destruct fuel; simpl; by rewrite decide_True. }
  destruct Hl as (Hxa&_&Hl). rewrite Hxa. apply Forall_cons_1 in Hall as [Ha Hall].
  destruct fuel as [|fuel]; [simpl in *; lia|]. simpl.
  rewrite decide_False by set_solver.
  destruct (lookup_lt_is_Some_2 (bc_bufs s) a Ha) as [bf Hbf].
  erewrite (bind_run (getbuf a)) by by apply getbuf_run.
  destruct ((b_dev bf =? dev) && (b_blockno bf =? n)) eqn:E.
  { apply andb_true_iff in E as [?%Z.eqb_eq ?%Z.eqb_eq]. exists (Some a). eauto. }
  erewrite (bind_run (get_next a)) by
    (unfold get_next, mbind, M_bind, gets, the;
     rewrite (list_lookup_lookup_total_lt (bc_next s) a) by set_solver; done).
  simpl in Hfuel. edestruct (IH a fuel) as (r&->&Hr); [done|lia|done|set_solver|set_solver|].
  exists r. split; [done|]. destruct r as [b|]; [done|].
  intros b bf' [->|Hb]%elem_of_cons; [|by apply Hr]. rewrite Hbf. intros [= <-] [Hd Hn].
  by rewrite Hd, Hn, !Z.eqb_refl in E.
Qed.

(** The search from the tail finds the least recently used free buffer. *)
Lemma bget_unused_run s l y fuel :
  linked (λ i, bc_next s !!! i) (λ i, bc_prev s !!! i) HEAD l y →
  (length l ≤ fuel)%nat → Forall (λ b, b < length (bc_bufs s))%nat l →
  HEAD ∉ l → (∀ b, b ∈ l → b < length (bc_prev s))%nat →
  let free b := ∃ bf, bc_bufs s !! b = Some bf ∧ b_refcnt bf = 0 ∧ dirtyb bf = false in
  ∃ r, bget_unused fuel (bc_prev s !!! y) s = Ok r s ∧
    match r with
    | Some b => free b ∧ ∃ l1 l2, l = l1 ++ b :: l2 ∧ ∀ c, c ∈ l2 → ¬ free c
    | None => ∀ b, b ∈ l → ¬ free b
    end.
Proof.
  intros Hl Hfuel Hall Hhd Hpv free. revert y fuel Hl Hfuel Hall Hhd Hpv.
  induction l as [|a l IH] using rev_ind; intros y fuel Hl Hfuel Hall Hhd Hpv.
  { destruct Hl as [_ ->]. exists None. split; [|set_solver].
    destruct fuel; simpl; by rewrite decide_True. }
  apply linked_app in Hl as [Hl [_ ->]]. apply Forall_app in Hall as [Hall [Ha _]%Forall_cons_1].
  rewrite length_app in Hfuel.
  destruct fuel as [|fuel]; [simpl in *; lia|]. simpl.
  rewrite decide_False by set_solver.
  destruct (lookup_lt_is_Some_2 (bc_bufs s) a Ha) as [bf Hbf].
  erewrite (bind_run (getbuf a)) by by apply getbuf_run.
  destruct ((b_refcnt bf =? 0) && (Z.land (b_flags bf) B_DIRTY =? 0)) eqn:E.
  { apply andb_true_iff in E as [?%Z.eqb_eq E]. exists (Some a). split; [done|]. split.
    - exists bf. unfold dirtyb. by rewrite E.
    - exists l, []. set_solver. }
  assert (¬ free a) as Hna.
  { intros (x&?&Hr&Hd). simplify_eq. unfold dirtyb in Hd. apply negb_false_iff in Hd.
    by rewrite Hr, Hd in E. }
  erewrite (bind_run (get_prev a)) by
    (unfold get_prev, mbind, M_bind, gets, the;
     rewrite (list_lookup_lookup_total_lt (bc_prev s) a) by set_solver; done).
  simpl in Hfuel. edestruct (IH a fuel) as (r&->&Hr); [done|lia|done|set_solver|set_solver|].
  exists r. split; [done|]. destruct r as [b|].
  - destruct Hr as (Hb&l1&l2&->&Hl2). split; [done|]. exists l1, (l2 ++ [a]).
    split; [by rewrite <- app_assoc|]. intros c [?|?%list_elem_of_singleton]%elem_of_app; subst; auto.
  - intros b [?|?%list_elem_of_singleton]%elem_of_app; subst; auto.
Qed.
End disk.

(** * The MRU list *)

Section mru.
Implicit Types (s : bcache) (order l : list nat).

Lemma mru_same s s' order :
  bc_next s' = bc_next s → bc_prev s' = bc_prev s → mru s order → mru s' order.
Proof. unfold mru. by intros -> ->. Qed.

Lemma mru_elem s order b : mru s order → b ∈ order ↔ (b < NBUF)%nat.
Proof. intros (_&_&Hp&_). rewrite Hp, elem_of_seq. lia. Qed.

Lemma mru_nodup s order : mru s order → NoDup order ∧ HEAD ∉ order.
Proof.
  intros H. split; [|rewrite (mru_elem _ _ _ H); unfold HEAD; lia].
  destruct H as (_&_&Hp&_). rewrite Hp. apply NoDup_seq.
Qed.

Lemma get_next_run b s :
  (b < length (bc_next s))%nat → get_next b s = Ok (bc_next s !!! b) s.
Proof.
  intros H. unfold get_next, mbind, M_bind, gets, the.
  by rewrite (list_lookup_lookup_total_lt (bc_next s)).
Qed.

Lemma get_prev_run b s :
  (b < length (bc_prev s))%nat → get_prev b s = Ok (bc_prev s !!! b) s.
Proof.
  intros H. unfold get_prev, mbind, M_bind, gets, the.
  by rewrite (list_lookup_lookup_total_lt (bc_prev s)).
Qed.

(** next and prev after node [b] is moved behind the head *)
Definition moved_prev (b : nat) s : list nat :=
  let n := bc_next s !!! b in let p := bc_prev s !!! b in
  let pv := <[b := HEAD]> (<[n := p]> (bc_prev s)) in
  <[(<[b := <[p := n]> (bc_next s) !!! HEAD]> (<[p := n]> (bc_next s))) !!! HEAD := b]> pv.
Definition moved_next (b : nat) s : list nat :=
  let n := bc_next s !!! b in let p := bc_prev s !!! b in
  let nx := <[p := n]> (bc_next s) in <[HEAD := b]> (<[b := nx !!! HEAD]> nx).

Lemma brelse_mru_run b s :
  length (bc_next s) = S NBUF → length (bc_prev s) = S NBUF → (b < NBUF)%nat →
  brelse_mru b s = Ok tt (set_bc_prev (moved_prev b s) (set_bc_next (moved_next b s) s)).
Proof.
  intros Hn Hp Hb. unfold brelse_mru.
  erewrite bind_run by (apply get_next_run; lia).
  erewrite bind_run by (apply get_prev_run; lia).
  do 2 erewrite bind_run by done.
  erewrite bind_run by (apply get_next_run; simpl; rewrite length_insert; unfold HEAD; lia).
  do 2 erewrite bind_run by done.
  erewrite bind_run by (apply get_next_run; simpl; rewrite !length_insert; unfold HEAD; lia).
  done.
Qed.

Lemma brelse_mru_order b s l1 l2 :
  mru s (l1 ++ b :: l2) →
  mru (set_bc_prev (moved_prev b s) (set_bc_next (moved_next b s) s)) (b :: l1 ++ l2).
Proof.
  intros Hm. destruct (mru_nodup _ _ Hm) as [Hnd Hhd].
  pose proof (λ c, proj1 (mru_elem _ _ c Hm)) as Hlt. destruct Hm as (Hn&Hp&Hperm&Hl).
  apply linked_app in Hl as [H1 H2].
  assert (∀ c, c ∈ HEAD :: l1 ++ b :: l2 → c < S NBUF)%nat as Hle.
  { intros c [->|Hc]%elem_of_cons; [unfold HEAD; lia|]. specialize (Hlt c Hc). lia. }
  assert (bc_prev s !!! b < S NBUF)%nat as Hpb.
  { apply Hle. apply linked_prev in H1. clear -H1. set_solver. }
  assert (bc_next s !!! b < S NBUF)%nat as Hnb.
  { apply Hle. apply linked_next in H2. clear -H2. set_solver. }
  assert (b < S NBUF)%nat as Hb by (apply Hle; clear; set_solver).
  split_and!; [unfold moved_next; simpl; by rewrite !length_insert|
    unfold moved_prev; simpl; by rewrite !length_insert| |].
  { rewrite <- Hperm. clear. apply Permutation_middle. }
  change (linked (λ i, moved_next b s !!! i) (λ i, moved_prev b s !!! i) HEAD
    (b :: l1 ++ l2) HEAD).
  set (nx := <[bc_prev s !!! b := bc_next s !!! b]> (bc_next s)).
  set (pv := <[bc_next s !!! b := bc_prev s !!! b]> (bc_prev s)).
  assert (linked (λ i, nx !!! i) (λ i, pv !!! i) HEAD (l1 ++ l2) HEAD) as Hu.
  { eapply linked_unlink; [done..|exact H1|exact H2| |]; intros i; unfold nx, pv;
      apply list_lookup_total_insert_dec; lia. }
  assert (b ∉ HEAD :: l1 ++ l2) as Hbn.
  { rewrite not_elem_of_cons. split; [clear -Hhd; set_solver|].
    clear -Hnd. rewrite <- Permutation_middle in Hnd. by apply list.NoDup_cons in Hnd as [? _]. }
  assert (nx !!! HEAD < S NBUF)%nat as Hnh.
  { apply Hle. apply linked_next in Hu. clear -Hu. set_solver. }
  assert (length nx = S NBUF) as Hlnx by by unfold nx; rewrite length_insert.
  assert (length pv = S NBUF) as Hlpv by by unfold pv; rewrite length_insert.
  eapply linked_insert; [| |exact Hbn|exact Hu| |].
  - eapply sublist_NoDup; [exact Hnd|]. apply sublist_app; [done|]. by constructor.
  - clear -Hhd. set_solver.
  - intros i. unfold moved_next. fold nx.
    rewrite !list_lookup_total_insert_dec by (rewrite ?length_insert; unfold HEAD; lia). done.
  - intros i. unfold moved_prev. fold nx pv.
    rewrite (list_lookup_total_insert_dec nx b) by lia.
    rewrite (decide_False (P := HEAD = b)) by (clear -Hbn; set_solver).
    rewrite !list_lookup_total_insert_dec by (rewrite ?length_insert; lia). done.
Qed.
End mru.

(** * The operations, on states that satisfy the invariant *)

Section ops.
Context (s : bcache) (Hinv : cache_inv s).
Implicit Types (bf : buf) (b : nat) (n : Z) (order : list nat).

Lemma inv_lookup b bf : bc_bufs s !! b = Some bf → buf_ok (bc_disk s) bf ∧ (b < NBUF)%nat.
Proof using Hinv.
  intros H. split; [by eapply Forall_lookup_1; [apply Hinv|]|].
  rewrite <- (ci_len s Hinv). by eapply lookup_lt_Some.
Qed.

Lemma buf_ok_lk disk bf : buf_ok disk bf → sl_lk (b_lock bf) = false.
Proof. by intros []. Qed.

(** the buffer is not used and need not be written back *)
Definition reusable (bufs : list buf) b : Prop :=
  ∃ bf, bufs !! b = Some bf ∧ b_refcnt bf = 0 ∧ dirtyb bf = false.

Lemma mru_bounds order :
  mru s order →
  linked (λ i, bc_next s !!! i) (λ i, bc_prev s !!! i) HEAD order HEAD ∧
  (length order ≤ NBUF)%nat ∧ Forall (λ b, b < length (bc_bufs s))%nat order ∧
  HEAD ∉ order ∧ (∀ b, b ∈ order → b < length (bc_next s))%nat ∧
  (∀ b, b ∈ order → b < length (bc_prev s))%nat.
Proof using Hinv.
  intros Hm. pose proof (λ b, mru_elem _ _ b Hm) as He. pose proof (mru_nodup _ _ Hm) as [_ Hh].
  destruct Hm as (Hn&Hp&Hperm&Hl). split_and!; [done| |..|done| |].
  - by rewrite Hperm, length_seq.
  - apply Forall_lookup. intros i x Hx%list_elem_of_lookup_2%He. by rewrite (ci_len s Hinv).
  - intros b Hb%He. lia.
  - intros b Hb%He. lia.
Qed.

Lemma bget_hit_run b bf n :
  bc_bufs s !! b = Some bf → b_dev bf = 1 → b_blockno bf = n →
  sl_locked (b_lock bf) = false →
  bget ROOTDEV n s =
    Ok b (put_buf b (Buf (b_flags bf) 1 n (Sleeplock false true (bc_pid s)) 1 (b_data bf)) s).
Proof using Hinv.
  intros Hb Hd Hn Hu. destruct (ci_mru s Hinv) as [order Hm].
  destruct (inv_lookup b bf Hb) as [Hok Hlt].
  assert (b_refcnt bf = 0) as Hr by (destruct Hok as [|? ? ? Hr]; [done|by rewrite Hr, Hu]).
  destruct (mru_bounds order Hm) as (Hl&Hlen&Hall&Hhd&Hnx&Hpv). pose proof (ci_lock s Hinv) as Hlk.
  unfold bget. erewrite bind_run by by apply acquire_run.
  erewrite bind_run by (apply get_next_run; destruct Hm as (?&_); simpl; unfold HEAD; lia).
  edestruct (bget_cached_run (over bcache_lock true s) ROOTDEV n order HEAD NBUF)
    as (r&Hrun&Hres); [done..|].
  erewrite bind_run by exact Hrun. clear Hrun.
  destruct r as [c|]; [|exfalso; eapply Hres; [by apply (mru_elem _ _ _ Hm)|exact Hb|done]].
  destruct Hres as (bf'&Hc&Hd'&Hn'). simpl in Hc. change ROOTDEV with 1 in Hd'.
  assert (c = b) as -> by (eapply (ci_uniq s Hinv); [exact Hc|exact Hb|congruence..]).
  simplify_eq.
  erewrite bind_run by (apply updbuf_run; exact Hb).
  erewrite bind_run by by apply release_run.
  erewrite bind_run by (eapply b_acquiresleep_run;
    [simpl; by eapply list_lookup_insert_eq, lookup_lt_Some|exact (buf_ok_lk _ _ Hok)|done]).
  unfold mret, M_ret. f_equal.
  destruct s. unfold put_buf, set_bc_bufs, set_b_lock, set_b_refcnt; simpl in *.
  by rewrite list_insert_insert_eq, Hr, Hlk, Hd.
Qed.

(** Enough unpinned blocks leave a buffer to recycle. *)
Lemma reusable_exists :
  (size (c_dirty s ∪ map_img (c_held s) : gset Z) < NBUF)%nat →
  ∃ b, reusable (bc_bufs s) b.
Proof using Hinv.
  intros Hsz.
  destruct (list_find (λ bf, b_refcnt bf = 0 ∧ dirtyb bf = false) (bc_bufs s)) as [[b bf]|] eqn:E.
  { apply list_find_Some in E as (?&[??]&_). by exists b, bf. }
  apply list_find_None in E. rewrite Forall_lookup in E. exfalso.
  assert (∀ b bf, bc_bufs s !! b = Some bf →
    b_dev bf = 1 ∧ b_blockno bf ∈ c_dirty s ∪ map_img (c_held s)) as Hall.
  { intros b bf Hb. destruct (inv_lookup b bf Hb) as [Hok Hlt].
    destruct (decide (b_refcnt bf = 0)) as [Hr|Hr].
    - destruct (dirtyb bf) eqn:Hd; [|exfalso; by eapply E].
      destruct Hok as [? Hf|]; [unfold dirtyb in Hd; by rewrite Hf in Hd|].
      split; [done|]. apply elem_of_union_l, c_dirty_elem. eauto.
    - destruct Hok as [|? ? ? Hr']; [done|]. split; [done|]. apply elem_of_union_r, elem_of_map_img.
      exists b. apply c_held_lookup. exists bf. destruct (sl_locked (b_lock bf)); done. }
  assert (NoDup (b_blockno <$> bc_bufs s)) as Hnd.
  { apply NoDup_alt. intros i j n. rewrite !list_lookup_fmap.
    intros (bi&Hi&->)%fmap_Some (bj&Hj&?)%fmap_Some.
    eapply (ci_uniq s Hinv); [done|done|by eapply Hall..|done]. }
  assert ((list_to_set (b_blockno <$> bc_bufs s) : gset Z) ⊆ c_dirty s ∪ map_img (c_held s)) as Hsub.
  { intros n (bf&->&(b&Hb)%list_elem_of_lookup)%elem_of_list_to_set%list_elem_of_fmap.
    by eapply Hall. }
  apply subseteq_size in Hsub. rewrite size_list_to_set, length_fmap, (ci_len s Hinv) in Hsub by done.
  lia.
Qed.

(** A miss takes the least recently used reusable buffer. *)
Lemma bget_miss_run n order :
  mru s order → cached (bc_bufs s) n = None → (∃ b, reusable (bc_bufs s) b) →
  ∃ b bf l1 l2, bc_bufs s !! b = Some bf ∧ b_refcnt bf = 0 ∧ dirtyb bf = false ∧
    order = l1 ++ b :: l2 ∧ (∀ c, c ∈ l2 → ¬ reusable (bc_bufs s) c) ∧
    bget ROOTDEV n s =
      Ok b (put_buf b (Buf 0 1 n (Sleeplock false true (bc_pid s)) 1 (b_data bf)) s).
Proof using Hinv.
  intros Hm Hno [b0 Hb0]. rewrite cached_None in Hno.
  destruct (mru_bounds order Hm) as (Hl&Hlen&Hall&Hhd&Hnx&Hpv). pose proof (ci_lock s Hinv) as Hlk.
  unfold bget.
  edestruct (bget_cached_run (over bcache_lock true s) ROOTDEV n order HEAD NBUF)
    as (r&Hrun&Hres); [done..|].
  destruct r as [c|]; [destruct Hres as (?&?&?&?); exfalso; by eapply Hno|]. clear Hres.
  edestruct (bget_unused_run (over bcache_lock true s) order HEAD NBUF)
    as (r&Hrun'&Hres); [done..|].
  destruct r as [b|]; last first.
  { exfalso. eapply Hres, Hb0. apply (mru_elem _ _ _ Hm). destruct Hb0 as (?&?&_).
    by eapply inv_lookup. }
  destruct Hres as ((bf&Hb&Hr&Hd)&l1&l2&Ho&Hl2). exists b, bf, l1, l2. split_and!; [done..|].
  destruct (inv_lookup b bf Hb) as [Hok Hlt].
  assert (sl_locked (b_lock bf) = false) as Hu
    by (destruct Hok as [|? ? ? Hr']; [done|]; destruct (sl_locked _); congruence).
  erewrite bind_run by by apply acquire_run.
  erewrite bind_run by (apply get_next_run; destruct Hm as (?&_); simpl; unfold HEAD; lia).
  erewrite bind_run by exact Hrun. cbv beta iota.
  erewrite bind_run by (apply get_prev_run; destruct Hm as (_&?&_); simpl; unfold HEAD; lia).
  erewrite bind_run by exact Hrun'. cbv beta iota.
  erewrite bind_run by (apply updbuf_run; exact Hb).
  erewrite bind_run by by apply release_run.
  erewrite bind_run by (eapply b_acquiresleep_run;
    [simpl; by eapply list_lookup_insert_eq, lookup_lt_Some|exact (buf_ok_lk _ _ Hok)|done]).
  unfold mret, M_ret. f_equal.
  destruct s. unfold put_buf, set_bc_bufs; simpl in *. by rewrite list_insert_insert_eq, Hlk.
Qed.

Lemma bget_panic_run n order :
  mru s order → cached (bc_bufs s) n = None → (∀ b, ¬ reusable (bc_bufs s) b) →
  bget ROOTDEV n s = Fail (Panic "bget: no buffers").
Proof using Hinv.
  intros Hm Hno Hnone. rewrite cached_None in Hno.
  destruct (mru_bounds order Hm) as (Hl&Hlen&Hall&Hhd&Hnx&Hpv). pose proof (ci_lock s Hinv) as Hlk.
  edestruct (bget_cached_run (over bcache_lock true s) ROOTDEV n order HEAD NBUF)
    as (r&Hrun&Hres); [done..|].
  destruct r as [c|]; [destruct Hres as (?&?&?&?); exfalso; by eapply Hno|].
  edestruct (bget_unused_run (over bcache_lock true s) order HEAD NBUF)
    as (r&Hrun'&Hres'); [done..|].
  destruct r as [b|]; [by destruct Hres' as [?%Hnone _]|].
  unfold bget. erewrite bind_run by by apply acquire_run.
  erewrite bind_run by (apply get_next_run; destruct Hm as (?&_); simpl; unfold HEAD; lia).
  erewrite bind_run by exact Hrun. cbv beta iota.
  erewrite bind_run by (apply get_prev_run; destruct Hm as (_&?&_); simpl; unfold HEAD; lia).
  by erewrite bind_run by exact Hrun'.
Qed.
End ops.

Lemma boot_run disk :
  binit (bss disk) =
    Ok tt (Bcache false (replicate NBUF zero_buf) (HEAD :: seq 0 NBUF) (seq 1 NBUF ++ [0%nat])
             disk 0 [] []).
Proof. vm_compute. reflexivity. Qed.

Lemma boot_reusable disk b : (b < NBUF)%nat → reusable (bc_bufs (boot_cache disk)) b.
Proof.
  intros Hb. exists zero_buf. unfold boot_cache. rewrite boot_run. cbn [bc_bufs].
  split; [by apply lookup_replicate_2|]. split; reflexivity.
Qed.

Lemma boot_mru disk : mru (boot_cache disk) (rev (seq 0 NBUF)).
Proof.
  unfold boot_cache. rewrite boot_run. split_and!; [done..| |].
  - symmetry. apply Permutation_rev.
  - vm_compute. repeat split.
Qed.

Lemma boot_inv disk : Forall block disk → cache_inv (boot_cache disk).
Proof.
  intros Hd. pose proof (boot_mru disk) as Hm. unfold boot_cache in *. rewrite boot_run in *.
  split; simpl; [done|apply length_replicate|by eauto|..|done].
  - apply Forall_replicate. by apply buf_fresh.
  - intros i j bi bj [-> _]%lookup_replicate. done.
Qed.

Lemma boot_abs disk :
  bc_disk (boot_cache disk) = disk ∧ bc_trace (boot_cache disk) = [] ∧
  c_dirty (boot_cache disk) = ∅ ∧ c_held (boot_cache disk) = ∅.
Proof.
  unfold boot_cache. rewrite boot_run. split_and!; [done..| |].
  - apply set_eq. intros n. rewrite c_dirty_elem. simpl.
    split; [|set_solver]. intros (i&bf&[-> _]%lookup_replicate&Hd&_). done.
  - apply map_eq. intros b. rewrite lookup_empty. apply eq_None_not_Some. intros [n Hn].
    apply c_held_lookup in Hn as (bf&[-> _]%lookup_replicate&Hl&_). done.
Qed.

Section specs.
Context (s : bcache) (Hinv : cache_inv s).
Implicit Types (bf : buf) (b : nat) (n : Z).

Lemma used_abs b bf :
  bc_bufs s !! b = Some bf → b_dev bf = 1 →
  c_view s !! Z.to_nat (b_blockno bf) = Some (b_data bf) ∧
  (b_blockno bf ∈ c_dirty s ↔ dirtyb bf = true).
Proof using Hinv.
  intros Hb Hd. destruct (inv_lookup s Hinv b bf Hb) as [[|_ Hr _ _] _]; [congruence|].
  split.
  - rewrite c_view_lookup by done. f_equal. unfold view_at.
    erewrite (proj2 (cached_Some s _ bf Hinv)); [done|]. exists b. split; [done|]. by split.
  - rewrite c_dirty_elem. split; [|by eauto]. intros (i&x&Hi&Hx&Hxn).
    assert (i = b) as ->; [|congruence].
    eapply (ci_uniq s Hinv); [done..| |done|congruence].
    destruct (inv_lookup s Hinv i x Hi) as [[? Hf|] _]; [|done].
    unfold dirtyb in Hx. by rewrite Hf in Hx.
Qed.

Lemma held_lookup b n :
  c_held s !! b = Some n →
  ∃ bf, bc_bufs s !! b = Some bf ∧ sl_locked (b_lock bf) = true ∧ b_blockno bf = n ∧
    b_dev bf = 1 ∧ sl_lk (b_lock bf) = false ∧ b_refcnt bf = 1 ∧
    0 ≤ n < Z.of_nat (length (bc_disk s)) ∧ block (b_data bf) ∧
    (b_flags bf = B_VALID ∨ b_flags bf = Z.lor B_VALID B_DIRTY) ∧
    c_view s !! Z.to_nat n = Some (b_data bf) ∧ (n ∈ c_dirty s ↔ dirtyb bf = true).
Proof using Hinv.
  intros (bf&Hb&Hl&Hn)%c_held_lookup. exists bf.
  destruct (inv_lookup s Hinv b bf Hb) as [[|Hd Hr ? Href] _]; [congruence|].
  destruct (used_abs b bf Hb Hd). rewrite Hl in Href. subst n. done.
Qed.

(** A locked buffer with new flags, data or lock, and its block of the disk. *)
Lemma held_replaced b n bf f l r d s' :
  bc_bufs s !! b = Some bf → b_dev bf = 1 → b_blockno bf = n →
  bc_bufs s' = <[b := Buf f 1 n l r d]> (bc_bufs s) →
  bc_lock s' = false → (∃ order, mru s' order) →
  length (bc_disk s') = length (bc_disk s) → Forall block (bc_disk s') →
  (∀ k, k ≠ Z.to_nat n → bc_disk s' !! k = bc_disk s !! k) →
  buf_ok (bc_disk s') (Buf f 1 n l r d) →
  replaced s b bf (Buf f 1 n l r d) s'.
Proof using Hinv.
  intros Hb Hd Hn Hbs Hlk Hm Hlen Hbl Hdisk Hok. split; simpl; try done; [|by left].
  intros j bj Hj Hbj Hdj E. apply Hj. eapply (ci_uniq s Hinv); [done..|congruence].
Qed.

(** A buffer locked for a block that was not held. *)
Definition locked_for b n s' : Prop :=
  cache_inv s' ∧ c_view s' = c_view s ∧ bc_disk s' = bc_disk s ∧ bc_trace s' = bc_trace s ∧
  c_dirty s' = c_dirty s ∧ c_held s !! b = None ∧ c_held s' = <[b := n]> (c_held s).

Lemma locked_for_intro b n bf bf' s' :
  replaced s b bf bf' s' → b_blockno bf' = n → sl_locked (b_lock bf') = true →
  sl_locked (b_lock bf) = false → bc_disk s' = bc_disk s → bc_trace s' = bc_trace s →
  c_view s !! Z.to_nat n = Some (b_data bf') → (n ∈ c_dirty s ↔ dirtyb bf' = true) →
  locked_for b n s'.
Proof using Hinv.
  intros R <- Hl Hu Hd Ht Hv Hdirty. split_and!; [by eapply rp_inv| |done|done| | |].
  - erewrite rp_view by done. by apply list_insert_id.
  - erewrite rp_dirty by done. apply set_eq. intros m.
    destruct (dirtyb bf'), (decide (m = b_blockno bf')); set_solver.
  - apply eq_None_not_Some. intros [m Hm]. apply c_held_lookup in Hm as (x&Hx&?&_).
    pose proof (rp_old _ _ _ _ _ R). congruence.
  - erewrite rp_held by done. by rewrite Hl.
Qed.

Lemma bread_hit b bf n :
  bc_bufs s !! b = Some bf → b_dev bf = 1 → b_blockno bf = n →
  sl_locked (b_lock bf) = false → wp (bread ROOTDEV n) (λ b s', locked_for b n s') s.
Proof using Hinv.
  intros Hb Hd Hn Hu. destruct (inv_lookup s Hinv b bf Hb) as [[|_ Hr Hf _ _ Hblk _] _]; [congruence|].
  unfold bread. eapply wp_eq.
  { erewrite bind_run by by eapply bget_hit_run.
    erewrite bind_run by by eapply getbuf_run, put_lookup.
    assert (validb bf = true) as Hva by (unfold validb; by destruct Hf as [-> | ->]).
    unfold validb in *. simpl. rewrite Hva. done. }
  destruct (used_abs b bf Hb Hd) as [Hv Hdi]. rewrite Hn in *.
  eapply locked_for_intro; [eapply (held_replaced b n bf); try reflexivity|done..];
    try done; [apply Hinv..|]. by apply buf_used.
Qed.

Lemma bread_miss n :
  0 ≤ n < Z.of_nat (length (bc_disk s)) → cached (bc_bufs s) n = None →
  (size (c_dirty s ∪ map_img (c_held s) : gset Z) < NBUF)%nat →
  wp (bread ROOTDEV n) (λ b s', locked_for b n s') s.
Proof using Hinv.
  intros Hn Hno Hsz. destruct (ci_mru s Hinv) as [order Hm].
  destruct (lookup_lt_is_Some_2 (bc_disk s) (Z.to_nat n)) as [d Hd]; [lia|].
  destruct (bget_miss_run s Hinv n order Hm Hno) as (b&bf&l1&l2&Hb&Hr&Hcl&_&_&Hrun);
    [by apply reusable_exists|].
  pose proof (Forall_lookup_1 _ _ _ _ (ci_disk s Hinv) Hd) as Hblk.
  unfold bread. eapply wp_eq.
  { erewrite bind_run by exact Hrun.
    erewrite bind_run by by eapply getbuf_run, put_lookup.
    erewrite bind_run; [done|]. eapply iderw_read_run;
      [by eapply put_lookup|done|done|done|exact Hd|simpl; lia|done]. }
  rewrite put_put. rewrite cached_None in Hno.
  assert (sl_locked (b_lock bf) = false) as Hu.
  { destruct (inv_lookup s Hinv b bf Hb) as [[|? ? ? Hr'] _]; [done|].
    destruct (sl_locked _); congruence. }
  set (bf' := Buf B_VALID 1 n (Sleeplock false true (bc_pid s)) 1 d).
  apply (locked_for_intro b n bf bf'); try done.
  - split; simpl; try apply Hinv; try done.
    + apply buf_used; [done|done|by left|done..].
    + intros j bj _ Hj Hdj E. by eapply Hno.
    + by right.
  - rewrite c_view_lookup by done. unfold view_at. rewrite (proj2 (cached_None s n)) by done.
    simpl. by rewrite list_lookup_total_alt, Hd.
  - split; [|done]. intros (i&x&Hi&Hx&Hxn)%c_dirty_elem. exfalso. eapply Hno; [exact Hi|].
    destruct (inv_lookup s Hinv i x Hi) as [[? Hf|] _]; [|done].
    unfold dirtyb in Hx. by rewrite Hf in Hx.
Qed.

Lemma bread_ok n :
  0 ≤ n < Z.of_nat (length (bc_disk s)) → (∀ b, c_held s !! b ≠ Some n) →
  n ∈ c_dirty s ∨ (size (c_dirty s ∪ map_img (c_held s) : gset Z) < NBUF)%nat →
  wp (bread ROOTDEV n) (λ b s', locked_for b n s') s.
Proof using Hinv.
  intros Hn Hnh Hsz. destruct (cached (bc_bufs s) n) as [bf|] eqn:E.
  - apply cached_Some in E as (b&Hb&Hd&Hbn); [|done]. eapply bread_hit; try done.
    destruct (sl_locked (b_lock bf)) eqn:Hl; [|done]. exfalso. eapply (Hnh b), c_held_lookup. eauto.
  - destruct Hsz as [(i&x&Hi&Hx&Hxn)%c_dirty_elem|Hsz]; [|by apply bread_miss].
    exfalso. rewrite cached_None in E. eapply E; [exact Hi|].
    destruct (inv_lookup s Hinv i x Hi) as [[? Hf|] _]; [|done].
    unfold dirtyb in Hx. by rewrite Hf in Hx.
Qed.

(** A store into the flags or the data of a locked buffer. *)
Lemma held_update b n bf f d s' :
  c_held s !! b = Some n → bc_bufs s !! b = Some bf →
  f = B_VALID ∨ f = Z.lor B_VALID B_DIRTY → block d →
  bc_bufs s' = <[b := Buf f 1 n (b_lock bf) 1 d]> (bc_bufs s) →
  bc_lock s' = false → bc_next s' = bc_next s → bc_prev s' = bc_prev s →
  length (bc_disk s') = length (bc_disk s) → Forall block (bc_disk s') →
  (∀ k, k ≠ Z.to_nat n → bc_disk s' !! k = bc_disk s !! k) →
  cache_inv s' ∧ c_view s' = <[Z.to_nat n := d]> (c_view s) ∧
  c_dirty s' = (if Z.land f B_DIRTY =? 0 then c_dirty s ∖ {[n]} else {[n]} ∪ c_dirty s) ∧
  c_held s' = c_held s.
Proof using Hinv.
  intros Hh Hb Hf Hblk Hbs Hlk Hnx Hpv Hlen Hbl Hdisk.
  destruct (held_lookup b n Hh) as (bf0&?&Hl&Hn&Hd&Hsl&Href&Hr&_). simplify_eq.
  assert (replaced s b bf (Buf f 1 (b_blockno bf) (b_lock bf) 1 d) s') as R.
  { eapply held_replaced; try done.
    - destruct (ci_mru s Hinv) as [order Hm]. exists order. by eapply mru_same.
    - apply buf_used; simpl; try done; [by rewrite Hlen|by rewrite Hl|congruence]. }
  split_and!; [by eapply rp_inv|by erewrite rp_view by done| |].
  - erewrite rp_dirty by done. unfold dirtyb. simpl. by destruct (Z.land f B_DIRTY =? 0).
  - erewrite rp_held by done. simpl. rewrite Hl. by apply insert_id.
Qed.

Lemma set_data_ok b n d :
  c_held s !! b = Some n → block d →
  wp (updbuf b (set_b_data d)) (λ _ s',
    cache_inv s' ∧ c_view s' = <[Z.to_nat n := d]> (c_view s) ∧ bc_disk s' = bc_disk s ∧
    bc_trace s' = bc_trace s ∧ c_dirty s' = c_dirty s ∧ c_held s' = c_held s) s.
Proof using Hinv.
  intros Hh Hblk. destruct (held_lookup b n Hh) as (bf&Hb&Hl&Hn&Hd&Hsl&Href&Hr&_&Hf&_&Hdi).
  eapply wp_eq; [by apply updbuf_run|].
  destruct (held_update b n bf (b_flags bf) d (put_buf b (set_b_data d bf) s))
    as (Hi&Hv&Hdirty&Hheld); try done; try apply Hinv.
  { unfold set_b_data, put_buf. simpl. by rewrite Hn, Hd, Href. }
  split_and!; try done. rewrite Hdirty. clear -Hdi. unfold dirtyb in Hdi.
  destruct (_ =? _); set_solver.
Qed.

Lemma mark_dirty_ok b n :
  c_held s !! b = Some n →
  wp (updbuf b (λ bf, set_b_flags (Z.lor (b_flags bf) B_DIRTY) bf)) (λ _ s',
    cache_inv s' ∧ c_view s' = c_view s ∧ bc_disk s' = bc_disk s ∧
    bc_trace s' = bc_trace s ∧ c_dirty s' = {[n]} ∪ c_dirty s ∧ c_held s' = c_held s) s.
Proof using Hinv.
  intros Hh. destruct (held_lookup b n Hh) as (bf&Hb&Hl&Hn&Hd&Hsl&Href&Hr&Hblk&Hf&Hv0&Hdi).
  eapply wp_eq; [by apply updbuf_run|]. cbv beta.
  assert (Z.lor (b_flags bf) B_DIRTY = Z.lor B_VALID B_DIRTY) as -> by by destruct Hf as [-> | ->].
  destruct (held_update b n bf (Z.lor B_VALID B_DIRTY) (b_data bf)
    (put_buf b (set_b_flags (Z.lor B_VALID B_DIRTY) bf) s))
    as (Hi&Hv&Hdirty&Hheld); try done; try apply Hinv; [by right| |].
  { unfold set_b_flags, put_buf. simpl. by rewrite Hn, Hd, Href. }
  split_and!; try done. by rewrite Hv, list_insert_id.
Qed.

Lemma bwrite_ok b n d :
  c_held s !! b = Some n → b_data (buf_at s b) = d →
  wp (bwrite b) (λ _ s',
    cache_inv s' ∧ c_view s' = c_view s ∧ bc_disk s' = <[Z.to_nat n := d]> (bc_disk s) ∧
    bc_trace s' = bc_trace s ++ [(n, d)] ∧ c_dirty s' = c_dirty s ∖ {[n]} ∧
    c_held s' = c_held s) s.
Proof using Hinv.
  intros Hh. destruct (held_lookup b n Hh) as (bf&Hb&Hl&Hn&Hd&Hsl&Href&Hr&Hblk&Hf&Hv0&Hdi).
  unfold buf_at. rewrite Hb. simpl. intros <-.
  eapply wp_eq; [apply bwrite_run; try done; rewrite Hn; lia|].
  set (s' := written _ _ _).
  destruct (held_update b n bf B_VALID (b_data bf) s') as (Hi&Hv&Hdirty&Hheld);
    try done; try apply Hinv.
  { by left. }
  { unfold s', set_b_flags, put_buf. simpl. by rewrite Hn, Hd, Href. }
  { simpl. apply length_insert. }
  { simpl. apply Forall_insert; [apply Hinv|done]. }
  { intros k Hk. simpl. rewrite Hn. by apply list_lookup_insert_ne. }
  split_and!; try done; [|by simpl; rewrite Hn..]. by rewrite Hv, list_insert_id.
Qed.

Lemma brelse_ok b n :
  c_held s !! b = Some n →
  n ∈ c_dirty s ∨ bc_disk s !! Z.to_nat n = c_view s !! Z.to_nat n →
  wp (brelse b) (λ _ s',
    cache_inv s' ∧ c_view s' = c_view s ∧ bc_disk s' = bc_disk s ∧
    bc_trace s' = bc_trace s ∧ c_dirty s' = c_dirty s ∧ c_held s' = delete b (c_held s)) s.
Proof using Hinv.
  intros Hh Hcl. destruct (held_lookup b n Hh) as (bf&Hb&Hl&Hn&Hd&Hsl&Href&Hr&Hblk&Hf&Hv0&Hdi).
  destruct (ci_mru s Hinv) as [order Hm]. pose proof (ci_lock s Hinv) as Hlk.
  destruct (inv_lookup s Hinv b bf Hb) as [_ Hlt].
  set (bf' := Buf (b_flags bf) 1 n initsleeplock 0 (b_data bf)).
  set (s1 := set_bc_lock true (woken (Z.of_nat b) (put_buf b bf' s))).
  eapply wp_eq.
  { unfold brelse. erewrite bind_run by (eapply b_holdingsleep_run; eassumption). rewrite Hl. simpl.
    erewrite bind_run by (eapply b_releasesleep_run; eassumption).
    erewrite bind_run by by apply acquire_run.
    erewrite bind_run by (eapply updbuf_run; simpl; by eapply list_lookup_insert_eq, lookup_lt_Some).
    erewrite (bind_run (getbuf b)) by
      (apply getbuf_run; simpl; eapply list_lookup_insert_eq;
       rewrite length_insert; by eapply lookup_lt_Some).
    simpl. rewrite Href. simpl.
    erewrite bind_run.
    2:{ apply brelse_mru_run; simpl; [apply Hm|apply Hm|done]. }
    by apply release_run. }
  assert (b ∈ order) as (l1&l2&->)%list_elem_of_split by by apply (mru_elem _ _ _ Hm).
  match goal with |- context [cache_inv ?s'] => set (s2 := s') end.
  assert (bc_bufs s2 = <[b := bf']> (bc_bufs s)) as Hbs.
  { simpl. rewrite list_insert_insert_eq. unfold bf', set_b_refcnt, set_b_lock. simpl.
    by rewrite Hn, Hd. }
  assert (replaced s b bf bf' s2) as R.
  { apply held_replaced; try done; try apply Hinv.
    - exists (b :: l1 ++ l2).
      eapply mru_same; [..|apply (brelse_mru_order b s l1 l2 Hm)]; done.
    - apply buf_used; simpl; try done. intros _ Hfl. destruct Hcl as [Hcl|Hcl].
      + apply Hdi in Hcl. unfold dirtyb in Hcl. by rewrite Hfl in Hcl.
      + by rewrite Hcl. }
  split_and!; [by eapply rp_inv| |done|done| |].
  - erewrite rp_view by done. by apply list_insert_id.
  - erewrite rp_dirty by done. unfold dirtyb in *. simpl. clear -Hdi.
    destruct (_ =? _); set_solver.
  - by erewrite rp_held by done.
Qed.
End specs.

(** * The cache implements the block interface *)

#[global] Instance bcache_io : BlockIO bcache := {|
  Blocks.bread := bread;
  Blocks.bwrite := bwrite;
  Blocks.brelse := brelse;
  bdata b s := b_data (buf_at s b);
  set_bdata b d := updbuf b (set_b_data d);
  bblockno b s := b_blockno (buf_at s b);
  mark_dirty b := updbuf b (λ bf, set_b_flags (Z.lor (b_flags bf) B_DIRTY) bf);
  boot := boot_cache;
|}.

Lemma cache_clean s n :
  cache_inv s → 0 ≤ n < Z.of_nat (length (bc_disk s)) → n ∉ c_dirty s →
  (∀ b, c_held s !! b ≠ Some n) → bc_disk s !! Z.to_nat n = c_view s !! Z.to_nat n.
Proof.
  intros Hinv Hn Hd Hh. rewrite c_view_lookup by done. unfold view_at.
  destruct (cached (bc_bufs s) n) as [bf|] eqn:E.
  - apply cached_Some in E as (b&Hb&Hdev&Hbn); [|done].
    destruct (inv_lookup s Hinv b bf Hb) as [[|? ? Hf ? ? ? Hsame] _]; [congruence|].
    rewrite <- Hbn, Hsame; [done| |].
    + destruct (sl_locked (b_lock bf)) eqn:Hl; [|done]. exfalso.
      eapply (Hh b), c_held_lookup. eauto.
    + destruct Hf as [|Hf]; [done|]. exfalso. apply Hd, c_dirty_elem. exists b, bf.
      split_and!; [done| |done]. unfold dirtyb. by rewrite Hf.
  - apply list_lookup_lookup_total_lt. lia.
Qed.

Section held.
Context (s : bcache) (b : nat) (n : Z) (Hinv : cache_inv s) (Hh : c_held s !! b = Some n).

Lemma cache_held_data : c_view s !! Z.to_nat n = Some (b_data (buf_at s b)).
Proof using Hinv Hh.
  destruct (held_lookup s Hinv b n Hh) as (bf&Hb&?&?&?&?&?&?&?&?&Hv&?).
  unfold buf_at. by rewrite Hb.
Qed.

Lemma cache_held_blockno : b_blockno (buf_at s b) = n.
Proof using Hinv Hh.
  destruct (held_lookup s Hinv b n Hh) as (bf&Hb&?&?&_). unfold buf_at. by rewrite Hb.
Qed.

Lemma cache_held_range : 0 ≤ n < Z.of_nat (length (bc_disk s)).
Proof using Hinv Hh. by destruct (held_lookup s Hinv b n Hh) as (bf&Hb&?&?&?&?&?&?&_). Qed.

Lemma cache_held_inj b' : c_held s !! b' = Some n → b = b'.
Proof using Hinv Hh.
  intros (x&?&?&?)%(held_lookup s Hinv). destruct (held_lookup s Hinv b n Hh) as (y&?&?&?).
  destruct_and!. eapply (ci_uniq s Hinv); [done..|congruence].
Qed.
End held.

#[global] Instance bcache_spec : BlockIOSpec bcache := {|
  bio_inv := cache_inv;
  bview := c_view;
  bdisk := bc_disk;
  btrace := bc_trace;
  bdirty := c_dirty;
  bheld := c_held;
  bio_view_length s _ := c_view_length s;
  bio_view_blocks := c_view_blocks;
  bio_disk_blocks := ci_disk;
  bio_held_data := cache_held_data;
  bio_held_blockno := cache_held_blockno;
  bio_held_range := cache_held_range;
  bio_held_inj s b b' n Hinv Hh := cache_held_inj s b n Hinv Hh b';
  bio_clean := cache_clean;
  bread_spec s n Hinv := bread_ok s Hinv n;
  set_bdata_spec s b n d Hinv := set_data_ok s Hinv b n d;
  mark_dirty_spec s b n Hinv := mark_dirty_ok s Hinv b n;
  bwrite_spec s b n Hinv Hh := bwrite_ok s Hinv b n _ Hh eq_refl;
  brelse_spec s b n Hinv := brelse_ok s Hinv b n;
  boot_spec d Hd := conj (boot_inv d Hd) (boot_abs d);
|}.

(** * Properties *)

(** A read returns the block.  While some buffer is neither locked nor
    dirty (or the block is itself pinned), bread of a block that the caller does not
    hold returns a locked buffer with the current contents of the block: those of its cached
    copy, if it has one, and of the disk otherwise.  There is still at most one buffer per
    block, and what the cache holds and what is on disk is unchanged. *)
Theorem bread_current s n :
  cache_inv s → 0 ≤ n < Z.of_nat (length (bc_disk s)) → (∀ b, c_held s !! b ≠ Some n) →
  n ∈ c_dirty s ∨ (size (c_dirty s ∪ map_img (c_held s) : gset Z) < NBUF)%nat →
  ∃ b s', bread ROOTDEV n s = Ok b s' ∧ cache_inv s' ∧ b_data (buf_at s' b) = view_at s n ∧
    c_held s' = <[b := n]> (c_held s) ∧ c_view s' = c_view s ∧ c_dirty s' = c_dirty s ∧
    bc_disk s' = bc_disk s.
Proof.
  intros Hinv Hn Hh Hsz.
  destruct (proj1 (wp_run _ _ _) (bread_ok s Hinv n Hn Hh Hsz)) as (b&s'&Hrun&Hi&Hv&Hd&_&Hdi&_&Hheld).
  exists b, s'. split_and!; try done.
  assert (c_held s' !! b = Some n) as Hb by by rewrite Hheld, lookup_insert_eq.
  pose proof (cache_held_data s' b n Hi Hb) as Hdata. rewrite Hv, c_view_lookup in Hdata by done.
  by simplify_eq.
Qed.

Lemma bread_current_witness :
  cache_inv (boot_cache [zero_block; zero_block]) ∧
  ∃ b s', bread ROOTDEV 1 (boot_cache [zero_block; zero_block]) = Ok b s' ∧ cache_inv s' ∧
    b_data (buf_at s' b) = view_at (boot_cache [zero_block; zero_block]) 1 ∧
    c_held s' = <[b := 1]> (c_held (boot_cache [zero_block; zero_block])) ∧
    c_view s' = c_view (boot_cache [zero_block; zero_block]) ∧
    c_dirty s' = c_dirty (boot_cache [zero_block; zero_block]) ∧
    bc_disk s' = bc_disk (boot_cache [zero_block; zero_block]).
Proof.
  assert (Forall block [zero_block; zero_block]) as Hb.
  { apply (bool_decide_unpack _). vm_compute. exact I. }
  split; [apply boot_inv; exact Hb|].
  destruct (boot_abs [zero_block; zero_block]) as (Ed&_&Ex&Eh).
  apply (bread_current (boot_cache [zero_block; zero_block]) 1).
  - apply boot_inv. exact Hb.
  - rewrite Ed. simpl. lia.
  - intros b. rewrite Eh, lookup_empty. discriminate.
  - right. rewrite Ex, Eh, map_img_empty_L, union_empty_l_L, size_empty, NBUF_eq. lia.
Defined.

(** LRU replacement.  When a block is not cached, bget recycles the
    buffer that was released least recently among those that nobody uses and that need not be
    written back: in the list from most to least recently released, all buffers behind it
    are in use or dirty.  When there is no such buffer at all it panics. *)
Theorem bget_recycles_lru s n order :
  cache_inv s → mru s order → cached (bc_bufs s) n = None →
  (∃ b s' l1 l2, bget ROOTDEV n s = Ok b s' ∧ order = l1 ++ b :: l2 ∧
     reusable (bc_bufs s) b ∧ (∀ c, c ∈ l2 → ¬ reusable (bc_bufs s) c) ∧
     b_blockno (buf_at s' b) = n ∧ b_flags (buf_at s' b) = 0 ∧
     ∀ c, c ≠ b → bc_bufs s' !! c = bc_bufs s !! c) ∨
  ((∀ b, ¬ reusable (bc_bufs s) b) ∧ bget ROOTDEV n s = Fail (Panic "bget: no buffers")).
Proof.
  intros Hinv Hm Hno.
  destruct (list_find (λ bf, b_refcnt bf = 0 ∧ dirtyb bf = false) (bc_bufs s)) as [[b0 bf0]|] eqn:E.
  - left. apply list_find_Some in E as (Hb0&[Hr0 Hd0]&_).
    destruct (bget_miss_run s Hinv n order Hm Hno) as (b&bf&l1&l2&Hb&Hr&Hcl&Ho&Hl2&Hrun);
      [by exists b0, bf0|].
    eexists b, _, l1, l2. split; [exact Hrun|]. split_and!; [done|by exists bf|done|..].
    + unfold buf_at. by erewrite put_lookup by done.
    + unfold buf_at. by erewrite put_lookup by done.
    + intros c Hc. simpl. by apply list_lookup_insert_ne.
  - right. apply list_find_None in E. rewrite Forall_lookup in E.
    assert (∀ b, ¬ reusable (bc_bufs s) b) as Hnone by (intros b (bf&Hb&?&?); by eapply E).
    split; [done|]. by eapply bget_panic_run.
Qed.

Lemma bget_recycles_lru_witness :
  cache_inv (boot_cache [zero_block]) ∧
  ∃ b s' l1 l2, bget ROOTDEV 0 (boot_cache [zero_block]) = Ok b s' ∧
    rev (seq 0 NBUF) = l1 ++ b :: l2 ∧ l2 = [].
Proof.
  assert (cache_inv (boot_cache [zero_block])) as Hinv.
  { apply boot_inv. apply (bool_decide_unpack _). vm_compute. exact I. }
  split; [exact Hinv|].
  destruct (bget_recycles_lru (boot_cache [zero_block]) 0 (rev (seq 0 NBUF)) Hinv
    (boot_mru _) ltac:(vm_compute; reflexivity)) as [(b&s'&l1&l2&Hrun&Ho&_&Hl2&_)|[Hno _]].
  - exists b, s', l1, l2. split_and!; [exact Hrun|exact Ho|].
    destruct l2 as [|c l2]; [reflexivity|]. exfalso. apply (Hl2 c); [apply list_elem_of_here|].
    assert (c ∈ rev (seq 0 NBUF)) as Hc.
    { rewrite Ho. apply elem_of_app. right. apply elem_of_cons. right. apply list_elem_of_here. }
    apply boot_reusable, (mru_elem _ _ _ (boot_mru [zero_block])). exact Hc.
  - exfalso. apply (Hno 0%nat), boot_reusable. rewrite NBUF_eq. lia.
Defined.

(** Writes reach the disk.  After bwrite of a locked buffer, a machine
    that reboots from the disk as it is then reads from that block what the buffer
    held; every other block of the disk is unchanged. *)
Theorem bwrite_durable s b n :
  cache_inv s → c_held s !! b = Some n →
  ∃ s', bwrite b s = Ok tt s' ∧ cache_inv s' ∧
    (∀ k, k ≠ Z.to_nat n → bc_disk s' !! k = bc_disk s !! k) ∧
    ∃ b' s'', bread ROOTDEV n (boot_cache (bc_disk s')) = Ok b' s'' ∧
      b_data (buf_at s'' b') = b_data (buf_at s b).
Proof.
  intros Hinv Hh. pose proof (cache_held_range s b n Hinv Hh) as Hn.
  destruct (proj1 (wp_run _ _ _) (bwrite_ok s Hinv b n _ Hh eq_refl))
    as ([]&s'&Hrun&Hi&_&Ed&_). exists s'. split_and!; [done|done| |].
  { intros k Hk. rewrite Ed. by apply list_lookup_insert_ne. }
  pose proof (boot_inv (bc_disk s') (ci_disk s' Hi)) as Hb.
  destruct (boot_abs (bc_disk s')) as (Ed'&_&Ex'&Eh').
  destruct (proj1 (wp_run _ _ _) (bread_ok _ Hb n
    ltac:(rewrite Ed', Ed, length_insert; lia) ltac:(by rewrite Eh')
    ltac:(right; rewrite Ex', Eh', map_img_empty_L, union_empty_l_L, size_empty, NBUF_eq; lia)))
    as (b'&s''&Hrun'&Hi''&Hv''&Hd''&_&Hdi&_&Hheld).
  exists b', s''. split; [done|].
  assert (c_held s'' !! b' = Some n) as Hb' by by rewrite Hheld, lookup_insert_eq.
  pose proof (cache_held_data s'' b' n Hi'' Hb') as Hdata.
  rewrite Hv'', <- (cache_clean _ n Hb), Ed', Ed, list_lookup_insert_eq in Hdata;
    [by injection Hdata|..].
  - lia.
  - rewrite Ed', Ed, length_insert. lia.
  - by rewrite Ex'.
  - by rewrite Eh'.
Qed.

Lemma bwrite_durable_witness :
  ∃ s, cache_inv s ∧ c_held s !! 0%nat = Some 1 ∧
    ∃ s', bwrite 0 s = Ok tt s' ∧ cache_inv s' ∧
      (∀ k, k ≠ Z.to_nat 1 → bc_disk s' !! k = bc_disk s !! k) ∧
      ∃ b' s'', bread ROOTDEV 1 (boot_cache (bc_disk s')) = Ok b' s'' ∧
        b_data (buf_at s'' b') = b_data (buf_at s 0).
Proof.
  assert (cache_inv (boot_cache [zero_block; zero_block])) as Hinv.
  { apply boot_inv. apply (bool_decide_unpack _). vm_compute. exact I. }
  destruct (boot_abs [zero_block; zero_block]) as (Ed&_&Ex&Eh).
  destruct (proj1 (wp_run _ _ _) (bread_ok _ Hinv 1 ltac:(rewrite Ed; simpl; lia) ltac:(by rewrite Eh)
    ltac:(right; rewrite Ex, Eh, map_img_empty_L, union_empty_l_L, size_empty, NBUF_eq; lia)))
    as (b&s&Hrun&Hi&_&_&_&_&_&Hheld).
  assert (b = 0%nat) as ->.
  { apply (f_equal (λ o, match o with Ok b _ => b | _ => 0%nat end)) in Hrun.
    rewrite <- Hrun. vm_compute. reflexivity. }
  assert (c_held s !! 0%nat = Some 1) as Hh by (rewrite Hheld; apply lookup_insert_eq).
  exists s. split; [exact Hi|]. split; [exact Hh|]. apply (bwrite_durable s 0 1 Hi Hh).
Defined.
