(* ===== verification/Ide.v ===== *)
(** The driver of the IDE disk (src/ide.c): the queue of requests, the port
    input and output, and the interrupt handler.

    The controller is not part of the sources.  Its ports are the parameter
    [Ports]; the class [Ata] states what the driver relies on: the registers of a
    command, the two transfers of data, that a started command ends with an
    interrupt, and that the status becomes ready.  A command may fail.

    Buffers are those of Bio.v with their qnext field in [qnext].  Processes
    call iderw, sleep, and are woken; the interrupt handler runs between
    them.  The theorems are that each request is served once, in the order of the
    queue, with the effect of the memory disk, and that no wakeup is lost. *)

From S2P Require Import Prelude Bytes Layout Ports Sleeplock Bio.

Definition SECTOR_SIZE : Z := 512.
Definition IDE_BSY : Z := 0x80.
Definition IDE_DRDY : Z := 0x40.
Definition IDE_DF : Z := 0x20.
Definition IDE_ERR : Z := 0x01.
Definition IDE_CMD_READ : Z := 0x20.
Definition IDE_CMD_WRITE : Z := 0x30.
Definition IDE_CMD_RDMUL : Z := 0xc4.
Definition IDE_CMD_WRMUL : Z := 0xc5.

(** A process: outside of iderw, asleep in its loop, or woken there. *)
Inductive pstate := Outside | Asleep (b : nat) | Awake (b : nat).

Record ide (D : Type) := Ide {
  idelock : bool;
  idequeue : option nat;
  qnext : list (option nat);
  ibufs : list buf;
  havedisk1 : Z;
  device : D;
  procs : list pstate;
}.
Arguments Ide {D}.
Arguments idelock {D}.
Arguments idequeue {D}.
Arguments qnext {D}.
Arguments ibufs {D}.
Arguments havedisk1 {D}.
Arguments device {D}.
Arguments procs {D}.

Section code.
Context {D : Type} `{Ports D}.
(** how often idewait polls the status *)
Context (fuel : nat).
Notation MI := (M (ide D)).

Definition set_lock (l : bool) (s : ide D) : ide D :=
  Ide l (idequeue s) (qnext s) (ibufs s) (havedisk1 s) (device s) (procs s).
Definition set_queue (q : option nat) (s : ide D) : ide D :=
  Ide (idelock s) q (qnext s) (ibufs s) (havedisk1 s) (device s) (procs s).
Definition set_qnext (qn : list (option nat)) (s : ide D) : ide D :=
  Ide (idelock s) (idequeue s) qn (ibufs s) (havedisk1 s) (device s) (procs s).
Definition set_ibufs (bs : list buf) (s : ide D) : ide D :=
  Ide (idelock s) (idequeue s) (qnext s) bs (havedisk1 s) (device s) (procs s).
Definition set_havedisk1 (h : Z) (s : ide D) : ide D :=
  Ide (idelock s) (idequeue s) (qnext s) (ibufs s) h (device s) (procs s).
Definition set_device (d : D) (s : ide D) : ide D :=
  Ide (idelock s) (idequeue s) (qnext s) (ibufs s) (havedisk1 s) d (procs s).
Definition set_procs (ps : list pstate) (s : ide D) : ide D :=
  Ide (idelock s) (idequeue s) (qnext s) (ibufs s) (havedisk1 s) (device s) ps.

Definition ide_lock : lens (ide D) bool := Lens idelock set_lock.
Definition ibuf (b : nat) : MI buf := bs ← gets ibufs; the "buf" (bs !! b).
Definition upd_ibuf (b : nat) (f : buf → buf) : MI unit :=
  modify (λ s, set_ibufs (alter f b (ibufs s)) s).
Definition ibuf_lock (b : nat) : lens (ide D) sleeplock :=
  Lens (λ s, b_lock (default zero_buf (ibufs s !! b)))
       (λ l s, set_ibufs (alter (set_b_lock l) b (ibufs s)) s).

Definition port_in (port : Z) : MI Z := λ s,
  let '(v, d) := inb port (device s) in Ok v (set_device d s).
Definition port_out (port v : Z) : MI unit :=
  modify (λ s, set_device (outb port (u8 v) (device s)) s).
Definition port_insl (port : Z) (cnt : nat) : MI (list Z) := λ s,
  let '(v, d) := insl port cnt (device s) in Ok v (set_device d s).
Definition port_outsl (port : Z) (data : list Z) : MI unit :=
  modify (λ s, set_device (outsl port data (device s)) s).

(** wakeup(b) *)
Definition wake (b : nat) (p : pstate) : pstate :=
  match p with Asleep b' => if decide (b' = b) then Awake b else p | _ => p end.
Definition wakeup (b : nat) : MI unit := modify (λ s, set_procs (wake b <$> procs s) s).

Fixpoint idewait_loop (n : nat) : MI Z :=
  match n with
  | O => out_of_fuel
  | S n =>
      r ← port_in 0x1f7;
      if Z.land r (Z.lor IDE_BSY IDE_DRDY) =? IDE_DRDY then mret r else idewait_loop n
  end.
Definition idewait (checkerr : Z) : MI Z :=
  r ← idewait_loop fuel;
  if negb (checkerr =? 0) && negb (Z.land r (Z.lor IDE_DF IDE_ERR) =? 0)
  then mret (-1) else mret 0.

(** the loop of ideinit that looks for disk 1 *)
Fixpoint probe (n : nat) : MI unit :=
  match n with
  | O => mret tt
  | S n =>
      r ← port_in 0x1f7;
      if negb (r =? 0) then modify (set_havedisk1 1) else probe n
  end.
(** ideinit; ioapicenable routes the interrupt to the last CPU. *)
Definition ideinit : MI unit :=
  modify (set_lock false);;
  idewait 0;;
  port_out 0x1f6 (Z.lor 0xe0 (Z.shiftl 1 4));;
  probe 1000;;
  port_out 0x1f6 (Z.lor 0xe0 (Z.shiftl 0 4)).

Definition idestart (o : option nat) : MI unit :=
  match o with
  | None => panic "idestart"
  | Some b =>
      bf ← ibuf b;
      if FSSIZE <=? b_blockno bf then panic "incorrect blockno" else
      let sector_per_block := BSIZE / SECTOR_SIZE in
      let sector := s32 (u32 (b_blockno bf * sector_per_block)) in
      let read_cmd := if sector_per_block =? 1 then IDE_CMD_READ else IDE_CMD_RDMUL in
      let write_cmd := if sector_per_block =? 1 then IDE_CMD_WRITE else IDE_CMD_WRMUL in
      if 7 <? sector_per_block then panic "idestart" else
      idewait 0;;
      port_out 0x3f6 0;;
      port_out 0x1f2 sector_per_block;;
      port_out 0x1f3 (Z.land sector 0xff);;
      port_out 0x1f4 (Z.land (Z.shiftr sector 8) 0xff);;
      port_out 0x1f5 (Z.land (Z.shiftr sector 16) 0xff);;
      port_out 0x1f6 (Z.lor (Z.lor 0xe0 (Z.shiftl (Z.land (b_dev bf) 1) 4))
                            (Z.land (Z.shiftr sector 24) 0x0f));;
      if dirtyb bf then
        port_out 0x1f7 write_cmd;;
        port_outsl 0x1f0 (take (Z.to_nat BSIZE) (b_data bf))
      else port_out 0x1f7 read_cmd
  end.

Definition ideintr : MI unit :=
  acquire ide_lock;;
  q ← gets idequeue;
  match q with
  | None => release ide_lock
  | Some b =>
      qn ← gets qnext;
      n ← the "qnext" (qn !! b);
      modify (set_queue n);;
      bf ← ibuf b;
      when (negb (dirtyb bf))
        (r ← idewait 1;
         when (0 <=? r)
           (data ← port_insl 0x1f0 (Z.to_nat (BSIZE / 4));
            upd_ibuf b (set_b_data data)));;
      upd_ibuf b (λ bf, set_b_flags (Z.lor (b_flags bf) B_VALID) bf);;
      upd_ibuf b (λ bf, set_b_flags (Z.land (b_flags bf) (Z.lnot B_DIRTY)) bf);;
      wakeup b;;
      q ← gets idequeue;
      when (bool_decide (q ≠ None)) (idestart q);;
      release ide_lock
  end.

(** [pp] is idequeue itself or the qnext field of a buffer. *)
Definition get_link (pp : option nat) : MI (option nat) :=
  match pp with
  | None => gets idequeue
  | Some x => qn ← gets qnext; the "qnext" (qn !! x)
  end.
Definition set_link (pp : option nat) (v : option nat) : MI unit :=
  match pp with
  | None => modify (set_queue v)
  | Some x => modify (λ s, set_qnext (<[x := v]> (qnext s)) s)
  end.
Fixpoint append_queue (n : nat) (b : nat) (pp : option nat) : MI unit :=
  match n with
  | O => out_of_fuel
  | S n =>
      v ← get_link pp;
      match v with
      | None => set_link pp (Some b)
      | Some x => append_queue n b (Some x)
      end
  end.

(** the loop of iderw; sleep releases idelock, and [iderw_resume] is what runs
    when it returns *)
Definition iderw_wait (b : nat) : MI unit :=
  bf ← ibuf b;
  if negb (Z.land (b_flags bf) (Z.lor B_VALID B_DIRTY) =? B_VALID)
  then release ide_lock;; sleep_on (Z.of_nat b)
  else release ide_lock.
Definition iderw_resume (b : nat) : MI unit := acquire ide_lock;; iderw_wait b.

Definition iderw (b : nat) : MI unit :=
  h ← holdingsleep (ibuf_lock b);
  if negb h then panic "iderw: buf not locked" else
  bf ← ibuf b;
  if Z.land (b_flags bf) (Z.lor B_VALID B_DIRTY) =? B_VALID then panic "iderw: nothing to do" else
  hd ← gets havedisk1;
  if negb (b_dev bf =? 0) && (hd =? 0) then panic "iderw: ide disk 1 not present" else
  acquire ide_lock;;
  set_link (Some b) None;;
  bs ← gets ibufs;
  append_queue (S (length bs)) b None;;
  q ← gets idequeue;
  when (bool_decide (q = Some b)) (idestart (Some b));;
  iderw_wait b.
End code.

(** * The controller *)

(** What a controller is doing: nothing (after success or after an error), a
    command, or waiting for the data of a write; after a read that succeeded the
    sector is loaded. *)
Inductive phase :=
| Ready
| Failed
| Reading (drive sector : Z)
| Wanting (drive sector : Z)
| Writing (drive sector : Z) (data : list Z)
| Loaded (drive sector : Z).

Definition settled (ph : phase) : Prop :=
  match ph with Ready | Failed | Loaded _ _ => True | _ => False end.
Definition idle (ph : phase) : Prop := ph = Ready ∨ ph = Failed.
Definition ready (st : Z) : Prop := Z.land st (Z.lor IDE_BSY IDE_DRDY) = IDE_DRDY.
Definition faulty (st : Z) : Prop := Z.land st (Z.lor IDE_DF IDE_ERR) ≠ 0.

(** the address that the registers hold *)
Definition lba (reg : Z → Z) : Z :=
  reg 0x1f3 + 2 ^ 8 * reg 0x1f4 + 2 ^ 16 * reg 0x1f5 + 2 ^ 24 * Z.land (reg 0x1f6) 0x0f.
Definition drive (reg : Z → Z) : Z := Z.land (Z.shiftr (reg 0x1f6) 4) 1.

Definition command_regs : list Z := [0x3f6; 0x1f2; 0x1f3; 0x1f4; 0x1f5; 0x1f6].

(** The status after [n] polls. *)
Fixpoint polled `{Ports D} (n : nat) (d : D) : D :=
  match n with O => d | S n => polled n (inb 0x1f7 d).2 end.
Definition status `{Ports D} (n : nat) (d : D) : Z := (inb 0x1f7 (polled n d)).1.

Class Ata (D : Type) `{Ports D} := {
  image : D → Z → Z → list Z;
  phase_of : D → phase;
  reg : D → Z → Z;
  (** the interrupt at the end of a command *)
  irq : D → D → Prop;
  polls : nat;
  ata_sector d dr n : length (image d dr n) = Z.to_nat SECTOR_SIZE;
  ata_poll d :
    let d' := (inb 0x1f7 d).2 in
    phase_of d' = phase_of d ∧ (∀ r, reg d' r = reg d r) ∧ ∀ dr n, image d' dr n = image d dr n;
  ata_ready d : settled (phase_of d) → ∃ n, (n < polls)%nat ∧ ready (status n d);
  ata_ok d dr n : phase_of d = Loaded dr n → ready (inb 0x1f7 d).1 → ¬ faulty (inb 0x1f7 d).1;
  ata_error d : phase_of d = Failed → ready (inb 0x1f7 d).1 → faulty (inb 0x1f7 d).1;
  ata_reg d p v : idle (phase_of d) → p ∈ command_regs →
    let d' := outb p v d in
    phase_of d' = phase_of d ∧ (∀ r, reg d' r = if decide (r = p) then v else reg d r) ∧
    ∀ dr n, image d' dr n = image d dr n;
  ata_read d : idle (phase_of d) → reg d 0x1f2 = 1 →
    let d' := outb 0x1f7 IDE_CMD_READ d in
    phase_of d' = Reading (drive (reg d)) (lba (reg d)) ∧ ∀ dr n, image d' dr n = image d dr n;
  ata_write d : idle (phase_of d) → reg d 0x1f2 = 1 →
    let d' := outb 0x1f7 IDE_CMD_WRITE d in
    phase_of d' = Wanting (drive (reg d)) (lba (reg d)) ∧ ∀ dr n, image d' dr n = image d dr n;
  ata_data d dr n data : phase_of d = Wanting dr n → length data = Z.to_nat SECTOR_SIZE →
    let d' := outsl 0x1f0 data d in
    phase_of d' = Writing dr n data ∧ ∀ dr n, image d' dr n = image d dr n;
  ata_load d dr n : phase_of d = Loaded dr n →
    let '(data, d') := insl 0x1f0 (Z.to_nat (SECTOR_SIZE / 4)) d in
    data = image d dr n ∧ phase_of d' = Ready ∧ ∀ dr n, image d' dr n = image d dr n;
  ata_irq_read d d' dr n : phase_of d = Reading dr n → irq d d' →
    (phase_of d' = Loaded dr n ∨ phase_of d' = Failed) ∧ ∀ dr n, image d' dr n = image d dr n;
  ata_irq_write d d' dr n data : phase_of d = Writing dr n data → irq d d' →
    (phase_of d' = Ready ∧ image d' dr n = data ∨ phase_of d' = Failed) ∧
    ∀ dr' n', (dr', n') ≠ (dr, n) → image d' dr' n' = image d dr' n';
}.

(** The registers that idestart writes address the block. *)
Definition select (dev n : Z) : Z :=
  Z.lor (Z.lor 0xe0 (Z.shiftl (Z.land dev 1) 4)) (Z.land (Z.shiftr n 24) 0x0f).

Lemma land_1 z : Z.land z 1 = 0 ∨ Z.land z 1 = 1.
Proof.
  assert (Z.land z 1 = z mod 2) as -> by (apply (Z.land_ones z 1); lia).
  pose proof (Z.mod_pos_bound z 2). lia.
Qed.

Lemma select_drive dev n r :
  0 ≤ n < FSSIZE → r 0x1f6 = u8 (select dev n) →
  drive r = Z.land dev 1 ∧ Z.land (r 0x1f6) 0x0f = 0.
Proof.
  intros Hn Hr. unfold drive, select in *. unfold FSSIZE in Hn.
  replace (Z.shiftr n 24) with 0 in Hr
    by (rewrite Z.shiftr_div_pow2, Z.div_small by lia; done).
  rewrite Hr. by destruct (land_1 dev) as [-> | ->].
Qed.

Lemma lba_block r n :
  0 ≤ n < FSSIZE → Z.land (r 0x1f6) 0x0f = 0 →
  r 0x1f3 = u8 (Z.land n 0xff) → r 0x1f4 = u8 (Z.land (Z.shiftr n 8) 0xff) →
  r 0x1f5 = u8 (Z.land (Z.shiftr n 16) 0xff) → lba r = n.
Proof.
  intros Hn H6 H3 H4 H5. unfold lba, FSSIZE in *. rewrite H6, H3, H4, H5.
  change 0xff with (Z.ones 8). rewrite !Z.land_ones, !Z.shiftr_div_pow2 by lia.
  unfold wrap. rewrite !Z.mod_mod by lia.
  change (2 ^ 8) with 256. change (2 ^ 16) with 65536.
  pose proof (Z.div_mod n 256). pose proof (Z.mod_pos_bound n 256).
  assert (0 ≤ n / 256 < 256) by (split; [apply Z.div_pos|apply Z.div_lt_upper_bound]; lia).
  rewrite (Z.mod_small (n / 256)), (Z.div_small n 65536), Z.mod_0_l by lia. lia.
Qed.

(** The queue: the buffers from [h] on along qnext. *)
Fixpoint chain (qn : list (option nat)) (h : option nat) (q : list nat) : Prop :=
  match q with
  | [] => h = None
  | b :: q => h = Some b ∧ ∃ n, qn !! b = Some n ∧ chain qn n q
  end.

Lemma qchain_insert qn h q b v : b ∉ q → chain qn h q → chain (<[b := v]> qn) h q.
Proof.
  revert h. induction q as [|x q IH]; intros h Hb; [done|]. simpl. intros (-> & n & Hn & Hc).
  split; [done|]. exists n. rewrite list_lookup_insert_ne by set_solver. split; [done|].
  apply IH; [set_solver|done].
Qed.

(** Appending to the queue through the last link. *)
Lemma chain_snoc_cons qn h q b x :
  chain qn h (q ++ [x]) → NoDup (q ++ [x]) → b ∉ q ++ [x] → qn !! b = Some None →
  chain (<[x := Some b]> qn) h (q ++ [x] ++ [b]).
Proof.
  revert h. induction q as [|y q IH]; intros h; simpl.
  - intros (-> & n & Hn & ->) _ Hb Hqb. split; [done|]. exists (Some b).
    split; [apply list_lookup_insert_eq; by apply lookup_lt_Some in Hn|]. split; [done|].
    exists None. rewrite list_lookup_insert_ne by set_solver. done.
  - intros (-> & n & Hn & Hc) Hnd Hb Hqb. apply list.NoDup_cons in Hnd as [Hy Hnd].
    split; [done|]. exists n. rewrite list_lookup_insert_ne by set_solver.
    split; [done|]. apply IH; set_solver.
Qed.

Lemma chain_head qn h q : chain qn h q → h = head q.
Proof. destruct q; simpl; [done|]. by intros [-> _]. Qed.

Lemma alter_insert_here {A} b (f : A → A) (x : A) (l : list A) :
  (b < length l)%nat → alter f b (<[b := x]> l) = <[b := f x]> l.
Proof.
  intros H. rewrite (alter_known f (<[b := x]> l) b x) by (by apply list_lookup_insert_eq).
  by rewrite list_insert_insert_eq.
Qed.

(** The queue, as a list. *)
Fixpoint walk (n : nat) (qn : list (option nat)) (h : option nat) : list nat :=
  match n, h with
  | S n, Some b => b :: walk n qn (default None (qn !! b))
  | _, _ => []
  end.

Lemma walk_chain n qn h q : chain qn h q → (length q ≤ n)%nat → walk n qn h = q.
Proof.
  revert n h. induction q as [|b q IH]; intros n h; simpl.
  - intros -> _. by destruct n.
  - intros (-> & v & Hv & Hc) Hn. destruct n as [|n]; [lia|]. simpl. rewrite Hv. simpl.
    f_equal. apply IH; [done|lia].
Qed.

Lemma distinct_length (q : list nat) n :
  NoDup q → (∀ b, b ∈ q → b < n)%nat → (length q ≤ n)%nat.
Proof.
  intros Hnd Hq. rewrite <- (length_seq n 0). apply submseteq_length, NoDup_submseteq; [done|].
  intros b Hb. apply elem_of_seq. specialize (Hq b Hb). lia.
Qed.

Section driver.
Context {D : Type} `{HA : Ata D} (fuel : nat).
Hypothesis (Hfuel : (polls ≤ fuel)%nat).
Implicit Types (s : ide D) (d : D) (b p : nat) (bf : buf).

Notation idestart := (idestart fuel).
Notation ideintr := (ideintr fuel).
Notation iderw := (iderw fuel).
Notation idewait := (idewait fuel).

(** two states of the controller between which the driver only polled *)
Definition same d d' : Prop :=
  phase_of d' = phase_of d ∧ (∀ r, reg d' r = reg d r) ∧ ∀ dr n, image d' dr n = image d dr n.

Lemma same_refl d : same d d.
Proof. done. Qed.
Lemma same_trans d1 d2 d3 : same d1 d2 → same d2 d3 → same d1 d3.
Proof.
  intros (H1 & H2 & H3) (H4 & H5 & H6). split; [congruence|]. split; intros; [by rewrite H5|by rewrite H6].
Qed.

Lemma idewait_loop_run d k n s :
  device s = d → (k < n)%nat → ready (status k d) →
  ∃ d0, idewait_loop n s = Ok (inb 0x1f7 d0).1 (set_device (inb 0x1f7 d0).2 s) ∧
    same d d0 ∧ ready (inb 0x1f7 d0).1.
Proof.
  revert d n s. induction k as [|k IH]; intros d n s <- Hk Hr; (destruct n as [|n]; [lia|]); simpl.
  - exists (device s). unfold mbind, M_bind, port_in. unfold status in Hr. simpl in Hr.
    destruct (inb 503 (device s)) as [r d'] eqn:E. simpl in *. unfold ready in Hr.
    rewrite Hr. rewrite Z.eqb_refl. split; [done|]. by split; [apply same_refl|].
  - unfold mbind, M_bind, port_in. destruct (inb 503 (device s)) as [r d'] eqn:E.
    pose proof (ata_poll (device s)) as Hp. rewrite E in Hp. simpl in Hp.
    destruct (Z.eqb_spec (Z.land r (Z.lor IDE_BSY IDE_DRDY)) IDE_DRDY) as [Er|].
    + exists (device s). rewrite E. simpl. done.
    + unfold status in Hr. simpl in Hr. rewrite E in Hr. simpl in Hr.
      destruct (IH d' n (set_device d' s)) as (d0 & H1 & H2 & H3); [done|lia|done|].
      exists d0. rewrite H1. split; [by destruct s|]. split; [|done].
      by apply (same_trans _ d').
Qed.

(** idewait returns; with checkerr, the error status of the controller. *)
Lemma idewait_run c s :
  settled (phase_of (device s)) →
  ∃ r d', idewait c s = Ok r (set_device d' s) ∧ same (device s) d' ∧
    (r = 0 ∨ r = -1) ∧
    (c ≠ 0 → phase_of (device s) = Failed → r = -1) ∧
    (∀ dr n, phase_of (device s) = Loaded dr n → r = 0).
Proof.
  intros Hs. destruct (ata_ready _ Hs) as (k & Hk & Hr).
  destruct (idewait_loop_run (device s) k fuel s) as (d0 & H1 & H2 & H3); [done|lia|done|].
  pose proof (ata_poll d0) as Hp. simpl in Hp.
  assert (same (device s) (inb 503 d0).2) as Hsame by (by eapply same_trans).
  destruct H2 as (Hph & _ & _). unfold Ide.idewait. rewrite (bind_run _ _ _ _ _ H1).
  destruct (negb (c =? 0) && negb (Z.land (inb 503 d0).1 (Z.lor IDE_DF IDE_ERR) =? 0)) eqn:E.
  - exists (-1), (inb 503 d0).2. split_and!; auto.
    intros dr n Hl. apply andb_true_iff in E as [_ E]. apply negb_true_iff, Z.eqb_neq in E.
    destruct (ata_ok d0 dr n); [congruence|done..].
  - exists 0, (inb 503 d0).2. split_and!; auto.
    intros Hc Hf. exfalso. apply andb_false_iff in E as [E|E].
    + apply negb_false_iff, Z.eqb_eq in E. done.
    + apply negb_false_iff, Z.eqb_eq in E. revert E. apply ata_error; [congruence|done].
Qed.

(** ** Starting a request *)

(** the command for a buffer *)
Definition request bf : phase :=
  if dirtyb bf then Writing (Z.land (b_dev bf) 1) (b_blockno bf) (b_data bf)
  else Reading (Z.land (b_dev bf) 1) (b_blockno bf).
Definition good bf : Prop :=
  0 ≤ b_blockno bf < FSSIZE ∧ length (b_data bf) = Z.to_nat BSIZE.

Lemma out_reg port v s :
  idle (phase_of (device s)) → port ∈ command_regs →
  ∃ d', port_out port v s = Ok tt (set_device d' s) ∧ phase_of d' = phase_of (device s) ∧
    (∀ r, reg d' r = if decide (r = port) then u8 v else reg (device s) r) ∧
    ∀ dr n, image d' dr n = image (device s) dr n.
Proof. intros Hi Hp. eexists. split; [done|]. by apply ata_reg. Qed.

Ltac out_step d :=
  match goal with
  | |- context [(port_out ?p ?v ≫= _) ?s] =>
      let H := fresh "Hrun" in let P := fresh "Hph" in let R := fresh "Hreg" in
      let I := fresh "Himg" in
      destruct (out_reg p v s) as (d & H & P & R & I);
        [simpl; congruence|unfold command_regs; set_solver|];
      rewrite (bind_run _ _ _ _ _ H); clear H; simpl in P, R, I
  end.

Lemma idestart_run b bf s :
  ibufs s !! b = Some bf → good bf → idle (phase_of (device s)) →
  ∃ d', idestart (Some b) s = Ok tt (set_device d' s) ∧ phase_of d' = request bf ∧
    ∀ dr n, image d' dr n = image (device s) dr n.
Proof.
  intros Hb [Hn Hl] Hi. unfold Ide.idestart.
  rewrite (bind_run _ _ _ bf s) by (unfold ibuf, mbind, M_bind, gets, the; by rewrite Hb).
  rewrite (proj2 (Z.leb_gt _ _)) by lia. cbn zeta.
  change (BSIZE / SECTOR_SIZE) with 1. rewrite Z.mul_1_r.
  rewrite (wrap_small 32), (sext_small 32) by (unfold FSSIZE in Hn; lia).
  change (7 <? 1) with false. change (1 =? 1) with true. cbn iota.
  destruct (idewait_run 0 s) as (r & d0 & Hw & (Hp0 & Hr0 & Hi0) & _).
  { destruct Hi as [-> | ->]; done. }
  rewrite (bind_run _ _ _ _ _ Hw). clear Hw. 
  assert (idle (phase_of d0)) as Hidle by (by rewrite Hp0).
  out_step d1. out_step d2. out_step d3. out_step d4. out_step d5. out_step d6.
  assert (∀ dr n, image d6 dr n = image (device s) dr n) as Himg6 by (intros; congruence).
  assert (idle (phase_of d6)) as Hidle6 by (unfold idle in *; congruence).
  assert (reg d6 0x1f2 = 1 ∧ drive (reg d6) = Z.land (b_dev bf) 1 ∧ lba (reg d6) = b_blockno bf)
    as (Hcnt & Hdr & Hlba).
  { destruct (select_drive (b_dev bf) (b_blockno bf) (reg d6) Hn) as [H1 H2];
      [by rewrite Hreg4|].
    split; [by rewrite Hreg4, Hreg3, Hreg2, Hreg1, Hreg0|]. split; [done|].
    apply lba_block; [done|done|..].
    - by rewrite Hreg4, Hreg3, Hreg2, Hreg1.
    - by rewrite Hreg4, Hreg3, Hreg2.
    - by rewrite Hreg4, Hreg3. }
  unfold request. destruct (dirtyb bf).
  - destruct (ata_write d6 Hidle6 Hcnt) as [Hw1 Hw2]. rewrite Hdr, Hlba in Hw1.
    destruct (ata_data _ _ _ (b_data bf) Hw1 Hl) as [Hd1 Hd2].
    exists (outsl 0x1f0 (b_data bf) (outb 0x1f7 IDE_CMD_WRITE d6)). split; [|split; [done|]].
    + unfold port_out, port_outsl, mbind, M_bind, modify. rewrite take_ge by lia. done.
    + intros dr n. by rewrite Hd2, Hw2.
  - destruct (ata_read d6 Hidle6 Hcnt) as [Hw1 Hw2]. rewrite Hdr, Hlba in Hw1.
    exists (outb 0x1f7 IDE_CMD_READ d6). split; [done|]. split; [done|].
    intros dr n. by rewrite Hw2.
Qed.

(** ** The interrupt handler *)

(** a buffer whose request is finished, with the data it has then *)
Definition completed (data : list Z) bf : buf :=
  set_b_flags (Z.land (Z.lor (b_flags bf) B_VALID) (Z.lnot B_DIRTY)) (set_b_data data bf).
(** the data of the buffer after an interrupt that leaves the controller in [d] *)
Definition result d bf : list Z :=
  if dirtyb bf then b_data bf
  else match phase_of d with Loaded dr n => image d dr n | _ => b_data bf end.
(** what the interrupt for a request leaves the controller in *)
Definition answered d bf : Prop :=
  if dirtyb bf then idle (phase_of d)
  else phase_of d = Loaded (Z.land (b_dev bf) 1) (b_blockno bf) ∨ phase_of d = Failed.
(** the command of the first buffer of the queue, if any, is under way *)
Definition under_way (bs : list buf) (q : list nat) d : Prop :=
  match q with
  | [] => idle (phase_of d)
  | b :: _ => ∃ bf, bs !! b = Some bf ∧ phase_of d = request bf
  end.

(** Reading the data if needed. *)
Lemma intr_read s b bf :
  ibufs s !! b = Some bf → answered (device s) bf →
  ∃ d', when (negb (dirtyb bf))
      (r ← idewait 1;
       when (0 <=? r)
         (data ← port_insl 0x1f0 (Z.to_nat (BSIZE / 4)); upd_ibuf b (set_b_data data))) s
    = Ok tt (set_ibufs (<[b := set_b_data (result (device s) bf) bf]> (ibufs s)) (set_device d' s)) ∧
    idle (phase_of d') ∧ ∀ dr n, image d' dr n = image (device s) dr n.
Proof.
  intros Hb Ha. unfold answered in Ha. unfold result. destruct (dirtyb bf) eqn:Ed; simpl.
  { exists (device s). split; [|done]. rewrite list_insert_id by (by destruct bf). by destruct s. }
  destruct (idewait_run 1 s) as (r & d0 & Hw & (Hp & Hr & Hi) & Hr01 & Hfail & Hload).
  { destruct Ha as [-> | ->]; done. }
  rewrite (bind_run _ _ _ _ _ Hw). destruct Ha as [Ha|Ha].
  - rewrite (Hload _ _ Ha). simpl. rewrite Ha in *.
    pose proof (ata_load d0 _ _ Hp) as Hl. change (SECTOR_SIZE / 4) with (BSIZE / 4) in Hl.
    unfold port_insl, mbind, M_bind. simpl.
    destruct (insl 496 (Z.to_nat (BSIZE / 4)) d0) as [data d'].
    destruct Hl as (-> & Hph & Him). exists d'. split; [|split; [by left|]].
    + unfold upd_ibuf, modify. simpl. rewrite (alter_known _ _ _ _ Hb). by rewrite Hi.
    + intros. by rewrite Him, Hi.
  - rewrite (Hfail ltac:(done) Ha). simpl. rewrite Ha. exists d0. split; [|split; [right; congruence|done]].
    rewrite list_insert_id by (by destruct bf). by destruct s.
Qed.

Lemma ideintr_run s b q bf :
  idelock s = false → chain (qnext s) (idequeue s) (b :: q) → NoDup (b :: q) →
  ibufs s !! b = Some bf → answered (device s) bf →
  Forall (λ b', ∃ bf', ibufs s !! b' = Some bf' ∧ good bf') q →
  ∃ d', ideintr s =
      Ok tt (Ide false (head q) (qnext s) (<[b := completed (result (device s) bf) bf]> (ibufs s))
               (havedisk1 s) d' (wake b <$> procs s)) ∧
    under_way (ibufs s) q d' ∧ ∀ dr n, image d' dr n = image (device s) dr n.
Proof.
  intros Hlk (Hq & n & Hn & Hc) Hnd Hb Ha Hgood.
  pose proof (chain_head _ _ _ Hc) as ->. unfold Ide.ideintr.
  rewrite (bind_run _ _ _ tt (set_lock true s)) by (by apply acquire_run).
  rewrite (bind_run _ _ _ (Some b) (set_lock true s)) by (unfold gets; simpl; by rewrite Hq).
  rewrite (bind_run _ _ _ (qnext s) (set_lock true s)) by done.
  rewrite (bind_run _ _ _ (head q) (set_lock true s)) by (by rewrite Hn).
  rewrite (bind_run _ _ _ tt (set_queue (head q) (set_lock true s))) by done.
  rewrite (bind_run _ _ _ bf (set_queue (head q) (set_lock true s)))
    by (unfold ibuf, mbind, M_bind, gets, the; simpl; by rewrite Hb).
  destruct (intr_read (set_queue (head q) (set_lock true s)) b bf Hb Ha) as (d1 & H1 & Hid & Him).
  rewrite (bind_run _ _ _ _ _ H1). clear H1. simpl in Him.
  pose proof (lookup_lt_Some _ _ _ Hb) as Hlt.
  set (s2 := Ide true (head q) (qnext s) (<[b := completed (result (device s) bf) bf]> (ibufs s))
               (havedisk1 s) d1 (wake b <$> procs s)).
  match goal with |- context [(upd_ibuf b ?f ≫= ?k) ?st] =>
    assert ((upd_ibuf b f ≫= k) st = (q ← gets idequeue;
      when (bool_decide (q ≠ None)) (idestart q);; release ide_lock) s2) as -> end.
  { unfold upd_ibuf, wakeup, modify, mbind, M_bind. cbn [set_ibufs ibufs set_device set_procs procs
      set_queue set_lock idelock idequeue qnext havedisk1 device].
    by rewrite !(alter_insert_here b _ _ _ Hlt). }
  rewrite (bind_run _ _ _ (head q) s2) by done.
  destruct q as [|b' q]; simpl.
  - exists d1. split; [|split; [done|exact Him]]. by rewrite (bind_run _ _ _ tt s2).
  - apply list.Forall_cons in Hgood as [(bf' & Hb' & Hg) _].
    assert (b' ≠ b) as Hne by (apply list.NoDup_cons in Hnd; set_solver).
    destruct (idestart_run b' bf' s2) as (d2 & H2 & Hp2 & Hi2); [|done|done|].
    { simpl. by rewrite list_lookup_insert_ne. }
    exists d2. rewrite (bind_run _ _ _ _ _ H2). split; [done|]. split; [by exists bf'|].
    intros dr k. rewrite Hi2. apply Him.
Qed.

(** ** A request *)

Definition needs bf : Prop := Z.land (b_flags bf) (Z.lor B_VALID B_DIRTY) ≠ B_VALID.

Lemma get_link_chain s pp h x q :
  get_link pp s = Ok h s → chain (qnext s) h (x :: q) →
  h = Some x ∧ ∃ n, get_link (Some x) s = Ok n s ∧ chain (qnext s) n q.
Proof.
  intros Hg (-> & n & Hn & Hc). split; [done|]. exists n. split; [|done].
  unfold get_link, mbind, M_bind, gets, the. by rewrite Hn.
Qed.

Lemma append_run n b pp s h q :
  get_link pp s = Ok h s → chain (qnext s) h q → (length q < n)%nat →
  append_queue n b pp s = set_link (match list.last q with Some x => Some x | None => pp end) (Some b) s.
Proof.
  revert n pp h. induction q as [|x q IH]; intros n pp h Hg Hc Hn; (destruct n as [|n]; [simpl in Hn; lia|]);
    simpl append_queue; rewrite (bind_run _ _ _ _ _ Hg).
  - simpl in Hc. by subst h.
  - destruct (get_link_chain _ _ _ _ _ Hg Hc) as (-> & m & Hg' & Hc').
    rewrite (IH n (Some x) m Hg' Hc') by (simpl in Hn; lia).
    rewrite last_cons. by destruct (list.last q).
Qed.

Lemma append_chain n b s q :
  chain (qnext s) (idequeue s) q → NoDup q → b ∉ q → (b < length (qnext s))%nat → (length q < n)%nat →
  ∃ qn, append_queue n b None (set_qnext (<[b := None]> (qnext s)) s) =
      Ok tt (set_queue (head (q ++ [b])) (set_qnext qn s)) ∧
    chain qn (head (q ++ [b])) (q ++ [b]) ∧ length qn = length (qnext s).
Proof.
  intros Hc Hnd Hb Hlt Hn.
  assert (chain (<[b := None]> (qnext s)) (idequeue s) q) as Hc' by by apply qchain_insert.
  rewrite (append_run _ _ _ _ (idequeue s) q) by done.
  assert (<[b := None]> (qnext s) !! b = Some None) as Hbn by by apply list_lookup_insert_eq.
  destruct (list.last q) as [x|] eqn:El.
  - apply last_Some in El as [q' ->]. pose proof (chain_head _ _ _ Hc') as Hh.
    exists (<[x := Some b]> (<[b := None]> (qnext s))). split; [|split].
    + simpl. unfold modify, set_qnext, set_queue. simpl. rewrite Hh. by destruct q'.
    + rewrite <- app_assoc. replace (head _) with (idequeue s) by (rewrite Hh; by destruct q').
      by apply chain_snoc_cons.
    + by rewrite !length_insert.
  - apply last_None in El as ->. exists (<[b := None]> (qnext s)). split; [done|]. split.
    + simpl. split; [done|]. by exists None.
    + by rewrite length_insert.
Qed.

Lemma ibuf_run s b bf : ibufs s !! b = Some bf → ibuf b s = Ok bf s.
Proof. intros Hb. unfold ibuf, mbind, M_bind, gets, the. by rewrite Hb. Qed.

Lemma bufheld_run s b bf :
  ibufs s !! b = Some bf → sl_lk (b_lock bf) = false →
  holdingsleep (ibuf_lock b) s = Ok (sl_locked (b_lock bf)) s.
Proof.
  intros Hb Hl. pose proof (lookup_lt_Some _ _ _ Hb) as Hlt.
  unfold holdingsleep, sl_acquire, sl_release, zoom, mbind, M_bind, gets. simpl. rewrite Hb. simpl.
  rewrite acquire_run by done. rewrite (alter_known _ _ _ _ Hb). simpl.
  rewrite list_lookup_insert_eq by done. simpl.  rewrite (alter_insert_here b _ _ _ Hlt). simpl.
  unfold set_ibufs. simpl. rewrite list_insert_id; [by destruct s|].
  rewrite Hb. by destruct bf as [? ? ? [] ? ?]; simplify_eq/=.
Qed.

Lemma wait_run s b bf :
  ibufs s !! b = Some bf → idelock s = true →
  iderw_wait b s =
    if decide (needs bf) then Sleep (Z.of_nat b) (set_lock false s) else Ok tt (set_lock false s).
Proof.
  intros Hb Hl. unfold iderw_wait. rewrite (bind_run _ _ _ _ _ (ibuf_run _ _ _ Hb)).
  unfold needs. case_decide as Hn.
  - rewrite (proj2 (Z.eqb_neq _ _)) by done. simpl.
    by rewrite (bind_run _ _ _ tt (set_lock false s)) by by apply release_run.
  - destruct (Z.eqb_spec (Z.land (b_flags bf) (Z.lor B_VALID B_DIRTY)) B_VALID); [|done].
    simpl. by apply release_run.
Qed.

(** what a caller of iderw must provide *)
Definition held bf : Prop := sl_lk (b_lock bf) = false ∧ sl_locked (b_lock bf) = true.
Definition callable (s : ide D) bf : Prop :=
  held bf ∧ needs bf ∧
  (b_dev bf = 0 ∨ havedisk1 s ≠ 0) ∧ good bf.

Lemma iderw_run s b bf q :
  idelock s = false → chain (qnext s) (idequeue s) q → NoDup q → b ∉ q →
  length (qnext s) = length (ibufs s) → (length q ≤ length (ibufs s))%nat →
  ibufs s !! b = Some bf → callable s bf → under_way (ibufs s) q (device s) →
  ∃ qn d', iderw b s = Sleep (Z.of_nat b)
      (Ide false (head (q ++ [b])) qn (ibufs s) (havedisk1 s) d' (procs s)) ∧
    chain qn (head (q ++ [b])) (q ++ [b]) ∧ length qn = length (qnext s) ∧
    under_way (ibufs s) (q ++ [b]) d' ∧ ∀ dr n, image d' dr n = image (device s) dr n.
Proof.
  intros Hl Hc Hnd Hb Hlen Hql Hbf ((Hk & Hlk) & Hn & Hd & Hg) Hu. unfold Ide.iderw.
  rewrite (bind_run _ _ _ _ _ (bufheld_run _ _ _ Hbf Hk)), Hlk. simpl.
  rewrite (bind_run _ _ _ _ _ (ibuf_run _ _ _ Hbf)), (proj2 (Z.eqb_neq _ _)) by done.
  rewrite (bind_run _ _ _ (havedisk1 s) s) by done.
  replace (negb (b_dev bf =? 0) && (havedisk1 s =? 0)) with false
    by (destruct (Z.eqb_spec (b_dev bf) 0), (Z.eqb_spec (havedisk1 s) 0); naive_solver).
  rewrite (bind_run _ _ _ tt (set_lock true s)) by by apply acquire_run.
  rewrite (bind_run _ _ _ tt (set_qnext (<[b := None]> (qnext s)) (set_lock true s))) by done.
  rewrite (bind_run _ _ _ (ibufs s) (set_qnext (<[b := None]> (qnext s)) (set_lock true s))) by done.
  destruct (append_chain (S (length (ibufs s))) b (set_lock true s) q) as (qn & Ha & Hcn & Hln);
    [done..|simpl; rewrite Hlen; by apply lookup_lt_Some in Hbf|lia|].
  rewrite (bind_run _ _ _ _ _ Ha). set (s1 := set_queue _ _) in *.
  rewrite (bind_run _ _ _ (head (q ++ [b])) s1) by done.
  destruct q as [|x q]; simpl app in *; simpl head in *.
  - rewrite bool_decide_true by done.
    destruct (idestart_run b bf s1) as (d2 & H2 & Hp2 & Hi2); [done..|].
    cbn [when]. rewrite (bind_run _ _ _ _ _ H2), (wait_run _ b bf), decide_True by done.
    exists qn, d2. split_and!; [done..| |exact Hi2]. by exists bf.
  - rewrite bool_decide_false by set_solver. cbn [when].
    rewrite (bind_run _ _ _ tt s1), (wait_run _ b bf), decide_True by done.
    by exists qn, (device s).
Qed.

(** * The driver with its callers and interrupts *)

(** a process is in iderw for the buffer *)
Definition in_iderw (ps : list pstate) p b : Prop :=
  ps !! p = Some (Asleep b) ∨ ps !! p = Some (Awake b).
Definition busy s b : Prop := ∃ p, in_iderw (procs s) p b.

(** where a process is after it ran in iderw: asleep, or back from the call *)
Definition after_run p b (o : outcome (ide D) unit) : option (ide D) :=
  match o with
  | Ok _ s => Some (set_procs (<[p := Outside]> (procs s)) s)
  | Sleep _ s => Some (set_procs (<[p := Asleep b]> (procs s)) s)
  | Fail _ => None
  end.

(** What happens in a step, as seen from outside of the driver: a process calls iderw for a buffer or
    goes on after its sleep, the controller reports that the command was carried out or that it failed, an
    interrupt comes without a command, or other code changes a buffer. *)
Inductive label :=
| Call (p b : nat)
| Resume (p : nat)
| Answer (ok : bool)
| Spurious
| Client (b : nat) (bf' : buf).

Definition succeeded (ph : phase) : bool := match ph with Failed => false | _ => true end.

(** A call of iderw needs the lock of its buffer, so that no other process is in
    iderw for it; other code changes only buffers that no process is in iderw for. *)
Inductive istep s : label → ide D → Prop :=
| istep_call p b bf s' :
    procs s !! p = Some Outside → ibufs s !! b = Some bf → callable s bf → ¬ busy s b →
    after_run p b (iderw b s) = Some s' → istep s (Call p b) s'
| istep_resume p b s' :
    procs s !! p = Some (Awake b) → after_run p b (iderw_resume b s) = Some s' → istep s (Resume p) s'
| istep_irq d' s' :
    idequeue s ≠ None → irq (device s) d' → ideintr (set_device d' s) = Ok tt s' →
    istep s (Answer (succeeded (phase_of d'))) s'
| istep_spurious s' :
    idequeue s = None → ideintr s = Ok tt s' → istep s Spurious s'
| istep_client b bf' :
    ¬ busy s b → length (b_data bf') = Z.to_nat BSIZE →
    istep s (Client b bf') (set_ibufs (<[b := bf']> (ibufs s)) s).

Definition iinitial s : Prop :=
  idelock s = false ∧ idequeue s = None ∧ length (qnext s) = length (ibufs s) ∧
  idle (phase_of (device s)) ∧ Forall (λ st, st = Outside) (procs s).

Inductive ireachable : ide D → Prop :=
| ireach_init s : iinitial s → ireachable s
| ireach_step s lb s' : ireachable s → istep s lb s' → ireachable s'.

(** The invariant, with the queue [q]. *)
Record dinv s (q : list nat) : Prop := {
  di_lock : idelock s = false;
  di_len : length (qnext s) = length (ibufs s);
  di_chain : chain (qnext s) (idequeue s) q;
  di_nodup : NoDup q;
  di_pending b : b ∈ q → ∃ bf, ibufs s !! b = Some bf ∧ needs bf ∧ good bf ∧ held bf;
  di_device : under_way (ibufs s) q (device s);
  di_asleep p b : procs s !! p = Some (Asleep b) → b ∈ q;
  di_waited b : b ∈ q → ∃ p, procs s !! p = Some (Asleep b);
  di_awake p b : procs s !! p = Some (Awake b) → ∃ bf, ibufs s !! b = Some bf ∧ ¬ needs bf;
  di_unique p p' b : in_iderw (procs s) p b → in_iderw (procs s) p' b → p = p';
}.

Lemma dinv_initial s : iinitial s → dinv s [].
Proof.
  intros (Hl & Hq & Hlen & Hi & Hp).
  assert (∀ p st, procs s !! p = Some st → st = Outside) as Ho.
  { intros p st Hst. by eapply (Forall_lookup_1 _ _ _ _ Hp) in Hst. }
  split; try done.
  - constructor.
  - intros b Hb. set_solver.
  - intros p b Hb. by apply Ho in Hb.
  - intros b Hb. set_solver.
  - intros p b Hb. by apply Ho in Hb.
  - intros p p' b [Hb|Hb] _; by apply Ho in Hb.
Qed.

Lemma dinv_length s q : dinv s q → (length q ≤ length (ibufs s))%nat.
Proof.
  intros Hi. apply distinct_length; [apply Hi|]. intros b Hb.
  apply (di_pending s q Hi) in Hb as (bf & Hb & _). by apply lookup_lt_Some in Hb.
Qed.

Lemma completed_done data bf : ¬ needs (completed data bf).
Proof.
  intros Hn. apply Hn. simpl. apply Z.bits_inj'. intros k Hk.
  rewrite !Z.land_spec, Z.lor_spec, Z.lnot_spec by done.
  change (Z.lor B_VALID B_DIRTY) with 6. unfold B_VALID, B_DIRTY.
  destruct (Z.lt_ge_cases k 3) as [Hk3|Hk3].
  - assert (k = 0 ∨ k = 1 ∨ k = 2) as [->|[->| ->]] by lia; simpl;
      rewrite ?andb_false_r, ?andb_true_r, ?orb_true_r; done.
  - rewrite (Z.bits_above_log2 6), (Z.bits_above_log2 2) by (done || (simpl; lia)).
    by rewrite andb_false_r.
Qed.

(** The memory disk of memide.c completes a request in the same way. *)
Lemma completed_flags f :
  Z.land (Z.lor f B_VALID) (Z.lnot B_DIRTY) = Z.lor (Z.land f (Z.lnot B_DIRTY)) B_VALID.
Proof. by rewrite Z.land_lor_distr_l. Qed.

Lemma clean_flags bf : dirtyb bf = false → Z.land (b_flags bf) (Z.lnot B_DIRTY) = b_flags bf.
Proof.
  unfold dirtyb. intros Hd. apply negb_false_iff, Z.eqb_eq in Hd.
  assert (Z.lor (Z.land (b_flags bf) B_DIRTY) (Z.land (b_flags bf) (Z.lnot B_DIRTY)) = b_flags bf) as E.
  { by rewrite <- Z.land_lor_distr_r, Z.lor_lnot_diag, Z.land_m1_r. }
  by rewrite Hd, Z.lor_0_l in E.
Qed.

Lemma memdisk_run (m : bcache) b bf blk :
  bc_bufs m !! b = Some bf → held bf → needs bf → b_dev bf = 1 → 0 ≤ b_blockno bf →
  bc_disk m !! Z.to_nat (b_blockno bf) = Some blk →
  ∃ m', Bio.iderw b m = Ok tt m' ∧
    bc_bufs m' = <[b := completed (if dirtyb bf then b_data bf else blk) bf]> (bc_bufs m) ∧
    bc_disk m' = if dirtyb bf then <[Z.to_nat (b_blockno bf) := b_data bf]> (bc_disk m) else bc_disk m.
Proof.
  intros Hb [Hl Hk] Hn Hd H0 Hblk. pose proof (lookup_lt_Some _ _ _ Hblk) as Hlt. unfold Bio.iderw.
  pose proof (lookup_lt_Some _ _ _ Hb) as Hltb.
  erewrite bind_run by (eapply b_holdingsleep_run; eassumption). rewrite Hk. simpl.
  erewrite (bind_run (getbuf b)) by by apply getbuf_run.
  rewrite (proj2 (Z.eqb_neq _ _)) by done. rewrite Hd. simpl.
  erewrite bind_run by done. rewrite (proj2 (Z.leb_gt _ _)) by lia.
  unfold completed. rewrite completed_flags. destruct (dirtyb bf) eqn:Ed.
  - erewrite bind_run by (erewrite bind_run by (eapply updbuf_run; eassumption); done).
    unfold updbuf, modify. eexists. split; [done|]. simpl.
    rewrite (alter_insert_here b _ _ _ Hltb). split; [|done]. by destruct bf.
  - erewrite bind_run by (erewrite bind_run by (by rewrite Hblk); eapply updbuf_run; eassumption).
    unfold updbuf, modify. eexists. split; [done|]. simpl.
    rewrite (alter_insert_here b _ _ _ Hltb), (clean_flags bf Ed). done.
Qed.

(** the interrupt for the first request *)
Lemma irq_answered d d' bf :
  phase_of d = request bf → irq d d' →
  answered d' bf ∧
  ∀ dr n, dirtyb bf = false ∨ (dr, n) ≠ (Z.land (b_dev bf) 1, b_blockno bf) →
    image d' dr n = image d dr n.
Proof.
  unfold request, answered. destruct (dirtyb bf); intros Hp Hi.
  - destruct (ata_irq_write _ _ _ _ _ Hp Hi) as [H1 H2]. split; [destruct H1 as [[? _]|?]; [by left|by right]|].
    intros dr n [?|?]; [done|]. by apply H2.
  - destruct (ata_irq_read _ _ _ _ Hp Hi) as [H1 H2]. split; [done|]. intros dr n _. apply H2.
Qed.

Lemma procs_insert s p st st' p' :
  procs s !! p = Some st →
  <[p := st']> (procs s) !! p' = if decide (p' = p) then Some st' else procs s !! p'.
Proof. intros Hp. apply list_lookup_insert_dec. by apply lookup_lt_Some in Hp. Qed.

Lemma not_busy_queue s q b : dinv s q → ¬ busy s b → b ∉ q.
Proof. intros Hi Hb Hin. apply (di_waited s q Hi) in Hin as [p Hp]. apply Hb. exists p. by left. Qed.

Lemma dinv_call s q p b bf :
  dinv s q → procs s !! p = Some Outside → ibufs s !! b = Some bf → callable s bf → ¬ busy s b →
  ∃ s', after_run p b (iderw b s) = Some s' ∧ dinv s' (q ++ [b]) ∧ ibufs s' = ibufs s ∧
    procs s' = <[p := Asleep b]> (procs s) ∧
    ∀ dr n, image (device s') dr n = image (device s) dr n.
Proof.
  intros Hi Hp Hb Hc Hnb. pose proof (not_busy_queue _ _ _ Hi Hnb) as Hbq.
  destruct (iderw_run s b bf q) as (qn & d' & Hrun & Hcn & Hln & Hu & Him);
    try apply Hi; try done; [by apply dinv_length|].
  rewrite Hrun. eexists. split; [done|]. split; [|done].
  destruct Hc as (Hlk & Hn & _ & Hg). destruct Hi. split; simpl; try done.
  - congruence.
  - apply list.NoDup_app. split; [done|]. split; [set_solver|]. apply NoDup_singleton.
  - intros b' [Hin| ->%list_elem_of_singleton]%elem_of_app; [auto|]. by exists bf.
  - intros p' b'. rewrite (procs_insert _ _ _ _ _ Hp). case_decide; [set_solver|].
    intros Ha. apply elem_of_app. left. eauto.
  - intros b' [Hin| ->%list_elem_of_singleton]%elem_of_app.
    + destruct (di_waited0 b' Hin) as [p' Hp']. exists p'.
      rewrite (procs_insert _ _ _ _ _ Hp), decide_False by congruence. done.
    + exists p. by rewrite (procs_insert _ _ _ _ _ Hp), decide_True.
  - intros p' b'. rewrite (procs_insert _ _ _ _ _ Hp). case_decide; [done|]. eauto.
  - unfold in_iderw in *. intros p1 p2 b'. rewrite !(procs_insert _ _ _ _ _ Hp).
    assert (∀ p', procs s !! p' ≠ Some (Asleep b) ∧ procs s !! p' ≠ Some (Awake b)) as Hno.
    { intros p'. split; intros E; apply Hnb; exists p'; [by left|by right]. }
    repeat case_decide; subst; try done; intros E1 E2.
    + destruct E1 as [[= <-]|[=]]. destruct (Hno p2). tauto.
    + destruct E2 as [[= <-]|[=]]. destruct (Hno p1). tauto.
    + by apply (di_unique0 p1 p2 b').
Qed.

Lemma resume_run s q p b :
  dinv s q → procs s !! p = Some (Awake b) → iderw_resume b s = Ok tt s.
Proof.
  intros Hi Hp. destruct (di_awake s q Hi p b Hp) as (bf & Hb & Hn).
  unfold iderw_resume. rewrite (bind_run _ _ _ tt (set_lock true s)) by (apply acquire_run, Hi).
  rewrite (wait_run _ b bf), decide_False by done.
  pose proof (di_lock s q Hi) as Hl. destruct s; simpl in *; by subst.
Qed.

Lemma dinv_resume s q p b :
  dinv s q → procs s !! p = Some (Awake b) →
  let s' := set_procs (<[p := Outside]> (procs s)) s in
  after_run p b (iderw_resume b s) = Some s' ∧ dinv s' q.
Proof.
  intros Hi Hp s'. split.
  - by rewrite (resume_run s q p b).
  - destruct Hi. split; simpl; try done.
    + intros p' b'. rewrite (procs_insert _ _ _ _ _ Hp). case_decide; [done|]. eauto.
    + intros b' Hin. destruct (di_waited0 b' Hin) as [p' Hp']. exists p'.
      rewrite (procs_insert _ _ _ _ _ Hp), decide_False by congruence. done.
    + intros p' b'. rewrite (procs_insert _ _ _ _ _ Hp). case_decide; [done|]. eauto.
    + unfold in_iderw in *. intros p1 p2 b'. rewrite !(procs_insert _ _ _ _ _ Hp).
      repeat case_decide; subst; try naive_solver.
Qed.

Lemma dinv_client s q b bf' :
  dinv s q → ¬ busy s b → dinv (set_ibufs (<[b := bf']> (ibufs s)) s) q.
Proof.
  intros Hi Hnb. pose proof (not_busy_queue _ _ _ Hi Hnb) as Hbq.
  assert (∀ b', b' ∈ q → <[b := bf']> (ibufs s) !! b' = ibufs s !! b') as Hne.
  { intros b' Hin. apply list_lookup_insert_ne. congruence. }
  destruct Hi. split; simpl; try done.
  - by rewrite length_insert.
  - intros b' Hin. rewrite (Hne b' Hin). eauto.
  - unfold under_way in *. destruct q as [|x q]; [done|]. rewrite (Hne x) by set_solver. done.
  - intros p b' Hp. rewrite list_lookup_insert_ne; [eauto|]. intros ->. apply Hnb. exists p. by right.
Qed.

Lemma wake_lookup b (ps : list pstate) p st :
  (wake b <$> ps) !! p = Some st ↔ ∃ st0, ps !! p = Some st0 ∧ st = wake b st0.
Proof. rewrite list_lookup_fmap. destruct (ps !! p); naive_solver. Qed.

Lemma wake_asleep b st b' : wake b st = Asleep b' ↔ st = Asleep b' ∧ b' ≠ b.
Proof.
  destruct st as [|b0|b0]; simpl; [naive_solver| |naive_solver].
  case_decide; naive_solver.
Qed.

Lemma wake_awake b st b' :
  wake b st = Awake b' ↔ st = Awake b' ∨ st = Asleep b ∧ b' = b.
Proof.
  destruct st as [|b0|b0]; simpl; [naive_solver| |naive_solver].
  case_decide; naive_solver.
Qed.

Lemma dinv_irq s q d' :
  dinv s q → idequeue s ≠ None → irq (device s) d' →
  ∃ b q' bf s', q = b :: q' ∧ ibufs s !! b = Some bf ∧ needs bf ∧ held bf ∧
    phase_of (device s) = request bf ∧ answered d' bf ∧
    ideintr (set_device d' s) = Ok tt s' ∧ dinv s' q' ∧
    ibufs s' = <[b := completed (result d' bf) bf]> (ibufs s) ∧
    procs s' = wake b <$> procs s ∧
    ∀ dr n, image (device s') dr n = image d' dr n.
Proof.
  intros Hi Hne Hirq. pose proof (chain_head _ _ _ (di_chain s q Hi)) as Hh.
  destruct q as [|b q]; [done|].
  destruct (di_pending s _ Hi b) as (bf & Hb & Hn & Hg & Hlk); [set_solver|].
  destruct (di_device s _ Hi) as (bf0 & Hb0 & Hph). assert (bf0 = bf) as -> by congruence.
  destruct (irq_answered _ _ _ Hph Hirq) as [Ha Himg].
  assert (Forall (λ b', ∃ bf', ibufs s !! b' = Some bf' ∧ good bf') q) as Hgood.
  { apply list.Forall_forall. intros b' Hin.
    destruct (di_pending s _ Hi b') as (bf' & ? & _ & ? & _); [set_solver|]. by exists bf'. }
  destruct (ideintr_run (set_device d' s) b q bf) as (d2 & Hrun & Hu & Him);
    try apply Hi; try done.
  eexists b, q, bf, _. split_and!; [done..|exact Hrun| |done|done|exact Him].
  pose proof (di_nodup s _ Hi) as Hnd. apply list.NoDup_cons in Hnd as [Hbq Hnd].
  assert (∀ b', b' ≠ b → <[b := completed (result d' bf) bf]> (ibufs s) !! b' = ibufs s !! b') as Hother.
  { intros b' ?. by apply list_lookup_insert_ne. }
  assert (∀ b', b' ∈ q → b' ≠ b) as Hqb by (intros b' ? ->; done).
  destruct Hi. split; simpl; try done.
  - by rewrite length_insert.
  - simpl in di_chain0. destruct di_chain0 as (_ & n & Hnx & Hc).
    by rewrite <- (chain_head _ _ _ Hc).
  - intros b' Hin. rewrite Hother by auto. apply di_pending0. set_solver.
  - unfold under_way in *. destruct q as [|x q]; [done|]. rewrite Hother by set_solver. done.
  - intros p b'. rewrite wake_lookup. intros (st & Hst & E). symmetry in E.
    apply wake_asleep in E as [-> ?]. apply di_asleep0 in Hst. set_solver.
  - intros b' Hin. destruct (di_waited0 b') as [p Hp]; [set_solver|]. exists p.
    rewrite wake_lookup. exists (Asleep b'). split; [done|]. symmetry. apply wake_asleep. auto.
  - intros p b'. rewrite wake_lookup. intros (st & Hst & E). symmetry in E.
    apply wake_awake in E as [->|[-> ->]].
    + destruct (di_awake0 p b' Hst) as (bf' & Hb' & Hn').
      destruct (decide (b' = b)) as [->|]; [by simplify_eq|]. rewrite Hother by done. by exists bf'.
    + exists (completed (result d' bf) bf). split; [|apply completed_done].
      apply list_lookup_insert_eq. by apply lookup_lt_Some in Hb.
  - assert (∀ p b', in_iderw (wake b <$> procs s) p b' → in_iderw (procs s) p b') as Hin.
    { intros p b'. unfold in_iderw. rewrite !wake_lookup.
      intros [(st & Hst & E)|(st & Hst & E)]; symmetry in E;
        [apply wake_asleep in E as [-> _]|apply wake_awake in E as [->|[-> ->]]]; auto. }
    intros p1 p2 b' E1%Hin E2%Hin. by apply (di_unique0 p1 p2 b').
Qed.

Lemma spurious_run s : idelock s = false → idequeue s = None → ideintr s = Ok tt s.
Proof.
  intros Hl Hq. unfold Ide.ideintr.
  rewrite (bind_run _ _ _ tt (set_lock true s)) by by apply acquire_run.
  rewrite (bind_run _ _ _ None (set_lock true s)) by (unfold gets; simpl; by rewrite Hq).
  rewrite release_run by done. destruct s; simpl in *. by subst.
Qed.

Lemma ireachable_inv s : ireachable s → ∃ q, dinv s q.
Proof.
  induction 1 as [s Hi|s lb s' _ [q Hi] Hs]; [exists []; by apply dinv_initial|].
  destruct Hs as [p b bf s' Hp Hb Hc Hnb Hr|p b s' Hp Hr|d' s' Hq Hirq Hr|s' Hq Hr|b bf' Hnb _].
  - destruct (dinv_call s q p b bf) as (s1 & Hr1 & ? & _); try done. simplify_eq. eauto.
  - destruct (dinv_resume s q p b) as [Hr1 ?]; try done. simplify_eq. eauto.
  - destruct (dinv_irq s q d') as (b & q' & bf & s1 & _ & _ & _ & _ & _ & _ & Hr1 & ? & _); try done.
    rewrite Hr in Hr1. simplify_eq. eauto.
  - rewrite spurious_run in Hr by (done || apply (di_lock s q Hi)). simplify_eq. eauto.
  - exists q. by apply dinv_client.
Qed.

(** * The theorems *)

Definition queue s : list nat := walk (length (ibufs s)) (qnext s) (idequeue s).

Lemma queue_inv s q : dinv s q → queue s = q.
Proof. intros Hi. apply walk_chain; [apply Hi|by apply dinv_length]. Qed.

(** An ideal disk: requests in a queue, the first of which is served when the controller answers. *)
Record ideal := Ideal {
  i_queue : list nat;
  i_bufs : list buf;
  i_image : Z → Z → list Z;
}.
Definition abs s : ideal := Ideal (queue s) (ibufs s) (image (device s)).
Definition place bf : Z * Z := (Z.land (b_dev bf) 1, b_blockno bf).

(** A command that the controller reports as carried out has its effect; only one that it
    reports as failed has none. *)
Inductive ideal_step (a : ideal) : label → ideal → Prop :=
| ideal_skip lb a' :
    (∃ p, lb = Resume p) ∨ lb = Spurious →
    i_queue a' = i_queue a → i_bufs a' = i_bufs a →
    (∀ dr n, i_image a' dr n = i_image a dr n) → ideal_step a lb a'
| ideal_request p b a' :
    b ∉ i_queue a → i_queue a' = i_queue a ++ [b] → i_bufs a' = i_bufs a →
    (∀ dr n, i_image a' dr n = i_image a dr n) → ideal_step a (Call p b) a'
| ideal_client b bf' a' :
    b ∉ i_queue a → i_queue a' = i_queue a → i_bufs a' = <[b := bf']> (i_bufs a) →
    (∀ dr n, i_image a' dr n = i_image a dr n) → ideal_step a (Client b bf') a'
| ideal_read b q bf a' :
    i_queue a = b :: q → i_queue a' = q → i_bufs a !! b = Some bf → dirtyb bf = false →
    i_bufs a' = <[b := completed (i_image a (place bf).1 (place bf).2) bf]> (i_bufs a) →
    (∀ dr n, i_image a' dr n = i_image a dr n) → ideal_step a (Answer true) a'
| ideal_write b q bf a' :
    i_queue a = b :: q → i_queue a' = q → i_bufs a !! b = Some bf → dirtyb bf = true →
    i_bufs a' = <[b := completed (b_data bf) bf]> (i_bufs a) →
    (∀ dr n, i_image a' dr n = if decide ((dr, n) = place bf) then b_data bf else i_image a dr n) →
    ideal_step a (Answer true) a'
| ideal_error b q bf a' :
    i_queue a = b :: q → i_queue a' = q → i_bufs a !! b = Some bf →
    i_bufs a' = <[b := completed (b_data bf) bf]> (i_bufs a) →
    (∀ dr n, dirtyb bf = false ∨ (dr, n) ≠ place bf → i_image a' dr n = i_image a dr n) →
    ideal_step a (Answer false) a'.

Lemma irq_ideal s q d' s' :
  dinv s q → idequeue s ≠ None → irq (device s) d' → ideintr (set_device d' s) = Ok tt s' →
  ideal_step (abs s) (Answer (succeeded (phase_of d'))) (abs s').
Proof.
  intros Hi Hq Hirq Hr.
  destruct (dinv_irq s q d') as (b & q' & bf & s1 & -> & Hb & _ & _ & Hph & Ha & Hr1 & Hi' & Ebs & _ & Him);
    try done.
  rewrite Hr in Hr1. injection Hr1 as <-.
  destruct (irq_answered _ _ _ Hph Hirq) as [_ Himg].
  assert (∀ dr n, dirtyb bf = false ∨ (dr, n) ≠ place bf →
    i_image (abs s') dr n = i_image (abs s) dr n) as Hsame by (intros; simpl; rewrite Him; auto).
  pose proof (queue_inv _ _ Hi) as Q. pose proof (queue_inv _ _ Hi') as Q'.
  unfold result, answered in *. destruct (dirtyb bf) eqn:Ed.
  - unfold request in Hph. rewrite Ed in Hph.
    destruct (ata_irq_write _ _ _ _ _ Hph Hirq) as [[[Hp Hd]|Hp] _].
    + rewrite Hp. apply (ideal_write _ b q' bf); try done. intros dr n. case_decide as E; [|by apply Hsame; right].
      simpl. rewrite Him. injection E as -> ->. done.
    + rewrite Hp. apply (ideal_error _ b q' bf); try done. intros dr n [?|?]; [congruence|]. by apply Hsame; right.
  - destruct Ha as [Hp|Hp]; rewrite Hp in Ebs |- *.
    + rewrite (Himg _ _ (or_introl eq_refl)) in Ebs.
      apply (ideal_read _ b q' bf); try done. intros dr n. apply Hsame. auto.
    + apply (ideal_error _ b q' bf); try done. intros dr n _. apply Hsame. auto.
Qed.

(** C10. The IDE driver implements a disk that serves one request at a time: in every
    interleaving of calls of iderw, interrupts, wakeups and other uses of the buffers, a call for a buffer puts it
    at the end of the queue, an answer of the controller serves the first buffer of the queue, and nothing else
    concerns queue, buffers and disk contents, except for uses of buffers that are not queued.  When the controller
    reports success, serving a read gives the buffer the contents of its block, and serving a write gives the block the
    contents of the buffer, and neither changes anything else; only when it reports an error is the buffer
    marked as finished with the data it has. *)
Theorem ide_refines_ideal s lb s' :
  ireachable s → istep s lb s' → ideal_step (abs s) lb (abs s').
Proof.
  intros Hr Hs. destruct (ireachable_inv s Hr) as [q Hi].
  pose proof (queue_inv s q Hi) as Q.
  destruct Hs as [p b bf s' Hp Hb Hc Hnb Hrun|p b s' Hp Hrun|d' s' Hq Hirq Hrun|s' Hq Hrun|b bf' Hnb _].
  - destruct (dinv_call s q p b bf) as (s1 & Hr1 & Hi' & Hbs & _ & Him); try done. simplify_eq.
    pose proof (queue_inv _ _ Hi') as Q'. apply (ideal_request _ p b); simpl; try done.
    by apply (not_busy_queue s).
  - destruct (dinv_resume s q p b) as [Hr1 Hi']; try done. simplify_eq.
    pose proof (queue_inv _ _ Hi') as Q'. apply ideal_skip; [left; by exists p|done..].
  - by apply (irq_ideal s q d' s').
  - rewrite spurious_run in Hrun by (done || apply (di_lock s q Hi)). simplify_eq. apply ideal_skip; [by right|done..].
  - pose proof (dinv_client s q b bf' Hi Hnb) as Hi'. pose proof (queue_inv _ _ Hi') as Q'.
    apply (ideal_client _ b bf'); simpl; try done; [|congruence].
    rewrite Q. by apply (not_busy_queue s).
Qed.

(** The IDE disk does what the memory disk does: when the interrupt reports success for a
    request on disk 1, ideintr leaves the buffers and the disk as iderw of
    memide.c leaves them on a memory disk with the same contents. *)
Theorem ide_like_memdisk s d' b bf (m : bcache) :
  ireachable s → head (queue s) = Some b → ibufs s !! b = Some bf → b_dev bf = 1 →
  irq (device s) d' → phase_of d' ≠ Failed →
  bc_bufs m = ibufs s → (Z.to_nat (b_blockno bf) < length (bc_disk m))%nat →
  (∀ n blk, bc_disk m !! n = Some blk → image (device s) 1 (Z.of_nat n) = blk) →
  ∃ m' s', Bio.iderw b m = Ok tt m' ∧ ideintr (set_device d' s) = Ok tt s' ∧
    ibufs s' = bc_bufs m' ∧
    ∀ n blk, bc_disk m' !! n = Some blk → image (device s') 1 (Z.of_nat n) = blk.
Proof.
  intros Hr Hh Hb Hd Hirq Hok Hm Hlt Hdisk. destruct (ireachable_inv s Hr) as [q Hi].
  rewrite (queue_inv s q Hi) in Hh. pose proof (chain_head _ _ _ (di_chain s q Hi)) as Hq.
  destruct (di_pending s q Hi b) as (bf0 & Hb0 & _ & [Hg _] & _); [by apply head_Some_elem_of|].
  assert (bf0 = bf) as -> by congruence.
  destruct (dinv_irq s q d') as (b0 & q' & bf0 & s' & -> & Hb1 & Hn & Hlk & Hph & Ha & Hrun & _ & Ebs & _ & Him);
    [done|congruence|done|].
  simpl in Hh. injection Hh as ->. assert (bf0 = bf) as -> by congruence.
  destruct (lookup_lt_is_Some_2 _ _ Hlt) as [blk Hblk].
  destruct (memdisk_run m b bf blk) as (m' & Hrm & Ebm & Edm); [congruence|done..|lia|done|].
  destruct (irq_answered _ _ _ Hph Hirq) as [_ Himg].
  exists m', s'. split; [done|]. split; [done|].
  pose proof (Hdisk _ _ Hblk) as Hi1. rewrite Z2Nat.id in Hi1 by lia.
  assert (Z.land (b_dev bf) 1 = 1) as Hdr by by rewrite Hd.
  unfold result, answered, request in *. rewrite Hdr in *. destruct (dirtyb bf) eqn:Ed.
  - split; [congruence|]. intros n blk' Hn'. rewrite Him.
    destruct (ata_irq_write _ _ _ _ _ Hph Hirq) as [[[_ Hw]|?] _]; [|done].
    rewrite Edm, list_lookup_insert_dec in Hn' by done. case_decide as E.
    + rewrite E, Z2Nat.id by lia. congruence.
    + rewrite Himg; [by apply Hdisk|]. right. intros [= ?]. lia.
  - destruct Ha as [Hp|?]; [|done]. rewrite Hp in Ebs. split.
    + rewrite Ebs, Ebm, Hm. rewrite Himg by auto. by rewrite Hi1.
    + intros n blk' Hn'. rewrite Him, Himg by auto. rewrite Edm in Hn'. by apply Hdisk.
Qed.

(** C11. No request is forgotten and no wakeup lost: a process asleep in iderw has its
    buffer in the queue, and as long as the queue is not empty the command of its
    first buffer is under way.  The interrupt that ends the command always
    completes the handler, which removes that buffer from the queue, wakes its process and starts the next;
    a process that was woken returns from iderw when it runs.  So the request at
    position k of the queue returns after k + 1 interrupts. *)
Theorem ide_progress s :
  ireachable s →
  (∀ p b, procs s !! p = Some (Asleep b) → b ∈ queue s) ∧
  (∀ b q, queue s = b :: q →
     (∃ bf, ibufs s !! b = Some bf ∧ phase_of (device s) = request bf) ∧
     ∀ d', irq (device s) d' → ∃ s', ideintr (set_device d' s) = Ok tt s' ∧ queue s' = q ∧
       ∀ p, procs s !! p = Some (Asleep b) → procs s' !! p = Some (Awake b)) ∧
  (∀ p b, procs s !! p = Some (Awake b) →
     iderw_resume b s = Ok tt s).
Proof.
  intros Hr. destruct (ireachable_inv s Hr) as [q Hi]. rewrite (queue_inv s q Hi). split_and!.
  - apply Hi.
  - intros b q' ->. pose proof (chain_head _ _ _ (di_chain s _ Hi)) as Hq. split; [apply (di_device s _ Hi)|].
    intros d' Hirq.
    destruct (dinv_irq s (b :: q') d') as (b0 & q0 & bf & s' & [= <- <-] & _ & _ & _ & _ & _ & Hrun & Hi' & _ & Hps & _);
      [done|by rewrite Hq|done|].
    exists s'. split; [done|]. split; [by apply queue_inv|]. intros p Hp. rewrite Hps.
    apply wake_lookup. exists (Asleep b). split; [done|]. symmetry. apply wake_awake. auto.
  - intros p b Hp. by apply (resume_run s q p b).
Qed.

(** A read that fails is not reported: when the controller signals an error for the
    read of the first buffer, ideintr marks the buffer as valid with the data it had
    before, and the process that waits for it returns from iderw. *)
Theorem ide_read_error_valid s d' b bf p :
  ireachable s → head (queue s) = Some b → ibufs s !! b = Some bf → dirtyb bf = false →
  procs s !! p = Some (Asleep b) → irq (device s) d' → phase_of d' = Failed →
  ∃ s' bf', ideintr (set_device d' s) = Ok tt s' ∧ ibufs s' !! b = Some bf' ∧
    validb bf' = true ∧ dirtyb bf' = false ∧ b_data bf' = b_data bf ∧
    iderw_resume b s' = Ok tt s'.
Proof.
  intros Hr Hh Hb Hd Hp Hirq Hf. destruct (ireachable_inv s Hr) as [q Hi].
  rewrite (queue_inv s q Hi) in Hh. pose proof (chain_head _ _ _ (di_chain s q Hi)) as Hq.
  destruct (dinv_irq s q d') as (b0 & q' & bf0 & s' & -> & Hb1 & _ & _ & _ & _ & Hrun & Hi' & Ebs & Hps & _);
    [done|congruence|done|].
  simpl in Hh. injection Hh as ->. assert (bf0 = bf) as -> by congruence.
  unfold result in Ebs. rewrite Hd, Hf in Ebs.
  exists s', (completed (b_data bf) bf). split; [done|]. split.
  { rewrite Ebs. apply list_lookup_insert_eq. by apply lookup_lt_Some in Hb. }
  pose proof (completed_done (b_data bf) bf) as Hdone. unfold needs in Hdone.
  assert (validb (completed (b_data bf) bf) = true ∧ dirtyb (completed (b_data bf) bf) = false) as [??].
  { unfold validb, dirtyb. simpl. rewrite completed_flags, !Z.land_lor_distr_l.
    rewrite <- !Z.land_assoc. change (Z.land (Z.lnot B_DIRTY) B_DIRTY) with 0.
    rewrite Z.land_0_r. split; [|done]. apply negb_true_iff, Z.eqb_neq. intros E.
    by apply Z.lor_eq_0_iff in E as [_ E]. }
  split_and!; try done. apply (resume_run s' q' p b); [done|].
  rewrite Hps. apply wake_lookup. exists (Asleep b). split; [done|]. symmetry. apply wake_awake. auto.
Qed.
End driver.

(** * A simulated controller *)

(** A controller that is ready at once, with a bad sector. *)
Record sim := Sim {
  sim_reg : Z → Z;
  sim_phase : phase;
  sim_image : Z → Z → list Z;
  sim_bad : Z;
}.

Definition sim_status (ph : phase) : Z :=
  match ph with Ready | Loaded _ _ => IDE_DRDY | Failed => Z.lor IDE_DRDY IDE_ERR | _ => IDE_BSY end.
Definition sim_out (p v : Z) (d : sim) : sim :=
  if p =? 0x1f7 then
    let ph := if v =? IDE_CMD_READ then Reading (drive (sim_reg d)) (lba (sim_reg d))
              else Wanting (drive (sim_reg d)) (lba (sim_reg d)) in
    Sim (sim_reg d) ph (sim_image d) (sim_bad d)
  else Sim (λ r, if decide (r = p) then v else sim_reg d r) (sim_phase d) (sim_image d) (sim_bad d).
Definition sim_sector (d : sim) (dr n : Z) : list Z := resize (Z.to_nat SECTOR_SIZE) 0 (sim_image d dr n).

#[global] Instance sim_ports : Ports sim := {
  inb p d := (sim_status (sim_phase d), d);
  outb := sim_out;
  insl p cnt d :=
    match sim_phase d with
    | Loaded dr n => (sim_sector d dr n, Sim (sim_reg d) Ready (sim_image d) (sim_bad d))
    | _ => ([], d)
    end;
  outsl p data d :=
    match sim_phase d with
    | Wanting dr n => Sim (sim_reg d) (Writing dr n data) (sim_image d) (sim_bad d)
    | _ => d
    end;
}.

(** the end of a command *)
Definition sim_finish (d : sim) : sim :=
  match sim_phase d with
  | Reading dr n =>
      Sim (sim_reg d) (if n =? sim_bad d then Failed else Loaded dr n) (sim_image d) (sim_bad d)
  | Writing dr n data =>
      if (n =? sim_bad d) || negb (length data =? Z.to_nat SECTOR_SIZE)%nat
      then Sim (sim_reg d) Failed (sim_image d) (sim_bad d)
      else Sim (sim_reg d) Ready
             (λ dr' n', if decide ((dr', n') = (dr, n)) then data else sim_image d dr' n') (sim_bad d)
  | _ => d
  end.

#[global] Instance sim_ata : Ata sim.
Proof.
  refine {| image := sim_sector; phase_of := sim_phase; reg := sim_reg;
            irq d d' := d' = sim_finish d; polls := 1 |}.
  - intros d dr n. apply length_resize.
  - done.
  - intros d Hs. exists 0%nat. split; [lia|]. unfold status. simpl. by destruct (sim_phase d).
  - intros d dr n E _. simpl. rewrite E. unfold faulty. by vm_compute.
  - intros d E _. simpl. rewrite E. unfold faulty. by vm_compute.
  - intros d p v _ Hp d'. unfold d'. simpl. unfold sim_out.
    rewrite (proj2 (Z.eqb_neq p 503)); [done|]. unfold command_regs in Hp. set_solver.
  - done.
  - done.
  - intros d dr n data E _. simpl. rewrite E. done.
  - intros d dr n E. simpl. rewrite E. done.
  - intros d d' dr n E ->. unfold sim_finish. rewrite E. simpl. split; [|done]. destruct (_ =? _); auto.
  - intros d d' dr n data E ->. unfold sim_finish. rewrite E.
    destruct (n =? sim_bad d); simpl; [split; [by right|done]|].
    destruct (Nat.eqb_spec (length data) (Z.to_nat SECTOR_SIZE)) as [El|]; simpl; [|split; [by right|done]].
    split; [left; split; [done|]|].
    + unfold sim_sector. simpl. rewrite decide_True by done. by rewrite <- El, resize_all.
    + intros dr' n' Hne. unfold sim_sector. simpl. by rewrite decide_False.
Defined.

Lemma sim_polls : (polls (D := sim) ≤ 1)%nat.
Proof. unfold polls. simpl. lia. Qed.

(** ** Examples *)

(** Two locked buffers for blocks 3 and 5 of disk 1, the second to be written; each
    sector holds its number; sector [bad] is bad. *)
Definition ex_buf (n flags : Z) (data : list Z) : buf :=
  Buf flags 1 n (Sleeplock false true 1) 1 data.
Definition ex_ide (bad : Z) : ide sim :=
  Ide false None [None; None]
    [ex_buf 3 0 zero_block; ex_buf 5 (Z.lor B_VALID B_DIRTY) (replicate 512 9)] 1
    (Sim (λ _, 0) Ready (λ _ n, replicate 512 n) bad) [Outside; Outside].
Definition ex_call (p : nat) (s : ide sim) : ide sim := default s (after_run p p (iderw 1 p s)).
(** both are requested *)
Definition ex_two (bad : Z) : ide sim := ex_call 1 (ex_call 0 (ex_ide bad)).

Lemma ex_callable s n flags data :
  havedisk1 s = 1 → 0 ≤ n < FSSIZE → length data = Z.to_nat BSIZE →
  Z.land flags (Z.lor B_VALID B_DIRTY) ≠ B_VALID →
  callable (D := sim) s (ex_buf n flags data).
Proof. intros Hd ? ? ?. unfold callable, held, good. rewrite Hd. split_and!; auto; simpl; lia. Qed.

Lemma ex_call_step p s bf :
  procs s !! p = Some Outside → ibufs s !! p = Some bf → callable s bf →
  Forall (λ st, st ≠ Asleep p ∧ st ≠ Awake p) (procs s) →
  match after_run p p (iderw 1 p s) with Some _ => true | None => false end = true →
  ireachable 1 s → ireachable 1 (ex_call p s).
Proof.
  intros Hp Hb Hc Hps Hr Hs. apply (ireach_step _ s (Call p p)); [done|].
  apply (istep_call 1 s p p bf); [done..| |].
  - rewrite Forall_lookup in Hps. intros (p' & [E|E]); apply Hps in E; naive_solver.
  - unfold ex_call. by destruct (after_run p p (iderw 1 p s)).
Qed.

Lemma ex_two_reachable bad : ireachable 1 (ex_two bad).
Proof.
  apply (ex_call_step 1 _ (ex_buf 5 (Z.lor B_VALID B_DIRTY) (replicate 512 9)));
    [vm_compute; reflexivity|vm_compute; reflexivity|apply ex_callable; by vm_compute
    |vm_compute; by repeat constructor|vm_compute; reflexivity|].
  apply (ex_call_step 0 _ (ex_buf 3 0 zero_block));
    [vm_compute; reflexivity|vm_compute; reflexivity|apply ex_callable; by vm_compute
    |vm_compute; by repeat constructor|vm_compute; reflexivity|].
  apply ireach_init. split_and!; [done..|by left|by repeat constructor].
Qed.

(** the interrupt for the first of them *)
Definition ex_done (bad : Z) : sim := sim_finish (device (ex_two bad)).
Definition ex_irq (bad : Z) : ide sim :=
  match ideintr 1 (set_device (ex_done bad) (ex_two bad)) with Ok _ s => s | _ => ex_two bad end.

Lemma ex_irq_run : ideintr 1 (set_device (ex_done 7) (ex_two 7)) = Ok tt (ex_irq 7).
Proof.
  assert (match ideintr 1 (set_device (ex_done 7) (ex_two 7)) with Ok _ _ => true | _ => false end = true)
    as E by (vm_compute; reflexivity).
  unfold ex_irq. by destruct (ideintr 1 _) as [[] ?| |].
Qed.

Lemma ide_refines_ideal_witness : ideal_step (abs (ex_two 7)) (Answer true) (abs (ex_irq 7)).
Proof.
  apply (ide_refines_ideal 1 sim_polls); [apply ex_two_reachable|].
  assert (true = succeeded (phase_of (ex_done 7))) as -> by (vm_compute; reflexivity).
  apply (istep_irq 1 _ (ex_done 7)); [by vm_compute|reflexivity|apply ex_irq_run].
Defined.

Definition ex_mem : bcache :=
  set_bc_bufs (ibufs (ex_two 7)) (bss ((λ n, replicate 512 (Z.of_nat n)) <$> seq 0 8)).

Lemma ex_mem_image n blk :
  bc_disk ex_mem !! n = Some blk → image (device (ex_two 7)) 1 (Z.of_nat n) = blk.
Proof.
  intros Hn. do 8 (destruct n as [|n]; [vm_compute in Hn; injection Hn as <-; vm_compute; reflexivity|]).
  done.
Qed.

Lemma ide_like_memdisk_witness :
  ∃ m' s', Bio.iderw 0 ex_mem = Ok tt m' ∧
    ideintr 1 (set_device (ex_done 7) (ex_two 7)) = Ok tt s' ∧ ibufs s' = bc_bufs m'.
Proof.
  destruct (ide_like_memdisk 1 sim_polls (ex_two 7) (ex_done 7) 0 (ex_buf 3 0 zero_block) ex_mem
    (ex_two_reachable 7)) as (m' & s' & H1 & H2 & H3 & _);
    [vm_compute; reflexivity|vm_compute; reflexivity|reflexivity|reflexivity|by vm_compute
    |reflexivity|apply Nat.ltb_lt; vm_compute; reflexivity|exact ex_mem_image|].
  by exists m', s'.
Defined.

Lemma ide_progress_witness : 1%nat ∈ queue (ex_two 7).
Proof.
  apply (ide_progress 1 sim_polls (ex_two 7) (ex_two_reachable 7)) with (p := 1%nat).
  vm_compute. reflexivity.
Defined.

Lemma ide_read_error_valid_witness :
  ∃ s' bf', ideintr 1 (set_device (ex_done 3) (ex_two 3)) = Ok tt s' ∧
    ibufs s' !! 0%nat = Some bf' ∧ validb bf' = true ∧ b_data bf' = zero_block ∧
    image (device (ex_two 3)) 1 3 ≠ zero_block.
Proof.
  destruct (ide_read_error_valid 1 sim_polls (ex_two 3) (ex_done 3) 0
    (ex_buf 3 0 zero_block) 0 (ex_two_reachable 3))
    as (s' & bf' & H1 & H2 & H3 & _ & H5 & _);
    [vm_compute; reflexivity|vm_compute; reflexivity|reflexivity|vm_compute; reflexivity
    |reflexivity|vm_compute; reflexivity|].
  exists s', bf'. split_and!; [done..|by vm_compute].
Defined.
