(* ===== verification/LogDisk.v ===== *)
(** What a disk with a log means: the on-disk log header, the logical
    contents that recovery would produce, and how a prefix of the writes of a
    commit changes them.  No code here; Log.v shows that the code of log.c
    performs these writes. *)

From S2P Require Import Prelude Bytes Layout Blocks.

(** * The log header block *)

Definition hdr_n (h : list Z) : Z := s32 (get_u32 0 h).
Definition hdr_blocks (h : list Z) : list Z :=
  (λ i, s32 (get_u32 (4 + 4 * i) h)) <$> seq 0 (Z.to_nat (hdr_n h)).

(** The header [h] overwritten with the block numbers [bs]. *)
Definition fill_hdr (bs : list Z) (h : list Z) : list Z :=
  put_u32s 4 bs (put_u32 0 (Z.of_nat (length bs)) h).

Section header.
Implicit Types (h bs : list Z).

Lemma get_put_u32s_before off ws d n o :
  (off + 4 * length ws ≤ length d)%nat → (o + n ≤ off)%nat →
  get_le n o (put_u32s off ws d) = get_le n o d.
Proof.
  revert off d. induction ws as [|w ws IH]; intros off d H Ho; simpl in *; [done|].
  rewrite IH; [|rewrite length_put_le; lia|lia].
  apply get_put_le_other; lia.
Qed.

Lemma get_put_u32s off ws d i w :
  (off + 4 * length ws ≤ length d)%nat → ws !! i = Some w →
  get_u32 (off + 4 * i) (put_u32s off ws d) = w mod 2 ^ 32.
Proof.
  revert off d i. induction ws as [|x ws IH]; intros off d i H Hi; simpl in *; [done|].
  assert (length (put_u32 off x d) = length d) as E by (apply length_put_le; lia).
  destruct i as [|i]; simplify_eq/=.
  - rewrite Nat.mul_0_r, Nat.add_0_r, get_put_u32s_before by lia.
    rewrite get_put_le_same by lia. done.
  - replace (off + 4 * S i)%nat with (off + 4 + 4 * i)%nat by lia.
    apply IH; [lia|done].
Qed.

Context (bs h : list Z) (Hlen : (Z.of_nat (length bs) ≤ LOGSIZE)%Z) (Hh : block h).
Context (Hbs : Forall (λ b, 0 ≤ b < 2 ^ 31) bs).

Lemma fill_hdr_block : block (fill_hdr bs h).
Proof using Hlen Hh.
  destruct Hh as [Hl Hb]. split; unfold LOGSIZE, MAXOPBLOCKS, BSIZE in *.
  - assert (length (put_u32 0 (Z.of_nat (length bs)) h) = length h) as E
      by (apply length_put_le; lia).
    unfold fill_hdr. rewrite length_put_u32s; rewrite E; lia.
  - by apply put_u32s_bytes, put_le_bytes.
Qed.

Lemma hdr_n_fill : hdr_n (fill_hdr bs h) = Z.of_nat (length bs).
Proof using Hlen Hh.
  destruct Hh as [Hl Hb]. unfold LOGSIZE, MAXOPBLOCKS, BSIZE in *. unfold hdr_n, fill_hdr.
  rewrite get_put_u32s_before; [|rewrite length_put_le; lia|lia].
  rewrite get_put_le_same by lia. change (256 ^ Z.of_nat 4) with (2 ^ 32).
  rewrite Z.mod_small by lia. apply sext_small; lia.
Qed.

Lemma hdr_blocks_fill : hdr_blocks (fill_hdr bs h) = bs.
Proof using Hlen Hh Hbs.
  unfold hdr_blocks. rewrite hdr_n_fill, Nat2Z.id. apply list_eq. intros i.
  rewrite list_lookup_fmap. destruct (decide (i < length bs)%nat) as [Hi|Hi].
  - rewrite lookup_seq_lt by done.
    change (Some (s32 (get_u32 (4 + 4 * i) (fill_hdr bs h))) = bs !! i).
    destruct (lookup_lt_is_Some_2 bs i Hi) as [b Hb]. rewrite Hb. f_equal.
    pose proof (Forall_lookup_1 _ _ _ _ Hbs Hb) as Hr. simpl in Hr.
    destruct Hh as [Hl _]. unfold LOGSIZE, MAXOPBLOCKS, BSIZE in *. unfold fill_hdr.
    erewrite get_put_u32s; [|rewrite length_put_le; lia|exact Hb].
    rewrite Z.mod_small by lia. apply sext_small; lia.
  - rewrite lookup_seq_ge, lookup_ge_None_2 by lia. done.
Qed.
End header.

(** * Logical contents *)

Section logical.
Context (start size : Z).
Implicit Types (d : list (list Z)) (k : nat) (bs : list Z).

Definition header d : list Z := d !!! Z.to_nat start.

(** Log block [i]. *)
Definition log_block d (i : nat) : list Z := d !!! Z.to_nat (start + 1 + Z.of_nat i).

(** The writes that recovery performs: each logged block to its home. *)
Definition installs d : list (Z * list Z) :=
  let bs := hdr_blocks (header d) in zip bs (log_block d <$> seq 0 (length bs)).
Definition logical d : list (list Z) := apply_writes (installs d) d.

Definition in_log (n : Z) : Prop := start ≤ n < start + size.

(** Two disks agree outside the log. *)
Definition same_home d d' : Prop :=
  length d = length d' ∧ ∀ k, ¬ in_log (Z.of_nat k) → d !! k = d' !! k.

(** A block that a transaction may write: not in the log, and not block 1,
    the superblock, which says where the log is. *)
Definition home (len : nat) (n : Z) : Prop :=
  0 ≤ n < Z.of_nat len ∧ n ≠ 1 ∧ ¬ in_log n.

Record disk_ok d : Prop := {
  do_blocks : Forall block d;
  do_len : Z.of_nat (length d) < 2 ^ 31;
  do_start : s32 (sb_logstart (sb_of_bytes (d !!! 1%nat))) = start;
  do_size : s32 (sb_nlog (sb_of_bytes (d !!! 1%nat))) = size;
  do_range : 2 ≤ start ∧ 0 < size ≤ LOGSIZE ∧ start + size ≤ Z.of_nat (length d);
}.

Record log_ok d bs : Prop := {
  lo_count : Z.of_nat (length bs) < size;
  lo_nodup : NoDup bs;
  lo_home : Forall (home (length d)) bs;
}.

(** Recovery can start from [d]. *)
Definition recoverable d : Prop :=
  disk_ok d ∧ 0 ≤ hdr_n (header d) ∧ log_ok d (hdr_blocks (header d)).

#[global] Instance same_home_equiv : Equivalence same_home.
Proof.
  split.
  - by intros d.
  - intros d d' [? H]. split; [done|]. intros. symmetry. by apply H.
  - intros d d' d'' [? H] [? H']. split; [congruence|]. intros. rewrite H by done. by apply H'.
Qed.

#[global] Instance apply_writes_proper w : Proper (same_home ==> same_home) (apply_writes w).
Proof.
  intros d d' [Hl H]. split; [by rewrite !length_apply_writes|]. revert d d' Hl H.
  induction w as [|x w IH]; intros d d' Hl H k Hk; simpl; [by apply H|].
  apply IH; [by rewrite !length_insert| |done]. intros j Hj.
  destruct (decide (j = Z.to_nat x.1)) as [->|?]; [|rewrite !list_lookup_insert_ne by done; by apply H].
  destruct (decide (Z.to_nat x.1 < length d)%nat).
  - by rewrite !list_lookup_insert_eq by lia.
  - rewrite !lookup_ge_None_2; [done|rewrite length_insert; lia..].
Qed.

(** Writes inside the log do not change the home blocks. *)
Lemma log_writes_home w d :
  Forall (λ x, in_log x.1) w → 0 ≤ start → same_home (apply_writes w d) d.
Proof.
  intros Hw Hs. split; [apply length_apply_writes|]. intros k Hk. apply apply_writes_other.
  intros x Hx E. apply Hk. rewrite list.Forall_forall in Hw. specialize (Hw x Hx). unfold in_log in *. lia.
Qed.

(** An empty log: the disk is its own logical contents. *)
Lemma logical_empty d : hdr_n (header d) ≤ 0 → logical d = d.
Proof.
  intros H. unfold logical, installs, hdr_blocks. by rewrite Z2Nat.nonpos.
Qed.

Lemma home_writes_log bs (ds : list (list Z)) n d :
  Forall (home (length d)) bs → in_log n → 0 ≤ start →
  apply_writes (zip bs ds) d !! Z.to_nat n = d !! Z.to_nat n.
Proof.
  intros Hb Hn Hs. apply apply_writes_other. intros [b x] Hx E. simpl in E.
  apply elem_of_zip_l in Hx. rewrite list.Forall_forall in Hb.
  destruct (Hb b Hx) as (?&?&Hnot). apply Hnot. unfold in_log in *. lia.
Qed.

(** Writes of blocks, none of them block 1, keep the superblock. *)
Lemma disk_ok_writes w d :
  disk_ok d → Forall (λ x, block x.2 ∧ Z.to_nat x.1 ≠ 1%nat) w → disk_ok (apply_writes w d).
Proof.
  intros [Hb Hl Hs Hz Hr] Hw.
  assert (apply_writes w d !!! 1%nat = d !!! 1%nat) as E.
  { rewrite !list_lookup_total_alt, apply_writes_other; [done|].
    rewrite list.Forall_forall in Hw. intros x Hx. by apply Hw. }
  split; rewrite ?length_apply_writes, ?E; try done.
  apply apply_writes_block; [|done]. eapply list.Forall_impl; [exact Hw|]. by intros x [].
Qed.

Lemma header_block d : disk_ok d → block (header d).
Proof.
  intros [Hb Hl _ _ Hr]. unfold header. apply Forall_lookup_total_1; [done|lia].
Qed.

Lemma log_block_block d i : disk_ok d → Z.of_nat i + 1 < size → block (log_block d i).
Proof.
  intros [Hb Hl _ _ Hr] Hi. unfold log_block. apply Forall_lookup_total_1; [done|lia].
Qed.

Lemma installs_ok d :
  recoverable d → Forall (λ x, block x.2 ∧ Z.to_nat x.1 ≠ 1%nat) (installs d).
Proof.
  intros (Hd&Hn&[Hc Hnd Hh]). apply Forall_lookup. intros i [b y].
  unfold installs. rewrite lookup_zip_with. intros Hx.
  destruct (hdr_blocks (header d) !! i) as [b'|] eqn:Hb; simplify_eq/=.
  pose proof (lookup_lt_Some _ _ _ Hb) as Hi.
  rewrite list_lookup_fmap, lookup_seq_lt in Hx by done. simplify_eq/=. split.
  - apply log_block_block; [done|lia].
  - destruct (Forall_lookup_1 _ _ _ _ Hh Hb) as (?&?&_). lia.
Qed.

(** Replaying part of the log changes neither the log nor what it means. *)
Lemma replay_prefix d j :
  recoverable d →
  let d' := apply_writes (take j (installs d)) d in
  recoverable d' ∧ header d' = header d ∧ installs d' = installs d ∧ logical d' = logical d.
Proof.
  intros Hrec d'. pose proof Hrec as (Hd&Hn&[Hc Hnd Hh]). pose proof (do_range d Hd) as Hr.
  assert (∀ n, in_log n → d' !! Z.to_nat n = d !! Z.to_nat n) as Hlog.
  { intros n Hin. unfold d', installs. rewrite zip_with_take. apply home_writes_log; [|done|lia].
    by apply Forall_take. }
  assert (header d' = header d) as Ehdr.
  { unfold header. rewrite !list_lookup_total_alt, Hlog; [done|]. unfold in_log. lia. }
  assert (installs d' = installs d) as Ein.
  { unfold installs. rewrite Ehdr. f_equal. apply list_fmap_ext. intros i x [-> Hi]%lookup_seq.
    simpl. unfold log_block. rewrite !list_lookup_total_alt, Hlog; [done|]. unfold in_log. lia. }
  split_and!; [|done|done|].
  - split_and!; [|by rewrite Ehdr|].
    + apply disk_ok_writes; [done|]. by apply Forall_take, installs_ok.
    + rewrite Ehdr. split; [done|done|]. unfold d'. by rewrite length_apply_writes.
  - unfold logical. rewrite Ein. apply apply_writes_agree; [apply length_apply_writes|].
    intros k. destruct (decide (k ∈ Z.to_nat ∘ fst <$> installs d)) as [Hk|Hk].
    + right. apply list_elem_of_fmap in Hk as (x&->&Hx). by exists x.
    + left. apply apply_writes_other. intros x Hx E. apply Hk, list_elem_of_fmap.
      exists x. split; [done|]. rewrite list_elem_of_lookup in Hx. destruct Hx as [i Hi].
      apply lookup_take_Some in Hi as [Hi _]. by eapply list_elem_of_lookup_2.
Qed.

(** Clearing the header of a disk empties its log and keeps its home blocks. *)
Lemma clear_header d h :
  disk_ok d → block h →
  let d' := apply_writes [(start, fill_hdr [] h)] d in
  recoverable d' ∧ header d' = fill_hdr [] h ∧ logical d' = d' ∧ same_home d' d.
Proof.
  intros Hd Hh d'. pose proof (do_range d Hd) as Hr.
  assert (header d' = fill_hdr [] h) as Ehdr.
  { unfold header, d'. simpl. apply list_lookup_total_insert_eq. lia. }
  assert (hdr_n (header d') = 0) as En.
  { rewrite Ehdr. apply hdr_n_fill; [simpl; lia|done]. }
  split_and!; [|done|by apply logical_empty; rewrite En|].
  - split_and!; [|by rewrite En|].
    + apply disk_ok_writes; [done|]. apply Forall_singleton.
      split; [apply fill_hdr_block; [simpl; lia|done]|simpl; lia].
    + unfold hdr_blocks. rewrite En. split; simpl; [lia|constructor|constructor].
  - apply log_writes_home; [|lia]. apply Forall_singleton. unfold in_log. simpl. lia.
Qed.

(** The writes of recovery. *)
Definition recovery_writes d : list (Z * list Z) :=
  installs d ++ [(start, fill_hdr [] (header d))].

(** A crash at any point of recovery keeps the logical contents, and leaves a
    disk from which recovery can start again. *)
Lemma recovery_prefix d k :
  recoverable d →
  let d' := apply_writes (take k (recovery_writes d)) d in
  recoverable d' ∧ same_home (logical d') (logical d).
Proof.
  intros Hrec d'. pose proof (replay_prefix d k Hrec) as (Hr&_&_&Hl).
  unfold d', recovery_writes.
  destruct (decide (k ≤ length (installs d))%nat) as [Hk|Hk].
  - rewrite take_app_le by done. split; [done|]. by rewrite Hl.
  - rewrite take_app_ge, (take_ge [_]) by (simpl; lia). rewrite apply_writes_app.
    rewrite take_ge in Hr, Hl by lia.
    destruct (clear_header (apply_writes (installs d) d) (header d)) as (?&?&Hcl&Hs).
    { apply Hr. }
    { apply header_block, Hrec. }
    split; [done|]. by rewrite Hcl, Hs.
Qed.

(** * The writes of a commit

    [v] is what the file system has written in memory and [bs] the blocks of
    the transaction. *)

Definition log_writes (v : list (list Z)) bs : list (Z * list Z) :=
  zip ((λ i, start + 1 + Z.of_nat i) <$> seq 0 (length bs)) ((λ b, v !!! Z.to_nat b) <$> bs).
Definition home_writes (v : list (list Z)) bs : list (Z * list Z) :=
  zip bs ((λ b, v !!! Z.to_nat b) <$> bs).
Definition commit_writes (v : list (list Z)) bs h : list (Z * list Z) :=
  log_writes v bs ++ [(start, fill_hdr bs h)] ++
  home_writes v bs ++ [(start, fill_hdr [] (fill_hdr bs h))].

Section commit.
Context (d v : list (list Z)) (bs : list Z).
Context (Hd : disk_ok d) (Hempty : hdr_n (header d) = 0).
Context (Hv : Forall block v) (Hlen : length v = length d) (Hlog : log_ok d bs).
Context (Hclean : ∀ k, Z.of_nat k ∉ bs → d !! k = v !! k).

Lemma log_writes_lookup i x :
  log_writes v bs !! i = Some x ↔
  ∃ b, bs !! i = Some b ∧ x = (start + 1 + Z.of_nat i, v !!! Z.to_nat b).
Proof using.
  unfold log_writes. rewrite lookup_zip_with, !list_lookup_fmap.
  destruct (bs !! i) as [b|] eqn:E.
  - rewrite lookup_seq_lt by by eapply lookup_lt_Some. simpl. split; [intros [= <-]|]; eauto.
    by intros (?&[= <-]&->).
  - rewrite lookup_seq_ge by by apply lookup_ge_None_1. simpl. split; [done|by intros (?&?&_)].
Qed.

Lemma log_writes_in_log :
  Forall (λ x, in_log x.1 ∧ block x.2 ∧ Z.to_nat x.1 ≠ 1%nat ∧ x.1 ≠ start) (log_writes v bs).
Proof using Hd Hv Hlog Hlen.
  pose proof (do_range d Hd). destruct Hlog as [Hc _ Hh].
  apply Forall_lookup. intros i x (b&Hb&->)%log_writes_lookup. simpl.
  pose proof (lookup_lt_Some _ _ _ Hb). destruct (Forall_lookup_1 _ _ _ _ Hh Hb) as [? _].
  unfold in_log. split_and!; try lia. apply Forall_lookup_total_1; [done|lia].
Qed.

(** Before the header is written the transaction has not happened. *)
Lemma commit_before k :
  (k ≤ length bs)%nat →
  let d' := apply_writes (take k (commit_writes v bs (header d))) d in
  recoverable d' ∧ same_home (logical d') d.
Proof using Hd Hempty Hv Hlen Hlog.
  intros Hk d'. pose proof (do_range d Hd) as Hr.
  assert (d' = apply_writes (take k (log_writes v bs)) d) as Ed.
  { unfold d', commit_writes. rewrite take_app_le; [done|]. unfold log_writes.
    rewrite length_zip_with, !length_fmap, length_seq. lia. }
  pose proof (Forall_take _ k _ log_writes_in_log) as Hw.
  assert (header d' = header d) as Ehdr.
  { unfold header. rewrite Ed, !list_lookup_total_alt, apply_writes_other; [done|].
    intros x Hx E. rewrite list.Forall_forall in Hw. destruct (Hw x Hx) as (?&?&?&?). unfold in_log in *. lia. }
  split.
  - split_and!; [|by rewrite Ehdr, Hempty|].
    + rewrite Ed. apply disk_ok_writes; [done|]. eapply list.Forall_impl; [exact Hw|]. tauto.
    + rewrite Ehdr. unfold hdr_blocks. rewrite Hempty. split; simpl; [lia|constructor..].
  - rewrite logical_empty by by rewrite Ehdr, Hempty. rewrite Ed.
    apply log_writes_home; [|lia]. eapply list.Forall_impl; [exact Hw|]. tauto.
Qed.

Lemma logged_block h i b :
  bs !! i = Some b →
  log_block (apply_writes (log_writes v bs ++ [(start, h)]) d) i = v !!! Z.to_nat b.
Proof using Hd Hlog.
  clear Hlen Hclean Hempty. intros Hb. pose proof (do_range d Hd) as Hr. destruct Hlog as [Hc _ _].
  unfold log_block. rewrite apply_writes_app. simpl.
  pose proof (lookup_lt_Some _ _ _ Hb).
  rewrite list_lookup_total_insert_ne by lia. apply list_lookup_total_correct.
  apply (apply_writes_last _ _ (start + 1 + Z.of_nat i, v !!! Z.to_nat b));
    [|eapply list_elem_of_lookup_2, log_writes_lookup; eauto|simpl; lia].
  apply NoDup_alt. intros j j' n. rewrite !list_lookup_fmap.
  intros (x&(?&_&->)%log_writes_lookup&->)%fmap_Some (y&(?&_&->)%log_writes_lookup&E)%fmap_Some.
  simpl in E. lia.
Qed.

Lemma home_writes_view : apply_writes (home_writes v bs) d = v.
Proof using Hlen Hlog Hclean.
  destruct Hlog as [_ Hnd Hh]. apply list_eq. intros k.
  assert (∀ b, b ∈ bs → (b, v !!! Z.to_nat b) ∈ home_writes v bs) as Hin.
  { intros b [i Hi]%list_elem_of_lookup. eapply (list_elem_of_lookup_2 _ i).
    unfold home_writes. by rewrite lookup_zip_with, list_lookup_fmap, Hi. }
  rewrite list.Forall_forall in Hh.
  destruct (decide (Z.of_nat k ∈ bs)) as [Hk|Hk].
  - pose proof (Hh _ Hk) as [Hr _].
    pose proof (apply_writes_last (home_writes v bs) d
      (Z.of_nat k, v !!! Z.to_nat (Z.of_nat k))) as HL. simpl in HL.
    rewrite Nat2Z.id in HL. rewrite HL; [by rewrite list_lookup_lookup_total_lt by lia| | |lia].
    + unfold home_writes. rewrite list_fmap_compose, fst_zip by (rewrite length_fmap; lia).
      apply (NoDup_fmap_2_strong _); [|done]. intros x y Hx%Hh Hy%Hh ?.
      destruct Hx as [? _], Hy as [? _]. lia.
    + rewrite <- (Nat2Z.id k) at 2. by apply Hin.
  - rewrite apply_writes_other; [by apply Hclean|]. intros [b x] Hx E. simpl in E.
    apply elem_of_zip_l in Hx. apply Hk. destruct (Hh b Hx) as [? _]. by replace (Z.of_nat k) with b by lia.
Qed.

(** The write of the header is the commit point. *)
Lemma commit_point :
  let d' := apply_writes (log_writes v bs ++ [(start, fill_hdr bs (header d))]) d in
  recoverable d' ∧ header d' = fill_hdr bs (header d) ∧ installs d' = home_writes v bs ∧
  same_home (logical d') v.
Proof using Hd Hv Hlen Hlog Hclean.
  intros d'. pose proof (do_range d Hd) as Hr. pose proof (header_block d Hd) as Hhb.
  pose proof log_writes_in_log as Hw. pose proof Hlog as [Hc Hnd Hh].
  assert (Z.of_nat (length bs) ≤ LOGSIZE) as Hle by lia.
  assert (Forall (λ b, 0 ≤ b < 2 ^ 31) bs) as Hbs.
  { eapply list.Forall_impl; [exact Hh|]. intros b [? _]. pose proof (do_len d Hd). lia. }
  assert (header d' = fill_hdr bs (header d)) as Ehdr.
  { unfold header at 1. unfold d'. rewrite apply_writes_app. simpl.
    apply list_lookup_total_insert_eq. rewrite length_apply_writes. lia. }
  assert (hdr_blocks (header d') = bs) as Eblk by (rewrite Ehdr; by apply hdr_blocks_fill).
  pose proof (logged_block (fill_hdr bs (header d)) : ∀ i b, _ → log_block d' i = _) as Hlb.
  assert (installs d' = home_writes v bs) as Ein.
  { unfold installs, home_writes. rewrite Eblk. f_equal. apply list_eq. intros i.
    rewrite !list_lookup_fmap. destruct (bs !! i) as [b|] eqn:Hb.
    - rewrite lookup_seq_lt by by eapply lookup_lt_Some. simpl. f_equal. by apply Hlb.
    - by rewrite lookup_seq_ge by by apply lookup_ge_None_1. }
  assert (Forall (λ x, in_log x.1 ∧ block x.2 ∧ Z.to_nat x.1 ≠ 1%nat)
    (log_writes v bs ++ [(start, fill_hdr bs (header d))])) as Hw'.
  { apply Forall_app. split; [eapply list.Forall_impl; [exact Hw|]; tauto|]. constructor; [|constructor].
    simpl. unfold in_log. split_and!; [lia..|by apply fill_hdr_block|lia]. }
  split_and!; [|done|done|].
  - split_and!; [|rewrite Ehdr, hdr_n_fill by done; lia|].
    + apply disk_ok_writes; [done|]. eapply list.Forall_impl; [exact Hw'|]. tauto.
    + rewrite Eblk. split; [done..|]. unfold d'. by rewrite length_apply_writes.
  - unfold logical. rewrite Ein. transitivity (apply_writes (home_writes v bs) d).
    { apply apply_writes_proper, log_writes_home; [|lia].
      eapply list.Forall_impl; [exact Hw'|]. tauto. }
    by rewrite home_writes_view.
Qed.

Lemma commit_writes_recovery :
  commit_writes v bs (header d) =
    let w := log_writes v bs ++ [(start, fill_hdr bs (header d))] in
    w ++ recovery_writes (apply_writes w d).
Proof using Hd Hv Hlen Hlog Hclean.
  destruct commit_point as (_&Eh&Ein&_). cbv zeta. unfold recovery_writes.
  rewrite Eh, Ein. unfold commit_writes. by rewrite <- !app_assoc.
Qed.

(** After it the transaction has happened. *)
Lemma commit_after k :
  (length bs < k)%nat →
  let d' := apply_writes (take k (commit_writes v bs (header d))) d in
  recoverable d' ∧ same_home (logical d') v.
Proof using Hd Hv Hlen Hlog Hclean.
  intros Hk. rewrite commit_writes_recovery. cbv zeta.
  destruct commit_point as (Hrec&_&_&Hsame).
  rewrite take_app_ge.
  2:{ rewrite length_app. unfold log_writes. rewrite length_zip_with, !length_fmap, length_seq. simpl. lia. }
  rewrite apply_writes_app.
  match goal with |- context [take ?j (recovery_writes _)] =>
    destruct (recovery_prefix _ j Hrec) as [? Hl] end.
  split; [done|]. by rewrite Hl.
Qed.

(** At the end the log is empty and the transaction is in its home blocks. *)
Lemma commit_done :
  let d' := apply_writes (commit_writes v bs (header d)) d in
  recoverable d' ∧ hdr_n (header d') = 0 ∧ same_home d' v.
Proof using Hd Hv Hlen Hlog Hclean.
  rewrite commit_writes_recovery. cbv zeta. destruct commit_point as (Hrec&_&_&Hsame).
  rewrite apply_writes_app. unfold recovery_writes. rewrite apply_writes_app.
  set (d1 := apply_writes (_ ++ _) d) in *.
  destruct (replay_prefix d1 (length (installs d1)) Hrec) as ((Hok&_)&_).
  rewrite firstn_all in Hok.
  pose proof (header_block d1 (proj1 Hrec)) as Hb.
  destruct (clear_header (apply_writes (installs d1) d1) (header d1)) as (?&Eh&?&Hs); [done..|].
  split_and!; [done| |].
  - rewrite Eh. apply hdr_n_fill; [by vm_compute|done].
  - by rewrite Hs.
Qed.
End commit.
End logical.
