(* ===== verification/Log.v ===== *)
(** The write-ahead log (src/log.c) over the block interface of Blocks.v:
    transactions that a crash makes all-or-nothing. *)

From S2P Require Import Prelude Bytes Layout Blocks LogDisk.

(** struct log with its struct logheader: [lg_n] is lh.n and [lg_block]
    lh.block, an array of LOGSIZE ints. *)
Record log := Log {
  lg_lock : bool;
  lg_start : Z;
  lg_size : Z;
  lg_outstanding : Z;
  lg_committing : bool;
  lg_dev : Z;
  lg_n : Z;
  lg_block : list Z;
}.

Definition set_lg_lock (v : bool) (l : log) : log :=
  Log v (lg_start l) (lg_size l) (lg_outstanding l) (lg_committing l) (lg_dev l) (lg_n l) (lg_block l).
Definition set_lg_geometry (start size dev : Z) (l : log) : log :=
  Log (lg_lock l) start size (lg_outstanding l) (lg_committing l) dev (lg_n l) (lg_block l).
Definition set_lg_outstanding (v : Z) (l : log) : log :=
  Log (lg_lock l) (lg_start l) (lg_size l) v (lg_committing l) (lg_dev l) (lg_n l) (lg_block l).
Definition set_lg_committing (v : bool) (l : log) : log :=
  Log (lg_lock l) (lg_start l) (lg_size l) (lg_outstanding l) v (lg_dev l) (lg_n l) (lg_block l).
Definition set_lg_n (v : Z) (l : log) : log :=
  Log (lg_lock l) (lg_start l) (lg_size l) (lg_outstanding l) (lg_committing l) (lg_dev l) v (lg_block l).
Definition set_lg_block (v : list Z) (l : log) : log :=
  Log (lg_lock l) (lg_start l) (lg_size l) (lg_outstanding l) (lg_committing l) (lg_dev l) (lg_n l) v.

(** struct log in the bss *)
Definition zero_log : log := Log false 0 0 0 false 0 0 (replicate (Z.to_nat LOGSIZE) 0).

(** The log, the buffer cache and disk below it, and the wakeups on &log. *)
Record logst (St : Type) := LogSt { ls_log : log; ls_io : St; ls_wakes : nat }.
Arguments LogSt {St} ls_log ls_io ls_wakes.
Arguments ls_log {St} l.
Arguments ls_io {St} l.
Arguments ls_wakes {St} l.

Section Code.
Context {St : Type} `{!BlockIO St}.
Local Abbreviation ML := (M (logst St)).

Definition io_lens : lens (logst St) St :=
  Lens ls_io (λ io s, LogSt (ls_log s) io (ls_wakes s)).
Definition upd_log (f : log → log) : ML unit :=
  modify (λ s, LogSt (f (ls_log s)) (ls_io s) (ls_wakes s)).
Definition log_lock : lens (logst St) bool :=
  Lens (λ s, lg_lock (ls_log s)) (λ b s, LogSt (set_lg_lock b (ls_log s)) (ls_io s) (ls_wakes s)).
Definition wakeup_log : ML unit :=
  modify (λ s, LogSt (ls_log s) (ls_io s) (S (ls_wakes s))).
(** &log as a sleep channel *)
Definition chan_log : Z := 0.

Definition io {A} (m : M St A) : ML A := zoom io_lens m.

(** lh.block[i] *)
Definition get_block (i : nat) : ML Z :=
  l ← gets ls_log; the "lh.block" (lg_block l !! i).
Definition set_block (i : nat) (v : Z) : ML unit :=
  l ← gets ls_log;
  if decide (i < length (lg_block l))%nat then upd_log (set_lg_block (<[i := v]> (lg_block l)))
  else undefined "lh.block".

(** readsb of fs.c *)
Definition readsb (dev : Z) : M St superblock :=
  bp ← bread dev 1;
  d ← gets (bdata bp);
  brelse bp;;
  mret (sb_of_bytes d).

Fixpoint install_loop (tails : list nat) : ML unit :=
  match tails with
  | [] => mret tt
  | tail :: tails =>
      l ← gets ls_log;
      lbuf ← io (bread (u32 (lg_dev l)) (u32 (lg_start l + Z.of_nat tail + 1)));
      blk ← get_block tail;
      dbuf ← io (bread (u32 (lg_dev l)) (u32 blk));
      d ← gets (λ s, bdata lbuf (ls_io s));
      io (set_bdata dbuf d);;
      io (bwrite dbuf);;
      io (brelse lbuf);;
      io (brelse dbuf);;
      install_loop tails
  end.

Definition install_trans : ML unit :=
  l ← gets ls_log; install_loop (seq 0 (Z.to_nat (lg_n l))).

Fixpoint read_head_loop (hdr : list Z) (idx : list nat) : ML unit :=
  match idx with
  | [] => mret tt
  | i :: idx => set_block i (s32 (get_u32 (4 + 4 * i) hdr));; read_head_loop hdr idx
  end.

Definition read_head : ML unit :=
  l ← gets ls_log;
  buf ← io (bread (u32 (lg_dev l)) (u32 (lg_start l)));
  lh ← gets (λ s, bdata buf (ls_io s));
  upd_log (set_lg_n (s32 (get_u32 0 lh)));;
  l ← gets ls_log;
  read_head_loop lh (seq 0 (Z.to_nat (lg_n l)));;
  io (brelse buf).

Fixpoint write_head_loop (buf : nat) (idx : list nat) : ML unit :=
  match idx with
  | [] => mret tt
  | i :: idx =>
      blk ← get_block i;
      hb ← gets (λ s, bdata buf (ls_io s));
      io (set_bdata buf (put_u32 (4 + 4 * i) blk hb));;
      write_head_loop buf idx
  end.

Definition write_head : ML unit :=
  l ← gets ls_log;
  buf ← io (bread (u32 (lg_dev l)) (u32 (lg_start l)));
  hb ← gets (λ s, bdata buf (ls_io s));
  io (set_bdata buf (put_u32 0 (lg_n l) hb));;
  write_head_loop buf (seq 0 (Z.to_nat (lg_n l)));;
  io (bwrite buf);;
  io (brelse buf).

Definition recover_from_log : ML unit :=
  read_head;;
  install_trans;;
  upd_log (set_lg_n 0);;
  write_head.

(** sizeof(struct logheader) *)
Definition LOGHEADER_SIZE : Z := 4 + 4 * LOGSIZE.

Definition initlog (dev : Z) : ML unit :=
  if BSIZE <=? LOGHEADER_SIZE then panic "initlog: too big logheader" else
  upd_log (set_lg_lock false);;
  sb ← io (readsb dev);
  upd_log (set_lg_geometry (s32 (sb_logstart sb)) (s32 (sb_nlog sb)) dev);;
  recover_from_log.

(** The two sleeps release log.lock; the thread resumes at the test. *)
Definition begin_op : ML unit :=
  acquire log_lock;;
  l ← gets ls_log;
  if lg_committing l then release log_lock;; sleep_on chan_log
  else if LOGSIZE <? lg_n l + (lg_outstanding l + 1) * MAXOPBLOCKS then
    release log_lock;; sleep_on chan_log
  else
    upd_log (set_lg_outstanding (lg_outstanding l + 1));;
    release log_lock.

Fixpoint write_log_loop (tails : list nat) : ML unit :=
  match tails with
  | [] => mret tt
  | tail :: tails =>
      l ← gets ls_log;
      to ← io (bread (u32 (lg_dev l)) (u32 (lg_start l + Z.of_nat tail + 1)));
      blk ← get_block tail;
      from ← io (bread (u32 (lg_dev l)) (u32 blk));
      d ← gets (λ s, bdata from (ls_io s));
      io (set_bdata to d);;
      io (bwrite to);;
      io (brelse from);;
      io (brelse to);;
      write_log_loop tails
  end.

Definition write_log : ML unit :=
  l ← gets ls_log; write_log_loop (seq 0 (Z.to_nat (lg_n l))).

Definition commit : ML unit :=
  l ← gets ls_log;
  when (0 <? lg_n l) (
    write_log;;
    write_head;;
    install_trans;;
    upd_log (set_lg_n 0);;
    write_head).

Definition end_op : ML unit :=
  acquire log_lock;;
  l ← gets ls_log;
  upd_log (set_lg_outstanding (lg_outstanding l - 1));;
  if lg_committing l then panic "log.committing" else
  l ← gets ls_log;
  (if lg_outstanding l =? 0 then upd_log (set_lg_committing true) else wakeup_log);;
  release log_lock;;
  when (lg_outstanding l =? 0) (
    commit;;
    acquire log_lock;;
    upd_log (set_lg_committing false);;
    wakeup_log;;
    release log_lock).

(** The search of log_write: the first i < n whose entry is [blockno], or n. *)
Fixpoint log_find (blockno : Z) (i : nat) (blocks : list Z) : nat :=
  match blocks with
  | [] => i
  | b :: blocks => if u32 b =? blockno then i else log_find blockno (S i) blocks
  end.

Definition log_write (b : nat) : ML unit :=
  l ← gets ls_log;
  if (LOGSIZE <=? lg_n l) || (lg_size l - 1 <=? lg_n l) then panic "too big a transaction" else
  if lg_outstanding l <? 1 then panic "log_write outside of trans" else
  acquire log_lock;;
  blockno ← gets (λ s, bblockno b (ls_io s));
  let n := Z.to_nat (lg_n l) in
  let i := log_find blockno 0 (take n (lg_block l)) in
  set_block i (s32 blockno);;
  when (Z.of_nat i =? lg_n l) (upd_log (set_lg_n (lg_n l + 1)));;
  io (mark_dirty b);;
  release log_lock.
End Code.

(** * The block operations under the log *)

Section Io.
Context {St : Type} `{!BlockIO St, !BlockIOSpec St}.
Implicit Types (v D : list (list Z)) (t : list (Z * list Z)) (X : gset Z) (H : gmap nat Z).

(** What the client of the block interface knows about its state. *)
Definition io_is (i : St) v D t X H : Prop :=
  bio_inv i ∧ bview i = v ∧ bdisk i = D ∧ btrace i = t ∧ bdirty i = X ∧ bheld i = H.

Context (l : log) (i : St) (wk : nat) (v D : list (list Z)) (t : list (Z * list Z)).
Context (X : gset Z) (H : gmap nat Z) (Hio : io_is i v D t X H).

Lemma io_is_length : length v = length D.
Proof using Hio. destruct Hio as (?&<-&<-&_). by apply bio_view_length. Qed.

Lemma io_is_view_blocks : Forall block v.
Proof using Hio. destruct Hio as (?&<-&_). by apply bio_view_blocks. Qed.

Lemma io_is_disk_blocks : Forall block D.
Proof using Hio. destruct Hio as (?&_&<-&_). by apply bio_disk_blocks. Qed.

Lemma io_is_data b n : H !! b = Some n → bdata b i = v !!! Z.to_nat n.
Proof using Hio.
  destruct Hio as (?&<-&_&_&_&<-). intros Hb. symmetry.
  by apply list_lookup_total_correct, bio_held_data.
Qed.

Lemma io_is_range b n : H !! b = Some n → 0 ≤ n < Z.of_nat (length D).
Proof using Hio. destruct Hio as (?&_&<-&_&_&<-). by apply bio_held_range. Qed.

Lemma wp_io_bread n Q :
  0 ≤ n < Z.of_nat (length D) → (∀ b, H !! b ≠ Some n) →
  n ∈ X ∨ (size (X ∪ map_img H) < NBUF)%nat →
  (∀ b i', io_is i' v D t X (<[b := n]> H) → H !! b = None → bdata b i' = v !!! Z.to_nat n →
     Q b (LogSt l i' wk)) →
  wp (io (bread ROOTDEV n)) Q (LogSt l i wk).
Proof using Hio.
  intros Hn Hh Hsz HQ. apply wp_zoom. destruct Hio as (Hi&<-&<-&<-&<-&<-). simpl.
  eapply wp_mono; [by apply bread_spec|]. intros b i' (?&Ev&Ed&Et&Ex&Hb&Eh). apply HQ; [by split_and!|done|].
  rewrite <- Ev. symmetry. apply list_lookup_total_correct, bio_held_data; [done|].
  rewrite Eh. apply lookup_insert_eq.
Qed.

Lemma wp_io_set_bdata b n d Q :
  H !! b = Some n → block d →
  (∀ i', io_is i' (<[Z.to_nat n := d]> v) D t X H → Q tt (LogSt l i' wk)) →
  wp (io (set_bdata b d)) Q (LogSt l i wk).
Proof using Hio.
  intros Hb Hd HQ. apply wp_zoom. destruct Hio as (Hi&<-&<-&<-&<-&<-).
  eapply wp_mono; [by apply (set_bdata_spec _ _ n)|]. intros [] i' (?&?&?&?&?&?). apply HQ. by split_and!.
Qed.

Lemma wp_io_mark_dirty b n Q :
  H !! b = Some n →
  (∀ i', io_is i' v D t ({[n]} ∪ X) H → Q tt (LogSt l i' wk)) →
  wp (io (mark_dirty b)) Q (LogSt l i wk).
Proof using Hio.
  intros Hb HQ. apply wp_zoom. destruct Hio as (Hi&<-&<-&<-&<-&<-).
  eapply wp_mono; [by apply (mark_dirty_spec _ _ n)|]. intros [] i' (?&?&?&?&?&?). apply HQ. by split_and!.
Qed.

Lemma wp_io_bwrite b n Q :
  H !! b = Some n →
  (∀ i', io_is i' v (<[Z.to_nat n := v !!! Z.to_nat n]> D) (t ++ [(n, v !!! Z.to_nat n)])
           (X ∖ {[n]}) H → Q tt (LogSt l i' wk)) →
  wp (io (bwrite b)) Q (LogSt l i wk).
Proof using Hio.
  intros Hb HQ. apply wp_zoom. pose proof (io_is_data b n Hb) as Hd.
  destruct Hio as (Hi&<-&<-&<-&<-&<-).
  eapply wp_mono; [by apply (bwrite_spec _ _ n)|]. intros [] i' (?&?&E1&E2&?&?).
  simpl in E1, E2. rewrite Hd in E1, E2. apply HQ. by split_and!.
Qed.

Lemma wp_io_brelse b n Q :
  H !! b = Some n → n ∈ X ∨ D !! Z.to_nat n = v !! Z.to_nat n →
  (∀ i', io_is i' v D t X (delete b H) → Q tt (LogSt l i' wk)) →
  wp (io (brelse b)) Q (LogSt l i wk).
Proof using Hio.
  intros Hb Hc HQ. apply wp_zoom. destruct Hio as (Hi&<-&<-&<-&<-&<-).
  eapply wp_mono; [by apply (brelse_spec _ _ n)|]. intros [] i' (?&?&?&?&?&?). apply HQ. by split_and!.
Qed.
End Io.

(** * The code performs the writes of LogDisk.v *)

(** The in-memory log describes the transaction [bs]. *)
Record log_is (start size : Z) (l : log) (bs : list Z) : Prop := {
  li_dev : lg_dev l = ROOTDEV;
  li_start : lg_start l = start;
  li_size : lg_size l = size;
  li_n : lg_n l = Z.of_nat (length bs);
  li_blocks : take (length bs) (lg_block l) = bs;
  li_len : length (lg_block l) = Z.to_nat LOGSIZE;
}.

Lemma held_none {A} (b1 b2 : nat) (x y : A) :
  <[b1 := y]> (∅ : gmap nat A) !! b2 = None →
  delete b2 (delete b1 (<[b2 := x]> (<[b1 := y]> (∅ : gmap nat A)))) = ∅ ∧
  delete b1 (delete b2 (<[b2 := x]> (<[b1 := y]> (∅ : gmap nat A)))) = ∅.
Proof.
  intros Hn. assert (b1 ≠ b2) by (intros ->; by rewrite lookup_insert_eq in Hn).
  split.
  - by rewrite (delete_insert_ne _ b1), delete_insert_eq, delete_insert_eq, !delete_empty.
  - by rewrite delete_insert_id, delete_insert_eq, delete_empty by done.
Qed.

Section Steps.
Context {St : Type} `{!BlockIO St, !BlockIOSpec St}.
Context (start lsize : Z) (l : log) (bs : list Z) (Hl : log_is start lsize l bs).
Context (D0 : list (list Z)) (Hd0 : disk_ok start lsize D0) (Hlog : log_ok start lsize D0 bs).
Implicit Types (i : St) (wk : nat) (v D : list (list Z)) (t : list (Z * list Z)) (X : gset Z).

Lemma wp_get_block j b Q i wk :
  bs !! j = Some b → Q b (LogSt l i wk) → wp (get_block j) Q (LogSt l i wk).
Proof using Hl.
  intros Hb HQ. unfold get_block. apply wp_bind, wp_gets. simpl.
  apply (wp_the _ _ b); [|done]. rewrite <- (li_blocks _ _ _ _ Hl) in Hb.
  by apply lookup_take_Some in Hb as [? _].
Qed.

(** The block numbers of a step of the loops over the transaction. *)
Lemma step_facts j b :
  bs !! j = Some b →
  let n := start + 1 + Z.of_nat j in
  u32 (lg_start l + Z.of_nat j + 1) = n ∧ u32 b = b ∧ u32 (lg_dev l) = ROOTDEV ∧
  0 ≤ n < Z.of_nat (length D0) ∧ 0 ≤ b < Z.of_nat (length D0) ∧ n ≠ b ∧ in_log start lsize n.
Proof using Hl Hd0 Hlog.
  intros Hb n. pose proof (do_range _ _ _ Hd0). pose proof (do_len _ _ _ Hd0).
  destruct Hlog as [Hc _ Hh]. pose proof (lookup_lt_Some _ _ _ Hb).
  destruct (Forall_lookup_1 _ _ _ _ Hh Hb) as (?&_&Hnot).
  rewrite (li_start _ _ _ _ Hl), (li_dev _ _ _ _ Hl).
  unfold in_log in *. split_and!; [|apply wrap_small; lia|done|subst n; lia..].
  rewrite wrap_small; subst n; lia.
Qed.

Lemma write_log_step i wk v D t X j b tails Q :
  io_is i v D t X ∅ → length D = length D0 → bs !! j = Some b → b ∈ X →
  (size X < NBUF)%nat → start + 1 + Z.of_nat j ∉ X →
  (∀ i', let n := start + 1 + Z.of_nat j in let d := v !!! Z.to_nat b in
     io_is i' (<[Z.to_nat n := d]> v) (<[Z.to_nat n := d]> D) (t ++ [(n, d)]) X ∅ →
     wp (write_log_loop tails) Q (LogSt l i' wk)) →
  wp (write_log_loop (j :: tails)) Q (LogSt l i wk).
Proof using Hl Hd0 Hlog.
  intros Hio HlD Hb HbX Hsz HnX HQ.
  destruct (step_facts j b Hb) as (En&Eb&Ed&Hn&Hbr&Hne&_). set (n := start + 1 + Z.of_nat j) in *.
  pose proof (io_is_length _ _ _ _ _ _ Hio) as Hlv.
  pose proof (io_is_view_blocks _ _ _ _ _ _ Hio) as Hvb.
  simpl. apply wp_bind, wp_gets. simpl. rewrite En, Ed. apply wp_bind.
  eapply (wp_io_bread _ _ _ _ _ _ _ _ Hio);
    [lia|set_solver|right; by rewrite map_img_empty_L, union_empty_r_L|].
  intros to i1 Hio1 _ _. apply wp_bind. eapply wp_get_block; [done|]. rewrite Eb. apply wp_bind.
  eapply (wp_io_bread _ _ _ _ _ _ _ _ Hio1); [lia| |by left|].
  { intros c. rewrite lookup_insert_Some, lookup_empty. naive_solver. }
  intros from i2 Hio2 Hfr Hdata. apply wp_bind, wp_gets. simpl. rewrite Hdata.
  assert (to ≠ from) by (intros ->; by rewrite lookup_insert_eq in Hfr).
  assert (<[from := b]> (<[to := n]> (∅ : gmap nat Z)) !! to = Some n) as Hto
    by by rewrite lookup_insert_ne, lookup_insert_eq by done.
  apply wp_bind. eapply (wp_io_set_bdata _ _ _ _ _ _ _ _ Hio2 to n); [done| |].
  { apply Forall_lookup_total_1; [done|lia]. }
  intros i3 Hio3. apply wp_bind. eapply (wp_io_bwrite _ _ _ _ _ _ _ _ Hio3 to n); [done|].
  rewrite list_lookup_total_insert_eq by lia. intros i4 Hio4.
  rewrite difference_disjoint_L in Hio4 by set_solver.
  apply wp_bind. eapply (wp_io_brelse _ _ _ _ _ _ _ _ Hio4 from b);
    [apply lookup_insert_eq|by left|].
  intros i5 Hio5. apply wp_bind. eapply (wp_io_brelse _ _ _ _ _ _ _ _ Hio5 to n).
  { by rewrite lookup_delete_ne. }
  { right. rewrite !list_lookup_insert_eq by lia. done. }
  intros i6 Hio6. apply HQ. by rewrite (proj2 (held_none to from b n Hfr)) in Hio6.
Qed.

Lemma install_step i wk v D t X j b tails Q :
  io_is i v D t X ∅ → length D = length D0 → bs !! j = Some b → b ∈ X ∨ X = ∅ →
  (size X < NBUF)%nat → start + 1 + Z.of_nat j ∉ X →
  D !! Z.to_nat (start + 1 + Z.of_nat j) = v !! Z.to_nat (start + 1 + Z.of_nat j) →
  (∀ i', let d := v !!! Z.to_nat (start + 1 + Z.of_nat j) in
     io_is i' (<[Z.to_nat b := d]> v) (<[Z.to_nat b := d]> D) (t ++ [(b, d)]) (X ∖ {[b]}) ∅ →
     wp (install_loop tails) Q (LogSt l i' wk)) →
  wp (install_loop (j :: tails)) Q (LogSt l i wk).
Proof using Hl Hd0 Hlog.
  intros Hio HlD Hb HbX Hsz HnX Hcl HQ.
  destruct (step_facts j b Hb) as (En&Eb&Ed&Hn&Hbr&Hne&_). set (n := start + 1 + Z.of_nat j) in *.
  pose proof (io_is_length _ _ _ _ _ _ Hio) as Hlv.
  pose proof (io_is_view_blocks _ _ _ _ _ _ Hio) as Hvb.
  simpl. apply wp_bind, wp_gets. simpl. rewrite En, Ed. apply wp_bind.
  eapply (wp_io_bread _ _ _ _ _ _ _ _ Hio);
    [lia|set_solver|right; by rewrite map_img_empty_L, union_empty_r_L|].
  intros lb i1 Hio1 _ _. apply wp_bind. eapply wp_get_block; [done|]. rewrite Eb. apply wp_bind.
  eapply (wp_io_bread _ _ _ _ _ _ _ _ Hio1); [lia| | |].
  { intros c. rewrite lookup_insert_Some, lookup_empty. naive_solver. }
  { destruct HbX as [?| ->]; [by left|right].
    rewrite map_img_insert_notin_L, map_img_empty_L by apply lookup_empty.
    rewrite union_empty_l_L, union_empty_r_L, size_singleton, NBUF_eq. lia. }
  intros db i2 Hio2 Hfr _. apply wp_bind, wp_gets. simpl.
  assert (lb ≠ db) by (intros ->; by rewrite lookup_insert_eq in Hfr).
  assert (<[db := b]> (<[lb := n]> (∅ : gmap nat Z)) !! lb = Some n) as Hlb
    by by rewrite lookup_insert_ne, lookup_insert_eq by done.
  assert (<[db := b]> (<[lb := n]> (∅ : gmap nat Z)) !! db = Some b) as Hdb
    by apply lookup_insert_eq.
  rewrite (io_is_data _ _ _ _ _ _ Hio2 lb n Hlb).
  apply wp_bind. eapply (wp_io_set_bdata _ _ _ _ _ _ _ _ Hio2 db b); [done| |].
  { apply Forall_lookup_total_1; [done|lia]. }
  intros i3 Hio3. apply wp_bind. eapply (wp_io_bwrite _ _ _ _ _ _ _ _ Hio3 db b); [done|].
  rewrite list_lookup_total_insert_eq by lia. intros i4 Hio4.
  apply wp_bind. eapply (wp_io_brelse _ _ _ _ _ _ _ _ Hio4 lb n); [done| |].
  { right. rewrite !list_lookup_insert_ne by lia. done. }
  intros i5 Hio5. apply wp_bind. eapply (wp_io_brelse _ _ _ _ _ _ _ _ Hio5 db b).
  { by rewrite lookup_delete_ne. }
  { right. rewrite !list_lookup_insert_eq by lia. done. }
  intros i6 Hio6. apply HQ. by rewrite (proj1 (held_none lb db b n Hfr)) in Hio6.
Qed.

(** write_log copies the transaction into the log. *)
Lemma write_log_run i wk v D t X Q :
  io_is i v D t X ∅ → length D = length D0 → (∀ b, b ∈ bs → b ∈ X) →
  (size X < NBUF)%nat → (∀ n, n ∈ X → ¬ in_log start lsize n) →
  (∀ i', let w := log_writes start v bs in
     io_is i' (apply_writes w v) (apply_writes w D) (t ++ w) X ∅ → Q tt (LogSt l i' wk)) →
  wp write_log Q (LogSt l i wk).
Proof using Hl Hd0 Hlog.
  intros Hio HlD HbX Hsz HnX HQ. unfold write_log. apply wp_bind, wp_gets. simpl.
  rewrite (li_n _ _ _ _ Hl), Nat2Z.id. set (w := log_writes start v bs) in *.
  assert (length w = length bs) as Hlw.
  { unfold w, log_writes. rewrite length_zip_with, !length_fmap, length_seq. lia. }
  assert (∀ m j i, (j + m)%nat = length bs →
    io_is i (apply_writes (take j w) v) (apply_writes (take j w) D) (t ++ take j w) X ∅ →
    wp (write_log_loop (seq j m)) Q (LogSt l i wk)) as Hgen.
  2:{ apply Hgen; [done|]. simpl. by rewrite app_nil_r. }
  clear i Hio. induction m as [|m IH]; intros j i Hj Hio.
  { simpl. apply wp_ret, HQ. by rewrite take_ge in Hio by lia. }
  destruct (lookup_lt_is_Some_2 bs j) as [b Hb]; [lia|].
  destruct (step_facts j b Hb) as (_&_&_&Hn&Hbr&Hne&Hin).
  simpl seq. eapply write_log_step; [exact Hio|by rewrite length_apply_writes|done| |done| |].
  { apply HbX. by eapply list_elem_of_lookup_2. }
  { intros Hx. by apply (HnX _ Hx). }
  intros i' n d Hio'. apply IH; [lia|].
  assert (w !! j = Some (n, v !!! Z.to_nat b)) as Hwj.
  { apply log_writes_lookup. by exists b. }
  assert (d = v !!! Z.to_nat b) as Ed.
  { unfold d. rewrite !list_lookup_total_alt, apply_writes_other; [done|].
    intros x (k&Hk)%list_elem_of_lookup E. apply lookup_take_Some in Hk as [Hk _].
    apply log_writes_lookup in Hk as (c&Hc&->). simpl in E.
    destruct (step_facts k c Hc) as (_&_&_&?&_&_&Hin').
    destruct Hlog as [_ _ Hh]. destruct (Forall_lookup_1 _ _ _ _ Hh Hb) as (?&_&Hnot).
    apply Hnot. unfold in_log in *. lia. }
  rewrite Ed in Hio'. rewrite (take_S_r _ _ _ Hwj), !apply_writes_app, app_assoc. exact Hio'.
Qed.

(** The log blocks as the transaction's home writes. *)
Definition install_writes v : list (Z * list Z) :=
  zip bs (log_block start v <$> seq 0 (length bs)).

Lemma install_writes_lookup v j b :
  bs !! j = Some b →
  install_writes v !! j = Some (b, v !!! Z.to_nat (start + 1 + Z.of_nat j)).
Proof using.
  intros Hb. unfold install_writes. rewrite lookup_zip_with, Hb. simpl.
  by rewrite list_lookup_fmap, lookup_seq_lt by by eapply lookup_lt_Some.
Qed.

Lemma install_writes_other v d j n :
  length d = length D0 → in_log start lsize n →
  apply_writes (take j (install_writes v)) d !! Z.to_nat n = d !! Z.to_nat n.
Proof using Hd0 Hlog.
  intros Hlen Hn. unfold install_writes. rewrite zip_with_take.
  eapply home_writes_log; [|done|pose proof (do_range _ _ _ Hd0); lia].
  rewrite Hlen. apply Forall_take, Hlog.
Qed.

(** install_trans copies the log to the home blocks. *)
Lemma install_run i wk v D t X Q :
  io_is i v D t X ∅ → length D = length D0 → (∀ b, b ∈ bs → b ∈ X) ∨ X = ∅ →
  (size X < NBUF)%nat → (∀ n, n ∈ X → ¬ in_log start lsize n) →
  (∀ j, (j < length bs)%nat → D !! Z.to_nat (start + 1 + Z.of_nat j) = v !! Z.to_nat (start + 1 + Z.of_nat j)) →
  (∀ i', let w := install_writes v in
     io_is i' (apply_writes w v) (apply_writes w D) (t ++ w) (X ∖ list_to_set bs) ∅ →
     Q tt (LogSt l i' wk)) →
  wp install_trans Q (LogSt l i wk).
Proof using Hl Hd0 Hlog.
  intros Hio HlD HbX Hsz HnX Hcl HQ. unfold install_trans. apply wp_bind, wp_gets. simpl.
  rewrite (li_n _ _ _ _ Hl), Nat2Z.id. set (w := install_writes v) in *.
  pose proof (io_is_length _ _ _ _ _ _ Hio) as Hlv.
  assert (length w = length bs) as Hlw.
  { unfold w, install_writes. rewrite length_zip_with, length_fmap, length_seq. lia. }
  assert (∀ m j i, (j + m)%nat = length bs →
    io_is i (apply_writes (take j w) v) (apply_writes (take j w) D) (t ++ take j w)
      (X ∖ list_to_set (take j bs)) ∅ →
    wp (install_loop (seq j m)) Q (LogSt l i wk)) as Hgen.
  2:{ apply Hgen; [done|]. simpl. by rewrite app_nil_r, difference_empty_L. }
  clear i Hio. induction m as [|m IH]; intros j i Hj Hio.
  { simpl. apply wp_ret, HQ. by rewrite !take_ge in Hio by lia. }
  destruct (lookup_lt_is_Some_2 bs j) as [b Hb]; [lia|].
  destruct (step_facts j b Hb) as (_&_&_&Hn&Hbr&Hne&Hin).
  simpl seq. eapply install_step; [exact Hio|by rewrite length_apply_writes|done| | | | |].
  { destruct HbX as [HbX| ->]; [left|right; set_solver].
    apply elem_of_difference. split; [by eapply HbX, list_elem_of_lookup_2|].
    rewrite elem_of_list_to_set. intros (k&Hk)%list_elem_of_lookup.
    apply lookup_take_Some in Hk as [Hk ?]. pose proof (NoDup_lookup _ _ _ _ (lo_nodup _ _ _ _ Hlog) Hk Hb). lia. }
  { eapply Nat.le_lt_trans; [apply subseteq_size|exact Hsz]. set_solver. }
  { intros [Hx _]%elem_of_difference. by apply (HnX _ Hx). }
  { unfold w. rewrite !install_writes_other by (done || lia). apply Hcl. lia. }
  intros i' d Hio'. apply IH; [lia|].
  pose proof (install_writes_lookup v j b Hb) as Hwj. fold w in Hwj.
  assert (d = v !!! Z.to_nat (start + 1 + Z.of_nat j)) as Ed.
  { unfold d, w. rewrite !list_lookup_total_alt, install_writes_other by (done || lia). done. }
  rewrite Ed in Hio'. rewrite (take_S_r _ _ _ Hwj), (take_S_r _ _ _ Hb), !apply_writes_app, app_assoc.
  replace (X ∖ list_to_set (take j bs ++ [b])) with (X ∖ list_to_set (take j bs) ∖ {[b]})
    by (clear; set_solver).
  exact Hio'.
Qed.

Lemma write_head_loop_run buf m j i wk v D t X H Q :
  io_is i v D t X H → length D = length D0 → H !! buf = Some start → (j + m)%nat = length bs →
  (∀ i', io_is i' (<[Z.to_nat start := put_u32s (4 + 4 * j) (drop j bs) (v !!! Z.to_nat start)]> v)
           D t X H → Q tt (LogSt l i' wk)) →
  wp (write_head_loop buf (seq j m)) Q (LogSt l i wk).
Proof using Hl Hd0 Hlog.
  intros Hio HlD Hbuf. pose proof (do_range _ _ _ Hd0) as Hr.
  pose proof (lo_count _ _ _ _ Hlog) as Hc.
  revert j i v Hio. induction m as [|m IH]; intros j i v Hio Hj HQ;
    pose proof (io_is_length _ _ _ _ _ _ Hio) as Hlv.
  { simpl. apply wp_ret, HQ. rewrite drop_ge by lia. simpl.
    rewrite list_insert_id; [done|]. apply list_lookup_lookup_total_lt. lia. }
  destruct (lookup_lt_is_Some_2 bs j) as [b Hb]; [lia|]. simpl seq. cbn [write_head_loop].
  apply wp_bind. eapply wp_get_block; [done|]. apply wp_bind, wp_gets. cbn [ls_io].
  rewrite (io_is_data _ _ _ _ _ _ Hio buf start Hbuf).
  apply wp_bind. eapply (wp_io_set_bdata _ _ _ _ _ _ _ _ Hio buf start); [done| |].
  { apply put_le_block; [|unfold LOGSIZE, MAXOPBLOCKS, BSIZE in *; lia].
    apply Forall_lookup_total_1; [by eapply io_is_view_blocks|lia]. }
  intros i1 Hio1. eapply IH; [exact Hio1|lia|]. intros i2 Hio2. apply HQ.
  rewrite (drop_S _ _ _ Hb). rewrite list_lookup_total_insert_eq, list_insert_insert_eq in Hio2 by lia.
  replace (4 + 4 * S j)%nat with (4 + 4 * j + 4)%nat in Hio2 by lia. exact Hio2.
Qed.

(** write_head writes the header of the transaction. *)
Lemma write_head_run i wk v D t X Q :
  io_is i v D t X ∅ → length D = length D0 → (size X < NBUF)%nat → start ∉ X →
  (∀ i', let h := fill_hdr bs (header start v) in
     io_is i' (<[Z.to_nat start := h]> v) (<[Z.to_nat start := h]> D) (t ++ [(start, h)]) X ∅ →
     Q tt (LogSt l i' wk)) →
  wp write_head Q (LogSt l i wk).
Proof using Hl Hd0 Hlog.
  intros Hio HlD Hsz Hst HQ. pose proof (do_range _ _ _ Hd0) as Hr. pose proof (do_len _ _ _ Hd0).
  pose proof (io_is_length _ _ _ _ _ _ Hio) as Hlv.
  pose proof (io_is_view_blocks _ _ _ _ _ _ Hio) as Hvb.
  pose proof (lo_count _ _ _ _ Hlog) as Hc.
  assert (block (header start v)) as Hhb by (unfold header; apply Forall_lookup_total_1; [done|lia]).
  unfold write_head. apply wp_bind, wp_gets. simpl.
  rewrite (li_dev _ _ _ _ Hl), (li_start _ _ _ _ Hl), (li_n _ _ _ _ Hl), Nat2Z.id.
  change (u32 ROOTDEV) with ROOTDEV. rewrite (wrap_small 32 start) by lia. apply wp_bind.
  eapply (wp_io_bread _ _ _ _ _ _ _ _ Hio);
    [lia|set_solver|right; by rewrite map_img_empty_L, union_empty_r_L|].
  intros buf i1 Hio1 _ Hdata. apply wp_bind, wp_gets. simpl. rewrite Hdata.
  assert (<[buf := start]> (∅ : gmap nat Z) !! buf = Some start) as Hbuf by apply lookup_insert_eq.
  assert (block (put_u32 0 (Z.of_nat (length bs)) (header start v))) as Hblk
    by by apply put_le_block.
  apply wp_bind. eapply (wp_io_set_bdata _ _ _ _ _ _ _ _ Hio1 buf start); [done..|].
  intros i2 Hio2. apply wp_bind. eapply write_head_loop_run; [exact Hio2|done..|].
  rewrite list_lookup_total_insert_eq, list_insert_insert_eq by lia. intros i3 Hio3.
  fold (fill_hdr bs (header start v)) in Hio3.
  apply wp_bind. eapply (wp_io_bwrite _ _ _ _ _ _ _ _ Hio3 buf start); [done|].
  rewrite list_lookup_total_insert_eq by lia. intros i4 Hio4.
  rewrite difference_disjoint_L in Hio4 by set_solver.
  eapply (wp_io_brelse _ _ _ _ _ _ _ _ Hio4 buf start); [done| |].
  { right. by rewrite !list_lookup_insert_eq by lia. }
  intros i5 Hio5. apply HQ. by rewrite delete_insert_id in Hio5 by apply lookup_empty.
Qed.
End Steps.

Section Commit.
Context {St : Type} `{!BlockIO St, !BlockIOSpec St}.
Context (start lsize : Z).
Implicit Types (i : St) (l : log) (bs : list Z) (v D : list (list Z)) (X : gset Z).

(** The state between two transactions or inside one: the blocks that log_write
    recorded are exactly those that differ from the disk, and the log on
    disk is empty. *)
Record txn_ok (l : log) (i : St) (bs : list Z) : Prop := {
  tx_log : log_is start lsize l bs;
  tx_io : bio_inv i;
  tx_disk : disk_ok start lsize (bdisk i);
  tx_empty : hdr_n (header start (bdisk i)) = 0;
  tx_bs : log_ok start lsize (bdisk i) bs;
  tx_dirty : bdirty i = list_to_set bs;
}.

Lemma txn_clean l i bs k :
  txn_ok l i bs → bheld i = ∅ → Z.of_nat k ∉ bs → bdisk i !! k = bview i !! k.
Proof.
  intros Htx Hh Hk. destruct (decide (k < length (bdisk i))%nat) as [Hlt|Hge].
  - rewrite <- (Nat2Z.id k). apply bio_clean; [apply Htx|lia| |].
    + by rewrite (tx_dirty _ _ _ Htx), elem_of_list_to_set.
    + intros b. by rewrite Hh, lookup_empty.
  - rewrite !lookup_ge_None_2; [done| |lia]. rewrite bio_view_length by apply Htx. lia.
Qed.

Lemma io_is_clean i v D t : io_is i v D t ∅ ∅ → v = D.
Proof.
  intros (Hi&<-&<-&_&Hx&Hh). apply list_eq. intros k.
  destruct (decide (k < length (bdisk i))%nat) as [Hlt|Hge].
  - rewrite <- (Nat2Z.id k). symmetry. apply bio_clean; [done|lia|by rewrite Hx|].
    intros b. by rewrite Hh, lookup_empty.
  - rewrite !lookup_ge_None_2; [done|lia|]. rewrite bio_view_length by done. lia.
Qed.

(** The view inside a transaction has the same geometry as the disk. *)
Lemma txn_view l i bs :
  txn_ok l i bs → bheld i = ∅ →
  disk_ok start lsize (bview i) ∧ log_ok start lsize (bview i) bs ∧
  header start (bview i) = header start (bdisk i) ∧ length (bview i) = length (bdisk i) ∧
  Forall block (bview i).
Proof.
  intros Htx Hh. pose proof (txn_clean l i bs) as Hcl. pose proof (tx_disk _ _ _ Htx) as Hd.
  pose proof (do_range _ _ _ Hd) as Hr.
  pose proof (bio_view_length i (tx_io _ _ _ Htx)) as Hlen.
  pose proof (bio_view_blocks i (tx_io _ _ _ Htx)) as Hvb.
  destruct (tx_bs _ _ _ Htx) as [Hc Hnd Hhome]. pose proof Hhome as Hhome'.
  rewrite list.Forall_forall in Hhome'.
  assert (bview i !!! 1%nat = bdisk i !!! 1%nat) as E1.
  { rewrite !list_lookup_total_alt, Hcl; [done..|]. intros Hx. by apply Hhome' in Hx as (_&?&_). }
  assert (header start (bview i) = header start (bdisk i)) as Eh.
  { unfold header. rewrite !list_lookup_total_alt, Hcl; [done..|]. intros Hx.
    apply Hhome' in Hx as (_&_&Hnot). apply Hnot. unfold in_log. lia. }
  split_and!; try done.
  - destruct Hd. split; rewrite ?Hlen, ?E1; done.
  - split; [done..|]. by rewrite Hlen.
Qed.

Lemma txn_budget l i bs :
  txn_ok l i bs → (size (list_to_set bs : gset Z) < NBUF)%nat ∧
    ∀ n, n ∈ (list_to_set bs : gset Z) → ¬ in_log start lsize n.
Proof.
  intros Htx. pose proof (do_range _ _ _ (tx_disk _ _ _ Htx)) as Hr.
  destruct (tx_bs _ _ _ Htx) as [Hc Hnd Hh]. split.
  - rewrite size_list_to_set by done. rewrite NBUF_eq.
    unfold LOGSIZE, MAXOPBLOCKS in *. lia.
  - intros n Hn%elem_of_list_to_set. rewrite list.Forall_forall in Hh. by apply Hh.
Qed.

(** What write_log and write_head leave for install_trans. *)
Lemma txn_logged l i bs h :
  txn_ok l i bs → bheld i = ∅ →
  let w := log_writes start (bview i) bs in
  let v := <[Z.to_nat start := h]> (apply_writes w (bview i)) in
  install_writes start bs v = home_writes (bview i) bs ∧
  header start v = h ∧
  header start (apply_writes w (bview i)) = header start (bdisk i) ∧
  ∀ j, (j < length bs)%nat →
    let n := Z.to_nat (start + 1 + Z.of_nat j) in
    <[Z.to_nat start := h]> (apply_writes w (bdisk i)) !! n = v !! n.
Proof.
  intros Htx Hh w v. destruct (txn_view l i bs Htx Hh) as (Hdv&Hlv&Ehv&Hlen&Hvb).
  pose proof (tx_disk _ _ _ Htx) as Hd. pose proof (do_range _ _ _ Hd) as Hr.
  pose proof (log_writes_in_log start lsize _ _ _ Hdv Hvb eq_refl Hlv) as Hw.
  assert (v = apply_writes (w ++ [(start, h)]) (bview i)) as Ev by by rewrite apply_writes_app.
  split_and!.
  - unfold install_writes, home_writes. f_equal. apply list_eq. intros j.
    rewrite !list_lookup_fmap. destruct (bs !! j) as [b|] eqn:Hb.
    + rewrite lookup_seq_lt by by eapply lookup_lt_Some. simpl. f_equal.
      rewrite Ev. by apply (logged_block start lsize _ _ _ Hdv Hlv).
    + by rewrite lookup_seq_ge by by apply lookup_ge_None_1.
  - unfold header, v. apply list_lookup_total_insert_eq. rewrite length_apply_writes. lia.
  - rewrite <- Ehv. unfold header. rewrite !list_lookup_total_alt, apply_writes_other; [done|].
    rewrite list.Forall_forall in Hw. intros x (Hin&_&_&?)%Hw E. unfold in_log in *. lia.
  - intros j Hj n. pose proof (lo_count _ _ _ _ Hlv).
    change (<[_ := _]> (apply_writes w (bdisk i))) with (apply_writes [(start, h)] (apply_writes w (bdisk i))).
    rewrite <- apply_writes_app, Ev. apply apply_writes_lookup_eq; [done|].
    apply (txn_clean l i bs); [done..|]. destruct (tx_bs _ _ _ Htx) as [_ _ Hhome].
    rewrite list.Forall_forall in Hhome. intros (_&_&Hnot)%Hhome. apply Hnot. unfold in_log. lia.
Qed.

(** commit performs the writes of a commit and empties the log. *)
Lemma commit_run l i wk bs Q :
  txn_ok l i bs → bheld i = ∅ → bs ≠ [] →
  (∀ i', let w := commit_writes start (bview i) bs (header start (bdisk i)) in
     let d := apply_writes w (bdisk i) in
     io_is i' d d (btrace i ++ w) ∅ ∅ → Q tt (LogSt (set_lg_n 0 l) i' wk)) →
  wp commit Q (LogSt l i wk).
Proof.
  intros Htx Hh Hne HQ. destruct (txn_view l i bs Htx Hh) as (Hdv&Hlv&Ehv&Hlen&Hvb).
  destruct (txn_budget l i bs Htx) as [Hsz HX].
  pose proof (tx_log _ _ _ Htx) as Hl. pose proof (tx_disk _ _ _ Htx) as Hd.
  pose proof (tx_bs _ _ _ Htx) as Hbs. pose proof (do_range _ _ _ Hd) as Hr.
  assert (start ∉ (list_to_set bs : gset Z)) as Hst.
  { intros Hx. apply (HX _ Hx). unfold in_log. lia. }
  unfold commit. apply wp_bind, wp_gets. simpl. rewrite (li_n _ _ _ _ Hl).
  assert (0 <? Z.of_nat (length bs) = true) as ->.
  { apply Z.ltb_lt. destruct bs; [done|simpl; lia]. }
  assert (io_is i (bview i) (bdisk i) (btrace i) (list_to_set bs) ∅) as Hio.
  { split_and!; try done; apply Htx. }
  apply wp_bind. eapply (write_log_run start lsize l bs Hl _ Hd Hbs); [exact Hio|done|set_solver|done..|].
  intros i1 w Hio1. apply wp_bind.
  eapply (write_head_run start lsize l bs Hl _ Hd Hbs); [exact Hio1|apply length_apply_writes|done..|].
  intros i2 h Hio2. apply wp_bind.
  destruct (txn_logged l i bs h Htx Hh) as (Ein&Eh&Eh1&Hcl). fold w in Ein, Eh, Eh1, Hcl.
  eapply (install_run start lsize l bs Hl _ Hd Hbs);
    [exact Hio2|by rewrite length_insert, length_apply_writes|set_solver|done..|].
  intros i3 w' Hio3. apply wp_bind, wp_modify. simpl.
  rewrite difference_diag_L in Hio3.
  eapply (write_head_run start lsize (set_lg_n 0 l) []); [by destruct Hl|exact Hd| |exact Hio3|..].
  { split; simpl; [lia|constructor..]. }
  { by rewrite length_apply_writes, length_insert, length_apply_writes. }
  { rewrite size_empty, NBUF_eq. lia. }
  { set_solver. }
  intros i4 h' Hio4. apply HQ.
  assert (header start (apply_writes w' (<[Z.to_nat start := h]> (apply_writes w (bview i)))) = h) as Eh'.
  { rewrite <- Eh at 2. unfold header at 1. unfold w'. rewrite list_lookup_total_alt.
    rewrite <- (firstn_all (install_writes _ _ _)).
    rewrite (install_writes_other start lsize bs _ Hd Hbs), <- list_lookup_total_alt; [done| |].
    - by rewrite length_insert, length_apply_writes.
    - unfold in_log. lia. }
  unfold h' in Hio4. rewrite Eh' in Hio4. unfold w' in Hio4. rewrite Ein in Hio4.
  assert (h = fill_hdr bs (header start (bdisk i))) as Ehh by (unfold h; by rewrite Eh1).
  rewrite Ehh in Hio4. cbv zeta. unfold commit_writes. rewrite !apply_writes_app. fold w. simpl.
  pose proof (io_is_clean _ _ _ _ Hio4) as E. rewrite <- !app_assoc in Hio4.
  rewrite E in Hio4. exact Hio4.
Qed.
End Commit.

Section Recovery.
Context {St : Type} `{!BlockIO St, !BlockIOSpec St}.
Implicit Types (i : St) (l : log) (bs : list Z) (D : list (list Z)).

(** The fields of [l] that recovery does not touch. *)
Definition same_ops l l' : Prop :=
  lg_lock l' = lg_lock l ∧ lg_outstanding l' = lg_outstanding l ∧
  lg_committing l' = lg_committing l.

Lemma read_head_loop_run hdr m j l i wk (bs : list Z) Q :
  length (lg_block l) = Z.to_nat LOGSIZE → (j + m)%nat = length bs →
  Z.of_nat (length bs) ≤ LOGSIZE →
  (∀ k b, bs !! k = Some b → s32 (get_u32 (4 + 4 * k) hdr) = b) →
  take j (lg_block l) = take j bs →
  (∀ l', length (lg_block l') = Z.to_nat LOGSIZE → take (length bs) (lg_block l') = bs →
     l' = set_lg_block (lg_block l') l → Q tt (LogSt l' i wk)) →
  wp (read_head_loop hdr (seq j m)) Q (LogSt (St := St) l i wk).
Proof.
  intros Hlen Hj Hmax Hh. revert j l Hlen Hj. induction m as [|m IH]; intros j l Hlen Hj Hpre HQ.
  { simpl. apply wp_ret, HQ; [done| |by destruct l]. rewrite <- (take_ge bs j) by lia.
    rewrite <- Hpre, length_take. f_equal. unfold LOGSIZE, MAXOPBLOCKS in *. lia. }
  destruct (lookup_lt_is_Some_2 bs j) as [b Hb]; [lia|].
  simpl seq. cbn [read_head_loop]. apply wp_bind. unfold set_block. apply wp_bind, wp_gets. cbn [ls_log].
  rewrite decide_True by lia. apply wp_modify. cbn [ls_log ls_io ls_wakes].
  rewrite (Hh j b Hb). apply IH; [simpl; by rewrite length_insert|lia| |].
  - simpl. rewrite (take_S_r _ _ b).
    + rewrite take_insert_ge by done. rewrite (take_S_r bs _ b Hb). by rewrite Hpre.
    + apply list_lookup_insert_eq. lia.
  - intros l' Hl' Ht' El'. apply HQ; [done..|]. by rewrite El' at 1.
Qed.

Lemma read_head_run start lsize l i wk D t Q :
  lg_dev l = ROOTDEV → lg_start l = start → lg_size l = lsize →
  length (lg_block l) = Z.to_nat LOGSIZE →
  io_is i D D t ∅ ∅ → recoverable start lsize D →
  (∀ l' i', log_is start lsize l' (hdr_blocks (header start D)) → same_ops l l' →
     io_is i' D D t ∅ ∅ → Q tt (LogSt l' i' wk)) →
  wp read_head Q (LogSt l i wk).
Proof.
  intros Hdev Hst Hsz Hlen Hio (Hd&Hn&[Hc Hnd Hhome]) HQ.
  pose proof (do_range _ _ _ Hd) as Hr. pose proof (do_len _ _ _ Hd).
  set (h := header start D) in *.
  assert (length (hdr_blocks h) = Z.to_nat (hdr_n h)) as Hlb.
  { unfold hdr_blocks. by rewrite length_fmap, length_seq. }
  unfold read_head. apply wp_bind, wp_gets. simpl. rewrite Hdev, Hst.
  change (u32 ROOTDEV) with ROOTDEV. rewrite (wrap_small 32 start) by lia. apply wp_bind.
  eapply (wp_io_bread _ _ _ _ _ _ _ _ Hio); [lia|set_solver|right|].
  { rewrite map_img_empty_L, union_empty_r_L, size_empty, NBUF_eq. lia. }
  intros buf i1 Hio1 _ Hdata. apply wp_bind, wp_gets. simpl. rewrite Hdata.
  change (D !!! Z.to_nat start) with h.
  apply wp_bind, wp_modify. simpl. apply wp_bind, wp_gets. simpl. apply wp_bind.
  change (s32 (get_u32 0 h)) with (hdr_n h). rewrite <- Hlb.
  eapply (read_head_loop_run _ _ _ _ _ _ (hdr_blocks h)); [done|done|lia| |done|].
  { intros k b. unfold hdr_blocks. rewrite list_lookup_fmap.
    intros (j&[-> ?]%lookup_seq&->)%fmap_Some. done. }
  intros l' Hl' Ht' El'.
  eapply (wp_io_brelse _ _ _ _ _ _ _ _ Hio1 buf start); [apply lookup_insert_eq|by right|].
  intros i2 Hio2. rewrite delete_insert_id in Hio2 by apply lookup_empty.
  apply HQ; [|by rewrite El'|done]. split; try done; rewrite El'; simpl; [done..|]. lia.
Qed.

Lemma log_ok_nil start lsize D : disk_ok start lsize D → log_ok start lsize D [].
Proof. intros Hd. pose proof (do_range _ _ _ Hd). split; simpl; [lia|constructor..]. Qed.

Lemma recover_run start lsize l i wk D t Q :
  lg_dev l = ROOTDEV → lg_start l = start → lg_size l = lsize →
  length (lg_block l) = Z.to_nat LOGSIZE →
  io_is i D D t ∅ ∅ → recoverable start lsize D →
  (∀ l' i', log_is start lsize l' [] → same_ops l l' →
     let d := apply_writes (recovery_writes start D) D in
     io_is i' d d (t ++ recovery_writes start D) ∅ ∅ → Q tt (LogSt l' i' wk)) →
  wp recover_from_log Q (LogSt l i wk).
Proof.
  intros Hdev Hst Hsz Hlen Hio Hrec HQ. pose proof Hrec as (Hd&Hn&Hlog).
  pose proof (do_range _ _ _ Hd) as Hr.
  unfold recover_from_log. apply wp_bind. eapply read_head_run; [done..|].
  intros l1 i1 Hl1 Hs1 Hio1. apply wp_bind.
  assert (size (∅ : gset Z) < NBUF)%nat as He by (rewrite size_empty, NBUF_eq; lia).
  eapply (install_run start lsize l1 _ Hl1 D Hd Hlog);
    [exact Hio1|done|by right|done|set_solver|done|].
  change (install_writes start (hdr_blocks (header start D)) D) with (installs start D).
  intros i2 w Hio2. apply wp_bind, wp_modify. simpl.
  eapply (write_head_run start lsize (set_lg_n 0 l1) [] ltac:(by destruct Hl1) D Hd
    (log_ok_nil _ _ _ Hd)); [exact Hio2|apply length_apply_writes|..].
  { eapply Nat.le_lt_trans; [apply subseteq_size|exact He]. set_solver. }
  { set_solver. }
  intros i3 h Hio3. apply HQ; [by destruct Hl1|done|].
  replace (∅ ∖ list_to_set (hdr_blocks (header start D))) with (∅ : gset Z) in Hio3 by set_solver.
  assert (h = fill_hdr [] (header start D)) as ->.
  { unfold h. f_equal. pose proof (replay_prefix start lsize D (length (installs start D)) Hrec) as (_&E&_).
    by rewrite firstn_all in E. }
  unfold recovery_writes. rewrite apply_writes_app, app_assoc. exact Hio3.
Qed.

Lemma wp_readsb i v D t X Q :
  io_is i v D t X ∅ → (1 < length D)%nat → (size X < NBUF)%nat → 1 ∉ X →
  D !! 1%nat = v !! 1%nat →
  (∀ i', io_is i' v D t X ∅ → Q (sb_of_bytes (v !!! 1%nat)) i') → wp (readsb ROOTDEV) Q i.
Proof.
  intros (Hi&<-&<-&<-&<-&Hh) Hl Hsz HnX Hcl HQ. unfold readsb. apply wp_bind.
  eapply wp_mono.
  { apply bread_spec; [done|lia|by rewrite Hh|].
    right. by rewrite Hh, map_img_empty_L, union_empty_r_L. }
  intros b i1 (Hi1&Ev&Ed&Et&Ex&_&Eh). rewrite Hh in Eh.
  assert (bheld i1 !! b = Some 1) as Hb by by rewrite Eh, lookup_insert_eq.
  apply wp_bind, wp_gets, wp_bind. eapply wp_mono; [apply (brelse_spec _ _ 1); [done..|]|].
  { right. by rewrite Ev, Ed. }
  intros [] i2 (Hi2&Ev2&Ed2&Et2&Ex2&Eh2). apply wp_ret.
  rewrite <- (list_lookup_total_correct _ _ _ (bio_held_data _ _ _ Hi1 Hb)), Ev. apply HQ.
  split_and!; try congruence. rewrite Eh2, Eh. apply delete_insert_id, lookup_empty.
Qed.

(** initlog replays the log of the disk and empties it. *)
Lemma initlog_run start lsize l i wk D t Q :
  length (lg_block l) = Z.to_nat LOGSIZE →
  io_is i D D t ∅ ∅ → recoverable start lsize D →
  (∀ l' i', log_is start lsize l' [] → lg_lock l' = false →
     lg_outstanding l' = lg_outstanding l → lg_committing l' = lg_committing l →
     let d := apply_writes (recovery_writes start D) D in
     io_is i' d d (t ++ recovery_writes start D) ∅ ∅ → Q tt (LogSt l' i' wk)) →
  wp (initlog ROOTDEV) Q (LogSt l i wk).
Proof.
  intros Hlen Hio Hrec HQ. pose proof (proj1 Hrec) as Hd. pose proof (do_range _ _ _ Hd) as Hr.
  unfold initlog. simpl. apply wp_bind, wp_modify, wp_bind, wp_zoom. simpl.
  eapply wp_readsb; [exact Hio|lia|rewrite size_empty, NBUF_eq; lia|set_solver|done|].
  intros i1 Hio1. apply wp_bind, wp_modify. cbn [ls_log ls_io ls_wakes].
  rewrite (do_start _ _ _ Hd), (do_size _ _ _ Hd).
  eapply (recover_run start lsize); [done..|exact Hio1|done|].
  intros l' i' Hl' (?&?&?) d Hio'. by apply HQ.
Qed.
End Recovery.

(** * Transactions *)

Section Operations.
Context {St : Type} `{!BlockIO St, !BlockIOSpec St}.
Context (start lsize : Z).
Implicit Types (i : St) (l : log) (bs : list Z) (wk : nat).

Lemma log_find_spec n k bs :
  Forall (λ b, u32 b = b) bs →
  if decide (n ∈ bs) then ∃ j, log_find n k bs = (k + j)%nat ∧ bs !! j = Some n
  else log_find n k bs = (k + length bs)%nat.
Proof.
  revert k. induction bs as [|b bs IH]; intros k Hu.
  { rewrite decide_False by set_solver. simpl. lia. }
  apply Forall_cons_1 in Hu as [Hb Hu]. specialize (IH (S k) Hu). simpl. rewrite Hb.
  destruct (Z.eqb_spec b n) as [->|Hne].
  { rewrite decide_True by set_solver. exists 0%nat. split; [lia|done]. }
  destruct (decide (n ∈ bs)) as [Hin|Hin].
  - rewrite decide_True by set_solver. destruct IH as (j&->&Hj). exists (S j). split; [lia|done].
  - rewrite decide_False by set_solver. rewrite IH. lia.
Qed.

(** The blocks of the transaction after log_write of block [n]. *)
Definition absorb (bs : list Z) (n : Z) : list Z := if decide (n ∈ bs) then bs else bs ++ [n].

Lemma absorb_ok D bs n :
  log_ok start lsize D bs → Z.of_nat (length bs) < lsize - 1 → home start lsize (length D) n →
  log_ok start lsize D (absorb bs n).
Proof.
  intros [Hc Hnd Hh] Hlt Hn. unfold absorb. case_decide; [done|]. split.
  - rewrite length_app. simpl. lia.
  - apply list.NoDup_app. split_and!; [done|set_solver|apply NoDup_singleton].
  - apply Forall_app. split; [done|]. by apply Forall_singleton.
Qed.

(** The update of the in-memory header by log_write. *)
Lemma absorb_log l bs n :
  log_is start lsize l bs → Forall (λ b, u32 b = b) bs → Z.of_nat (length bs) < LOGSIZE →
  let j := log_find n 0 (take (length bs) (lg_block l)) in
  (j < length (lg_block l))%nat ∧
  log_is start lsize
    (set_lg_n (if Z.of_nat j =? lg_n l then lg_n l + 1 else lg_n l)
       (set_lg_block (<[j := n]> (lg_block l)) l)) (absorb bs n).
Proof.
  intros [? ? ? Hn Hbl Hlen] Hu Hlt. rewrite Hbl. pose proof (log_find_spec n 0 bs Hu) as Hf.
  unfold absorb. destruct (decide (n ∈ bs)).
  - destruct Hf as (j&->&Hj). pose proof (lookup_lt_Some _ _ _ Hj). simpl.
    split; [unfold LOGSIZE, MAXOPBLOCKS in *; lia|]. rewrite Hn.
    rewrite (proj2 (Z.eqb_neq _ _)) by lia. split; simpl; try done; [|by rewrite length_insert].
    rewrite take_insert_lt by done. rewrite Hbl. by apply list_insert_id.
  - rewrite Hf. simpl. split; [unfold LOGSIZE, MAXOPBLOCKS in *; lia|].
    rewrite Hn, Z.eqb_refl. split; simpl; try done; [rewrite length_app; simpl; lia| |by rewrite length_insert].
    rewrite length_app, Nat.add_1_r, (take_S_r _ _ n), take_insert_ge by
      (done || (apply list_lookup_insert_eq; unfold LOGSIZE, MAXOPBLOCKS in *; lia)).
    by rewrite Hbl.
Qed.

Lemma log_write_run l i wk bs b n Q :
  txn_ok start lsize l i bs → lg_lock l = false → 1 ≤ lg_outstanding l →
  Z.of_nat (length bs) < lsize - 1 →
  bheld i !! b = Some n → home start lsize (length (bdisk i)) n →
  (∀ l' i', txn_ok start lsize l' i' (absorb bs n) →
     lg_lock l' = false → lg_outstanding l' = lg_outstanding l → lg_committing l' = lg_committing l →
     bview i' = bview i → bdisk i' = bdisk i → btrace i' = btrace i → bheld i' = bheld i →
     Q tt (LogSt l' i' wk)) →
  wp (log_write b) Q (LogSt l i wk).
Proof.
  intros Htx Hlk Hout Hlt Hb Hn HQ. pose proof (tx_log _ _ _ _ _ Htx) as Hl.
  pose proof (tx_disk _ _ _ _ _ Htx) as Hd. pose proof (do_range _ _ _ Hd) as Hr.
  pose proof (do_len _ _ _ Hd). pose proof (tx_bs _ _ _ _ _ Htx) as Hbs.
  assert (Forall (λ b, u32 b = b) bs) as Hu.
  { eapply list.Forall_impl; [apply Hbs|]. intros x (?&_). apply wrap_small. lia. }
  destruct (absorb_log l bs n Hl Hu) as [Hj Hl']; [lia|].
  unfold log_write. apply wp_bind, wp_gets. simpl.
  rewrite (li_n _ _ _ _ Hl), (li_size _ _ _ _ Hl).
  rewrite (proj2 (Z.leb_gt LOGSIZE _)), (proj2 (Z.leb_gt (lsize - 1) _)) by lia. simpl.
  rewrite (proj2 (Z.ltb_ge _ 1)) by lia.
  apply wp_bind, wp_acquire; [done|]. apply wp_bind, wp_gets. simpl.
  rewrite (bio_held_blockno _ _ _ (tx_io _ _ _ _ _ Htx) Hb), Nat2Z.id.
  destruct Hn as (Hn1&Hn2). rewrite (sext_small 32 n) by lia.
  apply wp_bind. unfold set_block. apply wp_bind, wp_gets. simpl. rewrite decide_True by done.
  apply wp_modify. simpl. apply wp_bind, wp_when. rewrite (li_n _ _ _ _ Hl) in Hl'.
  set (j := log_find _ _ _) in *.
  assert (io_is i (bview i) (bdisk i) (btrace i) (bdirty i) (bheld i)) as Hio
    by (split_and!; try done; apply Htx).
  assert (∀ l2 : log, lg_lock l2 = true →
    log_is start lsize l2 (absorb bs n) →
    lg_outstanding l2 = lg_outstanding l → lg_committing l2 = lg_committing l →
    wp (io (mark_dirty b);; release log_lock) Q (LogSt l2 i wk)) as Hfin.
  { intros l2 Hlk2 Hl2 Ho2 Hc2. apply wp_bind.
    eapply (wp_io_mark_dirty _ _ _ _ _ _ _ _ Hio b n); [done|]. intros i' (Hi'&Ev&Ed&Et&Ex&Eh).
    apply wp_release; [done|]. simpl. apply HQ; try done. split; try done; try (rewrite Ed; apply Htx).
    - by destruct Hl2.
    - rewrite Ed. by apply absorb_ok.
    - rewrite Ex, (tx_dirty _ _ _ _ _ Htx). unfold absorb. case_decide; set_solver. }
  destruct (Z.of_nat j =? Z.of_nat (length bs)).
  - apply wp_modify. apply Hfin; try done. by destruct Hl'.
  - apply Hfin; try done. destruct Hl'. split; try done. simpl. by rewrite (li_n _ _ _ _ Hl).
Qed.

(** Crash disks of a transaction: old before the commit point, new after. *)
Lemma txn_crash l i bs k :
  txn_ok start lsize l i bs → bheld i = ∅ →
  let w := commit_writes start (bview i) bs (header start (bdisk i)) in
  let d := apply_writes (take k w) (bdisk i) in
  recoverable start lsize d ∧
  same_home start lsize (logical start d) (if decide (k ≤ length bs)%nat then bdisk i else bview i).
Proof.
  intros Htx Hh. destruct (txn_view _ _ l i bs Htx Hh) as (Hdv&Hlv&Ehv&Hlen&Hvb).
  case_decide as Hk.
  - apply commit_before; try done; apply Htx.
  - apply commit_after; try done; try apply Htx; [|lia].
    intros j Hj. by eapply txn_clean.
Qed.

(** The state that a commit leaves. *)
Lemma txn_committed l i bs i' :
  txn_ok start lsize l i bs → bheld i = ∅ →
  let w := commit_writes start (bview i) bs (header start (bdisk i)) in
  let d := apply_writes w (bdisk i) in
  io_is i' d d (btrace i ++ w) ∅ ∅ →
  txn_ok start lsize (set_lg_n 0 l) i' [] ∧ same_home start lsize (bdisk i') (bview i).
Proof.
  intros Htx Hh w d (Hi'&Ev&Ed&Et&Ex&Eh).
  destruct (txn_view _ _ l i bs Htx Hh) as (Hdv&Hlv&Ehv&Hlen&Hvb).
  destruct (commit_done start lsize (bdisk i) (bview i) bs) as (Hrec&Hz&Hs); try done; try apply Htx.
  { intros j Hj. by eapply txn_clean. }
  rewrite Ed. split; [|done]. split; try done; rewrite ?Ed; try done; [|by apply Hrec|].
  - by destruct (tx_log _ _ _ _ _ Htx).
  - eapply log_ok_nil, Hrec.
Qed.

(** The disk writes of the end_op that ends the transaction [bs]. *)
Definition op_writes (i : St) (bs : list Z) : list (Z * list Z) :=
  if decide (bs = []) then [] else commit_writes start (bview i) bs (header start (bdisk i)).

Lemma end_op_run l i wk bs :
  txn_ok start lsize l i bs → bheld i = ∅ →
  lg_lock l = false → lg_committing l = false → lg_outstanding l = 1 →
  wp end_op (λ _ s, ∃ l' i', s = LogSt l' i' (S wk) ∧ txn_ok start lsize l' i' [] ∧
    lg_lock l' = false ∧ lg_committing l' = false ∧ lg_outstanding l' = 0 ∧
    bheld i' = ∅ ∧ bview i' = bdisk i' ∧ same_home start lsize (bdisk i') (bview i) ∧
    btrace i' = btrace i ++ op_writes i bs) (LogSt l i wk).
Proof.
  intros Htx Hh Hlk Hc Ho. unfold end_op. apply wp_bind, wp_acquire; [done|].
  apply wp_bind, wp_gets, wp_bind, wp_modify. simpl. rewrite Hc.
  apply wp_bind, wp_gets. simpl. rewrite Ho. simpl. apply wp_bind, wp_modify. simpl.
  apply wp_bind, wp_release; [done|]. simpl. apply wp_bind.
  match goal with |- wp commit _ (LogSt ?x _ _) => set (l1 := x) end.
  assert (txn_ok start lsize l1 i bs) as Htx1.
  { destruct Htx as [[]]. split; try done. }
  assert (∀ l2 i2, lg_lock l2 = false → lg_outstanding l2 = 0 → txn_ok start lsize l2 i2 [] →
    bheld i2 = ∅ → bview i2 = bdisk i2 → same_home start lsize (bdisk i2) (bview i) →
    btrace i2 = btrace i ++ op_writes i bs →
    wp (acquire log_lock;; upd_log (set_lg_committing false);; wakeup_log;; release log_lock)
      (λ _ s, ∃ l' i', s = LogSt l' i' (S wk) ∧ txn_ok start lsize l' i' [] ∧
        lg_lock l' = false ∧ lg_committing l' = false ∧ lg_outstanding l' = 0 ∧
        bheld i' = ∅ ∧ bview i' = bdisk i' ∧ same_home start lsize (bdisk i') (bview i) ∧
        btrace i' = btrace i ++ op_writes i bs)
      (LogSt l2 i2 wk)) as Hfin.
  { intros l2 i2 ? ? [[]] ? ? ? ?. apply wp_bind, wp_acquire; [done|].
    apply wp_bind, wp_modify, wp_bind, wp_modify. apply wp_release; [done|]. simpl.
    eexists _, i2. split; [done|]. split_and!; try done. }
  destruct (decide (bs = [])) as [->|Hne].
  - unfold commit. apply wp_bind, wp_gets. simpl. rewrite (li_n _ _ _ _ (tx_log _ _ _ _ _ Htx)). simpl.
    assert (bview i = bdisk i) as E.
    { apply list_eq. intros k. symmetry. eapply txn_clean; [done|done|]. apply not_elem_of_nil. }
    apply wp_ret, Hfin; try done; [by rewrite E|]. unfold op_writes. by rewrite decide_True, app_nil_r.
  - eapply commit_run; [done..|]. intros i' w d Hio'. destruct (txn_committed l1 i bs i' Htx1 Hh Hio').
    destruct Hio' as (?&Ev&Ed&Et&_&?). apply Hfin; try done; [by rewrite Ev, Ed|].
    unfold op_writes. by rewrite decide_False.
Qed.
End Operations.
