(* ===== verification/LogSafety.v ===== *)
(** Crash safety of the log (src/log.c) over the buffer cache (src/bio.c):
    a transaction is all or nothing whatever the moment of the crash, and
    recovery may itself crash any number of times. *)

From S2P Require Import Prelude Bytes Layout Bio Blocks LogDisk Log.

Section Safety.
Context {St : Type} `{!BlockIO St, !BlockIOSpec St}.
Context (start lsize : Z).

(** A machine that has just booted on disk [d]. *)
Definition boot_log (d : list (list Z)) : logst St := LogSt zero_log (boot d) 0.

Lemma boot_io d : Forall block d → io_is (St := St) (boot d) d d [] ∅ ∅.
Proof.
  intros Hd. destruct (boot_spec d Hd) as (?&Ed&?&?&?).
  assert (bview (boot d) = bdisk (boot d)) as Ev.
  { eapply io_is_clean. by split_and!. }
  split_and!; try done. by rewrite Ev.
Qed.

(** Recovery as a whole: what initlog does to a disk whose blocks the cache holds
    unchanged. *)
Lemma initlog_from l i wk d t :
  length (lg_block l) = Z.to_nat LOGSIZE → lg_outstanding l = 0 → lg_committing l = false →
  io_is i d d t ∅ ∅ → recoverable start lsize d →
  wp (initlog ROOTDEV) (λ _ s,
    txn_ok start lsize (ls_log s) (ls_io s) [] ∧ lg_lock (ls_log s) = false ∧
    lg_outstanding (ls_log s) = 0 ∧ lg_committing (ls_log s) = false ∧
    bheld (ls_io s) = ∅ ∧ bview (ls_io s) = bdisk (ls_io s) ∧
    btrace (ls_io s) = t ++ recovery_writes start d ∧
    same_home start lsize (bdisk (ls_io s)) (logical start d)) (LogSt l i wk).
Proof.
  intros Hlen Hout Hcm Hio Hrec. pose proof (proj1 Hrec) as Hd.
  eapply initlog_run; [done|exact Hio|exact Hrec|].
  intros l' i' Hl' Hlk Ho Hc d' (Hi'&Ev&Ed&Et&Ex&Eh). simpl.
  pose proof (header_block start lsize d Hd) as Hb.
  destruct (replay_prefix start lsize d (length (installs start d)) Hrec) as ((Hok&_)&_).
  rewrite firstn_all in Hok.
  destruct (clear_header start lsize (apply_writes (installs start d) d) (header start d))
    as (Hrec'&Eh'&_&Hs); [done..|].
  assert (d' = apply_writes [(start, fill_hdr [] (header start d))] (apply_writes (installs start d) d)) as Ed'.
  { unfold d', recovery_writes. by rewrite apply_writes_app. }
  split_and!; try done; try congruence.
  - split; rewrite ?Ed; try done; rewrite Ed'; [apply Hrec'| |eapply log_ok_nil, Hrec'].
    rewrite Eh'. by apply hdr_n_fill.
  - by rewrite Ed, Ed', Hs.
Qed.

(** The same on a machine that boots. *)
Lemma initlog_boot d :
  recoverable start lsize d →
  wp (initlog ROOTDEV) (λ _ s,
    txn_ok start lsize (ls_log s) (ls_io s) [] ∧ lg_lock (ls_log s) = false ∧
    lg_outstanding (ls_log s) = 0 ∧ lg_committing (ls_log s) = false ∧
    bheld (ls_io s) = ∅ ∧ bview (ls_io s) = bdisk (ls_io s) ∧
    btrace (ls_io s) = recovery_writes start d ∧
    same_home start lsize (bdisk (ls_io s)) (logical start d)) (boot_log d).
Proof. intros Hrec. by apply (initlog_from zero_log (boot d) 0 d []); [..|apply boot_io, Hrec|]. Qed.

(** bread, a new content, log_write, brelse: how fs.c updates a block. *)
Lemma logged_store_run l i wk bs n d :
  txn_ok start lsize l i bs → bheld i = ∅ → lg_lock l = false → 1 ≤ lg_outstanding l →
  Z.of_nat (length bs) < lsize - 1 → home start lsize (length (bdisk i)) n → block d →
  wp (b ← io (bread ROOTDEV n); io (set_bdata b d);; log_write b;; io (brelse b)) (λ _ s,
    ∃ l' i', s = LogSt l' i' wk ∧ txn_ok start lsize l' i' (absorb bs n) ∧ bheld i' = ∅ ∧
      lg_lock l' = false ∧ lg_outstanding l' = lg_outstanding l ∧
      lg_committing l' = lg_committing l ∧
      bview i' = <[Z.to_nat n := d]> (bview i) ∧ bdisk i' = bdisk i) (LogSt l i wk).
Proof.
  intros Htx Hh Hlk Ho Hlt Hn Hd.
  destruct (txn_budget _ _ _ _ _ Htx) as [Hsz _].
  assert (io_is i (bview i) (bdisk i) (btrace i) (list_to_set bs) ∅) as Hio
    by (split_and!; try done; apply Htx).
  apply wp_bind. eapply (wp_io_bread _ _ _ _ _ _ _ _ Hio);
    [apply Hn|set_solver|right; by rewrite map_img_empty_L, union_empty_r_L|].
  intros b i1 Hio1 _ _.
  assert (<[b := n]> (∅ : gmap nat Z) !! b = Some n) as Hb by apply lookup_insert_eq.
  apply wp_bind. eapply (wp_io_set_bdata _ _ _ _ _ _ _ _ Hio1 b n); [done..|].
  intros i2 (Hi2&Ev2&Ed2&Et2&Ex2&Eh2). apply wp_bind.
  eapply (log_write_run start lsize l i2 wk bs b n); [|done..|by rewrite Eh2|by rewrite Ed2|].
  { destruct Htx. split; rewrite ?Ed2; done. }
  intros l3 i3 Htx3 Hlk3 Ho3 Hc3 Ev3 Ed3 Et3 Eh3.
  eapply (wp_io_brelse _ _ _ _ _ _ (bdirty i3) (bheld i3)); [by split_and!; try apply Htx3|by rewrite Eh3, Eh2| |].
  { left. rewrite (tx_dirty _ _ _ _ _ Htx3). unfold absorb. case_decide; set_solver. }
  intros i4 (Hi4&Ev4&Ed4&Et4&Ex4&Eh4). exists l3, i4. split_and!; try done; try congruence.
  - destruct Htx3. split; rewrite ?Ed4; congruence.
  - rewrite Eh4, Eh3, Eh2. apply delete_insert_id, lookup_empty.
Qed.

(** Reboots that crash: each runs initlog and stops after [k] of its writes. *)
Inductive reboots : list (list Z) → list (list Z) → Prop :=
| reboots_none d : reboots d d
| reboots_crash d s k d' :
    initlog ROOTDEV (boot_log d) = Ok tt s →
    reboots (apply_writes (take k (btrace (ls_io s))) d) d' → reboots d d'.

Lemma reboots_logical d d' :
  reboots d d' → recoverable start lsize d →
  recoverable start lsize d' ∧ same_home start lsize (logical start d') (logical start d).
Proof.
  induction 1 as [d|d s k d' Hrun _ IH]; intros Hrec; [done|].
  pose proof (initlog_boot d Hrec) as Hwp. unfold wp in Hwp. rewrite Hrun in Hwp.
  destruct Hwp as (_&_&_&_&_&_&Et&_). rewrite Et in IH.
  destruct (recovery_prefix start lsize d k Hrec) as [Hrec' Hs].
  destruct (IH Hrec') as [? Hs']. split; [done|]. by rewrite Hs'.
Qed.

(** A crash after [k] of the writes that end the transaction [bs]. *)
Lemma crash_recovers l i bs k d :
  txn_ok start lsize l i bs → bheld i = ∅ → reboots (apply_writes (take k (op_writes start i bs)) (bdisk i)) d →
  ∃ s, initlog ROOTDEV (boot_log d) = Ok tt s ∧
    txn_ok start lsize (ls_log s) (ls_io s) [] ∧ bview (ls_io s) = bdisk (ls_io s) ∧
    same_home start lsize (bdisk (ls_io s)) (if decide (k ≤ length bs)%nat then bdisk i else bview i).
Proof.
  intros Htx Hh Hreb.
  assert (recoverable start lsize (apply_writes (take k (op_writes start i bs)) (bdisk i)) ∧
    same_home start lsize (logical start (apply_writes (take k (op_writes start i bs)) (bdisk i)))
      (if decide (k ≤ length bs)%nat then bdisk i else bview i)) as [Hrec Hl].
  { unfold op_writes. case_decide as E; [|by apply (txn_crash start lsize l)]. subst bs.
    destruct (txn_crash start lsize l i [] 0 Htx Hh) as [Hrec Hl]. rewrite take_nil. split; [exact Hrec|].
    rewrite decide_True in Hl by lia. case_decide; [exact Hl|].
    replace (bview i) with (bdisk i); [exact Hl|]. apply list_eq. intros j. eapply txn_clean; [done..|].
    apply not_elem_of_nil. }
  destruct (reboots_logical _ _ Hreb Hrec) as [Hrec' Hl'].
  destruct (proj1 (wp_run _ _ _) (initlog_boot d Hrec')) as ([]&s&Hs&Ht&_&_&_&_&Hv&_&Hsame).
  exists s. split_and!; [done..|]. by rewrite Hsame, Hl', Hl.
Qed.

(** C1. Crash safety.  A commit of the transaction [bs] runs to completion; let
    [w] be the disk writes that it performs.  Crash the machine after any number
    [k] of them, let it reboot and crash again during recovery any number of times,
    and let a last recovery complete: outside the log the disk is then the one
    before the transaction if [k] is at most the number of blocks of the transaction
    (the header had not been written), and otherwise the one with all of the
    transaction's updates.  The log is empty and nothing is left in memory only. *)
Theorem crash_safe l i wk bs :
  txn_ok start lsize l i bs → bheld i = ∅ → bs ≠ [] →
  ∃ w i', commit (LogSt l i wk) = Ok tt (LogSt (set_lg_n 0 l) i' wk) ∧
    btrace i' = btrace i ++ w ∧
    ∀ k d, reboots (apply_writes (take k w) (bdisk i)) d →
      ∃ s, initlog ROOTDEV (boot_log d) = Ok tt s ∧
        txn_ok start lsize (ls_log s) (ls_io s) [] ∧ bview (ls_io s) = bdisk (ls_io s) ∧
        same_home start lsize (bdisk (ls_io s))
          (if decide (k ≤ length bs)%nat then bdisk i else bview i).
Proof.
  intros Htx Hh Hne. exists (commit_writes start (bview i) bs (header start (bdisk i))).
  assert (wp commit (λ _ s, ∃ i', s = LogSt (set_lg_n 0 l) i' wk ∧
    btrace i' = btrace i ++ commit_writes start (bview i) bs (header start (bdisk i))) (LogSt l i wk))
    as ([]&s&Hrun&i'&->&Et)%wp_run.
  { eapply commit_run; [done..|]. intros i' w d (_&_&_&?&_). by exists i'. }
  exists i'. split_and!; [done..|]. intros k d Hreb. apply (crash_recovers l i bs); try done.
  unfold op_writes. by rewrite decide_False.
Qed.

(** Recovery.  From every disk whose log is well formed, initlog on a
    freshly booted machine returns with the log empty, no transaction open and the
    cache equal to the disk; outside the log the disk holds the logged blocks at
    their home locations and is otherwise unchanged. *)
Theorem initlog_recovers d :
  recoverable start lsize d →
  ∃ s, initlog ROOTDEV (boot_log d) = Ok tt s ∧
    txn_ok start lsize (ls_log s) (ls_io s) [] ∧ lg_outstanding (ls_log s) = 0 ∧
    bview (ls_io s) = bdisk (ls_io s) ∧
    same_home start lsize (bdisk (ls_io s)) (logical start d).
Proof.
  intros Hrec.
  destruct (proj1 (wp_run _ _ _) (initlog_boot d Hrec)) as ([]&s&Hs&Ht&_&Ho&_&_&Hv&_&Hsame).
  by exists s.
Qed.

(** C26. Group commit.  When the last of the running operations ends, end_op
    commits: all blocks recorded by log_write are then on disk at their home
    locations, the cache and the disk agree, the log is empty, the spinlock of the
    log and all buffers are released, no commit is under way, and waiting
    operations are woken.  While other operations run, end_op only counts down and
    wakes: nothing else changes, and nothing is written to the disk. *)
Theorem end_op_group_commit l i wk bs :
  txn_ok start lsize l i bs → bheld i = ∅ → lg_lock l = false → lg_committing l = false →
  1 ≤ lg_outstanding l →
  if decide (lg_outstanding l = 1) then
    ∃ l' i', end_op (LogSt l i wk) = Ok tt (LogSt l' i' (S wk)) ∧
      txn_ok start lsize l' i' [] ∧ lg_lock l' = false ∧ lg_outstanding l' = 0 ∧
      lg_committing l' = false ∧ bheld i' = ∅ ∧
      bview i' = bdisk i' ∧ same_home start lsize (bdisk i') (bview i)
  else
    end_op (LogSt l i wk) = Ok tt (LogSt (set_lg_outstanding (lg_outstanding l - 1) l) i (S wk)).
Proof.
  intros Htx Hh Hlk Hc Ho. case_decide as E.
  - destruct (proj1 (wp_run _ _ _) (end_op_run start lsize l i wk bs Htx Hh Hlk Hc E))
      as ([]&s&Hs&l'&i'&->&?&?&?&?&?&?&?&?). by exists l', i'.
  - unfold end_op, acquire, release, gets, modify, upd_log, mbind, M_bind. simpl. rewrite Hlk. simpl.
    rewrite Hc. simpl. rewrite (proj2 (Z.eqb_neq (lg_outstanding l - 1) 0)) by lia. simpl.
    do 2 f_equal. destruct l. simpl in *. by subst.
Qed.

(** Log absorption.  Inside an operation, updating a block (bread, a
    new content, log_write, brelse) succeeds while the transaction has room; the block is
    recorded once however often it is written, and its new content is visible to later
    reads but not yet on disk. *)
Theorem log_write_absorbs l i wk bs n d :
  txn_ok start lsize l i bs → bheld i = ∅ → lg_lock l = false → 1 ≤ lg_outstanding l →
  Z.of_nat (length bs) < lsize - 1 → home start lsize (length (bdisk i)) n → block d →
  ∃ l' i', (b ← io (bread ROOTDEV n); io (set_bdata b d);; log_write b;; io (brelse b)) (LogSt l i wk)
      = Ok tt (LogSt l' i' wk) ∧
    txn_ok start lsize l' i' (if decide (n ∈ bs) then bs else bs ++ [n]) ∧
    bheld i' = ∅ ∧ bview i' = <[Z.to_nat n := d]> (bview i) ∧ bdisk i' = bdisk i.
Proof.
  intros Htx Hh Hlk Ho Hlt Hn Hd.
  destruct (proj1 (wp_run _ _ _) (logged_store_run l i wk bs n d Htx Hh Hlk Ho Hlt Hn Hd))
    as ([]&s&Hs&l'&i'&->&?&?&?&?&?&?&?). by exists l', i'.
Qed.
End Safety.

(** * Concrete disks *)

(** A disk with a log of [nlog] blocks from block 2 on, and [ndata] data blocks. *)
Definition example_sb (nlog : nat) : list Z :=
  put_u32s 0 [Z.of_nat nlog + 2; 0; 0; Z.of_nat nlog; 2; 2; 2] zero_block.
Definition example_disk (nlog ndata : nat) : list (list Z) :=
  zero_block :: example_sb nlog :: replicate (nlog + ndata) zero_block.

Lemma example_recoverable : recoverable 2 3 (example_disk 3 3).
Proof.
  split_and!; [|by vm_compute|].
  - split; [|by vm_compute..]. apply (bool_decide_unpack _). vm_compute. exact I.
  - split; [by vm_compute|constructor..].
Qed.

(** A transaction of one block (block 5) on that disk, in the buffer cache. *)
Lemma example_txn :
  ∃ (l : log) (i : bcache), txn_ok 2 3 l i [5] ∧ bheld i = ∅ ∧ lg_lock l = false ∧
    lg_committing l = false ∧ lg_outstanding l = 1 ∧ length (bdisk i) = 8%nat.
Proof.
  destruct (proj1 (wp_run _ _ _) (initlog_boot (St := bcache) 2 3 _ example_recoverable))
    as ([]&[l i wk]&_&Htx&Hlk&Ho&Hc&Hh&_&_&Hs). simpl in *.
  set (l1 := set_lg_outstanding 1 l).
  assert (txn_ok 2 3 l1 i []) as Htx1 by (destruct Htx as [[]]; by split).
  assert (length (bdisk i) = 8%nat) as Hlen by (etransitivity; [apply Hs|by vm_compute]).
  assert (home 2 3 (length (bdisk i)) 5) as Hhome.
  { rewrite Hlen. unfold home, in_log. lia. }
  destruct (proj1 (wp_run _ _ _) (logged_store_run 2 3 l1 i wk [] 5 zero_block Htx1 Hh Hlk
    ltac:(done) ltac:(done) Hhome ltac:(apply (bool_decide_unpack _); vm_compute; exact I)))
    as ([]&s&_&l2&i2&->&?&?&?&Ho2&Hc2&_&Ed). exists l2, i2.
  split_and!; [done..|by rewrite Hc2|by rewrite Ho2|by etransitivity; [apply (f_equal length), Ed|]].
Qed.

Lemma crash_safe_witness :
  ∃ (l : log) (i : bcache), txn_ok 2 3 l i [5] ∧
    ∃ w i', commit (LogSt l i 0) = Ok tt (LogSt (set_lg_n 0 l) i' 0) ∧
      btrace i' = btrace i ++ w ∧
      ∀ k d, reboots (St := bcache) (apply_writes (take k w) (bdisk i)) d →
        ∃ s : logst bcache, initlog ROOTDEV (boot_log d) = Ok tt s ∧
          txn_ok 2 3 (ls_log s) (ls_io s) [] ∧ bview (ls_io s) = bdisk (ls_io s) ∧
          same_home 2 3 (bdisk (ls_io s))
            (if decide (k ≤ length [5])%nat then bdisk i else bview i).
Proof.
  destruct example_txn as (l&i&Htx&Hh&_). exists l, i. split; [exact Htx|].
  apply (crash_safe 2 3 l i 0 [5] Htx Hh). discriminate.
Defined.

Lemma initlog_recovers_witness :
  recoverable 2 3 (example_disk 3 3) ∧
  ∃ s : logst bcache, initlog ROOTDEV (boot_log (example_disk 3 3)) = Ok tt s ∧
    txn_ok 2 3 (ls_log s) (ls_io s) [] ∧ lg_outstanding (ls_log s) = 0 ∧
    bview (ls_io s) = bdisk (ls_io s) ∧
    same_home 2 3 (bdisk (ls_io s)) (logical 2 (example_disk 3 3)).
Proof. split; [exact example_recoverable|]. apply (initlog_recovers 2 3), example_recoverable. Defined.

Lemma end_op_group_commit_witness :
  ∃ (l : log) (i : bcache), txn_ok 2 3 l i [5] ∧
    ∃ l' i', end_op (LogSt l i 0) = Ok tt (LogSt l' i' 1) ∧
      txn_ok 2 3 l' i' [] ∧ lg_lock l' = false ∧ lg_outstanding l' = 0 ∧
      lg_committing l' = false ∧ bheld i' = ∅ ∧
      bview i' = bdisk i' ∧ same_home 2 3 (bdisk i') (bview i).
Proof.
  destruct example_txn as (l&i&Htx&Hh&Hlk&Hc&Ho&_). exists l, i. split; [exact Htx|].
  pose proof (end_op_group_commit 2 3 l i 0 [5] Htx Hh Hlk Hc ltac:(rewrite Ho; lia)) as HT.
  rewrite decide_True in HT by exact Ho. exact HT.
Defined.

Lemma log_write_absorbs_witness :
  ∃ (l : log) (i : bcache), txn_ok 2 3 l i [5] ∧
    ∃ l' i', (b ← io (bread ROOTDEV 6); io (set_bdata b zero_block);; log_write b;; io (brelse b))
        (LogSt l i 0) = Ok tt (LogSt l' i' 0) ∧
      txn_ok 2 3 l' i' [5; 6] ∧ bheld i' = ∅ ∧
      bview i' = <[6%nat := zero_block]> (bview i) ∧ bdisk i' = bdisk i.
Proof.
  destruct example_txn as (l&i&Htx&Hh&Hlk&_&Ho&Hlen). exists l, i. split; [exact Htx|].
  assert (home 2 3 (length (bdisk i)) 6) as Hn by (rewrite Hlen; unfold home, in_log; lia).
  apply (log_write_absorbs 2 3 l i 0 [5] 6 zero_block Htx Hh Hlk); [rewrite Ho; lia|done|exact Hn|].
  apply (bool_decide_unpack _). vm_compute. exact I.
Defined.

(** * The reservation of begin_op *)

(** Reads and logs each of the blocks [ns], as an operation of fs.c does. *)
Fixpoint log_each (ns : list Z) : M (logst bcache) unit :=
  match ns with
  | [] => mret tt
  | n :: ns => b ← io (bread ROOTDEV n); log_write b;; io (brelse b);; log_each ns
  end.

(** Finding.  begin_op lets three operations of MAXOPBLOCKS blocks run
    together, because LOGSIZE is 3 * MAXOPBLOCKS; but a log of LOGSIZE blocks, the size that
    mkfs.c gives it, has one block for the header, so when the three operations write
    MAXOPBLOCKS distinct blocks each, as they may, log_write panics. *)
Theorem log_reservation_panics :
  (initlog ROOTDEV;; begin_op;; begin_op;; begin_op;;
   log_each (seqZ 32 MAXOPBLOCKS);; log_each (seqZ 42 MAXOPBLOCKS);;
   log_each (seqZ 52 MAXOPBLOCKS))
    (boot_log (example_disk (Z.to_nat LOGSIZE) 30)) = Fail (Panic "too big a transaction").
Proof. vm_compute. reflexivity. Qed.
