(* ===== verification/Mem.v ===== *)
(** Physical memory and addresses (src/memlayout.h, src/mmu.h).

    Physical memory is a map from page numbers to pages of PGSIZE bytes.  The
    kernel reaches it through its direct map: physical address [pa] is the
    kernel virtual address [P2V pa].  Addresses are 64-bit. *)

From S2P Require Import Prelude Bytes.

Definition PGSIZE : Z := 4096.
Definition KERNBASE : Z := 0xFFFF800000000000.
Definition EXTMEM : Z := 0x100000.
Definition PHYSTOP : Z := 0xE000000.
(** the privilege of user code *)
Definition DPL_USER : Z := 3.
(** the interrupt flag of the flags register *)
Definition FL_IF : Z := 0x200.

Definition V2P (a : Z) : Z := u64 (a - KERNBASE).
Definition P2V (a : Z) : Z := u64 (a + KERNBASE).

Definition PGROUNDUP (sz : Z) : Z := Z.land (u64 (sz + (PGSIZE - 1))) (u64 (Z.lnot (PGSIZE - 1))).
Definition PGROUNDDOWN (a : Z) : Z := Z.land a (u64 (Z.lnot (PGSIZE - 1))).

Definition PXMASK : Z := 0x1FF.
Definition PMX (va : Z) : Z := Z.land (Z.shiftr va 39) PXMASK.
Definition PDPX (va : Z) : Z := Z.land (Z.shiftr va 30) PXMASK.
Definition PDX (va : Z) : Z := Z.land (Z.shiftr va 21) PXMASK.
Definition PTX (va : Z) : Z := Z.land (Z.shiftr va 12) PXMASK.

Definition PTE_P : Z := 0x001.
Definition PTE_W : Z := 0x002.
Definition PTE_U : Z := 0x004.
Definition PTE_ADDR (pte : Z) : Z := Z.land pte (u64 (Z.lnot 0xFFF)).
Definition PTE_FLAGS (pte : Z) : Z := Z.land pte 0xFFF.

Abbreviation get_u64 := (get_le 8).
Abbreviation put_u64 := (put_le 8).

Abbreviation pmem := (gmap Z (list Z)).

(** The page at kernel address [v], and the offset of [v] in it. *)
Definition page_of (v : Z) : Z := V2P v / PGSIZE.
Definition off_of (v : Z) : nat := Z.to_nat (V2P v mod PGSIZE).

Definition load64 (m : pmem) (v : Z) : option Z :=
  pg ← m !! page_of v;
  if decide (off_of v + 8 ≤ Z.to_nat PGSIZE)%nat then Some (get_u64 (off_of v) pg) else None.
Definition store64 (v x : Z) (m : pmem) : option pmem :=
  pg ← m !! page_of v;
  if decide (off_of v + 8 ≤ Z.to_nat PGSIZE)%nat
  then Some (<[page_of v := put_u64 (off_of v) x pg]> m) else None.
(** [n] bytes from [v] on, inside one page. *)
Definition load_bytes (m : pmem) (v : Z) (n : nat) : option (list Z) :=
  pg ← m !! page_of v;
  if decide (off_of v + n ≤ Z.to_nat PGSIZE)%nat then Some (sub (off_of v) n pg) else None.
Definition store_bytes (v : Z) (bs : list Z) (m : pmem) : option pmem :=
  pg ← m !! page_of v;
  if decide (off_of v + length bs ≤ Z.to_nat PGSIZE)%nat
  then Some (<[page_of v := splice (off_of v) bs pg]> m) else None.

(** A well-formed page, and a page full of the byte [c]. *)
Definition is_page (pg : list Z) : Prop := length pg = Z.to_nat PGSIZE ∧ bytes pg.
Definition full_page (c : Z) : list Z := replicate (Z.to_nat PGSIZE) (u8 c).

(** * Address arithmetic *)

Section addr.
Implicit Types a v pa : Z.

Lemma land_lnot_ones a n : 0 ≤ n ≤ 64 → 0 ≤ a < 2 ^ 64 →
  Z.land a (u64 (Z.lnot (2 ^ n - 1))) = a - a mod 2 ^ n.
Proof.
  intros Hn Ha. unfold wrap.
  rewrite <- (Z.land_ones (Z.lnot _) 64) by lia.
  assert (Z.land a (Z.ones 64) = a) as E by (rewrite Z.land_ones by lia; apply Z.mod_small; lia).
  rewrite (Z.land_comm (Z.lnot _)), Z.land_assoc, E.
  replace (2 ^ n - 1) with (Z.ones n) by (rewrite Z.ones_equiv; lia).
  rewrite <- Z.ldiff_land, Z.ldiff_ones_r, Z.shiftr_div_pow2, Z.shiftl_mul_pow2 by lia.
  pose proof (Z.div_mod a (2 ^ n) ltac:(lia)). lia.
Qed.

Lemma PGROUNDDOWN_spec a : 0 ≤ a < 2 ^ 64 → PGROUNDDOWN a = a - a mod PGSIZE.
Proof. apply (land_lnot_ones a 12). lia. Qed.

Lemma PTE_ADDR_spec a : 0 ≤ a < 2 ^ 64 → PTE_ADDR a = a - a mod PGSIZE.
Proof. apply (land_lnot_ones a 12). lia. Qed.

Lemma PTE_FLAGS_spec a : PTE_FLAGS a = a mod PGSIZE.
Proof. apply (Z.land_ones a 12). lia. Qed.

Lemma PGROUNDUP_spec a : 0 ≤ a → a + PGSIZE ≤ 2 ^ 64 →
  PGROUNDUP a = (a + PGSIZE - 1) / PGSIZE * PGSIZE.
Proof.
  intros H0 H1. unfold PGROUNDUP. change (PGSIZE - 1) with (2 ^ 12 - 1).
  rewrite (land_lnot_ones _ 12) by (lia || (apply wrap_range; lia)).
  unfold PGSIZE in *. rewrite wrap_small by lia.
  change (2 ^ 12) with 4096. pose proof (Z.div_mod (a + (4096 - 1)) 4096 ltac:(lia)).
  replace (a + 4096 - 1) with (a + (4096 - 1)) by lia. lia.
Qed.

(** An aligned address and twelve flag bits do not overlap. *)
Lemma lor_aligned a f : 0 ≤ a → a mod PGSIZE = 0 → 0 ≤ f < PGSIZE → Z.lor a f = a + f.
Proof.
  intros H0 Ha Hf. rewrite <- Z.lxor_lor, <- Z.add_nocarry_lxor; [done|..];
    apply Z.bits_inj'; intros n Hn; rewrite Z.land_spec, Z.bits_0.
  all: destruct (Z.lt_ge_cases n 12) as [Hlt|Hge].
  1,3: replace a with (a / PGSIZE * 2 ^ 12) by
    (pose proof (Z.div_mod a PGSIZE ltac:(done)); unfold PGSIZE in *; lia);
    by rewrite Z.mul_pow2_bits_low.
  all: rewrite (Z.bits_above_log2 f n), andb_false_r; [done|lia|].
  all: destruct (Z.eq_dec f 0) as [->|]; [simpl; lia|].
  all: apply Z.log2_lt_pow2; [lia|]; apply Z.lt_le_trans with (2 ^ 12); [unfold PGSIZE in *; lia|].
  all: apply Z.pow_le_mono_r; lia.
Qed.

Lemma V2P_P2V pa : 0 ≤ pa < 2 ^ 64 → V2P (P2V pa) = pa.
Proof.
  intros H. unfold V2P, P2V. rewrite wrap_sub_l. replace (pa + KERNBASE - KERNBASE) with pa by lia.
  by apply wrap_small.
Qed.

Lemma P2V_V2P v : 0 ≤ v < 2 ^ 64 → P2V (V2P v) = v.
Proof.
  intros H. unfold V2P, P2V. rewrite wrap_add_l. replace (v - KERNBASE + KERNBASE) with v by lia.
  by apply wrap_small.
Qed.
End addr.
