(* ===== verification/Spinlock.v ===== *)
(** Spin locks (src/spinlock.c, src/spinlock.h): the lock word with its atomic
    exchange, and the counted disabling of interrupts, on a machine of several
    CPUs.

    A [struct spinlock *] is an index into [locks], a [struct cpu *] an index
    into [cpus].  The functions are written once, in pieces between which other
    CPUs run and interrupts arrive; [acquire] and [release] compose the pieces
    for a CPU that is alone, and [micro] runs one piece of one CPU of several.
    The theorems are mutual exclusion, as a refinement of an atomic
    lock, which panics are possible, and that locks taken in order never block
    all CPUs. *)

From S2P Require Import Prelude Mem.

(** struct spinlock *)
Record spinlock := Spinlock {
  locked : Z;
  lk_name : string;
  lk_cpu : option nat;
  lk_pcs : list Z;
}.

(** The fields of struct cpu that spin locks use, and the flags register. *)
Record cpu := Cpu {
  ncli : Z;
  intena : Z;
  eflags : Z;
}.

Record machine := Machine {
  cpus : list cpu;
  locks : list spinlock;
}.

Definition updcpu (c : nat) (f : cpu → cpu) : M machine unit :=
  modify (λ m, Machine (alter f c (cpus m)) (locks m)).
Definition updlock (lk : nat) (f : spinlock → spinlock) : M machine unit :=
  modify (λ m, Machine (cpus m) (alter f lk (locks m))).
Definition getcpu (c : nat) : M machine cpu :=
  cs ← gets cpus; the "cpu" (cs !! c).
Definition getlock (lk : nat) : M machine spinlock :=
  ls ← gets locks; the "spinlock" (ls !! lk).

(** x86.h *)
Definition readeflags (c : nat) : M machine Z := cp ← getcpu c; mret (eflags cp).
Definition cli (c : nat) : M machine unit :=
  updcpu c (λ cp, Cpu (ncli cp) (intena cp) (Z.land (eflags cp) (Z.lnot FL_IF))).
Definition sti (c : nat) : M machine unit :=
  updcpu c (λ cp, Cpu (ncli cp) (intena cp) (Z.lor (eflags cp) FL_IF)).
Definition xchg (lk : nat) (newval : Z) : M machine Z :=
  l ← getlock lk;
  updlock lk (λ l, Spinlock (u32 newval) (lk_name l) (lk_cpu l) (lk_pcs l));;
  mret (locked l).

Definition initlock (lk : nat) (name : string) : M machine unit :=
  updlock lk (λ l, Spinlock 0 name None (lk_pcs l)).

(** The addition of two ints; an overflow is undefined. *)
Definition int_add (a b : Z) : M machine Z :=
  if (- 2 ^ 31 <=? a + b) && (a + b <? 2 ^ 31) then mret (a + b) else undefined "int overflow".

(** pushcli after the flags are read and interrupts are off *)
Definition pushcli_count (me : nat) (fl : Z) : M machine unit :=
  cp ← getcpu me;
  when (ncli cp =? 0) (updcpu me (λ cp, Cpu (ncli cp) (Z.land (s32 fl) FL_IF) (eflags cp)));;
  n ← int_add (ncli cp) 1;
  updcpu me (λ cp, Cpu n (intena cp) (eflags cp)).

Definition pushcli (me : nat) : M machine unit :=
  fl ← readeflags me;
  cli me;;
  pushcli_count me fl.

Definition popcli (me : nat) : M machine unit :=
  fl ← readeflags me;
  if negb (Z.land fl FL_IF =? 0) then panic "popcli - interruptible" else
  cp ← getcpu me;
  n ← int_add (ncli cp) (-1);
  updcpu me (λ cp, Cpu n (intena cp) (eflags cp));;
  if n <? 0 then panic "popcli" else
  when ((n =? 0) && negb (intena cp =? 0)) (sti me).

Definition holding (me lk : nat) : M machine bool :=
  l ← getlock lk;
  mret (negb (locked l =? 0) && bool_decide (lk_cpu l = Some me)).

(** getstackpcs: [load] reads a word of kernel memory. *)
Fixpoint getstackpcs (n : nat) (load : Z → Z) (rbp : Z) : list Z :=
  match n with
  | O => []
  | S n =>
      if (rbp =? 0) || (rbp <? KERNBASE) || (rbp =? 0xffffffff) then replicate (S n) 0
      else load (u64 (rbp + 8)) :: getstackpcs n load (load rbp)
  end.
Definition getcallerpcs (load : Z → Z) (rbp : Z) : list Z := getstackpcs 10 load rbp.

(** The pieces of acquire and release. *)
Definition acquire_check (me lk : nat) : M machine unit :=
  h ← holding me lk;
  if (h : bool) then panic "acquire" else mret tt.
Definition acquire_record (me lk : nat) (load : Z → Z) (rbp : Z) : M machine unit :=
  updlock lk (λ l, Spinlock (locked l) (lk_name l) (Some me) (getcallerpcs load rbp)).
Definition release_clear (me lk : nat) : M machine unit :=
  h ← holding me lk;
  if negb h then panic "release" else
  updlock lk (λ l, Spinlock (locked l) (lk_name l) None (<[0%nat := 0]> (lk_pcs l))).
Definition release_store (lk : nat) : M machine unit :=
  updlock lk (λ l, Spinlock 0 (lk_name l) (lk_cpu l) (lk_pcs l)).

Fixpoint acquire_spin (fuel lk : nat) : M machine unit :=
  match fuel with
  | O => out_of_fuel
  | S fuel => r ← xchg lk 1; if r =? 0 then mret tt else acquire_spin fuel lk
  end.

Definition acquire (fuel me lk : nat) (load : Z → Z) (rbp : Z) : M machine unit :=
  pushcli me;;
  acquire_check me lk;;
  acquire_spin fuel lk;;
  acquire_record me lk load rbp.

Definition release (me lk : nat) : M machine unit :=
  release_clear me lk;;
  release_store lk;;
  popcli me.

(** * Several CPUs *)

(** Where the code that runs on a CPU is: outside of lock code, or before the
    named piece of acquire or release of a lock. *)
Inductive pc :=
| Run
| AcqStart (lk : nat)
| AcqCli (lk : nat) (fl : Z)
| AcqCount (lk : nat) (fl : Z)
| AcqSpin (lk : nat)
| AcqRecord (lk : nat)
| RelStart (lk : nat)
| RelStore (lk : nat)
| RelPop.

(** The code on one CPU: its place, the places and flags of the code that
    interrupts suspended, and the locks it has acquired and not released. *)
Record thread := Thread {
  t_pc : pc;
  t_stack : list (pc * Z);
  t_held : list nat;
}.

Record sys := Sys {
  mach : machine;
  threads : list thread;
}.

Definition mach_lens : lens sys machine := Lens mach (λ m s, Sys m (threads s)).
Definition getthread (c : nat) : M sys thread :=
  ts ← gets threads; the "thread" (ts !! c).
Definition updthread (c : nat) (f : thread → thread) : M sys unit :=
  modify (λ s, Sys (mach s) (alter f c (threads s))).
Definition set_pc (p : pc) (t : thread) : thread := Thread p (t_stack t) (t_held t).

(** One piece of the lock code on CPU [c]. *)
Definition micro (c : nat) (load : Z → Z) (rbp : Z) : M sys unit :=
  t ← getthread c;
  match t_pc t with
  | Run => mret tt
  | AcqStart lk => fl ← zoom mach_lens (readeflags c); updthread c (set_pc (AcqCli lk fl))
  | AcqCli lk fl => zoom mach_lens (cli c);; updthread c (set_pc (AcqCount lk fl))
  | AcqCount lk fl =>
      zoom mach_lens (pushcli_count c fl;; acquire_check c lk);;
      updthread c (set_pc (AcqSpin lk))
  | AcqSpin lk =>
      r ← zoom mach_lens (xchg lk 1);
      updthread c (set_pc (if r =? 0 then AcqRecord lk else AcqSpin lk))
  | AcqRecord lk =>
      zoom mach_lens (acquire_record c lk load rbp);;
      updthread c (λ t, Thread Run (t_stack t) (lk :: t_held t))
  | RelStart lk =>
      zoom mach_lens (release_clear c lk);;
      updthread c (λ t, Thread (RelStore lk) (t_stack t) (filter (λ l, l ≠ lk) (t_held t)))
  | RelStore lk => zoom mach_lens (release_store lk);; updthread c (set_pc RelPop)
  | RelPop => zoom mach_lens (popcli c);; updthread c (set_pc Run)
  end.

Definition thread_at (s : sys) (c : nat) (t : thread) : Prop := threads s !! c = Some t.
Definition flags_at (s : sys) (c : nat) (fl : Z) : Prop :=
  eflags <$> cpus (mach s) !! c = Some fl.
Definition enabled (fl : Z) : bool := negb (Z.land fl FL_IF =? 0).

(** The system.  [may l held] says which locks a CPU that holds [held] may ask
    for.  Code outside of lock code calls acquire or release of any lock, a
    CPU with interrupts enabled takes one at any point, with interrupts disabled
    by the gate; a handler returns when it has released what it acquired, and code that holds
    no lock may enable interrupts (the loop of the scheduler, a return to
    user code). *)
Inductive step (may : nat → list nat → Prop) (s : sys) : sys → Prop :=
| step_micro c load rbp s' :
    micro c load rbp s = Ok tt s' → step may s s'
| step_acquire c t lk :
    thread_at s c t → t_pc t = Run → (lk < length (locks (mach s)))%nat → may lk (t_held t) →
    step may s (Sys (mach s) (<[c := set_pc (AcqStart lk) t]> (threads s)))
| step_release c t lk :
    thread_at s c t → t_pc t = Run → (lk < length (locks (mach s)))%nat →
    step may s (Sys (mach s) (<[c := set_pc (RelStart lk) t]> (threads s)))
| step_interrupt c t cp :
    thread_at s c t → cpus (mach s) !! c = Some cp → enabled (eflags cp) = true →
    step may s
      (Sys (Machine (<[c := Cpu (ncli cp) (intena cp) (Z.land (eflags cp) (Z.lnot FL_IF))]>
                       (cpus (mach s))) (locks (mach s)))
           (<[c := Thread Run ((t_pc t, eflags cp) :: t_stack t) (t_held t)]> (threads s)))
| step_iret c t cp p fl rest :
    thread_at s c t → t_pc t = Run → t_held t = [] → t_stack t = (p, fl) :: rest →
    cpus (mach s) !! c = Some cp →
    step may s
      (Sys (Machine (<[c := Cpu (ncli cp) (intena cp) fl]> (cpus (mach s))) (locks (mach s)))
           (<[c := Thread p rest []]> (threads s)))
| step_sti c t cp :
    thread_at s c t → t_pc t = Run → t_held t = [] → cpus (mach s) !! c = Some cp →
    step may s
      (Sys (Machine (<[c := Cpu (ncli cp) (intena cp) (Z.lor (eflags cp) FL_IF)]>
                       (cpus (mach s))) (locks (mach s)))
           (threads s)).

(** After mpinit and the calls of initlock: no CPU holds a lock. *)
Definition initial (s : sys) : Prop :=
  Forall (λ cp, ncli cp = 0) (cpus (mach s)) ∧
  Forall (λ l, locked l = 0 ∧ lk_cpu l = None) (locks (mach s)) ∧
  Forall (λ t, t = Thread Run [] []) (threads s) ∧
  length (threads s) = length (cpus (mach s)) ∧
  Z.of_nat (length (locks (mach s))) < 2 ^ 31 - 1.

Inductive reachable (may : nat → list nat → Prop) : sys → Prop :=
| reach_init s : initial s → reachable may s
| reach_step s s' : reachable may s → step may s s' → reachable may s'.

(** * What the locks mean *)

(** The place of an acquire after it got the lock, or of a release before it
    gives it up, counts as owning. *)
Definition pc_owns (p : pc) : list nat :=
  match p with AcqRecord lk | RelStore lk => [lk] | _ => [] end.
Definition owned (t : thread) : list nat := pc_owns (t_pc t) ++ t_held t.

(** An atomic lock: who owns each lock, and what a step does to that. *)
Definition owner (s : sys) (l : nat) : option nat :=
  fst <$> list_find (λ t, l ∈ owned t) (threads s).

Inductive atomic_step (o o' : nat → option nat) : Prop :=
| atomic_stutter : (∀ l, o' l = o l) → atomic_step o o'
| atomic_acquire c l :
    o l = None → o' l = Some c → (∀ l', l' ≠ l → o' l' = o l') → atomic_step o o'
| atomic_release c l :
    o l = Some c → o' l = None → (∀ l', l' ≠ l → o' l' = o l') → atomic_step o o'.

(** ** The invariant *)

(** pushcli calls that popcli has not undone, besides those of held locks *)
Definition pc_depth (p : pc) : Z :=
  match p with AcqSpin _ | AcqRecord _ | RelStore _ | RelPop => 1 | _ => 0 end.
Definition pc_counts (p : pc) : bool := match p with AcqCount _ _ => true | _ => false end.
Definition pc_lock (p : pc) : option nat :=
  match p with
  | Run | RelPop => None
  | AcqStart lk | AcqCli lk _ | AcqCount lk _ | AcqSpin lk | AcqRecord lk
  | RelStart lk | RelStore lk => Some lk
  end.
Definition pc_in (n : nat) (p : pc) : Prop := ∀ lk, pc_lock p = Some lk → (lk < n)%nat.
(** the places where interrupts can be enabled *)
Definition light (p : pc) : Prop := pc_depth p = 0 ∧ pc_counts p = false.

Record cpu_ok (n : nat) (cp : cpu) (t : thread) : Prop := {
  co_ncli : ncli cp = Z.of_nat (length (t_held t)) + pc_depth (t_pc t);
  co_off : 0 < ncli cp ∨ pc_counts (t_pc t) = true → enabled (eflags cp) = false;
  co_stack : Forall (λ f, light f.1 ∧ pc_in n f.1) (t_stack t);
  co_nodup : NoDup (owned t);
  co_range : Forall (λ l, (l < n)%nat) (owned t);
  co_pc : pc_in n (t_pc t);
}.

Definition owns (ts : list thread) (c l : nat) : Prop := ∃ t, ts !! c = Some t ∧ l ∈ owned t.
Definition holds (ts : list thread) (c l : nat) : Prop := ∃ t, ts !! c = Some t ∧ l ∈ t_held t.

Record lock_ok (ts : list thread) (l : nat) (lk : spinlock) : Prop := {
  lo_cpu c : lk_cpu lk = Some c ↔ holds ts c l;
  lo_locked : (locked lk = 0 ∧ ∀ c, ¬ owns ts c l) ∨
              (locked lk = 1 ∧ ∃ c, ∀ c', owns ts c' l ↔ c' = c);
}.

Record inv (s : sys) : Prop := {
  inv_len : length (threads s) = length (cpus (mach s));
  inv_bound : Z.of_nat (length (locks (mach s))) < 2 ^ 31 - 1;
  inv_cpu c cp t : cpus (mach s) !! c = Some cp → threads s !! c = Some t →
                   cpu_ok (length (locks (mach s))) cp t;
  inv_lock l lk : locks (mach s) !! l = Some lk → lock_ok (threads s) l lk;
}.

(** ** Flags *)

Lemma enabled_cli fl : enabled (Z.land fl (Z.lnot FL_IF)) = false.
Proof.
  unfold enabled. rewrite <- Z.land_assoc. by rewrite (Z.land_comm _ FL_IF), Z.land_lnot_diag, Z.land_0_r.
Qed.

Lemma enabled_sti fl : enabled (Z.lor fl FL_IF) = true.
Proof.
  unfold enabled. rewrite Z.land_lor_distr_l, Z.land_diag. apply negb_true_iff, Z.eqb_neq.
  intros H. apply Z.lor_eq_0_iff in H as [_ H]. done.
Qed.

(** ** Ownership under a change of one thread *)

Section change.
Context (ts : list thread) (c : nat) (t t' : thread).
Hypothesis (Ht : ts !! c = Some t).

Lemma owns_insert c' l :
  owns (<[c := t']> ts) c' l ↔ if decide (c' = c) then l ∈ owned t' else owns ts c' l.
Proof.
  unfold owns. pose proof (lookup_lt_Some _ _ _ Ht).
  rewrite list_lookup_insert_dec by done. case_decide; naive_solver.
Qed.

Lemma holds_insert c' l :
  holds (<[c := t']> ts) c' l ↔ if decide (c' = c) then l ∈ t_held t' else holds ts c' l.
Proof.
  unfold holds. pose proof (lookup_lt_Some _ _ _ Ht).
  rewrite list_lookup_insert_dec by done. case_decide; naive_solver.
Qed.

Lemma owns_here l : owns ts c l ↔ l ∈ owned t.
Proof. unfold owns. naive_solver. Qed.

Lemma holds_here l : holds ts c l ↔ l ∈ t_held t.
Proof. unfold holds. naive_solver. Qed.

Lemma owns_same c' l :
  (l ∈ owned t' ↔ l ∈ owned t) → owns (<[c := t']> ts) c' l ↔ owns ts c' l.
Proof. rewrite owns_insert. case_decide; [subst; by rewrite owns_here|done]. Qed.

Lemma lock_ok_same l lk :
  (l ∈ owned t' ↔ l ∈ owned t) → (l ∈ t_held t' ↔ l ∈ t_held t) →
  lock_ok ts l lk → lock_ok (<[c := t']> ts) l lk.
Proof.
  intros Ho Hh [Hc Hl]. split.
  - intros c'. rewrite Hc, holds_insert. case_decide; [subst; by rewrite holds_here|done].
  - destruct Hl as [[? Hn]|[? [o Hn]]]; [left|right]; split; [done| |done|exists o];
      intros c'; by rewrite owns_same.
Qed.
End change.

(** One CPU moves, and at most one lock changes. *)
Lemma inv_move s c t t' cp' (ls' : list spinlock) :
  inv s → threads s !! c = Some t →
  length ls' = length (locks (mach s)) →
  cpu_ok (length ls') cp' t' →
  (∀ l lk, ls' !! l = Some lk →
     lock_ok (<[c := t']> (threads s)) l lk ∨
     locks (mach s) !! l = Some lk ∧
       (l ∈ owned t' ↔ l ∈ owned t) ∧ (l ∈ t_held t' ↔ l ∈ t_held t)) →
  inv (Sys (Machine (<[c := cp']> (cpus (mach s))) ls') (<[c := t']> (threads s))).
Proof.
  intros [L B Hc Hl] Ht El Hco Hlo. pose proof (lookup_lt_Some _ _ _ Ht) as Lt.
  split; simpl.
  - by rewrite !length_insert.
  - by rewrite El.
  - intros c1 cp1 t1. rewrite !list_lookup_insert_dec by lia.
    case_decide; [naive_solver|]. rewrite El. apply Hc.
  - intros l lk H. destruct (Hlo l lk H) as [|(H1 & H2 & H3)]; [done|].
    apply (lock_ok_same _ _ t); auto.
Qed.

Lemma inv_stay s c t t' cp' :
  inv s → threads s !! c = Some t →
  cpu_ok (length (locks (mach s))) cp' t' →
  (∀ l, l ∈ owned t' ↔ l ∈ owned t) → (∀ l, l ∈ t_held t' ↔ l ∈ t_held t) →
  inv (Sys (Machine (<[c := cp']> (cpus (mach s))) (locks (mach s))) (<[c := t']> (threads s))).
Proof. intros Hi Ht Hco Ho Hh. apply (inv_move _ _ t); auto. Qed.

Lemma owned_bound n cp t : cpu_ok n cp t → (length (t_held t) ≤ n)%nat.
Proof.
  intros H. pose proof (co_nodup _ _ _ H) as Hn. pose proof (co_range _ _ _ H) as Hr.
  unfold owned in Hn, Hr. apply list.NoDup_app in Hn as (_ & _ & Hn). apply Forall_app in Hr as [_ Hr].
  rewrite <- (length_seq n 0). apply submseteq_length, NoDup_submseteq; [done|].
  intros x Hx. rewrite list.Forall_forall in Hr. apply elem_of_seq. specialize (Hr x Hx). lia.
Qed.

(** What one piece of lock code does to the locks of its CPU, and which panics
    it has. *)
Definition moved (s s' : sys) (c : nat) (t : thread) : Prop :=
  ∃ t', threads s' = <[c := t']> (threads s) ∧
    ((∀ l, l ∈ owned t' ↔ l ∈ owned t) ∨
     (∃ lk, (∀ c', ¬ owns (threads s) c' lk) ∧ ∀ l, l ∈ owned t' ↔ l = lk ∨ l ∈ owned t) ∨
     (∃ lk, lk ∈ owned t ∧ ∀ l, l ∈ owned t' ↔ l ≠ lk ∧ l ∈ owned t)).

Definition panics (t : thread) (f : failure) : Prop :=
  ∃ lk, (∃ fl, t_pc t = AcqCount lk fl) ∧ f = Panic "acquire" ∧ lk ∈ t_held t ∨
        t_pc t = RelStart lk ∧ f = Panic "release" ∧ lk ∉ t_held t.

Definition micro_post (s : sys) (c : nat) (t : thread) (o : outcome sys unit) : Prop :=
  match o with
  | Ok _ s' => inv s' ∧ moved s s' c t
  | Sleep _ _ => False
  | Fail f => panics t f
  end.

Ltac run_simpl :=
  unfold micro, getthread, updthread, zoom, mach_lens, pushcli_count, acquire_check,
    acquire_record, release_clear, release_store, popcli, xchg, holding, readeflags, cli, sti,
    getcpu, getlock, updcpu, updlock, mbind, M_bind, mret, M_ret, gets, the, modify, when, panic,
    undefined; simpl.

(** pushcli and popcli on a CPU. *)
Definition pushed (fl : Z) (cp : cpu) : cpu :=
  Cpu (ncli cp + 1) (if ncli cp =? 0 then Z.land (s32 fl) FL_IF else intena cp) (eflags cp).
Definition popped (cp : cpu) : cpu :=
  Cpu (ncli cp - 1) (intena cp)
    (if (ncli cp =? 1) && negb (intena cp =? 0) then Z.lor (eflags cp) FL_IF else eflags cp).

Lemma int_add_run a b m : - 2 ^ 31 ≤ a + b < 2 ^ 31 → int_add a b m = Ok (a + b) m.
Proof.
  intros H. unfold int_add.
  replace (_ && _) with true; [done|]. symmetry. apply andb_true_iff.
  rewrite Z.leb_le, Z.ltb_lt. lia.
Qed.

Lemma pushcli_count_run c fl m cp :
  cpus m !! c = Some cp → 0 ≤ ncli cp < 2 ^ 31 - 1 →
  pushcli_count c fl m = Ok tt (Machine (<[c := pushed fl cp]> (cpus m)) (locks m)).
Proof.
  intros Hc Hn. run_simpl. rewrite Hc. simpl. unfold pushed.
  destruct (ncli cp =? 0) eqn:E; rewrite ?E; simpl; rewrite int_add_run by lia; simpl; rewrite (alter_known _ _ _ _ Hc); [|done].
  rewrite (alter_known _ _ _ (Cpu (ncli cp) (Z.land (s32 fl) FL_IF) (eflags cp))); simpl.
  - by rewrite list_insert_insert_eq.
  - apply list_lookup_insert_eq. by apply lookup_lt_Some in Hc.
Qed.

Lemma popcli_run c m cp :
  cpus m !! c = Some cp → enabled (eflags cp) = false → 1 ≤ ncli cp < 2 ^ 31 →
  popcli c m = Ok tt (Machine (<[c := popped cp]> (cpus m)) (locks m)).
Proof.
  intros Hc Hf Hn. run_simpl. rewrite Hc. simpl. unfold enabled in Hf. rewrite Hf. simpl.
  rewrite Hc. simpl.
  rewrite int_add_run by lia. simpl. replace (ncli cp + -1 <? 0) with false by (symmetry; apply Z.ltb_ge; lia).
  rewrite (alter_known _ _ _ _ Hc). unfold popped.
  replace (ncli cp + -1) with (ncli cp - 1) by lia.
  replace (ncli cp - 1 =? 0) with (ncli cp =? 1)
    by (destruct (Z.eqb_spec (ncli cp) 1), (Z.eqb_spec (ncli cp - 1) 0); lia).
  destruct ((ncli cp =? 1) && negb (intena cp =? 0)); simpl; [|done].
  rewrite (alter_known _ _ _ (Cpu (ncli cp - 1) (intena cp) (eflags cp))); simpl.
  - by rewrite list_insert_insert_eq.
  - apply list_lookup_insert_eq. by apply lookup_lt_Some in Hc.
Qed.

(** holding is exact: true if and only if this CPU holds the lock. *)
Lemma holding_run ts c t lk r m :
  ts !! c = Some t → lock_ok ts lk r → locks m !! lk = Some r →
  holding c lk m = Ok (bool_decide (lk ∈ t_held t)) m.
Proof.
  intros Ht [Hcpu Hl] Hr. run_simpl. rewrite Hr. f_equal.
  case_bool_decide as E; case_bool_decide as E'; rewrite ?andb_false_r; [|exfalso|exfalso|done].
  - rewrite andb_true_r. apply negb_true_iff, Z.eqb_neq. destruct Hl as [[? Hn]|[? _]]; [|lia].
    exfalso. apply (Hn c). exists t. split; [done|]. unfold owned. set_solver.
  - apply E'. apply Hcpu in E. by apply (holds_here _ c _ Ht).
  - apply E. apply Hcpu. by apply (holds_here _ c _ Ht).
Qed.
Section pieces.
Context (s : sys) (c : nat) (t : thread) (cp : cpu).
Hypothesis (Hi : inv s) (Ht : threads s !! c = Some t) (Hc : cpus (mach s) !! c = Some cp).
Let n := length (locks (mach s)).

Lemma hok : cpu_ok n cp t.
Proof. by apply (inv_cpu s Hi c). Qed.

Lemma alter_thread f : alter f c (threads s) = <[c := f t]> (threads s).
Proof. by apply alter_known. Qed.
Lemma alter_cpu f : alter f c (cpus (mach s)) = <[c := f cp]> (cpus (mach s)).
Proof. by apply alter_known. Qed.

(** The code moves, and no lock changes. *)
Lemma post_stay cp' t' :
  cpu_ok n cp' t' → (∀ l, l ∈ owned t' ↔ l ∈ owned t) → (∀ l, l ∈ t_held t' ↔ l ∈ t_held t) →
  micro_post s c t
    (Ok tt (Sys (Machine (<[c := cp']> (cpus (mach s))) (locks (mach s))) (<[c := t']> (threads s)))).
Proof. intros ? ? ?. split; [by apply (inv_stay _ _ t)|]. exists t'. auto. Qed.

Lemma post_stay_cpu t' :
  cpu_ok n cp t' → (∀ l, l ∈ owned t' ↔ l ∈ owned t) → (∀ l, l ∈ t_held t' ↔ l ∈ t_held t) →
  micro_post s c t (Ok tt (Sys (mach s) (<[c := t']> (threads s)))).
Proof.
  intros H1 H2 H3. pose proof (post_stay cp t' H1 H2 H3) as H.
  rewrite (list_insert_id _ _ _ Hc) in H. by destruct (mach s).
Qed.

(** The code moves, and lock [lk] changes to [r']. *)
Lemma post_lock lk r r' cp' t' :
  locks (mach s) !! lk = Some r → cpu_ok n cp' t' →
  lock_ok (<[c := t']> (threads s)) lk r' →
  (∀ l, l ≠ lk → (l ∈ owned t' ↔ l ∈ owned t) ∧ (l ∈ t_held t' ↔ l ∈ t_held t)) →
  ((∀ l, l ∈ owned t' ↔ l ∈ owned t) ∨
   (∃ lk, (∀ c', ¬ owns (threads s) c' lk) ∧ ∀ l, l ∈ owned t' ↔ l = lk ∨ l ∈ owned t) ∨
   (∃ lk, lk ∈ owned t ∧ ∀ l, l ∈ owned t' ↔ l ≠ lk ∧ l ∈ owned t)) →
  micro_post s c t
    (Ok tt (Sys (Machine (<[c := cp']> (cpus (mach s))) (<[lk := r']> (locks (mach s))))
                (<[c := t']> (threads s)))).
Proof.
  intros Hr Hco Hlk Hot Hm. split; [|exists t'; auto].
  apply (inv_move _ _ t); [done..|by rewrite length_insert|by rewrite length_insert|].
  intros l x. rewrite list_lookup_insert_dec by (by apply lookup_lt_Some in Hr).
  case_decide; [naive_solver|]. right. naive_solver.
Qed.

Lemma post_lock_cpu lk r r' t' :
  locks (mach s) !! lk = Some r → cpu_ok n cp t' →
  lock_ok (<[c := t']> (threads s)) lk r' →
  (∀ l, l ≠ lk → (l ∈ owned t' ↔ l ∈ owned t) ∧ (l ∈ t_held t' ↔ l ∈ t_held t)) →
  ((∀ l, l ∈ owned t' ↔ l ∈ owned t) ∨
   (∃ lk, (∀ c', ¬ owns (threads s) c' lk) ∧ ∀ l, l ∈ owned t' ↔ l = lk ∨ l ∈ owned t) ∨
   (∃ lk, lk ∈ owned t ∧ ∀ l, l ∈ owned t' ↔ l ≠ lk ∧ l ∈ owned t)) →
  micro_post s c t
    (Ok tt (Sys (Machine (cpus (mach s)) (<[lk := r']> (locks (mach s))))
                (<[c := t']> (threads s)))).
Proof.
  intros H1 H2 H3 H4 H5. pose proof (post_lock lk r r' cp t' H1 H2 H3 H4 H5) as H.
  by rewrite (list_insert_id _ _ _ Hc) in H.
Qed.

Lemma the_lock lk :
  pc_lock (t_pc t) = Some lk → ∃ r, locks (mach s) !! lk = Some r ∧ lock_ok (threads s) lk r.
Proof.
  intros E. destruct (lookup_lt_is_Some_2 (locks (mach s)) lk) as [r Hr].
  { apply (co_pc _ _ _ hok), E. }
  exists r. split; [done|]. by apply (inv_lock s Hi).
Qed.
End pieces.

Lemma filter_absent (h : list nat) lk : lk ∉ h → filter (λ l, l ≠ lk) h = h.
Proof.
  induction h as [|x h IH]; [done|]. intros H. rewrite filter_cons, decide_True by set_solver.
  f_equal. apply IH. set_solver.
Qed.

Lemma filter_out_length (h : list nat) lk :
  NoDup h → lk ∈ h → length h = S (length (filter (λ l, l ≠ lk) h)).
Proof.
  intros Hn Hin. induction h as [|x h IH]; [by apply not_elem_of_nil in Hin|].
  apply list.NoDup_cons in Hn as [Hx Hn]. rewrite filter_cons. simpl.
  destruct (decide (x = lk)) as [->|].
  - rewrite decide_False by tauto. by rewrite filter_absent.
  - rewrite decide_True by done. simpl. f_equal. apply IH; [done|]. set_solver.
Qed.

Section micro.
Context (s : sys) (c : nat) (t : thread) (cp : cpu) (load : Z → Z) (rbp : Z).
Hypothesis (Hi : inv s) (Ht : threads s !! c = Some t) (Hc : cpus (mach s) !! c = Some cp).
Let n := length (locks (mach s)).
Let K : cpu_ok n cp t := hok s c t cp Hi Ht Hc.

Lemma micro_start lk : t_pc t = AcqStart lk → micro_post s c t (micro c load rbp s).
Proof.
  intros E. run_simpl. rewrite Ht. simpl. rewrite E, Hc. simpl.
  rewrite (alter_thread s c t Ht).
  destruct t as [p st h]; simpl in *; subst p. destruct K as [K1 K2 K3 K4 K5 K6].
  apply (post_stay_cpu s c _ cp Hi Ht Hc); [split|..]; simpl in *; try done.
Qed.

Lemma micro_cli lk fl : t_pc t = AcqCli lk fl → micro_post s c t (micro c load rbp s).
Proof.
  intros E. run_simpl. rewrite Ht. simpl. rewrite E. simpl.
  rewrite (alter_thread s c t Ht), (alter_cpu s c cp Hc).
  destruct t as [p st h]; simpl in *; subst p. destruct K as [K1 K2 K3 K4 K5 K6].
  apply (post_stay s c _ Hi Ht); [split|..]; simpl in *; try done.
  intros _. apply enabled_cli.
Qed.

Lemma micro_count lk fl : t_pc t = AcqCount lk fl → micro_post s c t (micro c load rbp s).
Proof.
  intros E. destruct (the_lock s c t cp Hi Ht Hc lk) as (r & Hr & Hlk); [by rewrite E|].
  pose proof (owned_bound _ _ _ K) as Hb. pose proof (inv_bound s Hi) as HB.
  pose proof (co_ncli _ _ _ K) as Hn. rewrite E in Hn. simpl in Hn.
  unfold micro, getthread, mbind, M_bind, gets, the. rewrite Ht. simpl. rewrite E.
  unfold zoom. simpl. rewrite (pushcli_count_run _ _ _ cp) by (done || lia).
  unfold acquire_check, mbind, M_bind. rewrite (holding_run (threads s) c t lk r) by done.
  case_bool_decide as Eh; simpl; [by exists lk; left; eauto|].
  rewrite (alter_thread s c t Ht).
  destruct t as [p st h]; simpl in *; subst p. destruct K as [K1 K2 K3 K4 K5 K6]. simpl in *.
  apply (post_stay s c _ Hi Ht); [split|..]; simpl in *; auto with lia.
Qed.

Lemma micro_spin lk : t_pc t = AcqSpin lk → micro_post s c t (micro c load rbp s).
Proof.
  intros E. destruct (the_lock s c t cp Hi Ht Hc lk) as (r & Hr & [Hcpu Hl]); [by rewrite E|].
  run_simpl. rewrite Ht. simpl. rewrite E, Hr. simpl.
  rewrite (alter_thread s c t Ht), (alter_known _ _ _ _ Hr). change (u32 1) with 1.
  pose proof (co_pc _ _ _ K) as Kp. pose proof K as [K1 K2 K3 K4 K5 K6].
  destruct t as [p st h]; simpl in *; subst p.
  destruct Hl as [[El Hn]|[El [o Ho]]]; rewrite El; simpl.
  - assert (lk ∉ h) as Hnh. { intros ?. apply (Hn c), (owns_here _ _ _ Ht). done. }
    apply (post_lock_cpu s c _ cp Hi Ht Hc lk r); [done|split; simpl in *|split| |].
    all: unfold owned in *; simpl in *; auto.
    + by constructor.
    + intros c'. rewrite (holds_insert _ _ _ _ Ht), Hcpu. simpl.
      case_decide; [|done]. subst. by rewrite (holds_here _ _ _ Ht).
    + right. split; [done|]. exists c. intros c'. rewrite (owns_insert _ _ _ _ Ht).
      case_decide; [set_solver|]. specialize (Hn c'). tauto.
    + set_solver.
    + right. left. exists lk. split; [done|]. set_solver.
  - apply (post_lock_cpu s c _ cp Hi Ht Hc lk r); [done|split; simpl in *|split| |]; auto.
    + intros c'. rewrite (holds_insert _ _ _ _ Ht), Hcpu. simpl.
      case_decide; [|done]. subst. by rewrite (holds_here _ _ _ Ht).
    + right. split; [done|]. exists o. intros c'. rewrite <- Ho, (owns_same _ _ _ _ Ht); done.
Qed.

Lemma micro_record lk : t_pc t = AcqRecord lk → micro_post s c t (micro c load rbp s).
Proof.
  intros E. destruct (the_lock s c t cp Hi Ht Hc lk) as (r & Hr & [Hcpu Hl]); [by rewrite E|].
  run_simpl. rewrite Ht. simpl. rewrite E. simpl.
  rewrite (alter_thread s c t Ht), (alter_known _ _ _ _ Hr).
  pose proof K as [K1 K2 K3 K4 K5 K6].
  assert (owns (threads s) c lk) as Ho.
  { apply (owns_here _ _ _ Ht). unfold owned. rewrite E. set_solver. }
  destruct Hl as [[El Hn]|[El [o Ho']]]; [by apply Hn in Ho|].
  assert (o = c) as -> by (symmetry; by apply Ho').
  destruct t as [p st h]; simpl in *; subst p.
  apply (post_lock_cpu s c _ cp Hi Ht Hc lk r); [done|split; simpl in *|split| |];
    unfold owned in *; simpl in *; auto.
  - lia.
  - done.
  - intros c'. rewrite (holds_insert _ _ _ _ Ht). simpl. split.
    + intros [= <-]. rewrite decide_True by done. set_solver.
    + case_decide; [congruence|]. intros (t1 & H1 & H2).
      assert (c' = c) by (apply Ho'; exists t1; unfold owned; set_solver). done.
  - right. split; [done|]. exists c. intros c'. rewrite <- Ho', (owns_same _ _ _ _ Ht); done.
  - set_solver.
Qed.

Lemma micro_release lk : t_pc t = RelStart lk → micro_post s c t (micro c load rbp s).
Proof.
  intros E. destruct (the_lock s c t cp Hi Ht Hc lk) as (r & Hr & Hlk); [by rewrite E|].
  pose proof (holding_run (threads s) c t lk r (mach s) Ht Hlk Hr) as Hh.
  unfold micro, getthread, mbind, M_bind, gets, the. rewrite Ht. simpl. rewrite E.
  unfold zoom, release_clear, mbind, M_bind. simpl. rewrite Hh.
  case_bool_decide as Eh; simpl; [|by exists lk; right].
  run_simpl. rewrite (alter_thread s c t Ht), (alter_known _ _ _ _ Hr).
  pose proof K as [K1 K2 K3 K4 K5 K6]. destruct Hlk as [Hcpu Hl].
  assert (owns (threads s) c lk) as Ho.
  { apply (owns_here _ _ _ Ht). unfold owned. set_solver. }
  destruct Hl as [[El Hn]|[El [o Ho']]]; [by apply Hn in Ho|].
  assert (o = c) as -> by (symmetry; by apply Ho').
  destruct t as [p st h]; simpl in *; subst p. unfold owned in K4, K5. simpl in K4, K5.
  pose proof (filter_out_length h lk K4 Eh) as Hlen. simpl in *.
  assert (∀ l, l ∈ lk :: filter (λ l, l ≠ lk) h ↔ l ∈ h) as Hsame.
  { intros l. rewrite elem_of_cons, list_elem_of_filter. destruct (decide (l = lk)); naive_solver. }
  apply (post_lock_cpu s c _ cp Hi Ht Hc lk r); [done|split; simpl in *|split| |];
    unfold owned; simpl; auto.
  - lia.
  - constructor; [rewrite list_elem_of_filter; tauto|]. by apply list.NoDup_filter.
  - apply list.Forall_forall. intros l Hin. apply Hsame in Hin.
    rewrite list.Forall_forall in K5. by apply K5.
  - intros c'. split; [done|]. rewrite (holds_insert _ _ _ _ Ht). simpl. case_decide as Ec.
    + rewrite list_elem_of_filter. tauto.
    + intros (t1 & H1 & H2). destruct Ec. apply Ho'. exists t1. unfold owned. set_solver.
  - right. split; [done|]. exists c. intros c'. rewrite <- Ho', (owns_same _ _ _ _ Ht); done.
  - intros l Hne. rewrite Hsame. split; [done|]. rewrite list_elem_of_filter. tauto.
Qed.

Lemma micro_store lk : t_pc t = RelStore lk → micro_post s c t (micro c load rbp s).
Proof.
  intros E. destruct (the_lock s c t cp Hi Ht Hc lk) as (r & Hr & [Hcpu Hl]); [by rewrite E|].
  run_simpl. rewrite Ht. simpl. rewrite E. simpl.
  rewrite (alter_thread s c t Ht), (alter_known _ _ _ _ Hr).
  pose proof K as [K1 K2 K3 K4 K5 K6].
  assert (owns (threads s) c lk) as Ho.
  { apply (owns_here _ _ _ Ht). unfold owned. rewrite E. set_solver. }
  destruct Hl as [[El Hn]|[El [o Ho']]]; [by apply Hn in Ho|].
  assert (o = c) as -> by (symmetry; by apply Ho').
  destruct t as [p st h]; simpl in *; subst p. unfold owned in K4, K5. simpl in K4, K5.
  apply list.NoDup_cons in K4 as [Hnh K4]. apply list.Forall_cons in K5 as [Hlt K5].
  apply (post_lock_cpu s c _ cp Hi Ht Hc lk r); [done|split; simpl in *|split| |];
    unfold owned; simpl; auto.
  - done.
  - intros c'. rewrite (holds_insert _ _ _ _ Ht), Hcpu. simpl.
    case_decide; [|done]. subst. by rewrite (holds_here _ _ _ Ht).
  - left. split; [done|]. intros c'. rewrite (owns_insert _ _ _ _ Ht). case_decide as Ec; [done|].
    intros H. apply Ec. by apply Ho'.
  - set_solver.
  - right. right. exists lk. set_solver.
Qed.

Lemma micro_pop : t_pc t = RelPop → micro_post s c t (micro c load rbp s).
Proof.
  intros E. pose proof K as [K1 K2 K3 K4 K5 K6].
  pose proof (owned_bound _ _ _ K) as Hb. pose proof (inv_bound s Hi) as HB.
  rewrite E in K1, K2. simpl in K1, K2.
  unfold micro, getthread, mbind, M_bind, gets, the. rewrite Ht. simpl. rewrite E.
  unfold zoom. simpl. rewrite (popcli_run _ _ cp); [simpl|done|apply K2; lia|lia].
  rewrite (alter_thread s c t Ht).
  destruct t as [p st h]; simpl in *; subst p.
  apply (post_stay s c _ Hi Ht); [split|..]; simpl in *; auto.
  - lia.
  - intros [?|?]; [|done].
    replace (ncli cp =? 1) with false by (symmetry; apply Z.eqb_neq; lia). simpl. auto with lia.
Qed.

Lemma micro_ok : micro_post s c t (micro c load rbp s).
Proof.
  destruct (t_pc t) eqn:E; eauto using micro_start, micro_cli, micro_count, micro_spin,
    micro_record, micro_release, micro_store, micro_pop.
  unfold micro, getthread, mbind, M_bind, gets, the. rewrite Ht. simpl. rewrite E. simpl.
  split; [done|]. exists t. split; [by rewrite list_insert_id|]. auto.
Qed.
End micro.

(** * The invariant holds in every reachable state *)

Lemma inv_initial s : initial s → inv s.
Proof.
  intros (Hc & Hl & Ht & Hlen & Hb). split; [done|done|..].
  - intros c cp t H1 H2. eapply (Forall_lookup_1 _ _ _ _ Hc) in H1.
    eapply (Forall_lookup_1 _ _ _ _ Ht) in H2. subst t.
    split; simpl; [lia| |done|constructor|constructor|done]. intros [?|?]; [lia|done].
  - intros l lk H. eapply (Forall_lookup_1 _ _ _ _ Hl) in H as [H0 H1].
    assert (∀ c, ¬ owns (threads s) c l) as Hn.
    { intros c (t & H2 & H3). eapply (Forall_lookup_1 _ _ _ _ Ht) in H2. subst t.
      by apply not_elem_of_nil in H3. }
    split; [|by left]. intros c. rewrite H1. split; [done|].
    intros (t & H2 & H3). destruct (Hn c). exists t. unfold owned. set_solver.
Qed.

(** The CPU of a thread. *)
Lemma inv_cpu_of s c t :
  inv s → threads s !! c = Some t →
  ∃ cp, cpus (mach s) !! c = Some cp ∧ cpu_ok (length (locks (mach s))) cp t.
Proof.
  intros Hi Ht. destruct (lookup_lt_is_Some_2 (cpus (mach s)) c) as [cp Hc].
  { rewrite <- (inv_len s Hi). by apply lookup_lt_Some in Ht. }
  exists cp. split; [done|]. by apply (inv_cpu s Hi c).
Qed.

(** A thread whose CPU has interrupts enabled holds and owns nothing. *)
Lemma enabled_light n cp t :
  cpu_ok n cp t → enabled (eflags cp) = true → light (t_pc t) ∧ t_held t = [] ∧ ncli cp = 0.
Proof.
  intros [K1 K2 _ _ _ _] He.
  assert (0 ≤ pc_depth (t_pc t)) by (by destruct (t_pc t)).
  destruct (decide (0 < ncli cp)); [rewrite K2 in He by auto; done|].
  assert (length (t_held t) = 0%nat) as Hh by lia. apply length_zero_iff_nil in Hh.
  repeat split; [lia| |done|lia].
  destruct (pc_counts (t_pc t)); [rewrite K2 in He by auto|]; done.
Qed.

Lemma light_owns p : light p → pc_owns p = [].
Proof. unfold light. destruct p; simpl; naive_solver lia. Qed.

Lemma effect_post s s' c t :
  threads s !! c = Some t → micro_post s c t (Ok tt s') →
  inv s' ∧ ∃ c t, threads s !! c = Some t ∧ moved s s' c t.
Proof. intros Ht [H1 H2]. split; [done|]. by exists c, t. Qed.

(** A call of acquire or release. *)
Lemma effect_call s c t p lk :
  inv s → threads s !! c = Some t → t_pc t = Run → (lk < length (locks (mach s)))%nat →
  p = AcqStart lk ∨ p = RelStart lk →
  let s' := Sys (mach s) (<[c := set_pc p t]> (threads s)) in
  inv s' ∧ ∃ c t, threads s !! c = Some t ∧ moved s s' c t.
Proof.
  intros Hi Ht Hp Hl Hpc s'. destruct (inv_cpu_of s c t Hi Ht) as (cp & Hc & K).
  apply (effect_post s _ c t Ht), (post_stay_cpu s c t cp Hi Ht Hc).
  all: destruct t as [p0 st h]; simpl in *; subst p0.
  - destruct K as [K1 K2 K3 K4 K5 K6].
    destruct Hpc as [-> | ->]; (split; [done|done|done|done|done|]); by intros ? [= <-].
  - unfold owned. by destruct Hpc as [-> | ->].
  - done.
Qed.

(** A step moves the code of one CPU. *)
Lemma lock_step_effect may s s' :
  inv s → step may s s' →
  inv s' ∧ ∃ c t, threads s !! c = Some t ∧ moved s s' c t.
Proof.
  intros Hi [c load rbp s1 Hm|c t lk Ht Hp Hl _|c t lk Ht Hp Hl|c t cp Ht Hc He
            |c t cp p fl rest Ht Hp Hh Hst Hc|c t cp Ht Hp Hh Hc]; try unfold thread_at in Ht.
  - destruct (threads s !! c) as [t|] eqn:Ht.
    + destruct (inv_cpu_of s c t Hi Ht) as (cp & Hc & _).
      pose proof (micro_ok s c t cp load rbp Hi Ht Hc) as H. rewrite Hm in H.
      destruct H as [H1 H2]. split; [done|]. by exists c, t.
    + revert Hm. unfold micro, getthread, mbind, M_bind, gets, the. by rewrite Ht.
  - apply (effect_call s c t _ lk); auto.
  - apply (effect_call s c t _ lk); auto.
  - apply (effect_post s _ c t Ht), (post_stay s c t Hi Ht).
    all: destruct (inv_cpu_of s c t Hi Ht) as (cp' & Hc' & K); simplify_eq.
    all: destruct (enabled_light _ _ _ K He) as (Hli & Hh & Hn); unfold owned; simpl.
    + destruct K as [K1 K2 K3 K4 K5 K6]. split; simpl; rewrite ?Hh; auto.
      * intros _. apply enabled_cli.
      * constructor.
      * done.
    + by rewrite light_owns.
    + done.
  - destruct (inv_cpu_of s c t Hi Ht) as (cp' & Hc' & K); simplify_eq.
    destruct t as [p0 st h]; simpl in *; subst p0 h st. destruct K as [K1 K2 K3 K4 K5 K6].
    apply list.Forall_cons in K3 as [[Hli Hin] K3]. simpl in *.
    apply (effect_post s _ c _ Ht), (post_stay s c _ Hi Ht); unfold owned; simpl;
      rewrite ?(light_owns p Hli); [|done..].
    split; unfold owned; simpl; rewrite ?(light_owns p Hli); auto; destruct Hli as [Hd Hn].
    + by rewrite Hd.
    + rewrite Hn. intros [?|?]; [lia|done].
  - destruct (inv_cpu_of s c t Hi Ht) as (cp' & Hc' & K); simplify_eq.
    set (m' := Machine _ _).
    assert (Sys m' (threads s) = Sys m' (<[c := t]> (threads s))) as -> by (by rewrite list_insert_id).
    apply (effect_post s _ c _ Ht), (post_stay s c _ Hi Ht); [|done..].
    destruct t as [p st h]; simpl in *; subst p h. destruct K as [K1 K2 K3 K4 K5 K6].
    split; auto. simpl in *. intros [?|?]; [lia|done].
Qed.

Lemma lock_reachable_inv may s : reachable may s → inv s.
Proof. induction 1; [by apply inv_initial|]. by apply (lock_step_effect may s). Qed.

(** ** Owners *)

Lemma inv_unique s c c' l : inv s → owns (threads s) c l → owns (threads s) c' l → c = c'.
Proof.
  intros Hi H1 H2. pose proof H1 as (t & Ht & Hin).
  destruct (inv_cpu_of s c t Hi Ht) as (cp & Hc & K).
  pose proof (co_range _ _ _ K) as Hr. rewrite list.Forall_forall in Hr. specialize (Hr l Hin).
  apply lookup_lt_is_Some_2 in Hr as [lk Hl].
  destruct (lo_locked _ _ _ (inv_lock s Hi l lk Hl)) as [[_ Hn]|[_ [o Ho]]]; [by apply Hn in H1|].
  apply Ho in H1, H2. congruence.
Qed.

Lemma owner_spec s c l : inv s → owner s l = Some c ↔ owns (threads s) c l.
Proof.
  intros Hi. unfold owner. split.
  - rewrite fmap_Some. intros ((i & t) & Hf & ->). apply list_find_Some in Hf as (? & ? & _).
    by exists t.
  - intros Ho. pose proof Ho as (t & Ht & Hin).
    destruct (list_find (λ t, l ∈ owned t) (threads s)) as [[i t']|] eqn:E; simpl.
    + apply list_find_Some in E as (H1 & H2 & _). f_equal.
      apply (inv_unique s _ _ l Hi); [by exists t'|done].
    + apply list_find_None in E. eapply Forall_lookup_1 in E; [|done]. done.
Qed.

Lemma owner_none s l : inv s → owner s l = None ↔ ∀ c, ¬ owns (threads s) c l.
Proof.
  intros Hi. split.
  - intros E c Ho. apply (owner_spec _ _ _ Hi) in Ho. congruence.
  - intros Hn. destruct (owner s l) as [c|] eqn:E; [|done].
    apply (owner_spec _ _ _ Hi) in E. by apply Hn in E.
Qed.

Lemma owner_same s s' l :
  inv s → inv s' → (∀ c, owns (threads s') c l ↔ owns (threads s) c l) → owner s' l = owner s l.
Proof.
  intros Hi Hi' H. apply option_eq. intros c. by rewrite !owner_spec.
Qed.

Lemma moved_atomic s s' c t :
  inv s → inv s' → threads s !! c = Some t → moved s s' c t →
  atomic_step (owner s) (owner s').
Proof.
  intros Hi Hi' Ht (t' & Et & H). pose proof (owns_insert _ _ _ t' Ht) as Ho. rewrite <- Et in Ho.
  pose proof (owns_here _ _ _ Ht) as Hh.
  destruct H as [Hs|[(lk & Hf & Hs)|(lk & Hin & Hs)]].
  - apply atomic_stutter. intros l. apply owner_same; [done..|]. intros c'. rewrite Ho.
    case_decide; [subst; by rewrite Hh|done].
  - apply (atomic_acquire _ _ c lk); [by apply owner_none| |].
    + apply owner_spec; [done|]. apply Ho. rewrite decide_True by done. apply Hs. auto.
    + intros l Hne. apply owner_same; [done..|]. intros c'. rewrite Ho.
      case_decide; [subst; rewrite Hh, Hs; tauto|done].
  - apply (atomic_release _ _ c lk); [by apply owner_spec; [|apply Hh]| |].
    + apply owner_none; [done|]. intros c'. rewrite Ho. case_decide as E; [rewrite Hs; tauto|].
      intros H. apply E. apply (inv_unique s _ _ lk Hi); [done|]. by apply Hh.
    + intros l Hne. apply owner_same; [done..|]. intros c'. rewrite Ho.
      case_decide; [subst; rewrite Hh, Hs; tauto|done].
Qed.

(** ** The order of locks *)

(** the lock an acquire that is under way asks for *)
Definition acquiring (p : pc) : option nat :=
  match p with
  | AcqStart lk | AcqCli lk _ | AcqCount lk _ | AcqSpin lk => Some lk
  | _ => None
  end.
Definition in_order (rank : nat → nat) (lk : nat) (held : list nat) : Prop :=
  Forall (λ l, (rank l < rank lk)%nat) held.
Definition ordered (rank : nat → nat) (t : thread) : Prop :=
  ∀ lk, acquiring (t_pc t) = Some lk → in_order rank lk (t_held t).
(** the CPU spins on a lock that is taken *)
Definition waits (s : sys) (t : thread) (lk : nat) : Prop :=
  t_pc t = AcqSpin lk ∧ owner s lk ≠ None.

Lemma zoom_mach {A} (m : M machine A) s a s' :
  zoom mach_lens m s = Ok a s' → threads s' = threads s.
Proof. unfold zoom. simpl. destruct (m (mach s)); naive_solver. Qed.

Lemma zoom_upd {A} (m : M machine A) (f : A → thread → thread) c s s' :
  (a ← zoom mach_lens m; updthread c (f a)) s = Ok tt s' →
  ∃ a, threads s' = alter (f a) c (threads s).
Proof.
  rewrite bind_ok. intros (a & s1 & H1 & H2). apply zoom_mach in H1.
  injection H2 as <-. exists a. simpl. by rewrite H1.
Qed.

Lemma micro_ordered rank c load rbp s s' :
  micro c load rbp s = Ok tt s' → Forall (ordered rank) (threads s) →
  Forall (ordered rank) (threads s').
Proof.
  unfold micro. rewrite bind_ok. intros (t & s1 & Ht & H) Hall.
  assert (threads s !! c = Some t ∧ s1 = s) as [Hc ->].
  { revert Ht. unfold getthread, mbind, M_bind, gets, the.
    destruct (threads s !! c); [by intros [= -> ->]|done]. }
  pose proof (Forall_lookup_1 _ _ _ _ Hall Hc) as Ho. unfold ordered in Ho.
  assert (∀ f, ordered rank (f t) → Forall (ordered rank) (alter f c (threads s))) as Hf.
  { intros f Hft. rewrite (alter_known _ _ _ _ Hc). by apply Forall_insert. }
  destruct (t_pc t) eqn:E; [by injection H as <-|..];
    first [apply (zoom_upd _ (λ a, _)) in H as [a ->]|apply (zoom_upd _ (λ _, _)) in H as [a ->]];
    apply Hf; unfold ordered; simpl; try done.
  destruct (a =? 0); simpl; [done|]. auto.
Qed.

Lemma step_ordered rank s s' :
  step (in_order rank) s s' → Forall (ordered rank) (threads s) → Forall (ordered rank) (threads s').
Proof.
  intros [c load rbp s1 Hm|c t lk Ht Hp Hl Hmay|c t lk Ht Hp Hl|c t cp Ht Hc He
         |c t cp p fl rest Ht Hp Hh Hst Hc|c t cp Ht Hp Hh Hc] Hall; simpl;
    [by eapply micro_ordered|try (apply Forall_insert; [done|])..|done]; intros lk' E.
  - simpl in *. by injection E as <-.
  - done.
  - done.
  - constructor.
Qed.

Lemma reachable_ordered rank s : reachable (in_order rank) s → Forall (ordered rank) (threads s).
Proof.
  induction 1 as [s (_ & _ & Ht & _)|]; [|by eapply step_ordered].
  eapply list.Forall_impl; [exact Ht|]. by intros t -> lk [=].
Qed.

(** Who waits, waits in the end for a CPU that does not wait. *)
Lemma waits_for rank s :
  inv s → Forall (ordered rank) (threads s) →
  ∀ k c t lk, (list_max (rank <$> seq 0 (length (locks (mach s)))) - rank lk < k)%nat →
    threads s !! c = Some t → waits s t lk →
    ∃ c' t' l', threads s !! c' = Some t' ∧ l' ∈ owned t' ∧ ∀ l, ¬ waits s t' l.
Proof.
  intros Hi Hall. induction k as [|k IH]; intros c t lk Hk Ht [Hp Ho]; [lia|].
  destruct (owner s lk) as [c'|] eqn:E; [|done].
  apply owner_spec in E as (t' & Ht' & Hin); [|done].
  destruct (t_pc t') eqn:Hp'; try (exists c', t', lk; split; [done|]; split; [done|];
    intros l [Hl _]; congruence).
  destruct (owner s lk0) as [c2|] eqn:E2.
  - apply (IH c' t' lk0); [|done|split; [done|congruence]].
    pose proof (Forall_lookup_1 _ _ _ _ Hall Ht') as Hord.
    unfold ordered in Hord. rewrite Hp' in Hord. specialize (Hord _ eq_refl).
    unfold in_order in Hord. rewrite list.Forall_forall in Hord.
    unfold owned in Hin. rewrite Hp' in Hin. specialize (Hord lk Hin). simpl in Hord.
    destruct (inv_cpu_of s c' t' Hi Ht') as (cp & _ & K). pose proof (co_pc _ _ _ K) as Hr.
    rewrite Hp' in Hr. specialize (Hr lk0 eq_refl).
    assert (rank lk0 ≤ list_max (rank <$> seq 0 (length (locks (mach s)))))%nat; [|lia].
    pose proof (proj1 (list_max_le (rank <$> seq 0 (length (locks (mach s)))) _) (le_n _)) as Hm.
    rewrite Forall_fmap, list.Forall_forall in Hm. apply Hm, elem_of_seq. lia.
  - exists c', t', lk. split; [done|]. split; [done|]. intros l [Hl Hol]. congruence.
Qed.

(** A piece of lock code moves on, except for the exchange on a lock that is taken. *)
Lemma micro_moves s c t load rbp s' :
  inv s → threads s !! c = Some t → (∀ l, ¬ waits s t l) → t_pc t ≠ Run →
  micro c load rbp s = Ok tt s' → threads s' !! c ≠ Some t.
Proof.
  intros Hi Ht Hw Hp Hm. destruct (inv_cpu_of s c t Hi Ht) as (cp & Hc & _).
  assert (∀ f : thread → thread, threads s' = alter f c (threads s) → t_pc (f t) ≠ t_pc t →
    threads s' !! c ≠ Some t) as Hf.
  { intros f -> Hne. rewrite list_lookup_alter, decide_True, Ht by done. simpl. congruence. }
  destruct (t_pc t) eqn:E; [done|..];
    try (revert Hm; unfold micro, getthread, mbind at 1, M_bind at 1, gets, mbind at 1, M_bind at 1, the;
         rewrite Ht; simpl; rewrite E; intros Hm;
         first [apply (zoom_upd _ (λ a, _)) in Hm as [a Hm]|apply (zoom_upd _ (λ _, _)) in Hm as [a Hm]];
         by apply (Hf _ Hm)).
  destruct (the_lock s c t cp Hi Ht Hc lk) as (r & Hr & [_ Hl]); [by rewrite E|].
  destruct Hl as [[El _]|[_ [o Ho]]].
  - revert Hm. run_simpl. rewrite Ht. simpl. rewrite E, Hr. simpl. rewrite El. intros [= <-].
    simpl. rewrite list_lookup_alter, decide_True, Ht by done. simpl. intros [= H].
    rewrite <- H in E. done.
  - destruct (Hw lk). split; [done|]. intros Hn. rewrite owner_none in Hn by done.
    by apply (Hn o), Ho.
Qed.

(** * The theorems *)

(** C8. The lock of spinlock.c is a lock: in every interleaving of the CPUs, of the
    pieces of acquire and release and of interrupts, with any use of the locks, a lock that
    a CPU has acquired and not released is owned by that CPU and
    by no other, and every step leaves the owners as they are, or takes one lock that is
    free, or frees one that is owned, as an atomic lock does. *)
Theorem spinlock_refines may s :
  reachable may s →
  (∀ c t l, thread_at s c t → l ∈ t_held t → owner s l = Some c) ∧
  (∀ s', step may s s' → atomic_step (owner s) (owner s')).
Proof.
  intros Hr. apply lock_reachable_inv in Hr as Hi. split.
  - intros c t l Ht Hin. apply owner_spec; [done|]. exists t. unfold owned. set_solver.
  - intros s' Hs. destruct (lock_step_effect _ _ _ Hi Hs) as (Hi' & c & t & Ht & Hm).
    by apply (moved_atomic s s' c t).
Qed.

(** The only panics of spin locks are those of a CPU that acquires a lock it
    holds or releases a lock it does not hold: holding is exact in spite of
    the other CPUs, the counts of pushcli and popcli match, and no overflow occurs.  While a CPU
    holds a lock its interrupts are disabled. *)
Theorem spinlock_panics may s c t :
  reachable may s → thread_at s c t →
  (∀ load rbp, match micro c load rbp s with
               | Ok _ _ => True
               | Sleep _ _ => False
               | Fail f => panics t f
               end) ∧
  (t_held t ≠ [] → ∃ fl, flags_at s c fl ∧ enabled fl = false).
Proof.
  intros Hr Ht. apply lock_reachable_inv in Hr as Hi.
  destruct (inv_cpu_of s c t Hi Ht) as (cp & Hc & K). split.
  - intros load rbp. pose proof (micro_ok s c t cp load rbp Hi Ht Hc) as H.
    by destruct (micro c load rbp s).
  - intros Hne. exists (eflags cp). unfold flags_at. rewrite Hc. split; [done|].
    apply (co_off _ _ _ K). left. rewrite (co_ncli _ _ _ K).
    assert (0 ≤ pc_depth (t_pc t)) by (by destruct (t_pc t)).
    destruct (t_held t); [done|simpl; lia].
Qed.

(** C9. Locks taken in a fixed order never block every CPU: when each acquire asks
    for a lock above those its CPU holds, then whenever a CPU spins on a
    lock that is taken, some CPU owns a lock, does not wait for one, runs with
    interrupts disabled, and the next piece of its lock code, if it is in lock code, moves it on. *)
Theorem spinlock_no_deadlock rank s c t lk :
  reachable (in_order rank) s → thread_at s c t → waits s t lk →
  ∃ c' t' fl, thread_at s c' t' ∧ owned t' ≠ [] ∧ (∀ l, ¬ waits s t' l) ∧
    flags_at s c' fl ∧ enabled fl = false ∧
    ∀ load rbp s', micro c' load rbp s = Ok tt s' → t_pc t' ≠ Run → ¬ thread_at s' c' t'.
Proof.
  intros Hr Ht Hw. pose proof (lock_reachable_inv _ _ Hr) as Hi.
  destruct (waits_for rank s Hi (reachable_ordered _ _ Hr) _ c t lk (Nat.lt_succ_diag_r _) Ht Hw)
    as (c' & t' & l' & Ht' & Hin & Hnw).
  destruct (inv_cpu_of s c' t' Hi Ht') as (cp & Hc & K).
  exists c', t', (eflags cp). split; [done|]. split; [intros E; rewrite E in Hin; set_solver|].
  split; [done|]. unfold flags_at. rewrite Hc. split; [done|]. split.
  - apply (co_off _ _ _ K). left. rewrite (co_ncli _ _ _ K). unfold owned in Hin.
    destruct (t_held t'); simpl; [|destruct (t_pc t'); simpl; lia].
    destruct (t_pc t'); simpl in *; try lia; set_solver.
  - intros load rbp s' Hm Hp. by apply (micro_moves s c' t' load rbp).
Qed.

(** ** The pieces compose to acquire and release *)

Fixpoint micros (n c : nat) (load : Z → Z) (rbp : Z) : M sys unit :=
  match n with O => mret tt | S n => micro c load rbp;; micros n c load rbp end.

Lemma micros_step n c load rbp s t p m' {A} (piece : M machine A) (a : A) (f : A → thread → thread) :
  threads s !! c = Some t → t_pc t = p →
  (∀ s, threads s !! c = Some t → micro c load rbp s =
     (a ← zoom mach_lens piece; updthread c (f a)) s) →
  piece (mach s) = Ok a m' →
  micros (S n) c load rbp s = micros n c load rbp (Sys m' (<[c := f a t]> (threads s))).
Proof.
  intros Ht Hp Hm Hpc. simpl. unfold mbind at 1, M_bind at 1. rewrite Hm by done.
  unfold mbind, M_bind, zoom. simpl. rewrite Hpc. simpl. by rewrite (alter_known _ _ _ _ Ht).
Qed.

Ltac next_piece :=
  erewrite micros_step;
  [|simpl; first [eassumption|apply list_lookup_insert_eq; rewrite ?length_insert; eassumption]
   |reflexivity
   |let s := fresh in let H := fresh in intros s H;
    unfold micro, getthread; unfold mbind at 1, M_bind at 1; unfold mbind at 1, M_bind at 1, gets, the;
    rewrite H; simpl; first [reflexivity|apply (λ x, x)]
   |simpl; eassumption]; cbn [threads mach]; rewrite ?list_insert_insert_eq; cbv beta.

(** On a CPU that runs alone, the pieces of an acquire of a free lock are acquire. *)
Lemma micros_acquire c lk load rbp s t m' :
  threads s !! c = Some t → t_pc t = AcqStart lk →
  acquire 1 c lk load rbp (mach s) = Ok tt m' →
  micros 5 c load rbp s =
    Ok tt (Sys m' (<[c := Thread Run (t_stack t) (lk :: t_held t)]> (threads s))).
Proof.
  intros Ht Hp. pose proof (lookup_lt_Some _ _ _ Ht) as Hlt.
  destruct t as [p st h]; cbn [t_pc t_stack t_held] in *; subst p.
  unfold acquire, pushcli. rewrite bind_ok. intros ([] & m3 & H & H').
  rewrite bind_ok in H. destruct H as (fl & m1 & H1 & H).
  rewrite bind_ok in H. destruct H as ([] & m2 & H2 & H3).
  rewrite bind_ok in H'. destruct H' as ([] & m4 & H4 & H').
  rewrite bind_ok in H'. destruct H' as ([] & m5 & H5 & H6).
  simpl in H5. rewrite bind_ok in H5. destruct H5 as (r & m6 & H5 & H7).
  destruct (r =? 0) eqn:Er; [|done]. injection H7 as <-.
  assert ((pushcli_count c fl;; acquire_check c lk) m2 = Ok tt m4) as H34.
  { by rewrite (bind_run _ _ _ tt m3). }
  do 4 next_piece. rewrite Er. next_piece. reflexivity.
Qed.

Lemma micros_release c lk load rbp s t m' :
  threads s !! c = Some t → t_pc t = RelStart lk →
  release c lk (mach s) = Ok tt m' →
  micros 3 c load rbp s =
    Ok tt (Sys m' (<[c := Thread Run (t_stack t) (filter (λ l, l ≠ lk) (t_held t))]> (threads s))).
Proof.
  intros Ht Hp. pose proof (lookup_lt_Some _ _ _ Ht) as Hlt.
  destruct t as [p st h]; cbn [t_pc t_stack t_held] in *; subst p.
  unfold release. rewrite bind_ok. intros ([] & m1 & H1 & H).
  rewrite bind_ok in H. destruct H as ([] & m2 & H2 & H3).
  do 3 next_piece. reflexivity.
Qed.

(** ** Nested pushcli and popcli *)

(** A sequence of pushcli ([true]) and popcli ([false]) calls. *)
Fixpoint push_pop (me : nat) (ops : list bool) : M machine unit :=
  match ops with
  | [] => mret tt
  | b :: ops => (if (b : bool) then pushcli me else popcli me);; push_pop me ops
  end.
(** it nests to depth [d] and ends at depth 0 *)
Fixpoint nests (d : nat) (ops : list bool) : bool :=
  match ops, d with
  | [], O => true
  | [], S _ => false
  | true :: ops, d => nests (S d) ops
  | false :: ops, S d => nests d ops
  | false :: _, O => false
  end.

Lemma s32_flag fl : Z.land (s32 fl) FL_IF = Z.land fl FL_IF.
Proof.
  apply Z.bits_inj'. intros k Hk. rewrite !Z.land_spec.
  destruct (Z.testbit FL_IF k) eqn:E; [|by rewrite !andb_false_r]. rewrite !andb_true_r.
  assert (k = 9) as ->.
  { destruct (Z.lt_ge_cases k 10).
    - assert (k = 0 ∨ k = 1 ∨ k = 2 ∨ k = 3 ∨ k = 4 ∨ k = 5 ∨ k = 6 ∨ k = 7 ∨ k = 8 ∨ k = 9)
        as H' by lia. by repeat (destruct H' as [->|H']; [try done|]).
    - rewrite Z.bits_above_log2 in E by (done || simpl; lia). done. }
  unfold sext. assert (Z.testbit (wrap 32 fl) 9 = Z.testbit fl 9) as <-.
  { unfold wrap. by rewrite Z.mod_pow2_bits_low by lia. }
  destruct (_ <? _); [done|].
  rewrite <- (Z.mod_pow2_bits_low (wrap 32 fl - 2 ^ 32) 32) by lia.
  rewrite <- Zminus_mod_idemp_r, Z_mod_same_full, Z.sub_0_r.
  by rewrite Z.mod_pow2_bits_low by lia.
Qed.

Lemma cli_sti fl : enabled fl = true → Z.lor (Z.land fl (Z.lnot FL_IF)) FL_IF = fl.
Proof.
  intros H. apply Z.bits_inj'. intros k Hk. rewrite Z.lor_spec, Z.land_spec, Z.lnot_spec by done.
  destruct (Z.testbit FL_IF k) eqn:E; simpl; rewrite ?andb_true_r, ?orb_false_r; [|done].
  rewrite andb_false_r. simpl. symmetry. apply negb_true_iff, Z.eqb_neq in H.
  destruct (Z.testbit fl k) eqn:E'; [done|]. destruct H. apply Z.bits_inj'. intros j Hj.
  rewrite Z.land_spec, Z.bits_0. destruct (Z.testbit FL_IF j) eqn:Ej; [|by rewrite andb_false_r].
  change FL_IF with (2 ^ 9) in E, Ej. rewrite Z.pow2_bits_eqb in E, Ej by lia.
  apply Z.eqb_eq in E, Ej. subst. by rewrite E'.
Qed.

Lemma cli_off fl : enabled fl = false → Z.land fl (Z.lnot FL_IF) = fl.
Proof.
  intros H. apply negb_false_iff, Z.eqb_eq in H.
  assert (Z.lor (Z.land fl FL_IF) (Z.land fl (Z.lnot FL_IF)) = fl) as H'.
  { by rewrite <- Z.land_lor_distr_r, Z.lor_lnot_diag, Z.land_m1_r. }
  by rewrite H, Z.lor_0_l in H'.
Qed.

Lemma pushcli_run c m cp :
  cpus m !! c = Some cp → 0 ≤ ncli cp < 2 ^ 31 - 1 →
  pushcli c m = Ok tt (Machine
    (<[c := pushed (eflags cp)
              (Cpu (ncli cp) (intena cp) (Z.land (eflags cp) (Z.lnot FL_IF)))]> (cpus m)) (locks m)).
Proof.
  intros Hc Hn. unfold pushcli.
  rewrite (bind_run _ _ _ (eflags cp) m) by (run_simpl; by rewrite Hc).
  rewrite (bind_run _ _ _ tt (Machine (<[c := Cpu (ncli cp) (intena cp)
    (Z.land (eflags cp) (Z.lnot FL_IF))]> (cpus m)) (locks m)))
    by (run_simpl; by rewrite (alter_known _ _ _ _ Hc)).
  rewrite (pushcli_count_run _ _ _ (Cpu (ncli cp) (intena cp) (Z.land (eflags cp) (Z.lnot FL_IF)))).
  - simpl. by rewrite list_insert_insert_eq.
  - apply list_lookup_insert_eq. by apply lookup_lt_Some in Hc.
  - done.
Qed.

(** Inside of a nest of depth [d] that began with flags [fl]. *)
Definition nested (d : nat) (fl : Z) (cp : cpu) : Prop :=
  ncli cp = Z.of_nat d ∧
  match d with
  | O => eflags cp = fl
  | S _ => eflags cp = Z.land fl (Z.lnot FL_IF) ∧ intena cp = Z.land fl FL_IF
  end.

Lemma nested_push d fl cp :
  nested d fl cp →
  nested (S d) fl (pushed (eflags cp) (Cpu (ncli cp) (intena cp) (Z.land (eflags cp) (Z.lnot FL_IF)))).
Proof.
  intros [Hn Hd]. split; simpl; [lia|]. rewrite Hn. destruct d; simpl.
  - rewrite Hd. split; [done|]. apply s32_flag.
  - destruct Hd as [-> ->]. split; [|done].
    by rewrite <- Z.land_assoc, Z.land_diag.
Qed.

Lemma nested_pop d fl cp : nested (S d) fl cp → nested d fl (popped cp).
Proof.
  intros [Hn [He Hi]]. split; [simpl; lia|]. cbn [popped eflags intena]. rewrite Hn, He, Hi.
  destruct d as [|d].
  - destruct (enabled fl) eqn:E; unfold enabled in E; rewrite E; simpl;
      [by apply cli_sti|by apply cli_off].
  - replace (Z.of_nat (S (S d)) =? 1) with false by (symmetry; apply Z.eqb_neq; lia). done.
Qed.

(** Matched pushcli and popcli calls return, and leave the interrupt flag, and all
    flags, as they were before the first. *)
Theorem pushcli_popcli_nest c ops m cp :
  cpus m !! c = Some cp → ncli cp = 0 → nests 0 ops = true → Z.of_nat (length ops) < 2 ^ 31 →
  ∃ m' cp', push_pop c ops m = Ok tt m' ∧ cpus m' !! c = Some cp' ∧
    ncli cp' = 0 ∧ eflags cp' = eflags cp.
Proof.
  intros Hc Hn Hb Hlen.
  assert (nested 0 (eflags cp) cp) as Hd by done.
  assert (Z.of_nat 0 + Z.of_nat (length ops) < 2 ^ 31) as Hl by lia.
  clear Hn Hlen. revert Hc Hd Hb Hl. generalize (eflags cp) as fl. generalize 0%nat as d.
  revert m cp. induction ops as [|b ops IH]; intros m cp d fl Hc Hd Hb Hl.
  { destruct d; [|done]. destruct Hd as [Hn He]. by exists m, cp. }
  simpl in *. pose proof (lookup_lt_Some _ _ _ Hc) as Hlt. pose proof Hd as [Hn _]. destruct b.
  - rewrite (bind_run _ _ _ tt _ (pushcli_run c m cp Hc ltac:(lia))).
    eapply (IH _ _ (S d) fl); simpl; [by apply list_lookup_insert_eq|by apply nested_push|done|lia].
  - destruct d as [|d]; [done|]. destruct Hd as [? [He Hi]].
    rewrite (bind_run _ _ _ tt _ (popcli_run c m cp Hc ltac:(rewrite He; apply enabled_cli) ltac:(lia))).
    eapply (IH _ _ d fl); simpl; [by apply list_lookup_insert_eq|by apply nested_pop|done|lia].
Qed.

(** * Examples *)

(** Two CPUs with interrupts enabled and two free locks. *)
Definition ex_sys : sys :=
  Sys (Machine (replicate 2 (Cpu 0 0 FL_IF)) (replicate 2 (Spinlock 0 "lock" None (replicate 10 0))))
      (replicate 2 (Thread Run [] [])).

(** A run: an acquire that a CPU calls, or the next piece of its code. *)
Fixpoint drive (ops : list (nat * option nat)) (s : sys) : option sys :=
  match ops with
  | [] => Some s
  | (c, None) :: ops =>
      match micro c (λ _, 0) 0 s with Ok _ s' => drive ops s' | _ => None end
  | (c, Some lk) :: ops =>
      match threads s !! c with
      | Some (Thread Run st h) =>
          if decide ((lk < length (locks (mach s)))%nat ∧ in_order id lk h)
          then drive ops (Sys (mach s) (<[c := Thread (AcqStart lk) st h]> (threads s)))
          else None
      | _ => None
      end
  end.

Lemma drive_reachable ops s s' :
  reachable (in_order id) s → drive ops s = Some s' → reachable (in_order id) s'.
Proof.
  revert s. induction ops as [|[c [lk|]] ops IH]; intros s Hr H; simpl in H; [congruence|..].
  - destruct (threads s !! c) as [[p st h]|] eqn:Ht; [|done]. destruct p; try done.
    case_decide as Hd; [|done]. apply (IH _) in H; [done|]. eapply reach_step; [done|].
    destruct Hd. by apply (step_acquire _ s c (Thread Run st h) lk).
  - destruct (micro c (λ _, 0) 0 s) as [[] s1| |] eqn:Hm; try done.
    apply (IH s1) in H; [done|]. eapply reach_step; [done|]. by eapply step_micro.
Qed.

(** CPU 0 acquires lock 0, and CPU 1 spins on it. *)
Definition ex_ops : list (nat * option nat) :=
  [(0, Some 0); (0, None); (0, None); (0, None); (0, None); (0, None);
   (1, Some 0); (1, None); (1, None); (1, None)]%nat.
Definition ex_spin : sys := default ex_sys (drive ex_ops ex_sys).

Lemma ex_reachable : reachable (in_order id) ex_spin.
Proof.
  apply (drive_reachable ex_ops ex_sys); [|reflexivity]. apply reach_init.
  repeat split; by repeat constructor.
Qed.

Lemma spinlock_refines_witness :
  owner ex_spin 0 = Some 0%nat ∧ ∀ s', step (in_order id) ex_spin s' → atomic_step (owner ex_spin) (owner s').
Proof.
  destruct (spinlock_refines (in_order id) ex_spin ex_reachable) as [H1 H2]. split; [|exact H2].
  apply (H1 0%nat (Thread Run [] [0%nat])); [reflexivity|]. simpl. by left.
Defined.

Lemma spinlock_panics_witness :
  ∃ fl, flags_at ex_spin 0 fl ∧ enabled fl = false.
Proof.
  apply (spinlock_panics (in_order id) ex_spin 0 (Thread Run [] [0%nat]) ex_reachable); done.
Defined.

Lemma spinlock_no_deadlock_witness :
  ∃ c' t', thread_at ex_spin c' t' ∧ owned t' ≠ [] ∧ ∀ l, ¬ waits ex_spin t' l.
Proof.
  destruct (spinlock_no_deadlock id ex_spin 1 (Thread (AcqSpin 0) [] []) 0 ex_reachable)
    as (c' & t' & fl & H1 & H2 & H3 & _); [reflexivity|split; done|].
  by exists c', t'.
Defined.
