(* ===== verification/Kalloc.v ===== *)
(** The physical page allocator (src/kalloc.c): a free list threaded through
    the free pages themselves. *)

From S2P Require Import Prelude Bytes Mem.

(** kmem, with the memory that the free list lives in *)
Record kmem := Kmem {
  km_lock : bool;
  km_use_lock : bool;
  km_freelist : Z;
  km_mem : pmem;
}.

Definition set_km_lock (b : bool) (s : kmem) : kmem :=
  Kmem b (km_use_lock s) (km_freelist s) (km_mem s).
Definition set_km_use_lock (b : bool) (s : kmem) : kmem :=
  Kmem (km_lock s) b (km_freelist s) (km_mem s).
Definition set_km_freelist (v : Z) (s : kmem) : kmem :=
  Kmem (km_lock s) (km_use_lock s) v (km_mem s).
Definition set_km_mem (m : pmem) (s : kmem) : kmem :=
  Kmem (km_lock s) (km_use_lock s) (km_freelist s) m.
Definition kmem_lock : lens kmem bool := Lens km_lock set_km_lock.

(** Stores through a pointer; a page that does not exist is a wild pointer. *)
Definition mem_upd (f : pmem → option pmem) : M kmem unit :=
  m ← gets km_mem; m' ← the "store" (f m); modify (set_km_mem m').

Section Code.
(** the linker's symbol [end], the first address after the kernel *)
Context (kend : Z).

Definition kfree (v : Z) : M kmem unit :=
  if negb (v mod PGSIZE =? 0) || (v <? kend) || (PHYSTOP <=? V2P v) then panic "kfree" else
  mem_upd (store_bytes v (full_page 1));;
  use ← gets km_use_lock;
  when use (acquire kmem_lock);;
  next ← gets km_freelist;
  mem_upd (store64 v next);;
  modify (set_km_freelist v);;
  when use (release kmem_lock).

Definition kalloc : M kmem Z :=
  use ← gets km_use_lock;
  when use (acquire kmem_lock);;
  r ← gets km_freelist;
  (if negb (r =? 0) then
     m ← gets km_mem;
     next ← the "r->next" (load64 m r);
     modify (set_km_freelist next)
   else panic "Out of memory!");;
  when use (release kmem_lock);;
  mret r.

(** The loop of freerange. *)
Fixpoint freerange_loop (fuel : nat) (p vend : Z) : M kmem unit :=
  if p + PGSIZE <=? vend then
    match fuel with
    | O => out_of_fuel
    | S fuel => kfree p;; freerange_loop fuel (p + PGSIZE) vend
    end
  else mret tt.

Definition freerange (vstart vend : Z) : M kmem unit :=
  let p := PGROUNDUP vstart in
  freerange_loop (Z.to_nat ((vend - p) / PGSIZE)) p vend.

Definition kinit1 (vstart vend : Z) : M kmem unit :=
  modify (set_km_lock false);;
  modify (set_km_use_lock false);;
  modify (set_km_freelist 0);;
  freerange vstart vend.

Definition kinit2 : M kmem unit := modify (set_km_use_lock true).
End Code.

(** * The free list *)

(** The list [l] of pages is linked from [head] in memory [m]. *)
Fixpoint free_list (m : pmem) (head : Z) (l : list Z) : Prop :=
  match l with
  | [] => head = 0
  | v :: l => head = v ∧ ∃ next, load64 m v = Some next ∧ free_list m next l
  end.

(** The free list is not affected by other pages. *)
Lemma free_list_frame (m m' : pmem) head l :
  (∀ v, v ∈ l → m' !! page_of v = m !! page_of v) →
  free_list m head l → free_list m' head l.
Proof.
  revert head. induction l as [|v l IH]; intros head Hm; simpl; [done|].
  intros (->&next&Hn&Hl). split; [done|]. exists next. split.
  - unfold load64 in *. by rewrite Hm by set_solver.
  - apply IH; [|done]. intros. apply Hm. set_solver.
Qed.

(** The page that kfree leaves: junk, and the link in its first word. *)
Definition freed_page (next : Z) : list Z := put_u64 0 next (full_page 1).

Lemma freed_is_page next : is_page (freed_page next).
Proof.
  assert (length (full_page 1) = Z.to_nat PGSIZE) as Hl by by vm_compute. split.
  - unfold freed_page. rewrite length_put_le; [done|]. rewrite Hl. unfold PGSIZE. lia.
  - apply put_le_bytes, Forall_replicate. split; by vm_compute.
Qed.

Lemma use_acquire_run (use : bool) s :
  km_lock s = false → when use (acquire kmem_lock) s = Ok tt (set_km_lock use s).
Proof. intros H. destruct use; [by apply acquire_run|]. destruct s; simpl in *; by subst. Qed.

Section Proofs.
Context (kend : Z) (Hend : KERNBASE ≤ kend).
Implicit Types (m : pmem) (v p : Z) (l : list Z).

(** A page that kfree accepts. *)
Definition good_page v : Prop := v mod PGSIZE = 0 ∧ kend ≤ v ∧ v < KERNBASE + PHYSTOP.

Record kmem_inv (s : kmem) (l : list Z) : Prop := {
  ki_lock : km_lock s = false;
  ki_list : free_list (km_mem s) (km_freelist s) l;
  ki_nodup : NoDup l;
  ki_good : Forall good_page l;
  ki_pages : ∀ v, good_page v → ∃ pg, km_mem s !! page_of v = Some pg ∧ is_page pg;
  (** there is no memory at the null pointer *)
  ki_null : km_mem s !! page_of 0 = None;
}.

Lemma good_page_addr v :
  good_page v → page_of v * PGSIZE + KERNBASE = v ∧ off_of v = 0%nat ∧ v ≠ 0 ∧
    V2P v = v - KERNBASE ∧ 0 ≤ v < 2 ^ 64.
Proof using Hend.
  intros (Ha&Hk&Hp). unfold page_of, off_of, V2P, KERNBASE, PHYSTOP, PGSIZE in *.
  rewrite wrap_small by lia.
  assert ((v - 0xFFFF800000000000) mod 4096 = 0) as E.
  { rewrite Zminus_mod, Ha. done. }
  rewrite E. pose proof (Z.div_mod (v - 0xFFFF800000000000) 4096 ltac:(lia)). lia.
Qed.

Lemma good_page_null v : good_page v → page_of v ≠ page_of 0.
Proof using Hend.
  intros Hv. pose proof (good_page_addr v Hv) as (E&_). destruct Hv as (_&_&Hlt).
  change (page_of 0) with 0x800000000. unfold PHYSTOP, PGSIZE in *. lia.
Qed.

Lemma good_page_inj v v' : good_page v → good_page v' → page_of v = page_of v' → v = v'.
Proof using Hend.
  intros Hv%good_page_addr Hv'%good_page_addr. lia.
Qed.

Lemma kfree_run s l v :
  kmem_inv s l → good_page v → v ∉ l →
  let s' := set_km_mem (<[page_of v := freed_page (km_freelist s)]> (km_mem s)) (set_km_freelist v s) in
  kfree kend v s = Ok tt s' ∧ kmem_inv s' (v :: l).
Proof using Hend.
  intros Hinv Hv Hnl s'. destruct (ki_pages s l Hinv v Hv) as (pg&Hpg&Hlen&Hb).
  destruct (good_page_addr v Hv) as (_&Hoff&Hnz&Hvp&Hr). pose proof Hv as (Hal&Hge&Hlt).
  pose proof (ki_lock s l Hinv) as Hlk.
  assert (store_bytes v (full_page 1) (km_mem s) = Some (<[page_of v := full_page 1]> (km_mem s))) as E1.
  { unfold store_bytes. rewrite Hpg, Hoff. cbn [mbind option_bind]. rewrite decide_True by done.
    do 2 f_equal. apply splice_all. rewrite Hlen. by vm_compute. }
  assert (store64 v (km_freelist s) (<[page_of v := full_page 1]> (km_mem s)) = Some (km_mem s')) as E2.
  { unfold store64. rewrite lookup_insert_eq, Hoff. cbn [mbind option_bind].
    rewrite decide_True by (unfold PGSIZE; lia). by rewrite insert_insert_eq. }
  split.
  - unfold kfree. rewrite Hal, Hvp.
    rewrite (proj2 (Z.ltb_ge v kend)), (proj2 (Z.leb_gt PHYSTOP _)) by lia. cbn [Z.eqb negb orb].
    erewrite bind_run.
    2:{ unfold mem_upd. erewrite bind_run by done. rewrite E1. erewrite bind_run by done. done. }
    erewrite bind_run by done.
    erewrite bind_run by by apply use_acquire_run. erewrite bind_run by done.
    erewrite bind_run.
    2:{ unfold mem_upd. erewrite bind_run by done. cbn [km_mem set_km_mem set_km_lock km_freelist].
        rewrite E2. erewrite bind_run by done. done. }
    erewrite bind_run by done. cbn [km_use_lock set_km_mem].
    destruct s as [lk use fl m]. simpl in *. subst lk. by destruct use.
  - destruct Hinv as [_ Hl Hnd Hg Hp Hnull]. split; simpl; [done| | | | |].
    + split; [done|]. exists (km_freelist s). split.
      * unfold load64. rewrite lookup_insert_eq, Hoff. cbn [mbind option_bind].
        rewrite decide_True by (unfold PGSIZE; lia). f_equal. unfold freed_page.
        rewrite get_put_le_same by (unfold full_page; rewrite length_replicate; unfold PGSIZE; lia).
        apply Z.mod_small. destruct l as [|x l]; simpl in Hl; [rewrite Hl; lia|].
        destruct Hl as [-> _]. apply Forall_cons_1 in Hg as [Hx%good_page_addr _]. lia.
      * eapply free_list_frame; [|exact Hl]. intros x Hx. rewrite list.Forall_forall in Hg.
        apply lookup_insert_ne. intros E; apply good_page_inj in E; auto; congruence.
    + by apply list.NoDup_cons.
    + by constructor.
    + intros x Hx. destruct (decide (page_of x = page_of v)) as [->|Hne].
      * rewrite lookup_insert_eq. eexists. split; [done|]. apply freed_is_page.
      * rewrite lookup_insert_ne by done. by apply Hp.
    + rewrite lookup_insert_ne by by apply good_page_null. done.
Qed.

Lemma kalloc_run s v l :
  kmem_inv s (v :: l) →
  ∃ next, kalloc s = Ok v (set_km_freelist next s) ∧ kmem_inv (set_km_freelist next s) l.
Proof using Hend.
  intros [Hlk (Hh&next&Hn&Hl) Hnd Hg Hp Hnull]. exists next.
  apply list.NoDup_cons in Hnd as [Hv Hnd]. apply Forall_cons_1 in Hg as [Hgv Hg].
  destruct (good_page_addr v Hgv) as (_&_&Hnz&_).
  split; [|by split].
  subst v. unfold kalloc. erewrite bind_run by done.
  erewrite bind_run by by apply use_acquire_run. erewrite bind_run by done.
  cbn [km_freelist set_km_lock]. rewrite (proj2 (Z.eqb_neq _ 0)) by done. cbn [negb].
  erewrite bind_run.
  2:{ erewrite bind_run by done. cbn [km_mem set_km_lock]. rewrite Hn. cbn [the].
      erewrite bind_run by done. done. }
  destruct (km_use_lock s); cbn [when]; erewrite bind_run by done; unfold mret, M_ret; f_equal;
    destruct s; simpl in *; by subst.
Qed.

Lemma kalloc_empty s : kmem_inv s [] → kalloc s = Fail (Panic "Out of memory!").
Proof using kend.
  intros [Hlk Hl _ _ _ _]. simpl in Hl. unfold kalloc. erewrite bind_run by done.
  erewrite bind_run by by apply use_acquire_run. erewrite bind_run by done.
  cbn [km_freelist set_km_lock]. by rewrite Hl.
Qed.

(** The [n] pages from [p] on. *)
Definition pages_from p (n : nat) : list Z := (λ i, p + Z.of_nat i * PGSIZE) <$> seq 0 n.

Lemma pages_from_S p n : pages_from p (S n) = p :: pages_from (p + PGSIZE) n.
Proof using.
  unfold pages_from. simpl. f_equal; [lia|]. rewrite <- fmap_S_seq, <- list_fmap_compose.
  apply list_fmap_ext. intros i x _. unfold compose, PGSIZE. lia.
Qed.

Lemma pages_from_elem p n v :
  v ∈ pages_from p n ↔ ∃ i, (i < n)%nat ∧ v = p + Z.of_nat i * PGSIZE.
Proof using.
  unfold pages_from. rewrite list_elem_of_fmap. setoid_rewrite elem_of_seq.
  split; intros (i&?&?); exists i; lia.
Qed.

Lemma pages_from_good p n :
  p mod PGSIZE = 0 → kend ≤ p → p + Z.of_nat n * PGSIZE ≤ KERNBASE + PHYSTOP →
  ∀ v, v ∈ pages_from p n → good_page v.
Proof using.
  intros Ha Hk Hn v (i&Hi&->)%pages_from_elem. unfold good_page, PGSIZE in *.
  split_and!; [|lia..]. by rewrite Z_mod_plus_full.
Qed.

Lemma freerange_loop_run n p vend s l :
  kmem_inv s l → p mod PGSIZE = 0 → kend ≤ p → vend ≤ KERNBASE + PHYSTOP →
  n = Z.to_nat ((vend - p) / PGSIZE) → (∀ v, v ∈ pages_from p n → v ∉ l) →
  ∃ s', freerange_loop kend n p vend s = Ok tt s' ∧ kmem_inv s' (rev (pages_from p n) ++ l) ∧
    km_use_lock s' = km_use_lock s.
Proof using Hend.
  revert p s l. induction n as [|n IH]; intros p s l Hinv Ha Hk Hv Hn Hdis.
  { exists s. split; [|done]. simpl.
    assert (p + PGSIZE <=? vend = false) as ->; [|done]. apply Z.leb_gt.
    unfold PGSIZE in *. pose proof (Z.div_mod (vend - p) 4096 ltac:(lia)).
    pose proof (Z.mod_pos_bound (vend - p) 4096 ltac:(lia)). lia. }
  assert ((vend - p) / PGSIZE = Z.of_nat (S n)) as Hq by lia.
  assert (p + Z.of_nat (S n) * PGSIZE ≤ vend) as Hle.
  { rewrite <- Hq. unfold PGSIZE. pose proof (Z.div_mod (vend - p) 4096 ltac:(lia)).
    pose proof (Z.mod_pos_bound (vend - p) 4096 ltac:(lia)). lia. }
  cbn [freerange_loop]. rewrite (proj2 (Z.leb_le _ _)) by (unfold PGSIZE in *; lia).
  assert (good_page p) as Hp.
  { apply (pages_from_good p (S n)); [done..|lia|]. rewrite pages_from_S. set_solver. }
  destruct (kfree_run s l p Hinv Hp) as (Hrun&Hinv').
  { apply Hdis. rewrite pages_from_S. set_solver. }
  erewrite bind_run by exact Hrun.
  destruct (IH (p + PGSIZE) _ _ Hinv') as (s'&Hrun'&Hinv''&Hu).
  - rewrite Zplus_mod, Ha. done.
  - unfold PGSIZE. lia.
  - done.
  - replace (vend - (p + PGSIZE)) with ((vend - p) + (-1) * PGSIZE) by lia.
    rewrite Z.div_add by done. lia.
  - intros v Hin [->|?]%elem_of_cons.
    + apply pages_from_elem in Hin as (i&_&E). unfold PGSIZE in E. lia.
    + eapply Hdis; [|done]. rewrite pages_from_S. set_solver.
  - exists s'. split; [done|]. split; [|done].
    rewrite pages_from_S. simpl. by rewrite <- app_assoc.
Qed.

(** The pages that kinit1 puts on the free list. *)
Definition range_pages (vstart vend : Z) : list Z :=
  pages_from (PGROUNDUP vstart) (Z.to_nat ((vend - PGROUNDUP vstart) / PGSIZE)).

Lemma kinit1_run s vstart vend :
  kend ≤ vstart → vstart + PGSIZE ≤ 2 ^ 64 → vend ≤ KERNBASE + PHYSTOP →
  (∀ v, good_page v → ∃ pg, km_mem s !! page_of v = Some pg ∧ is_page pg) →
  km_mem s !! page_of 0 = None →
  ∃ s', kinit1 kend vstart vend s = Ok tt s' ∧ kmem_inv s' (rev (range_pages vstart vend)).
Proof using Hend.
  intros Hs Hov Hv Hp Hnull. unfold kinit1. do 3 erewrite bind_run by done.
  assert (PGROUNDUP vstart = (vstart + PGSIZE - 1) / PGSIZE * PGSIZE) as E.
  { apply PGROUNDUP_spec; [|done]. unfold KERNBASE in *. lia. }
  destruct (freerange_loop_run (Z.to_nat ((vend - PGROUNDUP vstart) / PGSIZE))
    (PGROUNDUP vstart) vend (set_km_freelist 0 (set_km_use_lock false (set_km_lock false s))) [])
    as (s'&Hrun&Hinv&_).
  - split; [done|done|constructor|constructor|done|done].
  - rewrite E. by apply Z_mod_mult.
  - rewrite E. unfold PGSIZE. pose proof (Z.div_mod (vstart + 4096 - 1) 4096 ltac:(lia)).
    pose proof (Z.mod_pos_bound (vstart + 4096 - 1) 4096 ltac:(lia)). lia.
  - done.
  - done.
  - set_solver.
  - exists s'. split; [exact Hrun|]. by rewrite app_nil_r in Hinv.
Qed.
End Proofs.

(** * The allocator and its clients *)

Section System.
Context (kend : Z).
Implicit Types (s : kmem) (o : gset Z) (v : Z).

(** [o] are the pages that clients have: they allocate, free what they have,
    and write whatever they like into it. *)
Inductive kstep : kmem * gset Z → kmem * gset Z → Prop :=
| k_alloc s s' v o : kalloc s = Ok v s' → kstep (s, o) (s', {[v]} ∪ o)
| k_free s s' v o : v ∈ o → kfree kend v s = Ok tt s' → kstep (s, o) (s', o ∖ {[v]})
| k_write s v o pg :
    v ∈ o → is_page pg → kstep (s, o) (set_km_mem (<[page_of v := pg]> (km_mem s)) s, o).

Context (Hend : KERNBASE ≤ kend).

Definition kworld_inv (total : list Z) (w : kmem * gset Z) : Prop :=
  ∃ l, kmem_inv kend w.1 l ∧ (∀ v, v ∈ w.2 → good_page kend v ∧ v ∉ l) ∧
    w.2 ∪ list_to_set l = list_to_set total.

Lemma kstep_inv total w w' : kstep w w' → kworld_inv total w → kworld_inv total w'.
Proof using Hend.
  intros [s s' v o Hrun|s s' v o Hv Hrun|s v o pg Hv Hpg] (l&Hinv&Ho&Htot); simpl in *.
  - destruct l as [|x l]; [by rewrite (kalloc_empty kend) in Hrun|].
    destruct (kalloc_run kend Hend s x l Hinv) as (next&Hrun'&Hinv').
    rewrite Hrun in Hrun'. injection Hrun' as <- ->. exists l. split; [done|].
    destruct Hinv as [_ _ Hnd Hg _ _]. apply list.NoDup_cons in Hnd as [? ?].
    apply Forall_cons_1 in Hg as [? _]. simpl. split.
    + intros y [->%elem_of_singleton|Hy]%elem_of_union; [done|]. destruct (Ho y Hy) as [? Hn].
      split; [done|]. by apply not_elem_of_cons in Hn as [_ ?].
    + rewrite <- Htot. clear. set_solver.
  - destruct (Ho v Hv) as [Hg Hnl]. destruct (kfree_run kend Hend s l v Hinv Hg Hnl) as (Hrun'&Hinv').
    rewrite Hrun in Hrun'. injection Hrun' as ->. exists (v :: l). split; [done|].
    simpl. split.
    + intros y [Hy Hne]%elem_of_difference. destruct (Ho y Hy). split; [done|].
      apply not_elem_of_cons. split; [|done]. intros ->. by apply Hne, elem_of_singleton.
    + rewrite <- Htot. clear -Hv. apply set_eq. intros x. destruct (decide (x = v)); set_solver.
  - exists l. split; [|done]. destruct (Ho v Hv) as [Hg Hnl]. destruct Hinv as [? Hl ? Hgl Hp Hnull].
    split; try done; simpl.
    + eapply free_list_frame; [|done]. intros x Hx. rewrite list.Forall_forall in Hgl.
      apply lookup_insert_ne. intros E. apply (good_page_inj kend Hend) in E; auto. congruence.
    + intros x Hx. destruct (decide (page_of x = page_of v)) as [->|].
      * rewrite lookup_insert_eq. eauto.
      * rewrite lookup_insert_ne by done. by apply Hp.
    + rewrite lookup_insert_ne by by apply (good_page_null kend Hend). done.
Qed.

Lemma kworld_reach total w w' : rtc kstep w w' → kworld_inv total w → kworld_inv total w'.
Proof using Hend. induction 1; eauto using kstep_inv. Qed.

Lemma kworld_count (total : list Z) (w : kmem * gset Z) l :
  kmem_inv kend w.1 l → (∀ v, v ∈ w.2 → good_page kend v ∧ v ∉ l) →
  w.2 ∪ list_to_set l = list_to_set total → NoDup total → (size w.2 + length l)%nat = length total.
Proof using.
  intros Hinv Ho Htot Hnd. rewrite <- (size_list_to_set (C := gset Z) total) by done.
  rewrite <- Htot, size_union.
  - by rewrite (size_list_to_set (C := gset Z) l) by apply Hinv.
  - intros x Hx Hl%elem_of_list_to_set. by destruct (Ho x Hx).
Qed.

End System.

(** All of physical memory, zeroed. *)
Definition ram : pmem :=
  gset_to_gmap (full_page 0) (list_to_set (seqZ 0 (PHYSTOP / PGSIZE))).

Lemma ram_pages kend v :
  KERNBASE ≤ kend → good_page kend v → ∃ pg, ram !! page_of v = Some pg ∧ is_page pg.
Proof.
  intros Hk Hv. exists (full_page 0). split.
  - apply lookup_gset_to_gmap_Some. split; [|done]. apply elem_of_list_to_set, elem_of_seqZ.
    pose proof (good_page_addr kend Hk v Hv) as (?&_). destruct Hv as (?&?&?).
    unfold PHYSTOP, KERNBASE, PGSIZE in *. change (0xE000000 / 4096) with 57344. lia.
  - split; [by vm_compute|]. apply Forall_replicate. split; by vm_compute.
Qed.

Lemma ram_null : ram !! page_of 0 = None.
Proof.
  unfold ram. rewrite lookup_gset_to_gmap_None, elem_of_list_to_set, elem_of_seqZ.
  assert (page_of 0 = 0x800000000) as -> by by vm_compute.
  assert (PHYSTOP / PGSIZE = 57344) as -> by by vm_compute. lia.
Qed.

