(* ===== verification/Vm.v ===== *)
(** Page tables and user memory (src/vm.c): four-level page tables in
    physical memory, allocated from kalloc. *)

From S2P Require Import Prelude Bytes Mem Kalloc.

Definition PTE_PS : Z := 0x080.
Definition PTE_PWT : Z := 0x008.
Definition PTE_PCD : Z := 0x010.
Definition NPDENTRIES : nat := 512.

(** Bitwise or of flags *)
Definition flags (l : list Z) : Z := foldr Z.lor 0 l.

Section Code.
Context (kend : Z).

Definition load (what : string) (v : Z) : M kmem Z := m ← gets km_mem; the what (load64 m v).
Definition store (v x : Z) : M kmem unit := mem_upd (store64 v x).
(** memset(v, 0, PGSIZE) *)
Definition zero_page (v : Z) : M kmem unit := mem_upd (store_bytes v (full_page 0)).
(** &tbl[i] for a table of 64-bit entries *)
Definition entry_addr (tbl i : Z) : Z := u64 (tbl + 8 * i).

Definition setupkvm (kpdpt : Z) : M kmem Z :=
  pml4 ← kalloc;
  zero_page pml4;;
  store (entry_addr pml4 256) (flags [V2P kpdpt; PTE_P; PTE_W]);;
  mret pml4.

(** Returns kpml4 and kpdpt; switchkvm, which loads cr3, is in Segment.v. *)
Definition kvmalloc : M kmem (Z * Z) :=
  kpml4 ← kalloc;
  zero_page kpml4;;
  kpdpt ← kalloc;
  zero_page kpdpt;;
  store (entry_addr kpml4 (PMX KERNBASE)) (flags [V2P kpdpt; PTE_P; PTE_W]);;
  store (entry_addr kpdpt 0) (flags [0; PTE_PS; PTE_P; PTE_W]);;
  store (entry_addr kpdpt 3) (flags [0xC0000000; PTE_PS; PTE_P; PTE_W; PTE_PWT; PTE_PCD]);;
  mret (kpml4, kpdpt).

(** One level of walkpgdir: the table that entry [i] of [tbl] points to, which
    is allocated if need be; 0 if there is none. *)
Definition walk_level (tbl i : Z) (alloc : bool) : M kmem Z :=
  e ← load "page table entry" (entry_addr tbl i);
  if negb (Z.land e PTE_P =? 0) then mret (P2V (PTE_ADDR e))
  else if negb alloc then mret 0
  else
    p ← kalloc;
    if p =? 0 then mret 0
    else
      zero_page p;;
      store (entry_addr tbl i) (flags [V2P p; PTE_P; PTE_W; PTE_U]);;
      mret p.

Definition walkpgdir (pml4 va : Z) (alloc : bool) : M kmem Z :=
  pdp ← walk_level pml4 (PMX va) alloc;
  if pdp =? 0 then mret 0 else
  pd ← walk_level pdp (PDPX va) alloc;
  if pd =? 0 then mret 0 else
  pgtab ← walk_level pd (PDX va) alloc;
  if pgtab =? 0 then mret 0 else
  mret (entry_addr pgtab (PTX va)).

(** The loop of mappages; returns 0 or -1. *)
Fixpoint mappages_loop (fuel : nat) (pgdir a last pa perm : Z) : M kmem Z :=
  match fuel with
  | O => out_of_fuel
  | S fuel =>
      pte ← walkpgdir pgdir a true;
      if pte =? 0 then mret (-1) else
      e ← load "*pte" pte;
      if negb (Z.land e PTE_P =? 0) then panic "remap" else
      store pte (flags [pa; perm; PTE_P]);;
      if a =? last then mret 0
      else mappages_loop fuel pgdir (u64 (a + PGSIZE)) last (u64 (pa + PGSIZE)) perm
  end.

Definition mappages (pgdir va size pa perm : Z) : M kmem Z :=
  let a := PGROUNDDOWN va in
  let last := PGROUNDDOWN (u64 (va + size - 1)) in
  mappages_loop (S (Z.to_nat (u64 (last - a) / PGSIZE))) pgdir a last pa perm.

Definition inituvm (pgdir : Z) (init : list Z) : M kmem unit :=
  if PGSIZE <=? Z.of_nat (length init) then panic "inituvm: more than a page" else
  mem ← kalloc;
  zero_page mem;;
  mappages pgdir PGSIZE PGSIZE (V2P mem) (Z.lor PTE_W PTE_U);;
  mem_upd (store_bytes mem init).

(** readi of fs.c, into a kernel address, is an argument. *)
Fixpoint loaduvm_loop (readi : Z → Z → Z → M kmem Z) (fuel : nat)
    (pgdir addr offset sz i : Z) : M kmem Z :=
  if i <? sz then
    match fuel with
    | O => out_of_fuel
    | S fuel =>
        pte ← walkpgdir pgdir (u64 (addr + i)) false;
        if pte =? 0 then panic "loaduvm: address should exist" else
        e ← load "*pte" pte;
        let pa := PTE_ADDR e in
        let n := if u32 (sz - i) <? PGSIZE then u32 (sz - i) else PGSIZE in
        r ← readi (P2V pa) (u32 (offset + i)) n;
        if negb (r =? n) then mret (-1)
        else loaduvm_loop readi fuel pgdir addr offset sz (u32 (i + PGSIZE))
    end
  else mret 0.

Definition loaduvm (readi : Z → Z → Z → M kmem Z) (pgdir addr offset sz : Z) : M kmem Z :=
  if negb (addr mod PGSIZE =? 0) then panic "loaduvm: addr must be page aligned" else
  loaduvm_loop readi (Z.to_nat (sz / PGSIZE + 1)) pgdir addr offset sz 0.

Fixpoint deallocuvm_loop (fuel : nat) (pgdir a oldsz : Z) : M kmem unit :=
  if a <? oldsz then
    match fuel with
    | O => out_of_fuel
    | S fuel =>
        pte ← walkpgdir pgdir a false;
        (if pte =? 0 then mret tt
         else
           e ← load "*pte" pte;
           when (negb (Z.land e PTE_P =? 0)) (
             let pa := PTE_ADDR e in
             if pa =? 0 then panic "kfree" else
             kfree kend (P2V pa);;
             store pte 0));;
        deallocuvm_loop fuel pgdir (u64 (a + PGSIZE)) oldsz
    end
  else mret tt.

Definition deallocuvm (pgdir oldsz newsz : Z) : M kmem Z :=
  if oldsz <=? newsz then mret oldsz else
  let a := PGROUNDUP newsz in
  deallocuvm_loop (Z.to_nat ((oldsz - a) / PGSIZE + 1)) pgdir a oldsz;;
  mret newsz.

Fixpoint allocuvm_loop (fuel : nat) (pgdir a oldsz newsz : Z) : M kmem Z :=
  if a <? newsz then
    match fuel with
    | O => out_of_fuel
    | S fuel =>
        mem ← kalloc;
        if mem =? 0 then deallocuvm pgdir newsz oldsz;; mret 0
        else
          zero_page mem;;
          r ← mappages pgdir a PGSIZE (V2P mem) (Z.lor PTE_W PTE_U);
          if r <? 0 then deallocuvm pgdir newsz oldsz;; kfree kend mem;; mret 0
          else allocuvm_loop fuel pgdir (u64 (a + PGSIZE)) oldsz newsz
    end
  else mret newsz.

Definition allocuvm (pgdir oldsz newsz : Z) : M kmem Z :=
  if KERNBASE <=? newsz then mret 0 else
  if newsz <? oldsz then mret oldsz else
  let a := PGROUNDUP oldsz in
  allocuvm_loop (Z.to_nat ((newsz - a) / PGSIZE + 1)) pgdir a oldsz newsz.

(** The nested loops of freevm: the table [tbl] has [depth] levels of tables
    below it; the pages that its entries in [idx] point to are freed, after
    what is below them. *)
Fixpoint freevm_entries (depth : nat) : Z → list Z → M kmem unit :=
  fix entries (tbl : Z) (idx : list Z) : M kmem unit :=
    match idx with
    | [] => mret tt
    | i :: idx =>
        e ← load "page table entry" (entry_addr tbl i);
        when (negb (Z.land e PTE_P =? 0)) (
          let child := P2V (PTE_ADDR e) in
          match depth with
          | O => mret tt
          | S depth => freevm_entries depth child (seqZ 0 512)
          end;;
          kfree kend child);;
        entries tbl idx
    end.

Definition freevm (pml4 : Z) : M kmem unit :=
  if pml4 =? 0 then panic "freevm: no pgdir" else
  freevm_entries 3 pml4 (seqZ 0 256);;
  kfree kend pml4.

Definition clearpteu (pgdir uva : Z) : M kmem unit :=
  pte ← walkpgdir pgdir uva false;
  if pte =? 0 then panic "clearpteu" else
  e ← load "*pte" pte;
  store pte (Z.land e (u64 (Z.lnot PTE_U))).

Fixpoint copyuvm_loop (fuel : nat) (pgdir d i sz : Z) : M kmem Z :=
  if i <? sz then
    match fuel with
    | O => out_of_fuel
    | S fuel =>
        pte ← walkpgdir pgdir i false;
        if pte =? 0 then panic "copyuvm: pte should exist" else
        e ← load "*pte" pte;
        if Z.land e PTE_P =? 0 then panic "copyuvm: page not present" else
        let pa := PTE_ADDR e in
        let fl := PTE_FLAGS e in
        mem ← kalloc;
        if mem =? 0 then freevm d;; mret 0
        else
          m ← gets km_mem;
          bs ← the "memmove" (load_bytes m (P2V pa) (Z.to_nat PGSIZE));
          mem_upd (store_bytes mem bs);;
          r ← mappages d i PGSIZE (V2P mem) fl;
          if r <? 0 then freevm d;; mret 0
          else copyuvm_loop fuel pgdir d (u64 (i + PGSIZE)) sz
    end
  else mret d.

(** [sz] is a uint. *)
Definition copyuvm (kpdpt pgdir sz : Z) : M kmem Z :=
  d ← setupkvm kpdpt;
  if d =? 0 then mret 0 else
  let sz := u32 sz in
  copyuvm_loop (Z.to_nat ((sz - PGSIZE) / PGSIZE + 1)) pgdir d PGSIZE sz.

Definition uva2ka (pgdir uva : Z) : M kmem Z :=
  pte ← walkpgdir pgdir uva false;
  e ← load "*pte" pte;
  if Z.land e PTE_P =? 0 then mret 0
  else if Z.land e PTE_U =? 0 then mret 0
  else mret (P2V (PTE_ADDR e)).

Fixpoint copyout_loop (fuel : nat) (pgdir va : Z) (buf : list Z) : M kmem Z :=
  match buf with
  | [] => mret 0
  | _ =>
      match fuel with
      | O => out_of_fuel
      | S fuel =>
          let va0 := PGROUNDDOWN va in
          pa0 ← uva2ka pgdir va0;
          if pa0 =? 0 then mret (-1) else
          let n := Z.to_nat (PGSIZE - (va - va0)) in
          mem_upd (store_bytes (u64 (pa0 + (va - va0))) (take n buf));;
          copyout_loop fuel pgdir (u64 (va0 + PGSIZE)) (drop n buf)
      end
  end.

(** [buf] are the [len] bytes at [p]. *)
Definition copyout (pgdir va : Z) (buf : list Z) : M kmem Z :=
  copyout_loop (S (length buf)) pgdir va buf.
End Code.

(** * Page tables as trees

    [node m r p] is the page that the path [p] of indices leads to from the
    PML4 [r]: a table for paths shorter than 4, a page of user memory for
    paths of length 4. *)

Definition present (e : Z) : bool := negb (Z.land e PTE_P =? 0).
Definition entry (m : pmem) (tbl i : Z) : option Z :=
  e ← load64 m (entry_addr tbl i); if present e then Some e else None.
Definition next (m : pmem) (tbl i : Z) : option Z := (P2V ∘ PTE_ADDR) <$> entry m tbl i.
Fixpoint node (m : pmem) (t : Z) (p : list Z) : option Z :=
  match p with
  | [] => Some t
  | i :: p => t' ← next m t i; node m t' p
  end.

(** Paths in the user half of a page table. *)
Definition upath (p : list Z) : Prop :=
  (length p ≤ 4)%nat ∧ Forall (λ i, 0 ≤ i < 512) p ∧ ∀ i, head p = Some i → i < 256.

Section Nodes.
Implicit Types (m : pmem) (r t v i : Z) (p q : list Z).

Lemma node_app m t p q : node m t (p ++ q) = t' ← node m t p; node m t' q.
Proof.
  revert t. induction p as [|i p IH]; intros t; simpl; [done|].
  destruct (next m t i) as [t'|]; simpl; [apply IH|done].
Qed.

Lemma node_snoc m t p i : node m t (p ++ [i]) = t' ← node m t p; next m t' i.
Proof.
  rewrite node_app. destruct (node m t p) as [t'|]; simpl; [|done].
  by destruct (next m t' i).
Qed.

Lemma upath_snoc p i : upath (p ++ [i]) → upath p ∧ (length p < 4)%nat ∧ 0 ≤ i < 512.
Proof.
  intros (Hl&Hf&Hh). rewrite length_app in Hl. simpl in Hl. apply Forall_app in Hf as [Hf Hi].
  apply Forall_cons_1 in Hi as [Hi _]. split; [|split; [lia|exact Hi]].
  split_and!; [lia|done|]. intros j Hj. apply Hh. by destruct p; [|exact Hj].
Qed.

Lemma upath_app p q : upath (p ++ q) → upath p.
Proof.
  intros (Hl&Hf&Hh). rewrite length_app in Hl. apply Forall_app in Hf as [Hf _].
  split_and!; [lia|done|]. intros j Hj. apply Hh. by destruct p; [|exact Hj].
Qed.
End Nodes.

Section Proofs.
Context (kend : Z) (Hend : KERNBASE ≤ kend).
Implicit Types (m : pmem) (r t v i n : Z) (p q l : list Z) (R : gset Z) (s : kmem).
Local Abbreviation good := (good_page kend).

Lemma entry_addr_spec t i :
  good t → 0 ≤ i < 512 →
  page_of (entry_addr t i) = page_of t ∧ off_of (entry_addr t i) = Z.to_nat (8 * i).
Proof using Hend.
  intros Ht Hi. destruct (good_page_addr kend Hend t Ht) as (E&_&_&Ev&Hr).
  destruct Ht as (Ha&Hk&Hp). unfold page_of, off_of, entry_addr, V2P, KERNBASE, PHYSTOP, PGSIZE in *.
  rewrite (wrap_small 64 (t + 8 * i)) by lia. rewrite !wrap_small in * by lia.
  assert (t + 8 * i - 0xFFFF800000000000 = 8 * i + (t - 0xFFFF800000000000) / 4096 * 4096) as -> by lia.
  rewrite Z_div_plus, Z_mod_plus_full, (Z.div_small (8 * i)), (Z.mod_small (8 * i)) by lia. lia.
Qed.

Lemma load_entry m t i pg :
  good t → 0 ≤ i < 512 → m !! page_of t = Some pg →
  load64 m (entry_addr t i) = Some (get_u64 (Z.to_nat (8 * i)) pg).
Proof using Hend.
  intros Ht Hi Hpg. destruct (entry_addr_spec t i Ht Hi) as [E1 E2].
  unfold load64. rewrite E1, E2, Hpg. simpl. rewrite decide_True; [done|]. unfold PGSIZE. lia.
Qed.

(** Memory [m] with entry [i] of the table [t] set to [x]. *)
Definition set_entry m t i x : pmem :=
  alter (put_u64 (Z.to_nat (8 * i)) x) (page_of t) m.

Lemma store_entry m t i x pg :
  good t → 0 ≤ i < 512 → m !! page_of t = Some pg →
  store64 (entry_addr t i) x m = Some (set_entry m t i x).
Proof using Hend.
  intros Ht Hi Hpg. destruct (entry_addr_spec t i Ht Hi) as [E1 E2].
  unfold store64. rewrite E1, E2, Hpg. simpl. rewrite decide_True by (unfold PGSIZE; lia).
  f_equal. unfold set_entry. apply map_eq. intros k. destruct (decide (k = page_of t)) as [->|].
  - by rewrite lookup_insert_eq, lookup_alter_eq, Hpg.
  - by rewrite lookup_insert_ne, lookup_alter_ne.
Qed.

Lemma entry_frame m m' t i : good t → 0 ≤ i < 512 → m' !! page_of t = m !! page_of t →
  entry m' t i = entry m t i.
Proof using Hend.
  intros Ht Hi E. destruct (entry_addr_spec t i Ht Hi) as [E1 _].
  unfold entry, load64. by rewrite E1, E.
Qed.

Lemma entry_set m t i x pg t' j :
  good t → 0 ≤ i < 512 → m !! page_of t = Some pg → is_page pg → 0 ≤ x < 2 ^ 64 →
  good t' → 0 ≤ j < 512 →
  entry (set_entry m t i x) t' j =
    if decide (t' = t ∧ j = i) then (if present x then Some x else None) else entry m t' j.
Proof using Hend.
  intros Ht Hi Hpg [Hl Hb] Hx Ht' Hj.
  destruct (decide (page_of t' = page_of t)) as [E|E].
  - apply (good_page_inj kend Hend) in E; [|done..]. subst t'. unfold entry.
    rewrite (load_entry m t j pg), (load_entry (set_entry m t i x) t j (put_u64 (Z.to_nat (8 * i)) x pg))
      by (done || (unfold set_entry; by rewrite lookup_alter_eq, Hpg)). simpl.
    case_decide as Hd.
    + destruct Hd as [_ ->]. rewrite get_put_le_same by (rewrite Hl; unfold PGSIZE; lia).
      change (256 ^ Z.of_nat 8) with (2 ^ 64). by rewrite Z.mod_small.
    + rewrite get_put_le_other; [done|rewrite Hl; unfold PGSIZE; lia|].
      assert (i ≠ j) by naive_solver. lia.
  - rewrite decide_False by naive_solver. apply entry_frame; [done..|].
    unfold set_entry. by apply lookup_alter_ne.
Qed.

(** The page tables with roots [R] own their pages: no page is used twice, by
    one table or by two, and none is on the free list [l]. *)
Record vm_inv s l R : Prop := {
  vi_kmem : kmem_inv kend s l;
  vi_node : ∀ r p t, r ∈ R → upath p → node (km_mem s) r p = Some t → good t ∧ t ∉ l;
  vi_inj : ∀ r r' p p' t, r ∈ R → r' ∈ R → upath p → upath p' →
    node (km_mem s) r p = Some t → node (km_mem s) r' p' = Some t → r = r' ∧ p = p';
}.

(** A page that is allocated and not in any page table. *)
Definition fresh s l R n : Prop :=
  good n ∧ n ∉ l ∧ ∀ r p, r ∈ R → upath p → node (km_mem s) r p ≠ Some n.

(** Such pages keep their owner and their contents. *)
Definition untouched s l R s' l' R' : Prop :=
  km_use_lock s' = km_use_lock s ∧
  ∀ v, fresh s l R v → fresh s' l' R' v ∧ km_mem s' !! page_of v = km_mem s !! page_of v.

Lemma untouched_refl s l R : untouched s l R s l R.
Proof using. split; [done|]. by intros v Hv. Qed.

Lemma untouched_trans s l R s' l' R' s'' l'' R'' :
  untouched s l R s' l' R' → untouched s' l' R' s'' l'' R'' → untouched s l R s'' l'' R''.
Proof using.
  intros [U1 H1] [U2 H2]. split; [congruence|]. intros v [H E]%H1. destruct (H2 v H) as [? E']. by rewrite E'.
Qed.

(** A page that is not a table: writing to it does not change the tables. *)
Definition not_table s R n : Prop :=
  ∀ r p, r ∈ R → upath p → (length p < 4)%nat → node (km_mem s) r p ≠ Some n.

Lemma fresh_not_table s l R n : fresh s l R n → not_table s R n.
Proof using. intros (_&_&H) r p Hr Hp _. by apply H. Qed.

Lemma vi_page s l R r p t :
  vm_inv s l R → r ∈ R → upath p → node (km_mem s) r p = Some t →
  ∃ pg, km_mem s !! page_of t = Some pg ∧ is_page pg.
Proof using.
  intros Hi Hr Hp Ht. apply (ki_pages _ _ _ (vi_kmem _ _ _ Hi)). by eapply vi_node.
Qed.

Lemma node_write s l R n pg r p :
  vm_inv s l R → good n → not_table s R n → r ∈ R → upath p →
  node (<[page_of n := pg]> (km_mem s)) r p = node (km_mem s) r p.
Proof using Hend.
  intros Hi Hn Hnt Hr. induction p as [|i p IH] using rev_ind; intros Hp; [done|].
  apply upath_snoc in Hp as (Hp&Hl&Hir). rewrite !node_snoc, IH by done.
  destruct (node (km_mem s) r p) as [t|] eqn:Ht; [|done]. simpl. unfold next. f_equal.
  destruct (vi_node _ _ _ Hi r p t Hr Hp Ht) as [Hg _]. apply entry_frame; [done..|].
  apply lookup_insert_ne. intros E. apply (good_page_inj kend Hend) in E; [|done..].
  subst n. by apply (Hnt r p).
Qed.

Lemma kmem_write s l n pg :
  kmem_inv kend s l → good n → n ∉ l → is_page pg →
  kmem_inv kend (set_km_mem (<[page_of n := pg]> (km_mem s)) s) l.
Proof using Hend.
  intros [Hlk Hl Hnd Hg Hp Hnull] Hn Hnl Hpg. split; simpl; try done.
  - eapply free_list_frame; [|done]. intros v Hv. rewrite list.Forall_forall in Hg.
    apply lookup_insert_ne. intros E. apply (good_page_inj kend Hend) in E; auto. congruence.
  - intros v Hv. destruct (decide (page_of v = page_of n)) as [->|].
    + rewrite lookup_insert_eq. eauto.
    + rewrite lookup_insert_ne by done. by apply Hp.
  - rewrite lookup_insert_ne by by apply (good_page_null kend Hend). done.
Qed.

Lemma vm_write s l R n pg :
  vm_inv s l R → good n → n ∉ l → not_table s R n → is_page pg →
  vm_inv (set_km_mem (<[page_of n := pg]> (km_mem s)) s) l R.
Proof using Hend.
  intros Hi Hn Hnl Hnt Hpg. split; simpl.
  - apply kmem_write; try done. apply Hi.
  - intros r p t Hr Hp. rewrite (node_write s l R) by done. by apply (vi_node _ _ _ Hi).
  - intros r r' p p' t Hr Hr' Hp Hp'. rewrite !(node_write s l R) by done. by apply (vi_inj _ _ _ Hi).
Qed.

(** The nodes that do not go through a changed entry stay. *)
Lemma node_set_other s l R r p t i x r' q :
  vm_inv s l R → r ∈ R → upath (p ++ [i]) → node (km_mem s) r p = Some t → 0 ≤ x < 2 ^ 64 →
  r' ∈ R → upath q → ¬ (r' = r ∧ (p ++ [i]) `prefix_of` q) →
  node (set_entry (km_mem s) t i x) r' q = node (km_mem s) r' q.
Proof using Hend.
  intros Hi Hr Hpi Ht Hx Hr'. pose proof (upath_snoc p i Hpi) as (Hp&Hpl&Hir).
  destruct (vi_node _ _ _ Hi r p t Hr Hp Ht) as [Hg _].
  destruct (vi_page _ _ _ r p t Hi Hr Hp Ht) as (pg&Hpg&Hpgok).
  induction q as [|j q IH] using rev_ind; intros Hq Hnp; [done|].
  apply upath_snoc in Hq as (Hq&Hql&Hj). rewrite !node_snoc, IH; [|done|].
  2:{ intros [-> Hpre]. apply Hnp. split; [done|]. by apply prefix_app_r. }
  destruct (node (km_mem s) r' q) as [t'|] eqn:Ht'; [|done]. simpl. unfold next. f_equal.
  destruct (vi_node _ _ _ Hi r' q t' Hr' Hq Ht') as [Hg' _].
  rewrite (entry_set _ _ _ _ pg) by done. rewrite decide_False; [done|]. intros [-> ->].
  destruct (vi_inj _ _ _ Hi r' r q p t) as [-> ->]; try done. apply Hnp. by split.
Qed.

(** The nodes below a changed entry: [c] is what the entry points to now. *)
Lemma node_set_below s l R r p t i x q :
  vm_inv s l R → r ∈ R → upath (p ++ [i]) → node (km_mem s) r p = Some t → 0 ≤ x < 2 ^ 64 →
  node (set_entry (km_mem s) t i x) r (p ++ [i] ++ q) =
    if present x then node (set_entry (km_mem s) t i x) (P2V (PTE_ADDR x)) q else None.
Proof using Hend.
  intros Hi Hr Hpi Ht Hx. pose proof (upath_snoc p i Hpi) as (Hp&Hpl&Hir).
  destruct (vi_node _ _ _ Hi r p t Hr Hp Ht) as [Hg _].
  destruct (vi_page _ _ _ r p t Hi Hr Hp Ht) as (pg&Hpg&Hpgok).
  rewrite !node_app. rewrite (node_set_other s l R r p t i x r p); try done.
  2:{ intros [_ [k E]]. apply (f_equal length) in E. rewrite !length_app in E. simpl in E. lia. }
  rewrite Ht. simpl. unfold next. rewrite (entry_set _ _ _ _ pg), decide_True by done.
  by destruct (present x).
Qed.

Lemma kmem_set s l R r p t i x :
  vm_inv s l R → r ∈ R → upath (p ++ [i]) → node (km_mem s) r p = Some t →
  kmem_inv kend (set_km_mem (set_entry (km_mem s) t i x) s) l.
Proof using Hend.
  intros Hi Hr Hpi Ht. pose proof (upath_snoc p i Hpi) as (Hp&Hpl&Hir).
  destruct (vi_node _ _ _ Hi r p t Hr Hp Ht) as [Hg Hnl].
  destruct (vi_page _ _ _ r p t Hi Hr Hp Ht) as (pg&Hpg&Hlen&Hb).
  assert (set_entry (km_mem s) t i x = <[page_of t := put_u64 (Z.to_nat (8 * i)) x pg]> (km_mem s)) as ->.
  { unfold set_entry. apply map_eq. intros k. destruct (decide (k = page_of t)) as [->|].
    - by rewrite lookup_insert_eq, lookup_alter_eq, Hpg.
    - by rewrite lookup_insert_ne, lookup_alter_ne. }
  apply kmem_write; try done; [apply Hi|]. split; [|by apply put_le_bytes].
  rewrite length_put_le; [done|]. rewrite Hlen. unfold PGSIZE. lia.
Qed.

(** Nodes after entry [i] of the table at [p] was set to point to [n]. *)
Definition linked_node (s : kmem) r p i n r' q : option Z :=
  if decide (r' = r ∧ q = p ++ [i]) then Some n
  else if decide (r' = r ∧ (p ++ [i]) `prefix_of` q) then None
  else node (km_mem s) r' q.

Lemma node_link s l R r p t i x n r' q :
  vm_inv s l R → r ∈ R → upath (p ++ [i]) → node (km_mem s) r p = Some t →
  fresh s l R n → 0 ≤ x < 2 ^ 64 → present x = true → P2V (PTE_ADDR x) = n →
  length (p ++ [i]) = 4%nat ∨ (∀ j, 0 ≤ j < 512 → entry (km_mem s) n j = None) →
  r' ∈ R → upath q →
  node (set_entry (km_mem s) t i x) r' q = linked_node s r p i n r' q.
Proof using Hend.
  intros Hi Hr Hpi Ht Hf Hx Hpx Hn Hleaf Hr' Hq. unfold linked_node.
  case_decide as H1; [|case_decide as H2].
  - destruct H1 as [-> ->]. rewrite <- (app_nil_r [i]). erewrite node_set_below by done.
    by rewrite Hpx, Hn.
  - destruct H2 as [-> [q2 ->]]. rewrite <- app_assoc. erewrite node_set_below by done.
    rewrite Hpx, Hn. destruct q2 as [|j q2]; [by rewrite app_nil_r in H1; destruct H1|].
    destruct Hleaf as [Hleaf|Hleaf].
    { destruct Hq as [Hq _]. rewrite length_app, Hleaf in Hq. simpl in Hq. lia. }
    pose proof (upath_snoc p i Hpi) as (Hp&_&Hir). destruct Hf as (Hgn&_&Hfr).
    assert (0 ≤ j < 512) as Hj.
    { destruct Hq as (_&Hq&_). apply Forall_app in Hq as [_ Hq]. by apply Forall_cons_1 in Hq as [? _]. }
    destruct (vi_node _ _ _ Hi r p t Hr Hp Ht) as [Hg _].
    simpl. unfold next. rewrite (entry_frame (km_mem s)), Hleaf; try done.
    unfold set_entry. apply lookup_alter_ne. intros E.
    apply (good_page_inj kend Hend) in E; [|done..]. subst t. by apply (Hfr r p).
  - by apply (node_set_other s l R r p).
Qed.

Lemma vm_link s l R r p t i x n :
  vm_inv s l R → r ∈ R → upath (p ++ [i]) → node (km_mem s) r p = Some t →
  fresh s l R n → 0 ≤ x < 2 ^ 64 → present x = true → P2V (PTE_ADDR x) = n →
  length (p ++ [i]) = 4%nat ∨ (∀ j, 0 ≤ j < 512 → entry (km_mem s) n j = None) →
  vm_inv (set_km_mem (set_entry (km_mem s) t i x) s) l R.
Proof using Hend.
  intros Hi Hr Hpi Ht Hf Hx Hpx Hn Hleaf.
  pose proof (λ r' q Hr' Hq, node_link s l R r p t i x n r' q Hi Hr Hpi Ht Hf Hx Hpx Hn Hleaf Hr' Hq) as Hnode.
  destruct Hf as (Hgn&Hnl&Hfr). split; simpl.
  - by eapply kmem_set.
  - intros r' q t' Hr' Hq. rewrite Hnode by done. unfold linked_node.
    repeat case_decide; intros; simplify_eq; [done|]. by eapply (vi_node _ _ _ Hi).
  - intros r1 r2 q1 q2 t' Hr1 Hr2 Hq1 Hq2. rewrite !Hnode by done. unfold linked_node.
    destruct (decide (r1 = r ∧ q1 = p ++ [i])) as [[-> ->]|],
      (decide (r2 = r ∧ q2 = p ++ [i])) as [[-> ->]|]; [done|..].
    + intros [= <-]. case_decide; [done|]. intros Ho. exfalso. by apply (Hfr r2 q2).
    + intros Ho [= <-]. case_decide; [done|]. exfalso. by apply (Hfr r1 q1).
    + repeat case_decide; try done. by apply (vi_inj _ _ _ Hi).
Qed.

(** Clearing an entry removes what is below it from the page table. *)
Definition unlinked_node (s : kmem) r p i r' q : option Z :=
  if decide (r' = r ∧ (p ++ [i]) `prefix_of` q) then None else node (km_mem s) r' q.

Lemma node_unlink s l R r p t i r' q :
  vm_inv s l R → r ∈ R → upath (p ++ [i]) → node (km_mem s) r p = Some t →
  r' ∈ R → upath q →
  node (set_entry (km_mem s) t i 0) r' q = unlinked_node s r p i r' q.
Proof using Hend.
  intros Hi Hr Hpi Ht Hr' Hq. unfold unlinked_node. case_decide as H1.
  - destruct H1 as [-> [q2 ->]]. rewrite <- app_assoc. by erewrite node_set_below by done.
  - by apply (node_set_other s l R r p).
Qed.

Lemma vm_unlink s l R r p t i :
  vm_inv s l R → r ∈ R → upath (p ++ [i]) → node (km_mem s) r p = Some t →
  vm_inv (set_km_mem (set_entry (km_mem s) t i 0) s) l R.
Proof using Hend.
  intros Hi Hr Hpi Ht.
  pose proof (λ r' q Hr' Hq, node_unlink s l R r p t i r' q Hi Hr Hpi Ht Hr' Hq) as Hnode.
  split; simpl.
  - by eapply kmem_set.
  - intros r' q t' Hr' Hq. rewrite Hnode by done. unfold unlinked_node.
    case_decide; [done|]. by eapply (vi_node _ _ _ Hi).
  - intros r1 r2 q1 q2 t' Hr1 Hr2 Hq1 Hq2. rewrite !Hnode by done. unfold unlinked_node.
    repeat case_decide; try done. by eapply (vi_inj _ _ _ Hi).
Qed.

(** * Growing a page table *)

(** The entry for a page of user memory. *)
Definition leaf m r p : option Z := t ← node m r (take 3 p); i ← p !! 3%nat; entry m t i.

Lemma leaf_write s l R n pg r q :
  vm_inv s l R → good n → not_table s R n → r ∈ R → upath q → length q = 4%nat →
  leaf (<[page_of n := pg]> (km_mem s)) r q = leaf (km_mem s) r q.
Proof using Hend.
  intros Hi Hn Hnt Hr Hq Hl. unfold leaf.
  assert (upath (take 3 q)) as Hq3.
  { apply (upath_app _ (drop 3 q)). by rewrite take_drop. }
  rewrite (node_write s l R) by done.
  destruct (node (km_mem s) r (take 3 q)) as [t|] eqn:Ht; [|done]. simpl.
  destruct (lookup_lt_is_Some_2 q 3) as [j Hj]; [lia|]. rewrite Hj. simpl.
  destruct (vi_node _ _ _ Hi r _ t Hr Hq3 Ht) as [Hg _]. destruct Hq as (_&Hq&_).
  apply entry_frame; [done|exact (Forall_lookup_1 _ _ _ _ Hq Hj)|].
  apply lookup_insert_ne. intros E. apply (good_page_inj kend Hend) in E; [|done..]. subst n.
  apply (Hnt r (take 3 q)); [done..|rewrite length_take; lia|done].
Qed.

(** [s'] has page tables added to [s], from the free list, and nothing else. *)
Record grown s l s' l' R : Prop := {
  gr_free : ∃ k, l = k ++ l';
  gr_tables : ∀ r q u, r ∈ R → upath q → node (km_mem s) r q = Some u → node (km_mem s') r q = Some u;
  gr_leaf : ∀ r q, r ∈ R → upath q → length q = 4%nat → leaf (km_mem s') r q = leaf (km_mem s) r q;
  gr_pages : ∀ v, good v → v ∉ l → not_table s R v →
    not_table s' R v ∧ km_mem s' !! page_of v = km_mem s !! page_of v;
  gr_fresh : ∀ v, fresh s l R v → fresh s' l' R v;
  gr_use : km_use_lock s' = km_use_lock s;
}.

Lemma grown_refl s l R : grown s l s l R.
Proof using. split; eauto. by exists []. Qed.

Lemma grown_trans s1 l1 s2 l2 s3 l3 R :
  grown s1 l1 s2 l2 R → grown s2 l2 s3 l3 R → grown s1 l1 s3 l3 R.
Proof using.
  intros [[k1 ->] T1 L1 P1 F1 U1] [[k2 ->] T2 L2 P2 F2 U2]. split; auto; [..|congruence].
  - exists (k1 ++ k2). by rewrite app_assoc.
  - intros r q Hr Hq Hl. by rewrite L2, L1.
  - intros v Hv Hn Hnt. destruct (P1 v Hv Hn Hnt) as [Hnt2 E]. rewrite <- E. apply P2; [done| |done].
    intros Hin. apply Hn, elem_of_app. by right.
Qed.

(** The free list after an allocation. *)
Lemma vm_kalloc s l n R :
  vm_inv s (n :: l) R →
  ∃ x, kalloc s = Ok n (set_km_freelist x s) ∧ vm_inv (set_km_freelist x s) l R ∧
    fresh (set_km_freelist x s) l R n.
Proof using Hend.
  intros Hi. destruct (kalloc_run kend Hend s n l (vi_kmem _ _ _ Hi)) as (x&Hrun&Hk).
  pose proof (vi_kmem _ _ _ Hi) as [_ _ Hnd Hg _ _]. apply list.NoDup_cons in Hnd as [Hn _].
  apply Forall_cons_1 in Hg as [Hg _].
  exists x. split; [done|]. split.
  - split; [done| |apply Hi]. intros r p t Hr Hp Ht. destruct (vi_node _ _ _ Hi r p t Hr Hp Ht) as [? Hx].
    split; [done|]. by apply not_elem_of_cons in Hx as [_ ?].
  - split_and!; [done..|]. intros r p Hr Hp Ht. destruct (vi_node _ _ _ Hi r p n Hr Hp Ht) as [_ Hx].
    apply Hx, list_elem_of_here.
Qed.

Lemma zero_is_page : is_page (full_page 0).
Proof using. split; [by vm_compute|]. apply Forall_replicate. split; by vm_compute. Qed.

Lemma store_page s l v bs :
  kmem_inv kend s l → good v → length bs = Z.to_nat PGSIZE →
  store_bytes v bs (km_mem s) = Some (<[page_of v := bs]> (km_mem s)).
Proof using Hend.
  intros Hk Hv Hbs. destruct (ki_pages _ _ _ Hk v Hv) as (pg&Hpg&Hl&_).
  destruct (good_page_addr kend Hend v Hv) as (_&Hoff&_). unfold store_bytes. rewrite Hpg, Hoff. simpl.
  rewrite decide_True by lia. f_equal. f_equal. apply splice_all. lia.
Qed.

Lemma mem_upd_run f m s : f (km_mem s) = Some m → mem_upd f s = Ok tt (set_km_mem m s).
Proof using. intros E. unfold mem_upd, mbind, M_bind, gets, the. by rewrite E. Qed.

Lemma zero_entry m n j :
  good n → 0 ≤ j < 512 → m !! page_of n = Some (full_page 0) → entry m n j = None.
Proof using Hend.
  intros Hn Hj Hm. unfold entry. rewrite (load_entry _ _ _ _ Hn Hj Hm). simpl.
  assert (get_u64 (Z.to_nat (8 * j)) (full_page 0) = 0) as ->; [|done].
  unfold get_le, sub, full_page. rewrite drop_replicate, take_replicate.
  replace (Nat.min _ _) with 8%nat by (unfold PGSIZE; lia). done.
Qed.

(** The entry that points to page [n] with flags [fl]. *)
Lemma pte_of_page n fl :
  good n → 0 ≤ fl < PGSIZE → Z.land fl PTE_P = PTE_P →
  let x := Z.lor (V2P n) fl in
  0 ≤ x < 2 ^ 64 ∧ present x = true ∧ PTE_ADDR x = V2P n ∧ P2V (PTE_ADDR x) = n ∧ PTE_FLAGS x = fl.
Proof using Hend.
  intros Hn Hf Hp x. destruct (good_page_addr kend Hend n Hn) as (Ep&_&_&Ev&Hr).
  destruct Hn as (Ha&Hk&Hlt).
  assert (V2P n mod PGSIZE = 0) as Hm by (rewrite Ev, Zminus_mod, Ha; done).
  assert (0 ≤ V2P n < PHYSTOP) as Hv by (rewrite Ev; unfold KERNBASE in *; lia).
  assert (x = V2P n + fl) as Ex by (apply lor_aligned; lia || done).
  assert (0 ≤ x < 2 ^ 64) as Hx by (rewrite Ex; unfold PHYSTOP, PGSIZE in *; lia).
  assert (x mod PGSIZE = fl) as Exm.
  { rewrite Ex, Zplus_mod, Hm, Z.add_0_l, Zmod_mod. by apply Z.mod_small. }
  assert (PTE_ADDR x = V2P n) as Ea by (rewrite PTE_ADDR_spec by done; lia).
  split_and!; try lia; try done.
  - unfold present, x. rewrite Z.land_lor_distr_l, Hp.
    destruct (Z.eqb_spec (Z.lor (Z.land (V2P n) PTE_P) PTE_P) 0) as [E|]; [|done].
    apply Z.lor_eq_0_iff in E as [_ E]. done.
  - rewrite Ea. by apply P2V_V2P.
  - by rewrite PTE_FLAGS_spec.
Qed.

(** * walkpgdir *)

Lemma load_table s l R r p t i :
  vm_inv s l R → r ∈ R → upath (p ++ [i]) → node (km_mem s) r p = Some t →
  ∃ e, load64 (km_mem s) (entry_addr t i) = Some e ∧
    entry (km_mem s) t i = (if present e then Some e else None) ∧
    node (km_mem s) r (p ++ [i]) = (if present e then Some (P2V (PTE_ADDR e)) else None).
Proof using Hend.
  intros Hi Hr Hpi Ht. pose proof (upath_snoc p i Hpi) as (Hp&_&Hir).
  destruct (vi_node _ _ _ Hi r p t Hr Hp Ht) as [Hg _].
  destruct (vi_page _ _ _ r p t Hi Hr Hp Ht) as (pg&Hpg&_).
  eexists. split; [by eapply load_entry|]. rewrite node_snoc, Ht. simpl. unfold next, entry.
  rewrite (load_entry _ _ _ _ Hg Hir Hpg). simpl. split; [done|]. by destruct (present _).
Qed.

Lemma load_run what v e s : load64 (km_mem s) v = Some e → load what v s = Ok e s.
Proof using. intros E. unfold load, mbind, M_bind, gets, the. by rewrite E. Qed.

Lemma store_run s l R r p t i x :
  vm_inv s l R → r ∈ R → upath (p ++ [i]) → node (km_mem s) r p = Some t →
  store (entry_addr t i) x s = Ok tt (set_km_mem (set_entry (km_mem s) t i x) s).
Proof using Hend.
  intros Hi Hr Hpi Ht. pose proof (upath_snoc p i Hpi) as (Hp&_&Hir).
  destruct (vi_node _ _ _ Hi r p t Hr Hp Ht) as [Hg _].
  destruct (vi_page _ _ _ r p t Hi Hr Hp Ht) as (pg&Hpg&_).
  apply mem_upd_run. by eapply store_entry.
Qed.

Lemma walk_level_run s l R r p t i :
  vm_inv s l R → r ∈ R → upath (p ++ [i]) → node (km_mem s) r p = Some t →
  walk_level t i false s = Ok (default 0 (node (km_mem s) r (p ++ [i]))) s.
Proof using Hend.
  intros Hi Hr Hpi Ht. destruct (load_table s l R r p t i Hi Hr Hpi Ht) as (e&He&_&->).
  unfold walk_level. erewrite bind_run by by apply load_run. unfold present.
  by destruct (Z.land e PTE_P =? 0).
Qed.

Lemma node_nonzero s l R r p t :
  vm_inv s l R → r ∈ R → upath p → node (km_mem s) r p = Some t → t =? 0 = false.
Proof using Hend.
  intros Hi Hr Hp Ht. destruct (vi_node _ _ _ Hi r p t Hr Hp Ht) as [Hg _].
  apply Z.eqb_neq. by destruct (good_page_addr kend Hend t Hg) as (_&_&?&_).
Qed.

(** Adding the zeroed page [n] as the table at [p ++ [i]]. *)
Lemma grown_link s l R r p t i x n :
  vm_inv s l R → r ∈ R → upath (p ++ [i]) → (length p < 3)%nat → node (km_mem s) r p = Some t →
  node (km_mem s) r (p ++ [i]) = None →
  fresh s l R n → km_mem s !! page_of n = Some (full_page 0) →
  0 ≤ x < 2 ^ 64 → present x = true → P2V (PTE_ADDR x) = n →
  let s' := set_km_mem (set_entry (km_mem s) t i x) s in
  vm_inv s' l R ∧ node (km_mem s') r (p ++ [i]) = Some n ∧
  (∀ r q u, r ∈ R → upath q → node (km_mem s) r q = Some u → node (km_mem s') r q = Some u) ∧
  (∀ r q, r ∈ R → upath q → length q = 4%nat → leaf (km_mem s') r q = leaf (km_mem s) r q) ∧
  (∀ v, good v → v ≠ n → not_table s R v →
    not_table s' R v ∧ km_mem s' !! page_of v = km_mem s !! page_of v) ∧
  (∀ v, v ≠ n → fresh s l R v → fresh s' l R v).
Proof using Hend.
  intros Hi Hr Hpi Hpl Ht Hnone Hf Hz Hx Hpx Hn s'.
  assert (∀ j, 0 ≤ j < 512 → entry (km_mem s) n j = None) as Hze.
  { intros j Hj. apply zero_entry; [apply Hf|done..]. }
  pose proof (λ r' q Hr' Hq, node_link s l R r p t i x n r' q Hi Hr Hpi Ht Hf Hx Hpx Hn
    (or_intror Hze) Hr' Hq) as Hnode.
  pose proof (upath_snoc p i Hpi) as (Hp&_&Hir).
  destruct (vi_node _ _ _ Hi r p t Hr Hp Ht) as [Hgt _].
  assert (∀ q u, (p ++ [i]) `prefix_of` q → node (km_mem s) r q = Some u → False) as Hpre.
  { intros q u [k ->]. by rewrite node_app, Hnone. }
  split_and!.
  - eapply vm_link; eauto.
  - unfold s'. simpl. rewrite Hnode by done. unfold linked_node. by rewrite decide_True.
  - intros r' q u Hr' Hq Hu. unfold s'. simpl. rewrite Hnode by done. unfold linked_node.
    rewrite !decide_False; [done|..].
    + intros [-> ?]. by eapply Hpre.
    + intros [-> ->]. by rewrite Hnone in Hu.
  - intros r' q Hr' Hq Hl4. unfold leaf.
    assert (upath (take 3 q)) as Hq3.
    { apply (upath_app _ (drop 3 q)). by rewrite take_drop. }
    assert (length (take 3 q) = 3%nat) as Hl3 by (rewrite length_take; lia).
    destruct (lookup_lt_is_Some_2 q 3) as [j Hj]; [lia|]. rewrite Hj.
    assert (0 ≤ j < 512) as Hjr by (destruct Hq as (_&Hq&_); exact (Forall_lookup_1 _ _ _ _ Hq Hj)).
    unfold s'. simpl. rewrite Hnode by done. unfold linked_node.
    case_decide as H1; [|case_decide as H2].
    + destruct H1 as [-> ->]. rewrite Hnone. simpl. rewrite (entry_frame (km_mem s)), Hze; try done;
        [apply Hf|]. unfold set_entry. apply lookup_alter_ne. intros E.
      apply (good_page_inj kend Hend) in E; [|done|apply Hf]. subst t. by apply (proj2 (proj2 Hf) r p).
    + destruct H2 as [-> H2]. destruct (node (km_mem s) r (take 3 q)) eqn:E; [|done].
      by destruct (Hpre _ _ H2 E).
    + destruct (node (km_mem s) r' (take 3 q)) as [t'|] eqn:Ht'; [|done]. simpl.
      destruct (vi_node _ _ _ Hi r' _ t' Hr' Hq3 Ht') as [Hgt' _].
      destruct (vi_page _ _ _ r p t Hi Hr Hp Ht) as (pg&Hpg&Hpgok).
      rewrite (entry_set _ _ _ _ pg) by done. rewrite decide_False; [done|]. intros [-> ->].
      destruct (vi_inj _ _ _ Hi r' r _ p t Hr' Hr Hq3 Hp Ht' Ht) as [_ E]. rewrite E in Hl3. lia.
  - intros v Hv Hvn Hnt. split.
    + intros r' q Hr' Hq Hlq. unfold s'. simpl. rewrite Hnode by done. unfold linked_node.
      repeat case_decide; [congruence|done|]. by apply Hnt.
    + unfold s', set_entry. simpl. apply lookup_alter_ne. intros E.
      apply (good_page_inj kend Hend) in E; [|done..]. subst v. apply (Hnt r p); [done..|lia|done].
  - intros v Hvn (Hv&Hvl&Hvf). split_and!; [done..|]. intros r' q Hr' Hq. unfold s'. simpl.
    rewrite Hnode by done. unfold linked_node. repeat case_decide; [congruence|done|]. by apply Hvf.
Qed.

Lemma walk_level_alloc s l R r p t i :
  vm_inv s l R → r ∈ R → upath (p ++ [i]) → (length p < 3)%nat → node (km_mem s) r p = Some t →
  l ≠ [] →
  ∃ s' l' t', walk_level t i true s = Ok t' s' ∧ vm_inv s' l' R ∧
    node (km_mem s') r (p ++ [i]) = Some t' ∧ grown s l s' l' R ∧ (length l ≤ S (length l'))%nat.
Proof using Hend.
  intros Hi Hr Hpi Hpl Ht Hne. destruct (load_table s l R r p t i Hi Hr Hpi Ht) as (e&He&_&Hnode).
  unfold walk_level. setoid_rewrite (bind_run _ _ _ _ _ (load_run _ _ _ _ He)).
  fold (present e). destruct (present e) eqn:Hpe.
  { exists s, l, (P2V (PTE_ADDR e)). split_and!; [done..|apply grown_refl|lia]. }
  destruct l as [|n l]; [done|]. destruct (vm_kalloc s l n R Hi) as (y&Hal&Hi1&Hf1).
  simpl negb. cbv iota. setoid_rewrite (bind_run _ _ _ _ _ Hal).
  set (s1 := set_km_freelist y s) in *. pose proof Hf1 as (Hgn&Hnl&_).
  destruct (good_page_addr kend Hend n Hgn) as (_&_&Hnz&_).
  rewrite (proj2 (Z.eqb_neq n 0)) by done.
  pose proof (mem_upd_run _ _ s1 (store_page s1 l n (full_page 0) (vi_kmem _ _ _ Hi1) Hgn eq_refl)) as Hz.
  setoid_rewrite (bind_run _ _ _ _ _ Hz).
  set (s2 := set_km_mem _ s1).
  pose proof (vm_write s1 l R n _ Hi1 Hgn Hnl (fresh_not_table _ _ _ _ Hf1) zero_is_page) as Hi2.
  pose proof (λ r p, node_write s1 l R n (full_page 0) r p Hi1 Hgn (fresh_not_table _ _ _ _ Hf1)) as Hn2.
  fold s2 in Hi2.
  assert (node (km_mem s2) r p = Some t) as Ht2.
  { rewrite <- Ht. apply (Hn2 r p); [done|]. by apply (upath_app p [i]). }
  setoid_rewrite (bind_run _ _ _ _ _ (store_run s2 l R r p t i _ Hi2 Hr Hpi Ht2)).
  destruct (pte_of_page n (flags [PTE_P; PTE_W; PTE_U]) Hgn) as (Hx&Hpx&_&Hxn&_); [by vm_compute..|].
  change (flags [V2P n; PTE_P; PTE_W; PTE_U]) with (Z.lor (V2P n) (flags [PTE_P; PTE_W; PTE_U])).
  assert (fresh s2 l R n) as Hf2.
  { split_and!; [done..|]. intros r' q Hr' Hq. unfold s2. cbn [km_mem set_km_mem].
    rewrite (Hn2 r' q) by done. by apply Hf1. }
  set (x := Z.lor (V2P n) _) in *.
  destruct (grown_link s2 l R r p t i x n Hi2 Hr Hpi Hpl Ht2) as (Hi3&Hn3&Ht3&Hl3&Hp3&Hf3); try done.
  { rewrite <- Hnode. by apply (Hn2 r (p ++ [i])). }
  { apply lookup_insert_eq. }
  eexists _, l, n. split_and!; [done|exact Hi3|exact Hn3| |simpl; lia].
  split.
  - by exists [n].
  - intros r' q u Hr' Hq Hu. apply Ht3; [done..|]. rewrite <- Hu. by apply (Hn2 r' q).
  - intros r' q Hr' Hq Hq4. rewrite Hl3 by done.
    apply (leaf_write s1 l R); try done. by apply fresh_not_table with l.
  - intros v Hv Hvl Hnt. apply not_elem_of_cons in Hvl as [Hvn Hvl].
    destruct (Hp3 v Hv Hvn) as [Hnt3 Ep].
    { intros r' q Hr' Hq Hq4. unfold s2. cbn [km_mem set_km_mem]. rewrite (Hn2 r' q) by done. by apply Hnt. }
    split; [done|]. rewrite Ep. unfold s2. cbn [km_mem set_km_mem]. apply lookup_insert_ne.
    intros E. apply (good_page_inj kend Hend) in E; [|done..]. congruence.
  - intros v (Hv&Hvl&Hvf). apply not_elem_of_cons in Hvl as [Hvn Hvl]. apply Hf3; [done|].
    split_and!; [done..|]. intros r' q Hr' Hq. unfold s2. cbn [km_mem set_km_mem].
    rewrite (Hn2 r' q) by done. by apply Hvf.
  - done.
Qed.

(** The path of a user address. *)
Definition vpath (va : Z) : list Z := [PMX va; PDPX va; PDX va; PTX va].
Definition user_va (va : Z) : Prop := 0 ≤ va < 2 ^ 47.

Lemma px_spec va k : 0 ≤ k → Z.land (Z.shiftr va k) PXMASK = (va / 2 ^ k) mod 512.
Proof using.
  intros Hk. unfold PXMASK. change 0x1FF with (Z.ones 9).
  by rewrite Z.land_ones, Z.shiftr_div_pow2 by lia.
Qed.

Lemma vpath_spec va :
  vpath va = [(va / 2 ^ 39) mod 512; (va / 2 ^ 30) mod 512; (va / 2 ^ 21) mod 512; (va / 2 ^ 12) mod 512].
Proof using. unfold vpath, PMX, PDPX, PDX, PTX. by rewrite !px_spec by lia. Qed.

Lemma vpath_upath va : user_va va → upath (vpath va).
Proof using.
  intros Hva. rewrite vpath_spec. split_and!.
  - simpl. lia.
  - repeat constructor; try (apply Z.mod_pos_bound; lia).
  - intros i [= <-]. unfold user_va in *.
    assert (va / 2 ^ 39 < 256) by (apply Z.div_lt_upper_bound; lia).
    pose proof (Z.div_pos va (2 ^ 39) ltac:(lia) ltac:(lia)). rewrite Z.mod_small; lia.
Qed.

Lemma vpath_inj va vb :
  user_va va → user_va vb → va mod PGSIZE = vb mod PGSIZE → vpath va = vpath vb → va = vb.
Proof using.
  intros Ha Hb Hm E. rewrite !vpath_spec in E. injection E as E1 E2 E3 E4.
  unfold user_va, PGSIZE in *.
  assert (∀ v, user_va v → v = (v / 2 ^ 39) mod 512 * 2 ^ 39 + (v / 2 ^ 30) mod 512 * 2 ^ 30
    + (v / 2 ^ 21) mod 512 * 2 ^ 21 + (v / 2 ^ 12) mod 512 * 2 ^ 12 + v mod 4096) as Hdec.
  { intros v Hv. unfold user_va in Hv.
    pose proof (Z.div_mod v (2 ^ 12) ltac:(lia)).
    pose proof (Z.div_mod (v / 2 ^ 12) 512 ltac:(lia)). rewrite Z.div_div in * by lia.
    pose proof (Z.div_mod (v / (2 ^ 12 * 512)) 512 ltac:(lia)). rewrite Z.div_div in * by lia.
    pose proof (Z.div_mod (v / (2 ^ 12 * 512 * 512)) 512 ltac:(lia)). rewrite Z.div_div in * by lia.
    assert (v / (2 ^ 12 * 512 * 512 * 512) < 512) by (apply Z.div_lt_upper_bound; lia).
    pose proof (Z.div_pos v (2 ^ 12 * 512 * 512 * 512) ltac:(lia) ltac:(lia)).
    change (2 ^ 39) with (2 ^ 12 * 512 * 512 * 512).
    change (2 ^ 30) with (2 ^ 12 * 512 * 512). change (2 ^ 21) with (2 ^ 12 * 512).
    rewrite (Z.mod_small (v / (2 ^ 12 * 512 * 512 * 512))) by lia.
    change (2 ^ 12) with 4096 in *. lia. }
  rewrite (Hdec va Ha), (Hdec vb Hb). congruence.
Qed.

Lemma entry_addr_nonzero t i : good t → 0 ≤ i < 512 → entry_addr t i =? 0 = false.
Proof using Hend.
  intros Ht Hi. destruct (good_page_addr kend Hend t Ht) as (_&_&_&_&Hr). destruct Ht as (_&?&?).
  apply Z.eqb_neq. unfold entry_addr, KERNBASE, PHYSTOP in *. rewrite wrap_small; lia.
Qed.

(** The three levels of tables above the entry of an address. *)
Lemma vpath_levels va :
  user_va va →
  upath ([] ++ [PMX va]) ∧ upath ([PMX va] ++ [PDPX va]) ∧
  upath ([PMX va; PDPX va] ++ [PDX va]) ∧ upath ([PMX va; PDPX va; PDX va] ++ [PTX va]).
Proof using.
  intros Hva%vpath_upath. split_and!; [..|exact Hva].
  - apply (upath_app [PMX va] [PDPX va; PDX va; PTX va] Hva).
  - apply (upath_app [PMX va; PDPX va] [PDX va; PTX va] Hva).
  - apply (upath_app [PMX va; PDPX va; PDX va] [PTX va] Hva).
Qed.

Lemma walkpgdir_run s l R r va :
  vm_inv s l R → r ∈ R → user_va va →
  walkpgdir r va false s =
    Ok (match node (km_mem s) r [PMX va; PDPX va; PDX va] with
        | Some pt => entry_addr pt (PTX va) | None => 0 end) s.
Proof using Hend.
  intros Hi Hr Hva. destruct (vpath_levels va Hva) as (H1&H2&H3&H4).
  pose proof (upath_app _ _ H2). pose proof (upath_app _ _ H3). pose proof (upath_app _ _ H4).
  unfold walkpgdir. erewrite bind_run by by apply (walk_level_run s l R r []).
  change ([] ++ [PMX va]) with [PMX va].
  destruct (node (km_mem s) r [PMX va]) as [pdp|] eqn:E1; [change (default 0 (Some pdp)) with pdp|].
  2:{ simpl in *. by destruct (next (km_mem s) r (PMX va)). }
  rewrite (node_nonzero s l R r [PMX va] pdp) by done.
  erewrite bind_run by by apply (walk_level_run s l R r [PMX va]).
  change ([PMX va] ++ [PDPX va]) with [PMX va; PDPX va].
  destruct (node (km_mem s) r [PMX va; PDPX va]) as [pd|] eqn:E2; [change (default 0 (Some pd)) with pd|].
  2:{ change [PMX va; PDPX va; PDX va] with ([PMX va; PDPX va] ++ [PDX va]).
      by rewrite node_app, E2. }
  rewrite (node_nonzero s l R r [PMX va; PDPX va] pd) by done.
  erewrite bind_run by by apply (walk_level_run s l R r [PMX va; PDPX va]).
  change ([PMX va; PDPX va] ++ [PDX va]) with [PMX va; PDPX va; PDX va].
  destruct (node (km_mem s) r [PMX va; PDPX va; PDX va]) as [pt|] eqn:E3; [|done].
  change (default 0 (Some pt)) with pt.
  by rewrite (node_nonzero s l R r [PMX va; PDPX va; PDX va] pt) by done.
Qed.

Lemma walkpgdir_alloc s l R r va :
  vm_inv s l R → r ∈ R → user_va va → (3 ≤ length l)%nat →
  ∃ s' l' pt, walkpgdir r va true s = Ok (entry_addr pt (PTX va)) s' ∧ vm_inv s' l' R ∧
    node (km_mem s') r [PMX va; PDPX va; PDX va] = Some pt ∧ grown s l s' l' R ∧
    (length l ≤ 3 + length l')%nat.
Proof using Hend.
  intros Hi Hr Hva Hl. destruct (vpath_levels va Hva) as (H1&H2&H3&H4).
  unfold walkpgdir.
  destruct (walk_level_alloc s l R r [] r (PMX va)) as (s1&l1&pdp&E1&Hi1&Hn1&Hg1&Hl1);
    [done..|simpl; lia|done|by intros ->; simpl in *; lia|].
  setoid_rewrite (bind_run _ _ _ _ _ E1).
  rewrite (node_nonzero s1 l1 R r [PMX va] pdp) by done.
  destruct (walk_level_alloc s1 l1 R r [PMX va] pdp (PDPX va)) as (s2&l2&pd&E2&Hi2&Hn2&Hg2&Hl2);
    [done..|simpl; lia|done|by intros ->; simpl in *; lia|].
  setoid_rewrite (bind_run _ _ _ _ _ E2).
  rewrite (node_nonzero s2 l2 R r [PMX va; PDPX va] pd) by done.
  destruct (walk_level_alloc s2 l2 R r [PMX va; PDPX va] pd (PDX va)) as (s3&l3&pt&E3&Hi3&Hn3&Hg3&Hl3);
    [done..|simpl; lia|done|by intros ->; simpl in *; lia|].
  setoid_rewrite (bind_run _ _ _ _ _ E3).
  rewrite (node_nonzero s3 l3 R r [PMX va; PDPX va; PDX va] pt) by done.
  exists s3, l3, pt. split_and!; [done..| |lia].
  eapply grown_trans; [done|]. by eapply grown_trans.
Qed.

Lemma leaf_vpath m r va :
  leaf m r (vpath va) = t ← node m r [PMX va; PDPX va; PDX va]; entry m t (PTX va).
Proof using. done. Qed.

(** [s'] is [s] with the entry for the page at [va] set to [e] in the page
    table [r], if [e] is given, and removed otherwise; the pages of memory that are not
    tables are the same. *)
Record mapped s l s' l' R r va (e : option Z) : Prop := {
  mp_leaf : ∀ r' q, r' ∈ R → upath q → length q = 4%nat →
    leaf (km_mem s') r' q = if decide (r' = r ∧ q = vpath va) then e else leaf (km_mem s) r' q;
  mp_pages : ∀ v, good v → v ∉ l → not_table s R v →
    not_table s' R v ∧ km_mem s' !! page_of v = km_mem s !! page_of v;
  mp_use : km_use_lock s' = km_use_lock s;
}.

Lemma leaf_node s l R r q :
  vm_inv s l R → r ∈ R → upath q → length q = 4%nat →
  node (km_mem s) r q = (P2V ∘ PTE_ADDR) <$> leaf (km_mem s) r q.
Proof using.
  intros Hi Hr Hq Hl. destruct q as [|a [|b [|c [|d [|]]]]]; try (simpl in Hl; lia).
  change [a; b; c; d] with ([a; b; c] ++ [d]). rewrite node_snoc. unfold leaf. simpl.
  destruct (next (km_mem s) r a) as [t1|]; [|done]. simpl.
  destruct (next (km_mem s) t1 b) as [t2|]; [|done]. simpl.
  by destruct (next (km_mem s) t2 c).
Qed.

(** The effect of a change of the last-level entry on the leaves. *)
Lemma leaf_set s l R r va pt x r' q :
  vm_inv s l R → r ∈ R → user_va va → node (km_mem s) r [PMX va; PDPX va; PDX va] = Some pt →
  0 ≤ x < 2 ^ 64 → r' ∈ R → upath q → length q = 4%nat →
  leaf (set_entry (km_mem s) pt (PTX va) x) r' q =
    if decide (r' = r ∧ q = vpath va) then (if present x then Some x else None)
    else leaf (km_mem s) r' q.
Proof using Hend.
  intros Hi Hr Hva Hpt Hx Hr' Hq Hl4. destruct (vpath_levels va Hva) as (_&_&_&H4).
  pose proof (upath_snoc _ _ H4) as (Hp3&_&Hjr).
  destruct q as [|a [|b [|c [|d [|]]]]]; try (simpl in Hl4; lia).
  assert (upath [a; b; c]) as Hq3 by by apply (upath_app [a; b; c] [d]).
  assert (0 ≤ d < 512) as Hd by by apply (upath_snoc [a; b; c] d).
  unfold leaf. change (take 3 [a; b; c; d]) with [a; b; c]. change ([a; b; c; d] !! 3%nat) with (Some d).
  rewrite (node_set_other s l R r [PMX va; PDPX va; PDX va] pt (PTX va) x r' [a; b; c]); try done.
  2:{ intros [_ [k E]]. apply (f_equal length) in E. rewrite !length_app in E. simpl in E. lia. }
  destruct (vi_node _ _ _ Hi r _ pt Hr Hp3 Hpt) as [Hgp _].
  destruct (vi_page _ _ _ r _ pt Hi Hr Hp3 Hpt) as (pg&Hpg&Hpgok).
  destruct (node (km_mem s) r' [a; b; c]) as [t'|] eqn:Ht'; simpl.
  - destruct (vi_node _ _ _ Hi r' _ t' Hr' Hq3 Ht') as [Hgt' _].
    rewrite (entry_set _ _ _ _ pg) by done.
    destruct (decide (t' = pt ∧ d = PTX va)) as [[-> ->]|Hne1].
    + destruct (vi_inj _ _ _ Hi r' r _ _ pt Hr' Hr Hq3 Hp3 Ht' Hpt) as [-> E]. injection E as -> -> ->.
      by rewrite decide_True.
    + rewrite decide_False; [done|]. intros [-> E]. injection E as -> -> -> ->.
      apply Hne1. split; [congruence|done].
  - rewrite decide_False; [done|]. intros [-> E]. injection E as -> -> -> ->. congruence.
Qed.

Lemma perm_flags perm :
  0 ≤ perm < PGSIZE → 0 ≤ flags [perm; PTE_P] < PGSIZE ∧ Z.land (flags [perm; PTE_P]) PTE_P = PTE_P.
Proof using.
  intros Hp. unfold flags. simpl. rewrite Z.lor_0_r. split.
  - split; [apply Z.lor_nonneg; split; [lia|done]|]. unfold PGSIZE in *. change 4096 with (2 ^ 12) in *.
    destruct (Z.eq_dec (Z.lor perm PTE_P) 0) as [->|Hnz]; [lia|].
    assert (0 ≤ Z.lor perm PTE_P) by (apply Z.lor_nonneg; split; [lia|done]).
    apply Z.log2_lt_pow2; [lia|]. rewrite Z.log2_lor by (lia || done).
    apply Z.max_lub_lt; [|done]. destruct (Z.eq_dec perm 0) as [->|]; [done|].
    apply Z.log2_lt_pow2; lia.
  - rewrite Z.land_lor_distr_l. apply Z.bits_inj'. intros k Hk.
    rewrite Z.lor_spec, !Z.land_spec. by destruct (Z.testbit perm k), (Z.testbit PTE_P k).
Qed.

Lemma pgrounddown_aligned va : user_va va → va mod PGSIZE = 0 →
  PGROUNDDOWN va = va ∧ PGROUNDDOWN (u64 (va + PGSIZE - 1)) = va.
Proof using.
  intros Hva Ha. unfold user_va in *. split.
  - rewrite PGROUNDDOWN_spec by lia. lia.
  - unfold PGSIZE in *. rewrite wrap_small, PGROUNDDOWN_spec by lia.
    unfold PGSIZE. replace (va + 4096 - 1) with (va + 4095) by lia. rewrite Zplus_mod, Ha.
    change ((0 + 4095 mod 4096) mod 4096) with 4095. lia.
Qed.

(** Allocating the tables and writing the entry of one page. *)
Lemma map_page_run s l R r va n perm :
  vm_inv s l R → r ∈ R → user_va va → va mod PGSIZE = 0 → (3 ≤ length l)%nat →
  leaf (km_mem s) r (vpath va) = None → fresh s l R n → 0 ≤ perm < PGSIZE →
  ∃ s' l', mappages r va PGSIZE (V2P n) perm s = Ok 0 s' ∧ vm_inv s' l' R ∧
    mapped s l s' l' R r va (Some (Z.lor (V2P n) (flags [perm; PTE_P]))) ∧
    (length l ≤ 3 + length l')%nat ∧ (∃ k, l = k ++ l') ∧
    (∀ v, v ≠ n → fresh s l R v → fresh s' l' R v).
Proof using Hend.
  intros Hi Hr Hva Ha Hl Hnone Hf Hperm.
  destruct (pgrounddown_aligned va Hva Ha) as [E1 E2].
  destruct (vpath_levels va Hva) as (_&_&_&H4). pose proof (upath_snoc _ _ H4) as (Hp3&_&Hjr).
  destruct (walkpgdir_alloc s l R r va Hi Hr Hva Hl) as (s1&l1&pt&Hw&Hi1&Hpt&Hg1&Hl1).
  destruct (vi_node _ _ _ Hi1 r _ pt Hr Hp3 Hpt) as [Hgp _].
  destruct (load_table s1 l1 R r _ pt (PTX va) Hi1 Hr H4 Hpt) as (e&He&Hent&_).
  assert (present e = false) as Hpe.
  { assert (leaf (km_mem s1) r (vpath va) = None) as Hn1.
    { rewrite (gr_leaf _ _ _ _ _ Hg1); [done..|by apply vpath_upath|done]. }
    rewrite leaf_vpath, Hpt in Hn1. simpl in Hn1. rewrite Hent in Hn1. by destruct (present e). }
  pose proof (gr_fresh _ _ _ _ _ Hg1 n Hf) as Hf1. pose proof Hf1 as (Hgn&_).
  destruct (perm_flags perm Hperm) as [Hfl HflP].
  destruct (pte_of_page n (flags [perm; PTE_P]) Hgn Hfl HflP) as (Hx&Hpx&_&Hxn&_).
  set (x := Z.lor (V2P n) (flags [perm; PTE_P])) in *.
  exists (set_km_mem (set_entry (km_mem s1) pt (PTX va) x) s1), l1. split_and!.
  - unfold mappages. rewrite E1, E2, Z.sub_diag. change (S (Z.to_nat (u64 0 / PGSIZE))) with 1%nat.
    cbn [mappages_loop]. erewrite bind_run by exact Hw.
    rewrite (entry_addr_nonzero pt (PTX va)) by done.
    erewrite bind_run by by apply load_run. unfold present in Hpe. rewrite Hpe.
    change (flags [V2P n; perm; PTE_P]) with x.
    erewrite bind_run by by eapply store_run. by rewrite Z.eqb_refl.
  - eapply (vm_link s1 l1 R r _ pt (PTX va) x n); try done. by left.
  - split.
    + intros r' q Hr' Hq Hq4. simpl. rewrite (leaf_set s1 l1 R r va pt x) by done.
      rewrite Hpx. case_decide; [done|]. by apply (gr_leaf _ _ _ _ _ Hg1).
    + intros v Hv Hvl Hnt. destruct (gr_pages _ _ _ _ _ Hg1 v Hv Hvl Hnt) as [Hnt1 Ep]. split.
      * intros r' q Hr' Hq Hq4. simpl.
        rewrite (node_link s1 l1 R r [PMX va; PDPX va; PDX va] pt (PTX va) x n) by (done || by left).
        unfold linked_node. repeat case_decide; [|done|by apply Hnt1].
        destruct_and!. subst q. simpl in Hq4. lia.
      * rewrite <- Ep. simpl. unfold set_entry. apply lookup_alter_ne. intros E.
        apply (good_page_inj kend Hend) in E; [|done..]. subst v.
        apply (Hnt1 r [PMX va; PDPX va; PDX va]); [done..|simpl; lia|done].
    + apply Hg1.
  - lia.
  - apply Hg1.
  - intros v Hvn Hfv. destruct (gr_fresh _ _ _ _ _ Hg1 v Hfv) as (?&?&Hvf). split_and!; [done..|].
    intros r' q Hr' Hq. simpl.
    rewrite (node_link s1 l1 R r [PMX va; PDPX va; PDX va] pt (PTX va) x n) by (done || by left).
    unfold linked_node. repeat case_decide; [congruence|done|by apply Hvf].
Qed.

(** * User memory *)

(** The page of user memory at the page-aligned address [va]: the flags of
    its entry and its contents. *)
Definition upage m r va : option (Z * list Z) :=
  e ← leaf m r (vpath va);
  pg ← m !! page_of (P2V (PTE_ADDR e));
  Some (PTE_FLAGS e, pg).

Definition user_page (va : Z) : Prop := user_va va ∧ va mod PGSIZE = 0.

Lemma leaf_page s l R r va e :
  vm_inv s l R → r ∈ R → user_va va → leaf (km_mem s) r (vpath va) = Some e →
  let v := P2V (PTE_ADDR e) in
  node (km_mem s) r (vpath va) = Some v ∧ good v ∧ v ∉ l ∧ not_table s R v ∧
  ∃ pg, km_mem s !! page_of v = Some pg ∧ is_page pg.
Proof using.
  intros Hi Hr Hva He v. pose proof (vpath_upath va Hva) as Hq.
  assert (node (km_mem s) r (vpath va) = Some v) as Hn.
  { rewrite (leaf_node s l R) by done. by rewrite He. }
  destruct (vi_node _ _ _ Hi r _ v Hr Hq Hn) as [Hg Hl]. split_and!; [done..| |].
  - intros r' q Hr' Hq' Hlen Hn'.
    destruct (vi_inj _ _ _ Hi r r' _ q v Hr Hr' Hq Hq' Hn Hn') as [_ <-]. simpl in Hlen. lia.
  - by eapply vi_page.
Qed.

(** A change of memory that keeps the leaves and the pages in use keeps
    user memory. *)
Lemma upage_same s l R s' r va :
  vm_inv s l R → r ∈ R → user_va va →
  leaf (km_mem s') r (vpath va) = leaf (km_mem s) r (vpath va) →
  (∀ v, good v → v ∉ l → not_table s R v → km_mem s' !! page_of v = km_mem s !! page_of v) →
  upage (km_mem s') r va = upage (km_mem s) r va.
Proof using.
  intros Hi Hr Hva El Ep. unfold upage. rewrite El.
  destruct (leaf (km_mem s) r (vpath va)) as [e|] eqn:He; [|done]. simpl.
  destruct (leaf_page s l R r va e Hi Hr Hva He) as (_&Hg&Hnl&Hnt&_). by rewrite Ep.
Qed.

(** User memory after a page with contents [pg] was mapped. *)
Lemma upage_mapped s l R s' l' r va n fl pg r' va' :
  vm_inv s l R → r ∈ R → user_page va → r' ∈ R → user_page va' →
  mapped s l s' l' R r va (Some (Z.lor (V2P n) fl)) →
  fresh s l R n → 0 ≤ fl < PGSIZE → Z.land fl PTE_P = PTE_P →
  km_mem s !! page_of n = Some pg →
  upage (km_mem s') r' va' =
    if decide (r' = r ∧ va' = va) then Some (fl, pg) else upage (km_mem s) r' va'.
Proof using Hend.
  intros Hi Hr [Hva Ha] Hr' [Hva' Ha'] [Hleaf Hpages _] Hf Hfl HflP Hpg.
  pose proof (vpath_upath va' Hva') as Hq'. destruct Hf as (Hgn&Hnl&Hnf).
  destruct (decide (r' = r ∧ va' = va)) as [[-> ->]|Hne].
  - unfold upage. rewrite Hleaf, decide_True by done. simpl.
    destruct (pte_of_page n fl Hgn Hfl HflP) as (_&_&_&->&->).
    destruct (Hpages n Hgn Hnl) as [_ ->]; [|by rewrite Hpg].
    intros r0 p0 Hr0 Hp0 _. by apply Hnf.
  - apply (upage_same s l R); try done.
    + rewrite Hleaf by done. rewrite decide_False; [done|]. intros [-> E].
      apply vpath_inj in E; [|done..|congruence]. by apply Hne.
    + intros v Hv Hvl Hnt. by apply Hpages.
Qed.

Lemma upage_None s l R r va :
  vm_inv s l R → r ∈ R → user_va va →
  upage (km_mem s) r va = None ↔ leaf (km_mem s) r (vpath va) = None.
Proof using.
  intros Hi Hr Hva. unfold upage. destruct (leaf (km_mem s) r (vpath va)) as [e|] eqn:He; [|done].
  destruct (leaf_page s l R r va e Hi Hr Hva He) as (_&_&_&_&pg&Hpg&_). simpl. by rewrite Hpg.
Qed.

(** Allocate a page, fill it with [c] and map it at [va]. *)
Lemma untouched_kalloc s l n R x : untouched s (n :: l) R (set_km_freelist x s) l R.
Proof using.
  split; [done|]. intros v (Hg&Hl&Hv). apply not_elem_of_cons in Hl as [_ Hl]. done.
Qed.

(** Allocating a page and writing to it does not concern the pages that others have. *)
Lemma fresh_alloc_write s l R n c y v :
  vm_inv s (n :: l) R → fresh s (n :: l) R v →
  let s2 := set_km_mem (<[page_of n := c]> (km_mem s)) (set_km_freelist y s) in
  v ≠ n ∧ fresh s2 l R v ∧ km_mem s2 !! page_of v = km_mem s !! page_of v.
Proof using Hend.
  intros Hi (Hg&[Hvn Hvl]%not_elem_of_cons&Hv) s2.
  pose proof (ki_good _ _ _ (vi_kmem _ _ _ Hi)) as [Hgn _]%Forall_cons_1.
  assert (not_table s R n) as Hnt.
  { intros r q Hr Hq _ Hn. destruct (vi_node _ _ _ Hi r q n Hr Hq Hn) as [_ Hx]. apply Hx, list_elem_of_here. }
  split; [done|]. split.
  - split_and!; [done..|]. intros r q Hr Hq. unfold s2. cbn [km_mem set_km_mem set_km_freelist].
    rewrite (node_write s (n :: l) R) by done. by apply Hv.
  - apply lookup_insert_ne. intros E. apply (good_page_inj kend Hend) in E; [|done..]. congruence.
Qed.

Lemma alloc_map_run s l R r va c perm :
  vm_inv s l R → r ∈ R → user_page va → (4 ≤ length l)%nat →
  upage (km_mem s) r va = None → is_page c → 0 ≤ perm < PGSIZE →
  ∃ n s1 s2 s3 l3, kalloc s = Ok n s1 ∧ n =? 0 = false ∧ km_mem s1 = km_mem s ∧
    mem_upd (store_bytes n c) s1 = Ok tt s2 ∧
    mappages r va PGSIZE (V2P n) perm s2 = Ok 0 s3 ∧ vm_inv s3 l3 R ∧
    (length l ≤ 4 + length l3)%nat ∧ (∃ k, l = k ++ l3) ∧
    (∃ e, leaf (km_mem s3) r (vpath va) = Some e ∧ P2V (PTE_ADDR e) = n) ∧
    untouched s l R s3 l3 R ∧
    ∀ r' va', r' ∈ R → user_page va' →
      upage (km_mem s3) r' va' =
        if decide (r' = r ∧ va' = va) then Some (flags [perm; PTE_P], c)
        else upage (km_mem s) r' va'.
Proof using Hend.
  intros Hi Hr [Hva Ha] Hl Hnone Hc Hperm. destruct l as [|n l]; [simpl in Hl; lia|].
  destruct (vm_kalloc s l n R Hi) as (y&Hal&Hi1&Hf1). set (s1 := set_km_freelist y s) in *.
  pose proof Hf1 as (Hgn&Hnl&_). pose proof (fresh_not_table _ _ _ _ Hf1) as Hnt1.
  set (s2 := set_km_mem (<[page_of n := c]> (km_mem s1)) s1).
  assert (vm_inv s2 l R) as Hi2 by by apply vm_write.
  assert (fresh s2 l R n) as Hf2.
  { split_and!; [done..|]. intros r' q Hr' Hq. unfold s2. cbn [km_mem set_km_mem].
    rewrite (node_write s1 l R) by done. by apply Hf1. }
  assert (∀ r' va', r' ∈ R → user_va va' → upage (km_mem s2) r' va' = upage (km_mem s) r' va') as Hup2.
  { intros r' va' Hr' Hva'. apply (upage_same s (n :: l) R); try done.
    - apply (leaf_write s1 l R); try done. by apply vpath_upath.
    - intros v Hv Hvl _. apply not_elem_of_cons in Hvl as [Hvn _]. apply lookup_insert_ne.
      intros E. apply (good_page_inj kend Hend) in E; [|done..]. congruence. }
  destruct (map_page_run s2 l R r va n perm) as (s3&l3&Hmap&Hi3&Hm3&Hl3&[k Hk]&Hfr3); try done.
  { simpl in Hl. lia. }
  { apply (upage_None s2 l R); try done. by rewrite Hup2. }
  exists n, s1, s2, s3, l3. split_and!; try done.
  - apply Z.eqb_neq. by destruct (good_page_addr kend Hend n Hgn) as (_&_&?&_).
  - apply mem_upd_run. eapply store_page; [apply Hi1|done|apply Hc].
  - simpl. lia.
  - exists (n :: k). simpl. by rewrite Hk.
  - destruct (perm_flags perm Hperm). destruct Hm3 as [Hleaf _ _]. eexists. rewrite Hleaf by (done || by apply vpath_upath).
    rewrite decide_True by done. split; [done|]. by apply (pte_of_page n (flags [perm; PTE_P])).
  - split; [apply Hm3|]. intros v Hv. destruct (fresh_alloc_write s l R n c y v Hi Hv) as (Hvn&Hv2&Ev). split; [by apply Hfr3|].
    rewrite <- Ev. apply Hm3; [apply Hv2|apply Hv2|by eapply fresh_not_table].
  - intros r' va' Hr' Hva'. destruct (perm_flags perm Hperm).
    rewrite (upage_mapped s2 l R s3 l3 r va n (flags [perm; PTE_P]) c); try done.
    + case_decide; [done|]. apply Hup2; [done|apply Hva'].
    + apply lookup_insert_eq.
Qed.

Lemma pages_count a b : a mod PGSIZE = 0 → a < b →
  Z.to_nat ((b - a) / PGSIZE + 1) = S (Z.to_nat ((b - (a + PGSIZE)) / PGSIZE + 1)) ∨ b < a + PGSIZE.
Proof using.
  intros Ha Hlt. destruct (Z.lt_ge_cases b (a + PGSIZE)); [by right|left].
  replace (b - a) with (b - (a + PGSIZE) + 1 * PGSIZE) by lia. rewrite Z.div_add by done.
  pose proof (Z.div_pos (b - (a + PGSIZE)) PGSIZE ltac:(lia) ltac:(done)). lia.
Qed.

Lemma allocuvm_loop_run fuel s l R r a oldsz newsz :
  vm_inv s l R → r ∈ R → user_page a → newsz ≤ 2 ^ 47 - PGSIZE →
  fuel = Z.to_nat ((newsz - a) / PGSIZE + 1) → (4 * fuel ≤ length l)%nat →
  (∀ va, user_page va → a ≤ va < newsz → upage (km_mem s) r va = None) →
  ∃ s' l', allocuvm_loop kend fuel r a oldsz newsz s = Ok newsz s' ∧ vm_inv s' l' R ∧
    (length l ≤ 4 * fuel + length l')%nat ∧
    ∀ r' va, r' ∈ R → user_page va →
      upage (km_mem s') r' va =
        if decide (r' = r ∧ a ≤ va < newsz) then Some (flags [PTE_W; PTE_U; PTE_P], full_page 0)
        else upage (km_mem s) r' va.
Proof using Hend.
  revert s l a. induction fuel as [|fuel IH]; intros s l a Hi Hr Hpa Hsz Hfuel Hl Hnone.
  { assert (a <? newsz = false) as E.
    { apply Z.ltb_ge. destruct (Z.lt_ge_cases newsz a); [lia|].
      pose proof (Z.div_pos (newsz - a) PGSIZE ltac:(lia) ltac:(done)). lia. }
    exists s, l. simpl. rewrite E. apply Z.ltb_ge in E. split_and!; [done|done|lia|].
    intros r' va Hr' Hva. rewrite decide_False; [done|lia]. }
  cbn [allocuvm_loop]. destruct (Z.ltb_spec a newsz) as [Hlt|Hge]; last first.
  { exists s, l. split_and!; [done|done|lia|].
    intros r' va Hr' Hva. rewrite decide_False; [done|lia]. }
  destruct (alloc_map_run s l R r a (full_page 0) (Z.lor PTE_W PTE_U))
    as (n&s1&s2&s3&l3&Hal&Hnz&_&Hz&Hmap&Hi3&Hl3&_&_&_&Hup); try done.
  { lia. }
  { apply Hnone; [done|lia]. }
  { apply zero_is_page. }
  erewrite bind_run by exact Hal. rewrite Hnz.
  erewrite bind_run by exact Hz. erewrite bind_run by exact Hmap. simpl (0 <? 0). cbv iota.
  pose proof Hpa as [Hva Ha]. unfold user_va in Hva.
  assert (u64 (a + PGSIZE) = a + PGSIZE) as -> by (apply wrap_small; unfold PGSIZE in *; lia).
  assert (user_page (a + PGSIZE)) as Hpa'.
  { split; [unfold user_va, PGSIZE in *; lia|]. rewrite Zplus_mod, Ha. done. }
  assert (∀ va, user_page va → a ≤ va < newsz → va ≠ a → a + PGSIZE ≤ va) as Hnext.
  { intros va [_ Hm] ? ?. unfold PGSIZE in *. pose proof (Z.div_mod va 4096 ltac:(lia)).
    pose proof (Z.div_mod a 4096 ltac:(lia)). lia. }
  destruct (IH s3 l3 (a + PGSIZE)) as (s'&l'&Hrun&Hi'&Hll'&Hup'); try done.
  { destruct (pages_count a newsz Ha Hlt) as [E|E]; [lia|].
    assert (Z.to_nat ((newsz - a) / PGSIZE + 1) = 1%nat) as E1.
    { rewrite Z.div_small by lia. done. }
    assert ((newsz - (a + PGSIZE)) / PGSIZE < 0) by (apply Z.div_lt_upper_bound; [done|lia]). lia. }
  { lia. }
  { intros va Hv Hr'. rewrite Hup by done. rewrite decide_False; [|unfold PGSIZE in *; lia].
    apply Hnone; [done|unfold PGSIZE in *; lia]. }
  exists s', l'. split_and!; [done|done|lia|].
  intros r' va Hr' Hv. rewrite Hup', Hup by done.
  destruct (decide (r' = r ∧ a ≤ va < newsz)) as [[-> Hin]|Hout].
  - destruct (decide (va = a)) as [->|Hne].
    + rewrite decide_False by (unfold PGSIZE; lia). by rewrite decide_True.
    + rewrite decide_True; [done|]. split; [done|]. specialize (Hnext va Hv Hin Hne). lia.
  - rewrite !decide_False; [done|..]; intros [-> ?]; apply Hout; unfold PGSIZE in *; lia.
Qed.

(** Writing a page of user memory changes that page and no other. *)
Lemma upage_write s l R r va e pg' r' va' :
  vm_inv s l R → r ∈ R → user_page va → leaf (km_mem s) r (vpath va) = Some e →
  r' ∈ R → user_page va' →
  upage (<[page_of (P2V (PTE_ADDR e)) := pg']> (km_mem s)) r' va' =
    if decide (r' = r ∧ va' = va) then Some (PTE_FLAGS e, pg') else upage (km_mem s) r' va'.
Proof using Hend.
  intros Hi Hr [Hva Ha] He Hr' [Hva' Ha'].
  destruct (leaf_page s l R r va e Hi Hr Hva He) as (Hn&Hg&Hnl&Hnt&_).
  unfold upage. rewrite (leaf_write s l R) by (done || by apply vpath_upath).
  destruct (decide (r' = r ∧ va' = va)) as [[-> ->]|Hne].
  - rewrite He. simpl. by rewrite lookup_insert_eq.
  - destruct (leaf (km_mem s) r' (vpath va')) as [e'|] eqn:He'; [|done]. simpl.
    destruct (leaf_page s l R r' va' e' Hi Hr' Hva' He') as (Hn'&Hg'&_).
    rewrite lookup_insert_ne; [done|]. intros E. apply (good_page_inj kend Hend) in E; [|done..].
    rewrite <- E in Hn'.
    destruct (vi_inj _ _ _ Hi r' r _ _ _ Hr' Hr (vpath_upath _ Hva') (vpath_upath _ Hva) Hn' Hn) as [-> Ep].
    apply vpath_inj in Ep; [|done..|congruence]. by apply Hne.
Qed.

(** The entry of a mapped address as walkpgdir finds it. *)
Lemma pte_load s l R r va e :
  vm_inv s l R → r ∈ R → user_va va → leaf (km_mem s) r (vpath va) = Some e →
  ∃ pte, walkpgdir r va false s = Ok pte s ∧ pte =? 0 = false ∧
    load64 (km_mem s) pte = Some e ∧ Z.land e PTE_P =? 0 = false.
Proof using Hend.
  intros Hi Hr Hva He. destruct (vpath_levels va Hva) as (_&_&_&H4).
  pose proof (upath_snoc _ _ H4) as (Hp3&_&Hjr).
  rewrite leaf_vpath in He. destruct (node (km_mem s) r [PMX va; PDPX va; PDX va]) as [pt|] eqn:Hpt; [|done].
  destruct (load_table s l R r _ pt (PTX va) Hi Hr H4 Hpt) as (e'&He'&Hent&_).
  destruct (vi_node _ _ _ Hi r _ pt Hr Hp3 Hpt) as [Hgp _].
  simpl in He. rewrite Hent in He. destruct (present e') eqn:Hp; [|done]. injection He as ->.
  exists (entry_addr pt (PTX va)). split_and!.
  - rewrite (walkpgdir_run s l R) by done. by rewrite Hpt.
  - by apply entry_addr_nonzero.
  - done.
  - unfold present in Hp. by apply negb_true_iff in Hp.
Qed.

Lemma uva2ka_run s l R r va e :
  vm_inv s l R → r ∈ R → user_va va → leaf (km_mem s) r (vpath va) = Some e →
  uva2ka r va s = Ok (if Z.land e PTE_U =? 0 then 0 else P2V (PTE_ADDR e)) s.
Proof using Hend.
  intros Hi Hr Hva He. destruct (pte_load s l R r va e Hi Hr Hva He) as (pte&Hw&_&Hld&HP).
  unfold uva2ka. erewrite bind_run by exact Hw. erewrite bind_run by by apply load_run.
  rewrite HP. by destruct (Z.land e PTE_U =? 0).
Qed.

(** The byte of user memory at [a]. *)
Definition ubyte m r a : option Z :=
  '(_, pg) ← upage m r (a - a mod PGSIZE); pg !! Z.to_nat (a mod PGSIZE).

(** User code may access the page of [a]. *)
Definition accessible m r a : Prop :=
  ∃ e, leaf m r (vpath (a - a mod PGSIZE)) = Some e ∧ Z.land e PTE_U ≠ 0.

Lemma accessible_upage m r a fl pg :
  upage m r (a - a mod PGSIZE) = Some (fl, pg) → Z.land fl PTE_U ≠ 0 → accessible m r a.
Proof using.
  unfold upage, accessible. destruct (leaf m r (vpath (a - a mod PGSIZE))) as [e|]; [|done]. simpl.
  destruct (m !! page_of _); simpl; [|done]. intros [= <- <-] HU. exists e. split; [done|].
  intros E. apply HU. unfold PTE_FLAGS. rewrite <- Z.land_assoc, (Z.land_comm 0xFFF), Z.land_assoc, E. done.
Qed.

Lemma page_base a : user_va a → user_page (a - a mod PGSIZE).
Proof using.
  intros Ha. unfold user_va, user_page, PGSIZE in *.
  pose proof (Z.mod_pos_bound a 4096 ltac:(lia)). split; [split; [|lia]|].
  - pose proof (Z.mod_le a 4096 ltac:(lia) ltac:(lia)). lia.
  - rewrite Zminus_mod, Zmod_mod, Z.sub_diag. done.
Qed.

Lemma page_off v o : good v → 0 ≤ o < PGSIZE →
  page_of (u64 (v + o)) = page_of v ∧ off_of (u64 (v + o)) = Z.to_nat o.
Proof using Hend.
  intros Hv Ho. destruct (good_page_addr kend Hend v Hv) as (E&_&_&Ev&Hr).
  destruct Hv as (Ha&Hk&Hp). unfold page_of, off_of, V2P, KERNBASE, PHYSTOP, PGSIZE in *.
  rewrite (wrap_small 64 (v + o)) by lia. rewrite !wrap_small in * by lia.
  assert (v + o - 0xFFFF800000000000 = o + (v - 0xFFFF800000000000) / 4096 * 4096) as -> by lia.
  rewrite Z_div_plus, Z_mod_plus_full, (Z.div_small o), (Z.mod_small o) by lia. lia.
Qed.

(** From [m] to [m'] only the contents of pages of [r] changed. *)
Definition only_contents m m' R r : Prop := ∀ r' va, r' ∈ R → user_page va →
  fst <$> upage m' r' va = fst <$> upage m r' va ∧ (r' ≠ r → upage m' r' va = upage m r' va).

Lemma only_contents_trans m1 m2 m3 R r : only_contents m1 m2 R r → only_contents m2 m3 R r → only_contents m1 m3 R r.
Proof using.
  intros H1 H2 r' va Hr Hva. destruct (H1 r' va Hr Hva) as [E1 F1], (H2 r' va Hr Hva) as [E2 F2].
  split; [by rewrite E2, E1|]. intros Hne. by rewrite F2, F1.
Qed.

(** A store of [bs] into the page of [va]. *)
Lemma store_upage s l R r va e bs :
  vm_inv s l R → r ∈ R → user_va va → leaf (km_mem s) r (vpath (va - va mod PGSIZE)) = Some e → bytes bs →
  va mod PGSIZE + Z.of_nat (length bs) ≤ PGSIZE →
  ∃ s', mem_upd (store_bytes (u64 (P2V (PTE_ADDR e) + va mod PGSIZE)) bs) s = Ok tt s' ∧ vm_inv s' l R ∧
    (∀ r' q, r' ∈ R → upath q → length q = 4%nat → leaf (km_mem s') r' q = leaf (km_mem s) r' q) ∧
    only_contents (km_mem s) (km_mem s') R r ∧
    ∀ r' a, r' ∈ R → user_va a →
      ubyte (km_mem s') r' a =
        if decide (r' = r ∧ va ≤ a < va + Z.of_nat (length bs)) then bs !! Z.to_nat (a - va)
        else ubyte (km_mem s) r' a.
Proof using Hend.
  intros Hi Hr Hva He Hbs Hlen. pose proof (page_base va Hva) as Hpb.
  destruct (leaf_page s l R r _ e Hi Hr (proj1 Hpb) He) as (Hn&Hg&Hnl&Hnt&pg&Hpg&Hpl&Hpgb).
  set (v := P2V (PTE_ADDR e)) in *.
  assert (0 ≤ va mod PGSIZE < PGSIZE) as Hmod by by apply Z.mod_pos_bound.
  destruct (page_off v (va mod PGSIZE) Hg Hmod) as [Epg Eoff].
  set (pg' := splice (Z.to_nat (va mod PGSIZE)) bs pg).
  assert (upage (km_mem s) r (va - va mod PGSIZE) = Some (PTE_FLAGS e, pg)) as Hup.
  { unfold upage. rewrite He. simpl. fold v. by rewrite Hpg. }
  exists (set_km_mem (<[page_of v := pg']> (km_mem s)) s). split_and!.
  - apply mem_upd_run. unfold store_bytes. rewrite Epg, Eoff, Hpg. simpl. rewrite decide_True by lia. done.
  - apply vm_write; try done. split; [|by apply splice_forall].
    unfold pg'. rewrite length_splice; [done|lia].
  - intros r' q Hr' Hq Hl4. by apply (leaf_write s l R).
  - intros r' va' Hr' Hva'. simpl. rewrite (upage_write s l R r (va - va mod PGSIZE) e pg') by done.
    case_decide as Hd; [|done]. destruct Hd as [-> ->]. by rewrite Hup.
  - intros r' a Hr' Ha. pose proof (page_base a Ha) as Hpa. unfold ubyte. simpl.
    rewrite (upage_write s l R r (va - va mod PGSIZE) e pg') by done.
    assert (0 ≤ a mod PGSIZE < PGSIZE) as Hamod by by apply Z.mod_pos_bound.
    destruct (decide (r' = r ∧ a - a mod PGSIZE = va - va mod PGSIZE)) as [[-> E]|Hne].
    + simpl. unfold pg'. rewrite lookup_splice by lia. rewrite E, Hup.
      simpl. repeat case_decide; try lia; try done; f_equal; lia.
    + rewrite decide_False; [done|]. intros [-> Hin]. apply Hne. split; [done|].
      unfold PGSIZE in *. pose proof (Z.div_mod a 4096 ltac:(lia)). pose proof (Z.div_mod va 4096 ltac:(lia)). lia.
Qed.

(** inituvm: the first page of user memory holds [init]. *)
Lemma inituvm_run s l R r init :
  vm_inv s l R → r ∈ R → (4 ≤ length l)%nat → upage (km_mem s) r PGSIZE = None → bytes init →
  Z.of_nat (length init) < PGSIZE →
  ∃ s' l', inituvm r init s = Ok tt s' ∧ vm_inv s' l' R ∧ (length l ≤ 4 + length l')%nat ∧
    (∀ j x, init !! j = Some x → ubyte (km_mem s') r (PGSIZE + Z.of_nat j) = Some x) ∧
    ∀ r' va, r' ∈ R → user_page va → fst <$> upage (km_mem s') r' va =
      if decide (r' = r ∧ va = PGSIZE) then Some (flags [PTE_W; PTE_U; PTE_P]) else fst <$> upage (km_mem s) r' va.
Proof using Hend.
  intros Hi Hr Hl Hnone Hb Hlen. assert (user_page PGSIZE) as Hpg by (split; [unfold user_va, PGSIZE; lia|done]).
  destruct (alloc_map_run s l R r PGSIZE (full_page 0) (Z.lor PTE_W PTE_U))
    as (n&s1&s2&s3&l3&Hal&_&_&Hz&Hmap&Hi3&Hl3&_&(e&He&En)&_&Hup); try done; [apply zero_is_page|].
  change PGSIZE with (PGSIZE - PGSIZE mod PGSIZE) in He at 1.
  destruct (store_upage s3 l3 R r PGSIZE e init Hi3 Hr (proj1 Hpg) He Hb) as (s4&Hst&Hi4&_&Hoc&Hby).
  { change (PGSIZE mod PGSIZE) with 0. lia. }
  change (PGSIZE mod PGSIZE) with 0 in Hst. rewrite Z.add_0_r, En in Hst.
  destruct (leaf_page s3 l3 R r _ e Hi3 Hr (proj1 Hpg) He) as (_&Hg&_). rewrite En in Hg.
  exists s4, l3. split_and!; [|done|lia|..].
  - unfold inituvm. rewrite (proj2 (Z.leb_gt _ _)) by lia. erewrite bind_run by exact Hal. erewrite bind_run by exact Hz.
    erewrite bind_run by exact Hmap. rewrite <- Hst. f_equal. f_equal. symmetry. apply wrap_small.
    destruct Hg as (_&?&?). unfold KERNBASE, PHYSTOP in *. lia.
  - intros j x Hx. pose proof (lookup_lt_Some _ _ _ Hx). rewrite Hby; [|done|unfold user_va, PGSIZE in *; lia].
    rewrite decide_True by lia. rewrite <- Hx. f_equal. lia.
  - intros r' va Hr' Hva. rewrite (proj1 (Hoc r' va Hr' Hva)), Hup by done. by case_decide.
Qed.

(** One iteration of copyout: [bs] go into the page of [va]. *)
Lemma copyout_step s l R r va bs :
  vm_inv s l R → r ∈ R → user_va va → accessible (km_mem s) r va → bytes bs →
  va mod PGSIZE + Z.of_nat (length bs) ≤ PGSIZE →
  ∃ pa0 s', uva2ka r (va - va mod PGSIZE) s = Ok pa0 s ∧ pa0 =? 0 = false ∧
    mem_upd (store_bytes (u64 (pa0 + va mod PGSIZE)) bs) s = Ok tt s' ∧ vm_inv s' l R ∧
    (∀ r' q, r' ∈ R → upath q → length q = 4%nat → leaf (km_mem s') r' q = leaf (km_mem s) r' q) ∧
    only_contents (km_mem s) (km_mem s') R r ∧
    ∀ r' a, r' ∈ R → user_va a →
      ubyte (km_mem s') r' a =
        if decide (r' = r ∧ va ≤ a < va + Z.of_nat (length bs)) then bs !! Z.to_nat (a - va)
        else ubyte (km_mem s) r' a.
Proof using Hend.
  intros Hi Hr Hva (e&He&HU) Hbs Hlen. pose proof (page_base va Hva) as Hpb.
  destruct (leaf_page s l R r _ e Hi Hr (proj1 Hpb) He) as (_&Hg&_).
  destruct (store_upage s l R r va e bs Hi Hr Hva He Hbs Hlen) as (s'&Hst&Hrest).
  exists (P2V (PTE_ADDR e)), s'. split_and!; [| |exact Hst|apply Hrest..].
  - erewrite uva2ka_run; [|done..|by apply Hpb|done]. by rewrite (proj2 (Z.eqb_neq _ 0)).
  - apply Z.eqb_neq. by destruct (good_page_addr kend Hend _ Hg) as (_&_&?&_).
Qed.

Lemma accessible_leaf m m' r a :
  leaf m' r (vpath (a - a mod PGSIZE)) = leaf m r (vpath (a - a mod PGSIZE)) →
  accessible m r a → accessible m' r a.
Proof using. intros E (e&He&HU). exists e. by rewrite E. Qed.

Lemma copyout_loop_run fuel s l R r va buf :
  vm_inv s l R → r ∈ R → (length buf < fuel)%nat → bytes buf →
  0 ≤ va → va + Z.of_nat (length buf) ≤ 2 ^ 47 →
  (∀ a, va ≤ a < va + Z.of_nat (length buf) → accessible (km_mem s) r a) →
  ∃ s', copyout_loop fuel r va buf s = Ok 0 s' ∧ vm_inv s' l R ∧
    only_contents (km_mem s) (km_mem s') R r ∧
    ∀ r' a, r' ∈ R → user_va a →
      ubyte (km_mem s') r' a =
        if decide (r' = r ∧ va ≤ a < va + Z.of_nat (length buf)) then buf !! Z.to_nat (a - va)
        else ubyte (km_mem s) r' a.
Proof using Hend.
  revert s va buf. induction fuel as [|fuel IH]; intros s va buf Hi Hr Hf Hb H0 Hmax Hacc; [lia|].
  destruct (decide (buf = [])) as [->|Hne].
  { exists s. simpl. split_and!; [done..|]. intros r' a _ _. rewrite decide_False; [done|simpl; lia]. }
  assert (0 < Z.of_nat (length buf)) as Hpos by (destruct buf; [done|simpl; lia]).
  set (n := Z.to_nat (PGSIZE - va mod PGSIZE)).
  assert (0 ≤ va mod PGSIZE < PGSIZE) as Hmod by by apply Z.mod_pos_bound.
  assert (user_va va) as Hva by (unfold user_va; lia).
  assert (PGROUNDDOWN va = va - va mod PGSIZE) as Eva0
    by (apply PGROUNDDOWN_spec; unfold user_va in *; lia).
  destruct (copyout_step s l R r va (take n buf)) as (pa0&s1&Hka&Hnz&Hst&Hi1&Hleaf1&Hfl1&Hub1); try done.
  { apply Hacc. lia. }
  { by apply Forall_take. }
  { rewrite length_take. lia. }
  assert (copyout_loop (S fuel) r va buf s =
    copyout_loop fuel r (u64 (va - va mod PGSIZE + PGSIZE)) (drop n buf) s1) as Hrun.
  { destruct buf as [|b buf]; [done|]. cbn [copyout_loop]. rewrite Eva0.
    replace (va - (va - va mod PGSIZE)) with (va mod PGSIZE) by lia.
    erewrite bind_run by exact Hka. rewrite Hnz. by erewrite bind_run by exact Hst. }
  setoid_rewrite Hrun. rewrite wrap_small by (unfold user_va, PGSIZE in *; lia).
  destruct (decide (length buf ≤ n)%nat) as [Hshort|Hlong].
  { rewrite take_ge in Hub1 by done. exists s1. rewrite drop_ge by done.
    destruct fuel; simpl; by split_and!. }
  rewrite length_take, Nat.min_l in Hub1 by lia.
  destruct (IH s1 (va - va mod PGSIZE + PGSIZE) (drop n buf)) as (s2&Hrun2&Hi2&Hfl2&Hub2); try done.
  { rewrite length_drop. lia. }
  { by apply Forall_drop. }
  { lia. }
  { rewrite length_drop. lia. }
  { intros a Ha. rewrite length_drop in Ha. eapply accessible_leaf; [|apply Hacc; lia].
    assert (user_va a) as Hau by (unfold user_va; lia).
    apply Hleaf1; [done|apply vpath_upath, page_base, Hau|done]. }
  exists s2. split_and!; [done..|by eapply only_contents_trans|]. intros r' a Hr' Ha. rewrite Hub2, Hub1, length_drop by done.
  destruct (decide (r' = r)) as [->|]; last (rewrite !decide_False by tauto; done).
  repeat case_decide; try lia; try done.
  - rewrite lookup_drop. f_equal. lia.
  - rewrite lookup_take_lt by lia. done.
Qed.

Lemma flags_present e : Z.land e PTE_P =? 0 = false → flags [PTE_FLAGS e; PTE_P] = PTE_FLAGS e.
Proof using.
  intros HP. unfold flags. simpl. rewrite Z.lor_0_r. apply Z.bits_inj'. intros k Hk.
  rewrite Z.lor_spec. unfold PTE_FLAGS. rewrite Z.land_spec.
  destruct (Z.eq_dec k 0) as [->|Hk0].
  - apply Z.eqb_neq in HP. destruct (Z.testbit e 0) eqn:E; [done|]. exfalso. apply HP.
    apply Z.bits_inj'. intros j Hj. rewrite Z.land_spec, Z.bits_0.
    destruct (Z.eq_dec j 0) as [->|]; [by rewrite E|].
    rewrite (Z.bits_above_log2 PTE_P j), andb_false_r; [done|done|simpl; lia].
  - rewrite (Z.bits_above_log2 PTE_P k), orb_false_r; [done|done|simpl; lia].
Qed.

(** Page by page, what copyuvm copies. *)
Lemma copyuvm_loop_run fuel s l R r d i sz :
  vm_inv s l R → r ∈ R → d ∈ R → r ≠ d → user_page i → sz ≤ 2 ^ 47 - PGSIZE →
  fuel = Z.to_nat ((sz - i) / PGSIZE + 1) → (4 * fuel ≤ length l)%nat →
  (∀ va, user_page va → i ≤ va < sz → upage (km_mem s) d va = None) →
  (∀ va, user_page va → i ≤ va < sz → ∃ fl pg, upage (km_mem s) r va = Some (fl, pg)) →
  ∃ s' l', copyuvm_loop kend fuel r d i sz s = Ok d s' ∧ vm_inv s' l' R ∧
    (∃ k, l = k ++ l') ∧ untouched s l R s' l' R ∧
    ∀ r' va, r' ∈ R → user_page va →
      upage (km_mem s') r' va =
        if decide (r' = d ∧ i ≤ va < sz) then upage (km_mem s) r va else upage (km_mem s) r' va.
Proof using Hend.
  revert s l i. induction fuel as [|fuel IH]; intros s l i Hi Hr Hd Hrd Hpi Hsz Hfuel Hl Hnone Hsrc.
  { assert (i <? sz = false) as E.
    { apply Z.ltb_ge. destruct (Z.lt_ge_cases sz i); [lia|].
      pose proof (Z.div_pos (sz - i) PGSIZE ltac:(lia) ltac:(done)). lia. }
    exists s, l. simpl. rewrite E. apply Z.ltb_ge in E. split_and!; [done|done|by exists []|apply untouched_refl|].
    intros r' va Hr' Hva. rewrite decide_False; [done|lia]. }
  cbn [copyuvm_loop]. destruct (Z.ltb_spec i sz) as [Hlt|Hge]; last first.
  { exists s, l. split_and!; [done|done|by exists []|apply untouched_refl|].
    intros r' va Hr' Hva. rewrite decide_False; [done|lia]. }
  pose proof Hpi as [Hva Ha].
  destruct (Hsrc i Hpi ltac:(lia)) as (fl&pg&Hsp).
  assert (∃ e, leaf (km_mem s) r (vpath i) = Some e ∧ PTE_FLAGS e = fl ∧
    km_mem s !! page_of (P2V (PTE_ADDR e)) = Some pg) as (e&He&Hfl&Hpg).
  { unfold upage in Hsp. destruct (leaf (km_mem s) r (vpath i)) as [e|]; [|done]. simpl in Hsp.
    destruct (km_mem s !! _) eqn:Hpg; simplify_eq/=. eauto. }
  destruct (leaf_page s l R r i e Hi Hr Hva He) as (_&Hgv&_&_&pg0&Hpg0&Hpgok). simplify_eq.
  destruct (alloc_map_run s l R d i pg (PTE_FLAGS e))
    as (n&s1&s2&s3&l3&Hal&Hnz&Em&Hz&Hmap&Hi3&Hl3&[k3 Hk3]&_&Hun3&Hup); try done.
  { lia. }
  { apply Hnone; [done|lia]. }
  { rewrite PTE_FLAGS_spec. by apply Z.mod_pos_bound. }
  destruct (pte_load s l R r i e Hi Hr Hva He) as (pte&Hw&Hpz&Hld&HP).
  erewrite bind_run by exact Hw. rewrite Hpz. erewrite bind_run by by apply load_run. rewrite HP.
  erewrite bind_run by exact Hal. rewrite Hnz. erewrite bind_run by done.
  rewrite Em. assert (load_bytes (km_mem s) (P2V (PTE_ADDR e)) (Z.to_nat PGSIZE) = Some pg) as ->.
  { destruct (good_page_addr kend Hend _ Hgv) as (_&Hoff&_). unfold load_bytes. rewrite Hpg, Hoff.
    cbn [mbind option_bind]. rewrite decide_True by lia. f_equal. apply sub_all. destruct Hpgok. lia. }
  cbn [the]. erewrite bind_run by done. erewrite bind_run by exact Hz. erewrite bind_run by exact Hmap.
  simpl (0 <? 0). cbv iota. unfold user_va in Hva.
  assert (u64 (i + PGSIZE) = i + PGSIZE) as -> by (apply wrap_small; unfold PGSIZE in *; lia).
  assert (user_page (i + PGSIZE)) as Hpi'.
  { split; [unfold user_va, PGSIZE in *; lia|]. rewrite Zplus_mod, Ha. done. }
  assert (∀ va, user_page va → i ≤ va < sz → va ≠ i → i + PGSIZE ≤ va) as Hnext.
  { intros va [_ Hm] ? ?. unfold PGSIZE in *. pose proof (Z.div_mod va 4096 ltac:(lia)).
    pose proof (Z.div_mod i 4096 ltac:(lia)). lia. }
  assert (flags [PTE_FLAGS e; PTE_P] = PTE_FLAGS e) as Efl by by apply flags_present.
  destruct (IH s3 l3 (i + PGSIZE)) as (s'&l'&Hrun&Hi'&[k' Hk']&Hun'&Hup'); try done.
  { destruct (pages_count i sz Ha Hlt) as [E|E]; [lia|].
    assert (Z.to_nat ((sz - i) / PGSIZE + 1) = 1%nat) as E1.
    { rewrite Z.div_small by lia. done. }
    assert ((sz - (i + PGSIZE)) / PGSIZE < 0) by (apply Z.div_lt_upper_bound; [done|lia]). lia. }
  { lia. }
  { intros va Hv Hr'. rewrite Hup by done. rewrite decide_False; [|unfold PGSIZE in *; lia].
    apply Hnone; [done|unfold PGSIZE in *; lia]. }
  { intros va Hv Hr'. rewrite Hup by done. rewrite decide_False; [|tauto].
    apply Hsrc; [done|unfold PGSIZE in *; lia]. }
  exists s', l'. split_and!; [done|done| |by eapply untouched_trans|].
  { exists (k3 ++ k'). rewrite Hk3, Hk'. by rewrite app_assoc. }
  intros r' va Hr' Hv. rewrite Hup' by done. rewrite !Hup by done.
  rewrite (decide_False (P := r = d ∧ va = i)) by tauto.
  destruct (decide (r' = d ∧ i ≤ va < sz)) as [[-> Hin]|Hout].
  - destruct (decide (va = i)) as [->|Hne].
    + rewrite decide_False by (unfold PGSIZE; lia). rewrite decide_True by done. by rewrite Efl, Hsp.
    + rewrite decide_True; [done|]. split; [done|]. specialize (Hnext va Hv Hin Hne). lia.
  - rewrite !decide_False; [done|..]; intros [-> ?]; apply Hout; unfold PGSIZE in *; lia.
Qed.

(** * New and shrinking address spaces *)

(** A root whose user half is empty can be added. *)
Lemma vm_add_root s l R d :
  vm_inv s l R → fresh s l R d → (∀ i, 0 ≤ i < 256 → entry (km_mem s) d i = None) →
  vm_inv s l ({[d]} ∪ R) ∧ ∀ p, upath p → p ≠ [] → node (km_mem s) d p = None.
Proof using Hend.
  intros Hi (Hg&Hnl&Hf) Hz.
  assert (∀ p, upath p → p ≠ [] → node (km_mem s) d p = None) as Hd.
  { intros [|i p] Hp Hne; [done|]. simpl. unfold next. rewrite Hz; [done|].
    destruct Hp as (_&Hp&Hh). apply Forall_cons_1 in Hp as [? _]. specialize (Hh i eq_refl). lia. }
  assert (∀ r p t, r ∈ {[d]} ∪ R → upath p → node (km_mem s) r p = Some t →
    r = d ∧ p = [] ∧ t = d ∨ r ∈ R ∧ t ≠ d) as Hcase.
  { intros r p t Hr Hp Ht. destruct (decide (r ∈ R)) as [HrR|HrR].
    - right. split; [done|]. intros ->. by apply (Hf r p).
    - left. assert (r = d) as -> by set_solver. destruct (decide (p = [])) as [->|Hne].
      + by injection Ht as ->.
      + by rewrite Hd in Ht. }
  split; [|done]. split.
  - apply Hi.
  - intros r p t Hr Hp Ht. destruct (Hcase r p t Hr Hp Ht) as [(->&->&->)|[HrR _]]; [done|].
    by eapply (vi_node _ _ _ Hi).
  - intros r r' p p' t Hr Hr' Hp Hp' Ht Ht'.
    destruct (Hcase r p t Hr Hp Ht) as [(->&->&->)|[HrR Hne]],
      (Hcase r' p' _ Hr' Hp' Ht') as [(->&->&E)|[HrR' Hne']]; try done.
    by eapply (vi_inj _ _ _ Hi).
Qed.

Lemma setupkvm_run kpdpt s d l R :
  vm_inv s (d :: l) R →
  ∃ s', setupkvm kpdpt s = Ok d s' ∧ d =? 0 = false ∧ vm_inv s' l ({[d]} ∪ R) ∧ d ∉ R ∧
    (∀ r va, r ∈ R → user_va va → upage (km_mem s') r va = upage (km_mem s) r va) ∧
    (∀ va, user_va va → upage (km_mem s') d va = None) ∧
    (∀ p, upath p → p ≠ [] → node (km_mem s') d p = None) ∧
    untouched s (d :: l) R s' l ({[d]} ∪ R).
Proof using Hend.
  intros Hi. destruct (vm_kalloc s l d R Hi) as (y&Hal&Hi1&Hf1). set (s1 := set_km_freelist y s) in *.
  pose proof Hf1 as (Hgn&Hnl&_). pose proof (fresh_not_table _ _ _ _ Hf1) as Hnt1.
  set (x := flags [V2P kpdpt; PTE_P; PTE_W]).
  set (pg := put_u64 (Z.to_nat (8 * 256)) x (full_page 0)).
  set (s2 := set_km_mem (<[page_of d := pg]> (km_mem s1)) s1).
  assert (is_page pg) as Hpg.
  { pose proof zero_is_page as [Hl Hb]. split; [|by apply put_le_bytes].
    unfold pg. rewrite length_put_le; [done|]. rewrite Hl. unfold PGSIZE. lia. }
  assert (vm_inv s2 l R) as Hi2 by by apply vm_write.
  assert (fresh s2 l R d) as Hf2.
  { split_and!; [done..|]. intros r q Hr Hq. unfold s2. cbn [km_mem set_km_mem].
    rewrite (node_write s1 l R) by done. by apply Hf1. }
  destruct (vm_add_root s2 l R d Hi2 Hf2) as [Hi3 Hd].
  { intros i Hr. rewrite <- (zero_entry (<[page_of d := full_page 0]> (km_mem s1)) d i);
      [|done|lia|apply lookup_insert_eq].
    unfold entry. rewrite !(load_entry _ _ _ _ Hgn) by (lia || apply lookup_insert_eq). simpl.
    unfold pg. rewrite get_put_le_other; [done| |lia]. rewrite (proj1 zero_is_page). unfold PGSIZE. lia. }
  assert (d ∉ R) as HdR.
  { intros HdR. destruct Hf1 as (_&_&Hf1). apply (Hf1 d [] HdR); [|done].
    split_and!; [simpl; lia|constructor|done]. }
  exists s2. split_and!; try done.
  - unfold setupkvm. erewrite bind_run by exact Hal.
    erewrite bind_run by (apply mem_upd_run; eapply store_page; [apply Hi1|done|apply zero_is_page]).
    erewrite bind_run; [done|]. unfold store.
    erewrite mem_upd_run; [|eapply store_entry; [done|lia|apply lookup_insert_eq]].
    f_equal. unfold s2, set_entry, set_km_mem. simpl. f_equal.
    apply map_eq. intros k. destruct (decide (k = page_of d)) as [->|].
    + by rewrite lookup_alter_eq, !lookup_insert_eq.
    + by rewrite lookup_alter_ne, !lookup_insert_ne.
  - apply Z.eqb_neq. by destruct (good_page_addr kend Hend d Hgn) as (_&_&?&_).
  - intros r va Hr Hva. apply (upage_same s (d :: l) R); try done.
    + apply (leaf_write s1 l R); try done. by apply vpath_upath.
    + intros v Hv Hvl _. apply not_elem_of_cons in Hvl as [Hvn _]. apply lookup_insert_ne.
      intros E. apply (good_page_inj kend Hend) in E; [|done..]. congruence.
  - intros va Hva. apply (upage_None s2 l ({[d]} ∪ R)); [done|set_solver|done|].
    rewrite leaf_vpath, Hd; [done| |done]. apply (upath_app [PMX va; PDPX va; PDX va] [PTX va] (vpath_upath va Hva)).
  - split; [done|]. intros v Hv. destruct (fresh_alloc_write s l R d pg y v Hi Hv) as (Hvd&(?&?&Hv2)&Ev). split; [|done]. split_and!; [done..|].
    intros r q [->%elem_of_singleton|Hr]%elem_of_union Hq; [|by apply Hv2].
    destruct (decide (q = [])) as [->|Hq']; [simpl; congruence|]. by rewrite Hd.
Qed.

(** kvmalloc takes two pages, which belong to no address space. *)
Lemma fresh_write s l R n pg :
  vm_inv s l R → fresh s l R n → is_page pg →
  let s' := set_km_mem (<[page_of n := pg]> (km_mem s)) s in
  vm_inv s' l R ∧ ∀ n', fresh s l R n' → fresh s' l R n'.
Proof using Hend.
  intros Hi Hf Hpg s'. pose proof Hf as (Hg&Hl&_). pose proof (fresh_not_table _ _ _ _ Hf) as Hnt.
  split; [by apply vm_write|]. intros n' (Hg'&Hl'&Hn'). split_and!; [done..|]. intros r q Hr Hq. unfold s'. cbn [km_mem set_km_mem].
  rewrite (node_write s l R) by done. by apply Hn'.
Qed.

Lemma fresh_store s l R n i x :
  vm_inv s l R → fresh s l R n → 0 ≤ i < 512 →
  ∃ s', store (entry_addr n i) x s = Ok tt s' ∧ vm_inv s' l R ∧ ∀ n', fresh s l R n' → fresh s' l R n'.
Proof using Hend.
  intros Hi Hf Hir. pose proof Hf as (Hg&_). destruct (ki_pages _ _ _ (vi_kmem _ _ _ Hi) n Hg) as (pg&Hpg&Hpl&Hpb).
  assert (is_page (put_u64 (Z.to_nat (8 * i)) x pg)) as Hpg'.
  { split; [|by apply put_le_bytes]. rewrite length_put_le; [done|]. rewrite Hpl. unfold PGSIZE. lia. }
  destruct (fresh_write s l R n _ Hi Hf Hpg') as [Hi' Hf']. eexists. split; [|split; [exact Hi'|exact Hf']].
  unfold store. erewrite mem_upd_run; [|eapply store_entry; done]. f_equal. unfold set_entry, set_km_mem. simpl. f_equal.
  apply map_eq. intros k. destruct (decide (k = page_of n)) as [->|].
  - by rewrite lookup_alter_eq, Hpg, lookup_insert_eq.
  - by rewrite lookup_alter_ne, lookup_insert_ne.
Qed.

Lemma kalloc_zero_run s l R n :
  vm_inv s (n :: l) R →
  ∃ s1 s2, kalloc s = Ok n s1 ∧ zero_page n s1 = Ok tt s2 ∧ vm_inv s2 l R ∧ fresh s2 l R n ∧
    ∀ n', n' ≠ n → fresh s (n :: l) R n' → fresh s2 l R n'.
Proof using Hend.
  intros Hi. destruct (vm_kalloc s l n R Hi) as (y&Hal&Hi1&Hf1).
  destruct (fresh_write _ l R n (full_page 0) Hi1 Hf1 zero_is_page) as [Hi2 Hf2].
  eexists _, _. split; [exact Hal|]. split; [apply mem_upd_run; eapply store_page; [apply Hi1|apply Hf1|apply zero_is_page]|].
  split_and!; [done|by apply Hf2|]. intros n' Hne (Hg&Hl&Hn). apply Hf2. apply not_elem_of_cons in Hl as [_ Hl]. by split_and!.
Qed.

Lemma kvmalloc_run s a b l R :
  vm_inv s (a :: b :: l) R → ∃ s', kvmalloc s = Ok (a, b) s' ∧ vm_inv s' l R.
Proof using Hend.
  intros Hi. pose proof (ki_nodup _ _ _ (vi_kmem _ _ _ Hi)) as Hnd. apply list.NoDup_cons in Hnd as [Hab _].
  apply not_elem_of_cons in Hab as [Hab _].
  destruct (kalloc_zero_run s (b :: l) R a Hi) as (s1&s2&Ha1&Hz1&Hi2&Hfa&_).
  destruct (kalloc_zero_run s2 l R b Hi2) as (s3&s4&Ha2&Hz2&Hi4&Hfb&Hfr).
  specialize (Hfr a Hab Hfa).
  destruct (fresh_store s4 l R a (PMX KERNBASE) (flags [V2P b; PTE_P; PTE_W]) Hi4 Hfr) as (s5&Hs5&Hi5&Hf5).
  { vm_compute. split; [discriminate|reflexivity]. }
  destruct (fresh_store s5 l R b 0 (flags [0; PTE_PS; PTE_P; PTE_W]) Hi5 (Hf5 b Hfb)) as (s6&Hs6&Hi6&Hf6); [lia|].
  destruct (fresh_store s6 l R b 3 (flags [0xC0000000; PTE_PS; PTE_P; PTE_W; PTE_PWT; PTE_PCD]) Hi6 (Hf6 b (Hf5 b Hfb)))
    as (s7&Hs7&Hi7&_); [lia|].
  exists s7. split; [|done]. unfold kvmalloc. do 7 (erewrite bind_run by eassumption). done.
Qed.

(** Freeing a mapped page and clearing its entry, as one step of deallocuvm. *)
Lemma unmap_page_run s l R r va e :
  vm_inv s l R → r ∈ R → user_page va → leaf (km_mem s) r (vpath va) = Some e →
  let v := P2V (PTE_ADDR e) in
  ∃ pte s1 s2, walkpgdir r va false s = Ok pte s ∧ pte =? 0 = false ∧
    load64 (km_mem s) pte = Some e ∧ Z.land e PTE_P =? 0 = false ∧
    kfree kend v s = Ok tt s1 ∧ store pte 0 s1 = Ok tt s2 ∧ vm_inv s2 (v :: l) R ∧
    ∀ r' va', r' ∈ R → user_page va' →
      upage (km_mem s2) r' va' = if decide (r' = r ∧ va' = va) then None else upage (km_mem s) r' va'.
Proof using Hend.
  intros Hi Hr [Hva Ha] He v.
  destruct (vpath_levels va Hva) as (_&_&_&H4). pose proof (upath_snoc _ _ H4) as (Hp3&_&Hjr).
  destruct (leaf_page s l R r va e Hi Hr Hva He) as (Hn&Hg&Hnl&Hnt&pg&Hpg&Hpgok). fold v in Hn, Hg, Hnl, Hnt, Hpg.
  pose proof He as He'. rewrite leaf_vpath in He'.
  destruct (node (km_mem s) r [PMX va; PDPX va; PDX va]) as [pt|] eqn:Hpt; [|done].
  destruct (load_table s l R r _ pt (PTX va) Hi Hr H4 Hpt) as (e'&Hld&Hent&_).
  simpl in He'. rewrite Hent in He'. destruct (present e') eqn:Hp; [|done]. injection He' as ->.
  destruct (vi_node _ _ _ Hi r _ pt Hr Hp3 Hpt) as [Hgp Hpl].
  set (s1 := set_km_mem (set_entry (km_mem s) pt (PTX va) 0) s).
  assert (vm_inv s1 l R) as Hi1 by by eapply vm_unlink.
  destruct (kfree_run kend Hend s l v (vi_kmem _ _ _ Hi) Hg Hnl) as [Hk _].
  destruct (kfree_run kend Hend s1 l v (vi_kmem _ _ _ Hi1) Hg Hnl) as [_ Hk2].
  set (s2 := set_km_mem (<[page_of v := freed_page (km_freelist s)]> (km_mem s1)) (set_km_freelist v s1)).
  assert (fresh s1 l R v) as Hf1.
  { split_and!; [done..|]. intros r' q Hr' Hq. simpl.
    rewrite (node_unlink s l R r [PMX va; PDPX va; PDX va]) by done. unfold unlinked_node.
    case_decide as Hd; [done|]. intros Hn'.
    destruct (vi_inj _ _ _ Hi r' r q _ v Hr' Hr Hq (vpath_upath va Hva) Hn' Hn) as [-> ->].
    by apply Hd. }
  assert (page_of v ≠ page_of pt) as Hvpt.
  { intros E. apply (good_page_inj kend Hend) in E; [|done..].
    apply (Hnt r [PMX va; PDPX va; PDX va]); [done..|simpl; lia|congruence]. }
  destruct (vi_page _ _ _ r _ pt Hi Hr Hp3 Hpt) as (pgt&Hpgt&_).
  pose proof (fresh_not_table _ _ _ _ Hf1) as Hnt1.
  pose proof (λ r' q Hr' Hq, node_write s1 l R v (freed_page (km_freelist s)) r' q Hi1 Hg Hnt1 Hr' Hq) as Hn2.
  eexists (entry_addr pt (PTX va)), _, s2. split_and!; [..|exact Hk| | |].
  - rewrite (walkpgdir_run s l R) by done. by rewrite Hpt.
  - by apply entry_addr_nonzero.
  - done.
  - unfold present in Hp. by apply negb_true_iff in Hp.
  - unfold store. erewrite mem_upd_run; [|eapply store_entry; [done..|simpl; rewrite lookup_insert_ne; [exact Hpgt|congruence]]].
    f_equal. unfold s2, s1, set_entry, set_km_mem, set_km_freelist. simpl. f_equal.
    apply map_eq. intros k. destruct (decide (k = page_of v)) as [->|].
    + by rewrite lookup_alter_ne, !lookup_insert_eq by congruence.
    + rewrite lookup_insert_ne by congruence. destruct (decide (k = page_of pt)) as [->|].
      * by rewrite !lookup_alter_eq, lookup_insert_ne by congruence.
      * by rewrite !lookup_alter_ne, lookup_insert_ne by congruence.
  - split; [exact Hk2|..].
    + intros r' q t Hr' Hq. simpl. rewrite Hn2 by done. intros Ht.
      destruct (vi_node _ _ _ Hi1 r' q t Hr' Hq Ht) as [? ?]. split; [done|].
      apply not_elem_of_cons. split; [|done]. intros ->. by apply (proj2 (proj2 Hf1) r' q).
    + intros r1 r2 q1 q2 t Hr1 Hr2 Hq1 Hq2. simpl. rewrite !Hn2 by done. by apply (vi_inj _ _ _ Hi1).
  - intros r' va' Hr' [Hva' Ha']. pose proof (vpath_upath va' Hva') as Hq'.
    unfold upage. change (km_mem s2) with (<[page_of v := freed_page (km_freelist s)]> (km_mem s1)).
    rewrite (leaf_write s1 l R) by done. simpl (km_mem s1). rewrite (leaf_set s l R r va pt 0) by done.
    destruct (decide (r' = r ∧ vpath va' = vpath va)) as [[-> E]|Hne].
    { apply vpath_inj in E; [|done..|congruence]. subst va'. by rewrite decide_True. }
    rewrite decide_False by (intros [-> ->]; by apply Hne).
    destruct (leaf (km_mem s) r' (vpath va')) as [e'|] eqn:He'; [|done].
    destruct (leaf_page s l R r' va' e' Hi Hr' Hva' He') as (Hn'&Hg'&_&Hnt'&_).
    cbn [mbind option_bind]. unfold set_entry. rewrite lookup_insert_ne, lookup_alter_ne; [done|..].
    + intros E. apply (good_page_inj kend Hend) in E; [|done..].
      apply (Hnt' r [PMX va; PDPX va; PDX va]); [done..|simpl; lia|congruence].
    + intros E. apply (good_page_inj kend Hend) in E; [|done..]. rewrite <- E in Hn'.
      destruct (vi_inj _ _ _ Hi r' r _ _ v Hr' Hr Hq' (vpath_upath va Hva) Hn' Hn) as [-> Ep].
      by apply Hne.
Qed.

(** What one iteration of deallocuvm does when no page is mapped at [va]. *)
Lemma unmapped_run s l R r va :
  vm_inv s l R → r ∈ R → user_va va → leaf (km_mem s) r (vpath va) = None →
  ∃ pte, walkpgdir r va false s = Ok pte s ∧
    (pte =? 0 = true ∨ ∃ e, load64 (km_mem s) pte = Some e ∧ Z.land e PTE_P =? 0 = true).
Proof using Hend.
  intros Hi Hr Hva Hn. destruct (vpath_levels va Hva) as (_&_&_&H4).
  eexists. split; [by eapply walkpgdir_run|]. rewrite leaf_vpath in Hn.
  destruct (node (km_mem s) r [PMX va; PDPX va; PDX va]) as [pt|] eqn:Hpt; [|by left]. right.
  destruct (load_table s l R r _ pt (PTX va) Hi Hr H4 Hpt) as (e&Hld&Hent&_). exists e. split; [done|].
  simpl in Hn. rewrite Hent in Hn. unfold present in Hn. by destruct (Z.land e PTE_P =? 0).
Qed.

Lemma deallocuvm_loop_run fuel s l R r a oldsz :
  KERNBASE < kend → vm_inv s l R → r ∈ R → user_page a → oldsz ≤ 2 ^ 47 - PGSIZE →
  fuel = Z.to_nat ((oldsz - a) / PGSIZE + 1) →
  ∃ s' l', deallocuvm_loop kend fuel r a oldsz s = Ok tt s' ∧ vm_inv s' l' R ∧
    (∃ k, l' = k ++ l) ∧
    ∀ r' va, r' ∈ R → user_page va →
      upage (km_mem s') r' va =
        if decide (r' = r ∧ a ≤ va < oldsz) then None else upage (km_mem s) r' va.
Proof using Hend.
  intros Hk. revert s l a. induction fuel as [|fuel IH]; intros s l a Hi Hr Hpa Hsz Hfuel.
  { assert (a <? oldsz = false) as E.
    { apply Z.ltb_ge. destruct (Z.lt_ge_cases oldsz a); [lia|].
      pose proof (Z.div_pos (oldsz - a) PGSIZE ltac:(lia) ltac:(done)). lia. }
    exists s, l. simpl. rewrite E. apply Z.ltb_ge in E. split_and!; [done|done|by exists []|].
    intros r' va Hr' Hva. rewrite decide_False; [done|lia]. }
  cbn [deallocuvm_loop]. destruct (Z.ltb_spec a oldsz) as [Hlt|Hge]; last first.
  { exists s, l. split_and!; [done|done|by exists []|].
    intros r' va Hr' Hva. rewrite decide_False; [done|lia]. }
  pose proof Hpa as [Hva Ha].
  assert (∃ pte s1 l1, walkpgdir r a false s = Ok pte s ∧
    (if pte =? 0 then mret tt
     else e ← load "*pte" pte;
       when (negb (Z.land e PTE_P =? 0)) (
         if PTE_ADDR e =? 0 then panic "kfree" else kfree kend (P2V (PTE_ADDR e));; store pte 0)) s
      = Ok tt s1 ∧ vm_inv s1 l1 R ∧ (∃ k, l1 = k ++ l) ∧
    ∀ r' va', r' ∈ R → user_page va' →
      upage (km_mem s1) r' va' = if decide (r' = r ∧ va' = a) then None else upage (km_mem s) r' va')
    as (pte&s1&l1&Hw&Hbody&Hi1&[k1 Hk1]&Hup).
  { destruct (leaf (km_mem s) r (vpath a)) as [e|] eqn:He.
    - destruct (unmap_page_run s l R r a e Hi Hr Hpa He)
        as (pte&s1&s2&Hw&Hpz&Hld&HP&Hfree&Hst&Hi2&Hup2).
      exists pte, s2, (P2V (PTE_ADDR e) :: l). split_and!; [done| |done|by exists [P2V (PTE_ADDR e)]|done].
      rewrite Hpz. erewrite bind_run by by apply load_run. rewrite HP. simpl negb. cbn [when].
      destruct (leaf_page s l R r a e Hi Hr Hva He) as (_&Hg&_).
      assert (PTE_ADDR e =? 0 = false) as ->.
      { apply Z.eqb_neq. intros E0. rewrite E0 in Hg. destruct Hg as (_&Hge&_).
        change (P2V 0) with KERNBASE in Hge. lia. }
      by erewrite bind_run by exact Hfree.
    - destruct (unmapped_run s l R r a Hi Hr Hva He) as (pte&Hw&Hcase).
      exists pte, s, l. split_and!; [done| |done|by exists []|].
      + destruct Hcase as [->|(e&Hld&HP)]; [done|]. destruct (pte =? 0); [done|].
        erewrite bind_run by by apply load_run. by rewrite HP.
      + intros r' va' Hr' Hv'. case_decide as Hd; [|done]. destruct Hd as [-> ->].
        by apply (upage_None s l R). }
  erewrite bind_run by exact Hw. erewrite bind_run by exact Hbody. unfold user_va in Hva.
  assert (u64 (a + PGSIZE) = a + PGSIZE) as -> by (apply wrap_small; unfold PGSIZE in *; lia).
  assert (user_page (a + PGSIZE)) as Hpa'.
  { split; [unfold user_va, PGSIZE in *; lia|]. rewrite Zplus_mod, Ha. done. }
  destruct (IH s1 l1 (a + PGSIZE)) as (s'&l'&Hrun&Hi'&[k2 Hk2]&Hup'); try done.
  { destruct (pages_count a oldsz Ha Hlt) as [E|E]; [lia|].
    assert (Z.to_nat ((oldsz - a) / PGSIZE + 1) = 1%nat) as E1.
    { rewrite Z.div_small by lia. done. }
    assert ((oldsz - (a + PGSIZE)) / PGSIZE < 0) by (apply Z.div_lt_upper_bound; [done|lia]). lia. }
  exists s', l'. split_and!; [done|done|exists (k2 ++ k1); by rewrite Hk2, Hk1, app_assoc|].
  intros r' va Hr' Hv. rewrite Hup', Hup by done.
  destruct (decide (r' = r ∧ a ≤ va < oldsz)) as [[-> Hin]|Hout].
  - destruct (decide (va = a)) as [->|Hne].
    + rewrite decide_False by (unfold PGSIZE; lia). by rewrite decide_True.
    + rewrite decide_True; [done|]. split; [done|]. destruct Hv as [_ Hm].
      unfold PGSIZE in *. pose proof (Z.div_mod va 4096 ltac:(lia)).
      pose proof (Z.div_mod a 4096 ltac:(lia)). lia.
  - rewrite !decide_False; [done|..]; intros [-> ?]; apply Hout; unfold PGSIZE in *; lia.
Qed.

Lemma pgroundup_page sz : 0 ≤ sz ≤ 2 ^ 47 - PGSIZE →
  user_page (PGROUNDUP sz) ∧ sz ≤ PGROUNDUP sz < sz + PGSIZE.
Proof using.
  intros Hs. unfold PGSIZE in *. rewrite PGROUNDUP_spec by (unfold PGSIZE; lia). unfold PGSIZE.
  pose proof (Z.div_mod (sz + 4096 - 1) 4096 ltac:(lia)).
  pose proof (Z.mod_pos_bound (sz + 4096 - 1) 4096 ltac:(lia)).
  split; [|lia]. split; [unfold user_va; lia|]. by apply Z_mod_mult.
Qed.

Lemma allocuvm_run s l R r oldsz newsz :
  vm_inv s l R → r ∈ R → 0 ≤ oldsz ≤ newsz → newsz ≤ 2 ^ 47 - PGSIZE →
  (4 * Z.to_nat ((newsz - PGROUNDUP oldsz) / PGSIZE + 1) ≤ length l)%nat →
  (∀ va, user_page va → PGROUNDUP oldsz ≤ va < newsz → upage (km_mem s) r va = None) →
  ∃ s' l', allocuvm kend r oldsz newsz s = Ok newsz s' ∧ vm_inv s' l' R ∧
    (length l ≤ 4 * Z.to_nat ((newsz - PGROUNDUP oldsz) / PGSIZE + 1) + length l')%nat ∧
    ∀ r' va, r' ∈ R → user_page va →
      upage (km_mem s') r' va =
        if decide (r' = r ∧ PGROUNDUP oldsz ≤ va < newsz)
        then Some (flags [PTE_W; PTE_U; PTE_P], full_page 0)
        else upage (km_mem s) r' va.
Proof using Hend.
  intros Hi Hr Ho Hn Hl Hnone. destruct (pgroundup_page oldsz ltac:(lia)) as [Hpa _].
  destruct (allocuvm_loop_run _ s l R r (PGROUNDUP oldsz) oldsz newsz Hi Hr Hpa Hn eq_refl Hl Hnone)
    as (s'&l'&Hrun&Hi'&Hl'&Hup).
  exists s', l'. split_and!; [|done..]. unfold allocuvm.
  rewrite (proj2 (Z.leb_gt KERNBASE newsz)) by (unfold KERNBASE, PGSIZE in *; lia).
  by rewrite (proj2 (Z.ltb_ge newsz oldsz)) by lia.
Qed.

(** C30. Growing an address space.  With enough free pages, allocuvm from
    [oldsz] to [newsz] returns [newsz]; the pages of the page table [r] between the two
    sizes are then mapped writable for the user and full of zeros, and all other user memory,
    of this and of every other address space, is unchanged.  The page tables still share
    no page with each other or with the free list. *)
Theorem allocuvm_grows s l R r oldsz newsz :
  vm_inv s l R → r ∈ R → 0 ≤ oldsz ≤ newsz → newsz ≤ 2 ^ 47 - PGSIZE →
  (4 * Z.to_nat ((newsz - PGROUNDUP oldsz) / PGSIZE + 1) ≤ length l)%nat →
  (∀ va, user_page va → PGROUNDUP oldsz ≤ va < newsz → upage (km_mem s) r va = None) →
  ∃ s' l', allocuvm kend r oldsz newsz s = Ok newsz s' ∧ vm_inv s' l' R ∧
    ∀ r' va, r' ∈ R → user_page va →
      upage (km_mem s') r' va =
        if decide (r' = r ∧ PGROUNDUP oldsz ≤ va < newsz)
        then Some (flags [PTE_W; PTE_U; PTE_P], full_page 0)
        else upage (km_mem s) r' va.
Proof using Hend.
  intros Hi Hr Ho Hn Hl Hnone.
  destruct (allocuvm_run s l R r oldsz newsz Hi Hr Ho Hn Hl Hnone) as (s'&l'&?&?&_&?). by exists s', l'.
Qed.

(** Shrinking an address space.  deallocuvm from [oldsz] to [newsz] returns
    [newsz]; the pages of the page table [r] between the two sizes are unmapped, the memory
    that was mapped there is back on the free list, and all other user memory, of this and of
    every other address space, is unchanged. *)
Theorem deallocuvm_unmaps s l R r oldsz newsz :
  KERNBASE < kend → vm_inv s l R → r ∈ R → 0 ≤ newsz < oldsz → oldsz ≤ 2 ^ 47 - PGSIZE →
  ∃ s' l', deallocuvm kend r oldsz newsz s = Ok newsz s' ∧ vm_inv s' l' R ∧ (∃ k, l' = k ++ l) ∧
    ∀ r' va, r' ∈ R → user_page va →
      upage (km_mem s') r' va =
        if decide (r' = r ∧ PGROUNDUP newsz ≤ va < oldsz) then None else upage (km_mem s) r' va.
Proof using Hend.
  intros Hk Hi Hr Ho Hn. destruct (pgroundup_page newsz ltac:(lia)) as [Hpa _].
  destruct (deallocuvm_loop_run _ s l R r (PGROUNDUP newsz) oldsz Hk Hi Hr Hpa Hn eq_refl)
    as (s'&l'&Hrun&Hi'&Hl'&Hup).
  exists s', l'. split_and!; [|done..]. unfold deallocuvm.
  rewrite (proj2 (Z.leb_gt oldsz newsz)) by lia. by erewrite bind_run by exact Hrun.
Qed.

(** C29. Writing user memory.  If user code may access every address of
    [va, va + len), copyout returns 0; exactly these bytes of the address space [r] then hold
    the buffer, across page boundaries, and every other byte of every address space is as
    before. *)
Theorem copyout_writes s l R r va buf :
  vm_inv s l R → r ∈ R → bytes buf → 0 ≤ va → va + Z.of_nat (length buf) ≤ 2 ^ 47 →
  (∀ a, va ≤ a < va + Z.of_nat (length buf) → accessible (km_mem s) r a) →
  ∃ s', copyout r va buf s = Ok 0 s' ∧ vm_inv s' l R ∧
    ∀ r' a, r' ∈ R → user_va a →
      ubyte (km_mem s') r' a =
        if decide (r' = r ∧ va ≤ a < va + Z.of_nat (length buf)) then buf !! Z.to_nat (a - va)
        else ubyte (km_mem s) r' a.
Proof using Hend.
  intros Hi Hr Hb H0 Hmax Hacc. unfold copyout.
  destruct (copyout_loop_run (S (length buf)) s l R r va buf) as (s'&?&?&_&?); try done; [lia|eauto].
Qed.

Lemma copyuvm_run kpdpt s l R r sz :
  vm_inv s l R → r ∈ R → PGSIZE ≤ sz < 2 ^ 32 →
  (1 + 4 * Z.to_nat (sz / PGSIZE) ≤ length l)%nat →
  (∀ va, user_page va → PGSIZE ≤ va < sz → ∃ fl pg, upage (km_mem s) r va = Some (fl, pg)) →
  ∃ d s' l', copyuvm kend kpdpt r sz s = Ok d s' ∧ d ∉ R ∧ vm_inv s' l' ({[d]} ∪ R) ∧
    (∃ k, l = k ++ l') ∧ untouched s l R s' l' ({[d]} ∪ R) ∧
    (∀ va, user_page va → upage (km_mem s') d va =
       if decide (PGSIZE ≤ va < sz) then upage (km_mem s) r va else None) ∧
    ∀ r' va, r' ∈ R → user_page va → upage (km_mem s') r' va = upage (km_mem s) r' va.
Proof using Hend.
  intros Hi Hr Hsz Hl Hsrc. destruct l as [|d l]; [simpl in Hl; lia|].
  destruct (setupkvm_run kpdpt s d l R Hi) as (s1&Hset&Hdz&Hi1&HdR&Hup1&Hnone1&_&Hun1).
  assert (sz / PGSIZE = (sz - PGSIZE) / PGSIZE + 1) as Hf.
  { replace sz with (sz - PGSIZE + 1 * PGSIZE) at 1 by lia. by rewrite Z.div_add. }
  assert (user_page PGSIZE) as Hp1 by (split; [unfold user_va, PGSIZE; lia|done]).
  destruct (copyuvm_loop_run (Z.to_nat ((sz - PGSIZE) / PGSIZE + 1)) s1 l ({[d]} ∪ R) r d PGSIZE sz)
    as (s'&l'&Hrun&Hi'&[k Hk]&Hun&Hup'); try done.
  { set_solver. }
  { set_solver. }
  { by intros ->. }
  { unfold PGSIZE. lia. }
  { simpl in Hl. lia. }
  { intros va Hv _. apply Hnone1, Hv. }
  { intros va Hv Hin. rewrite Hup1; [by apply Hsrc|done|apply Hv]. }
  exists d, s', l'. split_and!; try done.
  - unfold copyuvm. erewrite bind_run by exact Hset. rewrite Hdz.
    rewrite (wrap_small 32 sz) by (unfold PGSIZE in *; lia). exact Hrun.
  - exists (d :: k). by rewrite Hk.
  - by eapply untouched_trans.
  - intros va Hv. rewrite Hup' by (done || set_solver).
    destruct (decide (PGSIZE ≤ va < sz)) as [Hin|Hout].
    + rewrite decide_True by done. apply Hup1; [done|apply Hv].
    + rewrite decide_False by tauto. apply Hnone1, Hv.
  - intros r' va Hr' Hv. rewrite Hup' by (done || set_solver).
    rewrite decide_False by (intros [-> _]; done). apply Hup1; [done|apply Hv].
Qed.

(** C28. The memory of a child.  With enough free pages, copyuvm returns a
    new page table whose user memory from the second page up to [sz] is the parent's, page by page
    with the same permissions, and empty elsewhere; the parent's memory, and that of every
    other address space, is unchanged.  Parent and child share no page. *)
Theorem copyuvm_copies kpdpt s l R r sz :
  vm_inv s l R → r ∈ R → PGSIZE ≤ sz < 2 ^ 32 →
  (1 + 4 * Z.to_nat (sz / PGSIZE) ≤ length l)%nat →
  (∀ va, user_page va → PGSIZE ≤ va < sz → ∃ fl pg, upage (km_mem s) r va = Some (fl, pg)) →
  ∃ d s' l', copyuvm kend kpdpt r sz s = Ok d s' ∧ d ∉ R ∧ vm_inv s' l' ({[d]} ∪ R) ∧
    (∀ va, user_page va → upage (km_mem s') d va =
       if decide (PGSIZE ≤ va < sz) then upage (km_mem s) r va else None) ∧
    ∀ r' va, r' ∈ R → user_page va → upage (km_mem s') r' va = upage (km_mem s) r' va.
Proof using Hend.
  intros Hi Hr Hsz Hl Hsrc. destruct (copyuvm_run kpdpt s l R r sz Hi Hr Hsz Hl Hsrc) as (d&s'&l'&?&?&?&_&_&?&?).
  by exists d, s', l'.
Qed.

(** Finding.  uva2ka does not test the result of walkpgdir: for an
    address without a page table it reads through a null pointer (in the kernel's half of
    the address space nothing is mapped at address 0), instead of returning 0 so that
    copyout can return -1. *)
Theorem uva2ka_null_pte s l R r va :
  vm_inv s l R → r ∈ R → user_va va →
  node (km_mem s) r [PMX va; PDPX va; PDX va] = None →
  uva2ka r va s = Fail (Undefined "*pte").
Proof using Hend.
  intros Hi Hr Hva Hn. pose proof (ki_null _ _ _ (vi_kmem _ _ _ Hi)) as H0. unfold uva2ka.
  erewrite bind_run by by eapply walkpgdir_run. rewrite Hn.
  unfold load, mbind, M_bind, gets, load64. by rewrite H0.
Qed.
End Proofs.

(** * An example: a new, empty address space *)

Definition example_end : Z := KERNBASE + 0x200000.

Lemma example_vm :
  ∃ s l d, vm_inv example_end s l {[d]} ∧ length l = 39%nat ∧
    ∀ va, user_va va → upage (km_mem s) d va = None ∧ node (km_mem s) d [PMX va; PDPX va; PDX va] = None.
Proof.
  assert (KERNBASE ≤ example_end) as Hend by (vm_compute; discriminate).
  destruct (kinit1_run example_end Hend (Kmem false false 0 ram) example_end (example_end + 40 * 4096))
    as (s0&_&Hinv); [vm_compute; discriminate..| |apply ram_null|].
  { intros v. by apply ram_pages. }
  assert (length (rev (range_pages example_end (example_end + 40 * 4096))) = 40%nat) as Hl by by vm_compute.
  destruct (rev (range_pages example_end (example_end + 40 * 4096))) as [|d l] eqn:E; [done|].
  assert (vm_inv example_end s0 (d :: l) ∅) as Hi by (split; [done|set_solver..]).
  destruct (setupkvm_run example_end Hend 0 s0 d l ∅ Hi) as (s&_&_&Hi'&_&_&Hnone&Hnode&_).
  rewrite union_empty_r_L in Hi'. exists s, l, d. split_and!; [done|simpl in Hl; lia|].
  intros va Hva. split; [by apply Hnone|].
  apply Hnode; [|done]. apply (upath_app [PMX va; PDPX va; PDX va] [PTX va] (vpath_upath va Hva)).
Qed.

Lemma example_end_ok : KERNBASE ≤ example_end ∧ KERNBASE < example_end.
Proof. vm_compute. split; [discriminate|reflexivity]. Qed.

Lemma allocuvm_grows_witness :
  ∃ s l d, vm_inv example_end s l {[d]} ∧
    ∃ s' l', allocuvm example_end d 0x1000 0x3000 s = Ok 0x3000 s' ∧ vm_inv example_end s' l' {[d]} ∧
      ∀ r' va, r' ∈ ({[d]} : gset Z) → user_page va →
        upage (km_mem s') r' va =
          if decide (r' = d ∧ PGROUNDUP 0x1000 ≤ va < 0x3000)
          then Some (flags [PTE_W; PTE_U; PTE_P], full_page 0)
          else upage (km_mem s) r' va.
Proof.
  destruct example_vm as (s&l&d&Hi&Hl&Hnone). exists s, l, d. split; [exact Hi|].
  apply (allocuvm_grows example_end (proj1 example_end_ok) s l {[d]} d 0x1000 0x3000 Hi).
  - apply elem_of_singleton. reflexivity.
  - lia.
  - vm_compute. discriminate.
  - rewrite Hl. vm_compute. lia.
  - intros va Hv _. apply Hnone. exact (proj1 Hv).
Defined.

(** Two pages of user memory in that address space. *)
Lemma example_user :
  ∃ s l d, vm_inv example_end s l {[d]} ∧ (27 ≤ length l)%nat ∧
    ∀ va, user_page va → 0x1000 ≤ va < 0x3000 →
      upage (km_mem s) d va = Some (flags [PTE_W; PTE_U; PTE_P], full_page 0).
Proof.
  destruct example_vm as (s&l&d&Hi&Hl&Hnone).
  destruct (allocuvm_loop_run example_end (proj1 example_end_ok) 3 s l {[d]} d 0x1000 0x1000 0x3000)
    as (s'&l'&_&Hi'&Hll&Hup); try done.
  - by apply elem_of_singleton.
  - lia.
  - intros va [Hv _] _. by apply Hnone.
  - exists s', l', d. split_and!; [done|lia|]. intros va Hv Hr.
    rewrite Hup by (done || by apply elem_of_singleton). by rewrite decide_True.
Qed.

Lemma page_base_range a lo hi :
  lo mod PGSIZE = 0 → hi mod PGSIZE = 0 → lo ≤ a < hi → lo ≤ a - a mod PGSIZE < hi.
Proof.
  unfold PGSIZE. intros Hlo Hhi Ha. pose proof (Z.div_mod a 4096 ltac:(lia)).
  pose proof (Z.mod_pos_bound a 4096 ltac:(lia)). pose proof (Z.div_mod lo 4096 ltac:(lia)).
  pose proof (Z.div_mod hi 4096 ltac:(lia)). lia.
Qed.

(** "hi!" across the boundary of the two pages *)
Lemma copyout_writes_witness :
  ∃ s l d, vm_inv example_end s l {[d]} ∧
    ∃ s', copyout d 0x1FFE [104; 105; 33] s = Ok 0 s' ∧ vm_inv example_end s' l {[d]} ∧
      ∀ r' a, r' ∈ ({[d]} : gset Z) → user_va a →
        ubyte (km_mem s') r' a =
          if decide (r' = d ∧ 0x1FFE ≤ a < 0x1FFE + Z.of_nat (length [104; 105; 33]))
          then [104; 105; 33] !! Z.to_nat (a - 0x1FFE) else ubyte (km_mem s) r' a.
Proof.
  destruct example_user as (s&l&d&Hi&_&Hup). exists s, l, d. split; [exact Hi|].
  apply (copyout_writes example_end (proj1 example_end_ok) s l {[d]} d 0x1FFE [104; 105; 33] Hi).
  - apply elem_of_singleton. reflexivity.
  - repeat constructor; vm_compute; discriminate.
  - lia.
  - vm_compute. discriminate.
  - intros a Ha. simpl in Ha. assert (user_page (a - a mod PGSIZE)) as Hpb.
    { apply page_base. unfold user_va. lia. }
    eapply accessible_upage; [apply Hup; [exact Hpb|]|vm_compute; discriminate].
    apply page_base_range; [reflexivity|reflexivity|lia].
Defined.

Lemma deallocuvm_unmaps_witness :
  ∃ s l d, vm_inv example_end s l {[d]} ∧
    ∃ s' l', deallocuvm example_end d 0x3000 0x1001 s = Ok 0x1001 s' ∧
      vm_inv example_end s' l' {[d]} ∧ (∃ k, l' = k ++ l) ∧
      ∀ r' va, r' ∈ ({[d]} : gset Z) → user_page va →
        upage (km_mem s') r' va =
          if decide (r' = d ∧ PGROUNDUP 0x1001 ≤ va < 0x3000) then None else upage (km_mem s) r' va.
Proof.
  destruct example_user as (s&l&d&Hi&_&Hup). exists s, l, d. split; [exact Hi|].
  apply (deallocuvm_unmaps example_end (proj1 example_end_ok) s l {[d]} d 0x3000 0x1001
    (proj2 example_end_ok) Hi).
  - apply elem_of_singleton. reflexivity.
  - lia.
  - vm_compute. discriminate.
Defined.

Lemma copyuvm_copies_witness :
  ∃ s l r, vm_inv example_end s l {[r]} ∧
    ∃ d s' l', copyuvm example_end 0 r 0x3000 s = Ok d s' ∧ d ∉ ({[r]} : gset Z) ∧
      vm_inv example_end s' l' ({[d]} ∪ {[r]}) ∧
      (∀ va, user_page va → upage (km_mem s') d va =
         if decide (PGSIZE ≤ va < 0x3000) then upage (km_mem s) r va else None) ∧
      ∀ r' va, r' ∈ ({[r]} : gset Z) → user_page va → upage (km_mem s') r' va = upage (km_mem s) r' va.
Proof.
  destruct example_user as (s&l&r&Hi&Hl&Hup). exists s, l, r. split; [exact Hi|].
  apply (copyuvm_copies example_end (proj1 example_end_ok) 0 s l {[r]} r 0x3000 Hi).
  - apply elem_of_singleton. reflexivity.
  - unfold PGSIZE. lia.
  - eapply Nat.le_trans; [|exact Hl]. vm_compute. lia.
  - intros va Hv Hr. eexists _, _. apply Hup; [exact Hv|exact Hr].
Defined.

Lemma uva2ka_null_pte_witness :
  ∃ s l d, vm_inv example_end s l {[d]} ∧ uva2ka d 0x5000 s = Fail (Undefined "*pte").
Proof.
  destruct example_vm as (s&l&d&Hi&_&Hnone). exists s, l, d. split; [exact Hi|].
  apply (uva2ka_null_pte example_end (proj1 example_end_ok) s l {[d]} d 0x5000 Hi).
  - apply elem_of_singleton. reflexivity.
  - unfold user_va. lia.
  - apply Hnone. unfold user_va. lia.
Defined.
