(* ===== verification/Freevm.v ===== *)
(** freevm (src/vm.c) gives a whole address space back: every page of memory and every page table below the
    root, each exactly once, and nothing else. *)

From S2P Require Import Prelude Bytes Mem Kalloc Vm.

(** The pages below the entries [idx] of a table, in the order in which they are freed; [depth] levels of tables are
    below the entries. *)
Fixpoint below (m : pmem) (depth : nat) : Z → list Z → list Z :=
  fix entries (tbl : Z) (idx : list Z) : list Z :=
    match idx with
    | [] => []
    | i :: idx =>
        match next m tbl i with
        | None => entries tbl idx
        | Some c => match depth with O => [] | S depth => below m depth c (seqZ 0 512) end ++ c :: entries tbl idx
        end
    end.

Definition under (m : pmem) (depth : nat) (c : Z) : list Z :=
  match depth with O => [] | S depth => below m depth c (seqZ 0 512) end.

Lemma below_cons m depth tbl i idx :
  below m depth tbl (i :: idx) =
    match next m tbl i with None => [] | Some c => under m depth c ++ [c] end ++ below m depth tbl idx.
Proof. destruct depth; simpl; destruct (next m tbl i); simpl; try done; by rewrite <- app_assoc. Qed.

Definition index (i : Z) : Prop := 0 ≤ i < 512.
Lemma indices : Forall index (seqZ 0 512).
Proof. apply list.Forall_forall. intros i Hi%elem_of_seqZ. unfold index. lia. Qed.

(** The pages below are the nodes of the tree. *)
Lemma elem_of_below m depth tbl idx t :
  Forall index idx →
  t ∈ below m depth tbl idx ↔
    ∃ i q, i ∈ idx ∧ (length q ≤ depth)%nat ∧ Forall index q ∧ node m tbl (i :: q) = Some t.
Proof.
  revert tbl idx. induction depth as [|depth IHd]; intros tbl idx Hidx;
    (induction Hidx as [|i idx Hi Hidx IH]; [split; [by intros ?%elem_of_nil|by intros (i&?&?%elem_of_nil&_)]|]);
    rewrite below_cons, elem_of_app, IH; clear IH; unfold under; cbn [node].
  - split.
    + intros [Ht|(j&q&?&?&?&?)]; [|exists j, q; by split_and!; [right|..]].
      destruct (next m tbl i) as [c|] eqn:E; [|by apply elem_of_nil in Ht].
      apply list_elem_of_singleton in Ht as ->. exists i, []. split_and!; [left|simpl; lia|done|by rewrite E].
    + intros (j&q&Hj&Hq&Hf&Hn). destruct q; [|simpl in Hq; lia]. apply elem_of_cons in Hj as [->|Hj].
      * left. destruct (next m tbl i); [|done]. injection Hn as ->. apply list_elem_of_singleton. done.
      * right. by exists j, [].
  - split.
    + intros [Ht|(j&q&?&?&?&?)]; [|exists j, q; by split_and!; [right|..]].
      destruct (next m tbl i) as [c|] eqn:E; [|by apply elem_of_nil in Ht].
      apply elem_of_app in Ht as [Ht|Ht%list_elem_of_singleton]; [|subst t].
      * apply IHd in Ht as (j&q&Hj&Hq&Hf&Hn); [|apply indices]. exists i, (j :: q). apply elem_of_seqZ in Hj.
        split_and!; [left|simpl; lia|by constructor|by rewrite E].
      * exists i, []. split_and!; [left|simpl; lia|done|by rewrite E].
    + intros (j&q&Hj&Hq&Hf&Hn). apply elem_of_cons in Hj as [->|Hj]; [|right; by exists j, q].
      left. destruct (next m tbl i) as [c|]; [|done]. simpl in Hn. rewrite elem_of_app.
      destruct q as [|j q]; [right; injection Hn as ->; by apply list_elem_of_singleton|left].
      apply Forall_cons_1 in Hf as [Hj' Hf]. apply IHd; [apply indices|]. exists j, q.
      split_and!; [by apply elem_of_seqZ|simpl in Hq; lia|done|done].
Qed.

(** The side conditions on paths below. *)
Local Ltac path E :=
  try done; try (by left); try (by right); try (simpl; lia); try (by constructor); try (by cbn [node]; rewrite E).

Lemma below_nodup m depth tbl idx :
  Forall index idx → NoDup idx →
  (∀ i j p q t, i ∈ idx → j ∈ idx → (length p ≤ depth)%nat → (length q ≤ depth)%nat → Forall index p → Forall index q →
    node m tbl (i :: p) = Some t → node m tbl (j :: q) = Some t → i = j ∧ p = q) →
  NoDup (below m depth tbl idx).
Proof.
  revert tbl idx. induction depth as [|depth IHd]; intros tbl idx Hidx;
    (induction Hidx as [|i idx Hi Hidx IH]; intros Hnd Hinj; [apply NoDup_nil_2|]);
    apply list.NoDup_cons in Hnd as [Hni Hnd];
    rewrite below_cons; apply list.NoDup_app; (split_and!; [| |apply IH; [done|]; intros; eapply Hinj; eauto using list_elem_of_further]);
    clear IH; unfold under; destruct (next m tbl i) as [c|] eqn:E; try (apply NoDup_nil_2);
    try (intros t Ht; by apply elem_of_nil in Ht).
  - apply list.NoDup_singleton.
  - intros t ->%list_elem_of_singleton (j&q&Hj&Hq&Hf&Hn)%elem_of_below; [|done].
    destruct (Hinj i j [] q c) as [-> _]; path E.
  - apply list.NoDup_app. split_and!; [| |apply list.NoDup_singleton].
    + apply IHd; [apply indices|apply NoDup_seqZ|]. intros a b p q t Ha%elem_of_seqZ Hb%elem_of_seqZ Hp Hq Hfp Hfq Hn1 Hn2.
      destruct (Hinj i i (a :: p) (b :: q) t) as [_ [= -> ->]]; path E.
    + intros t (a&q&Ha&Hq&Hf&Hn)%elem_of_below ->%list_elem_of_singleton; [|apply indices]. apply elem_of_seqZ in Ha.
      destruct (Hinj i i (a :: q) [] c) as [_ ?]; path E.
  - intros t Ht (j&q&Hj&Hq&Hf&Hn)%elem_of_below; [|done].
    assert (∃ p, (length p ≤ S depth)%nat ∧ Forall index p ∧ node m tbl (i :: p) = Some t) as (p&Hp&Hfp&Hnp).
    { apply elem_of_app in Ht as [(a&p&Ha&Hp&Hfp&Hnp)%elem_of_below|Ht%list_elem_of_singleton]; [| apply indices|subst t].
      - apply elem_of_seqZ in Ha. exists (a :: p). split_and!; path E.
      - exists []. split_and!; path E. }
    destruct (Hinj i j p q t) as [-> _]; path E.
Qed.

Section Proofs.
Context (kend : Z) (Hend : KERNBASE ≤ kend).
Implicit Types (m : pmem) (r t : Z) (l idx : list Z) (R : gset Z) (s : kmem).
Local Abbreviation good := (good_page kend).

Lemma below_frame m m' depth tbl idx :
  Forall index idx → good tbl → Forall good (below m depth tbl idx) →
  (∀ t, t = tbl ∨ t ∈ below m depth tbl idx → m' !! page_of t = m !! page_of t) →
  below m' depth tbl idx = below m depth tbl idx.
Proof using Hend.
  revert tbl idx. induction depth as [|depth IHd]; intros tbl idx Hidx Ht;
    (induction Hidx as [|i idx Hi Hidx IH]; intros Hg Hm; [done|]);
    rewrite below_cons in Hg, Hm |- *; rewrite below_cons;
    apply Forall_app in Hg as [Hg1 Hg2];
    (rewrite IH by (done || (intros t [->|?]; apply Hm; [by left|right; apply elem_of_app; by right])));
    f_equal; clear IH;
    (assert (next m' tbl i = next m tbl i) as -> by (unfold next; f_equal; apply (entry_frame kend Hend); [done..|]; apply Hm; by left));
    destruct (next m tbl i) as [c|]; [|done| |done]; [done|].
  f_equal. unfold under in *. apply Forall_app in Hg1 as [Hg1 Hc]. apply Forall_cons_1 in Hc as [Hc _].
  apply IHd; [apply indices|done|done|]. intros t [->|?]; apply Hm; right; apply elem_of_app; left; apply elem_of_app;
    [right; by apply list_elem_of_singleton|by left].
Qed.

(** The pages [P] can be freed: they are allocated, and there is none twice. *)
Definition freeable l (P : list Z) : Prop := Forall good P ∧ NoDup P ∧ ∀ t, t ∈ P → t ∉ l.

Lemma freeable_app l P1 P2 : freeable l (P1 ++ P2) → freeable l P1 ∧ freeable (reverse P1 ++ l) P2.
Proof using.
  intros ([Hg1 Hg2]%Forall_app & (Hn1 & Hd & Hn2)%list.NoDup_app & Hl). split; split_and!; try done.
  - intros t Ht. apply Hl, elem_of_app. by left.
  - intros t Ht. rewrite not_elem_of_app. split; [|apply Hl, elem_of_app; by right].
    intros Hr. rewrite elem_of_reverse in Hr. exact (Hd t Hr Ht).
Qed.

(** [f] frees [P] and changes no other page. *)
Definition frees (f : M kmem unit) s l (P : list Z) : Prop :=
  ∃ s', f s = Ok tt s' ∧ kmem_inv kend s' (reverse P ++ l) ∧
    ∀ t, good t → t ∉ P → km_mem s' !! page_of t = km_mem s !! page_of t.

Lemma frees_seq f g s l P1 P2 :
  frees f s l P1 →
  (∀ s', kmem_inv kend s' (reverse P1 ++ l) → (∀ t, good t → t ∉ P1 → km_mem s' !! page_of t = km_mem s !! page_of t) →
    frees g s' (reverse P1 ++ l) P2) →
  frees (f;; g) s l (P1 ++ P2).
Proof using.
  intros (s1&Hf&Hi1&Hm1) Hg. destruct (Hg s1 Hi1 Hm1) as (s2&Hg2&Hi2&Hm2). exists s2.
  rewrite (bind_run _ _ _ _ _ Hf). split; [done|]. rewrite reverse_app, <- app_assoc. split; [done|].
  intros t Ht (H1&H2)%not_elem_of_app. by rewrite Hm2, Hm1.
Qed.

Lemma frees_one s l c : kmem_inv kend s l → good c → c ∉ l → frees (kfree kend c) s l [c].
Proof using Hend.
  intros Hi Hg Hl. destruct (kfree_run kend Hend s l c Hi Hg Hl) as [Hrun Hi']. eexists. split; [exact Hrun|].
  split; [exact Hi'|]. intros t Ht Hne. simpl. apply lookup_insert_ne. intros E.
  apply (good_page_inj kend Hend) in E; [|done..]. subst t. apply Hne. by apply list_elem_of_singleton.
Qed.

Definition free_under depth (c : Z) : M kmem unit :=
  match depth with O => mret tt | S depth => freevm_entries kend depth c (seqZ 0 512) end.

Lemma freevm_entries_cons depth tbl i idx :
  freevm_entries kend depth tbl (i :: idx) =
    (e ← load "page table entry" (entry_addr tbl i);
     when (present e) (free_under depth (P2V (PTE_ADDR e));; kfree kend (P2V (PTE_ADDR e)));;
     freevm_entries kend depth tbl idx).
Proof using. by destruct depth. Qed.

Lemma frees_entries_step depth tbl idx s l :
  (∀ c s l, kmem_inv kend s l → good c → c ∉ under (km_mem s) depth c → freeable l (under (km_mem s) depth c) →
    frees (free_under depth c) s l (under (km_mem s) depth c)) →
  kmem_inv kend s l → Forall index idx → good tbl → tbl ∉ below (km_mem s) depth tbl idx →
  freeable l (below (km_mem s) depth tbl idx) →
  frees (freevm_entries kend depth tbl idx) s l (below (km_mem s) depth tbl idx).
Proof using Hend.
  intros Hunder Hk Hidx Ht. revert s l Hk. induction Hidx as [|i idx Hi Hidx IH]; intros s l Hk Hnt Hfr.
  { exists s. split; [by destruct depth|]. split; [by destruct depth|done]. }
  rewrite freevm_entries_cons. destruct (ki_pages _ _ _ Hk tbl Ht) as (pg&Hpg&_).
  pose proof (load_entry kend Hend _ _ _ _ Ht Hi Hpg) as Hload. set (e := get_u64 _ pg) in Hload.
  rewrite below_cons in Hnt, Hfr |- *.
  assert (next (km_mem s) tbl i = if present e then Some (P2V (PTE_ADDR e)) else None) as Hnext.
  { unfold next, entry. rewrite Hload. simpl. by destruct (present e). }
  unfold frees. rewrite (bind_run _ _ _ _ _ (load_run "page table entry" _ _ _ Hload)).
  change (frees (when (present e) (free_under depth (P2V (PTE_ADDR e));; kfree kend (P2V (PTE_ADDR e)));;
    freevm_entries kend depth tbl idx) s l
    (match next (km_mem s) tbl i with None => [] | Some c => under (km_mem s) depth c ++ [c] end ++
       below (km_mem s) depth tbl idx)).
  rewrite Hnext in *. destruct (present e); cbn [when].
  2: { exact (IH s l Hk Hnt Hfr). }
  set (c := P2V (PTE_ADDR e)) in *. set (m := km_mem s) in *. apply freeable_app in Hfr as [Hfr1 Hfr2].
  pose proof (freeable_app _ _ _ Hfr1) as [Hfu Hfc].
  assert (good c) as Hc by (destruct Hfc as (Hg&_); by apply Forall_cons_1 in Hg as [? _]).
  assert (c ∉ under m depth c) as Hcu.
  { destruct Hfr1 as (_&(_&Hd&_)%list.NoDup_app&_). intros Hin. apply (Hd c Hin). by apply list_elem_of_singleton. }
  apply not_elem_of_app in Hnt as [Hnt1 Hnt2].
  apply frees_seq.
  - apply frees_seq; [by apply Hunder|]. intros s1 Hk1 Hm1. apply frees_one; [done|done|].
    destruct Hfc as (_&_&Hcl). apply Hcl. by apply list_elem_of_singleton.
  - intros s1 Hk1 Hm1.
    assert (below (km_mem s1) depth tbl idx = below m depth tbl idx) as E.
    { apply below_frame; [done|done|apply Hfr2|]. intros t [->|Hin]; [by apply Hm1|].
      destruct Hfr2 as (Hg&_&Hnl). rewrite list.Forall_forall in Hg. apply Hm1; [by apply Hg|].
      intros Hin1. apply (Hnl t Hin), elem_of_app. left. by apply elem_of_reverse. }
    rewrite <- E. apply IH; [done|by rewrite E|by rewrite E].
Qed.

Lemma frees_entries depth tbl idx s l :
  kmem_inv kend s l → Forall index idx → good tbl → tbl ∉ below (km_mem s) depth tbl idx →
  freeable l (below (km_mem s) depth tbl idx) →
  frees (freevm_entries kend depth tbl idx) s l (below (km_mem s) depth tbl idx).
Proof using Hend.
  revert tbl idx s l. induction depth as [|depth IH]; intros tbl idx s l; apply frees_entries_step.
  - intros c s0 l0 Hk _ _ _. exists s0. by split_and!.
  - intros c s0 l0 Hk Hc Hcu Hfr. apply IH; [done|apply indices|done..].
Qed.

(** * The address space *)

Section Space.
(** the entries of a root that map user memory *)
Context idx (Hidx : ∀ i, i ∈ idx ↔ 0 ≤ i < 256) (Hnd : NoDup idx).
Local Abbreviation space m r := (below m 3 r idx).

Lemma user_indices : Forall index idx.
Proof using Hidx. apply list.Forall_forall. intros i Hi%Hidx. unfold index. lia. Qed.

Lemma elem_of_space s r t :
  t ∈ space (km_mem s) r ↔ ∃ p, p ≠ [] ∧ upath p ∧ node (km_mem s) r p = Some t.
Proof using Hidx.
  rewrite elem_of_below by apply user_indices. split.
  - intros (i&q&Hi%Hidx&Hq&Hf&Hn). exists (i :: q). split_and!; [done| |done].
    split_and!; [simpl; lia|constructor; [lia|done]|]. intros j [= <-]. lia.
  - intros ([|i q]&Hne&(Hl&Hf&Hh)&Hn); [done|]. apply Forall_cons_1 in Hf as [Hi Hf]. exists i, q.
    split_and!; [|simpl in Hl; lia|done|done]. apply Hidx. specialize (Hh i eq_refl). lia.
Qed.

Lemma space_freeable s l R r :
  vm_inv kend s l R → r ∈ R →
  freeable l (space (km_mem s) r) ∧ r ∉ space (km_mem s) r.
Proof using Hidx Hnd.
  intros Hi Hr. assert (upath []) as Hnil by (split_and!; [simpl; lia|done|done]).
  split; [split_and!|].
  - apply list.Forall_forall. intros t (p&_&Hp&Hn)%elem_of_space. by eapply vi_node.
  - apply below_nodup; [apply user_indices|done|].
    intros i j p q t Hx%Hidx Hy%Hidx Hp Hq Hfp Hfq Hn1 Hn2.
    assert (∀ k w, 0 ≤ k < 256 → (length w ≤ 3)%nat → Forall index w → upath (k :: w)) as Hup.
    { intros k w Hk Hw Hfw. split_and!; [simpl; lia|constructor; [lia|done]|]. intros ? [= <-]. lia. }
    destruct (vi_inj _ _ _ _ Hi r r (i :: p) (j :: q) t) as [_ [= -> ->]]; try done; apply Hup; try done; lia.
  - intros t (p&_&Hp&Hn)%elem_of_space. by eapply vi_node.
  - intros (p&Hne&Hp&Hn)%elem_of_space. by destruct (vi_inj _ _ _ _ Hi r r p [] r) as [_ ?].
Qed.

(** The other page tables do not notice. *)
Section Others.
Context s s' l R r (Hi : vm_inv kend s l R) (Hr : r ∈ R).
Context (Hm : ∀ t, good t → t ≠ r → t ∉ space (km_mem s) r → km_mem s' !! page_of t = km_mem s !! page_of t).

Lemma other_page r' p t :
  r' ∈ R → r' ≠ r → upath p → node (km_mem s) r' p = Some t → km_mem s' !! page_of t = km_mem s !! page_of t.
Proof using Hidx Hi Hr Hm.
  intros Hr' Hne Hp Hn. assert (upath []) as Hnil by (split_and!; [simpl; lia|done|done]).
  apply Hm; [exact (proj1 (vi_node _ _ _ _ Hi _ _ _ Hr' Hp Hn))| |].
  - intros ->. destruct (vi_inj _ _ _ _ Hi r' r p [] r) as [? _]; done.
  - intros (q&_&Hq&Hn')%elem_of_space. destruct (vi_inj _ _ _ _ Hi r' r p q t) as [? _]; done.
Qed.

Lemma other_node r' p : r' ∈ R → r' ≠ r → upath p → node (km_mem s') r' p = node (km_mem s) r' p.
Proof using Hidx Hi Hr Hm Hend.
  intros Hr' Hne. induction p as [|i p IH] using rev_ind; intros Hp; [done|].
  apply upath_snoc in Hp as (Hp&_&Hir). rewrite !node_snoc, IH by done.
  destruct (node (km_mem s) r' p) as [t|] eqn:Ht; [|done]. simpl. unfold next. f_equal.
  apply (entry_frame kend Hend); [exact (proj1 (vi_node _ _ _ _ Hi _ _ _ Hr' Hp Ht))|done|]. by eapply other_page.
Qed.

Lemma other_upage r' va : r' ∈ R → r' ≠ r → user_page va → upage (km_mem s') r' va = upage (km_mem s) r' va.
Proof using Hidx Hi Hr Hm Hend.
  intros Hr' Hne [Hva _]. pose proof (vpath_upath va Hva) as Hq.
  assert (leaf (km_mem s') r' (vpath va) = leaf (km_mem s) r' (vpath va)) as E.
  { rewrite !leaf_vpath. destruct (vpath_levels va Hva) as (_&_&_&H4). pose proof (upath_snoc _ _ H4) as (H3&_&Hj).
    rewrite other_node by done. destruct (node (km_mem s) r' _) as [t|] eqn:Ht; [|done]. simpl.
    apply (entry_frame kend Hend); [exact (proj1 (vi_node _ _ _ _ Hi _ _ _ Hr' H3 Ht))|done|]. by eapply other_page. }
  unfold upage. rewrite E. destruct (leaf (km_mem s) r' (vpath va)) as [e|] eqn:He; [|done]. simpl.
  destruct (leaf_page kend s l R r' va e Hi Hr' Hva He) as (Hn&_). by rewrite (other_page r' (vpath va)).
Qed.
End Others.

Lemma free_space_run s l R r :
  vm_inv kend s l R → r ∈ R →
  ∃ s' P, (freevm_entries kend 3 r idx;; kfree kend r) s = Ok tt s' ∧ vm_inv kend s' (r :: P ++ l) (R ∖ {[r]}) ∧
    (∀ t, t ∈ P ↔ ∃ p, p ≠ [] ∧ upath p ∧ node (km_mem s) r p = Some t) ∧
    ∀ r' va, r' ∈ R → r' ≠ r → user_page va → upage (km_mem s') r' va = upage (km_mem s) r' va.
Proof using Hend Hidx Hnd.
  intros Hi Hr. set (P := space (km_mem s) r).
  destruct (space_freeable s l R r Hi Hr) as [Hfr HrP]. fold P in Hfr, HrP.
  assert (upath []) as Hnil by (split_and!; [simpl; lia|done|done]).
  destruct (vi_node _ _ _ _ Hi r [] r Hr Hnil eq_refl) as [Hg Hrl].
  assert (frees (freevm_entries kend 3 r idx;; kfree kend r) s l (P ++ [r])) as (s'&Hrun&Hk&Hm).
  { apply frees_seq; [apply frees_entries; [apply Hi|apply user_indices|done..]|]. intros s1 Hk1 _. apply frees_one; [done..|].
    rewrite not_elem_of_app, elem_of_reverse. done. }
  assert (∀ t, good t → t ≠ r → t ∉ P → km_mem s' !! page_of t = km_mem s !! page_of t) as Hm'.
  { intros t Ht Hne HtP. apply Hm; [done|]. rewrite not_elem_of_app. split; [done|]. by rewrite list_elem_of_singleton. }
  rewrite reverse_app in Hk. exists s', (reverse P). split_and!.
  - exact Hrun.
  - split; [exact Hk| |].
    + intros r' p t [Hr' Hne%not_elem_of_singleton]%elem_of_difference Hp.
      rewrite (other_node s s' l R r) by done.
      intros Hn. destruct (vi_node _ _ _ _ Hi r' p t Hr' Hp Hn) as [Ht Hl]. split; [done|].
      rewrite not_elem_of_cons, not_elem_of_app, elem_of_reverse. split_and!; [| |done].
      * intros ->. destruct (vi_inj _ _ _ _ Hi r' r p [] r) as [? _]; done.
      * intros (q&_&Hq&Hn')%elem_of_space. destruct (vi_inj _ _ _ _ Hi r' r p q t) as [? _]; done.
    + intros r1 r2 p1 p2 t [Hr1 H1%not_elem_of_singleton]%elem_of_difference
        [Hr2 H2%not_elem_of_singleton]%elem_of_difference Hp1 Hp2.
      rewrite !(other_node s s' l R r) by done. by apply (vi_inj _ _ _ _ Hi).
  - intros t. rewrite elem_of_reverse. apply elem_of_space.
  - intros r' va Hr' Hne Hv. by apply (other_upage s s' l R r).
Qed.
End Space.

(** freevm gives the address space back: every page of user memory and every page table of the root [r], each once,
    is on the free list afterwards, and what was free before; all other address spaces are unchanged. *)
Lemma freevm_run s l R r :
  vm_inv kend s l R → r ∈ R →
  ∃ s' P, freevm kend r s = Ok tt s' ∧ vm_inv kend s' (r :: P ++ l) (R ∖ {[r]}) ∧
    (∀ t, t ∈ P ↔ ∃ p, p ≠ [] ∧ upath p ∧ node (km_mem s) r p = Some t) ∧
    ∀ r' va, r' ∈ R → r' ≠ r → user_page va → upage (km_mem s') r' va = upage (km_mem s) r' va.
Proof using Hend.
  intros Hi Hr. unfold freevm. assert (upath []) as Hnil by (split_and!; [simpl; lia|done|done]).
  rewrite (node_nonzero kend Hend s l R r [] r) by done.
  apply free_space_run; [|apply NoDup_seqZ|done..]. intros i. rewrite elem_of_seqZ. lia.
Qed.

(** C27. freevm gives a whole address space back and nothing else.  For an address space [r], freevm ends without a panic.
    The pages it frees are the root, every page table and every page of user memory of [r], none of them twice and
    none that was free; what was free before is still free.  The other address spaces keep their tables and their memory. *)
Theorem freevm_frees s l R r :
  vm_inv kend s l R → r ∈ R →
  ∃ s' P, freevm kend r s = Ok tt s' ∧ vm_inv kend s' (r :: P ++ l) (R ∖ {[r]}) ∧ NoDup (r :: P ++ l) ∧
    (∀ t, t ∈ P ↔ ∃ p, p ≠ [] ∧ upath p ∧ node (km_mem s) r p = Some t) ∧
    (∀ va e, user_va va → leaf (km_mem s) r (vpath va) = Some e → P2V (PTE_ADDR e) ∈ P) ∧
    ∀ r' va, r' ∈ R → r' ≠ r → user_page va → upage (km_mem s') r' va = upage (km_mem s) r' va.
Proof using Hend.
  intros Hi Hr. destruct (freevm_run s l R r Hi Hr) as (s'&P&Hrun&Hi'&HP&Ho). exists s', P. split_and!; try done.
  - exact (ki_nodup _ _ _ (vi_kmem _ _ _ _ Hi')).
  - intros va e Hva He. destruct (leaf_page kend s l R r va e Hi Hr Hva He) as (Hn&_). apply HP. exists (vpath va).
    split; [done|]. split; [by apply vpath_upath|done].
Qed.
End Proofs.

(** The address space with the two pages. *)
Lemma freevm_frees_witness :
  ∃ s l d, vm_inv example_end s l {[d]} ∧
    ∃ s' P, freevm example_end d s = Ok tt s' ∧ vm_inv example_end s' (d :: P ++ l) ∅ ∧
      ∃ e, leaf (km_mem s) d (vpath 0x2000) = Some e ∧ P2V (PTE_ADDR e) ∈ P.
Proof.
  destruct example_user as (s&l&d&Hi&_&Hup). exists s, l, d. split; [exact Hi|].
  destruct (freevm_frees example_end (proj1 example_end_ok) s l {[d]} d Hi (proj2 (elem_of_singleton d d) eq_refl))
    as (s'&P&Hrun&Hi'&_&_&Hleaf&_). exists s', P. split; [exact Hrun|]. rewrite difference_diag_L in Hi'. split; [exact Hi'|].
  assert (user_page 0x2000) as Hpg by (split; [unfold user_va; lia|reflexivity]).
  specialize (Hup 0x2000 Hpg ltac:(lia)). unfold upage in Hup.
  destruct (leaf (km_mem s) d (vpath 0x2000)) as [e|] eqn:He; [|discriminate Hup].
  exists e. split; [reflexivity|]. exact (Hleaf 0x2000 e (proj1 Hpg) He).
Defined.
