(* ===== verification/Uimage.v ===== *)
(** The memory of a program that is being loaded (src/vm.c: allocuvm, clearpteu, copyout, the pages that loaduvm
    fills): what an address space under construction holds, and how each step changes it. *)

From S2P Require Import Prelude Bytes Mem Kalloc Vm.

Definition NOT_U : Z := u64 (Z.lnot PTE_U).

Section Proofs.
Context (kend : Z) (Hend : KERNBASE ≤ kend).
Implicit Types (m : pmem) (r t v i n : Z) (p q l : list Z) (R : gset Z) (s : kmem).

(** * clearpteu *)

Lemma land_const e x y : Z.land x y = x → Z.land (Z.land e x) y = Z.land e x.
Proof using. intros E. by rewrite <- Z.land_assoc, E. Qed.

Lemma not_u_entry e :
  let x := Z.land e NOT_U in
  0 ≤ x < 2 ^ 64 ∧ present x = present e ∧ PTE_ADDR x = PTE_ADDR e ∧ PTE_FLAGS x = Z.land (PTE_FLAGS e) NOT_U.
Proof using.
  intros x. split; [|split_and!].
  - assert (Z.land x (Z.ones 64) = x) as E by by apply land_const.
    rewrite Z.land_ones in E by lia. rewrite <- E. by apply Z.mod_pos_bound.
  - unfold present, x. by rewrite <- Z.land_assoc.
  - unfold PTE_ADDR, x. by rewrite <- Z.land_assoc.
  - unfold PTE_FLAGS, x. rewrite <- !Z.land_assoc. f_equal.
Qed.

(** Nodes after the flags of a last-level entry changed. *)
Lemma node_reflag s l R r p t i e x r' q :
  vm_inv kend s l R → r ∈ R → upath (p ++ [i]) → length (p ++ [i]) = 4%nat → node (km_mem s) r p = Some t →
  node (km_mem s) r (p ++ [i]) = Some (P2V (PTE_ADDR e)) →
  0 ≤ x < 2 ^ 64 → present x = true → PTE_ADDR x = PTE_ADDR e → r' ∈ R → upath q →
  node (set_entry (km_mem s) t i x) r' q = node (km_mem s) r' q.
Proof using Hend.
  intros Hi Hr Hpi Hl Ht Hn Hx Hpx Ha Hr' Hq. destruct (decide (r' = r ∧ (p ++ [i]) `prefix_of` q)) as [[-> [q2 ->]]|Hne].
  - destruct q2; [|destruct Hq as [Hq _]; rewrite length_app, Hl in Hq; simpl in Hq; lia].
    rewrite app_nil_r. rewrite Hn. rewrite <- (app_nil_r [i]). erewrite (node_set_below kend Hend) by done.
    by rewrite Hpx, Ha.
  - by apply (node_set_other kend Hend s l R r p).
Qed.

Lemma clearpteu_run s l R r va fl pg :
  vm_inv kend s l R → r ∈ R → user_page va → upage (km_mem s) r va = Some (fl, pg) →
  ∃ s', clearpteu r va s = Ok tt s' ∧ vm_inv kend s' l R ∧
    ∀ r' va', r' ∈ R → user_page va' →
      upage (km_mem s') r' va' =
        if decide (r' = r ∧ va' = va) then Some (Z.land fl NOT_U, pg) else upage (km_mem s) r' va'.
Proof using Hend.
  intros Hi Hr [Hva Hal] Hup. destruct (vpath_levels va Hva) as (_&_&_&H4). pose proof (upath_snoc _ _ H4) as (Hp3&_&Hj).
  unfold upage in Hup. destruct (leaf (km_mem s) r (vpath va)) as [e|] eqn:He; [|done]. simpl in Hup.
  destruct (km_mem s !! page_of (P2V (PTE_ADDR e))) as [pg'|] eqn:Hpg; [|done]. injection Hup as <- ->.
  destruct (leaf_page kend s l R r va e Hi Hr Hva He) as (Hn&Hg&_&Hnt&_).
  destruct (pte_load kend Hend s l R r va e Hi Hr Hva He) as (pte&Hw&Hz&Hld&HP).
  pose proof He as He'. rewrite leaf_vpath in He'.
  destruct (node (km_mem s) r [PMX va; PDPX va; PDX va]) as [pt|] eqn:Hpt; [|done]. simpl in He'.
  assert (pte = entry_addr pt (PTX va)) as ->.
  { rewrite (walkpgdir_run kend Hend s l R) in Hw by done. rewrite Hpt in Hw. congruence. }
  destruct (not_u_entry e) as (Hx&Hpx&Ha&Hf). set (x := Z.land e NOT_U) in *.
  assert (present x = true) as Hpx' by (rewrite Hpx; unfold present; by rewrite HP).
  pose proof (λ r' q Hr' Hq, node_reflag s l R r [PMX va; PDPX va; PDX va] pt (PTX va) e x r' q Hi Hr H4 eq_refl Hpt Hn Hx Hpx' Ha Hr' Hq) as Hnode.
  exists (set_km_mem (set_entry (km_mem s) pt (PTX va) x) s). split_and!.
  - unfold clearpteu. erewrite bind_run by exact Hw. rewrite Hz. erewrite bind_run by by apply load_run.
    change (u64 (Z.lnot PTE_U)) with NOT_U. by eapply (store_run kend Hend).
  - split; simpl.
    + by eapply (kmem_set kend Hend).
    + intros r' q t' Hr' Hq. rewrite Hnode by done. by eapply vi_node.
    + intros r1 r2 q1 q2 t' Hr1 Hr2 Hq1 Hq2. rewrite !Hnode by done. by eapply vi_inj.
  - intros r' va' Hr' [Hva' Hal']. simpl. unfold upage.
    rewrite (leaf_set kend Hend s l R r va pt x r' (vpath va')) by (done || by apply vpath_upath). rewrite Hpx'.
    assert (∀ w, good_page kend w → not_table s R w →
      set_entry (km_mem s) pt (PTX va) x !! page_of w = km_mem s !! page_of w) as Hsame.
    { intros w Hw' Hnw. unfold set_entry. apply lookup_alter_ne. intros E.
      apply (good_page_inj kend Hend) in E; [|exact (proj1 (vi_node _ _ _ _ Hi _ _ _ Hr Hp3 Hpt))|done]. subst w.
      apply (Hnw r [PMX va; PDPX va; PDX va]); [done..|simpl; lia|done]. }
    destruct (decide (r' = r ∧ vpath va' = vpath va)) as [[-> Ev]|Hne].
    + apply vpath_inj in Ev; [|done..|congruence]. subst va'. rewrite decide_True by done. simpl.
      rewrite Ha, Hsame, Hpg by done. simpl. by rewrite Hf.
    + rewrite decide_False by (intros [-> ->]; by apply Hne).
      destruct (leaf (km_mem s) r' (vpath va')) as [e'|] eqn:He''; [|done]. simpl.
      destruct (leaf_page kend s l R r' va' e' Hi Hr' Hva' He'') as (_&Hg'&_&Hnt'&_). by rewrite Hsame.
Qed.

(** * What an address space holds *)

Definition RWU : Z := flags [PTE_W; PTE_U; PTE_P].

(** The pages from the second one up to [sz] are mapped, with the flags [fl], and no others; they have the
    bytes [f], and beyond them [f] is zero. *)
Record holds m d sz (fl f : Z → Z) : Prop := {
  ho_pages va : user_page va → fst <$> upage m d va = if decide (PGSIZE ≤ va < sz) then Some (fl va) else None;
  ho_bytes a : user_va a → PGSIZE ≤ a - a mod PGSIZE < sz → ubyte m d a = Some (f a);
  ho_zero a : PGROUNDUP sz ≤ a → f a = 0;
}.

(** [f] with [bs] written at [va]. *)
Definition write_at va (bs : list Z) (f : Z → Z) (a : Z) : Z :=
  if decide (va ≤ a < va + Z.of_nat (length bs)) then bs !!! Z.to_nat (a - va) else f a.

Lemma page_mod a : a - a mod PGSIZE ≤ a < a - a mod PGSIZE + PGSIZE ∧ (a - a mod PGSIZE) mod PGSIZE = 0.
Proof using.
  pose proof (Z.mod_pos_bound a PGSIZE ltac:(done)). split; [lia|]. by rewrite Zminus_mod, Zmod_mod, Z.sub_diag.
Qed.

Lemma aligned_below va sz : 0 ≤ sz ≤ 2 ^ 47 - PGSIZE → va mod PGSIZE = 0 → va < sz ↔ va < PGROUNDUP sz.
Proof using.
  intros Hs Ha. destruct (pgroundup_page sz Hs) as [[_ Hm] Hr]. split; [lia|]. intros Hlt. unfold PGSIZE in *.
  pose proof (Z.div_mod va 4096 ltac:(lia)). pose proof (Z.div_mod (PGROUNDUP sz) 4096 ltac:(lia)). lia.
Qed.

Lemma page_in a sz : 0 ≤ sz ≤ 2 ^ 47 - PGSIZE → PGSIZE ≤ a < PGROUNDUP sz → PGSIZE ≤ a - a mod PGSIZE < sz.
Proof using.
  intros Hs Ha. destruct (page_mod a) as [Hr Hm]. split.
  - unfold PGSIZE in *. pose proof (Z.div_mod a 4096 ltac:(lia)). lia.
  - apply (aligned_below _ sz); [done|done|lia].
Qed.

Lemma ubyte_of m d a fl pg : upage m d (a - a mod PGSIZE) = Some (fl, pg) → ubyte m d a = pg !! Z.to_nat (a mod PGSIZE).
Proof using. intros E. unfold ubyte. by rewrite E. Qed.

Lemma ubyte_same m m' d a :
  upage m' d (a - a mod PGSIZE) = upage m d (a - a mod PGSIZE) → ubyte m' d a = ubyte m d a.
Proof using. intros E. unfold ubyte. by rewrite E. Qed.

Lemma holds_empty m d : (∀ va, user_va va → upage m d va = None) → holds m d PGSIZE (λ _, RWU) (λ _, 0).
Proof using.
  intros Hn. split; [|lia|done]. intros va [Hva _]. rewrite Hn, decide_False by (done || lia). done.
Qed.

Lemma holds_alloc s l R d sz newsz fl f :
  vm_inv kend s l R → d ∈ R → holds (km_mem s) d sz fl f → (∀ va, sz ≤ va → fl va = RWU) →
  PGSIZE ≤ sz ≤ newsz → newsz ≤ 2 ^ 47 - PGSIZE →
  (4 * Z.to_nat ((newsz - PGROUNDUP sz) / PGSIZE + 1) ≤ length l)%nat →
  ∃ s' l', allocuvm kend d sz newsz s = Ok newsz s' ∧ vm_inv kend s' l' R ∧
    (length l ≤ 4 * Z.to_nat ((newsz - PGROUNDUP sz) / PGSIZE + 1) + length l')%nat ∧
    holds (km_mem s') d newsz fl f ∧
    ∀ r va, r ∈ R → r ≠ d → user_page va → upage (km_mem s') r va = upage (km_mem s) r va.
Proof using Hend.
  intros Hi Hd [Hp Hb Hz] Hfl Hsz Hn Hl. unfold PGSIZE in Hsz.
  destruct (pgroundup_page sz ltac:(lia)) as [[_ Hum] Hur]. destruct (pgroundup_page newsz ltac:(lia)) as [_ Hnr].
  destruct (allocuvm_run kend Hend s l R d sz newsz Hi Hd ltac:(lia) Hn Hl) as (s'&l'&Hrun&Hi'&Hl'&Hup).
  { intros va Hva Hin. specialize (Hp va Hva). rewrite decide_False in Hp by lia. by destruct (upage _ _ _). }
  exists s', l'. split_and!; [done..| |].
  - split.
    + intros va Hva. rewrite Hup by done. pose proof Hva as [Hva' Hm].
      pose proof (aligned_below va sz ltac:(lia) Hm) as Hab. case_decide as Hin.
      * rewrite decide_True by (unfold PGSIZE in *; lia). simpl. by rewrite Hfl by lia.
      * rewrite Hp by done. destruct (decide (PGSIZE ≤ va < sz)).
        -- by rewrite decide_True by lia.
        -- rewrite decide_False; [done|]. intros ?. apply Hin. split; [done|]. lia.
    + intros a Ha Hin. destruct (page_mod a) as [Hr Hm].
      pose proof (aligned_below (a - a mod PGSIZE) sz ltac:(lia) Hm) as Hab.
      destruct (decide (PGROUNDUP sz ≤ a - a mod PGSIZE)) as [Hge|Hlt].
      * rewrite (ubyte_of _ _ _ RWU (full_page 0)).
        2: { rewrite Hup by (done || by apply page_base). by rewrite decide_True by lia. }
        rewrite Hz by lia. unfold full_page. apply lookup_replicate_2. pose proof (Z.mod_pos_bound a PGSIZE ltac:(done)). lia.
      * rewrite (ubyte_same (km_mem s)); [apply Hb; [done|lia]|].
        rewrite Hup by (done || by apply page_base). rewrite decide_False by lia. done.
    + intros a Ha. apply Hz. unfold PGSIZE in *.
      assert (PGROUNDUP sz ≤ PGROUNDUP newsz); [|lia].
      rewrite !PGROUNDUP_spec by (unfold PGSIZE; lia). unfold PGSIZE. apply Z.mul_le_mono_nonneg_r; [lia|].
      apply Z.div_le_mono; lia.
  - intros r va Hr Hne Hva. rewrite Hup by done. by rewrite decide_False by tauto.
Qed.

(** A mapped page, as the code finds it. *)
Lemma holds_leaf s l R d sz fl f va :
  vm_inv kend s l R → d ∈ R → holds (km_mem s) d sz fl f → user_page va → PGSIZE ≤ va < sz →
  ∃ e, leaf (km_mem s) d (vpath va) = Some e ∧ PTE_FLAGS e = fl va.
Proof using.
  intros Hi Hd [Hp _ _] Hva Hin. specialize (Hp va Hva). rewrite decide_True in Hp by done. unfold upage in Hp.
  destruct (leaf (km_mem s) d (vpath va)) as [e|]; [|done]. exists e. split; [done|]. simpl in Hp.
  destruct (km_mem s !! _); simpl in Hp; congruence.
Qed.

(** The effect of any code that writes bytes into mapped pages. *)
Lemma holds_written m m' d sz fl f va bs :
  holds m d sz fl f → 0 ≤ sz ≤ 2 ^ 47 - PGSIZE → va + Z.of_nat (length bs) ≤ PGROUNDUP sz →
  (∀ va, user_page va → fst <$> upage m' d va = fst <$> upage m d va) →
  (∀ a, user_va a → ubyte m' d a =
     if decide (va ≤ a < va + Z.of_nat (length bs)) then bs !! Z.to_nat (a - va) else ubyte m d a) →
  holds m' d sz fl (write_at va bs f).
Proof using.
  intros [Hp Hb Hz] Hs Hle Hfl Hub. split.
  - intros va' Hva'. rewrite Hfl by done. by apply Hp.
  - intros a Ha Hin. rewrite Hub by done. unfold write_at. case_decide; [|by apply Hb].
    apply list_lookup_lookup_total_lt. lia.
  - intros a Ha. unfold write_at. rewrite decide_False by lia. by apply Hz.
Qed.

(** loaduvm fills a page through the kernel's map. *)
Lemma holds_fill s l R d sz fl f va bs e :
  vm_inv kend s l R → d ∈ R → holds (km_mem s) d sz fl f → 0 ≤ sz ≤ 2 ^ 47 - PGSIZE →
  user_page va → PGSIZE ≤ va < sz → leaf (km_mem s) d (vpath va) = Some e →
  bytes bs → Z.of_nat (length bs) ≤ PGSIZE →
  ∃ s', mem_upd (store_bytes (P2V (PTE_ADDR e)) bs) s = Ok tt s' ∧ vm_inv kend s' l R ∧
    only_contents (km_mem s) (km_mem s') R d ∧ holds (km_mem s') d sz fl (write_at va bs f).
Proof using Hend.
  intros Hi Hd Hh Hsz [Hva Hm] Hin He Hbs Hlen.
  destruct (store_upage kend Hend s l R d va e bs Hi Hd Hva) as (s'&Hst&Hi'&_&Hoc&Hub); [by rewrite Hm, Z.sub_0_r|done|lia|].
  destruct (leaf_page kend s l R d va e Hi Hd Hva He) as (_&Hg&_).
  destruct (good_page_addr kend Hend _ Hg) as (_&_&_&_&Hr). rewrite Hm, Z.add_0_r, wrap_small in Hst by lia.
  exists s'. split_and!; [done..|]. destruct (pgroundup_page sz Hsz) as [[_ Hum] Hur].
  apply (holds_written (km_mem s)); [done|done| | |].
  - unfold PGSIZE in *. pose proof (Z.div_mod va 4096 ltac:(lia)). pose proof (Z.div_mod (PGROUNDUP sz) 4096 ltac:(lia)). lia.
  - intros va' Hva'. by apply Hoc.
  - intros a Ha. rewrite Hub by done. repeat case_decide; tauto || done.
Qed.

Lemma holds_copyout s l R d sz fl f va bs :
  vm_inv kend s l R → d ∈ R → holds (km_mem s) d sz fl f → 0 ≤ sz ≤ 2 ^ 47 - PGSIZE →
  PGSIZE ≤ va → va + Z.of_nat (length bs) ≤ PGROUNDUP sz →
  (∀ a, va ≤ a < va + Z.of_nat (length bs) → Z.land (fl (a - a mod PGSIZE)) PTE_U ≠ 0) → bytes bs →
  ∃ s', copyout d va bs s = Ok 0 s' ∧ vm_inv kend s' l R ∧
    only_contents (km_mem s) (km_mem s') R d ∧ holds (km_mem s') d sz fl (write_at va bs f).
Proof using Hend.
  intros Hi Hd Hh Hsz Hva Hend' Hfl Hbs. destruct (pgroundup_page sz Hsz) as [_ Hur]. unfold PGSIZE in Hva.
  destruct (copyout_loop_run kend Hend (S (length bs)) s l R d va bs) as (s'&Hrun&Hi'&Hoc&Hub); try done; try lia.
  - intros a Ha. assert (user_va a) as Hua by (unfold user_va; lia).
    destruct (holds_leaf s l R d sz fl f (a - a mod PGSIZE) Hi Hd Hh (page_base a Hua)) as (e&He&Hf).
    { apply page_in; [done|unfold PGSIZE; lia]. }
    exists e. split; [done|]. intros E. apply (Hfl a Ha). rewrite <- Hf. unfold PTE_FLAGS.
    by rewrite <- Z.land_assoc, (Z.land_comm 0xFFF), Z.land_assoc, E.
  - exists s'. split_and!; [done..|]. apply (holds_written (km_mem s)); [done|done|done| |].
    + intros va' Hva'. by apply Hoc.
    + intros a Ha. rewrite Hub by done. repeat case_decide; tauto || done.
Qed.

(** clearpteu makes one page inaccessible and keeps everything else. *)
Lemma holds_clear s l R d sz fl f va :
  vm_inv kend s l R → d ∈ R → holds (km_mem s) d sz fl f → user_page va → PGSIZE ≤ va < sz →
  ∃ s', clearpteu d va s = Ok tt s' ∧ vm_inv kend s' l R ∧
    holds (km_mem s') d sz (λ a, if decide (a = va) then Z.land (fl va) NOT_U else fl a) f ∧
    ∀ r a, r ∈ R → r ≠ d → user_page a → upage (km_mem s') r a = upage (km_mem s) r a.
Proof using Hend.
  intros Hi Hd Hh Hva Hin. pose proof (ho_pages _ _ _ _ _ Hh va Hva) as Hp. rewrite decide_True in Hp by done.
  destruct (upage (km_mem s) d va) as [[fl0 pg]|] eqn:Hup; [|done]. injection Hp as ->.
  destruct (clearpteu_run s l R d va (fl va) pg Hi Hd Hva Hup) as (s'&Hrun&Hi'&Hup').
  exists s'. split_and!; [done|done| |].
  - split; [| |apply Hh].
    + intros a Ha. rewrite Hup' by done. destruct (decide (a = va)) as [->|Hne].
      * by rewrite !decide_True.
      * rewrite (decide_False (P := d = d ∧ a = va)) by tauto. rewrite (ho_pages _ _ _ _ _ Hh) by done. done.
    + intros a Ha Hina. rewrite <- (ho_bytes _ _ _ _ _ Hh a Ha Hina). pose proof (page_base a Ha) as Hpb.
      destruct (decide (a - a mod PGSIZE = va)) as [E|Hne].
      * assert (upage (km_mem s) d (a - a mod PGSIZE) = Some (fl va, pg)) as E1 by by rewrite E.
        rewrite (ubyte_of _ _ _ _ _ E1). eapply ubyte_of. rewrite Hup' by done. by rewrite decide_True.
      * apply ubyte_same. rewrite Hup' by done. by rewrite decide_False by tauto.
  - intros r a Hr Hne Ha. rewrite Hup' by done. by rewrite decide_False by tauto.
Qed.
End Proofs.
