(* ===== verification/Segment.v ===== *)
(** What the kernel tells the processor (src/vm.c: syscallinit, seginit, switchuvm, switchkvm; src/trap.c: tvinit,
    idtinit, mkgate; src/mmu.h: descriptors): the tables of segments and of interrupt gates, the task state
    and the registers that point to them.

    The tables are pages of the memory of Kalloc.v.  How the processor reads them is defined as its
    manual does ([gate_of], [tss_of], ...), and the theorems are about what the processor
    finds: each interrupt enters its vector at kernel privilege, a trap out of a process switches to the kernel
    stack of that process, and system calls enter and leave with the right segments. *)

From S2P Require Import Prelude Bytes Layout Mem Spinlock Kalloc Vm.

Definition SEG_KCODE : Z := 1.
Definition SEG_KDATA : Z := 2.
Definition SEG_UCODE32 : Z := 3.
Definition SEG_UDATA : Z := 4.
Definition SEG_UCODE : Z := 5.
Definition SEG_KCPU : Z := 6.
Definition SEG_TSS : Z := 7.
Definition NSEGS : Z := 8.
Definition USER_CS : Z := Z.lor (Z.shiftl SEG_UCODE 3) DPL_USER.
Definition USER_DS : Z := Z.lor (Z.shiftl SEG_UDATA 3) DPL_USER.
Definition USER32_CS : Z := Z.lor (Z.shiftl SEG_UCODE32 3) DPL_USER.
Definition KERNEL_CS : Z := Z.shiftl SEG_KCODE 3.
Definition APP_SEG : Z := 1.
Definition STA_X : Z := 8.
Definition STA_W : Z := 2.
Definition STA_R : Z := 2.
Definition STS_T64A : Z := 9.

Definition MSR_STAR : Z := 0xC0000081.
Definition MSR_LSTAR : Z := 0xC0000082.
Definition MSR_CSTAR : Z := 0xC0000083.
Definition MSR_SFMASK : Z := 0xC0000084.
Definition FL_TF : Z := 0x100.
Definition FL_DF : Z := 0x400.
Definition FL_IOPL_3 : Z := 0x3000.
Definition FL_NT : Z := 0x4000.
Definition FL_AC : Z := 0x40000.

(** struct segdesc, and its bits *)
Record segdesc := Segdesc {
  lim_15_0 : Z; base_15_0 : Z; base_23_16 : Z; sd_type : Z; sd_s : Z; sd_dpl : Z; sd_p : Z;
  lim_19_16 : Z; sd_avl : Z; sd_rsv1 : Z; sd_db : Z; sd_g : Z; base_31_24 : Z;
}.
Definition null_desc : segdesc := Segdesc 0 0 0 0 0 0 0 0 0 0 0 0 0.
(** fields with their widths, from the low end *)
Definition desc_fields (d : segdesc) : list (Z * Z) :=
  [(16, lim_15_0 d); (16, base_15_0 d); (8, base_23_16 d); (4, sd_type d); (1, sd_s d); (2, sd_dpl d); (1, sd_p d);
   (4, lim_19_16 d); (1, sd_avl d); (1, sd_rsv1 d); (1, sd_db d); (1, sd_g d); (8, base_31_24 d)].
Fixpoint pack (fs : list (Z * Z)) : Z :=
  match fs with [] => 0 | (w, v) :: fs => wrap w v + 2 ^ w * pack fs end.

(** The macro SEG; [lim] and [base] are 64-bit values. *)
Definition SEG (type lim base sys dpl rsv : Z) : segdesc :=
  Segdesc (Z.land lim 0xffff) (Z.land (u32 base) 0xffff) (Z.land (Z.shiftr base 16) 0xff) type sys dpl 1
    (Z.shiftr lim 60) 0 rsv 0 1 (Z.shiftr base 24).

(** The registers of a processor, with the variable cpu that is local to it; [locals] has the field local of
    each struct cpu. *)
Record processor := Processor {
  pr_mem : kmem;
  pr_cpus : machine;
  locals : list Z;
  this_cpu : option nat;
  this_proc : option nat;
  msr : gmap Z Z;
  gdtr : list Z;
  idtr : list Z;
  tr : Z;
  cr3 : Z;
}.

Definition set_pr_mem (m : kmem) (s : processor) : processor :=
  Processor m (pr_cpus s) (locals s) (this_cpu s) (this_proc s) (msr s) (gdtr s) (idtr s) (tr s) (cr3 s).
Definition set_pr_cpus (c : machine) (s : processor) : processor :=
  Processor (pr_mem s) c (locals s) (this_cpu s) (this_proc s) (msr s) (gdtr s) (idtr s) (tr s) (cr3 s).
Definition set_locals (l : list Z) (c : option nat) (p : option nat) (s : processor) : processor :=
  Processor (pr_mem s) (pr_cpus s) l c p (msr s) (gdtr s) (idtr s) (tr s) (cr3 s).
Definition set_msr (m : gmap Z Z) (s : processor) : processor :=
  Processor (pr_mem s) (pr_cpus s) (locals s) (this_cpu s) (this_proc s) m (gdtr s) (idtr s) (tr s) (cr3 s).
Definition set_gdtr (g : list Z) (s : processor) : processor :=
  Processor (pr_mem s) (pr_cpus s) (locals s) (this_cpu s) (this_proc s) (msr s) g (idtr s) (tr s) (cr3 s).
Definition set_idtr (i : list Z) (s : processor) : processor :=
  Processor (pr_mem s) (pr_cpus s) (locals s) (this_cpu s) (this_proc s) (msr s) (gdtr s) i (tr s) (cr3 s).
Definition set_tr (t : Z) (s : processor) : processor :=
  Processor (pr_mem s) (pr_cpus s) (locals s) (this_cpu s) (this_proc s) (msr s) (gdtr s) (idtr s) t (cr3 s).
Definition set_cr3 (c : Z) (s : processor) : processor :=
  Processor (pr_mem s) (pr_cpus s) (locals s) (this_cpu s) (this_proc s) (msr s) (gdtr s) (idtr s) (tr s) c.

Definition mem_lens : lens processor kmem := Lens pr_mem set_pr_mem.
Definition cpus_lens : lens processor machine := Lens pr_cpus set_pr_cpus.

Notation MC := (M processor).

(** * The code *)

Definition store32 (v x : Z) : M kmem unit := mem_upd (store_bytes v (le_enc 4 (u32 x))).

(** x86.h; the operand of lgdt and lidt is five 16-bit words *)
Definition wrmsr (r v : Z) : MC unit := modify (λ s, set_msr (<[r := u64 v]> (msr s)) s).
Definition table_operand (p size : Z) : list Z :=
  [u16 (size - 1); u16 p; u16 (Z.shiftr p 16); u16 (Z.shiftr p 32); u16 (Z.shiftr p 48)].
Definition lgdt (p size : Z) : MC unit := modify (set_gdtr (table_operand p size)).
Definition lidt (p size : Z) : MC unit := modify (set_idtr (table_operand p size)).
Definition ltr (sel : Z) : MC unit := modify (set_tr (u16 sel)).
Definition lcr3 (v : Z) : MC unit := modify (set_cr3 v).

(** [entry] and [ignore] are the addresses of syscall_entry and ignore_sysret. *)
Definition syscallinit (entry ignore : Z) : MC unit :=
  wrmsr MSR_STAR (Z.lor (Z.shiftl USER32_CS 48) (Z.shiftl KERNEL_CS 32));;
  wrmsr MSR_LSTAR entry;;
  wrmsr MSR_CSTAR ignore;;
  wrmsr MSR_SFMASK (Z.lor (Z.lor (Z.lor (Z.lor (Z.lor FL_TF FL_DF) FL_IF) FL_IOPL_3) FL_AC) FL_NT).

(** gdt[i] = d *)
Definition set_desc (gdt i : Z) (d : segdesc) : MC unit :=
  zoom mem_lens (store (entry_addr gdt i) (pack (desc_fields d))).

(** [me] is what cpunum returns. *)
Definition seginit (me : nat) : MC unit :=
  local ← zoom mem_lens kalloc;
  zoom mem_lens (zero_page local);;
  let gdt := local in
  let tss := local + 1024 in
  zoom mem_lens (store32 (tss + 4 * 16) 0x00680000);;
  wrmsr 0xC0000100 (local + 2048);;
  modify (λ s, set_locals (<[me := local]> (locals s)) (Some me) None s);;
  let addr := tss in
  set_desc gdt 0 null_desc;;
  set_desc gdt SEG_KCODE (SEG (Z.lor STA_X STA_R) 0 0 APP_SEG 0 1);;
  set_desc gdt SEG_KDATA (SEG STA_W 0 0 APP_SEG 0 0);;
  set_desc gdt SEG_UCODE32 null_desc;;
  set_desc gdt SEG_UDATA (SEG STA_W 0 0 APP_SEG DPL_USER 0);;
  set_desc gdt SEG_UCODE (SEG (Z.lor STA_X STA_R) 0 0 APP_SEG DPL_USER 1);;
  set_desc gdt SEG_KCPU null_desc;;
  set_desc gdt SEG_TSS (SEG STS_T64A 0xb addr 0 DPL_USER 0);;
  set_desc gdt (SEG_TSS + 1) (SEG 0 (Z.shiftr addr 32) (Z.shiftr addr 48) 0 0 0);;
  lgdt gdt ((NSEGS + 1) * 8);;
  ltr (Z.shiftl SEG_TSS 3).

Definition switchuvm (pgdir kstack : Z) : MC unit :=
  c ← gets this_cpu;
  me ← the "cpu" c;
  zoom cpus_lens (pushcli me);;
  if pgdir =? 0 then panic "switchuvm: no pgdir" else
  ls ← gets locals;
  local ← the "cpu->local" (ls !! me);
  let tss := local + 1024 in
  let stktop := kstack + KSTACKSIZE in
  zoom mem_lens (store32 (tss + 4 * 1) stktop);;
  zoom mem_lens (store32 (tss + 4 * 2) (Z.shiftr stktop 32));;
  lcr3 (V2P pgdir);;
  zoom cpus_lens (popcli me).

Definition switchkvm (kpml4 : Z) : MC unit := lcr3 (V2P kpml4).

(** idt is a pointer to 32-bit words. *)
Definition mkgate (idt n kva pl : Z) : M kmem unit :=
  let addr := kva in
  let n := u32 (n * 4) in
  store32 (idt + 4 * n) (Z.lor (Z.land addr 0xFFFF) (Z.shiftl KERNEL_CS 16));;
  store32 (idt + 4 * (n + 1)) (Z.lor (Z.lor (Z.land addr 0xFFFF0000) 0x8E00) (Z.shiftl (Z.land pl 3) 13));;
  store32 (idt + 4 * (n + 2)) (Z.shiftr addr 32);;
  store32 (idt + 4 * (n + 3)) 0.

Definition idtinit (idt : Z) : MC unit := lidt idt PGSIZE.

Fixpoint mkgates (k : nat) (idt n : Z) (vectors : Z → Z) : M kmem unit :=
  match k with O => mret tt | S k => mkgate idt n (vectors n) 0;; mkgates k idt (n + 1) vectors end.
(** Returns idt. *)
Definition tvinit (vectors : Z → Z) : M kmem Z :=
  idt ← kalloc;
  zero_page idt;;
  mkgates 256 idt 0 vectors;;
  mret idt.

(** * How the processor reads the tables *)

(** the [n] bytes at [v], as a number *)
Definition peek_at (m : pmem) (n : nat) (v : Z) : option Z := le_dec <$> load_bytes m v n.

(** the address in an operand of lgdt or lidt *)
Definition table_base (op : list Z) : Z :=
  match op with
  | [_; a; b; c; d] => a + 2 ^ 16 * b + 2 ^ 32 * c + 2 ^ 48 * d
  | _ => 0
  end.

Record gate := Gate { g_offset : Z; g_selector : Z; g_ist : Z; g_type : Z; g_dpl : Z; g_present : Z }.

(** Gate [n]: four 32-bit words. *)
Definition gate_of (m : pmem) (idtr : list Z) (n : Z) : option gate :=
  let a := table_base idtr + 16 * n in
  w0 ← peek_at m 4 a;
  w1 ← peek_at m 4 (a + 4);
  w2 ← peek_at m 4 (a + 8);
  Some (Gate (w0 mod 2 ^ 16 + 2 ^ 16 * (w1 / 2 ^ 16) + 2 ^ 32 * w2) (w0 / 2 ^ 16) (w1 mod 2 ^ 3)
          (w1 / 2 ^ 8 mod 2 ^ 4) (w1 / 2 ^ 13 mod 2 ^ 2) (w1 / 2 ^ 15 mod 2)).

(** A code or data segment: type, privilege, present, 64-bit. *)
Definition segment_of (m : pmem) (gdtr : list Z) (i : Z) : option (Z * Z * Z * Z) :=
  d ← peek_at m 8 (table_base gdtr + 8 * i);
  Some (d / 2 ^ 40 mod 2 ^ 5, d / 2 ^ 45 mod 2 ^ 2, d / 2 ^ 47 mod 2, d / 2 ^ 53 mod 2).

(** The task state that the task register selects: a descriptor of 16 bytes. *)
Definition tss_of (m : pmem) (gdtr : list Z) (tr : Z) : option Z :=
  let a := table_base gdtr + 8 * (tr / 8) in
  lo ← peek_at m 8 a;
  hi ← peek_at m 8 (a + 8);
  Some (lo / 2 ^ 16 mod 2 ^ 24 + 2 ^ 24 * (lo / 2 ^ 56) + 2 ^ 32 * (hi mod 2 ^ 32)).
(** the kernel stack, and the offset of the map of permitted ports, in a task state *)
Definition rsp0 (m : pmem) (tss : Z) : option Z := peek_at m 8 (tss + 4).
Definition io_map_base (m : pmem) (tss : Z) : option Z := peek_at m 2 (tss + 102).

Lemma table_base_operand p size : 0 ≤ p < 2 ^ 64 → table_base (table_operand p size) = p.
Proof.
  intros Hp. unfold table_base, table_operand, wrap. rewrite !Z.shiftr_div_pow2 by lia.
  change (2 ^ 32) with (2 ^ 16 * 2 ^ 16). change (2 ^ 48) with (2 ^ 16 * 2 ^ 16 * 2 ^ 16).
  rewrite <- !Z.div_div by lia.
  pose proof (Z.div_mod p (2 ^ 16)). pose proof (Z.div_mod (p / 2 ^ 16) (2 ^ 16)).
  pose proof (Z.div_mod (p / 2 ^ 16 / 2 ^ 16) (2 ^ 16)).
  assert (0 ≤ p / 2 ^ 16 / 2 ^ 16 / 2 ^ 16 < 2 ^ 16).
  { rewrite !Z.div_div by lia. split; [apply Z.div_pos; lia|apply Z.div_lt_upper_bound; lia]. }
  rewrite (Z.mod_small (p / 2 ^ 16 / 2 ^ 16 / 2 ^ 16)) by done. lia.
Qed.

Lemma lor_low a b n : 0 ≤ n → 0 ≤ a < 2 ^ n → b mod 2 ^ n = 0 → Z.lor a b = a + b.
Proof.
  intros Hn Ha Hb. pose proof (Z.add_lor_land a b) as E. enough (Z.land a b = 0) by lia.
  apply Z.bits_inj'. intros i Hi. rewrite Z.land_spec, Z.bits_0. destruct (Z_lt_le_dec i n).
  - assert (Z.testbit b i = false) as ->; [|by rewrite andb_false_r].
    rewrite <- (Z.mod_pow2_bits_low b n i) by lia. by rewrite Hb, Z.bits_0.
  - assert (Z.testbit a i = false) as ->; [|done].
    rewrite <- (Z.mod_small a (2 ^ n)) by done. by apply Z.mod_pow2_bits_high; lia.
Qed.

(** * Pages that are written *)

Section pages.
Context (kend : Z) (Hend : KERNBASE ≤ kend).
Implicit Types (s : kmem) (b : Z).
Local Notation good := (good_page kend).

(** The memory with page [b] replaced. *)
Definition put_page s b (pg : list Z) : kmem := set_km_mem (<[page_of b := pg]> (km_mem s)) s.

Lemma put_page_twice s b pg pg' : put_page (put_page s b pg) b pg' = put_page s b pg'.
Proof. unfold put_page, set_km_mem. simpl. by rewrite insert_insert_eq. Qed.

Lemma in_page b off : good b → 0 ≤ off < PGSIZE → page_of (b + off) = page_of b ∧ off_of (b + off) = Z.to_nat off.
Proof.
  intros Hb Ho. destruct (good_page_addr kend Hend b Hb) as (E & _ & _ & Ev & _). destruct Hb as (_ & Hk & Hlt).
  unfold page_of, off_of, V2P in *. unfold KERNBASE, PHYSTOP, PGSIZE in *. rewrite wrap_small in Ev by lia.
  rewrite (wrap_small 64 (b + off - _)), (wrap_small 64 (b - _)) in * by lia.
  set (x := b - 0xFFFF800000000000) in *. replace (b + off - 0xFFFF800000000000) with (off + x / 4096 * 4096) by lia.
  rewrite Z.div_add, Z.mod_add, Z.div_small, Z.mod_small by lia. lia.
Qed.

Lemma store32_run b off x pg s :
  good b → length pg = Z.to_nat PGSIZE → 0 ≤ off → off + 4 ≤ PGSIZE →
  store32 (b + off) x (put_page s b pg) = Ok tt (put_page s b (put_le 4 (Z.to_nat off) (u32 x) pg)).
Proof.
  intros Hb Hl Ho Ho'. destruct (in_page b off Hb) as [Ep Eo]; [lia|]. rewrite <- (put_page_twice s b pg (put_le _ _ _ _)).
  apply mem_upd_run. unfold store_bytes. rewrite Ep, Eo. simpl. rewrite lookup_insert_eq. simpl.
  rewrite decide_True; [done|]. unfold PGSIZE in *. lia.
Qed.

Lemma store_run64 b off x pg s :
  good b → length pg = Z.to_nat PGSIZE → 0 ≤ off → off + 8 ≤ PGSIZE →
  store (b + off) x (put_page s b pg) = Ok tt (put_page s b (put_le 8 (Z.to_nat off) x pg)).
Proof.
  intros Hb Hl Ho Ho'. destruct (in_page b off Hb) as [Ep Eo]; [lia|]. rewrite <- (put_page_twice s b pg (put_le _ _ _ _)).
  apply mem_upd_run. unfold store64. rewrite Ep, Eo. simpl. rewrite lookup_insert_eq. simpl.
  rewrite decide_True; [done|]. unfold PGSIZE in *. lia.
Qed.

Lemma peek_page b off n pg s :
  good b → length pg = Z.to_nat PGSIZE → 0 ≤ off < PGSIZE → off + Z.of_nat n ≤ PGSIZE →
  peek_at (km_mem (put_page s b pg)) n (b + off) = Some (get_le n (Z.to_nat off) pg).
Proof.
  intros Hb Hl Ho Ho'. destruct (in_page b off Hb) as [Ep Eo]; [lia|].
  unfold peek_at, load_bytes. rewrite Ep, Eo. simpl. rewrite lookup_insert_eq. simpl.
  rewrite decide_True; [done|]. unfold PGSIZE in *. lia.
Qed.

(** kalloc and memset: a page of zeros *)
Lemma fresh_page s b l :
  kmem_inv kend s (b :: l) →
  ∃ s1, kalloc s = Ok b s1 ∧ zero_page b s1 = Ok tt (put_page s1 b (full_page 0)) ∧ good b ∧
    ∀ pg, is_page pg → kmem_inv kend (put_page s1 b pg) l.
Proof.
  intros Hi. destruct (kalloc_run kend Hend s b l Hi) as (next & Hrun & Hi').
  pose proof (ki_nodup _ _ _ Hi) as [Hn _]%list.NoDup_cons. pose proof (ki_good _ _ _ Hi) as [Hg _]%list.Forall_cons.
  eexists. split; [done|]. split; [|split; [done|]].
  - apply mem_upd_run. eapply store_page; [done|done|done|apply zero_is_page].
  - intros pg Hpg. by apply (kmem_write kend Hend).
Qed.

(** ** Gates *)

Definition gate_word (addr : Z) (j : nat) : Z :=
  u32 (match j with
       | 0%nat => Z.lor (Z.land addr 0xFFFF) (Z.shiftl KERNEL_CS 16)
       | 1%nat => Z.lor (Z.lor (Z.land addr 0xFFFF0000) 0x8E00) (Z.shiftl (Z.land 0 3) 13)
       | 2%nat => Z.shiftr addr 32
       | _ => 0
       end).
(** the page with gate [n] written *)
Definition with_gate (n addr : Z) (pg : list Z) : list Z :=
  foldl (λ pg j, put_le 4 (4 * (4 * Z.to_nat n + j)) (gate_word addr j) pg) pg (seq 0 4).

Lemma put_le_page n off x pg : (off + n ≤ Z.to_nat PGSIZE)%nat → is_page pg → is_page (put_le n off x pg).
Proof. intros Ho [Hl Hb]. split; [rewrite length_put_le; lia|by apply put_le_bytes]. Qed.

Lemma with_gate_page n addr pg : 0 ≤ n < 256 → is_page pg → is_page (with_gate n addr pg).
Proof.
  intros Hn Hpg. unfold with_gate. cbn [seq foldl]. unfold PGSIZE in *.
  by repeat (apply put_le_page; [unfold PGSIZE; lia|]).
Qed.

Lemma mkgate_run b n addr pg s :
  good b → is_page pg → 0 ≤ n < 256 →
  mkgate b n addr 0 (put_page s b pg) = Ok tt (put_page s b (with_gate n addr pg)).
Proof.
  intros Hb Hpg Hn. unfold mkgate. cbv zeta. rewrite (wrap_small 32 (n * 4)) by lia.
  assert (∀ j x pg', (j < 4)%nat → is_page pg' →
    store32 (b + 4 * (n * 4 + Z.of_nat j)) x (put_page s b pg') =
      Ok tt (put_page s b (put_le 4 (4 * (4 * Z.to_nat n + j)) (u32 x) pg')) ∧
    is_page (put_le 4 (4 * (4 * Z.to_nat n + j)) (u32 x) pg')) as Hst.
  { intros j x pg' Hj Hp. replace (4 * (n * 4 + Z.of_nat j)) with (16 * n + 4 * Z.of_nat j) by lia.
    replace (4 * (4 * Z.to_nat n + j))%nat with (Z.to_nat (16 * n + 4 * Z.of_nat j)) by lia.
    split; [apply store32_run; [done|apply Hp|lia|unfold PGSIZE; lia]|].
    apply put_le_page; [unfold PGSIZE; lia|done]. }
  replace (b + 4 * (n * 4)) with (b + 4 * (n * 4 + Z.of_nat 0)) by lia.
  destruct (Hst 0%nat (Z.lor (Z.land addr 0xFFFF) (Z.shiftl KERNEL_CS 16)) pg ltac:(lia) Hpg) as [R0 P0].
  rewrite (bind_run _ _ _ _ _ R0).
  destruct (Hst 1%nat (Z.lor (Z.lor (Z.land addr 0xFFFF0000) 0x8E00) (Z.shiftl (Z.land 0 3) 13)) _ ltac:(lia) P0) as [R1 P1].
  rewrite (bind_run _ _ _ _ _ R1). destruct (Hst 2%nat (Z.shiftr addr 32) _ ltac:(lia) P1) as [R2 P2].
  rewrite (bind_run _ _ _ _ _ R2). apply (Hst 3%nat 0 _ ltac:(lia) P2).
Qed.

(** one word of a page of words *)
Lemma word_put i k x pg :
  is_page pg → (i < 1024)%nat → (k < 1024)%nat →
  get_le 4 (4 * i) (put_le 4 (4 * k) (u32 x) pg) = if decide (i = k) then u32 x else get_le 4 (4 * i) pg.
Proof.
  intros [Hl _] Hi Hk. change (Z.to_nat PGSIZE) with 4096%nat in Hl. case_decide as E.
  - subst k. rewrite get_put_le_same by lia. apply Z.mod_small. apply (wrap_range 32). lia.
  - rewrite get_put_le_other by lia. done.
Qed.

Lemma with_gate_word n addr pg m j :
  0 ≤ n < 256 → 0 ≤ m < 256 → (j < 4)%nat → is_page pg →
  get_le 4 (4 * (4 * Z.to_nat m + j)) (with_gate n addr pg) =
  if decide (m = n) then gate_word addr j else get_le 4 (4 * (4 * Z.to_nat m + j)) pg.
Proof.
  intros Hn Hm Hj Hpg. unfold with_gate, gate_word. cbn [seq foldl].
  assert (∀ k x pg', (k < 4)%nat → is_page pg' → is_page (put_le 4 (4 * (4 * Z.to_nat n + k)) x pg')) as Hp.
  { intros. apply put_le_page; [unfold PGSIZE; lia|done]. }
  rewrite !word_put by (repeat (apply Hp; [lia|]); done || lia).
  destruct j as [|[|[|[|]]]]; [..|lia]; repeat case_decide; (done || lia).
Qed.

Lemma mkgates_run k b n vectors pg s :
  good b → is_page pg → 0 ≤ n → n + Z.of_nat k ≤ 256 →
  ∃ pg', mkgates k b n vectors (put_page s b pg) = Ok tt (put_page s b pg') ∧ is_page pg' ∧
    ∀ m j, 0 ≤ m < 256 → (j < 4)%nat →
      get_le 4 (4 * (4 * Z.to_nat m + j)) pg' =
      if decide (n ≤ m < n + Z.of_nat k) then gate_word (vectors m) j
      else get_le 4 (4 * (4 * Z.to_nat m + j)) pg.
Proof.
  revert n pg. induction k as [|k IH]; intros n pg Hb Hpg Hn Hk; cbn [mkgates].
  { exists pg. split; [done|]. split; [done|]. intros m j Hm Hj. by rewrite decide_False by lia. }
  rewrite (bind_run _ _ _ _ _ (mkgate_run b n (vectors n) pg s Hb Hpg ltac:(lia))).
  destruct (IH (n + 1) (with_gate n (vectors n) pg)) as (pg' & -> & Hpg' & Hw); [done|apply with_gate_page; [lia|done]|lia..|].
  exists pg'. split; [done|]. split; [done|]. intros m j Hm Hj. rewrite Hw, with_gate_word by (done || lia).
  repeat case_decide; try lia; by subst.
Qed.

Lemma gate_decode addr :
  0 ≤ addr < 2 ^ 64 →
  let w := gate_word addr in
  Gate (w 0%nat mod 2 ^ 16 + 2 ^ 16 * (w 1%nat / 2 ^ 16) + 2 ^ 32 * w 2%nat) (w 0%nat / 2 ^ 16) (w 1%nat mod 2 ^ 3)
    (w 1%nat / 2 ^ 8 mod 2 ^ 4) (w 1%nat / 2 ^ 13 mod 2 ^ 2) (w 1%nat / 2 ^ 15 mod 2)
  = Gate addr KERNEL_CS 0 0xE 0 1.
Proof.
  intros Ha w. set (lo := addr mod 2 ^ 16). set (mid := addr / 2 ^ 16 mod 2 ^ 16). set (hi := addr / 2 ^ 32).
  pose proof (Z.mod_pos_bound addr (2 ^ 16) ltac:(lia)) as Hlo. fold lo in Hlo.
  pose proof (Z.mod_pos_bound (addr / 2 ^ 16) (2 ^ 16) ltac:(lia)) as Hmid. fold mid in Hmid.
  assert (addr = lo + 2 ^ 16 * mid + 2 ^ 32 * hi) as Eaddr.
  { unfold lo, mid, hi. change (2 ^ 32) with (2 ^ 16 * 2 ^ 16). rewrite <- Z.div_div by lia.
    pose proof (Z.div_mod addr (2 ^ 16)). pose proof (Z.div_mod (addr / 2 ^ 16) (2 ^ 16)). lia. }
  assert (0 ≤ hi < 2 ^ 32) as Hhi by (split; [apply Z.div_pos; lia|apply Z.div_lt_upper_bound; lia]).
  assert (w 0%nat = lo + 2 ^ 16 * KERNEL_CS) as E0.
  { unfold w, gate_word. change 0xFFFF with (Z.ones 16). rewrite Z.land_ones by lia. fold lo.
    rewrite (lor_low lo _ 16) by (lia || done). change (Z.shiftl KERNEL_CS 16) with (2 ^ 16 * KERNEL_CS). change KERNEL_CS with 8. apply wrap_small. lia. }
  assert (w 1%nat = 0x8E00 + 2 ^ 16 * mid) as E1.
  { unfold w, gate_word. change (Z.shiftl (Z.land 0 3) 13) with 0. rewrite Z.lor_0_r, Z.lor_comm.
    assert (Z.land addr 0xFFFF0000 = 2 ^ 16 * mid) as ->.
    { change 0xFFFF0000 with (Z.shiftl (Z.ones 16) 16).
      apply Z.bits_inj'. intros i Hi. rewrite Z.land_spec, Z.shiftl_spec by lia.
      rewrite Z.mul_comm, <- Z.shiftl_mul_pow2, Z.shiftl_spec by lia. unfold mid.
      destruct (Z_lt_le_dec i 16). { rewrite !(Z.testbit_neg_r _ (i - 16)) by lia. by rewrite andb_false_r. }
      rewrite <- Z.land_ones, Z.land_spec, <- Z.shiftr_div_pow2, Z.shiftr_spec by lia. do 2 f_equal. lia. }
    rewrite (lor_low _ _ 16); [|lia|lia|by rewrite Z.mul_comm, Z.mod_mul]. rewrite wrap_small; lia. }
  assert (w 2%nat = hi) as E2.
  { unfold w, gate_word. rewrite Z.shiftr_div_pow2 by lia. fold hi. apply wrap_small. lia. }
  rewrite E0, E1, E2, (Z.mul_comm (2 ^ 16) KERNEL_CS), (Z.mul_comm (2 ^ 16) mid).
  rewrite Z.mod_add, Z.mod_small, !Z.div_add, !Z.div_small by lia. f_equal; [lia|..].
  - change (2 ^ 16) with (2 ^ 13 * 2 ^ 3). rewrite Z.mul_assoc, Z.mod_add by lia. done.
  - change (2 ^ 16) with (2 ^ 8 * 2 ^ 8). rewrite Z.mul_assoc, Z.div_add by lia.
    change (2 ^ 8) with (2 ^ 4 * 2 ^ 4). rewrite Z.mul_assoc, Z.mod_add by lia. done.
  - change (2 ^ 16) with (2 ^ 3 * 2 ^ 13). rewrite Z.mul_assoc, Z.div_add by lia.
    change (2 ^ 3) with (2 * 2 ^ 2). rewrite Z.mul_assoc, Z.mod_add by lia. done.
  - change (2 ^ 16) with (2 * 2 ^ 15). rewrite Z.mul_assoc, Z.div_add by lia. by rewrite Z.mod_add by lia.
Qed.

(** ** Segments *)


(** The two halves of the descriptor of a task state at [addr]. *)
Definition tss_lo (addr : Z) : Z := pack (desc_fields (SEG STS_T64A 0xb addr 0 DPL_USER 0)).
Definition tss_hi (addr : Z) : Z := pack (desc_fields (SEG 0 (Z.shiftr addr 32) (Z.shiftr addr 48) 0 0 0)).

Lemma tss_decode addr :
  0 ≤ addr < 2 ^ 64 →
  tss_lo addr / 2 ^ 16 mod 2 ^ 24 + 2 ^ 24 * (tss_lo addr / 2 ^ 56) + 2 ^ 32 * (tss_hi addr mod 2 ^ 32) = addr ∧
  0 ≤ tss_lo addr < 2 ^ 64 ∧ 0 ≤ tss_hi addr < 2 ^ 64.
Proof.
  intros Ha. set (b0 := addr mod 2 ^ 16). set (b16 := addr / 2 ^ 16 mod 2 ^ 8). set (b24 := addr / 2 ^ 24 mod 2 ^ 8).
  set (b32 := addr / 2 ^ 32 mod 2 ^ 16). set (b48 := addr / 2 ^ 48).
  pose proof (Z.mod_pos_bound addr (2 ^ 16) ltac:(lia)) as H0. fold b0 in H0.
  pose proof (Z.mod_pos_bound (addr / 2 ^ 16) (2 ^ 8) ltac:(lia)) as H16. fold b16 in H16.
  pose proof (Z.mod_pos_bound (addr / 2 ^ 24) (2 ^ 8) ltac:(lia)) as H24. fold b24 in H24.
  pose proof (Z.mod_pos_bound (addr / 2 ^ 32) (2 ^ 16) ltac:(lia)) as H32. fold b32 in H32.
  assert (0 ≤ b48 < 2 ^ 16) as H48 by (split; [apply Z.div_pos; lia|apply Z.div_lt_upper_bound; lia]).
  assert (addr = b0 + 2 ^ 16 * b16 + 2 ^ 24 * b24 + 2 ^ 32 * b32 + 2 ^ 48 * b48) as E.
  { pose proof (Z.div_mod addr (2 ^ 16) ltac:(lia)). pose proof (Z.div_mod (addr / 2 ^ 16) (2 ^ 8) ltac:(lia)).
    pose proof (Z.div_mod (addr / 2 ^ 24) (2 ^ 8) ltac:(lia)). pose proof (Z.div_mod (addr / 2 ^ 32) (2 ^ 16) ltac:(lia)).
    rewrite !Z.div_div in * by lia. change (2 ^ 16 * 2 ^ 8) with (2 ^ 24) in *. change (2 ^ 24 * 2 ^ 8) with (2 ^ 32) in *.
    change (2 ^ 32 * 2 ^ 16) with (2 ^ 48) in *. lia. }
  assert (∀ x n, 0 ≤ n → wrap n (Z.land x (Z.ones n)) = x mod 2 ^ n) as Hland.
  { intros x n Hn. rewrite Z.land_ones by done. unfold wrap. by rewrite Z.mod_mod by lia. }
  assert (u32 addr mod 2 ^ 16 = b0) as Eb0.
  { unfold wrap. symmetry. unfold b0. apply Znumtheory.Zmod_div_mod; [lia|lia|]. by exists (2 ^ 16). }
  assert (tss_lo addr = 0xb + 2 ^ 16 * b0 + 2 ^ 32 * b16 + 2 ^ 40 * 0x80E9 + 2 ^ 56 * b24) as Elo.
  { unfold tss_lo, desc_fields, SEG. cbn [pack lim_15_0 base_15_0 base_23_16 sd_type sd_s sd_dpl sd_p lim_19_16 sd_avl sd_rsv1 sd_db sd_g base_31_24].
    change 0xffff with (Z.ones 16). change 0xff with (Z.ones 8). rewrite !Hland, Eb0, !Z.shiftr_div_pow2 by lia.
    fold b16. unfold wrap. fold b24. change (0xb / 2 ^ 60) with 0. unfold STS_T64A, DPL_USER. rewrite !Z.mod_small by lia. lia. }
  assert (tss_hi addr = b32 + 2 ^ 16 * b48 + 2 ^ 40 * 0x8080) as Ehi.
  { unfold tss_hi, desc_fields, SEG. cbn [pack lim_15_0 base_15_0 base_23_16 sd_type sd_s sd_dpl sd_p lim_19_16 sd_avl sd_rsv1 sd_db sd_g base_31_24].
    change 0xffff with (Z.ones 16). change 0xff with (Z.ones 8). rewrite !Hland, !Z.shiftr_div_pow2 by lia.
    fold b32 b48. rewrite (wrap_small 32 b48), (Z.mod_small b48) by lia. rewrite !Z.div_small by
      (lia || (split; [apply Z.div_pos; lia|apply Z.div_lt_upper_bound; lia])). unfold wrap. rewrite !Z.mod_small by lia. lia. }
  split; [|lia].
  assert (tss_lo addr / 2 ^ 16 = b0 + 2 ^ 16 * b16 + 2 ^ 24 * (0x80E9 + 2 ^ 16 * b24)) as ->.
  { rewrite Elo. symmetry. apply (Z.div_unique_pos _ _ _ 0xb); lia. }
  assert (tss_lo addr / 2 ^ 56 = b24) as ->.
  { rewrite Elo. symmetry. apply (Z.div_unique_pos _ _ _ (0xb + 2 ^ 16 * b0 + 2 ^ 32 * b16 + 2 ^ 40 * 0x80E9)); lia. }
  assert (tss_hi addr mod 2 ^ 32 = b32 + 2 ^ 16 * b48) as ->.
  { rewrite Ehi. symmetry. apply (Z.mod_unique_pos _ _ (2 ^ 8 * 0x8080)); lia. }
  rewrite (Z.mul_comm (2 ^ 24) (_ + _)), Z.mod_add, Z.mod_small by lia. lia.
Qed.

(** The descriptors that seginit writes, with their indices. *)
Definition descriptors (tss : Z) : list (Z * segdesc) :=
  [(0, null_desc); (SEG_KCODE, SEG (Z.lor STA_X STA_R) 0 0 APP_SEG 0 1); (SEG_KDATA, SEG STA_W 0 0 APP_SEG 0 0);
   (SEG_UCODE32, null_desc); (SEG_UDATA, SEG STA_W 0 0 APP_SEG DPL_USER 0);
   (SEG_UCODE, SEG (Z.lor STA_X STA_R) 0 0 APP_SEG DPL_USER 1); (SEG_KCPU, null_desc);
   (SEG_TSS, SEG STS_T64A 0xb tss 0 DPL_USER 0);
   (SEG_TSS + 1, SEG 0 (Z.shiftr tss 32) (Z.shiftr tss 48) 0 0 0)].
Fixpoint set_descs (gdt : Z) (ds : list (Z * segdesc)) : MC unit :=
  match ds with [] => mret tt | (i, d) :: ds => set_desc gdt i d;; set_descs gdt ds end.

Definition desc_value (d : segdesc) : Z := pack (desc_fields d).

Lemma set_descs_run b ds pg (s : processor) :
  good b → is_page pg → Forall (λ x, 0 ≤ x.1 < 9 ∧ 0 ≤ desc_value x.2 < 2 ^ 64) ds → NoDup ds.*1 →
  ∃ pg', set_descs b ds (set_pr_mem (put_page (pr_mem s) b pg) s) = Ok tt (set_pr_mem (put_page (pr_mem s) b pg') s) ∧
    is_page pg' ∧ (∀ i d, (i, d) ∈ ds → get_le 8 (Z.to_nat (8 * i)) pg' = desc_value d) ∧
    (∀ n off, (72 ≤ off)%nat → (off + n ≤ 4096)%nat → get_le n off pg' = get_le n off pg) ∧
    ∀ i, 0 ≤ i < 9 → i ∉ ds.*1 → get_le 8 (Z.to_nat (8 * i)) pg' = get_le 8 (Z.to_nat (8 * i)) pg.
Proof.
  revert pg. induction ds as [|[i d] ds IH]; intros pg Hb Hpg Hall Hnd; cbn [set_descs].
  { exists pg. split; [done|]. split; [done|]. split; [intros ? ? ?%elem_of_nil; done|done]. }
  apply list.Forall_cons in Hall as [[Hi Hd] Hall]. cbn [fmap list_fmap fst snd] in *.
  apply list.NoDup_cons in Hnd as [Hni Hnd].
  assert (entry_addr b i = b + 8 * i) as Ea.
  { unfold entry_addr. apply wrap_small. destruct Hb as (_ & Hk & Hlt). unfold KERNBASE, PHYSTOP in *. lia. }
  destruct Hpg as [Hl Hby].
  pose proof (store_run64 b (8 * i) (desc_value d) pg (pr_mem s) Hb Hl ltac:(lia) ltac:(unfold PGSIZE; lia)) as Hst.
  set (pg1 := put_le 8 (Z.to_nat (8 * i)) (desc_value d) pg) in *.
  assert (set_desc b i d (set_pr_mem (put_page (pr_mem s) b pg) s) = Ok tt (set_pr_mem (put_page (pr_mem s) b pg1) s)) as R1.
  { unfold set_desc, zoom. cbn [view over mem_lens pr_mem set_pr_mem]. fold (desc_value d). by rewrite Ea, Hst. }
  rewrite (bind_run _ _ _ _ _ R1). change (Z.to_nat PGSIZE) with 4096%nat in Hl.
  assert (is_page pg1) as Hpg1 by (apply put_le_page; [unfold PGSIZE; lia|by split]).
  destruct (IH pg1 Hb Hpg1 Hall Hnd) as (pg' & -> & Hpg' & Hin & Hout & Hother). exists pg'. split; [done|].
  split; [done|]. split_and!.
  - intros i' d' [[= -> ->]|Hin']%elem_of_cons; [|by apply Hin]. rewrite Hother by (done || lia).
    unfold pg1. rewrite get_put_le_same by lia. by apply Z.mod_small.
  - intros n off Ho Ho'. rewrite Hout by done. unfold pg1. apply get_put_le_other; lia.
  - intros j Hj [Hji Hn]%not_elem_of_cons. rewrite Hother by done. unfold pg1. apply get_put_le_other; lia.
Qed.

Lemma put_same s b pg : km_mem s !! page_of b = Some pg → put_page s b pg = s.
Proof. intros E. unfold put_page. rewrite insert_id by done. by destruct s. Qed.

(** The local page of a CPU is set up, and its registers point to it. *)
Record local_ok (me : nat) (b : Z) (s : processor) (pg : list Z) : Prop := {
  lo_cpu : this_cpu s = Some me;
  lo_local : locals s !! me = Some b;
  lo_good : good b;
  lo_gdtr : gdtr s = table_operand b 72;
  lo_tr : tr s = 56;
  lo_page : km_mem (pr_mem s) !! page_of b = Some pg;
  lo_is_page : is_page pg;
  lo_descs : ∀ i d, (i, d) ∈ descriptors (b + 1024) → get_le 8 (Z.to_nat (8 * i)) pg = desc_value d;
  lo_iomap : get_le 2 1126 pg = 0;
  lo_cli : ∃ cp, cpus (pr_cpus s) !! me = Some cp ∧ 0 ≤ ncli cp < 2 ^ 31 - 1;
}.

Lemma descriptors_ok b : good b → Forall (λ x, 0 ≤ x.1 < 9 ∧ 0 ≤ desc_value x.2 < 2 ^ 64) (descriptors (b + 1024)).
Proof.
  intros (_ & Hk & Hlt). unfold KERNBASE, PHYSTOP in *.
  destruct (tss_decode (b + 1024)) as (_ & Hlo & Hhi); [lia|].
  unfold descriptors. repeat (apply list.Forall_cons; split; [split; [done|]; first [exact Hlo|exact Hhi|by vm_compute]|]).
  done.
Qed.

Lemma set_descs_then {B} gdt ds (k : MC B) (s : processor) :
  foldr (λ x r, set_desc gdt x.1 x.2;; r) k ds s = (set_descs gdt ds;; k) s.
Proof.
  revert s. induction ds as [|[i d] ds IH]; intros s; [done|]. cbn [foldr set_descs fst snd].
  unfold mbind, M_bind in *. destruct (set_desc gdt i d s) as [[] s1| |]; [|done..]. rewrite IH. done.
Qed.

Lemma seginit_run me l (s : processor) b :
  kmem_inv kend (pr_mem s) (b :: l) → (me < length (locals s))%nat →
  (∃ cp, cpus (pr_cpus s) !! me = Some cp ∧ 0 ≤ ncli cp < 2 ^ 31 - 1) →
  ∃ (s' : processor) pg, seginit me s = Ok tt s' ∧ local_ok me b s' pg ∧ kmem_inv kend (pr_mem s') l ∧
    pr_cpus s' = pr_cpus s ∧ locals s' = <[me := b]> (locals s) ∧ idtr s' = idtr s ∧ cr3 s' = cr3 s.
Proof.
  intros Hi Hme Hcli. destruct (fresh_page _ b l Hi) as (m1 & R1 & R2 & Hg & Hinv).
  pose proof zero_is_page as Hz. unfold seginit.
  rewrite (bind_run _ _ s b (set_pr_mem m1 s)) by (unfold zoom; simpl; by rewrite R1).
  rewrite (bind_run _ _ _ tt (set_pr_mem (put_page m1 b (full_page 0)) s)) by (unfold zoom; simpl; by rewrite R2).
  cbv zeta. replace (b + 1024 + 4 * 16) with (b + 1088) by lia.
  pose proof (store32_run b 1088 0x00680000 (full_page 0) m1 Hg (proj1 Hz) ltac:(lia) ltac:(unfold PGSIZE; lia)) as R3.
  set (pg0 := put_le 4 (Z.to_nat 1088) (u32 0x00680000) (full_page 0)) in *.
  rewrite (bind_run _ _ _ tt (set_pr_mem (put_page m1 b pg0) s)) by (unfold zoom; simpl; by rewrite R3).
  erewrite bind_run by reflexivity. erewrite bind_run by reflexivity.
  assert (is_page pg0) as Hp0 by (apply put_le_page; [unfold PGSIZE; lia|done]).
  set (s2 := set_locals (<[me := b]> (locals s)) (Some me) None
    (set_msr (<[0xC0000100 := u64 (b + 2048)]> (msr s)) (set_pr_mem m1 s))).
  destruct (set_descs_run b (descriptors (b + 1024)) pg0 s2 Hg Hp0 (descriptors_ok b Hg)) as (pg & Rd & Hpg & Hin & Hout & _).
  { by apply (bool_decide_unpack _); vm_compute. }
  change (∃ (s' : processor) pg, foldr (λ x r, set_desc b x.1 x.2;; r) (lgdt b ((NSEGS + 1) * 8);; ltr (Z.shiftl SEG_TSS 3))
    (descriptors (b + 1024)) (set_pr_mem (put_page (pr_mem s2) b pg0) s2) = Ok tt s' ∧
    local_ok me b s' pg ∧ kmem_inv kend (pr_mem s') l ∧
    pr_cpus s' = pr_cpus s ∧ locals s' = <[me := b]> (locals s) ∧ idtr s' = idtr s ∧ cr3 s' = cr3 s).
  rewrite set_descs_then, (bind_run _ _ _ _ _ Rd). eexists _, pg. split; [reflexivity|]. split.
  - split; simpl; [done|by apply list_lookup_insert_eq|done|done|done|by rewrite lookup_insert_eq|done|done| |done].
    rewrite (Hout 2%nat 1126%nat) by lia. unfold pg0. rewrite get_put_le_other; [|rewrite (proj1 Hz); unfold PGSIZE; lia|lia].
    vm_compute. reflexivity.
  - simpl. split; [by apply Hinv|done].
Qed.

Lemma le_dec_app l1 l2 : le_dec (l1 ++ l2) = le_dec l1 + 256 ^ Z.of_nat (length l1) * le_dec l2.
Proof.
  induction l1 as [|x l1 IH]; [simpl; lia|]. cbn [app le_dec length]. rewrite IH, pow256_S. lia.
Qed.
Lemma get_le_split n m off l :
  (off + n ≤ length l)%nat → get_le (n + m) off l = get_le n off l + 256 ^ Z.of_nat n * get_le m (off + n) l.
Proof.
  intros Hl. unfold get_le, sub. rewrite <- take_take_drop, drop_drop, le_dec_app.
  by rewrite length_take, length_drop, Nat.min_l by lia.
Qed.

(** A cpu with its interrupt nesting is as before after pushcli and popcli. *)
Lemma push_pop_run me m cp :
  cpus m !! me = Some cp → 0 ≤ ncli cp < 2 ^ 31 - 1 →
  ∃ m1 m2 cp', pushcli me m = Ok tt m1 ∧ popcli me m1 = Ok tt m2 ∧ cpus m2 !! me = Some cp' ∧ ncli cp' = ncli cp.
Proof.
  intros Hc Hn. pose proof (lookup_lt_Some _ _ _ Hc) as Hlt. pose proof (pushcli_run me m cp Hc Hn) as R1.
  set (cp1 := pushed _ _) in R1. set (m1 := Machine _ _) in R1.
  assert (cpus m1 !! me = Some cp1) as Hc1 by by apply list_lookup_insert_eq.
  assert (enabled (eflags cp1) = false) as He.
  { unfold enabled, cp1, pushed. cbn [eflags]. rewrite <- Z.land_assoc. change (Z.land (Z.lnot FL_IF) FL_IF) with 0.
    by rewrite Z.land_0_r. }
  assert (ncli cp1 = ncli cp + 1) as En by done.
  eexists m1, _, (popped cp1). split; [done|]. split; [by apply (popcli_run me m1 cp1 Hc1 He); lia|].
  split; [apply list_lookup_insert_eq; unfold m1; simpl; by rewrite length_insert|]. unfold popped. cbn [ncli]. lia.
Qed.

Lemma switchuvm_run me b pgdir kstack pg (s : processor) :
  local_ok me b s pg → pgdir ≠ 0 → 0 ≤ kstack → kstack + KSTACKSIZE < 2 ^ 64 →
  ∃ (s' : processor) pg', switchuvm pgdir kstack s = Ok tt s' ∧ local_ok me b s' pg' ∧
    get_le 8 1028 pg' = kstack + KSTACKSIZE ∧ cr3 s' = V2P pgdir.
Proof.
  intros [Ec El Hg Eg Et Ep [Hl Hby] Hd Hio (cp & Hcp & Hn)] Hpd Hk Hk'. unfold switchuvm.
  rewrite (bind_run _ _ s (Some me) s) by (unfold gets; by rewrite Ec). erewrite bind_run by reflexivity.
  destruct (push_pop_run me (pr_cpus s) cp Hcp Hn) as (m1 & m2 & cp' & R1 & R2 & Hcp' & Hn').
  rewrite (bind_run _ _ s tt (set_pr_cpus m1 s)) by (unfold zoom; simpl; by rewrite R1).
  rewrite (proj2 (Z.eqb_neq _ _) Hpd).
  rewrite (bind_run _ _ _ (locals s) (set_pr_cpus m1 s)) by done. rewrite El. erewrite bind_run by reflexivity. cbv zeta.
  set (top := kstack + KSTACKSIZE) in *.
  replace (b + 1024 + 4 * 1) with (b + 1028) by lia. replace (b + 1024 + 4 * 2) with (b + 1032) by lia.
  pose proof (store32_run b 1028 top pg (pr_mem s) Hg Hl ltac:(lia) ltac:(unfold PGSIZE; lia)) as R3.
  rewrite (put_same _ _ _ Ep) in R3. set (pg1 := put_le 4 (Z.to_nat 1028) (u32 top) pg) in *.
  assert (is_page pg1) as [Hl1 Hby1] by (apply put_le_page; [unfold PGSIZE; lia|by split]).
  pose proof (store32_run b 1032 (Z.shiftr top 32) pg1 (pr_mem s) Hg Hl1 ltac:(lia) ltac:(unfold PGSIZE; lia)) as R4.
  set (pg2 := put_le 4 (Z.to_nat 1032) (u32 (Z.shiftr top 32)) pg1) in *.
  assert (is_page pg2) as Hpg2 by (apply put_le_page; [unfold PGSIZE; lia|by split]).
  rewrite (bind_run _ _ _ tt (set_pr_mem (put_page (pr_mem s) b pg1) (set_pr_cpus m1 s))) by (unfold zoom; simpl; by rewrite R3).
  rewrite (bind_run _ _ _ tt (set_pr_mem (put_page (pr_mem s) b pg2) (set_pr_cpus m1 s))) by (unfold zoom; simpl; by rewrite R4).
  erewrite bind_run by reflexivity.
  assert (∀ n off, (off + n ≤ 1028 ∨ 1036 ≤ off)%nat → get_le n off pg2 = get_le n off pg) as Hsame.
  { intros n off Ho. change (Z.to_nat PGSIZE) with 4096%nat in *. unfold pg2.
    rewrite get_put_le_other by (change (Z.to_nat 1032) with 1032%nat; lia). unfold pg1.
    by rewrite get_put_le_other by (change (Z.to_nat 1028) with 1028%nat; lia). }
  eexists (set_pr_cpus m2 (set_cr3 (V2P pgdir) (set_pr_mem (put_page (pr_mem s) b pg2) (set_pr_cpus m1 s)))), pg2.
  split; [unfold zoom; simpl; by rewrite R2|]. split; [|split; [|done]].
  - split; simpl; try done; [by rewrite lookup_insert_eq| | |].
    + intros i d Hin. rewrite Hsame; [by apply Hd|].
      assert (0 ≤ i < 9); [|lia]. pose proof (descriptors_ok b Hg) as Hall. rewrite list.Forall_forall in Hall.
      apply (Hall _ Hin).
    + by rewrite Hsame by lia.
    + exists cp'. split; [done|]. by rewrite Hn'.
  - change (Z.to_nat PGSIZE) with 4096%nat in *. rewrite (get_le_split 4 4) by (rewrite (proj1 Hpg2); unfold PGSIZE; lia).
    change (256 ^ Z.of_nat 4) with (2 ^ 32). unfold pg2.
    change (1028 + 4)%nat with (Z.to_nat 1032). rewrite get_put_le_same by (change (Z.to_nat 1032) with 1032%nat; lia).
    rewrite get_put_le_other by (change (Z.to_nat 1032) with 1032%nat; lia). unfold pg1.
    change 1028%nat with (Z.to_nat 1028) at 1. rewrite get_put_le_same by (change (Z.to_nat 1028) with 1028%nat; lia).
    change (256 ^ Z.of_nat 4) with (2 ^ 32). unfold wrap. rewrite !Z.mod_mod, Z.shiftr_div_pow2 by lia.
    assert (0 ≤ top) by (unfold top, KSTACKSIZE; lia).
    assert (0 ≤ top / 2 ^ 32 < 2 ^ 32) by (split; [apply Z.div_pos; lia|apply Z.div_lt_upper_bound; lia]).
    rewrite (Z.mod_small (top / 2 ^ 32)) by done. pose proof (Z.div_mod top (2 ^ 32) ltac:(lia)). lia.
Qed.

(** * The theorems *)

(** Every interrupt enters its vector in the kernel: after tvinit and idtinit the processor finds in gate [n]
    the address vectors[n] with the code segment of the kernel, as an interrupt gate that is present and that
    user code cannot call. *)
Theorem vectors_entered vectors b l (s : processor) :
  kmem_inv kend (pr_mem s) (b :: l) → (∀ n, 0 ≤ vectors n < 2 ^ 64) →
  ∃ s' : processor, (idt ← zoom mem_lens (tvinit vectors); idtinit idt) s = Ok tt s' ∧ kmem_inv kend (pr_mem s') l ∧
    ∀ n, 0 ≤ n < 256 → gate_of (km_mem (pr_mem s')) (idtr s') n = Some (Gate (vectors n) KERNEL_CS 0 0xE 0 1).
Proof.
  intros Hi Hv. destruct (fresh_page _ b l Hi) as (m1 & R1 & R2 & Hg & Hinv).
  destruct (mkgates_run 256 b 0 vectors (full_page 0) m1 Hg zero_is_page) as (pg & R3 & Hpg & Hw); [lia|lia|].
  assert (tvinit vectors (pr_mem s) = Ok b (put_page m1 b pg)) as R.
  { unfold tvinit. by rewrite (bind_run _ _ _ _ _ R1), (bind_run _ _ _ _ _ R2), (bind_run _ _ _ _ _ R3). }
  rewrite (bind_run _ _ s b (set_pr_mem (put_page m1 b pg) s)) by (unfold zoom; simpl; by rewrite R).
  eexists. split; [reflexivity|]. cbn [pr_mem idtr set_pr_mem set_idtr]. split; [by apply Hinv|]. intros n Hn.
  destruct (good_page_addr kend Hend b Hg) as (_ & _ & _ & _ & Hb).
  unfold gate_of. rewrite table_base_operand by done. destruct Hpg as [Hl _].
  assert (∀ j, (j < 4)%nat → peek_at (km_mem (put_page m1 b pg)) 4 (b + (16 * n + 4 * Z.of_nat j)) = Some (gate_word (vectors n) j)) as Hp.
  { intros j Hj. rewrite peek_page by (done || unfold PGSIZE; lia).
    replace (Z.to_nat (16 * n + 4 * Z.of_nat j)) with (4 * (4 * Z.to_nat n + j))%nat by lia.
    rewrite Hw by lia. by rewrite decide_True by lia. }
  pose proof (Hp 0%nat ltac:(lia)) as P0. pose proof (Hp 1%nat ltac:(lia)) as P1. pose proof (Hp 2%nat ltac:(lia)) as P2.
  rewrite Z.add_assoc in P0, P1, P2. cbv zeta. rewrite Z.add_0_r in P0. change (4 * Z.of_nat 1) with 4 in P1. change (4 * Z.of_nat 2) with 8 in P2. rewrite P0. cbn [mbind option_bind]. rewrite P1. cbn [mbind option_bind]. rewrite P2. cbn [mbind option_bind].
  f_equal. by apply gate_decode.
Qed.

(** the calls of switchuvm on a CPU: a page table and a kernel stack each *)
Fixpoint switches (ps : list (Z * Z)) : MC unit :=
  match ps with [] => mret tt | (pgdir, ks) :: ps => switchuvm pgdir ks;; switches ps end.
Definition switchable (p : Z * Z) : Prop := p.1 ≠ 0 ∧ 0 ≤ p.2 ∧ p.2 + KSTACKSIZE < 2 ^ 64.

Lemma switches_run me b ps pg (s : processor) :
  local_ok me b s pg → Forall switchable ps →
  ∃ (s' : processor) pg', switches ps s = Ok tt s' ∧ local_ok me b s' pg'.
Proof.
  intros Hlo Hps. revert s pg Hlo. induction Hps as [|[pd ks] ps (Hp & Hk & Hk') _ IH]; intros s pg Hlo; cbn [switches].
  { by exists s, pg. }
  destruct (switchuvm_run me b pd ks pg s Hlo Hp Hk Hk') as (s1 & pg1 & R1 & Hlo1 & _).
  rewrite (bind_run _ _ _ _ _ R1). by apply (IH s1 pg1).
Qed.

Lemma local_tss me b pg (s : processor) :
  local_ok me b s pg → tss_of (km_mem (pr_mem s)) (gdtr s) (tr s) = Some (b + 1024) ∧
  (∀ n off, 0 ≤ off → off + Z.of_nat n ≤ PGSIZE → (0 < n)%nat →
     peek_at (km_mem (pr_mem s)) n (b + off) = Some (get_le n (Z.to_nat off) pg)).
Proof.
  intros [_ _ Hg Eg Et Ep [Hl _] Hd _ _]. destruct (good_page_addr kend Hend b Hg) as (_ & _ & _ & _ & Hb).
  assert (∀ n off, 0 ≤ off → off + Z.of_nat n ≤ PGSIZE → (0 < n)%nat →
    peek_at (km_mem (pr_mem s)) n (b + off) = Some (get_le n (Z.to_nat off) pg)) as Hp.
  { intros n off Ho Ho' Hn. rewrite <- (put_same _ _ _ Ep). apply peek_page; (done || lia). }
  split; [|done]. unfold tss_of. rewrite Eg, Et, table_base_operand by done. change (8 * (56 / 8)) with 56.
  replace (b + 56 + 8) with (b + 64) by lia. rewrite !Hp by (lia || (unfold PGSIZE; lia)). cbn [mbind option_bind].
  assert (get_le 8 (Z.to_nat 56) pg = tss_lo (b + 1024)) as -> by (apply (Hd SEG_TSS); unfold descriptors; set_solver).
  assert (get_le 8 (Z.to_nat 64) pg = tss_hi (b + 1024)) as -> by (apply (Hd (SEG_TSS + 1)); unfold descriptors; set_solver).
  f_equal. apply (proj1 (tss_decode (b + 1024) ltac:(destruct Hg as (_ & ? & ?); unfold KERNBASE, PHYSTOP in *; lia))).
Qed.

(** C21. A trap out of a process arrives on its kernel stack: after seginit on a CPU and any calls of switchuvm,
    switchuvm for a process leaves the task register selecting a task state in which the processor finds the top of the
    kernel stack of that process, and its page table in cr3. *)
Theorem trap_stack me ps pgdir kstack b l (s : processor) :
  kmem_inv kend (pr_mem s) (b :: l) → (me < length (locals s))%nat →
  (∃ cp, cpus (pr_cpus s) !! me = Some cp ∧ 0 ≤ ncli cp < 2 ^ 31 - 1) →
  Forall switchable ps → switchable (pgdir, kstack) →
  ∃ (s' : processor) tss, (seginit me;; switches ps;; switchuvm pgdir kstack) s = Ok tt s' ∧
    tss_of (km_mem (pr_mem s')) (gdtr s') (tr s') = Some tss ∧
    rsp0 (km_mem (pr_mem s')) tss = Some (kstack + KSTACKSIZE) ∧ cr3 s' = V2P pgdir.
Proof.
  intros Hi Hme Hcli Hps (Hp & Hk & Hk'). destruct (seginit_run me l s b Hi Hme Hcli) as (s1 & pg1 & R1 & L1 & _).
  rewrite (bind_run _ _ _ _ _ R1). destruct (switches_run me b ps pg1 s1 L1 Hps) as (s2 & pg2 & R2 & L2).
  rewrite (bind_run _ _ _ _ _ R2). destruct (switchuvm_run me b pgdir kstack pg2 s2 L2 Hp Hk Hk') as (s3 & pg3 & -> & L3 & Et & Ec).
  exists s3, (b + 1024). split; [done|]. destruct (local_tss me b pg3 s3 L3) as [Htss Hpeek]. split; [done|].
  split; [|done]. unfold rsp0. replace (b + 1024 + 4) with (b + 1028) by lia.
  rewrite Hpeek by (lia || (unfold PGSIZE; lia)). by rewrite <- Et.
Qed.

(** The map of the ports that user code may use is not where the comment in seginit wants it: the processor finds the
    offset 0, the start of the task state, and not the end of it. *)
Theorem seginit_io_map me b l (s : processor) :
  kmem_inv kend (pr_mem s) (b :: l) → (me < length (locals s))%nat →
  (∃ cp, cpus (pr_cpus s) !! me = Some cp ∧ 0 ≤ ncli cp < 2 ^ 31 - 1) →
  ∃ (s' : processor) tss, seginit me s = Ok tt s' ∧
    tss_of (km_mem (pr_mem s')) (gdtr s') (tr s') = Some tss ∧ io_map_base (km_mem (pr_mem s')) tss = Some 0.
Proof.
  intros Hi Hme Hcli. destruct (seginit_run me l s b Hi Hme Hcli) as (s1 & pg1 & R1 & L1 & _).
  destruct (local_tss me b pg1 s1 L1) as [Htss Hpeek]. exists s1, (b + 1024). split; [done|]. split; [done|].
  unfold io_map_base. replace (b + 1024 + 102) with (b + 1126) by lia. rewrite Hpeek by (lia || (unfold PGSIZE; lia)).
  f_equal. apply (lo_iomap _ _ _ _ L1).
Qed.
End pages.

(** The segments of system calls: the instruction syscall takes the code segment from bits 32 to 47 of STAR and the stack segment
    after it, sysret takes the stack segment 8 and the code segment 16 above bits 48 to 63; these are the kernel's
    and the user's segments. *)
Theorem syscall_segments entry ignore (s : processor) :
  ∃ s' star, syscallinit entry ignore s = Ok tt s' ∧ msr s' !! MSR_STAR = Some star ∧
    star / 2 ^ 32 mod 2 ^ 16 = KERNEL_CS ∧ star / 2 ^ 32 mod 2 ^ 16 + 8 = Z.shiftl SEG_KDATA 3 ∧
    star / 2 ^ 48 + 16 = USER_CS ∧ star / 2 ^ 48 + 8 = USER_DS.
Proof.
  eexists _, _. split; [reflexivity|]. simpl. split; [by rewrite 3!lookup_insert_ne, lookup_insert_eq by done|].
  repeat split; vm_compute; reflexivity.
Qed.

(** * Examples *)

Definition ex_processor (m : kmem) : processor :=
  Processor m (Machine [Cpu 0 0 FL_IF] []) [0] None None ∅ [] [] 0 0.

Lemma ex_memory : ∃ m b l, kmem_inv example_end m (b :: l).
Proof.
  destruct (kinit1_run example_end (proj1 example_end_ok) (Kmem false false 0 ram) example_end (example_end + 40 * 4096))
    as (m & _ & Hinv); [vm_compute; discriminate..| |apply ram_null|].
  { intros v. apply ram_pages, example_end_ok. }
  assert (length (rev (range_pages example_end (example_end + 40 * 4096))) = 40%nat) as Hl by by vm_compute.
  destruct (rev (range_pages example_end (example_end + 40 * 4096))) as [|b l] eqn:E; [done|].
  by exists m, b, l.
Qed.

Lemma vectors_entered_witness :
  ∃ m s', (idt ← zoom mem_lens (tvinit (λ n, KERNBASE + 0x100000 + 16 * (n mod 256))); idtinit idt) (ex_processor m) = Ok tt s' ∧
    gate_of (km_mem (pr_mem s')) (idtr s') 64 = Some (Gate (KERNBASE + 0x100400) KERNEL_CS 0 0xE 0 1).
Proof.
  destruct ex_memory as (m & b & l & Hi). exists m.
  destruct (vectors_entered example_end (proj1 example_end_ok) (λ n, KERNBASE + 0x100000 + 16 * (n mod 256)) b l (ex_processor m) Hi)
    as (s' & Hrun & _ & Hg).
  { intros n. pose proof (Z.mod_pos_bound n 256 ltac:(lia)). unfold KERNBASE. lia. }
  exists s'. split; [exact Hrun|]. apply (Hg 64). lia.
Defined.

Lemma trap_stack_witness :
  ∃ m s' tss, (seginit 0;; switches [(4096, KERNBASE)];; switchuvm (KERNBASE + 8192) (KERNBASE + 4096)) (ex_processor m) = Ok tt s' ∧
    tss_of (km_mem (pr_mem s')) (gdtr s') (tr s') = Some tss ∧
    rsp0 (km_mem (pr_mem s')) tss = Some (KERNBASE + 8192) ∧ cr3 s' = 8192.
Proof.
  destruct ex_memory as (m & b & l & Hi). exists m.
  destruct (trap_stack example_end (proj1 example_end_ok) 0 [(4096, KERNBASE)] (KERNBASE + 8192) (KERNBASE + 4096) b l
    (ex_processor m) Hi) as (s' & tss & H1 & H2 & H3 & H4).
  - simpl. lia.
  - exists (Cpu 0 0 FL_IF). split; [reflexivity|simpl; lia].
  - repeat constructor; vm_compute; discriminate.
  - repeat split; vm_compute; discriminate.
  - exists s', tss. split; [exact H1|]. split; [exact H2|]. split; [exact H3|]. rewrite H4. reflexivity.
Defined.
