(* ===== verification/Kstring.v ===== *)
(** The kernel's memory and string routines (src/string.c).

    The mem* functions work on a memory of bytes at addresses, because their
    ranges may overlap; an access outside the memory is undefined.  The str*
    functions work on the arrays behind their pointers (the bytes from the
    pointer to the end of the object); reading or writing past the end of the
    object gives [None]. *)

From S2P Require Import Prelude Bytes.

Abbreviation mem := (gmap Z Z).

Definition ld (a : Z) : M mem Z := m ← gets id; the "load" (m !! a).
Definition st (a v : Z) : M mem unit :=
  m ← gets id; if decide (is_Some (m !! a)) then modify (<[a := u8 v]>) else undefined "store".

(** * The mem* functions *)

(** rep stosb: [cnt] bytes from [a] on *)
Fixpoint stosb (a data : Z) (cnt : nat) : M mem unit :=
  match cnt with
  | O => mret tt
  | S cnt => st a data;; stosb (a + 1) data cnt
  end.

(** rep stosl: [cnt] 32-bit words, little-endian *)
Fixpoint stosl (a data : Z) (cnt : nat) : M mem unit :=
  match cnt with
  | O => mret tt
  | S cnt =>
      st a data;; st (a + 1) (Z.shiftr data 8);; st (a + 2) (Z.shiftr data 16);;
      st (a + 3) (Z.shiftr data 24);; stosl (a + 4) data cnt
  end.

(** The counts are converted to int by the calls of stosl and stosb. *)
Definition memset (dst c n : Z) : M mem Z :=
  (if (dst mod 4 =? 0) && (n mod 4 =? 0) then
     let c := Z.land c 0xFF in
     stosl dst (Z.lor (Z.lor (Z.lor (Z.shiftl c 24) (Z.shiftl c 16)) (Z.shiftl c 8)) c)
       (Z.to_nat (u32 (n / 4)))
   else stosb dst c (Z.to_nat (u32 n)));;
  mret dst.

Fixpoint memcmp (s1 s2 : Z) (n : nat) : M mem Z :=
  match n with
  | O => mret 0
  | S n =>
      x ← ld s1; y ← ld s2;
      if negb (x =? y) then mret (x - y) else memcmp (s1 + 1) (s2 + 1) n
  end.

(** while(n-- > 0) *--d = *--s; *)
Fixpoint move_down (d s : Z) (n : nat) : M mem unit :=
  match n with
  | O => mret tt
  | S n => x ← ld (s - 1); st (d - 1) x;; move_down (d - 1) (s - 1) n
  end.

(** while(n-- > 0) *d++ = *s++; *)
Fixpoint move_up (d s : Z) (n : nat) : M mem unit :=
  match n with
  | O => mret tt
  | S n => x ← ld s; st d x;; move_up (d + 1) (s + 1) n
  end.

Definition memmove (dst src n : Z) : M mem Z :=
  (if (src <? dst) && (dst <? src + n)
   then move_down (dst + n) (src + n) (Z.to_nat n)
   else move_up dst src (Z.to_nat n));;
  mret dst.

Definition memcpy (dst src n : Z) : M mem Z := memmove dst src n.

(** * The str* functions *)

Fixpoint strncmp (p q : list Z) (n : nat) {struct n} : option Z :=
  match n with
  | O => Some 0
  | S n =>
      match p, q with
      | x :: p, y :: q =>
          if negb (x =? 0) && (x =? y) then strncmp p q n else Some (x - y)
      | _, _ => None
      end
  end.

(** The second loop of strncpy: n zeros over the start of [s]. *)
Fixpoint zero_fill (s : list Z) (n : nat) {struct n} : option (list Z) :=
  match n, s with
  | O, _ => Some s
  | S n, _ :: s => cons 0 <$> zero_fill s n
  | S _, [] => None
  end.

Fixpoint strncpy (s t : list Z) (n : nat) {struct n} : option (list Z) :=
  match n with
  | O => Some s
  | S n =>
      match s, t with
      | _ :: s, c :: t => cons c <$> (if c =? 0 then zero_fill s n else strncpy s t n)
      | _, _ => None
      end
  end.

(** The loop of safestrcpy and the store after it; [n] is the count left
    after the decrement of the loop's test. *)
Fixpoint safestrcpy_loop (s t : list Z) (n : nat) {struct n} : option (list Z) :=
  match n with
  | O => match s with _ :: s => Some (0 :: s) | [] => None end
  | S n =>
      match s, t with
      | _ :: s, c :: t =>
          cons c <$> (if c =? 0 then match s with _ :: s => Some (0 :: s) | [] => None end
                      else safestrcpy_loop s t n)
      | _, _ => None
      end
  end.
Definition safestrcpy (s t : list Z) (n : Z) : option (list Z) :=
  if n <=? 0 then Some s else safestrcpy_loop s t (Z.to_nat (n - 1)).

Fixpoint strlen (s : list Z) : option Z :=
  match s with
  | [] => None
  | c :: s => if c =? 0 then Some 0 else Z.succ <$> strlen s
  end.

(** * Properties *)

Section Mem.
Implicit Types (m : mem) (a d s n x : Z) (k : nat).

(** [n] bytes of memory from [a] on *)
Definition mapped m a n : Prop := ∀ x, a ≤ x < a + n → is_Some (m !! x).
Definition mem_bytes m : Prop := map_Forall (λ _, is_byte) m.

Lemma st_run m a v : is_Some (m !! a) → st a v m = Ok tt (<[a := u8 v]> m).
Proof. intros Ha. unfold st, mbind, M_bind, gets. simpl. by rewrite decide_True. Qed.

Lemma ld_run m a v : m !! a = Some v → ld a m = Ok v m.
Proof. intros Ha. unfold ld, mbind, M_bind, gets. simpl. unfold id. by rewrite Ha. Qed.

Lemma u8_byte v : is_byte v → u8 v = v.
Proof. intros Hv. by apply (wrap_small 8 v). Qed.

Lemma is_some_insert m a v x : is_Some (m !! x) → is_Some (<[a := v]> m !! x).
Proof. intros. apply lookup_insert_is_Some. destruct (decide (a = x)); auto. Qed.

(** One byte of a copy. *)
Lemma copy_step m d s :
  mem_bytes m → is_Some (m !! s) → is_Some (m !! d) →
  ∃ v, m !! s = Some v ∧ mem_bytes (<[d := v]> m) ∧
    ∀ (k : M mem unit), (x ← ld s; st d x;; k) m = k (<[d := v]> m).
Proof.
  intros Hb [v Hv] Hd. exists v. pose proof (Hb _ _ Hv) as Hbv.
  split_and!; [done|by apply map_Forall_insert_2|]. intros k.
  rewrite (bind_run _ _ _ _ _ (ld_run _ _ _ Hv)), (bind_run _ _ _ _ _ (st_run _ _ _ Hd)).
  by rewrite u8_byte.
Qed.

(** The contents after a copy of [n] bytes from [s] to [d]. *)
Definition copied m d s n m' : Prop :=
  ∀ x, m' !! x = if decide (d ≤ x < d + n) then m !! (s + (x - d)) else m !! x.

Lemma move_up_run k d s m :
  mem_bytes m → mapped m s (Z.of_nat k) → mapped m d (Z.of_nat k) →
  d ≤ s ∨ s + Z.of_nat k ≤ d →
  ∃ m', move_up d s k m = Ok tt m' ∧ copied m d s (Z.of_nat k) m'.
Proof.
  revert d s m. induction k as [|k IH]; intros d s m Hb Hs Hd Ho.
  { exists m. split; [done|]. intros x. by rewrite decide_False by lia. }
  destruct (copy_step m d s Hb) as (v&Hv&Hb'&Hrun); [apply Hs; lia|apply Hd; lia|].
  cbn [move_up]. rewrite Hrun.
  destruct (IH (d + 1) (s + 1) (<[d := v]> m)) as (m'&Hm'&Hc); [done|..|lia|].
  - intros x Hx. apply is_some_insert, Hs. lia.
  - intros x Hx. apply is_some_insert, Hd. lia.
  - exists m'. split; [done|]. intros x. rewrite Hc.
    destruct (decide (x = d)) as [->|Hxd].
    + rewrite decide_False, decide_True by lia. rewrite lookup_insert_eq. rewrite <- Hv. f_equal. lia.
    + case_decide as H1; rewrite lookup_insert_ne by lia.
      * rewrite decide_True by lia. f_equal. lia.
      * by rewrite decide_False by lia.
Qed.

Lemma move_down_run k d s m :
  mem_bytes m → mapped m (s - Z.of_nat k) (Z.of_nat k) → mapped m (d - Z.of_nat k) (Z.of_nat k) →
  s ≤ d →
  ∃ m', move_down d s k m = Ok tt m' ∧
    copied m (d - Z.of_nat k) (s - Z.of_nat k) (Z.of_nat k) m'.
Proof.
  revert d s m. induction k as [|k IH]; intros d s m Hb Hs Hd Ho.
  { exists m. split; [done|]. intros x. by rewrite decide_False by lia. }
  destruct (copy_step m (d - 1) (s - 1) Hb) as (v&Hv&Hb'&Hrun); [apply Hs; lia|apply Hd; lia|].
  cbn [move_down]. rewrite Hrun.
  destruct (IH (d - 1) (s - 1) (<[d - 1 := v]> m)) as (m'&Hm'&Hc); [done|..|lia|].
  - intros x Hx. apply is_some_insert, Hs. lia.
  - intros x Hx. apply is_some_insert, Hd. lia.
  - exists m'. split; [done|]. intros x. rewrite Hc.
    destruct (decide (x = d - 1)) as [->|Hxd].
    + rewrite decide_False, decide_True by lia. rewrite lookup_insert_eq. rewrite <- Hv. f_equal. lia.
    + case_decide as H1; rewrite lookup_insert_ne by lia.
      * rewrite decide_True by lia. f_equal. lia.
      * by rewrite decide_False by lia.
Qed.

Lemma stosb_run k d c m :
  mapped m d (Z.of_nat k) →
  ∃ m', stosb d c k m = Ok tt m' ∧
    ∀ x, m' !! x = if decide (d ≤ x < d + Z.of_nat k) then Some (u8 c) else m !! x.
Proof.
  revert d m. induction k as [|k IH]; intros d m Hd.
  { exists m. split; [done|]. intros x. by rewrite decide_False by lia. }
  cbn [stosb]. erewrite bind_run by (apply st_run, Hd; lia).
  destruct (IH (d + 1) (<[d := u8 c]> m)) as (m'&Hm'&Hc).
  { intros x Hx. apply is_some_insert, Hd. lia. }
  exists m'. split; [done|]. intros x. rewrite Hc.
  destruct (decide (x = d)) as [->|Hxd].
  - rewrite decide_False, decide_True by lia. apply lookup_insert_eq.
  - rewrite lookup_insert_ne by lia. repeat case_decide; try done; lia.
Qed.

(** The four bytes of the word that memset stores. *)
Definition fill_word (c : Z) : Z :=
  Z.lor (Z.lor (Z.lor (Z.shiftl c 24) (Z.shiftl c 16)) (Z.shiftl c 8)) c.

Lemma fill_word_byte c i :
  is_byte c → (i < 4)%nat → u8 (Z.shiftr (fill_word c) (8 * Z.of_nat i)) = c.
Proof.
  intros Hc Hi. unfold wrap. rewrite <- Z.land_ones by lia. unfold is_byte in Hc.
  assert (∀ j, 8 ≤ j → Z.testbit c j = false) as Hhi.
  { intros j Hj. rewrite <- (Z.mod_small c (2 ^ 8)) by lia. apply Z.mod_pow2_bits_high. lia. }
  apply Z.bits_inj'. intros j Hj.
  rewrite Z.land_spec, Z.shiftr_spec by lia. unfold fill_word.
  rewrite !Z.lor_spec, !Z.shiftl_spec by lia. rewrite Z.testbit_ones_nonneg by lia.
  destruct (Z.ltb_spec j 8); rewrite ?andb_true_r, ?andb_false_r; [|by rewrite Hhi].
  assert (∀ j, j < 0 → Z.testbit c j = false) as Hlo by apply Z.testbit_neg_r.
  destruct i as [|[|[|[|]]]]; [..|lia]; simpl Z.mul.
  - rewrite (Hlo (_ - 24)), (Hlo (_ - 16)), (Hlo (_ - 8)) by lia. simpl. f_equal. lia.
  - rewrite (Hlo (_ - 24)), (Hlo (_ - 16)), (Hhi (_ + 8)) by lia. rewrite orb_false_r. simpl. f_equal. lia.
  - rewrite (Hlo (_ - 24)), (Hhi (_ - 8)), (Hhi (_ + 16)) by lia. rewrite !orb_false_r. simpl. f_equal. lia.
  - rewrite (Hhi (_ - 16)), (Hhi (_ - 8)), (Hhi (_ + 24)) by lia. rewrite !orb_false_r. f_equal. lia.
Qed.

Lemma stosl_run k d c m :
  is_byte c → mapped m d (4 * Z.of_nat k) →
  ∃ m', stosl d (fill_word c) k m = Ok tt m' ∧
    ∀ x, m' !! x = if decide (d ≤ x < d + 4 * Z.of_nat k) then Some c else m !! x.
Proof.
  intros Hc. revert d m. induction k as [|k IH]; intros d m Hd.
  { exists m. split; [done|]. intros x. by rewrite decide_False by lia. }
  pose proof (fill_word_byte c 0 Hc ltac:(lia)) as E0. pose proof (fill_word_byte c 1 Hc ltac:(lia)) as E1.
  pose proof (fill_word_byte c 2 Hc ltac:(lia)) as E2. pose proof (fill_word_byte c 3 Hc ltac:(lia)) as E3.
  change (8 * Z.of_nat 0) with 0 in E0. change (8 * Z.of_nat 1) with 8 in E1.
  change (8 * Z.of_nat 2) with 16 in E2. change (8 * Z.of_nat 3) with 24 in E3.
  rewrite Z.shiftr_0_r in E0.
  cbn [stosl].
  do 4 (erewrite bind_run by (apply st_run; repeat apply is_some_insert; apply Hd; lia)).
  rewrite E0, E1, E2, E3.
  destruct (IH (d + 4) (<[d + 3 := c]> (<[d + 2 := c]> (<[d + 1 := c]> (<[d := c]> m))))) as (m'&Hm'&Hl).
  { intros x Hx. repeat apply is_some_insert. apply Hd. lia. }
  exists m'. split; [done|]. intros x. rewrite Hl.
  destruct (decide (d ≤ x < d + 4)) as [Hx|Hx].
  - rewrite decide_False, decide_True by lia. rewrite !lookup_insert.
    repeat case_decide; try done; lia.
  - rewrite !lookup_insert_ne by lia. repeat case_decide; try done; lia.
Qed.
End Mem.

Section Str.
Implicit Types (s t p q l : list Z) (n : nat).

(** The C string in the first [n] bytes: what precedes the first NUL. *)
Fixpoint cut n l : list Z :=
  match n, l with
  | S n, x :: l => if x =? 0 then [] else x :: cut n l
  | _, _ => []
  end.

(** A pointer from which [n] bytes, or all bytes up to a NUL, may be read. *)
Definition readable n l : Prop := (n ≤ length l)%nat ∨ 0 ∈ l.

Lemma readable_cons n x l : readable (S n) (x :: l) → x ≠ 0 → readable n l.
Proof. intros [?|?] ?; [left; simpl in *; lia|right]. set_solver. Qed.

Lemma readable_nil n : ¬ readable (S n) [].
Proof. intros [?|?]; [simpl in *; lia|set_solver]. Qed.

Lemma length_cut n l : (length (cut n l) ≤ n)%nat.
Proof. revert l. induction n; intros [|x l]; simpl; try lia. case_match; simpl; [lia|]. specialize (IHn l). lia. Qed.

Lemma cut_nonzero n l : 0 ∉ cut n l.
Proof.
  revert l. induction n; intros [|x l]; simpl; try apply not_elem_of_nil.
  destruct (Z.eqb_spec x 0); [apply not_elem_of_nil|]. apply not_elem_of_cons. auto.
Qed.

Lemma strncmp_run n p q :
  readable n p → readable n q →
  ∃ r, strncmp p q n = Some r ∧ (r = 0 ↔ cut n p = cut n q).
Proof.
  revert p q. induction n as [|n IH]; intros p q Hp Hq; [by exists 0|].
  destruct p as [|x p]; [by apply readable_nil in Hp|].
  destruct q as [|y q]; [by apply readable_nil in Hq|].
  simpl. destruct (Z.eqb_spec x 0) as [->|Hx]; simpl.
  - eexists. split; [done|]. destruct (Z.eqb_spec y 0); split; try done; lia.
  - destruct (Z.eqb_spec x y) as [->|Hxy].
    + destruct (IH p q) as (r&->&Hr); [by eapply readable_cons..|]. exists r. split; [done|].
      rewrite Hr, (proj2 (Z.eqb_neq y 0)) by done. split; [by intros ->|congruence].
    + eexists. split; [done|]. split; [lia|]. case_match; [done|]. by intros [= ->].
Qed.

Lemma zero_fill_run n s : (n ≤ length s)%nat → zero_fill s n = Some (replicate n 0 ++ drop n s).
Proof.
  revert s. induction n as [|n IH]; intros [|x s] Hl; simpl in *; try done; [lia|].
  by rewrite IH by lia.
Qed.

Lemma strncpy_run n s t :
  (n ≤ length s)%nat → readable n t →
  strncpy s t n = Some (cut n t ++ replicate (n - length (cut n t)) 0 ++ drop n s).
Proof.
  revert s t. induction n as [|n IH]; intros s t Hs Ht; [done|].
  destruct s as [|x s]; [simpl in *; lia|].
  destruct t as [|y t]; [by apply readable_nil in Ht|]. simpl in *.
  destruct (Z.eqb_spec y 0) as [->|Hy]; simpl.
  - by rewrite zero_fill_run by lia.
  - rewrite IH; [done|lia|]. by eapply readable_cons.
Qed.

Lemma safestrcpy_loop_run n s t :
  (n < length s)%nat → readable n t →
  ∃ l, safestrcpy_loop s t n = Some l ∧ length l = length s ∧
    cut (S n) l = cut n t ∧ 0 ∈ take (S n) l ∧ drop (S n) l = drop (S n) s.
Proof.
  revert s t. induction n as [|n IH]; intros s t Hs Ht.
  - destruct s as [|x s]; [simpl in *; lia|]. eexists. split; [done|].
    split_and!; try done. simpl. apply list_elem_of_here.
  - destruct s as [|x s]; [simpl in *; lia|].
    destruct t as [|y t]; [by apply readable_nil in Ht|]. simpl in *.
    destruct (Z.eqb_spec y 0) as [->|Hy].
    + destruct s as [|z s]; [simpl in *; lia|]. simpl in *.
      eexists. split; [done|]. split_and!; try done. apply list_elem_of_here.
    + destruct (IH s t) as (l&->&Hl&Hc&Hz&Hd); [lia|by eapply readable_cons|].
      eexists. split; [done|]. simpl in *. rewrite Hl. split_and!; try done.
      * rewrite (proj2 (Z.eqb_neq y 0)) by done. by rewrite Hc.
      * by apply list_elem_of_further.
Qed.

(** Copying a name into a directory entry keeps it. *)
Lemma cut_app_zeros n k l s :
  0 ∉ l → (length l + k)%nat = n → cut n (l ++ replicate k 0 ++ s) = l.
Proof.
  revert n. induction l as [|x l IH]; intros n Hl Hn; simpl in *.
  - rewrite <- Hn. by destruct k.
  - apply not_elem_of_cons in Hl as [? ?]. destruct n; [lia|]. simpl.
    rewrite (proj2 (Z.eqb_neq x 0)) by done. f_equal. apply IH; [done|lia].
Qed.

End Str.

(** memmove is correct for overlapping ranges: with [n] bytes readable
    at [src] and writable at [dst], memmove returns dst, the [n] bytes at [dst] are
    those that were at [src] before the call, and no other byte changes. *)
Theorem memmove_overlap m dst src n :
  mem_bytes m → 0 ≤ n → mapped m src n → mapped m dst n →
  ∃ m', memmove dst src n m = Ok dst m' ∧
    ∀ x, m' !! x = if decide (dst ≤ x < dst + n) then m !! (src + (x - dst)) else m !! x.
Proof.
  intros Hb Hn Hs Hd. unfold memmove.
  destruct ((src <? dst) && (dst <? src + n)) eqn:E.
  - apply andb_true_iff in E as [E1%Z.ltb_lt E2%Z.ltb_lt].
    destruct (move_down_run (Z.to_nat n) (dst + n) (src + n) m) as (m'&Hr&Hc);
      rewrite ?Z2Nat.id, ?Z.add_simpl_r by lia; [done..|lia|].
    rewrite Z2Nat.id in Hc by lia. rewrite !Z.add_simpl_r in Hc.
    exists m'. by rewrite (bind_run _ _ _ _ _ Hr).
  - destruct (move_up_run (Z.to_nat n) dst src m) as (m'&Hr&Hc);
      rewrite ?Z2Nat.id by lia; [done..| |].
    { apply andb_false_iff in E as [E%Z.ltb_ge|E%Z.ltb_ge]; lia. }
    rewrite Z2Nat.id in Hc by lia. exists m'. by rewrite (bind_run _ _ _ _ _ Hr).
Qed.

Lemma memmove_overlap_witness :
  let m := list_to_map (zip (seqZ 0 5) [10; 11; 12; 13; 14]) : mem in
  ∃ m', memmove 1 0 4 m = Ok 1 m' ∧
    ∀ x, m' !! x = if decide (1 ≤ x < 1 + 4) then m !! (0 + (x - 1)) else m !! x.
Proof.
  apply memmove_overlap; [|lia|..].
  - apply (bool_decide_unpack _). vm_compute. exact I.
  - intros x Hx. assert (x = 0 ∨ x = 1 ∨ x = 2 ∨ x = 3) as [->|[->|[->| ->]]] by lia; eexists; reflexivity.
  - intros x Hx. assert (x = 1 ∨ x = 2 ∨ x = 3 ∨ x = 4) as [->|[->|[->| ->]]] by lia; eexists; reflexivity.
Defined.

(** memset fills exactly the given range, on its fast path of 32-bit words
    as on its path of bytes, with the low byte of [c]. *)
Theorem memset_fills m dst c n :
  0 ≤ n < 2 ^ 32 → mapped m dst n →
  ∃ m', memset dst c n m = Ok dst m' ∧
    ∀ x, m' !! x = if decide (dst ≤ x < dst + n) then Some (u8 c) else m !! x.
Proof.
  intros Hn Hd. unfold memset. destruct ((dst mod 4 =? 0) && (n mod 4 =? 0)) eqn:E.
  - apply andb_true_iff in E as [_ E%Z.eqb_eq].
    assert (Z.land c 0xFF = u8 c) as -> by (unfold wrap; by rewrite <- Z.land_ones).
    assert (4 * Z.of_nat (Z.to_nat (u32 (n / 4))) = n) as E4.
    { pose proof (Z.div_mod n 4 ltac:(lia)). rewrite wrap_small, Z2Nat.id by lia. lia. }
    destruct (stosl_run (Z.to_nat (u32 (n / 4))) dst (u8 c) m) as (m'&Hr&Hc);
      [apply (wrap_range 8); lia|by rewrite E4|].
    rewrite E4 in Hc. exists m'. split; [|done]. change (Z.lor _ (u8 c)) with (fill_word (u8 c)).
    by rewrite (bind_run _ _ _ _ _ Hr).
  - assert (Z.of_nat (Z.to_nat (u32 n)) = n) as E4 by (rewrite wrap_small, Z2Nat.id by lia; lia).
    destruct (stosb_run (Z.to_nat (u32 n)) dst c m) as (m'&Hr&Hc); [by rewrite E4|].
    rewrite E4 in Hc. exists m'. split; [|done]. by rewrite (bind_run _ _ _ _ _ Hr).
Qed.

Lemma memset_fills_witness :
  let m := list_to_map (zip (seqZ 0 5) [10; 11; 12; 13; 14]) : mem in
  ∃ m', memset 0 0x141 4 m = Ok 0 m' ∧
    ∀ x, m' !! x = if decide (0 ≤ x < 0 + 4) then Some (u8 0x141) else m !! x.
Proof.
  apply memset_fills; [lia|].
  intros x Hx. assert (x = 0 ∨ x = 1 ∨ x = 2 ∨ x = 3) as [->|[->|[->| ->]]] by lia; eexists; reflexivity.
Defined.

(** safestrcpy truncates and terminates.  With room for [n] bytes at the
    destination, n > 0, and a source string, the destination is a C string
    within its first [n] bytes: the first n-1 bytes of the source string, and nothing
    past these [n] bytes changes. *)
Theorem safestrcpy_terminates (s t : list Z) (n : Z) :
  0 < n ≤ Z.of_nat (length s) → readable (Z.to_nat (n - 1)) t →
  ∃ s', safestrcpy s t n = Some s' ∧ length s' = length s ∧
    cut (Z.to_nat n) s' = cut (Z.to_nat (n - 1)) t ∧ 0 ∈ take (Z.to_nat n) s' ∧
    drop (Z.to_nat n) s' = drop (Z.to_nat n) s.
Proof.
  intros Hn Ht. unfold safestrcpy. rewrite (proj2 (Z.leb_gt n 0)) by lia.
  destruct (safestrcpy_loop_run (Z.to_nat (n - 1)) s t) as (l&Hl); [lia|done|].
  replace (S (Z.to_nat (n - 1))) with (Z.to_nat n) in Hl by lia. by exists l.
Qed.

Lemma safestrcpy_terminates_witness :
  ∃ s', safestrcpy [1; 2; 3; 4; 5] [105; 110; 105; 116; 0] 4 = Some s' ∧ length s' = 5%nat ∧
    cut 4 s' = [105; 110; 105] ∧ 0 ∈ take 4 s' ∧ drop 4 s' = [5].
Proof.
  apply (safestrcpy_terminates [1; 2; 3; 4; 5] [105; 110; 105; 116; 0] 4); [simpl; lia|].
  left. simpl. lia.
Defined.
