(* ===== verification/Txn.v ===== *)
(** The interface between the log (log.c over bio.c) and the file system
    (fs.c): blocks that are read into locked buffers and whose updates are recorded
    in the current transaction.

    The client sees the blocks through a view [V], the set [X] of blocks that
    are part of the transaction, and the buffers [H] it has locked.  [TxnSpec] states
    what it may rely on; [log_txn] shows that the log over any buffer cache
    keeps these promises, [mem_txn] that a disk in memory does. *)

From S2P Require Import Prelude Bytes Layout Bio Blocks LogDisk Log LogSafety.

Class TxnIO (St : Type) := {
  t_bread : Z → Z → M St nat;
  t_brelse : nat → M St unit;
  t_log_write : nat → M St unit;
  (** b->data and stores into it *)
  t_data : nat → St → list Z;
  t_set_data : nat → list Z → M St unit;
}.

Class TxnSpec (St : Type) `{!TxnIO St} := {
  tx_is : St → list (list Z) → gset Z → gmap nat Z → Prop;
  (** the number of blocks a transaction may hold, and the blocks it may update *)
  tx_cap : nat;
  tx_home : nat → Z → Prop;

  tx_blocks s V X H : tx_is s V X H → Forall block V;
  tx_data s V X H b n : tx_is s V X H → H !! b = Some n →
    t_data b s = V !!! Z.to_nat n ∧ 0 ≤ n < Z.of_nat (length V);
  tx_bread s V X H n :
    tx_is s V X H → 0 ≤ n < Z.of_nat (length V) → (∀ b, H !! b ≠ Some n) →
    (size X ≤ tx_cap)%nat → (size H ≤ 1)%nat →
    wp (t_bread ROOTDEV n) (λ b s', tx_is s' V X (<[b := n]> H) ∧ H !! b = None) s;
  tx_store s V X H b n d :
    tx_is s V X H → H !! b = Some n → block d → tx_home (length V) n → (size X < tx_cap)%nat →
    wp (t_set_data b d;; t_log_write b) (λ _ s', tx_is s' (<[Z.to_nat n := d]> V) ({[n]} ∪ X) H) s;
  tx_brelse s V X H b n :
    tx_is s V X H → H !! b = Some n →
    wp (t_brelse b) (λ _ s', tx_is s' V X (delete b H)) s;
}.

(** * The log provides transactions *)

Section LogTxn.
Context {St : Type} `{!BlockIO St, !BlockIOSpec St}.
Context (start lsize : Z) (disk : list (list Z)) (trace : list (Z * list Z)) (ops : Z).
Implicit Types (V : list (list Z)) (X : gset Z) (H : gmap nat Z).

#[global] Instance log_txn_io : TxnIO (logst St) := {|
  t_bread dev n := io (bread dev n);
  t_brelse b := io (brelse b);
  t_log_write := log_write;
  t_data b s := bdata b (ls_io s);
  t_set_data b d := io (set_bdata b d);
|}.

(** Inside an operation, one of [ops]: every locked buffer that is not part of the
    transaction has the contents of the disk, and the disk is as it was when the first
    operation began. *)
Record log_tx (s : logst St) V X H : Prop := {
  lt_txn : ∃ bs, txn_ok start lsize (ls_log s) (ls_io s) bs ∧ X = list_to_set bs;
  lt_lock : lg_lock (ls_log s) = false;
  lt_out : lg_outstanding (ls_log s) = ops;
  lt_ops : 1 ≤ ops;
  lt_committing : lg_committing (ls_log s) = false;
  lt_disk : bdisk (ls_io s) = disk;
  lt_trace : btrace (ls_io s) = trace;
  lt_view : bview (ls_io s) = V;
  lt_held : bheld (ls_io s) = H;
  lt_clean b n : H !! b = Some n → n ∉ X → bdisk (ls_io s) !! Z.to_nat n = V !! Z.to_nat n;
}.

Lemma lt_io s V X H :
  log_tx s V X H →
  io_is (ls_io s) V (bdisk (ls_io s)) (btrace (ls_io s)) X H ∧ length (bdisk (ls_io s)) = length V.
Proof.
  intros [(bs&Htx&->) _ _ _ _ _ _ <- <- _]. split; [split_and!; try done; apply Htx|].
  symmetry. apply bio_view_length, Htx.
Qed.

Lemma txn_size l (i : St) bs :
  txn_ok start lsize l i bs → size (list_to_set bs : gset Z) = length bs.
Proof. intros [_ _ _ _ [_ Hnd _] _]. by apply size_list_to_set. Qed.

(** A transaction whose cache changed but not its disk. *)
Lemma txn_same_disk l (i i' : St) bs :
  txn_ok start lsize l i bs → bio_inv i' → bdisk i' = bdisk i → bdirty i' = bdirty i →
  txn_ok start lsize l i' bs.
Proof. intros [] ? Ed Ex. split; rewrite ?Ed, ?Ex; done. Qed.

Lemma size_map_img H : (size (map_img (SA := gset Z) H) ≤ size H)%nat.
Proof.
  induction H as [|b n H Hb IH] using map_ind; [by rewrite map_img_empty_L, size_empty|].
  rewrite map_img_insert_notin_L, map_size_insert_None by done.
  rewrite size_union_alt, size_singleton. 
  assert (size (map_img (SA := gset Z) H ∖ {[n]}) ≤ size (map_img (SA := gset Z) H))%nat; [|lia].
  apply subseteq_size. set_solver.
Qed.

Lemma log_bread s V X H n :
  log_tx s V X H → 0 ≤ n < Z.of_nat (length V) → (∀ b, H !! b ≠ Some n) →
  (size X ≤ NBUF - 2)%nat → (size H ≤ 1)%nat →
  wp (t_bread ROOTDEV n) (λ b s', log_tx s' V X (<[b := n]> H) ∧ H !! b = None) s.
Proof.
  intros Hs Hn Hh HX HH. destruct (lt_io _ _ _ _ Hs) as [Hio Hlen].
  destruct s as [l i wk]. simpl in *.
  eapply (wp_io_bread _ _ _ _ _ _ _ _ Hio); [lia|done|right|].
  { rewrite NBUF_eq in *. rewrite size_union_alt. pose proof (size_map_img H).
    assert (size (map_img (SA := gset Z) H ∖ X) ≤ size (map_img (SA := gset Z) H))%nat; [|lia].
    apply subseteq_size. set_solver. }
  intros b i' Hio' Hb _. split; [|done]. destruct Hs as [(bs&Htx&->) Hl Ho Hops Hcm Hdk Htr Ev Eh Hc]. simpl in *.
  pose proof Hio' as (Hi'&Ev'&Ed'&Et'&Ex'&Eh'). split; simpl; try done.
  - exists bs. split; [|done]. eapply txn_same_disk; [done..|]. rewrite Ex'. symmetry. apply Htx.
  - congruence.
  - congruence.
  - intros b' n' Hb' Hn'. rewrite Ed'. destruct (decide (b' = b)) as [->|Hne].
    + rewrite lookup_insert_eq in Hb'. injection Hb' as <-. subst V H. apply bio_clean; try done;
        [apply Htx|by rewrite Hlen|]. by rewrite (tx_dirty _ _ _ _ _ Htx).
    + rewrite lookup_insert_ne in Hb' by done. by eapply Hc.
Qed.

Lemma absorb_set bs n : list_to_set (absorb bs n) = ({[n]} ∪ list_to_set bs : gset Z).
Proof. unfold absorb. case_decide; set_solver. Qed.

Lemma log_store s V X H b n d :
  log_tx s V X H → H !! b = Some n → block d → home start lsize (length V) n →
  Z.of_nat (size X) < lsize - 1 →
  wp (t_set_data b d;; t_log_write b) (λ _ s', log_tx s' (<[Z.to_nat n := d]> V) ({[n]} ∪ X) H) s.
Proof.
  intros Hs Hb Hd Hn HX. destruct (lt_io _ _ _ _ Hs) as [Hio Hlen].
  destruct s as [l i wk]. simpl in *. apply wp_bind.
  eapply (wp_io_set_bdata _ _ _ _ _ _ _ _ Hio); [done..|]. intros i1 (Hi1&Ev1&Ed1&Et1&Ex1&Eh1).
  destruct Hs as [(bs&Htx&->) Hl Ho Hops Hcm Hdk Htr Ev Eh Hc]. simpl in *.
  rewrite (txn_size _ _ _ Htx) in HX.
  eapply (log_write_run start lsize l i1 wk bs b n); [|done|lia|done..|by rewrite Eh1|by rewrite Ed1, Hlen|].
  { eapply txn_same_disk; [done..|]. rewrite Ex1. symmetry. apply Htx. }
  intros l2 i2 Htx2 Hl2 Ho2 Hc2 Ev2 Ed2 Et2 Eh2. split; simpl; try done; try congruence.
  - exists (absorb bs n). by rewrite absorb_set.
  - intros b' n' Hb' Hn'. apply not_elem_of_union in Hn' as [Hne Hn'].
    rewrite not_elem_of_singleton in Hne.
    rewrite Ed2, Ed1, list_lookup_insert_ne; [by eapply Hc|].
    pose proof (io_is_range i V _ _ _ _ Hio b n Hb). pose proof (io_is_range i V _ _ _ _ Hio b' n' Hb'). lia.
Qed.

Lemma log_brelse s V X H b n :
  log_tx s V X H → H !! b = Some n →
  wp (t_brelse b) (λ _ s', log_tx s' V X (delete b H)) s.
Proof.
  intros Hs Hb. destruct (lt_io _ _ _ _ Hs) as [Hio Hlen]. destruct s as [l i wk]. simpl in *.
  destruct Hs as [(bs&Htx&->) Hl Ho Hops Hcm Hdk Htr Ev Eh Hc]. simpl in *.
  eapply (wp_io_brelse _ _ _ _ _ _ _ _ Hio b n); [done|..].
  { destruct (decide (n ∈ bs)); [left; set_solver|right]. eapply Hc; [done|]. set_solver. }
  intros i' (Hi'&Ev'&Ed'&Et'&Ex'&Eh'). split; simpl; try done.
  - exists bs. split; [|done]. eapply txn_same_disk; [done..|]. rewrite Ex'. symmetry. apply Htx.
  - congruence.
  - congruence.
  - intros b' n' Hb' Hn'. rewrite Ed'. apply lookup_delete_Some in Hb' as [_ Hb']. by eapply Hc.
Qed.

(** The log over any buffer cache keeps the promises of [TxnSpec]. *)
#[global, refine] Instance log_txn : TxnSpec (logst St) := {|
  tx_is := log_tx;
  tx_cap := Z.to_nat (lsize - 1) `min` (NBUF - 2);
  tx_home := home start lsize;
  tx_bread s V X H n Hs Hn Hh HX HH := log_bread s V X H n Hs Hn Hh _ HH;
  tx_store s V X H b n d Hs Hb Hd Hn HX := log_store s V X H b n d Hs Hb Hd Hn _;
  tx_brelse := log_brelse;
|}.
Proof.
  - intros s V X H Hs. destruct (lt_io _ _ _ _ Hs) as [Hio _]. by eapply io_is_view_blocks.
  - intros s V X H b n Hs Hb. destruct (lt_io _ _ _ _ Hs) as [Hio Hlen]. rewrite <- Hlen.
    split; [by eapply io_is_data|by eapply io_is_range].
  - lia.
  - lia.
Defined.
(** ** Operations *)

(** Between operations, when [ops] - 1 others have not ended. *)
Record log_idle (s : logst St) V : Prop := {
  lid_txn : txn_ok start lsize (ls_log s) (ls_io s) [];
  lid_lock : lg_lock (ls_log s) = false;
  lid_out : lg_outstanding (ls_log s) = ops - 1;
  lid_committing : lg_committing (ls_log s) = false;
  lid_disk : bdisk (ls_io s) = disk;
  lid_trace : btrace (ls_io s) = trace;
  lid_view : bview (ls_io s) = V;
  lid_held : bheld (ls_io s) = ∅;
}.

Lemma txn_ok_fields l l' (i : St) bs :
  txn_ok start lsize l i bs → lg_start l' = lg_start l → lg_size l' = lg_size l → lg_dev l' = lg_dev l →
  lg_n l' = lg_n l → lg_block l' = lg_block l → txn_ok start lsize l' i bs.
Proof. intros [[]] E1 E2 E3 E4 E5. split; try done. split; by rewrite ?E1, ?E2, ?E3, ?E4, ?E5. Qed.

(** begin_op when there is room for the operation, and end_op of an operation that changed nothing. *)
Lemma log_begin (s : logst St) V : 1 ≤ ops ≤ 3 → log_idle s V → wp begin_op (λ _ s', log_tx s' V ∅ ∅) s.
Proof.
  intros Hops [Htx Hlk Ho Hc Hd Ht Hv Hh]. destruct s as [l i wk]. simpl in *.
  unfold begin_op. apply wp_bind, wp_acquire; [done|]. apply wp_bind, wp_gets. simpl. rewrite Hc.
  assert (lg_n l = 0) as Hn by apply (li_n _ _ _ _ (tx_log _ _ _ _ _ Htx)). rewrite Hn, Ho.
  rewrite (proj2 (Z.ltb_ge _ _)) by (unfold LOGSIZE, MAXOPBLOCKS; lia).
  apply wp_bind, wp_modify. apply wp_release; [done|]. split; simpl; try done; try lia.
  exists []. split; [|done]. by eapply txn_ok_fields.
Qed.

Lemma log_end (s : logst St) V : log_tx s V ∅ ∅ → wp end_op (λ _ s', log_idle s' V) s.
Proof.
  intros [(bs&Htx&Hbs) Hlk Ho Hops Hc Hd Ht Hv Hh _]. destruct s as [l i wk]. simpl in *.
  assert (bs = []) as -> by (destruct bs; [done|set_solver]).
  assert (lg_n l = 0) as Hn by apply (li_n _ _ _ _ (tx_log _ _ _ _ _ Htx)).
  unfold end_op. apply wp_bind, wp_acquire; [done|]. apply wp_bind, wp_gets, wp_bind, wp_modify. simpl. rewrite Hc.
  apply wp_bind, wp_gets. simpl. rewrite Ho. destruct (Z.eqb_spec (ops - 1) 0) as [E|E].
  - apply wp_bind, wp_modify. simpl. apply wp_bind, wp_release; [done|]. simpl.
    apply wp_bind. unfold commit. apply wp_bind, wp_gets. simpl. rewrite Hn. simpl. apply wp_ret.
    apply wp_bind, wp_acquire; [done|]. apply wp_bind, wp_modify, wp_bind, wp_modify. apply wp_release; [done|].
    split; simpl; try done. by eapply txn_ok_fields.
  - apply wp_bind, wp_modify. simpl. apply wp_bind, wp_release; [done|]. simpl. apply wp_ret.
    split; simpl; try done. by eapply txn_ok_fields.
Qed.
End LogTxn.

(** * A disk in memory provides transactions

    The reference implementation: the blocks, the transaction and the locked
    buffers themselves. *)

Module MemTxn.
Record mst := Mst { m_blocks : list (list Z); m_txn : gset Z; m_held : gmap nat Z }.

#[global] Instance mem_io : TxnIO mst := {|
  t_bread dev n := λ s,
    if decide (0 ≤ n < Z.of_nat (length (m_blocks s))) then
      let b := fresh (dom (m_held s)) in
      Ok b (Mst (m_blocks s) (m_txn s) (<[b := n]> (m_held s)))
    else Fail (Panic "iderw: block out of range");
  t_brelse b := modify (λ s, Mst (m_blocks s) (m_txn s) (delete b (m_held s)));
  t_log_write b := λ s,
    match m_held s !! b with
    | Some n => Ok tt (Mst (m_blocks s) ({[n]} ∪ m_txn s) (m_held s))
    | None => Fail (Panic "log_write")
    end;
  t_data b s := default [] (n ← m_held s !! b; m_blocks s !! Z.to_nat n);
  t_set_data b d := λ s,
    match m_held s !! b with
    | Some n => Ok tt (Mst (<[Z.to_nat n := d]> (m_blocks s)) (m_txn s) (m_held s))
    | None => Fail (Undefined "b->data")
    end;
|}.

Definition mem_is (s : mst) V X H : Prop :=
  s = Mst V X H ∧ Forall block V ∧ map_Forall (λ _ n, 0 ≤ n < Z.of_nat (length V)) H.

#[global, refine] Instance mem_txn : TxnSpec mst := {|
  tx_is := mem_is;
  tx_cap := 28;
  tx_home len n := 0 ≤ n < Z.of_nat len;
|}.
Proof.
  - by intros s V X H (_&?&_).
  - intros s V X H b n (->&_&Hh) Hb. simpl. rewrite Hb. simpl. pose proof (Hh _ _ Hb) as Hr. simpl in Hr.
    split; [|done]. by rewrite list_lookup_total_alt.
  - intros s V X H n (->&HV&Hh) Hn _ _ _. unfold wp. simpl. rewrite decide_True by done.
    assert (H !! fresh (dom H) = None) as Hf by apply not_elem_of_dom, is_fresh.
    split; [|done]. split_and!; [done..|]. by apply map_Forall_insert_2.
  - intros s V X H b n d (->&HV&Hh) Hb Hd Hn _. unfold wp, mbind, M_bind. simpl. rewrite Hb. simpl. rewrite Hb.
    split_and!; [done|by apply Forall_insert|]. by rewrite length_insert.
  - intros s V X H b n (->&HV&Hh) Hb. unfold wp. simpl. split_and!; [done..|].
    intros b' n'. rewrite lookup_delete_Some. intros [_ ?]. by eapply Hh.
Defined.
End MemTxn.
