(* ===== verification/Fs.v ===== *)
(** The file system (src/fs.c): block allocator, inodes and the inode cache,
    file contents, directories and path names, over the transactions of
    Txn.v.  This file holds the code; FsDisk.v describes the structures on
    disk, and the files FsAlloc.v, FsInode.v, FsDir.v and FsPath.v prove what the code
    does to them.

    A [struct inode *] is an index into icache.inode; a null pointer is [None]. *)

From S2P Require Import Prelude Bytes Layout Sleeplock Kstring Txn.

(** struct inode (file.h) *)
Record inode := Inode {
  i_dev : Z;
  i_inum : Z;
  i_ref : Z;
  i_lock : sleeplock;
  i_flags : Z;
  i_di : dinode;   (* type, major, minor, nlink, size, addrs: copy of the disk inode *)
}.

Definition I_VALID : Z := 2.

Definition set_i_ref (r : Z) (i : inode) : inode :=
  Inode (i_dev i) (i_inum i) r (i_lock i) (i_flags i) (i_di i).
Definition set_i_lock (l : sleeplock) (i : inode) : inode :=
  Inode (i_dev i) (i_inum i) (i_ref i) l (i_flags i) (i_di i).
Definition set_i_flags (f : Z) (i : inode) : inode :=
  Inode (i_dev i) (i_inum i) (i_ref i) (i_lock i) f (i_di i).
Definition set_i_di (d : dinode) (i : inode) : inode :=
  Inode (i_dev i) (i_inum i) (i_ref i) (i_lock i) (i_flags i) d.

Definition set_di_type (t : Z) (d : dinode) : dinode :=
  Dinode t (di_major d) (di_minor d) (di_nlink d) (di_size d) (di_addrs d).
Definition set_di_nlink (n : Z) (d : dinode) : dinode :=
  Dinode (di_type d) (di_major d) (di_minor d) n (di_size d) (di_addrs d).
Definition set_di_size (n : Z) (d : dinode) : dinode :=
  Dinode (di_type d) (di_major d) (di_minor d) (di_nlink d) n (di_addrs d).
Definition set_di_addrs (a : list Z) (d : dinode) : dinode :=
  Dinode (di_type d) (di_major d) (di_minor d) (di_nlink d) (di_size d) a.
Definition zero_dinode : dinode := Dinode 0 0 0 0 0 (replicate (NDIRECT + 1) 0).

(** struct stat (stat.h) *)
Record stat := Stat { st_type : Z; st_dev : Z; st_ino : Z; st_nlink : Z; st_size : Z }.

(** The globals of fs.c (sb, icache), the blocks below, the process that runs
    (its pid and its current directory) and the wakeups issued so far. *)
Record fsst (St : Type) := FsSt {
  fs_io : St;
  fs_sb : superblock;
  fs_lock : bool;
  fs_inodes : list inode;
  fs_pid : Z;
  fs_cwd : nat;
  fs_wakes : list Z;
}.
Arguments FsSt {St} fs_io fs_sb fs_lock fs_inodes fs_pid fs_cwd fs_wakes.
Arguments fs_io {St} f.
Arguments fs_sb {St} f.
Arguments fs_lock {St} f.
Arguments fs_inodes {St} f.
Arguments fs_pid {St} f.
Arguments fs_cwd {St} f.
Arguments fs_wakes {St} f.

Section Code.
Context {St : Type} `{!TxnIO St}.
Local Abbreviation MF := (M (fsst St)).

Definition set_fs_io (io : St) (s : fsst St) : fsst St :=
  FsSt io (fs_sb s) (fs_lock s) (fs_inodes s) (fs_pid s) (fs_cwd s) (fs_wakes s).
Definition set_fs_sb (sb : superblock) (s : fsst St) : fsst St :=
  FsSt (fs_io s) sb (fs_lock s) (fs_inodes s) (fs_pid s) (fs_cwd s) (fs_wakes s).
Definition set_fs_lock (b : bool) (s : fsst St) : fsst St :=
  FsSt (fs_io s) (fs_sb s) b (fs_inodes s) (fs_pid s) (fs_cwd s) (fs_wakes s).
Definition set_fs_inodes (l : list inode) (s : fsst St) : fsst St :=
  FsSt (fs_io s) (fs_sb s) (fs_lock s) l (fs_pid s) (fs_cwd s) (fs_wakes s).

Definition fs_io_lens : lens (fsst St) St := Lens fs_io set_fs_io.
Definition icache_lock : lens (fsst St) bool := Lens fs_lock set_fs_lock.
Definition iwakeup (ch : Z) : MF unit :=
  modify (λ s, FsSt (fs_io s) (fs_sb s) (fs_lock s) (fs_inodes s) (fs_pid s) (fs_cwd s)
                 (fs_wakes s ++ [ch])).

(** The block operations of the layers below. *)
Definition bread (dev n : Z) : MF nat := zoom fs_io_lens (t_bread dev n).
Definition brelse (b : nat) : MF unit := zoom fs_io_lens (t_brelse b).
Definition log_write (b : nat) : MF unit := zoom fs_io_lens (t_log_write b).
Definition bdata (b : nat) : MF (list Z) := gets (λ s, t_data b (fs_io s)).
Definition set_bdata (b : nat) (d : list Z) : MF unit := zoom fs_io_lens (t_set_data b d).

Definition geti (ip : nat) : MF inode := l ← gets fs_inodes; the "ip" (l !! ip).
(** an assignment to fields of *ip *)
Definition updi (ip : nat) (f : inode → inode) : MF unit :=
  modify (λ s, set_fs_inodes (alter f ip (fs_inodes s)) s).
Definition upd_di (ip : nat) (f : dinode → dinode) : MF unit :=
  updi ip (λ i, set_i_di (f (i_di i)) i).

(** &ip->lock *)
Definition zero_inode : inode := Inode 0 0 0 initsleeplock 0 zero_dinode.
Definition inode_lock (ip : nat) : lens (fsst St) sleeplock :=
  Lens (λ s, i_lock (default zero_inode (fs_inodes s !! ip)))
       (λ l s, set_fs_inodes (alter (set_i_lock l) ip (fs_inodes s)) s).

Definition readsb (dev : Z) : MF unit :=
  bp ← bread (u32 dev) 1;
  d ← bdata bp;
  modify (set_fs_sb (sb_of_bytes d));;
  brelse bp.

(** * Blocks *)

Definition bzero (dev bno : Z) : MF unit :=
  bp ← bread (u32 dev) (u32 bno);
  set_bdata bp zero_block;;
  log_write bp;;
  brelse bp.

(** The bit of block number [bi] of a bitmap block. *)
Definition bit_mask (bi : Z) : Z := Z.shiftl 1 (bi mod 8).
Definition bit_free (bi : Z) (d : list Z) : bool :=
  Z.land (d !!! Z.to_nat (bi / 8)) (bit_mask bi) =? 0.

(** The inner loop of balloc; [cnt] is BPB - bi. *)
Fixpoint balloc_scan (cnt : nat) (b bi size : Z) (d : list Z) : option Z :=
  match cnt with
  | O => None
  | S cnt =>
      if negb (u32 (b + bi) <? size) then None
      else if bit_free bi d then Some bi
      else balloc_scan cnt b (bi + 1) size d
  end.

Fixpoint balloc_loop (fuel : nat) (dev b : Z) : MF Z :=
  sb ← gets fs_sb;
  if negb (u32 b <? sb_size sb) then panic "balloc: out of blocks" else
  match fuel with
  | O => out_of_fuel
  | S fuel =>
      bp ← bread dev (u32 (BBLOCK b sb));
      d ← bdata bp;
      match balloc_scan (Z.to_nat BPB) b 0 (sb_size sb) d with
      | Some bi =>
          let j := Z.to_nat (bi / 8) in
          set_bdata bp (<[j := Z.lor (d !!! j) (bit_mask bi)]> d);;
          log_write bp;;
          brelse bp;;
          bzero (s32 dev) (b + bi);;
          mret (u32 (b + bi))
      | None =>
          brelse bp;;
          balloc_loop fuel dev (b + BPB)
      end
  end.

Definition balloc (dev : Z) : MF Z :=
  sb ← gets fs_sb;
  balloc_loop (S (Z.to_nat (sb_size sb / BPB))) dev 0.

Definition bfree (dev b : Z) : MF unit :=
  readsb dev;;
  sb ← gets fs_sb;
  bp ← bread (u32 dev) (u32 (BBLOCK b sb));
  d ← bdata bp;
  let bi := b mod BPB in
  if bit_free bi d then panic "freeing free block" else
  let j := Z.to_nat (bi / 8) in
  set_bdata bp (<[j := Z.land (d !!! j) (u8 (Z.lnot (bit_mask bi)))]> d);;
  log_write bp;;
  brelse bp.

(** * Inodes *)

Fixpoint iinit_locks (ips : list nat) : MF unit :=
  match ips with
  | [] => mret tt
  | ip :: ips => updi ip (set_i_lock initsleeplock);; iinit_locks ips
  end.

Definition iinit (dev : Z) : MF unit :=
  modify (set_fs_lock false);;
  iinit_locks (seq 0 NINODE);;
  readsb dev.

(** The loop of iget: the entry of the inode, or the first empty slot. *)
Fixpoint iget_find (dev inum : Z) (ip : nat) (l : list inode) (empty : option nat)
    : nat + option nat :=
  match l with
  | [] => inr empty
  | i :: l =>
      if (0 <? i_ref i) && (i_dev i =? dev) && (i_inum i =? inum) then inl ip
      else iget_find dev inum (S ip) l
             (match empty with
              | None => if i_ref i =? 0 then Some ip else None
              | Some e => Some e
              end)
  end.

Definition iget (dev inum : Z) : MF nat :=
  acquire icache_lock;;
  l ← gets fs_inodes;
  match iget_find dev inum 0 l None with
  | inl ip =>
      updi ip (λ i, set_i_ref (i_ref i + 1) i);;
      release icache_lock;;
      mret ip
  | inr None => panic "iget: no inodes"
  | inr (Some ip) =>
      updi ip (λ i, Inode dev inum 1 (i_lock i) 0 (i_di i));;
      release icache_lock;;
      mret ip
  end.

(** the offset of inode [inum] in its block *)
Definition inode_off (inum : Z) : nat := Z.to_nat (inum mod IPB * DINODE_SIZE).

Fixpoint ialloc_loop (fuel : nat) (dev type inum : Z) : MF nat :=
  sb ← gets fs_sb;
  if negb (u32 inum <? sb_ninodes sb) then panic "ialloc: no inodes" else
  match fuel with
  | O => out_of_fuel
  | S fuel =>
      bp ← bread dev (u32 (IBLOCK inum sb));
      d ← bdata bp;
      let off := inode_off inum in
      if di_type (dinode_of_bytes off d) =? 0 then
        set_bdata bp (put_u16 off type (splice off (replicate (Z.to_nat DINODE_SIZE) 0) d));;
        log_write bp;;
        brelse bp;;
        iget dev (u32 inum)
      else
        brelse bp;;
        ialloc_loop fuel dev type (inum + 1)
  end.

Definition ialloc (dev type : Z) : MF nat :=
  sb ← gets fs_sb;
  ialloc_loop (Z.to_nat (sb_ninodes sb)) dev type 1.

Definition iupdate (ip : nat) : MF unit :=
  i ← geti ip;
  sb ← gets fs_sb;
  bp ← bread (i_dev i) (u32 (IBLOCK (i_inum i) sb));
  d ← bdata bp;
  set_bdata bp (dinode_to_bytes (inode_off (i_inum i)) (i_di i) d);;
  log_write bp;;
  brelse bp.

Definition idup (ip : nat) : MF nat :=
  acquire icache_lock;;
  updi ip (λ i, set_i_ref (i_ref i + 1) i);;
  release icache_lock;;
  mret ip.

Definition ivalid (i : inode) : bool := negb (Z.land (i_flags i) I_VALID =? 0).

Definition ilock (p : option nat) : MF unit :=
  match p with
  | None => panic "ilock"
  | Some ip =>
      i ← geti ip;
      if i_ref i <? 1 then panic "ilock" else
      pid ← gets fs_pid;
      acquiresleep (inode_lock ip) (Z.of_nat ip) pid;;
      i ← geti ip;
      if ivalid i then mret tt else
      sb ← gets fs_sb;
      bp ← bread (i_dev i) (u32 (IBLOCK (i_inum i) sb));
      d ← bdata bp;
      let di := dinode_of_bytes (inode_off (i_inum i)) d in
      upd_di ip (λ _, di);;
      brelse bp;;
      updi ip (λ i, set_i_flags (Z.lor (i_flags i) I_VALID) i);;
      if di_type di =? 0 then panic "ilock: no type" else mret tt
  end.

Definition iunlock (p : option nat) : MF unit :=
  match p with
  | None => panic "iunlock"
  | Some ip =>
      h ← holdingsleep (inode_lock ip);
      i ← geti ip;
      if negb h || (i_ref i <? 1) then panic "iunlock" else
      releasesleep (inode_lock ip) (Z.of_nat ip) iwakeup
  end.

(** * File contents *)

(** ip->addrs[k] *)
Definition get_addr (ip : nat) (k : nat) : MF Z :=
  i ← geti ip; the "ip->addrs" (di_addrs (i_di i) !! k).
Definition set_addr (ip : nat) (k : nat) (a : Z) : MF unit :=
  upd_di ip (λ d, set_di_addrs (<[k := a]> (di_addrs d)) d).

Definition bmap (ip : nat) (bn : Z) : MF Z :=
  i ← geti ip;
  if bn <? Z.of_nat NDIRECT then
    let k := Z.to_nat bn in
    addr ← get_addr ip k;
    if addr =? 0 then
      addr ← balloc (i_dev i);
      set_addr ip k addr;;
      mret addr
    else mret addr
  else
  let bn := u32 (bn - Z.of_nat NDIRECT) in
  if bn <? Z.of_nat NINDIRECT then
    addr ← get_addr ip NDIRECT;
    addr ← (if addr =? 0 then
              addr ← balloc (i_dev i);
              set_addr ip NDIRECT addr;;
              mret addr
            else mret addr);
    bp ← bread (i_dev i) addr;
    d ← bdata bp;
    let off := Z.to_nat (4 * bn) in
    let addr := get_u32 off d in
    if addr =? 0 then
      addr ← balloc (i_dev i);
      d ← bdata bp;
      set_bdata bp (put_u32 off addr d);;
      log_write bp;;
      brelse bp;;
      mret addr
    else
      brelse bp;;
      mret addr
  else panic "bmap: out of range".

(** The loops of itrunc, over the direct blocks and the indirect ones. *)
Fixpoint itrunc_direct (ip : nat) (ks : list nat) : MF unit :=
  match ks with
  | [] => mret tt
  | k :: ks =>
      i ← geti ip;
      addr ← get_addr ip k;
      when (negb (addr =? 0)) (bfree (s32 (i_dev i)) addr;; set_addr ip k 0);;
      itrunc_direct ip ks
  end.

Fixpoint itrunc_indirect (dev : Z) (bp : nat) (js : list nat) : MF unit :=
  match js with
  | [] => mret tt
  | j :: js =>
      d ← bdata bp;
      let a := get_u32 (4 * j) d in
      when (negb (a =? 0)) (bfree dev a);;
      itrunc_indirect dev bp js
  end.

Definition itrunc (ip : nat) : MF unit :=
  itrunc_direct ip (seq 0 NDIRECT);;
  i ← geti ip;
  addr ← get_addr ip NDIRECT;
  when (negb (addr =? 0)) (
    bp ← bread (i_dev i) addr;
    itrunc_indirect (s32 (i_dev i)) bp (seq 0 NINDIRECT);;
    brelse bp;;
    bfree (s32 (i_dev i)) addr;;
    set_addr ip NDIRECT 0);;
  upd_di ip (set_di_size 0);;
  iupdate ip.

Definition iput (ip : nat) : MF unit :=
  acquire icache_lock;;
  i ← geti ip;
  when ((i_ref i =? 1) && ivalid i && (di_nlink (i_di i) =? 0)) (
    release icache_lock;;
    itrunc ip;;
    upd_di ip (set_di_type 0);;
    iupdate ip;;
    acquire icache_lock;;
    updi ip (set_i_flags 0));;
  updi ip (λ i, set_i_ref (i_ref i - 1) i);;
  release icache_lock.

Definition iunlockput (ip : nat) : MF unit :=
  iunlock (Some ip);;
  iput ip.

Definition stati (ip : nat) : MF stat :=
  i ← geti ip;
  mret (Stat (di_type (i_di i)) (s32 (i_dev i)) (i_inum i) (di_nlink (i_di i)) (di_size (i_di i))).

(** struct devsw: the driver functions of a device, or null.  A read returns
    its result and the bytes it stored at dst. *)
Record devops := Devops {
  dev_read : option (nat → Z → Z → MF (Z * list Z));
  dev_write : option (nat → Z → list Z → Z → MF Z);
}.
Context (devsw : list devops).

(** devsw[major], for a major number in range *)
Definition dev_of (major : Z) : option devops :=
  if (major <? 0) || (NDEV <=? major) then None else devsw !! Z.to_nat major.

Fixpoint readi_loop (fuel : nat) (ip : nat) (n tot off : Z) : MF (list Z) :=
  if negb (tot <? n) then mret [] else
  match fuel with
  | O => out_of_fuel
  | S fuel =>
      i ← geti ip;
      addr ← bmap ip (off / BSIZE);
      bp ← bread (i_dev i) addr;
      let m := Z.min (u32 (n - tot)) (BSIZE - off mod BSIZE) in
      d ← bdata bp;
      brelse bp;;
      rest ← readi_loop fuel ip n (u32 (tot + m)) (u32 (off + m));
      mret (sub (Z.to_nat (off mod BSIZE)) (Z.to_nat m) d ++ rest)
  end.

Definition readi (ip : nat) (off n : Z) : MF (Z * list Z) :=
  i ← geti ip;
  let di := i_di i in
  if di_type di =? T_DEV then
    match dev_of (di_major di) ≫= dev_read with
    | None => mret (-1, [])
    | Some f => f ip off (s32 n)
    end
  else
  if (di_size di <? off) || (u32 (off + n) <? off) then mret (-1, []) else
  let n := if di_size di <? u32 (off + n) then u32 (di_size di - off) else n in
  bs ← readi_loop (S (Z.to_nat n)) ip n 0 off;
  mret (s32 n, bs).

(** [src] are the bytes at the pointer src. *)
Fixpoint writei_loop (fuel : nat) (ip : nat) (src : list Z) (n tot off : Z) : MF Z :=
  if negb (tot <? n) then mret off else
  match fuel with
  | O => out_of_fuel
  | S fuel =>
      i ← geti ip;
      addr ← bmap ip (off / BSIZE);
      bp ← bread (i_dev i) addr;
      let m := Z.min (u32 (n - tot)) (BSIZE - off mod BSIZE) in
      d ← bdata bp;
      set_bdata bp (splice (Z.to_nat (off mod BSIZE)) (take (Z.to_nat m) src) d);;
      log_write bp;;
      brelse bp;;
      writei_loop fuel ip (drop (Z.to_nat m) src) n (u32 (tot + m)) (u32 (off + m))
  end.

Definition writei (ip : nat) (src : list Z) (off n : Z) : MF Z :=
  i ← geti ip;
  let di := i_di i in
  if di_type di =? T_DEV then
    match dev_of (di_major di) ≫= dev_write with
    | None => mret (-1)
    | Some f => f ip off src (s32 n)
    end
  else
  if (di_size di <? off) || (u32 (off + n) <? off) then mret (-1) else
  if MAXFILE * BSIZE <? u32 (off + n) then mret (-1) else
  off ← writei_loop (S (Z.to_nat n)) ip src n 0 off;
  i ← geti ip;
  when ((0 <? n) && (di_size (i_di i) <? off)) (
    upd_di ip (set_di_size off);;
    iupdate ip);;
  mret (s32 n).

(** * Directories *)

Definition namecmp (s t : list Z) : option Z := strncmp s t DIRSIZ.

(** readi of one entry, with the caller's panic *)
Definition read_dirent (dp : nat) (off : Z) (msg : string) : MF dirent :=
  rb ← readi dp off DIRENT_SIZE;
  if negb (rb.1 =? DIRENT_SIZE) then panic msg else mret (dirent_of_bytes rb.2).

(** The entry's inode and its offset, that is what goes to poff. *)
Fixpoint dirlookup_loop (fuel : nat) (dp : nat) (name : list Z) (off : Z) : MF (option (nat * Z)) :=
  i ← geti dp;
  if negb (off <? di_size (i_di i)) then mret None else
  match fuel with
  | O => out_of_fuel
  | S fuel =>
      de ← read_dirent dp off "dirlookup read";
      if de_inum de =? 0 then dirlookup_loop fuel dp name (u32 (off + DIRENT_SIZE)) else
      r ← the "namecmp" (namecmp name (de_name de));
      if r =? 0 then ip ← iget (i_dev i) (de_inum de); mret (Some (ip, off))
      else dirlookup_loop fuel dp name (u32 (off + DIRENT_SIZE))
  end.

Definition dirlookup (dp : nat) (name : list Z) : MF (option (nat * Z)) :=
  i ← geti dp;
  if negb (di_type (i_di i) =? T_DIR) then panic "dirlookup not DIR" else
  dirlookup_loop (S (Z.to_nat (di_size (i_di i)))) dp name 0.

(** The search of dirlink for a free entry: its offset and the entry that was
    read last. *)
Fixpoint dirlink_loop (fuel : nat) (dp : nat) (de : dirent) (off : Z) : MF (dirent * Z) :=
  i ← geti dp;
  if negb (off <? di_size (i_di i)) then mret (de, off) else
  match fuel with
  | O => out_of_fuel
  | S fuel =>
      de ← read_dirent dp off "dirlink read";
      if de_inum de =? 0 then mret (de, off)
      else dirlink_loop fuel dp de (off + DIRENT_SIZE)
  end.

(** [junk]: the local variable de before it is read *)
Definition dirlink (junk : dirent) (dp : nat) (name : list Z) (inum : Z) : MF Z :=
  found ← dirlookup dp name;
  match found with
  | Some (ip, _) => iput ip;; mret (-1)
  | None =>
      i ← geti dp;
      r ← dirlink_loop (S (Z.to_nat (di_size (i_di i)))) dp junk 0;
      let '(de, off) := r in
      nm ← the "strncpy" (strncpy (de_name de) name DIRSIZ);
      let de := Dirent (u16 inum) nm in
      w ← writei dp (dirent_to_bytes de) off DIRENT_SIZE;
      if negb (w =? DIRENT_SIZE) then panic "dirlink" else mret 0
  end.

(** * Paths *)

Definition SLASH : Z := 47.

Fixpoint skip_slashes (path : list Z) : list Z :=
  match path with
  | c :: path' => if c =? SLASH then skip_slashes path' else path
  | [] => []
  end.

(** the bytes up to the next slash or NUL, and the path from there on *)
Fixpoint path_elem (path : list Z) : list Z * list Z :=
  match path with
  | c :: path' =>
      if (c =? SLASH) || (c =? 0) then ([], path)
      else let '(e, rest) := path_elem path' in (c :: e, rest)
  | [] => ([], [])
  end.

(** [path] is the memory from the pointer on; running past its end is
    undefined.  Returns the rest of the path and the contents of name. *)
Definition skipelem (path name : list Z) : MF (option (list Z * list Z)) :=
  let s := skip_slashes path in
  c ← the "path" (head s);
  if c =? 0 then mret None else
  let '(e, rest) := path_elem s in
  _ ← the "path" (head rest);
  let name := if (DIRSIZ <=? length e)%nat then splice 0 (take DIRSIZ e) name
              else splice 0 (e ++ [0]) name in
  mret (Some (skip_slashes rest, name)).

Fixpoint namex_loop (fuel : nat) (ip : nat) (path : list Z) (nameiparent : bool) (name : list Z)
    : MF (option nat * list Z) :=
  r ← skipelem path name;
  match r with
  | None =>
      if nameiparent then iput ip;; mret (None, name) else mret (Some ip, name)
  | Some (path, name) =>
      match fuel with
      | O => out_of_fuel
      | S fuel =>
          ilock (Some ip);;
          i ← geti ip;
          if negb (di_type (i_di i) =? T_DIR) then iunlockput ip;; mret (None, name) else
          c ← the "path" (head path);
          if nameiparent && (c =? 0) then iunlock (Some ip);; mret (Some ip, name) else
          next ← dirlookup ip name;
          match next with
          | None => iunlockput ip;; mret (None, name)
          | Some (next, _) =>
              iunlockput ip;;
              namex_loop fuel next path nameiparent name
          end
      end
  end.

(** Returns the inode and the contents of name. *)
Definition namex (path : list Z) (nameiparent : bool) (name : list Z) : MF (option nat * list Z) :=
  c ← the "path" (head path);
  ip ← (if c =? SLASH then iget ROOTDEV ROOTINO
        else cwd ← gets fs_cwd; idup cwd);
  namex_loop (length path) ip path nameiparent name.

Definition namei (path junk : list Z) : MF (option nat) :=
  r ← namex path false junk; mret r.1.

Definition nameiparent (path name : list Z) : MF (option nat * list Z) := namex path true name.
End Code.
