(* ===== verification/FsDisk.v ===== *)
(** The structures of the file system on disk, as fs.c maintains them: where the
    parts of the disk are, the bits of the free map, inodes in their blocks, the block
    pointers of a file, its contents, and the invariant that ties them
    together. *)

From stdpp Require Import functions.
From S2P Require Import Prelude Bytes Layout Txn Fs.

(** * Bits of the free map *)

Section Bits.
Implicit Types (d : list Z) (bi bj : Z).

Lemma bit_free_testbit bi d :
  bit_free bi d = negb (Z.testbit (d !!! Z.to_nat (bi / 8)) (bi mod 8)).
Proof.
  unfold bit_free, bit_mask. pose proof (Z.mod_pos_bound bi 8 ltac:(lia)).
  set (x := d !!! _). set (k := bi mod 8) in *. rewrite Z.shiftl_1_l.
  destruct (Z.testbit x k) eqn:E; simpl.
  - apply Z.eqb_neq. intros E0. assert (Z.testbit (Z.land x (2 ^ k)) k = true) as E1.
    { rewrite Z.land_spec, E, Z.pow2_bits_true by lia. done. }
    by rewrite E0, Z.bits_0 in E1.
  - apply Z.eqb_eq. apply Z.bits_inj'. intros j Hj. rewrite Z.land_spec, Z.bits_0.
    destruct (decide (j = k)) as [->|Hne]; [by rewrite E|].
    rewrite Z.pow2_bits_false by done. apply andb_false_r.
Qed.

Definition set_bit bi d : list Z :=
  <[Z.to_nat (bi / 8) := Z.lor (d !!! Z.to_nat (bi / 8)) (bit_mask bi)]> d.
Definition clear_bit bi d : list Z :=
  <[Z.to_nat (bi / 8) := Z.land (d !!! Z.to_nat (bi / 8)) (u8 (Z.lnot (bit_mask bi)))]> d.

Lemma bit_index bi d : block d → 0 ≤ bi < BPB → (Z.to_nat (bi / 8) < length d)%nat.
Proof.
  intros [-> _] Hb. unfold BPB, BSIZE in *. pose proof (Z.div_mod bi 8 ltac:(lia)).
  pose proof (Z.mod_pos_bound bi 8 ltac:(lia)). lia.
Qed.

Lemma bit_split bi bj : 0 ≤ bi → 0 ≤ bj →
  bi = bj ↔ Z.to_nat (bi / 8) = Z.to_nat (bj / 8) ∧ bi mod 8 = bj mod 8.
Proof.
  intros. split; [by intros ->|]. intros [E1 E2].
  pose proof (Z.div_mod bi 8 ltac:(lia)). pose proof (Z.div_mod bj 8 ltac:(lia)).
  assert (0 ≤ bi / 8) by (apply Z.div_pos; lia). assert (0 ≤ bj / 8) by (apply Z.div_pos; lia).
  apply Z2Nat.inj in E1; lia.
Qed.

Lemma set_bit_free bi bj d :
  block d → 0 ≤ bi < BPB → 0 ≤ bj →
  bit_free bj (set_bit bi d) = if decide (bj = bi) then false else bit_free bj d.
Proof.
  intros Hd Hi Hj. pose proof (bit_index _ _ Hd Hi) as Hlt. rewrite !bit_free_testbit. unfold set_bit.
  rewrite list_lookup_total_insert_dec by done. pose proof (Z.mod_pos_bound bi 8 ltac:(lia)).
  pose proof (Z.mod_pos_bound bj 8 ltac:(lia)).
  case_decide as E; [|rewrite decide_False; [done|]; by intros ->].
  unfold bit_mask. rewrite Z.shiftl_1_l, Z.lor_spec, Z.pow2_bits_eqb, E by lia.
  case_decide as E'.
  - subst. rewrite Z.eqb_refl. by rewrite orb_true_r.
  - rewrite (proj2 (Z.eqb_neq _ _)); [by rewrite orb_false_r|]. intros E2. apply E'.
    by apply bit_split; [lia..|].
Qed.

Lemma clear_bit_free bi bj d :
  block d → 0 ≤ bi < BPB → 0 ≤ bj →
  bit_free bj (clear_bit bi d) = if decide (bj = bi) then true else bit_free bj d.
Proof.
  intros Hd Hi Hj. pose proof (bit_index _ _ Hd Hi) as Hlt. rewrite !bit_free_testbit. unfold clear_bit.
  rewrite list_lookup_total_insert_dec by done. pose proof (Z.mod_pos_bound bi 8 ltac:(lia)).
  pose proof (Z.mod_pos_bound bj 8 ltac:(lia)).
  case_decide as E; [|rewrite decide_False; [done|]; by intros ->].
  unfold bit_mask, wrap. rewrite Z.shiftl_1_l, Z.land_spec, E, Z.mod_pow2_bits_low, Z.lnot_spec,
    Z.pow2_bits_eqb by lia.
  case_decide as E'.
  - subst. rewrite Z.eqb_refl. by rewrite andb_false_r.
  - rewrite (proj2 (Z.eqb_neq _ _)); [by rewrite andb_true_r|]. intros E2. apply E'.
    by apply bit_split; [lia..|].
Qed.

Lemma block_byte d k : block d → is_byte (d !!! k).
Proof.
  intros [_ Hb]. rewrite list_lookup_total_alt. destruct (d !! k) eqn:E; simpl; [|by split].
  by eapply Forall_lookup_1 in Hb.
Qed.

Lemma byte_bits x j : is_byte x → 8 ≤ j → Z.testbit x j = false.
Proof.
  intros Hx Hj. unfold is_byte in Hx. rewrite <- (Z.mod_small x (2 ^ 8)) by lia.
  apply Z.mod_pow2_bits_high. lia.
Qed.

Lemma bits_byte x : 0 ≤ x → (∀ j, 8 ≤ j → Z.testbit x j = false) → is_byte x.
Proof.
  intros Hx Hj. assert (x = x mod 2 ^ 8) as ->; [|apply Z.mod_pos_bound; lia].
  apply Z.bits_inj'. intros j ?. destruct (Z.lt_ge_cases j 8).
  - by rewrite Z.mod_pow2_bits_low.
  - rewrite Z.mod_pow2_bits_high by lia. by apply Hj.
Qed.

Lemma set_bit_block bi d : block d → block (set_bit bi d).
Proof.
  intros Hd. split; [unfold set_bit; rewrite length_insert; apply Hd|].
  apply Forall_insert; [apply Hd|]. pose proof (block_byte d (Z.to_nat (bi / 8)) Hd) as Hx.
  pose proof (Z.mod_pos_bound bi 8 ltac:(lia)). unfold bit_mask. rewrite Z.shiftl_1_l.
  apply bits_byte.
  - apply Z.lor_nonneg. split; [apply Hx|]. apply Z.pow_nonneg. lia.
  - intros j Hj. rewrite Z.lor_spec, byte_bits, Z.pow2_bits_false by (done || lia). done.
Qed.

Lemma clear_bit_block bi d : block d → block (clear_bit bi d).
Proof.
  intros Hd. split; [unfold clear_bit; rewrite length_insert; apply Hd|].
  apply Forall_insert; [apply Hd|]. pose proof (block_byte d (Z.to_nat (bi / 8)) Hd) as Hx.
  apply bits_byte.
  - apply Z.land_nonneg. left. apply Hx.
  - intros j Hj. by rewrite Z.land_spec, byte_bits.
Qed.
End Bits.

(** * Inodes in their blocks *)

Section Words.
Implicit Types (ws d : list Z) (off n : nat).

Lemma get_put_u32s_other n' off' off ws d :
  (off + 4 * length ws ≤ length d)%nat →
  (off' + n' ≤ off ∨ off + 4 * length ws ≤ off')%nat →
  get_le n' off' (put_u32s off ws d) = get_le n' off' d.
Proof.
  revert off d. induction ws as [|w ws IH]; intros off d Hl Ho; simpl in *; [done|].
  rewrite IH by (rewrite ?length_put_le; lia). apply get_put_le_other; lia.
Qed.

Lemma get_put_u32s_same off ws d i w :
  (off + 4 * length ws ≤ length d)%nat → ws !! i = Some w →
  get_u32 (off + 4 * i) (put_u32s off ws d) = w mod 2 ^ 32.
Proof.
  revert off d i. induction ws as [|w' ws IH]; intros off d i Hl Hw; simpl in *; [done|].
  destruct i as [|i]; simpl in Hw.
  - injection Hw as ->. rewrite get_put_u32s_other by (rewrite ?length_put_le; lia).
    replace (off + 4 * 0)%nat with off by lia. by rewrite get_put_le_same by lia.
  - replace (off + 4 * S i)%nat with (off + 4 + 4 * i)%nat by lia.
    apply IH; [rewrite length_put_le; lia|done].
Qed.

Lemma u32s_eq off cnt d ws :
  length ws = cnt → (∀ i w, ws !! i = Some w → get_u32 (off + 4 * i) d = w) → u32s off cnt d = ws.
Proof.
  intros Hl Hw. apply list_eq. intros i. unfold u32s. rewrite list_lookup_fmap.
  destruct (ws !! i) as [w|] eqn:E.
  - pose proof (lookup_lt_Some _ _ _ E). rewrite lookup_seq_lt by lia. simpl. f_equal. by apply Hw.
  - apply lookup_ge_None in E. by rewrite lookup_seq_ge by lia.
Qed.

Lemma lookup_u32s off cnt d i : (i < cnt)%nat → u32s off cnt d !! i = Some (get_u32 (off + 4 * i) d).
Proof. intros. unfold u32s. rewrite list_lookup_fmap, lookup_seq_lt by done. done. Qed.

Lemma length_u32s off cnt d : length (u32s off cnt d) = cnt.
Proof. unfold u32s. by rewrite length_fmap, length_seq. Qed.
End Words.

Definition is_short (z : Z) : Prop := - 2 ^ 15 ≤ z < 2 ^ 15.
Definition is_u32 (z : Z) : Prop := 0 ≤ z < 2 ^ 32.

Record dinode_wf (di : dinode) : Prop := {
  dw_type : is_short (di_type di);
  dw_major : is_short (di_major di);
  dw_minor : is_short (di_minor di);
  dw_nlink : is_short (di_nlink di);
  dw_size : is_u32 (di_size di);
  dw_len : length (di_addrs di) = (NDIRECT + 1)%nat;
  dw_addrs : Forall is_u32 (di_addrs di);
}.

Lemma s16_mod z : is_short z → s16 (z mod 2 ^ 16) = z.
Proof.
  intros Hz. unfold sext. change (z mod 2 ^ 16) with (wrap 16 z). rewrite wrap_idemp.
  change (sext 16 z = z). by apply sext_small.
Qed.

(** lengths of blocks after stores of fields *)
Ltac plen := simpl; first [lia|rewrite length_put_le by plen; plen|rewrite length_put_u32s by plen; plen].

Section Codec.
Implicit Types (d : list Z) (off : nat) (di : dinode).

Lemma DINODE_nat : Z.to_nat DINODE_SIZE = 64%nat.
Proof. done. Qed.

Lemma length_dinode_to_bytes off di d :
  length (di_addrs di) = (NDIRECT + 1)%nat → (off + 64 ≤ length d)%nat →
  length (dinode_to_bytes off di d) = length d.
Proof.
  intros Ha Hl. unfold dinode_to_bytes.
  assert (off + 12 + 4 * length (di_addrs di) = off + 64)%nat by (rewrite Ha; simpl; lia). plen.
Qed.

Lemma dinode_to_bytes_bytes off di d : bytes d → bytes (dinode_to_bytes off di d).
Proof. intros. unfold dinode_to_bytes. apply put_u32s_bytes. by repeat apply put_le_bytes. Qed.

Lemma get_dinode_other n off' off di d :
  length (di_addrs di) = (NDIRECT + 1)%nat → (off + 64 ≤ length d)%nat →
  (off' + n ≤ off ∨ off + 64 ≤ off')%nat →
  get_le n off' (dinode_to_bytes off di d) = get_le n off' d.
Proof.
  intros Ha Hl Ho. unfold dinode_to_bytes.
  assert (off + 12 + 4 * length (di_addrs di) = off + 64)%nat as E by (rewrite Ha; simpl; lia).
  rewrite get_put_u32s_other by plen. by rewrite !get_put_le_other by plen.
Qed.

Lemma dinode_other off' off di d :
  length (di_addrs di) = (NDIRECT + 1)%nat → (off + 64 ≤ length d)%nat →
  (off' + 64 ≤ off ∨ off + 64 ≤ off')%nat →
  dinode_of_bytes off' (dinode_to_bytes off di d) = dinode_of_bytes off' d.
Proof.
  intros Ha Hl Ho. unfold dinode_of_bytes. rewrite !get_dinode_other by lia. f_equal.
  apply u32s_eq; [by rewrite length_u32s|]. intros i w Hi.
  pose proof (lookup_lt_Some _ _ _ Hi) as Hlt. rewrite length_u32s in Hlt. simpl in Hlt.
  rewrite lookup_u32s in Hi by (simpl; lia). injection Hi as <-. apply get_dinode_other; lia.
Qed.

(** Storing an inode and loading it again. *)
Lemma dinode_roundtrip off di d :
  dinode_wf di → (off + 64 ≤ length d)%nat →
  dinode_of_bytes off (dinode_to_bytes off di d) = di.
Proof.
  intros [Ht Hma Hmi Hn Hs Ha Hal] Hl.
  assert (off + 12 + 4 * length (di_addrs di) = off + 64)%nat as E by (rewrite Ha; simpl; lia).
  assert (u32s (off + 12) (NDIRECT + 1) (dinode_to_bytes off di d) = di_addrs di) as Eu.
  { apply u32s_eq; [done|]. intros i w Hi. unfold dinode_to_bytes.
    rewrite (get_put_u32s_same _ _ _ _ w); [|plen|done].
    eapply Forall_lookup_1 in Hal; [|done]. by apply Z.mod_small. }
  unfold dinode_of_bytes. rewrite Eu. unfold dinode_to_bytes.
  rewrite !get_put_u32s_other by plen.
  destruct di as [ty ma mi nl sz ad]. simpl in *.
  repeat first [rewrite get_put_le_same by plen
               |rewrite get_put_le_other by plen].
  change (256 ^ Z.of_nat 2) with (2 ^ 16). change (256 ^ Z.of_nat 4) with (2 ^ 32).
  rewrite !s16_mod by done. by rewrite Z.mod_small by apply Hs.
Qed.
End Codec.

(** * The parts of the disk *)

Definition data_start (sb : superblock) : Z := sb_bmapstart sb + sb_size sb / BPB + 1.
Definition inum_ok (sb : superblock) (i : Z) : Prop := 0 ≤ i < sb_ninodes sb.

Section Geometry.
Context {St : Type} `{!TxnIO St, !TxnSpec St}.

(** The superblock, the inodes, the free map and the data blocks follow one
    another, and the log lets a transaction update everything from the inodes on. *)
Record geom (sb : superblock) (V : list (list Z)) : Prop := {
  g_sb : sb_of_bytes (V !!! 1%nat) = sb;
  g_inode : 2 ≤ sb_inodestart sb;
  g_ninodes : 0 ≤ sb_ninodes sb;
  g_bmap : sb_inodestart sb + sb_ninodes sb / IPB < sb_bmapstart sb;
  g_data : data_start sb ≤ sb_size sb;
  g_size : sb_size sb ≤ Z.of_nat (length V) < 2 ^ 31;
  g_home n : sb_inodestart sb ≤ n < sb_size sb → tx_home (length V) n;
}.

Lemma geom_store sb V n d :
  geom sb V → 2 ≤ n → geom sb (<[Z.to_nat n := d]> V).
Proof.
  intros [] Hn. split; rewrite ?length_insert; try done. by rewrite list_lookup_total_insert_ne by lia.
Qed.
End Geometry.

(** The number of the block of a file is part of a [V] of that geometry. *)
Lemma IBLOCK_range `{!TxnIO St, !TxnSpec St} sb V i :
  geom sb V → inum_ok sb i → sb_inodestart sb ≤ IBLOCK i sb < sb_bmapstart sb.
Proof.
  intros [] [? ?]. unfold IBLOCK in *. change IPB with 8 in *.
  assert (0 ≤ i / 8) by (apply Z.div_pos; lia).
  assert (i / 8 ≤ sb_ninodes sb / 8) by (apply Z.div_le_mono; lia). lia.
Qed.

Lemma BBLOCK_range `{!TxnIO St, !TxnSpec St} sb V b :
  geom sb V → 0 ≤ b < sb_size sb → sb_bmapstart sb ≤ BBLOCK b sb < data_start sb.
Proof.
  intros [] ?. unfold BBLOCK, data_start in *. change BPB with 4096 in *.
  assert (0 ≤ b / 4096) by (apply Z.div_pos; lia).
  assert (b / 4096 ≤ sb_size sb / 4096) by (apply Z.div_le_mono; lia). lia.
Qed.

Section View.
Implicit Types (V : list (list Z)) (sb : superblock) (a : list Z) (di : dinode).

(** Is block [b] marked in use? *)
Definition used V sb (b : Z) : bool :=
  negb (bit_free (b mod BPB) (V !!! Z.to_nat (BBLOCK b sb))).

(** Inode [i] as it is on disk. *)
Definition dino V sb (i : Z) : dinode :=
  dinode_of_bytes (inode_off i) (V !!! Z.to_nat (IBLOCK i sb)).

(** The block pointers of an inode: 0 to NDIRECT-1 the direct blocks, NDIRECT the
    indirect block, and from NDIRECT+1 on the entries of the indirect block. *)
Definition NPTR : nat := NDIRECT + 1 + NINDIRECT.
Definition ptr V a (p : nat) : Z :=
  if decide (p ≤ NDIRECT)%nat then a !!! p
  else if a !!! NDIRECT =? 0 then 0
  else get_u32 (4 * (p - (NDIRECT + 1))) (V !!! Z.to_nat (a !!! NDIRECT)).

(** The block of the file that holds its bytes from 512 * k on. *)
Definition slot (k : nat) : nat := if decide (k < NDIRECT)%nat then k else S k.
Definition fptr V a (k : nat) : Z := ptr V a (slot k).

(** The contents of a file. *)
Definition fbyte V a (off : Z) : Z :=
  V !!! Z.to_nat (fptr V a (Z.to_nat (off / BSIZE))) !!! Z.to_nat (off mod BSIZE).
Definition frange V a (off len : Z) : list Z := fbyte V a <$> seqZ off len.
Definition fdata V di : list Z := frange V (di_addrs di) 0 (di_size di).

(** The inode table [I] describes a file system on [V]: every block pointer leads
    to a data block, no block has two owners, the free map marks exactly the
    blocks before the data, those that have an owner, and those of [E] (allocated and
    not yet linked to an inode), and every byte of a file has a block, except while the
    file is truncated (the inodes [T]). *)
Record fs_ok V sb (I : Z → dinode) (E T : gset Z) : Prop := {
  fo_wf i : inum_ok sb i → dinode_wf (I i);
  fo_own i p : inum_ok sb i → (p < NPTR)%nat → ptr V (di_addrs (I i)) p ≠ 0 →
    data_start sb ≤ ptr V (di_addrs (I i)) p < sb_size sb;
  fo_inj i p j q : inum_ok sb i → (p < NPTR)%nat → inum_ok sb j → (q < NPTR)%nat →
    ptr V (di_addrs (I i)) p ≠ 0 → ptr V (di_addrs (I i)) p = ptr V (di_addrs (I j)) q → i = j ∧ p = q;
  fo_extra b : b ∈ E → data_start sb ≤ b < sb_size sb ∧
    ∀ i p, inum_ok sb i → (p < NPTR)%nat → ptr V (di_addrs (I i)) p ≠ b;
  fo_used b : 0 ≤ b < sb_size sb → used V sb b = true ↔
    b < data_start sb ∨ b ∈ E ∨ ∃ i p, inum_ok sb i ∧ (p < NPTR)%nat ∧ ptr V (di_addrs (I i)) p = b;
  fo_dense i k : inum_ok sb i → i ∉ T → 0 ≤ k → k * BSIZE < di_size (I i) →
    k < MAXFILE ∧ fptr V (di_addrs (I i)) (Z.to_nat k) ≠ 0;
}.

Lemma NPTR_eq : NPTR = 141%nat.
Proof. done. Qed.

Lemma slot_lt k : Z.of_nat k < MAXFILE → (slot k < NPTR)%nat.
Proof. rewrite NPTR_eq. unfold slot. intros. change MAXFILE with 140 in *. change NDIRECT with 12%nat. case_decide; lia. Qed.

Lemma slot_inj k k' : slot k = slot k' → k = k'.
Proof. unfold slot. repeat case_decide; lia. Qed.

Lemma slot_ne k : slot k ≠ NDIRECT.
Proof. unfold slot. case_decide; lia. Qed.

Lemma ptr_direct V a p : (p ≤ NDIRECT)%nat → ptr V a p = a !!! p.
Proof. intros. unfold ptr. by rewrite decide_True. Qed.

Lemma ptr_indirect V a p :
  (NDIRECT < p)%nat → a !!! NDIRECT ≠ 0 →
  ptr V a p = get_u32 (4 * (p - (NDIRECT + 1))) (V !!! Z.to_nat (a !!! NDIRECT)).
Proof. intros. unfold ptr. rewrite decide_False by lia. by rewrite (proj2 (Z.eqb_neq _ _)). Qed.

(** What the pointers and bits depend on. *)
Lemma ptr_ext V V' a p :
  (a !!! NDIRECT ≠ 0 → V' !!! Z.to_nat (a !!! NDIRECT) = V !!! Z.to_nat (a !!! NDIRECT)) →
  ptr V' a p = ptr V a p.
Proof.
  intros Hi. unfold ptr. case_decide; [done|]. destruct (Z.eqb_spec (a !!! NDIRECT) 0); [done|]. by rewrite Hi.
Qed.

Lemma used_ext V V' sb b :
  V' !!! Z.to_nat (BBLOCK b sb) = V !!! Z.to_nat (BBLOCK b sb) → used V' sb b = used V sb b.
Proof. unfold used. by intros ->. Qed.

Lemma dino_ext V V' sb i :
  V' !!! Z.to_nat (IBLOCK i sb) = V !!! Z.to_nat (IBLOCK i sb) → dino V' sb i = dino V sb i.
Proof. unfold dino. by intros ->. Qed.
End View.

(** * Updates that keep the invariant *)

Section Updates.
Context (sb : superblock).
Implicit Types (V : list (list Z)) (I : Z → dinode) (E T : gset Z) (a : list Z).

(** Only the free map and the indirect blocks matter. *)
Lemma fs_ok_ext V V' I E T :
  fs_ok V sb I E T →
  (∀ b, 0 ≤ b < sb_size sb → V' !!! Z.to_nat (BBLOCK b sb) = V !!! Z.to_nat (BBLOCK b sb)) →
  (∀ i, inum_ok sb i → di_addrs (I i) !!! NDIRECT ≠ 0 →
     V' !!! Z.to_nat (di_addrs (I i) !!! NDIRECT) = V !!! Z.to_nat (di_addrs (I i) !!! NDIRECT)) →
  fs_ok V' sb I E T.
Proof.
  intros [Hwf Hown Hinj Hex Hus Hde] Hb Hi.
  assert (∀ i p, inum_ok sb i → ptr V' (di_addrs (I i)) p = ptr V (di_addrs (I i)) p) as Hp.
  { intros i p Hok. apply ptr_ext. auto. }
  split; [done|..].
  - intros i p Hok Hlt. rewrite Hp by done. auto.
  - intros i p j q Hok Hlt Hok' Hlt'. rewrite !Hp by done. auto.
  - intros b Hb'. destruct (Hex b Hb') as [? Hne]. split; [done|]. intros i p Hok Hlt. rewrite Hp by done. auto.
  - intros b Hr. rewrite (used_ext V) by auto. rewrite Hus by done.
    do 2 (apply or_iff_compat_l). split; intros (i&p&Hok&Hlt&Hpb); exists i, p; [rewrite Hp by done|rewrite <- Hp by done]; done.
  - intros i k Hok HT Hk Hs. unfold fptr. rewrite Hp by done. by apply Hde.
Qed.

(** One pointer of one inode becomes [b]. *)
Lemma fs_ok_link V V' I I' E T i0 p0 b :
  fs_ok V sb I E T → inum_ok sb i0 → (p0 < NPTR)%nat →
  (∀ i, inum_ok sb i → dinode_wf (I' i) ∧ di_size (I' i) = di_size (I i)) →
  (∀ i q, inum_ok sb i → (q < NPTR)%nat →
     ptr V' (di_addrs (I' i)) q = if decide (i = i0 ∧ q = p0) then b else ptr V (di_addrs (I i)) q) →
  (∀ b, 0 ≤ b < sb_size sb → used V' sb b = used V sb b) →
  ptr V (di_addrs (I i0)) p0 = 0 → b ∈ E → 0 < data_start sb →
  fs_ok V' sb I' (E ∖ {[b]}) T.
Proof.
  intros [Hwf Hown Hinj Hex Hus Hde] Hi0 Hp0 Hwf' Hp Hu Hz HbE Hds.
  destruct (Hex b HbE) as [Hbr Hbn]. split.
  - intros i Hi. by apply Hwf'.
  - intros i p Hi Hlt. rewrite Hp by done. case_decide; [by intros _|]. auto.
  - intros i p j q Hi Hlt Hj Hlt'. rewrite !Hp by done. do 2 case_decide.
    + naive_solver.
    + intros _ Eb. by destruct (Hbn j q).
    + intros _ Eb. by destruct (Hbn i p).
    + auto.
  - intros c [Hc Hne]%elem_of_difference. rewrite not_elem_of_singleton in Hne.
    destruct (Hex c Hc) as [? Hcn]. split; [done|]. intros i p Hi Hlt. rewrite Hp by done.
    case_decide; auto.
  - intros c Hc. rewrite Hu, Hus by done. split.
    + intros [?|[Hc'|(i&p&Hi&Hlt&Hpc)]]; [by left| |].
      * destruct (decide (c = b)) as [->|Hne]; [|right; left; set_solver].
        right; right. exists i0, p0. rewrite Hp by done. by rewrite decide_True.
      * destruct (decide (c = 0)); [left; lia|].
        right; right. exists i, p. split_and!; [done..|]. rewrite Hp by done.
        rewrite decide_False; [done|]. intros [-> ->]. by rewrite Hz in Hpc.
    + intros [?|[Hc'|(i&p&Hi&Hlt&Hpc)]]; [by left|right; left; set_solver|].
      rewrite Hp in Hpc by done. case_decide; [subst; by right; left|].
      right; right. by exists i, p.
  - intros i k Hi HT Hk Hs. destruct (Hwf' i Hi) as [_ Es]. rewrite Es in Hs.
    destruct (Hde i k Hi HT Hk Hs) as [Hm Hf]. split; [done|]. unfold fptr in *.
    rewrite Hp; [|done|apply slot_lt; lia]. case_decide; [lia|done].
Qed.

(** Some pointers of an inode that is being truncated become 0: their blocks
    are allocated and have no owner. *)
Lemma fs_ok_unlink V I I' E T i0 (Q : list nat) :
  fs_ok V sb I E T → inum_ok sb i0 → i0 ∈ T → Forall (λ q, (q < NPTR)%nat) Q →
  (∀ i, inum_ok sb i → dinode_wf (I' i) ∧ (i ≠ i0 → I' i = I i)) →
  (∀ q, (q < NPTR)%nat →
     ptr V (di_addrs (I' i0)) q = if decide (q ∈ Q) then 0 else ptr V (di_addrs (I i0)) q) →
  0 < data_start sb →
  fs_ok V sb I' (E ∪ list_to_set (filter (.≠ 0) (ptr V (di_addrs (I i0)) <$> Q))) T.
Proof.
  intros [Hwf Hown Hinj Hex Hus Hde] Hi0 HT HQ Hwf' Hp Hds.
  rewrite list.Forall_forall in HQ.
  assert (∀ i p, inum_ok sb i → (p < NPTR)%nat →
    ptr V (di_addrs (I' i)) p = if decide (i = i0 ∧ p ∈ Q) then 0 else ptr V (di_addrs (I i)) p) as Hp'.
  { intros i p Hi Hlt. destruct (decide (i = i0)) as [->|Hne].
    - rewrite Hp by done. do 2 case_decide; naive_solver.
    - rewrite decide_False by naive_solver. by rewrite (proj2 (Hwf' i Hi) Hne). }
  assert (∀ c, c ∈ (list_to_set (filter (.≠ 0) (ptr V (di_addrs (I i0)) <$> Q)) : gset Z) ↔
    c ≠ 0 ∧ ∃ q, q ∈ Q ∧ ptr V (di_addrs (I i0)) q = c) as HF.
  { intros c. rewrite elem_of_list_to_set, list_elem_of_filter, list_elem_of_fmap. naive_solver. }
  clear Hp. split.
  - intros i Hi. by apply Hwf'.
  - intros i p Hi Hlt. rewrite Hp' by done. case_decide; [done|]. auto.
  - intros i p j q Hi Hlt Hj Hlt'. rewrite !Hp' by done. do 2 case_decide; try done. auto.
  - intros c [Hc|Hc]%elem_of_union.
    + destruct (Hex c Hc) as [? Hcn]. split; [done|]. intros i p Hi Hlt. rewrite Hp' by done.
      case_decide; [lia|auto].
    + apply HF in Hc as (Hc0&q&Hq&<-). split; [auto|].
      intros i p Hi Hlt. rewrite Hp' by done. case_decide as Hd; [done|]. intros Eq.
      destruct (Hinj i0 q i p) as [-> ->]; auto.
  - intros c Hc. rewrite Hus by done. split.
    + intros [?|[Hc'|(i&p&Hi&Hlt&Hpc)]]; [by left|right; left; set_solver|].
      destruct (decide (i = i0 ∧ p ∈ Q)) as [[-> Hq]|Hn].
      * destruct (decide (c = 0)); [left; lia|]. right; left. apply elem_of_union_r, HF. eauto.
      * right; right. exists i, p. rewrite Hp' by done. by rewrite decide_False.
    + intros [?|[[Hc'|Hc']%elem_of_union|(i&p&Hi&Hlt&Hpc)]]; [by left|by right; left| |].
      * apply HF in Hc' as (_&q&Hq&<-). right; right. exists i0, q. auto.
      * rewrite Hp' in Hpc by done. case_decide; [left; lia|]. right; right. by exists i, p.
  - intros i k Hi HiT Hk Hs. assert (i ≠ i0) as Hne by (intros ->; done).
    rewrite (proj2 (Hwf' i Hi) Hne) in *. by apply Hde.
Qed.
End Updates.

Section Map.
Context {St : Type} `{!TxnIO St, !TxnSpec St} (sb : superblock).
Implicit Types (V : list (list Z)) (I : Z → dinode) (E T : gset Z) (a : list Z).

Lemma block_at V n : Forall block V → 0 ≤ n < Z.of_nat (length V) → block (V !!! Z.to_nat n).
Proof.
  intros HV Hn. destruct (lookup_lt_is_Some_2 V (Z.to_nat n)) as [d Hd]; [lia|].
  rewrite (list_lookup_total_correct _ _ _ Hd). by eapply Forall_lookup_1 in HV.
Qed.

Lemma BBLOCK_bit b b' :
  0 ≤ b → 0 ≤ b' → b' = b ↔ BBLOCK b' sb = BBLOCK b sb ∧ b' mod BPB = b mod BPB.
Proof.
  intros. split; [by intros ->|]. unfold BBLOCK. intros [E1 E2].
  pose proof (Z.div_mod b BPB ltac:(done)). pose proof (Z.div_mod b' BPB ltac:(done)).
  assert (b' / BPB = b / BPB) as E3 by lia. rewrite E3, E2 in *. lia.
Qed.

Lemma used_update V b b' d :
  geom sb V → 0 ≤ b < sb_size sb → 0 ≤ b' < sb_size sb →
  used (<[Z.to_nat (BBLOCK b sb) := d]> V) sb b' =
    if decide (BBLOCK b' sb = BBLOCK b sb) then negb (bit_free (b' mod BPB) d) else used V sb b'.
Proof.
  intros Hg Hb Hb'. unfold used. pose proof (BBLOCK_range sb V b Hg Hb).
  pose proof (BBLOCK_range sb V b' Hg Hb'). pose proof (g_size _ _ Hg). pose proof (g_data _ _ Hg).
  pose proof (g_inode _ _ Hg). pose proof (g_bmap _ _ Hg). pose proof (g_ninodes _ _ Hg).
  assert (0 ≤ sb_ninodes sb / IPB) by (apply Z.div_pos; [lia|done]).
  rewrite list_lookup_total_insert_dec by lia.
  repeat case_decide; try done; lia.
Qed.

(** The free map after marking block [b], and after clearing its mark. *)
Definition mark V (b : Z) : list (list Z) :=
  <[Z.to_nat (BBLOCK b sb) := set_bit (b mod BPB) (V !!! Z.to_nat (BBLOCK b sb))]> V.
Definition unmark V (b : Z) : list (list Z) :=
  <[Z.to_nat (BBLOCK b sb) := clear_bit (b mod BPB) (V !!! Z.to_nat (BBLOCK b sb))]> V.

Lemma bmap_block V b :
  geom sb V → Forall block V → 0 ≤ b < sb_size sb → block (V !!! Z.to_nat (BBLOCK b sb)).
Proof.
  intros Hg HV Hb. apply block_at; [done|]. pose proof (BBLOCK_range sb V b Hg Hb).
  pose proof (g_size _ _ Hg). pose proof (g_data _ _ Hg). pose proof (g_inode _ _ Hg).
  pose proof (g_bmap _ _ Hg). pose proof (g_ninodes _ _ Hg).
  assert (0 ≤ sb_ninodes sb / IPB) by (apply Z.div_pos; [lia|done]). lia.
Qed.

Lemma used_mark V b b' :
  geom sb V → Forall block V → 0 ≤ b < sb_size sb → 0 ≤ b' < sb_size sb →
  used (mark V b) sb b' = if decide (b' = b) then true else used V sb b'.
Proof.
  intros Hg HV Hb Hb'. unfold mark. rewrite used_update by done.
  pose proof (bmap_block V b Hg HV Hb) as Hblk.
  pose proof (Z.mod_pos_bound b BPB ltac:(done)). pose proof (Z.mod_pos_bound b' BPB ltac:(done)).
  destruct (decide (BBLOCK b' sb = BBLOCK b sb)) as [Eb|Hne].
  - rewrite set_bit_free by (done || lia). pose proof (BBLOCK_bit b b') as Hbit.
    destruct (decide (b' = b)) as [->|Hne']; [by rewrite decide_True|].
    rewrite decide_False; [unfold used; by rewrite Eb|]. intros Em. apply Hne', Hbit; lia.
  - rewrite decide_False; [done|]. by intros ->.
Qed.

Lemma used_unmark V b b' :
  geom sb V → Forall block V → 0 ≤ b < sb_size sb → 0 ≤ b' < sb_size sb →
  used (unmark V b) sb b' = if decide (b' = b) then false else used V sb b'.
Proof.
  intros Hg HV Hb Hb'. unfold unmark. rewrite used_update by done.
  pose proof (bmap_block V b Hg HV Hb) as Hblk.
  pose proof (Z.mod_pos_bound b BPB ltac:(done)). pose proof (Z.mod_pos_bound b' BPB ltac:(done)).
  destruct (decide (BBLOCK b' sb = BBLOCK b sb)) as [Eb|Hne].
  - rewrite clear_bit_free by (done || lia). pose proof (BBLOCK_bit b b') as Hbit.
    destruct (decide (b' = b)) as [->|Hne']; [by rewrite decide_True|].
    rewrite decide_False; [unfold used; by rewrite Eb|]. intros Em. apply Hne', Hbit; lia.
  - rewrite decide_False; [done|]. by intros ->.
Qed.

(** The geometry in one place. *)
Lemma geom_facts V :
  geom sb V →
  2 ≤ sb_inodestart sb ∧ sb_inodestart sb < sb_bmapstart sb ∧
  sb_bmapstart sb < data_start sb ∧ data_start sb ≤ sb_size sb ∧
  sb_size sb ≤ Z.of_nat (length V) < 2 ^ 31.
Proof.
  intros Hg. destruct Hg as [_ ? ? ? ? ? _]. unfold data_start in *.
  assert (0 ≤ sb_ninodes sb / IPB) by (apply Z.div_pos; [lia|done]).
  change BPB with 4096 in *. pose proof (Z.div_mod (sb_size sb) 4096 ltac:(lia)).
  pose proof (Z.mod_pos_bound (sb_size sb) 4096 ltac:(lia)). lia.
Qed.

(** Allocation of a free block. *)
Lemma fs_ok_alloc V I E T b :
  geom sb V → Forall block V → fs_ok V sb I E T → 0 ≤ b < sb_size sb → used V sb b = false →
  fs_ok (<[Z.to_nat b := zero_block]> (mark V b)) sb I ({[b]} ∪ E) T ∧ b ∉ E ∧ data_start sb ≤ b ∧
  ∀ i p, inum_ok sb i → (p < NPTR)%nat → ptr V (di_addrs (I i)) p ≠ b.
Proof.
  intros Hg HV Hok Hb Hu. pose proof (geom_facts V Hg) as Hgf. pose proof Hok as [Hwf Hown Hinj Hex Hus Hde].
  assert (data_start sb ≤ b ∧ b ∉ E ∧
    ∀ i p, inum_ok sb i → (p < NPTR)%nat → ptr V (di_addrs (I i)) p ≠ b) as (Hds&HbE&Hbn).
  { pose proof (proj2 (Hus b Hb)) as Hn. rewrite Hu in Hn. split_and!.
    - destruct (Z.lt_ge_cases b (data_start sb)); [|done]. by discriminate Hn; left.
    - intros ?. by discriminate Hn; right; left.
    - intros i p Hi Hp Hpb. discriminate Hn. right; right. by exists i, p. }
  split; [|done].
  eapply (fs_ok_ext sb (mark V b)); cycle 1.
  - intros c Hc. pose proof (BBLOCK_range sb V c Hg Hc). rewrite list_lookup_total_insert_ne; [done|lia].
  - intros i Hi Hne. assert (ptr V (di_addrs (I i)) NDIRECT ≠ 0) as Hp0 by done.
    pose proof (Hown i NDIRECT Hi ltac:(rewrite NPTR_eq; unfold NDIRECT; lia) Hp0) as Hr.
    pose proof (Hbn i NDIRECT Hi ltac:(rewrite NPTR_eq; unfold NDIRECT; lia)) as Hnb.
    rewrite ptr_direct in Hr, Hnb by lia. rewrite list_lookup_total_insert_ne; [done|lia].
  - assert (∀ i p, inum_ok sb i → (p < NPTR)%nat →
      ptr (mark V b) (di_addrs (I i)) p = ptr V (di_addrs (I i)) p) as Hp.
    { intros i p Hi Hlt. apply ptr_ext. intros Hne.
      assert (ptr V (di_addrs (I i)) NDIRECT ≠ 0) as Hp0 by done.
      pose proof (Hown i NDIRECT Hi ltac:(rewrite NPTR_eq; unfold NDIRECT; lia) Hp0) as Hr.
      rewrite ptr_direct in Hr by lia. pose proof (BBLOCK_range sb V b Hg Hb).
      unfold mark. rewrite list_lookup_total_insert_ne; [done|lia]. }
    split; [done|..].
    + intros i p Hi Hlt. rewrite Hp by done. auto.
    + intros i p j q Hi Hlt Hj Hlt'. rewrite !Hp by done. auto.
    + intros c [Hc%elem_of_singleton|Hc]%elem_of_union; [subst c|].
      * split; [lia|]. intros i p Hi Hlt. rewrite Hp by done. auto.
      * destruct (Hex c Hc) as [? Hcn]. split; [done|]. intros i p Hi Hlt. rewrite Hp by done. auto.
    + intros c Hc. rewrite used_mark by done. destruct (decide (c = b)) as [->|Hne].
      * split; [intros _|done]. right; left. set_solver.
      * rewrite Hus by done. apply or_iff_compat_l. rewrite elem_of_union, elem_of_singleton.
        split; (intros [?|(i&p&Hi&Hlt&Hpc)]; [|right; exists i, p; split_and!; [done..|];
          (by rewrite Hp by done) || (by rewrite Hp in Hpc by done)]); [by left; right|naive_solver].
    + intros i k Hi HiT Hk Hs. destruct (Hde i k Hi HiT Hk Hs) as [Hm Hf]. split; [done|].
      unfold fptr. rewrite Hp; [done..|]. apply slot_lt. lia.
Qed.

(** Freeing a block that has no owner. *)
Lemma fs_ok_free V I E T b :
  geom sb V → Forall block V → fs_ok V sb I E T → b ∈ E → fs_ok (unmark V b) sb I (E ∖ {[b]}) T.
Proof.
  intros Hg HV Hok HbE. pose proof (geom_facts V Hg) as Hgf. pose proof Hok as [Hwf Hown Hinj Hex Hus Hde].
  destruct (Hex b HbE) as [Hbr Hbn].
  assert (∀ i p, inum_ok sb i → (p < NPTR)%nat →
    ptr (unmark V b) (di_addrs (I i)) p = ptr V (di_addrs (I i)) p) as Hp.
  { intros i p Hi Hlt. apply ptr_ext. intros Hne.
    assert (ptr V (di_addrs (I i)) NDIRECT ≠ 0) as Hp0 by done.
    pose proof (Hown i NDIRECT Hi ltac:(rewrite NPTR_eq; unfold NDIRECT; lia) Hp0) as Hr.
    rewrite ptr_direct in Hr by lia. pose proof (BBLOCK_range sb V b Hg ltac:(lia)).
    unfold unmark. rewrite list_lookup_total_insert_ne; [done|lia]. }
  split; [done|..].
  - intros i p Hi Hlt. rewrite Hp by done. auto.
  - intros i p j q Hi Hlt Hj Hlt'. rewrite !Hp by done. auto.
  - intros c [Hc _]%elem_of_difference. destruct (Hex c Hc) as [? Hcn]. split; [done|].
    intros i p Hi Hlt. rewrite Hp by done. auto.
  - intros c Hc. rewrite used_unmark by (done || lia). destruct (decide (c = b)) as [->|Hne].
    + split; [done|]. intros [?|[?|(i&p&Hi&Hlt&Hpb)]]; [lia|set_solver|].
      rewrite Hp in Hpb by done. by destruct (Hbn i p).
    + rewrite Hus by done. apply or_iff_compat_l. rewrite elem_of_difference, elem_of_singleton.
      split; (intros [?|(i&p&Hi&Hlt&Hpc)]; [naive_solver|right; exists i, p; split_and!; [done..|];
          (by rewrite Hp by done) || (by rewrite Hp in Hpc by done)]).
  - intros i k Hi HiT Hk Hs. destruct (Hde i k Hi HiT Hk Hs) as [Hm Hf]. split; [done|].
    unfold fptr. rewrite Hp; [done..|]. apply slot_lt. lia.
Qed.
End Map.

(** * Pointers *)

Section Pointers.
Implicit Types (V : list (list Z)) (a : list Z).

Lemma le_dec_zero l : Forall (.= 0) l → le_dec l = 0.
Proof. induction 1 as [|x l Hx Hl IH]; simpl; [done|]. by rewrite IH, Hx. Qed.

Lemma get_zero_block n off : get_le n off zero_block = 0.
Proof. apply le_dec_zero, sub_forall. unfold zero_block. by apply Forall_replicate. Qed.

Lemma ptr_link V a p b q :
  length a = (NDIRECT + 1)%nat → (p ≤ NDIRECT)%nat → a !!! p = 0 →
  (p = NDIRECT → V !!! Z.to_nat b = zero_block) →
  ptr V (<[p := b]> a) q = if decide (q = p) then b else ptr V a q.
Proof.
  intros Hl Hp Hz Hb. unfold ptr. rewrite !list_lookup_total_insert_dec by lia.
  destruct (decide (q ≤ NDIRECT)%nat) as [Hq|Hq]; [done|].
  rewrite (decide_False (P := q = p)) by lia. case_decide as E; [|done]. subst p. rewrite Hz. simpl.
  destruct (b =? 0); [done|]. rewrite Hb by done. apply get_zero_block.
Qed.

Lemma ptr_entry V a j b q :
  a !!! NDIRECT ≠ 0 → 0 ≤ a !!! NDIRECT < Z.of_nat (length V) →
  length (V !!! Z.to_nat (a !!! NDIRECT)) = Z.to_nat BSIZE →
  is_u32 b → (j < NINDIRECT)%nat →
  ptr (<[Z.to_nat (a !!! NDIRECT) := put_u32 (4 * j) b (V !!! Z.to_nat (a !!! NDIRECT))]> V) a q =
    if decide (q = NDIRECT + 1 + j)%nat then b else ptr V a q.
Proof.
  intros Hne Hr Hl Hb Hj. change NINDIRECT with 128%nat in Hj. change (Z.to_nat BSIZE) with 512%nat in Hl.
  destruct (decide (q ≤ NDIRECT)%nat) as [Hq|Hq].
  { rewrite !ptr_direct by done. by rewrite decide_False by lia. }
  rewrite !ptr_indirect by (done || lia). rewrite list_lookup_total_insert_eq by lia.
  case_decide as E.
  - subst q. replace (NDIRECT + 1 + j - (NDIRECT + 1))%nat with j by lia.
    rewrite get_put_le_same by (rewrite Hl; lia). by apply Z.mod_small.
  - apply get_put_le_other; [rewrite Hl; lia|]. lia.
Qed.

Lemma slot_indirect k : (NDIRECT ≤ k)%nat → slot k = (NDIRECT + 1 + (k - NDIRECT))%nat.
Proof. intros. unfold slot. rewrite decide_False by lia. lia. Qed.

Lemma slot_direct k : (k < NDIRECT)%nat → slot k = k.
Proof. intros. unfold slot. by rewrite decide_True. Qed.
End Pointers.

(** * Counting free blocks *)

Lemma length_filter_remove {A} (P P' : A → Prop) `{!∀ x, Decision (P x), !∀ x, Decision (P' x)} l b :
  NoDup l → b ∈ l → P b → (∀ c, c ∈ l → P' c ↔ P c ∧ c ≠ b) →
  S (length (filter P' l)) = length (filter P l).
Proof.
  induction l as [|x l IH]; intros Hnd Hb HP HP'; [by apply not_elem_of_nil in Hb|].
  apply list.NoDup_cons in Hnd as [Hx Hnd]. rewrite !filter_cons.
  pose proof (HP' x (list_elem_of_here _ _)) as Hx'.
  apply elem_of_cons in Hb as [->|Hb].
  - rewrite (decide_True (P := P x)), (decide_False (P := P' x)) by naive_solver. simpl. do 2 f_equal.
    clear IH. assert (∀ c, c ∈ l → P' c ↔ P c) as Hc.
    { intros c Hc. rewrite HP' by (by apply list_elem_of_further). split; [tauto|].
      intros ?. split; [done|]. by intros ->. }
    clear -Hc. induction l as [|y l IH]; [done|]. rewrite !filter_cons.
    pose proof (Hc y (list_elem_of_here _ _)). assert (filter P' l = filter P l) as ->.
    { apply IH. intros c ?. apply Hc. by apply list_elem_of_further. }
    repeat case_decide; naive_solver.
  - assert (x ≠ b) by (by intros ->).
    assert (S (length (filter P' l)) = length (filter P l)) as E.
    { apply IH; try done. intros c ?. apply HP'. by apply list_elem_of_further. }
    case_decide; case_decide; simpl; rewrite ?E; naive_solver.
Qed.

Definition nfree (V : list (list Z)) (sb : superblock) : nat :=
  length (filter (λ b, used V sb b = false) (seqZ 0 (sb_size sb))).

Lemma nfree_pos V sb : (0 < nfree V sb)%nat → ∃ b, 0 ≤ b < sb_size sb ∧ used V sb b = false.
Proof.
  unfold nfree. intros Hn. destruct (filter _ (seqZ 0 (sb_size sb))) as [|b l] eqn:E; [simpl in *; lia|].
  assert (b ∈ filter (λ b, used V sb b = false) (seqZ 0 (sb_size sb))) as Hb.
  { rewrite E. apply list_elem_of_here. }
  apply list_elem_of_filter in Hb as [? Hb%elem_of_seqZ]. exists b. split; [lia|done].
Qed.

Lemma nfree_alloc V V' sb b :
  0 ≤ b < sb_size sb → used V sb b = false →
  (∀ c, 0 ≤ c < sb_size sb → used V' sb c = if decide (c = b) then true else used V sb c) →
  S (nfree V' sb) = nfree V sb.
Proof.
  intros Hb Hu HV'. unfold nfree. apply (length_filter_remove _ _ _ b).
  - apply NoDup_seqZ.
  - apply elem_of_seqZ. lia.
  - done.
  - intros c Hc%elem_of_seqZ. rewrite HV' by lia. case_decide; naive_solver.
Qed.

Lemma nfree_ext V V' sb :
  (∀ c, 0 ≤ c < sb_size sb → used V' sb c = used V sb c) → nfree V' sb = nfree V sb.
Proof.
  intros HV'. unfold nfree. f_equal.
  assert (∀ l : list Z, (∀ c, c ∈ l → 0 ≤ c < sb_size sb) →
    filter (λ b, used V' sb b = false) l = filter (λ b, used V sb b = false) l) as Hl.
  { induction l as [|x l IH]; intros Hl; [done|]. rewrite !filter_cons, IH by (intros; apply Hl; by apply list_elem_of_further).
    rewrite HV' by (apply Hl, list_elem_of_here). done. }
  apply Hl. intros c Hc%elem_of_seqZ. lia.
Qed.
