(* ===== verification/FsAlloc.v ===== *)
(** The block allocator of fs.c: bzero, balloc, bfree, readsb, and the
    budget of blocks that a transaction may write. *)

From stdpp Require Import functions.
From S2P Require Import Prelude Bytes Layout Kstring Txn Fs FsDisk.

(** * The block operations under the file system *)

Section Steps.
Context {St : Type} `{!TxnIO St, !TxnSpec St}.
Implicit Types (s : fsst St) (V : list (list Z)) (X : gset Z) (H : gmap nat Z).

Lemma wp_bread s V X H n (Q : nat → fsst St → Prop) :
  tx_is (fs_io s) V X H → 0 ≤ n < Z.of_nat (length V) → (∀ b, H !! b ≠ Some n) →
  (size X ≤ tx_cap)%nat → (size H ≤ 1)%nat →
  (∀ b io, tx_is io V X (<[b := n]> H) → H !! b = None → Q b (set_fs_io io s)) →
  wp (bread ROOTDEV n) Q s.
Proof.
  intros Ht Hn Hh HX HH HQ. apply wp_zoom. eapply wp_mono; [by eapply tx_bread|].
  intros b io [Ht' Hb]. by apply HQ.
Qed.

Lemma wp_bdata s V X H b n (Q : list Z → fsst St → Prop) :
  tx_is (fs_io s) V X H → H !! b = Some n → Q (V !!! Z.to_nat n) s → wp (bdata b) Q s.
Proof. intros Ht Hb HQ. apply wp_gets. by destruct (tx_data _ _ _ _ _ _ Ht Hb) as [-> _]. Qed.

Lemma wp_store {A} s V X H b n d (k : M (fsst St) A) (Q : A → fsst St → Prop) :
  tx_is (fs_io s) V X H → H !! b = Some n → block d → tx_home (length V) n →
  (size X < tx_cap)%nat →
  (∀ io, tx_is io (<[Z.to_nat n := d]> V) ({[n]} ∪ X) H → wp k Q (set_fs_io io s)) →
  wp (set_bdata b d;; log_write b;; k) Q s.
Proof.
  intros Ht Hb Hd Hn HX HQ. pose proof (tx_store _ _ _ _ _ _ _ Ht Hb Hd Hn HX) as Hwp.
  apply wp_bind, wp_zoom. apply wp_bind in Hwp. eapply wp_mono; [exact Hwp|].
  intros [] io1 Hwp1. apply wp_bind, wp_zoom. eapply wp_mono; [exact Hwp1|].
  intros [] io2 Ht2. by apply HQ.
Qed.

Lemma wp_brelse s V X H b n (Q : unit → fsst St → Prop) :
  tx_is (fs_io s) V X H → H !! b = Some n →
  (∀ io, tx_is io V X (delete b H) → Q tt (set_fs_io io s)) → wp (brelse b) Q s.
Proof.
  intros Ht Hb HQ. apply wp_zoom. eapply wp_mono; [by eapply tx_brelse|]. intros [] io Ht'. by apply HQ.
Qed.

(** The buffer that was read last, and its release. *)
Lemma held_size b n H : H !! b = None → size (<[b := n]> H) = S (size H).
Proof. intros. by rewrite map_size_insert_None. Qed.
End Steps.

(** * The budget of a transaction

    [room X R k]: the transaction [X] may still grow by the blocks of [R] and
    by [k] more. *)

Section Budget.
Context {St : Type} `{!TxnIO St, !TxnSpec St}.
Implicit Types (X R : gset Z) (k : nat).

Definition room X R k : Prop := (size (X ∪ R) + k < tx_cap)%nat.

Lemma room_size X R k : room X R k → (size X < tx_cap)%nat.
Proof.
  unfold room. assert (size X ≤ size (X ∪ R))%nat by (apply subseteq_size; set_solver). lia.
Qed.

Lemma room_reserved X R k n : n ∈ R → room X R k → room ({[n]} ∪ X) R k.
Proof. unfold room. intros Hn. by replace ({[n]} ∪ X ∪ R) with (X ∪ R) by set_solver. Qed.

Lemma room_in X R k n : n ∈ X → room X R k → room ({[n]} ∪ X) R k.
Proof. unfold room. intros Hn. by replace ({[n]} ∪ X ∪ R) with (X ∪ R) by set_solver. Qed.

Lemma room_new X R k n : room X R (S k) → room ({[n]} ∪ X) R k.
Proof.
  unfold room. intros Hr. assert (size ({[n]} ∪ X ∪ R) ≤ S (size (X ∪ R)))%nat; [|lia].
  rewrite <- union_assoc_L, size_union_alt, size_singleton.
  assert (size ((X ∪ R) ∖ {[n]}) ≤ size (X ∪ R))%nat by (apply subseteq_size; set_solver). lia.
Qed.

Lemma room_le X R k k' : room X R k → (k' ≤ k)%nat → room X R k'.
Proof. unfold room. lia. Qed.

Lemma room_grow X R k n : room X R (S k) → room X ({[n]} ∪ R) k.
Proof.
  intros Hr. pose proof (room_new X R k n Hr). unfold room in *.
  by replace (X ∪ ({[n]} ∪ R)) with ({[n]} ∪ X ∪ R) by set_solver.
Qed.
End Budget.

(** The blocks of the free map. *)
Definition bitmaps (sb : superblock) : gset Z :=
  list_to_set (seqZ (sb_bmapstart sb) (sb_size sb / BPB + 1)).

Lemma elem_of_bitmaps sb n :
  n ∈ bitmaps sb ↔ sb_bmapstart sb ≤ n < data_start sb.
Proof. unfold bitmaps, data_start. rewrite elem_of_list_to_set, elem_of_seqZ. lia. Qed.

(** * Allocation *)

(** The inner loop finds the first free block of one block of the map. *)
Lemma balloc_scan_run sb b cnt bi d :
  0 ≤ b → 0 ≤ bi → 0 ≤ sb_size sb < 2 ^ 31 → b + bi + Z.of_nat cnt < 2 ^ 32 →
  match balloc_scan cnt b bi (sb_size sb) d with
  | Some bj => bi ≤ bj < bi + Z.of_nat cnt ∧ b + bj < sb_size sb ∧ bit_free bj d = true ∧
      ∀ bk, bi ≤ bk < bj → bit_free bk d = false
  | None => ∀ bk, bi ≤ bk < bi + Z.of_nat cnt → b + bk < sb_size sb → bit_free bk d = false
  end.
Proof.
  intros Hb. revert bi. induction cnt as [|cnt IH]; intros bi Hbi Hs Hlt; simpl.
  { intros; lia. }
  rewrite wrap_small by lia. destruct (Z.ltb_spec (b + bi) (sb_size sb)); simpl; [|intros; lia].
  destruct (bit_free bi d) eqn:Ef.
  { split_and!; try done; [lia..|]. intros; lia. }
  specialize (IH (bi + 1) ltac:(lia) Hs ltac:(lia)).
  destruct (balloc_scan cnt b (bi + 1) (sb_size sb) d) as [bj|].
  - destruct IH as (?&?&?&IH). split_and!; try done; [lia..|]. intros bk Hbk.
    destruct (decide (bk = bi)) as [->|]; [done|]. apply IH. lia.
  - intros bk Hbk Hsz. destruct (decide (bk = bi)) as [->|]; [done|]. apply IH; lia.
Qed.

Lemma BBLOCK_base sb b0 bi :
  b0 mod BPB = 0 → 0 ≤ bi < BPB → BBLOCK (b0 + bi) sb = BBLOCK b0 sb ∧ (b0 + bi) mod BPB = bi.
Proof.
  intros Hb Hbi. unfold BBLOCK. rewrite (Z_div_exact_full_2 b0 BPB) by done.
  rewrite Z.mul_comm, Z.div_add_l, Z.div_mul, (Z.div_small bi) by (done || lia).
  split; [lia|]. rewrite Z.add_comm, Z_mod_plus_full. by apply Z.mod_small.
Qed.

(** bzero clears a block. *)
Lemma bzero_run `{!TxnIO St, !TxnSpec St} sb V X H (s : fsst St) b R k (Q : unit → fsst St → Prop) :
  geom sb V → (size H ≤ 1)%nat →
  tx_is (fs_io s) V X H → sb_inodestart sb ≤ b < sb_size sb → (∀ c, H !! c ≠ Some b) →
  room X R k →
  (∀ io, tx_is io (<[Z.to_nat b := zero_block]> V) ({[b]} ∪ X) H → Q tt (set_fs_io io s)) →
  wp (bzero ROOTDEV b) Q s.
Proof.
  intros Hg HH Ht Hb Hn Hr HQ. pose proof (geom_facts sb V Hg). pose proof (room_size _ _ _ Hr).
  unfold bzero. change (u32 ROOTDEV) with ROOTDEV. rewrite wrap_small by lia. apply wp_bind.
  eapply wp_bread; [done|lia|done|lia|done|]. intros bp io1 Ht1 Hbp.
  eapply wp_store; [exact Ht1|apply lookup_insert_eq| |by apply (g_home _ _ Hg)|lia|].
  { apply (bool_decide_unpack _). vm_compute. exact I. }
  intros io2 Ht2. eapply wp_brelse; [exact Ht2|apply lookup_insert_eq|]. intros io3 Ht3.
  rewrite delete_insert_id in Ht3 by done. by apply HQ.
Qed.

Section Alloc.
Context {St : Type} `{!TxnIO St, !TxnSpec St}.
Context (sb : superblock) (V : list (list Z)) (X : gset Z) (H : gmap nat Z).
Context (Hg : geom sb V) (HV : Forall block V) (HH : (size H ≤ 1)%nat).
(** no buffer of the free map or of a free block is locked *)
Context (Hheld : ∀ b n, H !! b = Some n →
  data_start sb ≤ n ∧ (n < sb_size sb → used V sb n = true)).
(** the blocks before the data are marked *)
Context (Hmeta : ∀ b, 0 ≤ b < data_start sb → used V sb b = true).
Implicit Types (s : fsst St).

Lemma balloc_loop_run fuel s b0 k (Q : Z → fsst St → Prop) :
  tx_is (fs_io s) V X H → fs_sb s = sb → 0 ≤ b0 → b0 mod BPB = 0 →
  sb_size sb ≤ b0 + Z.of_nat fuel * BPB →
  (∀ b, 0 ≤ b < b0 → b < sb_size sb → used V sb b = true) →
  (∃ b, 0 ≤ b < sb_size sb ∧ used V sb b = false) → room X (bitmaps sb) k →
  (∀ b io, 0 ≤ b < sb_size sb → used V sb b = false → (∀ c, 0 ≤ c < b → used V sb c = true) →
     tx_is io (<[Z.to_nat b := zero_block]> (mark sb V b)) ({[b]} ∪ ({[BBLOCK b sb]} ∪ X)) H →
     Q b (set_fs_io io s)) →
  wp (balloc_loop fuel ROOTDEV b0) Q s.
Proof using Hg HV HH Hheld Hmeta.
  revert s b0. induction fuel as [|fuel IH]; intros s b0 Ht Esb Hb0 Hmod Hf Hbefore Hfree Hroom HQ.
  all: pose proof (geom_facts sb V Hg) as Hgf; cbn [balloc_loop]; apply wp_bind, wp_gets; rewrite Esb.
  all: assert (b0 < sb_size sb) as Hlt by (destruct (Z.lt_ge_cases b0 (sb_size sb)); [done|];
    destruct Hfree as (b&Hb&Hu); rewrite Hbefore in Hu by lia; done).
  { lia. }
  pose proof (BBLOCK_range sb V b0 Hg ltac:(lia)) as Hbb. pose proof (room_size _ _ _ Hroom) as HX.
  rewrite wrap_small by lia. rewrite (proj2 (Z.ltb_lt _ _)) by lia. simpl negb. cbv iota.
  rewrite wrap_small by lia. apply wp_bind.
  assert (∀ c n, H !! c = Some n → n ≠ BBLOCK b0 sb) as Hnb.
  { intros c n Hc ->. destruct (Hheld _ _ Hc). lia. }
  eapply wp_bread; [done|lia|intros c Hc; by eapply Hnb|lia|done|]. intros bp io1 Ht1 Hbp.
  apply wp_bind. eapply wp_bdata; [exact Ht1|apply lookup_insert_eq|].
  pose proof (bmap_block sb V b0 Hg HV ltac:(lia)) as Hblk.
  set (d := V !!! Z.to_nat (BBLOCK b0 sb)) in *.
  pose proof (balloc_scan_run sb b0 (Z.to_nat BPB) 0 d) as Hscan.
  change (Z.of_nat (Z.to_nat BPB)) with BPB in Hscan.
  specialize (Hscan ltac:(lia) ltac:(lia) ltac:(lia) ltac:(change BPB with 4096; lia)).
  destruct (balloc_scan (Z.to_nat BPB) b0 0 (sb_size sb) d) as [bi|].
  - destruct Hscan as (Hbi&Hsz&Hfr&Hfirst). rewrite Z.add_0_l in Hbi.
    destruct (BBLOCK_base sb b0 bi Hmod Hbi) as [EB Em].
    assert (used V sb (b0 + bi) = false) as Hub.
    { unfold used. rewrite EB, Em. fold d. by rewrite Hfr. }
    assert (data_start sb ≤ b0 + bi) as Hds.
    { destruct (Z.lt_ge_cases (b0 + bi) (data_start sb)); [|done]. rewrite Hmeta in Hub; [done|lia]. }
    cbv zeta. match goal with |- context [set_bdata bp ?x] => change x with (set_bit bi d) end.
    eapply wp_store; [exact Ht1|apply lookup_insert_eq|by apply set_bit_block|apply (g_home _ _ Hg); lia|done|].
    intros io2 Ht2. apply wp_bind. eapply wp_brelse; [exact Ht2|apply lookup_insert_eq|].
    intros io3 Ht3. rewrite delete_insert_id in Ht3 by done. apply wp_bind.
    assert (<[Z.to_nat (BBLOCK b0 sb) := set_bit bi d]> V = mark sb V (b0 + bi)) as Emk
      by (unfold mark; by rewrite EB, Em).
    rewrite Emk in Ht3. change (s32 ROOTDEV) with ROOTDEV.
    eapply (bzero_run sb (mark sb V (b0 + bi))); [|done|exact Ht3|lia| | |].
    + apply geom_store; [done|lia].
    + intros c Hc. destruct (Hheld _ _ Hc) as [_ Hu]. rewrite Hub in Hu. by discriminate Hu.
    + apply room_reserved; [|done]. apply elem_of_bitmaps. lia.
    + intros io4 Ht4. apply wp_ret. rewrite wrap_small by lia.
      apply HQ; [lia|done| |by rewrite EB]. intros c Hc. destruct (Z.lt_ge_cases c b0).
      { apply Hbefore; lia. }
      destruct (BBLOCK_base sb b0 (c - b0) Hmod ltac:(lia)) as [EB' Em'].
      replace (b0 + (c - b0)) with c in * by lia. unfold used. rewrite EB', Em'. fold d.
      by rewrite Hfirst by lia.
  - apply wp_bind. eapply wp_brelse; [exact Ht1|apply lookup_insert_eq|].
    intros io3 Ht3. rewrite delete_insert_id in Ht3 by done.
    apply IH; try done; [unfold BPB, BSIZE; lia| |lia|].
    + by rewrite <- Zplus_mod_idemp_r, Z_mod_same_full, Z.add_0_r.
    + intros c Hc Hcs. destruct (Z.lt_ge_cases c b0). { apply Hbefore; lia. }
      destruct (BBLOCK_base sb b0 (c - b0) Hmod ltac:(lia)) as [EB' Em'].
      replace (b0 + (c - b0)) with c in * by lia. unfold used. rewrite EB', Em'. fold d.
      by rewrite Hscan by lia.
Qed.

(** balloc returns the first free block, marked and cleared. *)
Lemma balloc_run s k (Q : Z → fsst St → Prop) :
  tx_is (fs_io s) V X H → fs_sb s = sb →
  (∃ b, 0 ≤ b < sb_size sb ∧ used V sb b = false) → room X (bitmaps sb) k →
  (∀ b io, 0 ≤ b < sb_size sb → used V sb b = false → (∀ c, 0 ≤ c < b → used V sb c = true) →
     tx_is io (<[Z.to_nat b := zero_block]> (mark sb V b)) ({[b]} ∪ ({[BBLOCK b sb]} ∪ X)) H →
     Q b (set_fs_io io s)) →
  wp (balloc ROOTDEV) Q s.
Proof using Hg HV HH Hheld Hmeta.
  intros Ht Esb Hfree Hroom HQ. pose proof (geom_facts sb V Hg) as Hgf.
  unfold balloc. apply wp_bind, wp_gets. rewrite Esb.
  eapply balloc_loop_run; try done; [|intros; lia].
  change BPB with 4096. pose proof (Z.div_mod (sb_size sb) 4096 ltac:(lia)).
  pose proof (Z.mod_pos_bound (sb_size sb) 4096 ltac:(lia)).
  assert (0 ≤ sb_size sb / 4096) by (apply Z.div_pos; lia). lia.
Qed.

(** bfree of a block that is in use clears its mark. *)
Lemma readsb_run s (Q : unit → fsst St → Prop) :
  tx_is (fs_io s) V X H → fs_sb s = sb → (size X ≤ tx_cap)%nat →
  (∀ io, tx_is io V X H → Q tt (set_fs_io io s)) → wp (readsb ROOTDEV) Q s.
Proof using Hg HH Hheld.
  intros Ht Esb HX HQ. pose proof (geom_facts sb V Hg) as Hgf. unfold readsb.
  change (u32 ROOTDEV) with ROOTDEV. apply wp_bind.
  eapply wp_bread; [done|lia| |done|done|].
  { intros c Hc. destruct (Hheld _ _ Hc). lia. }
  intros bp io1 Ht1 Hbp. apply wp_bind. eapply wp_bdata; [exact Ht1|apply lookup_insert_eq|].
  change (Z.to_nat 1) with 1%nat. rewrite (g_sb _ _ Hg). apply wp_bind, wp_modify.
  eapply (wp_brelse _ V X); [exact Ht1|apply lookup_insert_eq|]. intros io2 Ht2.
  rewrite delete_insert_id in Ht2 by done.
  replace (set_fs_io io2 (set_fs_sb sb (set_fs_io io1 s))) with (set_fs_io io2 s); [by apply HQ|].
  unfold set_fs_io, set_fs_sb. simpl. by rewrite Esb.
Qed.

Lemma bfree_run s b k (Q : unit → fsst St → Prop) :
  tx_is (fs_io s) V X H → fs_sb s = sb → 0 ≤ b < sb_size sb → used V sb b = true →
  room X (bitmaps sb) k →
  (∀ io, tx_is io (unmark sb V b) ({[BBLOCK b sb]} ∪ X) H → Q tt (set_fs_io io s)) →
  wp (bfree ROOTDEV b) Q s.
Proof using Hg HV HH Hheld.
  intros Ht Esb Hb Hu Hroom HQ. pose proof (geom_facts sb V Hg) as Hgf.
  pose proof (room_size _ _ _ Hroom) as HX. pose proof (BBLOCK_range sb V b Hg Hb) as Hbb.
  unfold bfree. apply wp_bind. eapply readsb_run; [done..|lia|]. intros io1 Ht1.
  apply wp_bind, wp_gets. simpl. rewrite Esb. apply wp_bind.
  change (u32 ROOTDEV) with ROOTDEV. rewrite wrap_small by lia.
  eapply (wp_bread _ V X H); [exact Ht1|lia| |lia|done|].
  { intros c Hc. destruct (Hheld _ _ Hc). lia. }
  intros bp io2 Ht2 Hbp. apply wp_bind. eapply wp_bdata; [exact Ht2|apply lookup_insert_eq|].
  pose proof (bmap_block sb V b Hg HV Hb) as Hblk. unfold used in Hu. apply negb_true_iff in Hu. rewrite Hu.
  cbv zeta. match goal with |- context [set_bdata bp ?x] =>
    change x with (clear_bit (b mod BPB) (V !!! Z.to_nat (BBLOCK b sb))) end.
  eapply wp_store; [exact Ht2|apply lookup_insert_eq|by apply clear_bit_block|apply (g_home _ _ Hg); lia|done|].
  intros io3 Ht3. eapply wp_brelse; [exact Ht3|apply lookup_insert_eq|].
  intros io4 Ht4. rewrite delete_insert_id in Ht4 by done. by apply HQ.
Qed.
End Alloc.
