(* ===== verification/FsInode.v ===== *)
(** Inodes (src/fs.c): the inode cache, the block map of a file, reading,
    writing and truncating it. *)

From stdpp Require Import functions.
From S2P Require Import Prelude Bytes Layout Sleeplock Kstring Txn Fs FsDisk FsAlloc.

(** * The state of the file system *)

Section Inv.
Context {St : Type} `{!TxnIO St, !TxnSpec St} (sb : superblock).
Implicit Types (s : fsst St) (V : list (list Z)) (I : Z → dinode) (X E T U : gset Z).

(** An entry of the inode cache that is in use. *)
Record entry_ok I (i : inode) : Prop := {
  eo_dev : i_dev i = ROOTDEV;
  eo_inum : inum_ok sb (i_inum i);
  eo_valid : ivalid i = true → i_di i = I (i_inum i);
}.

(** Between operations on blocks: the transaction, the structures on disk, and the
    inode cache.  [I] are the current inodes; those of [U] may differ from
    their copies on disk. *)
Record fs_inv s V X I E T U : Prop := {
  fi_io : tx_is (fs_io s) V X ∅;
  fi_sb : fs_sb s = sb;
  fi_geom : geom sb V;
  fi_ok : fs_ok V sb I E T;
  fi_sync i : inum_ok sb i → i ∉ U → I i = dino V sb i;
  fi_lock : fs_lock s = false;
  fi_len : length (fs_inodes s) = NINODE;
  fi_ref ip i : fs_inodes s !! ip = Some i → 0 ≤ i_ref i ∧ sl_lk (i_lock i) = false;
  fi_entry ip i : fs_inodes s !! ip = Some i → 0 < i_ref i → entry_ok I i;
  fi_uniq ip jp i j : fs_inodes s !! ip = Some i → fs_inodes s !! jp = Some j →
    0 < i_ref i → 0 < i_ref j → i_inum i = i_inum j → ip = jp;
  fi_unsynced n : n ∈ U → ∃ ip i, fs_inodes s !! ip = Some i ∧ 0 < i_ref i ∧ ivalid i = true ∧ i_inum i = n;
}.

(** Entry [ip] holds a reference to inode [n] and a valid copy of it. *)
Definition inode_at s (ip : nat) (n : Z) (i : inode) : Prop :=
  fs_inodes s !! ip = Some i ∧ 0 < i_ref i ∧ ivalid i = true ∧ i_inum i = n.

Lemma fi_blocks s V X I E T U : fs_inv s V X I E T U → Forall block V.
Proof. intros Hi. eapply tx_blocks, Hi. Qed.

Lemma inode_at_di s V X I E T U ip n i :
  fs_inv s V X I E T U → inode_at s ip n i → i_di i = I n ∧ i_dev i = ROOTDEV ∧ inum_ok sb n.
Proof.
  intros Hi (Hip&Hr&Hv&<-). destruct (fi_entry _ _ _ _ _ _ _ Hi ip i Hip Hr) as [? ? Hd].
  by rewrite Hd.
Qed.

Lemma wp_geti s ip i (Q : inode → fsst St → Prop) :
  fs_inodes s !! ip = Some i → Q i s → wp (geti ip) Q s.
Proof. intros Hi HQ. unfold geti. apply wp_bind, wp_gets. by apply (wp_the _ _ i). Qed.

(** The state after a change of the disk and of the copy of one inode. *)
Definition upd_state (io : St) (ip : nat) (i : inode) s : fsst St :=
  set_fs_inodes (<[ip := i]> (fs_inodes s)) (set_fs_io io s).

Lemma wp_upd_di s ip i f (Q : unit → fsst St → Prop) :
  fs_inodes s !! ip = Some i →
  Q tt (set_fs_inodes (<[ip := set_i_di (f (i_di i)) i]> (fs_inodes s)) s) →
  wp (upd_di ip f) Q s.
Proof. intros Hi HQ. apply wp_modify. by rewrite (alter_known _ _ _ i). Qed.

Lemma fs_inv_upd s V X I E T U io V' X' di' E' T' U' ip n i :
  fs_inv s V X I E T U → inode_at s ip n i →
  tx_is io V' X' ∅ → geom sb V' → fs_ok V' sb (<[n := di']> I) E' T' →
  (∀ j, inum_ok sb j → j ∉ U' → <[n := di']> I j = dino V' sb j) →
  (∀ j, j ∈ U' → j ∈ U ∨ j = n) →
  fs_inv (upd_state io ip (set_i_di di' i) s) V' X' (<[n := di']> I) E' T' U' ∧
  inode_at (upd_state io ip (set_i_di di' i) s) ip n (set_i_di di' i).
Proof.
  intros Hi Hat Ht Hg Hok Hsync HU. destruct Hat as (Hip&Hr&Hv&Hn).
  pose proof (lookup_lt_Some _ _ _ Hip) as Hlt.
  assert (∀ jp j', <[ip := set_i_di di' i]> (fs_inodes s) !! jp = Some j' →
    ∃ j, fs_inodes s !! jp = Some j ∧ i_dev j' = i_dev j ∧ i_inum j' = i_inum j ∧ i_ref j' = i_ref j ∧
      i_lock j' = i_lock j ∧ i_flags j' = i_flags j ∧
      i_di j' = if decide (jp = ip) then di' else i_di j) as Hold.
  { intros jp j'. rewrite list_lookup_insert_dec by done. case_decide; [subst|naive_solver].
    intros [= <-]. by exists i. }
  split; [split; simpl; try done|].
  - apply Hi.
  - by apply (fi_lock _ _ _ _ _ _ _ Hi).
  - rewrite length_insert. by apply (fi_len _ _ _ _ _ _ _ Hi).
  - intros jp j' (j&Hj&?&?&->&->&?&?)%Hold. by eapply (fi_ref _ _ _ _ _ _ _ Hi).
  - intros jp j' (j&Hj&Ed&En&Er&El&Ef&Edi)%Hold Hr'. rewrite Er in Hr'.
    destruct (fi_entry _ _ _ _ _ _ _ Hi jp j Hj Hr') as [? ? Hval]. split; [congruence|congruence|].
    unfold ivalid in *. rewrite Ef, En, Edi. intros Hv'. case_decide as Hd.
    + subst jp. assert (j = i) as -> by congruence. by rewrite Hn, fn_lookup_insert.
    + rewrite fn_lookup_insert_ne; [by apply Hval|]. intros En'. apply Hd. symmetry.
      eapply (fi_uniq _ _ _ _ _ _ _ Hi ip jp i j); try done. by rewrite Hn.
  - intros jp kp j' k' (j&Hj&_&Enj&Erj&_)%Hold (k&Hk&_&Enk&Erk&_)%Hold. rewrite Enj, Erj, Enk, Erk.
    by eapply (fi_uniq _ _ _ _ _ _ _ Hi).
  - intros m Hm. destruct (HU m Hm) as [HmU| ->].
    + destruct (fi_unsynced _ _ _ _ _ _ _ Hi m HmU) as (jp&j&Hj&Hrj&Hvj&Hnj).
      destruct (decide (jp = ip)) as [->|Hne].
      * exists ip, (set_i_di di' i). rewrite list_lookup_insert_eq by done.
        assert (j = i) as -> by congruence. done.
      * exists jp, j. by rewrite list_lookup_insert_ne.
    + exists ip, (set_i_di di' i). by rewrite list_lookup_insert_eq.
  - split; [|done]. simpl. by rewrite list_lookup_insert_eq.
Qed.

(** A change of the blocks only. *)
Lemma fs_inv_io s V X I E T U io V' X' E' T' U' :
  fs_inv s V X I E T U → tx_is io V' X' ∅ → geom sb V' → fs_ok V' sb I E' T' →
  (∀ j, inum_ok sb j → j ∉ U' → I j = dino V' sb j) →
  (∀ j, j ∈ U' → j ∈ U ∨ ∃ ip i, inode_at s ip j i) →
  fs_inv (set_fs_io io s) V' X' I E' T' U'.
Proof.
  intros [] Ht Hg Hok Hs HU. split; try done. intros n Hn. simpl.
  destruct (HU n Hn) as [?|?]; [auto|done].
Qed.
End Inv.

(** * Writing an inode to disk *)

Section Update.
Context {St : Type} `{!TxnIO St, !TxnSpec St} (sb : superblock).
Implicit Types (s : fsst St) (V : list (list Z)) (I : Z → dinode) (X E T U R : gset Z).

Lemma inode_off_range n : (inode_off n + 64 ≤ Z.to_nat BSIZE)%nat.
Proof.
  unfold inode_off. change IPB with 8. change DINODE_SIZE with 64. change BSIZE with 512.
  pose proof (Z.mod_pos_bound n 8 ltac:(lia)). lia.
Qed.

Lemma inode_off_disjoint n m :
  n ≠ m → IBLOCK n sb = IBLOCK m sb → (inode_off n + 64 ≤ inode_off m ∨ inode_off m + 64 ≤ inode_off n)%nat.
Proof.
  unfold inode_off, IBLOCK. change IPB with 8. change DINODE_SIZE with 64. intros Hne Eb.
  pose proof (Z.mod_pos_bound n 8 ltac:(lia)). pose proof (Z.mod_pos_bound m 8 ltac:(lia)).
  pose proof (Z.div_mod n 8 ltac:(lia)). pose proof (Z.div_mod m 8 ltac:(lia)).
  assert (n / 8 = m / 8) by lia. assert (n mod 8 ≠ m mod 8) by lia. lia.
Qed.

(** The block of inode [n] with its new contents. *)
Definition put_inode V (n : Z) (di : dinode) : list (list Z) :=
  <[Z.to_nat (IBLOCK n sb) := dinode_to_bytes (inode_off n) di (V !!! Z.to_nat (IBLOCK n sb))]> V.

Lemma iblock_block V n :
  geom sb V → Forall block V → inum_ok sb n →
  block (V !!! Z.to_nat (IBLOCK n sb)) ∧ (Z.to_nat (IBLOCK n sb) < length V)%nat.
Proof.
  intros Hg HV Hn. pose proof (geom_facts sb V Hg). pose proof (IBLOCK_range sb V n Hg Hn).
  split; [apply block_at; [done|lia]|lia].
Qed.

Lemma dino_put_inode V n di m :
  geom sb V → Forall block V → inum_ok sb n → inum_ok sb m → dinode_wf di →
  dino (put_inode V n di) sb m = if decide (m = n) then di else dino V sb m.
Proof.
  intros Hg HV Hn Hm Hwf. destruct (iblock_block V n Hg HV Hn) as [[Hl _] Hlt].
  pose proof (inode_off_range n). pose proof (IBLOCK_range sb V n Hg Hn).
  pose proof (IBLOCK_range sb V m Hg Hm). pose proof (geom_facts sb V Hg).
  unfold dino, put_inode. rewrite list_lookup_total_insert_dec by done.
  case_decide as Eb.
  - assert (IBLOCK m sb = IBLOCK n sb) as Eb' by lia. rewrite Eb'. case_decide as Em.
    + subst m. apply dinode_roundtrip; [done|]. by rewrite Hl.
    + apply dinode_other; [apply Hwf|by rewrite Hl|]. by apply inode_off_disjoint.
  - rewrite decide_False; [done|]. by intros ->.
Qed.

Lemma put_inode_other V n di k :
  k ≠ Z.to_nat (IBLOCK n sb) → put_inode V n di !!! k = V !!! k.
Proof. intros Hk. unfold put_inode. by rewrite list_lookup_total_insert_ne. Qed.

(** The inode blocks are not part of the free map or of a file. *)
Lemma fs_ok_put_inode V I E T n di :
  geom sb V → inum_ok sb n → fs_ok V sb I E T → fs_ok (put_inode V n di) sb I E T.
Proof.
  intros Hg Hn Hok. pose proof (geom_facts sb V Hg). pose proof (IBLOCK_range sb V n Hg Hn).
  eapply fs_ok_ext; [exact Hok|..].
  - intros b Hb. pose proof (BBLOCK_range sb V b Hg Hb). apply put_inode_other. lia.
  - intros i Hi Hne. apply put_inode_other.
    pose proof (fo_own _ _ _ _ _ Hok i NDIRECT Hi ltac:(rewrite NPTR_eq; unfold NDIRECT; lia)) as Hr.
    rewrite ptr_direct in Hr by lia. specialize (Hr Hne). lia.
Qed.

Lemma iupdate_run s V X I E T U ip n i R k (Q : unit → fsst St → Prop) :
  fs_inv sb s V X I E T U → inode_at s ip n i → room X R k →
  (∀ io, fs_inv sb (set_fs_io io s) (put_inode V n (I n)) ({[IBLOCK n sb]} ∪ X) I E T (U ∖ {[n]}) →
     Q tt (set_fs_io io s)) →
  wp (iupdate ip) Q s.
Proof.
  intros Hi Hat Hr HQ. destruct (inode_at_di sb _ _ _ _ _ _ _ _ _ _ Hi Hat) as (Edi&Edev&Hn).
  pose proof (fi_geom _ _ _ _ _ _ _ _ Hi) as Hg. pose proof (geom_facts sb V Hg) as Hgf.
  pose proof (IBLOCK_range sb V n Hg Hn) as Hib. pose proof (fi_blocks _ _ _ _ _ _ _ _ Hi) as HV.
  pose proof (room_size _ _ _ Hr). destruct (iblock_block V n Hg HV Hn) as [Hblk Hlt].
  pose proof (fo_wf _ _ _ _ _ (fi_ok _ _ _ _ _ _ _ _ Hi) n Hn) as Hwf.
  destruct Hat as (Hip&Href&Hval&Hnum).
  unfold iupdate. apply wp_bind, (wp_geti _ _ _ _ Hip), wp_bind, wp_gets, wp_bind.
  rewrite (fi_sb _ _ _ _ _ _ _ _ Hi), Hnum, Edev, Edi, wrap_small by lia.
  eapply wp_bread; [apply Hi|lia|by intros ?|lia|by rewrite map_size_empty; lia|].
  intros bp io1 Ht1 _. apply wp_bind. eapply wp_bdata; [exact Ht1|apply lookup_insert_eq|].
  eapply wp_store; [exact Ht1|apply lookup_insert_eq| |apply (g_home _ _ Hg); lia|done|].
  { split; [|apply dinode_to_bytes_bytes, Hblk]. rewrite length_dinode_to_bytes; [apply Hblk|apply Hwf|].
    rewrite (proj1 Hblk). apply inode_off_range. }
  intros io2 Ht2. eapply wp_brelse; [exact Ht2|apply lookup_insert_eq|].
  intros io3 Ht3. rewrite delete_insert_id in Ht3 by done. apply HQ.
  eapply fs_inv_io; [exact Hi|exact Ht3| |by apply fs_ok_put_inode; try apply Hi| |set_solver].
  - apply geom_store; [done|lia].
  - intros j Hj HjU. fold (put_inode V n (I n)). rewrite dino_put_inode by done.
    case_decide as Ejn; [by subst|]. apply (fi_sync _ _ _ _ _ _ _ _ Hi); [done|set_solver].
Qed.
End Update.

(** * The block map of a file *)

Section Frame.
Context {St : Type} `{!TxnIO St, !TxnSpec St} (sb : superblock).
Implicit Types (V : list (list Z)) (I : Z → dinode) (X E T U R : gset Z).

(** What the allocation of blocks leaves alone: the blocks before the free map,
    and every block of every file. *)
Record frame V I V' I' : Prop := {
  fr_len : length V' = length V;
  fr_meta m : 0 ≤ m < sb_bmapstart sb → V' !!! Z.to_nat m = V !!! Z.to_nat m;
  fr_file j k : inum_ok sb j → Z.of_nat k < MAXFILE → fptr V (di_addrs (I j)) k ≠ 0 →
    fptr V' (di_addrs (I' j)) k = fptr V (di_addrs (I j)) k ∧
    V' !!! Z.to_nat (fptr V (di_addrs (I j)) k) = V !!! Z.to_nat (fptr V (di_addrs (I j)) k);
}.

Lemma frame_refl V I : frame V I V I.
Proof. by split. Qed.

Lemma frame_trans V I V1 I1 V2 I2 : frame V I V1 I1 → frame V1 I1 V2 I2 → frame V I V2 I2.
Proof.
  intros [El Em Ef] [El' Em' Ef']. split; [congruence| |].
  - intros m Hm. by rewrite Em', Em.
  - intros j k Hj Hk Hne. destruct (Ef j k Hj Hk Hne) as [E1 E2].
    destruct (Ef' j k Hj Hk) as [E1' E2']; [by rewrite E1|]. rewrite E1 in E1', E2'.
    split; [done|]. by rewrite E2'.
Qed.

Lemma NDIRECT_ptr : (NDIRECT < NPTR)%nat.
Proof. rewrite NPTR_eq. unfold NDIRECT. lia. Qed.

(** A fresh block. *)
Lemma alloc_frame V I E T b :
  geom sb V → Forall block V → fs_ok V sb I E T → 0 ≤ b < sb_size sb → used V sb b = false →
  let V' := <[Z.to_nat b := zero_block]> (mark sb V b) in
  frame V I V' I ∧ geom sb V' ∧ V' !!! Z.to_nat b = zero_block ∧ S (nfree V' sb) = nfree V sb ∧
  (∀ j p, inum_ok sb j → (p < NPTR)%nat → ptr V' (di_addrs (I j)) p = ptr V (di_addrs (I j)) p) ∧
  (∀ m, 0 ≤ m → m ≠ b → (m < sb_bmapstart sb ∨ data_start sb ≤ m) → V' !!! Z.to_nat m = V !!! Z.to_nat m).
Proof.
  intros Hg HV Hok Hb Hu V'. pose proof (geom_facts sb V Hg). pose proof (BBLOCK_range sb V b Hg Hb).
  destruct (fs_ok_alloc sb V I E T b Hg HV Hok Hb Hu) as (_&_&Hds&Hbn).
  assert (∀ m, 0 ≤ m → m ≠ b → (m < sb_bmapstart sb ∨ data_start sb ≤ m) →
    V' !!! Z.to_nat m = V !!! Z.to_nat m) as Hm.
  { intros m ? ? ?. unfold V', mark. rewrite !list_lookup_total_insert_ne by lia. done. }
  assert (∀ j p, inum_ok sb j → (p < NPTR)%nat → ptr V' (di_addrs (I j)) p = ptr V (di_addrs (I j)) p) as Hp.
  { intros j p Hj Hlt. apply ptr_ext. intros Hne.
    pose proof (fo_own _ _ _ _ _ Hok j NDIRECT Hj NDIRECT_ptr) as Hr.
    pose proof (Hbn j NDIRECT Hj NDIRECT_ptr) as Hn. rewrite ptr_direct in Hr, Hn by lia.
    specialize (Hr Hne). apply Hm; [lia|done|lia]. }
  split_and!; [split|..]; try done.
  - unfold V', mark. by rewrite !length_insert.
  - intros m Hm'. apply Hm; lia.
  - intros j k Hj Hk Hne. unfold fptr in *. pose proof (slot_lt k Hk).
    rewrite Hp by done. split; [done|].
    pose proof (fo_own _ _ _ _ _ Hok j _ Hj (slot_lt k Hk) Hne). apply Hm; [lia|by apply Hbn|lia].
  - unfold V'. apply geom_store; [|lia]. unfold mark. apply geom_store; [done|lia].
  - unfold V'. apply list_lookup_total_insert_eq. unfold mark. rewrite length_insert. lia.
  - apply (nfree_alloc V V' sb b Hb Hu). intros c Hc. rewrite <- used_mark by done.
    apply used_ext. unfold V'. pose proof (BBLOCK_range sb V c Hg Hc).
    rewrite list_lookup_total_insert_ne by lia. done.
Qed.

(** A pointer of inode [n] to block [b], among the direct ones or to the indirect block. *)
Definition link I (n : Z) (p : nat) (b : Z) : Z → dinode :=
  <[n := set_di_addrs (<[p := b]> (di_addrs (I n))) (I n)]> I.

Lemma link_size I n p b j : di_size (link I n p b j) = di_size (I j).
Proof. unfold link. destruct (decide (n = j)) as [->|]; [by rewrite fn_lookup_insert|by rewrite fn_lookup_insert_ne]. Qed.

Lemma link_ok V I E T n p b :
  geom sb V → fs_ok V sb I E T → inum_ok sb n → (p ≤ NDIRECT)%nat → di_addrs (I n) !!! p = 0 →
  b ∈ E → (p = NDIRECT → V !!! Z.to_nat b = zero_block) →
  fs_ok V sb (link I n p b) (E ∖ {[b]}) T ∧ frame V I V (link I n p b) ∧
  (∀ q, ptr V (di_addrs (link I n p b n)) q = if decide (q = p) then b else ptr V (di_addrs (I n)) q).
Proof.
  intros Hg Hok Hn Hp Hz HbE Hzb. pose proof (geom_facts sb V Hg).
  pose proof (fo_wf _ _ _ _ _ Hok n Hn) as Hwf. destruct (fo_extra _ _ _ _ _ Hok b HbE) as [Hbr _].
  assert (∀ q, ptr V (di_addrs (link I n p b n)) q =
    if decide (q = p) then b else ptr V (di_addrs (I n)) q) as Hq.
  { intros q. unfold link. rewrite fn_lookup_insert. simpl. apply ptr_link; try done. apply Hwf. }
  assert (∀ j, j ≠ n → link I n p b j = I j) as Hj by (intros; by apply fn_lookup_insert_ne).
  assert (p < NPTR)%nat as Hlt by (pose proof NDIRECT_ptr; lia).
  split_and!; [| |done].
  - eapply (fs_ok_link sb V V I _ E T n p b); try done; [| | |lia].
    + intros j Hj'. split; [|apply link_size]. destruct (decide (j = n)) as [->|Hne].
      * unfold link. rewrite fn_lookup_insert. destruct Hwf. split; simpl; try done.
        -- by rewrite length_insert.
        -- apply Forall_insert; [done|]. unfold is_u32. lia.
      * rewrite Hj by done. by apply (fo_wf _ _ _ _ _ Hok).
    + intros j q Hj' Hq'. destruct (decide (j = n)) as [->|Hne].
      * rewrite Hq. repeat case_decide; naive_solver.
      * rewrite decide_False by naive_solver. by rewrite Hj.
    + by rewrite ptr_direct.
  - split; try done. intros j k Hj' Hk Hne. split; [|done]. destruct (decide (j = n)) as [->|]; [|by rewrite Hj].
    unfold fptr in *. rewrite Hq. case_decide as E'; [|done]. rewrite E', ptr_direct in Hne by done. done.
Qed.

(** An entry of the indirect block of inode [n]. *)
Definition put_entry V (ind : Z) (j : nat) (b : Z) : list (list Z) :=
  <[Z.to_nat ind := put_u32 (4 * j) b (V !!! Z.to_nat ind)]> V.

Lemma entry_ok_run V I E T n j b :
  geom sb V → Forall block V → fs_ok V sb I E T → inum_ok sb n → (j < NINDIRECT)%nat →
  let ind := di_addrs (I n) !!! NDIRECT in
  ind ≠ 0 → ptr V (di_addrs (I n)) (NDIRECT + 1 + j) = 0 → b ∈ E →
  fs_ok (put_entry V ind j b) sb I (E ∖ {[b]}) T ∧ frame V I (put_entry V ind j b) I ∧
  geom sb (put_entry V ind j b) ∧ nfree (put_entry V ind j b) sb = nfree V sb ∧
  (∀ q, ptr (put_entry V ind j b) (di_addrs (I n)) q =
     if decide (q = NDIRECT + 1 + j)%nat then b else ptr V (di_addrs (I n)) q).
Proof.
  intros Hg HV Hok Hn Hj ind Hne Hz HbE. pose proof (geom_facts sb V Hg).
  pose proof (fo_wf _ _ _ _ _ Hok n Hn) as Hwf. destruct (fo_extra _ _ _ _ _ Hok b HbE) as [Hbr _].
  pose proof (fo_own _ _ _ _ _ Hok n NDIRECT Hn NDIRECT_ptr) as Hr. rewrite ptr_direct in Hr by lia.
  fold ind in Hr. specialize (Hr Hne).
  assert (length (V !!! Z.to_nat ind) = Z.to_nat BSIZE) as Hlen by (apply block_at; [done|lia]).
  assert (∀ q, ptr (put_entry V ind j b) (di_addrs (I n)) q =
    if decide (q = NDIRECT + 1 + j)%nat then b else ptr V (di_addrs (I n)) q) as Hq.
  { intros q. apply ptr_entry; try done; [unfold ind in *; lia|]. unfold is_u32. lia. }
  assert (∀ m, 0 ≤ m → m ≠ ind → put_entry V ind j b !!! Z.to_nat m = V !!! Z.to_nat m) as Hm.
  { intros m ? ?. unfold put_entry. rewrite list_lookup_total_insert_ne by lia. done. }
  assert (∀ i q, inum_ok sb i → i ≠ n → ptr (put_entry V ind j b) (di_addrs (I i)) q = ptr V (di_addrs (I i)) q) as Hother.
  { intros i q Hi Hin. apply ptr_ext. intros Hne'.
    pose proof (fo_own _ _ _ _ _ Hok i NDIRECT Hi NDIRECT_ptr) as Hr'.
    pose proof (fo_inj _ _ _ _ _ Hok i NDIRECT n NDIRECT Hi NDIRECT_ptr Hn NDIRECT_ptr) as Hinj.
    rewrite !ptr_direct in Hr', Hinj by lia. specialize (Hr' Hne'). apply Hm; [lia|].
    intros E'. by destruct (Hinj Hne' E'). }
  assert (∀ c, 0 ≤ c < sb_size sb → used (put_entry V ind j b) sb c = used V sb c) as Hu.
  { intros c Hc. apply used_ext. pose proof (BBLOCK_range sb V c Hg Hc). apply Hm; lia. }
  assert (NDIRECT + 1 + j < NPTR)%nat as Hlt by (rewrite NPTR_eq; change NINDIRECT with 128%nat in Hj; unfold NDIRECT; lia).
  split_and!; try done.
  - eapply (fs_ok_link sb V _ I I E T n (NDIRECT + 1 + j) b); try done; [| |lia].
    + intros i Hi. split; [by apply (fo_wf _ _ _ _ _ Hok)|done].
    + intros i q Hi Hq'. destruct (decide (i = n)) as [->|Hin].
      * rewrite Hq. repeat case_decide; naive_solver.
      * rewrite decide_False by naive_solver. by apply Hother.
  - split.
    + unfold put_entry. by rewrite length_insert.
    + intros m Hm'. apply Hm; lia.
    + intros i k Hi Hk Hne'. pose proof (fo_own _ _ _ _ _ Hok i _ Hi (slot_lt k Hk) Hne') as Hr'.
      split.
      * unfold fptr in *. destruct (decide (i = n)) as [->|Hin]; [|by apply Hother].
        rewrite Hq. case_decide as E'; [|done]. by rewrite E' in Hne'.
      * apply Hm; [unfold fptr; lia|]. intros E'.
        destruct (fo_inj _ _ _ _ _ Hok i (slot k) n NDIRECT Hi (slot_lt k Hk) Hn NDIRECT_ptr Hne') as [_ Es].
        { rewrite (ptr_direct V _ NDIRECT) by lia. exact E'. }
        by apply slot_ne in Es.
  - apply geom_store; [done|lia].
  - by apply nfree_ext.
Qed.
End Frame.

Section Bmap.
Context {St : Type} `{!TxnIO St, !TxnSpec St} (sb : superblock).
Implicit Types (s : fsst St) (V : list (list Z)) (I : Z → dinode) (X E T U R : gset Z) (a : list Z).

Lemma wp_get_addr s ip i k (Q : Z → fsst St → Prop) :
  fs_inodes s !! ip = Some i → (k < length (di_addrs (i_di i)))%nat →
  Q (di_addrs (i_di i) !!! k) s → wp (get_addr ip k) Q s.
Proof.
  intros Hi Hk HQ. unfold get_addr. apply wp_bind, (wp_geti _ _ _ _ Hi).
  destruct (lookup_lt_is_Some_2 _ _ Hk) as [x Hx]. rewrite (list_lookup_total_correct _ _ _ Hx) in HQ.
  by apply (wp_the _ _ x).
Qed.

Lemma upd_state_id s ip i io : fs_inodes s !! ip = Some i → upd_state io ip i s = set_fs_io io s.
Proof. intros Hi. unfold upd_state, set_fs_inodes, set_fs_io. simpl. by rewrite list_insert_id. Qed.

Lemma set_fs_io_id s : set_fs_io (fs_io s) s = s.
Proof. by destruct s. Qed.

Lemma set_i_di_id i : set_i_di (i_di i) i = i.
Proof. by destruct i. Qed.

(** The blocks before the data are marked, and no free block has an owner. *)
Lemma fs_meta V I E T b :
  geom sb V → fs_ok V sb I E T → 0 ≤ b < data_start sb → used V sb b = true.
Proof.
  intros Hg Hok Hb. pose proof (geom_facts sb V Hg). apply (fo_used _ _ _ _ _ Hok); [lia|]. left. lia.
Qed.

Lemma fs_owned V I E T n p :
  geom sb V → fs_ok V sb I E T → inum_ok sb n → (p < NPTR)%nat → ptr V (di_addrs (I n)) p ≠ 0 →
  used V sb (ptr V (di_addrs (I n)) p) = true.
Proof.
  intros Hg Hok Hn Hp Hne. pose proof (geom_facts sb V Hg).
  pose proof (fo_own _ _ _ _ _ Hok n p Hn Hp Hne). apply (fo_used _ _ _ _ _ Hok); [lia|].
  right; right. by exists n, p.
Qed.

Lemma wp_updi s ip i f (Q : unit → fsst St → Prop) :
  fs_inodes s !! ip = Some i →
  Q tt (set_fs_inodes (<[ip := f i]> (fs_inodes s)) s) → wp (updi ip f) Q s.
Proof. intros Hi HQ. apply wp_modify. by rewrite (alter_known _ _ _ i). Qed.

(** A new block, linked to inode [n]. *)
Lemma balloc_link_run s V X I E T U ip n i p k (Q : Z → fsst St → Prop) :
  fs_inv sb s V X I E T U → inode_at s ip n i → (p ≤ NDIRECT)%nat → di_addrs (I n) !!! p = 0 →
  room X (bitmaps sb) (S k) → (0 < nfree V sb)%nat →
  (∀ b io V' X', let I' := link I n p b in
     fs_inv sb (upd_state io ip (set_i_di (I' n) i) s) V' X' I' E T ({[n]} ∪ U) →
     inode_at (upd_state io ip (set_i_di (I' n) i) s) ip n (set_i_di (I' n) i) →
     frame sb V I V' I' →
     (∀ q, (q < NPTR)%nat → ptr V' (di_addrs (I' n)) q = if decide (q = p) then b else ptr V (di_addrs (I n)) q) →
     data_start sb ≤ b < sb_size sb → b ∈ X' → X ⊆ X' → room X' (bitmaps sb) k →
     S (nfree V' sb) = nfree V sb → Q b (upd_state io ip (set_i_di (I' n) i) s)) →
  wp (addr ← balloc (i_dev i); set_addr ip p addr;; mret addr) Q s.
Proof.
  intros Hi Hat Hp Hz Hroom Hfree HQ.
  destruct (inode_at_di sb _ _ _ _ _ _ _ _ _ _ Hi Hat) as (Edi&Edev&Hn). rewrite Edev.
  pose proof (fi_geom _ _ _ _ _ _ _ _ Hi) as Hg. pose proof (geom_facts sb V Hg) as Hgf.
  pose proof (fi_blocks _ _ _ _ _ _ _ _ Hi) as HV. pose proof (fi_ok _ _ _ _ _ _ _ _ Hi) as Hok.
  apply wp_bind. eapply (balloc_run sb V X ∅ Hg HV); [by rewrite map_size_empty; lia|by intros ?| |
    apply Hi|apply Hi|by apply nfree_pos|exact Hroom|].
  { intros b Hb. by eapply fs_meta. }
  intros b io Hb Hu _ Ht1.
  destruct (fs_ok_alloc sb V I E T b Hg HV Hok Hb Hu) as (Hok1&HbE&Hds&Hbn).
  destruct (alloc_frame sb V I E T b Hg HV Hok Hb Hu) as (Hfr1&Hg1&Hzb&Hnf&Hp1&Hm1).
  set (V1 := <[Z.to_nat b := zero_block]> (mark sb V b)) in *.
  destruct (link_ok sb V1 I ({[b]} ∪ E) T n p b Hg1 Hok1 Hn Hp Hz) as (Hok2&Hfr2&Hq2); [set_solver|done|].
  replace (({[b]} ∪ E) ∖ {[b]}) with E in Hok2 by set_solver.
  destruct Hat as (Hip&Href&Hval&Hnum).
  apply wp_bind. eapply wp_upd_di; [exact Hip|]. rewrite Edi. apply wp_ret.
  replace (set_fs_inodes _ _) with (upd_state io ip (set_i_di (link I n p b n) i) s);
    [|unfold upd_state, link; by rewrite fn_lookup_insert].
  pose proof (BBLOCK_range sb V b Hg Hb) as Hbb.
  destruct (fs_inv_upd sb s V X I E T U io V1 ({[b]} ∪ ({[BBLOCK b sb]} ∪ X)) (link I n p b n) E T
    ({[n]} ∪ U) ip n i) as [Hi' Hat']; try done.
  - unfold link. by rewrite fn_lookup_insert.
  - intros j Hj HjU. rewrite fn_lookup_insert_ne by set_solver.
    rewrite (fi_sync _ _ _ _ _ _ _ _ Hi) by (done || set_solver). symmetry. apply dino_ext.
    pose proof (IBLOCK_range sb V j Hg Hj). apply (fr_meta _ _ _ _ _ Hfr1). lia.
  - set_solver.
  - assert (<[n := link I n p b n]> I = link I n p b) as El by (unfold link; by rewrite fn_lookup_insert).
    rewrite El in Hi'. eapply HQ; try done.
    + by eapply frame_trans.
    + intros q Hlt. rewrite Hq2. case_decide; [done|]. by apply Hp1.
    + lia.
    + set_solver.
    + set_solver.
    + apply room_new, room_reserved; [|done]. apply elem_of_bitmaps. lia.
Qed.

(** The indirect block of a file counts once in the budget of a transaction. *)
Definition icost X a : nat := if decide (a !!! NDIRECT ≠ 0 ∧ a !!! NDIRECT ∈ X) then 0 else 1.
Definition iblk a : nat := if decide (a !!! NDIRECT = 0) then 1 else 0.

Lemma icost_mono X X' a : X ⊆ X' → (icost X' a ≤ icost X a)%nat.
Proof. intros. unfold icost. repeat case_decide; try lia. set_solver. Qed.

(** What bmap establishes: the block of the file has a number, and no
    file has changed. *)
Record bmap_post s V X I E T U (ip : nat) (n : Z) (i : inode) (bn : Z) (k : nat) (b : Z)
    s' V' X' I' (io : St) : Prop := {
  bp_state : s' = upd_state io ip (set_i_di (I' n) i) s;
  bp_inv : fs_inv sb s' V' X' I' E T ({[n]} ∪ U);
  bp_at : inode_at s' ip n (set_i_di (I' n) i);
  bp_other j : j ≠ n → I' j = I j;
  bp_di : ∃ a, I' n = set_di_addrs a (I n);
  bp_frame : frame sb V I V' I';
  bp_block : fptr V' (di_addrs (I' n)) (Z.to_nat bn) = b;
  bp_range : data_start sb ≤ b < sb_size sb;
  bp_room : room ({[b]} ∪ X') (bitmaps sb) (icost X' (di_addrs (I' n)) + k);
  bp_same : fptr V (di_addrs (I n)) (Z.to_nat bn) ≠ 0 → I' n = I n;
  bp_free : (nfree V sb + iblk (di_addrs (I' n)) ≤ nfree V' sb + 1 + iblk (di_addrs (I n)))%nat;
}.

(** The part of bmap after the indirect block is known. *)
Definition bmap_entry (dev addr bn : Z) : M (fsst St) Z :=
  bp ← bread dev addr;
  d ← bdata bp;
  let off := Z.to_nat (4 * bn) in
  let addr := get_u32 off d in
  if addr =? 0 then
    addr ← balloc dev;
    d ← bdata bp;
    set_bdata bp (put_u32 off addr d);;
    log_write bp;;
    brelse bp;;
    mret addr
  else
    brelse bp;;
    mret addr.

Lemma same_state s V X I E T U ip n i io :
  fs_inv sb s V X I E T U → inode_at s ip n i →
  set_fs_io io s = upd_state io ip (set_i_di (I n) i) s.
Proof.
  intros Hi Hat. destruct (inode_at_di sb _ _ _ _ _ _ _ _ _ _ Hi Hat) as (Edi&_).
  rewrite <- Edi, set_i_di_id. symmetry. apply upd_state_id, Hat.
Qed.

(** A block that the file already has. *)
Lemma bmap_post_same s V X I E T U ip n i bn k io :
  fs_inv sb s V X I E T U → inode_at s ip n i → 0 ≤ bn < MAXFILE →
  fptr V (di_addrs (I n)) (Z.to_nat bn) ≠ 0 →
  room X (bitmaps sb) (S (icost X (di_addrs (I n)) + k)) → tx_is io V X ∅ →
  bmap_post s V X I E T U ip n i bn k (fptr V (di_addrs (I n)) (Z.to_nat bn))
    (set_fs_io io s) V X I io.
Proof.
  intros Hi Hat Hbn Hne Hroom Ht. destruct (inode_at_di sb _ _ _ _ _ _ _ _ _ _ Hi Hat) as (Edi&Edev&Hn).
  pose proof (fi_ok _ _ _ _ _ _ _ _ Hi) as Hok.
  assert (fs_inv sb (set_fs_io io s) V X I E T ({[n]} ∪ U)) as Hi'.
  { eapply fs_inv_io; [exact Hi|done|apply Hi|done| |].
    - intros j Hj HjU. apply (fi_sync _ _ _ _ _ _ _ _ Hi); set_solver.
    - intros j [->%elem_of_singleton|]%elem_of_union; [right; by exists ip, i|by left]. }
  split; try done.
  - by eapply same_state.
  - rewrite <- Edi, set_i_di_id. exact Hat.
  - exists (di_addrs (I n)). by destruct (I n).
  - unfold fptr in *. apply (fo_own _ _ _ _ _ Hok); [done|apply slot_lt; lia|done].
  - by apply room_new.
  - lia.
Qed.

Lemma bmap_entry_run s V X I E T U ip n i bn k (Q : Z → fsst St → Prop) :
  fs_inv sb s V X I E T U → inode_at s ip n i → Z.of_nat NDIRECT ≤ bn < MAXFILE →
  di_addrs (I n) !!! NDIRECT ≠ 0 →
  room X (bitmaps sb) (S (icost X (di_addrs (I n)) + k)) → (0 < nfree V sb)%nat →
  (∀ b s' V' X' I' io, bmap_post s V X I E T U ip n i bn k b s' V' X' I' io → Q b s') →
  wp (bmap_entry ROOTDEV (di_addrs (I n) !!! NDIRECT) (bn - Z.of_nat NDIRECT)) Q s.
Proof.
  intros Hi Hat Hbn Hne Hroom Hfree HQ.
  destruct (inode_at_di sb _ _ _ _ _ _ _ _ _ _ Hi Hat) as (Edi&Edev&Hn).
  pose proof (fi_geom _ _ _ _ _ _ _ _ Hi) as Hg. pose proof (geom_facts sb V Hg) as Hgf.
  pose proof (fi_blocks _ _ _ _ _ _ _ _ Hi) as HV. pose proof (fi_ok _ _ _ _ _ _ _ _ Hi) as Hok.
  pose proof (fo_own _ _ _ _ _ Hok n NDIRECT Hn NDIRECT_ptr) as Hr.
  pose proof (fs_owned V I E T n NDIRECT Hg Hok Hn NDIRECT_ptr) as Hown.
  rewrite ptr_direct in Hr, Hown by lia. specialize (Hr Hne). specialize (Hown Hne).
  pose proof (room_size _ _ _ Hroom) as HX.
  set (ind := di_addrs (I n) !!! NDIRECT) in *.
  set (j := Z.to_nat (bn - Z.of_nat NDIRECT)).
  assert (j < NINDIRECT)%nat as Hj by (unfold j, NDIRECT in *; change MAXFILE with 140 in Hbn; change NINDIRECT with 128%nat; lia).
  assert (slot (Z.to_nat bn) = NDIRECT + 1 + j)%nat as Hslot.
  { rewrite slot_indirect by lia. unfold j. lia. }
  assert (ptr V (di_addrs (I n)) (NDIRECT + 1 + j) = get_u32 (4 * j) (V !!! Z.to_nat ind)) as Eptr.
  { rewrite ptr_indirect by (done || lia). by replace (NDIRECT + 1 + j - (NDIRECT + 1))%nat with j by lia. }
  unfold bmap_entry. replace (Z.to_nat (4 * (bn - Z.of_nat NDIRECT))) with (4 * j)%nat by (unfold j; lia).
  apply wp_bind. eapply wp_bread; [apply Hi|lia|by intros ?|lia|by rewrite map_size_empty; lia|].
  intros bp io1 Ht1 _. apply wp_bind. eapply wp_bdata; [exact Ht1|apply lookup_insert_eq|]. cbv zeta.
  rewrite <- Eptr. destruct (Z.eqb_spec (ptr V (di_addrs (I n)) (NDIRECT + 1 + j)) 0) as [Ez|Hnz].
  - apply wp_bind. eapply (balloc_run sb V X {[bp := ind]} Hg HV); [by rewrite map_size_singleton| | |
      exact Ht1|apply Hi|by apply nfree_pos|exact Hroom|].
    { intros b' n' [<- <-]%lookup_singleton_Some. split; [lia|done]. }
    { intros b Hb. by eapply fs_meta. }
    intros b io2 Hb Hu _ Ht2.
    destruct (fs_ok_alloc sb V I E T b Hg HV Hok Hb Hu) as (Hok1&HbE&Hds&Hbn').
    destruct (alloc_frame sb V I E T b Hg HV Hok Hb Hu) as (Hfr1&Hg1&Hzb&Hnf&Hp1&Hm1).
    pose proof (Hbn' n NDIRECT Hn NDIRECT_ptr) as Hindb. rewrite ptr_direct in Hindb by lia. fold ind in Hindb.
    set (V1 := <[Z.to_nat b := zero_block]> (mark sb V b)) in *.
    assert (Forall block V1) as HV1 by (by eapply tx_blocks).
    destruct (entry_ok_run sb V1 I ({[b]} ∪ E) T n j b Hg1 HV1 Hok1 Hn Hj) as (Hok2&Hfr2&Hg2&Hnf2&Hq2);
      [done| |set_solver|].
    { rewrite Hp1; [done..|]. rewrite <- Hslot. apply slot_lt. lia. }
    fold ind in Hok2, Hfr2, Hg2, Hnf2, Hq2.
    replace (({[b]} ∪ E) ∖ {[b]}) with E in Hok2 by set_solver.
    pose proof (BBLOCK_range sb V b Hg Hb) as Hbb. pose proof (fr_len _ _ _ _ _ Hfr1) as Hl1.
    assert (room ({[b]} ∪ ({[BBLOCK b sb]} ∪ X)) (bitmaps sb) (icost X (di_addrs (I n)) + k)) as Hroom2.
    { apply room_new, room_reserved; [|done]. apply elem_of_bitmaps. lia. }
    pose proof (room_size _ _ _ Hroom2).
    apply wp_bind. eapply wp_bdata; [exact Ht2|apply lookup_singleton_eq|].
    eapply wp_store; [exact Ht2|apply lookup_singleton_eq| |apply (g_home _ _ Hg1); lia|done|].
    { apply put_le_block; [apply block_at; [done|lia]|]. change NINDIRECT with 128%nat in Hj. change BSIZE with 512. lia. }
    intros io3 Ht3. apply wp_bind. eapply wp_brelse; [exact Ht3|apply lookup_singleton_eq|].
    intros io4 Ht4. rewrite delete_singleton_eq in Ht4. apply wp_ret.
    fold (put_entry V1 ind j b) in Ht4.
    assert (frame sb V I (put_entry V1 ind j b) I) as Hfr by by eapply frame_trans.
    assert (fs_inv sb (set_fs_io io4 s) (put_entry V1 ind j b) ({[ind]} ∪ ({[b]} ∪ ({[BBLOCK b sb]} ∪ X)))
      I E T ({[n]} ∪ U)) as Hi'.
    { eapply fs_inv_io; [exact Hi|done..| |].
      - intros m Hm HmU. rewrite (fi_sync _ _ _ _ _ _ _ _ Hi) by (done || set_solver). symmetry. apply dino_ext.
        pose proof (IBLOCK_range sb V m Hg Hm). apply (fr_meta _ _ _ _ _ Hfr). lia.
      - intros m [->%elem_of_singleton|]%elem_of_union; [right; by exists ip, i|by left]. }
    eapply (HQ b (set_fs_io io4 s)). split; [|exact Hi'|..]; try done.
    + by eapply same_state.
    + rewrite <- Edi, set_i_di_id. exact Hat.
    + exists (di_addrs (I n)). by destruct (I n).
    + unfold fptr. rewrite Hslot, Hq2. by rewrite decide_True.
    + lia.
    + unfold icost at 1. rewrite decide_True by (fold ind; set_solver).
      apply room_in; [set_solver|]. revert Hroom2. unfold icost. case_decide as Hd.
      * intros. apply room_in; [set_solver|done].
      * intros Hroom2. by apply room_new.
    + rewrite Hnf2, <- Hnf. unfold iblk. lia.
  - apply wp_bind. eapply wp_brelse; [exact Ht1|apply lookup_insert_eq|].
    intros io2 Ht2. rewrite delete_insert_id in Ht2 by done. apply wp_ret.
    rewrite <- Hslot. apply (HQ _ (set_fs_io io2 s) V X I io2). eapply bmap_post_same; try done; [unfold NDIRECT in *; lia|].
    unfold fptr. by rewrite Hslot.
Qed.

(** The block map of blocks that the file has: nothing changes. *)
Lemma bmap_lookup s V X I E T U ip n i bn (Q : Z → fsst St → Prop) :
  fs_inv sb s V X I E T U → inode_at s ip n i → 0 ≤ bn < MAXFILE → (size X ≤ tx_cap)%nat →
  fptr V (di_addrs (I n)) (Z.to_nat bn) ≠ 0 →
  (∀ io, tx_is io V X ∅ → Q (fptr V (di_addrs (I n)) (Z.to_nat bn)) (set_fs_io io s)) →
  wp (bmap ip bn) Q s.
Proof.
  intros Hi Hat Hbn HX Hne HQ.
  destruct (inode_at_di sb _ _ _ _ _ _ _ _ _ _ Hi Hat) as (Edi&Edev&Hn).
  pose proof (fi_geom _ _ _ _ _ _ _ _ Hi) as Hg. pose proof (geom_facts sb V Hg) as Hgf.
  pose proof (fi_ok _ _ _ _ _ _ _ _ Hi) as Hok. pose proof (dw_len _ (fo_wf _ _ _ _ _ Hok n Hn)) as Hla.
  pose proof (proj1 Hat) as Hip. unfold bmap. apply wp_bind, (wp_geti _ _ _ _ Hip). rewrite Edev.
  destruct (Z.ltb_spec bn (Z.of_nat NDIRECT)) as [Hd|Hd].
  - apply wp_bind. eapply wp_get_addr; [exact Hip|rewrite Edi; lia|]. rewrite Edi.
    unfold fptr in *. rewrite slot_direct, ptr_direct in Hne, HQ by lia.
    rewrite (proj2 (Z.eqb_neq _ _)) by done. apply wp_ret. rewrite <- (set_fs_io_id s). apply HQ, Hi.
  - rewrite wrap_small by (change MAXFILE with 140 in *; unfold NDIRECT in *; lia).
    rewrite (proj2 (Z.ltb_lt _ _)) by (change MAXFILE with 140 in *; change NINDIRECT with 128%nat; unfold NDIRECT in *; lia).
    apply wp_bind. eapply wp_get_addr; [exact Hip|rewrite Edi; lia|]. rewrite Edi.
    assert (di_addrs (I n) !!! NDIRECT ≠ 0) as Hind.
    { intros Ez. unfold fptr, ptr in Hne. rewrite slot_indirect, decide_False in Hne by lia. by rewrite Ez in Hne. }
    rewrite (proj2 (Z.eqb_neq _ _)) by done. apply wp_bind, wp_ret.
    pose proof (fo_own _ _ _ _ _ Hok n NDIRECT Hn NDIRECT_ptr) as Hr. rewrite ptr_direct in Hr by lia.
    specialize (Hr Hind).
    apply wp_bind. eapply wp_bread; [apply Hi|lia|by intros ?|lia|by rewrite map_size_empty; lia|].
    intros bp io1 Ht1 _. apply wp_bind. eapply wp_bdata; [exact Ht1|apply lookup_insert_eq|]. cbv zeta.
    unfold fptr in *. rewrite slot_indirect, ptr_indirect in Hne, HQ by (done || lia).
    replace (NDIRECT + 1 + (Z.to_nat bn - NDIRECT) - (NDIRECT + 1))%nat with (Z.to_nat bn - NDIRECT)%nat in Hne, HQ by lia.
    replace (Z.to_nat (4 * (bn - Z.of_nat NDIRECT))) with (4 * (Z.to_nat bn - NDIRECT))%nat by lia.
    rewrite (proj2 (Z.eqb_neq _ _)) by done. apply wp_bind.
    eapply wp_brelse; [exact Ht1|apply lookup_insert_eq|].
    intros io2 Ht2. rewrite delete_insert_id in Ht2 by done. apply wp_ret. by apply HQ.
Qed.

Lemma bmap_run s V X I E T U ip n i bn k (Q : Z → fsst St → Prop) :
  fs_inv sb s V X I E T U → inode_at s ip n i → 0 ≤ bn < MAXFILE →
  room X (bitmaps sb) (S (icost X (di_addrs (I n)) + k)) →
  (1 + iblk (di_addrs (I n)) ≤ nfree V sb)%nat →
  (∀ b s' V' X' I' io, bmap_post s V X I E T U ip n i bn k b s' V' X' I' io → Q b s') →
  wp (bmap ip bn) Q s.
Proof.
  intros Hi Hat Hbn Hroom Hfree HQ.
  destruct (inode_at_di sb _ _ _ _ _ _ _ _ _ _ Hi Hat) as (Edi&Edev&Hn).
  pose proof (fi_geom _ _ _ _ _ _ _ _ Hi) as Hg. pose proof (geom_facts sb V Hg) as Hgf.
  pose proof (fi_ok _ _ _ _ _ _ _ _ Hi) as Hok. pose proof (dw_len _ (fo_wf _ _ _ _ _ Hok n Hn)) as Hla.
  pose proof (proj1 Hat) as Hip. unfold bmap. apply wp_bind, (wp_geti _ _ _ _ Hip).
  destruct (Z.ltb_spec bn (Z.of_nat NDIRECT)) as [Hd|Hd].
  - apply wp_bind. eapply wp_get_addr; [exact Hip|rewrite Edi; lia|]. rewrite Edi.
    destruct (Z.eqb_spec (di_addrs (I n) !!! Z.to_nat bn) 0) as [Ez|Hnz].
    + eapply balloc_link_run; [done..|lia|done|exact Hroom|lia|].
      intros b io V' X' I' Hi' Hat' Hfr Hq Hb HbX HXX Hroom' Hnf.
      eapply (HQ _ _ V' X' I' io). split; try done.
      * intros m Hm. by apply fn_lookup_insert_ne.
      * eexists. unfold I', link. by rewrite fn_lookup_insert.
      * unfold fptr. rewrite slot_direct by lia. rewrite Hq by (rewrite NPTR_eq; unfold NDIRECT in *; lia).
        by rewrite decide_True.
      * apply room_in; [done|]. eapply room_le; [exact Hroom'|].
        assert (di_addrs (I' n) !!! NDIRECT = di_addrs (I n) !!! NDIRECT) as Ei.
        { unfold I', link. rewrite fn_lookup_insert. simpl. apply list_lookup_total_insert_ne. lia. }
        pose proof (icost_mono X X' (di_addrs (I n)) HXX). unfold icost in *. rewrite Ei. lia.
      * unfold fptr. rewrite slot_direct, ptr_direct by lia. by rewrite Ez.
      * assert (di_addrs (I' n) !!! NDIRECT = di_addrs (I n) !!! NDIRECT) as Ei.
        { unfold I', link. rewrite fn_lookup_insert. simpl. apply list_lookup_total_insert_ne. lia. }
        unfold iblk. rewrite Ei. lia.
    + apply wp_ret. rewrite <- (set_fs_io_id s).
      replace (di_addrs (I n) !!! Z.to_nat bn) with (fptr V (di_addrs (I n)) (Z.to_nat bn)) in *
        by (unfold fptr; rewrite slot_direct, ptr_direct by lia; done).
      apply (HQ _ _ V X I (fs_io s)). apply bmap_post_same; try done. apply Hi.
  - rewrite wrap_small by (change MAXFILE with 140 in *; unfold NDIRECT in *; lia).
    rewrite (proj2 (Z.ltb_lt _ _)) by (change MAXFILE with 140 in *; change NINDIRECT with 128%nat; unfold NDIRECT in *; lia).
    apply wp_bind. eapply wp_get_addr; [exact Hip|rewrite Edi; lia|]. rewrite Edi. apply wp_bind.
    destruct (Z.eqb_spec (di_addrs (I n) !!! NDIRECT) 0) as [Ez|Hnz].
    + assert (icost X (di_addrs (I n)) = 1%nat) as Ec by (unfold icost; by rewrite decide_False by naive_solver).
      assert (iblk (di_addrs (I n)) = 1%nat) as Eb by (unfold iblk; by rewrite decide_True).
      rewrite Ec in Hroom. rewrite Eb in Hfree.
      eapply balloc_link_run; [done..|exact Hroom|lia|].
      intros b io V1 X1 I1 Hi1 Hat1 Hfr1 Hq1 Hb HbX HXX Hroom1 Hnf1.
      set (s1 := upd_state io ip (set_i_di (I1 n) i) s) in *.
      assert (di_addrs (I1 n) !!! NDIRECT = b) as Eb1.
      { unfold I1, link. rewrite fn_lookup_insert. simpl. apply list_lookup_total_insert_eq. lia. }
      rewrite <- Eb1. rewrite Edev.
      eapply (bmap_entry_run s1 V1 X1 I1 E T ({[n]} ∪ U) ip n _ bn k); try done; [lia|rewrite Eb1; lia| |lia|].
      { assert (icost X1 (di_addrs (I1 n)) = 0%nat) as ->; [|done].
        unfold icost. rewrite Eb1. by rewrite decide_True by (split; [lia|done]). }
      intros b' s' V' X' I' io' [Es' Hi' Hat' Ho' [a' Hd'] Hfr' Hbl Hbr Hrm _ Hnf].
      eapply (HQ _ s' V' X' I' io'). split; try done.
      * rewrite Es'. unfold s1, upd_state, set_fs_inodes, set_fs_io. simpl. by rewrite list_insert_insert_eq.
      * by replace ({[n]} ∪ U) with ({[n]} ∪ ({[n]} ∪ U)) by set_solver.
      * intros m Hm. rewrite Ho' by done. by apply fn_lookup_insert_ne.
      * exists a'. rewrite Hd'. unfold I1, link. by rewrite fn_lookup_insert.
      * by eapply frame_trans.
      * unfold fptr, ptr. rewrite slot_indirect, decide_False by lia. by rewrite Ez.
      * assert (iblk (di_addrs (I1 n)) = 0%nat) as E0 by (unfold iblk; rewrite Eb1; by rewrite decide_False by lia).
        rewrite E0 in Hnf. lia.
    + apply wp_ret. rewrite Edev.
      eapply (bmap_entry_run s V X I E T U ip n i bn k); try done. all: lia.
Qed.
End Bmap.
