(* ===== verification/FsFile.v ===== *)
(** The contents of files (src/fs.c): readi and writei against the bytes of a
    file. *)

From stdpp Require Import functions.
From S2P Require Import Prelude Bytes Layout Sleeplock Kstring Txn Fs FsDisk FsAlloc FsInode.

(** * Ranges of a file *)

Section Range.
Implicit Types (V : list (list Z)) (a : list Z).

Lemma BSIZE_eq : BSIZE = 512.
Proof. done. Qed.

Lemma length_frange V a off len : length (frange V a off len) = Z.to_nat len.
Proof. unfold frange. by rewrite length_fmap, length_seqZ. Qed.

Lemma frange_app V a off l1 l2 :
  0 ≤ l1 → 0 ≤ l2 → frange V a off (l1 + l2) = frange V a off l1 ++ frange V a (off + l1) l2.
Proof. intros. unfold frange. by rewrite seqZ_app, fmap_app by lia. Qed.

Lemma lookup_frange V a off len i :
  frange V a off len !! i =
    if decide (Z.of_nat i < len) then Some (fbyte V a (off + Z.of_nat i)) else None.
Proof.
  unfold frange. rewrite list_lookup_fmap. case_decide.
  - by rewrite lookup_seqZ_lt.
  - rewrite lookup_seqZ_ge by lia. done.
Qed.

(** Offsets inside one block. *)
Lemma off_same_block off i :
  0 ≤ off → 0 ≤ i → off mod BSIZE + i < BSIZE →
  (off + i) / BSIZE = off / BSIZE ∧ (off + i) mod BSIZE = off mod BSIZE + i.
Proof.
  rewrite BSIZE_eq. intros Ho Hi Hlt. pose proof (Z.div_mod off 512 ltac:(lia)).
  pose proof (Z.mod_pos_bound off 512 ltac:(lia)). split; symmetry.
  - apply (Z.div_unique _ _ _ (off mod 512 + i)); lia.
  - apply (Z.mod_unique _ _ (off / 512)); lia.
Qed.

Lemma frange_block V a off m :
  0 ≤ off → 0 ≤ m → off mod BSIZE + m ≤ BSIZE →
  block (V !!! Z.to_nat (fptr V a (Z.to_nat (off / BSIZE)))) →
  frange V a off m =
    sub (Z.to_nat (off mod BSIZE)) (Z.to_nat m) (V !!! Z.to_nat (fptr V a (Z.to_nat (off / BSIZE)))).
Proof.
  intros Ho Hm Hlt [Hl _]. pose proof (Z.mod_pos_bound off BSIZE ltac:(done)).
  apply list_eq. intros i. rewrite lookup_frange, lookup_sub.
  destruct (decide (Z.of_nat i < m)); [|by rewrite decide_False by lia].
  rewrite decide_True by lia. unfold fbyte.
  destruct (off_same_block off (Z.of_nat i)) as [-> ->]; [lia..|].
  symmetry. rewrite list_lookup_lookup_total_lt by (rewrite Hl; lia). do 2 f_equal. lia.
Qed.

(** A range of the file is a range of its contents. *)
Lemma sub_fdata V di off len :
  0 ≤ off → 0 ≤ len → off + len ≤ di_size di →
  sub (Z.to_nat off) (Z.to_nat len) (fdata V di) = frange V (di_addrs di) off len.
Proof.
  intros. apply list_eq. intros i. unfold fdata. rewrite lookup_sub, !lookup_frange.
  repeat case_decide; try done; try lia. do 2 f_equal. lia.
Qed.

Lemma fbyte_ext V a V' a' o :
  fptr V' a' (Z.to_nat (o / BSIZE)) = fptr V a (Z.to_nat (o / BSIZE)) →
  V' !!! Z.to_nat (fptr V a (Z.to_nat (o / BSIZE))) = V !!! Z.to_nat (fptr V a (Z.to_nat (o / BSIZE))) →
  fbyte V' a' o = fbyte V a o.
Proof. intros E1 E2. unfold fbyte. by rewrite E1, E2. Qed.

Lemma frange_ext V a V' a' off len :
  (∀ o, off ≤ o < off + len → fbyte V' a' o = fbyte V a o) → frange V' a' off len = frange V a off len.
Proof.
  intros Ho. apply list_eq. intros i. rewrite !lookup_frange. case_decide; [|done].
  f_equal. apply Ho. lia.
Qed.
End Range.

(** * Reading *)

Section Read.
Context {St : Type} `{!TxnIO St, !TxnSpec St} (sb : superblock) (devsw : list (devops (St := St))).
Implicit Types (s : fsst St) (V : list (list Z)) (I : Z → dinode) (X E T U R : gset Z) (a : list Z).

(** A file has at most MAXFILE blocks. *)
Lemma file_size V I E T n :
  fs_ok V sb I E T → inum_ok sb n → n ∉ T → 0 ≤ di_size (I n) ≤ MAXFILE * BSIZE.
Proof.
  intros Hok Hn HT. pose proof (dw_size _ (fo_wf _ _ _ _ _ Hok n Hn)) as [Hs _]. split; [done|].
  destruct (Z.le_gt_cases (di_size (I n)) (MAXFILE * BSIZE)); [done|].
  pose proof (fo_dense _ _ _ _ _ Hok n MAXFILE Hn HT) as Hd. change MAXFILE with 140 in *. lia.
Qed.

(** Every byte of a file is in a block of the file. *)
Lemma file_block V I E T n o :
  fs_ok V sb I E T → inum_ok sb n → n ∉ T → 0 ≤ o < di_size (I n) →
  0 ≤ o / BSIZE < MAXFILE ∧ fptr V (di_addrs (I n)) (Z.to_nat (o / BSIZE)) ≠ 0.
Proof.
  intros Hok Hn HT Ho. assert (0 ≤ o / BSIZE) by (apply Z.div_pos; [lia|done]).
  destruct (fo_dense _ _ _ _ _ Hok n (o / BSIZE) Hn HT); [done| |done].
  rewrite BSIZE_eq. pose proof (Z.mul_div_le o 512). lia.
Qed.

Lemma readi_loop_run fuel s V X I E T U ip n i len tot off (Q : list Z → fsst St → Prop) :
  fs_inv sb s V X I E T U → inode_at s ip n i → n ∉ T → (size X ≤ tx_cap)%nat →
  0 ≤ tot ≤ len → len < 2 ^ 32 → 0 ≤ off → off + (len - tot) ≤ di_size (I n) →
  len - tot < Z.of_nat fuel →
  (∀ io, tx_is io V X ∅ → Q (frange V (di_addrs (I n)) off (len - tot)) (set_fs_io io s)) →
  wp (readi_loop fuel ip len tot off) Q s.
Proof.
  revert s tot off Q. induction fuel as [|fuel IH]; intros s tot off Q Hi Hat HT HX Htot Hlen Hoff Hend Hf HQ; [lia|].
  destruct (inode_at_di sb _ _ _ _ _ _ _ _ _ _ Hi Hat) as (Edi&Edev&Hn).
  pose proof (fi_ok _ _ _ _ _ _ _ _ Hi) as Hok. pose proof (file_size V I E T n Hok Hn HT) as Hsz.
  change (MAXFILE * BSIZE) with 71680 in Hsz.
  cbn [readi_loop]. destruct (Z.ltb_spec tot len) as [Hlt|Hge]; simpl negb; cbv iota; cycle 1.
  { apply wp_ret. replace (len - tot) with 0 in HQ by lia. rewrite <- (set_fs_io_id s). apply HQ, Hi. }
  destruct (file_block V I E T n off Hok Hn HT) as [Hb Hne]; [lia|].
  pose proof (geom_facts sb V (fi_geom _ _ _ _ _ _ _ _ Hi)) as Hgf.
  pose proof (fo_own _ _ _ _ _ Hok n _ Hn (slot_lt (Z.to_nat (off / BSIZE)) ltac:(lia)) Hne) as Hr.
  fold (fptr V (di_addrs (I n)) (Z.to_nat (off / BSIZE))) in Hr.
  set (b := fptr V (di_addrs (I n)) (Z.to_nat (off / BSIZE))) in *.
  apply wp_bind, (wp_geti _ _ _ _ (proj1 Hat)), wp_bind. rewrite Edev.
  eapply bmap_lookup; [exact Hi|exact Hat|done..|]. intros io1 Ht1. fold b. apply wp_bind.
  eapply (wp_bread _ V X ∅); [exact Ht1|lia|by intros ?|done|by rewrite map_size_empty; lia|].
  intros bp io2 Ht2 _. apply wp_bind. eapply wp_bdata; [exact Ht2|apply lookup_insert_eq|].
  apply wp_bind. eapply wp_brelse; [exact Ht2|apply lookup_insert_eq|].
  intros io3 Ht3. rewrite delete_insert_id in Ht3 by done. apply wp_bind.
  pose proof (Z.mod_pos_bound off BSIZE ltac:(done)) as Hmod. change BSIZE with 512 in *.
  rewrite (wrap_small 32 (len - tot)) by lia.
  set (m := Z.min (len - tot) (512 - off mod 512)).
  assert (1 ≤ m ≤ len - tot ∧ off mod 512 + m ≤ 512) as Hm by (unfold m; lia).
  rewrite !wrap_small by lia.
  assert (fs_inv sb (set_fs_io io3 s) V X I E T U) as Hi3.
  { eapply fs_inv_io; [exact Hi|done|apply Hi|done|apply Hi|]. intros; by left. }
  eapply (IH _ (tot + m) (off + m)); [exact Hi3|exact Hat|done..|lia|done|lia|lia|lia|].
  intros io4 Ht4. apply wp_ret. simpl.
  replace (len - tot) with (m + (len - (tot + m))) in HQ by lia.
  rewrite frange_app in HQ by lia. rewrite (frange_block _ _ off m) in HQ; [|lia|lia|change BSIZE with 512; lia|].
  - by apply HQ.
  - change BSIZE with 512. fold b. apply block_at; [by eapply fi_blocks|lia].
Qed.

(** readi returns the bytes of the file from [off] on, at most [len] of them and not past
    its end, and changes nothing. *)
Lemma readi_run s V X I E T U ip n i off len (Q : Z * list Z → fsst St → Prop) :
  fs_inv sb s V X I E T U → inode_at s ip n i → n ∉ T → (size X ≤ tx_cap)%nat →
  di_type (I n) ≠ T_DEV → 0 ≤ off < 2 ^ 32 → 0 ≤ len < 2 ^ 32 →
  (∀ io, tx_is io V X ∅ →
     Q (if decide (off ≤ di_size (I n) ∧ off + len < 2 ^ 32) then
          (Z.min len (di_size (I n) - off),
           frange V (di_addrs (I n)) off (Z.min len (di_size (I n) - off)))
        else (-1, [])) (set_fs_io io s)) →
  wp (readi devsw ip off len) Q s.
Proof.
  intros Hi Hat HT HX Hty Hoff Hlen HQ.
  destruct (inode_at_di sb _ _ _ _ _ _ _ _ _ _ Hi Hat) as (Edi&Edev&Hn).
  pose proof (fi_ok _ _ _ _ _ _ _ _ Hi) as Hok. pose proof (file_size V I E T n Hok Hn HT) as Hsz.
  change (MAXFILE * BSIZE) with 71680 in Hsz.
  unfold readi. apply wp_bind, (wp_geti _ _ _ _ (proj1 Hat)). rewrite Edi.
  rewrite (proj2 (Z.eqb_neq _ _)) by done.
  destruct (Z.ltb_spec (di_size (I n)) off) as [H1|H1]; simpl orb.
  { apply wp_ret. rewrite decide_False in HQ by lia. rewrite <- (set_fs_io_id s). apply HQ, Hi. }
  destruct (Z.lt_ge_cases (off + len) (2 ^ 32)) as [H2|H2]; cycle 1.
  { assert (u32 (off + len) = off + len - 2 ^ 32) as ->.
    { unfold wrap. rewrite <- (Z.mod_small (off + len - 2 ^ 32) (2 ^ 32)) by lia.
      rewrite <- (Z_mod_plus_full (off + len - 2 ^ 32) 1). f_equal. lia. }
    rewrite (proj2 (Z.ltb_lt _ _)) by lia. apply wp_ret. rewrite decide_False in HQ by lia.
    rewrite <- (set_fs_io_id s). apply HQ, Hi. }
  rewrite (wrap_small 32 (off + len)) by lia. rewrite (proj2 (Z.ltb_ge (off + len) off)) by lia.
  rewrite decide_True in HQ by lia.
  assert ((if di_size (I n) <? off + len then u32 (di_size (I n) - off) else len) =
    Z.min len (di_size (I n) - off)) as ->.
  { destruct (Z.ltb_spec (di_size (I n)) (off + len)); [rewrite wrap_small by lia|]; lia. }
  apply wp_bind. eapply readi_loop_run; [done..|lia|lia|lia|lia|lia|].
  intros io Ht. apply wp_ret. rewrite Z.sub_0_r. rewrite sext_small by lia. by apply HQ.
Qed.
End Read.

(** * Writing *)

Section Wrote.
Context {St : Type} `{!TxnIO St, !TxnSpec St} (sb : superblock).
Implicit Types (V : list (list Z)) (I : Z → dinode) (E T : gset Z) (a bs : list Z).

(** The bytes [bs] at [off] of inode [n] were written, and nothing else of any file. *)
Record wrote V I V' I' (n off : Z) bs : Prop := {
  w_len : length V' = length V;
  w_meta m : 0 ≤ m < sb_bmapstart sb → V' !!! Z.to_nat m = V !!! Z.to_nat m;
  w_other j k : inum_ok sb j → j ≠ n → Z.of_nat k < MAXFILE → fptr V (di_addrs (I j)) k ≠ 0 →
    fptr V' (di_addrs (I' j)) k = fptr V (di_addrs (I j)) k ∧
    V' !!! Z.to_nat (fptr V (di_addrs (I j)) k) = V !!! Z.to_nat (fptr V (di_addrs (I j)) k);
  w_kept o : 0 ≤ o < MAXFILE * BSIZE → fptr V (di_addrs (I n)) (Z.to_nat (o / BSIZE)) ≠ 0 →
    fptr V' (di_addrs (I' n)) (Z.to_nat (o / BSIZE)) ≠ 0 ∧
    (o < off ∨ off + Z.of_nat (length bs) ≤ o →
     fbyte V' (di_addrs (I' n)) o = fbyte V (di_addrs (I n)) o);
  w_new o : off ≤ o < off + Z.of_nat (length bs) →
    fptr V' (di_addrs (I' n)) (Z.to_nat (o / BSIZE)) ≠ 0 ∧
    fbyte V' (di_addrs (I' n)) o = bs !!! Z.to_nat (o - off);
}.

Lemma wrote_nil V I n off : wrote V I V I n off [].
Proof. split; try done. simpl. intros. lia. Qed.

Lemma wrote_app V I V1 I1 V2 I2 n off bs1 bs2 :
  0 ≤ off → off + Z.of_nat (length (bs1 ++ bs2)) ≤ MAXFILE * BSIZE →
  wrote V I V1 I1 n off bs1 → wrote V1 I1 V2 I2 n (off + Z.of_nat (length bs1)) bs2 →
  wrote V I V2 I2 n off (bs1 ++ bs2).
Proof.
  rewrite length_app. intros Hoff Hmax [El Em Ho Hk Hn] [El' Em' Ho' Hk' Hn']. split.
  - congruence.
  - intros m Hm. by rewrite Em', Em.
  - intros j k Hj Hjn Hlt Hne. destruct (Ho j k Hj Hjn Hlt Hne) as [E1 E2].
    destruct (Ho' j k Hj Hjn Hlt) as [E1' E2']; [by rewrite E1|]. rewrite E1 in E1', E2'.
    split; [done|]. by rewrite E2'.
  - intros o Hr Hne. destruct (Hk o Hr Hne) as [Hne1 E1]. destruct (Hk' o Hr Hne1) as [Hne2 E2].
    split; [done|]. rewrite length_app. intros Hout. rewrite E2, E1 by lia. done.
  - intros o Hr. rewrite length_app in Hr. destruct (Z.lt_ge_cases o (off + Z.of_nat (length bs1))).
    + destruct (Hn o ltac:(lia)) as [Hne E1]. destruct (Hk' o ltac:(lia) Hne) as [Hne2 E2].
      split; [done|]. rewrite E2, E1 by lia. rewrite lookup_total_app_l by lia. done.
    + destruct (Hn' o ltac:(lia)) as [Hne ->]. split; [done|].
      rewrite lookup_total_app_r by lia. f_equal. lia.
Qed.

(** A store into a data block of inode [n]. *)
Lemma store_data V I E T n k d :
  geom sb V → fs_ok V sb I E T → inum_ok sb n → Z.of_nat k < MAXFILE →
  let b := fptr V (di_addrs (I n)) k in
  b ≠ 0 →
  fs_ok (<[Z.to_nat b := d]> V) sb I E T ∧ geom sb (<[Z.to_nat b := d]> V) ∧
  nfree (<[Z.to_nat b := d]> V) sb = nfree V sb ∧
  (∀ m, 0 ≤ m → m ≠ b → <[Z.to_nat b := d]> V !!! Z.to_nat m = V !!! Z.to_nat m) ∧
  (∀ j p, inum_ok sb j → ptr (<[Z.to_nat b := d]> V) (di_addrs (I j)) p = ptr V (di_addrs (I j)) p).
Proof.
  intros Hg Hok Hn Hk b Hne. pose proof (geom_facts sb V Hg) as Hgf.
  pose proof (fo_own _ _ _ _ _ Hok n _ Hn (slot_lt k Hk) Hne) as Hr.
  fold (fptr V (di_addrs (I n)) k) in Hr. fold b in Hr.
  assert (∀ m, 0 ≤ m → m ≠ b → <[Z.to_nat b := d]> V !!! Z.to_nat m = V !!! Z.to_nat m) as Hm.
  { intros m ? ?. apply list_lookup_total_insert_ne. lia. }
  assert (∀ j, inum_ok sb j → di_addrs (I j) !!! NDIRECT ≠ 0 →
    <[Z.to_nat b := d]> V !!! Z.to_nat (di_addrs (I j) !!! NDIRECT) = V !!! Z.to_nat (di_addrs (I j) !!! NDIRECT)) as Hind.
  { intros j Hj Hnz. pose proof (fo_own _ _ _ _ _ Hok j NDIRECT Hj NDIRECT_ptr) as Hr'.
    rewrite ptr_direct in Hr' by lia. specialize (Hr' Hnz). apply Hm; [lia|]. intros E'.
    destruct (fo_inj _ _ _ _ _ Hok n (slot k) j NDIRECT Hn (slot_lt k Hk) Hj NDIRECT_ptr Hne) as [_ Es].
    { rewrite (ptr_direct V _ NDIRECT) by lia. by rewrite E'. }
    by apply slot_ne in Es. }
  assert (∀ c, 0 ≤ c < sb_size sb → <[Z.to_nat b := d]> V !!! Z.to_nat (BBLOCK c sb) = V !!! Z.to_nat (BBLOCK c sb)) as Hbm.
  { intros c Hc. pose proof (BBLOCK_range sb V c Hg Hc). apply Hm; lia. }
  split_and!; [by eapply fs_ok_ext|apply geom_store; [done|lia]| |done|].
  - apply nfree_ext. intros c Hc. apply used_ext. by apply Hbm.
  - intros j p Hj. apply ptr_ext. by apply Hind.
Qed.

(** One round of the loop of writei: a frame (bmap) and a store into the block. *)
Lemma wrote_block V I V1 I1 E T n off bs :
  geom sb V1 → Forall block V1 → fs_ok V1 sb I1 E T → inum_ok sb n → frame sb V I V1 I1 →
  0 ≤ off → off / BSIZE < MAXFILE → off mod BSIZE + Z.of_nat (length bs) ≤ BSIZE →
  let b := fptr V1 (di_addrs (I1 n)) (Z.to_nat (off / BSIZE)) in
  b ≠ 0 →
  wrote V I (<[Z.to_nat b := splice (Z.to_nat (off mod BSIZE)) bs (V1 !!! Z.to_nat b)]> V1) I1 n off bs.
Proof.
  intros Hg HV Hok Hn [Fl Fm Ff] Hoff Hmax Hlen b Hne. pose proof (geom_facts sb V1 Hg) as Hgf.
  set (k := Z.to_nat (off / BSIZE)) in *.
  assert (Z.of_nat k < MAXFILE) as Hk by (unfold k; change MAXFILE with 140 in *; lia).
  pose proof (fo_own _ _ _ _ _ Hok n _ Hn (slot_lt k Hk) Hne) as Hr.
  fold (fptr V1 (di_addrs (I1 n)) k) in Hr. fold b in Hr.
  assert (block (V1 !!! Z.to_nat b)) as [Hbl _] by (apply block_at; [done|lia]).
  pose proof (Z.mod_pos_bound off BSIZE ltac:(done)) as Hmod.
  assert (0 ≤ off / BSIZE) as Hq by (apply Z.div_pos; [lia|done]).
  remember (V1 !!! Z.to_nat b) as db eqn:Edb.
  set (d := splice _ _ _).
  destruct (store_data V1 I1 E T n k d Hg Hok Hn Hk Hne) as (_&_&_&Hm&Hp). fold b in Hm, Hp.
  set (V2 := <[Z.to_nat b := d]> V1) in *.
  assert (∀ j k', inum_ok sb j → fptr V2 (di_addrs (I1 j)) k' = fptr V1 (di_addrs (I1 j)) k') as Hfp.
  { intros. by apply Hp. }
  assert (V2 !!! Z.to_nat b = d) as Hd by (apply list_lookup_total_insert_eq; lia).
  (* blocks other than b *)
  assert (∀ j k', inum_ok sb j → Z.of_nat k' < MAXFILE → fptr V1 (di_addrs (I1 j)) k' ≠ 0 →
    (j, k') ≠ (n, k) → V2 !!! Z.to_nat (fptr V1 (di_addrs (I1 j)) k') = V1 !!! Z.to_nat (fptr V1 (di_addrs (I1 j)) k')) as Hoth.
  { intros j k' Hj Hk' Hnz Hjk.
    pose proof (fo_own _ _ _ _ _ Hok j _ Hj (slot_lt k' Hk') Hnz) as Hr'.
    apply Hm; [unfold fptr; lia|]. intros E'.
    destruct (fo_inj _ _ _ _ _ Hok j (slot k') n (slot k) Hj (slot_lt k' Hk') Hn (slot_lt k Hk) Hnz E') as [-> Es].
    by apply slot_inj in Es as ->. }
  split.
  - unfold V2. by rewrite length_insert.
  - intros m Hm'. rewrite Hm by lia. by apply Fm.
  - intros j k' Hj Hjn Hk' Hnz. destruct (Ff j k' Hj Hk' Hnz) as [E1 E2]. rewrite Hfp, E1 by done.
    split; [done|]. rewrite <- E1, Hoth; [by rewrite E1|done..|by rewrite E1|congruence].
  - intros o Ho Hnz. set (ko := Z.to_nat (o / BSIZE)) in *.
    assert (0 ≤ o / BSIZE < MAXFILE) as Hko.
    { split; [apply Z.div_pos; [lia|done]|]. apply Z.div_lt_upper_bound; [done|]. lia. }
    destruct (Ff n ko Hn ltac:(unfold ko; lia) Hnz) as [E1 E2].
    split; [rewrite Hfp, E1; done|]. intros Hout. unfold fbyte. fold ko. rewrite Hfp, E1 by done.
    destruct (decide (ko = k)) as [Ek|Hkk]; cycle 1.
    { rewrite <- E1, Hoth; [by rewrite E1, E2|done|unfold ko; lia|by rewrite E1|congruence]. }
    assert (o / BSIZE = off / BSIZE) as Eq by (unfold ko, k in Ek; lia).
    rewrite <- E2, <- E1, Ek. fold b. rewrite Hd, <- Edb. unfold d. rewrite !list_lookup_total_alt. f_equal.
    pose proof (Z.mod_pos_bound o BSIZE ltac:(done)).
    pose proof (Z.div_mod o BSIZE ltac:(done)). pose proof (Z.div_mod off BSIZE ltac:(done)).
    assert (o mod BSIZE < off mod BSIZE ∨ off mod BSIZE + Z.of_nat (length bs) ≤ o mod BSIZE)
      by (change BSIZE with 512 in *; lia).
    rewrite lookup_splice by lia. rewrite decide_False by lia. done.
  - intros o Ho. destruct (off_same_block off (o - off)) as [Eq Em]; [lia..|].
    replace (off + (o - off)) with o in Eq, Em by lia. unfold fbyte. rewrite Eq. fold k.
    rewrite Hfp by done. fold b. split; [done|]. rewrite Hd. unfold d.
    rewrite !list_lookup_total_alt. rewrite lookup_splice by lia. rewrite decide_True by lia.
    do 2 f_equal. lia.
Qed.
End Wrote.

(** The number of blocks that hold [len] bytes from [off] on. *)
Definition nblk (off len : Z) : nat :=
  if decide (len ≤ 0) then 0 else Z.to_nat ((off + len - 1) / BSIZE - off / BSIZE + 1).

Lemma nblk_step off len :
  0 ≤ off → 0 < len → let m := Z.min len (BSIZE - off mod BSIZE) in
  (S (nblk (off + m) (len - m)) ≤ nblk off len)%nat.
Proof.
  intros Hoff Hlen m. unfold nblk. rewrite (decide_False (P := len ≤ 0)) by lia.
  change BSIZE with 512 in *. pose proof (Z.mod_pos_bound off 512 ltac:(lia)).
  pose proof (Z.div_mod off 512 ltac:(lia)).
  assert (off / 512 ≤ (off + len - 1) / 512) by (apply Z.div_le_mono; lia).
  case_decide; [lia|]. assert (m = 512 - off mod 512) as Em by lia. rewrite Em.
  replace (off + (512 - off mod 512) + (len - (512 - off mod 512)) - 1) with (off + len - 1) by lia.
  replace (off + (512 - off mod 512)) with ((off / 512 + 1) * 512) by lia.
  rewrite Z.div_mul by lia.
  assert (off / 512 + 1 ≤ (off + len - 1) / 512); [|lia].
  apply Z.div_le_lower_bound; lia.
Qed.

Section Write.
Context {St : Type} `{!TxnIO St, !TxnSpec St} (sb : superblock) (devsw : list (devops (St := St))).
Implicit Types (s : fsst St) (V : list (list Z)) (I : Z → dinode) (X E T U R : gset Z) (a bs src : list Z).

Lemma fs_inv_unsync s V X I E T U ip n i :
  fs_inv sb s V X I E T U → inode_at s ip n i → fs_inv sb s V X I E T ({[n]} ∪ U).
Proof.
  intros Hi Hat. rewrite <- (set_fs_io_id s). eapply fs_inv_io; [exact Hi|apply Hi..| |].
  - intros j Hj HjU. apply (fi_sync _ _ _ _ _ _ _ _ Hi); set_solver.
  - intros j [->%elem_of_singleton|]%elem_of_union; [right; by exists ip, i|by left].
Qed.

Lemma fs_inv_sync s V X I E T U n :
  fs_inv sb s V X I E T ({[n]} ∪ U) → I n = dino V sb n → fs_inv sb s V X I E T U.
Proof.
  intros Hi Hn. rewrite <- (set_fs_io_id s). eapply fs_inv_io; [exact Hi|apply Hi..| |].
  - intros j Hj HjU. destruct (decide (j = n)) as [->|]; [done|].
    apply (fi_sync _ _ _ _ _ _ _ _ Hi); [done|set_solver].
  - intros j Hj. left. set_solver.
Qed.

Lemma upd_state_twice s io1 io2 ip i1 i2 : upd_state io2 ip i2 (upd_state io1 ip i1 s) = upd_state io2 ip i2 s.
Proof. unfold upd_state, set_fs_inodes, set_fs_io. simpl. by rewrite list_insert_insert_eq. Qed.

Lemma set_i_di_twice d1 d2 i : set_i_di d2 (set_i_di d1 i) = set_i_di d2 i.
Proof. done. Qed.

Lemma splice_block off bs d :
  block d → bytes bs → (off + length bs ≤ Z.to_nat BSIZE)%nat → block (splice off bs d).
Proof.
  intros [Hl Hb] Hbs Ho. split; [|by apply splice_forall]. rewrite length_splice; [done|]. by rewrite Hl.
Qed.

Lemma writei_loop_run fuel s V X I E T U ip n i src len tot off k (Q : Z → fsst St → Prop) :
  fs_inv sb s V X I E T U → inode_at s ip n i →
  0 ≤ tot ≤ len → len < 2 ^ 32 → 0 ≤ off → off + (len - tot) ≤ MAXFILE * BSIZE →
  len - tot ≤ Z.of_nat (length src) → bytes src → len - tot < Z.of_nat fuel →
  room X (bitmaps sb) (nblk off (len - tot) + (icost X (di_addrs (I n)) + k)) →
  (nblk off (len - tot) + iblk (di_addrs (I n)) ≤ nfree V sb)%nat →
  (∀ V' X' I' io, let s' := upd_state io ip (set_i_di (I' n) i) s in
     fs_inv sb s' V' X' I' E T ({[n]} ∪ U) → inode_at s' ip n (set_i_di (I' n) i) →
     (∀ j, j ≠ n → I' j = I j) → (∃ a, I' n = set_di_addrs a (I n)) →
     wrote sb V I V' I' n off (take (Z.to_nat (len - tot)) src) → room X' (bitmaps sb) k →
     ((∀ o, off ≤ o < off + (len - tot) → fptr V (di_addrs (I n)) (Z.to_nat (o / BSIZE)) ≠ 0) →
      I' n = I n) →
     Q (off + (len - tot)) s') →
  wp (writei_loop fuel ip src len tot off) Q s.
Proof.
  revert s V X I U i src tot off Q.
  induction fuel as [|fuel IH]; intros s V X I U i src tot off Q Hi Hat Htot Hlen Hoff Hmax Hsrc Hbs Hf Hroom Hfree HQ; [lia|].
  destruct (inode_at_di sb _ _ _ _ _ _ _ _ _ _ Hi Hat) as (Edi&Edev&Hn).
  cbn [writei_loop]. destruct (Z.ltb_spec tot len) as [Hlt|Hge]; simpl negb; cbv iota; cycle 1.
  { apply wp_ret. replace (len - tot) with 0 in * by lia.
    pose proof (same_state sb s V X I E T U ip n i (fs_io s) Hi Hat) as Es.
    rewrite set_fs_io_id in Es. rewrite Z.add_0_r in HQ.
    pose proof (HQ V X I (fs_io s)) as HQ'. simpl in HQ'. rewrite <- Es in HQ'. apply HQ'; try done.
    - by eapply fs_inv_unsync.
    - rewrite <- Edi, set_i_di_id. done.
    - exists (di_addrs (I n)). by destruct (I n).
    - apply wrote_nil.
    - eapply room_le; [exact Hroom|]. lia. }
  pose proof (Z.mod_pos_bound off BSIZE ltac:(done)) as Hmod.
  assert (0 ≤ off / BSIZE < MAXFILE) as Hbn.
  { split; [apply Z.div_pos; [lia|done]|]. apply Z.div_lt_upper_bound; [done|]. lia. }
  set (m := Z.min (len - tot) (BSIZE - off mod BSIZE)) in *.
  assert (1 ≤ m ≤ len - tot ∧ off mod BSIZE + m ≤ BSIZE) as Hm by (unfold m; lia).
  pose proof (nblk_step off (len - tot) Hoff ltac:(lia)) as Hnb. fold m in Hnb. simpl in Hnb.
  set (nb := nblk (off + m) (len - tot - m)) in *.
  apply wp_bind, (wp_geti _ _ _ _ (proj1 Hat)), wp_bind. rewrite Edev.
  eapply (bmap_run sb s V X I E T U ip n i (off / BSIZE) (nb + k)); [done..| |lia|].
  { eapply room_le; [exact Hroom|]. lia. }
  intros b s1 V1 X1 I1 io1 [Es1 Hi1 Hat1 Ho1 [a1 Hd1] Hfr1 Hbl1 Hbr1 Hrm1 Hsame1 Hnf1].
  pose proof (fi_geom _ _ _ _ _ _ _ _ Hi1) as Hg1. pose proof (geom_facts sb V1 Hg1) as Hgf.
  pose proof (fi_ok _ _ _ _ _ _ _ _ Hi1) as Hok1. pose proof (fi_blocks _ _ _ _ _ _ _ _ Hi1) as HV1.
  assert (size X1 < tx_cap)%nat as HX1.
  { pose proof (room_size _ _ _ Hrm1). assert (size X1 ≤ size ({[b]} ∪ X1))%nat; [|lia].
    apply subseteq_size. set_solver. }
  assert (b ≠ 0) as Hb0 by lia.
  apply wp_bind. eapply wp_bread; [apply Hi1|lia|by intros ?|lia|by rewrite map_size_empty; lia|].
  intros bp io2 Ht2 _. apply wp_bind. eapply wp_bdata; [exact Ht2|apply lookup_insert_eq|].
  rewrite (wrap_small 32 (len - tot)) by lia. fold m.
  set (bs := take (Z.to_nat m) src).
  assert (Z.of_nat (length bs) = m) as Hlbs by (unfold bs; rewrite length_take; lia).
  assert (bytes bs) as Hbbs by (by apply Forall_take).
  eapply wp_store; [exact Ht2|apply lookup_insert_eq| |apply (g_home _ _ Hg1); lia|done|].
  { apply splice_block; [apply block_at; [done|lia]|done|]. lia. }
  intros io3 Ht3. apply wp_bind. eapply wp_brelse; [exact Ht3|apply lookup_insert_eq|].
  intros io4 Ht4. rewrite delete_insert_id in Ht4 by done.
  assert (off mod BSIZE + Z.of_nat (length bs) ≤ BSIZE) as Hin by lia.
  pose proof (wrote_block sb V I V1 I1 E T n off bs Hg1 HV1 Hok1 Hn Hfr1 Hoff ltac:(lia) Hin) as Hw.
  destruct (store_data sb V1 I1 E T n (Z.to_nat (off / BSIZE))
    (splice (Z.to_nat (off mod BSIZE)) bs (V1 !!! Z.to_nat b)) Hg1 Hok1 Hn ltac:(lia)) as (Hok2&Hg2&Hnf2&Hm2&_);
    [by rewrite Hbl1|].
  cbv zeta in Hw. rewrite Hbl1 in Hw, Hok2, Hg2, Hnf2, Hm2. specialize (Hw Hb0).
  set (V2 := <[Z.to_nat b := _]> V1) in *.
  assert (fs_inv sb (set_fs_io io4 s1) V2 ({[b]} ∪ X1) I1 E T ({[n]} ∪ U)) as Hi2.
  { eapply fs_inv_io; [exact Hi1|done..| |by intros; left]. intros j Hj HjU.
    rewrite (fi_sync _ _ _ _ _ _ _ _ Hi1) by done. symmetry. apply dino_ext.
    pose proof (IBLOCK_range sb V1 j Hg1 Hj). apply Hm2; lia. }
  rewrite !wrap_small by (change (MAXFILE * BSIZE) with 71680 in *; lia).
  change (set_fs_io io4 (set_fs_io io3 (set_fs_io io2 s1))) with (set_fs_io io4 s1).
  eapply (IH (set_fs_io io4 s1) V2 ({[b]} ∪ X1) I1 ({[n]} ∪ U) (set_i_di (I1 n) i));
    [exact Hi2|exact Hat1|lia|done|lia|lia|rewrite length_drop; lia|by apply Forall_drop|lia|..].
  - replace (len - (tot + m)) with (len - tot - m) by lia. fold nb.
    eapply room_le; [exact Hrm1|]. pose proof (icost_mono X1 ({[b]} ∪ X1) (di_addrs (I1 n)) ltac:(set_solver)). lia.
  - replace (len - (tot + m)) with (len - tot - m) by lia. fold nb. rewrite Hnf2. lia.
  - intros V' X' I' io s' Hi' Hat' Ho' [a' Hd'] Hw' Hroom' Hsame'.
    assert (s' = upd_state io ip (set_i_di (I' n) i) s) as Es'.
    { unfold s'. rewrite Es1. unfold upd_state, set_fs_inodes, set_fs_io. simpl. by rewrite list_insert_insert_eq. }
    replace (off + m + (len - (tot + m))) with (off + (len - tot)) by lia.
    rewrite set_i_di_twice in Hat'.
    rewrite Es' in Hi', Hat' |- *. apply (HQ V' X' I' io).
    + by replace ({[n]} ∪ U) with ({[n]} ∪ ({[n]} ∪ U)) by set_solver.
    + done.
    + intros j Hj. rewrite Ho' by done. by apply Ho1.
    + exists a'. rewrite Hd', Hd1. done.
    + replace (Z.to_nat (len - tot)) with (Z.to_nat m + Z.to_nat (len - (tot + m)))%nat by lia.
      rewrite <- take_take_drop. eapply wrote_app; [done| |exact Hw|].
      * fold bs. rewrite length_app, length_take, length_drop. lia.
      * fold bs. by rewrite Hlbs.
    + done.
    + intros Hall. pose proof (Hsame1 (Hall off ltac:(lia))) as E1. rewrite <- E1. apply Hsame'.
      intros o Ho. destruct (w_kept _ _ _ _ _ _ _ _ Hw o) as [Hk _]; [lia|apply Hall; lia|exact Hk].
Qed.

(** A change of the fields of an inode other than its block pointers. *)
Lemma fs_ok_dinode V I E T n di :
  fs_ok V sb I E T → inum_ok sb n → dinode_wf di → di_addrs di = di_addrs (I n) →
  (n ∉ T → ∀ k, 0 ≤ k → k * BSIZE < di_size di →
     k < MAXFILE ∧ fptr V (di_addrs (I n)) (Z.to_nat k) ≠ 0) →
  fs_ok V sb (<[n := di]> I) E T.
Proof.
  intros [Hwf Hown Hinj Hex Hus Hde] Hn Hwd Ea Hdn.
  assert (∀ j, di_addrs (<[n := di]> I j) = di_addrs (I j)) as Haddr.
  { intros j. destruct (decide (n = j)) as [<-|]; [by rewrite fn_lookup_insert|by rewrite fn_lookup_insert_ne]. }
  split.
  - intros j Hj. destruct (decide (n = j)) as [<-|]; [by rewrite fn_lookup_insert|].
    rewrite fn_lookup_insert_ne by done. auto.
  - intros j p Hj Hp. rewrite Haddr. auto.
  - intros j p j' p' Hj Hp Hj' Hp'. rewrite !Haddr. auto.
  - intros b Hb. destruct (Hex b Hb) as [? Hne]. split; [done|]. intros j p. rewrite Haddr. auto.
  - intros b Hb. rewrite Hus by done. do 2 apply or_iff_compat_l.
    split; intros (j&p&Hj&Hp&Hpb); exists j, p; rewrite Haddr in *; done.
  - intros j k Hj HjT Hk. destruct (decide (n = j)) as [<-|].
    + rewrite fn_lookup_insert, Ea. by apply Hdn.
    + rewrite fn_lookup_insert_ne by done. by apply Hde.
Qed.

(** The inode blocks are not part of any file. *)
Lemma fdata_put_inode V I E T n di j :
  geom sb V → fs_ok V sb I E T → inum_ok sb n → inum_ok sb j → j ∉ T →
  fdata (put_inode sb V n di) (I j) = fdata V (I j).
Proof.
  intros Hg Hok Hn Hj HjT. pose proof (geom_facts sb V Hg). pose proof (IBLOCK_range sb V n Hg Hn).
  unfold fdata. apply frange_ext. intros o Ho.
  destruct (file_block sb V I E T j o Hok Hj HjT ltac:(lia)) as [Hb Hne].
  pose proof (fo_own _ _ _ _ _ Hok j _ Hj (slot_lt (Z.to_nat (o / BSIZE)) ltac:(lia)) Hne) as Hr.
  apply fbyte_ext.
  - unfold fptr. apply ptr_ext. intros Hnz. apply put_inode_other.
    pose proof (fo_own _ _ _ _ _ Hok j NDIRECT Hj NDIRECT_ptr) as Hr'. rewrite ptr_direct in Hr' by lia.
    specialize (Hr' Hnz). lia.
  - apply put_inode_other. unfold fptr. lia.
Qed.

(** The contents after a write. *)
Lemma wrote_fdata V I V' I' E T n off bs :
  fs_ok V sb I E T → inum_ok sb n → n ∉ T → wrote sb V I V' I' n off bs →
  0 ≤ off ≤ di_size (I n) →
  fdata V' (set_di_size (Z.max (di_size (I n)) (off + Z.of_nat (length bs))) (I' n)) =
    splice (Z.to_nat off) bs (fdata V (I n)).
Proof.
  intros Hok Hn HT Hw Hoff. pose proof (file_size sb V I E T n Hok Hn HT) as Hsz.
  assert (length (fdata V (I n)) = Z.to_nat (di_size (I n))) as Hl by apply length_frange.
  apply list_eq. intros i. unfold fdata at 1. cbn [di_size di_addrs set_di_size]. rewrite lookup_frange, Z.add_0_l.
  unfold splice. destruct (decide (Z.of_nat i < off)) as [H1|H1].
  { rewrite decide_True, lookup_app_l, lookup_take_lt by (rewrite ?length_take; lia).
    unfold fdata. rewrite lookup_frange, Z.add_0_l, decide_True by lia. f_equal.
    destruct (file_block sb V I E T n (Z.of_nat i) Hok Hn HT ltac:(lia)) as [Hb Hne].
    destruct (w_kept _ _ _ _ _ _ _ _ Hw (Z.of_nat i)) as [_ Hk]; [lia|done|]. apply Hk. lia. }
  rewrite lookup_app_r by (rewrite length_take; lia). rewrite length_take, Nat.min_l by lia.
  destruct (decide (Z.of_nat i < off + Z.of_nat (length bs))) as [H2|H2].
  { rewrite decide_True, lookup_app_l by lia.
    destruct (w_new _ _ _ _ _ _ _ _ Hw (Z.of_nat i)) as [_ ->]; [lia|].
    rewrite list_lookup_lookup_total_lt by lia. do 2 f_equal. lia. }
  rewrite lookup_app_r, lookup_drop by lia.
  replace (Z.to_nat off + length bs + (i - Z.to_nat off - length bs))%nat with i by lia.
  unfold fdata. rewrite lookup_frange, Z.add_0_l.
  destruct (decide (Z.of_nat i < di_size (I n))); [|by rewrite decide_False by lia].
  rewrite decide_True by lia. f_equal.
  destruct (file_block sb V I E T n (Z.of_nat i) Hok Hn HT ltac:(lia)) as [Hb Hne].
  destruct (w_kept _ _ _ _ _ _ _ _ Hw (Z.of_nat i)) as [_ Hk]; [lia|done|]. apply Hk. lia.
Qed.

Lemma wrote_others V I V' I' E T n off bs j :
  fs_ok V sb I E T → inum_ok sb j → j ∉ T → j ≠ n → I' j = I j → wrote sb V I V' I' n off bs →
  fdata V' (I' j) = fdata V (I j).
Proof.
  intros Hok Hj HjT Hjn Ej Hw. unfold fdata. rewrite Ej. apply frange_ext. intros o Ho.
  destruct (file_block sb V I E T j o Hok Hj HjT ltac:(lia)) as [Hb Hne].
  destruct (w_other _ _ _ _ _ _ _ _ Hw j (Z.to_nat (o / BSIZE)) Hj Hjn ltac:(lia) Hne) as [E1 E2].
  rewrite Ej in E1. by apply fbyte_ext.
Qed.

(** The inodes and contents after a successful write. *)
Record writei_post V I V' I' T (n off : Z) bs : Prop := {
  wp_data : fdata V' (I' n) = splice (Z.to_nat off) bs (fdata V (I n));
  wp_fields : ∃ a, I' n = Dinode (di_type (I n)) (di_major (I n)) (di_minor (I n)) (di_nlink (I n))
    (Z.max (di_size (I n)) (off + Z.of_nat (length bs))) a;
  wp_other j : j ≠ n → I' j = I j;
  wp_others j : inum_ok sb j → j ∉ T → j ≠ n → fdata V' (I' j) = fdata V (I j);
}.

Lemma writei_run s V X I E T U ip n i src off len k (Q : Z → fsst St → Prop) :
  fs_inv sb s V X I E T U → inode_at s ip n i → n ∉ T → n ∉ U → di_type (I n) ≠ T_DEV →
  0 ≤ off ≤ di_size (I n) → 0 ≤ len → off + len ≤ MAXFILE * BSIZE →
  length src = Z.to_nat len → bytes src →
  room X (bitmaps sb) (nblk off len + (2 + k)) → (nblk off len + 1 ≤ nfree V sb)%nat →
  (∀ V' X' I' io i', let s' := upd_state io ip i' s in
     fs_inv sb s' V' X' I' E T U → inode_at s' ip n i' → i' = set_i_di (I' n) i →
     writei_post V I V' I' T n off src → room X' (bitmaps sb) k → Q len s') →
  wp (writei devsw ip src off len) Q s.
Proof.
  intros Hi Hat HT HU Hty Hoff Hlen Hmax Hsrc Hbs Hroom Hfree HQ.
  destruct (inode_at_di sb _ _ _ _ _ _ _ _ _ _ Hi Hat) as (Edi&Edev&Hn).
  pose proof (fi_ok _ _ _ _ _ _ _ _ Hi) as Hok. pose proof (file_size sb V I E T n Hok Hn HT) as Hsz.
  pose proof (fi_geom _ _ _ _ _ _ _ _ Hi) as Hg.
  assert (MAXFILE * BSIZE = 71680) as Emax by done.
  unfold writei. apply wp_bind, (wp_geti _ _ _ _ (proj1 Hat)). rewrite Edi.
  rewrite (proj2 (Z.eqb_neq _ _)) by done. rewrite (wrap_small 32 (off + len)) by lia.
  rewrite (proj2 (Z.ltb_ge (di_size (I n)) off)), (proj2 (Z.ltb_ge (off + len) off)) by lia. simpl orb.
  rewrite (proj2 (Z.ltb_ge (MAXFILE * BSIZE) (off + len))) by lia. cbv iota.
  apply wp_bind. eapply (writei_loop_run _ s V X I E T U ip n i src len 0 off (1 + k)); try done; try lia.
  { eapply room_le; [exact Hroom|]. rewrite Z.sub_0_r. unfold icost. case_decide; lia. }
  { rewrite Z.sub_0_r. unfold iblk. case_decide; lia. }
  intros V1 X1 I1 io1 s1 Hi1 Hat1 Ho1 [a1 Hd1] Hw Hroom1 Hsame. rewrite Z.sub_0_r in *.
  rewrite take_ge in Hw by lia.
  pose proof (fi_ok _ _ _ _ _ _ _ _ Hi1) as Hok1. pose proof (fi_geom _ _ _ _ _ _ _ _ Hi1) as Hg1.
  apply wp_bind, (wp_geti _ _ _ _ (proj1 Hat1)). cbn [i_di set_i_di].
  assert (di_size (I1 n) = di_size (I n)) as Esz by by rewrite Hd1.
  rewrite Esz. apply wp_bind, wp_when.
  pose proof (wrote_fdata V I V1 I1 E T n off src Hok Hn HT Hw Hoff) as Hdata. rewrite Hsrc, Z2Nat.id in Hdata by lia.
  assert (∀ j, inum_ok sb j → j ∉ T → j ≠ n → fdata V1 (I1 j) = fdata V (I j)) as Hoth.
  { intros j Hj HjT Hjn. eapply wrote_others; try done. by apply Ho1. }
  destruct ((0 <? len) && (di_size (I n) <? off + len)) eqn:Eg.
  - (* the file grows *)
    apply andb_true_iff in Eg as [Hl0%Z.ltb_lt Hgr%Z.ltb_lt].
    rewrite Z.max_r in Hdata by lia.
    set (di2 := set_di_size (off + len) (I1 n)) in *.
    apply wp_bind. eapply wp_upd_di; [apply Hat1|]. cbn [i_di set_i_di]. fold di2.
    assert (fs_ok V1 sb (<[n := di2]> I1) E T) as Hok2.
    { apply fs_ok_dinode; try done.
      - destruct (fo_wf _ _ _ _ _ Hok1 n Hn). split; try done. unfold di2, is_u32. simpl. lia.
      - intros _ k0 Hk0 Hks. unfold di2 in Hks. simpl in Hks. split; [rewrite Emax in Hmax; change MAXFILE with 140; change BSIZE with 512 in *; lia|].
        assert (fptr V1 (di_addrs (I1 n)) (Z.to_nat (k0 * BSIZE / BSIZE)) ≠ 0) as Hp; [|by rewrite Z.div_mul in Hp by done].
        destruct (Z.lt_ge_cases (k0 * BSIZE) off).
        + apply (w_kept _ _ _ _ _ _ _ _ Hw); [change BSIZE with 512 in *; lia|].
          eapply file_block; try done. change BSIZE with 512 in *. lia.
        + apply (w_new _ _ _ _ _ _ _ _ Hw). rewrite Hsrc. lia. }
    destruct (fs_inv_upd sb s1 V1 X1 I1 E T ({[n]} ∪ U) io1 V1 X1 di2 E T ({[n]} ∪ U) ip n
      (set_i_di (I1 n) i)) as [Hi2 Hat2]; try done.
    { apply Hi1. }
    { intros j Hj HjU. rewrite fn_lookup_insert_ne by set_solver. by apply (fi_sync _ _ _ _ _ _ _ _ Hi1). }
    { intros; by left. }
    rewrite set_i_di_twice in Hi2, Hat2 |- *.
    replace (upd_state io1 ip (set_i_di di2 i) s1) with (set_fs_inodes (<[ip:=set_i_di di2 i]> (fs_inodes s1)) s1) in Hi2, Hat2 by done.
    eapply (iupdate_run sb _ V1 X1 (<[n := di2]> I1) E T ({[n]} ∪ U) ip n _ (bitmaps sb) (1 + k)); [exact Hi2|exact Hat2|done|].
    intros io3 Hi3. apply wp_ret. rewrite sext_small by lia.
    rewrite fn_lookup_insert in Hi3.
    replace (({[n]} ∪ U) ∖ {[n]}) with U in Hi3 by set_solver.
    match type of Hi3 with fs_inv _ ?s3 _ _ _ _ _ _ => assert (s3 = upd_state io3 ip (set_i_di di2 i) s) as Es3 end.
    { unfold s1, upd_state, set_fs_inodes, set_fs_io. simpl. by rewrite list_insert_insert_eq. }
    rewrite Es3 in Hi3 |- *. eapply (HQ (put_inode sb V1 n di2) _ (<[n := di2]> I1)); [exact Hi3| | | |].
    + destruct Hat2 as (Hip&Hr&Hv&Hm). split_and!; try done. simpl. apply list_lookup_insert_eq.
      by eapply lookup_lt_Some, Hat.
    + by rewrite fn_lookup_insert.
    + split.
      * rewrite (fdata_put_inode V1 (<[n := di2]> I1) E T) by done.
        rewrite fn_lookup_insert. exact Hdata.
      * exists a1. rewrite fn_lookup_insert. unfold di2. rewrite Hd1. simpl. unfold set_di_size. simpl. f_equal. lia.
      * intros j Hj. rewrite fn_lookup_insert_ne by done. by apply Ho1.
      * intros j Hj HjT Hjn. rewrite (fdata_put_inode V1 (<[n := di2]> I1) E T) by done.
        rewrite fn_lookup_insert_ne by done. by apply Hoth.
    + by apply room_new.
  - (* the file keeps its size *)
    assert (len = 0 ∨ off + len ≤ di_size (I n)) as Hsmall.
    { apply andb_false_iff in Eg as [?%Z.ltb_ge|?%Z.ltb_ge]; lia. }
    assert (Z.max (di_size (I n)) (off + len) = di_size (I n)) as Em by lia.
    rewrite Em in Hdata.
    assert (I1 n = I n) as E1.
    { apply Hsame. intros o Ho. eapply file_block; try done. lia. }
    assert (fs_inv sb s1 V1 X1 I1 E T U) as Hi2.
    { eapply fs_inv_sync; [exact Hi1|]. rewrite E1, (fi_sync _ _ _ _ _ _ _ _ Hi) by done.
      symmetry. apply dino_ext. pose proof (IBLOCK_range sb V n Hg Hn). pose proof (geom_facts sb V Hg).
      apply (w_meta _ _ _ _ _ _ _ _ Hw). lia. }
    apply wp_ret. rewrite sext_small by lia. eapply HQ; [exact Hi2|exact Hat1|done| |].
    + split; [| |done|done].
      * rewrite <- Hdata. f_equal. rewrite E1. by destruct (I n).
      * exists (di_addrs (I n)). rewrite E1, Hsrc, Z2Nat.id, Em by lia. by destruct (I n).
    + eapply room_le; [exact Hroom1|lia].
Qed.
End Write.
