(* ===== verification/FsCache.v ===== *)
(** The inode cache (src/fs.c): iget, idup, ilock, iunlock, and iput, which
    truncates and frees the inodes that have neither links nor references. *)

From stdpp Require Import functions.
From S2P Require Import Prelude Bytes Layout Sleeplock Kstring Txn Fs FsDisk FsAlloc FsInode FsFile.

(** * Locks and entries *)

Section Entry.
Context {St : Type} `{!TxnIO St, !TxnSpec St} (sb : superblock).
Implicit Types (s : fsst St) (V : list (list Z)) (I : Z → dinode) (X E T U : gset Z) (i j : inode).

(** The state with entry [ip] replaced. *)
Definition put_i (ip : nat) i s : fsst St := set_fs_inodes (<[ip := i]> (fs_inodes s)) s.

Lemma put_i_twice ip i i' s : put_i ip i' (put_i ip i s) = put_i ip i' s.
Proof. unfold put_i, set_fs_inodes. simpl. by rewrite list_insert_insert_eq. Qed.

Lemma put_i_id ip i s : fs_inodes s !! ip = Some i → put_i ip i s = s.
Proof. intros Hi. unfold put_i, set_fs_inodes. rewrite list_insert_id by done. by destruct s. Qed.

Lemma put_i_lookup ip i i' s : fs_inodes s !! ip = Some i → fs_inodes (put_i ip i' s) !! ip = Some i'.
Proof. intros Hi. simpl. apply list_lookup_insert_eq. by eapply lookup_lt_Some. Qed.

Lemma fs_inv_entry s V X I E T ip i i' :
  fs_inv sb s V X I E T ∅ → fs_inodes s !! ip = Some i →
  0 ≤ i_ref i' → sl_lk (i_lock i') = false →
  (0 < i_ref i' → entry_ok sb I i' ∧
     ∀ jp j, jp ≠ ip → fs_inodes s !! jp = Some j → 0 < i_ref j → i_inum j ≠ i_inum i') →
  fs_inv sb (put_i ip i' s) V X I E T ∅.
Proof.
  intros [Hio Hsb Hg Hok Hsy Hlk Hlen Href Hent Huq Hun] Hip Hr Hsl Hnew.
  pose proof (lookup_lt_Some _ _ _ Hip) as Hlt. split; try done; simpl.
  - by rewrite length_insert.
  - intros jp j. rewrite list_lookup_insert_dec by done. case_decide; [by intros [= <-]|]. apply Href.
  - intros jp j. rewrite list_lookup_insert_dec by done. case_decide; [|apply Hent].
    intros [= <-] ?. by apply Hnew.
  - intros jp kp j k. rewrite !list_lookup_insert_dec by done. repeat case_decide; subst; try done.
    + intros [= <-] Hk Hrj Hrk En. exfalso. eapply (proj2 (Hnew Hrj)); [| |exact Hrk|]; eauto.
    + intros Hj [= <-] Hrj Hrk En. exfalso. eapply (proj2 (Hnew Hrk)); [| |exact Hrj|]; eauto.
    + apply Huq.
Qed.

(** A change of lock or count that keeps the entry in use. *)
Lemma fs_inv_keep s V X I E T ip i i' :
  fs_inv sb s V X I E T ∅ → fs_inodes s !! ip = Some i → 0 < i_ref i →
  0 ≤ i_ref i' → sl_lk (i_lock i') = false → i_dev i' = i_dev i → i_inum i' = i_inum i →
  (ivalid i' = true → i_di i' = I (i_inum i)) →
  fs_inv sb (put_i ip i' s) V X I E T ∅.
Proof.
  intros Hi Hip Hr Hr' Hsl Ed En Hv. eapply fs_inv_entry; [done..|]. intros _.
  destruct (fi_entry _ _ _ _ _ _ _ _ Hi ip i Hip Hr) as [H1 H2 H3].
  split; [split; rewrite ?Ed, ?En; done|].
  intros jp j Hne Hj Hrj Enj. apply Hne. eapply (fi_uniq _ _ _ _ _ _ _ _ Hi); try done. congruence.
Qed.

(** The sleep lock of an entry. *)
Section Lock.
Context (s : fsst St) (ip : nat) (i : inode) (Hip : fs_inodes s !! ip = Some i).
Context (Hlk : sl_lk (i_lock i) = false).

Lemma inode_lock_view l : view (inode_lock ip) (put_i ip (set_i_lock l i) s) = l.
Proof using Hip Hlk. unfold inode_lock, view. by rewrite (put_i_lookup ip i). Qed.

Lemma inode_lock_over l l' :
  over (inode_lock ip) l' (put_i ip (set_i_lock l i) s) = put_i ip (set_i_lock l' i) s.
Proof using Hip Hlk.
  unfold over, inode_lock. rewrite (alter_known _ _ _ _ (put_i_lookup ip i _ s Hip)).
  apply (put_i_twice ip (set_i_lock l i) (set_i_lock l' i) s).
Qed.

Lemma put_lock_id : put_i ip (set_i_lock (i_lock i) i) s = s.
Proof using Hip Hlk. rewrite <- (put_i_id ip i s) at 2 by done. f_equal. by destruct i. Qed.

Lemma wp_lock_zoom {A} (m : M sleeplock A) l (Q : A → fsst St → Prop) :
  wp m (λ a l', Q a (put_i ip (set_i_lock l' i) s)) l →
  wp (zoom (inode_lock ip) m) Q (put_i ip (set_i_lock l i) s).
Proof using Hip Hlk.
  intros Hm. apply wp_zoom. rewrite inode_lock_view. eapply wp_mono; [exact Hm|].
  intros a l' HQ. by rewrite inode_lock_over.
Qed.

Lemma wp_ilock_acquire pid (Q : unit → fsst St → Prop) :
  sl_locked (i_lock i) = false →
  Q tt (put_i ip (set_i_lock (Sleeplock false true pid) i) s) →
  wp (acquiresleep (inode_lock ip) (Z.of_nat ip) pid) Q s.
Proof using Hip Hlk.
  intros Hfree HQ. rewrite <- put_lock_id. unfold acquiresleep, sl_acquire, sl_release.
  apply wp_bind, wp_lock_zoom, wp_acquire; [done|]. apply wp_bind, wp_gets.
  rewrite inode_lock_view. simpl. rewrite Hfree. apply wp_bind, wp_lock_zoom, wp_modify.
  apply wp_lock_zoom, wp_release; [done|]. exact HQ.
Qed.

Lemma wp_ilock_holding (Q : bool → fsst St → Prop) :
  Q (sl_locked (i_lock i)) s → wp (holdingsleep (inode_lock ip)) Q s.
Proof using Hip Hlk.
  intros HQ. rewrite <- put_lock_id. unfold holdingsleep, sl_acquire, sl_release.
  apply wp_bind, wp_lock_zoom, wp_acquire; [done|]. apply wp_bind, wp_gets. rewrite inode_lock_view.
  apply wp_bind, wp_lock_zoom, wp_release; [done|]. apply wp_ret. simpl.
  replace (set_sl_lk false (set_sl_lk true (i_lock i))) with (i_lock i); [by rewrite put_lock_id|].
  destruct (i_lock i). simpl in *. by subst.
Qed.

(** A wakeup is recorded. *)
Definition add_wake (ch : Z) s' : fsst St :=
  FsSt (fs_io s') (fs_sb s') (fs_lock s') (fs_inodes s') (fs_pid s') (fs_cwd s') (fs_wakes s' ++ [ch]).

Lemma wp_ilock_release (Q : unit → fsst St → Prop) :
  Q tt (add_wake (Z.of_nat ip) (put_i ip (set_i_lock (Sleeplock false false 0) i) s)) →
  wp (releasesleep (inode_lock ip) (Z.of_nat ip) iwakeup) Q s.
Proof using Hip Hlk.
  intros HQ. rewrite <- put_lock_id. unfold releasesleep, sl_acquire, sl_release.
  apply wp_bind, wp_lock_zoom, wp_acquire; [done|]. apply wp_bind, wp_lock_zoom, wp_modify. simpl.
  apply wp_bind, wp_modify. apply wp_zoom. simpl. rewrite list_lookup_insert_eq by by eapply lookup_lt_Some.
  simpl. apply wp_release; [done|]. simpl.
  rewrite (alter_known _ _ _ _ (put_i_lookup ip i (set_i_lock (Sleeplock true false 0) i) s Hip)). simpl.
  unfold put_i, add_wake, set_fs_inodes in *. simpl in *. by rewrite list_insert_insert_eq.
Qed.
End Lock.
End Entry.

(** * References *)

Section Refs.
Context {St : Type} `{!TxnIO St, !TxnSpec St} (sb : superblock).
Implicit Types (s : fsst St) (V : list (list Z)) (I : Z → dinode) (X E T U : gset Z) (i j : inode).

Definition holds_inum (n : Z) i : Prop := 0 < i_ref i ∧ i_dev i = ROOTDEV ∧ i_inum i = n.

Lemma iget_find_spec n k l e :
  match iget_find ROOTDEV n k l e with
  | inl ip => ∃ x i, ip = (k + x)%nat ∧ l !! x = Some i ∧ holds_inum n i
  | inr e' => Forall (λ i, ¬ holds_inum n i) l ∧
      match e with
      | Some _ => e' = e
      | None =>
          match e' with
          | Some ip => ∃ x i, ip = (k + x)%nat ∧ l !! x = Some i ∧ i_ref i = 0
          | None => Forall (λ i, i_ref i ≠ 0) l
          end
      end
  end.
Proof.
  revert k e. induction l as [|i l IH]; intros k e; simpl; [by destruct e|].
  destruct ((0 <? i_ref i) && (i_dev i =? ROOTDEV) && (i_inum i =? n)) eqn:Em.
  { apply andb_true_iff in Em as [[H1%Z.ltb_lt H2%Z.eqb_eq]%andb_true_iff H3%Z.eqb_eq].
    exists 0%nat, i. split_and!; [lia|done..]. }
  assert (¬ holds_inum n i) as Hno.
  { intros (?&E2&E3). rewrite E2, E3, !Z.eqb_refl, (proj2 (Z.ltb_lt 0 (i_ref i))) in Em by done. done. }
  specialize (IH (S k) (match e with Some e => Some e | None => if i_ref i =? 0 then Some k else None end)).
  destruct (iget_find _ _ _ _ _) as [ip|e'].
  - destruct IH as (x&j&->&Hx&Hj). exists (S x), j. split_and!; [lia|done..].
  - destruct IH as [Hall IH]. split; [by constructor|]. destruct e as [e|]; [done|].
    destruct (Z.eqb_spec (i_ref i) 0).
    + subst e'. exists 0%nat, i. split_and!; [lia|done..].
    + destruct e' as [ip|]; [|by constructor]. destruct IH as (x&j&->&Hx&Hj). exists (S x), j. split_and!; [lia|done..].
Qed.

(** What iget does to the entry that it returns. *)
Inductive iget_entry s (n : Z) (ip : nat) i i' : Prop :=
| iget_hit : 0 < i_ref i → i_inum i = n → i' = set_i_ref (i_ref i + 1) i → iget_entry s n ip i i'
| iget_new : i_ref i = 0 →
    (∀ jp j, fs_inodes s !! jp = Some j → 0 < i_ref j → i_inum j ≠ n) →
    i' = Inode ROOTDEV n 1 (i_lock i) 0 (i_di i) → iget_entry s n ip i i'.

Lemma locked_section s (ip : nat) i i' :
  fs_lock s = false →
  set_fs_lock false (set_fs_inodes (<[ip := i']> (fs_inodes (set_fs_lock true s))) (set_fs_lock true s)) = put_i ip i' s.
Proof. intros Hl. destruct s. simpl in *. by subst. Qed.

Lemma iget_run s V X I E T n (Q : nat → fsst St → Prop) :
  fs_inv sb s V X I E T ∅ → inum_ok sb n →
  (∃ ip i, fs_inodes s !! ip = Some i ∧ (i_ref i = 0 ∨ 0 < i_ref i ∧ i_inum i = n)) →
  (∀ ip i i', fs_inodes s !! ip = Some i → iget_entry s n ip i i' →
     fs_inv sb (put_i ip i' s) V X I E T ∅ → Q ip (put_i ip i' s)) →
  wp (iget ROOTDEV n) Q s.
Proof.
  intros Hi Hn Hroom HQ. pose proof (fi_lock _ _ _ _ _ _ _ _ Hi) as Hlk.
  unfold iget. apply wp_bind, wp_acquire; [done|]. apply wp_bind, wp_gets.
  pose proof (iget_find_spec n 0 (fs_inodes s) None) as Hf. simpl fs_inodes.
  destruct (iget_find ROOTDEV n 0 (fs_inodes s) None) as [ip|e].
  - destruct Hf as (x&i&->&Hx&Hr&Hd&Hnum). simpl in Hx.
    assert (iget_entry s n x i (set_i_ref (i_ref i + 1) i)) as He by (by apply iget_hit).
    apply wp_bind. eapply wp_updi; [exact Hx|]. apply wp_bind, wp_release; [done|]. apply wp_ret. simpl.
    rewrite (locked_section s x i _ Hlk). apply (HQ x i _ Hx He).
    destruct (fi_entry _ _ _ _ _ _ _ _ Hi x i Hx Hr) as [? ? Hv].
    destruct (fi_ref _ _ _ _ _ _ _ _ Hi x i Hx). eapply fs_inv_keep; try done; simpl; lia.
  - destruct Hf as [Hall He]. rewrite list.Forall_forall in Hall.
    assert (∀ jp j, fs_inodes s !! jp = Some j → 0 < i_ref j → i_inum j ≠ n) as Hno.
    { intros jp j Hj Hr En. apply (Hall j); [by eapply list_elem_of_lookup_2|].
      destruct (fi_entry _ _ _ _ _ _ _ _ Hi jp j Hj Hr). by split_and!. }
    destruct e as [ip|]; cycle 1.
    { exfalso. destruct Hroom as (ip&i&Hip&[Hz|[Hr En]]); [|by eapply Hno].
      rewrite list.Forall_forall in He. apply (He i); [by eapply list_elem_of_lookup_2|done]. }
    destruct He as (x&i&->&Hx&Hz). simpl in Hx.
    assert (iget_entry s n x i (Inode ROOTDEV n 1 (i_lock i) 0 (i_di i))) as He by (by apply iget_new).
    apply wp_bind. eapply wp_updi; [exact Hx|]. apply wp_bind, wp_release; [done|]. apply wp_ret. simpl.
    rewrite (locked_section s x i _ Hlk). apply (HQ x i _ Hx He).
    destruct (fi_ref _ _ _ _ _ _ _ _ Hi x i Hx). eapply fs_inv_entry; try done.
    intros _. split; [by split|]. intros jp j _. by apply Hno.
Qed.

Lemma idup_run s V X I E T ip i (Q : nat → fsst St → Prop) :
  fs_inv sb s V X I E T ∅ → fs_inodes s !! ip = Some i → 0 < i_ref i →
  (fs_inv sb (put_i ip (set_i_ref (i_ref i + 1) i) s) V X I E T ∅ →
     Q ip (put_i ip (set_i_ref (i_ref i + 1) i) s)) →
  wp (idup ip) Q s.
Proof.
  intros Hi Hip Hr HQ. pose proof (fi_lock _ _ _ _ _ _ _ _ Hi) as Hlk.
  unfold idup. apply wp_bind, wp_acquire; [done|]. apply wp_bind. eapply wp_updi; [exact Hip|].
  apply wp_bind, wp_release; [done|]. apply wp_ret. simpl. rewrite (locked_section s ip i _ Hlk). apply HQ.
  destruct (fi_entry _ _ _ _ _ _ _ _ Hi ip i Hip Hr) as [? ? Hv].
  destruct (fi_ref _ _ _ _ _ _ _ _ Hi ip i Hip). eapply fs_inv_keep; try done; simpl; lia.
Qed.

Lemma ivalid_lor f i : ivalid (set_i_flags (Z.lor f I_VALID) i) = true.
Proof.
  unfold ivalid, I_VALID. simpl. apply negb_true_iff, Z.eqb_neq. intros E.
  assert (Z.testbit (Z.land (Z.lor f 2) 2) 1 = true) as E1.
  { rewrite Z.land_spec, Z.lor_spec. change (Z.testbit 2 1) with true. by rewrite orb_true_r. }
  by rewrite E in E1.
Qed.

(** ilock locks the entry and makes it valid. *)
Lemma ilock_run s V X I E T ip i (Q : unit → fsst St → Prop) :
  fs_inv sb s V X I E T ∅ → fs_inodes s !! ip = Some i → 0 < i_ref i →
  sl_locked (i_lock i) = false → di_type (I (i_inum i)) ≠ 0 → (size X ≤ tx_cap)%nat →
  (∀ io f, let i' := Inode ROOTDEV (i_inum i) (i_ref i) (Sleeplock false true (fs_pid s)) f (I (i_inum i)) in
     let s' := put_i ip i' (set_fs_io io s) in
     fs_inv sb s' V X I E T ∅ → inode_at s' ip (i_inum i) i' → Q tt s') →
  wp (ilock (Some ip)) Q s.
Proof.
  intros Hi Hip Hr Hfree Hty HX HQ. destruct (fi_ref _ _ _ _ _ _ _ _ Hi ip i Hip) as [_ Hsl].
  destruct (fi_entry _ _ _ _ _ _ _ _ Hi ip i Hip Hr) as [Hdev Hnum Hval].
  pose proof (fi_geom _ _ _ _ _ _ _ _ Hi) as Hg. pose proof (geom_facts sb V Hg) as Hgf.
  pose proof (IBLOCK_range sb V _ Hg Hnum) as Hib.
  unfold ilock. apply wp_bind, (wp_geti _ _ _ _ Hip). rewrite (proj2 (Z.ltb_ge _ _)) by lia.
  apply wp_bind, wp_gets, wp_bind. eapply wp_ilock_acquire; [done..|].
  set (i1 := set_i_lock _ i). pose proof (put_i_lookup ip i i1 s Hip) as Hip1.
  apply wp_bind, (wp_geti _ _ _ _ Hip1). change (ivalid i1) with (ivalid i).
  destruct (ivalid i) eqn:Ev.
  - apply wp_ret. specialize (HQ (fs_io s) (i_flags i)). simpl in HQ. rewrite set_fs_io_id in HQ.
    rewrite <- (Hval eq_refl), <- Hdev in HQ. change (Inode _ _ _ _ _ _) with i1 in HQ.
    apply HQ.
    + eapply fs_inv_keep; try done; [simpl; lia|]. intros _. by apply Hval.
    + split_and!; try done.
  - apply wp_bind, wp_gets, wp_bind. change (i_dev i1) with (i_dev i). change (i_inum i1) with (i_inum i).
    rewrite Hdev. change (fs_sb (put_i ip i1 s)) with (fs_sb s). rewrite (fi_sb _ _ _ _ _ _ _ _ Hi), wrap_small by lia.
    eapply (wp_bread _ V X ∅); [apply Hi|lia|by intros ?|done|by rewrite map_size_empty; lia|].
    intros bp io1 Ht1 _. apply wp_bind. eapply wp_bdata; [exact Ht1|apply lookup_insert_eq|].
    assert (dinode_of_bytes (inode_off (i_inum i)) (V !!! Z.to_nat (IBLOCK (i_inum i) sb)) = I (i_inum i)) as Edi.
    { symmetry. apply (fi_sync _ _ _ _ _ _ _ _ Hi); [done|set_solver]. }
    apply wp_bind. eapply wp_upd_di; [exact Hip1|]. rewrite Edi. apply wp_bind.
    eapply (wp_brelse _ V X); [exact Ht1|apply lookup_insert_eq|].
    intros io2 Ht2. rewrite delete_insert_id in Ht2 by done. apply wp_bind.
    eapply wp_updi; [simpl; apply list_lookup_insert_eq; rewrite length_insert; by eapply lookup_lt_Some|].
    rewrite (proj2 (Z.eqb_neq _ _)) by done. apply wp_ret. simpl.
    set (i2 := set_i_flags _ _).
    match goal with |- Q tt ?x => assert (x = put_i ip i2 (set_fs_io io2 s)) as -> end.
    { unfold put_i, set_fs_inodes, set_fs_io. simpl. by rewrite !list_insert_insert_eq. }
    assert (i2 = Inode ROOTDEV (i_inum i) (i_ref i) (Sleeplock false true (fs_pid s))
      (Z.lor (i_flags i) I_VALID) (I (i_inum i))) as E2 by (unfold i2, i1; simpl; by rewrite <- Hdev).
    rewrite E2. apply HQ.
    + assert (fs_inv sb (set_fs_io io2 s) V X I E T ∅) as Hi2.
      { eapply fs_inv_io; [exact Hi|done|done|apply Hi|apply Hi|]. intros; by left. }
      eapply (fs_inv_keep sb (set_fs_io io2 s)); try done. simpl. lia.
    + split_and!; try done; [simpl; apply list_lookup_insert_eq; by eapply lookup_lt_Some|].
      rewrite <- E2. apply ivalid_lor.
Qed.

(** iunlock releases a lock that is held. *)
Lemma iunlock_run s V X I E T ip i (Q : unit → fsst St → Prop) :
  fs_inv sb s V X I E T ∅ → fs_inodes s !! ip = Some i → 0 < i_ref i → sl_locked (i_lock i) = true →
  (let i' := set_i_lock (Sleeplock false false 0) i in
   let s' := add_wake (Z.of_nat ip) (put_i ip i' s) in
   fs_inv sb s' V X I E T ∅ → Q tt s') →
  wp (iunlock (Some ip)) Q s.
Proof.
  intros Hi Hip Hr Hh HQ. destruct (fi_ref _ _ _ _ _ _ _ _ Hi ip i Hip) as [_ Hsl].
  destruct (fi_entry _ _ _ _ _ _ _ _ Hi ip i Hip Hr) as [Hdev Hnum Hval].
  unfold iunlock. apply wp_bind. eapply wp_ilock_holding; [done..|]. rewrite Hh.
  apply wp_bind, (wp_geti _ _ _ _ Hip). rewrite (proj2 (Z.ltb_ge _ _)) by lia. simpl.
  eapply wp_ilock_release; [done..|]. apply HQ.
  assert (fs_inv sb (put_i ip (set_i_lock (Sleeplock false false 0) i) s) V X I E T ∅) as [] by
    (eapply fs_inv_keep; try done; simpl; lia).
  by split.
Qed.
End Refs.

(** * Truncation *)

Section Trunc.
Context {St : Type} `{!TxnIO St, !TxnSpec St} (sb : superblock).
Implicit Types (s : fsst St) (V : list (list Z)) (I : Z → dinode) (X E T U : gset Z) (i : inode) (a : list Z).

(** Nothing but the free map has changed. *)
Record only_map V V' : Prop := {
  om_len : length V' = length V;
  om_eq m : 0 ≤ m → m < sb_bmapstart sb ∨ data_start sb ≤ m → V' !!! Z.to_nat m = V !!! Z.to_nat m;
}.

Lemma only_map_refl V : only_map V V.
Proof. by split. Qed.

Lemma only_map_trans V V1 V2 : only_map V V1 → only_map V1 V2 → only_map V V2.
Proof. intros [E1 H1] [E2 H2]. split; [congruence|]. intros m ? ?. by rewrite H2, H1. Qed.

Lemma unmark_only V b : geom sb V → 0 ≤ b < sb_size sb → only_map V (unmark sb V b) ∧ geom sb (unmark sb V b).
Proof.
  intros Hg Hb. pose proof (geom_facts sb V Hg). pose proof (BBLOCK_range sb V b Hg Hb).
  split; [split|].
  - unfold unmark. by rewrite length_insert.
  - intros m ? ?. unfold unmark. rewrite list_lookup_total_insert_ne by lia. done.
  - unfold unmark. apply geom_store; [done|lia].
Qed.

Lemma only_map_dino V V' j : geom sb V → inum_ok sb j → only_map V V' → dino V' sb j = dino V sb j.
Proof.
  intros Hg Hi [_ Ho]. pose proof (geom_facts sb V Hg). pose proof (IBLOCK_range sb V j Hg Hi).
  apply dino_ext. apply Ho; lia.
Qed.

Lemma only_map_ptr V V' I E T j p :
  geom sb V → fs_ok V sb I E T → inum_ok sb j → only_map V V' →
  ptr V' (di_addrs (I j)) p = ptr V (di_addrs (I j)) p.
Proof.
  intros Hg Hok Hj [_ Ho]. pose proof (geom_facts sb V Hg). apply ptr_ext. intros Hnz.
  pose proof (fo_own _ _ _ _ _ Hok j NDIRECT Hj NDIRECT_ptr) as Hr. rewrite ptr_direct in Hr by lia.
  specialize (Hr Hnz). apply Ho; lia.
Qed.

Lemma only_map_fdata V V' I E T j :
  geom sb V → fs_ok V sb I E T → inum_ok sb j → j ∉ T → only_map V V' → fdata V' (I j) = fdata V (I j).
Proof.
  intros Hg Hok Hj HjT Hom. pose proof (geom_facts sb V Hg). unfold fdata. apply frange_ext. intros o Ho.
  destruct (file_block sb V I E T j o Hok Hj HjT ltac:(lia)) as [Hb Hne].
  pose proof (fo_own _ _ _ _ _ Hok j _ Hj (slot_lt (Z.to_nat (o / BSIZE)) ltac:(lia)) Hne) as Hr.
  apply fbyte_ext; [by eapply only_map_ptr|]. apply (om_eq _ _ Hom); unfold fptr; lia.
Qed.

(** A direct pointer is cleared. *)
Lemma ptr_clear V a k q :
  length a = (NDIRECT + 1)%nat → (k < NDIRECT)%nat →
  ptr V (<[k := 0]> a) q = if decide (q = k) then 0 else ptr V a q.
Proof.
  intros Hl Hk. unfold ptr. rewrite !list_lookup_total_insert_dec by lia.
  rewrite (decide_False (P := NDIRECT = k)) by lia.
  destruct (decide (q ≤ NDIRECT)%nat); [done|]. by rewrite (decide_False (P := q = k)) by lia.
Qed.

Lemma bfree_inv s V X I E T U b k (Q : unit → fsst St → Prop) :
  fs_inv sb s V X I E T U → 0 ≤ b < sb_size sb → used V sb b = true → room X (bitmaps sb) k →
  (∀ io, tx_is io (unmark sb V b) ({[BBLOCK b sb]} ∪ X) ∅ → Q tt (set_fs_io io s)) →
  wp (bfree ROOTDEV b) Q s.
Proof.
  intros Hi Hb Hu Hr HQ. eapply (bfree_run sb V X ∅); [apply Hi|by eapply fi_blocks|by rewrite map_size_empty; lia|
    by intros ?|apply Hi|apply Hi|done..|exact Hr|done].
Qed.

Lemma itrunc_direct_run ks s V X I E T U ip n i k (Q : unit → fsst St → Prop) :
  fs_inv sb s V X I E T U → inode_at s ip n i → n ∈ T → n ∈ U → Forall (λ k, (k < NDIRECT)%nat) ks →
  room X (bitmaps sb) k →
  (∀ V' X' I' io, let s' := upd_state io ip (set_i_di (I' n) i) s in
     fs_inv sb s' V' X' I' E T U → inode_at s' ip n (set_i_di (I' n) i) → only_map V V' →
     (∀ j, j ≠ n → I' j = I j) →
     (∃ a, I' n = set_di_addrs a (I n) ∧ length a = (NDIRECT + 1)%nat ∧
        ∀ q, (q ≤ NDIRECT)%nat → a !!! q = if decide (q ∈ ks) then 0 else di_addrs (I n) !!! q) →
     room X' (bitmaps sb) k → Q tt s') →
  wp (itrunc_direct ip ks) Q s.
Proof.
  revert s V X I i Q. induction ks as [|p ks IH]; intros s V X I i Q Hi Hat HnT HnU Hks Hroom HQ.
  all: destruct (inode_at_di sb _ _ _ _ _ _ _ _ _ _ Hi Hat) as (Edi&Edev&Hn).
  all: pose proof (fi_ok _ _ _ _ _ _ _ _ Hi) as Hok; pose proof (fi_geom _ _ _ _ _ _ _ _ Hi) as Hg.
  all: pose proof (fo_wf _ _ _ _ _ Hok n Hn) as Hwf; pose proof (dw_len _ Hwf) as Hla.
  { apply wp_ret. pose proof (same_state sb s V X I E T U ip n i (fs_io s) Hi Hat) as Es. rewrite set_fs_io_id in Es.
    pose proof (HQ V X I (fs_io s)) as HQ'. simpl in HQ'. rewrite <- Es in HQ'. apply HQ'; try done.
    - rewrite <- Edi, set_i_di_id. done.
    - exists (di_addrs (I n)). split; [by destruct (I n)|]. by split. }
  apply Forall_cons_1 in Hks as [Hp Hks].
  pose proof (geom_facts sb V Hg) as Hgf.
  cbn [itrunc_direct]. apply wp_bind, (wp_geti _ _ _ _ (proj1 Hat)), wp_bind.
  eapply wp_get_addr; [apply Hat|rewrite Edi; lia|]. rewrite Edi, Edev. apply wp_bind, wp_when.
  set (b := di_addrs (I n) !!! p) in *.
  destruct (Z.eqb_spec b 0) as [Ez|Hnz]; simpl negb; cbv iota.
  - eapply (IH s V X I i); try done. intros V' X' I' io s' Hi' Hat' Hom Ho' (a&Ea&Hl&Hq) Hroom'.
    apply (HQ V' X' I' io); try done. exists a. split_and!; [done..|]. intros q Hq'. rewrite Hq by done.
    destruct (decide (q = p)) as [->|Hne].
    + rewrite (decide_True (P := p ∈ p :: ks)) by apply list_elem_of_here. fold b. rewrite Ez. by case_decide.
    + destruct (decide (q ∈ ks)) as [Hin|Hin]; [rewrite decide_True; [done|by apply list_elem_of_further]|].
      rewrite decide_False; [done|]. by apply not_elem_of_cons.
  - change (s32 ROOTDEV) with ROOTDEV. assert (p < NPTR)%nat as HpN by (pose proof NDIRECT_ptr; lia).
    assert (ptr V (di_addrs (I n)) p = b) as Epb by (apply ptr_direct; lia).
    pose proof (fo_own _ _ _ _ _ Hok n p Hn HpN) as Hr. rewrite Epb in Hr. specialize (Hr Hnz).
    pose proof (fs_owned sb V I E T n p Hg Hok Hn HpN) as Hu. rewrite Epb in Hu. specialize (Hu Hnz).
    assert (b ∉ E) as HbE.
    { intros HbE. destruct (fo_extra _ _ _ _ _ Hok b HbE) as [_ Hne]. by destruct (Hne n p Hn HpN). }
    apply wp_bind. eapply bfree_inv; [exact Hi|lia|done|exact Hroom|]. intros io1 Ht1.
    set (I1 := <[n := set_di_addrs (<[p := 0]> (di_addrs (I n))) (I n)]> I).
    assert (fs_ok V sb I1 (E ∪ {[b]}) T) as Hok1.
    { pose proof (fs_ok_unlink sb V I I1 E T n [p] Hok Hn HnT) as Hun.
      simpl in Hun. rewrite Epb, filter_cons_True in Hun by done. simpl in Hun.
      rewrite union_empty_r_L in Hun.
      apply Hun; [by constructor| | |lia].
      - intros j Hj. unfold I1. destruct (decide (n = j)) as [<-|Hne].
        + rewrite fn_lookup_insert. split; [|done]. destruct Hwf. split; try done; simpl.
          * by rewrite length_insert.
          * apply Forall_insert; [done|]. split; lia.
        + rewrite fn_lookup_insert_ne by done. split; [by apply (fo_wf _ _ _ _ _ Hok)|done].
      - intros q Hq. unfold I1. rewrite fn_lookup_insert. simpl. rewrite ptr_clear by done.
        destruct (decide (q = p)) as [->|Hne].
        + by rewrite decide_True by apply list_elem_of_here.
        + rewrite decide_False; [done|]. by rewrite list_elem_of_singleton. }
    destruct (unmark_only V b Hg) as [Hom1 Hg1]; [lia|].
    pose proof (fs_ok_free sb V I1 _ T b Hg (fi_blocks _ _ _ _ _ _ _ _ Hi) Hok1) as Hok2.
    replace ((E ∪ {[b]}) ∖ {[b]}) with E in Hok2 by set_solver. specialize (Hok2 ltac:(set_solver)).
    eapply wp_upd_di; [apply Hat|]. rewrite Edi.
    destruct (fs_inv_upd sb s V X I E T U io1 (unmark sb V b) ({[BBLOCK b sb]} ∪ X)
      (set_di_addrs (<[p := 0]> (di_addrs (I n))) (I n)) E T U ip n i) as [Hi1 Hat1]; try done.
    { intros j Hj HjU. rewrite fn_lookup_insert_ne by (intros ->; done).
      rewrite (only_map_dino V) by done. by apply (fi_sync _ _ _ _ _ _ _ _ Hi). }
    { intros; by left. }
    eapply (IH _ _ _ I1); [exact Hi1|exact Hat1|done..| |].
    { apply room_reserved; [|done]. apply elem_of_bitmaps. pose proof (BBLOCK_range sb V b Hg ltac:(lia)). lia. }
    intros V' X' I' io s' Hi' Hat' Hom Ho' (a&Ea&Hl&Hq) Hroom'.
    assert (s' = upd_state io ip (set_i_di (I' n) i) s) as Es' by (unfold s', upd_state, set_fs_inodes, set_fs_io; simpl; by rewrite list_insert_insert_eq).
    rewrite Es' in Hi', Hat' |- *. apply (HQ V' X' I' io); try done.
    + by eapply only_map_trans.
    + intros j Hj. rewrite Ho' by done. unfold I1. by rewrite fn_lookup_insert_ne.
    + exists a. unfold I1 in Ea, Hq. rewrite fn_lookup_insert in Ea, Hq. simpl in Hq. split_and!; [done..|].
      intros q Hq'. rewrite Hq by done. rewrite list_lookup_total_insert_dec by lia.
      destruct (decide (q = p)) as [->|Hne].
      * rewrite (decide_True (P := p ∈ p :: ks)) by apply list_elem_of_here. by case_decide.
      * destruct (decide (q ∈ ks)) as [Hin|Hin]; [rewrite decide_True; [done|by apply list_elem_of_further]|].
        rewrite decide_False; [done|]. by apply not_elem_of_cons.
Qed.

Lemma itrunc_indirect_run js s V X I E T bp ind d k (Q : unit → fsst St → Prop) :
  tx_is (fs_io s) V X {[bp := ind]} → fs_sb s = sb → geom sb V → fs_ok V sb I E T →
  ind ∈ E → V !!! Z.to_nat ind = d →
  (∀ j, j ∈ js → get_u32 (4 * j) d ≠ 0 → get_u32 (4 * j) d ∈ E ∧ get_u32 (4 * j) d ≠ ind) →
  (∀ j j', j ∈ js → j' ∈ js → get_u32 (4 * j) d = get_u32 (4 * j') d → get_u32 (4 * j) d ≠ 0 → j = j') →
  NoDup js → room X (bitmaps sb) k →
  (∀ io V' X', tx_is io V' X' {[bp := ind]} → only_map V V' → geom sb V' →
     fs_ok V' sb I (E ∖ list_to_set (filter (.≠ 0) ((λ j, get_u32 (4 * j) d) <$> js))) T →
     room X' (bitmaps sb) k → Q tt (set_fs_io io s)) →
  wp (itrunc_indirect ROOTDEV bp js) Q s.
Proof.
  revert s V X E. induction js as [|j js IH]; intros s V X E Ht Esb Hg Hok Hind Ed He Hinj Hnd Hroom HQ.
  { apply wp_ret. rewrite <- (set_fs_io_id s). apply (HQ _ V X); try done.
    by replace (E ∖ _) with E by set_solver. }
  apply list.NoDup_cons in Hnd as [Hj Hnd]. pose proof (geom_facts sb V Hg) as Hgf.
  destruct (fo_extra _ _ _ _ _ Hok ind Hind) as [Hindr _].
  cbn [itrunc_indirect]. apply wp_bind. eapply wp_bdata; [exact Ht|apply lookup_singleton_eq|]. rewrite Ed.
  cbv zeta. apply wp_bind, wp_when. rewrite fmap_cons, filter_cons in HQ.
  destruct (Z.eqb_spec (get_u32 (4 * j) d) 0) as [Ez|Hnz]; simpl negb; cbv iota.
  - rewrite decide_False in HQ by lia. eapply (IH s V X E); try done.
    + intros j' Hj'. apply He. by apply list_elem_of_further.
    + intros j1 j2 H1 H2. apply Hinj; by apply list_elem_of_further.
  - rewrite decide_True in HQ by done. set (b := get_u32 (4 * j) d) in *.
    destruct (He j (list_elem_of_here _ _) Hnz) as [HbE Hbi]. fold b in HbE, Hbi.
    destruct (fo_extra _ _ _ _ _ Hok b HbE) as [Hbr _].
    assert (∀ c, c ∈ E → used V sb c = true) as HuE.
    { intros c Hc. destruct (fo_extra _ _ _ _ _ Hok c Hc). apply (fo_used _ _ _ _ _ Hok); [lia|]. by right; left. }
    eapply (bfree_run sb V X {[bp := ind]}); [done|by eapply tx_blocks|by rewrite map_size_singleton|
      |exact Ht|done|lia|by apply HuE|exact Hroom|].
    { intros b' n' [<- <-]%lookup_singleton_Some. split; [lia|]. intros _. by apply HuE. }
    intros io1 Ht1. destruct (unmark_only V b Hg) as [Hom1 Hg1]; [lia|].
    assert (Forall block V) as HV by (by eapply tx_blocks).
    pose proof (fs_ok_free sb V I E T b Hg HV Hok HbE) as Hok1.
    eapply (IH (set_fs_io io1 s) _ _ (E ∖ {[b]})); [exact Ht1|done..| | | | |done| |].
    + set_solver.
    + rewrite (om_eq _ _ Hom1) by lia. done.
    + intros j' Hj' Hnz'. destruct (He j' (list_elem_of_further _ _ _ Hj') Hnz') as [H1 H2].
      split; [|done]. apply elem_of_difference. split; [done|]. intros Eb%elem_of_singleton.
      assert (j' = j) as ->; [|done]. apply Hinj; [by apply list_elem_of_further|apply list_elem_of_here|done|done].
    + intros j1 j2 H1 H2. apply Hinj; by apply list_elem_of_further.
    + apply room_reserved; [|done]. apply elem_of_bitmaps. pose proof (BBLOCK_range sb V b Hg ltac:(lia)). lia.
    + intros io V' X' Ht' Hom' Hg' Hok' Hroom'. apply (HQ _ V' X'); try done; [by eapply only_map_trans|].
      rewrite list_to_set_cons, <- difference_difference_l_L. done.
Qed.

(** All pointers from the indirect one on become 0. *)
Lemma ptr_clear_indirect V a q :
  length a = (NDIRECT + 1)%nat → (q < NPTR)%nat →
  ptr V (<[NDIRECT := 0]> a) q = if decide (q ∈ seq NDIRECT (1 + NINDIRECT)) then 0 else ptr V a q.
Proof.
  intros Hl Hq. rewrite NPTR_eq in Hq. change NINDIRECT with 128%nat. unfold ptr.
  rewrite !list_lookup_total_insert_dec by lia.
  destruct (decide (q ≤ NDIRECT)%nat) as [H1|H1].
  - destruct (decide (q = NDIRECT)) as [->|Hne].
    + rewrite decide_True; [done|]. apply elem_of_seq. lia.
    + rewrite decide_False; [done|]. rewrite elem_of_seq. lia.
  - rewrite decide_True by done. rewrite decide_True; [done|]. apply elem_of_seq. unfold NDIRECT in *. lia.
Qed.

Lemma fs_ok_untrunc V I E T n :
  fs_ok V sb I E ({[n]} ∪ T) → di_size (I n) = 0 → fs_ok V sb I E T.
Proof.
  intros [Hwf Hown Hinj Hex Hus Hde] Hz. split; try done. intros j k Hj HjT Hk Hs.
  destruct (decide (j = n)) as [->|Hne]; [rewrite Hz in Hs; change BSIZE with 512 in *; lia|].
  apply Hde; try done. set_solver.
Qed.

Lemma fs_ok_trunc V I E T n : fs_ok V sb I E T → fs_ok V sb I E ({[n]} ∪ T).
Proof.
  intros [Hwf Hown Hinj Hex Hus Hde]. split; try done. intros j k Hj HjT. apply Hde; [done|set_solver].
Qed.

(** An inode without blocks. *)
Definition empty_inode (di : dinode) : dinode :=
  Dinode (di_type di) (di_major di) (di_minor di) (di_nlink di) 0 (replicate (NDIRECT + 1) 0).

(** What a truncation establishes. *)
Record itrunc_post s V I E T U ip (n : Z) i k s' V' X' I' (io : St) : Prop := {
  tp_state : s' = upd_state io ip (set_i_di (I' n) i) s;
  tp_inv : fs_inv sb s' V' X' I' E T (U ∖ {[n]});
  tp_at : inode_at s' ip n (set_i_di (I' n) i);
  tp_other j : j ≠ n → I' j = I j;
  tp_inode : I' n = empty_inode (I n);
  tp_files j : inum_ok sb j → j ∉ T → j ≠ n → fdata V' (I' j) = fdata V (I j);
  tp_block : IBLOCK n sb ∈ X';
  tp_room : room X' (bitmaps sb) k;
}.

(** The end of itrunc, when no pointer is left. *)
Lemma itrunc_finish s V X I E T U ip n i k (Q : unit → fsst St → Prop) :
  fs_inv sb s V X I E ({[n]} ∪ T) ({[n]} ∪ U) → inode_at s ip n i → n ∉ T →
  di_addrs (I n) = replicate (NDIRECT + 1) 0 → room X (bitmaps sb) (S k) →
  (∀ s' V' X' I' io, itrunc_post s V I E T U ip n i k s' V' X' I' io → Q tt s') →
  wp (upd_di ip (set_di_size 0);; iupdate ip) Q s.
Proof.
  intros Hi Hat HT Ha Hroom HQ. destruct (inode_at_di sb _ _ _ _ _ _ _ _ _ _ Hi Hat) as (Edi&Edev&Hn).
  pose proof (fi_ok _ _ _ _ _ _ _ _ Hi) as Hok. pose proof (fi_geom _ _ _ _ _ _ _ _ Hi) as Hg.
  apply wp_bind. eapply wp_upd_di; [apply Hat|]. rewrite Edi.
  set (di := set_di_size 0 (I n)).
  assert (fs_ok V sb (<[n := di]> I) E T) as Hok1.
  { apply (fs_ok_untrunc _ _ _ _ n); [|by rewrite fn_lookup_insert].
    apply fs_ok_dinode; try done.
    - destruct (fo_wf _ _ _ _ _ Hok n Hn). split; try done.
    - intros HnT. exfalso. apply HnT. set_solver. }
  destruct (fs_inv_upd sb s V X I E ({[n]} ∪ T) ({[n]} ∪ U) (fs_io s) V X di E T ({[n]} ∪ U) ip n i) as [Hi1 Hat1]; try done.
  { apply Hi. }
  { intros j Hj HjU. rewrite fn_lookup_insert_ne by set_solver. by apply (fi_sync _ _ _ _ _ _ _ _ Hi). }
  { intros; by left. }
  unfold upd_state in Hi1, Hat1. rewrite set_fs_io_id in Hi1, Hat1.
  eapply (iupdate_run sb _ V X _ E T ({[n]} ∪ U)); [exact Hi1|exact Hat1|exact Hroom|].
  intros io Hi2. replace (({[n]} ∪ U) ∖ {[n]}) with (U ∖ {[n]}) in Hi2 by set_solver.
  rewrite fn_lookup_insert in Hi2.
  eapply (HQ _ (put_inode sb V n di) ({[IBLOCK n sb]} ∪ X) (<[n := di]> I) io). split; rewrite ?fn_lookup_insert; try done.
  - intros j Hj. by apply fn_lookup_insert_ne.
  - unfold di, empty_inode, set_di_size. by rewrite Ha.
  - intros j Hj HjT Hjn. rewrite (fdata_put_inode sb V (<[n := di]> I) E T) by done.
    by rewrite fn_lookup_insert_ne.
  - set_solver.
  - by apply room_new.
Qed.

Lemma zero_addrs a :
  length a = (NDIRECT + 1)%nat → (∀ q, (q ≤ NDIRECT)%nat → a !!! q = 0) → a = replicate (NDIRECT + 1) 0.
Proof.
  intros Hl Hz. apply list_eq. intros q. destruct (decide (q < NDIRECT + 1)%nat) as [Hq|Hq].
  - rewrite lookup_replicate_2, list_lookup_lookup_total_lt, Hz by lia. done.
  - rewrite !lookup_ge_None_2; [done|rewrite length_replicate; lia|lia].
Qed.

(** The blocks an indirect block names. *)
Definition entries (d : list Z) : gset Z :=
  list_to_set (filter (.≠ 0) ((λ j, get_u32 (4 * j) d) <$> seq 0 NINDIRECT)).

Lemma elem_of_entries d c : c ∈ entries d ↔ c ≠ 0 ∧ ∃ j, (j < NINDIRECT)%nat ∧ get_u32 (4 * j) d = c.
Proof.
  unfold entries. rewrite elem_of_list_to_set, list_elem_of_filter, list_elem_of_fmap. setoid_rewrite elem_of_seq.
  split; intros (?&j&?&?); (split; [done|]); exists j; split; (done || lia).
Qed.

(** Clearing the indirect pointer leaves the indirect block and the blocks it
    names owned by no file. *)
Record cut_indirect V I E T n E2 : Prop := {
  ci_ok : fs_ok V sb (<[n := set_di_addrs (<[NDIRECT := 0]> (di_addrs (I n))) (I n)]> I) E2 T;
  ci_ind : di_addrs (I n) !!! NDIRECT ∈ E2;
  ci_entry j : let b := get_u32 (4 * j) (V !!! Z.to_nat (di_addrs (I n) !!! NDIRECT)) in
    (j < NINDIRECT)%nat → b ≠ 0 → b ∈ E2 ∧ b ≠ di_addrs (I n) !!! NDIRECT;
  ci_inj j j' : let d := V !!! Z.to_nat (di_addrs (I n) !!! NDIRECT) in
    (j < NINDIRECT)%nat → (j' < NINDIRECT)%nat → get_u32 (4 * j) d = get_u32 (4 * j') d → get_u32 (4 * j) d ≠ 0 → j = j';
  ci_rest : E2 ∖ entries (V !!! Z.to_nat (di_addrs (I n) !!! NDIRECT)) ∖ {[di_addrs (I n) !!! NDIRECT]} = E;
}.

Lemma fs_ok_cut_indirect V I E T n :
  geom sb V → fs_ok V sb I E T → inum_ok sb n → n ∈ T → di_addrs (I n) !!! NDIRECT ≠ 0 →
  ∃ E2, cut_indirect V I E T n E2.
Proof.
  intros Hg Hok Hn HnT Hnz. pose proof (geom_facts sb V Hg) as Hgf.
  pose proof (fo_wf _ _ _ _ _ Hok n Hn) as Hwf. pose proof (dw_len _ Hwf) as Hl.
  set (a := di_addrs (I n)) in *. set (ind := a !!! NDIRECT) in *. set (d := V !!! Z.to_nat ind).
  set (Qs := seq NDIRECT (1 + NINDIRECT)).
  set (F := list_to_set (filter (.≠ 0) (ptr V a <$> Qs)) : gset Z).
  assert (∀ q, q ∈ Qs ↔ (NDIRECT ≤ q < NPTR)%nat) as HQs.
  { intros q. unfold Qs. rewrite elem_of_seq, NPTR_eq. unfold NDIRECT. change NINDIRECT with 128%nat. lia. }
  assert (∀ c, c ∈ F ↔ c ≠ 0 ∧ ∃ q, (NDIRECT ≤ q < NPTR)%nat ∧ ptr V a q = c) as HF.
  { intros c. unfold F. rewrite elem_of_list_to_set, list_elem_of_filter, list_elem_of_fmap.
    setoid_rewrite HQs. naive_solver. }
  assert (ptr V a NDIRECT = ind) as Epi by (apply ptr_direct; lia).
  assert (∀ j, (j < NINDIRECT)%nat → ptr V a (NDIRECT + 1 + j) = get_u32 (4 * j) d) as Hent.
  { intros j Hj. rewrite ptr_indirect by (done || lia). by replace (NDIRECT + 1 + j - (NDIRECT + 1))%nat with j by lia. }
  assert (∀ j, (j < NINDIRECT)%nat → (NDIRECT ≤ NDIRECT + 1 + j < NPTR)%nat) as Hjp.
  { intros j Hj. rewrite NPTR_eq. unfold NDIRECT. change NINDIRECT with 128%nat in Hj. lia. }
  assert (∀ p q, (p < NPTR)%nat → (q < NPTR)%nat → ptr V a p ≠ 0 → ptr V a p = ptr V a q → p = q) as Hinj.
  { intros p q Hp Hq Hp0 Epq. by destruct (fo_inj _ _ _ _ _ Hok n p n q Hn Hp Hn Hq Hp0 Epq). }
  assert (∀ c, c ∈ F → c ∉ E) as HFE.
  { intros c (Hc0&q&Hq&Hqc)%HF HcE. destruct (fo_extra _ _ _ _ _ Hok c HcE) as [_ Hne].
    by destruct (Hne n q Hn ltac:(lia)). }
  assert (ind ∈ F) as HindF.
  { apply HF. split; [done|]. exists NDIRECT. split; [pose proof NDIRECT_ptr; lia|done]. }
  exists (E ∪ F). split; fold a ind d.
  - apply (fs_ok_unlink sb V I _ E T n Qs Hok Hn HnT); [by apply list.Forall_forall; intros q Hq%HQs; lia| | |lia].
    + intros j Hj. destruct (decide (n = j)) as [<-|Hne].
      * rewrite fn_lookup_insert. split; [|done]. destruct Hwf. split; try done; simpl; [by rewrite length_insert|].
        apply Forall_insert; [done|]. split; lia.
      * rewrite fn_lookup_insert_ne by done. split; [by apply (fo_wf _ _ _ _ _ Hok)|done].
    + intros q Hq. rewrite fn_lookup_insert. simpl. by apply ptr_clear_indirect.
  - by apply elem_of_union_r.
  - intros j b Hj Hnz'. unfold b in *. rewrite <- Hent in * by done. split.
    + apply elem_of_union_r, HF. split; [done|]. eexists. split; [by apply Hjp|done].
    + intros Eji. rewrite <- Epi in Eji. apply Hinj in Eji; [lia|apply Hjp; lia|apply NDIRECT_ptr|done].
  - intros j j' b Hj Hj' Ejj Hnz'. unfold b in *. rewrite <- !Hent in * by done.
    apply Hinj in Ejj; [lia|apply Hjp; lia..|done].
  - apply set_eq. intros c. rewrite !elem_of_difference, elem_of_union, elem_of_singleton, elem_of_entries. split.
    + intros [[[Hc|Hc] HnG] Hni]; [done|]. exfalso. apply HF in Hc as (Hc0&q&Hq&Hqc).
      destruct (decide (q = NDIRECT)) as [->|]; [by rewrite Epi in Hqc|].
      apply HnG. split; [done|]. rewrite NPTR_eq in Hq. exists (q - (NDIRECT + 1))%nat.
      assert (q - (NDIRECT + 1) < NINDIRECT)%nat by (unfold NDIRECT in *; change NINDIRECT with 128%nat; lia).
      split; [done|]. rewrite <- Hent by done. by replace (NDIRECT + 1 + (q - (NDIRECT + 1)))%nat with q by lia.
    + intros Hc. split_and!; [by left| |].
      * intros (Hc0&j&Hj&Ejc). apply (HFE c); [|done]. apply HF. split; [done|].
        exists (NDIRECT + 1 + j)%nat. split; [by apply Hjp|]. by rewrite Hent.
      * intros ->. by apply (HFE ind).
Qed.

Lemma itrunc_run s V X I E T U ip n i k (Q : unit → fsst St → Prop) :
  fs_inv sb s V X I E T U → inode_at s ip n i → n ∉ T → room X (bitmaps sb) (S k) →
  (∀ s' V' X' I' io, itrunc_post s V I E T U ip n i k s' V' X' I' io → Q tt s') →
  wp (itrunc ip) Q s.
Proof.
  intros Hi0 Hat HnT Hroom HQ. destruct (inode_at_di sb _ _ _ _ _ _ _ _ _ _ Hi0 Hat) as (Edi&Edev&Hn).
  pose proof (fi_geom _ _ _ _ _ _ _ _ Hi0) as Hg0. pose proof (fi_ok _ _ _ _ _ _ _ _ Hi0) as Hok0.
  assert (fs_inv sb s V X I E ({[n]} ∪ T) ({[n]} ∪ U)) as Hi.
  { pose proof (fs_inv_unsync sb _ _ _ _ _ _ _ _ _ _ Hi0 Hat) as []. split; try done. by apply fs_ok_trunc. }
  unfold itrunc. apply wp_bind.
  eapply (itrunc_direct_run _ s V X I E ({[n]} ∪ T) ({[n]} ∪ U) ip n i (S k)); [done..|set_solver|set_solver| |done|].
  { apply list.Forall_forall. intros q Hq%elem_of_seq. lia. }
  intros V1 X1 I1 io1 s1 Hi1 Hat1 Hom1 Ho1 (a1&Ea1&Hl1&Hq1) Hroom1.
  assert (di_addrs (I1 n) = a1) as Ead by (by rewrite Ea1).
  pose proof (fi_geom _ _ _ _ _ _ _ _ Hi1) as Hg1. pose proof (fi_ok _ _ _ _ _ _ _ _ Hi1) as Hok1.
  pose proof (geom_facts sb V1 Hg1) as Hgf.
  assert (∀ q, (q < NDIRECT)%nat → a1 !!! q = 0) as Hz1.
  { intros q Hq. rewrite Hq1 by lia. rewrite decide_True; [done|]. apply elem_of_seq. lia. }
  apply wp_bind, (wp_geti _ _ _ _ (proj1 Hat1)), wp_bind.
  eapply wp_get_addr; [apply Hat1|cbn [i_di set_i_di]; rewrite Ead, Hl1; lia|]. change (i_di (set_i_di (I1 n) i)) with (I1 n).
  change (i_dev (set_i_di (I1 n) i)) with (i_dev i). rewrite Ead, Edev. apply wp_bind, wp_when.
  (* the last steps, from a state whose files are those of [V] *)
  assert (∀ s2 V2 X2 I2 io2, s2 = upd_state io2 ip (set_i_di (I2 n) i) s →
    fs_inv sb s2 V2 X2 I2 E ({[n]} ∪ T) ({[n]} ∪ U) → inode_at s2 ip n (set_i_di (I2 n) i) →
    only_map V V2 → (∀ j, j ≠ n → I2 j = I j) → (∃ a, I2 n = set_di_addrs a (I n)) →
    di_addrs (I2 n) = replicate (NDIRECT + 1) 0 → room X2 (bitmaps sb) (S k) →
    wp (upd_di ip (set_di_size 0);; iupdate ip) Q s2) as Hfin.
  { intros s2 V2 X2 I2 io2 Es2 Hi2 Hat2 Hom2 Ho2 [a2 Ea2] Hz2 Hroom2.
    eapply (itrunc_finish s2 V2 X2 I2 E T U ip n _ k); [exact Hi2|exact Hat2|done..|].
    intros s' V' X' I' io [Es' Hi' Hat' Ho' Hin' Hf' Hb' Hr'].
    apply (HQ s' V' X' I' io). split; try done.
    - rewrite Es', Es2. unfold upd_state, set_fs_inodes, set_fs_io. simpl. by rewrite list_insert_insert_eq.
    - intros j Hj. rewrite Ho' by done. by apply Ho2.
    - rewrite Hin', Ea2. done.
    - intros j Hj HjT Hjn. rewrite Hf', Ho2 by done. by eapply only_map_fdata. }
  destruct (Z.eqb_spec (a1 !!! NDIRECT) 0) as [Ez|Hnz]; simpl negb; cbv iota.
  { eapply (Hfin s1 V1 X1 I1 io1); try done; [by eexists|]. rewrite Ead. apply zero_addrs; [done|]. intros q Hq.
    destruct (decide (q = NDIRECT)) as [->|]; [done|]. apply Hz1. lia. }
  set (ind := a1 !!! NDIRECT) in *.
  assert (ptr V1 (di_addrs (I1 n)) NDIRECT = ind) as Epi by (rewrite Ead; apply ptr_direct; lia).
  pose proof (fo_own _ _ _ _ _ Hok1 n NDIRECT Hn NDIRECT_ptr) as Hr. rewrite Epi in Hr. specialize (Hr Hnz).
  pose proof (room_size _ _ _ Hroom1) as HX1.
  apply wp_bind. eapply wp_bread; [apply Hi1|lia|by intros ?|lia|by rewrite map_size_empty; lia|].
  intros bp io2 Ht2 _. apply wp_bind. change (s32 ROOTDEV) with ROOTDEV.
  destruct (fs_ok_cut_indirect V1 I1 E ({[n]} ∪ T) n Hg1 Hok1 Hn) as [E2 [Hok2 Hind2 Hent2 Hinj2 Hrest]]; [set_solver|by rewrite Ead|].
  rewrite Ead in Hok2, Hind2, Hent2, Hinj2, Hrest. fold ind in Hind2, Hent2, Hinj2, Hrest.
  set (I2 := <[n := set_di_addrs (<[NDIRECT := 0]> a1) (I1 n)]> I1) in *.
  eapply (itrunc_indirect_run (seq 0 NINDIRECT) (set_fs_io io2 s1) V1 X1 I2 E2 ({[n]} ∪ T) bp ind);
    [exact Ht2|apply Hi1|done|exact Hok2|done|reflexivity| | |apply NoDup_seq|exact Hroom1|].
  { intros j Hj%elem_of_seq. apply Hent2. lia. }
  { intros j j' Hj%elem_of_seq Hj'%elem_of_seq. apply Hinj2; lia. }
  intros io3 V3 X3 Ht3 Hom3 Hg3 Hok3 Hroom3. apply wp_bind.
  eapply wp_brelse; [exact Ht3|apply lookup_singleton_eq|]. intros io4 Ht4. rewrite delete_singleton_eq in Ht4.
  change (list_to_set _) with (entries (V1 !!! Z.to_nat ind)) in Hok3.
  assert (ind ∈ E2 ∖ entries (V1 !!! Z.to_nat ind)) as Hind3.
  { apply elem_of_difference. split; [done|]. rewrite elem_of_entries. intros (?&j&Hj&Eji).
    apply (Hent2 j Hj); by rewrite Eji. }
  apply wp_bind. eapply (bfree_run sb V3 X3 ∅); [done|by eapply tx_blocks|by rewrite map_size_empty; lia|by intros ?|
    exact Ht4|apply Hi1|lia| |exact Hroom3|].
  { apply (fo_used _ _ _ _ _ Hok3); [lia|]. by right; left. }
  intros io5 Ht5. destruct (unmark_only V3 ind Hg3) as [Hom5 Hg5]; [lia|].
  assert (Forall block V3) as HV3 by (by eapply tx_blocks).
  pose proof (fs_ok_free sb V3 I2 _ _ ind Hg3 HV3 Hok3 Hind3) as Hok5. rewrite Hrest in Hok5.
  assert (only_map V1 (unmark sb V3 ind)) as Hom15 by (by eapply only_map_trans).
  eapply wp_upd_di; [apply Hat1|]. change (i_di (set_i_di (I1 n) i)) with (I1 n). rewrite Ead.
  destruct (fs_inv_upd sb s1 V1 X1 I1 E ({[n]} ∪ T) ({[n]} ∪ U) io5 (unmark sb V3 ind) ({[BBLOCK ind sb]} ∪ X3)
    (set_di_addrs (<[NDIRECT := 0]> a1) (I1 n)) E ({[n]} ∪ T) ({[n]} ∪ U) ip n (set_i_di (I1 n) i)) as [Hi5 Hat5]; try done.
  { intros j Hj HjU. rewrite fn_lookup_insert_ne by set_solver.
    rewrite (only_map_dino V1) by done. by apply (fi_sync _ _ _ _ _ _ _ _ Hi1). }
  { intros; by left. }
  rewrite set_i_di_twice in Hi5, Hat5.
  assert (set_di_addrs (<[NDIRECT := 0]> a1) (I1 n) = I2 n) as EI2 by (unfold I2; by rewrite fn_lookup_insert).
  rewrite EI2 in Hi5, Hat5. rewrite <- EI2 in Hi5 at 2. fold I2 in Hi5.
  rewrite set_i_di_twice, EI2.
  eapply (Hfin _ (unmark sb V3 ind) ({[BBLOCK ind sb]} ∪ X3) I2 io5); [|exact Hi5|exact Hat5|..].
  - unfold s1, upd_state, set_fs_inodes, set_fs_io. simpl. by rewrite list_insert_insert_eq.
  - by eapply only_map_trans.
  - intros j Hj. unfold I2. rewrite fn_lookup_insert_ne by done. by apply Ho1.
  - exists (<[NDIRECT := 0]> a1). rewrite <- EI2, Ea1. done.
  - rewrite <- EI2. simpl. apply zero_addrs; [by rewrite length_insert|]. intros q Hq.
    rewrite list_lookup_total_insert_dec by lia. case_decide; [done|]. apply Hz1. lia.
  - apply room_reserved; [|done]. apply elem_of_bitmaps. pose proof (BBLOCK_range sb V3 ind Hg3 ltac:(lia)). lia.
Qed.
End Trunc.

(** * Dropping a reference *)

Section Iput.
Context {St : Type} `{TxnSpec St} (sb : superblock).
Implicit Types (V : list (list Z)) (X : gset Z) (I : Z → dinode) (E T U : gset Z) (s : fsst St).

(** The condition under which iput frees the inode. *)
Definition last_ref (i : inode) : bool := (i_ref i =? 1) && ivalid i && (di_nlink (i_di i) =? 0).

Lemma iput_drop s V X I E T ip i (Q : unit → fsst St → Prop) :
  fs_inv sb s V X I E T ∅ → fs_inodes s !! ip = Some i → 0 < i_ref i → last_ref i = false →
  (fs_inv sb (put_i ip (set_i_ref (i_ref i - 1) i) s) V X I E T ∅ →
     Q tt (put_i ip (set_i_ref (i_ref i - 1) i) s)) →
  wp (iput ip) Q s.
Proof.
  intros Hi Hip Hr Hl HQ. pose proof (fi_lock _ _ _ _ _ _ _ _ Hi) as Hlk.
  destruct (fi_entry _ _ _ _ _ _ _ _ Hi ip i Hip Hr) as [? ? Hv].
  unfold iput. apply wp_bind, wp_acquire; [done|]. apply wp_bind, (wp_geti _ ip i); [done|].
  fold (last_ref i). rewrite Hl. apply wp_bind, wp_ret. apply wp_bind. eapply wp_updi; [exact Hip|].
  apply wp_release; [done|]. simpl. rewrite (locked_section s ip i _ Hlk). apply HQ.
  destruct (fi_ref _ _ _ _ _ _ _ _ Hi ip i Hip). eapply fs_inv_keep; try done; simpl; lia.
Qed.

(** What freeing an inode establishes. *)
Record iput_post s V I E T ip (n : Z) s' V' X' I' : Prop := {
  ip_inv : fs_inv sb s' V' X' I' E T ∅;
  ip_other j : j ≠ n → I' j = I j;
  ip_inode : I' n = set_di_type 0 (empty_inode (I n));
  ip_files j : inum_ok sb j → j ∉ T → j ≠ n → fdata V' (I' j) = fdata V (I j);
  ip_cache : ∃ i', i_ref i' = 0 ∧ i_flags i' = 0 ∧ fs_inodes s' = <[ip := i']> (fs_inodes s);
}.

Lemma iput_free s V X I E T ip n i k (Q : unit → fsst St → Prop) :
  fs_inv sb s V X I E T ∅ → inode_at s ip n i → n ∉ T → room X (bitmaps sb) (S k) → last_ref i = true →
  (∀ s' V' X' I', iput_post s V I E T ip n s' V' X' I' → Q tt s') →
  wp (iput ip) Q s.
Proof.
  intros Hi Hat HnT Hroom Hl HQ. pose proof (fi_lock _ _ _ _ _ _ _ _ Hi) as Hlk.
  destruct (inode_at_di sb _ _ _ _ _ _ _ _ _ _ Hi Hat) as (Edi&Edev&Hn).
  unfold iput. apply wp_bind, wp_acquire; [done|]. apply wp_bind, (wp_geti _ ip i); [apply Hat|].
  fold (last_ref i). rewrite Hl. apply wp_bind. simpl when.
  apply wp_bind, wp_release; [done|]. 
  replace (over icache_lock false (over icache_lock true s)) with s by (destruct s; simpl in *; by subst).
  apply wp_bind. eapply itrunc_run; [exact Hi|exact Hat|done|exact Hroom|].
  intros s1 V1 X1 I1 io1 [Es1 Hi1 Hat1 Ho1 Hin1 Hf1 Hb1 Hr1].
  replace (∅ ∖ {[n]} : gset Z) with (∅ : gset Z) in Hi1 by set_solver.
  pose proof (fi_ok _ _ _ _ _ _ _ _ Hi1) as Hok1. pose proof (fi_geom _ _ _ _ _ _ _ _ Hi1) as Hg1.
  apply wp_bind. eapply wp_upd_di; [apply Hat1|]. change (i_di (set_i_di (I1 n) i)) with (I1 n).
  set (di := set_di_type 0 (I1 n)). rewrite set_i_di_twice.
  assert (fs_ok V1 sb (<[n := di]> I1) E T) as Hok2.
  { apply fs_ok_dinode; try done.
    - destruct (fo_wf _ _ _ _ _ Hok1 n Hn). by split.
    - intros HT q Hq. by apply (fo_dense _ _ _ _ _ Hok1 n q Hn HT). }
  destruct (fs_inv_upd sb s1 V1 X1 I1 E T ∅ (fs_io s1) V1 X1 di E T {[n]} ip n (set_i_di (I1 n) i)) as [Hi2 Hat2]; try done.
  { apply Hi1. }
  { intros j Hj HjU. rewrite fn_lookup_insert_ne by set_solver. by apply (fi_sync _ _ _ _ _ _ _ _ Hi1). }
  { intros j ->%elem_of_singleton. by right. }
  unfold upd_state in Hi2, Hat2. rewrite set_fs_io_id, set_i_di_twice in Hi2, Hat2.
  apply wp_bind. eapply (iupdate_run sb _ V1 X1 _ E T {[n]}); [exact Hi2|exact Hat2|exact Hr1|].
  intros io3 Hi3. rewrite fn_lookup_insert in Hi3.
  replace ({[n]} ∖ {[n]} : gset Z) with (∅ : gset Z) in Hi3 by set_solver.
  pose proof (fi_lock _ _ _ _ _ _ _ _ Hi3) as Hlk3. destruct Hat2 as (Hip2&Href2&_&Enum2).
  apply wp_bind, wp_acquire; [done|]. eapply wp_updi; [exact Hip2|].
  apply wp_bind. eapply wp_updi; [simpl; apply list_lookup_insert_eq; rewrite ?length_insert; apply lookup_lt_Some in Hip2; simpl in Hip2; by rewrite ?length_insert in Hip2|].
  apply wp_release; [done|]. simpl i_ref. simpl in Href2.
  assert (i_ref i = 1) as Er1 by (unfold last_ref in Hl; lia).
  set (s3 := set_fs_io io3 _) in *. set (i3 := set_i_ref (i_ref i - 1) (set_i_flags 0 (set_i_di di i))).
  match goal with |- Q _ ?g => assert (g = put_i ip i3 s3) as -> end.
  { unfold s3 in *. unfold put_i, set_fs_lock, set_fs_inodes. simpl in *. rewrite !list_insert_insert_eq. by rewrite Hlk3. }
  apply (HQ _ (put_inode sb V1 n di) ({[IBLOCK n sb]} ∪ X1) (<[n := di]> I1)). split.
  - eapply fs_inv_entry; [exact Hi3|exact Hip2|simpl; lia| |simpl; lia].
    apply (fi_ref _ _ _ _ _ _ _ _ Hi ip i). apply Hat.
  - intros j Hj. rewrite fn_lookup_insert_ne by done. by apply Ho1.
  - rewrite fn_lookup_insert. unfold di. by rewrite Hin1.
  - intros j Hj HjT Hjn. rewrite (fdata_put_inode sb V1 (<[n := di]> I1) E T) by done.
    rewrite fn_lookup_insert_ne by done. by apply Hf1.
  - exists i3. split_and!; [simpl; lia|done|]. simpl. rewrite list_insert_insert_eq, Es1. simpl. by rewrite list_insert_insert_eq.
Qed.
End Iput.
