(* ===== verification/FsSpec.v ===== *)
(** What the operations of src/fs.c on files promise: reading, writing and freeing
    files, stated as results of the code.  The example disk of this file shows
    that the invariant [fs_inv] describes real disks. *)

From stdpp Require Import functions.
From S2P Require Import Prelude Bytes Layout Blocks Sleeplock Kstring Txn Fs FsDisk FsAlloc FsInode FsFile FsCache.

(** * An example

    The boot block, the superblock, a log of seven blocks, one block of inodes, the
    free map and eight data blocks.  Inode 1 is the root directory, with its contents
    in block 11; inode 2 is a file f with [nl] links and contents "hello", in block 12. *)

Module Example.
Definition sb : superblock := Superblock 19 8 4 7 2 9 10.

Definition name (c : list Z) : list Z := c ++ replicate (DIRSIZ - length c) 0.
Definition root_data : list Z :=
  dirent_to_bytes (Dirent 1 (name [46])) ++ dirent_to_bytes (Dirent 1 (name [46; 46])) ++
  dirent_to_bytes (Dirent 2 (name [102])).
Definition hello : list Z := [104; 101; 108; 108; 111].

Definition root : dinode := Dinode T_DIR 0 0 1 48 (11 :: replicate NDIRECT 0).
Definition file (nl : Z) : dinode := Dinode T_FILE 0 0 nl 5 (12 :: replicate NDIRECT 0).
Definition inodes (nl : Z) (i : Z) : dinode :=
  if i =? 1 then root else if i =? 2 then file nl else zero_dinode.

Definition disk (nl : Z) : list (list Z) :=
  [zero_block; put_u32s 0 [19; 8; 4; 7; 2; 9; 10] zero_block] ++ replicate 7 zero_block ++
  [dinode_to_bytes 64 root (dinode_to_bytes 128 (file nl) zero_block);
   splice 0 [255; 31] zero_block;
   splice 0 root_data zero_block;
   splice 0 hello zero_block] ++ replicate 6 zero_block.

(** The cache holds both inodes; that of the file is locked. *)
Definition entry (n ref : Z) (locked : bool) (di : dinode) : inode :=
  Inode ROOTDEV n ref (Sleeplock false locked 7) I_VALID di.
Definition cache (nl : Z) : list inode :=
  [entry 1 1 false root; entry 2 1 true (file nl)] ++ replicate (NINODE - 2) zero_inode.
Definition state (nl : Z) : fsst MemTxn.mst :=
  FsSt (MemTxn.Mst (disk nl) ∅ ∅) sb false (cache nl) 7 0 [].

(** Only the first pointers of the two inodes lead to blocks. *)
Lemma ptrs nl i p :
  (p < NPTR)%nat → ptr (disk nl) (di_addrs (inodes nl i)) p =
    if decide (i = 1 ∧ p = 0%nat) then 11 else if decide (i = 2 ∧ p = 0%nat) then 12 else 0.
Proof.
  intros Hp. unfold ptr, inodes. destruct (Z.eqb_spec i 1) as [->|H1]; [|destruct (Z.eqb_spec i 2) as [->|H2]].
  1, 2: destruct p as [|p]; [done|]; cbn [di_addrs root file].
  all: repeat case_decide; try lia; try done.
  1, 2: rewrite lookup_total_cons_ne_0 by lia; cbn [pred].
  all: cbn [di_addrs zero_dinode]; by rewrite lookup_total_replicate_2 by lia.
Qed.

Lemma ok nl : nl = 0 ∨ nl = 1 → fs_ok (disk nl) sb (inodes nl) ∅ ∅.
Proof.
  intros Hnl. assert (0 ≤ nl < 2) as Hr by lia. assert (data_start sb = 11) as Ed by done.
  split.
  - intros i Hi. unfold inodes. repeat case_match; split; simpl; try done;
      try (split; simpl; lia); try (repeat constructor; simpl; lia).
  - intros i p Hi Hp. rewrite ptrs, Ed by done. simpl. repeat case_decide; lia.
  - intros i p j q Hi Hp Hj Hq. rewrite !ptrs by done. repeat case_decide; naive_solver lia.
  - set_solver.
  - intros b Hb. simpl in Hb. assert (used (disk nl) sb b = (b <? 13)) as ->.
    { assert (b ∈ seqZ 0 19) as Hin by (apply elem_of_seqZ; lia).
      clear Hb. revert b Hin. apply list.Forall_forall. destruct Hnl as [->| ->]; repeat constructor. }
    rewrite Z.ltb_lt, Ed. split.
    + intros Hb13. destruct (decide (b < 11)); [by left|]. right; right. exists (b - 10), 0%nat.
      split; [unfold inum_ok; simpl; lia|]. split; [rewrite NPTR_eq; lia|].
      rewrite ptrs by (rewrite NPTR_eq; lia). repeat case_decide; lia.
    + intros [?|[?|(i&p&Hi&Hp&<-)]]; [lia|set_solver|]. rewrite ptrs by done. repeat case_decide; lia.
  - intros i k Hi _ Hk. change BSIZE with 512. unfold inodes. intros Hs.
    assert (k = 0 ∧ (i = 1 ∨ i = 2)) as [-> Hi'] by (repeat case_match; simpl in Hs; lia).
    split; [done|]. destruct Hi' as [-> | ->]; done.
Qed.

Lemma inv nl : nl = 0 ∨ nl = 1 → fs_inv sb (state nl) (disk nl) ∅ (inodes nl) ∅ ∅ ∅.
Proof.
  intros Hnl. split.
  - split; [done|]. split; [|apply map_Forall_empty].
    apply (bool_decide_unpack _). by destruct Hnl as [-> | ->]; vm_compute.
  - done.
  - split; simpl; try done. intros n. unfold MemTxn.mem_txn. simpl. lia.
  - by apply ok.
  - intros i Hi _. assert (i ∈ seqZ 0 4) as Hin by (apply elem_of_seqZ; unfold inum_ok in Hi; simpl in Hi; lia).
    clear Hi. revert i Hin. apply list.Forall_forall. destruct Hnl as [-> | ->]; repeat constructor.
  - done.
  - done.
  - intros ip i Hi. assert (Forall (λ i, 0 ≤ i_ref i ∧ sl_lk (i_lock i) = false) (cache nl)) as Hf.
    { repeat constructor; simpl; lia. }
    rewrite Forall_lookup in Hf. by eapply Hf.
  - intros ip i Hi. assert (Forall (λ i, 0 < i_ref i → entry_ok sb (inodes nl) i) (cache nl)) as Hf.
    { repeat constructor; simpl; done || lia. }
    rewrite Forall_lookup in Hf. by eapply Hf.
  - assert (∀ ip i, cache nl !! ip = Some i → 0 < i_ref i → Z.of_nat ip = i_inum i - 1) as Hc.
    { intros [|[|ip]] i; [by intros [= <-]..|]. intros [-> _]%lookup_replicate. done. }
    intros ip jp i j Hi Hj Hri Hrj En. apply Hc in Hi, Hj; [lia|done..].
  - set_solver.
Qed.

Lemma at_file nl : inode_at (state nl) 1 2 (entry 2 1 true (file nl)).
Proof. done. Qed.
End Example.

(** * Files *)

Lemma sub_splice_ext {A} off (new l : list A) :
  (off ≤ length l)%nat → sub off (length new) (splice off new l) = new.
Proof.
  intros. unfold sub, splice. rewrite drop_app_length' by (rewrite length_take; lia).
  apply take_app_length.
Qed.

Section Files.
Context {St : Type} `{!TxnIO St, !TxnSpec St} (sb : superblock) (devsw : list (devops (St := St))).
Implicit Types (V : list (list Z)) (X : gset Z) (I : Z → dinode) (E T U : gset Z) (s : fsst St).

Lemma readi_returns s V X I E T U ip n i off len :
  fs_inv sb s V X I E T U → inode_at s ip n i → n ∉ T → (size X ≤ tx_cap)%nat →
  di_type (I n) ≠ T_DEV → 0 ≤ off < 2 ^ 32 → 0 ≤ len < 2 ^ 32 →
  ∃ io, fs_inv sb (set_fs_io io s) V X I E T U ∧
    readi devsw ip off len s = Ok
      (if decide (off ≤ di_size (I n) ∧ off + len < 2 ^ 32) then
         let m := Z.min len (di_size (I n) - off) in (m, sub (Z.to_nat off) (Z.to_nat m) (fdata V (I n)))
       else (-1, [])) (set_fs_io io s).
Proof.
  intros Hi Hat HT HX Hty Hoff Hlen.
  assert (wp (readi devsw ip off len) (λ r s', ∃ io, s' = set_fs_io io s ∧ fs_inv sb s' V X I E T U ∧ r =
    if decide (off ≤ di_size (I n) ∧ off + len < 2 ^ 32) then
         let m := Z.min len (di_size (I n) - off) in (m, sub (Z.to_nat off) (Z.to_nat m) (fdata V (I n)))
       else (-1, [])) s) as (r&s'&Hr&io&->&Hi'&->)%wp_run.
  { eapply readi_run; [done..|]. intros io Ht. exists io. split; [done|]. split.
    - eapply fs_inv_io; [exact Hi|done|apply Hi..|]. by left.
    - case_decide; [|done]. cbv zeta. by rewrite sub_fdata by lia. }
  by exists io.
Qed.

(** C23. Reading a file.  readi returns the bytes of the file from the offset on, as many as
    were asked for and the file has; it returns -1 when the offset lies behind the end of the file or
    the sum of offset and length overflows.  No block, inode or cache entry changes. *)
Theorem readi_reads s V X I E T U ip n i off len :
  fs_inv sb s V X I E T U → inode_at s ip n i → n ∉ T → (size X ≤ tx_cap)%nat →
  di_type (I n) ≠ T_DEV → 0 ≤ off < 2 ^ 32 → 0 ≤ len < 2 ^ 32 →
  ∃ io, fs_inv sb (set_fs_io io s) V X I E T U ∧
    readi devsw ip off len s = Ok
      (if decide (off ≤ di_size (I n) ∧ off + len < 2 ^ 32) then
         let m := Z.min len (di_size (I n) - off) in (m, sub (Z.to_nat off) (Z.to_nat m) (fdata V (I n)))
       else (-1, [])) (set_fs_io io s).
Proof. apply readi_returns. Qed.

(** The premises of a write: the range starts inside the file and ends before the
    largest file's end, and the transaction and the disk have room. *)
Record can_write V X I (n off : Z) src k : Prop := {
  cw_type : di_type (I n) ≠ T_DEV;
  cw_off : 0 ≤ off ≤ di_size (I n);
  cw_max : off + Z.of_nat (length src) ≤ MAXFILE * BSIZE;
  cw_bytes : bytes src;
  cw_room : room X (bitmaps sb) (nblk off (Z.of_nat (length src)) + (2 + k));
  cw_free : (nblk off (Z.of_nat (length src)) + 1 ≤ nfree V sb)%nat;
}.

Lemma writei_returns s V X I E T U ip n i src off k :
  fs_inv sb s V X I E T U → inode_at s ip n i → n ∉ T → n ∉ U → can_write V X I n off src k →
  ∃ s' V' X' I' i', writei devsw ip src off (Z.of_nat (length src)) s = Ok (Z.of_nat (length src)) s' ∧
    fs_inv sb s' V' X' I' E T U ∧ inode_at s' ip n i' ∧ writei_post sb V I V' I' T n off src ∧
    room X' (bitmaps sb) k.
Proof.
  intros Hi Hat HT HU [Hty Hoff Hmax Hbs Hroom Hfree].
  assert (wp (writei devsw ip src off (Z.of_nat (length src))) (λ r s', r = Z.of_nat (length src) ∧ ∃ V' X' I' i',
    fs_inv sb s' V' X' I' E T U ∧ inode_at s' ip n i' ∧ writei_post sb V I V' I' T n off src ∧
    room X' (bitmaps sb) k) s) as (r&s'&Hr&->&V'&X'&I'&i'&?)%wp_run.
  { eapply (writei_run sb devsw s V X I E T U ip n i src off _ k); try done; [lia..|].
    intros V' X' I' io i' s' Hi' Hat' -> Hpost Hr'. split; [done|]. by eauto 10. }
  by eauto 10.
Qed.

(** C22. Writing a file.  writei within the file or at its end returns the number of bytes
    given; the file then has these bytes at the offset, has grown if the range goes
    past its end, and is otherwise as it was.  No other file changes, and the disk remains
    well formed: no block has two owners and the free map is exact. *)
Theorem writei_writes s V X I E T U ip n i src off k :
  fs_inv sb s V X I E T U → inode_at s ip n i → n ∉ T → n ∉ U → can_write V X I n off src k →
  ∃ s' V' X' I', writei devsw ip src off (Z.of_nat (length src)) s = Ok (Z.of_nat (length src)) s' ∧
    fs_inv sb s' V' X' I' E T U ∧
    fdata V' (I' n) = splice (Z.to_nat off) src (fdata V (I n)) ∧
    ∀ j, inum_ok sb j → j ∉ T → j ≠ n → I' j = I j ∧ fdata V' (I' j) = fdata V (I j).
Proof.
  intros Hi Hat HT HU Hcw.
  destruct (writei_returns s V X I E T U ip n i src off k Hi Hat HT HU Hcw) as (s'&V'&X'&I'&i'&Hr&Hi'&_&[]&_).
  exists s', V', X', I'. split_and!; try done. intros j Hj HjT Hjn. split; [by apply wp_other|by apply wp_others].
Qed.

(** C14. What is written can be read back.  After a write of [src] at an offset, reading as many bytes at the
    same offset returns [src]. *)
Theorem write_read_back s V X I E T U ip n i src off k :
  fs_inv sb s V X I E T U → inode_at s ip n i → n ∉ T → n ∉ U → can_write V X I n off src k →
  ∃ s', (writei devsw ip src off (Z.of_nat (length src));; readi devsw ip off (Z.of_nat (length src))) s
    = Ok (Z.of_nat (length src), src) s'.
Proof.
  intros Hi Hat HT HU Hcw.
  destruct (writei_returns s V X I E T U ip n i src off k Hi Hat HT HU Hcw) as (s'&V'&X'&I'&i'&Hr&Hi'&Hat'&[Hd [a Ea] _ _]&Hroom).
  destruct Hcw as [Hty Hoff Hmax Hbs _ _]. change (MAXFILE * BSIZE) with 71680 in Hmax.
  destruct (readi_returns s' V' X' I' E T U ip n i' off (Z.of_nat (length src))) as (io&_&Hrd); try done; [|by rewrite Ea|lia..|].
  { pose proof (room_size _ _ _ Hroom). lia. }
  exists (set_fs_io io s'). erewrite bind_run by exact Hr. rewrite Hrd, Hd, Ea. simpl di_size.
  rewrite decide_True by lia. cbv zeta. rewrite Z.min_l by lia. do 2 f_equal.
  rewrite Nat2Z.id. apply sub_splice_ext. unfold fdata. rewrite length_frange. lia.
Qed.

(** C24. Dropping the last reference of an unlinked inode frees it.  iput of the last reference to a cached inode without
    links truncates the file and frees the inode: its type is 0 and its pointers and size are
    0, its blocks are free, no other file changes and the cache entry is unused.  Any other iput
    only counts down. *)
Theorem iput_frees_last s V X I E T ip n i k :
  fs_inv sb s V X I E T ∅ → inode_at s ip n i → n ∉ T → room X (bitmaps sb) (S k) →
  if last_ref i then
    ∃ s' V' X' I', iput ip s = Ok tt s' ∧ iput_post sb s V I E T ip n s' V' X' I'
  else
    iput ip s = Ok tt (put_i ip (set_i_ref (i_ref i - 1) i) s) ∧
    fs_inv sb (put_i ip (set_i_ref (i_ref i - 1) i) s) V X I E T ∅.
Proof.
  intros Hi Hat HT Hroom. destruct (last_ref i) eqn:Hl.
  - assert (wp (iput ip) (λ _ s', ∃ V' X' I', iput_post sb s V I E T ip n s' V' X' I') s)
      as ([]&s'&Hr&V'&X'&I'&Hp)%wp_run by (eapply iput_free; eauto).
    by exists s', V', X', I'.
  - assert (wp (iput ip) (λ _ s', s' = put_i ip (set_i_ref (i_ref i - 1) i) s ∧ fs_inv sb s' V X I E T ∅) s)
      as ([]&s'&Hr&->&Hp)%wp_run by (eapply (iput_drop sb); [exact Hi|apply Hat..|done|done]).
    done.
Qed.
End Files.

(** * The theorems at the example *)

Definition nodev : list (devops (St := MemTxn.mst)) := [].

Lemma example_can_write : can_write Example.sb (Example.disk 1) ∅ (Example.inodes 1) 2 3 [33; 33; 33] 0.
Proof. split; try done; [by repeat constructor|vm_compute; lia..]. Qed.

Lemma readi_reads_witness :
  ∃ s', readi nodev 1 1 10 (Example.state 1) = Ok (4, [101; 108; 108; 111]) s'.
Proof.
  destruct (readi_reads Example.sb nodev (Example.state 1) (Example.disk 1) ∅ (Example.inodes 1) ∅ ∅ ∅ 1 2
    (Example.entry 2 1 true (Example.file 1)) 1 10) as (io&_&Hr); [apply Example.inv; by right|done|done| |done|done|done|].
  { vm_compute. lia. }
  exists (set_fs_io io (Example.state 1)). exact Hr.
Defined.

Lemma writei_writes_witness :
  ∃ s' V' I', writei nodev 1 [33; 33; 33] 3 3 (Example.state 1) = Ok 3 s' ∧
    fdata V' (I' 2) = [104; 101; 108; 33; 33; 33].
Proof.
  destruct (writei_writes Example.sb nodev (Example.state 1) (Example.disk 1) ∅ (Example.inodes 1) ∅ ∅ ∅ 1 2
    (Example.entry 2 1 true (Example.file 1)) [33; 33; 33] 3 0) as (s'&V'&X'&I'&Hr&_&Hd&_);
    [apply Example.inv; by right|done|done|done|apply example_can_write|].
  exists s', V', I'. split; [exact Hr|]. rewrite Hd. reflexivity.
Defined.

Lemma write_read_back_witness :
  ∃ s', (writei nodev 1 [33; 33; 33] 3 3;; readi nodev 1 3 3) (Example.state 1) = Ok (3, [33; 33; 33]) s'.
Proof.
  apply (write_read_back Example.sb nodev (Example.state 1) (Example.disk 1) ∅ (Example.inodes 1) ∅ ∅ ∅ 1 2
    (Example.entry 2 1 true (Example.file 1)) [33; 33; 33] 3 0);
    [apply Example.inv; by right|done|done|done|apply example_can_write].
Defined.

Lemma iput_frees_last_witness :
  ∃ s' V' X' I', iput 1 (Example.state 0) = Ok tt s' ∧
    iput_post Example.sb (Example.state 0) (Example.disk 0) (Example.inodes 0) ∅ ∅ 1 2 s' V' X' I'.
Proof.
  apply (iput_frees_last Example.sb (Example.state 0) (Example.disk 0) ∅ (Example.inodes 0) ∅ ∅ 1 2
    (Example.entry 2 1 true (Example.file 0)) 0); [apply Example.inv; by left|done|done|vm_compute; lia].
Defined.
