(* ===== verification/FsCrash.v ===== *)
(** Files and the log together: src/fs.c over src/log.c over src/bio.c.  A write
    to a file inside an operation is atomic with respect to crashes. *)

From stdpp Require Import functions.
From S2P Require Import Prelude Bytes Layout Blocks Sleeplock Bio LogDisk Log LogSafety Kstring Txn.
From S2P Require Import Fs FsDisk FsAlloc FsInode FsFile FsCache FsSpec.

(** * Disks that agree on the file system's blocks *)

Section Agree.
Context {St : Type} `{!TxnIO St, !TxnSpec St} (sb : superblock).
Implicit Types (V R : list (list Z)) (I : Z → dinode) (E T : gset Z).

Definition agree V R : Prop :=
  ∀ b, sb_inodestart sb ≤ b < sb_size sb → R !!! Z.to_nat b = V !!! Z.to_nat b.

Lemma agree_dino V R n : geom sb V → agree V R → inum_ok sb n → dino R sb n = dino V sb n.
Proof.
  intros Hg Ha Hn. apply dino_ext, Ha.
  pose proof (IBLOCK_range sb V n Hg Hn). pose proof (geom_facts sb V Hg). lia.
Qed.

Lemma agree_indirect V R I E T n :
  geom sb V → agree V R → fs_ok V sb I E T → inum_ok sb n → di_addrs (I n) !!! NDIRECT ≠ 0 →
  R !!! Z.to_nat (di_addrs (I n) !!! NDIRECT) = V !!! Z.to_nat (di_addrs (I n) !!! NDIRECT).
Proof.
  intros Hg Ha Hok Hn Hnz. pose proof (geom_facts sb V Hg). apply Ha.
  pose proof (fo_own _ _ _ _ _ Hok n NDIRECT Hn NDIRECT_ptr) as Hr.
  rewrite ptr_direct in Hr by lia. specialize (Hr Hnz). lia.
Qed.

Lemma agree_ok V R I E T : geom sb V → agree V R → fs_ok V sb I E T → fs_ok R sb I E T.
Proof.
  intros Hg Ha Hok. eapply fs_ok_ext; [done| |].
  - intros b Hb. apply Ha. pose proof (BBLOCK_range sb V b Hg Hb). pose proof (geom_facts sb V Hg). lia.
  - intros i Hi. by eapply agree_indirect.
Qed.

Lemma agree_fdata V R I E T n :
  geom sb V → agree V R → fs_ok V sb I E T → inum_ok sb n → n ∉ T → fdata R (I n) = fdata V (I n).
Proof.
  intros Hg Ha Hok Hn HnT. pose proof (geom_facts sb V Hg). unfold fdata. apply frange_ext. intros o Ho.
  destruct (file_block sb V I E T n o Hok Hn HnT ltac:(lia)) as [Hb Hne].
  pose proof (fo_own _ _ _ _ _ Hok n _ Hn (slot_lt (Z.to_nat (o / BSIZE)) ltac:(lia)) Hne) as Hr.
  apply fbyte_ext; [|apply Ha; unfold fptr; lia]. apply ptr_ext. intros Hnz. by eapply agree_indirect.
Qed.

(** The files of a disk that agrees with the blocks of an idle file system. *)
Lemma agree_file s V X I E T R n :
  fs_inv sb s V X I E T ∅ → agree V R → inum_ok sb n → n ∉ T → fdata R (dino R sb n) = fdata V (I n).
Proof.
  intros Hi Ha Hn HnT. pose proof (fi_geom _ _ _ _ _ _ _ _ Hi) as Hg.
  rewrite (agree_dino V) by done. rewrite <- (fi_sync _ _ _ _ _ _ _ _ Hi) by set_solver.
  eapply agree_fdata; [done..|apply Hi|done|done].
Qed.
End Agree.

(** * Writing a file in an operation of its own *)

Section Atomic.
Context {St : Type} `{!BlockIO St, !BlockIOSpec St} (start lsize : Z) (sb : superblock).
Context (devsw : list (devops (St := logst St))).
Context (D : list (list Z)) (tr : list (Z * list Z)).
#[local] Instance the_log : TxnSpec (logst St) := log_txn start lsize D tr 1.

Lemma home_agree V R :
  geom (St := logst St) sb V → same_home start lsize R V → agree sb V R.
Proof.
  intros Hg [Hl Hs] b Hb. assert (home start lsize (length V) b) as (Hr&_&Hlog) by exact (g_home _ _ Hg b Hb).
  rewrite !list_lookup_total_alt, Hs; [done|]. by rewrite Z2Nat.id by lia.
Qed.

(** An operation that has logged nothing yet finds the disk in the cache. *)
Lemma op_disk s V : log_tx start lsize D tr 1 s V ∅ ∅ → D = V.
Proof.
  intros [(bs&Htx&Ebs) _ _ _ _ Ed _ Ev Eh _]. rewrite <- Ed, <- Ev.
  apply list_eq. intros k. eapply txn_clean; [done..|]. intros Hk.
  assert (Z.of_nat k ∈ (∅ : gset Z)) by (rewrite Ebs; by apply elem_of_list_to_set). set_solver.
Qed.

(** C2. Writes to files are atomic.  In an operation of its own, write [src] to a file and end the operation; let [w] be
    the disk writes this performs.  There is a point [c] such that, when the machine crashes after [k]
    of the writes, reboots, possibly crashes again during recovery, and recovers at last, the file is as it was before
    the write if [k] is at most [c], and otherwise has all of [src].  Every other
    file is as it was. *)
Theorem write_op_atomic s V I ip n i src off k0 :
  fs_inv sb s V ∅ I ∅ ∅ ∅ → inode_at s ip n i → can_write (St := logst St) sb V ∅ I n off src k0 →
  ∃ s' w c, (writei devsw ip src off (Z.of_nat (length src));; zoom fs_io_lens end_op) s = Ok tt s' ∧
    btrace (ls_io (fs_io s')) = tr ++ w ∧
    ∀ k d, reboots (St := St) (apply_writes (take k w) D) d →
      ∃ r : logst St, initlog ROOTDEV (boot_log d) = Ok tt r ∧
        let R := bdisk (ls_io r) in
        ∀ j, inum_ok sb j → fdata R (dino R sb j) =
          if decide (j = n ∧ (c < k)%nat) then splice (Z.to_nat off) src (fdata V (I n)) else fdata V (I j).
Proof.
  intros Hi Hat Hcw.
  destruct (writei_returns sb devsw s V ∅ I ∅ ∅ ∅ ip n i src off k0) as (s1&V1&X1&I1&i1&Hr&Hi1&_&[Hd _ _ Ho]&_);
    [done|done|set_solver..|done|].
  pose proof (op_disk _ _ (fi_io _ _ _ _ _ _ _ _ Hi)) as EDV.
  pose proof (fi_io _ _ _ _ _ _ _ _ Hi1 : log_tx start lsize D tr 1 (fs_io s1) V1 X1 ∅) as
    [(bs&Htx&_) Hlk Hout _ Hcm Ed Et Ev Eh _].
  destruct (fs_io s1) as [l io1 wk] eqn:Eio. simpl in *.
  destruct (proj1 (wp_run _ _ _) (end_op_run start lsize l io1 wk bs Htx Eh Hlk Hcm Hout)) as
    ([]&s2&He&l2&i2&->&_&_&_&_&_&_&_&Etr).
  exists (set_fs_io (LogSt l2 i2 (S wk)) s1), (op_writes start io1 bs), (length bs). split_and!.
  { erewrite bind_run by exact Hr. rewrite (zoom_run fs_io_lens _ _ _ _ (eq_trans (f_equal _ Eio) He)). done. }
  { simpl. by rewrite Etr, Et. }
  intros k d Hreb. rewrite <- Ed in Hreb.
  destruct (crash_recovers start lsize l io1 bs k d Htx Eh Hreb) as (r&Hr'&_&_&Hs). exists r. split; [done|].
  intros j Hj. pose proof (fi_geom _ _ _ _ _ _ _ _ Hi) as Hg. pose proof (fi_geom _ _ _ _ _ _ _ _ Hi1) as Hg1.
  destruct (decide (k ≤ length bs)%nat) as [Hk|Hk].
  - rewrite decide_False by lia. rewrite Ed, EDV in Hs. eapply (agree_file (St := logst St)); [exact Hi|by apply home_agree|done|set_solver].
  - rewrite Ev in Hs. erewrite (agree_file (St := logst St)); [|exact Hi1|by apply home_agree|done|set_solver].
    case_decide as Hjn; [by destruct Hjn as [-> _]|]. apply Ho; [done|set_solver|lia].
Qed.
End Atomic.

(** * The theorem at the example disk *)

Lemma example_fs_recoverable : recoverable 2 7 (Example.disk 1).
Proof.
  split_and!; [|by vm_compute|].
  - split; [|by vm_compute..]. apply (bool_decide_unpack _). vm_compute. exact I.
  - split; [by vm_compute|constructor..].
Qed.

(** The machine boots from the example disk, recovers, begins an operation and
    finds the inodes of the example in its cache. *)
Lemma example_op :
  ∃ (D : list (list Z)) (s : fsst (logst bcache)),
    fs_inv (TxnSpec0 := log_txn 2 7 D (btrace (ls_io (fs_io s))) 1) Example.sb s D ∅ (Example.inodes 1) ∅ ∅ ∅ ∧
    fs_inodes s = Example.cache 1 ∧ agree Example.sb (Example.disk 1) D.
Proof.
  destruct (proj1 (wp_run _ _ _) (initlog_boot (St := bcache) 2 7 _ example_fs_recoverable))
    as ([]&[l i wk]&_&Htx&Hlk&Ho&Hc&Hh&Hv&Ht&Hs). simpl in *.
  rewrite logical_empty in Hs by (by vm_compute).
  set (D := bdisk i) in *. set (l1 := set_lg_outstanding 1 l).
  set (s := FsSt (LogSt l1 i wk) Example.sb false (Example.cache 1) 7 0 []).
  pose proof (Example.inv 1 (or_intror eq_refl)) as Hm.
  assert (agree Example.sb (Example.disk 1) D) as Ha.
  { intros b Hb. rewrite !list_lookup_total_alt, (proj2 Hs); [done|].
    unfold in_log. simpl in Hb. lia. }
  assert (length D = 19%nat) as Hlen by (etransitivity; [apply Hs|by vm_compute]).
  exists D, s. split; [|done]. split.
  - split; simpl; try done.
    exists []. split; [|done]. destruct Htx as [[]]. by split.
  - done.
  - pose proof (fi_geom _ _ _ _ _ _ _ _ Hm) as [Hsb]. split; simpl; try done.
    + rewrite <- Hsb, !list_lookup_total_alt, (proj2 Hs); [done|]. unfold in_log. lia.
    + by rewrite Hlen.
    + intros n Hn. change (home 2 7 (length D) n). rewrite Hlen. unfold home, in_log. lia.
  - eapply agree_ok; [apply Hm|done|apply Hm].
  - intros n Hn _. rewrite (agree_dino _ (Example.disk 1) D n (fi_geom _ _ _ _ _ _ _ _ Hm) Ha Hn).
    by apply (fi_sync _ _ _ _ _ _ _ _ Hm).
  - done.
  - done.
  - apply (fi_ref _ _ _ _ _ _ _ _ Hm).
  - apply (fi_entry _ _ _ _ _ _ _ _ Hm).
  - apply (fi_uniq _ _ _ _ _ _ _ _ Hm).
  - set_solver.
Qed.

Lemma write_op_atomic_witness :
  ∃ (D : list (list Z)) (s : fsst (logst bcache)),
    fs_inv (TxnSpec0 := log_txn 2 7 D (btrace (ls_io (fs_io s))) 1) Example.sb s D ∅ (Example.inodes 1) ∅ ∅ ∅ ∧
    ∃ s' w c, (writei [] 1 [33; 33; 33] 3 3;; zoom fs_io_lens end_op) s = Ok tt s' ∧
      btrace (ls_io (fs_io s')) = btrace (ls_io (fs_io s)) ++ w ∧
      ∀ k d, reboots (St := bcache) (apply_writes (take k w) D) d →
        ∃ r : logst bcache, initlog ROOTDEV (boot_log d) = Ok tt r ∧
          let R := bdisk (ls_io r) in
          ∀ j, inum_ok Example.sb j → fdata R (dino R Example.sb j) =
            if decide (j = 2 ∧ (c < k)%nat) then splice 3 [33; 33; 33] (fdata D (Example.inodes 1 2))
            else fdata D (Example.inodes 1 j).
Proof.
  destruct example_op as (D&s&Hi&Hc&Ha). exists D, s. split; [exact Hi|].
  assert (can_write (TxnSpec0 := log_txn 2 7 D (btrace (ls_io (fs_io s))) 1) Example.sb D ∅ (Example.inodes 1) 2 3 [33; 33; 33] 0) as Hcw.
  { split; try done; [by repeat constructor|vm_compute; lia|].
    rewrite (nfree_ext (Example.disk 1)); [vm_compute; lia|].
    intros b Hb. apply used_ext, Ha. 
    pose proof (BBLOCK_range Example.sb (Example.disk 1) b (fi_geom _ _ _ _ _ _ _ _ (Example.inv 1 (or_intror eq_refl))) Hb) as Hr.
    change (data_start Example.sb) with 11 in Hr. simpl in *. lia. }
  apply (write_op_atomic 2 7 Example.sb [] D (btrace (ls_io (fs_io s))) s D (Example.inodes 1) 1 2
    (Example.entry 2 1 true (Example.file 1)) [33; 33; 33] 3 0 Hi); [|exact Hcw].
  split; [by rewrite Hc|done].
Defined.
