(* ===== verification/FsDir.v ===== *)
(** Directories (src/fs.c: dirlookup and dirlink).  A directory is a file of
    entries of 16 bytes; a lookup finds the first entry that is in use and has
    the name, and a link puts a new entry in the first unused one. *)

From stdpp Require Import functions.
From S2P Require Import Prelude Bytes Layout Blocks Sleeplock Kstring Txn Fs FsDisk FsAlloc FsInode FsFile FsCache FsSpec.

(** * Directories as lists of entries *)

Section Entries.
Implicit Types (name : list Z) (ds : list dirent).

Definition dent V di (k : nat) : dirent := dirent_of_bytes (sub (16 * k) 16 (fdata V di)).
Definition dirents V di : list dirent := dent V di <$> seq 0 (Z.to_nat (di_size di / DIRENT_SIZE)).

(** An entry in use with the name: names end at a NUL or after DIRSIZ bytes. *)
Definition names (name : list Z) (d : dirent) : bool :=
  negb (de_inum d =? 0) && bool_decide (cut DIRSIZ name = cut DIRSIZ (de_name d)).

(** The first entry that satisfies [f], with its index. *)
Fixpoint find_from (f : dirent → bool) (k : nat) ds : option (nat * dirent) :=
  match ds with
  | [] => None
  | d :: ds => if f d then Some (k, d) else find_from f (S k) ds
  end.
Definition dir_find name ds : option (nat * dirent) := find_from (names name) 0 ds.

Lemma find_from_Some f k ds j d :
  find_from f k ds = Some (j, d) → ∃ x, j = (k + x)%nat ∧ ds !! x = Some d ∧ f d = true ∧
    ∀ y e, (y < x)%nat → ds !! y = Some e → f e = false.
Proof.
  revert k. induction ds as [|e ds IH]; intros k; simpl; [done|]. destruct (f e) eqn:Hf.
  - intros [= <- <-]. exists 0%nat. split_and!; [lia|done..|]. intros y ?; lia.
  - intros (x&->&Hx&Hd&Hm)%IH. exists (S x). split_and!; [lia|done..|].
    intros [|y] e' Hy; simpl; [by intros [= <-]|]. apply Hm. lia.
Qed.

Lemma find_from_None f k ds : find_from f k ds = None ↔ Forall (λ d, f d = false) ds.
Proof.
  revert k. induction ds as [|e ds IH]; intros k; simpl; [by split|].
  rewrite Forall_cons_iff. destruct (f e); [naive_solver|]. rewrite IH. naive_solver.
Qed.

(** Replacing an entry that [f] does not select by one that it does. *)
Lemma find_from_insert f k ds x d :
  Forall (λ e, f e = false) ds → f d = true → (x < length ds)%nat →
  find_from f k (<[x := d]> ds) = Some ((k + x)%nat, d).
Proof.
  revert k x. induction ds as [|e ds IH]; intros k x Hall Hd Hx; simpl in *; [lia|].
  apply Forall_cons_1 in Hall as [He Hall]. destruct x as [|x]; simpl.
  - rewrite Hd. do 2 f_equal. lia.
  - rewrite He, IH by (done || lia). do 2 f_equal. lia.
Qed.

Lemma find_from_snoc f k ds d :
  Forall (λ e, f e = false) ds → f d = true → find_from f k (ds ++ [d]) = Some ((k + length ds)%nat, d).
Proof.
  revert k. induction ds as [|e ds IH]; intros k Hall Hd; simpl.
  - rewrite Hd. do 2 f_equal. lia.
  - apply Forall_cons_1 in Hall as [He Hall]. rewrite He, IH by done. do 2 f_equal. lia.
Qed.
End Entries.

(** * dirlookup *)

Section Lookup.
Context {St : Type} `{!TxnIO St, !TxnSpec St} (sb : superblock) (devsw : list (devops (St := St))).
Implicit Types (V : list (list Z)) (X : gset Z) (I : Z → dinode) (E T U : gset Z) (s : fsst St).

(** A directory: its size is a multiple of the size of an entry. *)
Definition is_dir V I (n : Z) : Prop := di_type (I n) = T_DIR ∧ di_size (I n) mod DIRENT_SIZE = 0.

Lemma read_dirent_run s V X I E T U dp n i k msg (Q : dirent → fsst St → Prop) :
  fs_inv sb s V X I E T U → inode_at s dp n i → n ∉ T → (size X ≤ tx_cap)%nat → di_type (I n) = T_DIR →
  16 * Z.of_nat k + 16 ≤ di_size (I n) →
  (∀ io, fs_inv sb (set_fs_io io s) V X I E T U → Q (dent V (I n) k) (set_fs_io io s)) →
  wp (read_dirent devsw dp (16 * Z.of_nat k) msg) Q s.
Proof.
  intros Hi Hat HT HX Hty Hk HQ. destruct (inode_at_di sb _ _ _ _ _ _ _ _ _ _ Hi Hat) as (Edi&Edev&Hn).
  pose proof (file_size sb V I E T n (fi_ok _ _ _ _ _ _ _ _ Hi) Hn HT) as Hsz.
  change (MAXFILE * BSIZE) with 71680 in Hsz.
  unfold read_dirent. apply wp_bind. eapply readi_run; [done..|by rewrite Hty|lia|done|].
  intros io Ht. change DIRENT_SIZE with 16. rewrite decide_True by lia.
  rewrite Z.min_l by lia. simpl. apply wp_ret.
  replace (frange _ _ _ _) with (sub (16 * k) 16 (fdata V (I n))).
  { apply HQ. eapply fs_inv_io; [exact Hi|done|apply Hi..|]. by left. }
  rewrite <- sub_fdata by lia. f_equal; lia.
Qed.

(** The entry of the cache that iget will return exists. *)
Definition can_iget s (n : Z) : Prop :=
  ∃ ip i, fs_inodes s !! ip = Some i ∧ (i_ref i = 0 ∨ 0 < i_ref i ∧ i_inum i = n).

Lemma iget_entry_io io s n ip i i' : iget_entry (set_fs_io io s) n ip i i' → iget_entry s n ip i i'.
Proof. intros [|]; [by apply iget_hit|by apply iget_new]. Qed.

(** What dirlookup returns. *)
Definition lookup_post s V X I E T (r : option (nat * dirent)) (Q : option (nat * Z) → fsst St → Prop) : Prop :=
  match r with
  | None => ∀ io, fs_inv sb (set_fs_io io s) V X I E T ∅ → Q None (set_fs_io io s)
  | Some (k, d) =>
      inum_ok sb (de_inum d) ∧ can_iget s (de_inum d) ∧
      ∀ io ip i i', let s' := put_i ip i' (set_fs_io io s) in
        fs_inodes s !! ip = Some i → iget_entry s (de_inum d) ip i i' →
        fs_inv sb s' V X I E T ∅ → Q (Some (ip, 16 * Z.of_nat k)) s'
  end.

Lemma lookup_post_io io s V X I E T r Q :
  lookup_post s V X I E T r Q → lookup_post (set_fs_io io s) V X I E T r Q.
Proof.
  unfold lookup_post. destruct r as [[k d]|]; [|intros HQ io'; apply (HQ io')].
  intros (?&?&HQ). split_and!; [done..|]. intros io' ip i i' Hip He.
  apply (HQ io' ip i i' Hip), (iget_entry_io _ _ _ _ _ _ He).
Qed.

Lemma dirlookup_loop_run m fuel s V X I E T dp n i name k Q :
  fs_inv sb s V X I E T ∅ → inode_at s dp n i → n ∉ T → (size X ≤ tx_cap)%nat → is_dir V I n →
  readable DIRSIZ name → (m < fuel)%nat → 16 * Z.of_nat (k + m) = di_size (I n) →
  lookup_post s V X I E T (find_from (names name) k (dent V (I n) <$> seq k m)) Q →
  wp (dirlookup_loop devsw fuel dp name (16 * Z.of_nat k)) Q s.
Proof.
  revert fuel s k. induction m as [|m IH]; intros fuel s k Hi Hat HT HX [Hty Hmod] Hname Hf Hk HQ.
  all: destruct (inode_at_di sb _ _ _ _ _ _ _ _ _ _ Hi Hat) as (Edi&Edev&Hn).
  all: pose proof (file_size sb V I E T n (fi_ok _ _ _ _ _ _ _ _ Hi) Hn HT) as Hsz;
    change (MAXFILE * BSIZE) with 71680 in Hsz.
  all: destruct fuel as [|fuel]; [lia|]; cbn [dirlookup_loop]; apply wp_bind, (wp_geti _ _ _ _ (proj1 Hat)); rewrite Edi.
  - rewrite (proj2 (Z.ltb_ge _ _)) by lia. simpl. apply wp_ret. rewrite <- (set_fs_io_id s). apply HQ.
    by rewrite set_fs_io_id.
  - rewrite (proj2 (Z.ltb_lt _ _)) by lia. simpl negb. cbv iota. apply wp_bind.
    eapply read_dirent_run; [done..|lia|]. intros io Hi1. cbn [seq fmap list_fmap find_from] in HQ.
    assert (wp (dirlookup_loop devsw fuel dp name (u32 (16 * Z.of_nat k + DIRENT_SIZE))) Q (set_fs_io io s) ∨
      names name (dent V (I n) k) = true) as Hnext.
    { destruct (names name (dent V (I n) k)) eqn:Hnm; [by right|left].
      change DIRENT_SIZE with 16. rewrite wrap_small by lia.
      replace (16 * Z.of_nat k + 16) with (16 * Z.of_nat (S k)) by lia.
      apply IH; [done..|lia|lia|]. by apply lookup_post_io. }
    unfold names in Hnext, HQ. destruct (Z.eqb_spec (de_inum (dent V (I n) k)) 0) as [Ez|Hz].
    { simpl in Hnext. by destruct Hnext. }
    apply wp_bind. destruct (strncmp_run DIRSIZ name (de_name (dent V (I n) k))) as (r&Hr&Hrz); [done| |].
    { left. unfold dent, dirent_of_bytes. simpl. rewrite length_sub; [done|].
      rewrite length_sub by (unfold fdata; rewrite length_frange; lia). done. }
    apply (wp_the _ _ r); [done|]. destruct (Z.eqb_spec r 0) as [Er|Er].
    + apply Hrz in Er. rewrite bool_decide_true in HQ by done. simpl in HQ. destruct HQ as (Hin&Hcan&HQ).
      apply wp_bind. rewrite Edev. eapply iget_run; [done|done|exact Hcan|]. intros ip i0 i' Hip He Hi2. apply wp_ret.
      by eapply (HQ io ip i0 i'), Hi2; [|eapply iget_entry_io].
    + rewrite bool_decide_false in Hnext by tauto. simpl in Hnext. by destruct Hnext.
Qed.

Lemma dirlookup_run s V X I E T dp n i name Q :
  fs_inv sb s V X I E T ∅ → inode_at s dp n i → n ∉ T → (size X ≤ tx_cap)%nat → is_dir V I n →
  readable DIRSIZ name →
  lookup_post s V X I E T (dir_find name (dirents V (I n))) Q →
  wp (dirlookup devsw dp name) Q s.
Proof.
  intros Hi Hat HT HX Hd Hname HQ. destruct (inode_at_di sb _ _ _ _ _ _ _ _ _ _ Hi Hat) as (Edi&Edev&Hn).
  pose proof (file_size sb V I E T n (fi_ok _ _ _ _ _ _ _ _ Hi) Hn HT) as Hsz.
  destruct Hd as [Hty Hmod]. change DIRENT_SIZE with 16 in *.
  unfold dirlookup. apply wp_bind, (wp_geti _ _ _ _ (proj1 Hat)). rewrite Edi, Hty. simpl negb. cbv iota.
  pose proof (Z.div_mod (di_size (I n)) 16 ltac:(lia)).
  apply (dirlookup_loop_run (Z.to_nat (di_size (I n) / 16)) _ s V X I E T dp n i name 0); try done; lia.
Qed.
End Lookup.

(** * dirlink *)

(** A directory with the entry [d] at the index [k], which may be its end. *)
Definition put_entry (k : nat) (d : dirent) (ds : list dirent) : list dirent :=
  if decide (k < length ds)%nat then <[k := d]> ds else ds ++ [d].

Definition free_entry (d : dirent) : bool := de_inum d =? 0.
(** The index of the first unused entry, or the number of entries. *)
Definition free_slot (ds : list dirent) : nat :=
  match find_from free_entry 0 ds with Some (k, _) => k | None => length ds end.

(** The name as it is stored. *)
Definition stored (name : list Z) : list Z :=
  cut DIRSIZ name ++ replicate (DIRSIZ - length (cut DIRSIZ name)) 0.

Lemma length_stored name : length (stored name) = DIRSIZ.
Proof. unfold stored. rewrite length_app, length_replicate. pose proof (length_cut DIRSIZ name). lia. Qed.

Lemma bytes_cut n (l : list Z) : bytes l → bytes (cut n l).
Proof.
  revert l. induction n; intros [|x l]; simpl; intros Hl; try constructor.
  apply Forall_cons_1 in Hl as [? ?]. case_match; constructor; auto.
Qed.

Lemma bytes_stored name : bytes name → bytes (stored name).
Proof. intros. apply Forall_app. split; [by apply bytes_cut|]. by apply Forall_replicate. Qed.

Lemma cut_stored name : cut DIRSIZ (stored name) = cut DIRSIZ name.
Proof.
  unfold stored. rewrite <- (app_nil_r (replicate _ 0)). apply cut_app_zeros; [apply cut_nonzero|].
  pose proof (length_cut DIRSIZ name). lia.
Qed.

Lemma dirent_codec d :
  0 ≤ de_inum d < 2 ^ 16 → length (de_name d) = DIRSIZ → dirent_of_bytes (dirent_to_bytes d) = d.
Proof.
  intros Hn Hl. destruct d as [n nm]. simpl in *. unfold dirent_of_bytes, dirent_to_bytes, get_u16, get_le. simpl de_inum. simpl de_name.
  f_equal.
  - unfold sub. rewrite drop_0, take_app_length' by (by rewrite length_le_enc). rewrite le_dec_enc.
    by apply Z.mod_small.
  - unfold sub. rewrite drop_app_length' by (by rewrite length_le_enc). by rewrite take_ge by lia.
Qed.

Section Ents.
Implicit Types (bs : list Z).

Definition ents (m : nat) bs : list dirent := (λ k, dirent_of_bytes (sub (16 * k) 16 bs)) <$> seq 0 m.

Lemma lookup_ents m bs k :
  ents m bs !! k = if decide (k < m)%nat then Some (dirent_of_bytes (sub (16 * k) 16 bs)) else None.
Proof.
  unfold ents. rewrite list_lookup_fmap. case_decide.
  - by rewrite lookup_seq_lt by lia.
  - by rewrite lookup_seq_ge by lia.
Qed.

Lemma sub_splice_before {A} (new l : list A) off off' n :
  (off' + n ≤ off)%nat → (off ≤ length l)%nat → sub off' n (splice off new l) = sub off' n l.
Proof.
  intros. unfold sub, splice. rewrite drop_app_le by (rewrite length_take; lia).
  rewrite take_app_le by (rewrite length_drop, length_take; lia).
  rewrite skipn_firstn_comm, take_take. by rewrite Nat.min_l by lia.
Qed.

Lemma ents_splice m bs k d :
  length bs = (16 * m)%nat → (k ≤ m)%nat → 0 ≤ de_inum d < 2 ^ 16 → length (de_name d) = DIRSIZ →
  ents (Nat.max m (k + 1)) (splice (16 * k) (dirent_to_bytes d) bs) = put_entry k d (ents m bs).
Proof.
  intros Hl Hk Hd1 Hd2. assert (length (dirent_to_bytes d) = 16%nat) as Hld.
  { unfold dirent_to_bytes. by rewrite length_app, length_le_enc, Hd2. }
  assert (sub (16 * k) 16 (splice (16 * k) (dirent_to_bytes d) bs) = dirent_to_bytes d) as Hsame.
  { pose proof (sub_splice_ext (16 * k) (dirent_to_bytes d) bs ltac:(lia)) as Hs. by rewrite Hld in Hs. }
  assert (length (ents m bs) = m) as Hlen by (unfold ents; by rewrite length_fmap, length_seq).
  unfold put_entry. rewrite Hlen. apply list_eq. intros j. rewrite lookup_ents. destruct (decide (k < m)%nat) as [Hkm|Hkm].
  - rewrite list_lookup_insert_dec by (rewrite Hlen; lia). rewrite Nat.max_l by lia.
    destruct (decide (j = k)) as [->|Hne].
    + rewrite decide_True, Hsame, dirent_codec by (done || lia). done.
    + rewrite lookup_ents. case_decide; [|done]. do 2 f_equal. apply sub_splice_other; lia.
  - assert (k = m) as -> by lia. rewrite Nat.max_r by lia. destruct (decide (j < m)%nat).
    + rewrite decide_True by lia. rewrite lookup_app_l by lia. rewrite lookup_ents, decide_True by lia.
      do 2 f_equal. apply sub_splice_before; lia.
    + rewrite lookup_app_r by lia. rewrite Hlen. case_decide.
      * assert (j = m) as -> by lia. rewrite Hsame, dirent_codec, Nat.sub_diag by done. done.
      * symmetry. apply lookup_ge_None. simpl. lia.
Qed.
End Ents.

Lemma free_slot_le ds : (free_slot ds ≤ length ds)%nat.
Proof.
  unfold free_slot. destruct (find_from _ _ _) as [[k d]|] eqn:Hf; [|lia].
  apply find_from_Some in Hf as (x&->&Hx&_). apply lookup_lt_Some in Hx. lia.
Qed.

(** A new entry in the first free slot is found under its name, and lookups of other
    names find what they found before. *)
Lemma put_entry_find name ds d :
  dir_find name ds = None → de_inum d ≠ 0 → cut DIRSIZ (de_name d) = cut DIRSIZ name →
  dir_find name (put_entry (free_slot ds) d ds) = Some (free_slot ds, d).
Proof.
  intros Hnone Hd Hn. apply find_from_None in Hnone.
  assert (names name d = true) as Hm.
  { unfold names. rewrite (proj2 (Z.eqb_neq _ _)), bool_decide_true by done. done. }
  unfold dir_find, put_entry. pose proof (free_slot_le ds). case_decide.
  - by apply (find_from_insert _ 0).
  - replace (free_slot ds) with (0 + length ds)%nat by lia. by apply find_from_snoc.
Qed.

Lemma find_from_free f k ds x e d :
  ds !! x = Some e → f e = false → f d = false → find_from f k (<[x := d]> ds) = find_from f k ds.
Proof.
  revert k x. induction ds as [|a ds IH]; intros k x; [done|]. destruct x as [|x]; simpl.
  - intros [= ->] He Hd. by rewrite He, Hd.
  - intros Hx He Hd. by rewrite (IH _ x).
Qed.

Lemma put_entry_other other ds d :
  cut DIRSIZ (de_name d) ≠ cut DIRSIZ other →
  dir_find other (put_entry (free_slot ds) d ds) = dir_find other ds.
Proof.
  intros Hn. assert (names other d = false) as Hm.
  { unfold names. rewrite bool_decide_false by congruence. apply andb_false_r. }
  unfold dir_find, put_entry. case_decide as Hlt.
  - unfold free_slot in *. destruct (find_from free_entry 0 ds) as [[k e]|] eqn:Hf; [|lia].
    apply find_from_Some in Hf as (x&->&Hx&He&_). eapply find_from_free; [done| |done].
    unfold names. unfold free_entry in He. by rewrite He.
  - generalize 0%nat. clear Hlt. induction ds as [|e ds IH]; intros k; simpl; [by rewrite Hm|].
    destruct (names other e); [done|]. apply IH.
Qed.

Section Link.
Context {St : Type} `{!TxnIO St, !TxnSpec St} (sb : superblock) (devsw : list (devops (St := St))).
Implicit Types (V : list (list Z)) (X : gset Z) (I : Z → dinode) (E T U : gset Z) (s : fsst St).

Lemma dirents_ents V di : 0 ≤ di_size di → dirents V di = ents (Z.to_nat (di_size di / DIRENT_SIZE)) (fdata V di).
Proof. done. Qed.

Lemma length_dent V di k : 16 * Z.of_nat k + 16 ≤ di_size di → length (de_name (dent V di k)) = DIRSIZ.
Proof.
  intros Hk. unfold dent, dirent_of_bytes. simpl. rewrite length_sub; [done|].
  rewrite length_sub by (unfold fdata; rewrite length_frange; lia). done.
Qed.

Lemma dirlink_loop_run m fuel s V X I E T dp n i de k (Q : dirent * Z → fsst St → Prop) :
  fs_inv sb s V X I E T ∅ → inode_at s dp n i → n ∉ T → (size X ≤ tx_cap)%nat → is_dir V I n →
  length (de_name de) = DIRSIZ → (m < fuel)%nat → 16 * Z.of_nat (k + m) = di_size (I n) →
  (∀ io de', fs_inv sb (set_fs_io io s) V X I E T ∅ → length (de_name de') = DIRSIZ →
     Q (de', 16 * Z.of_nat (match find_from free_entry k (dent V (I n) <$> seq k m) with
                            | Some (j, _) => j | None => (k + m)%nat end)) (set_fs_io io s)) →
  wp (dirlink_loop devsw fuel dp de (16 * Z.of_nat k)) Q s.
Proof.
  revert fuel s de k. induction m as [|m IH]; intros fuel s de k Hi Hat HT HX [Hty Hmod] Hde Hf Hk HQ.
  all: destruct (inode_at_di sb _ _ _ _ _ _ _ _ _ _ Hi Hat) as (Edi&Edev&Hn).
  all: pose proof (file_size sb V I E T n (fi_ok _ _ _ _ _ _ _ _ Hi) Hn HT) as Hsz;
    change (MAXFILE * BSIZE) with 71680 in Hsz.
  all: destruct fuel as [|fuel]; [lia|]; cbn [dirlink_loop]; apply wp_bind, (wp_geti _ _ _ _ (proj1 Hat)); rewrite Edi.
  - rewrite (proj2 (Z.ltb_ge _ _)) by lia. simpl. apply wp_ret. rewrite <- (set_fs_io_id s).
    replace (16 * Z.of_nat k) with (16 * Z.of_nat (k + 0)) by lia. apply HQ; [|done]. by rewrite set_fs_io_id.
  - rewrite (proj2 (Z.ltb_lt _ _)) by lia. simpl negb. cbv iota. apply wp_bind.
    eapply read_dirent_run; [done..|lia|]. intros io Hi1. cbn [seq fmap list_fmap find_from] in HQ.
    unfold free_entry in HQ at 1. pose proof (length_dent V (I n) k ltac:(lia)) as Hl.
    destruct (Z.eqb_spec (de_inum (dent V (I n) k)) 0) as [Ez|Hz].
    { apply wp_ret. by apply HQ. }
    change DIRENT_SIZE with 16. replace (16 * Z.of_nat k + 16) with (16 * Z.of_nat (S k)) by lia.
    apply IH; try done; [lia..|]. intros io' de' Hi' Hde'.
    replace (S k + m)%nat with (k + S m)%nat by lia. by apply (HQ io').
Qed.

(** What a successful link establishes. *)
Record linked_post s V X I E T (dp : nat) (n inum : Z) name kr s' V' X' I' : Prop := {
  lp_inv : fs_inv sb s' V' X' I' E T ∅;
  lp_dir : dirents V' (I' n) =
    put_entry (free_slot (dirents V (I n))) (Dirent inum (stored name)) (dirents V (I n));
  lp_is_dir : is_dir V' I' n;
  lp_fields : di_nlink (I' n) = di_nlink (I n);
  lp_cache : ∃ i', inode_at s' dp n i';
  lp_entries jp : jp ≠ dp → fs_inodes s' !! jp = fs_inodes s !! jp;
  lp_other j : inum_ok sb j → j ∉ T → j ≠ n → I' j = I j ∧ fdata V' (I' j) = fdata V (I j);
  lp_room : room X' (bitmaps sb) kr;
}.

(** A directory with room for an entry. *)
Record can_link V X I (n : Z) kr : Prop := {
  cl_full : 16 * (Z.of_nat (free_slot (dirents V (I n))) + 1) ≤ MAXFILE * BSIZE;
  cl_room : room X (bitmaps sb) (3 + kr);
  cl_free : (2 ≤ nfree V sb)%nat;
}.

Lemma nblk_entry k : nblk (16 * Z.of_nat k) 16 = 1%nat.
Proof.
  unfold nblk. rewrite decide_False by lia. change BSIZE with 512.
  assert ((16 * Z.of_nat k + 16 - 1) / 512 = 16 * Z.of_nat k / 512) as ->; [|lia].
  replace (16 * Z.of_nat k + 16 - 1) with (15 + Z.of_nat k * 16) by lia.
  replace (16 * Z.of_nat k) with (0 + Z.of_nat k * 16) by lia.
  change 512 with (16 * 32). rewrite <- !Z.div_div by lia. by rewrite !Z.div_add by lia.
Qed.

Lemma dirlink_run s V X I E T dp n i name inum junk kr (Q : Z → fsst St → Prop) :
  fs_inv sb s V X I E T ∅ → inode_at s dp n i → n ∉ T → is_dir V I n → readable DIRSIZ name →
  length (de_name junk) = DIRSIZ → 0 ≤ inum < 2 ^ 16 → bytes name →
  dir_find name (dirents V (I n)) = None → can_link V X I n kr →
  (∀ s' V' X' I', linked_post s V X I E T dp n inum name kr s' V' X' I' → Q 0 s') →
  wp (dirlink devsw junk dp name inum) Q s.
Proof.
  intros Hi Hat HT [Hty Hmod] Hname Hjunk Hinum Hbytes Hnone [Hfull Hroom Hfree] HQ.
  destruct (inode_at_di sb _ _ _ _ _ _ _ _ _ _ Hi Hat) as (Edi&Edev&Hn).
  pose proof (file_size sb V I E T n (fi_ok _ _ _ _ _ _ _ _ Hi) Hn HT) as Hsz. change (MAXFILE * BSIZE) with 71680 in *.
  pose proof (room_size _ _ _ Hroom) as HX. change DIRENT_SIZE with 16 in *.
  pose proof (Z.div_mod (di_size (I n)) 16 ltac:(lia)) as Hdm.
  unfold dirlink. apply wp_bind. eapply dirlookup_run; [done|done|done|lia|done|done|]. rewrite Hnone.
  intros io1 Hi1. apply wp_bind. eapply wp_geti; [apply Hat|]. rewrite Edi. apply wp_bind.
  eapply (dirlink_loop_run (Z.to_nat (di_size (I n) / 16)) _ _ V X I E T dp n i junk 0); try done; [lia..|].
  intros io2 de' Hi2 Hde'. set (ds := dirents V (I n)) in *.
  assert (length ds = Z.to_nat (di_size (I n) / 16)) as Hlds by (unfold ds, dirents; by rewrite length_fmap, length_seq).
  match goal with |- context [16 * Z.of_nat ?x] => replace x with (free_slot ds) end.
  2: { unfold free_slot. rewrite Hlds. fold (dirents V (I n)). done. }
  pose proof (free_slot_le ds) as Hle. set (k := free_slot ds) in *.
  apply wp_bind. eapply wp_the.
  { rewrite strncpy_run by (done || lia). rewrite (drop_ge (de_name de')) by lia. by rewrite app_nil_r. }
  fold (stored name). apply wp_bind. unfold wrap. rewrite Z.mod_small by done.
  set (d := Dirent inum (stored name)).
  assert (length (dirent_to_bytes d) = 16%nat) as Hld.
  { unfold dirent_to_bytes. rewrite length_app, length_le_enc. simpl. by rewrite length_stored. }
  eapply (writei_run sb devsw _ V X I E T ∅ dp n i (dirent_to_bytes d) _ 16 kr); try done.
  - by rewrite Hty.
  - lia.
  - change (MAXFILE * BSIZE) with 71680. lia.
  - apply Forall_app. split; [apply le_enc_bytes|]. by apply bytes_stored.
  - by rewrite nblk_entry.
  - rewrite nblk_entry. lia.
  - intros V' X' I' io i' s' Hi' Hat' -> [Hdat [a Ea] Ho Hos] Hroom'. simpl. apply wp_ret.
    assert (di_size (I' n) = 16 * Z.max (di_size (I n) / 16) (Z.of_nat k + 1)) as Esz'.
    { rewrite Ea. cbn [di_size]. rewrite Hld. lia. }
    apply (HQ _ V' X' I'). split; try done.
    + unfold dirents, dent. fold (ents (Z.to_nat (di_size (I' n) / DIRENT_SIZE)) (fdata V' (I' n))).
      rewrite Hdat. change DIRENT_SIZE with 16. rewrite Esz', (Z.mul_comm 16), Z.div_mul by lia.
      replace (Z.to_nat (Z.max _ _)) with (Nat.max (length ds) (k + 1)) by lia.
      replace (Z.to_nat (16 * Z.of_nat k)) with (16 * k)%nat by lia.
      rewrite ents_splice; [|unfold fdata; rewrite length_frange; lia|lia|done|apply length_stored].
      rewrite Hlds. done.
    + split; [by rewrite Ea|]. change DIRENT_SIZE with 16. rewrite Esz', Z.mul_comm. by rewrite Z.mod_mul.
    + by rewrite Ea.
    + by eexists.
    + intros jp Hj. simpl. by rewrite list_lookup_insert_ne.
    + intros j Hj HjT Hjn. split; [by apply Ho|by apply Hos].
Qed.
End Link.

(** * The claims *)

Section Claims.
Context {St : Type} `{!TxnIO St, !TxnSpec St} (sb : superblock) (devsw : list (devops (St := St))).
Implicit Types (V : list (list Z)) (X : gset Z) (I : Z → dinode) (E T U : gset Z) (s : fsst St).

(** The result of dirlookup for the entry [r] of the directory. *)
Definition lookup_result s V X I E T (r : option (nat * dirent)) (o : outcome (fsst St) (option (nat * Z))) : Prop :=
  match r with
  | None => ∃ io, o = Ok None (set_fs_io io s) ∧ fs_inv sb (set_fs_io io s) V X I E T ∅
  | Some (k, d) => ∃ io ip i i', o = Ok (Some (ip, 16 * Z.of_nat k)) (put_i ip i' (set_fs_io io s)) ∧
      fs_inodes s !! ip = Some i ∧ iget_entry s (de_inum d) ip i i' ∧
      fs_inv sb (put_i ip i' (set_fs_io io s)) V X I E T ∅
  end.

Lemma dirlookup_result s V X I E T dp n i name :
  fs_inv sb s V X I E T ∅ → inode_at s dp n i → n ∉ T → (size X ≤ tx_cap)%nat → is_dir V I n →
  readable DIRSIZ name →
  (∀ k d, dir_find name (dirents V (I n)) = Some (k, d) → inum_ok sb (de_inum d) ∧ can_iget s (de_inum d)) →
  lookup_result s V X I E T (dir_find name (dirents V (I n))) (dirlookup devsw dp name s).
Proof.
  intros Hi Hat HT HX Hd Hname Hget.
  assert (wp (dirlookup devsw dp name) (λ r s', lookup_result s V X I E T (dir_find name (dirents V (I n))) (Ok r s')) s)
    as (r&s'&->&Hr)%wp_run; [|done].
  eapply dirlookup_run; [done..|]. unfold lookup_post, lookup_result.
  destruct (dir_find name (dirents V (I n))) as [[k d]|] eqn:Hf; [|by eauto].
  destruct (Hget k d eq_refl). split_and!; [done..|]. intros io ip i0 i' Hip He Hi'. by exists io, ip, i0, i'.
Qed.

(** Looking up a name.  dirlookup finds the first entry of the directory that is in use and has the
    name (compared up to a NUL and at most DIRSIZ bytes), and returns a new reference
    to its inode, which is the cache entry of that inode if there is one, and the byte offset of the
    entry; without such an entry it returns null.  The disk does not change. *)
Theorem dirlookup_first s V X I E T dp n i name :
  fs_inv sb s V X I E T ∅ → inode_at s dp n i → n ∉ T → (size X ≤ tx_cap)%nat → is_dir V I n →
  readable DIRSIZ name →
  (∀ k d, dir_find name (dirents V (I n)) = Some (k, d) → inum_ok sb (de_inum d) ∧ can_iget s (de_inum d)) →
  lookup_result s V X I E T (dir_find name (dirents V (I n))) (dirlookup devsw dp name s).
Proof. apply dirlookup_result. Qed.

(** C25. A linked name is found.  If the name is not in the directory, dirlink returns 0 and the directory then
    has one more entry, in the first unused slot or at its end: looking up the name yields
    the inode that was linked, and looking up any other name what it yielded before.  No other
    file changes. *)
Theorem dirlink_lookup s V X I E T dp n i name inum junk kr :
  fs_inv sb s V X I E T ∅ → inode_at s dp n i → n ∉ T → is_dir V I n →
  readable DIRSIZ name → bytes name → length (de_name junk) = DIRSIZ →
  inum_ok sb inum → 0 < inum < 2 ^ 16 → can_iget s inum →
  dir_find name (dirents V (I n)) = None → can_link sb V X I n kr →
  ∃ s' V' X' I', dirlink devsw junk dp name inum s = Ok 0 s' ∧
    fs_inv sb s' V' X' I' E T ∅ ∧
    lookup_result s' V' X' I' E T (Some (free_slot (dirents V (I n)), Dirent inum (stored name)))
      (dirlookup devsw dp name s') ∧
    (∀ other, cut DIRSIZ other ≠ cut DIRSIZ name →
       dir_find other (dirents V' (I' n)) = dir_find other (dirents V (I n))) ∧
    ∀ j, inum_ok sb j → j ∉ T → j ≠ n → I' j = I j ∧ fdata V' (I' j) = fdata V (I j).
Proof.
  intros Hi Hat HT Hd Hname Hb Hjunk Hin Hinum Hcan Hnone Hcl.
  assert (wp (dirlink devsw junk dp name inum) (λ r s', r = 0 ∧ ∃ V' X' I',
    linked_post sb s V X I E T dp n inum name kr s' V' X' I') s) as (r&s'&Hr&->&V'&X'&I'&[Hi' Hdir Hd' _ [i' Hat'] Hents Ho Hroom])%wp_run.
  { eapply (dirlink_run sb devsw s V X I E T dp n i name inum junk kr); try done; [lia|]. by eauto. }
  exists s', V', X', I'. split_and!; [done|done| | |done].
  - pose proof (put_entry_find name (dirents V (I n)) (Dirent inum (stored name)) Hnone ltac:(simpl; lia) (cut_stored name)) as Hf.
    rewrite <- Hdir in Hf. rewrite <- Hf. eapply dirlookup_result; try done.
    + pose proof (room_size _ _ _ Hroom). lia.
    + rewrite Hf. intros k d [= <- <-]. split; [done|]. simpl.
      destruct Hcan as (ip&j&Hip&Hj). destruct (decide (ip = dp)) as [->|Hne].
      * exists dp, i'. split; [apply Hat'|]. destruct Hat as (Hdp&Hr1&_&Hn1), Hat' as (_&Hr2&_&Hn2).
        rewrite Hdp in Hip. injection Hip as <-. destruct Hj as [?|[_ ?]]; [lia|]. right. split; [done|congruence].
      * exists ip, j. by rewrite Hents.
  - intros other Hne. rewrite Hdir. apply put_entry_other. cbn [de_name]. rewrite cut_stored. congruence.
Qed.
End Claims.

(** * The theorems at the example *)

Lemma example_can_iget n : can_iget (Example.state 1) n.
Proof. exists 2%nat, zero_inode. split; [done|by left]. Qed.

Lemma example_is_dir : is_dir (Example.disk 1) (Example.inodes 1) 1.
Proof. done. Qed.

Lemma example_readable c : readable DIRSIZ [c; 0].
Proof. right. apply list_elem_of_further, list_elem_of_here. Qed.

Lemma dirlookup_first_witness :
  lookup_result Example.sb (Example.state 1) (Example.disk 1) ∅ (Example.inodes 1) ∅ ∅
    (Some (2%nat, Dirent 2 (Example.name [102]))) (dirlookup nodev 0 [102; 0] (Example.state 1)).
Proof.
  assert (dir_find [102; 0] (dirents (Example.disk 1) (Example.inodes 1 1)) = Some (2%nat, Dirent 2 (Example.name [102])))
    as Hf by (vm_compute; reflexivity).
  rewrite <- Hf. apply (dirlookup_first Example.sb nodev (Example.state 1) (Example.disk 1) ∅ (Example.inodes 1) ∅ ∅ 0 1
    (Example.entry 1 1 false Example.root) [102; 0]).
  - apply Example.inv. by right.
  - done.
  - done.
  - vm_compute. lia.
  - apply example_is_dir.
  - apply example_readable.
  - rewrite Hf. intros k d [= <- <-]. split; [done|]. apply example_can_iget.
Defined.

(** A second name g for the file f. *)
Lemma dirlink_lookup_witness :
  ∃ s' V' X' I', dirlink nodev (Dirent 0 (replicate 14 0)) 0 [103; 0] 2 (Example.state 1) = Ok 0 s' ∧
    lookup_result Example.sb s' V' X' I' ∅ ∅ (Some (3%nat, Dirent 2 (stored [103; 0])))
      (dirlookup nodev 0 [103; 0] s').
Proof.
  destruct (dirlink_lookup Example.sb nodev (Example.state 1) (Example.disk 1) ∅ (Example.inodes 1) ∅ ∅ 0 1
    (Example.entry 1 1 false Example.root) [103; 0] 2 (Dirent 0 (replicate 14 0)) 0) as (s'&V'&X'&I'&Hr&_&Hl&_).
  - apply Example.inv. by right.
  - done.
  - done.
  - apply example_is_dir.
  - apply example_readable.
  - by repeat constructor.
  - done.
  - done.
  - done.
  - apply example_can_iget.
  - vm_compute. reflexivity.
  - split; vm_compute; [discriminate|lia|lia].
  - exists s', V', X', I'. split; [exact Hr|]. revert Hl.
    assert (free_slot (dirents (Example.disk 1) (Example.inodes 1 1)) = 3%nat) as -> by (vm_compute; reflexivity).
    exact id.
Defined.
