(* ===== verification/FsPath.v ===== *)
(** Path names (src/fs.c: skipelem, namex, namei, nameiparent).  Resolving a
    path walks the directory tree from the root or the current directory; the cache
    afterwards holds one more reference, to the inode that was found, and none else. *)

From stdpp Require Import functions.
From S2P Require Import Prelude Bytes Layout Blocks Sleeplock Kstring Txn Fs FsDisk FsAlloc FsInode FsFile FsCache FsSpec FsDir.

(** * The elements of a path *)

Section Elems.
Implicit Types (p e cur : list Z).

Definition flush cur : list (list Z) := if decide (cur = []) then [] else [cur].
Fixpoint split_path p cur : list (list Z) :=
  match p with
  | [] => flush cur
  | c :: p =>
      if c =? 0 then flush cur
      else if c =? SLASH then flush cur ++ split_path p []
      else split_path p (cur ++ [c])
  end.
(** The elements of the path [p], that is of the bytes up to its NUL. *)
Definition elems p : list (list Z) := split_path p [].

Lemma elems_skip_slashes p : elems (skip_slashes p) = elems p.
Proof.
  induction p as [|c p IH]; [done|]. simpl. destruct (Z.eqb_spec c SLASH) as [->|]; [|done].
  rewrite IH. done.
Qed.

Lemma skip_slashes_nul p : 0 ∈ p → 0 ∈ skip_slashes p.
Proof.
  induction p as [|c p IH]; simpl; [done|]. destruct (Z.eqb_spec c SLASH) as [->|]; [|done].
  rewrite elem_of_cons. intros [?|?]; [done|auto].
Qed.

Lemma skip_slashes_head p c p' : skip_slashes p = c :: p' → c ≠ SLASH.
Proof.
  induction p as [|c' p IH]; simpl; [done|]. destruct (Z.eqb_spec c' SLASH); [done|]. by intros [= <- <-].
Qed.

Lemma length_skip_slashes p : (length (skip_slashes p) ≤ length p)%nat.
Proof. induction p as [|c p IH]; simpl; [done|]. case_match; simpl; lia. Qed.

Lemma path_elem_split p cur e rest :
  path_elem p = (e, rest) → split_path p cur = flush (cur ++ e) ++ elems rest ∧ 0 ∉ e ∧
    (0 ∈ p → 0 ∈ rest) ∧ (length e + length rest = length p)%nat.
Proof.
  revert cur e. induction p as [|c p IH]; intros cur e; simpl.
  - intros [= <- <-]. rewrite !app_nil_r. split_and!; [done|apply not_elem_of_nil|done|done].
  - destruct (Z.eqb_spec c SLASH) as [->|Hs]; simpl.
    { intros [= <- <-]. rewrite app_nil_r. split_and!; [done|apply not_elem_of_nil|done|done]. }
    destruct (Z.eqb_spec c 0) as [->|H0].
    { intros [= <- <-]. rewrite !app_nil_r. split_and!; [done|apply not_elem_of_nil|done|done]. }
    destruct (path_elem p) as [e' r]. intros [= <- <-].
    destruct (IH (cur ++ [c]) e' eq_refl) as (->&Hn&Hz&Hl). rewrite <- app_assoc. simpl. split_and!; [done| | |lia].
    + apply not_elem_of_cons. by split.
    + rewrite elem_of_cons. intros [?|?]; [done|auto].
Qed.

(** Whether elements follow is seen at the first byte after the slashes. *)
Lemma elems_head p c p' : skip_slashes p = c :: p' → elems p = [] ↔ c = 0.
Proof.
  intros Hp. rewrite <- (elems_skip_slashes p), Hp. pose proof (skip_slashes_head p c p' Hp) as Hc.
  unfold elems. simpl. destruct (Z.eqb_spec c 0); [done|]. rewrite (proj2 (Z.eqb_neq _ _)) by done.
  split; [|done]. intros Hs. exfalso.
  destruct (path_elem p') as [e r] eqn:He. destruct (path_elem_split p' [c] e r He) as [Hs' _].
  simpl in Hs. rewrite Hs in Hs'. symmetry in Hs'. by apply app_eq_nil in Hs' as [? _].
Qed.
End Elems.

Section Skipelem.
Context {St : Type} `{!TxnIO St}.

Lemma cut_no_nul n (e : list Z) : 0 ∉ e → cut n e = take n e.
Proof.
  revert e. induction n as [|n IH]; intros [|x e]; simpl; try done.
  intros [? ?]%not_elem_of_cons. rewrite (proj2 (Z.eqb_neq _ _)) by done. by rewrite IH.
Qed.

Lemma cut_app n (l t : list Z) :
  0 ∉ l → (length l < n)%nat ∧ head t = Some 0 ∨ length l = n → cut n (l ++ t) = l.
Proof.
  revert l. induction n as [|n IH]; intros [|x l] Hl Ht; simpl in *; try lia; try done.
  - destruct t as [|y t]; [done|]. destruct Ht as [[_ [= ->]]|?]; [done|lia].
  - apply not_elem_of_cons in Hl as [? Hl]. rewrite (proj2 (Z.eqb_neq _ _)) by done. f_equal.
    apply IH; [done|]. destruct Ht as [[? ?]|?]; [left; split; [lia|done]|right; lia].
Qed.

(** skipelem takes the first element off the path: its bytes, at most DIRSIZ of them, are in
    name, and the path goes on with the next element. *)
Lemma skipelem_run path name (s : fsst St) (Q : option (list Z * list Z) → fsst St → Prop) :
  0 ∈ path → (DIRSIZ ≤ length name)%nat →
  match elems path with
  | [] => Q None s
  | e :: es => ∀ rest name', elems rest = es → 0 ∈ rest → (length rest < length path)%nat →
      length name' = length name → cut DIRSIZ name' = cut DIRSIZ e →
      (∃ c, head rest = Some c ∧ (c = 0 ↔ es = [])) → Q (Some (rest, name')) s
  end →
  wp (skipelem path name) Q s.
Proof.
  intros H0 Hl HQ. unfold skipelem. pose proof (skip_slashes_nul path H0) as H0'.
  destruct (skip_slashes path) as [|c p'] eqn:Hp; [by apply not_elem_of_nil in H0'|].
  apply wp_bind, (wp_the _ _ c); [done|]. pose proof (elems_head path c p' Hp) as Hh.
  pose proof (elems_skip_slashes path) as Hes. pose proof (length_skip_slashes path) as Hls. rewrite Hp in Hes, Hls.
  destruct (Z.eqb_spec c 0) as [->|Hc].
  { apply wp_ret. by rewrite (proj2 Hh) in HQ. }
  pose proof (skip_slashes_head path c p' Hp) as Hcs.
  destruct (path_elem (c :: p')) as [e rest] eqn:He.
  destruct (path_elem_split (c :: p') [] e rest He) as (Hsp&Hne&Hz&Hlen). simpl app in Hsp.
  assert (e ≠ []) as Hnil.
  { simpl in He. rewrite (proj2 (Z.eqb_neq c SLASH)), (proj2 (Z.eqb_neq c 0)) in He by done.
    simpl in He. destruct (path_elem p'). by injection He as <- _. }
  change (split_path (c :: p') []) with (elems (c :: p')) in Hsp. rewrite Hes in Hsp.
  unfold flush in Hsp. rewrite decide_False in Hsp by done. simpl in Hsp. rewrite Hsp in HQ.
  specialize (Hz H0'). pose proof (skip_slashes_nul rest Hz) as Hz'. pose proof (length_skip_slashes rest).
  destruct (skip_slashes rest) as [|c' p''] eqn:Hr; [by apply not_elem_of_nil in Hz'|].
  destruct rest as [|x rest]; [by apply not_elem_of_nil in Hz|].
  apply wp_bind, (wp_the _ _ x); [done|]. apply wp_ret.
  assert (0 < length e)%nat by (destruct e; [done|simpl; lia]).
  apply HQ.
  - rewrite <- Hr. apply elems_skip_slashes.
  - done.
  - lia.
  - case_match eqn:Hlt; apply length_splice; rewrite ?length_take, ?length_app; cbn [length]; [lia|].
    apply Nat.leb_gt in Hlt. lia.
  - rewrite (cut_no_nul _ e) by done. case_match eqn:Hlt; unfold splice; simpl app.
    + apply Nat.leb_le in Hlt. apply cut_app; [|right; rewrite length_take; lia].
      intros Hin. apply Hne. by eapply elem_of_take in Hin as (?&?&_); eapply list_elem_of_lookup_2.
    + apply Nat.leb_gt in Hlt. rewrite <- app_assoc, take_ge by lia. apply cut_app; [done|left; split; [lia|done]].
  - exists c'. split; [done|]. by rewrite (elems_head _ c' p'' Hr).
Qed.
End Skipelem.

(** * The tree *)

Section Tree.
Context (sb : superblock).
Implicit Types (V : list (list Z)) (I : Z → dinode).

(** An inode that has a name. *)
Definition live I (n : Z) : Prop := inum_ok sb n ∧ di_type (I n) ≠ 0 ∧ di_nlink (I n) ≠ 0.

(** Directories consist of whole entries, which name live inodes. *)
Record tree_ok V I : Prop := {
  to_size n : inum_ok sb n → di_type (I n) = T_DIR → di_size (I n) mod DIRENT_SIZE = 0;
  to_live n d : inum_ok sb n → di_type (I n) = T_DIR → d ∈ dirents V (I n) → de_inum d ≠ 0 → live I (de_inum d);
}.

(** The inode a path leads to from the inode [n]; with [parent], the directory
    of its last element. *)
Fixpoint resolve V I (parent : bool) (n : Z) (es : list (list Z)) : option Z :=
  match es with
  | [] => if parent then None else Some n
  | e :: es' =>
      if negb (di_type (I n) =? T_DIR) then None
      else if parent && bool_decide (es' = []) then Some n
      else '(_, d) ← dir_find e (dirents V (I n)); resolve V I parent (de_inum d) es'
  end.

Lemma dir_find_live V I n e k d :
  tree_ok V I → inum_ok sb n → di_type (I n) = T_DIR → dir_find e (dirents V (I n)) = Some (k, d) →
  live I (de_inum d).
Proof.
  intros Ht Hn Hty Hf. apply find_from_Some in Hf as (x&_&Hx&Hd&_).
  eapply to_live; [done..|by eapply list_elem_of_lookup_2|]. unfold names in Hd.
  by apply andb_prop in Hd as [Hd%negb_true_iff%Z.eqb_neq _].
Qed.

Lemma dir_find_cut nm e ds : cut DIRSIZ nm = cut DIRSIZ e → dir_find nm ds = dir_find e ds.
Proof.
  intros Hc. unfold dir_find. generalize 0%nat. induction ds as [|d ds IH]; intros k; [done|].
  assert (names nm d = names e d) as Hd by (unfold names; by rewrite Hc). simpl. by rewrite Hd, IH.
Qed.
End Tree.

(** * Walking the tree *)

Section Walk.
Context {St : Type} `{!TxnIO St, !TxnSpec St} (sb : superblock) (devsw : list (devops (St := St))).
Implicit Types (V : list (list Z)) (X : gset Z) (I : Z → dinode) (E T U : gset Z) (s : fsst St) (r : nat → Z).

(** The reference counts of the cache, and the one entry that is locked. *)
Definition shape s r (o : option nat) : Prop :=
  ∀ jp j, fs_inodes s !! jp = Some j → i_ref j = r jp ∧ sl_locked (i_lock j) = bool_decide (o = Some jp).

(** The entry [ip] is the inode [n]. *)
Definition entry_of s (ip : nat) (n : Z) : Prop := ∃ i, fs_inodes s !! ip = Some i ∧ i_inum i = n.

Lemma shape_put s r o o' ip i i' x :
  shape s r o → fs_inodes s !! ip = Some i → i_ref i' = x → sl_locked (i_lock i') = bool_decide (o' = Some ip) →
  (∀ jp, jp ≠ ip → o = Some jp ↔ o' = Some jp) →
  shape (put_i ip i' s) (<[ip := x]> r) o'.
Proof.
  intros Hs Hip Hr Hl Ho jp j. simpl. rewrite list_lookup_insert_dec by (by eapply lookup_lt_Some).
  destruct (decide (jp = ip)) as [->|Hj].
  - intros [= <-]. by rewrite fn_lookup_insert.
  - intros Hjp. rewrite fn_lookup_insert_ne by done. destruct (Hs jp j Hjp) as [? ->]. split; [done|].
    apply bool_decide_ext. by apply Ho.
Qed.

Lemma shape_ext s r r' o : shape s r o → (∀ jp, r jp = r' jp) → shape s r' o.
Proof. intros Hs Hr jp j Hj. rewrite <- Hr. by apply Hs. Qed.

Lemma ilock_shape s V X I E r ip n (Q : unit → fsst St → Prop) :
  fs_inv sb s V X I E ∅ ∅ → shape s r None → entry_of s ip n → 0 < r ip → live sb I n → (size X ≤ tx_cap)%nat →
  (∀ s' i', fs_inv sb s' V X I E ∅ ∅ → shape s' r (Some ip) → inode_at s' ip n i' →
     fs_cwd s' = fs_cwd s → Q tt s') →
  wp (ilock (Some ip)) Q s.
Proof.
  intros Hi Hs (i&Hip&<-) Hr (Hn&Hty&_) HX HQ. destruct (Hs ip i Hip) as [Hri Hli].
  eapply ilock_run; [done|done|lia|done|done|done|]. intros io f i' s' Hi' Hat'.
  eapply (HQ s'); [done| |done|done]. eapply shape_ext.
  - eapply (shape_put (set_fs_io io s) r None (Some ip) ip i); [done|done|done| |].
    + simpl. by rewrite bool_decide_true.
    + intros jp Hj. split; [done|]. by intros [= ->].
  - intros jp. simpl. destruct (decide (jp = ip)) as [->|]; [by rewrite fn_lookup_insert|by rewrite fn_lookup_insert_ne].
Qed.

Lemma iput_live s V X I E r o ip n (Q : unit → fsst St → Prop) :
  fs_inv sb s V X I E ∅ ∅ → shape s r o → entry_of s ip n → 0 < r ip → live sb I n →
  (∀ s', fs_inv sb s' V X I E ∅ ∅ → shape s' (<[ip := r ip - 1]> r) o → (∀ jp m, entry_of s jp m → entry_of s' jp m) →
     Q tt s') →
  wp (iput ip) Q s.
Proof.
  intros Hi Hs (i&Hip&<-) Hr (Hn&Hty&Hnl) HQ. destruct (Hs ip i Hip) as [Hri Hli].
  destruct (fi_entry _ _ _ _ _ _ _ _ Hi ip i Hip) as [_ _ Hv]; [lia|].
  eapply (iput_drop sb); [done|done|lia| |].
  { unfold last_ref. destruct (ivalid i); [|by rewrite andb_false_r]. rewrite Hv by done.
    rewrite (proj2 (Z.eqb_neq _ _) Hnl). by rewrite andb_false_r. }
  intros Hi'. apply HQ; [done| |].
  - rewrite Hri. by eapply shape_put.
  - intros jp m (j&Hj&Hm). destruct (decide (jp = ip)) as [->|Hne].
    + eexists. split; [by eapply put_i_lookup|]. simpl. congruence.
    + exists j. split; [|done]. simpl. by rewrite list_lookup_insert_ne.
Qed.

Lemma iunlock_shape s V X I E r ip n i (Q : unit → fsst St → Prop) :
  fs_inv sb s V X I E ∅ ∅ → shape s r (Some ip) → inode_at s ip n i →
  (∀ s', fs_inv sb s' V X I E ∅ ∅ → shape s' r None → (∀ jp m, entry_of s jp m → entry_of s' jp m) → Q tt s') →
  wp (iunlock (Some ip)) Q s.
Proof.
  intros Hi Hs (Hip&Hr&_&Hn) HQ. destruct (Hs ip i Hip) as [Hri Hli].
  eapply (iunlock_run sb); [done|done|done|by rewrite Hli, bool_decide_true|].
  intros i' s' Hi'. apply HQ; [done| |].
  - eapply (shape_ext _ (<[ip := r ip]> r)).
    + intros jp j Hj. eapply (shape_put s r (Some ip) None ip i i'); [done|done|done|done| |exact Hj].
      intros jp' Hj'. split; [by intros [= ->]|done].
    + intros jp. destruct (decide (jp = ip)) as [->|]; [by rewrite fn_lookup_insert|by rewrite fn_lookup_insert_ne].
  - intros jp m (j&Hj&Hm). destruct (decide (jp = ip)) as [->|Hne].
    + exists i'. split; [by eapply (put_i_lookup ip i)|]. simpl. congruence.
    + exists j. split; [|done]. simpl. by rewrite list_lookup_insert_ne.
Qed.

Lemma iunlockput_shape s V X I E r ip n i (Q : unit → fsst St → Prop) :
  fs_inv sb s V X I E ∅ ∅ → shape s r (Some ip) → inode_at s ip n i → live sb I n →
  (∀ s', fs_inv sb s' V X I E ∅ ∅ → shape s' (<[ip := r ip - 1]> r) None →
     (∀ jp m, entry_of s jp m → entry_of s' jp m) → Q tt s') →
  wp (iunlockput ip) Q s.
Proof.
  intros Hi Hs Hat Hl HQ. unfold iunlockput. apply wp_bind. eapply iunlock_shape; [done..|].
  intros s1 Hi1 Hs1 He1. pose proof Hat as (Hip&Hr&_&Hn). destruct (Hs ip i Hip) as [Hri _].
  eapply (iput_live s1 V X I E r None ip n); [done|done|apply He1; by exists i|lia|done|].
  intros s' Hi' Hs' He'. apply HQ; [done|done|auto].
Qed.

(** Two entries of the cache are unused: one for the inode that is being
    looked at, one for the next. *)
Definition two_free r : Prop :=
  (∀ jp, 0 ≤ r jp) ∧ ∃ a b, a ≠ b ∧ (a < NINODE)%nat ∧ (b < NINODE)%nat ∧ r a = 0 ∧ r b = 0.

(** The outcome of a walk: a reference to the inode [o], if any. *)
Definition found r (o : option Z) (res : option nat) s : Prop :=
  match o with
  | Some m => ∃ ip, res = Some ip ∧ entry_of s ip m ∧ shape s (<[ip := r ip + 1]> r) None
  | None => res = None ∧ shape s r None
  end.

Lemma two_free_iget s V X I E r o ip n :
  fs_inv sb s V X I E ∅ ∅ → two_free r → shape s (<[ip := r ip + 1]> r) o → can_iget s n.
Proof.
  intros Hi (_&a&b&Hab&Ha&Hb&Ra&Rb) Hs. pose proof (fi_len _ _ _ _ _ _ _ _ Hi) as Hlen.
  assert (∃ c, (c < NINODE)%nat ∧ r c = 0 ∧ c ≠ ip) as (c&Hc&Rc&Hne).
  { destruct (decide (a = ip)) as [->|]; [by exists b|by exists a]. }
  destruct (lookup_lt_is_Some_2 (fs_inodes s) c) as [j Hj]; [lia|]. exists c, j. split; [done|left].
  destruct (Hs c j Hj) as [-> _]. by rewrite fn_lookup_insert_ne.
Qed.

Lemma refs_back r ip jp : <[ip := <[ip := r ip + 1]> r ip - 1]> (<[ip := r ip + 1]> r) jp = r jp.
Proof.
  destruct (decide (jp = ip)) as [->|]; [rewrite !fn_lookup_insert; lia|]. by rewrite !fn_lookup_insert_ne.
Qed.

Lemma refs_next r ip next jp :
  let r1 := <[ip := r ip + 1]> r in let r2 := <[next := r1 next + 1]> r1 in
  <[ip := r2 ip - 1]> r2 jp = <[next := r next + 1]> r jp.
Proof.
  cbv zeta. unfold insert, fn_insert. repeat case_decide; subst; try congruence; lia.
Qed.

(** dirlookup of a name in the locked directory [ip]. *)
Lemma dirlookup_shape s V X I E r ip n i name (Q : option (nat * Z) → fsst St → Prop) :
  fs_inv sb s V X I E ∅ ∅ → two_free r → shape s (<[ip := r ip + 1]> r) (Some ip) → inode_at s ip n i →
  tree_ok sb V I → inum_ok sb n → di_type (I n) = T_DIR → (size X ≤ tx_cap)%nat → readable DIRSIZ name →
  match dir_find name (dirents V (I n)) with
  | None => ∀ s', fs_inv sb s' V X I E ∅ ∅ → shape s' (<[ip := r ip + 1]> r) (Some ip) → inode_at s' ip n i →
      Q None s'
  | Some (k, d) => ∀ s' next i', fs_inv sb s' V X I E ∅ ∅ → entry_of s' next (de_inum d) → live sb I (de_inum d) →
      shape s' (<[next := <[ip := r ip + 1]> r next + 1]> (<[ip := r ip + 1]> r)) (Some ip) →
      inode_at s' ip n i' → Q (Some (next, 16 * Z.of_nat k)) s'
  end →
  wp (dirlookup devsw ip name) Q s.
Proof.
  intros Hi H2 Hs Hat Ht Hn Hty HX Hname HQ.
  eapply dirlookup_run; [done|done|set_solver|done|split; [done|by eapply to_size]|done|].
  unfold lookup_post. destruct (dir_find name (dirents V (I n))) as [[k d]|] eqn:Hf.
  - pose proof (dir_find_live sb V I n name k d Ht Hn Hty Hf) as Hl.
    split; [apply Hl|]. split; [by eapply two_free_iget|]. intros io next j j' Hj He Hi'. set (s' := put_i next j' (set_fs_io io s)) in *.
    assert (i_inum j' = de_inum d ∧ i_ref j' = i_ref j + 1 ∧ i_lock j' = i_lock j ∧
      (next = ip → i_flags j' = i_flags j)) as (En&Er&El&Efl).
    { destruct He as [Hr Hnum ->|Hr _ ->]; [done|]. simpl. split_and!; [done|lia|done|].
      intros ->. destruct Hat as (Hip&Hrp&_). rewrite Hip in Hj. injection Hj as <-. lia. }
    destruct (Hs next j Hj) as [Hrn Hln].
    assert (inode_at s' ip n (if decide (next = ip) then j' else i)) as Hat'.
    { destruct (decide (next = ip)) as [Hnx|Hnx].
      - rewrite Hnx in *. destruct Hat as (Hip&Hrp&Hv&En'). rewrite Hip in Hj. injection Hj as <-. split_and!.
        + unfold s'. rewrite Hnx. by eapply (put_i_lookup ip i).
        + lia.
        + unfold ivalid in *. by rewrite Efl.
        + rewrite En. destruct He as [Hr Hnum ->|Hr _ ->]; [congruence|lia].
      - destruct Hat as (Hip&Hrp&Hv&En'). split; [|done]. simpl. by rewrite list_lookup_insert_ne. }
    eapply (HQ s' next); [done| |done| |exact Hat'].
    + exists j'. split; [by eapply (put_i_lookup next j)|done].
    + eapply (shape_put (set_fs_io io s)); [done|done|lia| |done]. by rewrite El, Hln.
  - intros io Hi'. by apply HQ.
Qed.

Lemma namex_loop_run es fuel s V X I E r ip n path par name (Q : option nat * list Z → fsst St → Prop) :
  fs_inv sb s V X I E ∅ ∅ → two_free r → shape s (<[ip := r ip + 1]> r) None → entry_of s ip n →
  tree_ok sb V I → live sb I n → (size X ≤ tx_cap)%nat →
  0 ∈ path → elems path = es → (length es ≤ fuel)%nat → (DIRSIZ ≤ length name)%nat →
  (∀ s' res name', fs_inv sb s' V X I E ∅ ∅ → found r (resolve V I par n es) res s' →
     match list.last es with None => name' = name | Some e => is_Some res → cut DIRSIZ name' = cut DIRSIZ e end →
     Q (res, name') s') →
  wp (namex_loop devsw fuel ip path par name) Q s.
Proof.
  revert fuel s ip n path name. induction es as [|e es IH];
    intros fuel s ip n path name Hi H2 Hs Hen Ht Hl HX H0 Hes Hf Hnm HQ.
  - unfold namex_loop; destruct fuel; fold namex_loop; apply wp_bind; apply skipelem_run; try done; rewrite Hes.
    all: destruct par; [|by apply wp_ret, HQ; [done|exists ip|]]; apply wp_bind.
    all: eapply iput_live; [done|done|done|rewrite fn_lookup_insert; destruct H2 as [H2 _]; specialize (H2 ip); lia|done|];
      intros s' Hi' Hs' _; apply wp_ret, HQ; [done| |done]; split; [done|];
      eapply shape_ext; [done|intros; apply refs_back].
  - destruct fuel as [|fuel]; [simpl in Hf; lia|]. cbn [namex_loop]. apply wp_bind, skipelem_run; [done..|]. rewrite Hes.
    intros rest name' Hes' H0' _ Hln Hcut (c&Hc&Hc0).
    assert (∀ nm, match list.last (e :: es) with
                 | None => nm = name
                 | Some e' => is_Some (None : option nat) → cut DIRSIZ nm = cut DIRSIZ e'
                 end) as Hnone.
    { intros nm. destruct (list.last (e :: es)) eqn:Hla; [by intros [? ?]|by apply list.last_None in Hla]. }
    assert (0 < <[ip := r ip + 1]> r ip) as Hrp by (rewrite fn_lookup_insert; destruct H2 as [H2 _]; specialize (H2 ip); lia).
    apply wp_bind. eapply (ilock_shape s V X I E _ ip n); [done..|]. intros s1 i1 Hi1 Hs1 Hat1 _.
    destruct (inode_at_di sb _ _ _ _ _ _ _ _ _ _ Hi1 Hat1) as (Edi&_&Hn).
    apply wp_bind, (wp_geti _ _ _ _ (proj1 Hat1)). rewrite Edi. simpl resolve in HQ.
    assert (∀ s' i' nm, fs_inv sb s' V X I E ∅ ∅ → shape s' (<[ip := r ip + 1]> r) (Some ip) → inode_at s' ip n i' →
      (∀ s'', fs_inv sb s'' V X I E ∅ ∅ → shape s'' r None → Q (None, nm) s'') →
      wp (iunlockput ip;; mret (None, nm)) Q s') as Hfail.
    { intros s' i' nm Hi' Hs' Hat' HQ'. apply wp_bind. eapply iunlockput_shape; [done..|].
      intros s'' Hi'' Hs'' _. apply wp_ret, HQ'; [done|]. eapply shape_ext; [done|intros; apply refs_back]. }
    destruct (Z.eqb_spec (di_type (I n)) T_DIR) as [Hty|Hty]; simpl negb; cbv iota; cycle 1.
    { eapply Hfail; [done..|]. intros s'' Hi'' Hs''. apply HQ; [done| |apply Hnone].
      done. }
    simpl in HQ.
    apply wp_bind, (wp_the _ _ c); [done|].
    assert ((c =? 0) = bool_decide (es = [])) as ->.
    { apply eq_true_iff_eq. rewrite Z.eqb_eq, bool_decide_eq_true. done. }
    destruct (par && bool_decide (es = [])) eqn:Hpar.
    { apply andb_prop in Hpar as [_ Hes0%bool_decide_eq_true].
      apply wp_bind. eapply iunlock_shape; [done..|]. intros s2 Hi2 Hs2 He2. apply wp_ret, HQ; [done| |].
      - exists ip. split_and!; [done| |done]. apply He2. destruct Hat1 as (?&_&_&?). by exists i1.
      - rewrite Hes0. by intros _. }
    apply wp_bind. eapply (dirlookup_shape s1 V X I E r ip n i1); [done..|left; lia|].
    rewrite (dir_find_cut name' e) by done. destruct (dir_find e (dirents V (I n))) as [[k d]|] eqn:Hfd; simpl in HQ.
    + intros s2 next i2 Hi2 Hen2 Hl2 Hs2 Hat2. apply wp_bind. eapply iunlockput_shape; [done..|].
      intros s3 Hi3 Hs3 He3. eapply (IH fuel s3 next (de_inum d)); [done|done| |auto|done..|simpl in Hf; lia|lia|].
      * eapply shape_ext; [done|]. intros jp. apply refs_next.
      * intros s' res nm Hi' Hres Hlast. apply HQ; [done|done|].
        rewrite list.last_cons. destruct (list.last es); [done|]. intros _. by rewrite Hlast.
    + intros s2 Hi2 Hs2 Hat2. eapply Hfail; [done..|]. intros s'' Hi'' Hs''. apply HQ; [done|done|apply Hnone].
Qed.

Lemma length_split_path p cur : (length (split_path p cur) ≤ length p + length (flush cur))%nat.
Proof.
  revert cur. induction p as [|c p IH]; intros cur; simpl; [lia|]. case_match; [lia|]. case_match.
  - rewrite length_app. specialize (IH []). simpl in IH. lia.
  - specialize (IH (cur ++ [c])). unfold flush in *. repeat case_decide; simpl in *; lia.
Qed.

(** The outcome of namex from the inode [from]. *)
Definition namex_post V X I E r par from path (p : option nat * list Z) s' : Prop :=
  fs_inv sb s' V X I E ∅ ∅ ∧ found r (resolve V I par from (elems path)) p.1 s' ∧
  ∀ e, list.last (elems path) = Some e → is_Some p.1 → cut DIRSIZ p.2 = cut DIRSIZ e.

Lemma namex_walk s V X I E r path par name from ip :
  fs_inv sb s V X I E ∅ ∅ → two_free r → shape s (<[ip := r ip + 1]> r) None → entry_of s ip from → tree_ok sb V I →
  live sb I from → (size X ≤ tx_cap)%nat → 0 ∈ path → (DIRSIZ ≤ length name)%nat →
  wp (namex_loop devsw (length path) ip path par name) (namex_post V X I E r par from path) s.
Proof.
  intros Hi H2 Hs He Ht Hl HX H0 Hnm. eapply (namex_loop_run (elems path)); [done..| | |].
  - pose proof (length_split_path path []) as Hlen. change (length (flush [])) with 0%nat in Hlen. unfold elems. lia.
  - done.
  - intros s' res name' Hi' Hf Hn. split_and!; [done..|]. simpl. intros e He'. by rewrite He' in Hn.
Qed.

(** A path that starts with a slash; there need not be a current directory. *)
Lemma namex_absolute s V X I E r path par name :
  fs_inv sb s V X I E ∅ ∅ → two_free r → shape s r None → tree_ok sb V I → live sb I ROOTINO →
  (size X ≤ tx_cap)%nat → 0 ∈ path → (DIRSIZ ≤ length name)%nat → head path = Some SLASH →
  wp (namex devsw path par name) (namex_post V X I E r par ROOTINO path) s.
Proof.
  intros Hi H2 Hs Ht Hroot HX H0 Hnm Hc. destruct path as [|c path]; [done|]. injection Hc as ->.
  unfold namex. apply wp_bind, (wp_the _ _ SLASH); [done|]. apply wp_bind. rewrite Z.eqb_refl.
  eapply iget_run; [done|apply Hroot| |].
  { destruct H2 as (_&a&_&_&Ha&_&Ra&_). destruct (lookup_lt_is_Some_2 (fs_inodes s) a) as [j Hj].
    { by rewrite (fi_len _ _ _ _ _ _ _ _ Hi). }
    exists a, j. split; [done|left]. by destruct (Hs a j Hj) as [-> _]. }
  intros ip i i' Hip He Hi'. destruct (Hs ip i Hip) as [Hri Hli]. apply namex_walk; try done.
  - eapply shape_put; [done|done| | |done]; destruct He as [? ? ->|? ? ->]; simpl; (done || lia).
  - exists i'. split; [by eapply put_i_lookup|]. by destruct He as [? ? ->|? ? ->].
Qed.

Lemma namex_run s V X I E r path par name cwd :
  fs_inv sb s V X I E ∅ ∅ → two_free r → shape s r None → tree_ok sb V I → live sb I ROOTINO →
  entry_of s (fs_cwd s) cwd → 0 < r (fs_cwd s) → live sb I cwd → (size X ≤ tx_cap)%nat →
  0 ∈ path → (DIRSIZ ≤ length name)%nat →
  wp (namex devsw path par name)
    (namex_post V X I E r par (if bool_decide (head path = Some SLASH) then ROOTINO else cwd) path) s.
Proof.
  intros Hi H2 Hs Ht Hroot Hcwd Hrc Hlc HX H0 Hnm. case_bool_decide as Hc; [by apply namex_absolute|].
  destruct path as [|c path]; [by apply not_elem_of_nil in H0|].
  unfold namex. apply wp_bind, (wp_the _ _ c); [done|]. apply wp_bind.
  rewrite (proj2 (Z.eqb_neq c SLASH)) by (intros ->; done).
  apply wp_bind, wp_gets. destruct Hcwd as (i&Hip&Hn).
  destruct (Hs _ i Hip) as [Hri Hli]. eapply idup_run; [done|done|lia|]. intros Hi'. apply namex_walk; try done.
  - eapply shape_put; [done|done|simpl; lia|done|done].
  - eexists. split; [by eapply put_i_lookup|done].
Qed.

(** C15. Resolving a path.  namex on a terminated path finds the inode to which the path leads from the root
    directory, if it starts with a slash, or from the current directory, element by element (names count up to
    DIRSIZ bytes); for nameiparent, the directory that holds its last element, whose name it copies
    out.  The result is null when an element is missing or is not in a directory.  The disk does not change, every
    lock is free again, and the only difference in the reference counts is the new reference to the
    inode that is returned. *)
Theorem namex_resolves s V X I E r path par name cwd :
  fs_inv sb s V X I E ∅ ∅ → two_free r → shape s r None → tree_ok sb V I → live sb I ROOTINO →
  entry_of s (fs_cwd s) cwd → 0 < r (fs_cwd s) → live sb I cwd → (size X ≤ tx_cap)%nat →
  0 ∈ path → (DIRSIZ ≤ length name)%nat →
  let from := if bool_decide (head path = Some SLASH) then ROOTINO else cwd in
  ∃ s' res name', namex devsw path par name s = Ok (res, name') s' ∧
    fs_inv sb s' V X I E ∅ ∅ ∧ found r (resolve V I par from (elems path)) res s' ∧
    ∀ e, list.last (elems path) = Some e → is_Some res → cut DIRSIZ name' = cut DIRSIZ e.
Proof.
  intros Hi H2 Hs Ht Hroot Hcwd Hrc Hlc HX H0 Hnm from.
  assert (wp (namex devsw path par name) (namex_post V X I E r par from path) s)
    as ([res name']&s'&Hr&?&?&?)%wp_run; [by apply namex_run|by exists s', res, name'].
Qed.
End Walk.

(** * The theorem at the example *)

Section ExampleWalk.
(** The example when nobody holds a lock. *)
Definition idle_example : fsst MemTxn.mst := put_i 1 (Example.entry 2 1 false (Example.file 1)) (Example.state 1).

Lemma idle_example_inv : fs_inv Example.sb idle_example (Example.disk 1) ∅ (Example.inodes 1) ∅ ∅ ∅.
Proof.
  eapply (fs_inv_keep _ _ _ _ _ _ _ 1 (Example.entry 2 1 true (Example.file 1))); [apply Example.inv; by right|done..].
Qed.

Definition example_refs (jp : nat) : Z := if (jp <? 2)%nat then 1 else 0.

Lemma idle_example_shape : shape idle_example example_refs None.
Proof.
  intros [|[|jp]] j; [by intros [= <-]..|]. intros Hj.
  assert (replicate (NINODE - 2) zero_inode !! jp = Some j) as [-> _]%lookup_replicate by exact Hj. done.
Qed.

Lemma example_tree : tree_ok Example.sb (Example.disk 1) (Example.inodes 1).
Proof.
  assert (∀ n, di_type (Example.inodes 1 n) = T_DIR → n = 1) as H1.
  { intros n. unfold Example.inodes. destruct (Z.eqb_spec n 1); [done|]. by destruct (n =? 2). }
  split; intros n; [by intros _ ->%H1|]. intros d _ ->%H1 Hd. revert d Hd.
  apply (proj1 (list.Forall_forall (λ d, de_inum d ≠ 0 → live Example.sb (Example.inodes 1) (de_inum d)) _)).
  assert (dirents (Example.disk 1) (Example.inodes 1 1) =
    [Dirent 1 (Example.name [46]); Dirent 1 (Example.name [46; 46]); Dirent 2 (Example.name [102])]) as -> by (vm_compute; reflexivity).
  repeat apply Forall_cons; [..|apply Forall_nil]; intros _; by repeat split.
Qed.

Lemma example_two_free : two_free example_refs.
Proof.
  split; [intros jp; unfold example_refs; case_match; lia|]. exists 2%nat, 3%nat. split_and!; try done; vm_compute; lia.
Qed.

(** "/f" leads to inode 2. *)
Lemma namex_resolves_witness :
  ∃ s' res name', namex nodev [47; 102; 0] false (replicate 14 0) idle_example = Ok (res, name') s' ∧
    found example_refs (Some 2) res s'.
Proof.
  destruct (namex_resolves Example.sb nodev idle_example (Example.disk 1) ∅ (Example.inodes 1) ∅ example_refs
    [47; 102; 0] false (replicate 14 0) 1) as (s'&res&name'&Hr&_&Hf&_).
  - apply idle_example_inv.
  - apply example_two_free.
  - apply idle_example_shape.
  - apply example_tree.
  - repeat constructor; done.
  - by eexists.
  - done.
  - repeat constructor; done.
  - vm_compute. lia.
  - apply list_elem_of_further, list_elem_of_further, list_elem_of_here.
  - rewrite length_replicate. vm_compute. lia.
  - exists s', res, name'. split; [exact Hr|]. revert Hf.
    assert (resolve (Example.disk 1) (Example.inodes 1) false
      (if bool_decide (head [47; 102; 0] = Some SLASH) then ROOTINO else 1) (elems [47; 102; 0]) = Some 2) as ->
      by (vm_compute; reflexivity).
    exact id.
Defined.
End ExampleWalk.
