(* ===== verification/Mkfs.v ===== *)
(** The builder of file system images (src/mkfs.c).

    The image is the list of its sectors.  The first part translates the
    program; the files it copies are given by their names and by what the calls of
    read return.  Then: the image that it writes is a well-formed file system with
    an empty log, whose root directory names the files, in order, and whose files have
    the contents that were read. *)

From stdpp Require Import functions.
From S2P Require Import Prelude Bytes Layout Kstring Txn Fs FsDisk FsAlloc FsInode FsFile FsDir.

(** * The program *)

Definition NINODES : Z := 200.
Definition nbitmap : Z := FSSIZE / (BSIZE * 8) + 1.
Definition ninodeblocks : Z := NINODES / IPB + 1.
Definition nlog : Z := LOGSIZE.
Definition nmeta : Z := 2 + nlog + ninodeblocks + nbitmap.
Definition nblocks : Z := FSSIZE - nmeta.

(** The bytes of [y] are stored one by one and read back as a number, on a
    little-endian host. *)
Definition xshort (x : Z) : Z := le_dec [u8 x; u8 (Z.shiftr x 8)].
Definition xint (x : Z) : Z := le_dec [u8 x; u8 (Z.shiftr x 8); u8 (Z.shiftr x 16); u8 (Z.shiftr x 24)].

(** The global sb once main has set it. *)
Definition sb : superblock :=
  Superblock (xint FSSIZE) (xint nblocks) (xint NINODES) (xint nlog) (xint 2) (xint (2 + nlog)) (xint (2 + nlog + ninodeblocks)).

Record mkst := Mkst { mk_img : list (list Z); mk_freeinode : Z; mk_freeblock : Z }.
Definition set_mk_img v s := Mkst v (mk_freeinode s) (mk_freeblock s).
Definition set_mk_freeinode v s := Mkst (mk_img s) v (mk_freeblock s).
Definition set_mk_freeblock v s := Mkst (mk_img s) (mk_freeinode s) v.

(** A write past the end of a file fills the gap with zeroes. *)
Definition put_sector (sec : nat) (buf : list Z) (img : list (list Z)) : list (list Z) :=
  if decide (sec < length img)%nat then <[sec := buf]> img
  else img ++ replicate (sec - length img) zero_block ++ [buf].

Definition wsect (sec : Z) (buf : list Z) : M mkst unit :=
  modify (λ s, set_mk_img (put_sector (Z.to_nat sec) buf (mk_img s)) s).

(** A read past the end of the image ends the program. *)
Definition rsect (sec : Z) : M mkst (list Z) :=
  d ← gets (λ s, mk_img s !! Z.to_nat sec);
  match d with
  | Some d => mret d
  | None => panic "read"
  end.

Definition winode (inum : Z) (ip : dinode) : M mkst unit :=
  let bn := IBLOCK inum sb in
  buf ← rsect bn;
  wsect bn (dinode_to_bytes (inode_off inum) ip buf).

Definition rinode (inum : Z) : M mkst dinode :=
  let bn := IBLOCK inum sb in
  buf ← rsect bn;
  mret (dinode_of_bytes (inode_off inum) buf).

Definition ialloc (type : Z) : M mkst Z :=
  inum ← gets mk_freeinode;
  modify (set_mk_freeinode (u32 (inum + 1)));;
  winode inum (Dinode (s16 (xshort type)) 0 0 (s16 (xshort 1)) (xint 0) (replicate (NDIRECT + 1) 0));;
  mret inum.

Fixpoint set_bits (cnt : nat) (i : Z) (buf : list Z) : list Z :=
  match cnt with
  | O => buf
  | S cnt =>
      let j := Z.to_nat (i / 8) in
      set_bits cnt (i + 1) (<[j := u8 (Z.lor (buf !!! j) (Z.shiftl 1 (i mod 8)))]> buf)
  end.

Definition balloc (used : Z) : M mkst unit :=
  if negb (used <? BSIZE * 8) then panic "used < BSIZE*8" else
  wsect (sb_bmapstart sb) (set_bits (Z.to_nat used) 0 zero_block).

(** freeblock++ *)
Definition newblock : M mkst Z :=
  b ← gets mk_freeblock;
  modify (set_mk_freeblock (u32 (b + 1)));;
  mret b.

(** din.addrs[k], which is allocated if it is 0 *)
Definition iappend_addr (din : dinode) (k : nat) : M mkst dinode :=
  if xint (di_addrs din !!! k) =? 0 then
    b ← newblock;
    mret (set_di_addrs (<[k := xint b]> (di_addrs din)) din)
  else mret din.

(** An entry of the indirect block, allocated if it is 0. *)
Definition indirect_entry (ind : Z) (o : nat) : M mkst Z :=
  indirect ← rsect ind;
  indirect ← (if get_u32 o indirect =? 0 then
                b ← newblock;
                let indirect := put_u32 o (xint b) indirect in
                wsect ind indirect;;
                mret indirect
              else mret indirect);
  mret (xint (get_u32 o indirect)).

(** The block [x] of the file that holds the bytes of [fbn]. *)
Definition iappend_block (din : dinode) (fbn : Z) : M mkst (dinode * Z) :=
  if fbn <? Z.of_nat NDIRECT then
    din ← iappend_addr din (Z.to_nat fbn);
    mret (din, xint (di_addrs din !!! Z.to_nat fbn))
  else
    din ← iappend_addr din NDIRECT;
    x ← indirect_entry (xint (di_addrs din !!! NDIRECT)) (Z.to_nat (4 * (fbn - Z.of_nat NDIRECT)));
    mret (din, x).

Fixpoint iappend_loop (fuel : nat) (din : dinode) (off : Z) (p : list Z) : M mkst (dinode * Z) :=
  let n := Z.of_nat (length p) in
  if negb (0 <? n) then mret (din, off) else
  match fuel with
  | O => out_of_fuel
  | S fuel =>
      let fbn := off / BSIZE in
      if negb (fbn <? MAXFILE) then panic "fbn < MAXFILE" else
      dx ← iappend_block din fbn;
      let n1 := Z.min n (u32 ((fbn + 1) * BSIZE - off)) in
      buf ← rsect dx.2;
      wsect dx.2 (splice (Z.to_nat (off - fbn * BSIZE)) (take (Z.to_nat n1) p) buf);;
      iappend_loop fuel dx.1 (u32 (off + n1)) (drop (Z.to_nat n1) p)
  end.

(** Every round appends at least one byte. *)
Definition iappend (inum : Z) (p : list Z) : M mkst unit :=
  din ← rinode inum;
  let off := xint (di_size din) in
  do ← iappend_loop (length p) din off p;
  winode inum (set_di_size (xint do.2) do.1).

(** A file given to mkfs: its name, and what read returns until it returns nothing, or
    None when the file cannot be opened. *)
Record input := Input { in_name : list Z; in_reads : option (list (list Z)) }.

Fixpoint copy_file (inum : Z) (reads : list (list Z)) : M mkst unit :=
  match reads with
  | [] => mret tt
  | buf :: reads => iappend inum buf;; copy_file inum reads
  end.

(** The name without its leading _ *)
Definition skip_underscore (name : list Z) : list Z :=
  match name with
  | c :: rest => if c =? 95 then rest else name
  | [] => name
  end.

(** iappend of the entry: the entry is cleared, and strcpy and strncpy fill in the name. *)
Definition append_dirent (rootino inum : Z) (name : list Z) : M mkst unit :=
  iappend rootino (dirent_to_bytes (Dirent (xshort inum) (stored name))).

Definition add_file (rootino : Z) (f : input) : M mkst unit :=
  if bool_decide (47 ∈ in_name f) then panic "index(argv[i], '/') == 0" else
  match in_reads f with
  | None => panic "open"
  | Some reads =>
      inum ← ialloc T_FILE;
      append_dirent rootino inum (skip_underscore (in_name f));;
      copy_file inum reads
  end.

Fixpoint add_files (rootino : Z) (fs : list input) : M mkst unit :=
  match fs with
  | [] => mret tt
  | f :: fs => add_file rootino f;; add_files rootino fs
  end.

Fixpoint wzeroes (cnt : nat) (i : Z) : M mkst unit :=
  match cnt with
  | O => mret tt
  | S cnt => wsect i zero_block;; wzeroes cnt (i + 1)
  end.

(** The bytes of sb, at the start of a block of zeroes. *)
Definition sb_block : list Z :=
  put_u32s 0 [sb_size sb; sb_nblocks sb; sb_ninodes sb; sb_nlog sb; sb_logstart sb; sb_inodestart sb; sb_bmapstart sb] zero_block.

(** The root directory ends with its block. *)
Definition fix_size (rootino : Z) : M mkst unit :=
  din ← rinode rootino;
  let off := xint (di_size din) in
  let off := u32 ((off / BSIZE + 1) * BSIZE) in
  winode rootino (set_di_size (xint off) din).

(** The arguments after the image, once the image is open and empty. *)
Definition main (fs : list input) : M mkst unit :=
  modify (set_mk_freeblock nmeta);;
  wzeroes (Z.to_nat FSSIZE) 0;;
  wsect 1 sb_block;;
  rootino ← ialloc T_DIR;
  if negb (rootino =? ROOTINO) then panic "rootino == ROOTINO" else
  append_dirent rootino rootino [46];;
  append_dirent rootino rootino [46; 46];;
  add_files rootino fs;;
  fix_size rootino;;
  b ← gets mk_freeblock;
  balloc b.

Definition start : mkst := Mkst [] 1 0.

(** * Numbers and the layout *)

Lemma xint_small x : 0 ≤ x < 2 ^ 32 → xint x = x.
Proof.
  intros Hx. unfold xint. simpl. unfold wrap. rewrite !Z.shiftr_div_pow2 by lia. change (2 ^ 8) with 256.
  change (2 ^ 16) with (256 * 256). change (2 ^ 24) with (256 * 256 * 256). rewrite <- !Z.div_div by lia.
  pose proof (Z.div_mod x 256 ltac:(lia)). pose proof (Z.div_mod (x / 256) 256 ltac:(lia)).
  pose proof (Z.div_mod (x / 256 / 256) 256 ltac:(lia)).
  assert (0 ≤ x / 256 / 256 / 256 < 256).
  { rewrite !Z.div_div by lia. split; [apply Z.div_pos; lia|]. apply Z.div_lt_upper_bound; lia. }
  rewrite (Z.mod_small (x / 256 / 256 / 256)) by lia. lia.
Qed.

Lemma xshort_small x : 0 ≤ x < 2 ^ 16 → xshort x = x.
Proof.
  intros Hx. unfold xshort. simpl. unfold wrap. rewrite !Z.shiftr_div_pow2 by lia. change (2 ^ 8) with 256.
  pose proof (Z.div_mod x 256 ltac:(lia)).
  assert (0 ≤ x / 256 < 256) by (split; [apply Z.div_pos; lia|]; apply Z.div_lt_upper_bound; lia).
  rewrite (Z.mod_small (x / 256)) by lia. lia.
Qed.

Lemma sb_eq : sb = Superblock 1000 941 200 30 2 32 58.
Proof. vm_compute. reflexivity. Qed.

Lemma sb_block_ok : block sb_block ∧ sb_of_bytes sb_block = sb.
Proof. split; [apply (bool_decide_unpack _)|]; vm_compute; done. Qed.

(** * The free map *)

Lemma zero_block_ok : block zero_block.
Proof. apply (bool_decide_unpack _). vm_compute. exact I. Qed.

Lemma set_bits_step i buf :
  block buf → 0 ≤ i →
  <[Z.to_nat (i / 8) := u8 (Z.lor (buf !!! Z.to_nat (i / 8)) (Z.shiftl 1 (i mod 8)))]> buf = set_bit i buf.
Proof.
  intros Hb Hi. unfold set_bit. fold (bit_mask i).
  pose proof (set_bit_block i buf Hb) as [_ Hs]. unfold set_bit in Hs.
  destruct (decide (Z.to_nat (i / 8) < length buf)%nat) as [Hlt|Hge]; [|by rewrite !list_insert_ge by lia].
  f_equal. eapply Forall_lookup_1 in Hs; [|by apply list_lookup_insert_eq]. apply wrap_small. exact Hs.
Qed.

Lemma set_bits_block n i buf : block buf → 0 ≤ i → block (set_bits n i buf).
Proof.
  revert i buf. induction n as [|n IH]; intros i buf Hb Hi; [done|]. cbn [set_bits].
  rewrite set_bits_step by done. apply IH; [by apply set_bit_block|lia].
Qed.

Lemma set_bits_snoc n i buf :
  block buf → 0 ≤ i → set_bits (S n) i buf = set_bit (i + Z.of_nat n) (set_bits n i buf).
Proof.
  revert i buf. induction n as [|n IH]; intros i buf Hb Hi.
  - cbn [set_bits]. rewrite set_bits_step by done. by rewrite Z.add_0_r.
  - change (set_bits (S (S n)) i buf) with
      (set_bits (S n) (i + 1) (<[Z.to_nat (i / 8) := u8 (Z.lor (buf !!! Z.to_nat (i / 8)) (Z.shiftl 1 (i mod 8)))]> buf)).
    rewrite IH; [|rewrite set_bits_step by done; by apply set_bit_block|lia].
    replace (i + 1 + Z.of_nat n) with (i + Z.of_nat (S n)) by lia. done.
Qed.

(** The block of the map whose first [n] bits are set. *)
Definition bits (n : Z) : list Z := set_bits (Z.to_nat n) 0 zero_block.

Lemma bits_block n : block (bits n).
Proof. by apply set_bits_block; [apply zero_block_ok|]. Qed.

Lemma bits_succ n : 0 ≤ n → bits (n + 1) = set_bit n (bits n).
Proof.
  intros Hn. unfold bits. replace (Z.to_nat (n + 1)) with (S (Z.to_nat n)) by lia.
  rewrite set_bits_snoc by (done || apply zero_block_ok). by rewrite Z.add_0_l, Z2Nat.id.
Qed.

Lemma bits_free n bi : 0 ≤ n ≤ BPB → 0 ≤ bi < BPB → bit_free bi (bits n) = negb (bi <? n).
Proof.
  intros [Hn Hle] Hbi. revert Hle. pattern n. apply natlike_ind; [| |done]; clear n Hn.
  - intros _. rewrite bit_free_testbit. unfold bits. simpl.
    rewrite (proj2 (Z.ltb_ge _ _)) by lia. unfold zero_block.
    rewrite lookup_total_replicate_2 by (pose proof (bit_index bi zero_block zero_block_ok Hbi) as Hl; exact Hl).
    by rewrite Z.bits_0.
  - intros n Hn IH Hle. rewrite <- Z.add_1_r in *. rewrite bits_succ by done. rewrite set_bit_free; [|apply bits_block|lia|lia].
    case_decide as E; [subst; by rewrite (proj2 (Z.ltb_lt _ _)) by lia|].
    rewrite IH by lia. destruct (Z.ltb_spec bi n), (Z.ltb_spec bi (n + 1)); try done; lia.
Qed.

(** * The image while it is built

    The free map is written last.  The [view] is the image with the map that would be
    written now; it is a well-formed file system from the first inode on. *)

Definition view (s : mkst) : list (list Z) := <[58%nat := bits (mk_freeblock s)]> (mk_img s).

Record build (s : mkst) (I : Z → dinode) (E : gset Z) : Prop := {
  b_len : length (mk_img s) = 1000%nat;
  b_blocks : Forall block (mk_img s);
  b_sb : mk_img s !!! 1%nat = sb_block;
  b_log : mk_img s !!! 2%nat = zero_block;
  b_free : 59 ≤ mk_freeblock s ≤ 1000;
  b_fresh b : mk_freeblock s ≤ b < 1000 → mk_img s !!! Z.to_nat b = zero_block;
  b_ok : fs_ok (view s) sb I E ∅;
}.

Section Build.
Context {St : Type} `{!TxnIO St, !TxnSpec St} (Hhome : ∀ n, 32 ≤ n < 1000 → tx_home 1000 n).
Implicit Types (s : mkst) (I : Z → dinode) (E : gset Z).

Lemma view_other s k : k ≠ 58%nat → view s !!! k = mk_img s !!! k.
Proof. intros. unfold view. by rewrite list_lookup_total_insert_ne. Qed.

Lemma view_geom s I E : build s I E → geom sb (view s).
Proof using Hhome.
  intros [Hl _ Hsb _ _ _ _]. assert (length (view s) = 1000%nat) as Hlv by (unfold view; by rewrite length_insert).
  split; rewrite ?Hlv; [|done..| |].
  - rewrite view_other, Hsb by done. apply sb_block_ok.
  - done.
  - exact Hhome.
Qed.

Lemma view_blocks s I E : build s I E → Forall block (view s).
Proof. intros [_ Hb _ _ _ _ _]. apply Forall_insert; [done|apply bits_block]. Qed.

Lemma view_length s I E : build s I E → length (view s) = 1000%nat.
Proof. intros Hb. unfold view. rewrite length_insert. apply Hb. Qed.

Lemma map_used s b :
  length (mk_img s) = 1000%nat → 59 ≤ mk_freeblock s ≤ 1000 → 0 ≤ b < 1000 → used (view s) sb b = (b <? mk_freeblock s).
Proof.
  intros Hl Hf Hr. unfold used. assert (BBLOCK b sb = 58) as ->.
  { unfold BBLOCK. rewrite Z.div_small by (unfold BPB, BSIZE; lia). done. }
  rewrite Z.mod_small by (unfold BPB, BSIZE; lia). unfold view.
  rewrite list_lookup_total_insert_eq by lia. rewrite bits_free by (unfold BPB, BSIZE; lia). apply negb_involutive.
Qed.

Lemma view_used s I E b : build s I E → 0 ≤ b < 1000 → used (view s) sb b = (b <? mk_freeblock s).
Proof. intros []. by apply map_used. Qed.

(** Stores of sectors other than the map. *)
Lemma wsect_run s sec d (Q : unit → mkst → Prop) :
  length (mk_img s) = 1000%nat → 0 ≤ sec < 1000 → Q tt (set_mk_img (<[Z.to_nat sec := d]> (mk_img s)) s) → wp (wsect sec d) Q s.
Proof.
  intros Hl Hs HQ. apply wp_modify. unfold put_sector. by rewrite decide_True by lia.
Qed.

Lemma rsect_run s sec (Q : list Z → mkst → Prop) :
  length (mk_img s) = 1000%nat → 0 ≤ sec < 1000 → Q (mk_img s !!! Z.to_nat sec) s → wp (rsect sec) Q s.
Proof.
  intros Hl Hs HQ. unfold rsect. apply wp_bind, wp_gets.
  rewrite list_lookup_lookup_total_lt by lia. by apply wp_ret.
Qed.

Lemma view_store s n d : n ≠ 58%nat → view (set_mk_img (<[n := d]> (mk_img s)) s) = <[n := d]> (view s).
Proof. intros Hn. unfold view. simpl. by rewrite list_insert_insert_ne. Qed.

Lemma build_store s I E I' E' n d :
  build s I E → 59 ≤ n < mk_freeblock s ∨ 32 ≤ n < 58 → block d → fs_ok (<[Z.to_nat n := d]> (view s)) sb I' E' ∅ →
  build (set_mk_img (<[Z.to_nat n := d]> (mk_img s)) s) I' E'.
Proof.
  intros [Hl Hb Hsb Hlog Hf Hfr Hok] Hn Hd Hok'. split; simpl; try done.
  - by rewrite length_insert.
  - by apply Forall_insert.
  - by rewrite list_lookup_total_insert_ne by lia.
  - by rewrite list_lookup_total_insert_ne by lia.
  - intros b Hb'. rewrite list_lookup_total_insert_ne by lia. by apply Hfr.
  - by rewrite view_store by lia.
Qed.

(** ** A new block *)

Lemma newblock_run s I (Q : Z → mkst → Prop) :
  build s I ∅ → mk_freeblock s < 1000 →
  (∀ b s', b = mk_freeblock s → s' = set_mk_freeblock (b + 1) s → build s' I {[b]} → frame sb (view s) I (view s') I →
     (∀ j p, inum_ok sb j → (p < NPTR)%nat → ptr (view s') (di_addrs (I j)) p = ptr (view s) (di_addrs (I j)) p) →
     view s' !!! Z.to_nat b = zero_block → Q b s') →
  wp newblock Q s.
Proof using Hhome.
  intros Hb Hlt HQ. pose proof (b_free _ _ _ Hb) as Hf. unfold newblock. apply wp_bind, wp_gets, wp_bind, wp_modify, wp_ret.
  rewrite wrap_small by lia. set (b := mk_freeblock s) in *. set (s' := set_mk_freeblock (b + 1) s).
  pose proof (view_geom _ _ _ Hb) as Hg. pose proof (view_blocks _ _ _ Hb) as HV.
  assert (used (view s) sb b = false) as Hu by (rewrite (view_used _ _ _ _ Hb) by lia; apply Z.ltb_irrefl).
  assert (0 ≤ b < sb_size sb) as Hbr by (change (sb_size sb) with 1000; lia).
  destruct (fs_ok_alloc sb _ _ _ _ b Hg HV (b_ok _ _ _ Hb) Hbr Hu) as (Hok&_&_&_).
  destruct (alloc_frame sb _ _ _ _ b Hg HV (b_ok _ _ _ Hb) Hbr Hu) as (Hfr&_&Hz&_&Hp&_).
  assert (<[Z.to_nat b := zero_block]> (mark sb (view s) b) = view s') as Ev.
  { unfold mark. assert (BBLOCK b sb = 58) as ->.
    { unfold BBLOCK. rewrite Z.div_small by (unfold BPB, BSIZE; lia). done. }
    rewrite Z.mod_small by (unfold BPB, BSIZE; lia). unfold view at 1 2. change (Z.to_nat 58) with 58%nat.
    rewrite list_lookup_total_insert_eq by (rewrite (b_len _ _ _ Hb); lia).
    rewrite list_insert_insert_eq. fold b. rewrite <- bits_succ by lia. unfold view, s'. simpl.
    apply list_insert_id. rewrite list_lookup_insert_ne by lia.
    rewrite list_lookup_lookup_total_lt by (rewrite (b_len _ _ _ Hb); lia). f_equal. apply (b_fresh _ _ _ Hb). fold b. lia. }
  rewrite Ev in Hok, Hfr, Hz, Hp. rewrite union_empty_r_L in Hok. apply HQ; try done.
  destruct Hb as [Hl Hbl Hsb Hlog _ Hfresh _]. split; simpl; try done; [lia|]. intros c Hc. apply Hfresh. fold b. lia.
Qed.

(** ** The block of an appended byte *)

Lemma addr_u32 s I E n k : build s I E → inum_ok sb n → (k ≤ NDIRECT)%nat → is_u32 (di_addrs (I n) !!! k).
Proof.
  intros Hb Hn Hk. destruct (fo_wf _ _ _ _ _ (b_ok _ _ _ Hb) n Hn). apply Forall_lookup_total_1; [done|lia].
Qed.

(** What the allocation of blocks for inode [n] changes. *)
Record grew (n : Z) s I s' I' : Prop := {
  gr_build : build s' I' ∅;
  gr_frame : frame sb (view s) I (view s') I';
  gr_other j : j ≠ n → I' j = I j;
  gr_addrs : ∃ a, I' n = set_di_addrs a (I n);
  gr_inode : mk_freeinode s' = mk_freeinode s;
  gr_ptr j q : inum_ok sb j → j ≠ n → (q < NPTR)%nat → ptr (view s') (di_addrs (I' j)) q = ptr (view s) (di_addrs (I j)) q;
}.

Lemma grew_refl n s I : build s I ∅ → grew n s I s I.
Proof. intros Hb. split; try done. exists (di_addrs (I n)). by destruct (I n). Qed.

Lemma grew_trans n s I s1 I1 s2 I2 : grew n s I s1 I1 → grew n s1 I1 s2 I2 → grew n s I s2 I2.
Proof.
  intros [_ F1 O1 [a1 A1] N1 P1] [B2 F2 O2 [a2 A2] N2 P2]. split; [done|by eapply frame_trans| | |congruence|].
  - intros j Hj. by rewrite O2, O1.
  - exists a2. by rewrite A2, A1.
  - intros j q Hj Hne Hq. by rewrite P2, P1.
Qed.

Definition cost0 (x : Z) : Z := if x =? 0 then 1 else 0.

Lemma iappend_addr_run s I n p (Q : dinode → mkst → Prop) :
  build s I ∅ → inum_ok sb n → (p ≤ NDIRECT)%nat → mk_freeblock s + cost0 (di_addrs (I n) !!! p) ≤ 1000 →
  (∀ s' I', grew n s I s' I' → di_addrs (I' n) !!! p ≠ 0 →
     mk_freeblock s' = mk_freeblock s + cost0 (di_addrs (I n) !!! p) →
     (∀ q, (q < NPTR)%nat → q ≠ p → ptr (view s') (di_addrs (I' n)) q = ptr (view s) (di_addrs (I n)) q) →
     (di_addrs (I n) !!! p = 0 → view s' !!! Z.to_nat (di_addrs (I' n) !!! p) = zero_block) → Q (I' n) s') →
  wp (iappend_addr (I n) p) Q s.
Proof using Hhome.
  intros Hb Hn Hp Hf HQ. pose proof (b_free _ _ _ Hb) as Hfb. unfold iappend_addr.
  rewrite xint_small by (by eapply addr_u32). unfold cost0 in *.
  destruct (Z.eqb_spec (di_addrs (I n) !!! p) 0) as [Ez|Hnz].
  - apply wp_bind, (newblock_run s I _ Hb); [lia|]. intros b s' Eb Es' Hb' Hfr Hptr Hz. apply wp_ret.
    rewrite xint_small by lia.
    destruct (link_ok sb (view s') I {[b]} ∅ n p b (view_geom _ _ _ Hb') (b_ok _ _ _ Hb') Hn Hp Ez) as (Hok&Hfr'&Hq);
      [set_solver|done|].
    replace ({[b]} ∖ {[b]}) with (∅ : gset Z) in Hok by set_solver.
    replace (set_di_addrs (<[p := b]> (di_addrs (I n))) (I n)) with (link I n p b n) by (unfold link; by rewrite fn_lookup_insert).
    apply HQ.
    + split.
      * destruct Hb'. by split.
      * by eapply frame_trans.
      * intros j Hj. by apply fn_lookup_insert_ne.
      * eexists. unfold link. by rewrite fn_lookup_insert.
      * by rewrite Es'.
      * intros j q Hj Hne Hlt. unfold link. rewrite fn_lookup_insert_ne by done. by apply Hptr.
    + pose proof (Hq p) as Hqp. rewrite ptr_direct in Hqp by done. rewrite Hqp, decide_True by done. lia.
    + rewrite Es'. simpl. lia.
    + intros q Hlt Hne. rewrite Hq, decide_False by done. by apply Hptr.
    + intros _. pose proof (Hq p) as Hqp. rewrite ptr_direct in Hqp by done. by rewrite Hqp, decide_True.
  - apply wp_ret, HQ; [by apply grew_refl|done|lia|done|done].
Qed.

(** The numbers of blocks that a file of [off] bytes has, with the indirect one. *)
Definition nblks (off : Z) : Z :=
  let k := (off + BSIZE - 1) / BSIZE in if Z.of_nat NDIRECT <? k then k + 1 else k.

(** A file has the blocks of its first [off] bytes and no others, and the rest of its
    last block is zero. *)
Record tight (V : list (list Z)) (a : list Z) (off : Z) : Prop := {
  ti_block k : Z.of_nat k < MAXFILE → fptr V a k ≠ 0 ↔ Z.of_nat k * BSIZE < off;
  ti_ind : a !!! NDIRECT ≠ 0 ↔ Z.of_nat NDIRECT * BSIZE < off;
  ti_tail o : off ≤ o < MAXFILE * BSIZE → fptr V a (Z.to_nat (o / BSIZE)) ≠ 0 → fbyte V a o = 0;
}.

(** Blocks of files are data blocks that were allocated. *)
Lemma ptr_range s I E n p :
  build s I E → inum_ok sb n → (p < NPTR)%nat → ptr (view s) (di_addrs (I n)) p ≠ 0 →
  59 ≤ ptr (view s) (di_addrs (I n)) p < mk_freeblock s.
Proof using Hhome.
  intros Hb Hn Hp Hne. pose proof (fo_own _ _ _ _ _ (b_ok _ _ _ Hb) n p Hn Hp Hne) as Hr.
  change (data_start sb) with 59 in Hr. change (sb_size sb) with 1000 in Hr.
  pose proof (fs_owned sb _ _ _ _ n p (view_geom _ _ _ Hb) (b_ok _ _ _ Hb) Hn Hp Hne) as Hu.
  rewrite (view_used _ _ _ _ Hb) in Hu by lia. apply Z.ltb_lt in Hu. lia.
Qed.

Lemma ind_range s I E n :
  build s I E → inum_ok sb n → di_addrs (I n) !!! NDIRECT ≠ 0 → 59 ≤ di_addrs (I n) !!! NDIRECT < mk_freeblock s.
Proof using Hhome.
  intros Hb Hn Hne. pose proof (ptr_range s I E n NDIRECT Hb Hn NDIRECT_ptr) as Hr.
  rewrite ptr_direct in Hr by lia. by apply Hr.
Qed.

Lemma get_u32_range o d : block d → 0 ≤ get_u32 o d < 2 ^ 32.
Proof.
  intros [_ Hb]. pose proof (le_dec_range (sub o 4 d) (sub_forall _ _ _ _ Hb)) as Hr.
  unfold get_le. assert (length (sub o 4 d) ≤ 4)%nat as Hl by (unfold sub; rewrite length_take; lia).
  assert (256 ^ Z.of_nat (length (sub o 4 d)) ≤ 256 ^ 4) by (apply Z.pow_le_mono_r; lia). lia.
Qed.

Lemma indirect_entry_run s I n j (Q : Z → mkst → Prop) :
  build s I ∅ → inum_ok sb n → (j < NINDIRECT)%nat → di_addrs (I n) !!! NDIRECT ≠ 0 →
  let p := (NDIRECT + 1 + j)%nat in
  mk_freeblock s + cost0 (ptr (view s) (di_addrs (I n)) p) ≤ 1000 →
  (∀ s', grew n s I s' I → ptr (view s') (di_addrs (I n)) p ≠ 0 →
     mk_freeblock s' = mk_freeblock s + cost0 (ptr (view s) (di_addrs (I n)) p) →
     (∀ q, (q < NPTR)%nat → q ≠ p → ptr (view s') (di_addrs (I n)) q = ptr (view s) (di_addrs (I n)) q) →
     (ptr (view s) (di_addrs (I n)) p = 0 → view s' !!! Z.to_nat (ptr (view s') (di_addrs (I n)) p) = zero_block) →
     Q (ptr (view s') (di_addrs (I n)) p) s') →
  wp (indirect_entry (di_addrs (I n) !!! NDIRECT) (4 * j)) Q s.
Proof using Hhome.
  intros Hb Hn Hj Hne p Hf HQ. set (ind := di_addrs (I n) !!! NDIRECT) in *.
  pose proof (ind_range _ _ _ _ Hb Hn Hne) as Hr. fold ind in Hr. pose proof (b_free _ _ _ Hb) as Hfb.
  assert (p < NPTR)%nat as Hp by (rewrite NPTR_eq; unfold p, NDIRECT; change NINDIRECT with 128%nat in Hj; lia).
  assert (∀ s', view s' !!! Z.to_nat ind = mk_img s' !!! Z.to_nat ind) as Hv by (intros; apply view_other; lia).
  assert (ptr (view s) (di_addrs (I n)) p = get_u32 (4 * j) (mk_img s !!! Z.to_nat ind)) as Ep.
  { rewrite ptr_indirect by (done || (unfold p; lia)). fold ind. rewrite Hv.
    by replace (p - (NDIRECT + 1))%nat with j by (unfold p; lia). }
  assert (block (mk_img s !!! Z.to_nat ind)) as Hblk by (apply block_at; [apply Hb|rewrite (b_len _ _ _ Hb); lia]).
  unfold indirect_entry. apply wp_bind, rsect_run; [apply Hb|lia|]. rewrite <- Ep. apply wp_bind.
  destruct (Z.eqb_spec (ptr (view s) (di_addrs (I n)) p) 0) as [Ez|Hnz].
  - rewrite Ez in Hf. change (cost0 0) with 1 in Hf.
    apply wp_bind, (newblock_run s I _ Hb); [lia|]. intros b s1 Eb Es1 Hb1 Hfr Hptr Hz.
    rewrite xint_small by lia.
    assert (mk_img s1 = mk_img s) as Ei by by rewrite Es1.
    destruct (entry_ok_run sb (view s1) I {[b]} ∅ n j b (view_geom _ _ _ Hb1) (view_blocks _ _ _ Hb1) (b_ok _ _ _ Hb1) Hn Hj Hne)
      as (Hok&Hfr'&_&_&Hq); [fold p; by rewrite Hptr|set_solver|].
    replace ({[b]} ∖ {[b]}) with (∅ : gset Z) in Hok by set_solver. fold ind p in Hok, Hfr', Hq.
    unfold FsInode.put_entry in Hok, Hfr', Hq. rewrite Hv, Ei in Hok, Hfr', Hq.
    apply wp_bind, wsect_run; [by rewrite Ei; apply Hb|lia|]. apply wp_ret, wp_ret.
    set (d := put_u32 (4 * j) b (mk_img s !!! Z.to_nat ind)) in *.
    set (s2 := set_mk_img (<[Z.to_nat ind := d]> (mk_img s1)) s1).
    assert (view s2 = <[Z.to_nat ind := d]> (view s1)) as Ev by (apply view_store; lia).
    rewrite <- Ev in Hok, Hfr', Hq.
    assert (get_u32 (4 * j) d = b) as Eg.
    { unfold d. rewrite get_put_le_same by (rewrite (proj1 Hblk); change NINDIRECT with 128%nat in Hj; change (Z.to_nat BSIZE) with 512%nat; lia).
      apply Z.mod_small. change (256 ^ Z.of_nat 4) with (2 ^ 32). lia. }
    rewrite Eg, xint_small by lia. pose proof (Hq p) as Hqp. rewrite decide_True in Hqp by done. rewrite <- Hqp. apply HQ.
    + split; [|by eapply frame_trans|done| |unfold s2; simpl; by rewrite Es1|].
      * rewrite Ev in Hok. apply (build_store s1 I {[b]}); [done|left; rewrite Es1; simpl; lia| |done].
        apply put_le_block; [done|]. change NINDIRECT with 128%nat in Hj. change BSIZE with 512. lia.
      * exists (di_addrs (I n)). by destruct (I n).
      * intros i q Hi Hin Hlt. rewrite <- Hptr by done. rewrite Ev. apply ptr_ext. intros Hne'.
        apply list_lookup_total_insert_ne. intros E'. apply Hin. symmetry.
        pose proof (ind_range _ _ _ _ Hb1 Hi Hne') as Hir.
        apply (fo_inj _ _ _ _ _ (b_ok _ _ _ Hb1) n NDIRECT i NDIRECT Hn NDIRECT_ptr Hi NDIRECT_ptr);
          rewrite !ptr_direct by lia; [done|]. fold ind. lia.
    + lia.
    + rewrite Ez. unfold s2. rewrite Es1. simpl. change (cost0 0) with 1. lia.
    + intros q Hlt Hqne. rewrite Hq, decide_False by done. by apply Hptr.
    + intros _. rewrite Hqp, Ev, list_lookup_total_insert_ne by lia. done.
  - apply wp_ret, wp_ret. rewrite <- Ep, xint_small by (rewrite Ep; by apply get_u32_range).
    apply HQ; [by apply grew_refl|done| |done|done]. unfold cost0. rewrite (proj2 (Z.eqb_neq _ _)) by done. lia.
Qed.

Definition block_cost V a (fbn : Z) : Z :=
  cost0 (fptr V a (Z.to_nat fbn)) + if fbn <? Z.of_nat NDIRECT then 0 else cost0 (a !!! NDIRECT).

Lemma iappend_block_run s I n fbn (Q : dinode * Z → mkst → Prop) :
  build s I ∅ → inum_ok sb n → 0 ≤ fbn < MAXFILE → mk_freeblock s + block_cost (view s) (di_addrs (I n)) fbn ≤ 1000 →
  (∀ s' I', grew n s I s' I' → fptr (view s') (di_addrs (I' n)) (Z.to_nat fbn) ≠ 0 →
     mk_freeblock s' = mk_freeblock s + block_cost (view s) (di_addrs (I n)) fbn →
     (∀ k, Z.of_nat k < MAXFILE → k ≠ Z.to_nat fbn →
        fptr (view s') (di_addrs (I' n)) k = fptr (view s) (di_addrs (I n)) k) →
     (di_addrs (I' n) !!! NDIRECT ≠ 0 ↔ di_addrs (I n) !!! NDIRECT ≠ 0 ∨ Z.of_nat NDIRECT ≤ fbn) →
     (fptr (view s) (di_addrs (I n)) (Z.to_nat fbn) = 0 →
        view s' !!! Z.to_nat (fptr (view s') (di_addrs (I' n)) (Z.to_nat fbn)) = zero_block) →
     Q (I' n, fptr (view s') (di_addrs (I' n)) (Z.to_nat fbn)) s') →
  wp (iappend_block (I n) fbn) Q s.
Proof using Hhome.
  intros Hb Hn Hr Hf HQ. unfold iappend_block, block_cost in *. change MAXFILE with 140 in *.
  destruct (Z.ltb_spec fbn (Z.of_nat NDIRECT)) as [Hd|Hd].
  - assert (slot (Z.to_nat fbn) = Z.to_nat fbn) as Es by (apply slot_direct; lia).
    assert (∀ V a, fptr V a (Z.to_nat fbn) = a !!! Z.to_nat fbn) as Ef by (intros; unfold fptr; rewrite Es; apply ptr_direct; lia).
    rewrite Ef in *. apply wp_bind, (iappend_addr_run s I n (Z.to_nat fbn)); [done|done|lia|lia|].
    intros s' I' Hg Hne Hfb Hq Hz. apply wp_ret. rewrite xint_small by (eapply addr_u32; [apply Hg|done|lia]).
    rewrite <- (Ef (view s')). apply HQ; [done|by rewrite Ef|lia| | |by rewrite !Ef].
    + intros k Hk Hkn. unfold fptr. apply Hq; [by apply slot_lt|]. rewrite <- Es. intros E. by apply slot_inj in E.
    + pose proof (Hq NDIRECT NDIRECT_ptr ltac:(lia)) as Hi. rewrite !ptr_direct in Hi by lia. rewrite Hi. intuition lia.
  - assert (slot (Z.to_nat fbn) = NDIRECT + 1 + (Z.to_nat fbn - NDIRECT))%nat as Es by (apply slot_indirect; lia).
    assert (∀ x, 0 ≤ cost0 x) as Hc by (intros x; unfold cost0; case_match; lia).
    pose proof (Hc (fptr (view s) (di_addrs (I n)) (Z.to_nat fbn))).
    apply wp_bind, (iappend_addr_run s I n NDIRECT); [done|done|lia|lia|].
    intros s1 I1 Hg1 Hne1 Hfb1 Hq1 _. pose proof (gr_build _ _ _ _ _ Hg1) as Hb1.
    assert (fptr (view s1) (di_addrs (I1 n)) (Z.to_nat fbn) = fptr (view s) (di_addrs (I n)) (Z.to_nat fbn)) as Ef.
    { unfold fptr. apply Hq1; [apply slot_lt; change MAXFILE with 140; lia|]. apply slot_ne. }
    assert (ptr (view s1) (di_addrs (I1 n)) (NDIRECT + 1 + (Z.to_nat fbn - NDIRECT)) = fptr (view s) (di_addrs (I n)) (Z.to_nat fbn)) as Ep
      by (rewrite <- Ef; unfold fptr; by rewrite Es).
    rewrite xint_small by (eapply addr_u32; [done|done|lia]). apply wp_bind.
    replace (Z.to_nat (4 * (fbn - Z.of_nat NDIRECT))) with (4 * (Z.to_nat fbn - NDIRECT))%nat by lia.
    apply (indirect_entry_run s1 I1 n); [done|done|change NINDIRECT with 128%nat; unfold NDIRECT in *; lia|done| |].
    { rewrite Ep. lia. }
    rewrite Ep. intros s2 Hg2 Hne2 Hfb2 Hq2 Hz2. apply wp_ret. rewrite <- Es in Hne2, Hq2, Hz2 |- *.
    apply HQ; [by eapply grew_trans|done|lia| | |done].
    + intros k Hk Hkn. unfold fptr. rewrite Hq2; [apply Hq1; [by apply slot_lt|apply slot_ne]|by apply slot_lt|].
      intros E. by apply slot_inj in E.
    + tauto.
Qed.

(** ** Appending *)

Lemma nblks_step off m :
  0 ≤ off → 1 ≤ m → off mod BSIZE + m ≤ BSIZE →
  nblks (off + m) = nblks off + (if decide (off mod BSIZE = 0) then if decide (off / BSIZE = Z.of_nat NDIRECT) then 2 else 1 else 0).
Proof.
  intros Ho Hm Hle. unfold nblks. change BSIZE with 512 in *. change (Z.of_nat NDIRECT) with 12.
  pose proof (Z.div_mod off 512 ltac:(lia)) as Hdm. pose proof (Z.mod_pos_bound off 512 ltac:(lia)) as Hmb.
  assert ((off + m + 512 - 1) / 512 = off / 512 + 1) as ->.
  { symmetry. apply (Z.div_unique _ _ _ (off mod 512 + m - 1)); lia. }
  case_decide as E.
  - assert ((off + 512 - 1) / 512 = off / 512) as -> by (symmetry; apply (Z.div_unique _ _ _ 511); lia).
    case_decide; repeat case_match; lia.
  - assert ((off + 512 - 1) / 512 = off / 512 + 1) as -> by (symmetry; apply (Z.div_unique _ _ _ (off mod 512 - 1)); lia).
    lia.
Qed.

Lemma nblks_mono off off' : off ≤ off' → nblks off ≤ nblks off'.
Proof.
  intros Ho. unfold nblks. change BSIZE with 512. change (Z.of_nat NDIRECT) with 12.
  assert ((off + 512 - 1) / 512 ≤ (off' + 512 - 1) / 512) by (apply Z.div_le_mono; lia). repeat case_match; lia.
Qed.

Lemma tight_cost V a off m :
  tight V a off → 0 ≤ off < MAXFILE * BSIZE → 1 ≤ m → off mod BSIZE + m ≤ BSIZE →
  block_cost V a (off / BSIZE) = nblks (off + m) - nblks off.
Proof.
  intros [Hk Hi _] Ho Hm Hle. rewrite nblks_step by lia. unfold block_cost, cost0.
  change (MAXFILE * BSIZE) with 71680 in Ho. change BSIZE with 512 in *. change MAXFILE with 140 in *. change (Z.of_nat NDIRECT) with 12 in *.
  pose proof (Z.div_mod off 512 ltac:(lia)) as Hdm. pose proof (Z.mod_pos_bound off 512 ltac:(lia)) as Hmb.
  specialize (Hk (Z.to_nat (off / 512)) ltac:(lia)). rewrite Z2Nat.id in Hk by lia.
  destruct (Z.eqb_spec (fptr V a (Z.to_nat (off / 512))) 0) as [E1|E1], (Z.eqb_spec (a !!! NDIRECT) 0) as [E2|E2],
    (Z.ltb_spec (off / 512) 12); repeat case_decide; lia.
Qed.

(** Storing into the block of the file keeps its blocks. *)
Lemma tight_next V a V' a' off m :
  tight V a off → 0 ≤ off < MAXFILE * BSIZE → 1 ≤ m → off mod BSIZE + m ≤ BSIZE →
  fptr V' a' (Z.to_nat (off / BSIZE)) ≠ 0 →
  (∀ k, Z.of_nat k < MAXFILE → k ≠ Z.to_nat (off / BSIZE) → fptr V' a' k = fptr V a k) →
  (a' !!! NDIRECT ≠ 0 ↔ a !!! NDIRECT ≠ 0 ∨ Z.of_nat NDIRECT ≤ off / BSIZE) →
  (∀ o, off + m ≤ o < (off / BSIZE + 1) * BSIZE → fbyte V' a' o = 0) →
  tight V' a' (off + m).
Proof.
  intros [Hk Hi _] Ho Hm Hle Hne Hoth Hind Htail.
  change (MAXFILE * BSIZE) with 71680 in Ho. change BSIZE with 512 in *. change (Z.of_nat NDIRECT) with 12 in *.
  pose proof (Z.div_mod off 512 ltac:(lia)) as Hdm. pose proof (Z.mod_pos_bound off 512 ltac:(lia)) as Hmb.
  split; change BSIZE with 512; change (Z.of_nat NDIRECT) with 12.
  - intros k Hlt. destruct (decide (k = Z.to_nat (off / 512))) as [->|Hkn].
    + rewrite Z2Nat.id by lia. split; [lia|done].
    + rewrite Hoth, Hk by done. lia.
  - rewrite Hind, Hi. lia.
  - intros o Hr Hf. apply Htail. split; [lia|]. apply Z.lt_nge. intros Hge. revert Hf.
    pose proof (Z.div_mod o 512 ltac:(lia)). pose proof (Z.mod_pos_bound o 512 ltac:(lia)).
    change (MAXFILE * 512) with 71680 in Hr. change MAXFILE with 140 in *.
    assert (off / 512 + 1 ≤ o / 512) by (apply Z.div_le_lower_bound; lia).
    rewrite Hoth, Hk by lia. lia.
Qed.

Lemma tight_ext V a V' a' off :
  tight V a off → (∀ k, Z.of_nat k < MAXFILE → fptr V' a' k = fptr V a k) → a' !!! NDIRECT = a !!! NDIRECT →
  (∀ k, Z.of_nat k < MAXFILE → fptr V a k ≠ 0 → V' !!! Z.to_nat (fptr V a k) = V !!! Z.to_nat (fptr V a k)) → tight V' a' off.
Proof.
  intros [Hk Hi Ht] Hf He Hd. split; [intros k Hlt; by rewrite Hf, Hk|by rewrite He|].
  intros o Ho. change (MAXFILE * BSIZE) with 71680 in *. change MAXFILE with 140 in *.
  destruct (Z.lt_ge_cases o 0) as [Hneg|Hpos].
  - assert (Z.to_nat (o / BSIZE) = 0%nat) as E by (change BSIZE with 512; assert (o / 512 < 0) by (apply Z.div_lt_upper_bound; lia); lia).
    rewrite E, Hf by lia. intros Hne. rewrite <- (Ht o) by (done || by rewrite E). unfold fbyte. by rewrite E, Hf, Hd by (done || lia).
  - assert (0 ≤ o / BSIZE < 140) as Hr by (change BSIZE with 512; split; [apply Z.div_pos; lia|apply Z.div_lt_upper_bound; lia]).
    rewrite Hf by lia. intros Hne. rewrite <- (Ht o) by done. apply fbyte_ext; [apply Hf; lia|apply Hd; [lia|done]].
Qed.

(** What appending [bs] at [off] to inode [n] does, before its size is stored. *)
Record appended (n off : Z) (bs : list Z) s I s' I' : Prop := {
  ap_build : build s' I' ∅;
  ap_other j : j ≠ n → I' j = I j;
  ap_addrs : ∃ a, I' n = set_di_addrs a (I n);
  ap_inode : mk_freeinode s' = mk_freeinode s;
  ap_ptr j q : inum_ok sb j → j ≠ n → (q < NPTR)%nat → ptr (view s') (di_addrs (I' j)) q = ptr (view s) (di_addrs (I j)) q;
  ap_wrote : wrote sb (view s) I (view s') I' n off bs;
  ap_tight : tight (view s') (di_addrs (I' n)) (off + Z.of_nat (length bs));
  ap_free : mk_freeblock s' = mk_freeblock s + nblks (off + Z.of_nat (length bs)) - nblks off;
}.

Lemma iappend_loop_run fuel s I n off p (Q : dinode * Z → mkst → Prop) :
  build s I ∅ → inum_ok sb n → tight (view s) (di_addrs (I n)) off → bytes p →
  0 ≤ off → off + Z.of_nat (length p) ≤ MAXFILE * BSIZE → (length p ≤ fuel)%nat →
  mk_freeblock s + nblks (off + Z.of_nat (length p)) - nblks off ≤ 1000 →
  (∀ s' I', appended n off p s I s' I' → Q (I' n, off + Z.of_nat (length p)) s') →
  wp (iappend_loop fuel (I n) off p) Q s.
Proof using Hhome.
  revert s I off p Q. induction fuel as [|fuel IH]; intros s I off p Q Hb Hn Ht Hp Ho Hmax Hfu Hfb HQ; cbn [iappend_loop].
  all: destruct (Z.ltb_spec 0 (Z.of_nat (length p))) as [Hpos|Hnil]; cbn [negb]; try lia.
  1, 3: destruct p; [|simpl in *; lia]; apply wp_ret; simpl in *; rewrite Z.add_0_r in *; apply HQ;
    split; try done; [exists (di_addrs (I n)); by destruct (I n)|apply wrote_nil|by rewrite Z.add_0_r|rewrite Z.add_0_r; lia].
  assert (MAXFILE * BSIZE = 71680) as Emax by done.
  pose proof (Z.div_mod off BSIZE ltac:(done)) as Hdm. pose proof (Z.mod_pos_bound off BSIZE ltac:(done)) as Hmb.
  assert (0 ≤ off / BSIZE < MAXFILE) as Hfbn.
  { split; [apply Z.div_pos; [lia|done]|]. apply Z.div_lt_upper_bound; [done|]. lia. }
  rewrite (proj2 (Z.ltb_lt _ _)) by lia. cbn [negb]. apply wp_bind.
  assert (u32 ((off / BSIZE + 1) * BSIZE - off) = BSIZE - off mod BSIZE) as ->.
  { rewrite wrap_small; [lia|]. change BSIZE with 512 in *. lia. }
  set (m := Z.min (Z.of_nat (length p)) (BSIZE - off mod BSIZE)).
  assert (1 ≤ m ∧ m ≤ Z.of_nat (length p) ∧ off mod BSIZE + m ≤ BSIZE) as (Hm1&Hm2&Hm3) by (unfold m; lia).
  pose proof (tight_cost _ _ _ m Ht ltac:(lia) Hm1 Hm3) as Hcost.
  pose proof (nblks_mono (off + m) (off + Z.of_nat (length p)) ltac:(lia)) as Hmono.
  apply iappend_block_run; [done|done|done|lia|]. intros s1 I1 [Hb1 Hfr1 Ho1 [a1 Ha1] Hi1 Hp1] Hne1 Hfb1 Hoth1 Hind1 Hz1.
  set (x := fptr (view s1) (di_addrs (I1 n)) (Z.to_nat (off / BSIZE))) in *.
  assert (59 ≤ x < mk_freeblock s1) as Hx by (apply (ptr_range s1 I1 ∅ n); [done|done|apply slot_lt; lia|done]).
  pose proof (b_free _ _ _ Hb1) as Hf1. pose proof (b_len _ _ _ Hb1) as Hl1. cbn [fst snd].
  apply wp_bind, rsect_run; [done|lia|]. apply wp_bind, wsect_run; [done|lia|].
  rewrite wrap_small by lia. replace (off - off / BSIZE * BSIZE) with (off mod BSIZE) by lia.
  set (bs := take (Z.to_nat m) p).
  assert (Z.of_nat (length bs) = m) as Hlbs by (unfold bs; rewrite length_take; lia).
  assert (mk_img s1 !!! Z.to_nat x = view s1 !!! Z.to_nat x) as Ex by (symmetry; apply view_other; lia). rewrite Ex.
  set (d := splice (Z.to_nat (off mod BSIZE)) bs (view s1 !!! Z.to_nat x)).
  set (s2 := set_mk_img (<[Z.to_nat x := d]> (mk_img s1)) s1).
  assert (view s2 = <[Z.to_nat x := d]> (view s1)) as Ev by (apply view_store; lia).
  pose proof (wrote_block sb (view s) I (view s1) I1 ∅ ∅ n off bs (view_geom _ _ _ Hb1) (view_blocks _ _ _ Hb1) (b_ok _ _ _ Hb1)
    Hn Hfr1 Ho ltac:(lia) ltac:(lia) Hne1) as Hw. fold x d in Hw. rewrite <- Ev in Hw.
  destruct (store_data sb (view s1) I1 ∅ ∅ n (Z.to_nat (off / BSIZE)) d (view_geom _ _ _ Hb1) (b_ok _ _ _ Hb1) Hn ltac:(lia) Hne1)
    as (Hok2&_&_&_&Hptr2). fold x in Hok2, Hptr2.
  assert (build s2 I1 ∅) as Hb2.
  { apply (build_store s1 I1 ∅); [done|by left| |done]. apply splice_block; [|by apply Forall_take|lia].
    apply block_at; [by eapply view_blocks|rewrite (view_length _ _ _ Hb1); lia]. }
  rewrite <- Ev in Hptr2.
  assert (tight (view s2) (di_addrs (I1 n)) (off + m)) as Ht2.
  { assert (∀ k, fptr (view s2) (di_addrs (I1 n)) k = fptr (view s1) (di_addrs (I1 n)) k) as Ef by (intros; by apply Hptr2).
    apply (tight_next _ _ _ _ off m Ht); [lia|done|done|by rewrite Ef| |done|].
    { intros k Hk Hkn. rewrite Ef. by apply Hoth1. }
    intros o Hor. destruct (off_same_block off (o - off) Ho) as [Eq Em]; [lia..|].
    replace (off + (o - off)) with o in Eq, Em by lia.
    destruct (decide (fptr (view s) (di_addrs (I n)) (Z.to_nat (off / BSIZE)) = 0)) as [Ez|Hnz].
    - unfold fbyte. rewrite Eq, Ef. fold x. rewrite Ev, list_lookup_total_insert_eq by (rewrite (view_length _ _ _ Hb1); lia).
      unfold d. rewrite (Hz1 Ez). apply list_lookup_total_correct. rewrite lookup_splice by (rewrite (proj1 zero_block_ok); lia).
      rewrite decide_False by lia. unfold zero_block. apply lookup_replicate_2. lia.
    - destruct (w_kept _ _ _ _ _ _ _ _ Hw o) as [_ Hk]; [|by rewrite Eq|].
      { change BSIZE with 512 in *. change MAXFILE with 140 in *. lia. }
      rewrite Hk by lia. apply (ti_tail _ _ _ Ht); [|by rewrite Eq]. change BSIZE with 512 in *. change MAXFILE with 140 in *. lia. }
  apply (IH s2 I1 (off + m) (drop (Z.to_nat m) p)); try done.
  - by apply Forall_drop.
  - lia.
  - rewrite length_drop. lia.
  - rewrite length_drop. lia.
  - rewrite length_drop. replace (off + m + Z.of_nat (length p - Z.to_nat m)) with (off + Z.of_nat (length p)) by lia.
    change (mk_freeblock s2) with (mk_freeblock s1). lia.
  - rewrite length_drop. replace (off + m + Z.of_nat (length p - Z.to_nat m)) with (off + Z.of_nat (length p)) by lia.
    intros s' I' [Hb' Ho' [a' Ha'] Hi' Hp' Hw' Ht' Hf']. rewrite length_drop in Ht', Hf'.
    replace (off + m + Z.of_nat (length p - Z.to_nat m)) with (off + Z.of_nat (length p)) in Ht', Hf' by lia.
    apply HQ. split; try done.
    + intros j Hj. by rewrite Ho', Ho1.
    + exists a'. by rewrite Ha', Ha1.
    + by rewrite Hi', <- Hi1.
    + intros j q Hj Hjn Hq. rewrite Hp', Hptr2 by done. by apply Hp1.
    + rewrite <- (take_drop (Z.to_nat m) p). eapply wrote_app; [done|by rewrite take_drop|exact Hw|]. fold bs. by rewrite Hlbs.
    + change (mk_freeblock s2) with (mk_freeblock s1) in Hf'. lia.
Qed.

(** ** Inodes *)

(** Between the operations of main: the inodes [I] are on the image, every file has the blocks
    of its bytes and no others, and the inodes from freeinode on are unused. *)
Record image s I : Prop := {
  im_build : build s I ∅;
  im_sync j : inum_ok sb j → I j = dino (view s) sb j;
  im_tight j : inum_ok sb j → tight (view s) (di_addrs (I j)) (di_size (I j));
  im_inode : 1 ≤ mk_freeinode s ≤ 200;
  im_unused j : inum_ok sb j → j = 0 ∨ mk_freeinode s ≤ j → I j = zero_dinode;
}.

Lemma iblock_range n : inum_ok sb n → 32 ≤ IBLOCK n sb < 58.
Proof.
  intros [? Hn]. change (sb_ninodes sb) with 200 in Hn. unfold IBLOCK. change (sb_inodestart sb) with 32. change IPB with 8.
  assert (0 ≤ n / 8 < 25); [|lia]. split; [apply Z.div_pos; lia|]. apply Z.div_lt_upper_bound; lia.
Qed.

Lemma rinode_run s I E n (Q : dinode → mkst → Prop) :
  build s I E → inum_ok sb n → Q (dino (view s) sb n) s → wp (rinode n) Q s.
Proof.
  intros Hb Hn HQ. pose proof (iblock_range n Hn). unfold rinode. apply wp_bind, rsect_run; [apply Hb|lia|]. apply wp_ret.
  unfold dino in HQ. by rewrite view_other in HQ by lia.
Qed.

Lemma winode_run s I n di (Q : unit → mkst → Prop) :
  build s I ∅ → inum_ok sb n → dinode_wf di → fs_ok (view s) sb (<[n := di]> I) ∅ ∅ →
  (∀ s', view s' = put_inode sb (view s) n di → mk_freeblock s' = mk_freeblock s → mk_freeinode s' = mk_freeinode s →
     build s' (<[n := di]> I) ∅ → Q tt s') →
  wp (winode n di) Q s.
Proof using Hhome.
  intros Hb Hn Hwf Hok HQ. pose proof (iblock_range n Hn) as Hib. pose proof (view_geom _ _ _ Hb) as Hg.
  unfold winode. apply wp_bind, rsect_run; [apply Hb|lia|]. apply wsect_run; [apply Hb|lia|].
  assert (mk_img s !!! Z.to_nat (IBLOCK n sb) = view s !!! Z.to_nat (IBLOCK n sb)) as -> by (symmetry; apply view_other; lia).
  destruct (iblock_block sb (view s) n Hg (view_blocks _ _ _ Hb) Hn) as [Hblk Hlt].
  apply HQ; [apply view_store; lia|done|done|].
  apply (build_store s I ∅); [done|by right| |].
  - split; [|apply dinode_to_bytes_bytes, Hblk]. rewrite length_dinode_to_bytes; [apply Hblk|apply Hwf|].
    rewrite (proj1 Hblk). apply inode_off_range.
  - by apply (fs_ok_put_inode sb (view s) (<[n := di]> I) ∅ ∅ n di).
Qed.

(** The inode blocks are no blocks of files. *)
Lemma fptr_put_inode V I E n di j k :
  geom sb V → fs_ok V sb I E ∅ → inum_ok sb n → inum_ok sb j →
  fptr (put_inode sb V n di) (di_addrs (I j)) k = fptr V (di_addrs (I j)) k.
Proof.
  intros Hg Hok Hn Hj. unfold fptr. apply ptr_ext. intros Hne. apply put_inode_other.
  pose proof (fo_own _ _ _ _ _ Hok j NDIRECT Hj NDIRECT_ptr) as Hr. rewrite ptr_direct in Hr by lia.
  specialize (Hr Hne). change (data_start sb) with 59 in Hr. pose proof (iblock_range n Hn). lia.
Qed.

(** The image after an inode was stored. *)
Lemma image_stored s I n di s' fi :
  build s I ∅ → inum_ok sb n → dinode_wf di → fs_ok (view s) sb (<[n := di]> I) ∅ ∅ → build s' (<[n := di]> I) ∅ →
  view s' = put_inode sb (view s) n di → mk_freeinode s' = fi →
  (∀ j, inum_ok sb j → j ≠ n → I j = dino (view s) sb j) →
  (∀ j, inum_ok sb j → tight (view s) (di_addrs (<[n := di]> I j)) (di_size (<[n := di]> I j))) →
  1 ≤ fi ≤ 200 → (∀ j, inum_ok sb j → j = 0 ∨ fi ≤ j → <[n := di]> I j = zero_dinode) →
  image s' (<[n := di]> I).
Proof using Hhome.
  intros Hb Hn Hwf Hok Hb' Ev <- Hs Ht Hfi Hu. pose proof (view_geom _ _ _ Hb) as Hg. split; try done.
  - intros j Hj. rewrite Ev, dino_put_inode by (done || by eapply view_blocks). case_decide as E.
    + subst. apply fn_lookup_insert.
    + rewrite fn_lookup_insert_ne by done. by apply Hs.
  - intros j Hj. rewrite Ev. eapply tight_ext; [by apply Ht| |done|].
    + intros k Hk. by eapply fptr_put_inode.
    + intros k Hk Hne. apply put_inode_other. pose proof (iblock_range n Hn).
      pose proof (fo_own _ _ _ _ _ Hok j _ Hj (slot_lt k Hk) Hne) as Hr. change (data_start sb) with 59 in Hr. unfold fptr. lia.
Qed.

(** iappend of [bs] to the end of file [n]. *)
Record append_post (n : Z) (bs : list Z) s I s' I' : Prop := {
  app_image : image s' I';
  app_other j : j ≠ n → I' j = I j;
  app_inode : ∃ a, I' n = set_di_size (di_size (I n) + Z.of_nat (length bs)) (set_di_addrs a (I n));
  app_data : fdata (view s') (I' n) = fdata (view s) (I n) ++ bs;
  app_others j : inum_ok sb j → j ≠ n → fdata (view s') (I' j) = fdata (view s) (I j);
  app_freeinode : mk_freeinode s' = mk_freeinode s;
  app_freeblock : mk_freeblock s' = mk_freeblock s + nblks (di_size (I n) + Z.of_nat (length bs)) - nblks (di_size (I n));
}.

Lemma iappend_run s I n bs (Q : unit → mkst → Prop) :
  image s I → inum_ok sb n → 0 < n < mk_freeinode s → bytes bs →
  di_size (I n) + Z.of_nat (length bs) ≤ MAXFILE * BSIZE →
  mk_freeblock s + nblks (di_size (I n) + Z.of_nat (length bs)) - nblks (di_size (I n)) ≤ 1000 →
  (∀ s' I', append_post n bs s I s' I' → Q tt s') →
  wp (iappend n bs) Q s.
Proof using Hhome.
  intros [Hb Hsync Ht Hi Hu] Hn Hr Hbs Hmax Hfb HQ. assert (MAXFILE * BSIZE = 71680) as Emax by done.
  pose proof (b_ok _ _ _ Hb) as Hok. pose proof (dw_size _ (fo_wf _ _ _ _ _ Hok n Hn)) as Hsz. unfold is_u32 in Hsz.
  unfold iappend. apply wp_bind. eapply rinode_run; [exact Hb|done|]. rewrite <- Hsync by done.
  rewrite xint_small by lia. apply wp_bind, iappend_loop_run; try done; [by apply Ht|lia|].
  intros s1 I1 [Hb1 Ho1 [a1 Ha1] Hi1 Hp1 Hw1 Ht1 Hf1]. cbn [fst snd]. rewrite xint_small by lia.
  set (off := di_size (I n)) in *. set (di := set_di_size (off + Z.of_nat (length bs)) (I1 n)).
  pose proof (b_ok _ _ _ Hb1) as Hok1. pose proof (fo_wf _ _ _ _ _ Hok1 n Hn) as Hwf1. pose proof (view_geom _ _ _ Hb1) as Hg1.
  assert (dinode_wf di) as Hwf by (destruct Hwf1; split; try done; unfold di, is_u32; simpl; lia).
  assert (∀ j, inum_ok sb j → tight (view s1) (di_addrs (<[n := di]> I1 j)) (di_size (<[n := di]> I1 j))) as Ht'.
  { intros j Hj. destruct (decide (j = n)) as [->|Hjn]; [by rewrite fn_lookup_insert|].
    rewrite fn_lookup_insert_ne, Ho1 by done. eapply tight_ext; [by apply Ht| |done|].
    - intros k Hlt. rewrite <- (Ho1 j) at 1 by done. unfold fptr. apply Hp1; [done..|by apply slot_lt].
    - intros k Hlt Hne. by apply (w_other _ _ _ _ _ _ _ _ Hw1). }
  assert (fs_ok (view s1) sb (<[n := di]> I1) ∅ ∅) as Hok2.
  { apply fs_ok_dinode; try done. intros _ k Hk Hks. destruct Ht1 as [Hkt _ _]. unfold di in Hks. simpl in Hks.
    assert (k < MAXFILE) as Hlt by (change BSIZE with 512 in *; change MAXFILE with 140; lia).
    split; [done|]. apply Hkt; rewrite Z2Nat.id by lia; done. }
  assert (∀ m, 0 ≤ m < 58 → view s1 !!! Z.to_nat m = view s !!! Z.to_nat m) as Hmeta by apply Hw1.
  eapply winode_run; [done..|]. intros s' Ev Hfb' Hfi' Hb'. apply (HQ s' (<[n := di]> I1)).
  assert (image s' (<[n := di]> I1)) as Him.
  { apply (image_stored s1 I1 n di s' (mk_freeinode s)); try done; [congruence| |].
    - intros j Hj Hjn. rewrite Ho1, Hsync by done. symmetry. apply dino_ext, Hmeta.
      pose proof (iblock_range j Hj). lia.
    - intros j Hj Hju. rewrite fn_lookup_insert_ne, Ho1 by lia. by apply Hu. }
  split; try done.
  - intros j Hj. rewrite fn_lookup_insert_ne by done. by apply Ho1.
  - exists a1. rewrite fn_lookup_insert. unfold di. by rewrite Ha1.
  - rewrite Ev, (fdata_put_inode sb (view s1) (<[n := di]> I1) ∅ ∅) by (done || set_solver). rewrite fn_lookup_insert.
    pose proof (wrote_fdata sb (view s) I (view s1) I1 ∅ ∅ n off bs Hok Hn ltac:(set_solver) Hw1 ltac:(fold off; lia)) as Hd.
    fold off in Hd. rewrite Z.max_r in Hd by lia. fold di in Hd. rewrite Hd. unfold splice.
    assert (length (fdata (view s) (I n)) = Z.to_nat off) as Hl by apply length_frange.
    rewrite take_ge, drop_ge, app_nil_r by lia. done.
  - intros j Hj Hjn. rewrite Ev, (fdata_put_inode sb (view s1) (<[n := di]> I1) ∅ ∅) by (done || set_solver).
    rewrite fn_lookup_insert_ne by done. eapply wrote_others; try done. by apply Ho1.
  - by rewrite Hfi'.
  - by rewrite Hfb'.
Qed.

Definition new_dinode (type : Z) : dinode := Dinode type 0 0 1 0 (replicate (NDIRECT + 1) 0).

Lemma new_dinode_wf type : 0 ≤ type < 2 ^ 15 → dinode_wf (new_dinode type).
Proof.
  intros Ht. split; simpl; try done; try (split; simpl; lia); try (unfold is_short; lia).
  by repeat constructor.
Qed.

Lemma tight_empty V a : (∀ k, (k ≤ NDIRECT)%nat → a !!! k = 0) → tight V a 0.
Proof.
  intros Ha. assert (∀ k, fptr V a k = 0) as Hf.
  { intros k. unfold fptr, ptr. rewrite (Ha NDIRECT) by lia. case_decide; [by apply Ha|done]. }
  split.
  - intros k _. rewrite Hf. change BSIZE with 512. split; [done|lia].
  - rewrite Ha by lia. change BSIZE with 512. split; [done|lia].
  - intros o _. by rewrite Hf.
Qed.

(** The inode that is allocated is empty, and no file changes. *)
Lemma ialloc_run s I type (Q : Z → mkst → Prop) :
  image s I → mk_freeinode s < 200 → 0 ≤ type < 2 ^ 15 →
  let n := mk_freeinode s in
  (∀ s', image s' (<[n := new_dinode type]> I) → mk_freeinode s' = n + 1 → mk_freeblock s' = mk_freeblock s →
     (∀ j, inum_ok sb j → fdata (view s') (I j) = fdata (view s) (I j)) → Q n s') →
  wp (ialloc type) Q s.
Proof using Hhome.
  intros [Hb Hsync Ht Hi Hu] Hlt Hty n HQ. unfold ialloc.
  assert (inum_ok sb n) as Hn by (unfold inum_ok; change (sb_ninodes sb) with 200; unfold n; lia).
  assert (I n = zero_dinode) as En by (apply Hu; [done|right; unfold n; lia]).
  apply wp_bind, wp_gets, wp_bind, wp_modify, wp_bind. fold n. rewrite wrap_small by (unfold n; lia).
  rewrite !xshort_small, xint_small, !sext_small by lia. fold (new_dinode type).
  set (s1 := set_mk_freeinode (n + 1) s).
  assert (build s1 I ∅) as Hb1 by (destruct Hb; by split).
  assert (view s1 = view s) as Ev1 by done.
  pose proof (new_dinode_wf type Hty) as Hwf.
  assert (fs_ok (view s1) sb (<[n := new_dinode type]> I) ∅ ∅) as Hok.
  { apply fs_ok_dinode; [apply Hb1|done|done|by rewrite En|]. intros _ k Hk. simpl. change BSIZE with 512. lia. }
  eapply (winode_run s1 I n); [done..|]. intros s' Ev Hfb Hfi Hb'. apply wp_ret, HQ.
  - eapply (image_stored s1 I n (new_dinode type) s' (n + 1)); try done.
    + intros j Hj _. by apply Hsync.
    + intros j Hj. destruct (decide (j = n)) as [->|Hjn].
      * rewrite fn_lookup_insert. apply tight_empty. intros k Hk. cbn [new_dinode di_addrs]. apply lookup_total_replicate_2. lia.
      * rewrite fn_lookup_insert_ne by done. by apply Ht.
    + unfold n. lia.
    + intros j Hj Hjn. rewrite fn_lookup_insert_ne by (unfold n in *; lia). apply Hu; [done|]. unfold n in *. lia.
  - done.
  - done.
  - intros j Hj. rewrite Ev, (fdata_put_inode sb (view s1) I ∅ ∅); [done|by apply (view_geom s1 I ∅)|apply Hb1|done|done|set_solver].
Qed.

(** ** The files *)

Definition blocks_of (cs : list (list Z)) : Z := foldr (λ c n, nblks (Z.of_nat (length c)) + n) 0 cs.

(** The root directory has the entries [ds], and the files from inode 2 on have the
    contents [cs]. *)
Record built s I (ds : list dirent) (cs : list (list Z)) : Prop := {
  bt_image : image s I;
  bt_freeinode : mk_freeinode s = 2 + Z.of_nat (length cs);
  bt_freeblock : mk_freeblock s = 59 + nblks (16 * Z.of_nat (length ds)) + blocks_of cs;
  bt_root : ∃ a, I 1 = Dinode T_DIR 0 0 1 (16 * Z.of_nat (length ds)) a;
  bt_dir : fdata (view s) (I 1) = concat (dirent_to_bytes <$> ds);
  bt_file k c : cs !! k = Some c → ∃ a, I (2 + Z.of_nat k) = Dinode T_FILE 0 0 1 (Z.of_nat (length c)) a;
  bt_data k c : cs !! k = Some c → fdata (view s) (I (2 + Z.of_nat k)) = c;
}.

Lemma blocks_of_app cs cs' : blocks_of (cs ++ cs') = blocks_of cs + blocks_of cs'.
Proof. induction cs as [|c cs IH]; simpl; [done|]. unfold blocks_of in *. simpl. lia. Qed.

Lemma nblks_nonneg n : 0 ≤ n → 0 ≤ nblks n.
Proof. intros Hn. pose proof (nblks_mono 0 n Hn) as H. by change (nblks 0) with 0 in H. Qed.

Lemma blocks_of_nonneg cs : 0 ≤ blocks_of cs.
Proof. induction cs as [|c cs IH]; simpl; [done|]. pose proof (nblks_nonneg (Z.of_nat (length c))). lia. Qed.

Lemma inum_root : inum_ok sb 1.
Proof. done. Qed.

Lemma inum_file s I ds cs k c : built s I ds cs → cs !! k = Some c → inum_ok sb (2 + Z.of_nat k).
Proof.
  intros Hb Hk. pose proof (bt_freeinode _ _ _ _ Hb). pose proof (im_inode _ _ (bt_image _ _ _ _ Hb)).
  apply lookup_lt_Some in Hk. unfold inum_ok. change (sb_ninodes sb) with 200. lia.
Qed.

(** A new file is empty. *)
Lemma built_ialloc s I ds cs (Q : Z → mkst → Prop) :
  built s I ds cs → 2 + Z.of_nat (length cs) < 200 →
  (∀ s' I', built s' I' ds (cs ++ [[]]) → Q (2 + Z.of_nat (length cs)) s') → wp (ialloc T_FILE) Q s.
Proof using Hhome.
  intros Hb Hlt HQ. destruct Hb as [Him Hfi Hfb [a Hr] Hd Hf Hdt]. rewrite <- Hfi in HQ. set (n := mk_freeinode s) in *.
  apply (ialloc_run s I); [done|lia|done|]. fold n. intros s' Him' Hfi' Hfb' Hdata. eapply (HQ s'). split.
  - exact Him'.
  - rewrite length_app. simpl. lia.
  - rewrite blocks_of_app. change (blocks_of [[]]) with 0. lia.
  - exists a. rewrite fn_lookup_insert_ne by lia. done.
  - rewrite fn_lookup_insert_ne by lia. by rewrite Hdata.
  - intros k c [Hk|[Hk Hc]]%lookup_app_Some.
    + pose proof (lookup_lt_Some _ _ _ Hk). rewrite fn_lookup_insert_ne by lia. by apply Hf.
    + destruct (k - length cs)%nat as [|m] eqn:E; [|done]. injection Hc as <-. replace (2 + Z.of_nat k) with n by lia.
      rewrite fn_lookup_insert. by eexists.
  - intros k c [Hk|[Hk Hc]]%lookup_app_Some.
    + pose proof (lookup_lt_Some _ _ _ Hk). rewrite fn_lookup_insert_ne by lia. rewrite Hdata; [by apply Hdt|].
      unfold inum_ok. change (sb_ninodes sb) with 200. lia.
    + destruct (k - length cs)%nat as [|m] eqn:E; [|done]. injection Hc as <-. replace (2 + Z.of_nat k) with n by lia.
      rewrite fn_lookup_insert. done.
Qed.

Lemma length_dirent_bytes d : length (de_name d) = DIRSIZ → length (dirent_to_bytes d) = 16%nat.
Proof. intros Hd. unfold dirent_to_bytes. by rewrite length_app, length_le_enc, Hd. Qed.

(** A new entry of the root directory. *)
Lemma built_dirent s I ds cs inum name (Q : unit → mkst → Prop) :
  built s I ds cs → bytes name → 0 ≤ inum < 2 ^ 16 → 16 * Z.of_nat (length ds + 1) ≤ MAXFILE * BSIZE →
  59 + nblks (16 * Z.of_nat (length ds + 1)) + blocks_of cs ≤ 1000 →
  (∀ s' I', built s' I' (ds ++ [Dirent inum (stored name)]) cs → Q tt s') → wp (append_dirent 1 inum name) Q s.
Proof using Hhome.
  intros Hb Hn Hi Hmax Hfree HQ. pose proof Hb as [Him Hfi Hfb [a Hr] Hd Hf Hdt]. unfold append_dirent.
  rewrite xshort_small by done. set (d := Dirent inum (stored name)).
  assert (length (dirent_to_bytes d) = 16%nat) as Hl by (apply length_dirent_bytes, length_stored).
  assert (di_size (I 1) + Z.of_nat (length (dirent_to_bytes d)) = 16 * Z.of_nat (length ds + 1)) as Esz
    by (rewrite Hr, Hl; simpl; lia).
  assert (di_size (I 1) = 16 * Z.of_nat (length ds)) as Esz0 by by rewrite Hr.
  apply (iappend_run s I 1 (dirent_to_bytes d)); [done|done|lia| |by rewrite Esz|rewrite Esz, Esz0; lia|].
  { unfold dirent_to_bytes. apply Forall_app. split; [apply le_enc_bytes|by apply bytes_stored]. }
  intros s' I' [Him' Ho [a' Ha'] Hdata Hoth Hfi' Hfb']. rewrite Esz, Esz0 in Hfb'. rewrite Esz in Ha'. apply (HQ s' I'). split.
  - done.
  - lia.
  - rewrite length_app. simpl. lia.
  - exists a'. rewrite Ha', Hr, length_app. done.
  - rewrite Hdata, Hd, fmap_app, concat_app. simpl. by rewrite app_nil_r.
  - intros k c Hk. rewrite Ho by lia. by apply Hf.
  - intros k c Hk. rewrite Hoth; [by apply Hdt|by eapply inum_file|lia].
Qed.

(** Appending to the last file. *)
Lemma built_append s I ds cs c bs (Q : unit → mkst → Prop) :
  built s I ds (cs ++ [c]) → bytes bs → Z.of_nat (length (c ++ bs)) ≤ MAXFILE * BSIZE →
  59 + nblks (16 * Z.of_nat (length ds)) + blocks_of (cs ++ [c ++ bs]) ≤ 1000 →
  (∀ s' I', built s' I' ds (cs ++ [c ++ bs]) → Q tt s') → wp (iappend (2 + Z.of_nat (length cs)) bs) Q s.
Proof using Hhome.
  intros Hb Hbs Hmax Hfree HQ. pose proof Hb as [Him Hfi Hfb [a Hr] Hd Hf Hdt].
  assert ((cs ++ [c]) !! length cs = Some c) as Hc by (rewrite lookup_app_r, Nat.sub_diag by lia; done).
  destruct (Hf _ _ Hc) as [ac Hac]. set (n := 2 + Z.of_nat (length cs)) in *. rewrite length_app in Hfi. simpl in Hfi.
  rewrite !blocks_of_app in *. simpl in *. rewrite length_app in *.
  assert (di_size (I n) = Z.of_nat (length c)) as Esz by by rewrite Hac.
  apply (iappend_run s I n bs); [done|by eapply inum_file|lia|done|rewrite Esz; lia| |].
  { rewrite Esz. replace (Z.of_nat (length c) + Z.of_nat (length bs)) with (Z.of_nat (length c + length bs)) by lia. lia. }
  intros s' I' [Him' Ho [a' Ha'] Hdata Hoth Hfi' Hfb']. rewrite Esz in *. rewrite <- Nat2Z.inj_add in Hfb', Ha'. apply (HQ s' I'). split.
  - done.
  - rewrite length_app. simpl. lia.
  - rewrite blocks_of_app. simpl. rewrite length_app. lia.
  - exists a. rewrite Ho by lia. done.
  - rewrite Hoth by (done || lia). done.
  - intros k x [Hk|[Hk Hx]]%lookup_app_Some.
    + pose proof (lookup_lt_Some _ _ _ Hk). rewrite Ho by lia. apply Hf. by apply lookup_app_l_Some.
    + destruct (k - length cs)%nat as [|m] eqn:E; [|done]. injection Hx as <-. replace (2 + Z.of_nat k) with n by lia.
      exists a'. rewrite Ha', Hac, length_app. done.
  - intros k x [Hk|[Hk Hx]]%lookup_app_Some.
    + pose proof (lookup_lt_Some _ _ _ Hk). assert ((cs ++ [c]) !! k = Some x) as Hk' by by apply lookup_app_l_Some.
      rewrite Hoth; [by apply Hdt|by eapply inum_file|lia].
    + destruct (k - length cs)%nat as [|m] eqn:E; [|done]. injection Hx as <-. replace (2 + Z.of_nat k) with n by lia.
      rewrite Hdata. f_equal. by apply Hdt.
Qed.

Lemma last_blocks (cs : list (list Z)) (c d : list Z) : blocks_of (cs ++ [c]) ≤ blocks_of (cs ++ [c ++ d]).
Proof.
  rewrite !blocks_of_app. simpl. rewrite length_app.
  pose proof (nblks_mono (Z.of_nat (length c)) (Z.of_nat (length c + length d)) ltac:(lia)). lia.
Qed.

Lemma copy_file_run reads s I ds cs c (Q : unit → mkst → Prop) :
  built s I ds (cs ++ [c]) → Forall bytes reads → Z.of_nat (length (c ++ concat reads)) ≤ MAXFILE * BSIZE →
  59 + nblks (16 * Z.of_nat (length ds)) + blocks_of (cs ++ [c ++ concat reads]) ≤ 1000 →
  (∀ s' I', built s' I' ds (cs ++ [c ++ concat reads]) → Q tt s') → wp (copy_file (2 + Z.of_nat (length cs)) reads) Q s.
Proof using Hhome.
  revert s I c. induction reads as [|bs reads IH]; intros s I c Hb Hr Hmax Hfree HQ; cbn [copy_file concat] in *.
  - apply wp_ret. rewrite app_nil_r in HQ. by apply (HQ s I).
  - apply Forall_cons_1 in Hr as [Hbs Hr]. rewrite app_assoc in Hmax, Hfree. apply wp_bind.
    apply (built_append s I ds cs c bs); [done|done|rewrite length_app in Hmax; lia| |].
    { pose proof (last_blocks cs (c ++ bs) (concat reads)). lia. }
    intros s' I' Hb'. apply (IH s' I' (c ++ bs)); try done. intros s2 I2. rewrite <- app_assoc. apply HQ.
Qed.

Record input_ok (f : input) : Prop := {
  io_name : 47 ∉ in_name f ∧ bytes (in_name f);
  io_reads : ∃ reads, in_reads f = Some reads ∧ Forall bytes reads ∧ Z.of_nat (length (concat reads)) ≤ MAXFILE * BSIZE;
}.

Definition contents (f : input) : list Z := concat (default [] (in_reads f)).
Definition entry (n : Z) (f : input) : dirent := Dirent n (stored (skip_underscore (in_name f))).
Fixpoint entries (n : Z) (fs : list input) : list dirent :=
  match fs with
  | [] => []
  | f :: fs => entry n f :: entries (n + 1) fs
  end.

Lemma skip_underscore_bytes name : bytes name → bytes (skip_underscore name).
Proof.
  intros Hn. unfold skip_underscore. destruct name as [|c name]; [done|].
  case_match; [by apply Forall_cons_1 in Hn as [_ ?]|done].
Qed.

Lemma add_file_run s I ds cs f (Q : unit → mkst → Prop) :
  built s I ds cs → input_ok f → 2 + Z.of_nat (length cs) < 200 → 16 * Z.of_nat (length ds + 1) ≤ MAXFILE * BSIZE →
  59 + nblks (16 * Z.of_nat (length ds + 1)) + blocks_of (cs ++ [contents f]) ≤ 1000 →
  (∀ s' I', built s' I' (ds ++ [entry (2 + Z.of_nat (length cs)) f]) (cs ++ [contents f]) → Q tt s') →
  wp (add_file 1 f) Q s.
Proof using Hhome.
  intros Hb [[Hsl Hname] (reads&Hrd&Hbs&Hmax)] Hn Hroot Hfree HQ. unfold add_file. rewrite bool_decide_false by done.
  unfold contents in *. rewrite Hrd in *. simpl in Hfree, HQ.
  apply wp_bind, (built_ialloc s I ds cs); [done|done|]. intros s1 I1 Hb1. apply wp_bind.
  apply (built_dirent s1 I1 ds (cs ++ [[]])); [done|by apply skip_underscore_bytes|lia|done| |].
  { pose proof (last_blocks cs [] (concat reads)) as H. simpl in H. lia. }
  intros s2 I2 Hb2. apply (copy_file_run reads s2 I2 _ cs [] _ Hb2); [done|done|rewrite length_app; simpl; done|].
  intros s3 I3 Hb3. by apply (HQ s3 I3).
Qed.

Lemma add_files_run fs s I ds cs (Q : unit → mkst → Prop) :
  built s I ds cs → Forall input_ok fs → Z.of_nat (length cs + length fs) ≤ 198 → 16 * Z.of_nat (length ds + length fs) ≤ MAXFILE * BSIZE →
  59 + nblks (16 * Z.of_nat (length ds + length fs)) + blocks_of (cs ++ (contents <$> fs)) ≤ 1000 →
  (∀ s' I', built s' I' (ds ++ entries (2 + Z.of_nat (length cs)) fs) (cs ++ (contents <$> fs)) → Q tt s') →
  wp (add_files 1 fs) Q s.
Proof using Hhome.
  revert s I ds cs. induction fs as [|f fs IH]; intros s I ds cs Hb Hfs Hn Hroot Hfree HQ; cbn [add_files].
  - apply wp_ret. simpl in HQ. rewrite !app_nil_r in HQ. by apply (HQ s I).
  - apply Forall_cons_1 in Hfs as [Hf Hfs]. rewrite fmap_cons in Hfree, HQ. cbn [length] in *. apply wp_bind.
    assert (0 ≤ blocks_of (contents <$> fs)) by apply blocks_of_nonneg.
    rewrite cons_middle, app_assoc, blocks_of_app in Hfree.
    pose proof (nblks_mono (16 * Z.of_nat (length ds + 1)) (16 * Z.of_nat (length ds + S (length fs))) ltac:(lia)).
    apply (add_file_run s I ds cs f); [done|done|lia|lia|lia|]. intros s' I' Hb'.
    apply (IH s' I' _ _ Hb' Hfs).
    + rewrite length_app. simpl. lia.
    + rewrite length_app. simpl. lia.
    + rewrite length_app, blocks_of_app. simpl. replace (length ds + 1 + length fs)%nat with (length ds + S (length fs))%nat by lia. done.
    + intros s2 I2. rewrite length_app. simpl. rewrite <- !app_assoc. simpl.
      replace (2 + Z.of_nat (length cs + 1)) with (2 + Z.of_nat (length cs) + 1) by lia. apply HQ.
Qed.

(** ** The empty image *)

Lemma wzeroes_run cnt s n (Q : unit → mkst → Prop) :
  mk_img s = replicate n zero_block → Q tt (set_mk_img (replicate (n + cnt) zero_block) s) →
  wp (wzeroes cnt (Z.of_nat n)) Q s.
Proof.
  revert s n. induction cnt as [|cnt IH]; intros s n Hi HQ; cbn [wzeroes].
  - apply wp_ret. rewrite Nat.add_0_r, <- Hi in HQ. by destruct s.
  - apply wp_bind, wp_modify. rewrite Nat2Z.id, Hi. unfold put_sector.
    rewrite length_replicate, decide_False, Nat.sub_diag by lia. cbn [replicate app].
    replace (replicate n zero_block ++ [zero_block]) with (replicate (S n) zero_block) by (by rewrite replicate_S_end).
    replace (Z.of_nat n + 1) with (Z.of_nat (S n)) by lia. apply IH; [done|].
    by replace (S n + cnt)%nat with (n + S cnt)%nat by lia.
Qed.

Definition empty_image : mkst := Mkst (<[1%nat := sb_block]> (replicate 1000 zero_block)) 1 59.

Lemma zero_ptr V p : (p < NPTR)%nat → ptr V (di_addrs zero_dinode) p = 0.
Proof.
  intros Hp. unfold ptr. change (di_addrs zero_dinode !!! NDIRECT) with 0. case_decide; [|done].
  cbn [di_addrs zero_dinode]. apply lookup_total_replicate_2. lia.
Qed.

Lemma zero_dinode_bytes off : (off + 64 ≤ 512)%nat → dinode_of_bytes off zero_block = zero_dinode.
Proof.
  intros Ho. unfold dinode_of_bytes. rewrite !get_zero_block. unfold zero_dinode. f_equal.
  apply u32s_eq; [by rewrite length_replicate|]. intros i w [-> _]%lookup_replicate. apply get_zero_block.
Qed.

Lemma zero_dinode_wf : dinode_wf zero_dinode.
Proof. split; simpl; try done; try (split; simpl; lia). by repeat constructor. Qed.

Lemma empty_fs_ok : fs_ok (view empty_image) sb (λ _, zero_dinode) ∅ ∅.
Proof.
  split.
  - intros; apply zero_dinode_wf.
  - intros i p _ Hp. by rewrite zero_ptr.
  - intros i p j q _ Hp _ _. by rewrite zero_ptr.
  - set_solver.
  - intros b Hb. change (sb_size sb) with 1000 in Hb. change (data_start sb) with 59.
    rewrite map_used by (done || by rewrite length_insert, length_replicate).
    change (mk_freeblock empty_image) with 59. rewrite Z.ltb_lt. split; [by left|].
    intros [?|[?|(i&p&_&Hp&Hpb)]]; [done|set_solver|]. rewrite zero_ptr in Hpb by done. lia.
  - intros i k _ _ Hk. simpl. change BSIZE with 512. lia.
Qed.

Lemma empty_lookup k : k ≠ 1%nat → (k < 1000)%nat → mk_img empty_image !!! k = zero_block.
Proof. intros. cbn [mk_img empty_image]. rewrite list_lookup_total_insert_ne by done. by rewrite lookup_total_replicate_2. Qed.

Lemma empty_built : image empty_image (λ _, zero_dinode).
Proof.
  split.
  - split; cbn [mk_img mk_freeblock empty_image].
    + by rewrite length_insert, length_replicate.
    + apply Forall_insert; [apply Forall_replicate, zero_block_ok|apply sb_block_ok].
    + apply list_lookup_total_insert_eq. rewrite length_replicate. lia.
    + apply (empty_lookup 2); [done|lia].
    + done.
    + intros b Hb. apply empty_lookup; lia.
    + apply empty_fs_ok.
  - intros j Hj. pose proof (iblock_range j Hj). unfold dino. rewrite view_other, empty_lookup by lia.
    rewrite zero_dinode_bytes; [done|]. apply inode_off_range.
  - intros j Hj. apply tight_empty. intros k Hk. cbn [di_addrs zero_dinode]. apply lookup_total_replicate_2. lia.
  - done.
  - done.
Qed.

(** ** The finished image *)

(** The inodes matter as far as they are on disk. *)
Lemma fs_ok_inodes V I I' E T : fs_ok V sb I E T → (∀ i, inum_ok sb i → I' i = I i) → fs_ok V sb I' E T.
Proof.
  intros [Hwf Hown Hinj Hex Hus Hde] HI. split.
  - intros i Hi. rewrite HI by done. auto.
  - intros i p Hi. rewrite HI by done. auto.
  - intros i p j q Hi Hp Hj. rewrite !HI by done. auto.
  - intros b Hb. destruct (Hex b Hb) as [? Hne]. split; [done|]. intros i p Hi. rewrite HI by done. auto.
  - intros b Hb. rewrite Hus by done. do 2 apply or_iff_compat_l.
    split; intros (i&p&Hi&Hp&Hpb); exists i, p; rewrite HI in * by done; done.
  - intros i k Hi. rewrite HI by done. auto.
Qed.

Definition zero_dirent : dirent := Dirent 0 (replicate DIRSIZ 0).

(** A disk with an empty log, a root directory with the entries [ds], and the
    files [cs] from inode 2 on. *)
Record disk_with (V : list (list Z)) (ds : list dirent) (cs : list (list Z)) : Prop := {
  dk_len : length V = 1000%nat;
  dk_blocks : Forall block V;
  dk_geom : geom sb V;
  dk_log : V !!! 2%nat = zero_block;
  dk_ok : fs_ok V sb (dino V sb) ∅ ∅;
  dk_root : let di := dino V sb ROOTINO in
    di_type di = T_DIR ∧ di_nlink di = 1 ∧ di_size di = (16 * Z.of_nat (length ds) / BSIZE + 1) * BSIZE;
  dk_dir : ∃ pad, dirents V (dino V sb ROOTINO) = ds ++ replicate pad zero_dirent;
  dk_file k c : cs !! k = Some c → inum_ok sb (2 + Z.of_nat k) ∧
    (∃ a, dino V sb (2 + Z.of_nat k) = Dinode T_FILE 0 0 1 (Z.of_nat (length c)) a) ∧
    fdata V (dino V sb (2 + Z.of_nat k)) = c;
  dk_unused j : inum_ok sb j → j = 0 ∨ 2 + Z.of_nat (length cs) ≤ j → dino V sb j = zero_dinode;
}.

(** The entries of a directory are where their bytes are. *)
Lemma ents_concat ds m pad :
  Forall (λ d, 0 ≤ de_inum d < 2 ^ 16 ∧ length (de_name d) = DIRSIZ) ds → m = (length ds + pad)%nat →
  ents m (concat (dirent_to_bytes <$> ds) ++ replicate (16 * pad) 0) = ds ++ replicate pad zero_dirent.
Proof.
  intros Hds ->. assert (∀ (ds : list dirent) k d, Forall (λ d, 0 ≤ de_inum d < 2 ^ 16 ∧ length (de_name d) = DIRSIZ) ds →
    ds !! k = Some d → ∀ tl, sub (16 * k) 16 (concat (dirent_to_bytes <$> ds) ++ tl) = dirent_to_bytes d) as Hsub.
  { clear. induction ds as [|e ds IH]; intros k d Hds Hk tl; [done|]. apply Forall_cons_1 in Hds as [[_ He] Hds].
    pose proof (length_dirent_bytes e He) as Hl. rewrite fmap_cons. cbn [concat]. rewrite <- app_assoc. destruct k as [|k].
    - injection Hk as <-. unfold sub. rewrite Nat.mul_0_r, drop_0. by apply take_app_length'.
    - unfold sub. replace (16 * S k)%nat with (length (dirent_to_bytes e) + 16 * k)%nat by lia.
      rewrite drop_app_add. by apply IH. }
  assert (length (concat (dirent_to_bytes <$> ds)) = 16 * length ds)%nat as Hlen.
  { clear Hsub. induction Hds as [|e ds [_ He] Hds IH]; [done|]. rewrite fmap_cons. cbn [concat length].
    rewrite length_app, IH, (length_dirent_bytes e He). lia. }
  apply list_eq. intros k. rewrite lookup_ents. destruct (decide (k < length ds)%nat) as [Hk|Hk].
  - rewrite decide_True, lookup_app_l by lia. destruct (lookup_lt_is_Some_2 ds k Hk) as [d Hd]. rewrite Hd, (Hsub ds k d Hds Hd).
    rewrite list.Forall_forall in Hds. destruct (Hds d) as [? ?]; [by eapply list_elem_of_lookup_2|]. by rewrite dirent_codec.
  - rewrite lookup_app_r by lia. case_decide as Hkp.
    + rewrite lookup_replicate_2 by lia. f_equal. unfold sub. rewrite drop_app, (drop_ge (concat _)) by lia. simpl app.
      rewrite drop_replicate, take_replicate, Nat.min_l by lia. done.
    + symmetry. apply lookup_ge_None_2. rewrite length_replicate. lia.
Qed.

Definition dirent_ok (d : dirent) : Prop := 0 ≤ de_inum d < 2 ^ 16 ∧ length (de_name d) = DIRSIZ.

(** Growing the root directory to the end of its block. *)
Lemma fix_size_run s I ds cs (Q : unit → mkst → Prop) :
  built s I ds cs → Forall dirent_ok ds → 16 * Z.of_nat (length ds) mod BSIZE ≠ 0 → 16 * Z.of_nat (length ds) < MAXFILE * BSIZE →
  (∀ s', mk_freeblock s' = mk_freeblock s → length (mk_img s') = 1000%nat → disk_with (view s') ds cs → Q tt s') →
  wp (fix_size 1) Q s.
Proof using Hhome.
  intros [[Hb Hsync Ht Hi Hu] Hfi Hfb [a Hr] Hd Hf Hdt] Hds Hmod Hmax HQ. unfold fix_size.
  apply wp_bind. eapply rinode_run; [done|done|]. rewrite <- Hsync by done.
  set (sz := 16 * Z.of_nat (length ds)) in *. assert (di_size (I 1) = sz) as Esz by by rewrite Hr. rewrite Esz.
  change (MAXFILE * BSIZE) with 71680 in Hmax. change BSIZE with 512 in *.
  assert (0 ≤ sz) as Hsz0 by (unfold sz; lia).
  pose proof (Z.div_mod sz 512 ltac:(lia)) as Hdm. pose proof (Z.mod_pos_bound sz 512 ltac:(lia)) as Hmb.
  assert (0 ≤ sz / 512 < 140) as Hq by (split; [apply Z.div_pos; lia|apply Z.div_lt_upper_bound; lia]).
  rewrite (xint_small sz), (wrap_small 32 ((sz / 512 + 1) * 512)), xint_small by lia.
  set (di := set_di_size ((sz / 512 + 1) * 512) (I 1)).
  pose proof (b_ok _ _ _ Hb) as Hok. pose proof (Ht 1 inum_root) as Ht1. rewrite Esz in Ht1.
  assert (∀ k, 0 ≤ k → k * 512 < (sz / 512 + 1) * 512 → k < MAXFILE ∧ fptr (view s) (di_addrs (I 1)) (Z.to_nat k) ≠ 0) as Hdense.
  { intros k Hk Hks. change MAXFILE with 140. split; [lia|]. apply (ti_block _ _ _ Ht1); change MAXFILE with 140; change BSIZE with 512; lia. }
  assert (dinode_wf di) as Hwf.
  { destruct (fo_wf _ _ _ _ _ Hok 1 inum_root). split; try done. unfold di, is_u32. simpl. lia. }
  assert (fs_ok (view s) sb (<[1 := di]> I) ∅ ∅) as Hok'.
  { by apply fs_ok_dinode. }
  eapply (winode_run s I 1); [done..|]. intros s' Ev Hfb' Hfi' Hb'. pose proof (view_geom _ _ _ Hb) as Hg.
  apply HQ; [done|apply Hb'|].
  assert (∀ j, inum_ok sb j → dino (view s') sb j = <[1 := di]> I j) as Hdino.
  { intros j Hj. rewrite Ev, dino_put_inode by (done || by eapply view_blocks). case_decide as E.
    - subst. by rewrite fn_lookup_insert.
    - rewrite fn_lookup_insert_ne by done. symmetry. by apply Hsync. }
  assert (∀ j, inum_ok sb j → fdata (view s') (<[1 := di]> I j) = fdata (view s) (<[1 := di]> I j)) as Hdata.
  { intros j Hj. rewrite Ev. apply (fdata_put_inode sb (view s) (<[1 := di]> I) ∅ ∅); done. }
  assert (∀ k c, cs !! k = Some c → inum_ok sb (2 + Z.of_nat k)) as Hin.
  { intros k c Hk%lookup_lt_Some. unfold inum_ok. change (sb_ninodes sb) with 200. lia. }
  split.
  - by eapply view_length.
  - by eapply view_blocks.
  - by eapply view_geom.
  - rewrite view_other by done. apply Hb'.
  - eapply fs_ok_inodes; [apply Hb'|done].
  - change ROOTINO with 1. rewrite Hdino, fn_lookup_insert by done. unfold di. rewrite Hr. done.
  - change ROOTINO with 1. rewrite Hdino, fn_lookup_insert by done. exists (Z.to_nat (((sz / 512 + 1) * 512 - sz) / 16)).
    assert (((sz / 512 + 1) * 512 - sz) / 16 = (sz / 512 + 1) * 32 - Z.of_nat (length ds)) as Epad.
    { symmetry. apply (Z.div_unique _ _ _ 0); unfold sz; lia. }
    assert (((sz / 512 + 1) * 512) / 16 = (sz / 512 + 1) * 32) as Etot by (symmetry; apply (Z.div_unique _ _ _ 0); lia).
    rewrite dirents_ents by (unfold di; simpl; lia). unfold di. cbn [di_size set_di_size]. fold di. change DIRENT_SIZE with 16.
    rewrite Etot, Epad.
    rewrite <- (ents_concat ds (Z.to_nat ((sz / 512 + 1) * 32))); [|done|lia]. f_equal.
    rewrite <- Hd. replace di with (<[1 := di]> I 1) by (by rewrite fn_lookup_insert). rewrite Hdata, fn_lookup_insert by done.
    unfold fdata at 1. unfold di. cbn [di_size di_addrs set_di_size].
    replace ((sz / 512 + 1) * 512) with (sz + ((sz / 512 + 1) * 512 - sz)) by lia. rewrite frange_app by lia.
    f_equal; [unfold fdata; by rewrite Esz|]. apply list_eq. intros i. rewrite lookup_frange, Z.add_0_l. case_decide as Hi'.
    + rewrite lookup_replicate_2 by lia. f_equal.
      assert ((sz + Z.of_nat i) / 512 = sz / 512) as Eq by (symmetry; apply (Z.div_unique _ _ _ (sz mod 512 + Z.of_nat i)); lia).
      apply (ti_tail _ _ _ Ht1); [change (MAXFILE * BSIZE) with 71680; lia|]. change BSIZE with 512. rewrite Eq. apply Hdense; lia.
    + symmetry. apply lookup_ge_None_2. rewrite length_replicate. lia.
  - intros k c Hk. pose proof (Hin k c Hk) as Hj. split; [done|]. rewrite !Hdino by done. split.
    + rewrite fn_lookup_insert_ne by lia. by apply Hf.
    + rewrite Hdata by done. rewrite fn_lookup_insert_ne by lia. by apply Hdt.
  - intros j Hj Hju. rewrite Hdino, fn_lookup_insert_ne by (done || lia). apply Hu; [done|lia].
Qed.

(** The entries of the root directory. *)
Definition root_entries (fs : list input) : list dirent :=
  Dirent 1 (stored [46]) :: Dirent 1 (stored [46; 46]) :: entries 2 fs.

Lemma length_entries n fs : length (entries n fs) = length fs.
Proof. revert n. induction fs as [|f fs IH]; intros n; simpl; [done|]. by rewrite IH. Qed.

Lemma entries_ok n fs : 0 ≤ n → n + Z.of_nat (length fs) ≤ 2 ^ 16 → Forall dirent_ok (entries n fs).
Proof.
  revert n. induction fs as [|f fs IH]; intros n Hn Hl; simpl in *; constructor; [|apply IH; lia].
  split; simpl; [lia|]. apply length_stored.
Qed.

(** The files fit: each into MAXFILE blocks, all of them into the disk and its inodes, and the root
    directory does not end with a block. *)
Record fits (fs : list input) : Prop := {
  ft_inputs : Forall input_ok fs;
  ft_inodes : Z.of_nat (length fs) ≤ 198;
  ft_blocks : 59 + nblks (16 * Z.of_nat (2 + length fs)) + blocks_of (contents <$> fs) ≤ 1000;
  ft_root : Z.of_nat (2 + length fs) mod 32 ≠ 0;
}.

(** [wp_bind] from right to left: the other direction would run the program. *)
Ltac wbind := apply (proj2 (wp_bind _ _ _ _)).

Lemma main_run fs (Q : unit → mkst → Prop) :
  fits fs → (∀ s', disk_with (mk_img s') (root_entries fs) (contents <$> fs) → Q tt s') → wp (main fs) Q start.
Proof using Hhome.
  intros [Hin Hnum Hblk Hroot] HQ. unfold main. wbind. apply (proj2 (wp_modify _ _ _)). wbind.
  apply (wzeroes_run _ _ 0); [done|]. change (0 + Z.to_nat FSSIZE)%nat with 1000%nat. wbind.
  apply wsect_run; [apply length_replicate|lia|].
  change (set_mk_img _ _) with empty_image. wbind.
  apply (ialloc_run empty_image _ T_DIR _ empty_built); [done|done|]. change (mk_freeinode empty_image) with 1.
  intros s1 Him1 Hfi1 Hfb1 _. rewrite Z.eqb_refl. cbn [negb].
  assert (built s1 (<[1 := new_dinode T_DIR]> (λ _, zero_dinode)) [] []) as Hb1.
  { split; try done; [by exists (replicate (NDIRECT + 1) 0)]. }
  wbind. apply (built_dirent s1 _ [] [] _ _ _ Hb1); [by repeat constructor|done|done|done|]. intros s2 I2 Hb2.
  wbind. apply (built_dirent s2 I2 _ _ _ _ _ Hb2); [by repeat constructor|done|done|done|]. intros s3 I3 Hb3.
  wbind. apply (add_files_run fs s3 I3 _ _ _ Hb3); [done|simpl; lia|simpl; change (MAXFILE * BSIZE) with 71680; lia|done|].
  intros s4 I4 Hb4. cbn [app length] in Hb4. change (2 + Z.of_nat 0) with 2 in Hb4. fold (root_entries fs) in Hb4.
  assert (length (root_entries fs) = 2 + length fs)%nat as Hl by (simpl; by rewrite length_entries).
  wbind. apply (fix_size_run s4 I4 _ _ _ Hb4).
  - unfold root_entries. repeat constructor; simpl; try lia; try apply length_stored. apply entries_ok; lia.
  - rewrite Hl. change BSIZE with (16 * 32). rewrite Zmult_mod_distr_l. lia.
  - rewrite Hl. change (MAXFILE * BSIZE) with 71680. lia.
  - intros s5 Hfb5 Hl5 Hd5. wbind. apply wp_gets. unfold balloc.
    pose proof (b_free _ _ _ (im_build _ _ (bt_image _ _ _ _ Hb4))) as Hf4.
    rewrite (proj2 (Z.ltb_lt _ _)) by (change (BSIZE * 8) with 4096; lia). cbn [negb].
    apply wsect_run; [done|done|]. apply HQ. exact Hd5.
Qed.
End Build.
