(* ===== verification/Boot.v ===== *)
(** From the image to the running file system: iinit and initlog of the first
    process (forkret of src/proc.c) on a disk that mkfs wrote, or that a crash left, and the
    files of the image read through the kernel. *)

From stdpp Require Import functions.
From S2P Require Import Prelude Bytes Layout Blocks Sleeplock Bio LogDisk Log LogSafety Kstring Txn.
From S2P Require Import Fs FsDisk FsAlloc FsInode FsFile FsCache FsSpec FsCrash FsDir FsPath Mkfs.

(** * Booting *)

Section Boot.
Context {St : Type} `{!BlockIO St, !BlockIOSpec St} (start lsize : Z) (sb : superblock).
Implicit Types (d D : list (list Z)).

(** Memory at the start of the kernel: the cache is empty, the tables are zero. *)
Definition boot_fs d : fsst (logst St) :=
  FsSt (boot_log d) (Superblock 0 0 0 0 0 0 0) false (replicate NINODE zero_inode) 1 0 [].

(** What forkret does in the first process, and the start of its first operation. *)
Definition first_op : M (fsst (logst St)) unit :=
  iinit ROOTDEV;;
  zoom fs_io_lens (initlog ROOTDEV);;
  zoom fs_io_lens begin_op.

(** iinit finds the locks of the entries as they were: zero. *)
Lemma iinit_locks_run (ips : list nat) (s : fsst (logst St)) (Q : unit → fsst (logst St) → Prop) :
  Forall (λ i, i_lock i = initsleeplock) (fs_inodes s) → Q tt s → wp (iinit_locks ips) Q s.
Proof.
  revert s. induction ips as [|ip ips IH]; intros s Hs HQ; cbn [iinit_locks]; [by apply wp_ret|].
  apply wp_bind, wp_modify.
  replace (set_fs_inodes (alter (set_i_lock initsleeplock) ip (fs_inodes s)) s) with s; [by apply IH|].
  destruct s as [io sb' lk ins pid cwd wk]. unfold set_fs_inodes. cbn [fs_inodes fs_io fs_sb fs_lock fs_pid fs_cwd fs_wakes] in *. f_equal.
  symmetry. apply list_eq. intros k. destruct (decide (k = ip)) as [->|Hk]; [|by rewrite list_lookup_alter_ne].
  rewrite list_lookup_alter_eq. destruct (ins !! ip) as [z|] eqn:E; [|done]. simpl. f_equal.
  rewrite list.Forall_forall in Hs. specialize (Hs z (list_elem_of_lookup_2 _ _ _ E)). destruct z. unfold set_i_lock. simpl in *. congruence.
Qed.

(** The blocks outside the log. *)
Lemma agree_home d D : same_home start lsize D d → (∀ b, sb_inodestart sb ≤ b < sb_size sb → 0 ≤ b ∧ ¬ in_log start lsize b) → agree sb d D.
Proof.
  intros [_ Hs] Hb b Hr. destruct (Hb b Hr). rewrite !list_lookup_total_alt, Hs; [done|]. by rewrite Z2Nat.id.
Qed.

(** Initialization on a disk from which recovery can start: the log is idle, and the disk has the logical contents. *)
Lemma init_run d (s : fsst (logst St)) (Q : unit → fsst (logst St) → Prop) :
  recoverable start lsize d → sb_of_bytes (d !!! 1%nat) = sb → fs_io s = boot_log d →
  Forall (λ i, i_lock i = initsleeplock) (fs_inodes s) →
  (∀ s' D tr, log_idle start lsize D tr 1 (fs_io s') D → same_home start lsize D (logical start d) →
     fs_sb s' = sb → fs_lock s' = false → fs_inodes s' = fs_inodes s → Q tt s') →
  wp (iinit ROOTDEV) (λ _, wp (zoom fs_io_lens (initlog ROOTDEV)) Q) s.
Proof.
  intros Hrec Hsb Hs Hlocks HQ. pose proof (proj1 Hrec) as Hd. pose proof (do_range _ _ _ Hd) as Hr.
  pose proof (boot_io d (do_blocks _ _ _ Hd)) as Hio. destruct s as [io sb' lk ins pid cwd wk]. simpl in Hs, Hlocks, HQ. subst io.
  unfold iinit. apply wp_bind, wp_modify, wp_bind, iinit_locks_run; [done|].
  unfold readsb. apply wp_bind. change (u32 ROOTDEV) with ROOTDEV. apply wp_zoom. simpl.
  eapply (wp_io_bread _ _ _ _ _ _ _ _ Hio); [lia|done| |].
  { right. rewrite map_img_empty_L, union_empty_l_L, size_empty, NBUF_eq. lia. }
  intros b i1 Hio1 _ Hdb. apply wp_bind, wp_gets. simpl. rewrite Hdb. change (Z.to_nat 1) with 1%nat. rewrite Hsb.
  apply wp_bind, wp_modify, wp_zoom. simpl.
  eapply (wp_io_brelse _ _ _ _ _ _ _ _ Hio1 b 1); [apply lookup_insert_eq|by right|].
  intros i2 Hio2. rewrite delete_insert_id in Hio2 by done.
  apply wp_zoom. simpl. eapply wp_mono; [eapply (initlog_from start lsize); [done..|exact Hio2|done]|].
  intros [] [l3 i3 wk3] (Htx&Hlk&Hout&Hcm&Hh&Hv&Ht&Hsame). simpl in *.
  by apply (HQ _ (bdisk i3) (btrace i3)).
Qed.

Lemma logical_agree d D :
  recoverable start lsize d → (∀ D tr, geom (TxnSpec0 := log_txn start lsize D tr 1) sb (logical start d)) →
  same_home start lsize D (logical start d) →
  agree sb (logical start d) D ∧ ∀ tr, geom (TxnSpec0 := log_txn start lsize D tr 1) sb D.
Proof.
  intros Hrec Hg Hs. pose proof (do_range _ _ _ (proj1 Hrec)) as Hr. set (L := logical start d) in *. split.
  - apply agree_home; [done|]. intros c Hc. destruct (g_home _ _ (Hg [] []) c Hc) as ((?&_)&_&?). done.
  - intros tr. assert (length D = length L) as Hlen by apply Hs.
    assert (D !!! 1%nat = L !!! 1%nat) as E1.
    { rewrite !list_lookup_total_alt, (proj2 Hs); [done|]. unfold in_log. lia. }
    destruct (Hg D tr). split; try done; rewrite ?Hlen, ?E1; done.
Qed.

(** On a disk from which recovery can start and whose logical contents are a file
    system, the first process finds this file system in its first operation. *)
Lemma first_op_run d (Q : unit → fsst (logst St) → Prop) :
  recoverable start lsize d → sb_of_bytes (d !!! 1%nat) = sb →
  (∀ D tr, geom (TxnSpec0 := log_txn start lsize D tr 1) sb (logical start d)) →
  fs_ok (logical start d) sb (dino (logical start d) sb) ∅ ∅ →
  (∀ s D tr, fs_inv (TxnSpec0 := log_txn start lsize D tr 1) sb s D ∅ (dino (logical start d) sb) ∅ ∅ ∅ →
     agree sb (logical start d) D → fs_inodes s = replicate NINODE zero_inode → Q tt s) →
  wp first_op Q (boot_fs d).
Proof.
  intros Hrec Hsb Hg Hok HQ. unfold first_op. apply wp_bind.
  eapply wp_mono; [eapply (init_run d _ (λ _, wp (zoom fs_io_lens begin_op) Q))|]; [done|done|done|by apply Forall_replicate| |].
  2:{ intros [] s Hs. apply wp_bind. exact Hs. }
  intros s D tr Hidle Hsame Hssb Hlk Hins. destruct (logical_agree d D Hrec Hg Hsame) as [Ha HgD].
  apply wp_zoom. eapply wp_mono; [exact (log_begin start lsize D tr 1 _ _ ltac:(lia) Hidle)|]. intros [] io Htx.
  apply (HQ _ D tr); [|done|exact Hins].
  split; simpl; rewrite ?Hins.
  - exact Htx.
  - done.
  - apply HgD.
  - exact (agree_ok sb _ D _ _ _ (Hg D tr) Ha Hok).
  - intros n Hn' _. symmetry. by apply (agree_dino sb _ D n (Hg D tr) Ha).
  - done.
  - done.
  - intros ip i [-> _]%lookup_replicate. done.
  - intros ip i [-> _]%lookup_replicate. done.
  - intros ip jp i j [-> _]%lookup_replicate _. done.
  - set_solver.
Qed.
End Boot.

(** * The cache of the first process *)

(** userinit looks "/" up before anything else is in the cache: this entry is not valid yet. *)
Definition root_entry : inode := Inode ROOTDEV ROOTINO 1 initsleeplock 0 zero_dinode.
Definition root_cache : list inode := root_entry :: replicate (NINODE - 1) zero_inode.
Definition root_refs (jp : nat) : Z := if decide (jp = 0%nat) then 1 else 0.

Lemma root_cache_lookup ip i : root_cache !! ip = Some i → ip = 0%nat ∧ i = root_entry ∨ ip ≠ 0%nat ∧ i = zero_inode.
Proof.
  destruct ip as [|ip]; cbn [root_cache lookup list_lookup]; [intros [= <-]; by left|].
  intros [-> _]%lookup_replicate. by right.
Qed.

Lemma root_two_free : two_free root_refs.
Proof.
  split; [intros jp; unfold root_refs; case_decide; lia|]. exists 1%nat, 2%nat. unfold NINODE. split_and!; (done || lia).
Qed.

Lemma root_cache_shape {St} (s : fsst St) : fs_inodes s = root_cache → shape s root_refs None.
Proof.
  intros Hins jp j. rewrite Hins. unfold root_refs. intros [[-> ->]|[? ->]]%root_cache_lookup; [done|]. by rewrite decide_False.
Qed.

Lemma root_cache_inv {St} `{!TxnIO St, !TxnSpec St} sb (s : fsst St) V I :
  tx_is (fs_io s) V ∅ ∅ → fs_sb s = sb → geom sb V → fs_ok V sb I ∅ ∅ → (∀ n, inum_ok sb n → I n = dino V sb n) →
  inum_ok sb ROOTINO → fs_lock s = false → fs_inodes s = root_cache → fs_inv sb s V ∅ I ∅ ∅ ∅.
Proof.
  intros Hio Hsb Hg Hok Hsync Hroot Hlk Hins. split; rewrite ?Hins; try done.
  - intros n Hn _. by apply Hsync.
  - intros ip i [[-> ->]|[_ ->]]%root_cache_lookup; done.
  - intros ip i [[-> ->]|[_ ->]]%root_cache_lookup; done.
  - intros ip jp i j [[-> ->]|[_ ->]]%root_cache_lookup [[-> ->]|[_ ->]]%root_cache_lookup; done.
Qed.

(** * The disk of mkfs *)

Section Tree.
Context {St : Type} `{!TxnIO St, !TxnSpec St}.
Implicit Types (V : list (list Z)) (fs : list input).

Definition file_name (f : input) : list Z := skip_underscore (in_name f).

Lemma lookup_entries n fs k : entries n fs !! k = entry (n + Z.of_nat k) <$> fs !! k.
Proof.
  revert n k. induction fs as [|f fs IH]; intros n [|k]; try done; simpl.
  - by rewrite Z.add_0_r.
  - rewrite IH. by replace (n + 1 + Z.of_nat k) with (n + Z.of_nat (S k)) by lia.
Qed.

(** Every inode is unused, the root directory or one of the files. *)
Lemma disk_inode V fs j :
  disk_with V (root_entries fs) (contents <$> fs) → inum_ok Mkfs.sb j →
  dino V Mkfs.sb j = zero_dinode ∨ j = ROOTINO ∨
  ∃ k (c : list Z) a, j = 2 + Z.of_nat k ∧ (k < length fs)%nat ∧ dino V Mkfs.sb j = Dinode T_FILE 0 0 1 (Z.of_nat (length c)) a.
Proof.
  intros Hd Hj. pose proof Hj as [Hj0 Hj1]. destruct (decide (j = 0 ∨ 2 + Z.of_nat (length fs) ≤ j)) as [Hu|Hu].
  { left. apply (dk_unused _ _ _ Hd); [done|]. by rewrite length_fmap. }
  right. destruct (decide (j = ROOTINO)) as [->|Hne]; [by left|right]. change ROOTINO with 1 in Hne.
  set (k := Z.to_nat (j - 2)). assert (j = 2 + Z.of_nat k) as Ej by (unfold k; lia). assert (k < length fs)%nat as Hk by lia.
  destruct (lookup_lt_is_Some_2 (contents <$> fs) k) as [c Hc]; [by rewrite length_fmap|].
  destruct (dk_file _ _ _ Hd k c Hc) as (_&[a Ha]&_). exists k, c, a. by rewrite Ej.
Qed.

Lemma disk_tree V fs :
  disk_with V (root_entries fs) (contents <$> fs) → tree_ok Mkfs.sb V (dino V Mkfs.sb) ∧ live Mkfs.sb (dino V Mkfs.sb) ROOTINO.
Proof.
  intros Hd. destruct (dk_root _ _ _ Hd) as (Hty&Hnl&Hsz).
  assert (live Mkfs.sb (dino V Mkfs.sb) ROOTINO) as Hroot by (split; [done|]; rewrite Hty, Hnl; done).
  assert (∀ n, inum_ok Mkfs.sb n → di_type (dino V Mkfs.sb n) = T_DIR → n = ROOTINO) as Hdir.
  { intros n Hn Ht. destruct (disk_inode V fs n Hd Hn) as [E|[E|(k&c&a&_&_&E)]]; [by rewrite E in Ht|done|by rewrite E in Ht]. }
  split; [|done]. split.
  - intros n Hn Ht. rewrite (Hdir n Hn Ht), Hsz. change BSIZE with (32 * DIRENT_SIZE). rewrite Z.mul_assoc. by apply Z_mod_mult.
  - intros n d Hn Ht. rewrite (Hdir n Hn Ht). destruct (dk_dir _ _ _ Hd) as [pad ->].
    intros [Hin|[-> _]%elem_of_replicate]%elem_of_app Hne; [|done]. unfold root_entries in Hin.
    rewrite !elem_of_cons in Hin. destruct Hin as [->|[->|Hin]]; [done|done|].
    apply list_elem_of_lookup_1 in Hin as [k Hk]. rewrite lookup_entries in Hk.
    destruct (fs !! k) as [f|] eqn:Ef; [|done]. injection Hk as <-. cbn [de_inum entry].
    destruct (dk_file _ _ _ Hd k (contents f)) as (Hok&[a Ha]&_); [by rewrite list_lookup_fmap, Ef|].
    split; [done|]. by rewrite Ha.
Qed.

Lemma find_from_first (f : dirent → bool) n ds x d :
  ds !! x = Some d → f d = true → (∀ y e, (y < x)%nat → ds !! y = Some e → f e = false) → find_from f n ds = Some ((n + x)%nat, d).
Proof.
  revert n x. induction ds as [|e ds IH]; intros n x Hx Hd Hb; [done|]. destruct x as [|x]; simpl in *.
  - injection Hx as ->. rewrite Hd. by rewrite Nat.add_0_r.
  - rewrite (Hb 0%nat e) by (done || lia). rewrite (IH (S n) x) by (done || (intros y e' ? ?; apply (Hb (S y) e'); [lia|done])).
    by replace (S n + x)%nat with (n + S x)%nat by lia.
Qed.

(** The file [f] can be found by its name: it is a name, and no entry before has the same one. *)
Record named fs (k : nat) (f : input) : Prop := {
  nm_file : fs !! k = Some f;
  nm_name : file_name f ≠ [] ∧ 0 ∉ file_name f;
  nm_dots : cut DIRSIZ (file_name f) ≠ [46] ∧ cut DIRSIZ (file_name f) ≠ [46; 46];
  nm_first j g : (j < k)%nat → fs !! j = Some g → cut DIRSIZ (file_name g) ≠ cut DIRSIZ (file_name f);
}.

Lemma dir_find_file fs k f pad :
  named fs k f →
  dir_find (file_name f) (root_entries fs ++ replicate pad zero_dirent) = Some ((2 + k)%nat, entry (2 + Z.of_nat k) f).
Proof.
  intros [Hk _ [Hd1 Hd2] Hf]. unfold dir_find. pose proof (lookup_lt_Some _ _ _ Hk) as Hlt.
  assert (∀ j, entries 2 fs !! j = entry (2 + Z.of_nat j) <$> fs !! j) as He by (intros; apply lookup_entries).
  rewrite (find_from_first _ 0 _ (2 + k) (entry (2 + Z.of_nat k) f)); [done|..].
  - rewrite lookup_app_l by (simpl; rewrite length_entries; lia). cbn [Nat.add lookup list_lookup root_entries].
    by rewrite He, Hk.
  - unfold names. cbn [entry de_inum de_name]. rewrite cut_stored, bool_decide_true by done.
    rewrite (proj2 (Z.eqb_neq _ _)) by lia. done.
  - intros y e Hy Hye. rewrite lookup_app_l in Hye by (simpl; rewrite length_entries; lia).
    unfold names. destruct y as [|[|y]]; cbn [lookup list_lookup root_entries] in Hye.
    + injection Hye as <-. cbn [de_name]. rewrite cut_stored. rewrite bool_decide_false; [apply andb_false_r|]. exact Hd1.
    + injection Hye as <-. cbn [de_name]. rewrite cut_stored. rewrite bool_decide_false; [apply andb_false_r|]. exact Hd2.
    + rewrite He in Hye. destruct (fs !! y) as [g|] eqn:Eg; [|done]. injection Hye as <-. cbn [de_name entry].
      rewrite cut_stored, bool_decide_false; [apply andb_false_r|]. intros E. by apply (Hf y g); [lia|..].
Qed.

Lemma split_path_plain nm cur : 0 ∉ nm → 47 ∉ nm → split_path (nm ++ [0]) cur = flush (cur ++ nm).
Proof.
  revert cur. induction nm as [|c nm IH]; intros cur H0 H47; simpl; [by rewrite app_nil_r|].
  rewrite (proj2 (Z.eqb_neq c 0)), (proj2 (Z.eqb_neq c SLASH)) by set_solver.
  rewrite IH by set_solver. by rewrite <- app_assoc.
Qed.
(** What the kernel sees of the image on a disk [D], by the inodes [I]: the root directory, and every file under its name. *)
Record shows D (I : Z → dinode) fs : Prop := {
  sh_tree : tree_ok Mkfs.sb D I;
  sh_root : live Mkfs.sb I ROOTINO;
  sh_path k f : named fs k f → resolve D I false ROOTINO (elems (47 :: file_name f ++ [0])) = Some (2 + Z.of_nat k);
  sh_file k f : named fs k f → live Mkfs.sb I (2 + Z.of_nat k) ∧ di_type (I (2 + Z.of_nat k)) = T_FILE ∧
    di_size (I (2 + Z.of_nat k)) = Z.of_nat (length (contents f)) ∧ fdata D (I (2 + Z.of_nat k)) = contents f;
}.

Lemma elems_file fs k f : Forall input_ok fs → named fs k f → elems (47 :: file_name f ++ [0]) = [file_name f].
Proof.
  intros Hin [Hf [Hne H0] _ _]. assert (47 ∉ file_name f) as H47.
  { rewrite list.Forall_forall in Hin. destruct (Hin f) as [[H47 _] _]; [by eapply list_elem_of_lookup_2|].
    unfold file_name, skip_underscore. destruct (in_name f); [done|]. case_match; set_solver. }
  unfold elems. simpl. rewrite split_path_plain by done. simpl. unfold flush. by rewrite decide_False.
Qed.

(** A disk that agrees with the image outside the log shows its files. *)
Lemma disk_shows V D fs :
  disk_with V (root_entries fs) (contents <$> fs) → Forall input_ok fs → agree Mkfs.sb V D →
  shows D (dino V Mkfs.sb) fs.
Proof.
  intros Hd Hin Ha. destruct (disk_tree V fs Hd) as [[Hsz Hents] Hroot]. set (I := dino V Mkfs.sb) in *.
  pose proof (dk_ok _ _ _ Hd : fs_ok V Mkfs.sb I ∅ ∅) as HokV.
  assert (∀ n, inum_ok Mkfs.sb n → fdata D (I n) = fdata V (I n)) as Hdata.
  { intros n Hn. apply (agree_fdata Mkfs.sb V D I ∅ ∅ n (dk_geom _ _ _ Hd) Ha HokV Hn). set_solver. }
  assert (∀ n, inum_ok Mkfs.sb n → dirents D (I n) = dirents V (I n)) as Hdirs.
  { intros n Hn. unfold dirents, dent. by rewrite Hdata. }
  split; [split; [done|]|done|..].
  - intros n d Hn Hty. rewrite Hdirs by done. by apply Hents.
  - intros k f Hnm. rewrite (elems_file fs k f) by done. cbn [resolve].
    destruct (dk_root _ _ _ Hd) as (Hty&_). fold I in Hty. rewrite Hty, Z.eqb_refl. cbn [negb andb].
    rewrite Hdirs by done. destruct (dk_dir _ _ _ Hd) as [pad Hdir]. fold I in Hdir. rewrite Hdir.
    by rewrite (dir_find_file fs k f pad).
  - intros k f [Hf _ _ _].
    destruct (dk_file _ _ _ Hd k (contents f)) as (Hn&[a Hfile]&Hcont); [by rewrite list_lookup_fmap, Hf|].
    fold I in Hfile, Hcont. rewrite Hdata by done. unfold live. by rewrite Hfile in Hcont |- *.
Qed.
End Tree.

(** * From mkfs to the kernel *)

Section Kernel.
Context {St : Type} `{!BlockIO St, !BlockIOSpec St} (devsw : list (devops (St := logst St))).
Implicit Types (V : list (list Z)) (fs : list input).

(** The log of the image: 30 blocks from block 2 on. *)
Abbreviation image_log D tr := (log_txn (St := St) 2 30 D tr 1).

Lemma image_home D tr n : 32 ≤ n < 1000 → tx_home (TxnSpec := image_log D tr) 1000 n.
Proof. intros Hn. change (home 2 30 1000 n). unfold home, in_log. lia. Qed.

Lemma image_recoverable D tr V ds cs :
  disk_with (TxnSpec0 := image_log D tr) V ds cs → recoverable 2 30 V ∧ logical 2 V = V ∧ sb_of_bytes (V !!! 1%nat) = Mkfs.sb.
Proof.
  intros Hd. pose proof (g_sb _ _ (dk_geom _ _ _ Hd)) as Hsb. pose proof (dk_len _ _ _ Hd) as Hl.
  assert (hdr_n (header 2 V) = 0) as Hh.
  { unfold header. change (Z.to_nat 2) with 2%nat. rewrite (dk_log _ _ _ Hd). done. }
  split_and!; [split; [|split]| |done].
  - split; rewrite ?Hsb, ?Hl; try done. apply Hd.
  - lia.
  - unfold hdr_blocks. rewrite Hh. split; [done|constructor..].
  - apply logical_empty. lia.
Qed.

Lemma image_geom D tr D' tr' V ds cs :
  disk_with (TxnSpec0 := image_log D tr) V ds cs → geom (TxnSpec0 := image_log D' tr') Mkfs.sb V.
Proof. intros Hd. destruct (dk_geom _ _ _ Hd). by split. Qed.

(** Boot, find a file by its path, lock it and read it. *)
Definition boot_and_read (path junk : list Z) (len : Z) : M (fsst (logst St)) (option (Z * list Z)) :=
  first_op;;
  r ← namei devsw path junk;
  match r with
  | None => mret None
  | Some ip =>
      ilock (Some ip);;
      x ← readi devsw ip 0 len;
      mret (Some x)
  end.

Lemma boot_read_run V fs k f junk len :
  (∀ D tr, disk_with (TxnSpec0 := image_log D tr) V (root_entries fs) (contents <$> fs)) →
  Forall input_ok fs → named fs k f → (DIRSIZ ≤ length junk)%nat → 0 ≤ len < 2 ^ 32 →
  wp (boot_and_read (47 :: file_name f ++ [0]) junk len)
    (λ r _, r = Some (Z.min len (Z.of_nat (length (contents f))), take (Z.to_nat len) (contents f))) (boot_fs V).
Proof.
  intros Hdisk Hin Hnm Hj Hlen. destruct (image_recoverable [] [] V _ _ (Hdisk [] [])) as (Hrec&Hlog&Hsb).
  unfold boot_and_read. apply wp_bind, (first_op_run 2 30 Mkfs.sb); [done|done|..]; rewrite Hlog.
  { intros D tr. exact (image_geom D tr D tr V _ _ (Hdisk D tr)). }
  { apply (Hdisk [] []). }
  intros s D tr Hi Ha Hcache. set (T0 := image_log D tr) in *. set (I := dino V Mkfs.sb) in *.
  destruct (disk_shows V D fs (Hdisk D tr) Hin Ha) as [Htree Hroot Hpath Hfile]. fold I in Htree, Hroot, Hpath, Hfile.
  specialize (Hpath k f Hnm). destruct (Hfile k f Hnm) as (Hlive&Hty&Esz&Hcont).
  set (path := 47 :: file_name f ++ [0]) in *. set (r0 := λ _ : nat, 0).
  apply wp_bind. unfold namei. apply wp_bind.
  eapply wp_mono; [apply (namex_absolute Mkfs.sb devsw s D ∅ I ∅ r0 path false junk); try done|].
  - split; [done|]. exists 0%nat, 1%nat. unfold NINODE. split_and!; (done || lia).
  - intros jp j. rewrite Hcache. intros [-> _]%lookup_replicate. done.
  - rewrite size_empty. lia.
  - unfold path. set_solver.
  - intros [res name'] s1 (Hi1&Hfound&_). rewrite Hpath in Hfound. destruct Hfound as (ip&->&Hent&Hsh).
    apply wp_ret. cbn [fst]. apply wp_bind.
    eapply (ilock_shape Mkfs.sb s1 D ∅ I ∅ _ ip (2 + Z.of_nat k)); [done|done|done| |done|rewrite size_empty; lia|].
    + rewrite fn_lookup_insert. done.
    + intros s2 i2 Hi2 _ Hat2 _. apply wp_bind.
      eapply (readi_run Mkfs.sb devsw s2 D ∅ I ∅ ∅ ∅ ip (2 + Z.of_nat k)); [done|done|set_solver|rewrite size_empty; lia|by rewrite Hty|done|done|].
      intros io _. apply wp_ret. rewrite decide_True by lia. f_equal.
      rewrite Z.sub_0_r, Esz. f_equal. rewrite <- sub_fdata by (rewrite ?Esz; lia). rewrite Hcont. unfold sub. rewrite drop_0.
      destruct (Z.le_gt_cases len (Z.of_nat (length (contents f)))); [by rewrite Z.min_l by lia|].
      rewrite Z.min_r by lia. rewrite !take_ge by lia. done.
Qed.

Lemma disk_any_log D tr D' tr' V ds cs :
  disk_with (TxnSpec0 := image_log D tr) V ds cs → disk_with (TxnSpec0 := image_log D' tr') V ds cs.
Proof. intros Hd. pose proof (image_geom D tr D' tr' V ds cs Hd). destruct Hd. by split. Qed.

Lemma mkfs_disk fs D tr :
  fits fs → ∃ s, Mkfs.main fs Mkfs.start = Ok tt s ∧ disk_with (TxnSpec0 := image_log D tr) (mk_img s) (root_entries fs) (contents <$> fs).
Proof.
  intros Hf. destruct (proj1 (wp_run _ _ _) (main_run (image_home D tr) fs
    (λ _ s, disk_with (TxnSpec0 := image_log D tr) (mk_img s) (root_entries fs) (contents <$> fs)) Hf (λ s H, H))) as ([]&s&Hr&Hd).
  exists s. split; [exact Hr|exact Hd].
Qed.

(** C17. mkfs makes a file system.  When the files fit the disk, mkfs ends without an error, and the image
    it has written is a disk from which the kernel can boot: its log is empty, no block has two owners and the free map is
    exact, the root directory holds ".", ".." and the files in the order of the arguments, without their leading
    underscores, and each file has the bytes that were read, with one link. *)
Theorem mkfs_makes_fs fs D tr :
  fits fs →
  ∃ s, Mkfs.main fs Mkfs.start = Ok tt s ∧ recoverable 2 30 (mk_img s) ∧ logical 2 (mk_img s) = mk_img s ∧
    disk_with (TxnSpec0 := image_log D tr) (mk_img s) (root_entries fs) (contents <$> fs) ∧
    tree_ok Mkfs.sb (mk_img s) (dino (mk_img s) Mkfs.sb).
Proof.
  intros Hf. destruct (mkfs_disk fs D tr Hf) as (s&Hr&Hd). exists s. split; [exact Hr|].
  destruct (image_recoverable D tr _ _ _ Hd) as (Hrec&Hlog&_). split; [exact Hrec|]. split; [exact Hlog|].
  split; [exact Hd|]. exact (proj1 (disk_tree _ _ Hd)).
Qed.

(** C16. What mkfs copies into the image is what the kernel reads.  After mkfs, boot the kernel from the
    image (iinit, then recovery), and in its first operation look a file up by its path, lock it
    and read it: the bytes are those of the file that was given to mkfs, up to the length asked for. *)
Theorem mkfs_boot_read fs k f junk len :
  fits fs → named fs k f → (DIRSIZ ≤ length junk)%nat → 0 ≤ len < 2 ^ 32 →
  ∃ s s', Mkfs.main fs Mkfs.start = Ok tt s ∧
    boot_and_read (47 :: file_name f ++ [0]) junk len (boot_fs (mk_img s)) =
      Ok (Some (Z.min len (Z.of_nat (length (contents f))), take (Z.to_nat len) (contents f))) s'.
Proof.
  intros Hf Hn Hj Hlen. destruct (mkfs_disk fs [] [] Hf) as (s&Hr&Hd).
  destruct (proj1 (wp_run _ _ _) (boot_read_run (mk_img s) fs k f junk len
    (λ D tr, disk_any_log [] [] D tr _ _ _ Hd) (ft_inputs _ Hf) Hn Hj Hlen)) as (r&s'&Hb&->).
  exists s, s'. split; [exact Hr|exact Hb].
Qed.
End Kernel.

(** * Examples *)

(** The files _a with "hi", and b with "!" and then "#" and "$". *)
Definition ex_files : list input := [Input [95; 97] (Some [[104; 105]]); Input [98] (Some [[33]; [35; 36]])].

Lemma ex_fits : fits ex_files.
Proof.
  split; [|vm_compute; discriminate..].
  repeat constructor; simpl; try lia; try set_solver; eexists; (split; [done|]); (split; [by repeat constructor|vm_compute; discriminate]).
Qed.

Lemma mkfs_makes_fs_witness :
  ∃ s, Mkfs.main ex_files Mkfs.start = Ok tt s ∧ fdata (mk_img s) (dino (mk_img s) Mkfs.sb 3) = [33; 35; 36] ∧
    di_nlink (dino (mk_img s) Mkfs.sb 3) = 1.
Proof.
  destruct (mkfs_makes_fs (St := bcache) ex_files [] [] ex_fits) as (s&Hr&_&_&Hd&_). exists s. split; [exact Hr|].
  destruct (dk_file _ _ _ Hd 1%nat [33; 35; 36] eq_refl) as (_&[a Ha]&Hc). split; [exact Hc|].
  change (2 + Z.of_nat 1) with 3 in Ha. rewrite Ha. reflexivity.
Defined.

Lemma mkfs_boot_read_witness :
  ∃ s (s' : fsst (logst bcache)), Mkfs.main ex_files Mkfs.start = Ok tt s ∧
    boot_and_read [] [47; 97; 0] (replicate 14 0) 10 (boot_fs (mk_img s)) = Ok (Some (2, [104; 105])) s'.
Proof.
  apply (mkfs_boot_read (St := bcache) [] ex_files 0 (Input [95; 97] (Some [[104; 105]])) (replicate 14 0) 10).
  - exact ex_fits.
  - split; [reflexivity| |split; vm_compute; discriminate|intros j g Hj; lia].
    split; [discriminate|]. vm_compute. set_solver.
  - vm_compute. lia.
  - lia.
Defined.

(** The root directory can end in a block that it does not have.  With 30 files the 32 entries of the root directory fill its first block;
    mkfs then rounds its size up to the end of the next block, for which there is no block on the disk. *)
Theorem mkfs_root_hole :
  ∃ s, Mkfs.main (replicate 30 (Input [97] (Some []))) Mkfs.start = Ok tt s ∧
    di_size (dino (mk_img s) Mkfs.sb ROOTINO) = 2 * BSIZE ∧
    fptr (mk_img s) (di_addrs (dino (mk_img s) Mkfs.sb ROOTINO)) 1 = 0.
Proof.
  assert (match Mkfs.main (replicate 30 (Input [97] (Some []))) Mkfs.start with
    | Ok _ s => (di_size (dino (mk_img s) Mkfs.sb ROOTINO) =? 2 * BSIZE) &&
        (fptr (mk_img s) (di_addrs (dino (mk_img s) Mkfs.sb ROOTINO)) 1 =? 0)
    | _ => false end = true) as H by (vm_compute; reflexivity).
  destruct (Mkfs.main _ _) as [[] s| |]; [|discriminate H..]. exists s. split; [reflexivity|].
  apply andb_prop in H as [H1%Z.eqb_eq H2%Z.eqb_eq]. by split.
Qed.
