(* ===== verification/Proc.v ===== *)
(** The process table (src/proc.c, src/proc.h): process states, allocation of
    slots, sleep and wakeup, exit, wait, kill and the scheduler, as a system of
    several CPUs.  The handlers that also touch memory and files are composed in
    Kproc.v from the parts of this file.

    A [struct proc *] is an index into ptable.proc; a null pointer is [None]. *)

From S2P Require Import Prelude Layout.

(** * Data *)

Inductive procstate := UNUSED | EMBRYO | SLEEPING | RUNNABLE | RUNNING | ZOMBIE.
#[global] Instance procstate_eq_dec : EqDecision procstate.
Proof. solve_decision. Defined.

(** struct trapframe (x86.h) *)
Record trapframe := Trapframe {
  tf_rax : Z; tf_rbx : Z; tf_rcx : Z; tf_rdx : Z; tf_rbp : Z; tf_rsi : Z; tf_rdi : Z;
  tf_r8 : Z; tf_r9 : Z; tf_r10 : Z; tf_r11 : Z; tf_r12 : Z; tf_r13 : Z; tf_r14 : Z; tf_r15 : Z;
  tf_trapno : Z; tf_err : Z; tf_rip : Z; tf_cs : Z; tf_rflags : Z; tf_rsp : Z; tf_ss : Z;
}.
Definition zero_tf : trapframe := Trapframe 0 0 0 0 0 0 0 0 0 0 0 0 0 0 0 0 0 0 0 0 0 0.

(** struct proc; the trap frame and the saved context are the objects that p->tf and
    p->context point to, in the kernel stack of the process.  Of the context
    only rip, where the kernel thread resumes. *)
Record proc := Proc {
  p_sz : Z;
  p_pgdir : Z;
  p_kstack : Z;
  p_state : procstate;
  p_pid : Z;
  p_parent : option nat;
  p_tf : trapframe;
  p_rip : Z;
  p_chan : Z;
  p_killed : bool;
  p_ofile : list (option nat);
  p_cwd : option nat;
  p_name : list Z;
}.

Definition set_p_state (st : procstate) (p : proc) : proc :=
  Proc (p_sz p) (p_pgdir p) (p_kstack p) st (p_pid p) (p_parent p) (p_tf p) (p_rip p) (p_chan p)
    (p_killed p) (p_ofile p) (p_cwd p) (p_name p).
Definition set_p_pid (n : Z) (p : proc) : proc :=
  Proc (p_sz p) (p_pgdir p) (p_kstack p) (p_state p) n (p_parent p) (p_tf p) (p_rip p) (p_chan p)
    (p_killed p) (p_ofile p) (p_cwd p) (p_name p).
Definition set_p_parent (q : option nat) (p : proc) : proc :=
  Proc (p_sz p) (p_pgdir p) (p_kstack p) (p_state p) (p_pid p) q (p_tf p) (p_rip p) (p_chan p)
    (p_killed p) (p_ofile p) (p_cwd p) (p_name p).
Definition set_p_chan (ch : Z) (p : proc) : proc :=
  Proc (p_sz p) (p_pgdir p) (p_kstack p) (p_state p) (p_pid p) (p_parent p) (p_tf p) (p_rip p) ch
    (p_killed p) (p_ofile p) (p_cwd p) (p_name p).
Definition set_p_killed (b : bool) (p : proc) : proc :=
  Proc (p_sz p) (p_pgdir p) (p_kstack p) (p_state p) (p_pid p) (p_parent p) (p_tf p) (p_rip p) (p_chan p)
    b (p_ofile p) (p_cwd p) (p_name p).
Definition set_p_kstack (k : Z) (p : proc) : proc :=
  Proc (p_sz p) (p_pgdir p) k (p_state p) (p_pid p) (p_parent p) (p_tf p) (p_rip p) (p_chan p)
    (p_killed p) (p_ofile p) (p_cwd p) (p_name p).
Definition set_p_name (nm : list Z) (p : proc) : proc :=
  Proc (p_sz p) (p_pgdir p) (p_kstack p) (p_state p) (p_pid p) (p_parent p) (p_tf p) (p_rip p) (p_chan p)
    (p_killed p) (p_ofile p) (p_cwd p) nm.

Definition set_p_sz (n : Z) (p : proc) : proc :=
  Proc n (p_pgdir p) (p_kstack p) (p_state p) (p_pid p) (p_parent p) (p_tf p) (p_rip p) (p_chan p)
    (p_killed p) (p_ofile p) (p_cwd p) (p_name p).
Definition set_p_pgdir (pgdir : Z) (p : proc) : proc :=
  Proc (p_sz p) pgdir (p_kstack p) (p_state p) (p_pid p) (p_parent p) (p_tf p) (p_rip p) (p_chan p)
    (p_killed p) (p_ofile p) (p_cwd p) (p_name p).
Definition set_p_tf (tf : trapframe) (p : proc) : proc :=
  Proc (p_sz p) (p_pgdir p) (p_kstack p) (p_state p) (p_pid p) (p_parent p) tf (p_rip p) (p_chan p)
    (p_killed p) (p_ofile p) (p_cwd p) (p_name p).
Definition set_p_rip (rip : Z) (p : proc) : proc :=
  Proc (p_sz p) (p_pgdir p) (p_kstack p) (p_state p) (p_pid p) (p_parent p) (p_tf p) rip (p_chan p)
    (p_killed p) (p_ofile p) (p_cwd p) (p_name p).
Definition set_p_ofile (l : list (option nat)) (p : proc) : proc :=
  Proc (p_sz p) (p_pgdir p) (p_kstack p) (p_state p) (p_pid p) (p_parent p) (p_tf p) (p_rip p) (p_chan p)
    (p_killed p) l (p_cwd p) (p_name p).
Definition set_p_cwd (d : option nat) (p : proc) : proc :=
  Proc (p_sz p) (p_pgdir p) (p_kstack p) (p_state p) (p_pid p) (p_parent p) (p_tf p) (p_rip p) (p_chan p)
    (p_killed p) (p_ofile p) d (p_name p).

(** The globals of proc.c. *)
Record ptable := Ptable {
  pt_lock : bool;
  pt_proc : list proc;
  pt_nextpid : Z;
  pt_initproc : option nat;
}.

Definition set_pt_lock (b : bool) (s : ptable) : ptable :=
  Ptable b (pt_proc s) (pt_nextpid s) (pt_initproc s).
Definition set_pt_proc (l : list proc) (s : ptable) : ptable :=
  Ptable (pt_lock s) l (pt_nextpid s) (pt_initproc s).
Definition set_pt_nextpid (n : Z) (s : ptable) : ptable :=
  Ptable (pt_lock s) (pt_proc s) n (pt_initproc s).
Definition ptable_lock : lens ptable bool := Lens pt_lock set_pt_lock.
Definition pinit : M ptable unit := modify (set_pt_lock false).

(** * Code *)

Section Code.
(** the address of ptable.proc *)
Context (ptab : Z).
(** sizeof(struct proc) *)
Definition PROC_SIZE : Z := 224.
(** A pointer to a process, as a sleep channel. *)
Definition proc_chan (p : option nat) : Z :=
  match p with Some i => ptab + PROC_SIZE * Z.of_nat i | None => 0 end.

Definition getp (i : nat) : M ptable proc := l ← gets pt_proc; the "ptable.proc" (l !! i).
Definition updp (i : nat) (f : proc → proc) : M ptable unit :=
  modify (λ s, set_pt_proc (alter f i (pt_proc s)) s).

(** The search of allocproc: the first unused slot. *)
Fixpoint find_unused (i : nat) (l : list proc) : option nat :=
  match l with
  | [] => None
  | p :: l => if decide (p_state p = UNUSED) then Some i else find_unused (S i) l
  end.

(** allocproc up to the second release of ptable.lock; nextpid is an int, whose overflow
    is undefined. *)
Definition alloc_slot : M ptable (option nat) :=
  acquire ptable_lock;;
  l ← gets pt_proc;
  match find_unused 0 l with
  | None => release ptable_lock;; mret None
  | Some i =>
      updp i (set_p_state EMBRYO);;
      n ← gets pt_nextpid;
      updp i (set_p_pid n);;
      when (2 ^ 31 - 1 <=? n) (undefined "nextpid++");;
      modify (set_pt_nextpid (n + 1));;
      release ptable_lock;;
      mret (Some i)
  end.

Definition wake_proc (ch : Z) (p : proc) : proc :=
  if decide (p_state p = SLEEPING ∧ p_chan p = ch) then set_p_state RUNNABLE p else p.
Definition wakeup1 (ch : Z) : M ptable unit :=
  modify (λ s, set_pt_proc (wake_proc ch <$> pt_proc s) s).

Definition wakeup (ch : Z) : M ptable unit :=
  acquire ptable_lock;; wakeup1 ch;; release ptable_lock.

Fixpoint find_pid (pid : Z) (i : nat) (l : list proc) : option nat :=
  match l with
  | [] => None
  | p :: l => if p_pid p =? pid then Some i else find_pid pid (S i) l
  end.

Definition kill (pid : Z) : M ptable Z :=
  acquire ptable_lock;;
  l ← gets pt_proc;
  match find_pid pid 0 l with
  | Some i =>
      updp i (set_p_killed true);;
      p ← getp i;
      (if decide (p_state p = SLEEPING) then updp i (set_p_state RUNNABLE) else mret tt);;
      release ptable_lock;;
      mret 0
  | None => release ptable_lock;; mret (-1)
  end.

(** The checks of sched, and the switch to the scheduler, which goes on with
    ptable.lock held; the CPU's lock nesting and its interrupt flag are those of
    Spinlock.v. *)
Definition sched_checks (me : nat) (ncli : Z) (int_on : bool) : M ptable unit :=
  h ← gets pt_lock;
  if negb h then panic "sched ptable.lock" else
  if negb (ncli =? 1) then panic "sched locks" else
  p ← getp me;
  if decide (p_state p = RUNNING) then panic "sched running" else
  if int_on then panic "sched interruptible" else mret tt.

(** A process in the kernel switches with one lock, ptable.lock, and interrupts off. *)
Definition sched (me : nat) : M ptable unit := sched_checks me 1 false.

(** yield until the switch; the process that runs next releases the lock. *)
Definition yield (me : nat) : M ptable unit :=
  acquire ptable_lock;;
  updp me (set_p_state RUNNABLE);;
  sched me;;
  release ptable_lock.

(** sleep on [ch] from the acquire of ptable.lock until the switch; [own] says that the
    caller's lock is ptable.lock itself. *)
Definition sleep (me : nat) (ch : Z) (own : bool) : M ptable unit :=
  when (negb own) (acquire ptable_lock);;
  updp me (set_p_chan ch);;
  updp me (set_p_state SLEEPING);;
  sched me;;
  release ptable_lock.

(** sleep after the switch back. *)
Definition sleep_tidy (me : nat) : M ptable unit := updp me (set_p_chan 0).

(** The loop of exit that passes the children to init. *)
Fixpoint reparent (me : nat) (ix : list nat) : M ptable unit :=
  match ix with
  | [] => mret tt
  | i :: ix =>
      p ← getp i;
      init ← gets pt_initproc;
      (if decide (p_parent p = Some me) then
         updp i (set_p_parent init);;
         (if decide (p_state p = ZOMBIE) then wakeup1 (proc_chan init) else mret tt)
       else mret tt);;
      reparent me ix
  end.

(** exit from the acquire of ptable.lock until the switch. *)
Definition exit_locked (me : nat) : M ptable unit :=
  acquire ptable_lock;;
  p ← getp me;
  wakeup1 (proc_chan (p_parent p));;
  l ← gets pt_proc;
  reparent me (seq 0 (length l));;
  updp me (set_p_state ZOMBIE);;
  sched me;;
  release ptable_lock.

(** The scan of wait: the first exited child, and whether there are children
    before it. *)
Fixpoint wait_scan (me : nat) (i : nat) (l : list proc) (havekids : bool) : option nat * bool :=
  match l with
  | [] => (None, havekids)
  | p :: l =>
      if decide (p_parent p = Some me) then
        if decide (p_state p = ZOMBIE) then (Some i, true) else wait_scan me (S i) l true
      else wait_scan me (S i) l havekids
  end.

(** The slot of a child that wait has found is cleared. *)
Definition clear_slot (i : nat) : M ptable unit :=
  updp i (set_p_pid 0);;
  updp i (set_p_parent None);;
  updp i (λ p, set_p_name (<[0%nat := 0]> (p_name p)) p);;
  updp i (set_p_killed false);;
  updp i (set_p_state UNUSED).

(** One round of wait's loop, with ptable.lock held at its start: the pid of a child,
    with its slot, its kernel stack and its page table to be freed, or -1, or the process goes
    to sleep on itself. *)
Inductive wait_result :=
| Reaped (pid kstack pgdir : Z) (i : nat)
| NoChild
| Asleep.

(** The child's kernel stack and page table, which are freed before its slot is cleared, are results here; Kproc.v has the whole of
    wait. *)
Definition wait_round (me : nat) : M ptable wait_result :=
  l ← gets pt_proc;
  match wait_scan me 0 l false with
  | (Some i, _) =>
      p ← getp i;
      updp i (set_p_kstack 0);;
      clear_slot i;;
      release ptable_lock;;
      mret (Reaped (p_pid p) (p_kstack p) (p_pgdir p) i)
  | (None, havekids) =>
      p ← getp me;
      if negb havekids || p_killed p then release ptable_lock;; mret NoChild
      else sleep me (proc_chan (Some me)) true;; mret Asleep
  end.

(** The scheduler's scan from [pos] on. *)
Fixpoint scan_runnable (pos : nat) (i : nat) (l : list proc) : option nat :=
  match l with
  | [] => None
  | p :: l =>
      if decide (p_state p = RUNNABLE ∧ (pos ≤ i)%nat) then Some i else scan_runnable pos (S i) l
  end.

(** The scheduler chooses a process, with the lock held. *)
Definition scheduler_pick (pos : nat) : M ptable (option nat) :=
  acquire ptable_lock;;
  l ← gets pt_proc;
  match scan_runnable pos 0 l with
  | Some i => updp i (set_p_state RUNNING);; release ptable_lock;; mret (Some i)
  | None => release ptable_lock;; mret None
  end.

(** What fork does to the table once the memory is copied: the child gets its parent and may run.  The code between the two
    assignments, which touches other fields of the child only, is in Kproc.v. *)
Definition fork_ready (np me : nat) : M ptable Z :=
  updp np (set_p_parent (Some me));;
  p ← getp np;
  updp np (set_p_state RUNNABLE);;
  mret (p_pid p).
(** fork fails after allocproc. *)
Definition fork_undo (np : nat) : M ptable unit :=
  updp np (set_p_kstack 0);; updp np (set_p_state UNUSED).
End Code.

(** * The system

    CPUs run processes, one each; the scheduler of an idle CPU goes on with its
    scan of the table.  Every step is one critical section of ptable.lock, or the end of
    fork, which publishes the child without the lock.  A process that is in the middle of fork
    ([w_forks]: the slot of the child and the parent) does nothing else but yield. *)

Module System.
Record cpu := Cpu { c_proc : option nat; c_pos : nat }.
Record world := World { w_pt : ptable; w_cpus : list cpu; w_forks : gmap nat nat }.

Section Step.
Context (ptab : Z).

(** CPU [c] runs process [i], which is not in fork. *)
Definition runs (w : world) (c i pos : nat) : Prop := w_cpus w !! c = Some (Cpu (Some i) pos).
Definition not_forking (w : world) (i : nat) : Prop := ∀ np, w_forks w !! np ≠ Some i.

(** The CPU returns to its scheduler. *)
Definition idle (w : world) (c pos : nat) (pt : ptable) : world :=
  World pt (<[c := Cpu None pos]> (w_cpus w)) (w_forks w).
Definition set_pt (w : world) (pt : ptable) : world := World pt (w_cpus w) (w_forks w).

(** No channel of another component is a pointer to a process. *)
Definition other_chan (ch : Z) : Prop := ∀ i, ch ≠ proc_chan ptab (Some i).

Inductive step (w : world) : world → Prop :=
| s_pick c pos i pt : w_cpus w !! c = Some (Cpu None pos) → scheduler_pick pos (w_pt w) = Ok (Some i) pt →
    step w (World pt (<[c := Cpu (Some i) (S i)]> (w_cpus w)) (w_forks w))
| s_wrap c pos pt : w_cpus w !! c = Some (Cpu None pos) → scheduler_pick pos (w_pt w) = Ok None pt →
    step w (World pt (<[c := Cpu None 0]> (w_cpus w)) (w_forks w))
| s_yield c i pos pt : runs w c i pos → yield i (w_pt w) = Ok tt pt → step w (idle w c pos pt)
| s_sleep c i pos ch pt : runs w c i pos → not_forking w i → other_chan ch →
    sleep i ch false (w_pt w) = Ok tt pt → step w (idle w c pos pt)
| s_tidy c i pos pt : runs w c i pos → sleep_tidy i (w_pt w) = Ok tt pt → step w (set_pt w pt)
| s_wakeup ch pt : wakeup ch (w_pt w) = Ok tt pt → step w (set_pt w pt)
| s_kill pid r pt : kill pid (w_pt w) = Ok r pt → step w (set_pt w pt)
| s_fork c i pos np pt : runs w c i pos → not_forking w i → alloc_slot (w_pt w) = Ok (Some np) pt →
    step w (World pt (w_cpus w) (<[np := i]> (w_forks w)))
| s_fork_ready c i pos np pid pt : runs w c i pos → w_forks w !! np = Some i →
    fork_ready np i (w_pt w) = Ok pid pt → step w (World pt (w_cpus w) (delete np (w_forks w)))
| s_fork_undo c i pos np pt : runs w c i pos → w_forks w !! np = Some i →
    fork_undo np (w_pt w) = Ok tt pt → step w (World pt (w_cpus w) (delete np (w_forks w)))
| s_exit c i pos pt : runs w c i pos → not_forking w i → pt_initproc (w_pt w) ≠ Some i →
    exit_locked ptab i (w_pt w) = Ok tt pt → step w (idle w c pos pt)
| s_wait c i pos r pt : runs w c i pos → not_forking w i →
    wait_round ptab i (set_pt_lock true (w_pt w)) = Ok r pt →
    step w (match r with Asleep => idle w c pos pt | _ => set_pt w pt end).

(** Boot: init is the only process, and it may run. *)
Definition unused : proc := Proc 0 0 0 UNUSED 0 None zero_tf 0 0 false (replicate NOFILE None) None (replicate 16 0).
Definition boot (ncpu : nat) : world :=
  World (Ptable false (<[0%nat := set_p_state RUNNABLE (set_p_pid 1 unused)]> (replicate (Z.to_nat NPROC) unused)) 2 (Some 0%nat))
    (replicate ncpu (Cpu None 0)) ∅.

Definition reachable (ncpu : nat) (w : world) : Prop := rtc step (boot ncpu) w.
End Step.

(** ** The effect of a step on the table *)

Definition alive (p : proc) : Prop := p_state p = SLEEPING ∨ p_state p = RUNNABLE ∨ p_state p = RUNNING.

Section Effect.
Context (ptab : Z).
Implicit Types (l : list proc) (p q : proc) (w : world).

Abbreviation procs w := (pt_proc (w_pt w)).

(** exit of [me] with the table [l]: its children are init's, the parent is awake, and
    init is if it got an exited child. *)
Record exited l (init : option nat) (me : nat) l' : Prop := {
  ex_len : length l' = length l;
  ex_entry i p : l !! i = Some p → ∃ p', l' !! i = Some p' ∧ p_pid p' = p_pid p ∧ p_chan p' = p_chan p ∧
    p_parent p' = (if decide (p_parent p = Some me) then init else p_parent p) ∧
    (p_state p' = (if decide (i = me) then ZOMBIE else p_state p) ∨ p_state p = SLEEPING ∧ p_state p' = RUNNABLE ∧ i ≠ me);
  ex_parent p i p' : l !! me = Some p → l' !! i = Some p' → p_state p' = SLEEPING → p_chan p' ≠ proc_chan ptab (p_parent p);
  ex_init j q i p' : l !! j = Some q → p_parent q = Some me → p_state q = ZOMBIE →
    l' !! i = Some p' → p_state p' = SLEEPING → p_chan p' ≠ proc_chan ptab init;
}.

Lemma wp_inv {St A} (m : M St A) Q s a s' : wp m Q s → m s = Ok a s' → Q a s'.
Proof. unfold wp. intros Hw He. by rewrite He in Hw. Qed.

Lemma wp_getp s i p (Q : proc → ptable → Prop) : pt_proc s !! i = Some p → Q p s → wp (getp i) Q s.
Proof. intros Hi HQ. apply wp_bind, wp_gets. by apply (wp_the _ _ p). Qed.

Lemma wp_updp s i p f (Q : unit → ptable → Prop) :
  pt_proc s !! i = Some p → Q tt (set_pt_proc (<[i := f p]> (pt_proc s)) s) → wp (updp i f) Q s.
Proof. intros Hi HQ. apply wp_modify. by rewrite (alter_known _ _ _ p). Qed.

Lemma wp_sched s i p (Q : unit → ptable → Prop) :
  pt_lock s = true → pt_proc s !! i = Some p → p_state p ≠ RUNNING → Q tt s → wp (sched i) Q s.
Proof.
  intros Hl Hi Hp HQ. unfold sched, sched_checks. apply wp_bind, wp_gets. rewrite Hl. simpl.
  apply wp_bind. eapply wp_getp; [done|]. by rewrite decide_False.
Qed.

Lemma put_twice s i p p' (l : list proc) :
  set_pt_proc (<[i := p']> (pt_proc (set_pt_proc (<[i := p]> l) s))) (set_pt_proc (<[i := p]> l) s) = set_pt_proc (<[i := p']> l) s.
Proof. unfold set_pt_proc. simpl. by rewrite list_insert_insert_eq. Qed.

(** The loop of exit over the slots [ix]. *)
Record moved l (init : option nat) (me : nat) (ix : list nat) l' : Prop := {
  mv_len : length l' = length l;
  mv_entry i p : l !! i = Some p → ∃ p', l' !! i = Some p' ∧ p_pid p' = p_pid p ∧ p_chan p' = p_chan p ∧
    p_parent p' = (if decide (p_parent p = Some me ∧ i ∈ ix) then init else p_parent p) ∧
    (p_state p' = p_state p ∨ p_state p = SLEEPING ∧ p_state p' = RUNNABLE);
  mv_init j q i p' : j ∈ ix → l !! j = Some q → p_parent q = Some me → p_state q = ZOMBIE →
    l' !! i = Some p' → p_state p' = SLEEPING → p_chan p' ≠ proc_chan ptab init;
}.

Lemma lookup_woken ch l i p' :
  (wake_proc ch <$> l) !! i = Some p' ↔ ∃ p, l !! i = Some p ∧ p' = wake_proc ch p.
Proof. rewrite list_lookup_fmap. destruct (l !! i); naive_solver. Qed.

Lemma wake_proc_spec ch p :
  p_pid (wake_proc ch p) = p_pid p ∧ p_chan (wake_proc ch p) = p_chan p ∧ p_parent (wake_proc ch p) = p_parent p ∧
  (p_state (wake_proc ch p) = p_state p ∨ p_state p = SLEEPING ∧ p_state (wake_proc ch p) = RUNNABLE) ∧
  (p_state (wake_proc ch p) = SLEEPING → p_chan p ≠ ch).
Proof. unfold wake_proc. case_decide as Hc; simpl; [by naive_solver|]. naive_solver. Qed.

(** One slot of the loop. *)
Definition move1 (init : option nat) (me i : nat) p l : list proc :=
  if decide (p_parent p = Some me) then
    let l1 := <[i := set_p_parent init p]> l in
    if decide (p_state p = ZOMBIE) then wake_proc (proc_chan ptab init) <$> l1 else l1
  else l.

Lemma move1_moved init me i p l :
  l !! i = Some p → moved l init me [i] (move1 init me i p l).
Proof.
  intros Hi. pose proof (lookup_lt_Some _ _ _ Hi) as Hlt. unfold move1. split.
  - repeat case_decide; by rewrite ?length_fmap, ?length_insert.
  - intros j q Hj. destruct (decide (p_parent p = Some me)) as [Hp|Hp].
    + assert (∃ q1, <[i := set_p_parent init p]> l !! j = Some q1 ∧ p_pid q1 = p_pid q ∧ p_chan q1 = p_chan q ∧
        p_parent q1 = (if decide (p_parent q = Some me ∧ j ∈ [i]) then init else p_parent q) ∧ p_state q1 = p_state q)
        as (q1&Hq1&E1&E2&E3&E4).
      { rewrite list_lookup_insert_dec by done. destruct (decide (j = i)) as [->|Hne].
        - rewrite Hi in Hj. injection Hj as <-. eexists. split; [done|]. split_and!; try done. simpl.
          rewrite decide_True; [done|]. split; [done|]. apply list_elem_of_here.
        - exists q. split_and!; try done. rewrite decide_False; [done|]. by rewrite list_elem_of_singleton; intros [_ ?]. }
      destruct (decide (p_state p = ZOMBIE)) as [Hz|Hz].
      * pose proof (wake_proc_spec (proc_chan ptab init) q1) as (?&?&?&Hst&_).
        exists (wake_proc (proc_chan ptab init) q1). split; [apply lookup_woken; by exists q1|].
        rewrite E4 in Hst. split_and!; congruence || done.
      * exists q1. split_and!; try done. by left.
    + exists q. split_and!; try done; [|by left]. rewrite decide_False; [done|].
      rewrite list_elem_of_singleton. intros [Hq ->]. congruence.
  - intros j q k p' ->%list_elem_of_singleton Hj Hq Hz. rewrite Hi in Hj. injection Hj as <-.
    rewrite !decide_True by done. intros (p1&_&->)%lookup_woken Hs.
    pose proof (wake_proc_spec (proc_chan ptab init) p1) as (_&->&_&_&Hw). by apply Hw.
Qed.

Lemma moved_nil l init me : moved l init me [] l.
Proof.
  split; [done| |by intros j q i p' Hj%not_elem_of_nil]. intros i p Hi. exists p. split_and!; try done; [|by left].
  rewrite decide_False; [done|]. intros [_ Hin]. by apply not_elem_of_nil in Hin.
Qed.

Lemma moved_cons l l1 l2 init me i ix :
  init ≠ Some me → moved l init me [i] l1 → moved l1 init me ix l2 → moved l init me (i :: ix) l2.
Proof.
  intros Hne [Hl1 He1 Hz1] [Hl2 He2 Hz2]. split; [congruence| |].
  - intros j p Hj. destruct (He1 j p Hj) as (p1&Hp1&A1&A2&A3&A4). destruct (He2 j p1 Hp1) as (p2&Hp2&B1&B2&B3&B4).
    exists p2. split_and!; [done|congruence..| |].
    + rewrite B3, A3. repeat case_decide; try naive_solver set_solver.
    + destruct A4 as [A4|[A4 A4']], B4 as [B4|[B4 B4']]; rewrite ?A4, ?A4' in *; naive_solver.
  - intros j q k p' Hj Hq Hqp Hqz Hk Hs.
    destruct (He1 j q Hq) as (q1&Hq1&_&_&A3&A4).
    assert (p_state q1 = ZOMBIE) as Hz by (destruct A4 as [A4|[A4 _]]; congruence).
    destruct (decide (j ∈ [i])) as [Hin|Hnin].
    + assert (is_Some (l1 !! k)) as [p1 Hp1].
      { apply lookup_lt_is_Some. apply lookup_lt_Some in Hk. congruence. }
      destruct (He2 k p1 Hp1) as (p2&Hp2&_&B2&_&B4). rewrite Hp2 in Hk. injection Hk as <-.
      rewrite B2. eapply (Hz1 j q k p1); try done. destruct B4 as [B4|[B4 B4']]; congruence.
    + eapply (Hz2 j q1); try done; [set_solver|]. rewrite A3, decide_False; [done|]. by intros [_ ?].
Qed.

Lemma reparent_run ix s me (Q : unit → ptable → Prop) :
  (∀ i, i ∈ ix → (i < length (pt_proc s))%nat) → pt_initproc s ≠ Some me →
  (∀ l', moved (pt_proc s) (pt_initproc s) me ix l' → Q tt (set_pt_proc l' s)) →
  wp (reparent ptab me ix) Q s.
Proof.
  revert s. induction ix as [|i ix IH]; intros s Hix Hinit HQ.
  { apply wp_ret. replace s with (set_pt_proc (pt_proc s) s) by (by destruct s). apply HQ, moved_nil. }
  destruct (lookup_lt_is_Some_2 (pt_proc s) i) as [p Hp]; [apply Hix, list_elem_of_here|].
  simpl. apply wp_bind. eapply wp_getp; [done|]. apply wp_bind, wp_gets, wp_bind.
  pose proof (move1_moved (pt_initproc s) me i p (pt_proc s) Hp) as Hm.
  assert (wp (reparent ptab me ix) Q (set_pt_proc (move1 (pt_initproc s) me i p (pt_proc s)) s)) as Hrest.
  { apply IH; [|done|].
    - intros j Hj. simpl. rewrite (mv_len _ _ _ _ _ Hm). apply Hix. by apply list_elem_of_further.
    - intros l' Hl'. apply HQ. by eapply moved_cons. }
  unfold move1 in Hrest. destruct (decide (p_parent p = Some me)) as [Hpp|Hpp].
  - apply wp_bind. eapply wp_updp; [done|]. case_decide; [apply wp_modify|apply wp_ret]; exact Hrest.
  - apply wp_ret. replace s with (set_pt_proc (pt_proc s) s) by (by destruct s). exact Hrest.
Qed.

Lemma exit_run s me p (Q : unit → ptable → Prop) :
  pt_lock s = false → pt_proc s !! me = Some p → pt_initproc s ≠ Some me → p_state p = RUNNING →
  (∀ l', exited (pt_proc s) (pt_initproc s) me l' → Q tt (set_pt_proc l' s)) →
  wp (exit_locked ptab me) Q s.
Proof.
  intros Hl Hme Hinit Hrun HQ. unfold exit_locked. apply wp_bind, wp_acquire; [done|]. simpl.
  apply wp_bind. eapply wp_getp; [done|]. apply wp_bind, wp_modify. simpl.
  set (l1 := wake_proc (proc_chan ptab (p_parent p)) <$> pt_proc s).
  assert (length l1 = length (pt_proc s)) as Hlen1 by apply length_fmap.
  apply wp_bind, wp_gets. simpl. fold l1. apply wp_bind, reparent_run; [|done|].
  { simpl. intros i Hi%elem_of_seq. lia. }
  simpl. intros l2 [Hl2 He2 Hz2].
  assert (l1 !! me = Some p) as Hme1.
  { apply lookup_woken. exists p. split; [done|]. unfold wake_proc. rewrite decide_False; [done|]. intros [? _]. congruence. }
  destruct (He2 me p Hme1) as (p2&Hp2&A1&A2&A3&A4). pose proof (lookup_lt_Some _ _ _ Hp2) as Hlt.
  apply wp_bind. eapply wp_updp; [done|]. simpl.
  apply wp_bind. eapply wp_sched; [done|simpl; by apply list_lookup_insert_eq|done|].
  apply wp_release; [done|]. simpl. match goal with |- Q _ ?g => replace g with (set_pt_proc (<[me := set_p_state ZOMBIE p2]> l2) s) end.
  2: { destruct s. simpl in *. by subst. }
  apply HQ. split.
  - rewrite length_insert. congruence.
  - intros i q Hq. pose proof (wake_proc_spec (proc_chan ptab (p_parent p)) q) as (B1&B2&B3&B4&_).
    destruct (He2 i _ (proj2 (lookup_woken _ _ _ _) (ex_intro _ q (conj Hq eq_refl)))) as (q2&Hq2&C1&C2&C3&C4).
    assert (i ∈ seq 0 (length l1)) as Hin by (apply elem_of_seq; apply lookup_lt_Some in Hq; lia).
    assert (p_parent q2 = if decide (p_parent q = Some me) then pt_initproc s else p_parent q) as C3'.
    { rewrite C3, B3. repeat case_decide; naive_solver. }
    rewrite list_lookup_insert_dec by done. destruct (decide (i = me)) as [->|Hne].
    + rewrite Hp2 in Hq2. injection Hq2 as <-. eexists. split; [done|]. simpl.
      split_and!; [congruence|congruence|done|by left].
    + exists q2. split_and!; [done|congruence|congruence|done|].
      destruct B4 as [B4|[B4 B4']], C4 as [C4|[C4 C4']]; rewrite ?B4, ?B4' in *; naive_solver.
  - intros q i p' Hq Hp' Hs. rewrite Hme in Hq. injection Hq as <-.
    rewrite list_lookup_insert_dec in Hp' by done. destruct (decide (i = me)) as [->|Hne]; [by injection Hp' as <-|].
    assert (is_Some (l1 !! i)) as [q1 Hq1] by (apply lookup_lt_is_Some; apply lookup_lt_Some in Hp'; congruence).
    destruct (He2 i q1 Hq1) as (q2&Hq2&_&C2&_&C4). rewrite Hq2 in Hp'. injection Hp' as <-.
    apply lookup_woken in Hq1 as (q&_&->). pose proof (wake_proc_spec (proc_chan ptab (p_parent p)) q) as (_&B2&_&_&B5).
    rewrite C2, B2. apply B5. destruct C4 as [C4|[C4 C4']]; congruence.
  - intros j q i p' Hq Hqp Hqz Hp' Hs.
    rewrite list_lookup_insert_dec in Hp' by done. destruct (decide (i = me)) as [->|Hne]; [by injection Hp' as <-|].
    pose proof (wake_proc_spec (proc_chan ptab (p_parent p)) q) as (_&_&B3&B4&_).
    eapply (Hz2 j); [|apply lookup_woken; by exists q|congruence|destruct B4 as [B4|[B4 _]]; congruence|done|done].
    apply elem_of_seq. apply lookup_lt_Some in Hq. lia.
Qed.

Definition put (i : nat) p w : ptable := set_pt_proc (<[i := p]> (procs w)) (w_pt w).

(** A step in terms of the entries that it changes. *)
Inductive effect w : world → Prop :=
| ef_pick c pos i p : w_cpus w !! c = Some (Cpu None pos) → procs w !! i = Some p → p_state p = RUNNABLE →
    effect w (World (put i (set_p_state RUNNING p) w) (<[c := Cpu (Some i) (S i)]> (w_cpus w)) (w_forks w))
| ef_wrap c pos : w_cpus w !! c = Some (Cpu None pos) →
    effect w (World (w_pt w) (<[c := Cpu None 0]> (w_cpus w)) (w_forks w))
| ef_yield c i pos p : runs w c i pos → procs w !! i = Some p →
    effect w (idle w c pos (put i (set_p_state RUNNABLE p) w))
| ef_sleep c i pos p ch : runs w c i pos → procs w !! i = Some p → not_forking w i →
    (other_chan ptab ch ∨ ch = proc_chan ptab (Some i) ∧
       ∀ j q, procs w !! j = Some q → p_parent q = Some i → p_state q ≠ ZOMBIE) →
    effect w (idle w c pos (put i (set_p_state SLEEPING (set_p_chan ch p)) w))
| ef_tidy c i pos p : runs w c i pos → procs w !! i = Some p → effect w (set_pt w (put i (set_p_chan 0 p) w))
| ef_wake ch : effect w (set_pt w (set_pt_proc (wake_proc ch <$> procs w) (w_pt w)))
| ef_kill i p : procs w !! i = Some p → effect w (set_pt w (put i
    (set_p_state (if decide (p_state p = SLEEPING) then RUNNABLE else p_state p) (set_p_killed true p)) w))
| ef_none : effect w (set_pt w (w_pt w))
| ef_fork c i pos np p : runs w c i pos → not_forking w i → procs w !! np = Some p → p_state p = UNUSED →
    effect w (World (set_pt_nextpid (pt_nextpid (w_pt w) + 1) (put np (set_p_pid (pt_nextpid (w_pt w)) (set_p_state EMBRYO p)) w))
      (w_cpus w) (<[np := i]> (w_forks w)))
| ef_ready c i pos np p : runs w c i pos → w_forks w !! np = Some i → procs w !! np = Some p →
    effect w (World (put np (set_p_state RUNNABLE (set_p_parent (Some i) p)) w) (w_cpus w) (delete np (w_forks w)))
| ef_undo c i pos np p : runs w c i pos → w_forks w !! np = Some i → procs w !! np = Some p →
    effect w (World (put np (set_p_state UNUSED (set_p_kstack 0 p)) w) (w_cpus w) (delete np (w_forks w)))
| ef_exit c i pos l' : runs w c i pos → not_forking w i → pt_initproc (w_pt w) ≠ Some i →
    exited (procs w) (pt_initproc (w_pt w)) i l' → effect w (idle w c pos (set_pt_proc l' (w_pt w)))
| ef_reap c i pos j p p' : runs w c i pos → procs w !! j = Some p → p_state p = ZOMBIE → p_parent p = Some i →
    p_state p' = UNUSED → p_pid p' = 0 → p_parent p' = None → effect w (set_pt w (put j p' w)).

Lemma find_unused_spec k l i :
  find_unused k l = Some i → ∃ x p, i = (k + x)%nat ∧ l !! x = Some p ∧ p_state p = UNUSED.
Proof.
  revert k. induction l as [|q l IH]; intros k; simpl; [done|]. case_decide.
  - intros [= <-]. exists 0%nat, q. split_and!; [lia|done..].
  - intros (x&p&->&?&?)%IH. exists (S x), p. split_and!; [lia|done..].
Qed.

Lemma find_pid_spec pid k l i :
  find_pid pid k l = Some i → ∃ x p, i = (k + x)%nat ∧ l !! x = Some p ∧ p_pid p = pid.
Proof.
  revert k. induction l as [|q l IH]; intros k; simpl; [done|]. case_match eqn:Hq.
  - intros [= <-]. exists 0%nat, q. split_and!; [lia|done|lia].
  - intros (x&p&->&?&?)%IH. exists (S x), p. split_and!; [lia|done..].
Qed.

Lemma scan_runnable_spec pos k l i :
  scan_runnable pos k l = Some i → ∃ x p, i = (k + x)%nat ∧ l !! x = Some p ∧ p_state p = RUNNABLE.
Proof.
  revert k. induction l as [|q l IH]; intros k; simpl; [done|]. case_decide.
  - intros [= <-]. exists 0%nat, q. split_and!; [lia|done|naive_solver].
  - intros (x&p&->&?&?)%IH. exists (S x), p. split_and!; [lia|done..].
Qed.

Lemma wait_scan_spec me k l hk r :
  wait_scan me k l hk = r →
  match r.1 with
  | Some i => ∃ x p, i = (k + x)%nat ∧ l !! x = Some p ∧ p_parent p = Some me ∧ p_state p = ZOMBIE
  | None => ∀ x p, l !! x = Some p → p_parent p = Some me → p_state p ≠ ZOMBIE
  end.
Proof.
  intros <-. revert k hk. induction l as [|q l IH]; intros k hk; simpl; [done|].
  destruct (decide (p_parent q = Some me)) as [Hp|Hp]; [destruct (decide (p_state q = ZOMBIE)) as [Hz|Hz]|].
  - simpl. exists 0%nat, q. split_and!; [lia|done..].
  - specialize (IH (S k) true). destruct (wait_scan me (S k) l true).1.
    + destruct IH as (x&p&->&?). exists (S x), p. split; [lia|done].
    + intros [|x] p; simpl; [by intros [= <-]|apply IH].
  - specialize (IH (S k) hk). destruct (wait_scan me (S k) l hk).1.
    + destruct IH as (x&p&->&?). exists (S x), p. split; [lia|done].
    + intros [|x] p; simpl; [by intros [= <-]|apply IH].
Qed.

(** What the code of a step relies on. *)
Record base w : Prop := {
  bs_lock : pt_lock (w_pt w) = false;
  bs_run c i pos : runs w c i pos → ∃ p, procs w !! i = Some p ∧ p_state p = RUNNING;
  bs_fork np i : w_forks w !! np = Some i → ∃ p, procs w !! np = Some p ∧ p_state p = EMBRYO;
}.

Lemma table_eq (pt : ptable) l :
  pt_lock pt = false → Ptable false l (pt_nextpid pt) (pt_initproc pt) = set_pt_proc l pt.
Proof. intros Hl. unfold set_pt_proc. by rewrite Hl. Qed.

Lemma same_table (pt : ptable) : pt_lock pt = false → Ptable false (pt_proc pt) (pt_nextpid pt) (pt_initproc pt) = pt.
Proof. intros Hl. destruct pt. simpl in *. by subst. Qed.

Ltac table := simpl; rewrite ?list_insert_insert_eq; unfold put, set_pt_proc, set_pt_lock, set_pt_nextpid; simpl;
  rewrite ?list_insert_insert_eq.

Lemma pick_effect w pos :
  base w → wp (scheduler_pick pos) (λ r pt, match r with
    | Some i => ∃ p, procs w !! i = Some p ∧ p_state p = RUNNABLE ∧ pt = put i (set_p_state RUNNING p) w
    | None => pt = w_pt w end) (w_pt w).
Proof.
  intros [Hl _ _]. apply wp_bind, wp_acquire; [done|]. apply wp_bind, wp_gets. simpl.
  destruct (scan_runnable pos 0 (procs w)) as [i|] eqn:Hi.
  - apply scan_runnable_spec in Hi as (x&p&->&Hp&Hs). simpl. apply wp_bind. eapply wp_updp; [done|].
    apply wp_bind, wp_release; [done|]. apply wp_ret. exists p. split_and!; try done. table. by rewrite Hl.
  - apply wp_bind, wp_release; [done|]. apply wp_ret. table. by apply same_table.
Qed.

Lemma leave_effect w i p f :
  base w → procs w !! i = Some p → p_state (f p) ≠ RUNNING →
  wp (acquire ptable_lock;; updp i f;; sched i;; release ptable_lock) (λ _ pt, pt = put i (f p) w) (w_pt w).
Proof.
  intros [Hl _ _] Hi Hf. pose proof (lookup_lt_Some _ _ _ Hi) as Hlt.
  apply wp_bind, wp_acquire; [done|]. apply wp_bind. eapply wp_updp; [done|].
  apply wp_bind. eapply wp_sched; [done|simpl; by apply list_lookup_insert_eq|done|].
  apply wp_release; [done|]. table. by rewrite Hl.
Qed.

Lemma sleep_effect (s : ptable) i p ch own :
  pt_lock s = own → pt_proc s !! i = Some p →
  wp (sleep i ch own) (λ _ pt, pt = set_pt_lock false (set_pt_proc (<[i := set_p_state SLEEPING (set_p_chan ch p)]> (pt_proc s)) s)) s.
Proof.
  intros Hl Hi. pose proof (lookup_lt_Some _ _ _ Hi) as Hlt.
  assert (wp (when (negb own) (acquire ptable_lock)) (λ _ s1, s1 = set_pt_lock true s) s) as Hacq.
  { apply wp_when. destruct own; simpl; [by destruct s; simpl in *; subst|]. by apply wp_acquire. }
  apply wp_bind. eapply wp_mono; [exact Hacq|]. intros _ s1 ->.
  apply wp_bind. eapply wp_updp; [done|]. apply wp_bind. eapply wp_updp; [simpl; by apply list_lookup_insert_eq|]. simpl.
  rewrite list_insert_insert_eq. apply wp_bind. eapply wp_sched; [done|simpl; by apply list_lookup_insert_eq|done|].
  apply wp_release; [done|]. done.
Qed.

Lemma kill_effect w pid :
  base w → wp (kill pid) (λ _ pt, pt = w_pt w ∨ ∃ i p, procs w !! i = Some p ∧ pt = put i
    (set_p_state (if decide (p_state p = SLEEPING) then RUNNABLE else p_state p) (set_p_killed true p)) w) (w_pt w).
Proof.
  intros [Hl _ _]. apply wp_bind, wp_acquire; [done|]. apply wp_bind, wp_gets. simpl.
  destruct (find_pid pid 0 (procs w)) as [i|] eqn:Hi.
  - apply find_pid_spec in Hi as (x&p&->&Hp&_). simpl. pose proof (lookup_lt_Some _ _ _ Hp) as Hlt.
    apply wp_bind. eapply wp_updp; [done|]. apply wp_bind. eapply wp_getp; [simpl; by apply list_lookup_insert_eq|].
    simpl. case_decide as Hs.
    + apply wp_bind. eapply wp_updp; [simpl; by apply list_lookup_insert_eq|]. apply wp_bind, wp_release; [done|]. apply wp_ret.
      right. exists x, p. split; [done|]. table. by rewrite Hl, decide_True.
    + apply wp_bind, wp_ret, wp_bind, wp_release; [done|]. apply wp_ret.
      right. exists x, p. split; [done|]. table. rewrite Hl, decide_False by done. by destruct p.
  - apply wp_bind, wp_release; [done|]. apply wp_ret. left. table. by apply same_table.
Qed.

Definition alloc_post w (r : option nat) (pt : ptable) : Prop :=
  match r with
  | None => pt = w_pt w
  | Some np => ∃ p, procs w !! np = Some p ∧ p_state p = UNUSED ∧
      pt = set_pt_nextpid (pt_nextpid (w_pt w) + 1) (put np (set_p_pid (pt_nextpid (w_pt w)) (set_p_state EMBRYO p)) w)
  end.

Lemma alloc_effect w r pt : base w → alloc_slot (w_pt w) = Ok r pt → alloc_post w r pt.
Proof.
  intros [Hl _ _]. assert (acquire ptable_lock (w_pt w) = Ok tt (set_pt_lock true (w_pt w))) as Ha.
  { unfold acquire, mbind, M_bind, gets. simpl. by rewrite Hl. }
  unfold alloc_slot. rewrite (bind_run _ _ _ _ _ Ha). erewrite bind_run; [|reflexivity]. simpl.
  destruct (find_unused 0 (procs w)) as [i|] eqn:Hi.
  - apply find_unused_spec in Hi as (x&p&->&Hp&Hs). simpl. pose proof (lookup_lt_Some _ _ _ Hp) as Hlt. 
    destruct (2 ^ 31 - 1 <=? pt_nextpid (w_pt w)) eqn:Hn.
    + unfold mbind, M_bind, updp, modify, gets. simpl. by rewrite Hn.
    + intros Hr. refine (wp_inv _ (alloc_post w) _ _ _ _ Hr). apply wp_bind. eapply wp_updp; [done|]. apply wp_bind, wp_gets, wp_bind.
      eapply wp_updp; [simpl; by apply list_lookup_insert_eq|]. simpl. rewrite Hn. apply wp_bind, wp_ret.
      apply wp_bind, wp_modify, wp_bind, wp_release; [done|]. apply wp_ret.
      exists p. split_and!; [done..|]. table. by rewrite Hl.
  - intros Hr. refine (wp_inv _ (alloc_post w) _ _ _ _ Hr). apply wp_bind, wp_release; [done|]. apply wp_ret. table. by apply same_table.
Qed.

Lemma wait_effect w i :
  base w → (∃ p, procs w !! i = Some p ∧ p_state p = RUNNING) →
  wp (wait_round ptab i) (λ r pt, match r with
    | Reaped _ _ _ _ => ∃ j p p', procs w !! j = Some p ∧ p_state p = ZOMBIE ∧ p_parent p = Some i ∧
        p_state p' = UNUSED ∧ p_pid p' = 0 ∧ p_parent p' = None ∧ pt = put j p' w
    | NoChild => pt = w_pt w
    | Asleep => ∃ p, procs w !! i = Some p ∧
        (∀ j q, procs w !! j = Some q → p_parent q = Some i → p_state q ≠ ZOMBIE) ∧
        pt = put i (set_p_state SLEEPING (set_p_chan (proc_chan ptab (Some i)) p)) w
    end) (set_pt_lock true (w_pt w)).
Proof.
  intros [Hl _ _] (me&Hme&Hrun). apply wp_bind, wp_gets. simpl.
  pose proof (wait_scan_spec i 0 (procs w) false _ eq_refl) as Hspec.
  destruct (wait_scan i 0 (procs w) false) as [[j|] hk]; simpl in Hspec.
  - destruct Hspec as (x&p&->&Hp&Hpar&Hz). simpl. pose proof (lookup_lt_Some _ _ _ Hp) as Hlt.
    apply wp_bind. eapply wp_getp; [done|]. apply wp_bind. eapply wp_updp; [done|]. apply wp_bind. unfold clear_slot.
    do 4 (apply wp_bind; eapply wp_updp; [simpl; rewrite ?list_insert_insert_eq; by apply list_lookup_insert_eq|]).
    eapply wp_updp; [simpl; rewrite ?list_insert_insert_eq; by apply list_lookup_insert_eq|].
    apply wp_bind, wp_release; [done|]. apply wp_ret. exists x, p.
    eexists. split_and!; [done|done|done| | | |table; by rewrite Hl]; done.
  - apply wp_bind. eapply wp_getp; [done|]. case_match.
    + apply wp_bind, wp_release; [done|]. apply wp_ret. table. by apply same_table.
    + apply wp_bind. eapply wp_mono; [by apply (sleep_effect _ i me)|]. intros _ pt ->. apply wp_ret. exists me.
      split_and!; [done..|]. table. by rewrite Hl.
Qed.

Lemma step_effect w w' : base w → step ptab w w' → effect w w'.
Proof.
  intros Hb Hst. pose proof Hb as [Hl Hrun Hfk]. destruct Hst as
    [c pos i pt Hc Hr|c pos pt Hc Hr|c i pos pt Hc Hr|c i pos ch pt Hc Hnf Ho Hr|c i pos pt Hc Hr|ch pt Hr|pid r pt Hr
    |c i pos np pt Hc Hnf Hr|c i pos np pid pt Hc Hf Hr|c i pos np pt Hc Hf Hr|c i pos pt Hc Hnf Hinit Hr|c i pos r pt Hc Hnf Hr].
  - apply (wp_inv _ _ _ _ _ (pick_effect w pos Hb)) in Hr as (p&Hp&Hs&->). by eapply ef_pick.
  - apply (wp_inv _ _ _ _ _ (pick_effect w pos Hb)) in Hr as ->. by eapply ef_wrap.
  - destruct (Hrun _ _ _ Hc) as (p&Hp&Hs).
    apply (wp_inv _ _ _ _ _ (leave_effect w i p (set_p_state RUNNABLE) Hb Hp ltac:(done))) in Hr as ->. by eapply ef_yield.
  - destruct (Hrun _ _ _ Hc) as (p&Hp&Hs).
    apply (wp_inv _ _ _ _ _ (sleep_effect (w_pt w) i p ch false Hl Hp)) in Hr as ->.
    replace (set_pt_lock false _) with (put i (set_p_state SLEEPING (set_p_chan ch p)) w)
      by (unfold put, set_pt_proc, set_pt_lock; simpl; by rewrite Hl).
    eapply ef_sleep; try done. by left.
  - destruct (Hrun _ _ _ Hc) as (p&Hp&Hs). injection Hr as <-. rewrite (alter_known _ _ _ p) by done. by eapply ef_tidy.
  - assert (wp (wakeup ch) (λ _ pt, pt = set_pt_proc (wake_proc ch <$> procs w) (w_pt w)) (w_pt w)) as Hw.
    { apply wp_bind, wp_acquire; [done|]. apply wp_bind, wp_modify, wp_release; [done|]. table. by rewrite Hl. }
    apply (wp_inv _ _ _ _ _ Hw) in Hr as ->. apply ef_wake.
  - apply (wp_inv _ _ _ _ _ (kill_effect w pid Hb)) in Hr as [->|(i&p&Hp&->)]; [apply ef_none|by apply ef_kill].
  - apply (alloc_effect w _ _ Hb) in Hr as (p&Hp&Hs&->). by eapply ef_fork.
  - destruct (Hfk _ _ Hf) as (p&Hp&Hs). pose proof (lookup_lt_Some _ _ _ Hp) as Hlt.
    assert (wp (fork_ready np i) (λ _ pt, pt = put np (set_p_state RUNNABLE (set_p_parent (Some i) p)) w) (w_pt w)) as Hw.
    { apply wp_bind. eapply wp_updp; [done|]. apply wp_bind. eapply wp_getp; [simpl; by apply list_lookup_insert_eq|].
      apply wp_bind. eapply wp_updp; [simpl; by apply list_lookup_insert_eq|]. apply wp_ret. by table. }
    apply (wp_inv _ _ _ _ _ Hw) in Hr as ->. by eapply ef_ready.
  - destruct (Hfk _ _ Hf) as (p&Hp&Hs). pose proof (lookup_lt_Some _ _ _ Hp) as Hlt.
    assert (wp (fork_undo np) (λ _ pt, pt = put np (set_p_state UNUSED (set_p_kstack 0 p)) w) (w_pt w)) as Hw.
    { apply wp_bind. eapply wp_updp; [done|]. eapply wp_updp; [simpl; by apply list_lookup_insert_eq|]. by table. }
    apply (wp_inv _ _ _ _ _ Hw) in Hr as ->. by eapply ef_undo.
  - destruct (Hrun _ _ _ Hc) as (p&Hp&Hs).
    assert (wp (exit_locked ptab i) (λ _ pt, ∃ l', pt = set_pt_proc l' (w_pt w) ∧ exited (procs w) (pt_initproc (w_pt w)) i l') (w_pt w))
      as Hw by (eapply exit_run; eauto).
    apply (wp_inv _ _ _ _ _ Hw) in Hr as (l'&->&Hex). by eapply ef_exit.
  - pose proof (Hrun _ _ _ Hc) as Hp. apply (wp_inv _ _ _ _ _ (wait_effect w i Hb Hp)) in Hr. destruct r as [? ? ? ?| |].
    + destruct Hr as (j&p&p'&?&?&?&?&?&?&->). by eapply ef_reap.
    + rewrite Hr. apply ef_none.
    + destruct Hr as (p&Hp'&Hz&->). eapply ef_sleep; try done. by right.
Qed.
End Effect.
End System.
