(* ===== verification/ProcInv.v ===== *)
(** Invariants of the process system of Proc.v: CPUs and running processes,
    process ids, the tree of processes, and the processes that sleep in wait. *)

From S2P Require Import Prelude Layout Proc.
Import Proc.System.

Section Invariants.
Context (ptab : Z).
Implicit Types (l : list proc) (p q : proc) (w : world).

Abbreviation procs w := (pt_proc (w_pt w)).

(** A process is running exactly if a CPU runs it, and then one CPU does. *)
Record cpu_inv w : Prop := {
  ci_base : base w;
  ci_running i p : procs w !! i = Some p → p_state p = RUNNING → ∃ c pos, runs w c i pos;
  ci_uniq c c' i pos pos' : runs w c i pos → runs w c' i pos' → c = c';
}.

(** Process ids are positive and distinct. *)
Record pid_inv w : Prop := {
  pd_next : 0 < pt_nextpid (w_pt w);
  pd_pid i p : procs w !! i = Some p → p_state p ≠ UNUSED → 0 < p_pid p < pt_nextpid (w_pt w);
  pd_uniq i j p q : procs w !! i = Some p → procs w !! j = Some q → p_state p ≠ UNUSED → p_state q ≠ UNUSED →
    p_pid p = p_pid q → i = j;
}.

(** init lives, and every other process has a living parent. *)
Record tree_inv w : Prop := {
  tr_init : pt_initproc (w_pt w) = Some 0%nat;
  tr_init_alive : ∃ p, procs w !! 0%nat = Some p ∧ alive p;
  tr_init_parent p : procs w !! 0%nat = Some p → p_parent p = None;
  tr_parent i p j : procs w !! i = Some p → p_parent p = Some j →
    p_state p ≠ UNUSED ∧ p_state p ≠ EMBRYO ∧ j ≠ i ∧ ∃ q, procs w !! j = Some q ∧ alive q;
  tr_child i p : procs w !! i = Some p → i ≠ 0%nat → p_state p ≠ UNUSED → p_state p ≠ EMBRYO → is_Some (p_parent p);
  tr_forker np i : w_forks w !! np = Some i → ∃ p, procs w !! i = Some p ∧ alive p;
}.

(** A process that sleeps in wait has no exited child. *)
Definition wait_inv w : Prop :=
  ∀ i p j q, procs w !! i = Some p → p_state p = SLEEPING → p_chan p = proc_chan ptab (Some i) →
    procs w !! j = Some q → p_parent q = Some i → p_state q ≠ ZOMBIE.

Ltac entry :=
  repeat match goal with
  | H : context [<[?i := ?x]> ?l !! ?j] |- _ =>
      rewrite (list_lookup_insert_dec l i x j) in H by (by eapply lookup_lt_Some);
      destruct (decide (j = i)); [subst j || subst i|]; simplify_eq
  end.

Lemma in_table w i p x : procs w !! i = Some p → <[i := x]> (procs w) !! i = Some x.
Proof. intros Hp. apply list_lookup_insert_eq. by eapply lookup_lt_Some. Qed.

(** The entries that have a property still have it after one entry changed. *)
Lemma keep_entry w i p p' j (P : proc → Prop) :
  procs w !! i = Some p → (P p → P p') → (∃ q, procs w !! j = Some q ∧ P q) →
  ∃ q, <[i := p']> (procs w) !! j = Some q ∧ P q.
Proof.
  intros Hp HP (q&Hq&HPq). destruct (decide (j = i)) as [->|Hne].
  - exists p'. split; [by eapply in_table|]. apply HP. congruence.
  - exists q. by rewrite list_lookup_insert_ne.
Qed.

(** The state of a slot. *)
Definition st l (i : nat) : option procstate := p_state <$> l !! i.

Lemma st_Some l i x : st l i = Some x ↔ ∃ p, l !! i = Some p ∧ p_state p = x.
Proof. unfold st. rewrite fmap_Some. naive_solver. Qed.

Lemma st_insert l i p p' j : l !! i = Some p → st (<[i := p']> l) j = if decide (j = i) then Some (p_state p') else st l j.
Proof.
  intros Hp. unfold st. rewrite list_lookup_insert_dec by (by eapply lookup_lt_Some). by case_decide.
Qed.

Lemma st_put_running l i p p' j :
  l !! i = Some p → (p_state p' = RUNNING ↔ p_state p = RUNNING) →
  st (<[i := p']> l) j = Some RUNNING ↔ st l j = Some RUNNING.
Proof.
  intros Hp Hr. rewrite (st_insert _ _ p) by done. case_decide as E; [|done]. subst. unfold st. rewrite Hp. simpl.
  split; intros [= H]; f_equal; by apply Hr.
Qed.

Lemma st_put_leave l i p p' j :
  l !! i = Some p → p_state p' ≠ RUNNING → st (<[i := p']> l) j = Some RUNNING ↔ j ≠ i ∧ st l j = Some RUNNING.
Proof.
  intros Hp Hr. rewrite (st_insert _ _ p) by done. case_decide as E; [|by split; [|intros [_ ?]]].
  split; [by intros [= ?]|by intros [? _]].
Qed.

Lemma st_put_other l i p p' j x :
  l !! i = Some p → p_state p ≠ x → st l j = Some x → st (<[i := p']> l) j = Some x.
Proof.
  intros Hp Hr Hj. rewrite (st_insert _ _ p) by done. case_decide as E; [|done]. subst.
  unfold st in Hj. rewrite Hp in Hj. by injection Hj.
Qed.

(** ** CPUs *)

Lemma cpu_leave w c i pos pt :
  cpu_inv w → runs w c i pos → pt_lock pt = false →
  (∀ j, st (pt_proc pt) j = Some RUNNING ↔ j ≠ i ∧ st (procs w) j = Some RUNNING) →
  (∀ j, st (procs w) j = Some EMBRYO → st (pt_proc pt) j = Some EMBRYO) →
  cpu_inv (idle w c pos pt).
Proof.
  intros [[Hl Hrun Hfk] Hcov Huq] Hc Hpt HR HE. pose proof (lookup_lt_Some _ _ _ Hc) as Hlt.
  assert (∀ c' i' pos', runs (idle w c pos pt) c' i' pos' → c' ≠ c ∧ runs w c' i' pos') as Hr.
  { intros c' i' pos'. unfold runs. simpl. rewrite list_lookup_insert_dec by done. case_decide; naive_solver. }
  split; [split; [done| |]|..].
  - intros c' i' pos' [Hne Hc']%Hr. apply st_Some, HR. split; [|by apply st_Some; eapply Hrun].
    intros ->. apply Hne. by eapply Huq.
  - intros np i' Hnp. by apply st_Some, HE, st_Some, (Hfk np i').
  - intros j p Hj Hs. assert (j ≠ i ∧ st (procs w) j = Some RUNNING) as [Hne (q&Hq&Hqs)%st_Some] by (apply HR, st_Some; eauto).
    destruct (Hcov j q Hq Hqs) as (c'&pos'&Hc'). exists c', pos'. unfold runs in *. simpl.
    rewrite list_lookup_insert_ne; [done|]. intros <-. rewrite Hc in Hc'. by injection Hc' as ->.
  - intros c1 c2 i' pos1 pos2 [_ H1]%Hr [_ H2]%Hr. by eapply Huq.
Qed.

Lemma cpu_stay w pt fk :
  cpu_inv w → pt_lock pt = false →
  (∀ j, st (pt_proc pt) j = Some RUNNING ↔ st (procs w) j = Some RUNNING) →
  (∀ np i, fk !! np = Some i → st (pt_proc pt) np = Some EMBRYO) →
  cpu_inv (World pt (w_cpus w) fk).
Proof.
  intros [[Hl Hrun Hfk] Hcov Huq] Hpt HR HE. split; [split; [done| |]|..].
  - intros c' i' pos' Hc'. apply st_Some, HR, st_Some. by eapply Hrun.
  - intros np i' Hnp. apply st_Some. by eapply HE.
  - intros j p Hj Hs. assert (st (procs w) j = Some RUNNING) as (q&Hq&Hqs)%st_Some by (apply HR, st_Some; eauto). by eapply Hcov.
  - intros c1 c2 i' pos1 pos2. apply Huq.
Qed.

Lemma effect_cpu w w' : cpu_inv w → effect ptab w w' → cpu_inv w'.
Proof.
  intros Hinv Hef. pose proof Hinv as [[Hl Hrun Hfk] Hcov Huq].
  assert (∀ np i, w_forks w !! np = Some i → st (procs w) np = Some EMBRYO) as HfE.
  { intros np i Hnp. apply st_Some. by eapply Hfk. }
  assert (∀ c i pos, runs w c i pos → st (procs w) i = Some RUNNING) as HrR.
  { intros c i pos Hc. apply st_Some. by eapply Hrun. }
  destruct Hef as [c pos i p Hc Hp Hs|c pos Hc|c i pos p Hc Hp|c i pos p ch Hc Hp Hnf _|c i pos p Hc Hp|ch|i p Hp|
    |c i pos np p Hc Hnf Hp Hs|c i pos np p Hc Hf Hp|c i pos np p Hc Hf Hp|c i pos l' Hc Hnf Hinit Hex|c i pos j p p' Hc Hp Hz Hpar Hs' _ _].
  - pose proof (lookup_lt_Some _ _ _ Hc) as Hlt.
    assert (∀ c' i' pos', runs (World (put i (set_p_state RUNNING p) w) (<[c := Cpu (Some i) (S i)]> (w_cpus w)) (w_forks w)) c' i' pos' →
      c' = c ∧ i' = i ∨ c' ≠ c ∧ i' ≠ i ∧ runs w c' i' pos') as Hr.
    { intros c' i' pos'. unfold runs. simpl. rewrite list_lookup_insert_dec by done. case_decide; [naive_solver|].
      intros Hc'. right. split_and!; try done. intros ->. apply HrR, st_Some in Hc' as (?&?&?). congruence. }
    split; [split; [done| |]|..].
    + intros c' i' pos' [[-> ->]|(Hne&Hni&Hc')]%Hr; apply st_Some; simpl; rewrite (st_insert _ _ p) by done.
      * by rewrite decide_True.
      * rewrite decide_False by done. by eapply HrR.
    + intros np i' Hnp. apply st_Some. simpl. rewrite (st_insert _ _ p) by done. apply HfE in Hnp. case_decide as E; [|done].
      subst. apply st_Some in Hnp as (?&?&?). congruence.
    + intros j q Hj Hq. simpl in Hj. rewrite list_lookup_insert_dec in Hj by (by eapply lookup_lt_Some).
      case_decide as E; [subst|].
      * exists c, (S i). unfold runs. simpl. by apply list_lookup_insert_eq.
      * destruct (Hcov j q Hj Hq) as (c'&pos'&Hc'). exists c', pos'. unfold runs in *. simpl.
        rewrite list_lookup_insert_ne; [done|]. intros <-. congruence.
    + intros c1 c2 i' pos1 pos2 H1 H2. apply Hr in H1 as [[-> ->]|(?&?&H1)], H2 as [[-> ?]|(?&?&H2)]; try done. by eapply Huq.
  - pose proof (lookup_lt_Some _ _ _ Hc) as Hlt.
    assert (∀ c' i' pos', runs (World (w_pt w) (<[c := Cpu None 0]> (w_cpus w)) (w_forks w)) c' i' pos' → runs w c' i' pos') as Hr.
    { intros c' i' pos'. unfold runs. simpl. rewrite list_lookup_insert_dec by done. by case_decide. }
    split; [split; [done| |]|..]; [by eauto|by eauto| |by eauto].
    intros j q Hj Hq. destruct (Hcov j q Hj Hq) as (c'&pos'&Hc'). exists c', pos'. unfold runs in *. simpl.
    rewrite list_lookup_insert_ne; [done|]. intros <-. congruence.
  - assert (p_state p = RUNNING) as Hs by (apply HrR in Hc; unfold st in Hc; rewrite Hp in Hc; by injection Hc).
    apply (cpu_leave w c i); [done..| |]; intros j; [by apply (st_put_leave _ _ p)|apply (st_put_other _ _ p); congruence].
  - assert (p_state p = RUNNING) as Hs by (apply HrR in Hc; unfold st in Hc; rewrite Hp in Hc; by injection Hc).
    apply (cpu_leave w c i); [done..| |]; intros j; [by apply (st_put_leave _ _ p)|apply (st_put_other _ _ p); congruence].
  - assert (p_state p = RUNNING) as Hs by (apply HrR in Hc; unfold st in Hc; rewrite Hp in Hc; by injection Hc).
    apply cpu_stay; [done..| |]; [intros j; by apply (st_put_running _ _ p)|].
    intros np i' Hnp. apply (st_put_other _ _ p); [done|congruence|by eapply HfE].
  - assert (∀ j x, x ≠ SLEEPING → x ≠ RUNNABLE → st (wake_proc ch <$> procs w) j = Some x ↔ st (procs w) j = Some x) as Hw.
    { intros j x Hx1 Hx2. unfold st. rewrite list_lookup_fmap. destruct (procs w !! j) as [q|]; [simpl|done].
      unfold wake_proc. case_decide; simpl; naive_solver. }
    apply cpu_stay; [done..| |]; [intros j; by apply Hw|]. intros np i Hnp. apply Hw; [done..|]. by eapply HfE.
  - apply cpu_stay; [done..| |].
    + intros j. apply (st_put_running _ _ p); [done|]. simpl. case_decide as Hs; [rewrite Hs|]; done.
    + intros np i' Hnp. pose proof (HfE _ _ Hnp) as He. simpl. rewrite (st_insert _ _ p) by done. case_decide as E; [|done].
      subst. unfold st in He. rewrite Hp in He. injection He as He. simpl. by rewrite decide_False by congruence; rewrite He.
  - by destruct w.
  - apply cpu_stay; [done..| |].
    + intros j. apply (st_put_running _ _ p); [done|]. simpl. by rewrite Hs.
    + intros np' i' Hnp. simpl. rewrite (st_insert _ _ p) by done. case_decide as E; [done|].
      rewrite lookup_insert_ne in Hnp by done. by eapply HfE.
  - destruct (Hfk _ _ Hf) as (q&Hq&Hs). rewrite Hp in Hq. injection Hq as <-. apply cpu_stay; [done..| |].
    + intros j. apply (st_put_running _ _ p); [done|]. simpl. by rewrite Hs.
    + intros np' i' [Hne Hnp]%lookup_delete_Some. simpl. rewrite (st_insert _ _ p) by done. rewrite decide_False by done. by eapply HfE.
  - destruct (Hfk _ _ Hf) as (q&Hq&Hs). rewrite Hp in Hq. injection Hq as <-. apply cpu_stay; [done..| |].
    + intros j. apply (st_put_running _ _ p); [done|]. simpl. by rewrite Hs.
    + intros np' i' [Hne Hnp]%lookup_delete_Some. simpl. rewrite (st_insert _ _ p) by done. rewrite decide_False by done. by eapply HfE.
  - destruct Hex as [Hlen Hent _ _]. apply (cpu_leave w c i); [done..| |]; intros j; simpl.
    + rewrite !st_Some. split.
      * intros (p'&Hp'&Hs'). assert (is_Some (procs w !! j)) as [p Hp] by (apply lookup_lt_is_Some; apply lookup_lt_Some in Hp'; lia).
        destruct (Hent j p Hp) as (p2&Hp2&_&_&_&Hst). rewrite Hp2 in Hp'. injection Hp' as <-.
        destruct Hst as [Hst|(_&Hst&_)]; [|congruence]. case_decide; [congruence|]. split; [done|]. exists p. split; [done|congruence].
      * intros [Hne (p&Hp&Hs)]. destruct (Hent j p Hp) as (p2&Hp2&_&_&_&Hst). exists p2. split; [done|].
        destruct Hst as [Hst|(Hst&_)]; [|congruence]. rewrite decide_False in Hst by done. congruence.
    + rewrite !st_Some. intros (p&Hp&Hs). destruct (Hent j p Hp) as (p2&Hp2&_&_&_&Hst). exists p2. split; [done|].
      destruct Hst as [Hst|(Hst&_)]; [|congruence]. case_decide as E; [|congruence]. subst. apply HrR, st_Some in Hc as (?&?&?). congruence.
  - apply cpu_stay; [done..| |].
    + intros k. apply (st_put_running _ _ p); [done|]. by rewrite Hs', Hz.
    + intros np' i' Hnp. apply (st_put_other _ _ p); [done|congruence|by eapply HfE].
Qed.

(** ** Process ids *)

Lemma pid_keep w w' :
  pid_inv w → pt_nextpid (w_pt w') = pt_nextpid (w_pt w) →
  (∀ i p', procs w' !! i = Some p' → p_state p' ≠ UNUSED →
     ∃ p, procs w !! i = Some p ∧ p_state p ≠ UNUSED ∧ p_pid p' = p_pid p) →
  pid_inv w'.
Proof.
  intros [Hn Hp Hu] En Hk. split; rewrite ?En; [done| |].
  - intros i p' Hi Hs. destruct (Hk i p' Hi Hs) as (p&Hi'&Hs'&->). by eapply Hp.
  - intros i j p' q' Hi Hj Hsi Hsj Epq. destruct (Hk i p' Hi Hsi) as (p&Hi'&Hs'&Ep), (Hk j q' Hj Hsj) as (q&Hj'&Hsq&Eq).
    eapply Hu; try done. congruence.
Qed.

Lemma pid_put w w' i p p' :
  pid_inv w → pt_nextpid (w_pt w') = pt_nextpid (w_pt w) → procs w !! i = Some p → procs w' = <[i := p']> (procs w) →
  (p_state p' ≠ UNUSED → p_state p ≠ UNUSED ∧ p_pid p' = p_pid p) → pid_inv w'.
Proof.
  intros Hinv En Hp El Hk. eapply pid_keep; [done..|]. intros j q. rewrite El.
  rewrite list_lookup_insert_dec by (by eapply lookup_lt_Some). case_decide as E; [|by eauto].
  intros [= <-] Hs. subst. exists p. split; [done|auto].
Qed.

Lemma running_state w c i pos p : cpu_inv w → runs w c i pos → procs w !! i = Some p → p_state p = RUNNING.
Proof. intros [[_ Hrun _] _ _] Hc Hp. destruct (Hrun _ _ _ Hc) as (?&?&?). congruence. Qed.

Lemma forking_state w np i p : cpu_inv w → w_forks w !! np = Some i → procs w !! np = Some p → p_state p = EMBRYO.
Proof. intros [[_ _ Hf] _ _] Hc Hp. destruct (Hf _ _ Hc) as (?&?&?). congruence. Qed.

Lemma effect_pid w w' : cpu_inv w → pid_inv w → effect ptab w w' → pid_inv w'.
Proof.
  intros Hci Hpi Hef. pose proof Hpi as [Hn Hpid Huq].
  destruct Hef as [c pos i p Hc Hp Hs|c pos Hc|c i pos p Hc Hp|c i pos p ch Hc Hp Hnf _|c i pos p Hc Hp|ch|i p Hp|
    |c i pos np p Hc Hnf Hp Hs|c i pos np p Hc Hf Hp|c i pos np p Hc Hf Hp|c i pos l' Hc Hnf Hinit Hex|c i pos j p p' Hc Hp Hz Hpar Hs' _ _].
  - eapply (pid_put w _ i p); try done. intros _. by rewrite Hs.
  - by destruct w.
  - eapply (pid_put w _ i p); try done. intros _. by rewrite (running_state w c i pos p).
  - eapply (pid_put w _ i p); try done. intros _. by rewrite (running_state w c i pos p).
  - eapply (pid_put w _ i p); try done.
  - eapply pid_keep; [done..|]. simpl. intros i p' (p&Hp&->)%lookup_woken Hs.
    pose proof (wake_proc_spec ch p) as (->&_&_&Hst&_). exists p. split_and!; [done| |done].
    destruct Hst as [Hst|[Hst _]]; congruence.
  - eapply (pid_put w _ i p); try done. simpl. case_decide as Hs; [by rewrite Hs|done].
  - by destruct w.
  - pose proof (lookup_lt_Some _ _ _ Hp) as Hlt.
    assert (∀ k q', <[np := set_p_pid (pt_nextpid (w_pt w)) (set_p_state EMBRYO p)]> (procs w) !! k = Some q' → p_state q' ≠ UNUSED →
      k = np ∧ p_pid q' = pt_nextpid (w_pt w) ∨ k ≠ np ∧ procs w !! k = Some q' ∧ 0 < p_pid q' < pt_nextpid (w_pt w)) as Hk.
    { intros k q'. rewrite list_lookup_insert_dec by done. case_decide; [intros [= <-]; by left|]. intros. right. by eauto. }
    split; simpl; [lia| |].
    + intros k q' Hq Hs'. destruct (Hk k q' Hq Hs') as [[_ ->]|(_&_&?)]; lia.
    + intros k m q r Hq Hr Hsq Hsr E. destruct (Hk k q Hq Hsq) as [[-> Eq]|(?&Hq'&?)], (Hk m r Hr Hsr) as [[-> Er]|(?&Hr'&?)];
        [done|lia..|]. by eapply Huq.
  - eapply (pid_put w _ np p); try done. by rewrite (forking_state w np i p).
  - eapply (pid_put w _ np p); try done.
  - destruct Hex as [Hlen Hent _ _]. eapply pid_keep; [done..|]. simpl. intros j p' Hp' Hs.
    assert (is_Some (procs w !! j)) as [p Hp] by (apply lookup_lt_is_Some; apply lookup_lt_Some in Hp'; lia).
    destruct (Hent j p Hp) as (p2&Hp2&Epid&_&_&Hst). rewrite Hp2 in Hp'. injection Hp' as <-.
    exists p. split_and!; [done| |done]. destruct Hst as [Hst|(Hst&_)]; [|congruence].
    case_decide as E; [|congruence]. subst. by rewrite (running_state w c i pos p).
  - eapply (pid_put w _ j p); try done.
Qed.

(** ** The tree of processes *)

Lemma alive_running p : p_state p = RUNNING → alive p.
Proof. unfold alive. tauto. Qed.

(** A change of one entry that keeps it alive, and its parent. *)
Lemma tree_put w w' i p p' :
  tree_inv w → procs w !! i = Some p → procs w' = <[i := p']> (procs w) → pt_initproc (w_pt w') = pt_initproc (w_pt w) →
  (∀ np j, w_forks w' !! np = Some j → w_forks w !! np = Some j ∨ ∃ q, procs w !! j = Some q ∧ alive q) →
  (alive p → alive p') → p_parent p' = p_parent p →
  (p_state p = UNUSED ∨ p_state p = EMBRYO → p_state p' = UNUSED ∨ p_state p' = EMBRYO) →
  (p_state p' = UNUSED ∨ p_state p' = EMBRYO → p_state p = UNUSED ∨ p_state p = EMBRYO) →
  tree_inv w'.
Proof.
  intros [Hi0 Hia Hin Hpar Hch Hfk] Hp El Ei Ef Ha Epar Hu1 Hu2. pose proof (lookup_lt_Some _ _ _ Hp) as Hlt.
  assert (∀ j, (∃ q, procs w !! j = Some q ∧ alive q) → ∃ q, <[i := p']> (procs w) !! j = Some q ∧ alive q) as Hk.
  { intros j Hj. by eapply keep_entry. }
  split; rewrite ?El; [congruence|auto| | | |].
  - intros q. rewrite list_lookup_insert_dec by done. case_decide as E; [|by apply Hin].
    intros [= <-]. subst. rewrite Epar. by apply Hin.
  - intros j q k. rewrite list_lookup_insert_dec by done. case_decide as E.
    + intros [= <-]. subst. rewrite Epar. intros Hk'. destruct (Hpar i p k Hp Hk') as (?&?&?&?).
      split_and!; [tauto|tauto|done|auto].
    + intros Hq Hk'. destruct (Hpar j q k Hq Hk') as (?&?&?&?). auto.
  - intros j q. rewrite list_lookup_insert_dec by done. case_decide as E.
    + intros [= <-] Hj0 H1 H2. subst. rewrite Epar. eapply Hch; [done..| |]; tauto.
    + apply Hch.
  - intros np j Hnp. apply Hk. destruct (Ef np j Hnp); [by eapply Hfk|done].
Qed.

Lemma effect_tree w w' : cpu_inv w → tree_inv w → effect ptab w w' → tree_inv w'.
Proof.
  intros Hci Hti Hef. pose proof Hti as [Hi0 Hia Hin Hpar Hch Hfk].
  destruct Hef as [c pos i p Hc Hp Hs|c pos Hc|c i pos p Hc Hp|c i pos p ch Hc Hp Hnf _|c i pos p Hc Hp|ch|i p Hp|
    |c i pos np p Hc Hnf Hp Hs|c i pos np p Hc Hf Hp|c i pos np p Hc Hf Hp|c i pos l' Hc Hnf Hinit Hex|c i pos j p p' Hc Hp Hz Hpa Hs' _ Hpa'].
  - eapply (tree_put w _ i p); try done; [by left|unfold alive; simpl; tauto|simpl; clear - Hs; intuition congruence..].
  - by destruct w.
  - pose proof (running_state w c i pos p Hci Hc Hp) as Hs.
    eapply (tree_put w _ i p); try done; [by left|unfold alive; simpl; tauto|simpl; clear - Hs; intuition congruence..].
  - pose proof (running_state w c i pos p Hci Hc Hp) as Hs.
    eapply (tree_put w _ i p); try done; [by left|unfold alive; simpl; tauto|simpl; clear - Hs; intuition congruence..].
  - eapply (tree_put w _ i p); try done. by left.
  - assert (∀ j, (∃ q, procs w !! j = Some q ∧ alive q) → ∃ q, (wake_proc ch <$> procs w) !! j = Some q ∧ alive q) as Hk.
    { intros j (q&Hq&Ha). exists (wake_proc ch q). split; [apply lookup_woken; by exists q|].
      unfold alive in *. pose proof (wake_proc_spec ch q) as (_&_&_&[->|[_ ->]]&_); tauto. }
    split; simpl; [done|auto| | | |].
    + intros q (q0&Hq0&->)%lookup_woken. pose proof (wake_proc_spec ch q0) as (_&_&->&_). by apply Hin.
    + intros j q k (q0&Hq0&->)%lookup_woken. pose proof (wake_proc_spec ch q0) as (_&_&->&Hst&_). intros Hk'.
      destruct (Hpar j q0 k Hq0 Hk') as (?&?&?&?). split_and!; [destruct Hst as [->|[_ ->]]; done..|done|auto].
    + intros j q (q0&Hq0&->)%lookup_woken. pose proof (wake_proc_spec ch q0) as (_&_&->&Hst&_). intros Hj0 H1 H2.
      eapply Hch; [done..| |]; destruct Hst as [Hst|[Hst _]]; congruence.
    + intros np j Hnp. apply Hk. by eapply Hfk.
  - eapply (tree_put w _ i p); try done; [by left|unfold alive; simpl; case_decide; tauto|simpl; clear; case_decide; intuition congruence..].
  - by destruct w.
  - pose proof (running_state w c i pos) as Hrs. eapply (tree_put w _ np p); try done; simpl.
    + intros np' j. rewrite lookup_insert_Some. intros [[<- <-]|[_ ?]]; [right|by left].
      destruct Hci as [[_ Hrun _] _ _]. destruct (Hrun _ _ _ Hc) as (q&?&?). exists q. split; [done|by apply alive_running].
    + unfold alive. rewrite Hs. intros [?|[?|?]]; done.
    + by right.
    + by left.
  - pose proof (forking_state w np i p Hci Hf Hp) as Hs. pose proof (lookup_lt_Some _ _ _ Hp) as Hlt.
    assert (∀ j, (∃ q, procs w !! j = Some q ∧ alive q) → ∃ q, <[np := set_p_state RUNNABLE (set_p_parent (Some i) p)]> (procs w) !! j = Some q ∧ alive q) as Hk.
    { intros j Hj. eapply keep_entry; [done| |done]. unfold alive. simpl. tauto. }
    assert (np ≠ 0%nat) as Hnp0.
    { intros ->. destruct Hia as (q&Hq&Ha). rewrite Hp in Hq. injection Hq as <-. unfold alive in Ha. clear - Ha Hs. intuition congruence. }
    split; simpl; [done|auto| | | |].
    + intros q. rewrite list_lookup_insert_ne by done. apply Hin.
    + intros j q k. rewrite list_lookup_insert_dec by done. case_decide as E.
      * intros [= <-] [= <-]. split_and!; [done..| |apply Hk; by eapply Hfk].
        intros ->. subst. pose proof (running_state w c np pos p Hci Hc Hp). congruence.
      * intros Hq Hk'. destruct (Hpar j q k Hq Hk') as (?&?&?&?). auto.
    + intros j q. rewrite list_lookup_insert_dec by done. case_decide as E; [intros [= <-]; simpl; by eauto|apply Hch].
    + intros np' j [_ Hnp]%lookup_delete_Some. apply Hk. by eapply Hfk.
  - pose proof (forking_state w np i p Hci Hf Hp) as Hs.
    eapply (tree_put w _ np p); try done; simpl.
    + intros np' j [_ Hnp]%lookup_delete_Some. by left.
    + unfold alive. rewrite Hs. intros [?|[?|?]]; done.
    + by left.
    + by right.
  - pose proof Hex as [Hlen Hent _ _].
    assert (∀ j, j ≠ i → (∃ q, procs w !! j = Some q ∧ alive q) → ∃ q, l' !! j = Some q ∧ alive q) as Hk.
    { intros j Hne (q&Hq&Ha). destruct (Hent j q Hq) as (q'&Hq'&_&_&_&Hst). exists q'. split; [done|].
      unfold alive in *. destruct Hst as [Hst|(_&->&_)]; [|tauto]. rewrite decide_False in Hst by done. by rewrite Hst. }
    assert (∀ j q', l' !! j = Some q' → ∃ q, procs w !! j = Some q ∧
      p_parent q' = (if decide (p_parent q = Some i) then Some 0%nat else p_parent q) ∧
      (p_state q' = UNUSED ∨ p_state q' = EMBRYO ↔ p_state q = UNUSED ∨ p_state q = EMBRYO)) as Hb.
    { intros j q' Hq'. assert (is_Some (procs w !! j)) as [q Hq] by (apply lookup_lt_is_Some; apply lookup_lt_Some in Hq'; lia).
      destruct (Hent j q Hq) as (q2&Hq2&_&_&Ep&Hst). rewrite Hq2 in Hq'. injection Hq' as <-. rewrite Hi0 in Ep.
      exists q. split_and!; [done..|]. destruct Hst as [Hst|(Hst&Hst'&_)]; [|clear - Hst Hst'; intuition congruence].
      rewrite Hst. case_decide as E; [|done]. subst. rewrite (running_state w c i pos q Hci Hc Hq). clear. intuition congruence. }
    rewrite Hi0 in Hinit. split; simpl; [done|apply Hk; [congruence|done]| | | |].
    + intros q' Hq'. destruct (Hb 0%nat q' Hq') as (q&Hq&Ep&_). by rewrite Ep, (Hin q Hq).
    + intros j q' k Hq' Hk'. destruct (Hb j q' Hq') as (q&Hq&Ep&Hu). rewrite Ep in Hk'.
      assert (∃ m, p_parent q = Some m) as [m Hm] by (case_decide; eauto). destruct (Hpar j q m Hq Hm) as (H1&H2&Hmj&Hm').
      case_decide as E.
      * injection Hk' as <-. split_and!; [tauto..| |apply Hk; [congruence|done]].
        intros <-. by rewrite (Hin q Hq) in Hm.
      * rewrite Hk' in Hm. injection Hm as <-. split_and!; [tauto..|done|apply Hk; [congruence|done]].
    + intros j q' Hq' Hj0 H1 H2. destruct (Hb j q' Hq') as (q&Hq&Ep&Hu). rewrite Ep. case_decide; [by eauto|].
      eapply Hch; [done..| |]; tauto.
    + intros np j Hnp. apply Hk; [|by eapply Hfk]. intros ->. by apply (Hnf np).
  - pose proof (lookup_lt_Some _ _ _ Hp) as Hlt.
    assert (∀ k, (∃ q, procs w !! k = Some q ∧ alive q) → ∃ q, <[j := p']> (procs w) !! k = Some q ∧ alive q) as Hk.
    { intros k Hk. eapply keep_entry; [done| |done]. unfold alive. rewrite Hz. by intros [?|[?|?]]. }
    split; simpl; [done|auto| | | |].
    + intros q. rewrite list_lookup_insert_dec by done. case_decide as E; [by intros [= <-]|apply Hin].
    + intros k q m. rewrite list_lookup_insert_dec by done. case_decide as E; [intros [= <-]; by rewrite Hpa'|].
      intros Hq Hm. destruct (Hpar k q m Hq Hm) as (?&?&?&?). auto.
    + intros k q. rewrite list_lookup_insert_dec by done. case_decide as E; [by intros [= <-]|apply Hch].
    + intros np k Hnp. apply Hk. by eapply Hfk.
Qed.

(** ** Sleeping in wait *)

Lemma proc_chan_inj i j : proc_chan ptab (Some i) = proc_chan ptab (Some j) → i = j.
Proof. simpl. unfold PROC_SIZE. lia. Qed.

(** A change of one entry that does not put a process to sleep, nor makes one exit or changes
    its parent. *)
Lemma wait_put w w' i p p' :
  wait_inv w → procs w !! i = Some p → procs w' = <[i := p']> (procs w) →
  (p_state p' = SLEEPING → p_chan p' = proc_chan ptab (Some i) → p_state p = SLEEPING ∧ p_chan p = proc_chan ptab (Some i)) →
  (p_state p' = ZOMBIE → p_state p = ZOMBIE ∧ p_parent p' = p_parent p) →
  wait_inv w'.
Proof.
  intros Hw Hp El Hs Hz j q k r. pose proof (lookup_lt_Some _ _ _ Hp) as Hlt. rewrite El, !list_lookup_insert_dec by done.
  intros Hq Hqs Hqc Hr Hrp Hrz.
  assert (∃ q0, procs w !! j = Some q0 ∧ p_state q0 = SLEEPING ∧ p_chan q0 = proc_chan ptab (Some j)) as (q0&Hq0&?&?).
  { destruct (decide (j = i)) as [->|]; [|by eauto]. injection Hq as <-. destruct (Hs Hqs Hqc). by exists p. }
  assert (∃ r0, procs w !! k = Some r0 ∧ p_state r0 = ZOMBIE ∧ p_parent r0 = Some j) as (r0&Hr0&?&?).
  { destruct (decide (k = i)) as [->|]; [|by eauto]. injection Hr as <-. destruct (Hz Hrz) as [? E]. exists p. by rewrite <- E. }
  by eapply (Hw j q0 k r0).
Qed.

Lemma effect_wait w w' : cpu_inv w → tree_inv w → wait_inv w → effect ptab w w' → wait_inv w'.
Proof.
  intros Hci Hti Hwi Hef.
  destruct Hef as [c pos i p Hc Hp Hs|c pos Hc|c i pos p Hc Hp|c i pos p ch Hc Hp Hnf Hch|c i pos p Hc Hp|ch|i p Hp|
    |c i pos np p Hc Hnf Hp Hs|c i pos np p Hc Hf Hp|c i pos np p Hc Hf Hp|c i pos l' Hc Hnf Hinit Hex|c i pos j p p' Hc Hp Hz Hpar Hs' _ Hpa'].
  - by eapply (wait_put w _ i p).
  - exact Hwi.
  - by eapply (wait_put w _ i p).
  - pose proof (lookup_lt_Some _ _ _ Hp) as Hlt. intros j q k r. simpl. rewrite !list_lookup_insert_dec by done.
    intros Hq Hqs Hqc Hr Hrp Hrz.
    assert (k ≠ i) as Hki by (intros ->; rewrite decide_True in Hr by done; by injection Hr as <-).
    rewrite decide_False in Hr by done. destruct (decide (j = i)) as [->|]; [|by eapply (Hwi j q k r)].
    injection Hq as <-. simpl in Hqc. destruct Hch as [Hch|[_ Hch]]; [by apply (Hch i)|by apply (Hch k r)].
  - pose proof (running_state w c i pos p Hci Hc Hp) as Hs. eapply (wait_put w _ i p); try done; simpl; by rewrite Hs.
  - intros j q k r. cbn [set_pt w_pt set_pt_proc pt_proc]. intros (q0&Hq0&->)%lookup_woken Hqs Hqc (r0&Hr0&->)%lookup_woken Hrp Hrz.
    pose proof (wake_proc_spec ch q0) as (_&E1&_&S1&_). pose proof (wake_proc_spec ch r0) as (_&_&E2&S2&_).
    assert (p_state q0 = SLEEPING) by (destruct S1 as [S1|[S1 _]]; congruence).
    assert (p_state r0 = ZOMBIE) by (destruct S2 as [S2|[S2 S2']]; congruence).
    eapply (Hwi j q0 k r0); try done; congruence.
  - eapply (wait_put w _ i p); try done; simpl; case_decide; done.
  - exact Hwi.
  - by eapply (wait_put w _ np p).
  - by eapply (wait_put w _ np p).
  - by eapply (wait_put w _ np p).
  - pose proof Hex as [Hlen Hent Hexp Hexi].
    destruct Hci as [[_ Hrun _] _ _]. destruct (Hrun _ _ _ Hc) as (me&Hme&Hmes).
    intros j q' k r'. cbn [idle w_pt set_pt_proc pt_proc]. intros Hq' Hqs Hqc Hr' Hrp Hrz.
    assert (is_Some (procs w !! j)) as [q Hq] by (apply lookup_lt_is_Some; apply lookup_lt_Some in Hq'; lia).
    assert (is_Some (procs w !! k)) as [r Hr] by (apply lookup_lt_is_Some; apply lookup_lt_Some in Hr'; lia).
    destruct (Hent j q Hq) as (q2&Hq2&_&Eqc&_&Hqst). rewrite Hq2 in Hq'. injection Hq' as <-.
    destruct (Hent k r Hr) as (r2&Hr2&_&_&Erp&Hrst). rewrite Hr2 in Hr'. injection Hr' as <-.
    assert (j ≠ i ∧ p_state q = SLEEPING) as [Hji Hqs0].
    { destruct Hqst as [Hst|(_&?&_)]; [|congruence]. destruct (decide (j = i)); [congruence|]. split; [done|congruence]. }
    destruct (decide (k = i)) as [->|Hki].
    + rewrite Hme in Hr. injection Hr as <-. rewrite Erp in Hrp. case_decide as E.
      * by destruct (tr_parent _ Hti i me i Hme E) as (_&_&?&_).
      * apply (Hexp me j q2 Hme Hq2 Hqs). by rewrite Hqc, Hrp.
    + assert (p_state r = ZOMBIE) as Hrz0 by (destruct Hrst as [Hst|(_&?&_)]; congruence).
      rewrite Erp in Hrp. case_decide as E.
      * apply (Hexi k r j q2 Hr E Hrz0 Hq2 Hqs). by rewrite Hqc, Hrp.
      * eapply (Hwi j q k r); try done. congruence.
  - eapply (wait_put w _ j p); try done; by rewrite Hs'.
Qed.
End Invariants.

(** * Reachable worlds *)

Section Reachable.
Context (ptab : Z).
Implicit Types (w : world) (p q : proc).
Abbreviation procs w := (pt_proc (w_pt w)).

Lemma boot_lookup ncpu i p :
  procs (boot ncpu) !! i = Some p → i = 0%nat ∧ p = set_p_state RUNNABLE (set_p_pid 1 unused) ∨ i ≠ 0%nat ∧ p = unused.
Proof.
  unfold boot. cbn [w_pt pt_proc]. rewrite list_lookup_insert_dec by (rewrite length_replicate; unfold NPROC; lia).
  case_decide; [naive_solver|]. intros [-> _]%lookup_replicate. by right.
Qed.

Lemma boot_invs ncpu : cpu_inv (boot ncpu) ∧ pid_inv (boot ncpu) ∧ tree_inv (boot ncpu) ∧ wait_inv ptab (boot ncpu).
Proof.
  assert (∀ c i pos, ¬ runs (boot ncpu) c i pos) as Hr by (intros c i pos [? _]%lookup_replicate; done).
  split_and!.
  - split; [split; [done| |]|..].
    + intros c i pos []%Hr.
    + intros np i. simpl. by rewrite lookup_empty.
    + intros i p [[-> ->]|[_ ->]]%boot_lookup; done.
    + intros c c' i pos pos' []%Hr.
  - split; [done| |].
    + intros i p [[-> ->]|[_ ->]]%boot_lookup; simpl; [lia|done].
    + intros i j p q [[-> ->]|[_ ->]]%boot_lookup [[-> ->]|[_ ->]]%boot_lookup; done.
  - split; [done| | | | |].
    + eexists. split; [reflexivity|]. unfold alive. simpl. tauto.
    + intros p [[_ ->]|[? ->]]%boot_lookup; done.
    + intros i p j [[-> ->]|[_ ->]]%boot_lookup; done.
    + intros i p [[-> ->]|[_ ->]]%boot_lookup; done.
    + intros np i. simpl. by rewrite lookup_empty.
  - intros i p j q [[-> ->]|[_ ->]]%boot_lookup; done.
Qed.

Lemma reachable_invs ncpu w :
  reachable ptab ncpu w → cpu_inv w ∧ pid_inv w ∧ tree_inv w ∧ wait_inv ptab w.
Proof.
  intros Hr. apply (rtc_ind_r (R := step ptab) (λ w, cpu_inv w ∧ pid_inv w ∧ tree_inv w ∧ wait_inv ptab w) (boot ncpu));
    [apply boot_invs| |exact Hr].
  intros w1 w2 _ Hst (Hc&Hp&Ht&Hw). pose proof (step_effect ptab w1 w2 (ci_base _ Hc) Hst) as He.
  split_and!; [by eapply effect_cpu|by eapply effect_pid|by eapply effect_tree|by eapply effect_wait].
Qed.

(** C6. The process table.  In every state that the CPUs can reach, a process is RUNNING exactly if some CPU runs it, and no two
    CPUs run the same process; used slots have positive, pairwise distinct process ids; init never
    exits; and every process other than init that has started has a parent that is alive, so
    that an exited process always has a parent that can wait for it. *)
Theorem process_table_inv ncpu w :
  reachable ptab ncpu w → cpu_inv w ∧ pid_inv w ∧ tree_inv w.
Proof. intros (?&?&?&_)%reachable_invs. done. Qed.

(** C7. No exit is lost.  In every reachable state, a process that sleeps in wait has no child that has exited: exit wakes the
    parent, and init when it inherits an exited child, under the same lock under which
    wait looks for children and goes to sleep. *)
Theorem wait_no_lost_exit ncpu w i p j q :
  reachable ptab ncpu w →
  procs w !! i = Some p → p_state p = SLEEPING → p_chan p = proc_chan ptab (Some i) →
  procs w !! j = Some q → p_parent q = Some i → p_state q ≠ ZOMBIE.
Proof. intros (_&_&_&Hw)%reachable_invs. apply Hw. Qed.

(** ** Fairness of the scheduler *)

(** CPU [c] picks a process in the step from [w] to [w1]. *)
Definition picks (c : nat) w w1 : bool :=
  match w_cpus w !! c, w_cpus w1 !! c with
  | Some (Cpu None _), Some (Cpu (Some _) _) => true
  | _, _ => false
  end.

(** The steps between two worlds, with the number [n] of times that CPU [c] picks a
    process, in which process [i] may run but does not. *)
Inductive overtaken (c i : nat) : nat → world → world → Prop :=
| ov_refl w : st (procs w) i = Some RUNNABLE → overtaken c i 0 w w
| ov_step w w1 w2 n : st (procs w) i = Some RUNNABLE → step ptab w w1 → overtaken c i n w1 w2 →
    overtaken c i (if picks c w w1 then S n else n) w w2.

Lemma scan_runnable_first pos k l x p :
  l !! x = Some p → p_state p = RUNNABLE → (pos ≤ k + x)%nat →
  ∃ j, scan_runnable pos k l = Some j ∧ (pos ≤ j ≤ k + x)%nat.
Proof.
  revert k x. induction l as [|q l IH]; intros k x; [done|]. destruct x as [|x]; simpl.
  - intros [= ->] Hs Hp. exists k. rewrite decide_True; [split; [done|lia]|]. split; [done|lia].
  - intros Hx Hs Hp. case_decide as Hd; [exists k; split; [done|lia]|].
    destruct (IH (S k) x Hx Hs ltac:(lia)) as (j'&Hj&?). exists j'. split; [done|lia].
Qed.

Lemma pick_scan pos (pt pt' : ptable) r :
  pt_lock pt = false → scheduler_pick pos pt = Ok r pt' → r = scan_runnable pos 0 (pt_proc pt).
Proof.
  intros Hl. assert (wp (scheduler_pick pos) (λ r _, r = scan_runnable pos 0 (pt_proc pt)) pt) as Hw.
  { apply wp_bind, wp_acquire; [done|]. apply wp_bind, wp_gets. simpl.
    destruct (scan_runnable pos 0 (pt_proc pt)) as [i|] eqn:Hi.
    - apply wp_bind, wp_modify, wp_bind, wp_release; [done|]. by apply wp_ret.
    - apply wp_bind, wp_release; [done|]. by apply wp_ret. }
  by apply (wp_inv _ _ _ _ _ Hw).
Qed.

Lemma scan_runnable_bounds pos k l j : scan_runnable pos k l = Some j → (pos ≤ j < k + length l)%nat.
Proof.
  revert k. induction l as [|q l IH]; intros k; simpl; [done|]. case_decide as Hd; [intros [= <-]; lia|].
  intros Hj%IH. lia.
Qed.

(** What a step does to the scan position of a CPU. *)
Lemma step_pos w w1 c o pos :
  cpu_inv w → step ptab w w1 → w_cpus w !! c = Some (Cpu o pos) →
  ∃ o' pos', w_cpus w1 !! c = Some (Cpu o' pos') ∧
    ((∃ j, o' = Some j ∧ pos' = S j ∧ scan_runnable pos 0 (procs w) = Some j) ∨
     (picks c w w1 = false ∧ (pos' = pos ∨ pos' = 0%nat ∧ scan_runnable pos 0 (procs w) = None))).
Proof.
  intros [[Hl _ _] _ _] Hst Hc. pose proof (lookup_lt_Some _ _ _ Hc) as Hlt.
  assert (∀ pt fk, ∃ o' pos', w_cpus (World pt (w_cpus w) fk) !! c = Some (Cpu o' pos') ∧
    ((∃ j, o' = Some j ∧ pos' = S j ∧ scan_runnable pos 0 (procs w) = Some j) ∨
     (picks c w (World pt (w_cpus w) fk) = false ∧ (pos' = pos ∨ pos' = 0%nat ∧ scan_runnable pos 0 (procs w) = None)))) as Hsame.
  { intros pt fk. exists o, pos. split; [done|]. right. split; [|by left]. unfold picks. simpl. rewrite Hc. by destruct o. }
  assert (∀ c' i pos1 pt, runs w c' i pos1 → ∃ o' pos', w_cpus (idle w c' pos1 pt) !! c = Some (Cpu o' pos') ∧
    ((∃ j, o' = Some j ∧ pos' = S j ∧ scan_runnable pos 0 (procs w) = Some j) ∨
     (picks c w (idle w c' pos1 pt) = false ∧ (pos' = pos ∨ pos' = 0%nat ∧ scan_runnable pos 0 (procs w) = None)))) as Hidle.
  { intros c' i pos1 pt Hr. unfold runs in Hr. pose proof (lookup_lt_Some _ _ _ Hr) as Hlt'.
    unfold picks. simpl. rewrite list_lookup_insert_dec by done. destruct (decide (c = c')) as [->|Hne].
    - rewrite Hr in Hc. injection Hc as <- <-. exists None, pos1. split; [done|]. right. rewrite Hr. split; [done|by left].
    - exists o, pos. split; [done|]. right. rewrite Hc. split; [by destruct o|by left]. }
  destruct Hst as [c' pos1 i pt Hc' Hr|c' pos1 pt Hc' Hr|c' i pos1 pt Hc' Hr|c' i pos1 ch pt Hc' Hnf Ho Hr|c' i pos1 pt Hc' Hr|ch pt Hr|pid r pt Hr
    |c' i pos1 np pt Hc' Hnf Hr|c' i pos1 np pid pt Hc' Hf Hr|c' i pos1 np pt Hc' Hf Hr|c' i pos1 pt Hc' Hnf Hinit Hr|c' i pos1 r pt Hc' Hnf Hr];
    try apply Hsame; try (by eapply Hidle).
  - apply pick_scan in Hr; [|done]. unfold picks. simpl.
    rewrite list_lookup_insert_dec by (by eapply lookup_lt_Some). destruct (decide (c = c')) as [->|Hne].
    + rewrite Hc' in Hc. injection Hc as <- <-. exists (Some i), (S i). split; [done|]. left. by exists i.
    + exists o, pos. split; [done|]. right. rewrite Hc. split; [by destruct o|by left].
  - apply pick_scan in Hr; [|done]. unfold picks. simpl.
    rewrite list_lookup_insert_dec by (by eapply lookup_lt_Some). destruct (decide (c = c')) as [->|Hne].
    + rewrite Hc' in Hc. injection Hc as <- <-. exists None, 0%nat. split; [done|]. right. rewrite Hc'. split; [done|by right].
    + exists o, pos. split; [done|]. right. rewrite Hc. split; [by destruct o|by left].
  - destruct r; try apply Hsame. by eapply Hidle.
Qed.

(** How many processes a CPU at position [pos] can pick before process [i]. *)
Definition ahead (i pos : nat) : nat :=
  if decide (pos ≤ i)%nat then i - pos else (Z.to_nat NPROC - pos) + i + 1.

Lemma step_length w w1 : cpu_inv w → step ptab w w1 → length (procs w1) = length (procs w).
Proof.
  intros Hc Hst. destruct (step_effect ptab w w1 (ci_base _ Hc) Hst); simpl; rewrite ?length_insert, ?length_fmap; try done.
  by eapply ex_len.
Qed.

Lemma overtaken_bound c i n w w' o pos :
  overtaken c i n w w' → cpu_inv w → length (procs w) = Z.to_nat NPROC →
  w_cpus w !! c = Some (Cpu o pos) → (pos ≤ Z.to_nat NPROC)%nat → (n ≤ ahead i pos)%nat.
Proof.
  intros Hov. revert o pos. induction Hov as [w Hi|w w1 w2 n Hi Hst Hov IH]; intros o pos Hci Hlen Hc Hpos; [lia|].
  pose proof (effect_cpu ptab w w1 Hci (step_effect ptab w w1 (ci_base _ Hci) Hst)) as Hci1.
  pose proof (step_length w w1 Hci Hst) as Hlen1.
  destruct (step_pos w w1 c o pos Hci Hst Hc) as (o'&pos'&Hc1&Hcase).
  apply st_Some in Hi as (p&Hp&Hs). pose proof (lookup_lt_Some _ _ _ Hp) as Hip.
  assert (st (procs w1) i = Some RUNNABLE) as Hi1 by (by destruct Hov).
  destruct Hcase as [(j&->&->&Hscan)|[Hnp [->|[-> Hscan]]]].
  - pose proof (scan_runnable_bounds _ _ _ _ Hscan) as Hb. simpl in Hb.
    specialize (IH (Some j) (S j) Hci1 ltac:(congruence) Hc1 ltac:(lia)).
    assert (j ≠ i) as Hji.
    { intros ->. destruct Hci1 as [[_ Hrun _] _ _]. destruct (Hrun c i (S i) Hc1) as (q&Hq&Hqs).
      unfold st in Hi1. rewrite Hq in Hi1. simpl in Hi1. congruence. }
    assert ((pos ≤ i)%nat → (j < i)%nat) as Hlt.
    { intros Hle. destruct (scan_runnable_first pos 0 (procs w) i p Hp Hs Hle) as (j'&Hj'&?). assert (j' = j) by congruence. lia. }
    unfold ahead in *. repeat case_decide; case_match; lia.
  - rewrite Hnp. by eapply IH; [|congruence|..].
  - rewrite Hnp. specialize (IH o' 0%nat Hci1 ltac:(congruence) Hc1 ltac:(lia)).
    assert (i < pos)%nat as Hlt.
    { destruct (decide (i < pos)%nat); [done|]. destruct (scan_runnable_first pos 0 (procs w) i p Hp Hs ltac:(lia)) as (j'&Hj'&_). congruence. }
    unfold ahead in *. repeat case_decide; lia.
Qed.

Lemma reachable_length ncpu w :
  reachable ptab ncpu w → length (procs w) = Z.to_nat NPROC ∧
    ∀ c x, w_cpus w !! c = Some x → (c_pos x ≤ Z.to_nat NPROC)%nat.
Proof.
  intros Hr. apply (rtc_ind_r (R := step ptab) (λ w, cpu_inv w ∧ (length (procs w) = Z.to_nat NPROC ∧
    ∀ c x, w_cpus w !! c = Some x → (c_pos x ≤ Z.to_nat NPROC)%nat)) (boot ncpu)); [| |exact Hr].
  - split; [apply boot_invs|]. split; [done|]. intros c x [-> _]%lookup_replicate. simpl. lia.
  - clear w Hr. intros w w1 _ Hst (Hci&Hlen&Hpos). pose proof (step_length w w1 Hci Hst) as Hlen1.
    split; [eapply effect_cpu, step_effect; [done|apply Hci|done]|]. split; [congruence|].
    intros c [o1 pos1] Hc1. assert (is_Some (w_cpus w !! c)) as [[o pos] Hc].
    { apply lookup_lt_is_Some. apply lookup_lt_Some in Hc1. destruct (step_effect ptab w w1 (ci_base _ Hci) Hst);
        simpl in *; by rewrite ?length_insert in *. }
    destruct (step_pos w w1 c o pos Hci Hst Hc) as (o'&pos'&Hc1'&Hcase). rewrite Hc1' in Hc1. injection Hc1 as <- <-.
    specialize (Hpos c _ Hc). simpl in *.
    destruct Hcase as [(j&->&->&Hscan)|[_ [->|[-> _]]]]; [|lia..].
    apply scan_runnable_bounds in Hscan. lia.
Qed.

(** C13. No process starves.  Take any run of the system during which process [i] is ready to run but is never chosen.  Each CPU
    chooses other processes at most 2 * NPROC times in that run: its scan goes round the table
    and cannot pass a ready process. *)
Theorem scheduler_fair ncpu w w' c i n :
  reachable ptab ncpu w → (c < length (w_cpus w))%nat → overtaken c i n w w' → (n ≤ 2 * Z.to_nat NPROC)%nat.
Proof.
  intros Hr Hc Hov. destruct (reachable_length ncpu w Hr) as [Hlen Hpos].
  destruct (reachable_invs ncpu w Hr) as (Hci&_). destruct (lookup_lt_is_Some_2 _ _ Hc) as [[o pos] Hcpu].
  pose proof (Hpos c _ Hcpu) as Hp. simpl in Hp.
  pose proof (overtaken_bound c i n w w' o pos Hov Hci Hlen Hcpu Hp) as Hn.
  assert (st (procs w) i = Some RUNNABLE) as (p&Hpi&_)%st_Some by (by destruct Hov).
  apply lookup_lt_Some in Hpi. unfold ahead in Hn. case_decide; lia.
Qed.
End Reachable.

(** ** A run on one CPU

    init forks process 1 and waits; process 1 forks process 2 and yields; process 2 is picked
    and exits. *)
Module Example.
Definition ptab : Z := 1048576.

Definition after {A} (m : M ptable A) (pt : ptable) : ptable :=
  match m pt with Ok _ s => s | _ => pt end.

Definition w1 : world := Eval vm_compute in World (after (scheduler_pick 0) (w_pt (boot 1))) [Cpu (Some 0%nat) 1] ∅.
Definition w2 : world := Eval vm_compute in World (after alloc_slot (w_pt w1)) (w_cpus w1) {[1%nat := 0%nat]}.
Definition w3 : world := Eval vm_compute in World (after (fork_ready 1 0) (w_pt w2)) (w_cpus w2) ∅.
Definition w4 : world := Eval vm_compute in idle w3 0 1 (after (wait_round ptab 0) (set_pt_lock true (w_pt w3))).
Definition w5 : world := Eval vm_compute in World (after (scheduler_pick 1) (w_pt w4)) [Cpu (Some 1%nat) 2] ∅.
Definition w6 : world := Eval vm_compute in World (after alloc_slot (w_pt w5)) (w_cpus w5) {[2%nat := 1%nat]}.
Definition w7 : world := Eval vm_compute in World (after (fork_ready 2 1) (w_pt w6)) (w_cpus w6) ∅.
Definition w8 : world := Eval vm_compute in idle w7 0 2 (after (yield 1) (w_pt w7)).
Definition w9 : world := Eval vm_compute in World (after (scheduler_pick 2) (w_pt w8)) [Cpu (Some 2%nat) 3] ∅.
Definition w10 : world := Eval vm_compute in idle w9 0 3 (after (exit_locked ptab 2) (w_pt w9)).

Ltac not_forks := intros ? ?; vm_compute in *; congruence.

Lemma wait_reachable : reachable ptab 1 w4.
Proof.
  apply rtc_l with w1; [by apply (s_pick ptab (boot 1) 0 0 0)|].
  apply rtc_l with w2; [by apply (s_fork ptab w1 0 0 1 1); [|not_forks|]|].
  apply rtc_l with w3; [by apply (s_fork_ready ptab w2 0 0 1 1 2)|].
  apply rtc_once. by apply (s_wait ptab w3 0 0 1 Asleep); [|not_forks|].
Qed.

Lemma yield_reachable : reachable ptab 1 w8.
Proof.
  unfold reachable. etrans; [apply wait_reachable|].
  apply rtc_l with w5; [by apply (s_pick ptab w4 0 1 1)|].
  apply rtc_l with w6; [by apply (s_fork ptab w5 0 1 2 2); [|not_forks|]|].
  apply rtc_l with w7; [by apply (s_fork_ready ptab w6 0 1 2 2 3)|].
  apply rtc_once. by apply (s_yield ptab w7 0 1 2).
Qed.

Lemma pick_step : step ptab w8 w9.
Proof. by apply (s_pick ptab w8 0 2 2). Qed.

Lemma exit_reachable : reachable ptab 1 w10.
Proof.
  unfold reachable. eapply rtc_r; [eapply rtc_r; [apply yield_reachable|apply pick_step]|].
  by apply (s_exit ptab w9 0 2 3); [|not_forks| |].
Qed.
End Example.

Lemma process_table_inv_witness :
  cpu_inv Example.w10 ∧ pid_inv Example.w10 ∧ tree_inv Example.w10.
Proof. exact (process_table_inv Example.ptab 1 Example.w10 Example.exit_reachable). Defined.

Lemma wait_no_lost_exit_witness :
  ∃ p q, pt_proc (w_pt Example.w4) !! 0%nat = Some p ∧ p_state p = SLEEPING ∧
    pt_proc (w_pt Example.w4) !! 1%nat = Some q ∧ p_parent q = Some 0%nat ∧ p_state q ≠ ZOMBIE.
Proof.
  eexists _, _. split; [reflexivity|]. split; [reflexivity|]. split; [reflexivity|]. split; [reflexivity|].
  by eapply (wait_no_lost_exit Example.ptab 1 Example.w4 0 _ 1 _ Example.wait_reachable).
Defined.

Lemma scheduler_fair_witness :
  overtaken Example.ptab 0 1 1 Example.w8 Example.w9 ∧ (1 ≤ 2 * Z.to_nat NPROC)%nat.
Proof.
  assert (overtaken Example.ptab 0 1 1 Example.w8 Example.w9) as Hov.
  { apply (ov_step Example.ptab 0 1 Example.w8 Example.w9 Example.w9 0 eq_refl Example.pick_step). by apply ov_refl. }
  split; [exact Hov|].
  apply (scheduler_fair Example.ptab 1 Example.w8 Example.w9 0 1 1 Example.yield_reachable); [|exact Hov].
  apply Nat.ltb_lt. reflexivity.
Defined.

(** kill(0) succeeds, because an unused slot has process id 0, and marks that slot as killed; allocproc does
    not clear the mark, so the next child that init forks is killed although nobody named it. *)
Theorem kill_zero_marks_next_child :
  ∃ pt pt' p, kill 0 (w_pt Example.w1) = Ok 0 pt ∧ alloc_slot pt = Ok (Some 1%nat) pt' ∧
    pt_proc pt' !! 1%nat = Some p ∧ p_pid p = 2 ∧ p_killed p = true.
Proof. eexists _, _, _. split; [vm_compute; reflexivity|]. split; vm_compute; [reflexivity|done]. Qed.
