(* ===== verification/Grep.v ===== *)
(** The user program grep (src/grep.c): the regular expression matcher, and the loop that
    splits its input into lines.

    A C string is the list of its characters, without the terminating null; so
    [*text == 0] is [text = []]. *)

From S2P Require Import Prelude Bytes.

Definition CARET : Z := 94.
Definition DOT : Z := 46.
Definition STAR : Z := 42.
Definition DOLLAR : Z := 36.
Definition NEWLINE : Z := 10.

(** * The matcher *)

(** [mh] is matchhere(re, _) for the expression after the star. *)
Fixpoint matchstar (c : Z) (mh : list Z → bool) (text : list Z) : bool :=
  if mh text then true else
  match text with
  | [] => false
  | x :: text => if (x =? c) || (c =? DOT) then matchstar c mh text else false
  end.

Fixpoint matchhere (re text : list Z) : bool :=
  match re with
  | [] => true
  | c :: re1 =>
      match re1 with
      | d :: re2 =>
          if d =? STAR then matchstar c (matchhere re2) text
          else match text with
               | x :: text => if (c =? DOT) || (c =? x) then matchhere re1 text else false
               | [] => false
               end
      | [] =>
          if c =? DOLLAR then bool_decide (text = [])
          else match text with
               | x :: text => if (c =? DOT) || (c =? x) then matchhere re1 text else false
               | [] => false
               end
      end
  end.

(** The loop of match: [re] somewhere in [text], the empty end included. *)
Fixpoint match_loop (re text : list Z) : bool :=
  if matchhere re text then true else
  match text with [] => false | _ :: text => match_loop re text end.

Definition match_ (re text : list Z) : bool :=
  match re with
  | c :: re' => if c =? CARET then matchhere re' text else match_loop re text
  | [] => match_loop re text
  end.

(** * The loop over the input *)

Definition BUFSIZE : nat := 1024.

(** The string at [p]. *)
Definition cstr (p : nat) (buf : list Z) : list Z := until_null (drop p buf).

(** strchr(p, c), as an offset from [p] *)
Fixpoint find_char (s : list Z) (c : Z) : option nat :=
  match s with
  | [] => None
  | x :: s => if x =? c then Some 0%nat else S <$> find_char s c
  end.

(** buf from [i] on is overwritten by [bs]. *)
Definition store_at (i : nat) (bs buf : list Z) : list Z := take i buf ++ bs ++ drop (i + length bs) buf.

Section Loop.
(** read(fd, _, n), which also returns the bytes it stored, and write(1, _, _) *)
Context {W : Type} (read : nat → M W (Z * list Z)) (write : list Z → M W unit).

(** The inner while: the lines of buf from [p] on; returns buf and p. *)
Fixpoint grep_lines (fuel : nat) (pattern buf : list Z) (p : nat) : M W (list Z * nat) :=
  match find_char (cstr p buf) NEWLINE with
  | None => mret (buf, p)
  | Some k =>
      match fuel with
      | O => out_of_fuel
      | S fuel =>
          let q := (p + k)%nat in
          let buf := <[q := 0]> buf in
          buf ← (if match_ pattern (cstr p buf)
                 then let buf := <[q := NEWLINE]> buf in write (take (q + 1 - p) (drop p buf));; mret buf
                 else mret buf);
          grep_lines fuel pattern buf (q + 1)
      end
  end.

Fixpoint grep_loop (fuel : nat) (pattern buf : list Z) (m : nat) : M W (list Z) :=
  match fuel with
  | O => out_of_fuel
  | S fuel =>
      '(n, bs) ← read (BUFSIZE - m - 1)%nat;
      if n <=? 0 then mret buf else
      let buf := store_at m bs buf in
      let m := (m + Z.to_nat n)%nat in
      let buf := <[m := 0]> buf in
      '(buf, p) ← grep_lines BUFSIZE pattern buf 0;
      let m := if decide (p = 0%nat) then 0%nat else m in
      let '(buf, m) :=
        if decide (0 < m)%nat
        then let m := (m - p)%nat in (store_at 0 (take m (drop p buf)) buf, m)
        else (buf, m) in
      grep_loop fuel pattern buf m
  end.

(** grep(pattern, fd); buf, which is global, is passed on. *)
Definition grep (fuel : nat) (pattern buf : list Z) : M W (list Z) := grep_loop fuel pattern buf 0.
End Loop.

(** * What an expression matches

    An expression is an optional ^, a sequence of characters and starred characters, and an
    optional $. *)

Inductive item := One (c : Z) | Star (c : Z).

(** A character of the expression stands for itself, and a dot for every character. *)
Definition stands_for (c x : Z) : Prop := c = DOT ∨ x = c.

Fixpoint parse (re : list Z) : list item * bool :=
  match re with
  | [] => ([], false)
  | c :: re1 =>
      match re1 with
      | d :: re2 => if d =? STAR then (Star c :: (parse re2).1, (parse re2).2) else (One c :: (parse re1).1, (parse re1).2)
      | [] => if c =? DOLLAR then ([], true) else ([One c], false)
      end
  end.

Definition regex (re : list Z) : bool * list item * bool :=
  match re with
  | c :: re' => if c =? CARET then (true, (parse re').1, (parse re').2) else (false, (parse re).1, (parse re).2)
  | [] => (false, [], false)
  end.

Inductive lang : list item → list Z → Prop :=
| lang_nil : lang [] []
| lang_one c x its s : stands_for c x → lang its s → lang (One c :: its) (x :: s)
| lang_star c xs its s : Forall (stands_for c) xs → lang its s → lang (Star c :: its) (xs ++ s).

(** A part of [text] is in the language of the expression: at its start after ^, at
    its end before $. *)
Definition matches (re text : list Z) : Prop :=
  let '(bol, its, eol) := regex re in
  ∃ pre mid post, text = pre ++ mid ++ post ∧ lang its mid ∧ (bol = true → pre = []) ∧ (eol = true → post = []).

Definition matches_here (its : list item) (eol : bool) (text : list Z) : Prop :=
  ∃ mid post, text = mid ++ post ∧ lang its mid ∧ (eol = true → post = []).

Lemma stands_for_spec c x : (c =? DOT) || (c =? x) = true ↔ stands_for c x.
Proof. unfold stands_for. rewrite orb_true_iff, !Z.eqb_eq. intuition congruence. Qed.

Lemma matches_star c its eol text :
  matches_here (Star c :: its) eol text ↔
  matches_here its eol text ∨ ∃ x text', text = x :: text' ∧ stands_for c x ∧ matches_here (Star c :: its) eol text'.
Proof.
  unfold matches_here. split.
  - intros (mid&post&->&Hl&He). inversion Hl as [|?|? xs its' s Hxs Hs]; subst. destruct xs as [|x xs].
    + left. by exists s, post.
    + right. apply Forall_cons_1 in Hxs as [Hx Hxs]. exists x, ((xs ++ s) ++ post). split_and!; [done|done|].
      exists (xs ++ s), post. split_and!; [done| |done]. by constructor.
  - intros [(mid&post&->&Hl&He)|(x&text'&->&Hx&mid&post&->&Hl&He)].
    + exists mid, post. split_and!; [done| |done]. by apply (lang_star c []).
    + exists (x :: mid), post. split_and!; [done| |done]. inversion Hl as [|?|? xs its' s Hxs Hs]; subst.
      apply (lang_star c (x :: xs)); [|done]. by constructor.
Qed.

Lemma matchstar_spec c mh its eol text :
  (∀ t, mh t = true ↔ matches_here its eol t) →
  matchstar c mh text = true ↔ matches_here (Star c :: its) eol text.
Proof.
  intros Hmh. induction text as [|x text IH]; rewrite matches_star; simpl.
  - rewrite <- Hmh. destruct (mh []); [intuition|]. split; [done|]. by intros [?|(?&?&?&_)].
  - rewrite <- Hmh. destruct (mh (x :: text)); [intuition|].
    assert ((x =? c) || (c =? DOT) = true ↔ stands_for c x) as Hs.
    { rewrite <- stands_for_spec, (Z.eqb_sym x c). by rewrite orb_comm. }
    destruct ((x =? c) || (c =? DOT)).
    + rewrite IH. split; [|by intros [?|(?&?&[= <- <-]&_&?)]]. intros. right. exists x, text. intuition.
    + split; [done|]. intros [?|(?&?&[= <- <-]&Hx&_)]; [done|]. by apply Hs in Hx.
Qed.

Lemma matches_one c its eol text :
  matches_here (One c :: its) eol text ↔ ∃ x text', text = x :: text' ∧ stands_for c x ∧ matches_here its eol text'.
Proof.
  unfold matches_here. split.
  - intros (mid&post&->&Hl&He). inversion Hl as [|? x ? s Hx Hs|]; subst. exists x, (s ++ post). split_and!; [done..|].
    by exists s, post.
  - intros (x&text'&->&Hx&mid&post&->&Hl&He). exists (x :: mid), post. split_and!; [done|by constructor|done].
Qed.

Lemma matches_end text : matches_here [] true text ↔ text = [].
Proof.
  unfold matches_here. split; [|intros ->; exists [], []; split_and!; [done|constructor|done]].
  intros (mid&post&->&Hl&He). inversion Hl. by rewrite He.
Qed.

Lemma one_spec c its eol (mh : list Z → bool) text :
  (∀ t, mh t = true ↔ matches_here its eol t) →
  match text with x :: text => if (c =? DOT) || (c =? x) then mh text else false | [] => false end = true ↔
  matches_here (One c :: its) eol text.
Proof.
  intros Hmh. rewrite matches_one. destruct text as [|x text]; [by split; [|intros (?&?&?&_)]|].
  destruct ((c =? DOT) || (c =? x)) eqn:Hc.
  - apply stands_for_spec in Hc. rewrite Hmh. split; [|by intros (?&?&[= <- <-]&_&?)]. intros. by exists x, text.
  - split; [done|]. intros (?&?&[= <- <-]&Hx&_). apply stands_for_spec in Hx. congruence.
Qed.

Lemma matchhere_spec re text : matchhere re text = true ↔ matches_here (parse re).1 (parse re).2 text.
Proof.
  revert text. induction re as [re IH] using (induction_ltof1 _ length). unfold ltof in IH. intros text.
  destruct re as [|c [|d re]]; simpl.
  - split; [|done]. intros _. exists [], text. split_and!; [done|constructor|done].
  - destruct (c =? DOLLAR); simpl; [rewrite matches_end; by rewrite bool_decide_eq_true|].
    apply (one_spec c [] false (λ _, true)). intros t. apply (IH []). simpl. lia.
  - destruct (d =? STAR); simpl.
    + apply matchstar_spec. intros t. apply IH. simpl. lia.
    + apply one_spec. intros t. apply (IH (d :: re)). simpl. lia.
Qed.

Lemma match_loop_spec re text :
  match_loop re text = true ↔ ∃ pre rest, text = pre ++ rest ∧ matches_here (parse re).1 (parse re).2 rest.
Proof.
  induction text as [|x text IH]; simpl; rewrite <- ?matchhere_spec.
  - destruct (matchhere re []) eqn:Hm.
    + split; [|done]. intros _. exists [], []. by rewrite <- matchhere_spec.
    + split; [done|]. intros (pre&rest&He&Hr). symmetry in He. apply app_eq_nil in He as [-> ->]. by apply matchhere_spec in Hr; congruence.
  - destruct (matchhere re (x :: text)) eqn:Hm.
    + split; [|done]. intros _. exists [], (x :: text). by rewrite <- matchhere_spec.
    + rewrite IH. split.
      * intros (pre&rest&->&Hr). by exists (x :: pre), rest.
      * intros ([|y pre]&rest&He&Hr); simplify_eq/=; [apply matchhere_spec in Hr; congruence|]. by exists pre, rest.
Qed.

(** C40. The matcher of Kernighan and Pike decides the language of the expression: match finds a pattern in a text exactly
    if some part of the text is a word of the pattern read as a regular expression, where a dot
    stands for any character, c* for any number of cs, and ^ and $ tie the part to the start and to the
    end of the text. *)
Theorem match_correct re text : match_ re text = true ↔ matches re text.
Proof.
  unfold match_, matches, regex. destruct re as [|c re].
  - rewrite match_loop_spec. simpl. split.
    + intros (pre&rest&->&mid&post&->&Hl&_). exists pre, mid, post. done.
    + intros (pre&mid&post&->&Hl&_). exists pre, (mid ++ post). split; [done|]. by exists mid, post.
  - destruct (c =? CARET).
    + rewrite matchhere_spec. split.
      * intros (mid&post&->&Hl&He). by exists [], mid, post.
      * intros (pre&mid&post&->&Hl&->&He); [|done]. by exists mid, post.
    + rewrite match_loop_spec. split.
      * intros (pre&rest&->&mid&post&->&Hl&He). by exists pre, mid, post.
      * intros (pre&mid&post&->&Hl&_&He). exists pre, (mid ++ post). split; [done|]. by exists mid, post.
Qed.

(** * The lines of the input *)

(** The lines of [data] that end in a newline, without it. *)
Fixpoint lines_from (cur data : list Z) : list (list Z) :=
  match data with
  | [] => []
  | x :: data => if x =? NEWLINE then cur :: lines_from [] data else lines_from (cur ++ [x]) data
  end.
Definition lines (data : list Z) : list (list Z) := lines_from [] data.

(** What grep shall print. *)
Definition selected (re data : list Z) : list Z :=
  concat ((λ l, l ++ [NEWLINE]) <$> filter (λ l, match_ re l = true) (lines data)).

Definition plain (l : list Z) : Prop := NEWLINE ∉ l.
Definition no_null (l : list Z) : Prop := 0 ∉ l.

Lemma lines_from_app cur l data : plain l → lines_from cur (l ++ data) = lines_from (cur ++ l) data.
Proof.
  unfold plain. revert cur. induction l as [|x l IH]; intros cur Hl; simpl; [by rewrite app_nil_r|].
  rewrite not_elem_of_cons in Hl. destruct (Z.eqb_spec x NEWLINE); [naive_solver|].
  rewrite IH by naive_solver. by rewrite <- app_assoc.
Qed.

Lemma lines_cons l data : plain l → lines (l ++ NEWLINE :: data) = l :: lines data.
Proof. intros Hl. unfold lines. by rewrite lines_from_app. Qed.

Lemma lines_plain l : plain l → lines l = [].
Proof. intros Hl. unfold lines. by rewrite <- (app_nil_r l), lines_from_app. Qed.

Lemma selected_cons re l data :
  plain l → selected re (l ++ NEWLINE :: data) = (if match_ re l then l ++ [NEWLINE] else []) ++ selected re data.
Proof.
  intros Hl. unfold selected. rewrite lines_cons by done. rewrite filter_cons. by destruct (match_ re l).
Qed.

Lemma selected_plain re l : plain l → selected re l = [].
Proof. intros Hl. unfold selected. by rewrite lines_plain. Qed.

Lemma find_char_spec s c :
  match find_char s c with
  | Some k => ∃ l r, s = l ++ c :: r ∧ length l = k ∧ c ∉ l
  | None => c ∉ s
  end.
Proof.
  induction s as [|x s IH]; simpl; [apply not_elem_of_nil|]. destruct (Z.eqb_spec x c) as [->|Hne].
  - exists [], s. split_and!; [done..|apply not_elem_of_nil].
  - destruct (find_char s c) as [k|]; simpl.
    + destruct IH as (l&r&->&<-&Hl). exists (x :: l), r. split_and!; [done..|]. rewrite not_elem_of_cons. by split; [congruence|].
    + rewrite not_elem_of_cons. by split; [congruence|].
Qed.

Lemma drop_insert_at {A} (p k : nat) (l a b : list A) x y :
  drop p l = a ++ x :: b → k = length a → drop p (<[(p + k)%nat := y]> l) = a ++ y :: b.
Proof. intros Hd ->. rewrite drop_insert_ge by lia. rewrite Hd. replace (p + length a - p)%nat with (length a + 0)%nat by lia. by rewrite insert_app_r. Qed.

Lemma drop_after {A} (p : nat) (l a b : list A) x : drop p l = a ++ x :: b → drop (p + length a + 1) l = b.
Proof.
  intros Hd. replace (p + length a + 1)%nat with (p + (length a + 1))%nat by lia. rewrite <- drop_drop, Hd.
  rewrite drop_app_ge by lia. by replace (length a + 1 - length a)%nat with 1%nat by lia.
Qed.

(** ** The loops *)

Lemma length_store_at i bs buf : (i + length bs ≤ length buf)%nat → length (store_at i bs buf) = length buf.
Proof. intros H. unfold store_at. rewrite !length_app, length_take, length_drop. lia. Qed.

(** No line of [data] that ends is too long for the buffer. *)
Definition lines_fit (data : list Z) : Prop := Forall (λ l, length l ≤ 1022)%nat (lines data).

Lemma lines_fit_plain a b : lines_fit (a ++ b) → plain a → (1023 ≤ length a)%nat → plain (a ++ b).
Proof.
  intros Hf Ha Hl. unfold lines_fit, lines in Hf. rewrite lines_from_app in Hf by done. simpl in Hf.
  unfold plain in *. rewrite elem_of_app. intros [?|Hb]; [done|]. apply list_elem_of_split_l in Hb as (l&r&->&Hl').
  rewrite lines_from_app in Hf by done. simpl in Hf. apply Forall_cons_1 in Hf as [Hf _]. rewrite length_app in Hf. lia.
Qed.

Lemma selected_app re a b c : lines (a ++ b) = lines a ++ lines c → selected re (a ++ b) = selected re a ++ selected re c.
Proof. intros E. unfold selected. by rewrite E, list.filter_app, fmap_app, concat_app. Qed.

Section Spec.
Context {W : Type} (read : nat → M W (Z * list Z)) (write : list Z → M W unit).
(** [at_ w data out]: [data] is still to be read, [out] has been written.  A read returns as many bytes as
    it is asked for, or all that are left, as on a regular file. *)
Context (at_ : W → list Z → list Z → Prop).
Hypothesis read_whole : ∀ w data out n, at_ w data out → (0 < n < BUFSIZE)%nat →
  ∃ w', read n w = Ok (Z.of_nat (length (take n data)), take n data) w' ∧ at_ w' (drop n data) out.
Hypothesis write_appends : ∀ w data out bs, at_ w data out →
  ∃ w', write bs w = Ok tt w' ∧ at_ w' data (out ++ bs).

(** The inner loop writes the selected lines and stops at the unfinished one. *)
Lemma grep_lines_spec re fuel buf p text junk w data out :
  at_ w data out → drop p buf = text ++ 0 :: junk → no_null text → (length text ≤ fuel)%nat →
  ∃ buf' whole rest w', text = whole ++ rest ∧ plain rest ∧ (whole = [] → plain text) ∧
    grep_lines write fuel re buf p w = Ok (buf', (p + length whole)%nat) w' ∧
    at_ w' data (out ++ selected re text) ∧
    drop (p + length whole) buf' = rest ++ 0 :: junk ∧ length buf' = length buf ∧
    ∀ more, lines (text ++ more) = lines text ++ lines (rest ++ more).
Proof.
  revert buf p text w out. induction fuel as [|fuel IH]; intros buf p text w out Hw Hd Hn Hf.
  - destruct text; [|simpl in Hf; lia]. exists buf, [], [], w. unfold grep_lines, cstr. rewrite Hd. simpl.
    rewrite Nat.add_0_r, app_nil_r. split_and!; try done; unfold plain; intros; apply not_elem_of_nil.
  - pose proof (find_char_spec text NEWLINE) as Hs. cbn [grep_lines].
    assert (cstr p buf = text) as Hc by (unfold cstr; by rewrite Hd, until_null_app).
    rewrite Hc. destruct (find_char text NEWLINE) as [k|].
    + destruct Hs as (l&r&->&<-&Hl). assert (no_null l ∧ no_null r) as [Hnl Hnr].
      { unfold no_null in *. rewrite elem_of_app, elem_of_cons in Hn. tauto. }
      rewrite <- app_assoc in Hd. simpl in Hd. cbv zeta.
      assert (drop p (<[(p + length l)%nat := 0]> buf) = l ++ 0 :: r ++ 0 :: junk) as Hd0 by (by eapply drop_insert_at).
      assert (cstr p (<[(p + length l)%nat := 0]> buf) = l) as -> by (unfold cstr; by rewrite Hd0, until_null_app).
      set (step := if match_ re l then _ else _).
      assert (∃ buf1 w1, step w = Ok buf1 w1 ∧ at_ w1 data (out ++ if match_ re l then l ++ [NEWLINE] else []) ∧
        length buf1 = length buf ∧ drop (p + length l + 1) buf1 = r ++ 0 :: junk) as (buf1&w1&Hstep&Hw1&Hlen&Hd1).
      { subst step. destruct (match_ re l).
        - rewrite (drop_insert_at _ _ _ _ _ _ NEWLINE Hd0 eq_refl).
          replace (p + length l + 1 - p)%nat with (length l + 1)%nat by lia. rewrite firstn_app_2.
          destruct (write_appends w data out (l ++ [NEWLINE]) Hw) as (w1&Hr&Hw1). eexists _, w1.
          split; [by rewrite (bind_run _ _ _ _ _ Hr)|]. split; [done|]. split; [by rewrite !length_insert|].
          eapply drop_after, drop_insert_at; done.
        - eexists _, w. split; [done|]. rewrite app_nil_r. split; [done|]. split; [by rewrite length_insert|].
          by eapply drop_after. }
      rewrite (bind_run _ _ _ _ _ Hstep). rewrite length_app in Hf. simpl in Hf.
      destruct (IH buf1 (p + length l + 1)%nat r w1 _ Hw1 Hd1 Hnr ltac:(lia)) as (buf'&whole&rest&w'&->&Hrest&Hwh&Hrun&Hw'&Hd'&Hlen'&Hmore).
      exists buf', (l ++ NEWLINE :: whole), rest, w'. simpl. rewrite length_app. simpl.
      replace (p + (length l + S (length whole)))%nat with (p + length l + 1 + length whole)%nat by lia.
      split_and!; [by rewrite <- app_assoc|done|by intros [_ ?]%app_eq_nil|done| |done|congruence|].
      * rewrite selected_cons by done. by rewrite app_assoc.
      * intros more. rewrite <- !app_assoc. simpl. rewrite !lines_cons by done. simpl. f_equal. rewrite <- Hmore. by rewrite <- !app_assoc.
    + exists buf, [], text, w. rewrite Nat.add_0_r. split_and!; try done.
      * by rewrite selected_plain, app_nil_r.
      * intros more. by rewrite (lines_plain text).
Qed.

Lemma grep_loop_spec re fuel buf pend data w out :
  at_ w data out →
  length buf = BUFSIZE → take (length pend) buf = pend → plain pend → (length pend ≤ 1022)%nat →
  no_null (pend ++ data) → lines_fit (pend ++ data) → (length data < fuel)%nat →
  ∃ buf' w', grep_loop read write fuel re buf (length pend) w = Ok buf' w' ∧ length buf' = BUFSIZE ∧
    at_ w' [] (out ++ selected re (pend ++ data)).
Proof.
  revert buf pend data w out.
  induction fuel as [|fuel IH]; intros buf pend data w out Hw Hlen Hbuf Hpend Hm Hn Hfit Hf; [lia|].
  cbn [grep_loop]. unfold BUFSIZE in *.
  destruct (read_whole w data out (1024 - length pend - 1)%nat Hw ltac:(unfold BUFSIZE; lia)) as (w1&Hr&Hw1).
  rewrite (bind_run _ _ _ _ _ Hr). set (bs := take _ data) in *. set (data' := drop _ data) in *.
  assert (data = bs ++ data') as Hdata by (symmetry; apply take_drop).
  assert (length bs ≤ 1024 - length pend - 1)%nat as Hbl by (unfold bs; rewrite length_take; lia).
  destruct (decide (bs = [])) as [Hbs|Hne].
  { rewrite Hbs. simpl. exists buf, w1. assert (data = []) as ->.
    { apply (f_equal length) in Hbs. subst bs. rewrite length_take in Hbs. apply nil_length_inv. simpl in Hbs. lia. }
    rewrite app_nil_r, selected_plain, app_nil_r by done. subst data'. by rewrite drop_nil in Hw1. }
  assert (0 < length bs)%nat as Hb0 by (destruct bs; [done|simpl; lia]).
  rewrite (proj2 (Z.leb_gt _ _)) by lia. rewrite Nat2Z.id. cbv zeta.
  set (buf1 := <[_ := 0]> _).
  assert (length (store_at (length pend) bs buf) = 1024)%nat as Hl1 by (rewrite length_store_at; lia).
  assert (∃ junk, drop 0 buf1 = (pend ++ bs) ++ 0 :: junk) as [junk Hd].
  { exists (drop (S (length pend + length bs)) buf1). rewrite drop_0. subst buf1.
    rewrite <- (take_drop (length pend + length bs) (<[_ := 0]> _)) at 1. rewrite take_insert_ge by lia. f_equal.
    - unfold store_at. rewrite Hbuf. rewrite app_assoc, <- length_app. apply take_app_length.
    - apply drop_S. apply list_lookup_insert_eq. lia. }
  assert (no_null (pend ++ bs)) as Hn1.
  { clear -Hn Hdata. rewrite Hdata in Hn. unfold no_null in *. rewrite !elem_of_app in *. tauto. }
  destruct (grep_lines_spec re 1024 buf1 0 (pend ++ bs) junk w1 data' out Hw1 Hd Hn1)
    as (buf2&whole&rest&w2&Hsplit&Hrest&Hwh&Hrun&Hw2&Hd2&Hlen2&Hmore).
  { rewrite length_app. lia. }
  rewrite (bind_run _ _ _ _ _ Hrun). rewrite Nat.add_0_l in *. specialize (Hmore data'). rewrite <- app_assoc, <- Hdata in Hmore.
  assert (length data' < fuel)%nat as Hf' by (apply (f_equal length) in Hdata; rewrite length_app in Hdata; lia).
  assert (no_null (rest ++ data')) as Hn'.
  { clear -Hn Hdata Hsplit. rewrite Hdata, app_assoc, Hsplit in Hn. unfold no_null in *. rewrite !elem_of_app in *. tauto. }
  assert (length buf2 = 1024)%nat as Hl2 by (rewrite Hlen2; subst buf1; by rewrite length_insert).
  assert (selected re (pend ++ data) = selected re (pend ++ bs) ++ selected re (rest ++ data')) as ->.
  { rewrite <- (selected_app re (pend ++ bs) data'); rewrite <- app_assoc, <- Hdata; done. }
  assert (lines_fit (rest ++ data')) as Hfit' by (unfold lines_fit in *; rewrite Hmore in Hfit; by apply Forall_app in Hfit as [_ ?]).
  rewrite app_assoc. destruct (decide (length whole = 0%nat)) as [Hz|Hnz].
  - apply nil_length_inv in Hz as ->. simpl in Hsplit. subst rest. rewrite decide_False by lia.
    assert (plain ((pend ++ bs) ++ data')) as Hall.
    { destruct (decide (data' = [])) as [->|Hne']; [by rewrite app_nil_r|].
      apply lines_fit_plain; [done|done|]. rewrite length_app. subst bs data'. rewrite length_take.
      assert (0 < length (drop (1024 - length pend - 1) data))%nat as Hpos by (destruct (drop _ data); simpl; [done|lia]).
      rewrite length_drop in Hpos. lia. }
    assert (plain data') as Hpd by (unfold plain in *; rewrite elem_of_app in Hall; tauto).
    replace (selected re ((pend ++ bs) ++ data')) with (selected re data') by by rewrite !selected_plain.
    apply (IH buf2 [] data' w2); simpl; try done; [apply not_elem_of_nil|lia| |].
    + unfold no_null in *. rewrite elem_of_app in Hn'. tauto.
    + unfold lines_fit. rewrite lines_plain by done. constructor.
  - pose proof (f_equal length Hsplit) as Hle. rewrite !length_app in Hle. rewrite decide_True by lia.
    replace (length pend + length bs - length whole)%nat with (length rest) by lia. rewrite Hd2, take_app_length.
    apply (IH _ rest data' w2); try done; try lia.
    + rewrite length_store_at; lia.
    + unfold store_at. simpl. by rewrite take_app_length.
Qed.

(** On a file without null characters whose lines have at most 1022 characters, grep writes exactly the lines that
    match the pattern, each once and in order, whatever the file's length: lines that cross the end
    of the buffer are put together again. *)
Lemma grep_run re fuel buf data w out :
  at_ w data out → length buf = BUFSIZE → no_null data → lines_fit data → (length data < fuel)%nat →
  ∃ buf' w', grep read write fuel re buf w = Ok buf' w' ∧ length buf' = BUFSIZE ∧ at_ w' [] (out ++ selected re data).
Proof.
  intros Hw Hlen Hn Hfit Hf. apply (grep_loop_spec re fuel buf [] data w out); try done; simpl; [apply not_elem_of_nil|lia].
Qed.
End Spec.

(** ** Short reads *)

(** A pipe from which each read takes what one write has put there, and what has been written to the output. *)
Definition pipe_read (n : nat) : M (list (list Z) * list Z) (Z * list Z) :=
  s ← gets id;
  match s.1 with
  | [] => mret (0, [])
  | bs :: rest =>
      modify (λ _, (if decide (length bs ≤ n)%nat then rest else drop n bs :: rest, s.2));;
      mret (Z.of_nat (length (take n bs)), take n bs)
  end.
Definition out_write (bs : list Z) : M (list (list Z) * list Z) unit := modify (λ s, (s.1, s.2 ++ bs)).

(** When read returns less than it was asked for, as it does on a pipe, grep loses the start of a line: a read without a
    newline empties the buffer, so that of the input "ab" followed by "c\n" only "c"
    is looked at and the pattern "abc" is not found. *)
Theorem grep_loses_split_line :
  (∃ buf, grep pipe_read out_write 3 [97; 98; 99] (replicate BUFSIZE 0) ([[97; 98]; [99; 10]], []) = Ok buf ([], [])) ∧
  selected [97; 98; 99] (concat [[97; 98]; [99; 10]]) = [97; 98; 99; 10].
Proof. split; [eexists|]; vm_compute; reflexivity. Qed.
