(* ===== verification/Ulib.v ===== *)
(** The user library (src/ulib.c, src/printf.c): strings, numbers and formatted output.

    A C string is the array behind its pointer; reading past the end of the array gives
    [None].  The output functions are written over the function that puts one character, so that
    the console's copy of them (src/console.c, cprintf) is the same code. *)

From S2P Require Import Prelude Bytes Kstring.

(** * ulib.c *)

(** strcpy stores the characters of [t] up to its null into the array [s]. *)
Fixpoint strcpy (s t : list Z) : option (list Z) :=
  match s, t with
  | _ :: s, c :: t => cons c <$> (if c =? 0 then Some s else strcpy s t)
  | _, _ => None
  end.

Fixpoint strcmp (p q : list Z) : option Z :=
  match p, q with
  | x :: p, y :: q => if negb (x =? 0) && (x =? y) then strcmp p q else Some (u8 x - u8 y)
  | _, _ => None
  end.

(** The count is an int, and is returned as a uint. *)
Fixpoint strlen_loop (n : Z) (s : list Z) : option Z :=
  match s with
  | [] => None
  | c :: s => if c =? 0 then Some (u32 n) else if 2 ^ 31 - 1 <=? n then None else strlen_loop (n + 1) s
  end.
Definition ustrlen (s : list Z) : option Z := strlen_loop 0 s.

(** The offset of the first [c] before the null; a null pointer is [Some None]. *)
Fixpoint strchr (s : list Z) (c : Z) : option (option nat) :=
  match s with
  | [] => None
  | x :: s => if x =? 0 then Some None else if x =? c then Some (Some 0%nat) else option_map (option_map S) (strchr s c)
  end.

Definition umemset (dst c n : Z) : M mem Z := stosb dst c (Z.to_nat n);; mret dst.

(** No check for overlap. *)
Definition umemmove (dst src n : Z) : M mem Z := move_up dst src (Z.to_nat n);; mret dst.

(** buf[i] = c, on an array *)
Definition put_at (i : nat) (c : Z) (buf : list Z) : option (list Z) :=
  if decide (i < length buf)%nat then Some (<[i := c]> buf) else None.

(** gets, over the characters [input] that read(0, &c, 1) returns one by one, until the end of the
    input or an error.  Returns the buffer and the rest of the input. *)
Fixpoint ugets_loop (buf : list Z) (i : nat) (max : Z) (input : list Z) : option (list Z * nat * list Z) :=
  if Z.of_nat i + 1 <? max then
    match input with
    | [] => Some (buf, i, [])
    | c :: input =>
        buf ← put_at i c buf;
        if (c =? 10) || (c =? 13) then Some (buf, S i, input) else ugets_loop buf (S i) max input
    end
  else Some (buf, i, input).
Definition ugets (buf : list Z) (max : Z) (input : list Z) : option (list Z * list Z) :=
  '(buf, i, input) ← ugets_loop buf 0 max input;
  buf ← put_at i 0 buf;
  Some (buf, input).

(** n*10 + *s++ - '0' on ints *)
Definition int_range (n : Z) : bool := (- 2 ^ 31 <=? n) && (n <? 2 ^ 31).
Definition push_digit (n c : Z) : option Z :=
  if int_range (n * 10) && int_range (n * 10 + c) then Some (n * 10 + c - 48) else None.
Fixpoint atoi_loop (n : Z) (s : list Z) : option Z :=
  match s with
  | [] => None
  | c :: s =>
      if (48 <=? c) && (c <=? 57) then n ← push_digit n c; atoi_loop n s
      else Some n
  end.
Definition atoi (s : list Z) : option Z := atoi_loop 0 s.

(** * printf.c *)

Definition digits : list Z := [48; 49; 50; 51; 52; 53; 54; 55; 56; 57; 97; 98; 99; 100; 101; 102].

(** The arguments of a call, as va_arg takes them; a null string is [None]. *)
Inductive arg := AInt (v : Z) | AStr (s : option (list Z)).

Section Print.
Context {St : Type} (putc : Z → M St unit).

(** for (i = 0; i < n; i++, x <<= 4) putc(digits[x >> (w - 4)]); on a [w]-bit x *)
Fixpoint print_hex (n : nat) (w x : Z) : M St unit :=
  match n with
  | O => mret tt
  | S n =>
      c ← the "digits" (digits !! Z.to_nat (Z.shiftr x (w - 4)));
      putc c;;
      print_hex n w (wrap w (Z.shiftl x 4))
  end.
Definition print_x64 (x : Z) : M St unit := print_hex 16 64 x.
Definition print_x32 (x : Z) : M St unit := print_hex 8 32 x.

(** buf[i] = c, for a buffer of 16 characters *)
Definition store_buf (i : nat) (c : Z) (buf : list Z) : M St (list Z) :=
  if decide (i < length buf)%nat then mret (<[i := c]> buf) else undefined "buf".

(** The do-while of print_d. *)
Fixpoint fill_digits (fuel : nat) (x : Z) (i : nat) (buf : list Z) : M St (nat * list Z) :=
  match fuel with
  | O => out_of_fuel
  | S fuel =>
      c ← the "digits" (digits !! Z.to_nat (Z.rem x 10));
      buf ← store_buf i c buf;
      let x := Z.quot x 10 in
      if negb (x =? 0) then fill_digits fuel x (S i) buf else mret (S i, buf)
  end.

(** while (--i >= 0) putc(buf[i]); *)
Fixpoint put_reverse (i : nat) (buf : list Z) : M St unit :=
  match i with
  | O => mret tt
  | S i => c ← the "buf" (buf !! i); putc c;; put_reverse i buf
  end.

(** [junk]: buf before it is filled *)
Definition print_d (junk : list Z) (v : Z) : M St unit :=
  let x := if v <? 0 then - v else v in
  ib ← fill_digits 64 x 0 junk;
  ib ← (if v <? 0 then buf ← store_buf ib.1 45 ib.2; mret (S ib.1, buf) else mret ib);
  put_reverse ib.1 ib.2.

(** A string without its null. *)
Fixpoint puts (s : list Z) : M St unit :=
  match s with [] => mret tt | c :: s => putc c;; puts s end.

Definition null_string : list Z := [40; 110; 117; 108; 108; 41].

(** The loop over the format; printf.c has %c, console.c has not. *)
Fixpoint format_loop (has_c : bool) (junk fmt : list Z) (ap : list arg) : M St unit :=
  match fmt with
  | [] => mret tt
  | c :: fmt =>
      if negb (c =? 37) then putc c;; format_loop has_c junk fmt ap else
      match fmt with
      | [] => mret tt
      | c :: fmt =>
          if has_c && (c =? 99) then
            match ap with AInt v :: ap => putc (u8 v);; format_loop has_c junk fmt ap | _ => undefined "va_arg" end
          else if c =? 100 then
            match ap with AInt v :: ap => print_d junk (s32 v);; format_loop has_c junk fmt ap | _ => undefined "va_arg" end
          else if c =? 120 then
            match ap with AInt v :: ap => print_x32 (u32 v);; format_loop has_c junk fmt ap | _ => undefined "va_arg" end
          else if c =? 112 then
            match ap with AInt v :: ap => print_x64 (u64 v);; format_loop has_c junk fmt ap | _ => undefined "va_arg" end
          else if c =? 115 then
            match ap with
            | AStr s :: ap => puts (default null_string s);; format_loop has_c junk fmt ap
            | _ => undefined "va_arg"
            end
          else if c =? 37 then putc 37;; format_loop has_c junk fmt ap
          else putc 37;; putc c;; format_loop has_c junk fmt ap
      end
  end.
End Print.

(** printf(fd, fmt, ...) for a write(fd, _, _) of one character. *)
Definition printf {St} (putc : Z → Z → M St unit) (fd : Z) (junk fmt : list Z) (ap : list arg) : M St unit :=
  format_loop (putc fd) true junk fmt ap.

(** * Numbers *)

(** The number that a sequence of digits denotes. *)
Definition digit (c : Z) : Prop := 48 ≤ c ≤ 57.
Definition value (ds : list Z) : Z := foldl (λ n c, n * 10 + (c - 48)) 0 ds.
Definition hex_digit (c : Z) : Z := if c <? 97 then c - 48 else c - 87.
Definition hex_value (ds : list Z) : Z := foldl (λ n c, n * 16 + hex_digit c) 0 ds.

(** The digits of [x], the last first. *)
Fixpoint rev_digits (n : nat) (x : Z) : list Z :=
  match n with
  | O => []
  | S n => (48 + x mod 10) :: (if x / 10 =? 0 then [] else rev_digits n (x / 10))
  end.

Lemma digits_lookup k : 0 ≤ k < 10 → digits !! Z.to_nat k = Some (48 + k).
Proof.
  intros Hk. assert (k = 0 ∨ k = 1 ∨ k = 2 ∨ k = 3 ∨ k = 4 ∨ k = 5 ∨ k = 6 ∨ k = 7 ∨ k = 8 ∨ k = 9) as Hc by lia.
  repeat destruct Hc as [->|Hc]; [done..|]. by rewrite Hc.
Qed.

Lemma value_app ds c : value (ds ++ [c]) = value ds * 10 + (c - 48).
Proof. unfold value. by rewrite foldl_app. Qed.

Lemma rev_digits_spec n x :
  0 ≤ x < 10 ^ Z.of_nat n → (0 < n)%nat → value (reverse (rev_digits n x)) = x ∧ Forall digit (rev_digits n x) ∧
  (length (rev_digits n x) ≤ n)%nat.
Proof.
  revert x. induction n as [|n IH]; intros x Hx Hn; [lia|]. simpl.
  pose proof (Z.mod_pos_bound x 10 ltac:(lia)) as Hm. pose proof (Z.div_mod x 10 ltac:(lia)) as Hdm.
  rewrite reverse_cons, value_app. destruct (Z.eqb_spec (x / 10) 0) as [E|E].
  - split_and!; [unfold value; simpl; lia|by repeat constructor; simpl; unfold digit; lia|simpl; lia].
  - rewrite Nat2Z.inj_succ, Z.pow_succ_r in Hx by lia.
    assert (0 ≤ x / 10 < 10 ^ Z.of_nat n) as Hx' by (split; [apply Z.div_pos; lia|apply Z.div_lt_upper_bound; lia]).
    destruct n as [|n]; [simpl in Hx'; lia|].
    destruct (IH (x / 10) Hx' ltac:(lia)) as (->&Hd&Hl). split_and!; [lia|constructor; [unfold digit; lia|done]|simpl in *; lia].
Qed.

(** the last [n] hexadecimal digits of [x] *)
Fixpoint hexadecimal (n : nat) (x : Z) : list Z :=
  match n with
  | O => []
  | S n => (let d := x / 16 ^ Z.of_nat n mod 16 in if d <? 10 then 48 + d else 87 + d) :: hexadecimal n x
  end.

Lemma digits_hex k : 0 ≤ k < 16 → digits !! Z.to_nat k = Some (if k <? 10 then 48 + k else 87 + k).
Proof.
  intros Hk. assert (∃ i, (i < 16)%nat ∧ k = Z.of_nat i) as (i & Hi & ->) by (exists (Z.to_nat k); lia).
  rewrite Nat2Z.id. do 16 (destruct i as [|i]; [done|]). lia.
Qed.

Lemma hexadecimal_mod n m x : (n ≤ m)%nat → hexadecimal n (x mod 16 ^ Z.of_nat m) = hexadecimal n x.
Proof.
  intros Hn. induction n as [|n IH]; [done|]. cbn [hexadecimal]. rewrite IH by lia. do 2 f_equal.
  replace (Z.of_nat m) with (Z.of_nat n + (1 + Z.of_nat (m - S n))) by lia.
  rewrite !Z.pow_add_r, (Z.rem_mul_r x), Z.mul_comm, Z.div_add by lia.
  rewrite Z.div_small, Z.add_0_l by (apply Z.mod_pos_bound; lia).
  rewrite Z.rem_mul_r, Z.pow_1_r by lia. rewrite Z.mul_comm, Z.mod_add by lia. by rewrite Z.mod_mod by lia.
Qed.

(** The value of the digits printed is the number. *)
Lemma hexadecimal_value n x : hex_value (hexadecimal n x) = x mod 16 ^ Z.of_nat n.
Proof.
  unfold hex_value. cut (∀ a, foldl (λ n c, n * 16 + hex_digit c) a (hexadecimal n x) =
    a * 16 ^ Z.of_nat n + x mod 16 ^ Z.of_nat n); [by intros ->|].
  induction n as [|n IH]; intros a; cbn [hexadecimal foldl]; [rewrite Z.mod_1_r; simpl; lia|].
  rewrite IH. set (d := x / 16 ^ Z.of_nat n mod 16). pose proof (Z.mod_pos_bound (x / 16 ^ Z.of_nat n) 16 ltac:(lia)) as Hd.
  fold d in Hd. assert (hex_digit (if d <? 10 then 48 + d else 87 + d) = d) as ->.
  { unfold hex_digit. destruct (Z.ltb_spec d 10); [rewrite (proj2 (Z.ltb_lt _ _)) by lia|rewrite (proj2 (Z.ltb_ge _ _)) by lia]; lia. }
  rewrite Nat2Z.inj_succ, Z.pow_succ_r, (Z.mul_comm 16), Z.rem_mul_r by lia. fold d. lia.
Qed.

Section Output.
Context {St : Type} (putc : Z → M St unit).

Lemma bind_ext {A B} (m : M St A) (k k' : A → M St B) s :
  (∀ a s, k a s = k' a s) → (m ≫= k) s = (m ≫= k') s.
Proof. intros E. unfold mbind, M_bind. by destruct (m s). Qed.

Lemma store_buf_run i c buf (s : St) : (i < length buf)%nat → store_buf i c buf s = Ok (<[i := c]> buf) s.
Proof. intros Hi. unfold store_buf. by rewrite decide_True. Qed.

Lemma fill_digits_run n fuel x i buf (s : St) :
  0 ≤ x < 10 ^ Z.of_nat n → (0 < n ≤ fuel)%nat → (i + n ≤ length buf)%nat →
  ∃ buf', fill_digits fuel x i buf s = Ok ((i + length (rev_digits n x))%nat, buf') s ∧
    take (i + length (rev_digits n x)) buf' = take i buf ++ rev_digits n x ∧ length buf' = length buf.
Proof.
  revert fuel x i buf. induction n as [|n IH]; intros fuel x i buf Hx Hf Hb; [lia|]. destruct fuel as [|fuel]; [lia|].
  pose proof (Z.mod_pos_bound x 10 ltac:(lia)) as Hm. cbn [fill_digits rev_digits].
  rewrite Z.rem_mod_nonneg, Z.quot_div_nonneg by lia. rewrite digits_lookup by lia.
  erewrite bind_run; [|reflexivity]. rewrite (bind_run _ _ _ _ _ (store_buf_run i _ buf s ltac:(lia))). cbv zeta.
  assert (take (S i) (<[i := 48 + x mod 10]> buf) = take i buf ++ [48 + x mod 10]) as Ht.
  { erewrite take_S_r by (apply list_lookup_insert_eq; lia). by rewrite take_insert_ge by lia. }
  destruct (Z.eqb_spec (x / 10) 0) as [E|E]; cbn [negb length].
  - eexists. split; [f_equal; f_equal; lia|]. split; [|by rewrite length_insert]. by replace (i + 1)%nat with (S i) by lia.
  - rewrite Nat2Z.inj_succ, Z.pow_succ_r in Hx by lia.
    assert (0 ≤ x / 10 < 10 ^ Z.of_nat n) as Hx' by (split; [apply Z.div_pos; lia|apply Z.div_lt_upper_bound; lia]).
    destruct n as [|n]; [simpl in Hx'; lia|].
    destruct (IH fuel (x / 10) (S i) (<[i := 48 + x mod 10]> buf) Hx' ltac:(lia)) as (buf'&->&Ht'&Hl').
    { rewrite length_insert. lia. }
    exists buf'. rewrite length_insert in Hl'. rewrite Nat.add_succ_r. split; [done|]. split; [|done].
    rewrite <- Nat.add_succ_l, Ht', Ht, <- app_assoc. done.
Qed.

Lemma put_reverse_run i buf (s : St) : (i ≤ length buf)%nat → put_reverse putc i buf s = puts putc (reverse (take i buf)) s.
Proof.
  revert s. induction i as [|i IH]; intros s Hi; [done|]. cbn [put_reverse].
  destruct (lookup_lt_is_Some_2 buf i ltac:(lia)) as [c Hc]. rewrite Hc. erewrite take_S_r by done.
  rewrite reverse_app. simpl. unfold mbind, M_bind. simpl. destruct (putc c s) as [[] s'| |]; [|done..]. apply IH. lia.
Qed.

Definition decimal (v : Z) : list Z :=
  if v <? 0 then 45 :: reverse (rev_digits 10 (- v)) else reverse (rev_digits 10 v).

(** print_d stays within its buffer and prints the digits. *)
Lemma print_d_run junk v (s : St) :
  length junk = 16%nat → - 2 ^ 31 ≤ v < 2 ^ 31 → print_d putc junk v s = puts putc (decimal v) s.
Proof.
  intros Hj Hv. unfold print_d. set (x := if v <? 0 then - v else v).
  assert (0 ≤ x < 10 ^ Z.of_nat 10) as Hx by (subst x; destruct (Z.ltb_spec v 0); lia).
  destruct (fill_digits_run 10 64 x 0 junk s Hx ltac:(lia) ltac:(lia)) as (buf&Hrun&Ht&Hl).
  destruct (rev_digits_spec 10 x Hx ltac:(lia)) as (_&_&Hlen).
  rewrite (bind_run _ _ _ _ _ Hrun). rewrite take_0, Nat.add_0_l in Ht. rewrite Nat.add_0_l. unfold decimal. subst x. cbn [fst snd]. destruct (Z.ltb_spec v 0) as [Hneg|Hpos].
  - erewrite bind_run; [|erewrite bind_run; [reflexivity|apply store_buf_run; lia]]. cbn [fst snd].
    rewrite put_reverse_run by (rewrite length_insert; lia). erewrite take_S_r by (apply list_lookup_insert_eq; lia).
    rewrite take_insert_ge by lia. rewrite Ht, app_nil_l, reverse_app. done.
  - erewrite bind_run; [|reflexivity]. cbn [fst snd]. rewrite put_reverse_run by lia. by rewrite Ht, app_nil_l.
Qed.
Lemma print_hex_run n k x (s : St) :
  0 ≤ x < 16 ^ Z.of_nat (k + n) →
  print_hex putc n (4 * Z.of_nat (k + n)) x s = puts putc (hexadecimal n (x / 16 ^ Z.of_nat k)) s.
Proof.
  revert k x s. induction n as [|n IH]; intros k x s Hx; [done|]. cbn [print_hex hexadecimal puts].
  assert (16 ^ Z.of_nat (k + S n) = 16 ^ Z.of_nat (k + n) * 16) as E16.
  { replace (Z.of_nat (k + S n)) with (Z.of_nat (k + n) + 1) by lia. rewrite Z.pow_add_r by lia. lia. }
  assert (2 ^ (4 * Z.of_nat (k + S n)) = 16 ^ Z.of_nat (k + S n)) as E2 by (rewrite Z.pow_mul_r by lia; done).
  assert (Z.shiftr x (4 * Z.of_nat (k + S n) - 4) = x / 16 ^ Z.of_nat k / 16 ^ Z.of_nat n mod 16) as ->.
  { rewrite Z.shiftr_div_pow2 by lia. replace (4 * Z.of_nat (k + S n) - 4) with (4 * Z.of_nat (k + n)) by lia.
    rewrite Z.pow_mul_r, Z.div_div, <- Z.pow_add_r, <- Nat2Z.inj_add by lia. change (2 ^ 4) with 16.
    rewrite Z.mod_small; [done|]. split; [apply Z.div_pos; lia|apply Z.div_lt_upper_bound; lia]. }
  rewrite digits_hex by (apply Z.mod_pos_bound; lia). erewrite bind_run; [|reflexivity]. cbv zeta.
  apply bind_ext. intros [] s'. unfold wrap. rewrite E2, Z.shiftl_mul_pow2 by lia. change (2 ^ 4) with 16.
  rewrite E16, Z.mul_mod_distr_r by lia.
  replace (k + S n)%nat with (S k + n)%nat by lia. rewrite IH.
  2:{ replace (Z.of_nat (S k + n)) with (Z.of_nat (k + n) + 1) by lia. rewrite Z.pow_add_r by lia.
      pose proof (Z.mod_pos_bound x (16 ^ Z.of_nat (k + n)) ltac:(lia)). lia. }
  f_equal. rewrite Nat2Z.inj_succ, Z.pow_succ_r by lia. rewrite (Z.mul_comm 16), Z.div_mul_cancel_r by lia.
  rewrite Nat2Z.inj_add, Z.pow_add_r, Z.rem_mul_r by lia.
  rewrite Z.mul_comm, Z.div_add, Z.div_small, Z.add_0_l by (lia || apply Z.mod_pos_bound; lia).
  by apply hexadecimal_mod.
Qed.

Lemma print_hex_all n x (s : St) :
  0 ≤ x < 2 ^ (4 * Z.of_nat n) → print_hex putc n (4 * Z.of_nat n) x s = puts putc (hexadecimal n x) s.
Proof.
  intros Hx. rewrite Z.pow_mul_r in Hx by lia. change (2 ^ 4) with 16 in Hx.
  rewrite (print_hex_run n 0) by done. by rewrite Z.pow_0_r, Z.div_1_r.
Qed.
End Output.

#[local] Opaque hexadecimal.

(** * What printf writes *)

(** The output for a format with arguments of the right types, or [None]. *)
Fixpoint formatted (has_c : bool) (fmt : list Z) (ap : list arg) : option (list Z) :=
  match fmt with
  | [] => Some []
  | c :: fmt =>
      if negb (c =? 37) then cons c <$> formatted has_c fmt ap else
      match fmt with
      | [] => Some []
      | c :: fmt =>
          if has_c && (c =? 99) then
            match ap with AInt v :: ap => cons (u8 v) <$> formatted has_c fmt ap | _ => None end
          else if c =? 100 then
            match ap with AInt v :: ap => app (decimal (s32 v)) <$> formatted has_c fmt ap | _ => None end
          else if c =? 120 then
            match ap with AInt v :: ap => app (hexadecimal 8 (u32 v)) <$> formatted has_c fmt ap | _ => None end
          else if c =? 112 then
            match ap with AInt v :: ap => app (hexadecimal 16 (u64 v)) <$> formatted has_c fmt ap | _ => None end
          else if c =? 115 then
            match ap with AStr s :: ap => app (default null_string s) <$> formatted has_c fmt ap | _ => None end
          else if c =? 37 then cons 37 <$> formatted has_c fmt ap
          else cons 37 <$> (cons c <$> formatted has_c fmt ap)
      end
  end.

Section format.
Context {St : Type} (out : Z → M St unit) (junk : list Z).
Hypothesis (Hjunk : length junk = 16%nat).

Lemma puts_app (a b : list Z) (s : St) : puts out (a ++ b) s = (puts out a;; puts out b) s.
Proof.
  revert s. induction a as [|c a IH]; intros s; simpl; [done|].
  unfold mbind, M_bind. destruct (out c s) as [[] s'| |]; [|done..]. rewrite IH. done.
Qed.

(** printf writes the formatted characters one by one. *)
Lemma format_loop_run has_c n fmt ap bs s :
  (length fmt ≤ n)%nat → formatted has_c fmt ap = Some bs →
  format_loop out has_c junk fmt ap s = puts out bs s.
Proof.
  revert fmt ap bs s. induction n as [|n IH]; intros fmt ap bs s Hn E.
  { destruct fmt; [|simpl in Hn; lia]. by injection E as <-. }
  destruct fmt as [|c fmt]; [by injection E as <-|]. simpl in Hn, E |- *.
  destruct (negb (c =? 37)).
  { apply fmap_Some in E as (bs' & E & ->). simpl. apply bind_ext. intros [] s'. apply IH; [lia|done]. }
  destruct fmt as [|d fmt]; [by injection E as <-|]. simpl in Hn.
  destruct (has_c && (d =? 99)).
  { destruct ap as [|[v|] ap]; try done. apply fmap_Some in E as (bs' & E & ->).
    simpl. apply bind_ext. intros [] s'. apply IH; [lia|done]. }
  destruct (d =? 100).
  { destruct ap as [|[v|] ap]; try done. apply fmap_Some in E as (bs' & E & ->).
    rewrite puts_app. unfold mbind, M_bind.
    rewrite print_d_run; [|done|apply (sext_range 32); lia].
    destruct (puts out (decimal (sext 32 v)) s) as [[] s'| |]; [|done..]. apply IH; [lia|done]. }
  destruct (d =? 120).
  { destruct ap as [|[v|] ap]; try done. apply fmap_Some in E as (bs' & E & ->). rewrite puts_app.
    unfold mbind, M_bind, print_x32. rewrite (print_hex_all out 8) by (apply wrap_range; lia).
    destruct (puts out (hexadecimal 8 (u32 v)) s) as [[] s'| |]; [|done..]. apply IH; [lia|done]. }
  destruct (d =? 112).
  { destruct ap as [|[v|] ap]; try done. apply fmap_Some in E as (bs' & E & ->). rewrite puts_app.
    unfold mbind, M_bind, print_x64. rewrite (print_hex_all out 16) by (apply wrap_range; lia).
    destruct (puts out (hexadecimal 16 (u64 v)) s) as [[] s'| |]; [|done..]. apply IH; [lia|done]. }
  destruct (d =? 115).
  { destruct ap as [|[|s0] ap]; try done. apply fmap_Some in E as (bs' & E & ->).
    rewrite puts_app. apply bind_ext. intros [] s'. apply IH; [lia|done]. }
  destruct (d =? 37).
  { apply fmap_Some in E as (bs' & E & ->). simpl. apply bind_ext. intros [] s'. apply IH; [lia|done]. }
  apply fmap_Some in E as (bs0 & E & ->). apply fmap_Some in E as (bs' & E & ->).
  simpl. apply bind_ext. intros [] s1. apply bind_ext. intros [] s2. apply IH; [lia|done].
Qed.
End format.

Lemma atoi_loop_digits ds rest n :
  Forall digit ds → (∀ c, head rest = Some c → ¬ digit c) → rest ≠ [] → 0 ≤ n →
  foldl (λ n c, n * 10 + (c - 48)) n ds + 48 < 2 ^ 31 →
  atoi_loop n (ds ++ rest) = Some (foldl (λ n c, n * 10 + (c - 48)) n ds).
Proof.
  intros Hds Hrest Hne. revert n. induction Hds as [|c ds Hc Hds IH]; intros n Hn Hb; simpl.
  - destruct rest as [|c rest]; [done|]. specialize (Hrest c eq_refl). unfold digit in Hrest. simpl.
    destruct (Z.leb_spec 48 c), (Z.leb_spec c 57); simpl; (lia || done).
  - unfold digit in Hc. rewrite !(proj2 (Z.leb_le _ _)) by lia. simpl.
    assert (∀ m l, Forall digit l → 0 ≤ m → m ≤ foldl (λ n c, n * 10 + (c - 48)) m l) as Hmono.
    { clear. intros m l Hl. revert m. induction Hl as [|c l Hc Hl IH]; intros m Hm; simpl; [lia|]. unfold digit in Hc.
      specialize (IH (m * 10 + (c - 48)) ltac:(lia)). lia. }
    simpl in Hb. specialize (Hmono (n * 10 + (c - 48)) ds Hds ltac:(lia)).
    unfold push_digit, int_range. rewrite !(proj2 (Z.leb_le _ _)), !(proj2 (Z.ltb_lt _ _)) by lia. simpl.
    replace (n * 10 + c - 48) with (n * 10 + (c - 48)) by lia. apply IH; [lia|done].
Qed.

(** printf writes numbers that atoi reads back.  On every int, printf("%d") stays inside its 16 byte buffer and writes
    a minus sign if the int is negative and the decimal digits of its absolute value, also for the
    smallest int; atoi of what it writes for a number from 0 to 2^31 - 49 is the number. *)
Theorem printf_atoi {St} (putc : Z → Z → M St unit) fd junk v s :
  length junk = 16%nat → - 2 ^ 31 ≤ v < 2 ^ 31 →
  ∃ ds, printf putc fd junk [37; 100] [AInt v] s = puts (putc fd) (if v <? 0 then 45 :: ds else ds) s ∧
    Forall digit ds ∧ value ds = Z.abs v ∧ (0 ≤ v < 2 ^ 31 - 48 → atoi (ds ++ [0]) = Some v).
Proof.
  intros Hj Hv. exists (reverse (rev_digits 10 (Z.abs v))).
  destruct (rev_digits_spec 10 (Z.abs v) ltac:(lia) ltac:(lia)) as (Hval&Hd&_).
  assert (Forall digit (reverse (rev_digits 10 (Z.abs v)))) as Hd' by (by apply Forall_reverse).
  split_and!; [|done|done|].
  - unfold printf. simpl. rewrite sext_small by lia. unfold mbind, M_bind. rewrite print_d_run by done. unfold decimal.
    destruct (Z.ltb_spec v 0); [rewrite Z.abs_neq by lia|rewrite Z.abs_eq by lia].
    all: by destruct (puts _ _ s) as [[]| |].
  - intros Hr. rewrite Z.abs_eq in * by lia. unfold atoi. rewrite atoi_loop_digits; [by f_equal|done| |done|done|].
    + intros c [= <-]. unfold digit. lia.
    + unfold value in Hval. rewrite Hval. lia.
Qed.

Definition append (fd c : Z) : M (list Z) unit := modify (λ out, out ++ [c]).

Lemma printf_atoi_witness :
  ∃ ds, printf append 1 (replicate 16 0) [37; 100] [AInt 2026] [] = puts (append 1) ds [] ∧ atoi (ds ++ [0]) = Some 2026.
Proof.
  destruct (printf_atoi append 1 (replicate 16 0) 2026 [] eq_refl ltac:(lia)) as (ds&Hp&_&_&Ha).
  exists ds. split; [exact Hp|]. apply Ha. lia.
Defined.
