(* ===== verification/Console.v ===== *)
(** The console (src/console.c): output to the screen and the serial line, cprintf, the
    editing of input lines, and the read and write functions of the device.

    The registers 14 and 15 of the CRT controller hold the cursor position; [cn_crt] is the text
    buffer of the screen, 25 rows of 80 cells. *)

From S2P Require Import Prelude Bytes Layout Ulib.

Definition BACKSPACE : Z := 0x100.
Definition INPUT_BUF : Z := 128.
(** C(x) *)
Definition Ctrl (x : Z) : Z := x - 64.

Record console := Console {
  cn_lock : bool;
  cn_locking : bool;
  cn_panicked : bool;
  cn_serial : list Z;
  cn_hi : Z;
  cn_lo : Z;
  cn_crt : list Z;
  in_lock : bool;
  in_buf : list Z;
  in_r : Z;
  in_w : Z;
  in_e : Z;
  in_wakes : nat;
}.

Definition set_cn_lock (b : bool) (s : console) : console :=
  Console b (cn_locking s) (cn_panicked s) (cn_serial s) (cn_hi s) (cn_lo s) (cn_crt s)
    (in_lock s) (in_buf s) (in_r s) (in_w s) (in_e s) (in_wakes s).
Definition set_cn_locking (b : bool) (s : console) : console :=
  Console (cn_lock s) b (cn_panicked s) (cn_serial s) (cn_hi s) (cn_lo s) (cn_crt s)
    (in_lock s) (in_buf s) (in_r s) (in_w s) (in_e s) (in_wakes s).
Definition set_cn_serial (l : list Z) (s : console) : console :=
  Console (cn_lock s) (cn_locking s) (cn_panicked s) l (cn_hi s) (cn_lo s) (cn_crt s)
    (in_lock s) (in_buf s) (in_r s) (in_w s) (in_e s) (in_wakes s).
Definition set_cn_screen (hi lo : Z) (crt : list Z) (s : console) : console :=
  Console (cn_lock s) (cn_locking s) (cn_panicked s) (cn_serial s) hi lo crt
    (in_lock s) (in_buf s) (in_r s) (in_w s) (in_e s) (in_wakes s).
Definition set_in_lock (b : bool) (s : console) : console :=
  Console (cn_lock s) (cn_locking s) (cn_panicked s) (cn_serial s) (cn_hi s) (cn_lo s) (cn_crt s)
    b (in_buf s) (in_r s) (in_w s) (in_e s) (in_wakes s).
Definition set_input (buf : list Z) (r w e : Z) (s : console) : console :=
  Console (cn_lock s) (cn_locking s) (cn_panicked s) (cn_serial s) (cn_hi s) (cn_lo s) (cn_crt s)
    (in_lock s) buf r w e (in_wakes s).
Definition add_wake (s : console) : console :=
  Console (cn_lock s) (cn_locking s) (cn_panicked s) (cn_serial s) (cn_hi s) (cn_lo s) (cn_crt s)
    (in_lock s) (in_buf s) (in_r s) (in_w s) (in_e s) (S (in_wakes s)).

Definition cons_lock : lens console bool := Lens cn_lock set_cn_lock.
Definition input_lock : lens console bool := Lens in_lock set_in_lock.

(** * Output *)

Definition uartputc (c : Z) : M console unit := modify (λ s, set_cn_serial (cn_serial s ++ [u8 c]) s).

(** crt[i] = x *)
Definition crt_store (i x : Z) (crt : list Z) : M console (list Z) :=
  if (0 <=? i) && (i <? Z.of_nat (length crt)) then mret (<[Z.to_nat i := x]> crt) else undefined "crt".

(** memset(crt+pos, 0, sizeof(crt[0])*n) *)
Definition crt_clear (pos n : Z) (crt : list Z) : M console (list Z) :=
  if (0 <=? pos) && (0 <=? n) && (pos + n <=? Z.of_nat (length crt))
  then mret (splice (Z.to_nat pos) (replicate (Z.to_nat n) 0) crt) else undefined "memset".

(** The scrolling: the rows move up and the cursor's row and those below are cleared. *)
Definition scroll (pos : Z) (crt : list Z) : M console (Z * list Z) :=
  if negb (24 <=? pos / 80) then mret (pos, crt) else
  let crt := splice 0 (sub 80 (23 * 80) crt) crt in
  let pos := pos - 80 in
  crt ← crt_clear pos (24 * 80 - pos) crt;
  mret (pos, crt).

Definition cgaputc (c : Z) : M console unit :=
  s ← gets id;
  let pos := Z.lor (Z.shiftl (cn_hi s) 8) (cn_lo s) in
  pc ← (if c =? 10 then mret (pos + (80 - pos mod 80), cn_crt s)
        else if c =? BACKSPACE then mret (if 0 <? pos then pos - 1 else pos, cn_crt s)
        else crt ← crt_store pos (Z.lor (Z.land c 0xff) 0x0700) (cn_crt s); mret (pos + 1, crt));
  pc ← scroll pc.1 pc.2;
  crt ← crt_store pc.1 (Z.lor 32 0x0700) pc.2;
  modify (set_cn_screen (u8 (Z.shiftr pc.1 8)) (u8 pc.1) crt).

(** After a panic every CPU stops in consputc. *)
Definition consputc (c : Z) : M console unit :=
  p ← gets cn_panicked;
  if (p : bool) then panic "halted" else
  (if c =? BACKSPACE then uartputc 8;; uartputc 32;; uartputc 8 else uartputc c);;
  cgaputc c.

(** A null format is [None]; [junk] is the buffer of print_d before it is filled. *)
Definition cprintf (junk : list Z) (fmt : option (list Z)) (ap : list arg) : M console unit :=
  locking ← gets cn_locking;
  when locking (acquire cons_lock);;
  match fmt with
  | None => panic "null fmt"
  | Some fmt => format_loop consputc false junk fmt ap
  end;;
  when locking (release cons_lock).

(** * Input *)

Section Input.
Context (procdump reboot : M console unit).

(** The while of control-U. *)
Fixpoint kill_line (fuel : nat) : M console unit :=
  s ← gets id;
  c ← the "input.buf" (in_buf s !! Z.to_nat (u32 (in_e s - 1) mod INPUT_BUF));
  if negb (in_e s =? in_w s) && negb (c =? 10) then
    match fuel with
    | O => out_of_fuel
    | S fuel =>
        modify (set_input (in_buf s) (in_r s) (in_w s) (u32 (in_e s - 1)));;
        consputc BACKSPACE;;
        kill_line fuel
    end
  else mret tt.

Definition erase_char : M console unit :=
  s ← gets id;
  when (negb (in_e s =? in_w s)) (
    modify (set_input (in_buf s) (in_r s) (in_w s) (u32 (in_e s - 1)));;
    consputc BACKSPACE).

Definition typed_char (c : Z) : M console unit :=
  s ← gets id;
  when (negb (c =? 0) && (u32 (in_e s - in_r s) <? INPUT_BUF)) (
    let c := if c =? 13 then 10 else c in
    let e := u32 (in_e s + 1) in
    modify (set_input (<[Z.to_nat (in_e s mod INPUT_BUF) := u8 c]> (in_buf s)) (in_r s) (in_w s) e);;
    consputc c;;
    when ((c =? 10) || (c =? Ctrl 68) || (e =? u32 (in_r s + INPUT_BUF))) (
      modify (λ s, set_input (in_buf s) (in_r s) (in_e s) (in_e s) s);;
      modify add_wake)).

(** One turn of the loop of consoleintr. *)
Definition key (c : Z) : M console unit :=
  if c =? Ctrl 90 then reboot
  else if c =? Ctrl 80 then procdump
  else if c =? Ctrl 85 then kill_line (Z.to_nat INPUT_BUF)
  else if (c =? Ctrl 72) || (c =? 127) then erase_char
  else typed_char c.

(** The characters that getc returns before -1. *)
Fixpoint keys (cs : list Z) : M console unit :=
  match cs with [] => mret tt | c :: cs => key c;; keys cs end.

Definition consoleintr (cs : list Z) : M console unit :=
  acquire input_lock;; keys cs;; release input_lock.
End Input.

(** consoleread once input.lock is held: the bytes for dst, [None] when the process was killed, or the
    process sleeps on [chan] with the count that is left and the bytes it has. *)
Fixpoint consoleread_loop (chan : Z) (killed : bool) (n target : nat) (got : list Z)
    : M console (susp (nat * list Z) (option (list Z))) :=
  match n with
  | O => mret (Returns (Some got))
  | S n' =>
      s ← gets id;
      if in_r s =? in_w s then
        if killed then mret (Returns None) else mret (Sleeps chan (n, got))
      else
        c ← the "input.buf" (in_buf s !! Z.to_nat (in_r s mod INPUT_BUF));
        let r := u32 (in_r s + 1) in
        if c =? Ctrl 68 then
          modify (set_input (in_buf s) (if decide (n < target)%nat then u32 (r - 1) else r) (in_w s) (in_e s));;
          mret (Returns (Some got))
        else
          modify (set_input (in_buf s) r (in_w s) (in_e s));;
          if c =? 10 then mret (Returns (Some (got ++ [c])))
          else consoleread_loop chan killed n' target (got ++ [c])
  end.

(** ** The device functions, on an inode of the file system *)

Section Device.
Context {St : Type} (cl : lens St console) (iunlock ilock : nat → M St unit) (killed : St → bool) (chan : Z).

(** The rest of a read that was woken up, as sleep gives it the lock back. *)
Definition consoleread_from (ip : nat) (target n : nat) (got : list Z) : M St (susp (nat * list Z) (Z * list Z)) :=
  zoom cl (acquire input_lock);;
  k ← gets killed;
  r ← zoom cl (consoleread_loop chan k n target got);
  zoom cl (release input_lock);;
  match r with
  | Sleeps ch rest => mret (Sleeps ch rest)
  | Returns None => ilock ip;; mret (Returns (-1, []))
  | Returns (Some got) => ilock ip;; mret (Returns (Z.of_nat (length got), got))
  end.

Definition consoleread (ip : nat) (n : Z) : M St (susp (nat * list Z) (Z * list Z)) :=
  iunlock ip;;
  consoleread_from ip (Z.to_nat n) (Z.to_nat n) [].

(** [buf]: the [n] bytes to write *)
Definition consolewrite (ip : nat) (buf : list Z) : M St Z :=
  iunlock ip;;
  zoom cl (acquire cons_lock);;
  zoom cl (puts (λ c, consputc (Z.land c 0xff)) buf);;
  zoom cl (release cons_lock);;
  ilock ip;;
  mret (Z.of_nat (length buf)).
End Device.

(** consoleinit: the locks are free and output takes the lock. *)
Definition consoleinit (s : console) : console :=
  set_cn_locking true (set_in_lock false (set_cn_lock false s)).

(** panic until the CPU halts. *)
Fixpoint print_pcs (junk : list Z) (pcs : list Z) : M console unit :=
  match pcs with
  | [] => mret tt
  | pc :: pcs => cprintf junk (Some [32; 37; 112; 10]) [AInt pc];; print_pcs junk pcs
  end.
Definition panic_message (junk : list Z) (cpuid : Z) (msg : list Z) (pcs : list Z) : M console unit :=
  modify (set_cn_locking false);;
  cprintf junk (Some [99; 112; 117; 37; 100; 58; 32; 112; 97; 110; 105; 99; 58; 32]) [AInt cpuid];;
  cprintf junk (Some msg) [];;
  cprintf junk (Some [10]) [];;
  print_pcs junk pcs;;
  modify (λ s, Console (cn_lock s) (cn_locking s) true (cn_serial s) (cn_hi s) (cn_lo s) (cn_crt s)
    (in_lock s) (in_buf s) (in_r s) (in_w s) (in_e s) (in_wakes s)).

(** * The screen *)

Definition cursor (s : console) : Z := Z.lor (Z.shiftl (cn_hi s) 8) (cn_lo s).

Record screen_ok (s : console) : Prop := {
  so_crt : length (cn_crt s) = 2000%nat;
  so_hi : 0 ≤ cn_hi s < 256;
  so_lo : 0 ≤ cn_lo s < 256;
  so_pos : cursor s < 2000;
}.

Lemma cursor_sum hi lo : 0 ≤ lo < 256 → Z.lor (Z.shiftl hi 8) lo = hi * 256 + lo.
Proof.
  intros Hlo. rewrite <- Z.add_nocarry_lor.
  - rewrite Z.shiftl_mul_pow2 by lia. lia.
  - apply Z.bits_inj'. intros n Hn. rewrite Z.land_spec, Z.bits_0.
    destruct (Z.lt_ge_cases n 8); [rewrite Z.shiftl_spec_low by lia; done|].
    rewrite <- (Z.mod_small lo (2 ^ 8)) by done. rewrite Z.mod_pow2_bits_high by lia. apply andb_false_r.
Qed.

(** A position goes through the two registers unchanged. *)
Lemma cursor_set pos crt s : 0 ≤ pos < 2 ^ 16 → cursor (set_cn_screen (u8 (Z.shiftr pos 8)) (u8 pos) crt s) = pos.
Proof.
  intros Hp. unfold cursor. simpl. rewrite cursor_sum by (apply (wrap_range 8); lia).
  rewrite Z.shiftr_div_pow2 by lia. rewrite wrap_small by (split; [apply Z.div_pos; lia|apply Z.div_lt_upper_bound; lia]).
  unfold wrap. change (2 ^ 8) with 256. pose proof (Z.div_mod pos 256). lia.
Qed.

Lemma wp_crt_store i x crt Q s :
  0 ≤ i < Z.of_nat (length crt) → wp (crt_store i x crt) Q s ↔ Q (<[Z.to_nat i := x]> crt) s.
Proof. intros Hi. unfold crt_store. rewrite (proj2 (Z.leb_le _ _)), (proj2 (Z.ltb_lt _ _)) by lia. done. Qed.

Lemma wp_scroll pos crt (Q : Z * list Z → console → Prop) s :
  0 ≤ pos ≤ 2000 → length crt = 2000%nat →
  (∀ pos' crt', 0 ≤ pos' ≤ 1920 → length crt' = 2000%nat → Q (pos', crt') s) → wp (scroll pos crt) Q s.
Proof.
  intros Hp Hl HQ. unfold scroll. destruct (Z.leb_spec 24 (pos / 80)) as [H24|H24]; simpl.
  - assert (1920 ≤ pos) by (pose proof (Z.mul_div_le pos 80 ltac:(lia)); lia).
    assert (length (splice 0 (sub 80 (23 * 80) crt) crt) = 2000%nat) as Hls.
    { rewrite length_splice; [done|]. unfold sub. rewrite length_take, length_drop. lia. }
    apply wp_bind. unfold crt_clear. rewrite Hls. rewrite !(proj2 (Z.leb_le _ _)) by lia. simpl.
    apply wp_ret, wp_ret, HQ; [lia|]. rewrite length_splice; [done|]. rewrite length_replicate, Hls. lia.
  - apply wp_ret, HQ; [|done]. assert (pos < 1920); [|lia]. apply Z.lt_nge. intros Hge.
    apply (Z.div_le_mono _ _ 80) in Hge; [|lia]. change (1920 / 80) with 24 in Hge. lia.
Qed.

(** A character leaves the cursor on the first 24 rows, or at the start of the last one. *)
Lemma cgaputc_run c s :
  screen_ok s → wp (cgaputc c) (λ _ s', screen_ok s' ∧ cursor s' ≤ 1920 ∧
    s' = set_cn_screen (cn_hi s') (cn_lo s') (cn_crt s') s) s.
Proof.
  intros [Hl Hhi Hlo Hpos]. unfold cgaputc. apply wp_bind, wp_gets. cbn [id]. cbv zeta. fold (cursor s).
  assert (0 ≤ cursor s) as Hp0 by (unfold cursor; rewrite cursor_sum by done; lia).
  apply wp_bind. set (next := if c =? 10 then _ else _).
  assert (wp next (λ pc s', s' = s ∧ 0 ≤ pc.1 ≤ 2000 ∧ length pc.2 = 2000%nat) s) as Hnext.
  { subst next. destruct (c =? 10); [|destruct (c =? BACKSPACE)].
    - apply wp_ret. simpl. pose proof (Z.mod_pos_bound (cursor s) 80 ltac:(lia)). pose proof (Z.div_mod (cursor s) 80 ltac:(lia)).
      assert (cursor s / 80 < 25) by (apply Z.div_lt_upper_bound; lia). split_and!; [done|lia|lia|done].
    - apply wp_ret. simpl. split_and!; [done|destruct (Z.ltb_spec 0 (cursor s)); lia..|done].
    - apply wp_bind, wp_crt_store; [lia|]. apply wp_ret. simpl. split_and!; [done|lia|lia|by rewrite length_insert]. }
  eapply wp_mono; [exact Hnext|]. intros [pos crt] s' (->&Hp&Hc). simpl in *. apply wp_bind, wp_scroll; [done|done|].
  intros pos' crt' Hp' Hc'. cbn [fst snd]. apply wp_bind, wp_crt_store; [lia|]. apply wp_modify.
  split; [|split; [rewrite cursor_set by lia; lia|done]].
  split; [by simpl; rewrite length_insert|apply (wrap_range 8); lia..|rewrite cursor_set by lia; lia].
Qed.

(** What goes to the serial line. *)
Definition uart_bytes (c : Z) : list Z := if c =? BACKSPACE then [8; 32; 8] else [u8 c].

(** The input is as it was, and the console is not frozen. *)
Definition out_step (bs : list Z) (s s' : console) : Prop :=
  screen_ok s' ∧ cn_serial s' = cn_serial s ++ bs ∧
  s' = set_cn_screen (cn_hi s') (cn_lo s') (cn_crt s') (set_cn_serial (cn_serial s') s).

Lemma consputc_run c s :
  screen_ok s → cn_panicked s = false → wp (consputc c) (λ _ s', out_step (uart_bytes c) s s' ∧ cursor s' ≤ 1920) s.
Proof.
  intros Hs Hp. unfold consputc. apply wp_bind, wp_gets. rewrite Hp. apply wp_bind.
  assert (wp (if c =? BACKSPACE then uartputc 8;; uartputc 32;; uartputc 8 else uartputc c)
    (λ _ s', s' = set_cn_serial (cn_serial s ++ uart_bytes c) s) s) as Hu.
  { unfold uart_bytes. destruct (c =? BACKSPACE); [|by apply wp_modify].
    apply wp_bind, wp_modify, wp_bind, wp_modify, wp_modify. destruct s; simpl. rewrite <- !app_assoc. done. }
  eapply wp_mono; [exact Hu|]. intros _ s1 ->. eapply wp_mono; [apply cgaputc_run|].
  { destruct Hs. split; done. }
  intros _ s2 (Hs2&Hc&E). split; [|done]. split_and!; [done|by rewrite E|]. rewrite E at 1. by rewrite E.
Qed.

Lemma puts_run cs s :
  screen_ok s → cn_panicked s = false → wp (puts consputc cs) (λ _ s', out_step (concat (uart_bytes <$> cs)) s s') s.
Proof.
  revert s. induction cs as [|c cs IH]; intros s Hs Hp; simpl.
  - apply wp_ret. split_and!; [done|by rewrite app_nil_r|by destruct s].
  - apply wp_bind. eapply wp_mono; [by apply consputc_run|]. intros _ s1 ((Hs1&Hser1&E1)&_).
    eapply wp_mono; [apply IH; [done|by rewrite E1]|]. intros _ s2 (Hs2&Hser2&E2). split_and!; [done| |].
    + by rewrite Hser2, Hser1, <- app_assoc.
    + rewrite E2 at 1. rewrite E1. done.
Qed.

(** Console output stays on the screen.  Whatever characters are put, newlines and backspaces included, every store goes to one
    of the 25 rows of the text buffer and scrolling clears no negative range; the cursor
    stays on the screen, and the serial line gets the characters in order, a backspace
    as the three characters that erase one. *)
Theorem console_output_in_bounds cs s :
  screen_ok s → cn_panicked s = false →
  wp (puts consputc cs) (λ _ s', screen_ok s' ∧ cn_serial s' = cn_serial s ++ concat (uart_bytes <$> cs)) s.
Proof.
  intros Hs Hp. eapply wp_mono; [by apply puts_run|]. intros _ s' (?&?&_). done.
Qed.

(** cprintf writes what its format and arguments say, with the lock of the console if it is in use, and
    gives the lock back. *)
Theorem cprintf_prints junk fmt ap bs s :
  length junk = 16%nat → formatted false fmt ap = Some bs →
  screen_ok s → cn_panicked s = false → cn_lock s = false →
  wp (cprintf junk (Some fmt) ap) (λ _ s', out_step (concat (uart_bytes <$> bs)) s s') s.
Proof.
  intros Hj E Hs Hp Hl. unfold cprintf. apply wp_bind, wp_gets, wp_bind.
  assert (∀ s0, s0 = set_cn_lock (cn_locking s) s →
    wp (format_loop consputc false junk fmt ap;; when (cn_locking s) (release cons_lock))
      (λ _ s', out_step (concat (uart_bytes <$> bs)) s s') s0) as H.
  { intros s0 ->. apply wp_bind. unfold wp at 1.
    rewrite (format_loop_run consputc junk Hj false (length fmt) fmt ap bs) by done.
    eapply wp_mono; [apply (puts_run bs); [by destruct Hs; split|done]|].
    intros [] s' (Hs' & Hser & E'). apply wp_when. destruct (cn_locking s) eqn:El.
    - apply wp_release; [by rewrite E'|]. split_and!; [by destruct Hs'; split|done|].
      rewrite E'. destruct s; simpl in *; by subst.
    - split_and!; [done|done|]. rewrite E'. destruct s; simpl in *; by subst. }
  apply wp_when. destruct (cn_locking s) eqn:El.
  - apply wp_acquire; [done|]. by apply H.
  - apply H. destruct s; simpl in *; by subst.
Qed.

(** * Input lines

    The input as the user sees it: the characters that a read may take, and the line that is
    being edited. *)

Definition line_char (c : Z) (q ed : list Z) : list Z * list Z :=
  if (c =? 0) || bool_decide (128 ≤ length (q ++ ed))%nat then (q, ed)
  else
    let c := if c =? 13 then 10 else c in
    if (c =? 10) || (c =? Ctrl 68) || bool_decide (length (q ++ ed) = 127%nat)
    then (q ++ ed ++ [c], []) else (q, ed ++ [c]).

Definition line_key (qe : list Z * list Z) (c : Z) : list Z * list Z :=
  let '(q, ed) := qe in
  if (c =? Ctrl 90) || (c =? Ctrl 80) then (q, ed)
  else if c =? Ctrl 85 then (q, [])
  else if (c =? Ctrl 72) || (c =? 127) then (q, take (length ed - 1) ed)
  else line_char c q ed.

Record input_is (s : console) (q ed : list Z) : Prop := {
  ii_buf : length (in_buf s) = 128%nat;
  ii_r : 0 ≤ in_r s < 2 ^ 32;
  ii_w : in_w s = u32 (in_r s + Z.of_nat (length q));
  ii_e : in_e s = u32 (in_r s + Z.of_nat (length (q ++ ed)));
  ii_len : (length (q ++ ed) ≤ 128)%nat;
  ii_data i x : (q ++ ed) !! i = Some x → in_buf s !! Z.to_nat ((in_r s + Z.of_nat i) mod 128) = Some x;
  ii_edit : 10 ∉ ed;
}.

Record console_ok (s : console) : Prop := {
  ko_screen : screen_ok s;
  ko_panicked : cn_panicked s = false;
}.

Lemma u32_mod128 z : u32 z mod 128 = z mod 128.
Proof. unfold wrap. rewrite <- Znumtheory.Zmod_div_mod; [done|lia|lia|]. by exists (2 ^ 25). Qed.

(** The two locks of the console. *)
Definition locks (s : console) : bool * bool := (in_lock s, cn_lock s).

Lemma echo_run c s (Q : unit → console → Prop) :
  console_ok s →
  (∀ s', console_ok s' → in_buf s' = in_buf s → in_r s' = in_r s → in_w s' = in_w s → in_e s' = in_e s →
    in_wakes s' = in_wakes s → locks s' = locks s → Q tt s') →
  wp (consputc c) Q s.
Proof.
  intros [Hs Hp] HQ. eapply wp_mono; [by apply consputc_run|]. intros [] s' ((Hs'&Hser&E)&_). rewrite E. rewrite E in Hs'.
  by apply HQ.
Qed.

(** The length of the edited line from the indices. *)
Lemma input_edit_empty s q ed : input_is s q ed → in_e s =? in_w s = bool_decide (ed = []).
Proof.
  intros [_ Hr -> -> Hl _ _]. rewrite length_app in *. destruct (decide (ed = [])) as [->|Hne].
  - rewrite bool_decide_true by done. apply Z.eqb_eq. f_equal. simpl. lia.
  - rewrite bool_decide_false by done. apply Z.eqb_neq. destruct ed; [done|]. simpl in *. unfold wrap. intros E.
    assert ((Z.of_nat (S (length ed))) mod 2 ^ 32 = 0) as E0.
    { replace (Z.of_nat (S (length ed))) with
        ((in_r s + Z.of_nat (length q + S (length ed))) - (in_r s + Z.of_nat (length q))) by lia.
      rewrite Zminus_mod, E, Z.sub_diag. done. }
    rewrite Z.mod_small in E0 by lia. lia.
Qed.

Lemma input_erase s q ed x :
  input_is s q (ed ++ [x]) →
  input_is (set_input (in_buf s) (in_r s) (in_w s) (u32 (in_e s - 1)) s) q ed ∧
  in_buf s !! Z.to_nat (u32 (in_e s - 1) mod INPUT_BUF) = Some x ∧ x ≠ 10.
Proof.
  intros [Hb Hr Hw He Hl Hd Hed]. rewrite app_assoc, length_app in *. simpl in *.
  assert (u32 (in_e s - 1) = u32 (in_r s + Z.of_nat (length (q ++ ed)))) as He'.
  { rewrite He, wrap_sub_l. f_equal. lia. }
  split; [|split].
  - split; simpl; [done|done|done|done|lia| |].
    + intros i y Hi. apply Hd. by apply lookup_app_l_Some.
    + intros Hin. apply Hed. apply elem_of_app. by left.
  - rewrite He'. unfold INPUT_BUF. rewrite u32_mod128. apply Hd. by apply list_lookup_middle.
  - intros ->. apply Hed. apply elem_of_app. right. by apply list_elem_of_singleton.
Qed.

(** The state after a key: a read was woken if there is more to read. *)
Definition after_key (s s' : console) (q q' ed' : list Z) : Prop :=
  input_is s' q' ed' ∧ console_ok s' ∧ locks s' = locks s ∧ (in_wakes s ≤ in_wakes s')%nat ∧
  (q' ≠ q → (in_wakes s < in_wakes s')%nat).

Lemma same_input s s' q ed :
  input_is s q ed → in_buf s' = in_buf s → in_r s' = in_r s → in_w s' = in_w s → in_e s' = in_e s → input_is s' q ed.
Proof. intros [? ? ? ? ? Hd ?] Eb Er Ew Ee. split; rewrite ?Eb, ?Er, ?Ew, ?Ee; done. Qed.

Lemma buf_some s q ed k : input_is s q ed → ∃ x, in_buf s !! Z.to_nat (k mod INPUT_BUF) = Some x.
Proof.
  intros [Hb _ _ _ _ _ _]. apply lookup_lt_is_Some. rewrite Hb. unfold INPUT_BUF.
  pose proof (Z.mod_pos_bound k 128 ltac:(lia)). lia.
Qed.

Lemma erase_run s q ed x (m : M console unit) Q :
  input_is s q (ed ++ [x]) → console_ok s →
  (∀ s', input_is s' q ed → console_ok s' → in_wakes s' = in_wakes s → locks s' = locks s → wp m Q s') →
  wp (modify (set_input (in_buf s) (in_r s) (in_w s) (u32 (in_e s - 1)));; consputc BACKSPACE;; m) Q s.
Proof.
  intros Hi Hk HQ. destruct (input_erase s q ed x Hi) as (Hi'&_). apply wp_bind, wp_modify, wp_bind.
  apply echo_run; [destruct Hk as [[]]; split; [split|]; done|].
  intros s' Hk' Eb Er Ew Ee Ewk El. apply HQ; try done. by eapply same_input.
Qed.

Lemma kill_line_run fuel s q ed :
  input_is s q ed → console_ok s → (length ed ≤ fuel)%nat → wp (kill_line fuel) (λ _ s', after_key s s' q q []) s.
Proof.
  revert s ed. induction fuel as [|fuel IH]; intros s ed Hi Hk Hf; (destruct ed as [|x ed _] using rev_ind; [|rewrite length_app in Hf; simpl in Hf]).
  1, 3: destruct (buf_some s q [] (u32 (in_e s - 1)) Hi) as [c Hc]; apply wp_bind, wp_gets, wp_bind; cbn [id];
    rewrite (wp_the _ _ _ _ _ Hc), (input_edit_empty _ _ _ Hi); apply wp_ret; by split_and!.
  - lia.
  - destruct (input_erase s q ed x Hi) as (_&Hc&Hx). cbn [kill_line]. apply wp_bind, wp_gets, wp_bind; cbn [id].
    rewrite (wp_the _ _ _ _ _ Hc), (input_edit_empty _ _ _ Hi). rewrite bool_decide_false by (by destruct ed).
    rewrite (proj2 (Z.eqb_neq _ _) Hx). cbn [negb andb]. eapply erase_run; [done|done|].
    intros s' Hi' Hk' Ew El. eapply wp_mono; [apply (IH s' ed); [done|done|lia]|].
    intros _ s'' (Hi''&Hk''&El'&Hw&_). split_and!; [done|done|congruence|lia|done].
Qed.

Lemma erase_char_run s q ed :
  input_is s q ed → console_ok s → wp erase_char (λ _ s', after_key s s' q q (take (length ed - 1) ed)) s.
Proof.
  intros Hi Hk. unfold erase_char. apply wp_bind, wp_gets. cbn [id]. apply wp_when. rewrite (input_edit_empty _ _ _ Hi).
  destruct ed as [|x ed _] using rev_ind; [by split_and!|]. rewrite bool_decide_false by (by destruct ed). cbn [negb].
  rewrite length_app. simpl. replace (length ed + 1 - 1)%nat with (length ed) by lia. rewrite take_app_length.
  destruct (input_erase s q ed x Hi) as (Hi'&_). apply wp_bind, wp_modify.
  apply echo_run; [destruct Hk as [[]]; split; [split|]; done|].
  intros s' Hk' Eb Er Ew Ee Ewk El. split_and!; [by eapply same_input|done|done|by rewrite Ewk|done].
Qed.

Lemma input_length s q ed : input_is s q ed → u32 (in_e s - in_r s) = Z.of_nat (length (q ++ ed)).
Proof.
  intros [_ _ _ -> Hl _ _]. rewrite wrap_sub_l. replace (in_r s + _ - in_r s) with (Z.of_nat (length (q ++ ed))) by lia.
  apply wrap_small. lia.
Qed.

(** A character at the end of the line. *)
Lemma input_push s q ed c :
  input_is s q ed → (length (q ++ ed) < 128)%nat → 0 ≤ c < 256 →
  (c ≠ 10 → input_is (set_input (<[Z.to_nat (in_e s mod INPUT_BUF) := u8 c]> (in_buf s)) (in_r s) (in_w s) (u32 (in_e s + 1)) s) q (ed ++ [c])) ∧
  input_is (set_input (<[Z.to_nat (in_e s mod INPUT_BUF) := u8 c]> (in_buf s)) (in_r s) (u32 (in_e s + 1)) (u32 (in_e s + 1)) s) (q ++ ed ++ [c]) [].
Proof.
  intros [Hb Hr Hw He Hl Hd Hed] Hlt Hc.
  assert (u32 (in_e s + 1) = u32 (in_r s + Z.of_nat (length (q ++ ed ++ [c])))) as He'.
  { rewrite He, wrap_add_l. f_equal. rewrite !length_app. simpl. lia. }
  assert (∀ i x, (q ++ ed ++ [c]) !! i = Some x →
    <[Z.to_nat (in_e s mod INPUT_BUF) := u8 c]> (in_buf s) !! Z.to_nat ((in_r s + Z.of_nat i) mod 128) = Some x) as Hd'.
  { intros i x Hi. rewrite app_assoc in Hi. rewrite He. unfold INPUT_BUF. rewrite u32_mod128, wrap_small by lia.
    pose proof (Z.mod_pos_bound (in_r s + Z.of_nat i) 128 ltac:(lia)) as Hm1.
    pose proof (Z.mod_pos_bound (in_r s + Z.of_nat (length (q ++ ed))) 128 ltac:(lia)) as Hm2.
    apply lookup_snoc_Some in Hi as [[Hi Hx]|[-> ->]].
    - rewrite list_lookup_insert_ne; [by apply Hd|]. intros E%Z2Nat.inj; [|lia|lia].
      assert ((Z.of_nat (length (q ++ ed)) - Z.of_nat i) mod 128 = 0) as E0.
      { replace (Z.of_nat (length (q ++ ed)) - Z.of_nat i) with
          (in_r s + Z.of_nat (length (q ++ ed)) - (in_r s + Z.of_nat i)) by lia. rewrite Zminus_mod, E, Z.sub_diag. done. }
      rewrite Z.mod_small in E0 by lia. lia.
    - apply list_lookup_insert_eq. rewrite Hb. lia. }
  rewrite !length_app in *. simpl in *. split.
  - intros Hc10. split; simpl; try done; [by rewrite length_insert|by rewrite He', !length_app|rewrite !length_app; simpl; lia|].
    rewrite not_elem_of_app. split; [done|]. intros E%list_elem_of_singleton. congruence.
  - split; simpl; rewrite ?app_nil_r; try done;
      [by rewrite length_insert|by rewrite He', !length_app..|rewrite !length_app; simpl; lia|apply not_elem_of_nil].
Qed.

Lemma full_index s q ed :
  input_is s q ed → (length (q ++ ed) < 128)%nat →
  (u32 (in_e s + 1) =? u32 (in_r s + INPUT_BUF)) = bool_decide (length (q ++ ed) = 127%nat).
Proof.
  intros [_ Hr _ -> _ _ _] Hl. rewrite wrap_add_l. unfold INPUT_BUF. destruct (decide (length (q ++ ed) = 127%nat)) as [E|E].
  - rewrite bool_decide_true by done. apply Z.eqb_eq. f_equal. lia.
  - rewrite bool_decide_false by done. apply Z.eqb_neq. unfold wrap. intros Eq.
    assert ((127 - Z.of_nat (length (q ++ ed))) mod 2 ^ 32 = 0) as E0.
    { replace (127 - Z.of_nat (length (q ++ ed))) with
        ((in_r s + 128) - (in_r s + Z.of_nat (length (q ++ ed)) + 1)) by lia. rewrite Zminus_mod, Eq, Z.sub_diag. done. }
    rewrite Z.mod_small in E0 by lia. lia.
Qed.

Lemma typed_char_run c s q ed :
  input_is s q ed → console_ok s → 0 ≤ c < 256 →
  wp (typed_char c) (λ _ s', after_key s s' q (line_char c q ed).1 (line_char c q ed).2) s.
Proof.
  intros Hi Hk Hc. unfold typed_char, line_char. apply wp_bind, wp_gets. cbn [id]. apply wp_when.
  rewrite (input_length _ _ _ Hi). destruct (Z.eqb_spec c 0) as [->|Hc0]; [by split_and!|]. cbn [negb andb orb].
  unfold INPUT_BUF at 1. destruct (Z.ltb_spec (Z.of_nat (length (q ++ ed))) 128) as [Hl|Hl].
  2: { rewrite bool_decide_true by lia. by split_and!. }
  rewrite bool_decide_false by lia. cbv zeta. rewrite (full_index _ _ _ Hi) by lia. set (c' := if c =? 13 then 10 else c).
  assert (0 ≤ c' < 256) as Hc' by (subst c'; destruct (c =? 13); lia).
  destruct (input_push s q ed c' Hi ltac:(lia) Hc') as (Hpush&Hcommit).
  apply wp_bind, wp_modify, wp_bind, echo_run; [destruct Hk as [[]]; split; [split|]; done|].
  intros s' Hk' Eb Er Ew Ee Ewk El. cbn in Eb, Er, Ew, Ee, Ewk, El. apply wp_when.
  destruct ((c' =? 10) || (c' =? Ctrl 68) || bool_decide (length (q ++ ed) = 127%nat)) eqn:Hdone.
  - apply wp_bind, wp_modify, wp_modify. split_and!; simpl; [|destruct Hk' as [[]]; split; [split|]; done|done|rewrite Ewk; lia|rewrite Ewk; lia].
    eapply same_input; [exact Hcommit|done..].
  - assert (c' ≠ 10) as Hne by (apply orb_false_elim in Hdone as [[?%Z.eqb_neq _]%orb_false_elim _]; done).
    split_and!; simpl; [|done|done|by rewrite Ewk|done]. eapply same_input; [by apply Hpush|done..].
Qed.

(** Code that leaves the input alone, when the lock of the output is as given. *)
Definition quiet (lk : bool) (m : M console unit) : Prop :=
  ∀ s q ed, input_is s q ed → console_ok s → cn_lock s = lk → wp m (λ _ s', after_key s s' q q ed) s.

Section Keys.
Context (procdump reboot : M console unit).

(** The keys for which consoleintr calls other code. *)
Definition key_ok (lk : bool) (c : Z) : Prop :=
  0 ≤ c < 256 ∧ (c = Ctrl 90 → quiet lk reboot) ∧ (c = Ctrl 80 → quiet lk procdump).

Lemma key_run c s q ed :
  input_is s q ed → console_ok s → key_ok (cn_lock s) c →
  wp (key procdump reboot c) (λ _ s', after_key s s' q (line_key (q, ed) c).1 (line_key (q, ed) c).2) s.
Proof.
  intros Hi Hk (Hc&Hz&Hp). unfold key, line_key.
  destruct (Z.eqb_spec c (Ctrl 90)) as [E|_]; [by apply Hz|]. destruct (Z.eqb_spec c (Ctrl 80)) as [E|_]; [by apply Hp|]. cbn [orb].
  destruct (c =? Ctrl 85); [eapply kill_line_run; [done|done|]|].
  { unfold INPUT_BUF. pose proof (ii_len _ _ _ Hi) as Hl. rewrite length_app in Hl. lia. }
  destruct ((c =? Ctrl 72) || (c =? 127)); [by apply erase_char_run|]. by apply typed_char_run.
Qed.

Lemma line_key_queue qe c : ∃ more, (line_key qe c).1 = qe.1 ++ more.
Proof.
  destruct qe as [q ed]. unfold line_key, line_char. cbv zeta. repeat case_match; simpl; solve [eexists; reflexivity|exists []; by rewrite app_nil_r].
Qed.

Lemma keys_run cs s q ed :
  input_is s q ed → console_ok s → Forall (key_ok (cn_lock s)) cs →
  wp (keys procdump reboot cs) (λ _ s', after_key s s' q (foldl line_key (q, ed) cs).1 (foldl line_key (q, ed) cs).2) s.
Proof.
  revert s q ed. induction cs as [|c cs IH]; intros s q ed Hi Hk Hcs; cbn [keys foldl].
  - apply wp_ret. by split_and!.
  - apply Forall_cons_1 in Hcs as [Hc Hcs].
    apply wp_bind. eapply wp_mono; [by apply key_run|]. intros [] s1 (Hi1&Hk1&El1&Hw1&Hn1).
    destruct (line_key (q, ed) c) as [q1 ed1] eqn:E1. eapply wp_mono.
    { apply IH; [done|done|]. injection El1 as _ ->. done. }
    intros [] s2 (Hi2&Hk2&El2&Hw2&Hn2).
    split_and!; [done|done|congruence|lia|]. intros Hne. simpl in *.
    destruct (decide (q1 = q)) as [->|]; [specialize (Hn2 Hne)|specialize (Hn1 ltac:(done))]; lia.
Qed.

Lemma consoleintr_run cs s q ed :
  input_is s q ed → console_ok s → in_lock s = false → Forall (key_ok (cn_lock s)) cs →
  wp (consoleintr procdump reboot cs) (λ _ s',
    input_is s' (foldl line_key (q, ed) cs).1 (foldl line_key (q, ed) cs).2 ∧ console_ok s' ∧ locks s' = locks s ∧
    ((foldl line_key (q, ed) cs).1 ≠ q → in_wakes s < in_wakes s')%nat) s.
Proof.
  intros Hi Hk Hl Hcs. unfold consoleintr. apply wp_bind, wp_acquire; [done|]. apply wp_bind.
  eapply wp_mono; [apply (keys_run cs _ q ed); [destruct Hi; by split|destruct Hk as [[]]; split; [split|]; done|done]|].
  intros [] s' (Hi'&Hk'&El&Hw&Hn). injection El as El Ec. apply wp_release; [exact El|].
  split_and!; [destruct Hi'; by split|destruct Hk' as [[]]; split; [split|]; done| |done].
  unfold locks. simpl. by rewrite Hl, Ec.
Qed.

(** A key that is neither control-Z nor control-P. *)
Lemma plain_key lk c : 0 ≤ c < 256 → c ≠ Ctrl 90 → c ≠ Ctrl 80 → key_ok lk c.
Proof. intros Hc Hz Hp. split; [done|]. split; intros E; contradiction. Qed.
End Keys.

(** ** Reading *)

(** What a read of [n] characters takes: up to the end of the line, or to a control-D, which stays if
    something was read before it. *)
Fixpoint take_line (n : nat) (first : bool) (q : list Z) : list Z * list Z :=
  match n, q with
  | S n, c :: q' =>
      if c =? Ctrl 68 then ([], if first then q' else q)
      else if c =? 10 then ([c], q')
      else (c :: (take_line n false q').1, (take_line n false q').2)
  | _, _ => ([], q)
  end.

(** The read need not wait. *)
Fixpoint ready (n : nat) (q : list Z) : Prop :=
  match n, q with
  | O, _ => True
  | S _, [] => False
  | S n, c :: q => c = Ctrl 68 ∨ c = 10 ∨ ready n q
  end.

Lemma input_pop s c q ed :
  input_is s (c :: q) ed →
  in_r s =? in_w s = false ∧ in_buf s !! Z.to_nat (in_r s mod INPUT_BUF) = Some c ∧ u32 (u32 (in_r s + 1) - 1) = in_r s ∧
  input_is (set_input (in_buf s) (u32 (in_r s + 1)) (in_w s) (in_e s) s) q ed.
Proof.
  intros [Hb Hr Hw He Hl Hd Hed]. split_and!.
  - apply Z.eqb_neq. rewrite Hw. intros E. simpl in Hl. rewrite length_app in Hl. unfold wrap in E.
    assert (Z.of_nat (length (c :: q)) mod 2 ^ 32 = 0) as E0.
    { replace (Z.of_nat (length (c :: q))) with (in_r s + Z.of_nat (length (c :: q)) - in_r s) by lia.
      rewrite Zminus_mod, <- E, (Z.mod_small (in_r s)) by done. by rewrite Z.sub_diag. }
    rewrite Z.mod_small in E0; simpl in *; lia.
  - rewrite <- (Z.add_0_r (in_r s)). apply (Hd 0%nat). done.
  - rewrite wrap_sub_l. replace (in_r s + 1 - 1) with (in_r s) by lia. by apply wrap_small.
  - split; simpl in *; try done.
    + apply (wrap_range 32). lia.
    + rewrite Hw, wrap_add_l. f_equal. lia.
    + rewrite He, wrap_add_l. f_equal. lia.
    + lia.
    + intros i x Hi. rewrite <- Zplus_mod_idemp_l, u32_mod128, Zplus_mod_idemp_l.
      replace (in_r s + 1 + Z.of_nat i) with (in_r s + Z.of_nat (S i)) by lia. by apply Hd.
Qed.

Lemma consoleread_loop_run chan k n target got s q ed :
  input_is s q ed → ready n q → (n ≤ target)%nat →
  wp (consoleread_loop chan k n target got) (λ r s',
    r = Returns (Some (got ++ (take_line n (bool_decide (n = target)) q).1)) ∧
    input_is s' (take_line n (bool_decide (n = target)) q).2 ed ∧
    s' = set_input (in_buf s) (in_r s') (in_w s) (in_e s) s) s.
Proof.
  revert got s q. induction n as [|n IH]; intros got s q Hi Hready Hn.
  - apply wp_ret. simpl. rewrite app_nil_r. split_and!; [done|done|by destruct s].
  - destruct q as [|c q]; [done|]. destruct (input_pop s c q ed Hi) as (Hne&Hc&Hback&Hi').
    cbn [consoleread_loop take_line]. apply wp_bind, wp_gets. cbn [id]. rewrite Hne. apply wp_bind, (wp_the _ _ _ _ _ Hc). cbv zeta.
    destruct (Z.eqb_spec c (Ctrl 68)) as [->|H4].
    + apply wp_bind, wp_modify, wp_ret. simpl. rewrite app_nil_r. split_and!; [done| |done].
      destruct (decide (S n < target)%nat) as [Hlt|Hge].
      * rewrite Hback, bool_decide_false by lia. eapply same_input; [exact Hi|done..].
      * by rewrite bool_decide_true by lia.
    + apply wp_bind, wp_modify. destruct (Z.eqb_spec c 10) as [->|H10].
      * apply wp_ret. by split_and!.
      * simpl in Hready. assert (ready n q) as Hr by tauto.
        eapply wp_mono; [apply (IH (got ++ [c]) _ q Hi' Hr); lia|]. intros r s' (->&Hs'&E).
        rewrite bool_decide_false in * by lia. split_and!; [by rewrite <- app_assoc|done|]. rewrite E. done.
Qed.

(** The device on its own. *)
Definition self : lens console console := Lens id (λ c _, c).
Definition no_inode (ip : nat) : M console unit := mret tt.

(** A printable character. *)
Definition printable (c : Z) : Prop := 32 ≤ c < 127.

Lemma type_text (text : list Z) ed :
  Forall printable text → (length (ed ++ text) < 127)%nat → foldl line_key ([], ed) text = ([], ed ++ text).
Proof.
  intros Ht. revert ed. induction Ht as [|c text Hc _ IH]; intros ed Hl; cbn [foldl]; [by rewrite app_nil_r|].
  unfold printable in Hc. rewrite length_app in Hl. simpl in Hl.
  assert (line_key ([], ed) c = ([], ed ++ [c])) as ->.
  { unfold line_key, line_char, Ctrl. simpl. rewrite !(proj2 (Z.eqb_neq _ _)) by lia.
    cbn [orb]. rewrite (proj2 (Z.eqb_neq c 13)) by lia. rewrite !(proj2 (Z.eqb_neq _ _)) by lia.
    rewrite !bool_decide_false by lia. done. }
  rewrite IH; rewrite <- app_assoc; [done|]. simpl. rewrite length_app. simpl. lia.
Qed.

Lemma take_text n text first :
  Forall printable text → (length text < n)%nat → take_line n first (text ++ [10]) = (text ++ [10], []) ∧ ready n (text ++ [10]).
Proof.
  intros Ht. revert n first. induction Ht as [|c text Hc _ IH]; intros n first Hn; (destruct n as [|n]; [simpl in Hn; lia|]); simpl.
  - unfold Ctrl. simpl. tauto.
  - unfold printable in Hc. simpl in Hn. destruct (IH n false ltac:(lia)) as [-> Hr]. unfold Ctrl.
    rewrite !(proj2 (Z.eqb_neq _ _)) by lia. tauto.
Qed.

(** A line that was entered is what a read returns. *)
Lemma consoleread_entered {St} (cl : lens St console) `{!LensLaws cl} (iu il : nat → M St unit) kl chan ip n text s :
  input_is (view cl s) (text ++ [10]) [] → in_lock (view cl s) = false → Forall printable text →
  Z.of_nat (length text) < n → (∀ ip s, iu ip s = Ok tt s) → (∀ ip s, il ip s = Ok tt s) →
  wp (consoleread cl iu il kl chan ip n)
    (λ r s', r = Returns (Z.of_nat (length text) + 1, text ++ [10]) ∧ input_is (view cl s') [] []) s.
Proof.
  intros Hi Hl Ht Hn Hiu Hil. unfold consoleread, consoleread_from.
  apply wp_bind, (wp_eq _ _ _ _ (Hiu ip s)). apply wp_bind, wp_zoom, wp_acquire; [done|].
  apply wp_bind, wp_gets, wp_bind, wp_zoom. rewrite view_over.
  destruct (take_text (Z.to_nat n) text true Ht ltac:(lia)) as [Htake Hready].
  eapply wp_mono; [apply (consoleread_loop_run chan _ (Z.to_nat n) (Z.to_nat n) [] _ (text ++ [10]) []); [destruct Hi; by split|done|done]|].
  rewrite bool_decide_true, Htake by done. intros r s2 (->&Hi2&E). apply wp_bind, wp_zoom.
  rewrite view_over. apply wp_release; [by rewrite E|].
  cbn [app]. apply wp_bind, (wp_eq _ _ _ _ (Hil ip _)), wp_ret. rewrite view_over. split; [|destruct Hi2; by split].
  cbn [fst]. rewrite length_app. simpl. do 2 f_equal. lia.
Qed.

#[global] Instance self_laws : LensLaws self.
Proof. by split. Qed.

(** A typed line is read back.  When nothing is pending, typing a line of fewer than 127 printable characters and return
    lets the next sufficiently long read of the console return that line, with a newline at its end, without
    waiting, and leaves nothing pending. *)
Theorem console_reads_typed_line procdump reboot chan ip n text s :
  input_is s [] [] → console_ok s → in_lock s = false → Forall printable text → (length text < 126)%nat →
  Z.of_nat (length text) < n →
  wp (consoleintr procdump reboot (text ++ [13]);; consoleread self no_inode no_inode (λ _, false) chan ip n)
    (λ r s', r = Returns (Z.of_nat (length text) + 1, text ++ [10]) ∧ input_is s' [] []) s.
Proof.
  intros Hi Hk Hl Ht Hlen Hn. apply wp_bind.
  eapply wp_mono; [apply (consoleintr_run procdump reboot (text ++ [13]) s [] [] Hi Hk Hl)|].
  { apply Forall_app. split; [|constructor; [apply plain_key; unfold Ctrl; lia|constructor]].
    eapply list.Forall_impl; [exact Ht|]. unfold printable. intros; apply plain_key; unfold Ctrl; lia. }
  rewrite foldl_app, type_text by (simpl; (done || lia)). cbn [foldl app].
  assert (line_key ([], text) 13 = (text ++ [10], [])) as ->.
  { unfold line_key, line_char. simpl. by rewrite bool_decide_false by lia. }
  intros [] s1 (Hi1&_&El1&_). injection El1 as El1 _. rewrite Hl in El1. by apply (consoleread_entered self).
Qed.

(** A console with nothing on it. *)
Definition blank : console :=
  Console false true false [] 0 0 (replicate 2000 0) false (replicate 128 0) 4294967290 4294967290 4294967290 0.
Lemma blank_input : input_is blank [] [].
Proof. split; try done; simpl; try lia; apply not_elem_of_nil. Qed.
Lemma blank_ok : console_ok blank.
Proof. split; [split|]; try done; vm_compute; lia. Qed.

Lemma console_output_in_bounds_witness :
  wp (puts consputc [104; 105; BACKSPACE; 10]) (λ _ s', screen_ok s' ∧ cn_serial s' = [104; 105; 8; 32; 8; 10]) blank.
Proof. exact (console_output_in_bounds [104; 105; BACKSPACE; 10] blank (ko_screen _ blank_ok) eq_refl). Defined.

Lemma console_reads_typed_line_witness :
  wp (consoleintr (mret tt) (mret tt) [108; 115; 13];; consoleread self no_inode no_inode (λ _, false) 7 1 100)
    (λ r s', r = Returns (3, [108; 115; 10]) ∧ input_is s' [] []) blank.
Proof.
  apply (console_reads_typed_line (mret tt) (mret tt) 7 1 100 [108; 115] blank blank_input blank_ok eq_refl).
  - repeat constructor; unfold printable; lia.
  - simpl. lia.
  - simpl. lia.
Defined.
