(* ===== verification/Kbd.v ===== *)
(** The keyboard (src/kbd.c, src/kbd.h) and the serial port (src/uart.c): the
    translation of scan codes to characters, the bytes of the serial line, and the
    interrupt handlers, which hand both to the console.

    The controllers are parameters: [Keyboard] and [Uart] state what the code
    relies on. *)

From S2P Require Import Prelude Bytes Layout Ports Ulib Console.

(** * kbd.h *)

Definition KBSTATP : Z := 0x64.
Definition KBS_DIB : Z := 0x01.
Definition KBDATAP : Z := 0x60.
Definition NO : Z := 0.

Definition SHIFT : Z := Z.shiftl 1 0.
Definition CTL : Z := Z.shiftl 1 1.
Definition ALT : Z := Z.shiftl 1 2.
Definition CAPSLOCK : Z := Z.shiftl 1 3.
Definition NUMLOCK : Z := Z.shiftl 1 4.
Definition SCROLLLOCK : Z := Z.shiftl 1 5.
Definition E0ESC : Z := Z.shiftl 1 6.

Definition KEY_HOME : Z := 0xE0.
Definition KEY_END : Z := 0xE1.
Definition KEY_UP : Z := 0xE2.
Definition KEY_DN : Z := 0xE3.
Definition KEY_LF : Z := 0xE4.
Definition KEY_RT : Z := 0xE5.
Definition KEY_PGUP : Z := 0xE6.
Definition KEY_PGDN : Z := 0xE7.
Definition KEY_INS : Z := 0xE8.
Definition KEY_DEL : Z := 0xE9.

(** C(x) of kbd.h, stored in a byte *)
Definition controls (s : string) : list Z := (λ c, u8 (Ctrl c)) <$> chars s.

(** A table of 256 bytes: the first entries, and entries at given indices. *)
Definition table (first : list Z) (more : list (Z * Z)) : list Z :=
  foldl (λ t e, <[Z.to_nat e.1 := e.2]> t) (first ++ replicate (256 - length first) 0) more.

Definition shiftcode : list Z :=
  table [] [(0x1D, CTL); (0x2A, SHIFT); (0x36, SHIFT); (0x38, ALT); (0x9D, CTL); (0xB8, ALT)].

Definition togglecode : list Z :=
  table [] [(0x3A, CAPSLOCK); (0x45, NUMLOCK); (0x46, SCROLLLOCK)].

Definition special_keys : list (Z * Z) :=
  [(0xC8, KEY_UP); (0xD0, KEY_DN); (0xC9, KEY_PGUP); (0xD1, KEY_PGDN); (0xCB, KEY_LF);
   (0xCD, KEY_RT); (0x97, KEY_HOME); (0xCF, KEY_END); (0xD2, KEY_INS); (0xD3, KEY_DEL)].

Definition normalmap : list Z := table
  ([NO; 0x1B] ++ chars "123456" ++
   chars "7890-=" ++ [8; 9] ++
   chars "qwertyui" ++
   chars "op[]" ++ [10; NO] ++ chars "as" ++
   chars "dfghjkl;" ++
   chars "'`" ++ [NO] ++ chars "\zxcv" ++
   chars "bnm,./" ++ [NO] ++ chars "*" ++
   [NO] ++ chars " " ++ [NO; NO; NO; NO; NO; NO] ++
   [NO; NO; NO; NO; NO; NO; NO] ++ chars "7" ++
   chars "89-456+1" ++
   chars "230." ++ [NO; NO; NO; NO])
  ([(0x9C, 10); (0xB5, 47)] ++ special_keys).

Definition shiftmap : list Z := table
  ([NO; 27] ++ chars "!@#$%^" ++
   chars "&*()_+" ++ [8; 9] ++
   chars "QWERTYUI" ++
   chars "OP{}" ++ [10; NO] ++ chars "AS" ++
   chars "DFGHJKL:" ++
   [34] ++ chars "~" ++ [NO] ++ chars "|ZXCV" ++
   chars "BNM<>?" ++ [NO] ++ chars "*" ++
   [NO] ++ chars " " ++ [NO; NO; NO; NO; NO; NO] ++
   [NO; NO; NO; NO; NO; NO; NO] ++ chars "7" ++
   chars "89-456+1" ++
   chars "230." ++ [NO; NO; NO; NO])
  ([(0x9C, 10); (0xB5, 47)] ++ special_keys).

Definition ctlmap : list Z := table
  (replicate 16 NO ++
   controls "QWERTYUI" ++
   controls "OP" ++ [NO; NO; 13; NO] ++ controls "AS" ++
   controls "DFGHJKL" ++ [NO] ++
   [NO; NO; NO] ++ controls "\ZXCV" ++
   controls "BNM" ++ [NO; NO] ++ controls "/" ++ [NO; NO])
  ([(0x9C, 13); (0xB5, u8 (Ctrl 47))] ++ special_keys).

(** * kbd.c *)

(** The static variable of kbdgetc and the keyboard controller. *)
Record kbd (D : Type) := Kbd { kb_shift : Z; kb_ctl : D }.
Arguments Kbd {D}.
Arguments kb_shift {D}.
Arguments kb_ctl {D}.

Definition charcode : list (list Z) := [normalmap; shiftmap; ctlmap; ctlmap].

Section kbd.
Context {D : Type}.

Definition ctl_lens : lens (kbd D) D := Lens kb_ctl (λ d k, Kbd (kb_shift k) d).
Definition set_shift (sh : Z) : M (kbd D) unit := modify (λ k, Kbd sh (kb_ctl k)).

(** The end of kbdgetc: a key was pressed, [data] has the flag of an escape folded in. *)
Definition key_pressed (shift data : Z) : M (kbd D) Z :=
  sc ← the "shiftcode" (shiftcode !! Z.to_nat data);
  tg ← the "togglecode" (togglecode !! Z.to_nat data);
  let shift := Z.lxor (Z.lor shift sc) tg in
  set_shift shift;;
  map ← the "charcode" (charcode !! Z.to_nat (Z.land shift (Z.lor CTL SHIFT)));
  c ← the "charcode" (map !! Z.to_nat data);
  if negb (Z.land shift CAPSLOCK =? 0) then
    if (97 <=? c) && (c <=? 122) then mret (c + (65 - 97))
    else if (65 <=? c) && (c <=? 90) then mret (c + (97 - 65))
    else mret c
  else mret c.

(** kbdgetc once it has read a scan code. *)
Definition kbd_code (data : Z) : M (kbd D) Z :=
  shift ← gets kb_shift;
  if data =? 0xE0 then
    set_shift (Z.lor shift E0ESC);;
    mret 0
  else if negb (Z.land data 0x80 =? 0) then
    let data := if negb (Z.land shift E0ESC =? 0) then data else Z.land data 0x7F in
    sc ← the "shiftcode" (shiftcode !! Z.to_nat data);
    set_shift (Z.land shift (Z.lnot (Z.lor sc E0ESC)));;
    mret 0
  else if negb (Z.land shift E0ESC =? 0) then
    key_pressed (Z.land shift (Z.lnot E0ESC)) (Z.lor data 0x80)
  else key_pressed shift data.

Definition kbdgetc `{Ports D} : M (kbd D) Z :=
  st ← io_in ctl_lens KBSTATP;
  if Z.land st KBS_DIB =? 0 then mret (-1) else
  data ← io_in ctl_lens KBDATAP;
  kbd_code data.
End kbd.

(** * The loop of consoleintr over a getc *)

Section getc.
Context {St : Type} (con : lens St console) (procdump reboot : M console unit) (getc : M St Z).

Fixpoint getc_loop (fuel : nat) : M St unit :=
  match fuel with
  | O => out_of_fuel
  | S fuel =>
      c ← getc;
      if c <? 0 then mret tt else zoom con (key procdump reboot c);; getc_loop fuel
  end.
(** consoleintr(getc) *)
Definition consoleintr_of (fuel : nat) : M St unit :=
  zoom con (acquire input_lock);;
  getc_loop fuel;;
  zoom con (release input_lock).
End getc.

(** The keyboard with the console. *)
Record kbdcons (D : Type) := KbdCons { kc_kbd : kbd D; kc_cons : console }.
Arguments KbdCons {D}.
Arguments kc_kbd {D}.
Arguments kc_cons {D}.
Definition kc_kbd_lens {D} : lens (kbdcons D) (kbd D) := Lens kc_kbd (λ k s, KbdCons k (kc_cons s)).
Definition kc_cons_lens {D} : lens (kbdcons D) console := Lens kc_cons (λ c s, KbdCons (kc_kbd s) c).

Definition kbdintr `{Ports D} (procdump reboot : M console unit) (fuel : nat) : M (kbdcons D) unit :=
  consoleintr_of kc_cons_lens procdump reboot (zoom kc_kbd_lens kbdgetc) fuel.

(** * uart.c *)

Definition COM1 : Z := 0x3f8.

(** The flag of uart.c and the serial port. *)
Record uart (D : Type) := Uart { ua_present : Z; ua_port : D }.
Arguments Uart {D}.
Arguments ua_present {D}.
Arguments ua_port {D}.

Section uart.
Context {D : Type} `{Ports D}.

Definition port_lens : lens (uart D) D := Lens ua_port (λ d u, Uart (ua_present u) d).
Notation out := (io_out port_lens).
Notation in_ := (io_in port_lens).

(** the loop that waits for room, at most 128 polls; microdelay does nothing *)
Fixpoint uart_wait (n : nat) : M (uart D) unit :=
  match n with
  | O => mret tt
  | S n => st ← in_ (COM1 + 5); if negb (Z.land st 0x20 =? 0) then mret tt else uart_wait n
  end.

Definition uartputc (c : Z) : M (uart D) unit :=
  u ← gets ua_present;
  if u =? 0 then mret tt else
  uart_wait 128;;
  out (COM1 + 0) c.

Fixpoint uartputs (cs : list Z) : M (uart D) unit :=
  match cs with [] => mret tt | c :: cs => uartputc c;; uartputs cs end.

Definition uartearlyinit : M (uart D) unit :=
  out (COM1 + 2) 0;;
  out (COM1 + 3) 0x80;;
  out (COM1 + 0) (115200 / 9600);;
  out (COM1 + 1) 0;;
  out (COM1 + 3) 0x03;;
  out (COM1 + 4) 0;;
  out (COM1 + 1) 0x01;;
  st ← in_ (COM1 + 5);
  if st =? 0xFF then mret tt else
  modify (λ u, Uart 1 (ua_port u));;
  uartputs (chars "xv6..." ++ [10]).

(** uartinit; ioapicenable routes the interrupt to CPU 0. *)
Definition uartinit : M (uart D) unit :=
  u ← gets ua_present;
  if u =? 0 then mret tt else
  in_ (COM1 + 2);;
  in_ (COM1 + 0);;
  mret tt.

Definition uartgetc : M (uart D) Z :=
  u ← gets ua_present;
  if u =? 0 then mret (-1) else
  st ← in_ (COM1 + 5);
  if Z.land st 0x01 =? 0 then mret (-1) else
  in_ (COM1 + 0).
End uart.

(** The serial port with the console. *)
Record uartcons (D : Type) := UartCons { uc_uart : uart D; uc_cons : console }.
Arguments UartCons {D}.
Arguments uc_uart {D}.
Arguments uc_cons {D}.
Definition uc_uart_lens {D} : lens (uartcons D) (uart D) := Lens uc_uart (λ u s, UartCons u (uc_cons s)).
Definition uc_cons_lens {D} : lens (uartcons D) console := Lens uc_cons (λ c s, UartCons (uc_uart s) c).

Definition uartintr `{Ports D} (procdump reboot : M console unit) (fuel : nat) : M (uartcons D) unit :=
  consoleintr_of uc_cons_lens procdump reboot (zoom uc_uart_lens uartgetc) fuel.

(** * What the code relies on *)

(** The keyboard controller: the status tells if a scan code is pending, reading the data
    port takes the first. *)
Class Keyboard (D : Type) `{Ports D} := {
  pending : D → list Z;
  kb_status d :
    pending (inb KBSTATP d).2 = pending d ∧
    (Z.land (inb KBSTATP d).1 KBS_DIB =? 0) = bool_decide (pending d = []);
  kb_data d x r : pending d = x :: r → (inb KBDATAP d).1 = x ∧ pending (inb KBDATAP d).2 = r;
}.

(** The serial port, once its divisor is set: bytes written to the data register are sent, bytes
    received are read there, and the bit 0 of the status tells if there is one. *)
Class Serial (D : Type) `{Ports D} := {
  sent : D → list Z;
  received : D → list Z;
  configured : D → Prop;
  ser_status d : configured d →
    let d' := (inb (COM1 + 5) d).2 in
    configured d' ∧ sent d' = sent d ∧ received d' = received d ∧
    (Z.land (inb (COM1 + 5) d).1 0x01 =? 0) = bool_decide (received d = []);
  ser_read d x r : configured d → received d = x :: r →
    let d' := (inb (COM1 + 0) d).2 in
    (inb (COM1 + 0) d).1 = x ∧ configured d' ∧ received d' = r ∧ sent d' = sent d;
  ser_write d v : configured d →
    let d' := outb (COM1 + 0) v d in
    configured d' ∧ sent d' = sent d ++ [v] ∧ received d' = received d;
}.

(** * Scan codes *)

(** Translating a scan code changes the shift state only. *)
Lemma kbd_code_state {D} (data sh : Z) (d : D) :
  kbd_code data (Kbd sh d) =
    match kbd_code data (Kbd sh tt) with
    | Ok c k => Ok c (Kbd (kb_shift k) d)
    | Sleep ch k => Sleep ch (Kbd (kb_shift k) d)
    | Fail f => Fail f
    end.
Proof.
  unfold kbd_code, key_pressed, mbind, M_bind, gets, set_shift, modify, the, undefined, mret, M_ret.
  cbn [kb_shift kb_ctl].
  repeat match goal with
  | |- context [match ?x with Some _ => _ | None => _ end] => destruct x; cbn [kb_shift kb_ctl]; try done
  | |- context [if ?b then _ else _] => destruct b; cbn [kb_shift kb_ctl]; try done
  end.
Qed.

(** The characters for a sequence of scan codes, and the shift state after them. *)
Fixpoint scan (sh : Z) (codes : list Z) : option (list Z * Z) :=
  match codes with
  | [] => Some ([], sh)
  | x :: r =>
      match kbd_code x (Kbd sh tt) with
      | Ok c k => '(cs, sh') ← scan (kb_shift k) r; Some (c :: cs, sh')
      | _ => None
      end
  end.

Lemma scan_app sh l1 l2 cs1 sh1 cs2 sh2 :
  scan sh l1 = Some (cs1, sh1) → scan sh1 l2 = Some (cs2, sh2) →
  scan sh (l1 ++ l2) = Some (cs1 ++ cs2, sh2).
Proof.
  revert sh cs1. induction l1 as [|x l1 IH]; intros sh cs1; simpl; [by intros [= <- <-]|].
  destruct (kbd_code x (Kbd sh tt)) as [c k| |]; [|done..].
  destruct (scan (kb_shift k) l1) as [[cs sh']|] eqn:E; [|done]. simpl. intros [= <- <-] H2.
  by rewrite (IH _ _ E H2).
Qed.

(** Every scan code is translated: the tables are large enough. *)
Definition in_range (b : Z) : Prop := 0 ≤ b < 256.

Lemma tables_total data :
  in_range data →
  is_Some (shiftcode !! Z.to_nat data) ∧ is_Some (togglecode !! Z.to_nat data) ∧
  Forall (λ map, ∃ c, map !! Z.to_nat data = Some c ∧ 0 ≤ c < 256) charcode.
Proof.
  intros Hd. assert (Z.to_nat data < 256)%nat as Hn by (unfold in_range in Hd; lia).
  assert (∀ t : list Z, length t = 256%nat → is_Some (t !! Z.to_nat data)) as Hlk.
  { intros t Ht. apply lookup_lt_is_Some_2. lia. }
  assert (∀ t : list Z, length t = 256%nat → forallb (λ c, (0 <=? c) && (c <? 256)) t = true →
    ∃ c, t !! Z.to_nat data = Some c ∧ 0 ≤ c < 256) as Hc.
  { intros t Ht Hb. destruct (Hlk t Ht) as [c E]. exists c. split; [done|].
    rewrite forallb_forall in Hb. specialize (Hb c). rewrite <- list_elem_of_In in Hb.
    apply list_elem_of_lookup_2 in E. specialize (Hb E).
    apply andb_true_iff in Hb as [?%Z.leb_le ?%Z.ltb_lt]. lia. }
  split; [by apply Hlk|]. split; [by apply Hlk|]. repeat constructor; by apply Hc.
Qed.

Lemma key_pressed_total sh0 sh data :
  in_range data → ∃ c sh', key_pressed sh data (Kbd sh0 tt) = Ok c (Kbd sh' tt) ∧ 0 ≤ c < 256.
Proof.
  intros Hd. destruct (tables_total data Hd) as ([sc Hsc] & [tg Htg] & Hmaps).
  unfold key_pressed, mbind, M_bind, set_shift, modify, the. rewrite Hsc, Htg. simpl.
  set (sh' := Z.lxor (Z.lor sh sc) tg).
  destruct (lookup_lt_is_Some_2 charcode (Z.to_nat (Z.land sh' (Z.lor CTL SHIFT)))) as [map Hmap].
  { change (Z.lor CTL SHIFT) with (Z.ones 2). rewrite Z.land_ones by lia.
    change (length charcode) with 4%nat. pose proof (Z.mod_pos_bound sh' (2 ^ 2)). lia. }
  rewrite Hmap. simpl. eapply Forall_lookup_1 in Hmaps as (c & Hc & Hr); [|exact Hmap]. rewrite Hc. simpl.
  destruct (negb _); [|by exists c, sh'].
  destruct ((97 <=? c) && (c <=? 122)) eqn:E1.
  { apply andb_true_iff in E1 as [?%Z.leb_le ?%Z.leb_le]. eexists _, _. split; [done|]. lia. }
  destruct ((65 <=? c) && (c <=? 90)) eqn:E2.
  { apply andb_true_iff in E2 as [?%Z.leb_le ?%Z.leb_le]. eexists _, _. split; [done|]. lia. }
  by exists c, sh'.
Qed.

Lemma kbd_code_total sh data :
  in_range data → ∃ c sh', kbd_code data (Kbd sh tt) = Ok c (Kbd sh' tt) ∧ 0 ≤ c < 256.
Proof.
  intros Hd. unfold kbd_code. rewrite (bind_run _ _ _ sh (Kbd sh tt)) by done.
  assert (in_range (Z.land data 0x7f) ∧ in_range (Z.lor data 0x80)) as [H1 H2].
  { assert (forallb (λ n, let x := Z.of_nat n in
      (0 <=? Z.land x 127) && (Z.land x 127 <? 256) && (0 <=? Z.lor x 128) && (Z.lor x 128 <? 256)) (seq 0 256) = true) as Hb
      by (vm_compute; reflexivity).
    rewrite forallb_forall in Hb. specialize (Hb (Z.to_nat data)).
    unfold in_range in *. rewrite Z2Nat.id in Hb by lia.
    rewrite in_seq in Hb. specialize (Hb ltac:(lia)). rewrite !andb_true_iff, !Z.leb_le, !Z.ltb_lt in Hb. lia. }
  destruct (data =? 224); [by eexists _, _|].
  destruct (negb (Z.land data 128 =? 0)).
  - set (data' := if negb (Z.land sh E0ESC =? 0) then data else Z.land data 127).
    assert (in_range data') as Hd' by (unfold data'; by destruct (negb _)).
    destruct (tables_total data' Hd') as ([sc Hsc] & _).
    unfold mbind, M_bind, the. rewrite Hsc. simpl. by eexists _, _.
  - destruct (negb (Z.land sh E0ESC =? 0)); [|by apply key_pressed_total].
    by apply key_pressed_total.
Qed.

Lemma scan_total sh codes :
  Forall in_range codes → ∃ cs sh', scan sh codes = Some (cs, sh') ∧ Forall (λ c, 0 ≤ c < 256) cs.
Proof.
  intros H. revert sh. induction H as [|x codes Hx _ IH]; intros sh; simpl; [by eexists _, _|].
  destruct (kbd_code_total sh x Hx) as (c & sh1 & -> & Hc). simpl.
  destruct (IH sh1) as (cs & sh2 & -> & Hcs). simpl. eexists _, _. split; [done|]. by constructor.
Qed.

(** * The interrupt handlers hand the characters to the console *)

Section loop.
Context {St : Type} (con : lens St console) `{!LensLaws con} (procdump reboot : M console unit) (getc : M St Z).
(** [R s cs]: the next calls of getc return the characters [cs] and then -1. *)
Context (R : St → list Z → Prop).
Hypothesis (R_next : ∀ s c cs, R s (c :: cs) →
  0 ≤ c ∧ ∃ s', getc s = Ok c s' ∧ view con s' = view con s ∧ ∀ x, R (over con x s') cs).
Hypothesis (R_end : ∀ s, R s [] →
  ∃ r s', r < 0 ∧ getc s = Ok r s' ∧ view con s' = view con s ∧ ∀ x, R (over con x s') []).
Hypothesis (R_over : ∀ s cs x, R s cs → R (over con x s) cs).

Lemma getc_loop_run cs fuel s (Q : console → Prop) :
  R s cs → (length cs < fuel)%nat → wp (keys procdump reboot cs) (λ _, Q) (view con s) →
  wp (getc_loop con procdump reboot getc fuel) (λ _ s', Q (view con s') ∧ R s' []) s.
Proof.
  revert fuel s. induction cs as [|c cs IH]; intros fuel s HR Hf HQ; (destruct fuel as [|fuel]; [simpl in Hf; lia|]); simpl.
  - destruct (R_end s HR) as (r & s' & Hr & Hrun & Hv & HR'). apply wp_bind, (wp_eq _ _ _ _ Hrun).
    rewrite (proj2 (Z.ltb_lt _ _)) by done. apply wp_ret. rewrite Hv. split; [done|].
    specialize (HR' (view con s')). by rewrite over_view in HR'.
  - destruct (R_next s c cs HR) as (Hc & s' & Hrun & Hv & HR'). apply wp_bind, (wp_eq _ _ _ _ Hrun).
    rewrite (proj2 (Z.ltb_ge _ _)) by done. apply wp_bind, wp_zoom. rewrite Hv.
    cbn [keys] in HQ. apply wp_bind in HQ. eapply wp_mono; [exact HQ|]. intros [] x Hx.
    apply IH; [apply HR'|simpl in Hf; lia|]. by rewrite view_over.
Qed.

Lemma consoleintr_of_run cs fuel s (Q : console → Prop) :
  R s cs → (length cs < fuel)%nat → in_lock (view con s) = false →
  wp (consoleintr procdump reboot cs) (λ _, Q) (view con s) →
  wp (consoleintr_of con procdump reboot getc fuel) (λ _ s', Q (view con s') ∧ R s' []) s.
Proof.
  intros HR Hf Hl HQ. unfold consoleintr_of. unfold consoleintr in HQ.
  apply wp_bind in HQ. apply wp_acquire in HQ; [|done]. apply wp_bind in HQ.
  apply wp_bind, wp_zoom, wp_acquire; [done|]. apply wp_bind.
  eapply wp_mono; [apply (getc_loop_run cs fuel _ (λ c, wp (release input_lock) (λ _, Q) c))|].
  - by apply R_over.
  - done.
  - rewrite view_over. eapply wp_mono; [exact HQ|]. by intros [] c Hc.
  - intros [] s' [HQ' HR']. apply wp_zoom. eapply wp_mono; [exact HQ'|].
    intros [] c Hc. rewrite view_over. split; [done|]. by apply R_over.
Qed.
End loop.

#[global] Instance kc_cons_laws {D} : LensLaws (@kc_cons_lens D).
Proof. split; [done|by intros []|done]. Qed.

Section keyboard.
Context {D : Type} `{HK : Keyboard D} (procdump reboot : M console unit).

(** The scan codes that are pending give the characters [cs]. *)
Definition kbd_source (s : kbdcons D) (cs : list Z) : Prop :=
  Forall in_range (pending (kb_ctl (kc_kbd s))) ∧
  ∃ sh, scan (kb_shift (kc_kbd s)) (pending (kb_ctl (kc_kbd s))) = Some (cs, sh).

Lemma io_status (k : kbd D) :
  ∃ st d, io_in ctl_lens KBSTATP k = Ok st (Kbd (kb_shift k) d) ∧ pending d = pending (kb_ctl k) ∧
    (Z.land st KBS_DIB =? 0) = bool_decide (pending (kb_ctl k) = []).
Proof.
  destruct (kb_status (kb_ctl k)) as [H1 H2]. unfold io_in. simpl.
  destruct (inb KBSTATP (kb_ctl k)) as [st d]. by exists st, d.
Qed.

Lemma kbdgetc_run k x r :
  pending (kb_ctl k) = x :: r → ∃ d, pending d = r ∧ kbdgetc k = kbd_code x (Kbd (kb_shift k) d).
Proof.
  intros Hp. destruct (io_status k) as (st & d & Hrun & Hd & Hst). rewrite Hp in Hst.
  unfold kbdgetc. rewrite (bind_run _ _ _ _ _ Hrun), Hst, bool_decide_false by done.
  destruct (kb_data d x r) as [Hx Hr]; [congruence|].
  unfold mbind, M_bind, io_in. simpl. destruct (inb KBDATAP d) as [v d']. simpl in *. subst v.
  by exists d'.
Qed.

Lemma kbd_source_next s c cs :
  kbd_source s (c :: cs) →
  0 ≤ c ∧ ∃ s', zoom kc_kbd_lens kbdgetc s = Ok c s' ∧ kc_cons s' = kc_cons s ∧
    ∀ x, kbd_source (over kc_cons_lens x s') cs.
Proof.
  intros [Hr [sh Hs]]. destruct (pending (kb_ctl (kc_kbd s))) as [|x r] eqn:Hp; [done|].
  apply list.Forall_cons in Hr as [Hx Hr]. simpl in Hs.
  destruct (kbd_code_total (kb_shift (kc_kbd s)) x Hx) as (c' & sh1 & Hk & Hc). rewrite Hk in Hs. simpl in Hs.
  destruct (scan sh1 r) as [[cs' sh2]|] eqn:E; [|done]. injection Hs as -> -> ->. split; [lia|].
  destruct (kbdgetc_run (kc_kbd s) x r Hp) as (d & Hd & Hrun).
  rewrite kbd_code_state, Hk in Hrun. unfold zoom. simpl. rewrite Hrun. eexists. split; [done|].
  split; [done|]. intros x'. split; simpl; rewrite Hd; [done|]. by exists sh.
Qed.

Lemma kbd_source_end s :
  kbd_source s [] →
  ∃ r s', r < 0 ∧ zoom kc_kbd_lens kbdgetc s = Ok r s' ∧ kc_cons s' = kc_cons s ∧
    ∀ x, kbd_source (over kc_cons_lens x s') [].
Proof.
  intros [Hr [sh Hs]]. destruct (pending (kb_ctl (kc_kbd s))) as [|x r] eqn:Hp.
  2: { apply list.Forall_cons in Hr as [Hx _]. simpl in Hs.
       destruct (kbd_code_total (kb_shift (kc_kbd s)) x Hx) as (c' & sh1 & Hk & _). rewrite Hk in Hs. simpl in Hs.
       destruct (scan sh1 r) as [[??]|]; done. }
  destruct (io_status (kc_kbd s)) as (st & d & Hrun & Hd & Hst). rewrite Hp in Hst, Hd.
  unfold zoom, kbdgetc. simpl. rewrite (bind_run _ _ _ _ _ Hrun), Hst, bool_decide_true by done.
  eexists (-1), _. split; [lia|]. split; [done|]. split; [done|].
  intros x. split; simpl; rewrite Hd; [done|]. by exists (kb_shift (kc_kbd s)).
Qed.

(** kbdintr is consoleintr on the characters of the scan codes. *)
Lemma kbdintr_run cs fuel s (Q : console → Prop) :
  kbd_source s cs → (length cs < fuel)%nat → in_lock (kc_cons s) = false →
  wp (consoleintr procdump reboot cs) (λ _, Q) (kc_cons s) →
  wp (kbdintr procdump reboot fuel) (λ _ s', Q (kc_cons s') ∧ kbd_source s' []) s.
Proof.
  apply (consoleintr_of_run kc_cons_lens procdump reboot _ kbd_source).
  - apply kbd_source_next.
  - apply kbd_source_end.
  - done.
Qed.
End keyboard.

(** * Typing *)

(** The rows of a US keyboard, as the IBM PC numbers its keys (scan code set 1): the code of the first key of
    a row, what is printed on its keys, and what the keys give with shift. *)
Definition us_layout : list (Z * list Z * list Z) :=
  [(0x02, chars "1234567890-=", chars "!@#$%^&*()_+");
   (0x10, chars "qwertyuiop[]", chars "QWERTYUIOP{}");
   (0x1C, [10], []);
   (0x1E, chars "asdfghjkl;'`", chars "ASDFGHJKL:" ++ [34] ++ chars "~");
   (0x2B, chars "\zxcvbnm,./", chars "|ZXCVBNM<>?");
   (0x39, chars " ", [])].

(** The key of a character, and whether it needs shift. *)
Fixpoint key_of (c : Z) (rows : list (Z * list Z * list Z)) : option (Z * bool) :=
  match rows with
  | [] => None
  | (first, low, high) :: rows =>
      match list_find (eq c) low, list_find (eq c) high with
      | Some (i, _), _ => Some (first + Z.of_nat i, false)
      | None, Some (i, _) => Some (first + Z.of_nat i, true)
      | None, None => key_of c rows
      end
  end.

(** The scan codes of pressing and releasing the key of a character, with the left shift key if the
    character needs it. *)
Definition press (c : Z) : list Z :=
  match key_of c us_layout with
  | Some (k, false) => [k; k + 0x80]
  | Some (k, true) => [0x2A; k; k + 0x80; 0xAA]
  | None => []
  end.

(** No modifier is held and caps lock is off; num lock and scroll lock may be on. *)
Definition no_modifiers (sh : Z) : Prop := sh ∈ [0; NUMLOCK; SCROLLLOCK; Z.lor NUMLOCK SCROLLLOCK].
Definition typeable (c : Z) : Prop := c = 10 ∨ printable c.
(** a character that has no special meaning for consoleintr *)
Definition plain (c : Z) : Prop := 0 ≤ c < 256 ∧ c ≠ Ctrl 90 ∧ c ≠ Ctrl 80.

Definition press_check (sh c : Z) : bool :=
  match scan sh (press c) with
  | Some (cs, sh') =>
      (sh' =? sh) && bool_decide (filter (λ x, x ≠ 0) cs = [c]) &&
      bool_decide (Forall (λ x, x = 0 ∨ x = c) cs) && bool_decide (Forall (λ x, x ∈ seqZ 0 256) (press c))
  | None => false
  end.

Lemma press_checked :
  forallb (λ sh, forallb (press_check sh) (10 :: seqZ 32 95))
    [0; NUMLOCK; SCROLLLOCK; Z.lor NUMLOCK SCROLLLOCK] = true.
Proof. vm_compute. reflexivity. Qed.

Lemma press_scan sh c :
  no_modifiers sh → typeable c →
  Forall in_range (press c) ∧
  ∃ cs, scan sh (press c) = Some (cs, sh) ∧ filter (λ x, x ≠ 0) cs = [c] ∧ Forall plain cs.
Proof.
  intros Hsh Hc. pose proof press_checked as H. rewrite forallb_forall in H.
  specialize (H sh). rewrite <- list_elem_of_In in H. specialize (H Hsh). rewrite forallb_forall in H.
  specialize (H c). rewrite <- list_elem_of_In in H.
  assert (c ∈ 10 :: seqZ 32 95) as Hin.
  { destruct Hc as [->|Hc]; [left|right]. apply elem_of_seqZ. unfold printable in Hc. lia. }
  specialize (H Hin). unfold press_check in H. destruct (scan sh (press c)) as [[cs sh']|]; [|done].
  rewrite !andb_true_iff, !bool_decide_eq_true in H. destruct H as [[[E1%Z.eqb_eq E2] E3] E4]. subst sh'.
  split.
  - eapply list.Forall_impl; [exact E4|]. intros x Hx%elem_of_seqZ. unfold in_range. lia.
  - exists cs. split; [done|]. split; [done|]. eapply list.Forall_impl; [exact E3|].
    unfold plain, Ctrl. destruct Hc as [->|Hc]; [|unfold printable in Hc]; intros x [-> | ->]; lia.
Qed.

Lemma text_scan sh text :
  no_modifiers sh → Forall typeable text →
  Forall in_range (concat (press <$> text)) ∧
  ∃ cs, scan sh (concat (press <$> text)) = Some (cs, sh) ∧ filter (λ x, x ≠ 0) cs = text ∧ Forall plain cs.
Proof.
  intros Hsh Ht. induction Ht as [|c text Hc _ (IH1 & cs & IH2 & IH3 & IH4)]; cbn [fmap list_fmap concat].
  - split; [constructor|]. exists []. by split_and!; [| |constructor].
  - destruct (press_scan sh c Hsh Hc) as (H1 & cs1 & H2 & H3 & H4). split; [by apply Forall_app|].
    exists (cs1 ++ cs). split; [by apply (scan_app _ _ _ _ sh)|]. rewrite list.filter_app, H3, IH3.
    split; [done|]. by apply Forall_app.
Qed.

Lemma scan_length sh codes cs sh' : scan sh codes = Some (cs, sh') → length cs = length codes.
Proof.
  revert sh cs. induction codes as [|x codes IH]; intros sh cs; simpl; [by intros [= <- <-]|].
  destruct (kbd_code x (Kbd sh tt)) as [c k| |]; [|done..].
  destruct (scan (kb_shift k) codes) as [[cs1 sh1]|] eqn:E; [|done]. simpl. intros [= <- <-].
  simpl. f_equal. by apply (IH (kb_shift k)).
Qed.

Lemma line_key_zeros qe cs : foldl line_key qe cs = foldl line_key qe (filter (λ x, x ≠ 0) cs).
Proof.
  revert qe. induction cs as [|c cs IH]; intros [q ed]; [done|]. rewrite filter_cons. simpl foldl at 1.
  destruct (decide (c = 0)) as [->|Hc].
  - rewrite decide_False by tauto. by rewrite <- IH.
  - rewrite decide_True by done. simpl. apply IH.
Qed.

(** C35. What is typed on the keyboard is read from the console: when nothing is pending and no
    modifier is on, the interrupt for the scan codes that a US keyboard sends for a line of fewer than 126 printable
    characters and the enter key, with the shift key for those that need it, lets the next
    sufficiently long read of the console return that line with a newline. *)
Theorem keyboard_reads_typed_line `{Keyboard D} procdump reboot fuel kl chan ip n text (s : kbdcons D) :
  pending (kb_ctl (kc_kbd s)) = concat (press <$> text ++ [10]) → no_modifiers (kb_shift (kc_kbd s)) →
  input_is (kc_cons s) [] [] → console_ok (kc_cons s) → in_lock (kc_cons s) = false →
  Forall printable text → (length text < 126)%nat → Z.of_nat (length text) < n →
  (length (pending (kb_ctl (kc_kbd s))) < fuel)%nat →
  wp (kbdintr procdump reboot fuel;;
      consoleread kc_cons_lens (λ _, mret tt) (λ _, mret tt) kl chan ip n)
    (λ r s', r = Returns (Z.of_nat (length text) + 1, text ++ [10]) ∧
             input_is (kc_cons s') [] []) s.
Proof.
  intros Hp Hsh Hi Hk Hl Ht Hlen Hn Hf.
  destruct (text_scan (kb_shift (kc_kbd s)) (text ++ [10]) Hsh) as (Hr & cs & Hs & Hz & Hpl).
  { apply Forall_app. split; [|by repeat constructor]. eapply list.Forall_impl; [exact Ht|]. by right. }
  rewrite <- Hp in Hr, Hs. apply wp_bind. eapply wp_mono.
  { apply (kbdintr_run _ _ cs _ _ (λ c, input_is c (text ++ [10]) [] ∧ in_lock c = false)); [by split; [|eexists]| |done|].
    - by rewrite (scan_length _ _ _ _ Hs).
    - eapply wp_mono; [apply (consoleintr_run procdump reboot cs (kc_cons s) [] [] Hi Hk Hl)|].
      { eapply list.Forall_impl; [exact Hpl|]. intros c (?&?&?). by apply plain_key. }
      rewrite line_key_zeros, Hz, foldl_app, type_text by (simpl; (done || lia)). cbn [foldl app].
      assert (line_key ([], text) 10 = (text ++ [10], [])) as ->.
      { unfold line_key, line_char. simpl. by rewrite bool_decide_false by lia. }
      intros [] c (Hi1&_&El&_). injection El as El _. rewrite Hl in El. done. }
  intros [] s1 [[Hi1 El] _]. by apply (consoleread_entered kc_cons_lens).
Qed.


(** * The serial line *)

#[global] Instance uc_cons_laws {D} : LensLaws (@uc_cons_lens D).
Proof. split; [done|by intros []|done]. Qed.

Section serial.
Context {D : Type} `{HS : Serial D} (procdump reboot : M console unit).

Definition working (u : uart D) : Prop := ua_present u ≠ 0 ∧ configured (ua_port u).

Lemma uart_wait_run n u :
  working u → ∃ u', uart_wait n u = Ok tt u' ∧ working u' ∧
    sent (ua_port u') = sent (ua_port u) ∧ received (ua_port u') = received (ua_port u).
Proof.
  revert u. induction n as [|n IH]; intros u Hu; cbn [uart_wait]; [by exists u|].
  destruct Hu as [Hp Hc]. destruct (ser_status (ua_port u) Hc) as (H1 & H2 & H3 & _).
  unfold mbind, M_bind, io_in. simpl in *. destruct (inb (COM1 + 5) (ua_port u)) as [st d]. simpl in *.
  destruct (negb _).
  - by exists (Uart (ua_present u) d).
  - destruct (IH (Uart (ua_present u) d)) as (u' & Hrun & Hw & Hs & Hr); [done|].
    exists u'. rewrite Hrun. simpl in *. split_and!; [done|done|congruence|congruence].
Qed.

(** uartputc sends its character, however long the port stays busy: as the console takes it to. *)
Theorem uartputs_sends cs u :
  working u → ∃ u', uartputs cs u = Ok tt u' ∧ working u' ∧
    sent (ua_port u') = sent (ua_port u) ++ (wrap 8 <$> cs).
Proof.
  revert u. induction cs as [|c cs IH]; intros u Hu; cbn [uartputs].
  { exists u. rewrite app_nil_r. done. }
  destruct (uart_wait_run 128 u Hu) as (u1 & Hrun & [Hp Hc] & Hs & _).
  destruct (ser_write (ua_port u1) (u8 c) Hc) as (H1 & H2 & _).
  assert (uartputc c u = Ok tt (Uart (ua_present u1) (outb (COM1 + 0) (u8 c) (ua_port u1)))) as Hput.
  { unfold uartputc. rewrite (bind_run _ _ _ (ua_present u) u) by done.
    destruct Hu as [Hne _]. rewrite (proj2 (Z.eqb_neq _ _)) by done.
    by rewrite (bind_run _ _ _ _ _ Hrun). }
  destruct (IH (Uart (ua_present u1) (outb (COM1 + 0) (u8 c) (ua_port u1)))) as (u' & Hr' & Hw' & Hs'); [done|].
  exists u'. rewrite (bind_run _ _ _ _ _ Hput). split; [done|]. split; [done|].
  rewrite Hs'. simpl in *. rewrite H2, Hs, <- app_assoc. done.
Qed.

(** The received bytes [cs]. *)
Definition uart_source (s : uartcons D) (cs : list Z) : Prop :=
  working (uc_uart s) ∧ received (ua_port (uc_uart s)) = cs ∧ Forall in_range cs.

Lemma uartgetc_run u :
  working u →
  ∃ u', working u' ∧ received (ua_port u') = tail (received (ua_port u)) ∧
    uartgetc u = Ok (default (-1) (head (received (ua_port u)))) u'.
Proof.
  intros [Hp Hc]. destruct (ser_status (ua_port u) Hc) as (H1 & H2 & H3 & H4).
  unfold uartgetc. rewrite (bind_run _ _ _ (ua_present u) u) by done.
  rewrite (proj2 (Z.eqb_neq _ _)) by done. unfold mbind, M_bind, io_in. simpl in *.
  destruct (inb (COM1 + 5) (ua_port u)) as [st d]. simpl in *. rewrite H4.
  destruct (received (ua_port u)) as [|x r] eqn:Hr.
  - rewrite bool_decide_true by done. exists (Uart (ua_present u) d). simpl. by rewrite H3.
  - rewrite bool_decide_false by done. destruct (ser_read d x r H1) as (E1 & E2 & E3 & _); [congruence|].
    simpl in *. destruct (inb (COM1 + 0) d) as [v d']. simpl in *. subst v.
    by exists (Uart (ua_present u) d').
Qed.

(** uartintr is consoleintr on the bytes received. *)
Theorem uartintr_run cs fuel s (Q : console → Prop) :
  uart_source s cs → (length cs < fuel)%nat → in_lock (uc_cons s) = false →
  wp (consoleintr procdump reboot cs) (λ _, Q) (uc_cons s) →
  wp (uartintr procdump reboot fuel) (λ _ s', Q (uc_cons s') ∧ uart_source s' []) s.
Proof.
  apply (consoleintr_of_run uc_cons_lens procdump reboot _ uart_source).
  - intros s1 c cs1 (Hw & Hr & Hb). apply list.Forall_cons in Hb as [Hc Hb].
    destruct (uartgetc_run (uc_uart s1) Hw) as (u' & Hw' & Hr' & Hrun). rewrite Hr in *. simpl in *.
    split; [unfold in_range in Hc; lia|]. unfold zoom. simpl. rewrite Hrun. eexists. by split_and!.
  - intros s1 (Hw & Hr & _). destruct (uartgetc_run (uc_uart s1) Hw) as (u' & Hw' & Hr' & Hrun).
    rewrite Hr in *. simpl in *. unfold zoom. simpl. rewrite Hrun. eexists _, _.
    split; [|split; [reflexivity|]]; [lia|]. by split_and!.
  - done.
Qed.
End serial.

(** * Examples *)

(** A keyboard controller is a queue of scan codes. *)
#[global] Instance fifo_ports : Ports (list Z) := {
  inb port l :=
    if port =? KBSTATP then (if decide (l = []) then 0 else 1, l) else (default 0 (head l), tail l);
  outb _ _ l := l;
  insl _ _ l := ([], l);
  outsl _ _ l := l;
}.
#[global] Instance fifo_keyboard : Keyboard (list Z).
Proof.
  refine {| pending l := l |}.
  - intros l. simpl. split; [done|]. destruct l; done.
  - intros l x r ->. done.
Defined.

(** "Hi!" and enter *)
Lemma keyboard_reads_typed_line_witness :
  wp (kbdintr (mret tt) (mret tt) 20;;
      consoleread kc_cons_lens (λ _, mret tt) (λ _, mret tt) (λ _, false) 7 1 100)
    (λ r s', r = Returns (4, [72; 105; 33; 10]) ∧ input_is (kc_cons s') [] [])
    (KbdCons (Kbd 0 [0x2A; 0x23; 0xA3; 0xAA; 0x17; 0x97; 0x2A; 0x02; 0x82; 0xAA; 0x1C; 0x9C]) blank).
Proof.
  apply (keyboard_reads_typed_line (mret tt) (mret tt) 20 (λ _, false) 7 1 100 [72; 105; 33]
    (KbdCons (Kbd 0 [0x2A; 0x23; 0xA3; 0xAA; 0x17; 0x97; 0x2A; 0x02; 0x82; 0xAA; 0x1C; 0x9C]) blank)).
  - vm_compute. reflexivity.
  - by left.
  - exact blank_input.
  - exact blank_ok.
  - reflexivity.
  - by repeat constructor.
  - simpl. lia.
  - simpl. lia.
  - simpl. lia.
Defined.

(** Caps lock, then h and shift-i: Hi *)
Lemma caps_lock_swaps_case :
  scan 0 [0x3A; 0xBA; 0x23; 0xA3; 0x2A; 0x17; 0x97; 0xAA] = Some ([0; 0; 72; 0; 0; 105; 0; 0], CAPSLOCK).
Proof. vm_compute. reflexivity. Qed.
