(* ===== verification/Procdump.v ===== *)
(** The listing of the processes (procdump of src/proc.c), which the console prints for control-P: what it
    writes, and what it takes for the call stack of a process that sleeps. *)

From S2P Require Import Prelude Bytes Mem Spinlock Proc Ulib Console.

Section code.
(** the buffer of cprintf, the words of kernel memory, and the rbp in the saved context of each process *)
Context (junk : list Z) (load : Z → Z) (context_rbp : nat → Z).

Definition state_name (st : procstate) : list Z :=
  chars match st with
        | UNUSED => "unused" | EMBRYO => "embryo" | SLEEPING => "sleep " | RUNNABLE => "runble"
        | RUNNING => "run   " | ZOMBIE => "zombie"
        end.

(** for(i=0; i<10 && pc[i] != 0; i++) *)
Fixpoint print_pcs (pc : list Z) : M console unit :=
  match pc with
  | [] => mret tt
  | a :: pc => if a =? 0 then mret tt else cprintf junk (Some (chars " %p")) [AInt a];; print_pcs pc
  end.

(** the pointer arithmetic is in words: +2 adds sixteen *)
Definition stack_pcs (i : nat) : list Z := getstackpcs 10 load (u64 (context_rbp i + 2 * 8)).

Definition dump_proc (i : nat) (p : proc) : M console unit :=
  if decide (p_state p = UNUSED) then mret tt else
  cprintf junk (Some (chars "%d %s %s"))
    [AInt (p_pid p); AStr (Some (state_name (p_state p))); AStr (Some (until_null (p_name p)))];;
  when (bool_decide (p_state p = SLEEPING)) (print_pcs (stack_pcs i));;
  cprintf junk (Some [10]) [].

Fixpoint dump_from (i : nat) (ps : list proc) : M console unit :=
  match ps with [] => mret tt | p :: ps => dump_proc i p;; dump_from (S i) ps end.
Definition procdump (pt : ptable) : M console unit := dump_from 0 (pt_proc pt).

(** * What is printed *)

Fixpoint pcs_text (pc : list Z) : list Z :=
  match pc with
  | [] => []
  | a :: pc => if a =? 0 then [] else [32] ++ hexadecimal 16 (u64 a) ++ pcs_text pc
  end.
Definition proc_line (i : nat) (p : proc) : list Z :=
  if decide (p_state p = UNUSED) then [] else
  decimal (s32 (p_pid p)) ++ [32] ++ state_name (p_state p) ++ [32] ++ until_null (p_name p) ++
  (if decide (p_state p = SLEEPING) then pcs_text (stack_pcs i) else []) ++ [10].
Fixpoint listing (i : nat) (ps : list proc) : list Z :=
  match ps with [] => [] | p :: ps => proc_line i p ++ listing (S i) ps end.

Hypothesis Hjunk : length junk = 16%nat.

(** The console can print: it is not frozen, and nobody holds its lock. *)
Definition can_print (s : console) : Prop := screen_ok s ∧ cn_panicked s = false ∧ cn_lock s = false.

(** [m] prints [bs]. *)
Definition prints (m : M console unit) (bs : list Z) : Prop :=
  ∀ s, can_print s → wp m (λ _ s', out_step (concat (uart_bytes <$> bs)) s s') s.

Lemma out_step_can_print bs s s' : can_print s → out_step bs s s' → can_print s'.
Proof. intros (_ & Hp & Hl) (Hs & _ & E). rewrite E in *. by split. Qed.

Lemma prints_nothing : prints (mret tt) [].
Proof. intros s (Hs & _). apply wp_ret. split_and!; [done|by rewrite app_nil_r|by destruct s]. Qed.

Lemma prints_seq m1 m2 b1 b2 : prints m1 b1 → prints m2 b2 → prints (m1;; m2) (b1 ++ b2).
Proof.
  intros H1 H2 s Hs. apply wp_bind. eapply wp_mono; [by apply H1|]. intros [] s1 Ho1.
  eapply wp_mono; [by apply H2, (out_step_can_print _ _ _ Hs Ho1)|]. intros [] s2 (Hs2 & Hser2 & E2).
  destruct Ho1 as (_ & Hser1 & E1). split_and!; [done| |].
  - by rewrite fmap_app, concat_app, Hser2, Hser1, app_assoc.
  - rewrite E2 at 1. by rewrite E1.
Qed.

Lemma prints_cprintf fmt ap bs : formatted false fmt ap = Some bs → prints (cprintf junk (Some fmt) ap) bs.
Proof. intros E s (Hs & Hp & Hl). by apply cprintf_prints. Qed.

Lemma prints_pcs pc : prints (print_pcs pc) (pcs_text pc).
Proof.
  induction pc as [|a pc IH]; cbn [print_pcs pcs_text]; [apply prints_nothing|].
  destruct (a =? 0); [apply prints_nothing|]. rewrite app_assoc. apply prints_seq; [|done].
  apply prints_cprintf. change (chars " %p") with [32; 37; 112]. cbn -[hexadecimal]. by rewrite app_nil_r.
Qed.

Lemma prints_proc i p : prints (dump_proc i p) (proc_line i p).
Proof.
  unfold dump_proc, proc_line. destruct (decide (p_state p = UNUSED)); [apply prints_nothing|].
  set (name := until_null _). set (calls := if decide _ then _ else _).
  replace (decimal _ ++ _) with ((decimal (s32 (p_pid p)) ++ [32] ++ state_name (p_state p) ++ [32] ++ name) ++
    calls ++ [10]) by by rewrite <- !app_assoc.
  apply prints_seq; [|apply prints_seq; [|by apply prints_cprintf]].
  - apply prints_cprintf. change (chars "%d %s %s") with [37; 100; 32; 37; 115; 32; 37; 115].
    cbn -[decimal state_name]. by rewrite app_nil_r.
  - unfold calls. destruct (decide (p_state p = SLEEPING)); [rewrite bool_decide_true by done; apply prints_pcs|].
    rewrite bool_decide_false by done. apply prints_nothing.
Qed.

Lemma prints_from i ps : prints (dump_from i ps) (listing i ps).
Proof.
  revert i. induction ps as [|p ps IH]; intros i; cbn [dump_from listing]; [apply prints_nothing|].
  apply prints_seq; [apply prints_proc|done].
Qed.

(** Control-P lists the processes: the interrupt handler of the console prints a line for each slot of the process
    table that is in use, with pid, state and name, and neither the line that is being edited nor the lock of the
    console is touched. *)
Theorem control_p_lists reboot pt s :
  can_print s → in_lock s = false →
  wp (consoleintr (procdump pt) reboot [Ctrl 80]) (λ _ s',
    out_step (concat (uart_bytes <$> listing 0 (pt_proc pt))) s s') s.
Proof.
  intros (Hs & Hp & Hc) Hl. apply wp_bind, wp_acquire; [done|]. apply wp_bind, wp_bind.
  change (key (procdump pt) reboot (Ctrl 80)) with (procdump pt).
  eapply wp_mono; [apply (prints_from 0); split_and!; [by destruct Hs; split|done|done]|].
  intros [] s1 (Hs1 & Hser & E). apply wp_ret, wp_release; [by rewrite E|].
  split_and!; [by destruct Hs1; split|done|]. rewrite E. destruct s; simpl in *; by subst.
Qed.
Lemma procdump_quiet pt : quiet false (procdump pt).
Proof.
  intros s q ed Hi [Hs Hp] Hl. eapply wp_mono; [by apply prints_from|]. intros [] s' (Hs' & _ & E).
  rewrite E in Hs' |- *. split_and!; [destruct Hi; by split|by split|done|done|done].
Qed.

(** C34. The console edits lines.  The ring buffer with its three wrapping indices implements the line editor the
    user expects: for any keys, the characters ready to be read and the line being edited after
    consoleintr are those of the editor (control-U clears the line, backspace takes
    its last character, never one that was entered before; carriage return, control-D or a full buffer enter it; further
    characters are dropped while 128 are pending; control-P lists the processes and control-Z loads an empty table of
    interrupt handlers, which leaves memory alone), a sleeping reader is woken if
    there is more to read, and no lock is held. *)
Theorem consoleintr_refines_editor reboot pt cs s q ed :
  (∀ s, reboot s = Ok tt s) →
  input_is s q ed → console_ok s → in_lock s = false → cn_lock s = false → Forall (λ c, 0 ≤ c < 256) cs →
  wp (consoleintr (procdump pt) reboot cs) (λ _ s',
    input_is s' (foldl line_key (q, ed) cs).1 (foldl line_key (q, ed) cs).2 ∧ console_ok s' ∧
    in_lock s' = false ∧ cn_lock s' = false ∧
    ((foldl line_key (q, ed) cs).1 ≠ q → in_wakes s < in_wakes s')%nat) s.
Proof.
  intros Hr Hi Hk Hl Hc Hcs. eapply wp_mono; [apply (consoleintr_run _ _ cs s q ed); [done..|]|].
  - rewrite Hc. eapply list.Forall_impl; [exact Hcs|]. intros c Hrange. split; [done|]. split; intros _; [|apply procdump_quiet].
    intros s1 q1 ed1 Hi1 Hk1 _. eapply wp_eq; [apply Hr|]. by split_and!.
  - intros [] s' (Hi'&Hk'&El&Hw). injection El as E1 E2. rewrite Hl in E1. rewrite Hc in E2. by split_and!.
Qed.
End code.

(** * Examples *)

Definition ex_proc (st : procstate) (pid : Z) (name : string) : proc :=
  Proc 0 0 0 st pid None zero_tf 0 0 false [] None (chars name ++ [0]).
Definition ex_ptable : ptable :=
  Ptable false [ex_proc RUNNING 1 "init"; ex_proc UNUSED 0 ""; ex_proc ZOMBIE 12 "sh"] 13 (Some 0%nat).
Definition ex_console : console :=
  Console false true false [] 0 0 (replicate 2000 0) false (replicate 128 0) 0 0 0 0.

Lemma control_p_lists_witness :
  wp (consoleintr (procdump (replicate 16 0) (λ _, 0) (λ _, 0) ex_ptable) (mret tt) [Ctrl 80]) (λ _ s',
    out_step (concat (uart_bytes <$> chars "1 run    init" ++ [10] ++ chars "12 zombie sh" ++ [10])) ex_console s') ex_console.
Proof.
  apply (control_p_lists (replicate 16 0) (λ _, 0) (λ _, 0) eq_refl (mret tt) ex_ptable ex_console); [|done].
  split_and!; [|done|done]. split; [by simpl|simpl; lia..|vm_compute; split; congruence].
Defined.

(** "ax", backspace, control-P, "b", control-Z, return *)
Lemma consoleintr_refines_editor_witness :
  wp (consoleintr (procdump (replicate 16 0) (λ _, 0) (λ _, 0) ex_ptable) (mret tt) [97; 120; 8; 16; 98; 26; 13])
    (λ _ s', input_is s' [97; 98; 10] [] ∧ (0 < in_wakes s')%nat) blank.
Proof.
  eapply wp_mono; [apply (consoleintr_refines_editor (replicate 16 0) (λ _, 0) (λ _, 0) eq_refl (mret tt) ex_ptable
    [97; 120; 8; 16; 98; 26; 13] blank [] [] (λ c : console, eq_refl (Ok tt c)) blank_input blank_ok eq_refl eq_refl)|].
  - apply (bool_decide_unpack _). vm_compute. reflexivity.
  - intros [] s' (Hi&_&_&_&Hw). split; [exact Hi|]. apply Hw. discriminate.
Defined.

(** The call stack is not the one of the process: a frame holds the rbp of its caller and then the return address, and
    getstackpcs expects the address of a frame, but procdump adds two words to it.  In this memory the context
    points to a frame whose chain has the return addresses 0xffff800000104000 and 0xffff800000104100;
    the listing shows instead the word that lies three words above the frame, here 5. *)
Definition ex_frame : Z := KERNBASE + 0x5000.
Definition ex_load (a : Z) : Z :=
  default 0 ((list_to_map [(ex_frame, ex_frame + 0x40); (ex_frame + 8, KERNBASE + 0x104000);
    (ex_frame + 16, 7); (ex_frame + 24, 5);
    (ex_frame + 0x40, 0); (ex_frame + 0x48, KERNBASE + 0x104100)] : gmap Z Z) !! a).

Theorem procdump_wrong_frame :
  getcallerpcs ex_load ex_frame = [KERNBASE + 0x104000; KERNBASE + 0x104100] ++ replicate 8 0 ∧
  stack_pcs ex_load (λ _, ex_frame) 0 = [5] ++ replicate 9 0.
Proof. split; vm_compute; reflexivity. Qed.
