(* ===== verification/Mp.v ===== *)
(** The discovery of the processors (src/mp.c, src/mp.h) and the number of a processor (cpunum of
    src/lapic.c).

    The firmware leaves tables in memory: a floating structure that points to a configuration table with
    an entry for each processor, bus and interrupt controller.  [mem] is
    the physical memory as bytes; pointers are kernel addresses of the direct map.  The state is the
    variables of mp.c with the console to which cprintf writes and the devices behind ports and
    mapped registers.  The theorem is the round trip: mpinit reads from a table what the table encodes, and each
    processor listed then finds its own index. *)

From S2P Require Import Prelude Bytes Layout Mem Ports Ulib Console.

(** Registers mapped into memory: 32-bit words at a kernel address. *)
Class Mmio (D : Type) := {
  mmio_read : Z → D → Z * D;
  mmio_write : Z → Z → D → D;
}.

(** [cpus] has the apicid of each struct cpu; [warned] is the static variable of cpunum. *)
Record platform (D : Type) := Platform {
  cpus : list Z;
  ncpu : Z;
  ioapicid : Z;
  lapic : Z;
  warned : Z;
  cons : console;
  dev : D;
}.
Arguments Platform {D}.
Arguments cpus {D}.
Arguments ncpu {D}.
Arguments ioapicid {D}.
Arguments lapic {D}.
Arguments warned {D}.
Arguments cons {D}.
Arguments dev {D}.

Definition MPPROC : Z := 0.
Definition MPBUS : Z := 1.
Definition MPIOAPIC : Z := 2.
Definition MPIOINTR : Z := 3.
Definition MPLINTR : Z := 4.

(** The sizes of struct mp, struct mpconf, struct mpproc and struct mpioapic. *)
Definition MP_SIZE : Z := 16.
Definition MPCONF_SIZE : Z := 44.
Definition MPPROC_SIZE : Z := 20.
Definition MPIOAPIC_SIZE : Z := 8.

(** * Reading the tables *)

Section tables.
Context (mem : Z → Z).

Definition byte_at (v : Z) : Z := mem (V2P v).
Definition bytes_at (v : Z) (n : nat) : list Z := byte_at <$> seqZ v (Z.of_nat n).
Definition field (n : nat) (v : Z) : Z := le_dec (bytes_at v n).

Fixpoint sum_loop (n : nat) (addr acc : Z) : Z :=
  match n with O => acc | S n => sum_loop n (addr + 1) (acc + byte_at addr) end.
Definition sum (addr len : Z) : Z := u8 (sum_loop (Z.to_nat len) addr 0).

(** memcmp(p, s, 4) == 0 *)
Definition signed (p : Z) (s : string) : bool := bool_decide (bytes_at p 4 = chars s).

Fixpoint mpsearch1_loop (n : nat) (p e : Z) : option Z :=
  match n with
  | O => None
  | S n =>
      if p <? e then
        if signed p "_MP_" && (sum p MP_SIZE =? 0) then Some p else mpsearch1_loop n (p + MP_SIZE) e
      else None
  end.
Definition mpsearch1 (a len : Z) : option Z :=
  let addr := P2V a in
  mpsearch1_loop (S (Z.to_nat (len / MP_SIZE))) addr (addr + len).

Definition mpsearch : option Z :=
  let bda := P2V 0x400 in
  let p := u32 (Z.shiftl (Z.lor (Z.shiftl (byte_at (bda + 0x0F)) 8) (byte_at (bda + 0x0E))) 4) in
  let found :=
    if negb (p =? 0) then mpsearch1 p 1024
    else
      let p := u32 (Z.lor (Z.shiftl (byte_at (bda + 0x14)) 8) (byte_at (bda + 0x13)) * 1024) in
      mpsearch1 (u32 (p - 1024)) 1024 in
  match found with Some mp => Some mp | None => mpsearch1 0xF0000 0x10000 end.

(** the fields of struct mp and of struct mpconf that the code reads *)
Definition mp_physaddr (mp : Z) : Z := field 4 (mp + 4).
Definition mp_imcrp (mp : Z) : Z := byte_at (mp + 12).
Definition conf_length (conf : Z) : Z := field 2 (conf + 4).
Definition conf_version (conf : Z) : Z := byte_at (conf + 6).
Definition conf_lapicaddr (conf : Z) : Z := field 4 (conf + 36).

(** the floating structure and the configuration table *)
Definition mpconfig : option (Z * Z) :=
  match mpsearch with
  | None => None
  | Some mp =>
      if mp_physaddr mp =? 0 then None else
      let conf := P2V (mp_physaddr mp) in
      if negb (signed conf "PCMP") then None else
      if negb (conf_version conf =? 1) && negb (conf_version conf =? 4) then None else
      if negb (sum conf (conf_length conf) =? 0) then None else
      Some (mp, conf)
  end.
End tables.

(** * mpinit and cpunum *)

Section code.
Context {D : Type} `{Ports D} `{Mmio D}.
Context (mem : Z → Z).
(** the buffer of print_d before it is filled *)
Context (junk : list Z).
Notation MP := (M (platform D)).

Definition set_cpus (c : list Z) (n : Z) (s : platform D) : platform D :=
  Platform c n (ioapicid s) (lapic s) (warned s) (cons s) (dev s).
Definition set_ioapicid (i : Z) (s : platform D) : platform D :=
  Platform (cpus s) (ncpu s) i (lapic s) (warned s) (cons s) (dev s).
Definition set_lapic (l : Z) (s : platform D) : platform D :=
  Platform (cpus s) (ncpu s) (ioapicid s) l (warned s) (cons s) (dev s).
Definition set_warned (n : Z) (s : platform D) : platform D :=
  Platform (cpus s) (ncpu s) (ioapicid s) (lapic s) n (cons s) (dev s).
Definition set_cons (c : console) (s : platform D) : platform D :=
  Platform (cpus s) (ncpu s) (ioapicid s) (lapic s) (warned s) c (dev s).
Definition set_dev (d : D) (s : platform D) : platform D :=
  Platform (cpus s) (ncpu s) (ioapicid s) (lapic s) (warned s) (cons s) d.

Definition dev_lens : lens (platform D) D := Lens dev set_dev.
Definition con_lens : lens (platform D) console := Lens cons set_cons.
Definition say (fmt : list Z) (ap : list arg) : MP unit := zoom con_lens (cprintf junk (Some fmt) ap).
Definition mapped (addr : Z) : MP Z := λ s,
  let '(v, d) := mmio_read addr (dev s) in Ok v (set_dev d s).

(** the case MPPROC *)
Definition add_cpu (p : Z) : MP unit :=
  n ← gets ncpu;
  when (n <? NCPU)
    (modify (λ s, set_cpus (<[Z.to_nat n := byte_at mem (p + 1)]> (cpus s)) (n + 1) s)).

Fixpoint mpinit_loop (n : nat) (p e : Z) : MP unit :=
  if negb (p <? e) then mret tt else
  match n with
  | O => out_of_fuel
  | S n =>
      let t := byte_at mem p in
      if t =? MPPROC then add_cpu p;; mpinit_loop n (p + MPPROC_SIZE) e
      else if t =? MPIOAPIC then
        modify (set_ioapicid (byte_at mem (p + 1)));;
        mpinit_loop n (p + MPIOAPIC_SIZE) e
      else if (t =? MPBUS) || (t =? MPIOINTR) || (t =? MPLINTR) then mpinit_loop n (p + 8) e
      else panic "Major problem parsing mp config."
  end.

Definition mpinit : MP unit :=
  match mpconfig mem with
  | None => say (chars "No other CPUs found." ++ [10]) []
  | Some (mp, conf) =>
      let len := conf_length mem conf in
      modify (set_lapic (P2V (conf_lapicaddr mem conf)));;
      mpinit_loop (Z.to_nat len) (conf + MPCONF_SIZE) (conf + len);;
      n ← gets ncpu;
      say (chars "Seems we are SMP, ncpu = %d" ++ [10]) [AInt n];;
      when (negb (mp_imcrp mem mp =? 0))
        (io_out dev_lens 0x22 0x70;;
         v ← io_in dev_lens 0x23;
         io_out dev_lens 0x23 (Z.lor v 1))
  end.

Definition ID : Z := 0x0020 / 4.

Fixpoint find_cpu (n : nat) (i apicid : Z) (ids : list Z) : MP Z :=
  match n with
  | O => panic "unknown apicid"
  | S n =>
      id ← the "cpus" (ids !! Z.to_nat i);
      if id =? apicid then mret i else find_cpu n (i + 1) apicid ids
  end.

(** [eflags] is what readeflags returns and [ret] the return address. *)
Definition cpunum (eflags ret : Z) : MP Z :=
  when (negb (Z.land eflags FL_IF =? 0))
    (n ← gets warned;
     modify (set_warned (s32 (n + 1)));;
     when (n =? 0) (say (chars "cpu called from %x with interrupts enabled" ++ [10]) [AInt ret]));;
  l ← gets lapic;
  if l =? 0 then mret 0 else
  v ← mapped (l + 4 * ID);
  s ← gets id;
  find_cpu (Z.to_nat (ncpu s)) 0 (Z.shiftr v 24) (cpus s).
End code.

(** * What a table encodes *)

(** The entries; [rest] are the bytes that the kernel does not read. *)
Inductive entry :=
| Processor (apicid : Z) (rest : list Z)
| Bus (rest : list Z)
| IoApic (id : Z) (rest : list Z)
| IoIntr (rest : list Z)
| LocalIntr (rest : list Z).

Definition encode (e : entry) : list Z :=
  match e with
  | Processor apicid rest => MPPROC :: apicid :: rest
  | Bus rest => MPBUS :: rest
  | IoApic id rest => MPIOAPIC :: id :: rest
  | IoIntr rest => MPIOINTR :: rest
  | LocalIntr rest => MPLINTR :: rest
  end.
Definition entry_ok (e : entry) : Prop :=
  length (encode e) = match e with Processor _ _ => 20%nat | _ => 8%nat end.

Definition apicids : list entry → list Z := omap (λ e, match e with Processor i _ => Some i | _ => None end).
Definition ioapics : list entry → list Z := omap (λ e, match e with IoApic i _ => Some i | _ => None end).

(** A table that mpconfig accepts: a header and the entries. *)
Record table_ok (hdr : list Z) (es : list entry) : Prop := {
  to_header : length hdr = Z.to_nat MPCONF_SIZE;
  to_bytes : bytes hdr;
  to_entries : Forall entry_ok es;
  to_signature : take 4 hdr = chars "PCMP";
  to_length : get_le 2 4 hdr = Z.of_nat (length (hdr ++ concat (encode <$> es)));
  to_version : hdr !! 6%nat = Some 1 ∨ hdr !! 6%nat = Some 4;
  to_sum : u8 (foldr Z.add 0 (hdr ++ concat (encode <$> es))) = 0;
}.

Section read.
Context (mem : Z → Z).
Implicit Types t : list Z.

(** [t] is in memory at [v]. *)
Definition at_ (v : Z) (t : list Z) : Prop := bytes_at mem v (length t) = t.

Lemma bytes_at_lookup v n i : (i < n)%nat → bytes_at mem v n !! i = Some (byte_at mem (v + Z.of_nat i)).
Proof. intros Hi. unfold bytes_at. rewrite list_lookup_fmap, lookup_seqZ_lt by lia. done. Qed.

Lemma at_lookup v t i b : at_ v t → t !! i = Some b → byte_at mem (v + Z.of_nat i) = b.
Proof.
  intros Ht Hi. pose proof (lookup_lt_Some _ _ _ Hi) as Hl. rewrite <- Ht, bytes_at_lookup in Hi by done. congruence.
Qed.

Lemma bytes_at_sub v t i n : at_ v t → (i + n ≤ length t)%nat → bytes_at mem (v + Z.of_nat i) n = sub i n t.
Proof.
  intros Ht Hn. apply list_eq. intros j. rewrite lookup_sub. case_decide as Hj.
  - rewrite bytes_at_lookup by done. destruct (lookup_lt_is_Some_2 t (i + j) ltac:(lia)) as [b Hb].
    rewrite Hb, <- (at_lookup v t _ b Ht Hb). f_equal. f_equal. lia.
  - apply lookup_ge_None_2. unfold bytes_at. rewrite length_fmap, length_seqZ. lia.
Qed.

Lemma at_app v t1 t2 : at_ v (t1 ++ t2) ↔ at_ v t1 ∧ at_ (v + Z.of_nat (length t1)) t2.
Proof.
  unfold at_, bytes_at. rewrite length_app, Nat2Z.inj_add, seqZ_app, fmap_app by lia.
  split; [|intros [-> ->]; done]. intros E. apply app_inj_1 in E; [done|].
  rewrite length_fmap, length_seqZ. lia.
Qed.

Lemma sum_loop_at v t acc : at_ v t → sum_loop mem (length t) v acc = acc + foldr Z.add 0 t.
Proof.
  revert v acc. induction t as [|b t IH]; intros v acc Ht; simpl; [lia|].
  apply (at_app v [b] t) in Ht as [Hb Ht]. rewrite IH by done.
  rewrite <- (at_lookup v [b] 0 b Hb eq_refl), Z.add_0_r. lia.
Qed.

(** The sum of int does not overflow: a table has at most 65535 bytes. *)
Lemma sum_no_overflow n v acc :
  (∀ a, is_byte (mem a)) → 0 ≤ acc → acc + 255 * Z.of_nat n < 2 ^ 31 →
  0 ≤ sum_loop mem n v acc < 2 ^ 31.
Proof.
  intros Hm. revert v acc. induction n as [|n IH]; intros v acc Ha Hn; simpl; [lia|].
  pose proof (Hm (V2P v)) as Hb. unfold is_byte in Hb. apply IH; unfold byte_at; lia.
Qed.

(** mpsearch1 finds the first floating structure of the area on a 16-byte boundary. *)
Definition floating (p : Z) : Prop := signed mem p "_MP_" = true ∧ sum mem p MP_SIZE = 0.

Lemma mpsearch1_loop_spec n p e :
  e ≤ p + 16 * Z.of_nat n →
  match mpsearch1_loop mem n p e with
  | Some q => ∃ k, q = p + 16 * Z.of_nat k ∧ q < e ∧ floating q ∧
      ∀ j, (j < k)%nat → ¬ floating (p + 16 * Z.of_nat j)
  | None => ∀ j, p + 16 * Z.of_nat j < e → ¬ floating (p + 16 * Z.of_nat j)
  end.
Proof.
  revert p. induction n as [|n IH]; intros p He; cbn [mpsearch1_loop]; [intros j; lia|].
  destruct (Z.ltb_spec p e) as [Hp|Hp]; [|intros j; lia].
  destruct (signed mem p "_MP_" && (sum mem p MP_SIZE =? 0)) eqn:E.
  - apply andb_true_iff in E as [? ?%Z.eqb_eq]. exists 0%nat. split_and!; [lia|done|done|intros j; lia].
  - assert (¬ floating p) as Hno.
    { intros [E1 E2]. rewrite E1, E2 in E. done. }
    specialize (IH (p + MP_SIZE) ltac:(unfold MP_SIZE; lia)). unfold MP_SIZE in *.
    assert (∀ j, (p + 16) + 16 * Z.of_nat j = p + 16 * Z.of_nat (S j)) as Hj by lia.
    destruct (mpsearch1_loop mem n (p + 16) e) as [q|].
    + destruct IH as (k & -> & Hlt & Hf & Hall). exists (S k). rewrite Hj in *. split_and!; [done..|].
      intros [|j] Hlt'; [by rewrite Z.add_0_r|]. rewrite <- Hj. apply Hall. lia.
    + intros [|j] Hlt; [by rewrite Z.add_0_r|]. rewrite <- Hj in *. by apply IH.
Qed.

Theorem mpsearch1_first a len :
  0 ≤ len →
  match mpsearch1 mem a len with
  | Some q => ∃ k, q = P2V a + 16 * Z.of_nat k ∧ 16 * Z.of_nat k < len ∧ floating q ∧
      ∀ j, (j < k)%nat → ¬ floating (P2V a + 16 * Z.of_nat j)
  | None => ∀ j, 16 * Z.of_nat j < len → ¬ floating (P2V a + 16 * Z.of_nat j)
  end.
Proof.
  intros Hlen. unfold mpsearch1. cbv zeta. set (n := S _).
  pose proof (mpsearch1_loop_spec n (P2V a) (P2V a + len)) as H.
  destruct (mpsearch1_loop mem n (P2V a) (P2V a + len)) as [q|].
  - destruct H as (k & Hk & Hlt & ?); [|exists k; split_and!; [done|lia|naive_solver..]].
    subst n. pose proof (Z.div_mod len 16 ltac:(lia)). unfold MP_SIZE.
    pose proof (Z.mod_pos_bound len 16 ltac:(lia)). pose proof (Z.div_pos len 16 Hlen ltac:(lia)). lia.
  - intros j Hj. apply H; [|lia]. subst n. pose proof (Z.div_mod len 16 ltac:(lia)). unfold MP_SIZE.
    pose proof (Z.mod_pos_bound len 16 ltac:(lia)). pose proof (Z.div_pos len 16 Hlen ltac:(lia)). lia.
Qed.

(** A well-formed table is accepted. *)
Lemma mpconfig_accepts mp pa hdr es :
  mpsearch mem = Some mp → mp_physaddr mem mp = pa → pa ≠ 0 →
  at_ (P2V pa) (hdr ++ concat (encode <$> es)) → table_ok hdr es →
  mpconfig mem = Some (mp, P2V pa) ∧
  conf_length mem (P2V pa) = Z.of_nat (length (hdr ++ concat (encode <$> es))) ∧
  conf_lapicaddr mem (P2V pa) = get_le 4 36 hdr.
Proof.
  intros Hmp Hpa Hne Hat [Hh _ _ Hsig Hlen Hver Hsum]. change (Z.to_nat MPCONF_SIZE) with 44%nat in Hh.
  pose proof Hat as [Hat0 _]%at_app.
  assert (conf_length mem (P2V pa) = Z.of_nat (length (hdr ++ concat (encode <$> es)))) as El.
  { unfold conf_length, field. rewrite <- Hlen. unfold get_le. f_equal. apply (bytes_at_sub _ _ 4); [done|lia]. }
  split; [|split; [done|]].
  2:{ unfold conf_lapicaddr, field, get_le. f_equal. apply (bytes_at_sub _ _ 36); [done|lia]. }
  unfold mpconfig. rewrite Hmp, Hpa, (proj2 (Z.eqb_neq _ _) Hne). cbv zeta.
  assert (signed mem (P2V pa) "PCMP" = true) as ->.
  { apply bool_decide_eq_true. rewrite <- Hsig, <- (Z.add_0_r (P2V pa)).
    rewrite <- (drop_0 hdr) at 1. apply (bytes_at_sub _ hdr 0); [done|lia]. }
  assert (sum mem (P2V pa) (conf_length mem (P2V pa)) = 0) as ->.
  { unfold sum. rewrite El, Nat2Z.id, sum_loop_at by done. by rewrite Z.add_0_l. }
  unfold conf_version. change 6 with (Z.of_nat 6). by destruct Hver as [Hv|Hv]; rewrite (at_lookup _ _ _ _ Hat0 Hv).
Qed.
End read.

(** * The processors found *)

Section theorems.
Context {D : Type} `{Ports D} `{Mmio D}.
Context (mem : Z → Z) (junk : list Z).
Implicit Types s : platform D.

(** The processors found so far. *)
Definition known (s : platform D) : list Z := take (Z.to_nat (ncpu s)) (cpus s).

Record cpus_ok (s : platform D) : Prop := {
  ck_cpus : length (cpus s) = Z.to_nat NCPU;
  ck_ncpu : 0 ≤ ncpu s ≤ NCPU;
}.

Lemma known_length s : cpus_ok s → length (known s) = Z.to_nat (ncpu s).
Proof. intros [Hc Hn]. unfold known. rewrite length_take. lia. Qed.

(** [s'] is [s] but for the processors and the id of the interrupt controller. *)
Definition entered (s s' : platform D) : Prop :=
  lapic s' = lapic s ∧ warned s' = warned s ∧ cons s' = cons s ∧ dev s' = dev s.

Lemma add_cpu_run p s :
  cpus_ok s →
  ∃ s', add_cpu mem p s = Ok tt s' ∧ cpus_ok s' ∧ entered s s' ∧ ioapicid s' = ioapicid s ∧
    known s' = take (Z.to_nat NCPU) (known s ++ [byte_at mem (p + 1)]).
Proof.
  intros Hk. pose proof (known_length s Hk) as Hlk. destruct Hk as [Hc Hn].
  unfold add_cpu. rewrite (bind_run _ _ s (ncpu s) s) by done.
  destruct (Z.ltb_spec (ncpu s) NCPU) as [Hlt|Hge]; cbn [when]; eexists; (split; [reflexivity|]).
  - split; [split; simpl; [by rewrite length_insert|lia]|]. split; [done|]. split; [done|].
    rewrite take_ge by (rewrite length_app, Hlk; simpl; lia). unfold known. simpl.
    replace (Z.to_nat (ncpu s + 1)) with (S (Z.to_nat (ncpu s))) by lia.
    erewrite take_S_r by (apply list_lookup_insert_eq; lia). by rewrite take_insert_ge by lia.
  - split; [by split|]. split; [done|]. split; [done|].
    rewrite take_app_le, (take_ge (known s)) by (rewrite Hlk; unfold NCPU in *; lia). done.
Qed.

Lemma take_take_app {A} n (l k : list A) : take n (take n l ++ k) = take n (l ++ k).
Proof.
  destruct (decide (length l ≤ n)%nat); [by rewrite (take_ge l)|].
  rewrite !take_app_le by (rewrite ?length_take; lia). rewrite take_take. f_equal. lia.
Qed.

Lemma mpinit_loop_run n p e es s :
  Forall entry_ok es → at_ mem p (concat (encode <$> es)) →
  e = p + Z.of_nat (length (concat (encode <$> es))) → (length (concat (encode <$> es)) ≤ n)%nat → cpus_ok s →
  ∃ s', mpinit_loop mem n p e s = Ok tt s' ∧ cpus_ok s' ∧ entered s s' ∧
    known s' = take (Z.to_nat NCPU) (known s ++ apicids es) ∧
    ioapicid s' = default (ioapicid s) (list.last (ioapics es)).
Proof.
  revert n p s. induction es as [|en es IH]; intros n p s Hes Hat He Hn Hk.
  { exists s. simpl in He. subst e. split; [destruct n; simpl; by rewrite Z.add_0_r, Z.ltb_irrefl|].
    split; [done|]. split; [done|]. split; [|done]. simpl. rewrite app_nil_r, take_ge; [done|].
    rewrite known_length by done. destruct Hk. lia. }
  apply list.Forall_cons in Hes as [Hen Hes]. cbn [fmap list_fmap concat] in Hat, He, Hn.
  rewrite length_app in He, Hn. apply at_app in Hat as [Hat1 Hat2].
  assert (0 < length (encode en))%nat as Hpos by (rewrite Hen; destruct en; lia).
  destruct n as [|n]; [lia|]. cbn [mpinit_loop]. rewrite (proj2 (Z.ltb_lt p e)) by lia. cbn [negb].
  assert (∀ k, length (encode en) = k → ∀ s1, cpus_ok s1 → ∃ s', mpinit_loop mem n (p + Z.of_nat k) e s1 = Ok tt s' ∧
    cpus_ok s' ∧ entered s1 s' ∧ known s' = take (Z.to_nat NCPU) (known s1 ++ apicids es) ∧
    ioapicid s' = default (ioapicid s1) (list.last (ioapics es))) as Hrest.
  { intros k <- s1 Hk1. apply IH; [done|done|lia|lia|done]. }
  assert (∀ i b, encode en !! i = Some b → byte_at mem (p + Z.of_nat i) = b) as Hb by (intros i b; by apply at_lookup).
  assert (∀ b, encode en !! 0%nat = Some b → byte_at mem p = b) as Hb0.
  { intros b Eb. by rewrite <- (Hb 0%nat b Eb), Z.add_0_r. }
  destruct en as [i rest|rest|i rest|rest|rest]; rewrite (Hb0 _ eq_refl); unfold entry_ok in Hen; cbv zeta.
  2, 4, 5: exact (Hrest _ Hen s Hk).
  - destruct (add_cpu_run p s Hk) as (s1 & Hrun & Hk1 & Hent & Hio & Hkn). change (MPPROC =? MPPROC) with true. cbv iota.
    rewrite (bind_run _ _ _ _ _ Hrun). destruct (Hrest _ Hen s1 Hk1) as (s' & Hrun' & Hk' & Hent' & Hkn' & Hio').
    exists s'. split; [done|]. split; [done|]. split; [unfold entered in *; naive_solver congruence|].
    rewrite Hkn', Hkn, take_take_app, <- app_assoc, (Hb 1%nat i eq_refl : byte_at mem (p + 1) = i). split; [done|].
    by rewrite Hio', Hio.
  - change (MPIOAPIC =? MPPROC) with false. change (MPIOAPIC =? MPIOAPIC) with true. cbv iota.
    rewrite (bind_run _ _ s tt (set_ioapicid (byte_at mem (p + 1)) s)) by done.
    destruct (Hrest _ Hen (set_ioapicid (byte_at mem (p + 1)) s)) as (s' & Hrun' & Hk' & Hent' & Hkn' & Hio').
    { by destruct Hk. }
    exists s'. split; [done|]. split; [done|]. split; [done|]. split; [done|]. rewrite Hio'. simpl.
    rewrite (Hb 1%nat i eq_refl : byte_at mem (p + 1) = i). rewrite list.last_cons. by destruct (list.last (ioapics es)).
Qed.

(** cpunum finds the first processor with the id. *)
Lemma find_cpu_run n i apicid ids k s :
  ids !! (i + k)%nat = Some apicid → (∀ j, (j < k)%nat → ids !! (i + j)%nat ≠ Some apicid) →
  (k < n)%nat → find_cpu n (Z.of_nat i) apicid ids s = Ok (Z.of_nat (i + k)) s.
Proof.
  revert i k. induction n as [|n IH]; intros i k Hk Hall Hn; [lia|]. cbn [find_cpu]. rewrite Nat2Z.id.
  destruct (lookup_lt_is_Some_2 ids i) as [x Hx]; [apply lookup_lt_Some in Hk; lia|].
  rewrite Hx. erewrite bind_run by reflexivity. destruct k as [|k].
  - rewrite Nat.add_0_r in Hk |- *. assert (x = apicid) as -> by congruence. by rewrite Z.eqb_refl.
  - destruct (Z.eqb_spec x apicid) as [->|Hne].
    { destruct (Hall 0%nat ltac:(lia)). by rewrite Nat.add_0_r. }
    replace (Z.of_nat i + 1) with (Z.of_nat (S i)) by lia. rewrite (IH (S i) k); [do 2 f_equal; lia| | |lia].
    + by rewrite Nat.add_succ_r in Hk.
    + intros j Hj. specialize (Hall (S j) ltac:(lia)). by rewrite Nat.add_succ_r in Hall.
Qed.

Lemma cpunum_run eflags ret i id s :
  cpus_ok s → NoDup (known s) → known s !! i = Some id → lapic s ≠ 0 → 
  Z.shiftr (mmio_read (lapic s + 4 * ID) (dev s)).1 24 = id → Z.land eflags FL_IF = 0 →
  cpunum junk eflags ret s = Ok (Z.of_nat i) (set_dev (mmio_read (lapic s + 4 * ID) (dev s)).2 s).
Proof.
  intros Hk Hnd Hi Hl Hid Hif. pose proof (known_length s Hk) as Hlen. unfold cpunum. rewrite Hif. cbn [Z.eqb negb when].
  rewrite (bind_run _ _ s tt s), (bind_run _ _ s (lapic s) s), (proj2 (Z.eqb_neq _ _) Hl) by done.
  unfold mapped, mbind, M_bind. destruct (mmio_read _ (dev s)) as [v d]. simpl in Hid |- *. subst id.
  apply (find_cpu_run _ 0 _ _ i).
  - unfold known in Hi. apply lookup_take_Some in Hi. apply Hi.
  - intros j Hj E. assert (known s !! j = Some (Z.shiftr v 24)) as E'.
    { unfold known. apply lookup_take_Some. split; [done|]. apply lookup_lt_Some in Hi. lia. }
    pose proof (NoDup_lookup _ _ _ _ Hnd Hi E'). lia.
  - apply lookup_lt_Some in Hi. lia.
Qed.

(** What cprintf needs of the console. *)
Definition console_free (c : console) : Prop := screen_ok c ∧ cn_panicked c = false ∧ cn_lock c = false.

Lemma out_step_free bs c c' : out_step bs c c' → console_free c → console_free c'.
Proof. intros (Hs & _ & E) (_ & Hp & Hl). split; [done|]. by rewrite E. Qed.

Hypothesis (Hjunk : length junk = 16%nat).

Lemma say_run fmt ap bs s :
  formatted false fmt ap = Some bs → console_free (cons s) →
  ∃ c, say junk fmt ap s = Ok tt (set_cons c s) ∧ out_step (concat (uart_bytes <$> bs)) (cons s) c.
Proof.
  intros E (Hs & Hp & Hl). pose proof (cprintf_prints junk fmt ap bs (cons s) Hjunk E Hs Hp Hl) as H1.
  unfold say, zoom. simpl. unfold wp in H1. destruct (cprintf junk (Some fmt) ap (cons s)) as [[] c| |]; [|done..].
  by exists c.
Qed.

(** The message of mpinit. *)
Definition smp_message (n : Z) : list Z := chars "Seems we are SMP, ncpu = " ++ decimal (s32 n) ++ [10].

Lemma mpinit_run mp pa hdr es s :
  mpsearch mem = Some mp → mp_physaddr mem mp = pa → pa ≠ 0 →
  at_ mem (P2V pa) (hdr ++ concat (encode <$> es)) → table_ok hdr es →
  cpus_ok s → console_free (cons s) →
  ∃ s', mpinit mem junk s = Ok tt s' ∧ cpus_ok s' ∧
    known s' = take (Z.to_nat NCPU) (known s ++ apicids es) ∧
    ioapicid s' = default (ioapicid s) (list.last (ioapics es)) ∧
    lapic s' = P2V (get_le 4 36 hdr) ∧ warned s' = warned s ∧
    out_step (concat (uart_bytes <$> smp_message (ncpu s'))) (cons s) (cons s').
Proof.
  intros Hmp Hpa Hne Hat Hok Hk Hc.
  destruct (mpconfig_accepts mem mp pa hdr es Hmp Hpa Hne Hat Hok) as (Hconf & Hlen & Hla).
  unfold mpinit. rewrite Hconf. cbv zeta. rewrite Hlen, Hla. set (l := P2V (get_le 4 36 hdr)).
  rewrite (bind_run _ _ s tt (set_lapic l s)) by done.
  apply at_app in Hat as [_ Hat]. rewrite (to_header _ _ Hok) in Hat. rewrite length_app, (to_header _ _ Hok).
  destruct (mpinit_loop_run (Z.to_nat (Z.of_nat (Z.to_nat MPCONF_SIZE + length (concat (encode <$> es)))))
    (P2V pa + MPCONF_SIZE) (P2V pa + Z.of_nat (Z.to_nat MPCONF_SIZE + length (concat (encode <$> es)))) es (set_lapic l s))
    as (s1 & Hrun & Hk1 & (El & Ew & Ec & _) & Hkn & Hio);
    [apply Hok|done|unfold MPCONF_SIZE; lia|lia|by destruct Hk|].
  rewrite (bind_run _ _ _ _ _ Hrun), (bind_run _ _ s1 (ncpu s1) s1) by done.
  destruct (say_run (chars "Seems we are SMP, ncpu = %d" ++ [10]) [AInt (ncpu s1)] (smp_message (ncpu s1)) s1)
    as (c & Hsay & Hout); [done|by rewrite Ec|].
  rewrite (bind_run _ _ _ _ _ Hsay).
  assert (∃ d, when (negb (mp_imcrp mem mp =? 0)) (io_out dev_lens 0x22 0x70;; v ← io_in dev_lens 0x23;
    io_out dev_lens 0x23 (Z.lor v 1)) (set_cons c s1) = Ok tt (set_dev d (set_cons c s1))) as [d Hd].
  { destruct (mp_imcrp mem mp =? 0); [by exists (dev s1)|]. cbn [negb when].
    erewrite bind_run by reflexivity. unfold io_in, mbind, M_bind. simpl.
    destruct (inb 35 _) as [v d]. eexists. reflexivity. }
  rewrite Hd. eexists. split; [reflexivity|]. rewrite Ec in Hout. 
  split; [by destruct Hk1|]. by repeat (split; [done|]).
Qed.

(** C19. mpinit reads what the firmware wrote: when a floating structure is found and points to a well-formed table,
    mpinit comes to an end without a panic and has found the processors of the table, in order and at most NCPU, the last
    interrupt controller and the address of the local one.  A processor that is listed, with an id that no other has,
    then gets its own index from cpunum. *)
Theorem mpinit_reads_table mp pa hdr es s :
  mpsearch mem = Some mp → mp_physaddr mem mp = pa → pa ≠ 0 →
  at_ mem (P2V pa) (hdr ++ concat (encode <$> es)) → table_ok hdr es →
  length (cpus s) = Z.to_nat NCPU → ncpu s = 0 → console_free (cons s) →
  ∃ s', mpinit mem junk s = Ok tt s' ∧
    ncpu s' = Z.min NCPU (Z.of_nat (length (apicids es))) ∧
    known s' = take (Z.to_nat NCPU) (apicids es) ∧
    ioapicid s' = default (ioapicid s) (list.last (ioapics es)) ∧
    lapic s' = P2V (get_le 4 36 hdr) ∧
    (NoDup (apicids es) → ∀ i id d eflags ret, known s' !! i = Some id →
       Z.shiftr (mmio_read (lapic s' + 4 * ID) d).1 24 = id → Z.land eflags FL_IF = 0 →
       ∃ s'', cpunum junk eflags ret (set_dev d s') = Ok (Z.of_nat i) s'').
Proof.
  intros Hmp Hpa Hne Hat Hok Hc Hn Hfree.
  assert (cpus_ok s) as Hk by (split; [done|unfold NCPU; lia]).
  destruct (mpinit_run mp pa hdr es s Hmp Hpa Hne Hat Hok Hk Hfree) as (s' & Hrun & Hk' & Hkn & Hio & Hl & _).
  assert (known s = []) as E0 by (unfold known; by rewrite Hn). rewrite E0, app_nil_l in Hkn.
  exists s'. split; [done|]. split.
  { pose proof (known_length s' Hk') as Hlen. rewrite Hkn, length_take in Hlen. destruct Hk'. lia. }
  split; [done|]. split; [done|]. split; [done|]. intros Hnd i id d eflags ret Hi Hid Hif.
  eexists. apply (cpunum_run _ _ _ id); [by destruct Hk'| |done| |done|done].
  - change (NoDup (known s')). rewrite Hkn. eapply sublist_NoDup; [done|apply sublist_take].
  - simpl. rewrite Hl. assert (0 ≤ get_le 4 36 hdr < 256 ^ Z.of_nat 4) as Hr.
    { apply get_le_range; [apply Hok|rewrite (to_header _ _ Hok); change (Z.to_nat MPCONF_SIZE) with 44%nat; lia]. }
    unfold P2V, wrap, KERNBASE. rewrite Z.mod_small; lia.
Qed.

(** Whatever the memory holds, mpinit ends: it returns with at most NCPU processors, or panics on an entry of an
    unknown type. *)
Lemma mpinit_loop_total n p e s :
  (Z.to_nat (e - p) ≤ n)%nat → cpus_ok s →
  match mpinit_loop mem n p e s with
  | Ok _ s' => cpus_ok s' ∧ cons s' = cons s
  | Sleep _ _ => False
  | Fail f => f = Panic "Major problem parsing mp config."
  end.
Proof.
  revert p s. induction n as [|n IH]; intros p s Hn Hk; cbn [mpinit_loop].
  { by rewrite (proj2 (Z.ltb_ge p e)) by lia. }
  destruct (Z.ltb_spec p e) as [Hp|Hp]; [|done]. cbn [negb]. cbv zeta.
  destruct (byte_at mem p =? MPPROC).
  { destruct (add_cpu_run p s Hk) as (s1 & Hrun & Hk1 & (_ & _ & Ec & _) & _). rewrite (bind_run _ _ _ _ _ Hrun), <- Ec.
    apply IH; [unfold MPPROC_SIZE; lia|done]. }
  destruct (byte_at mem p =? MPIOAPIC).
  { rewrite (bind_run _ _ s tt (set_ioapicid (byte_at mem (p + 1)) s)) by done.
    apply (IH (p + MPIOAPIC_SIZE) (set_ioapicid _ s)); [unfold MPIOAPIC_SIZE; lia|by destruct Hk]. }
  destruct (_ || _); [|done]. apply IH; [lia|done].
Qed.

Theorem mpinit_total s :
  cpus_ok s → console_free (cons s) →
  match mpinit mem junk s with
  | Ok _ s' => cpus_ok s'
  | Sleep _ _ => False
  | Fail f => f = Panic "Major problem parsing mp config."
  end.
Proof.
  intros Hk Hc. unfold mpinit. destruct (mpconfig mem) as [[mp conf]|].
  2:{ destruct (say_run (chars "No other CPUs found." ++ [10]) [] (chars "No other CPUs found." ++ [10]) s)
        as (c & -> & _); [done|done|by destruct Hk]. }
  cbv zeta. set (l := P2V _). rewrite (bind_run _ _ s tt (set_lapic l s)) by done.
  pose proof (mpinit_loop_total (Z.to_nat (conf_length mem conf)) (conf + MPCONF_SIZE)
    (conf + conf_length mem conf) (set_lapic l s)) as Hloop.
  unfold mbind at 1, M_bind at 1. destruct (mpinit_loop mem _ _ _ (set_lapic l s)) as [[] s1| |];
    [|apply Hloop; [unfold MPCONF_SIZE; lia|by destruct Hk]..].
  destruct Hloop as [Hk1 Ec]; [unfold MPCONF_SIZE; lia|by destruct Hk|].
  rewrite (bind_run _ _ s1 (ncpu s1) s1) by done.
  destruct (say_run (chars "Seems we are SMP, ncpu = %d" ++ [10]) [AInt (ncpu s1)] (smp_message (ncpu s1)) s1)
    as (c & Hsay & _); [done|by rewrite Ec|].
  rewrite (bind_run _ _ _ _ _ Hsay).
  destruct (mp_imcrp mem mp =? 0); [by destruct Hk1|]. cbn [negb when].
  erewrite bind_run by reflexivity. unfold io_in, mbind, M_bind. simpl. destruct (inb 35 _). by destruct Hk1.
Qed.
End theorems.

(** * Examples *)

(** A local interrupt controller that shows its id, and no other device. *)
Record chip := Chip { chip_id : Z }.
#[global] Instance chip_ports : Ports chip := {
  inb _ d := (0, d); outb _ _ d := d; insl _ _ d := ([], d); outsl _ _ d := d;
}.
#[global] Instance chip_mmio : Mmio chip := {
  mmio_read _ d := (Z.shiftl (chip_id d) 24, d); mmio_write _ _ d := d;
}.

(** Processors with the ids 0 and 2, a bus, an interrupt controller with the id 5 and an interrupt. *)
Definition ex_entries : list entry :=
  [Processor 0 (replicate 18 0); Bus (replicate 7 1); Processor 2 (replicate 18 0);
   IoApic 5 (replicate 6 0); IoIntr (replicate 7 3)].
Definition ex_header (checksum : Z) : list Z :=
  chars "PCMP" ++ le_enc 2 (44 + 20 + 8 + 20 + 8 + 8) ++ [4; checksum] ++ replicate 20 32 ++ replicate 6 0 ++
  le_enc 2 5 ++ le_enc 4 0xFEE00000 ++ replicate 4 0.
Definition ex_checksum : Z := u8 (- foldr Z.add 0 (ex_header 0 ++ concat (encode <$> ex_entries))).
Definition ex_table : list Z := ex_header ex_checksum ++ concat (encode <$> ex_entries).
(** The floating structure is at 0xF0010 and the table at 0xF0100. *)
Definition ex_floating : list Z := chars "_MP_" ++ le_enc 4 0xF0100 ++ [1; 4; 16; 0; 128; 0; 0; 0].
Definition ex_mem (a : Z) : Z :=
  if (0xF0010 <=? a) && (a <? 0xF0020) then default 0 (ex_floating !! Z.to_nat (a - 0xF0010))
  else if (0xF0100 <=? a) && (a <? 0xF0200) then default 0 (ex_table !! Z.to_nat (a - 0xF0100)) else 0.
Definition ex_platform : platform chip := Platform (replicate 8 0) 0 0 0 0 blank (Chip 0).

Lemma ex_found : mpsearch ex_mem = Some (P2V 0xF0010).
Proof. vm_compute. reflexivity. Qed.

Lemma ex_table_ok : table_ok (ex_header ex_checksum) ex_entries.
Proof.
  split; [done|by repeat constructor|by repeat constructor|done|done|by right|vm_compute; reflexivity].
Qed.

Lemma mpinit_reads_table_witness :
  ∃ s', mpinit ex_mem (replicate 16 0) ex_platform = Ok tt s' ∧
    ncpu s' = 2 ∧ known s' = [0; 2] ∧ ioapicid s' = 5 ∧ lapic s' = P2V 0xFEE00000 ∧
    ∃ s'', cpunum (replicate 16 0) 0 0 (set_dev (Chip 2) s') = Ok 1 s''.
Proof.
  destruct (mpinit_reads_table ex_mem (replicate 16 0) eq_refl (P2V 0xF0010) 0xF0100 (ex_header ex_checksum) ex_entries
    ex_platform) as (s' & Hrun & Hn & Hk & Hio & Hl & Hcpu);
    [exact ex_found|vm_compute; reflexivity|done|unfold at_; vm_compute; reflexivity|exact ex_table_ok
    |reflexivity|reflexivity|split; [apply blank_ok|done]|].
  exists s'. split; [exact Hrun|]. split; [rewrite Hn; reflexivity|]. split; [rewrite Hk; reflexivity|].
  split; [rewrite Hio; reflexivity|]. split; [rewrite Hl; vm_compute; reflexivity|].
  apply (Hcpu ltac:(by apply (bool_decide_unpack _); vm_compute) 1%nat 2);
    [rewrite Hk; reflexivity|reflexivity|reflexivity].
Defined.
