(* ===== verification/Apic.v ===== *)
(** The interrupt controllers and the clock (src/lapic.c, src/ioapic.c): the local controller of a processor, which also starts the other
    processors, the controller of the device interrupts, and the time kept by the CMOS.

    The controllers are registers mapped into memory, the clock is behind ports; both are devices of the
    platform of Mp.v.  The classes [LocalApic], [IoApic] and [Cmos] state what the code relies on.  The theorems
    are what the devices have been told when the code returns, and that the time read is the time kept. *)

From S2P Require Import Prelude Bytes Layout Mem Ports Ulib Console Mp.

(** Registers of the local controller, as indices of words. *)
Definition VER : Z := 0x0030 / 4.
Definition TPR : Z := 0x0080 / 4.
Definition EOI : Z := 0x00B0 / 4.
Definition SVR : Z := 0x00F0 / 4.
Definition ENABLE : Z := 0x00000100.
Definition ESR : Z := 0x0280 / 4.
Definition ICRLO : Z := 0x0300 / 4.
Definition INIT : Z := 0x00000500.
Definition STARTUP : Z := 0x00000600.
Definition DELIVS : Z := 0x00001000.
Definition ASSERT : Z := 0x00004000.
Definition LEVEL : Z := 0x00008000.
Definition BCAST : Z := 0x00080000.
Definition ICRHI : Z := 0x0310 / 4.
Definition TIMER : Z := 0x0320 / 4.
Definition X1 : Z := 0x0000000B.
Definition PERIODIC : Z := 0x00020000.
Definition PCINT : Z := 0x0340 / 4.
Definition LINT0 : Z := 0x0350 / 4.
Definition LINT1 : Z := 0x0360 / 4.
Definition ERROR : Z := 0x0370 / 4.
Definition MASKED : Z := 0x00010000.
Definition TICR : Z := 0x0380 / 4.
Definition TDCR : Z := 0x03E0 / 4.

Definition CMOS_PORT : Z := 0x70.
Definition CMOS_RETURN : Z := 0x71.
Definition CMOS_STATA : Z := 0x0a.
Definition CMOS_STATB : Z := 0x0b.
Definition CMOS_UIP : Z := Z.shiftl 1 7.

Definition IOAPIC : Z := 0xFEC00000.
Definition REG_ID : Z := 0x00.
Definition REG_VER : Z := 0x01.
Definition REG_TABLE : Z := 0x10.
Definition INT_DISABLED : Z := 0x00010000.

Record rtcdate := Rtcdate { second : Z; minute : Z; hour : Z; day : Z; month : Z; year : Z }.
#[global] Instance rtcdate_eq_dec : EqDecision rtcdate.
Proof. solve_decision. Defined.

(** The platform with the low memory that the code writes: a byte for each physical address. *)
Record smp (D : Type) := Smp { plat : platform D; low : gmap Z Z }.
Arguments Smp {D}.
Arguments plat {D}.
Arguments low {D}.

Section code.
Context {D : Type} `{Ports D} `{Mmio D}.
(** the buffer of cprintf *)
Context (junk : list Z).
Notation MP := (M (platform D)).

Definition map_write (addr v : Z) : MP unit := modify (λ s, set_dev (mmio_write addr (u32 v) (dev s)) s).

(** * The local controller *)

Definition lapicw (index value : Z) : MP unit :=
  l ← gets lapic;
  map_write (l + 4 * index) value;;
  mapped (l + 4 * ID);;
  mret tt.

(** while(lapic[ICRLO] & DELIVS) *)
Fixpoint wait_delivery (fuel : nat) : MP unit :=
  match fuel with
  | O => out_of_fuel
  | S fuel =>
      l ← gets lapic;
      v ← mapped (l + 4 * ICRLO);
      if negb (Z.land v DELIVS =? 0) then wait_delivery fuel else mret tt
  end.

Definition lapicinit (fuel : nat) : MP unit :=
  l ← gets lapic;
  if l =? 0 then mret tt else
  lapicw SVR (Z.lor ENABLE (T_IRQ0 + IRQ_SPURIOUS));;
  lapicw TDCR X1;;
  lapicw TIMER (Z.lor PERIODIC (T_IRQ0 + IRQ_TIMER));;
  lapicw TICR 10000000;;
  lapicw LINT0 MASKED;;
  lapicw LINT1 MASKED;;
  v ← mapped (l + 4 * VER);
  when (4 <=? Z.land (Z.shiftr v 16) 0xFF) (lapicw PCINT MASKED);;
  lapicw ERROR (T_IRQ0 + IRQ_ERROR);;
  lapicw ESR 0;;
  lapicw ESR 0;;
  lapicw EOI 0;;
  lapicw ICRHI 0;;
  lapicw ICRLO (Z.lor (Z.lor BCAST INIT) LEVEL);;
  wait_delivery fuel;;
  lapicw TPR 0.

Definition lapiceoi : MP unit :=
  l ← gets lapic;
  when (negb (l =? 0)) (lapicw EOI 0).

(** microdelay does nothing. *)
Definition microdelay (us : Z) : MP unit := mret tt.

Definition plat_lens : lens (smp D) (platform D) := Lens plat (λ p s, Smp p (low s)).

(** *(ushort* )P2V(pa) = v *)
Definition store16 (pa v : Z) : M (smp D) unit :=
  modify (λ s, Smp (plat s) (<[pa + 1 := u8 (Z.shiftr v 8)]> (<[pa := u8 v]> (low s)))).

Fixpoint send_startup (n : nat) (apicid addr : Z) : MP unit :=
  match n with
  | O => mret tt
  | S n =>
      lapicw ICRHI (Z.shiftl apicid 24);;
      lapicw ICRLO (Z.lor STARTUP (Z.shiftr addr 12));;
      microdelay 200;;
      send_startup n apicid addr
  end.

Definition lapicstartap (apicid addr : Z) : M (smp D) unit :=
  zoom plat_lens (io_out dev_lens CMOS_PORT 0xF;; io_out dev_lens (CMOS_PORT + 1) 0x0A);;
  let wrv := Z.lor (Z.shiftl 0x40 4) 0x67 in
  store16 wrv 0;;
  store16 (wrv + 2) (u16 (Z.shiftr addr 4));;
  zoom plat_lens
    (lapicw ICRHI (Z.shiftl apicid 24);;
     lapicw ICRLO (Z.lor (Z.lor INIT LEVEL) ASSERT);;
     microdelay 200;;
     lapicw ICRLO (Z.lor INIT LEVEL);;
     microdelay 100;;
     send_startup 2 apicid addr).

(** * The clock *)

Definition cmos_read (reg : Z) : MP Z :=
  io_out dev_lens CMOS_PORT reg;;
  microdelay 200;;
  io_in dev_lens CMOS_RETURN.

Definition fill_rtcdate : MP rtcdate :=
  s ← cmos_read 0x00;
  m ← cmos_read 0x02;
  h ← cmos_read 0x04;
  d ← cmos_read 0x07;
  mo ← cmos_read 0x08;
  y ← cmos_read 0x09;
  mret (Rtcdate s m h d mo y).

(** the loop that reads the time until it is stable *)
Fixpoint stable_time (fuel : nat) : MP rtcdate :=
  match fuel with
  | O => out_of_fuel
  | S fuel =>
      t1 ← fill_rtcdate;
      a ← cmos_read CMOS_STATA;
      if negb (Z.land a CMOS_UIP =? 0) then stable_time fuel else
      t2 ← fill_rtcdate;
      if bool_decide (t1 = t2) then mret t1 else stable_time fuel
  end.

Definition CONV (x : Z) : Z := u32 (Z.shiftr x 4 * 10 + Z.land x 0xf).

Definition cmostime (fuel : nat) : MP rtcdate :=
  sb ← cmos_read CMOS_STATB;
  let bcd := Z.land sb (Z.shiftl 1 2) =? 0 in
  t1 ← stable_time fuel;
  let t1 := if bcd then Rtcdate (CONV (second t1)) (CONV (minute t1)) (CONV (hour t1)) (CONV (day t1))
                          (CONV (month t1)) (CONV (year t1)) else t1 in
  mret (Rtcdate (second t1) (minute t1) (hour t1) (day t1) (month t1) (u32 (year t1 + 2000))).

(** * The controller of the devices *)

(** struct ioapic: reg at offset 0 and data at offset 16; [io] is the pointer ioapic. *)
Definition ioapicread (io reg : Z) : MP Z :=
  map_write io reg;;
  mapped (io + 16).
Definition ioapicwrite (io reg data : Z) : MP unit :=
  map_write io reg;;
  map_write (io + 16) data.

(** the entries from [i] on, [n] of them *)
Fixpoint mask_all (n : nat) (io i : Z) : MP unit :=
  match n with
  | O => mret tt
  | S n =>
      ioapicwrite io (REG_TABLE + 2 * i) (Z.lor INT_DISABLED (T_IRQ0 + i));;
      ioapicwrite io (REG_TABLE + 2 * i + 1) 0;;
      mask_all n io (i + 1)
  end.

Definition ioapicinit : MP unit :=
  let io := P2V IOAPIC in
  v ← ioapicread io REG_VER;
  let maxintr := Z.land (Z.shiftr v 16) 0xFF in
  w ← ioapicread io REG_ID;
  ide ← gets ioapicid;
  when (negb (Z.shiftr w 24 =? ide)) (say junk (chars "ioapicinit: id isn't equal to ioapicid; not a MP" ++ [10]) []);;
  mask_all (Z.to_nat (maxintr + 1)) io 0.

Definition ioapicenable (irq cpunum : Z) : MP unit :=
  let io := P2V IOAPIC in
  ioapicwrite io (REG_TABLE + 2 * irq) (T_IRQ0 + irq);;
  ioapicwrite io (REG_TABLE + 2 * irq + 1) (Z.shiftl cpunum 24).
End code.

(** * What the devices promise *)

(** The registers that keep what is written, those that are commands, and the address of the controller. *)
Definition settings : list Z := [TPR; SVR; TIMER; PCINT; LINT0; LINT1; ERROR; TICR; TDCR].

(** [ipis] are the messages sent so far, each the values of the two command registers. *)
Class LocalApic (D : Type) `{Ports D} `{Mmio D} := {
  lapic_base : Z;
  setting : D → Z → Z;
  target : D → Z;
  ipis : D → list (Z * Z);
  (** how often the delivery status is read at most before a message is delivered *)
  deliveries : nat;
  la_read d r : let d' := (mmio_read (lapic_base + 4 * r) d).2 in
    setting d' = setting d ∧ target d' = target d ∧ ipis d' = ipis d;
  la_setting d r v : r ∈ settings → let d' := mmio_write (lapic_base + 4 * r) v d in
    setting d' r = v ∧ (∀ r', r' ≠ r → setting d' r' = setting d r') ∧ target d' = target d ∧ ipis d' = ipis d;
  la_command d r v : r ∈ [EOI; ESR] → let d' := mmio_write (lapic_base + 4 * r) v d in
    setting d' = setting d ∧ target d' = target d ∧ ipis d' = ipis d;
  la_target d v : let d' := mmio_write (lapic_base + 4 * ICRHI) v d in
    setting d' = setting d ∧ target d' = v ∧ ipis d' = ipis d;
  la_send d v : let d' := mmio_write (lapic_base + 4 * ICRLO) v d in
    setting d' = setting d ∧ target d' = target d ∧ ipis d' = ipis d ++ [(target d, v)];
  la_port d p v : let d' := outb p v d in
    setting d' = setting d ∧ target d' = target d ∧ ipis d' = ipis d;
  la_delivered d : ∃ n, (n < deliveries)%nat ∧
    Z.land (mmio_read (lapic_base + 4 * ICRLO) (Nat.iter n (λ d, (mmio_read (lapic_base + 4 * ICRLO) d).2) d)).1 DELIVS = 0;
}.

(** The redirection table: [redir d r] is register [r]; [selected] is the register that data accesses refer to. *)
Class IoApic (D : Type) `{Mmio D} := {
  io_selected : D → Z;
  redir : D → Z → Z;
  io_lines : D → Z;
  io_select d r : let d' := mmio_write (P2V IOAPIC) r d in
    io_selected d' = r ∧ redir d' = redir d ∧ io_lines d' = io_lines d;
  io_data d v : let d' := mmio_write (P2V IOAPIC + 16) v d in
    io_selected d' = io_selected d ∧ io_lines d' = io_lines d ∧
    ∀ r, redir d' r = if decide (r = io_selected d) then v else redir d r;
  io_read d : let '(v, d') := mmio_read (P2V IOAPIC + 16) d in
    (io_selected d = REG_VER → Z.land (Z.shiftr v 16) 0xFF = io_lines d - 1) ∧
    io_selected d' = io_selected d ∧ redir d' = redir d ∧ io_lines d' = io_lines d;
  io_lines_range d : 1 ≤ io_lines d ≤ 256;
}.

(** The registers of the clock.  While the clock changes its time the status says so, for at most [updating] more reads, and the
    registers of the time are not to be relied on; outside of an update they are as they are until the next one. *)
Class Cmos (D : Type) `{Ports D} := {
  cmos_selected : D → Z;
  cmos : D → Z → Z;
  updating : D → nat;
  cm_select d r : let d' := outb CMOS_PORT r d in
    cmos_selected d' = r ∧ cmos d' = cmos d ∧ updating d' = updating d;
  cm_read d : let '(v, d') := inb CMOS_RETURN d in
    cmos_selected d' = cmos_selected d ∧ cmos d' = cmos d ∧
    (cmos_selected d = CMOS_STATA → Z.land v CMOS_UIP ≠ 0 ↔ (0 < updating d)%nat) ∧
    (cmos_selected d ≠ CMOS_STATA → updating d = 0%nat ∨ cmos_selected d = CMOS_STATB → v = cmos d (cmos_selected d)) ∧
    updating d' = (if decide (cmos_selected d = CMOS_STATA) then pred (updating d) else updating d);
}.

(** * The local controller *)

Section local.
Context {D : Type} `{HP : Ports D} `{HM : Mmio D} `{!LocalApic D}.
Implicit Types (s : platform D) (d : D).

(** What a controller has been told: its settings, the target of the next message, and the messages sent. *)
Definition told : Type := (Z → Z) * Z * list (Z * Z).
Definition has_been (x : told) (d : D) : Prop :=
  (∀ r, setting d r = x.1.1 r) ∧ target d = x.1.2 ∧ ipis d = x.2.
Definition tell (r v : Z) (x : told) : told :=
  let '(st, tgt, msgs) := x in
  if (r =? EOI) || (r =? ESR) then x
  else if r =? ICRHI then (st, u32 v, msgs)
  else if r =? ICRLO then (st, tgt, msgs ++ [(tgt, u32 v)])
  else (λ r', if r' =? r then u32 v else st r', tgt, msgs).
Definition registers : list Z := [EOI; ESR; ICRHI; ICRLO] ++ settings.

Lemma write_tells d r v x :
  r ∈ registers → has_been x d → has_been (tell r v x) (mmio_write (lapic_base + 4 * r) (u32 v) d).
Proof.
  intros Hr (Hs & Ht & Hm). destruct x as [[st tgt] msgs]. simpl in Hs, Ht, Hm. unfold tell, registers in *.
  destruct ((r =? EOI) || (r =? ESR)) eqn:E1.
  { destruct (la_command d r (u32 v)) as (E2 & E3 & E4).
    { apply orb_true_iff in E1 as [->%Z.eqb_eq| ->%Z.eqb_eq]; set_solver. }
    unfold has_been. simpl. rewrite E2, E3, E4. done. }
  apply orb_false_iff in E1 as [Hn1%Z.eqb_neq Hn2%Z.eqb_neq]. unfold has_been.
  destruct (Z.eqb_spec r ICRHI) as [->|Hn3].
  { destruct (la_target d (u32 v)) as (E2 & E3 & E4). simpl. rewrite E2, E3, E4. done. }
  destruct (Z.eqb_spec r ICRLO) as [->|Hn4].
  { destruct (la_send d (u32 v)) as (E2 & E3 & E4). simpl. rewrite E2, E3, E4, Ht, Hm. done. }
  destruct (la_setting d r (u32 v)) as (E2 & E3 & E4 & E5); [set_solver|]. simpl. rewrite E4, E5.
  split; [|done]. intros r'. destruct (Z.eqb_spec r' r) as [->|Hne]; [done|]. by rewrite E3.
Qed.

(** [s'] is [s] but for the devices, which have been told [x]. *)
Definition after (x : told) (s s' : platform D) : Prop := s' = set_dev (dev s') s ∧ has_been x (dev s').

Lemma after_lapic x s s' : after x s s' → lapic s' = lapic s.
Proof. by intros [-> _]. Qed.

Lemma mapped_run r x s s0 :
  after x s0 s → lapic s0 = lapic_base →
  ∃ v s', mapped (lapic_base + 4 * r) s = Ok v s' ∧ after x s0 s' ∧
    v = (mmio_read (lapic_base + 4 * r) (dev s)).1 ∧ dev s' = (mmio_read (lapic_base + 4 * r) (dev s)).2.
Proof.
  intros [E Hb] Hl. unfold mapped. destruct (mmio_read (lapic_base + 4 * r) (dev s)) as [v d] eqn:Er.
  exists v, (set_dev d s). split; [done|]. split; [|done]. split; [by rewrite E|]. simpl.
  destruct (la_read (dev s) r) as (E1 & E2 & E3). rewrite Er in E1, E2, E3. simpl in E1, E2, E3.
  unfold has_been. rewrite E1, E2, E3. done.
Qed.

Lemma lapicw_run r v x s s0 :
  r ∈ registers → after x s0 s → lapic s0 = lapic_base →
  ∃ s', lapicw r v s = Ok tt s' ∧ after (tell r v x) s0 s'.
Proof.
  intros Hr Ha Hl. pose proof (after_lapic _ _ _ Ha) as El. rewrite Hl in El. destruct Ha as [E Hb].
  unfold lapicw. rewrite (bind_run _ _ s lapic_base s) by (by rewrite <- El).
  unfold map_write. set (s1 := set_dev (mmio_write (lapic_base + 4 * r) (u32 v) (dev s)) s).
  rewrite (bind_run _ _ s tt s1) by done.
  destruct (mapped_run ID (tell r v x) s1 s0) as (w & s' & Hrun & Ha' & _); [|done|].
  { split; [unfold s1; by rewrite E|]. by apply write_tells. }
  exists s'. by rewrite (bind_run _ _ _ _ _ Hrun).
Qed.

Lemma wait_delivery_run fuel x s s0 :
  after x s0 s → lapic s0 = lapic_base → (deliveries ≤ fuel)%nat →
  ∃ s', wait_delivery fuel s = Ok tt s' ∧ after x s0 s'.
Proof.
  intros Ha Hl Hf. destruct (la_delivered (dev s)) as (n & Hn & Hd).
  assert (n < fuel)%nat as Hlt by lia. clear Hf Hn. revert s fuel Ha Hd Hlt.
  induction n as [|n IH]; intros s [|fuel] Ha Hd Hlt; try lia; cbn [wait_delivery];
    pose proof (after_lapic _ _ _ Ha) as El; rewrite Hl in El;
    rewrite (bind_run _ _ s lapic_base s) by (by rewrite <- El);
    destruct (mapped_run ICRLO x s s0 Ha Hl) as (v & s' & Hrun & Ha' & Ev & Ed); rewrite (bind_run _ _ _ _ _ Hrun).
  - exists s'. rewrite Ev. simpl in Hd. by rewrite Hd.
  - destruct (negb (Z.land v DELIVS =? 0)); [|by exists s'].
    apply IH; [done| |lia]. rewrite Nat.iter_succ_r in Hd. by rewrite Ed.
Qed.

Lemma wp_lapicw r v x s s0 (Q : unit → platform D → Prop) :
  r ∈ registers → after x s0 s → lapic s0 = lapic_base →
  (∀ s', after (tell r v x) s0 s' → Q tt s') → wp (lapicw r v) Q s.
Proof.
  intros Hr Ha Hl HQ. destruct (lapicw_run r v x s s0 Hr Ha Hl) as (s' & Hrun & Ha').
  apply (wp_eq _ _ _ _ Hrun). by apply HQ.
Qed.

(** the controller as it is *)
Definition current (s : platform D) : told := (setting (dev s), target (dev s), ipis (dev s)).
Lemma after_start s : after (current s) s s.
Proof. split; [by destruct s|done]. Qed.

(** What lapicinit tells the controller before it waits; [pc]: whether there is a counter of events. *)
Definition configured (pc : bool) (x : told) : told :=
  let x := tell TDCR X1 (tell SVR (Z.lor ENABLE (T_IRQ0 + IRQ_SPURIOUS)) x) in
  let x := tell TICR 10000000 (tell TIMER (Z.lor PERIODIC (T_IRQ0 + IRQ_TIMER)) x) in
  let x := tell LINT1 MASKED (tell LINT0 MASKED x) in
  let x := if pc then tell PCINT MASKED x else x in
  let x := tell ESR 0 (tell ESR 0 (tell ERROR (T_IRQ0 + IRQ_ERROR) x)) in
  tell ICRLO (Z.lor (Z.lor BCAST INIT) LEVEL) (tell ICRHI 0 (tell EOI 0 x)).

Ltac write_register Hl :=
  apply wp_bind; eapply wp_lapicw; [by apply (bool_decide_unpack _); vm_compute|eassumption|exact Hl|];
  let s' := fresh "s" in let Ha := fresh "Ha" in intros s' Ha.

Lemma lapicinit_run fuel s :
  lapic s = lapic_base → lapic_base ≠ 0 → (deliveries ≤ fuel)%nat →
  wp (lapicinit fuel) (λ _ s', ∃ pc, after (tell TPR 0 (configured pc (current s))) s s') s.
Proof.
  intros Hl Hb Hf. unfold lapicinit. apply wp_bind, wp_gets. rewrite Hl, (proj2 (Z.eqb_neq _ _) Hb).
  pose proof (after_start s) as Ha. do 6 write_register Hl. apply wp_bind.
  destruct (mapped_run VER _ _ s Ha5 Hl) as (v & s6 & Hrun & Ha6 & _). apply (wp_eq _ _ _ _ Hrun).
  set (pc := 4 <=? _). apply wp_bind, wp_when.
  set (x := tell LINT1 _ _) in Ha6.
  assert (wp (lapicw PCINT MASKED) (λ _ s', after (tell PCINT MASKED x) s s') s6) as Hpc.
  { eapply wp_lapicw; [by apply (bool_decide_unpack _); vm_compute|done|done|done]. }
  assert (if pc then wp (lapicw PCINT MASKED) (λ _ s', after (if pc then tell PCINT MASKED x else x) s s') s6
          else after (if pc then tell PCINT MASKED x else x) s s6) as Hpc' by by destruct pc.
  assert (∀ s7, after (if pc then tell PCINT MASKED x else x) s s7 →
    wp (lapicw ERROR (T_IRQ0 + IRQ_ERROR);; lapicw ESR 0;; lapicw ESR 0;; lapicw EOI 0;; lapicw ICRHI 0;;
        lapicw ICRLO (Z.lor (Z.lor BCAST INIT) LEVEL);; wait_delivery fuel;; lapicw TPR 0)
      (λ _ s', ∃ pc, after (tell TPR 0 (configured pc (current s))) s s') s7) as Hrest.
  { intros s7 Ha7. do 6 write_register Hl. apply wp_bind.
    destruct (wait_delivery_run fuel _ _ s Ha13 Hl Hf) as (s14 & Hw & Ha14). apply (wp_eq _ _ _ _ Hw).
    eapply wp_lapicw; [by apply (bool_decide_unpack _); vm_compute|exact Ha14|done|].
    intros s15 Ha15. by exists pc. }
  destruct pc; [|by apply Hrest]. eapply wp_mono; [exact Hpc'|]. intros [] s7 Ha7. by apply Hrest.
Qed.

(** lapicinit comes to an end and leaves the controller enabled with a periodic timer on the vector of the clock
    interrupt, errors on theirs, the lines of the chipset masked and every priority accepted; it sends
    one message, to all controllers. *)
Theorem lapicinit_configures fuel s :
  lapic s = lapic_base → lapic_base ≠ 0 → (deliveries ≤ fuel)%nat →
  ∃ s', lapicinit fuel s = Ok tt s' ∧ s' = set_dev (dev s') s ∧
    setting (dev s') SVR = Z.lor ENABLE (T_IRQ0 + IRQ_SPURIOUS) ∧
    setting (dev s') TIMER = Z.lor PERIODIC (T_IRQ0 + IRQ_TIMER) ∧
    setting (dev s') TDCR = X1 ∧ setting (dev s') TICR = 10000000 ∧
    setting (dev s') LINT0 = MASKED ∧ setting (dev s') LINT1 = MASKED ∧
    setting (dev s') ERROR = T_IRQ0 + IRQ_ERROR ∧ setting (dev s') TPR = 0 ∧
    ipis (dev s') = ipis (dev s) ++ [(0, Z.lor (Z.lor BCAST INIT) LEVEL)].
Proof.
  intros Hl Hb Hf. pose proof (lapicinit_run fuel s Hl Hb Hf) as Hrun. unfold wp in Hrun.
  destruct (lapicinit fuel s) as [[] s'| |]; [|done..]. destruct Hrun as (pc & E & Hs & _ & Hm).
  exists s'. split; [done|]. split; [done|]. rewrite !Hs, Hm. destruct pc; vm_compute; repeat split.
Qed.

Lemma send_startup_run n apicid addr x s s0 :
  after x s0 s → lapic s0 = lapic_base →
  wp (send_startup n apicid addr) (λ _ s', ∃ x',
    after x' s0 s' ∧ x'.1.1 = x.1.1 ∧
    x'.2 = x.2 ++ replicate n (u32 (Z.shiftl apicid 24), u32 (Z.lor STARTUP (Z.shiftr addr 12)))) s.
Proof.
  revert x s. induction n as [|n IH]; intros x s Ha Hl; cbn [send_startup].
  { apply wp_ret. exists x. by rewrite app_nil_r. }
  do 2 write_register Hl. apply wp_bind, wp_ret. eapply wp_mono; [eapply IH; [exact Ha1|done]|].
  intros [] s' (x' & Ha' & E1 & E2). exists x'. destruct x as [[st tgt] msgs]. split; [done|].
  rewrite E1, E2. simpl. by rewrite <- app_assoc.
Qed.

(** the two bytes at a physical address *)
Definition word_at (m : gmap Z Z) (pa : Z) : option Z := lo ← m !! pa; hi ← m !! (pa + 1); Some (lo + 256 * hi).

Lemma wrap_lor_startup p : 0 ≤ p < 2 ^ 8 → u32 (Z.lor STARTUP p) = Z.lor STARTUP p.
Proof.
  intros Hp. apply wrap_small. pose proof (Z.add_lor_land STARTUP p) as E.
  assert (0 ≤ Z.land STARTUP p) by (apply Z.land_nonneg; by left).
  split; [apply Z.lor_nonneg; unfold STARTUP; lia|]. unfold STARTUP in *. lia.
Qed.

(** lapicstartap does what the specification of multiprocessors asks for: the warm reset vector at 40:67 points to the code, and
    the processor is sent the reset, its end, and twice the start with the page of the code. *)
Theorem lapicstartap_starts apicid addr (s : smp D) :
  lapic (plat s) = lapic_base → 0 ≤ apicid < 256 → 0 ≤ addr < 2 ^ 20 → addr mod 2 ^ 12 = 0 →
  ∃ s' : smp D, lapicstartap apicid addr s = Ok tt s' ∧ plat s' = set_dev (dev (plat s')) (plat s) ∧
    word_at (low s') 0x467 = Some 0 ∧ word_at (low s') 0x469 = Some (addr / 16) ∧
    (∀ a, (a < 0x467 ∨ 0x46b ≤ a) → low s' !! a = low s !! a) ∧
    (∀ r, setting (dev (plat s')) r = setting (dev (plat s)) r) ∧
    let to := Z.shiftl apicid 24 in
    ipis (dev (plat s')) = ipis (dev (plat s)) ++
      [(to, Z.lor (Z.lor INIT LEVEL) ASSERT); (to, Z.lor INIT LEVEL);
       (to, Z.lor STARTUP (addr / 2 ^ 12)); (to, Z.lor STARTUP (addr / 2 ^ 12))].
Proof.
  intros Hl Hid Haddr Hal. set (p0 := plat s).
  set (d0 := outb (CMOS_PORT + 1) (u8 0x0A) (outb CMOS_PORT (u8 0xF) (dev p0))).
  assert (after (current p0) p0 (set_dev d0 p0)) as Ha.
  { split; [done|]. unfold has_been, current, d0. simpl.
    destruct (la_port (outb CMOS_PORT (u8 0xF) (dev p0)) (CMOS_PORT + 1) (u8 0x0A)) as (-> & -> & ->).
    by destruct (la_port (dev p0) CMOS_PORT (u8 0xF)) as (-> & -> & ->). }
  assert (wp (lapicw ICRHI (Z.shiftl apicid 24);; lapicw ICRLO (Z.lor (Z.lor INIT LEVEL) ASSERT);; microdelay 200;;
     lapicw ICRLO (Z.lor INIT LEVEL);; microdelay 100;; send_startup 2 apicid addr)
    (λ _ s', ∃ x', after x' p0 s' ∧ x'.1.1 = setting (dev p0) ∧
      x'.2 = (ipis (dev p0) ++ [(u32 (Z.shiftl apicid 24), Z.lor (Z.lor INIT LEVEL) ASSERT)] ++
        [(u32 (Z.shiftl apicid 24), Z.lor INIT LEVEL)]) ++
        replicate 2 (u32 (Z.shiftl apicid 24), u32 (Z.lor STARTUP (Z.shiftr addr 12)))) (set_dev d0 p0)) as Hsend.
  { do 2 write_register Hl. apply wp_bind, wp_ret. write_register Hl. apply wp_bind, wp_ret.
    eapply wp_mono; [eapply (send_startup_run 2); [exact Ha2|done]|].
    intros [] s' (x' & Ha' & E1 & E2). exists x'. split; [done|]. rewrite E1, E2. split; [done|].
    f_equal. simpl. by rewrite <- app_assoc. }
  unfold wp in Hsend.
  destruct ((lapicw ICRHI (Z.shiftl apicid 24);; _) (set_dev d0 p0)) as [[] p'| |] eqn:Erun; [|done..].
  destruct Hsend as (x' & [Ep (Hs & _ & Hm)] & Es & Ex).
  unfold lapicstartap.
  rewrite (bind_run _ _ s tt (Smp (set_dev d0 p0) (low s))) by done. cbv zeta.
  erewrite bind_run by reflexivity. erewrite bind_run by reflexivity. unfold zoom. cbn [view over plat_lens plat].
  rewrite Erun. eexists. split; [reflexivity|]. cbn [plat low]. split; [done|].
  assert (addr / 16 < 2 ^ 16) by (apply Z.div_lt_upper_bound; lia). assert (0 ≤ addr / 16) by (apply Z.div_pos; lia).
  change (Z.lor (Z.shiftl 64 4) 103) with 1127. unfold word_at.
  split_and!.
  - by simplify_map_eq.
  - simplify_map_eq. f_equal.
    rewrite !Z.shiftr_div_pow2 by lia. change (2 ^ 4) with 16. rewrite (wrap_small 16) by lia. unfold wrap.
    rewrite (Z.mod_small (addr / 16 / 2 ^ 8)); [|split; [apply Z.div_pos; lia|apply Z.div_lt_upper_bound; lia]].
    pose proof (Z.div_mod (addr / 16) (2 ^ 8)). lia.
  - intros a Hout. by rewrite !lookup_insert_ne by lia.
  - intros r. by rewrite Hs, Es.
  - rewrite Hm, Ex, <- !app_assoc. simpl.
    assert (Z.shiftl apicid 24 = apicid * 2 ^ 24) as -> by (by rewrite Z.shiftl_mul_pow2 by lia).
    rewrite (wrap_small 32 (apicid * 2 ^ 24)) by lia. rewrite Z.shiftr_div_pow2 by lia.
    assert (0 ≤ addr / 2 ^ 12 < 2 ^ 8) by (split; [apply Z.div_pos; lia|apply Z.div_lt_upper_bound; lia]).
    by rewrite wrap_lor_startup.
Qed.
End local.

(** * The controller of the devices *)

Section devices.
Context {D : Type} `{HM : Mmio D} `{!IoApic D}.
Context (junk : list Z) (Hjunk : length junk = 16%nat).
Implicit Types (s : platform D).

Lemma ioapicwrite_run reg v s :
  0 ≤ reg < 2 ^ 32 →
  ∃ s', ioapicwrite (P2V IOAPIC) reg v s = Ok tt s' ∧ s' = set_dev (dev s') s ∧ io_lines (dev s') = io_lines (dev s) ∧
    ∀ r, redir (dev s') r = if decide (r = reg) then u32 v else redir (dev s) r.
Proof.
  intros Hr. eexists. split; [unfold ioapicwrite; erewrite bind_run by reflexivity; reflexivity|]. simpl.
  rewrite (wrap_small 32 reg) by done. set (d1 := mmio_write (P2V IOAPIC) reg (dev s)).
  destruct (io_select (dev s) reg) as (E1 & E2 & E3). fold d1 in E1, E2, E3.
  destruct (io_data d1 (u32 v)) as (_ & E5 & E6). split; [done|]. split; [by rewrite E5|].
  intros r. rewrite E6, E1. by rewrite E2.
Qed.

Lemma ioapicread_run reg s :
  0 ≤ reg < 2 ^ 32 →
  ∃ v s', ioapicread (P2V IOAPIC) reg s = Ok v s' ∧ s' = set_dev (dev s') s ∧ io_lines (dev s') = io_lines (dev s) ∧
    redir (dev s') = redir (dev s) ∧ (reg = REG_VER → Z.land (Z.shiftr v 16) 0xFF = io_lines (dev s) - 1).
Proof.
  intros Hr. unfold ioapicread. erewrite bind_run by reflexivity. rewrite (wrap_small 32 reg) by done.
  destruct (io_select (dev s) reg) as (E1 & E2 & E3). set (d1 := mmio_write _ reg (dev s)) in *.
  pose proof (io_read d1) as Hio. unfold mapped. cbn [dev set_dev]. destruct (mmio_read _ d1) as [v d2].
  destruct Hio as (Hv & _ & E5 & E6). exists v, (set_dev d2 s). simpl. split_and!; try done; try congruence.
  intros ->. rewrite <- E3. by apply Hv.
Qed.

(** The registers of line [i] hold the two words. *)
Definition routed (d : D) (i lo hi : Z) : Prop :=
  redir d (REG_TABLE + 2 * i) = lo ∧ redir d (REG_TABLE + 2 * i + 1) = hi.

(** Two writes set one line. *)
Lemma line_run {B} i lo hi s (k : M (platform D) B) :
  0 ≤ i < 256 →
  ∃ s', (ioapicwrite (P2V IOAPIC) (REG_TABLE + 2 * i) lo;;
         ioapicwrite (P2V IOAPIC) (REG_TABLE + 2 * i + 1) hi;; k) s = k s' ∧
    s' = set_dev (dev s') s ∧ io_lines (dev s') = io_lines (dev s) ∧ routed (dev s') i (u32 lo) (u32 hi) ∧
    ∀ j l h, j ≠ i → routed (dev s) j l h → routed (dev s') j l h.
Proof.
  intros Hi. destruct (ioapicwrite_run (REG_TABLE + 2 * i) lo s) as (s1 & R1 & E1 & L1 & W1); [unfold REG_TABLE; lia|].
  destruct (ioapicwrite_run (REG_TABLE + 2 * i + 1) hi s1) as (s2 & R2 & E2 & L2 & W2); [unfold REG_TABLE; lia|].
  exists s2. rewrite (bind_run _ _ _ _ _ R1), (bind_run _ _ _ _ _ R2). split; [done|]. split; [by rewrite E2, E1|].
  split; [congruence|]. unfold routed. split.
  - rewrite !W2, !W1, (decide_True (P := REG_TABLE + 2 * i + 1 = _)), decide_False, decide_True by lia. done.
  - intros j l h Hj. rewrite !W2, !W1, !decide_False by lia. done.
Qed.

Lemma mask_all_run n i s :
  0 ≤ i → i + Z.of_nat n ≤ 256 →
  ∃ s', mask_all n (P2V IOAPIC) i s = Ok tt s' ∧ s' = set_dev (dev s') s ∧ io_lines (dev s') = io_lines (dev s) ∧
    (∀ j, i ≤ j < i + Z.of_nat n → routed (dev s') j (Z.lor INT_DISABLED (T_IRQ0 + j)) 0) ∧
    ∀ j l h, j < i → routed (dev s) j l h → routed (dev s') j l h.
Proof.
  revert i s. induction n as [|n IH]; intros i s Hi Hn; cbn [mask_all].
  { exists s. split_and!; [done|by destruct s|done|intros; lia|done]. }
  destruct (line_run i (Z.lor INT_DISABLED (T_IRQ0 + i)) 0 s (mask_all n (P2V IOAPIC) (i + 1))) as (s1 & -> & E1 & L1 & W1 & K1); [lia|].
  destruct (IH (i + 1) s1) as (s' & -> & E' & L' & W' & K'); [lia..|]. exists s'. split; [done|].
  split; [by rewrite E', E1|]. split; [congruence|]. split.
  - intros j Hj. destruct (decide (j = i)) as [->|Hne]; [|apply W'; lia]. apply K'; [lia|].
    destruct W1 as [W1 W1']. split; [|done]. rewrite W1. apply wrap_small.
    pose proof (Z.add_lor_land INT_DISABLED (T_IRQ0 + i)) as E.
    assert (0 ≤ Z.land INT_DISABLED (T_IRQ0 + i)) by (apply Z.land_nonneg; by left).
    split; [apply Z.lor_nonneg|]; unfold INT_DISABLED, T_IRQ0 in *; lia.
  - intros j l h Hj Hr. apply K'; [lia|]. apply K1; [lia|done].
Qed.

Lemma ioapicinit_run s :
  console_free (cons s) →
  ∃ s', ioapicinit junk s = Ok tt s' ∧ io_lines (dev s') = io_lines (dev s) ∧
    ∀ j, 0 ≤ j < io_lines (dev s) → routed (dev s') j (Z.lor INT_DISABLED (T_IRQ0 + j)) 0.
Proof.
  intros Hc. unfold ioapicinit. cbv zeta.
  destruct (ioapicread_run REG_VER s) as (v & s1 & R1 & E1 & L1 & _ & Hv); [by unfold REG_VER|].
  destruct (ioapicread_run REG_ID s1) as (w & s2 & R2 & E2 & L2 & _ & _); [by unfold REG_ID|].
  rewrite (bind_run _ _ _ _ _ R1), (bind_run _ _ _ _ _ R2), (bind_run _ _ s2 (ioapicid s2) s2) by done.
  rewrite (Hv eq_refl). set (b := negb _).
  assert (∃ s3, when b (say junk (chars "ioapicinit: id isn't equal to ioapicid; not a MP" ++ [10]) []) s2 = Ok tt s3 ∧ dev s3 = dev s2)
    as (s3 & R3 & E3).
  { destruct b; [|by exists s2].
    destruct (say_run junk Hjunk (chars "ioapicinit: id isn't equal to ioapicid; not a MP" ++ [10]) []
      (chars "ioapicinit: id isn't equal to ioapicid; not a MP" ++ [10]) s2) as (c & Hsay & _); [done|by rewrite E2, E1|].
    exists (set_cons c s2). by rewrite <- Hsay. }
  rewrite (bind_run _ _ _ _ _ R3). pose proof (io_lines_range (dev s)) as Hr.
  destruct (mask_all_run (Z.to_nat (io_lines (dev s) - 1 + 1)) 0 s3) as (s' & -> & _ & L' & W' & _); [lia..|].
  exists s'. split; [done|]. split; [congruence|]. intros j Hj. apply W'. lia.
Qed.

(** the calls of ioapicenable by the drivers: a line and a processor each *)
Fixpoint enable_each (lines : list (Z * Z)) : M (platform D) unit :=
  match lines with [] => mret tt | (irq, c) :: lines => ioapicenable irq c;; enable_each lines end.

Lemma enable_each_run lines s :
  Forall (λ x, 0 ≤ x.1 < 224 ∧ 0 ≤ x.2 < 256) lines → NoDup lines.*1 →
  ∃ s', enable_each lines s = Ok tt s' ∧
    (∀ irq c, (irq, c) ∈ lines → routed (dev s') irq (T_IRQ0 + irq) (Z.shiftl c 24)) ∧
    ∀ j l h, j ∉ lines.*1 → routed (dev s) j l h → routed (dev s') j l h.
Proof.
  revert s. induction lines as [|[irq c] lines IH]; intros s Hall Hnd; cbn [enable_each].
  { exists s. split_and!; [done|intros ? ? ?%elem_of_nil; done|done]. }
  apply list.Forall_cons in Hall as [[Hi Hc] Hall]. cbn [fmap list_fmap fst] in Hnd, Hi, Hc |- *.
  simpl in Hc. apply list.NoDup_cons in Hnd as [Hni Hnd].
  destruct (line_run irq (T_IRQ0 + irq) (Z.shiftl c 24) s (mret tt)) as (s1 & R1 & _ & _ & W1 & K1); [lia|].
  assert (ioapicenable irq c s = Ok tt s1) as R1'.
  { unfold ioapicenable. etrans; [|exact R1]. apply bind_ext. intros [] s0. unfold mbind, M_bind.
    by destruct (ioapicwrite _ _ (Z.shiftl c 24) s0) as [[]| |]. }
  rewrite (bind_run _ _ _ _ _ R1'). destruct (IH s1 Hall Hnd) as (s' & -> & W' & K'). exists s'. split; [done|].
  rewrite Z.shiftl_mul_pow2, !wrap_small in W1 by (unfold T_IRQ0; lia). split.
  - intros i c' [[= -> ->]|Hin]%elem_of_cons; [|by apply W']. apply K'; [done|]. by rewrite Z.shiftl_mul_pow2 by lia.
  - intros j l h Hj Hr. apply K'; [set_solver|]. apply K1; [set_solver|done].
Qed.

(** Interrupts arrive where the trap code expects them: after ioapicinit and the calls of ioapicenable of the drivers, each line that
    was enabled interrupts the processor asked for with the vector T_IRQ0 + irq, by which trap
    dispatches, and every other line is masked. *)
Theorem interrupts_routed lines s :
  console_free (cons s) → Forall (λ x, 0 ≤ x.1 < 224 ∧ 0 ≤ x.2 < 256) lines → NoDup lines.*1 →
  ∃ s', (ioapicinit junk;; enable_each lines) s = Ok tt s' ∧
    (∀ irq c, (irq, c) ∈ lines → routed (dev s') irq (T_IRQ0 + irq) (Z.shiftl c 24)) ∧
    ∀ i, 0 ≤ i < io_lines (dev s) → i ∉ lines.*1 → routed (dev s') i (Z.lor INT_DISABLED (T_IRQ0 + i)) 0.
Proof.
  intros Hc Hall Hnd. destruct (ioapicinit_run s Hc) as (s1 & R1 & _ & W1). rewrite (bind_run _ _ _ _ _ R1).
  destruct (enable_each_run lines s1 Hall Hnd) as (s' & -> & W' & K'). exists s'. split; [done|]. split; [done|].
  intros i Hi Hn. apply K'; [done|]. by apply W1.
Qed.
End devices.

(** * The clock *)

Section clock.
Context {D : Type} `{HP : Ports D} `{!Cmos D}.
Implicit Types (s : platform D).

(** [s'] is [s] but for the state of the devices, which keep the same time. *)
Definition same_time (s s' : platform D) : Prop := s' = set_dev (dev s') s ∧ cmos (dev s') = cmos (dev s).

Lemma same_time_refl s : same_time s s.
Proof. split; [by destruct s|done]. Qed.
Lemma same_time_trans s1 s2 s3 : same_time s1 s2 → same_time s2 s3 → same_time s1 s3.
Proof. intros [E1 C1] [E2 C2]. split; [by rewrite E2, E1|congruence]. Qed.

Lemma cmos_read_run reg s :
  0 ≤ reg < 256 →
  ∃ v s', cmos_read reg s = Ok v s' ∧ same_time s s' ∧
    updating (dev s') = (if decide (reg = CMOS_STATA) then pred (updating (dev s)) else updating (dev s)) ∧
    (reg = CMOS_STATA → Z.land v CMOS_UIP ≠ 0 ↔ (0 < updating (dev s))%nat) ∧
    (reg ≠ CMOS_STATA → updating (dev s) = 0%nat ∨ reg = CMOS_STATB → v = cmos (dev s) reg).
Proof.
  intros Hr. unfold cmos_read, io_out, io_in. erewrite bind_run by reflexivity. erewrite bind_run by reflexivity.
  rewrite (wrap_small 8 reg) by done. simpl. destruct (cm_select (dev s) reg) as (E1 & E2 & E3).
  set (d1 := outb CMOS_PORT reg (dev s)) in *. pose proof (cm_read d1) as Hcm. destruct (inb CMOS_RETURN d1) as [v d2].
  destruct Hcm as (_ & C2 & Hst & Hv & U2). rewrite E1, E2, E3 in *. exists v, (set_dev d2 s).
  split; [done|]. split; [by split|]. done.
Qed.

(** the registers of the time *)
Definition raw (d : D) : rtcdate :=
  Rtcdate (cmos d 0x00) (cmos d 0x02) (cmos d 0x04) (cmos d 0x07) (cmos d 0x08) (cmos d 0x09).

Lemma fill_rtcdate_run s :
  ∃ t s', fill_rtcdate s = Ok t s' ∧ same_time s s' ∧ updating (dev s') = updating (dev s) ∧
    (updating (dev s) = 0%nat → t = raw (dev s)).
Proof.
  assert (∀ reg s, 0 ≤ reg < 10 → ∃ v s', cmos_read reg s = Ok v s' ∧ same_time s s' ∧
    updating (dev s') = updating (dev s) ∧ (updating (dev s) = 0%nat → v = cmos (dev s) reg)) as Hread.
  { intros reg s0 Hr. destruct (cmos_read_run reg s0) as (v & s' & Hrun & Hs & Hu & _ & Hv); [lia|].
    exists v, s'. rewrite decide_False in Hu by (unfold CMOS_STATA; lia).
    split; [done|]. split; [done|]. split; [done|]. intros Hz. apply Hv; [unfold CMOS_STATA; lia|by left]. }
  unfold fill_rtcdate.
  destruct (Hread 0x00 s) as (v0 & s1 & R0 & T0 & U0 & V0); [lia|]. rewrite (bind_run _ _ _ _ _ R0).
  destruct (Hread 0x02 s1) as (v2 & s2 & R2 & T2 & U2 & V2); [lia|]. rewrite (bind_run _ _ _ _ _ R2).
  destruct (Hread 0x04 s2) as (v4 & s4 & R4 & T4 & U4 & V4); [lia|]. rewrite (bind_run _ _ _ _ _ R4).
  destruct (Hread 0x07 s4) as (v7 & s7 & R7 & T7 & U7 & V7); [lia|]. rewrite (bind_run _ _ _ _ _ R7).
  destruct (Hread 0x08 s7) as (v8 & s8 & R8 & T8 & U8 & V8); [lia|]. rewrite (bind_run _ _ _ _ _ R8).
  destruct (Hread 0x09 s8) as (v9 & s9 & R9 & T9 & U9 & V9); [lia|]. rewrite (bind_run _ _ _ _ _ R9).
  eexists _, s9. split; [reflexivity|].
  pose proof (same_time_trans _ _ _ T0 T2) as T02. pose proof (same_time_trans _ _ _ T02 T4) as T04.
  pose proof (same_time_trans _ _ _ T04 T7) as T07. pose proof (same_time_trans _ _ _ T07 T8) as T08.
  split; [by apply (same_time_trans _ s8)|]. split; [congruence|]. intros Hz. unfold raw.
  rewrite V0, V2, V4, V7, V8, V9 by congruence.
  by rewrite (proj2 T0), (proj2 T02), (proj2 T04), (proj2 T07), (proj2 T08).
Qed.

Lemma stable_time_run fuel s :
  (updating (dev s) < fuel)%nat →
  ∃ s', stable_time fuel s = Ok (raw (dev s)) s' ∧ same_time s s'.
Proof.
  revert s. induction fuel as [|fuel IH]; intros s Hf; [lia|]. cbn [stable_time].
  destruct (fill_rtcdate_run s) as (t1 & s1 & R1 & T1 & U1 & V1). rewrite (bind_run _ _ _ _ _ R1).
  destruct (cmos_read_run CMOS_STATA s1) as (a & s2 & R2 & T2 & U2 & Ha & _); [by unfold CMOS_STATA|].
  rewrite (bind_run _ _ _ _ _ R2). rewrite decide_True, U1 in U2 by done. specialize (Ha eq_refl). rewrite U1 in Ha.
  pose proof (same_time_trans _ _ _ T1 T2) as T12. destruct (Z.eqb_spec (Z.land a CMOS_UIP) 0) as [E|E]; cbn [negb].
  - assert (updating (dev s) = 0%nat) as Hz by (destruct (updating (dev s)); [done|]; destruct (proj2 Ha ltac:(lia)); done).
    destruct (fill_rtcdate_run s2) as (t2 & s3 & R3 & T3 & _ & V3). rewrite (bind_run _ _ _ _ _ R3).
    assert (raw (dev s2) = raw (dev s)) as Er by (unfold raw; by rewrite (proj2 T12)).
    rewrite V1, V3, Er, bool_decide_true by (done || rewrite U2, Hz; done).
    exists s3. split; [done|]. by apply (same_time_trans _ s2).
  - apply Ha in E. destruct (IH s2) as (s' & -> & T'); [rewrite U2; lia|]. exists s'.
    unfold raw. rewrite (proj2 T12). split; [done|]. by apply (same_time_trans _ s2).
Qed.

(** A number below 100 as the clock keeps it. *)
Definition kept (bcd : bool) (x : Z) : Z := if bcd then x / 10 * 16 + x mod 10 else x.
(** The clock keeps the time [t], in this century, with decimal digits or in binary. *)
Record keeps (bcd : bool) (d : D) (t : rtcdate) : Prop := {
  kp_mode : Z.land (cmos d CMOS_STATB) 4 = if bcd then 0 else 4;
  kp_range : Forall (λ x, 0 ≤ x < 100) [second t; minute t; hour t; day t; month t; year t - 2000];
  kp_raw : raw d = Rtcdate (kept bcd (second t)) (kept bcd (minute t)) (kept bcd (hour t)) (kept bcd (day t))
                     (kept bcd (month t)) (kept bcd (year t - 2000));
}.

Lemma CONV_kept x : 0 ≤ x < 100 → CONV (kept true x) = x.
Proof.
  intros Hx. unfold CONV, kept. rewrite Z.shiftr_div_pow2 by lia. change 0xf with (Z.ones 4).
  rewrite Z.land_ones by lia. change (2 ^ 4) with 16.
  pose proof (Z.div_mod x 10 ltac:(lia)). pose proof (Z.mod_pos_bound x 10 ltac:(lia)).
  rewrite (Z.add_comm (x / 10 * 16)), Z.div_add, Z.div_small, Z.mod_add, Z.mod_small by lia. rewrite wrap_small; lia.
Qed.

(** The time read is the time kept: whether the clock keeps it in decimal digits or in binary, and also
    when it is being updated at first, cmostime comes to an end with the time of the clock. *)
Theorem cmostime_reads bcd fuel t s :
  keeps bcd (dev s) t → (updating (dev s) < fuel)%nat →
  ∃ s', cmostime fuel s = Ok t s' ∧ same_time s s'.
Proof.
  intros [Hm Hr Hraw] Hf. unfold cmostime.
  destruct (cmos_read_run CMOS_STATB s) as (sb & s1 & R1 & T1 & U1 & _ & Hv); [by unfold CMOS_STATB|].
  rewrite (bind_run _ _ _ _ _ R1). rewrite decide_False in U1 by done.
  rewrite (Hv ltac:(done) ltac:(by right)). change (Z.shiftl 1 2) with 4. rewrite Hm. cbv zeta.
  destruct (stable_time_run fuel s1) as (s2 & R2 & T2); [by rewrite U1|]. rewrite (bind_run _ _ _ _ _ R2).
  assert (raw (dev s1) = raw (dev s)) as -> by (unfold raw; by rewrite (proj2 T1)). rewrite Hraw.
  exists s2. split; [|by apply (same_time_trans _ s1)].
  repeat (apply list.Forall_cons in Hr as [? Hr]). destruct t as [se mi ho da mo ye].
  cbn [second minute hour day month year] in *.
  destruct bcd; cbn [Z.eqb second minute hour day month year]; [rewrite !CONV_kept by done|]; unfold kept;
    (rewrite wrap_small by lia; do 2 f_equal; lia).
Qed.
End clock.

(** * A simulated board *)

(** A board with 24 interrupt lines whose messages are delivered at once. *)
Record board := Board {
  b_setting : Z → Z;
  b_target : Z;
  b_ipis : list (Z * Z);
  b_select : Z;
  b_redir : Z → Z;
  b_reg : Z;
  b_cmos : Z → Z;
  b_updating : nat;
}.

Definition BOARD_LAPIC : Z := P2V 0xFEE00000.

Definition board_write (addr v : Z) (d : board) : board :=
  let '(Board st tgt msgs sel re reg cm up) := d in
  if addr =? P2V IOAPIC then Board st tgt msgs v re reg cm up
  else if addr =? P2V IOAPIC + 16 then Board st tgt msgs sel (λ r, if decide (r = sel) then v else re r) reg cm up
  else let r := (addr - BOARD_LAPIC) / 4 in
  if (r =? EOI) || (r =? ESR) then d
  else if r =? ICRHI then Board st v msgs sel re reg cm up
  else if r =? ICRLO then Board st tgt (msgs ++ [(tgt, v)]) sel re reg cm up
  else Board (λ r', if decide (r' = r) then v else st r') tgt msgs sel re reg cm up.
Definition board_read (addr : Z) (d : board) : Z * board :=
  (if (addr =? P2V IOAPIC + 16) && (b_select d =? REG_VER) then Z.shiftl 23 16
   else if addr =? BOARD_LAPIC + 4 * ID then b_setting d ID else 0, d).

Definition board_in (port : Z) (d : board) : Z * board :=
  let '(Board st tgt msgs sel re reg cm up) := d in
  if reg =? CMOS_STATA
  then (if decide (0 < up)%nat then CMOS_UIP else 0, Board st tgt msgs sel re reg cm (pred up))
  else (cm reg, d).
Definition board_out (port v : Z) (d : board) : board :=
  let '(Board st tgt msgs sel re reg cm up) := d in
  if port =? CMOS_PORT then Board st tgt msgs sel re v cm up else d.

#[global] Instance board_ports : Ports board := {
  inb := board_in; outb := board_out; insl _ _ d := ([], d); outsl _ _ d := d;
}.
#[global] Instance board_mmio : Mmio board := { mmio_read := board_read; mmio_write := board_write }.

Lemma board_lapic_write r v d :
  r ∈ registers → board_write (BOARD_LAPIC + 4 * r) v d =
  let '(Board st tgt msgs sel re reg cm up) := d in
  if (r =? EOI) || (r =? ESR) then d
  else if r =? ICRHI then Board st v msgs sel re reg cm up
  else if r =? ICRLO then Board st tgt (msgs ++ [(tgt, v)]) sel re reg cm up
  else Board (λ r', if decide (r' = r) then v else st r') tgt msgs sel re reg cm up.
Proof.
  intros Hr. assert (0 ≤ r < 256) as Hr'.
  { unfold registers, settings in Hr. rewrite list_elem_of_In in Hr. simpl in Hr.
    vm_compute in Hr. repeat destruct Hr as [Hr|Hr]; lia. }
  assert (BOARD_LAPIC = P2V IOAPIC + 0x200000) as Hb by reflexivity.
  unfold board_write. destruct d. rewrite !(proj2 (Z.eqb_neq (BOARD_LAPIC + 4 * r) _)) by lia. cbv zeta.
  replace (BOARD_LAPIC + 4 * r - BOARD_LAPIC) with (r * 4) by lia. by rewrite Z.div_mul by lia.
Qed.

#[global] Instance board_lapic : LocalApic board.
Proof.
  refine {| lapic_base := BOARD_LAPIC; setting := b_setting; target := b_target; ipis := b_ipis; deliveries := 1 |}.
  - done.
  - intros d r v Hr. cbv zeta. cbn [mmio_write board_mmio]. rewrite board_lapic_write by (unfold registers; set_solver).
    assert (r ≠ EOI ∧ r ≠ ESR ∧ r ≠ ICRHI ∧ r ≠ ICRLO) as (?&?&?&?).
    { split_and!; intros ->; revert Hr; by apply (bool_decide_unpack _); vm_compute. }
    destruct d. rewrite !(proj2 (Z.eqb_neq r _)) by done. simpl. rewrite decide_True by done.
    split; [done|]. split; [|done]. intros r' Hne. by rewrite decide_False.
  - intros d r v Hr. cbv zeta. cbn [mmio_write board_mmio]. rewrite board_lapic_write by (unfold registers; set_solver).
    assert ((r =? EOI) || (r =? ESR) = true) as -> by (apply orb_true_iff; rewrite !Z.eqb_eq; set_solver). by destruct d.
  - intros d v. cbv zeta. cbn [mmio_write board_mmio]. rewrite board_lapic_write by by apply (bool_decide_unpack _); vm_compute.
    by destruct d.
  - intros d v. cbv zeta. cbn [mmio_write board_mmio]. rewrite board_lapic_write by by apply (bool_decide_unpack _); vm_compute.
    by destruct d.
  - intros d p v. cbv zeta. cbn [outb board_ports]. unfold board_out. destruct d. by destruct (p =? CMOS_PORT).
  - intros d. exists 0%nat. split; [lia|]. cbn [Nat.iter mmio_read board_mmio]. by unfold board_read.
Defined.

#[global] Instance board_ioapic : IoApic board.
Proof.
  refine {| io_selected := b_select; redir := b_redir; io_lines _ := 24 |}.
  - intros d r. cbv zeta. cbn [mmio_write board_mmio]. unfold board_write. destruct d. by rewrite Z.eqb_refl.
  - intros d v. cbv zeta. cbn [mmio_write board_mmio]. unfold board_write. destruct d.
    rewrite (proj2 (Z.eqb_neq _ _)), Z.eqb_refl by lia. done.
  - intros d. cbn [mmio_read board_mmio]. unfold board_read. rewrite Z.eqb_refl. cbn [andb].
    split; [|done]. by intros ->.
  - lia.
Defined.

#[global] Instance board_clock : Cmos board.
Proof.
  refine {| cmos_selected := b_reg; cmos := b_cmos; updating := b_updating |}.
  - intros d r. cbv zeta. cbn [outb board_ports]. unfold board_out. by destruct d.
  - intros d. cbn [inb board_ports]. unfold board_in. destruct d as [st tgt msgs sel re reg cm up]. simpl.
    destruct (Z.eqb_spec reg CMOS_STATA) as [->|Hne].
    + split_and!; try done. intros _. case_decide; split; (done || lia).
    + rewrite decide_False by done. by split_and!.
Defined.

(** The 15th of November 2026, 12:34:56, in decimal digits, on a clock that is being updated for two more reads. *)
Definition ex_clock : board :=
  Board (λ _, 0) 0 [] 0 (λ _, 0) 0
    (λ r, if r =? 0 then 0x56 else if r =? 2 then 0x34 else if r =? 4 then 0x12
          else if r =? 7 then 0x15 else if r =? 8 then 0x11 else if r =? 9 then 0x26 else 0) 2.
Definition ex_board : platform board := Platform (replicate 8 0) 1 0 BOARD_LAPIC 0 blank ex_clock.

Lemma interrupts_routed_witness :
  ∃ s', (ioapicinit (replicate 16 0);; enable_each [(IRQ_KBD, 0); (IRQ_IDE, 1)]) ex_board = Ok tt s' ∧
    routed (dev s') IRQ_IDE 46 (2 ^ 24) ∧ routed (dev s') IRQ_COM1 0x10024 0.
Proof.
  destruct (interrupts_routed (replicate 16 0) eq_refl [(IRQ_KBD, 0); (IRQ_IDE, 1)] ex_board) as (s' & Hrun & Hon & Hoff);
    [split; [apply blank_ok|done]|by repeat constructor|by apply (bool_decide_unpack _); vm_compute|].
  exists s'. split; [exact Hrun|]. split.
  - apply (Hon IRQ_IDE 1). by apply (bool_decide_unpack _); vm_compute.
  - apply (Hoff IRQ_COM1); [by vm_compute|by apply (bool_decide_unpack _); vm_compute].
Defined.

Lemma cmostime_reads_witness : ∃ s', cmostime 3 ex_board = Ok (Rtcdate 56 34 12 15 11 2026) s'.
Proof.
  destruct (cmostime_reads true 3 (Rtcdate 56 34 12 15 11 2026) ex_board) as (s' & Hrun & _);
    [split; [reflexivity|by repeat constructor|reflexivity]|simpl; lia|].
  exists s'. exact Hrun.
Defined.
