(* ===== verification/Apboot.v ===== *)
(** What a processor does when it is started (src/entryother.S, entry32mp and entry64mp of src/entry.S, mpenter and
    mpmain of src/main.c).

    The processor starts at 0x7000 with nothing but what the boot processor has left in low memory: the code, a
    stack to begin with, where to go on, and the stack of its own.  The theorem [ap_boot_run] is that from these it comes to
    its field started with a segment table, an interrupt table and system calls set up, on its own stack. *)

From S2P Require Import Prelude Bytes Layout Mem Spinlock Kalloc Vm Segment Ports Ulib Console Mp Apic.

(** the physical address of the start code *)
Definition CODE : Z := 0x7000.

(** The registers with which a processor comes to the scheduler. *)
Record regs := Regs {
  rg_rsp : Z;
  rg_this : option nat;
  rg_msr : gmap Z Z;
  rg_gdtr : list Z;
  rg_idtr : list Z;
  rg_tr : Z;
  rg_cr3 : Z;
}.

(** A processor that is to be started: its own local controller, and its registers once it has been. *)
Record ap (D : Type) := Ap { ap_dev : D; ap_regs : option regs }.
Arguments Ap {D}.
Arguments ap_dev {D}.
Arguments ap_regs {D}.

(** [st_smp] is the platform as the boot processor sees it, with low memory; [started] and [st_locals] are fields of
    each struct cpu, [st_machine] has the rest of them. *)
Record start (D : Type) := Start {
  st_smp : smp D;
  st_kmem : kmem;
  st_machine : machine;
  st_locals : list Z;
  started : list Z;
  aps : list (ap D);
}.
Arguments Start {D}.
Arguments st_smp {D}.
Arguments st_kmem {D}.
Arguments st_machine {D}.
Arguments st_locals {D}.
Arguments started {D}.
Arguments aps {D}.

(** What the linker and the boot processor have settled: the image of entryother.S, the address of entry32mp, the return
    address of the call in entryother.S, the variables kpml4 and idt, and the addresses of syscall_entry and
    ignore_sysret. *)
Record ksymbols := Symbols {
  image : list Z;
  entry32mp : Z;
  after_call : Z;
  kpml4 : Z;
  idt : Z;
  syscall_entry : Z;
  ignore_sysret : Z;
}.

Fixpoint put_low (a : Z) (bs : list Z) (m : gmap Z Z) : gmap Z Z :=
  match bs with [] => m | b :: bs => put_low (a + 1) bs (<[a := b]> m) end.
(** [n] bytes from [a] on *)
Fixpoint low_bytes (m : gmap Z Z) (a : Z) (n : nat) : option (list Z) :=
  match n with
  | O => Some []
  | S n => match m !! a with Some b => (b ::.) <$> low_bytes m (a + 1) n | None => None end
  end.
Definition low_word (n : nat) (a : Z) (m : gmap Z Z) : option Z := le_dec <$> low_bytes m a n.

(** What mpenter and mpmain work on: the platform, the processor that runs them, and the field started of each struct cpu. *)
Record booting (D : Type) := Booting { bo_plat : platform D; bo_proc : processor; bo_started : list Z }.
Arguments Booting {D}.
Arguments bo_plat {D}.
Arguments bo_proc {D}.
Arguments bo_started {D}.

Section code.
Context {D : Type} `{Ports D} `{Mmio D}.
(** [flags] is what readeflags returns, [ret] the address that cpunum would print. *)
Context (sy : ksymbols) (junk : list Z) (flags ret : Z).
Notation MS := (M (start D)).
Notation MB := (M (booting D)).

Definition smp_lens : lens (start D) (smp D) :=
  Lens st_smp (λ x s, Start x (st_kmem s) (st_machine s) (st_locals s) (started s) (aps s)).
Definition kmem_lens : lens (start D) kmem :=
  Lens st_kmem (λ x s, Start (st_smp s) x (st_machine s) (st_locals s) (started s) (aps s)).
Definition bo_plat_lens : lens (booting D) (platform D) := Lens bo_plat (λ x s, Booting x (bo_proc s) (bo_started s)).
Definition bo_proc_lens : lens (booting D) processor := Lens bo_proc (λ x s, Booting (bo_plat s) x (bo_started s)).

(** memmove and stores to low memory *)
Definition write_low (a : Z) (bs : list Z) : MS unit :=
  zoom smp_lens (modify (λ s, Smp (plat s) (put_low a bs (low s)))).

(** up to the call of scheduler *)
Definition mpmain : MB unit :=
  n ← zoom bo_plat_lens (cpunum junk flags ret);
  zoom bo_plat_lens (say junk (chars "cpu%d: starting" ++ [10]) [AInt n]);;
  zoom bo_proc_lens (idtinit (idt sy));;
  zoom bo_proc_lens (syscallinit (syscall_entry sy) (ignore_sysret sy));;
  c ← gets (λ s, this_cpu (bo_proc s));
  i ← the "cpu" c;
  st ← gets bo_started;
  old ← the "cpu->started" (st !! i);
  modify (λ s, Booting (bo_plat s) (bo_proc s) (<[i := 1]> (bo_started s))).

Definition mpenter (fuel : nat) : MB unit :=
  zoom bo_proc_lens (switchkvm (kpml4 sy));;
  me ← zoom bo_plat_lens (cpunum junk flags ret);
  zoom bo_proc_lens (seginit (Z.to_nat me));;
  zoom bo_plat_lens (lapicinit fuel);;
  mpmain.

(** entryother.S: the processor executes what is at 0x7000, which has to be the image; the result is where it goes on,
    with ebx set to 1. *)
Definition entryother : MS (Z * Z) :=
  m ← gets (λ s, low (st_smp s));
  if negb (bool_decide (low_bytes m CODE (length (image sy)) = Some (image sy))) then undefined "code at 0x7000" else
  let ebx := 1 in
  esp ← the "start-4" (low_word 4 (CODE - 4) m);
  write_low (esp - 4) (le_enc 4 (after_call sy));;
  m ← gets (λ s, low (st_smp s));
  eip ← the "start-8" (low_word 4 (CODE - 8) m);
  mret (eip, ebx).

(** entry64high of entry.S: main or mpenter, and its stack *)
Definition entry64high (ebx : Z) (m : gmap Z Z) : option (bool * Z) :=
  if ebx =? 0 then Some (false, 0xFFFF800000010000)
  else match low_word 8 (CODE - 16) m with Some rsp => Some (true, rsp) | None => None end.

(** The registers of a processor that entry32mp leaves: the first page table, and nothing else that the kernel uses. *)
Definition entry_regs (s : start D) : processor :=
  Segment.Processor (st_kmem s) (st_machine s) (st_locals s) None None ∅ [] [] 0 0x1000.

(** Processor [i] goes through the kernel on its own registers and its own local controller. *)
Definition run_mpenter (fuel i : nat) (rsp : Z) : MS unit := λ s,
  match aps s !! i with
  | None => Fail (Undefined "processor")
  | Some a =>
      match mpenter fuel (Booting (set_dev (ap_dev a) (plat (st_smp s))) (entry_regs s) (started s)) with
      | Ok _ b =>
          let p := bo_proc b in
          let r := Regs rsp (this_cpu p) (msr p) (gdtr p) (idtr p) (tr p) (cr3 p) in
          Ok tt (Start (Smp (set_dev (dev (plat (st_smp s))) (bo_plat b)) (low (st_smp s))) (pr_mem p) (pr_cpus p) (locals p)
                   (bo_started b) (<[i := Ap (dev (bo_plat b)) (Some r)]> (aps s)))
      | Sleep c _ => Fail (Undefined "sleep")
      | Fail e => Fail e
      end
  end.

(** What processor [i] does from the start message on, up to the scheduler. *)
Definition ap_boot (fuel i : nat) : MS unit :=
  x ← entryother;
  let '(eip, ebx) := x in
  if negb (eip =? u32 (V2P (entry32mp sy))) then undefined "entry" else
  m ← gets (λ s, low (st_smp s));
  y ← the "stack" (entry64high ebx m);
  let '(mp, rsp) := (y : bool * Z) in
  if mp then run_mpenter fuel i rsp else undefined "main".
End code.

(** * Low memory *)

Definition low_at (m : gmap Z Z) (a : Z) (bs : list Z) : Prop := ∀ i b, bs !! i = Some b → m !! (a + Z.of_nat i) = Some b.

Lemma put_low_other a bs m x : x < a ∨ a + Z.of_nat (length bs) ≤ x → put_low a bs m !! x = m !! x.
Proof.
  revert a m. induction bs as [|b bs IH]; intros a m Hx; [done|]. cbn [put_low length] in *.
  rewrite IH by lia. apply lookup_insert_ne. lia.
Qed.
Lemma put_low_at a bs m : low_at (put_low a bs m) a bs.
Proof.
  revert a m. induction bs as [|b bs IH]; intros a m i c Hi; [done|]. cbn [put_low]. destruct i as [|i].
  - injection Hi as <-. rewrite put_low_other by lia. by rewrite Z.add_0_r, lookup_insert_eq.
  - rewrite <- (IH (a + 1) (<[a := b]> m) i c Hi). f_equal. lia.
Qed.
Lemma low_at_other a bs m m' : low_at m a bs → (∀ x, a ≤ x < a + Z.of_nat (length bs) → m' !! x = m !! x) → low_at m' a bs.
Proof. intros Hm Hx i b Hi. rewrite Hx; [by apply Hm|]. apply lookup_lt_Some in Hi. lia. Qed.
(** A write that does not overlap leaves bytes alone. *)
Lemma put_low_apart a bs a' bs' m :
  low_at m a bs → a + Z.of_nat (length bs) ≤ a' ∨ a' + Z.of_nat (length bs') ≤ a → low_at (put_low a' bs' m) a bs.
Proof. intros Hm Ha. eapply low_at_other; [exact Hm|]. intros x Hx. apply put_low_other. lia. Qed.

Lemma low_bytes_at m a bs : low_at m a bs → low_bytes m a (length bs) = Some bs.
Proof.
  revert a. induction bs as [|b bs IH]; intros a Hm; [done|]. cbn [low_bytes length].
  pose proof (Hm 0%nat b eq_refl) as E. rewrite Z.add_0_r in E. rewrite E, IH; [done|].
  intros i c Hi. rewrite <- (Hm (S i) c Hi). f_equal. lia.
Qed.
Lemma low_word_at m a n v : low_at m a (le_enc n v) → 0 ≤ v < 256 ^ Z.of_nat n → low_word n a m = Some v.
Proof.
  intros Hm Hv. unfold low_word. pose proof (low_bytes_at m a _ Hm) as E. rewrite length_le_enc in E. rewrite E. cbn.
  f_equal. rewrite le_dec_enc. by apply Z.mod_small.
Qed.

(** * A processor comes up *)

Section theorems.
Context {D : Type} `{HP : Ports D} `{HM : Mmio D} `{HL : !LocalApic D}.
Context (kend : Z) (Hend : KERNBASE ≤ kend).
Context (sy : ksymbols) (junk : list Z) (flags ret : Z).
Context (Hjunk : length junk = 16%nat) (Hflags : Z.land flags FL_IF = 0) (Hbase : lapic_base ≠ 0).
(** The identification register of a local controller reads as it is set. *)
Context (Hid : ∀ d : D, Z.shiftr (mmio_read (lapic_base + 4 * ID) d).1 24 = Z.shiftr (setting d ID) 24).

(** The processor with the number [i] of a platform whose processors mpinit has found. *)
Record is_cpu (i : nat) (p : platform D) : Prop := {
  ic_cpus : cpus_ok p;
  ic_ids : NoDup (known p);
  ic_me : known p !! i = Some (Z.shiftr (setting (dev p) ID) 24);
  ic_lapic : lapic p = lapic_base;
  ic_cons : console_free (cons p);
}.
Lemma is_cpu_dev i p d : is_cpu i p → setting d ID = setting (dev p) ID → is_cpu i (set_dev d p).
Proof. intros [[Hc Hn] Hnd Hme Hl Hk] E. split; [by split|done| |done|done]. simpl. by rewrite E. Qed.
Lemma is_cpu_cons i p c : is_cpu i p → console_free c → is_cpu i (set_cons c p).
Proof. intros [[Hc Hn] Hnd Hme Hl Hk] E. by split. Qed.

Lemma cpunum_is i p :
  is_cpu i p → ∃ d, cpunum junk flags ret p = Ok (Z.of_nat i) (set_dev d p) ∧ setting d = setting (dev p).
Proof.
  intros [Hc Hnd Hme Hl Hk]. eexists. split.
  - apply (cpunum_run junk flags ret i _ p Hc Hnd Hme); [by rewrite Hl|rewrite Hl; apply Hid|done].
  - simpl. rewrite Hl. by destruct (la_read (dev p) ID) as (-> & _).
Qed.

Lemma lapicinit_is i fuel p :
  is_cpu i p → (deliveries ≤ fuel)%nat →
  ∃ d, lapicinit fuel p = Ok tt (set_dev d p) ∧ setting d ID = setting (dev p) ID ∧
    setting d SVR = Z.lor ENABLE (T_IRQ0 + IRQ_SPURIOUS).
Proof.
  intros Hp Hf. pose proof (lapicinit_run fuel p (ic_lapic _ _ Hp) Hbase Hf) as Hrun. unfold wp in Hrun.
  destruct (lapicinit fuel p) as [[] p'| |]; [|done..]. destruct Hrun as (pc & E & Hs & _ & _).
  exists (dev p'). rewrite <- E, !Hs. split; [done|]. by destruct pc; vm_compute.
Qed.

(** The registers after mpmain. *)
Definition set_up (pr : processor) : processor :=
  let pr := set_idtr (table_operand (idt sy) PGSIZE) pr in
  let m := <[MSR_STAR := u64 (Z.lor (Z.shiftl USER32_CS 48) (Z.shiftl KERNEL_CS 32))]> (msr pr) in
  let m := <[MSR_CSTAR := u64 (ignore_sysret sy)]> (<[MSR_LSTAR := u64 (syscall_entry sy)]> m) in
  set_msr (<[MSR_SFMASK := u64 (Z.lor (Z.lor (Z.lor (Z.lor (Z.lor FL_TF FL_DF) FL_IF) FL_IOPL_3) FL_AC) FL_NT)]> m) pr.

Lemma mpmain_run i v (p : platform D) pr st :
  is_cpu i p → this_cpu pr = Some i → st !! i = Some v →
  ∃ d c, mpmain sy junk flags ret (Booting p pr st) =
      Ok tt (Booting (set_dev d (set_cons c p)) (set_up pr) (<[i := 1]> st)) ∧
    console_free c ∧ setting d = setting (dev p).
Proof.
  intros Hp Ht Hst. destruct (cpunum_is i p Hp) as (d & Rd & Ed). unfold mpmain.
  rewrite (bind_run _ _ _ (Z.of_nat i) (Booting (set_dev d p) pr st)) by (unfold zoom; cbn; by rewrite Rd).
  destruct (say_run junk Hjunk (chars "cpu%d: starting" ++ [10]) [AInt (Z.of_nat i)]
    (chars "cpu" ++ decimal (s32 (Z.of_nat i)) ++ chars ": starting" ++ [10]) (set_dev d p)) as (c & Rc & Oc);
    [done|apply Hp|].
  rewrite (bind_run _ _ _ tt (Booting (set_cons c (set_dev d p)) pr st)) by (unfold zoom; cbn [view over bo_plat_lens bo_plat]; by rewrite Rc).
  exists d, c. split; [|split; [exact (out_step_free _ _ _ Oc (ic_cons _ _ Hp))|done]].
  rewrite (bind_run _ _ _ tt (Booting (set_cons c (set_dev d p)) (set_idtr (table_operand (idt sy) PGSIZE) pr) st)) by done.
  rewrite (bind_run _ _ _ tt (Booting (set_cons c (set_dev d p)) (set_up pr) st)) by done.
  rewrite (bind_run _ _ _ (Some i) (Booting (set_cons c (set_dev d p)) (set_up pr) st)) by (unfold gets; cbn; by rewrite Ht).
  erewrite bind_run by reflexivity. rewrite (bind_run _ _ _ st (Booting (set_cons c (set_dev d p)) (set_up pr) st)) by done.
  rewrite Hst. by erewrite bind_run by reflexivity.
Qed.

(** Processor [i] is set up on a page [b] of its own. *)
Record booted (i : nat) (b : Z) (pr pr' : processor) : Prop := {
  bt_local : ∃ pg, local_ok kend i b pr' pg;
  bt_cpus : pr_cpus pr' = pr_cpus pr;
  bt_locals : locals pr' = <[i := b]> (locals pr);
  bt_idtr : idtr pr' = table_operand (idt sy) PGSIZE;
  bt_cr3 : cr3 pr' = V2P (kpml4 sy);
  bt_syscall : msr pr' !! MSR_LSTAR = Some (u64 (syscall_entry sy));
}.

Lemma mpenter_run fuel i v b l (p : platform D) pr st :
  is_cpu i p → (deliveries ≤ fuel)%nat → kmem_inv kend (pr_mem pr) (b :: l) → (i < length (locals pr))%nat →
  (∃ cp, Spinlock.cpus (pr_cpus pr) !! i = Some cp ∧ 0 ≤ ncli cp < 2 ^ 31 - 1) → st !! i = Some v →
  ∃ d c pr', mpenter sy junk flags ret fuel (Booting p pr st) =
      Ok tt (Booting (set_dev d (set_cons c p)) pr' (<[i := 1]> st)) ∧
    console_free c ∧ setting d ID = setting (dev p) ID ∧ setting d SVR = Z.lor ENABLE (T_IRQ0 + IRQ_SPURIOUS) ∧
    booted i b pr pr' ∧ kmem_inv kend (pr_mem pr') l.
Proof.
  intros Hp Hf Hk Hi Hcli Hst. unfold mpenter. set (pr0 := set_cr3 (V2P (kpml4 sy)) pr).
  rewrite (bind_run _ _ _ tt (Booting p pr0 st)) by done.
  destruct (cpunum_is i p Hp) as (d1 & R1 & E1). pose proof (is_cpu_dev i p d1 Hp ltac:(by rewrite E1)) as Hp1.
  rewrite (bind_run _ _ _ (Z.of_nat i) (Booting (set_dev d1 p) pr0 st)) by (unfold zoom; cbn; by rewrite R1).
  rewrite Nat2Z.id. destruct (seginit_run kend Hend i l pr0 b Hk Hi Hcli) as (pr1 & pg & R2 & L2 & Hk2 & Ec & El & Ei & E3).
  rewrite (bind_run _ _ _ tt (Booting (set_dev d1 p) pr1 st)) by (unfold zoom; cbn [view over bo_proc_lens bo_proc]; by rewrite R2).
  destruct (lapicinit_is i fuel _ Hp1 Hf) as (d2 & R3 & E4 & E5). pose proof (is_cpu_dev i _ d2 Hp1 E4) as Hp2.
  rewrite (bind_run _ _ _ tt (Booting (set_dev d2 p) pr1 st)) by (unfold zoom; cbn [view over bo_plat_lens bo_plat]; by rewrite R3).
  destruct (mpmain_run i v (set_dev d2 p) pr1 st Hp2 (lo_cpu _ _ _ _ _ L2) Hst) as (d3 & c & -> & Hc & E6).
  exists d3, c, (set_up pr1). split; [done|]. split; [done|]. rewrite E6. simpl. split; [by rewrite E4; simpl; rewrite E1|].
  split; [done|]. split; [|done]. split; simpl; try done.
  - exists pg. by destruct L2; split.
  - by simplify_map_eq.
Qed.

(** Processor [i] runs in the kernel with the stack [sp] and its own page [b]: its segments and its task state are on the page,
    its interrupts go through the table of the kernel, its system calls to syscall_entry, its page
    table is the one of the kernel, and its local controller is on. *)
Record up (i : nat) (sp b : Z) (d : D) (r : regs) : Prop := {
  up_stack : rg_rsp r = sp;
  up_cpu : rg_this r = Some i;
  up_gdtr : rg_gdtr r = table_operand b 72;
  up_tr : rg_tr r = 56;
  up_idtr : rg_idtr r = table_operand (idt sy) PGSIZE;
  up_cr3 : rg_cr3 r = V2P (kpml4 sy);
  up_syscall : rg_msr r !! MSR_LSTAR = Some (u64 (syscall_entry sy));
  up_lapic : setting d SVR = Z.lor ENABLE (T_IRQ0 + IRQ_SPURIOUS);
}.

(** What the start code finds in low memory. *)
Record prepared (sp : Z) (m : gmap Z Z) : Prop := {
  pp_code : low_at m CODE (image sy);
  pp_esp : low_at m (CODE - 4) (le_enc 4 0x8000);
  pp_entry : low_at m (CODE - 8) (le_enc 4 (u32 (V2P (entry32mp sy))));
  pp_stack : low_at m (CODE - 16) (le_enc 8 sp);
}.
(** The return address of the call in the start code, on its first stack. *)
Definition pushed (m : gmap Z Z) : gmap Z Z := put_low (0x8000 - 4) (le_enc 4 (after_call sy)) m.

Lemma entryother_run sp (s : start D) :
  prepared sp (low (st_smp s)) →
  entryother sy s = Ok (u32 (V2P (entry32mp sy)), 1)
    (Start (Smp (plat (st_smp s)) (pushed (low (st_smp s)))) (st_kmem s) (st_machine s) (st_locals s) (started s) (aps s)).
Proof.
  intros [H1 H2 H3 _]. unfold entryother. rewrite (bind_run _ _ s (low (st_smp s)) s) by done.
  rewrite bool_decide_true by by apply low_bytes_at. cbn [negb]. cbv zeta.
  rewrite (low_word_at _ _ _ _ H2) by done. erewrite bind_run by reflexivity. erewrite bind_run by reflexivity.
  erewrite bind_run by reflexivity. cbn [st_smp over smp_lens view low]. fold (pushed (low (st_smp s))).
  rewrite (low_word_at (pushed _) (CODE - 8) 4 (u32 (V2P (entry32mp sy)))); [by erewrite bind_run by reflexivity| |].
  - apply put_low_apart; [done|]. rewrite length_le_enc. unfold CODE. lia.
  - apply (wrap_range 32). lia.
Qed.

Lemma ap_boot_run fuel i v sp a b l (s : start D) :
  prepared sp (low (st_smp s)) → 0 ≤ sp < 2 ^ 64 →
  aps s !! i = Some a → is_cpu i (set_dev (ap_dev a) (plat (st_smp s))) → (deliveries ≤ fuel)%nat →
  kmem_inv kend (st_kmem s) (b :: l) → (i < length (st_locals s))%nat →
  (∃ cp, Spinlock.cpus (st_machine s) !! i = Some cp ∧ 0 ≤ ncli cp < 2 ^ 31 - 1) → started s !! i = Some v →
  ∃ c d r m, ap_boot sy junk flags ret fuel i s =
      Ok tt (Start (Smp (set_cons c (plat (st_smp s))) (pushed (low (st_smp s)))) m (st_machine s) (<[i := b]> (st_locals s))
               (<[i := 1]> (started s)) (<[i := Ap d (Some r)]> (aps s))) ∧
    console_free c ∧ kmem_inv kend m l ∧ setting d ID = setting (ap_dev a) ID ∧ up i sp b d r.
Proof.
  intros Hpp Hsp Ha Hic Hf Hk Hi Hcli Hst. unfold ap_boot. rewrite (bind_run _ _ _ _ _ (entryother_run sp s Hpp)).
  rewrite Z.eqb_refl. cbn [negb]. erewrite bind_run by reflexivity. cbn [st_smp low]. unfold entry64high. cbn [Z.eqb].
  rewrite (low_word_at (pushed (low (st_smp s))) (CODE - 16) 8 sp); [|apply put_low_apart|done].
  2: { by destruct Hpp. }
  2: { rewrite length_le_enc. unfold CODE. lia. }
  erewrite bind_run by reflexivity. unfold run_mpenter. cbn [aps st_smp plat low started].
  rewrite Ha. set (s1 := Start _ _ _ _ _ _).
  destruct (mpenter_run fuel i v b l _ (entry_regs s1) (started s) Hic Hf Hk Hi Hcli Hst)
    as (d & c & pr & -> & Hc & E1 & E2 & [[pg L] E3 E4 E5 E6 E7] & Hk').
  exists c, d. eexists _, (pr_mem pr). split.
  { cbn [bo_proc bo_plat bo_started]. rewrite E3, E4. reflexivity. }
  split; [done|]. split; [done|]. split; [done|]. destruct L. by split.
Qed.
End theorems.
