(* ===== verification/Start.v ===== *)
(** The start of the other processors (startothers of src/main.c).

    The boot processor copies the start code to 0x7000, and for each processor that mpinit found writes a stack and the
    addresses that the start code uses below it, sends the start messages of Apic.v and waits until the processor has set its
    field started.  The started processor runs the code of Apboot.v; when it begins to is up to the hardware
    ([Startup]).  The theorem is that every processor comes up, each on a stack and with a page of its own. *)

From S2P Require Import Prelude Bytes Layout Mem Spinlock Kalloc Segment Ports Ulib Console Mp Apic Apboot.

Section code.
Context {D : Type} `{Ports D} `{Mmio D}.
(** the symbols of the kernel, the buffer of cprintf *)
Context (sy : ksymbols) (junk : list Z).
(** the processor that begins to execute at 0x7000 before the next read of started, by the number of reads so far; the flags
    and the return address that readeflags and cpunum see on it, and how long it waits for the delivery of a message *)
Context (starts : nat → start D → option nat) (apflags apret : Z) (apfuel : nat).
Notation MS := (M (start D)).

(** what the other processors do before the next read of started *)
Definition others (k : nat) (s : start D) : start D :=
  match starts k s with
  | Some i => match ap_boot sy junk apflags apret apfuel i s with Ok _ s' => s' | _ => s end
  | None => s
  end.

(** while(c->started == 0) *)
Fixpoint wait_started (fuel k i : nat) : MS unit :=
  match fuel with
  | O => out_of_fuel
  | S fuel =>
      st ← gets started;
      v ← the "started" (st !! i);
      if v =? 0 then modify (others k);; wait_started fuel (S k) i else mret tt
  end.

(** the body of the loop, for a processor that is not running yet *)
Definition start_cpu (fuel i : nat) : MS unit :=
  stack ← zoom kmem_lens kalloc;
  write_low (CODE - 4) (le_enc 4 0x8000);;
  write_low (CODE - 8) (le_enc 4 (u32 (V2P (entry32mp sy))));;
  write_low (CODE - 16) (le_enc 8 (stack + KSTACKSIZE));;
  ids ← gets (λ s, Mp.cpus (plat (st_smp s)));
  apicid ← the "cpus" (ids !! i);
  zoom smp_lens (lapicstartap apicid CODE);;
  wait_started fuel 0 i.

(** the processors from [i] on, [n] of them; [eflags] is what readeflags returns *)
Fixpoint start_loop (n fuel i : nat) (eflags ret : Z) : MS unit :=
  match n with
  | O => mret tt
  | S n =>
      me ← zoom smp_lens (zoom plat_lens (cpunum junk eflags ret));
      (if Z.of_nat i =? me then mret tt else start_cpu fuel i);;
      start_loop n fuel (S i) eflags ret
  end.

Definition startothers (fuel : nat) (eflags ret : Z) : MS unit :=
  write_low CODE (image sy);;
  n ← gets (λ s, ncpu (plat (st_smp s)));
  start_loop (Z.to_nat n) fuel 0 eflags ret.
End code.

(** * What the hardware does *)

Section laws.
Context {D : Type} `{HP : Ports D} `{HM : Mmio D} `{HL : !LocalApic D}.
Implicit Types (s : start D).

Definition st_dev (s : start D) : D := dev (plat (st_smp s)).
(** The last message of the boot processor told the processor [id] to start at [CODE]. *)
Definition told_to_start (id : Z) (s : start D) : Prop :=
  ∃ before, ipis (st_dev s) = before ++ [(Z.shiftl id 24, Z.lor STARTUP (CODE / 2 ^ 12))].
(** which processor each is *)
Definition ids (s : start D) : list Z := (λ a, Z.shiftr (setting (ap_dev a) ID) 24) <$> aps s.

(** A processor that is at rest and is told to start begins to execute after some time; until then none does. *)
Class Startup (starts : nat → start D → option nat) := {
  lag : nat;
  startup s i id d :
    NoDup (ids s) → ids s !! i = Some id → told_to_start id s → aps s !! i = Some (Ap d None) →
    ∃ n, (n < lag)%nat ∧ (∀ m, (m < n)%nat → starts m s = None) ∧ starts n s = Some i;
}.
End laws.

Section theorems.
Context {D : Type} `{HP : Ports D} `{HM : Mmio D} `{HL : !LocalApic D}.
Context (kend : Z) (Hend : KERNBASE ≤ kend).
(** The start code ends below the first stack of a processor. *)
Context (sy : ksymbols) (junk : list Z) (Hjunk : length junk = 16%nat) (Himage : Z.of_nat (length (image sy)) ≤ 0xFFC).
Context (starts : nat → start D → option nat) `{HS : !Startup starts}.
(** The start code begins with cli. *)
Context (apflags apret : Z) (Hap : Z.land apflags FL_IF = 0) (apfuel : nat) (Hapfuel : (deliveries ≤ apfuel)%nat).
Context (Hbase : lapic_base ≠ 0).
(** The identification register of a local controller reads as it is set. *)
Context (Hid : ∀ d : D, Z.shiftr (mmio_read (lapic_base + 4 * ID) d).1 24 = Z.shiftr (setting d ID) 24).
(** the processor that runs startothers *)
Context (me : nat).
Implicit Types (s : start D).
Notation others := (others sy junk starts apflags apret apfuel).
Notation wait_started := (wait_started sy junk starts apflags apret apfuel).
Notation start_cpu := (start_cpu sy junk starts apflags apret apfuel).
Notation start_loop := (start_loop sy junk starts apflags apret apfuel).
Notation startothers := (startothers sy junk starts apflags apret apfuel).

Lemma wait_started_run fuel k i s s' n :
  started s !! i = Some 0 → (∀ m, (k ≤ m < k + n)%nat → others m s = s) → others (k + n)%nat s = s' →
  started s' !! i = Some 1 → (n + 1 < fuel)%nat → wait_started fuel k i s = Ok tt s'.
Proof.
  revert fuel k. induction n as [|n IH]; intros [|fuel] k Hi Hno Hs H1 Hf; try lia; cbn [Start.wait_started];
    rewrite (bind_run _ _ s (started s) s) by done; rewrite Hi; (erewrite bind_run by reflexivity);
    cbn [Z.eqb].
  - rewrite Nat.add_0_r in Hs. rewrite (bind_run _ _ s tt s') by (unfold modify; by rewrite Hs).
    destruct fuel as [|fuel]; [lia|]. cbn [Start.wait_started]. rewrite (bind_run _ _ s' (started s') s') by done.
    rewrite H1. by erewrite bind_run by reflexivity.
  - rewrite (bind_run _ _ s tt s) by (unfold modify; by rewrite Hno by lia).
    apply IH; [done|intros m Hm; apply Hno; lia|by rewrite Nat.add_succ_comm|done|lia].
Qed.

(** What the loop relies on: the platform that mpinit leaves, a struct cpu for each processor. *)
Record startable (s : start D) : Prop := {
  sb_me : is_cpu me (plat (st_smp s));
  sb_bytes : Forall (λ id, 0 ≤ id < 256) (known (plat (st_smp s)));
  sb_ids : ids s = known (plat (st_smp s));
  sb_locals : ncpu (plat (st_smp s)) ≤ Z.of_nat (length (st_locals s));
  sb_cli : ∀ j, Z.of_nat j < ncpu (plat (st_smp s)) →
    ∃ cp, Spinlock.cpus (st_machine s) !! j = Some cp ∧ 0 ≤ ncli cp < 2 ^ 31 - 1;
}.

(** A processor that has not been started. *)
Definition at_rest (j : nat) (s : start D) : Prop := started s !! j = Some 0 ∧ ∃ d, aps s !! j = Some (Ap d None).
(** Processor [j] is up, with a stack on the page [f] and its tables on the page [g]. *)
Definition running (j : nat) (f g : Z) (s : start D) : Prop :=
  started s !! j = Some 1 ∧ st_locals s !! j = Some g ∧
  ∃ d r, aps s !! j = Some (Ap d (Some r)) ∧ up sy j (f + KSTACKSIZE) g d r.
Definition unchanged (j : nat) (s s' : start D) : Prop :=
  started s' !! j = started s !! j ∧ st_locals s' !! j = st_locals s !! j ∧ aps s' !! j = aps s !! j.

(** The state in which the start message has been sent. *)
Lemma started_by_message i id sp b l s d :
  startable s → known (plat (st_smp s)) !! i = Some id → told_to_start id s → at_rest i s → aps s !! i = Some (Ap d None) →
  prepared sy sp (low (st_smp s)) → 0 ≤ sp < 2 ^ 64 → kmem_inv kend (st_kmem s) (b :: l) →
  ∃ n c d' r m, (n < lag)%nat ∧ (∀ k, (k < n)%nat → others k s = s) ∧
    others n s = Start (Smp (set_cons c (plat (st_smp s))) (pushed sy (low (st_smp s)))) m (st_machine s)
      (<[i := b]> (st_locals s)) (<[i := 1]> (started s)) (<[i := Ap d' (Some r)]> (aps s)) ∧
    console_free c ∧ kmem_inv kend m l ∧ setting d' ID = setting d ID ∧ up sy i sp b d' r.
Proof.
  intros Hs Hkn Ht [Hst _] Ha Hpp Hsp Hk. destruct Hs as [[Hc Hnd Hme Hl Hco] Hb Hids Hlo Hcli].
  assert (Z.of_nat i < ncpu (plat (st_smp s))) as Hi.
  { pose proof (ck_ncpu _ Hc). apply lookup_lt_Some in Hkn. rewrite (known_length _ Hc) in Hkn. lia. }
  destruct (startup s i id d) as (n & Hn & Hno & Hon); [by rewrite Hids|by rewrite Hids|done|done|].
  destruct (ap_boot_run kend Hend sy junk apflags apret Hjunk Hap Hbase Hid apfuel i 0 sp (Ap d None) b l s Hpp Hsp Ha)
    as (c & d' & r & m & R & ?); [|done|done|lia|by apply Hcli|done|].
  { split; [by destruct Hc|done| |done|done]. change (known (plat (st_smp s)) !! i = Some (Z.shiftr (setting d ID) 24)).
    rewrite <- Hids. unfold ids. by rewrite list_lookup_fmap, Ha. }
  exists n, c, d', r, m. split; [done|]. unfold Start.others. rewrite Hon, R. split; [|done].
  intros k Hlt. by rewrite Hno.
Qed.

(** Starting processor [i] changes the console, memory and the fields of that processor only. *)
Lemma startable_after i s dv lw c d d' r m b (st : list Z) :
  startable s → console_free c → setting dv ID = setting (st_dev s) ID → aps s !! i = Some (Ap d None) →
  setting d' ID = setting d ID →
  startable (Start (Smp (set_cons c (set_dev dv (plat (st_smp s)))) lw) m (st_machine s) (<[i := b]> (st_locals s)) st
               (<[i := Ap d' (Some r)]> (aps s))).
Proof.
  intros [Hme Hb Hids Hlo Hcli] Hc Edv Ha Ed. split; [|done| | |done].
  - apply is_cpu_cons; [|done]. by apply is_cpu_dev.
  - unfold ids in *. cbn [aps st_smp]. rewrite list_fmap_insert, list_insert_id; [done|].
    rewrite list_lookup_fmap, Ha. cbn. by rewrite Ed.
  - cbn [st_locals st_smp plat]. rewrite length_insert. done.
Qed.

Lemma start_cpu_run fuel i id b c l s :
  startable s → kmem_inv kend (st_kmem s) (b :: c :: l) → low_at (low (st_smp s)) CODE (image sy) → (lag + 1 < fuel)%nat →
  known (plat (st_smp s)) !! i = Some id → at_rest i s →
  ∃ s', start_cpu fuel i s = Ok tt s' ∧ startable s' ∧ ncpu (plat (st_smp s')) = ncpu (plat (st_smp s)) ∧
    low_at (low (st_smp s')) CODE (image sy) ∧ kmem_inv kend (st_kmem s') l ∧ running i b c s' ∧
    ∀ j, j ≠ i → unchanged j s s'.
Proof.
  intros Hs Hk Hlo Hf Hkn Hat. pose proof Hs as [[Hc Hnd Hme Hl Hco] Hb Hids Hlen Hcli]. pose proof Hat as [Hst [d Ha]].
  assert (Mp.cpus (plat (st_smp s)) !! i = Some id) as Hcp.
  { unfold known in Hkn. by apply lookup_take_Some in Hkn as [? _]. }
  pose proof (ki_good _ _ _ Hk) as [Hg _]%list.Forall_cons. destruct (kalloc_run kend Hend (st_kmem s) b (c :: l) Hk) as (next & Rk & Hk').
  set (k1 := set_km_freelist next (st_kmem s)) in *. unfold Start.start_cpu.
  rewrite (bind_run _ _ s b (Start (st_smp s) k1 (st_machine s) (st_locals s) (started s) (aps s)))
    by (unfold zoom; simpl; by rewrite Rk).
  do 3 (erewrite bind_run by reflexivity). cbn [st_smp over view smp_lens plat low st_kmem st_machine st_locals started aps].
  set (lw := put_low (CODE - 16) _ _). set (s1 := Start (Smp (plat (st_smp s)) lw) _ _ _ _ _).
  rewrite (bind_run _ _ s1 (Mp.cpus (plat (st_smp s))) s1) by done. rewrite Hcp. erewrite bind_run by reflexivity.
  destruct (lapicstartap_starts id CODE (st_smp s1) Hl) as (p & Rp & Ep & _ & _ & Hlow & Hset & Hmsg);
    [by apply (Forall_lookup_1 _ _ _ _ Hb Hkn)|by unfold CODE|by unfold CODE|].
  set (s2 := Start p k1 (st_machine s) (st_locals s) (started s) (aps s)).
  rewrite (bind_run _ _ s1 tt s2) by (unfold zoom; cbn [view over smp_lens]; by rewrite Rp).
  assert (told_to_start id s2) as Ht.
  { unfold told_to_start, st_dev. cbn [st_smp s2]. rewrite Hmsg. eexists (_ ++ [_; _; _]). by rewrite <- app_assoc. }
  assert (prepared sy (b + KSTACKSIZE) (low (st_smp s2))) as Hpp.
  { assert (prepared sy (b + KSTACKSIZE) lw) as [H1 H2 H3 H4].
    { split; unfold lw; repeat first [apply put_low_at|apply put_low_apart]; rewrite ?length_le_enc; try done; unfold CODE; lia. }
    split; (eapply low_at_other; [eassumption|]); intros x Hx; apply Hlow; unfold CODE in Hx; rewrite ?length_le_enc in Hx; lia. }
  assert (startable s2) as Hs2.
  { split; cbn [st_smp s2]; rewrite Ep; try done. by apply is_cpu_dev. }
  destruct (started_by_message i id (b + KSTACKSIZE) c l s2 d Hs2) as (n & cn & d' & r & m & Hn & Hno & Hon & Hcn & Hm & Ed & Hup);
    try done; [cbn [st_smp s2]; by rewrite Ep| |].
  { destruct Hg as (_ & ? & ?). unfold KERNBASE, PHYSTOP, KSTACKSIZE in *. lia. }
  eexists. split; [apply (wait_started_run fuel 0 i s2 _ n); [done|intros k Hk0; apply Hno; lia|exact Hon| |lia]|].
  { simpl. apply list_lookup_insert_eq. by apply lookup_lt_Some in Hst. }
  cbn [st_smp s2 st_machine st_locals started aps]. rewrite Ep. split_and!; [| | |exact Hm| |].
  - by apply (startable_after i s _ _ _ d).
  - done.
  - cbn [low]. apply put_low_apart; [by destruct Hpp|]. unfold CODE. lia.
  - assert (i < length (st_locals s))%nat as Hil.
    { apply lookup_lt_Some in Hkn. rewrite (known_length _ Hc) in Hkn. pose proof (ck_ncpu _ Hc). lia. }
    apply lookup_lt_Some in Hst. pose proof (lookup_lt_Some _ _ _ Ha).
    split_and!; cbn [started st_locals aps]; [by apply list_lookup_insert_eq..|]. exists d', r.
    split; [by apply list_lookup_insert_eq|exact Hup].
  - intros j Hj. unfold unchanged. cbn [started st_locals aps]. by rewrite !list_lookup_insert_ne by done.
Qed.

(** The processors to start among [n] from [i] on, and their pages: [f] for the stacks, [g] for the tables. *)
Definition to_start (i n : nat) : list nat := filter (λ j, j ≠ me) (seq i n).
Definition pages_of (f g : nat → Z) (js : list nat) : list Z := concat ((λ j, [f j; g j]) <$> js).

Lemma pages_of_ext f g f' g' js :
  (∀ j, j ∈ js → f j = f' j ∧ g j = g' j) → pages_of f g js = pages_of f' g' js.
Proof. intros E. unfold pages_of. f_equal. apply list_fmap_ext. intros k j Hj. by destruct (E j) as [-> ->]; [eapply list_elem_of_lookup_2|]. Qed.

Record all_started (i n : nat) (l : list Z) (f g : nat → Z) (l' : list Z) (s s' : start D) : Prop := {
  as_run : ∀ j, (i ≤ j < i + n)%nat → j ≠ me → running j (f j) (g j) s';
  as_pages : l = pages_of f g (to_start i n) ++ l';
  as_free : kmem_inv kend (st_kmem s') l';
  as_others : ∀ j, (j < i ∨ i + n ≤ j)%nat ∨ j = me → unchanged j s s';
}.

Lemma unchanged_trans j s1 s2 s3 : unchanged j s1 s2 → unchanged j s2 s3 → unchanged j s1 s3.
Proof. intros (E1 & E2 & E3) (E4 & E5 & E6). split_and!; congruence. Qed.
Lemma running_unchanged j f g s s' : unchanged j s s' → running j f g s → running j f g s'.
Proof. unfold running. by intros (-> & -> & ->). Qed.
Lemma at_rest_unchanged j s s' : unchanged j s s' → at_rest j s → at_rest j s'.
Proof. unfold at_rest. by intros (-> & _ & ->). Qed.

(** One more processor in front of those that are started. *)
Lemma all_started_cons i n b c l f g l' s1 s2 s3 :
  i ≠ me → running i b c s2 → (∀ j, j ≠ i → unchanged j s1 s2) → all_started (S i) n l f g l' s2 s3 →
  all_started i (S n) (b :: c :: l) (λ j, if decide (j = i) then b else f j) (λ j, if decide (j = i) then c else g j) l' s1 s3.
Proof.
  intros Hi Hr Hu [A1 A2 A3 A4]. split; [| |done|].
  - intros j Hj Hjm. case_decide as Ej.
    + subst j. apply (running_unchanged _ _ _ s2); [apply A4; lia|done].
    + apply A1; [lia|done].
  - unfold to_start in *. cbn [seq]. rewrite filter_cons_True by done. unfold pages_of in *. cbn [fmap list_fmap concat].
    rewrite !decide_True by done. rewrite A2. cbn [app]. do 3 f_equal. apply pages_of_ext.
    intros j [_ Hj%elem_of_seq]%list_elem_of_filter. by rewrite !decide_False by lia.
  - intros j Hj. apply (unchanged_trans j s1 s2 s3); [|apply A4; lia]. apply Hu. lia.
Qed.

Lemma start_loop_run n fuel i l eflags ret s :
  kmem_inv kend (st_kmem s) l → (2 * n ≤ length l)%nat → startable s → Z.land eflags FL_IF = 0 →
  low_at (low (st_smp s)) CODE (image sy) → (lag + 1 < fuel)%nat → Z.of_nat (i + n) ≤ ncpu (plat (st_smp s)) →
  (∀ j, (i ≤ j < i + n)%nat → j ≠ me → at_rest j s) →
  ∃ s' f g l', start_loop n fuel i eflags ret s = Ok tt s' ∧ all_started i n l f g l' s s'.
Proof.
  revert i l s. induction n as [|n IH]; intros i l s Hk Hl Hs Hif Hlo Hf Hn Hz; cbn [Start.start_loop].
  { exists s, (λ _, 0), (λ _, 0), l. split; [done|]. split; intros; (done || lia). }
  destruct (cpunum_is junk eflags ret Hif Hbase Hid me _ (sb_me _ Hs)) as (d & Rd & Ed).
  set (s1 := Start (Smp (set_dev d (plat (st_smp s))) (low (st_smp s))) (st_kmem s) (st_machine s) (st_locals s) (started s) (aps s)).
  rewrite (bind_run _ _ s (Z.of_nat me) s1) by (unfold zoom; cbn [view over smp_lens plat_lens]; by rewrite Rd).
  assert (startable s1) as Hs1.
  { destruct Hs. split; try done. apply is_cpu_dev; [done|by rewrite Ed]. }
  destruct (decide (i = me)) as [->|Hne].
  - rewrite Z.eqb_refl. erewrite bind_run by reflexivity.
    destruct (IH (S me) l s1) as (s' & f & g & l' & -> & [A1 A2 A3 A4]); try done; try (simpl in *; lia).
    { intros j Hj Hjm. apply Hz; [lia|done]. }
    exists s', f, g, l'. split; [done|]. split; [| |done|].
    + intros j Hj Hjm. apply A1; [lia|done].
    + unfold to_start. cbn [seq]. by rewrite filter_cons_False by auto.
    + intros j Hj. apply A4. lia.
  - rewrite (proj2 (Z.eqb_neq _ _)) by lia. destruct l as [|b [|c l]]; [simpl in Hl; lia..|].
    pose proof (ic_cpus _ _ (sb_me _ Hs)) as Hc.
    destruct (lookup_lt_is_Some_2 (known (plat (st_smp s))) i) as [id Hkn]; [rewrite (known_length _ Hc); lia|].
    destruct (start_cpu_run fuel i id b c l s1 Hs1 Hk Hlo Hf Hkn) as (s2 & R2 & Hs2 & En & Hlo2 & Hk2 & Hr & Hu);
      [apply (at_rest_unchanged i s); [done|apply Hz; [lia|done]]|].
    rewrite (bind_run _ _ _ _ _ R2).
    destruct (IH (S i) l s2 Hk2) as (s' & f & g & l' & -> & HA); [simpl in Hl; lia|done|done|done|done|rewrite En; simpl; lia| |].
    { intros j Hj Hjm. apply (at_rest_unchanged j s); [apply (Hu j); lia|apply Hz; [lia|done]]. }
    eexists s', _, _, l'. split; [done|]. by apply (all_started_cons i n b c l f g l' s s2).
Qed.

End theorems.

(** * An example *)

(** On the board of Apic.v, a processor begins to execute before the second read of its field. *)
Definition sim_starts (k : nat) (s : start board) : option nat :=
  if decide (k = 1%nat) then
    match list.last (ipis (st_dev s)) with
    | Some (t, _) => fst <$> list_find (λ id, id = Z.shiftr t 24) (ids s)
    | None => None
    end
  else None.

#[global] Instance sim_startup : Startup sim_starts.
Proof.
  refine {| lag := 2 |}. intros s i id d Hnd Hi [before Hm] _. exists 1%nat. split; [lia|]. unfold sim_starts. split.
  - intros m Hlt. by rewrite decide_False by lia.
  - rewrite decide_True by done. rewrite Hm, last_snoc.
    assert (list_find (λ x, x = Z.shiftr (Z.shiftl id 24) 24) (ids s) = Some (i, id)) as ->; [|done].
    rewrite Z.shiftr_shiftl_l, Z.sub_diag, Z.shiftl_0_r by lia. apply list_find_Some. split; [done|]. split; [done|].
    intros j y Hj Hlt ->. pose proof (NoDup_lookup _ _ _ _ Hnd Hi Hj). lia.
Defined.

Lemma sim_lag : lag (starts := sim_starts) = 2%nat.
Proof. reflexivity. Qed.

(** Three processors with the ids 0, 2 and 5; the boot processor is the first. *)
Definition chip_of (id : Z) : board := Board (λ r, if r =? ID then Z.shiftl id 24 else 0) 0 [] 0 (λ _, 0) 0 (λ _, 0) 0.
Definition ex_start (m : kmem) : start board :=
  Start (Smp (Platform [0; 2; 5; 0; 0; 0; 0; 0] 3 0 BOARD_LAPIC 0 blank (chip_of 0)) ∅) m
    (Machine (replicate 8 (Cpu 0 0 0)) []) (replicate 8 0) [1; 0; 0] [Ap (chip_of 0) None; Ap (chip_of 2) None; Ap (chip_of 5) None].
Definition ex_symbols : ksymbols :=
  Symbols [0xfa; 0x31; 0xc0] (KERNBASE + 0x100048) 0x7042 (KERNBASE + 0x3000) (KERNBASE + 0x4000) (KERNBASE + 0x105000) (KERNBASE + 0x105100).

Lemma ex_startable m : startable 0 (ex_start m).
Proof.
  split.
  - split; [by split|by apply (bool_decide_unpack _); vm_compute|reflexivity|reflexivity|split; [apply blank_ok|done]].
  - by repeat constructor.
  - reflexivity.
  - simpl. lia.
  - intros j Hj. exists (Cpu 0 0 0). simpl in Hj. split; [|simpl; lia]. by destruct j as [|[|[|j]]]; [..|lia].
Qed.

Lemma ex_pages : ∃ m l, kmem_inv (KERNBASE + 0x200000) m l ∧ (6 ≤ length l)%nat.
Proof.
  set (kend := KERNBASE + 0x200000). assert (KERNBASE ≤ kend) as Hend by (vm_compute; discriminate).
  destruct (kinit1_run kend Hend (Kmem false false 0 ram) kend (kend + 6 * 4096))
    as (m & _ & Hinv); [vm_compute; discriminate..| |apply ram_null|].
  { intros v. by apply ram_pages. }
  exists m. eexists. split; [exact Hinv|]. apply Nat.leb_le. vm_compute. reflexivity.
Qed.

