(* ===== verification/Bootmain.v ===== *)
(** The boot loader (src/bootmain.c): it reads the kernel image from the disk, finds the multiboot header in it, loads the
    segment that the header describes, clears the rest and jumps to the entry point.

    It runs in 32-bit protected mode without paging: a pointer is a physical address, and arithmetic wraps at 2^32.
    The controller is polled, no interrupt is used; [PolledAta] states what the
    loader relies on, with the registers and phases of Ide.v.  The theorem is that memory then holds the image
    as the header says. *)

From S2P Require Import Prelude Bytes Layout Ports Sleeplock Bio Ide.

Definition SECTSIZE : Z := 512.
Definition SCRATCH : Z := 0x10000.

Record loader (D : Type) := Loader { ram : Z → Z; controller : D }.
Arguments Loader {D}.
Arguments ram {D}.
Arguments controller {D}.

(** The bytes [bs] from address [a] on, over the memory [m]. *)
Definition poke (a : Z) (bs : list Z) (m : Z → Z) : Z → Z := λ x,
  if a <=? x then default (m x) (bs !! Z.to_nat (x - a)) else m x.
(** a 32-bit word *)
Definition word (m : Z → Z) (a : Z) : Z := le_dec (m <$> [a; a + 1; a + 2; a + 3]).

Section code.
Context {D : Type} `{Ports D}.
(** how often waitdisk polls the status *)
Context (fuel : nat).
Notation ML := (M (loader D)).

Definition ctl_of : lens (loader D) D := Lens controller (λ d s, Loader (ram s) d).

Fixpoint waitdisk (n : nat) : ML unit :=
  match n with
  | O => out_of_fuel
  | S n =>
      st ← io_in ctl_of 0x1F7;
      if negb (Z.land st 0xC0 =? 0x40) then waitdisk n else mret tt
  end.

(** insl(0x1F0, dst, SECTSIZE/4) *)
Definition insl_to (dst : Z) : ML unit := modify (λ s,
  let '(data, d) := insl 0x1F0 (Z.to_nat (SECTSIZE / 4)) (controller s) in Loader (poke dst data (ram s)) d).

Definition readsect (dst offset : Z) : ML unit :=
  waitdisk fuel;;
  io_out ctl_of 0x1F2 1;;
  io_out ctl_of 0x1F3 offset;;
  io_out ctl_of 0x1F4 (Z.shiftr offset 8);;
  io_out ctl_of 0x1F5 (Z.shiftr offset 16);;
  io_out ctl_of 0x1F6 (Z.lor (Z.shiftr offset 24) 0xE0);;
  io_out ctl_of 0x1F7 0x20;;
  waitdisk fuel;;
  insl_to dst.

Fixpoint readseg_loop (n : nat) (pa epa offset : Z) : ML unit :=
  if negb (pa <? epa) then mret tt else
  match n with
  | O => out_of_fuel
  | S n => readsect pa offset;; readseg_loop n (u32 (pa + SECTSIZE)) epa (u32 (offset + 1))
  end.

Definition readseg (pa count offset : Z) : ML unit :=
  let epa := u32 (pa + count) in
  let pa := u32 (pa - offset mod SECTSIZE) in
  let offset := u32 (offset / SECTSIZE + 1) in
  readseg_loop (Z.to_nat (count / SECTSIZE) + 2) pa epa offset.

(** the index of the multiboot header in the scratch space: the search from word [i] on, [n] words *)
Fixpoint find_header (n : nat) (i : Z) (m : Z → Z) : option Z :=
  match n with
  | O => None
  | S n =>
      let x k := word m (SCRATCH + 4 * k) in
      if (x i =? 0x1BADB002) && (u32 (x i + x (i + 1) + x (i + 2)) =? 0) then Some i
      else find_header n (i + 1) m
  end.

(** struct mbheader, read through the pointer hdr *)
Definition mb_flags (hdr : Z) : ML Z := gets (λ s, word (ram s) (hdr + 4)).
Definition mb_header_addr (hdr : Z) : ML Z := gets (λ s, word (ram s) (hdr + 12)).
Definition mb_load_addr (hdr : Z) : ML Z := gets (λ s, word (ram s) (hdr + 16)).
Definition mb_load_end_addr (hdr : Z) : ML Z := gets (λ s, word (ram s) (hdr + 20)).
Definition mb_bss_end_addr (hdr : Z) : ML Z := gets (λ s, word (ram s) (hdr + 24)).
Definition mb_entry_addr (hdr : Z) : ML Z := gets (λ s, word (ram s) (hdr + 28)).

(** stosb(addr, 0, cnt) *)
Definition clear (addr cnt : Z) : ML unit :=
  modify (λ s, Loader (poke addr (replicate (Z.to_nat cnt) 0) (ram s)) (controller s)).

(** The result is the address that is called, or nothing if the loader gives up. *)
Definition bootmain : ML (option Z) :=
  readseg SCRATCH 8192 0;;
  m ← gets ram;
  match find_header (Z.to_nat (8192 / 4)) 0 m with
  | None => mret None
  | Some n =>
      let hdr := SCRATCH + 4 * n in
      flags ← mb_flags hdr;
      if Z.land flags 0x10000 =? 0 then mret None else
      la ← mb_load_addr hdr;
      ha ← mb_header_addr hdr;
      if ha <? la then mret None else
      le ← mb_load_end_addr hdr;
      if le <? la then mret None else
      readseg la (u32 (le - la)) (u32 (n * 4 - (ha - la)));;
      be ← mb_bss_end_addr hdr;
      le ← mb_load_end_addr hdr;
      when (le <? be) (clear le (u32 (be - le)));;
      e ← mb_entry_addr hdr;
      mret (Some e)
  end.
End code.

(** * What the controller promises *)

Definition boot_regs : list Z := [0x1f2; 0x1f3; 0x1f4; 0x1f5; 0x1f6].

(** A disk that is polled; [sector] are the sectors of the first drive. *)
Class PolledAta (D : Type) `{Ports D} := {
  sector : D → Z → list Z;
  boot_phase : D → phase;
  boot_reg : D → Z → Z;
  boot_polls : nat;
  pa_sector d n : length (sector d n) = Z.to_nat SECTSIZE ∧ bytes (sector d n);
  pa_poll d : let d' := (inb 0x1f7 d).2 in
    boot_phase d' = boot_phase d ∧ (∀ r, boot_reg d' r = boot_reg d r) ∧ ∀ n, sector d' n = sector d n;
  pa_ready d : ∃ n, (n < boot_polls)%nat ∧ ready (status n d);
  pa_reg d p v : boot_phase d = Ready → p ∈ boot_regs → let d' := outb p v d in
    boot_phase d' = Ready ∧ (∀ r, boot_reg d' r = if decide (r = p) then v else boot_reg d r) ∧
    ∀ n, sector d' n = sector d n;
  pa_read d : boot_phase d = Ready → boot_reg d 0x1f2 = 1 → let d' := outb 0x1f7 IDE_CMD_READ d in
    boot_phase d' = Reading (drive (boot_reg d)) (lba (boot_reg d)) ∧ ∀ n, sector d' n = sector d n;
  (** the data are there when the status is ready after the command *)
  pa_load d n : boot_phase d = Reading 0 n → ready (inb 0x1f7 d).1 →
    let '(data, d') := insl 0x1f0 (Z.to_nat (SECTSIZE / 4)) (inb 0x1f7 d).2 in
    data = sector d n ∧ boot_phase d' = Ready ∧ ∀ n, sector d' n = sector d n;
}.

(** * The proofs *)

Section theorems.
Context {D : Type} `{HP : Ports D} `{!PolledAta D}.
Context (fuel : nat) (Hfuel : (boot_polls ≤ fuel)%nat).
Implicit Types (s : loader D) (d : D).

(** Byte [i] of the kernel image, which starts at sector 1. *)
Definition image_byte (d : D) (i : Z) : Z := sector d (i / SECTSIZE + 1) !!! Z.to_nat (i mod SECTSIZE).

Definition same_disk (d d' : D) : Prop := ∀ n, sector d' n = sector d n.
Lemma same_disk_byte d d' i : same_disk d d' → image_byte d' i = image_byte d i.
Proof. intros E. unfold image_byte. by rewrite E. Qed.

Lemma polled_same k d :
  boot_phase (polled k d) = boot_phase d ∧ (∀ r, boot_reg (polled k d) r = boot_reg d r) ∧ same_disk d (polled k d).
Proof.
  revert d. induction k as [|k IH]; intros d; [done|]. cbn [polled]. destruct (IH (inb 0x1f7 d).2) as (E1 & E2 & E3).
  destruct (pa_poll d) as (F1 & F2 & F3). split_and!; [congruence|intros r; by rewrite E2|intros n; by rewrite E3].
Qed.

Lemma polled_S k d : polled (S k) d = (inb 0x1f7 (polled k d)).2.
Proof. revert d. induction k as [|k IH]; intros d; [done|]. cbn [polled] in *. by rewrite <- IH. Qed.

(** waitdisk ends at the first status that is ready. *)
Lemma waitdisk_run k n s :
  ready (status k (controller s)) → (k < n)%nat →
  ∃ j, waitdisk n s = Ok tt (Loader (ram s) (polled (S j) (controller s))) ∧ ready (status j (controller s)).
Proof.
  revert n s. induction k as [|k IH]; intros [|n] s Hr Hn; try lia; cbn [waitdisk];
    unfold mbind, M_bind, io_in; cbn [view over ctl_of];
    destruct (inb 0x1f7 (controller s)) as [v d1] eqn:Ei; cbn [fst snd].
  - unfold status in Hr. cbn [polled] in Hr. rewrite Ei in Hr. unfold ready in Hr.
    change (Z.lor IDE_BSY IDE_DRDY) with 0xC0 in Hr. cbn [fst] in Hr. rewrite Hr. exists 0%nat. cbn [polled].
    rewrite Ei. split; [done|]. unfold status, ready. cbn [polled]. by rewrite Ei.
  - destruct (Z.eqb_spec (Z.land v 0xC0) 0x40) as [E|E]; cbn [negb].
    + exists 0%nat. cbn [polled]. rewrite Ei. split; [done|]. unfold status, ready. cbn [polled]. by rewrite Ei.
    + destruct (IH n (Loader (ram s) d1)) as (j & Hrun & Hj); [|lia|].
      { unfold status in *. cbn [polled] in Hr. by rewrite Ei in Hr. }
      exists (S j). rewrite Hrun. unfold status. cbn [polled controller]. rewrite Ei. done.
Qed.

Lemma waitdisk_ready s :
  ∃ j, waitdisk fuel s = Ok tt (Loader (ram s) (polled (S j) (controller s))) ∧ ready (status j (controller s)).
Proof. destruct (pa_ready (controller s)) as (k & Hk & Hr). apply (waitdisk_run k); [done|lia]. Qed.

Lemma lba_sector r n :
  0 ≤ n < 2 ^ 24 → r 0x1f3 = u8 n → r 0x1f4 = u8 (Z.shiftr n 8) → r 0x1f5 = u8 (Z.shiftr n 16) →
  r 0x1f6 = u8 (Z.lor (Z.shiftr n 24) 0xE0) → lba r = n ∧ drive r = 0.
Proof.
  intros Hn H3 H4 H5 H6. rewrite !Z.shiftr_div_pow2 in * by lia. rewrite (Z.div_small n (2 ^ 24)) in H6 by lia.
  unfold lba, drive. rewrite H3, H4, H5, H6. split; [|done]. change (Z.land (u8 (Z.lor 0 0xE0)) 0x0f) with 0.
  unfold wrap. change (2 ^ 16) with (2 ^ 8 * 2 ^ 8). rewrite <- Z.div_div by lia.
  pose proof (Z.div_mod n (2 ^ 8)). pose proof (Z.div_mod (n / 2 ^ 8) (2 ^ 8)).
  rewrite (Z.mod_small (n / 2 ^ 8 / 2 ^ 8)); [lia|]. rewrite Z.div_div by lia.
  split; [apply Z.div_pos; lia|apply Z.div_lt_upper_bound; lia].
Qed.

(** One register of a command. *)
Lemma reg_run p v d :
  boot_phase d = Ready → p ∈ boot_regs →
  boot_phase (outb p v d) = Ready ∧ boot_reg (outb p v d) p = v ∧
  (∀ r, r ≠ p → boot_reg (outb p v d) r = boot_reg d r) ∧ same_disk d (outb p v d).
Proof.
  intros Hd Hp. destruct (pa_reg d p v Hd Hp) as (E1 & E2 & E3). split; [done|]. split; [by rewrite E2, decide_True|].
  split; [|done]. intros r Hr. by rewrite E2, decide_False.
Qed.

Lemma readsect_run dst n s :
  boot_phase (controller s) = Ready → 0 ≤ n < 2 ^ 24 →
  ∃ d', readsect fuel dst n s = Ok tt (Loader (poke dst (sector (controller s) n) (ram s)) d') ∧
    boot_phase d' = Ready ∧ same_disk (controller s) d'.
Proof.
  intros Hp Hn. unfold readsect. destruct (waitdisk_ready s) as (j & Hw & _). rewrite (bind_run _ _ _ _ _ Hw).
  set (d1 := polled (S j) (controller s)). destruct (polled_same (S j) (controller s)) as (P1 & _ & S1). fold d1 in P1, S1.
  rewrite Hp in P1. do 6 (erewrite bind_run by reflexivity). cbn [over view ctl_of controller ram].
  destruct (reg_run 0x1f2 (u8 1) d1 P1) as (P2 & V2 & K2 & S2); [set_solver|]. set (d2 := outb 0x1f2 (u8 1) d1) in *.
  destruct (reg_run 0x1f3 (u8 n) d2 P2) as (P3 & V3 & K3 & S3); [set_solver|]. set (d3 := outb 0x1f3 (u8 n) d2) in *.
  destruct (reg_run 0x1f4 (u8 (Z.shiftr n 8)) d3 P3) as (P4 & V4 & K4 & S4); [set_solver|].
  set (d4 := outb 0x1f4 _ d3) in *.
  destruct (reg_run 0x1f5 (u8 (Z.shiftr n 16)) d4 P4) as (P5 & V5 & K5 & S5); [set_solver|].
  set (d5 := outb 0x1f5 _ d4) in *.
  destruct (reg_run 0x1f6 (u8 (Z.lor (Z.shiftr n 24) 0xE0)) d5 P5) as (P6 & V6 & K6 & S6); [set_solver|].
  set (d6 := outb 0x1f6 _ d5) in *. change (u8 0x20) with IDE_CMD_READ.
  destruct (pa_read d6 P6) as [P7 S7]; [by rewrite K6, K5, K4, K3, V2 by done|]. set (d7 := outb 0x1f7 IDE_CMD_READ d6) in *.
  destruct (lba_sector (boot_reg d6) n Hn) as [El Ed];
    [by rewrite K6, K5, K4, V3 by done|by rewrite K6, K5, V4 by done|by rewrite K6, V5 by done|done|].
  rewrite El, Ed in P7.
  destruct (waitdisk_ready (Loader (ram s) d7)) as (i & Hw' & Hi). rewrite (bind_run _ _ _ _ _ Hw'). cbn [controller ram] in *.
  destruct (polled_same i d7) as (P8 & _ & S8).
  pose proof (pa_load (polled i d7) n) as Hl. rewrite P8 in Hl. specialize (Hl P7 Hi).
  unfold insl_to, modify. cbn [controller ram].
  rewrite polled_S.
  destruct (insl 0x1f0 _ _) as [data d']. destruct Hl as (-> & P9 & S9).
  assert (∀ k, sector (polled i d7) k = sector (controller s) k) as Hs.
  { intros k. by rewrite S8, S7, S6, S5, S4, S3, S2, S1. }
  exists d'. rewrite Hs. split; [done|]. split; [done|]. intros k. by rewrite S9, Hs.
Qed.

Lemma poke_lookup a bs m x :
  poke a bs m x = if decide (a ≤ x < a + Z.of_nat (length bs)) then bs !!! Z.to_nat (x - a) else m x.
Proof.
  unfold poke. destruct (Z.leb_spec a x) as [Hx|Hx]; [|by rewrite decide_False by lia].
  destruct (bs !! Z.to_nat (x - a)) as [b|] eqn:E; simpl.
  - rewrite decide_True by (apply lookup_lt_Some in E; lia). symmetry. by apply list_lookup_total_correct.
  - rewrite decide_False by (apply lookup_ge_None_1 in E; lia). done.
Qed.

(** The memory after [k] sectors were read to [pa], where byte [o] of the image goes to [pa]. *)
Definition loaded (d : D) (pa o : Z) (k : nat) (m m' : Z → Z) : Prop :=
  ∀ x, m' x = if decide (pa ≤ x < pa + SECTSIZE * Z.of_nat k) then image_byte d (o + (x - pa)) else m x.

Lemma readseg_loop_run k n pa epa q s :
  boot_phase (controller s) = Ready → 0 ≤ pa → pa + SECTSIZE * Z.of_nat k < 2 ^ 32 →
  epa ≤ pa + SECTSIZE * Z.of_nat k → (k ≠ O → pa + SECTSIZE * (Z.of_nat k - 1) < epa) → (k ≤ n)%nat →
  0 ≤ q → q + 1 + Z.of_nat k < 2 ^ 24 →
  ∃ s', readseg_loop fuel n pa epa (q + 1) s = Ok tt s' ∧ boot_phase (controller s') = Ready ∧
    same_disk (controller s) (controller s') ∧ loaded (controller s) pa (q * SECTSIZE) k (ram s) (ram s').
Proof.
  unfold SECTSIZE. revert n pa q s. induction k as [|k IH]; intros n pa q s Hp Hpa Hmax He He' Hn Hq Hq'.
  { exists s. assert ((pa <? epa) = false) as E by (apply Z.ltb_ge; lia). split; [destruct n; simpl; by rewrite E|].
    split_and!; [done|done|]. intros x. by rewrite decide_False by lia. }
  specialize (He' ltac:(done)). destruct n as [|n]; [lia|]. cbn [readseg_loop].
  rewrite (proj2 (Z.ltb_lt pa epa)) by lia. cbn [negb].
  destruct (readsect_run pa (q + 1) s Hp ltac:(lia)) as (d1 & Hrun & P1 & S1). rewrite (bind_run _ _ _ _ _ Hrun).
  unfold SECTSIZE. rewrite !wrap_small by lia.
  destruct (IH n (pa + 512) (q + 1) (Loader (poke pa (sector (controller s) (q + 1)) (ram s)) d1)) as (s' & -> & P' & S' & M');
    [done|lia..|]. cbn [controller ram] in *.
  exists s'. split; [done|]. split; [done|]. split; [intros m; by rewrite S', S1|]. intros x. rewrite (M' x), poke_lookup, (proj1 (pa_sector _ _)).
  change (Z.of_nat (Z.to_nat SECTSIZE)) with 512. unfold SECTSIZE.
  destruct (decide (pa ≤ x < pa + 512 * Z.of_nat (S k))) as [Hx|Hx].
  2:{ by rewrite !decide_False by lia. }
  destruct (decide (pa + 512 ≤ x < pa + 512 + 512 * Z.of_nat k)) as [Hx1|Hx1].
  - rewrite (same_disk_byte _ _ _ S1). f_equal. lia.
  - rewrite decide_True by lia. unfold image_byte, SECTSIZE.
    rewrite (Z.add_comm (q * 512)), Z.div_add, Z.div_small, Z.mod_add, Z.mod_small by lia. by rewrite Z.add_0_l.
Qed.

Lemma readseg_run pa count o s :
  boot_phase (controller s) = Ready → 0 ≤ count → 0 ≤ o < 2 ^ 32 → o mod SECTSIZE ≤ pa → pa + count + SECTSIZE < 2 ^ 32 →
  ∃ k s', readseg fuel pa count o s = Ok tt s' ∧ boot_phase (controller s') = Ready ∧
    same_disk (controller s) (controller s') ∧
    loaded (controller s) (pa - o mod SECTSIZE) (o - o mod SECTSIZE) k (ram s) (ram s') ∧
    pa + count ≤ pa - o mod SECTSIZE + SECTSIZE * Z.of_nat k < pa + count + SECTSIZE.
Proof.
  unfold SECTSIZE. intros Hp Hc Ho Hpa Hmax. set (r := o mod 512) in *.
  pose proof (Z.mod_pos_bound o 512 ltac:(lia)) as Hr. fold r in Hr.
  assert (o = 512 * (o / 512) + r) as Eo by (apply Z.div_mod; lia).
  set (k := Z.to_nat ((count + r + 511) / 512)).
  pose proof (Z.div_mod (count + r + 511) 512 ltac:(lia)) as Ek.
  pose proof (Z.mod_pos_bound (count + r + 511) 512 ltac:(lia)) as Hk.
  pose proof (Z.div_mod count 512 ltac:(lia)) as Ec. pose proof (Z.mod_pos_bound count 512 ltac:(lia)) as Hcm.
  pose proof (Z.div_pos (count + r + 511) 512 ltac:(lia) ltac:(lia)). pose proof (Z.div_pos count 512 Hc ltac:(lia)).
  assert (Z.of_nat k = (count + r + 511) / 512) as Ekn by (subst k; lia).
  unfold readseg, SECTSIZE. cbv zeta. fold r. rewrite !wrap_small by lia.
  destruct (readseg_loop_run k (Z.to_nat (count / 512) + 2) (pa - r) (pa + count) (o / 512) s) as (s' & Hrun & P' & S' & M');
    unfold SECTSIZE in *; try lia; [done|].
  exists k, s'. split; [done|]. split; [done|]. split; [done|]. split; [|lia].
  intros x. rewrite (M' x). unfold SECTSIZE. destruct (decide _); [|done]. f_equal. lia.
Qed.

(** * The header of an image *)

Definition image_word (d : D) (i : Z) : Z := word (image_byte d) (4 * i).
Definition is_header (d : D) (i : Z) : Prop :=
  image_word d i = 0x1BADB002 ∧ u32 (image_word d i + image_word d (i + 1) + image_word d (i + 2)) = 0.

Lemma image_word_range d i : 0 ≤ image_word d i < 2 ^ 32.
Proof.
  unfold image_word, word. change (2 ^ 32) with (256 ^ Z.of_nat 4). apply le_dec_range.
  assert (∀ j, is_byte (image_byte d j)) as Hb.
  { intros j. unfold image_byte. destruct (pa_sector d (j / SECTSIZE + 1)) as [Hl Hb].
    apply (Forall_lookup_total_1 _ _ _ Hb). rewrite Hl. pose proof (Z.mod_pos_bound j SECTSIZE ltac:(done)). lia. }
  apply list.Forall_fmap, list.Forall_true. intros j. apply Hb.
Qed.

(** The scratch space holds the first 8192 bytes of the image. *)
Lemma scratch_word d m i :
  (∀ x, SCRATCH ≤ x < SCRATCH + 8192 → m x = image_byte d (x - SCRATCH)) → 0 ≤ i < 2048 →
  word m (SCRATCH + 4 * i) = image_word d i.
Proof.
  intros Hm Hi. unfold image_word, word. f_equal. cbn [fmap list_fmap]. rewrite !Hm by lia.
  by repeat f_equal; lia.
Qed.

Lemma find_header_run k n i d m :
  (∀ x, SCRATCH ≤ x < SCRATCH + 8192 → m x = image_byte d (x - SCRATCH)) →
  0 ≤ i → i + Z.of_nat k + 2 < 2048 → (k < n)%nat →
  is_header d (i + Z.of_nat k) → (∀ j, i ≤ j < i + Z.of_nat k → ¬ is_header d j) →
  find_header n i m = Some (i + Z.of_nat k).
Proof.
  intros Hm. revert n i. induction k as [|k IH]; intros [|n] i Hi Hk Hn Hh Hno; try lia; cbn [find_header]; cbv zeta;
    rewrite !(scratch_word d m) by (done || lia).
  - rewrite Z.add_0_r in *. destruct Hh as [E1 E2]. rewrite E2, E1. done.
  - destruct ((image_word d i =? 0x1BADB002) && _) eqn:E.
    { apply andb_true_iff in E as [E1%Z.eqb_eq E2%Z.eqb_eq]. destruct (Hno i); [lia|done]. }
    rewrite (IH n (i + 1)); [f_equal; lia|lia..| |].
    + by replace (i + 1 + Z.of_nat k) with (i + Z.of_nat (S k)) by lia.
    + intros j Hj. apply Hno. lia.
Qed.

Definition in_scratch (d : D) (m : Z → Z) : Prop :=
  ∀ x, SCRATCH ≤ x < SCRATCH + 8192 → m x = image_byte d (x - SCRATCH).

(** A field of the header: word [j] of it. *)
Lemma field_run d n j s :
  in_scratch d (ram s) → 0 ≤ n → 0 ≤ j → n + j < 2048 →
  gets (λ s, word (ram s) (SCRATCH + 4 * n + 4 * j)) s = Ok (image_word d (n + j)) s.
Proof.
  intros Hm Hn Hj Hlt. unfold gets. f_equal. rewrite <- (scratch_word d (ram s)) by (done || lia).
  f_equal. lia.
Qed.

Lemma first_read s :
  boot_phase (controller s) = Ready →
  ∃ s', readseg fuel SCRATCH 8192 0 s = Ok tt s' ∧ boot_phase (controller s') = Ready ∧
    same_disk (controller s) (controller s') ∧ in_scratch (controller s) (ram s').
Proof.
  intros Hp. destruct (readseg_run SCRATCH 8192 0 s Hp) as (k & s' & Hrun & P' & S' & M' & Hk); [lia|lia|done|done|].
  change (0 mod SECTSIZE) with 0 in *. rewrite !Z.sub_0_r in *. exists s'. split_and!; [done..|].
  intros x Hx. rewrite (M' x), decide_True by lia. f_equal; lia.
Qed.

(** What the header found at word [n] asks for is possible: the segment is in the image, above the scratch space, and ends
    below 4 GB. *)
Record loadable (d : D) (n : Z) : Prop := {
  ld_index : 0 ≤ n ∧ n + 8 ≤ 2048;
  ld_header : is_header d n;
  ld_first : ∀ j, 0 ≤ j < n → ¬ is_header d j;
  ld_flags : Z.land (image_word d (n + 1)) 0x10000 ≠ 0;
  ld_start : image_word d (n + 4) ≤ image_word d (n + 3);
  ld_offset : image_word d (n + 3) - image_word d (n + 4) ≤ 4 * n;
  ld_end : image_word d (n + 4) ≤ image_word d (n + 5);
  ld_above : SCRATCH + 8192 + SECTSIZE ≤ image_word d (n + 4);
  ld_below : image_word d (n + 5) + SECTSIZE < 2 ^ 32;
}.

Lemma second_read d n s :
  loadable d n → boot_phase (controller s) = Ready → same_disk d (controller s) → in_scratch d (ram s) →
  let la := image_word d (n + 4) in let le := image_word d (n + 5) in
  let o := 4 * n - (image_word d (n + 3) - la) in
  ∃ s', readseg fuel la (u32 (le - la)) (u32 (n * 4 - (image_word d (n + 3) - la))) s = Ok tt s' ∧
    in_scratch d (ram s') ∧ ∀ x, la ≤ x < le → ram s' x = image_byte d (o + (x - la)).
Proof.
  intros [Hn _ _ _ Hs Ho He Ha Hb] Hp Hd Hm la le o. fold la le in Hs, Ho, He, Ha, Hb |- *.
  pose proof (image_word_range d (n + 4)) as Hla. pose proof (image_word_range d (n + 3)) as Hha.
  fold la in Hla. unfold SECTSIZE, SCRATCH in *. rewrite (wrap_small 32 (le - la)) by lia.
  replace (n * 4 - (image_word d (n + 3) - la)) with o by (unfold o; lia). rewrite wrap_small by lia.
  pose proof (Z.mod_pos_bound o 512 ltac:(lia)) as Hr.
  destruct (readseg_run la (le - la) o s Hp) as (k & s' & Hrun & _ & _ & M' & Hk); unfold SECTSIZE in *; [lia..|].
  exists s'. split; [done|]. split.
  - intros x Hx. unfold SCRATCH in *. rewrite (M' x), decide_False by (unfold SECTSIZE; lia). by apply Hm.
  - intros x Hx. rewrite (M' x), decide_True by (unfold SECTSIZE; lia). unfold SECTSIZE.
    rewrite (same_disk_byte _ _ _ Hd). f_equal. lia.
Qed.

(** C18. The boot loader loads the kernel: when the first multiboot header in the first 8192 bytes of the image describes a
    segment of it that fits, bootmain ends by a call of the entry point with the bytes of the image from the start
    of the segment on at the addresses asked for, and zeros from there to the end of the bss. *)
Theorem bootmain_loads n s :
  boot_phase (controller s) = Ready → loadable (controller s) n →
  let w j := image_word (controller s) (n + j) in
  ∃ s', bootmain fuel s = Ok (Some (w 7)) s' ∧
    (∀ x, w 4 ≤ x < w 5 → ram s' x = image_byte (controller s) (4 * n - (w 3 - w 4) + (x - w 4))) ∧
    ∀ x, w 5 ≤ x < w 6 → ram s' x = 0.
Proof.
  intros Hp Hok w. set (d := controller s) in *. pose proof (ld_index d n Hok) as Hn. unfold bootmain.
  destruct (first_read s Hp) as (s1 & R1 & P1 & S1 & M1). fold d in S1, M1.
  rewrite (bind_run _ _ _ _ _ R1), (bind_run _ _ s1 (ram s1) s1) by done.
  rewrite (find_header_run (Z.to_nat n) _ 0 d (ram s1)); [|done|lia|lia|change (Z.to_nat (8192 / 4)) with 2048%nat; lia
    |rewrite Z.add_0_l, Z2Nat.id by lia; apply Hok|rewrite Z2Nat.id by lia; apply Hok].
  rewrite Z.add_0_l, Z2Nat.id by lia. cbv zeta.
  rewrite (bind_run _ _ _ _ _ (field_run d n 1 s1 M1 ltac:(lia) ltac:(lia) ltac:(lia))).
  rewrite (proj2 (Z.eqb_neq _ _) (ld_flags d n Hok)).
  rewrite (bind_run _ _ _ _ _ (field_run d n 4 s1 M1 ltac:(lia) ltac:(lia) ltac:(lia))).
  rewrite (bind_run _ _ _ _ _ (field_run d n 3 s1 M1 ltac:(lia) ltac:(lia) ltac:(lia))).
  rewrite (proj2 (Z.ltb_ge _ _) (ld_start d n Hok)).
  rewrite (bind_run _ _ _ _ _ (field_run d n 5 s1 M1 ltac:(lia) ltac:(lia) ltac:(lia))).
  rewrite (proj2 (Z.ltb_ge _ _) (ld_end d n Hok)).
  destruct (second_read d n s1 Hok P1 S1 M1) as (s2 & R2 & M2 & Hseg). rewrite (bind_run _ _ _ _ _ R2).
  rewrite (bind_run _ _ _ _ _ (field_run d n 6 s2 M2 ltac:(lia) ltac:(lia) ltac:(lia))).
  rewrite (bind_run _ _ _ _ _ (field_run d n 5 s2 M2 ltac:(lia) ltac:(lia) ltac:(lia))).
  pose proof (ld_above d n Hok) as Ha. pose proof (ld_end d n Hok) as He. unfold w in *.
  pose proof (image_word_range d (n + 5)). pose proof (image_word_range d (n + 6)).
  destruct (Z.ltb_spec (image_word d (n + 5)) (image_word d (n + 6))) as [Hlt|Hge]; cbn [when].
  - erewrite bind_run by reflexivity. rewrite wrap_small by lia.
    set (s3 := Loader _ _).
    assert (∀ x, ram s3 x = if decide (image_word d (n + 5) ≤ x < image_word d (n + 6)) then 0 else ram s2 x) as M3.
    { intros x. unfold s3. cbn [ram]. rewrite poke_lookup, length_replicate. do 2 case_decide; try (done || lia).
      rewrite lookup_total_replicate_2; [done|lia]. }
    assert (in_scratch d (ram s3)) as M3'.
    { intros x Hx. rewrite M3, decide_False by (unfold SECTSIZE in Ha; lia). by apply M2. }
    rewrite (bind_run _ _ _ _ _ (field_run d n 7 s3 M3' ltac:(lia) ltac:(lia) ltac:(lia))).
    exists s3. split; [done|]. split; intros x Hx; rewrite M3; [rewrite decide_False by lia; by apply Hseg|].
    by rewrite decide_True.
  - rewrite (bind_run _ _ s2 tt s2) by done.
    rewrite (bind_run _ _ _ _ _ (field_run d n 7 s2 M2 ltac:(lia) ltac:(lia) ltac:(lia))).
    exists s2. split; [done|]. split; [done|]. intros x Hx. lia.
Qed.
End theorems.

(** * An example *)

(** A disk that is always ready and that has a kernel of 1000 bytes: the header is its third word. *)
Record psim := Psim { ps_reg : Z → Z; ps_phase : phase }.
Definition ex_words : list Z :=
  [0; 0; 0x1BADB002; 0x10000; 2 ^ 32 - 0x1BADB002 - 0x10000; 0x100008; 0x100000; 0x1003e8; 0x100400; 0x10000c].
Definition ex_image : list Z := concat (le_enc 4 <$> ex_words) ++ replicate 960 0x90.
Definition ex_sector (n : Z) : list Z :=
  resize (Z.to_nat SECTSIZE) 0 (if 1 <=? n then drop (Z.to_nat (512 * Z.min 4 (n - 1))) ex_image else []).

#[global] Instance psim_ports : Ports psim := {
  inb _ d := (IDE_DRDY, d);
  outb p v d :=
    if p =? 0x1f7 then Psim (ps_reg d) (Reading (drive (ps_reg d)) (lba (ps_reg d)))
    else Psim (λ r, if decide (r = p) then v else ps_reg d r) (ps_phase d);
  insl _ _ d := match ps_phase d with Reading _ n => (ex_sector n, Psim (ps_reg d) Ready) | _ => ([], d) end;
  outsl _ _ d := d;
}.

Lemma ex_image_bytes : bytes ex_image.
Proof.
  apply Forall_app. split; [|by apply Forall_replicate].
  apply Forall_concat, list.Forall_fmap, list.Forall_true. intros x. apply le_enc_bytes.
Qed.

#[global] Instance psim_ata : PolledAta psim.
Proof.
  refine {| sector _ := ex_sector; boot_phase := ps_phase; boot_reg := ps_reg; boot_polls := 1 |}.
  - intros _ n. split; [apply length_resize|]. unfold ex_sector. apply Forall_resize; [done|].
    destruct (1 <=? n); [apply Forall_drop, ex_image_bytes|constructor].
  - done.
  - intros d. exists 0%nat. split; [lia|done].
  - intros d p v Hd Hp. cbn [outb psim_ports]. rewrite (proj2 (Z.eqb_neq p _)); [done|].
    intros ->. unfold boot_regs in Hp. set_solver.
  - done.
  - intros d n Hd _. cbn [insl psim_ports inb snd]. by rewrite Hd.
Defined.

Lemma psim_polls : (boot_polls (D := psim) ≤ 1)%nat.
Proof. unfold boot_polls. simpl. lia. Qed.

Definition ex_loader : loader psim := Loader (λ _, 0) (Psim (λ _, 0) Ready).

Lemma ex_loadable : loadable (controller ex_loader) 2.
Proof.
  split; [lia|by vm_compute| |by vm_compute..]. intros j Hj [E _].
  assert (j = 0 ∨ j = 1) as [-> | ->] by lia; by vm_compute in E.
Qed.

Lemma ex_fields (w := λ j, image_word (controller ex_loader) (2 + j)) :
  w 3 = 0x100008 ∧ w 4 = 0x100000 ∧ w 5 = 0x1003e8 ∧ w 6 = 0x100400 ∧ w 7 = 0x10000c.
Proof. repeat split; vm_compute; reflexivity. Qed.

Lemma bootmain_loads_witness :
  ∃ s', bootmain 1 ex_loader = Ok (Some 0x10000c) s' ∧
    ram s' 0x100008 = 0x02 ∧ ram s' 0x1003e7 = 0x90 ∧ ram s' 0x1003ff = 0.
Proof.
  destruct (bootmain_loads 1 psim_polls 2 ex_loader eq_refl ex_loadable) as (s' & Hrun & Hseg & Hbss).
  destruct ex_fields as (E3 & E4 & E5 & E6 & E7).
  rewrite E3, E4, E5, E6, E7 in *. exists s'. split; [exact Hrun|].
  split; [rewrite Hseg by lia; vm_compute; reflexivity|]. split; [rewrite Hseg by lia; vm_compute; reflexivity|].
  apply Hbss. lia.
Defined.
