(* ===== verification/Kernel.v ===== *)
(** The state of the whole kernel, as the code that crosses components sees it: the file system with
    the log and the buffer cache below it, the table of open files, memory, the pipes, the process
    table, and the process that runs.

    A component's code runs on its part of the state.  The file system code also sees the
    pid and the current directory of the process that runs; the wakeups that it issues on
    inodes, buffers and the log are recorded in its own state. *)

From S2P Require Import Prelude Bytes Layout Mem Kalloc Vm Pipe Log Txn Fs Proc.

(** What the callers of fs.c use of log.c, next to the blocks of [TxnIO]. *)
Class TxnOps (St : Type) := {
  t_begin_op : M St unit;
  t_end_op : M St unit;
  t_initlog : Z → M St unit;
}.
#[global] Instance log_ops {B} `{!Blocks.BlockIO B} : TxnOps (logst B) := {|
  t_begin_op := begin_op;
  t_end_op := end_op;
  t_initlog := initlog;
|}.

#[global] Instance mem_ops : TxnOps MemTxn.mst := {|
  t_begin_op := mret tt;
  t_end_op := modify (λ s, MemTxn.Mst (MemTxn.m_blocks s) ∅ (MemTxn.m_held s));
  t_initlog _ := mret tt;
|}.

(** What begin_op and end_op promise an operation that changes nothing: [tx_idle] is a state between
    operations, in which the blocks have the contents [V]. *)
Class TxnOpsSpec (St : Type) `{!TxnIO St, !TxnSpec St, !TxnOps St} := {
  tx_idle : St → list (list Z) → Prop;
  tx_begin s V : tx_idle s V → wp t_begin_op (λ _ s', tx_is s' V ∅ ∅) s;
  tx_end s V : tx_is s V ∅ ∅ → wp t_end_op (λ _ s', tx_idle s' V) s;
}.

(** A disk in memory keeps them; so does the log, for an operation beside at most two others that have not ended. *)
#[global, refine] Instance mem_ops_spec : TxnOpsSpec MemTxn.mst := {|
  tx_idle s V := MemTxn.mem_is s V ∅ ∅;
|}.
Proof.
  - intros s V Hs. by apply wp_ret.
  - intros s V (->&HV&HH). by apply wp_modify.
Defined.

Definition log_ops_spec {B} `{!Blocks.BlockIO B, !Blocks.BlockIOSpec B} start lsize disk trace ops (Hops : 1 ≤ ops ≤ 3) :
    TxnOpsSpec (TxnSpec0 := log_txn start lsize disk trace ops) (logst B) :=
  @Build_TxnOpsSpec (logst B) _ (log_txn start lsize disk trace ops) _ (log_idle start lsize disk trace ops)
    (λ s V, log_begin start lsize disk trace ops s V Hops) (log_end start lsize disk trace ops).

(** ** Open files (file.h) *)

Inductive fdtype := FD_NONE | FD_PIPE | FD_INODE.
#[global] Instance fdtype_eq_dec : EqDecision fdtype.
Proof. solve_decision. Defined.

(** f->pipe is the address of the pipe; a stale pipe or ip is whatever was there. *)
Record file := File {
  f_type : fdtype;
  f_ref : Z;
  f_readable : bool;
  f_writable : bool;
  f_pipe : Z;
  f_ip : nat;
  f_off : Z;
}.
Definition set_f_ref (r : Z) (f : file) : file :=
  File (f_type f) r (f_readable f) (f_writable f) (f_pipe f) (f_ip f) (f_off f).
Definition set_f_type (t : fdtype) (f : file) : file :=
  File t (f_ref f) (f_readable f) (f_writable f) (f_pipe f) (f_ip f) (f_off f).
Definition set_f_off (o : Z) (f : file) : file :=
  File (f_type f) (f_ref f) (f_readable f) (f_writable f) (f_pipe f) (f_ip f) o.
Definition set_f_inode (ip : nat) (r w : bool) (f : file) : file :=
  File FD_INODE (f_ref f) r w (f_pipe f) ip 0.
Definition set_f_pipe (pa : Z) (r w : bool) (f : file) : file :=
  File FD_PIPE (f_ref f) r w pa (f_ip f) (f_off f).

Record ftable := Ftable { ft_lock : bool; ft_file : list file }.
Definition set_ft_lock (b : bool) (s : ftable) : ftable := Ftable b (ft_file s).
Definition ftable_lock : lens ftable bool := Lens ft_lock set_ft_lock.

(** ** The kernel *)

Record kernel (St : Type) := Kernel {
  k_fs : fsst St;
  k_ft : ftable;
  k_mem : kmem;
  k_pipes : gmap Z pipe;     (* struct pipe at the address of its page *)
  k_pt : ptable;
  k_me : nat;                (* proc *)
  k_ticks : Z;
  k_tickslock : bool;
  k_kpdpt : Z;
  k_first : bool;            (* the static of forkret *)
}.
Arguments Kernel {St} k_fs k_ft k_mem k_pipes k_pt k_me k_ticks k_tickslock k_kpdpt k_first.
Arguments k_fs {St} k.
Arguments k_ft {St} k.
Arguments k_mem {St} k.
Arguments k_pipes {St} k.
Arguments k_pt {St} k.
Arguments k_me {St} k.
Arguments k_ticks {St} k.
Arguments k_tickslock {St} k.
Arguments k_kpdpt {St} k.
Arguments k_first {St} k.

Section State.
Context {St : Type}.
Implicit Types k : kernel St.

Definition set_k_fs (x : fsst St) k : kernel St :=
  Kernel x (k_ft k) (k_mem k) (k_pipes k) (k_pt k) (k_me k) (k_ticks k) (k_tickslock k) (k_kpdpt k) (k_first k).
Definition set_k_ft (x : ftable) k : kernel St :=
  Kernel (k_fs k) x (k_mem k) (k_pipes k) (k_pt k) (k_me k) (k_ticks k) (k_tickslock k) (k_kpdpt k) (k_first k).
Definition set_k_mem (x : kmem) k : kernel St :=
  Kernel (k_fs k) (k_ft k) x (k_pipes k) (k_pt k) (k_me k) (k_ticks k) (k_tickslock k) (k_kpdpt k) (k_first k).
Definition set_k_pipes (x : gmap Z pipe) k : kernel St :=
  Kernel (k_fs k) (k_ft k) (k_mem k) x (k_pt k) (k_me k) (k_ticks k) (k_tickslock k) (k_kpdpt k) (k_first k).
Definition set_k_pt (x : ptable) k : kernel St :=
  Kernel (k_fs k) (k_ft k) (k_mem k) (k_pipes k) x (k_me k) (k_ticks k) (k_tickslock k) (k_kpdpt k) (k_first k).
Definition set_k_ticks (x : Z) k : kernel St :=
  Kernel (k_fs k) (k_ft k) (k_mem k) (k_pipes k) (k_pt k) (k_me k) x (k_tickslock k) (k_kpdpt k) (k_first k).
Definition set_k_tickslock (x : bool) k : kernel St :=
  Kernel (k_fs k) (k_ft k) (k_mem k) (k_pipes k) (k_pt k) (k_me k) (k_ticks k) x (k_kpdpt k) (k_first k).
Definition set_k_first (x : bool) k : kernel St :=
  Kernel (k_fs k) (k_ft k) (k_mem k) (k_pipes k) (k_pt k) (k_me k) (k_ticks k) (k_tickslock k) (k_kpdpt k) x.

Definition ft_lens : lens (kernel St) ftable := Lens k_ft set_k_ft.
Definition mem_lens : lens (kernel St) kmem := Lens k_mem set_k_mem.
Definition pt_lens : lens (kernel St) ptable := Lens k_pt set_k_pt.
Definition tickslock_lens : lens (kernel St) bool := Lens k_tickslock set_k_tickslock.

(** The file system as the process with this pid and directory sees it. *)
Definition set_fs_proc (pid : Z) (cwd : nat) (f : fsst St) : fsst St :=
  FsSt (fs_io f) (fs_sb f) (fs_lock f) (fs_inodes f) pid cwd (fs_wakes f).
Definition fs_lens (pid : Z) (cwd : nat) : lens (kernel St) (fsst St) :=
  Lens (λ k, set_fs_proc pid cwd (k_fs k)) set_k_fs.

Definition ft {A} (m : M ftable A) : M (kernel St) A := zoom ft_lens m.
Definition mem {A} (m : M kmem A) : M (kernel St) A := zoom mem_lens m.
Definition pt {A} (m : M ptable A) : M (kernel St) A := zoom pt_lens m.

(** The process that runs. *)
Definition me : M (kernel St) proc := i ← gets k_me; pt (getp i).
Definition upd_me (f : proc → proc) : M (kernel St) unit := i ← gets k_me; pt (updp i f).
Definition kwakeup (ch : Z) : M (kernel St) unit := pt (wakeup ch).
Definition me_killed (k : kernel St) : bool :=
  match pt_proc (k_pt k) !! k_me k with Some p => p_killed p | None => false end.

Definition fs {A} (m : M (fsst St) A) : M (kernel St) A :=
  p ← me;
  cwd ← the "proc->cwd" (p_cwd p);
  zoom (fs_lens (p_pid p) cwd) m.

(** The pipe at [pa]; a pointer to no pipe is wild. *)
Definition pipe_lens (pa : Z) : lens (kernel St) pipe :=
  Lens (λ k, default (pipe_init []) (k_pipes k !! pa)) (λ p k, set_k_pipes (<[pa := p]> (k_pipes k)) k).
Definition on_pipe {A} (pa : Z) (m : M (kernel St) A) : M (kernel St) A :=
  ps ← gets k_pipes; _ ← the "pipe" (ps !! pa); m.

Context `{!TxnOps St}.
Definition kbegin_op : M (kernel St) unit := fs (zoom fs_io_lens t_begin_op).
Definition kend_op : M (kernel St) unit := fs (zoom fs_io_lens t_end_op).
End State.

(** ** Memory through the page table of the process that runs

    The kernel uses user addresses directly; an address that is not mapped, or a store to a page that
    is not writable, traps in kernel mode, which panics.  Addresses from KERNBASE on are the
    kernel's map of physical memory. *)

Definition vpage (m : pmem) (pgdir a : Z) (wr : bool) : option Z :=
  if a <? 2 ^ 47 then
    let base := a - a mod PGSIZE in
    e ← leaf m pgdir (vpath base);
    if wr && (Z.land e PTE_W =? 0) then None else Some (u64 (P2V (PTE_ADDR e) + a mod PGSIZE))
  else Some a.

Definition load_byte (m : pmem) (pgdir a : Z) : option Z :=
  v ← vpage m pgdir a false; pg ← m !! page_of v; pg !! off_of v.
Definition store_byte (pgdir a x : Z) (m : pmem) : option pmem :=
  v ← vpage m pgdir a true; pg ← m !! page_of v; Some (<[page_of v := <[off_of v := u8 x]> pg]> m).

(** The bytes from [a] on, as far as they can be read, at most [n]. *)
Fixpoint load_prefix (m : pmem) (pgdir a : Z) (n : nat) : list Z :=
  match n with
  | O => []
  | S n => match load_byte m pgdir a with Some x => x :: load_prefix m pgdir (u64 (a + 1)) n | None => [] end
  end.
Fixpoint store_all (pgdir a : Z) (bs : list Z) (m : pmem) : option pmem :=
  match bs with
  | [] => Some m
  | x :: bs => m ← store_byte pgdir a x m; store_all pgdir (u64 (a + 1)) bs m
  end.

Section User.
Context {St : Type}.

Definition trap_if_none {A} (o : option A) : M (kernel St) A :=
  match o with Some a => mret a | None => panic "trap" end.

Definition user_prefix (a : Z) (n : Z) : M (kernel St) (list Z) :=
  p ← me; k ← gets k_mem; mret (load_prefix (km_mem k) (p_pgdir p) a (Z.to_nat n)).
Definition user_load (a : Z) (n : Z) : M (kernel St) (list Z) :=
  bs ← user_prefix a n;
  if Z.of_nat (length bs) <? n then panic "trap" else mret bs.
Definition user_store (a : Z) (bs : list Z) : M (kernel St) unit :=
  p ← me;
  k ← gets k_mem;
  m ← trap_if_none (store_all (p_pgdir p) a bs (km_mem k));
  mem (modify (set_km_mem m)).
End User.
