(* ===== verification/File.v ===== *)
(** Open files (src/file.c) and the creation of pipes (pipealloc in src/pipe.c).

    A [struct file *] is an index into ftable.file; a null pointer is [None]. *)

From S2P Require Import Prelude Bytes Layout Mem Kalloc Vm Pipe Txn Fs Proc Kernel.

Section Table.
Definition getf (f : nat) : M ftable file := l ← gets ft_file; the "f" (l !! f).
Definition updf (f : nat) (g : file → file) : M ftable unit :=
  modify (λ s, Ftable (ft_lock s) (alter g f (ft_file s))).

Fixpoint find_free (i : nat) (l : list file) : option nat :=
  match l with
  | [] => None
  | f :: l => if f_ref f =? 0 then Some i else find_free (S i) l
  end.

Definition filealloc : M ftable (option nat) :=
  acquire ftable_lock;;
  l ← gets ft_file;
  match find_free 0 l with
  | Some f => updf f (set_f_ref 1);; release ftable_lock;; mret (Some f)
  | None => release ftable_lock;; mret None
  end.

Definition filedup (f : nat) : M ftable nat :=
  acquire ftable_lock;;
  x ← getf f;
  if f_ref x <? 1 then panic "filedup" else
  updf f (set_f_ref (f_ref x + 1));;
  release ftable_lock;;
  mret f.

(** fileclose while it holds the lock: the file to clean up after, if this was the last
    reference. *)
Definition drop_ref (f : nat) : M ftable (option file) :=
  acquire ftable_lock;;
  x ← getf f;
  if f_ref x <? 1 then panic "fileclose" else
  updf f (set_f_ref (f_ref x - 1));;
  if 0 <? f_ref x - 1 then release ftable_lock;; mret None else
  ff ← getf f;
  updf f (set_f_ref 0);;
  updf f (set_f_type FD_NONE);;
  release ftable_lock;;
  mret (Some ff).
End Table.

Section Code.
Context {St : Type} `{!TxnIO St, !TxnOps St} (devsw : list (devops (St := St))) (kend : Z).
Local Abbreviation MK := (M (kernel St)).

(** kfree of the page of a pipe. *)
Definition kfree_pipe (pa : Z) : MK unit :=
  modify (λ k, set_k_pipes (delete pa (k_pipes k)) k);;
  mem (kfree kend pa).

Definition fileclose (f : nat) : MK unit :=
  ff ← ft (drop_ref f);
  match ff with
  | None => mret tt
  | Some ff =>
      if decide (f_type ff = FD_PIPE) then
        on_pipe (f_pipe ff) (pipeclose (pipe_lens (f_pipe ff)) (f_pipe ff) kwakeup kfree_pipe (f_writable ff))
      else if decide (f_type ff = FD_INODE) then
        kbegin_op;;
        fs (iput (f_ip ff));;
        kend_op
      else mret tt
  end.

(** The stat goes to the caller's struct. *)
Definition filestat (f : nat) : MK (option stat) :=
  x ← ft (getf f);
  if decide (f_type x = FD_INODE) then
    fs (ilock (Some (f_ip x)));;
    st ← fs (stati (f_ip x));
    fs (iunlock (Some (f_ip x)));;
    mret (Some st)
  else mret None.

Definition fileread (f : nat) (addr n : Z) : MK Z :=
  x ← ft (getf f);
  if negb (f_readable x) then mret (-1) else
  if decide (f_type x = FD_PIPE) then
    r ← on_pipe (f_pipe x) (piperead (pipe_lens (f_pipe x)) (f_pipe x) kwakeup me_killed n);
    match r with
    | Returns (r, bs) => user_store addr bs;; mret r
    | Sleeps ch _ => sleep_on ch
    end
  else if decide (f_type x = FD_INODE) then
    fs (ilock (Some (f_ip x)));;
    rb ← fs (readi devsw (f_ip x) (f_off x) (u32 n));
    user_store addr rb.2;;
    when (0 <? rb.1) (ft (updf f (set_f_off (u32 (f_off x + rb.1)))));;
    fs (iunlock (Some (f_ip x)));;
    mret rb.1
  else panic "fileread".

(** The bytes written by one operation of filewrite: ((LOGSIZE-1-1-2) / 2) * 512 *)
Definition WRITE_MAX : Z := (LOGSIZE - 1 - 1 - 2) / 2 * 512.

(** The loop of filewrite from byte [i] on.  The source is read as far as it is mapped; a write that needs more
    of it traps. *)
Fixpoint filewrite_loop (fuel : nat) (f : nat) (ip : nat) (addr n i : Z) : MK Z :=
  if negb (i <? n) then mret i else
  match fuel with
  | O => out_of_fuel
  | S fuel =>
      let n1 := if WRITE_MAX <? n - i then WRITE_MAX else n - i in
      kbegin_op;;
      fs (ilock (Some ip));;
      x ← ft (getf f);
      src ← user_prefix (u64 (addr + i)) n1;
      r ← fs (writei devsw ip src (f_off x) n1);
      when ((0 <=? r) && (Z.of_nat (length src) <? n1)) (panic "trap");;
      when (0 <? r) (ft (updf f (set_f_off (u32 (f_off x + r)))));;
      fs (iunlock (Some ip));;
      kend_op;;
      if r <? 0 then mret i else
      if negb (r =? n1) then panic "short filewrite" else
      filewrite_loop fuel f ip addr n (i + r)
  end.

Definition filewrite (f : nat) (addr n : Z) : MK Z :=
  x ← ft (getf f);
  if negb (f_writable x) then mret (-1) else
  if decide (f_type x = FD_PIPE) then
    bs ← user_load addr n;
    r ← on_pipe (f_pipe x) (pipewrite (pipe_lens (f_pipe x)) (f_pipe x) kwakeup me_killed n bs);
    match r with
    | Returns r => mret r
    | Sleeps ch _ => sleep_on ch
    end
  else if decide (f_type x = FD_INODE) then
    i ← filewrite_loop (S (Z.to_nat n)) f (f_ip x) addr n 0;
    mret (if i =? n then n else -1)
  else panic "filewrite".

(** A page becomes a pipe; its data are the bytes that were there. *)
Definition pipe_page (pa : Z) : MK unit :=
  k ← gets k_mem;
  pg ← the "page" (km_mem k !! page_of pa);
  modify (λ k, set_k_pipes (<[pa := pipe_init (sub 104 (Z.to_nat PIPESIZE) pg)]> (k_pipes k)) k).

Definition pipealloc : MK (option (nat * nat)) :=
  f0 ← ft filealloc;
  match f0 with
  | None => mret None
  | Some f0 =>
      f1 ← ft filealloc;
      match f1 with
      | None => fileclose f0;; mret None
      | Some f1 =>
          p ← mem kalloc;
          if p =? 0 then fileclose f0;; fileclose f1;; mret None else
          pipe_page p;;
          ft (updf f0 (set_f_pipe p true false));;
          ft (updf f1 (set_f_pipe p false true));;
          mret (Some (f0, f1))
      end
  end.
End Code.
