(* ===== verification/Sysarg.v ===== *)
(** The arguments of system calls (src/syscall.c, up to the table of calls).

    The arguments are in the registers that the trap frame saved.  A function that stores through a pointer
    and returns a status returns both; [junk] is the caller's variable before the call. *)

From S2P Require Import Prelude Bytes Layout Mem Kalloc Vm Proc Kernel.

Section Code.
Context {St : Type}.
Local Abbreviation MK := (M (kernel St)).

(** [*ip] when the call returns 0. *)
Definition fetchint (addr : Z) : MK (option Z) :=
  p ← me;
  if (addr <? PGSIZE) || (p_sz p <=? addr) || (p_sz p <? u64 (addr + 4)) then mret None else
  bs ← user_load addr 4;
  mret (Some (s32 (get_u32 0 bs))).

Definition fetchaddr (addr : Z) : MK (option Z) :=
  p ← me;
  if (addr <? PGSIZE) || (p_sz p <=? addr) || (p_sz p <? u64 (addr + 8)) then mret None else
  bs ← user_load addr 8;
  mret (Some (get_u64 0 bs)).

(** The loop of fetchstr over the [n] bytes from [s] to the end of the process; the string with its
    null. *)
Fixpoint fetchstr_loop (s : Z) (n : nat) : MK (option (list Z)) :=
  match n with
  | O => mret None
  | S n =>
      bs ← user_load s 1;
      c ← the "*s" (head bs);
      if c =? 0 then mret (Some [0])
      else r ← fetchstr_loop (u64 (s + 1)) n; mret (cons c <$> r)
  end.
Definition fetchstr (addr : Z) : MK (option (list Z)) :=
  p ← me;
  if (addr <? PGSIZE) || (p_sz p <=? addr) then mret None else
  fetchstr_loop addr (Z.to_nat (p_sz p - addr)).

Definition fetcharg (n : Z) : MK Z :=
  p ← me;
  let tf := p_tf p in
  if n =? 0 then mret (tf_rdi tf) else
  if n =? 1 then mret (tf_rsi tf) else
  if n =? 2 then mret (tf_rdx tf) else
  if n =? 3 then mret (tf_r10 tf) else
  if n =? 4 then mret (tf_r8 tf) else
  if n =? 5 then mret (tf_r9 tf) else
  panic "failed fetch".

(** argint and argaddr always return 0. *)
Definition argint (n : Z) : MK Z := a ← fetcharg n; mret (s32 a).
Definition argaddr (n : Z) : MK Z := fetcharg n.

(** argptr returns an addr_t: 0, or -1 as an unsigned number, with the caller's pointer. *)
Definition argptr (n size junk : Z) : MK (Z * Z) :=
  i ← argaddr n;
  p ← me;
  if (size <? 0) || (p_sz p <=? u32 i) || (p_sz p <? u32 (u32 i + size)) then mret (u64 (-1), junk)
  else mret (0, i).

(** The argument is taken as an int and converted to an address. *)
Definition argstr (n : Z) : MK (option (list Z)) :=
  a ← argint n;
  fetchstr (u64 a).
End Code.
