(* ===== verification/Sysfile.v ===== *)
(** The system calls on files (src/sysfile.c, without sys_exec).

    [junk_de] and [junk_name] stand for local variables that are not initialised. *)

From S2P Require Import Prelude Bytes Layout Mem Kalloc Vm Kstring Pipe Txn Fs Proc Kernel File Sysarg.

Definition O_RDONLY : Z := 0.
Definition O_WRONLY : Z := 1.
Definition O_RDWR : Z := 2.
Definition O_CREATE : Z := 0x200.

(** The names . and .. *)
Definition DOT_NAME : list Z := [46; 0].
Definition DOTDOT_NAME : list Z := [46; 46; 0].

Definition STAT_SIZE : Z := 20.

Section Code.
Context {St : Type} `{!TxnIO St, !TxnOps St} (devsw : list (devops (St := St))) (kend : Z).
Context (junk_de : dirent) (junk_name : list Z) (junk_ptr : Z).
Local Abbreviation MK := (M (kernel St)).

Definition argfd (n : Z) : MK (option (Z * nat)) :=
  fd ← argint n;
  if (fd <? 0) || (Z.of_nat NOFILE <=? fd) then mret None else
  p ← me;
  f ← the "proc->ofile" (p_ofile p !! Z.to_nat fd);
  mret (pair fd <$> f).

Fixpoint find_fd (fd : nat) (l : list (option nat)) : option nat :=
  match l with
  | [] => None
  | None :: _ => Some fd
  | Some _ :: l => find_fd (S fd) l
  end.
Definition set_ofile (fd : nat) (f : option nat) : MK unit :=
  upd_me (λ p, set_p_ofile (<[fd := f]> (p_ofile p)) p).

(** The loop over the NOFILE descriptors; -1 if none is free. *)
Definition fdalloc (f : nat) : MK Z :=
  p ← me;
  match find_fd 0 (p_ofile p) with
  | Some fd => set_ofile fd (Some f);; mret (Z.of_nat fd)
  | None => mret (-1)
  end.

Definition sys_dup : MK Z :=
  a ← argfd 0;
  match a with
  | None => mret (-1)
  | Some (_, f) =>
      fd ← fdalloc f;
      if fd <? 0 then mret (-1) else
      ft (filedup f);;
      mret fd
  end.

(** The test of argptr's result compares an unsigned number with 0. *)
Definition sys_read : MK Z :=
  a ← argfd 0;
  match a with
  | None => mret (-1)
  | Some (_, f) =>
      n ← argint 2;
      rp ← argptr 1 n junk_ptr;
      if rp.1 <? 0 then mret (-1) else fileread devsw f rp.2 n
  end.

Definition sys_write : MK Z :=
  a ← argfd 0;
  match a with
  | None => mret (-1)
  | Some (_, f) =>
      n ← argint 2;
      rp ← argptr 1 n junk_ptr;
      if rp.1 <? 0 then mret (-1) else filewrite devsw f rp.2 n
  end.

Definition sys_close : MK Z :=
  a ← argfd 0;
  match a with
  | None => mret (-1)
  | Some (fd, f) =>
      set_ofile (Z.to_nat fd) None;;
      fileclose kend f;;
      mret 0
  end.

(** The stores of stati, field by field; the padding of struct stat keeps its contents. *)
Definition store_stat (a : Z) (st : stat) : MK unit :=
  user_store a (put_u16 0 (u16 (st_type st)) (replicate 2 0));;
  user_store (u64 (a + 4)) (put_u32 0 (u32 (st_dev st)) (replicate 4 0));;
  user_store (u64 (a + 8)) (put_u32 0 (st_ino st) (replicate 4 0));;
  user_store (u64 (a + 12)) (put_u16 0 (u16 (st_nlink st)) (replicate 2 0));;
  user_store (u64 (a + 16)) (put_u32 0 (st_size st) (replicate 4 0)).

Definition sys_fstat : MK Z :=
  a ← argfd 0;
  match a with
  | None => mret (-1)
  | Some (_, f) =>
      rp ← argptr 1 STAT_SIZE junk_ptr;
      if rp.1 <? 0 then mret (-1) else
      st ← filestat f;
      match st with
      | Some st => store_stat rp.2 st;; mret 0
      | None => mret (-1)
      end
  end.

Fixpoint isdirempty_loop (fuel : nat) (dp : nat) (off : Z) : MK bool :=
  i ← fs (geti dp);
  if negb (off <? di_size (i_di i)) then mret true else
  match fuel with
  | O => out_of_fuel
  | S fuel =>
      de ← fs (read_dirent devsw dp off "isdirempty: readi");
      if negb (de_inum de =? 0) then mret false
      else isdirempty_loop fuel dp (off + DIRENT_SIZE)
  end.
Definition isdirempty (dp : nat) : MK bool :=
  i ← fs (geti dp);
  isdirempty_loop (Z.to_nat (di_size (i_di i))) dp (2 * DIRENT_SIZE).

(** nlink is a short. *)
Definition add_nlink (ip : nat) (d : Z) : MK unit :=
  fs (upd_di ip (λ di, set_di_nlink (s16 (di_nlink di + d)) di)).

Definition sys_link_bad (ip : nat) : MK Z :=
  fs (ilock (Some ip));;
  add_nlink ip (-1);;
  fs (iupdate ip);;
  fs (iunlockput ip);;
  kend_op;;
  mret (-1).

Definition sys_link : MK Z :=
  old ← argstr 0;
  match old with None => mret (-1) | Some old =>
  new ← argstr 1;
  match new with None => mret (-1) | Some new =>
  kbegin_op;;
  ip ← fs (namei devsw old junk_name);
  match ip with
  | None => kend_op;; mret (-1)
  | Some ip =>
      fs (ilock (Some ip));;
      i ← fs (geti ip);
      if di_type (i_di i) =? T_DIR then fs (iunlockput ip);; kend_op;; mret (-1) else
      add_nlink ip 1;;
      fs (iupdate ip);;
      fs (iunlock (Some ip));;
      dn ← fs (nameiparent devsw new junk_name);
      match dn with
      | (None, _) => sys_link_bad ip
      | (Some dp, name) =>
          fs (ilock (Some dp));;
          d ← fs (geti dp);
          i ← fs (geti ip);
          r ← (if negb (i_dev d =? i_dev i) then mret (-1) else fs (dirlink devsw junk_de dp name (i_inum i)));
          if r <? 0 then fs (iunlockput dp);; sys_link_bad ip else
          fs (iunlockput dp);;
          fs (iput ip);;
          kend_op;;
          mret 0
      end
  end
  end end.

Definition sys_unlink_bad (dp : nat) : MK Z :=
  fs (iunlockput dp);;
  kend_op;;
  mret (-1).

Definition sys_unlink : MK Z :=
  path ← argstr 0;
  match path with None => mret (-1) | Some path =>
  kbegin_op;;
  dn ← fs (nameiparent devsw path junk_name);
  match dn with
  | (None, _) => kend_op;; mret (-1)
  | (Some dp, name) =>
      fs (ilock (Some dp));;
      c1 ← the "namecmp" (namecmp name DOT_NAME);
      c2 ← (if c1 =? 0 then mret 0 else the "namecmp" (namecmp name DOTDOT_NAME));
      if (c1 =? 0) || (c2 =? 0) then sys_unlink_bad dp else
      found ← fs (dirlookup devsw dp name);
      match found with
      | None => sys_unlink_bad dp
      | Some (ip, off) =>
          fs (ilock (Some ip));;
          i ← fs (geti ip);
          if di_nlink (i_di i) <? 1 then panic "unlink: nlink < 1" else
          empty ← (if di_type (i_di i) =? T_DIR then isdirempty ip else mret true);
          if negb empty then fs (iunlockput ip);; sys_unlink_bad dp else
          w ← fs (writei devsw dp (replicate (Z.to_nat DIRENT_SIZE) 0) off DIRENT_SIZE);
          if negb (w =? DIRENT_SIZE) then panic "unlink: writei" else
          i ← fs (geti ip);
          when (di_type (i_di i) =? T_DIR) (add_nlink dp (-1);; fs (iupdate dp));;
          fs (iunlockput dp);;
          add_nlink ip (-1);;
          fs (iupdate ip);;
          fs (iunlockput ip);;
          kend_op;;
          mret 0
      end
  end
  end.

(** The inode that create has just allocated. *)
Definition init_inode (ip : nat) (major minor : Z) : MK unit :=
  fs (upd_di ip (λ d, Dinode (di_type d) (s16 major) (s16 minor) 1 (di_size d) (di_addrs d))).

Definition create (path : list Z) (type major minor : Z) : MK (option nat) :=
  dn ← fs (nameiparent devsw path junk_name);
  match dn with
  | (None, _) => mret None
  | (Some dp, name) =>
      fs (ilock (Some dp));;
      found ← fs (dirlookup devsw dp name);
      match found with
      | Some (ip, _) =>
          fs (iunlockput dp);;
          fs (ilock (Some ip));;
          i ← fs (geti ip);
          if (type =? T_FILE) && (di_type (i_di i) =? T_FILE) then mret (Some ip) else
          fs (iunlockput ip);;
          mret None
      | None =>
          d ← fs (geti dp);
          ip ← fs (ialloc (i_dev d) type);
          fs (ilock (Some ip));;
          init_inode ip major minor;;
          fs (iupdate ip);;
          i ← fs (geti ip);
          when (type =? T_DIR) (
            add_nlink dp 1;;
            fs (iupdate dp);;
            r ← fs (dirlink devsw junk_de ip DOT_NAME (i_inum i));
            r ← (if r <? 0 then mret r else fs (dirlink devsw junk_de ip DOTDOT_NAME (i_inum d)));
            when (r <? 0) (panic "create dots"));;
          r ← fs (dirlink devsw junk_de dp name (i_inum i));
          if r <? 0 then panic "create: dirlink" else
          fs (iunlockput dp);;
          mret (Some ip)
      end
  end.

(** The inode to open, locked. *)
Definition open_inode (path : list Z) (omode : Z) : MK (option nat) :=
  if negb (Z.land omode O_CREATE =? 0) then
    create path T_FILE 0 0
  else
    ip ← fs (namei devsw path junk_name);
    match ip with
    | None => mret None
    | Some ip =>
        fs (ilock (Some ip));;
        i ← fs (geti ip);
        if (di_type (i_di i) =? T_DIR) && negb (omode =? O_RDONLY) then fs (iunlockput ip);; mret None
        else mret (Some ip)
    end.

Definition sys_open : MK Z :=
  path ← argstr 0;
  match path with None => mret (-1) | Some path =>
  omode ← argint 1;
  kbegin_op;;
  ip ← open_inode path omode;
  match ip with
  | None => kend_op;; mret (-1)
  | Some ip =>
      f ← ft filealloc;
      match f with
      | None => fs (iunlockput ip);; kend_op;; mret (-1)
      | Some f =>
          fd ← fdalloc f;
          if fd <? 0 then fileclose kend f;; fs (iunlockput ip);; kend_op;; mret (-1) else
          fs (iunlock (Some ip));;
          kend_op;;
          let wronly := negb (Z.land omode O_WRONLY =? 0) in
          ft (updf f (set_f_inode ip (negb wronly) (wronly || negb (Z.land omode O_RDWR =? 0))));;
          mret fd
      end
  end
  end.

Definition sys_mkdir : MK Z :=
  kbegin_op;;
  path ← argstr 0;
  ip ← match path with Some path => create path T_DIR 0 0 | None => mret None end;
  match ip with
  | None => kend_op;; mret (-1)
  | Some ip => fs (iunlockput ip);; kend_op;; mret 0
  end.

Definition sys_mknod : MK Z :=
  kbegin_op;;
  path ← argstr 0;
  ip ← match path with
       | Some path => major ← argint 1; minor ← argint 2; create path T_DEV (s16 major) (s16 minor)
       | None => mret None
       end;
  match ip with
  | None => kend_op;; mret (-1)
  | Some ip => fs (iunlockput ip);; kend_op;; mret 0
  end.

Definition sys_chdir : MK Z :=
  kbegin_op;;
  path ← argstr 0;
  ip ← match path with Some path => fs (namei devsw path junk_name) | None => mret None end;
  match ip with
  | None => kend_op;; mret (-1)
  | Some ip =>
      fs (ilock (Some ip));;
      i ← fs (geti ip);
      if negb (di_type (i_di i) =? T_DIR) then fs (iunlockput ip);; kend_op;; mret (-1) else
      fs (iunlock (Some ip));;
      p ← me;
      cwd ← the "proc->cwd" (p_cwd p);
      fs (iput cwd);;
      kend_op;;
      upd_me (set_p_cwd (Some ip));;
      mret 0
  end.

Definition sys_pipe : MK Z :=
  rp ← argptr 0 8 junk_ptr;
  if rp.1 <? 0 then mret (-1) else
  rw ← pipealloc kend;
  match rw with
  | None => mret (-1)
  | Some (rf, wf) =>
      fd0 ← fdalloc rf;
      fd1 ← (if fd0 <? 0 then mret (-1) else fdalloc wf);
      if (fd0 <? 0) || (fd1 <? 0) then
        when (0 <=? fd0) (set_ofile (Z.to_nat fd0) None);;
        fileclose kend rf;;
        fileclose kend wf;;
        mret (-1)
      else
        user_store rp.2 (put_u32 0 fd0 (replicate 4 0));;
        user_store (u64 (rp.2 + 4)) (put_u32 0 fd1 (replicate 4 0));;
        mret 0
  end.
End Code.

(** * What the checks of pointers let through *)

Section Pointers.
Context {St : Type} `{!TxnIO St, !TxnOps St} (devsw : list (devops (St := St))).
Implicit Types k : kernel St.

Lemma me_run k p : pt_proc (k_pt k) !! k_me k = Some p → me k = Ok p k.
Proof.
  intros Hp. unfold me. erewrite bind_run; [|reflexivity]. unfold pt, zoom, getp. simpl. unfold mbind, M_bind, gets. simpl.
  rewrite Hp. simpl. by destruct k.
Qed.

Lemma argfd_run k p f :
  pt_proc (k_pt k) !! k_me k = Some p → 0 ≤ s32 (tf_rdi (p_tf p)) < Z.of_nat NOFILE →
  p_ofile p !! Z.to_nat (s32 (tf_rdi (p_tf p))) = Some (Some f) → argfd 0 k = Ok (Some (s32 (tf_rdi (p_tf p)), f)) k.
Proof.
  intros Hp Hfd Hf. pose proof (me_run k p Hp) as Hm. unfold argfd, argint, fetcharg.
  erewrite bind_run; [|erewrite bind_run; [reflexivity|erewrite bind_run; [reflexivity|exact Hm]]].
  rewrite (proj2 (Z.ltb_ge _ _)), (proj2 (Z.leb_gt _ _)) by lia. cbn [orb].
  rewrite (bind_run _ _ _ _ _ Hm). rewrite Hf. done.
Qed.

Lemma argptr_bad k p size junk :
  pt_proc (k_pt k) !! k_me k = Some p → p_sz p ≤ u32 (tf_rsi (p_tf p)) → argptr 1 size junk k = Ok (u64 (-1), junk) k.
Proof.
  intros Hp Hb. pose proof (me_run k p Hp) as Hm. unfold argptr, argaddr, fetcharg.
  erewrite bind_run; [|erewrite bind_run; [reflexivity|exact Hm]]. rewrite (bind_run _ _ _ _ _ Hm).
  rewrite (proj2 (Z.leb_le _ _) Hb), orb_true_r. done.
Qed.

(** Bad buffers are not refused.  argptr reports a bad pointer as -1 of an unsigned type, and its callers ask whether the
    result is negative, which it never is: with a buffer outside the process, read and write
    go on and use the local variable that argptr has not set. *)
Theorem bad_buffer_not_refused k p f junk :
  pt_proc (k_pt k) !! k_me k = Some p → 0 ≤ s32 (tf_rdi (p_tf p)) < Z.of_nat NOFILE →
  p_ofile p !! Z.to_nat (s32 (tf_rdi (p_tf p))) = Some (Some f) → p_sz p ≤ u32 (tf_rsi (p_tf p)) →
  sys_read devsw junk k = fileread devsw f junk (s32 (tf_rdx (p_tf p))) k ∧
  sys_write devsw junk k = filewrite devsw f junk (s32 (tf_rdx (p_tf p))) k.
Proof.
  intros Hp Hfd Hf Hb. pose proof (me_run k p Hp) as Hm. unfold sys_read, sys_write.
  rewrite !(bind_run _ _ _ _ _ (argfd_run k p f Hp Hfd Hf)).
  assert (argint 2 k = Ok (s32 (tf_rdx (p_tf p))) k) as Hn.
  { unfold argint, fetcharg. erewrite bind_run; [reflexivity|erewrite bind_run; [reflexivity|exact Hm]]. }
  rewrite !(bind_run _ _ _ _ _ Hn), !(bind_run _ _ _ _ _ (argptr_bad k p _ junk Hp Hb)). done.
Qed.

(** argptr looks at the low half of the address only: an address of the kernel whose low half lies in the process
    is accepted. *)
Lemma argptr_accepts_kernel_address k p i size junk :
  pt_proc (k_pt k) !! k_me k = Some p → tf_rsi (p_tf p) = KERNBASE + i → 0 ≤ i → 0 ≤ size → i + size ≤ p_sz p → i < p_sz p →
  p_sz p < 2 ^ 32 → argptr 1 size junk k = Ok (0, KERNBASE + i) k.
Proof.
  intros Hp Hrsi Hi Hs Hb Hb' Hsz. pose proof (me_run k p Hp) as Hm. unfold argptr, argaddr, fetcharg.
  erewrite bind_run; [|erewrite bind_run; [reflexivity|exact Hm]]. rewrite (bind_run _ _ _ _ _ Hm), Hrsi.
  assert (u32 (KERNBASE + i) = i) as ->.
  { unfold wrap. rewrite <- Zplus_mod_idemp_l. change (KERNBASE mod 2 ^ 32) with 0. apply Z.mod_small. lia. }
  rewrite (wrap_small 32 (i + size)) by lia.
  rewrite (proj2 (Z.ltb_ge size 0)), (proj2 (Z.leb_gt (p_sz p) i)), (proj2 (Z.ltb_ge (p_sz p) (i + size))) by lia. done.
Qed.
End Pointers.

Module Example.
(** A process of two pages that reads into address 0x100000. *)
Definition me : proc :=
  Proc 8192 0 0 RUNNING 1 None (Trapframe 5 0 0 16 0 0x100000 0 0 0 0 0 0 0 0 0 0 0 0 0 0 0 0) 0 0 false
    (Some 0%nat :: replicate 15 None) (Some 0%nat) (replicate 16 0).
Definition state : kernel MemTxn.mst :=
  Kernel (FsSt (MemTxn.Mst [] ∅ ∅) (Superblock 0 0 0 0 0 0 0) false [] 0 0 [])
    (Ftable false [File FD_INODE 1 true true 0 0 0]) (Kmem false true 0 ∅) ∅ (Ptable false [me] 2 None) 0 0 false 0 false.
End Example.

Lemma bad_buffer_not_refused_witness :
  sys_read [] 0xFFFF800000107000 Example.state = fileread [] 0 0xFFFF800000107000 16 Example.state ∧
  sys_write [] 0xFFFF800000107000 Example.state = filewrite [] 0 0xFFFF800000107000 16 Example.state.
Proof.
  apply (bad_buffer_not_refused [] Example.state Example.me 0 0xFFFF800000107000 eq_refl).
  - vm_compute. split; [discriminate|reflexivity].
  - reflexivity.
  - vm_compute. discriminate.
Defined.
