(* ===== verification/Kproc.v ===== *)
(** The life of a process in the kernel: the handlers of src/proc.c that also touch memory and files
    (allocproc, userinit, growproc, fork, exit, wait, forkret), and the system calls of src/sysproc.c.

    The loads of cr3 and of the task state (switchuvm, switchkvm) are in Segment.v. *)

From S2P Require Import Prelude Bytes Layout Mem Kalloc Vm Kstring Pipe Txn Fs Proc Kernel File Sysarg.

(** The trap frame of the first process. *)
Definition set_tf_rax (x : Z) (t : trapframe) : trapframe :=
  Trapframe x (tf_rbx t) (tf_rcx t) (tf_rdx t) (tf_rbp t) (tf_rsi t) (tf_rdi t) (tf_r8 t) (tf_r9 t) (tf_r10 t)
    (tf_r11 t) (tf_r12 t) (tf_r13 t) (tf_r14 t) (tf_r15 t) (tf_trapno t) (tf_err t) (tf_rip t) (tf_cs t)
    (tf_rflags t) (tf_rsp t) (tf_ss t).
Definition first_tf (rcx r11 rsp : Z) : trapframe :=
  Trapframe 0 0 rcx 0 0 0 0 0 0 0 r11 0 0 0 0 0 0 0 0 0 rsp 0.

Section Code.
Context {St : Type} `{!TxnIO St, !TxnOps St} (devsw : list (devops (St := St))) (kend ptab : Z).
(** the addresses of forkret and of ticks *)
Context (forkret_addr ticks_chan : Z) (junk_name : list Z).
Local Abbreviation MK := (M (kernel St)).

Definition getpr (i : nat) : MK proc := pt (getp i).
Definition updpr (i : nat) (f : proc → proc) : MK unit := pt (updp i f).

(** The trap frame and the context lie on the new kernel stack. *)
Definition allocproc : MK (option nat) :=
  slot ← pt alloc_slot;
  match slot with
  | None => mret None
  | Some i =>
      ks ← mem kalloc;
      updpr i (set_p_kstack ks);;
      if ks =? 0 then updpr i (set_p_state UNUSED);; mret None
      else updpr i (set_p_rip forkret_addr);; mret (Some i)
  end.

(** "initcode" *)
Definition INITCODE_NAME : list Z := [105; 110; 105; 116; 99; 111; 100; 101; 0].

Definition userinit (initcode : list Z) : MK unit :=
  slot ← allocproc;
  i ← the "p" slot;
  pt (modify (λ s, Ptable (pt_lock s) (pt_proc s) (pt_nextpid s) (Some i)));;
  kpdpt ← gets k_kpdpt;
  pgdir ← mem (setupkvm kpdpt);
  updpr i (set_p_pgdir pgdir);;
  if pgdir =? 0 then panic "userinit: out of memory?" else
  mem (inituvm pgdir initcode);;
  updpr i (set_p_sz (PGSIZE * 2));;
  updpr i (set_p_tf (first_tf PGSIZE FL_IF (PGSIZE * 2)));;
  p ← getpr i;
  nm ← the "safestrcpy" (safestrcpy (p_name p) INITCODE_NAME 16);
  updpr i (set_p_name nm);;
  cwd ← zoom (fs_lens 0 0) (namei devsw [47; 0] junk_name);
  updpr i (set_p_cwd cwd);;
  updpr i (set_p_state RUNNABLE).

Definition growproc (n : Z) : MK Z :=
  p ← me;
  let sz := p_sz p in
  r ← (if 0 <? n then mem (allocuvm kend (p_pgdir p) sz (u64 (sz + n)))
       else if n <? 0 then mem (deallocuvm kend (p_pgdir p) sz (u64 (sz + n)))
       else mret sz);
  if negb (n =? 0) && (r =? 0) then mret (-1) else
  upd_me (set_p_sz r);;
  mret 0.

(** The loop of fork over the open files. *)
Fixpoint dup_files (np : nat) (fd : nat) (ofile : list (option nat)) : MK unit :=
  match ofile with
  | [] => mret tt
  | None :: ofile => dup_files np (S fd) ofile
  | Some f :: ofile =>
      f' ← ft (filedup f);
      updpr np (λ p, set_p_ofile (<[fd := Some f']> (p_ofile p)) p);;
      dup_files np (S fd) ofile
  end.

Definition fork : MK Z :=
  slot ← allocproc;
  match slot with
  | None => mret (-1)
  | Some np =>
      p ← me;
      kpdpt ← gets k_kpdpt;
      pgdir ← mem (copyuvm kend kpdpt (p_pgdir p) (p_sz p));
      updpr np (set_p_pgdir pgdir);;
      if pgdir =? 0 then
        n ← getpr np;
        mem (kfree kend (p_kstack n));;
        pt (fork_undo np);;
        mret (-1)
      else
        i ← gets k_me;
        updpr np (set_p_sz (p_sz p));;
        updpr np (set_p_parent (Some i));;
        updpr np (set_p_tf (set_tf_rax 0 (p_tf p)));;
        dup_files np 0 (p_ofile p);;
        cwd ← the "proc->cwd" (p_cwd p);
        d ← fs (idup cwd);
        updpr np (set_p_cwd (Some d));;
        n ← getpr np;
        nm ← the "safestrcpy" (safestrcpy (p_name n) (p_name p) 16);
        updpr np (set_p_name nm);;
        updpr np (set_p_state RUNNABLE);;
        mret (p_pid n)
  end.

(** The loop of exit over the open files. *)
Fixpoint close_files (fd : nat) (ofile : list (option nat)) : MK unit :=
  match ofile with
  | [] => mret tt
  | None :: ofile => close_files (S fd) ofile
  | Some f :: ofile =>
      fileclose kend f;;
      upd_me (λ p, set_p_ofile (<[fd := None]> (p_ofile p)) p);;
      close_files (S fd) ofile
  end.

(** exit until the switch to the scheduler. *)
Definition exit_body : MK unit :=
  i ← gets k_me;
  init ← pt (gets pt_initproc);
  if decide (init = Some i) then panic "init exiting" else
  p ← me;
  close_files 0 (p_ofile p);;
  kbegin_op;;
  cwd ← the "proc->cwd" (p_cwd p);
  fs (iput cwd);;
  kend_op;;
  upd_me (set_p_cwd None);;
  pt (exit_locked ptab i).

(** The thread of a process that has exited never runs again: it waits on a channel that is no channel. *)
Definition exit {A} : MK A := exit_body;; sleep_on 0.

(** wait until it returns or the process sleeps on itself. *)
Definition wait : MK Z :=
  i ← gets k_me;
  pt (acquire ptable_lock);;
  l ← pt (gets pt_proc);
  match wait_scan i 0 l false with
  | (Some c, _) =>
      p ← getpr c;
      mem (kfree kend (p_kstack p));;
      updpr c (set_p_kstack 0);;
      mem (freevm kend (p_pgdir p));;
      pt (clear_slot c);;
      pt (release ptable_lock);;
      mret (p_pid p)
  | (None, havekids) =>
      p ← me;
      if negb havekids || p_killed p then pt (release ptable_lock);; mret (-1)
      else pt (sleep i (proc_chan ptab (Some i)) true);; sleep_on (proc_chan ptab (Some i))
  end.

(** forkret after the release of ptable.lock. *)
Definition forkret : MK unit :=
  first ← gets k_first;
  when first (
    modify (set_k_first false);;
    fs (iinit ROOTDEV);;
    fs (zoom fs_io_lens (t_initlog ROOTDEV))).

(** * sysproc.c *)

Definition sys_fork : MK Z := fork.
Definition sys_exit : MK Z := exit.
Definition sys_wait : MK Z := wait.
Definition sys_kill : MK Z := pid ← argint 0; pt (kill pid).
Definition sys_getpid : MK Z := p ← me; mret (p_pid p).

(** Returns an addr_t. *)
Definition sys_sbrk : MK Z :=
  n ← argaddr 0;
  p ← me;
  r ← growproc (s64 n);
  mret (if r <? 0 then u64 (-1) else p_sz p).

(** The loop of sys_sleep since [ticks0], with tickslock held; the count of ticks is compared as a uint. *)
Definition sleep_ticks (ticks0 n : Z) : MK Z :=
  t ← gets k_ticks;
  if u32 (t - ticks0) <? u32 n then
    k ← gets me_killed;
    if (k : bool) then release tickslock_lens;; mret (-1)
    else release tickslock_lens;; sleep_on ticks_chan
  else release tickslock_lens;; mret 0.
Definition sys_sleep : MK Z :=
  n ← argint 0;
  acquire tickslock_lens;;
  ticks0 ← gets k_ticks;
  sleep_ticks ticks0 n.

Definition sys_uptime : MK Z :=
  acquire tickslock_lens;;
  xticks ← gets k_ticks;
  release tickslock_lens;;
  mret (s32 xticks).
End Code.
