(* ===== verification/Exec.v ===== *)
(** exec (src/exec.c, src/elf.h), with the part of loaduvm (src/vm.c) that reads the program from its file,
    and sys_exec (src/sysfile.c). *)

From S2P Require Import Prelude Bytes Layout Mem Kalloc Vm Kstring Pipe Txn Fs Proc Kernel File Sysarg Kproc.

Definition ELF_MAGIC : Z := 0x464C457F.
Definition ELF_PROG_LOAD : Z := 1.

(** The fields of struct elfhdr that exec uses, and of struct proghdr. *)
Record elfhdr := Elfhdr { eh_magic : Z; eh_entry : Z; eh_phoff : Z; eh_phnum : Z }.
Definition ELFHDR_SIZE : Z := 64.
Definition elfhdr_of_bytes (d : list Z) : elfhdr :=
  Elfhdr (get_u32 0 d) (get_u64 24 d) (get_u64 32 d) (get_u16 56 d).

Record proghdr := Proghdr { ph_type : Z; ph_off : Z; ph_vaddr : Z; ph_filesz : Z; ph_memsz : Z }.
Definition PROGHDR_SIZE : Z := 56.
Definition proghdr_of_bytes (d : list Z) : proghdr :=
  Proghdr (get_u32 0 d) (get_u64 8 d) (get_u64 16 d) (get_u64 32 d) (get_u64 40 d).

(** The last element of a path: what follows its last slash. *)
Fixpoint last_elem (last s : list Z) : list Z :=
  match s with
  | [] => last
  | c :: s' => if c =? 0 then last else last_elem (if c =? 47 then s' else last) s'
  end.

(** ustack: the fake return address, the pointers to the arguments and a null, as bytes *)
Definition ustack_bytes (args : list Z) : list Z :=
  concat ((λ x, put_u64 0 x (replicate 8 0)) <$> (u64 (-1) :: args ++ [0])).

Section Code.
Context {St : Type} `{!TxnIO St, !TxnOps St} (devsw : list (devops (St := St))) (kend : Z) (junk_name : list Z).
Local Abbreviation MK := (M (kernel St)).

(** loaduvm, with the file system's readi. *)
Fixpoint kloaduvm_loop (fuel : nat) (pgdir addr : Z) (ip : nat) (offset sz i : Z) : MK Z :=
  if negb (i <? sz) then mret 0 else
  match fuel with
  | O => out_of_fuel
  | S fuel =>
      pte ← mem (walkpgdir pgdir (u64 (addr + i)) false);
      if pte =? 0 then panic "loaduvm: address should exist" else
      e ← mem (load "*pte" pte);
      let pa := PTE_ADDR e in
      let n := if u32 (sz - i) <? PGSIZE then u32 (sz - i) else PGSIZE in
      rb ← fs (readi devsw ip (u32 (offset + i)) n);
      mem (mem_upd (store_bytes (P2V pa) rb.2));;
      if negb (rb.1 =? n) then mret (-1)
      else kloaduvm_loop fuel pgdir addr ip offset sz (u32 (i + PGSIZE))
  end.
Definition kloaduvm (pgdir addr : Z) (ip : nat) (offset sz : Z) : MK Z :=
  if negb (addr mod PGSIZE =? 0) then panic "loaduvm: addr must be page aligned" else
  kloaduvm_loop (Z.to_nat (sz / PGSIZE + 1)) pgdir addr ip offset sz 0.

(** One program header; [None] is goto bad. *)
Definition load_segment (pgdir : Z) (ip : nat) (off sz : Z) : MK (option Z) :=
  rb ← fs (readi devsw ip (u32 off) PROGHDR_SIZE);
  if negb (rb.1 =? PROGHDR_SIZE) then mret None else
  let ph := proghdr_of_bytes rb.2 in
  if negb (ph_type ph =? ELF_PROG_LOAD) then mret (Some sz) else
  if ph_memsz ph <? ph_filesz ph then mret None else
  if u64 (ph_vaddr ph + ph_memsz ph) <? ph_vaddr ph then mret None else
  sz ← mem (allocuvm kend pgdir sz (u64 (ph_vaddr ph + ph_memsz ph)));
  if sz =? 0 then mret None else
  if negb (ph_vaddr ph mod PGSIZE =? 0) then mret None else
  r ← kloaduvm pgdir (ph_vaddr ph) ip (u32 (ph_off ph)) (u32 (ph_filesz ph));
  mret (if r <? 0 then None else Some sz).

(** The loop over the [n] program headers that are left; off is an int. *)
Fixpoint load_segments (n : nat) (pgdir : Z) (ip : nat) (off sz : Z) : MK (option Z) :=
  match n with
  | O => mret (Some sz)
  | S n =>
      r ← load_segment pgdir ip off sz;
      match r with
      | None => mret None
      | Some sz => load_segments n pgdir ip (s32 (off + PROGHDR_SIZE)) sz
      end
  end.

(** The argument strings go onto the stack; returns the stack pointer and their addresses. *)
Fixpoint push_args (pgdir : Z) (argc : nat) (sp : Z) (argv : list (list Z)) : MK (option (Z * list Z)) :=
  match argv with
  | [] => mret (Some (sp, []))
  | s :: argv =>
      if MAXARG <=? Z.of_nat argc then mret None else
      n ← the "strlen" (strlen s);
      let sp := Z.land (u64 (sp - (n + 1))) (u64 (Z.lnot 7)) in
      r ← mem (copyout pgdir sp (take (Z.to_nat (n + 1)) s));
      if r <? 0 then mret None else
      rest ← push_args pgdir (S argc) sp argv;
      mret ('(sp', l) ← rest; Some (sp', sp :: l))
  end.

(** goto bad, with pgdir and ip as they are then. *)
Definition exec_bad (pgdir : Z) (ip : option nat) : MK Z :=
  when (negb (pgdir =? 0)) (mem (freevm kend pgdir));;
  match ip with
  | Some ip => fs (iunlockput ip);; kend_op
  | None => mret tt
  end;;
  mret (-1).

Definition set_tf_args (rdi rsi : Z) (t : trapframe) : trapframe :=
  Trapframe (tf_rax t) (tf_rbx t) (tf_rcx t) (tf_rdx t) (tf_rbp t) rsi rdi (tf_r8 t) (tf_r9 t) (tf_r10 t)
    (tf_r11 t) (tf_r12 t) (tf_r13 t) (tf_r14 t) (tf_r15 t) (tf_trapno t) (tf_err t) (tf_rip t) (tf_cs t)
    (tf_rflags t) (tf_rsp t) (tf_ss t).
Definition set_tf_entry (rip rcx rsp : Z) (t : trapframe) : trapframe :=
  Trapframe (tf_rax t) (tf_rbx t) rcx (tf_rdx t) (tf_rbp t) (tf_rsi t) (tf_rdi t) (tf_r8 t) (tf_r9 t) (tf_r10 t)
    (tf_r11 t) (tf_r12 t) (tf_r13 t) (tf_r14 t) (tf_r15 t) (tf_trapno t) (tf_err t) rip (tf_cs t)
    (tf_rflags t) rsp (tf_ss t).

(** exec once the program is loaded and the file released. *)
Definition exec_stack (path : list Z) (argv : list (list Z)) (entry pgdir sz : Z) : MK Z :=
  let sz := PGROUNDUP sz in
  sz ← mem (allocuvm kend pgdir sz (u64 (sz + 2 * PGSIZE)));
  if sz =? 0 then exec_bad pgdir None else
  mem (clearpteu pgdir (u64 (sz - 2 * PGSIZE)));;
  args ← push_args pgdir 0 sz argv;
  match args with
  | None => exec_bad pgdir None
  | Some (sp, ptrs) =>
      let argc := Z.of_nat (length ptrs) in
      upd_me (λ p, set_p_tf (set_tf_args argc (u64 (sp - (argc + 1) * 8)) (p_tf p)) p);;
      let sp := u64 (sp - (1 + argc + 1) * 8) in
      r ← mem (copyout pgdir sp (ustack_bytes ptrs));
      if r <? 0 then exec_bad pgdir None else
      p ← me;
      nm ← the "safestrcpy" (safestrcpy (p_name p) (last_elem path path) 16);
      upd_me (set_p_name nm);;
      upd_me (set_p_pgdir pgdir);;
      upd_me (set_p_sz sz);;
      upd_me (λ p, set_p_tf (set_tf_entry entry entry sp (p_tf p)) p);;
      mem (freevm kend (p_pgdir p));;
      mret 0
  end.

(** [path] and the strings of [argv] end in a null. *)
Definition exec (path : list Z) (argv : list (list Z)) : MK Z :=
  kbegin_op;;
  ip ← fs (namei devsw path junk_name);
  match ip with
  | None => kend_op;; mret (-1)
  | Some ip =>
      fs (ilock (Some ip));;
      rb ← fs (readi devsw ip 0 ELFHDR_SIZE);
      if negb (rb.1 =? ELFHDR_SIZE) then exec_bad 0 (Some ip) else
      let elf := elfhdr_of_bytes rb.2 in
      if negb (eh_magic elf =? ELF_MAGIC) then exec_bad 0 (Some ip) else
      kpdpt ← gets k_kpdpt;
      pgdir ← mem (setupkvm kpdpt);
      if pgdir =? 0 then exec_bad 0 (Some ip) else
      sz ← load_segments (Z.to_nat (eh_phnum elf)) pgdir ip (s32 (eh_phoff elf)) PGSIZE;
      match sz with
      | None => exec_bad pgdir (Some ip)
      | Some sz =>
          fs (iunlockput ip);;
          kend_op;;
          exec_stack path argv (eh_entry elf) pgdir sz
      end
  end.

(** The loop of sys_exec: the argument strings from the [i]th pointer at [uargv] on. *)
Fixpoint fetch_args (n : nat) (uargv i : Z) : MK (option (list (list Z))) :=
  match n with
  | O => mret None
  | S n =>
      a ← fetchaddr (u64 (uargv + 8 * i));
      match a with
      | None => mret None
      | Some uarg =>
          if uarg =? 0 then mret (Some []) else
          s ← fetchstr uarg;
          match s with
          | None => mret None
          | Some s => rest ← fetch_args n uargv (i + 1); mret (cons s <$> rest)
          end
      end
  end.

Definition sys_exec : MK Z :=
  path ← argstr 0;
  match path with
  | None => mret (-1)
  | Some path =>
      uargv ← argaddr 1;
      argv ← fetch_args (Z.to_nat MAXARG) uargv 0;
      match argv with
      | None => mret (-1)
      | Some argv => exec path argv
      end
  end.
End Code.
