(* ===== verification/ExecSpec.v ===== *)
(** exec replaces the image of the process (src/exec.c): the composition of the file system, from which the program
    is read, the page tables, and the process.

    The program file is described by its contents: an ELF header, program headers, and the segments.  The theorem
    says what memory the new program finds, byte by byte, and with which registers it starts. *)

From stdpp Require Import functions.
From S2P Require Import Prelude Bytes Layout Mem Kalloc Vm Freevm Uimage Kstring Pipe Txn Mkfs Boot Fs FsDisk FsInode FsFile FsCrash FsPath.
From S2P Require Import Proc Kernel File Sysarg Kproc Exec.
Import Proc.System.

(** * The program file *)

(** What readi returns for a file with the contents [data]. *)
Definition file_read (data : list Z) (off len : Z) : Z * list Z :=
  let size := Z.of_nat (length data) in
  if decide (off ≤ size ∧ off + len < 2 ^ 32)
  then let m := Z.min len (size - off) in (m, sub (Z.to_nat off) (Z.to_nat m) data) else (-1, []).

Lemma file_read_whole data off len :
  0 ≤ off → 0 ≤ len → off + len ≤ Z.of_nat (length data) → Z.of_nat (length data) < 2 ^ 31 →
  file_read data off len = (len, sub (Z.to_nat off) (Z.to_nat len) data).
Proof.
  intros Ho Hl Hs Hd. unfold file_read. rewrite decide_True by lia. cbv zeta. by rewrite Z.min_l by lia.
Qed.

Definition is_load (ph : proghdr) : bool := ph_type ph =? ELF_PROG_LOAD.

Section Program.
Context (data : list Z).

(** The program headers [phs] are in the file from [off] on. *)
Fixpoint headers (off : Z) (phs : list proghdr) : Prop :=
  match phs with
  | [] => True
  | ph :: phs =>
      off + PROGHDR_SIZE ≤ Z.of_nat (length data) ∧
      proghdr_of_bytes (sub (Z.to_nat off) (Z.to_nat PROGHDR_SIZE) data) = ph ∧ headers (off + PROGHDR_SIZE) phs
  end.

(** A program exec can load: the segments are in ascending order, on pages of their own above the [sz] bytes
    that are there, below the end of user memory, and in the file. *)
Fixpoint loadable (sz : Z) (phs : list proghdr) : Prop :=
  match phs with
  | [] => True
  | ph :: phs =>
      if is_load ph then
        PGROUNDUP sz ≤ ph_vaddr ph ∧ ph_vaddr ph mod PGSIZE = 0 ∧
        0 ≤ ph_off ph ∧ 0 ≤ ph_filesz ph ≤ ph_memsz ph ∧ ph_off ph + ph_filesz ph ≤ Z.of_nat (length data) ∧
        ph_vaddr ph + ph_memsz ph ≤ 2 ^ 47 - 4 * PGSIZE ∧ loadable (ph_vaddr ph + ph_memsz ph) phs
      else loadable sz phs
  end.

(** The size and the contents of memory once the segments are there. *)
Fixpoint loaded_size (sz : Z) (phs : list proghdr) : Z :=
  match phs with
  | [] => sz
  | ph :: phs => loaded_size (if is_load ph then ph_vaddr ph + ph_memsz ph else sz) phs
  end.
Fixpoint loaded (phs : list proghdr) (f : Z → Z) : Z → Z :=
  match phs with
  | [] => f
  | ph :: phs =>
      loaded phs
        (if is_load ph
         then write_at (ph_vaddr ph) (sub (Z.to_nat (ph_off ph)) (Z.to_nat (ph_filesz ph)) data) f else f)
  end.

(** The pages that are enough for the segments: for each page of memory up to three tables. *)
Definition pages_for (oldsz newsz : Z) : nat := (4 * Z.to_nat ((newsz - PGROUNDUP oldsz) / PGSIZE + 1))%nat.
Fixpoint pages_needed (sz : Z) (phs : list proghdr) : nat :=
  match phs with
  | [] => 0
  | ph :: phs =>
      if is_load ph
      then (pages_for sz (ph_vaddr ph + ph_memsz ph) + pages_needed (ph_vaddr ph + ph_memsz ph) phs)%nat
      else pages_needed sz phs
  end.

(** The file is a program with the entry point [entry], whose [phs] are found from [phoff] on. *)
Record runnable (entry phoff : Z) (phs : list proghdr) : Prop := {
  ru_len : ELFHDR_SIZE ≤ Z.of_nat (length data);
  ru_elf : elfhdr_of_bytes (sub 0 (Z.to_nat ELFHDR_SIZE) data) = Elfhdr ELF_MAGIC entry phoff (Z.of_nat (length phs));
  ru_phoff : 0 ≤ phoff < 2 ^ 31;
  ru_headers : headers phoff phs;
  ru_loadable : loadable PGSIZE phs;
}.
End Program.

(** * Writing bytes *)

Lemma sub_app (off n1 n2 : nat) (l : list Z) : sub off n1 l ++ sub (off + n1) n2 l = sub off (n1 + n2) l.
Proof. unfold sub. rewrite <- drop_drop. by rewrite take_take_drop. Qed.

Lemma write_at_nil va f a : write_at va [] f a = f a.
Proof. unfold write_at. by rewrite decide_False by (simpl; lia). Qed.

Lemma write_at_app va b1 b2 f a :
  write_at (va + Z.of_nat (length b1)) b2 (write_at va b1 f) a = write_at va (b1 ++ b2) f a.
Proof.
  unfold write_at. rewrite length_app. repeat case_decide; try lia; try done.
  - rewrite list_lookup_total_alt, (list_lookup_total_alt (b1 ++ b2)). rewrite lookup_app_r by lia. do 2 f_equal. lia.
  - rewrite list_lookup_total_alt, (list_lookup_total_alt (b1 ++ b2)). by rewrite lookup_app_l by lia.
Qed.

Lemma write_at_ext va bs f g a : (∀ a, f a = g a) → write_at va bs f a = write_at va bs g a.
Proof. intros E. unfold write_at. by rewrite E. Qed.

Lemma holds_ext m d sz fl f g : (∀ a, f a = g a) → holds m d sz fl f → holds m d sz fl g.
Proof. intros E [Hp Hb Hz]. split; [done|..]; intros; rewrite <- E; auto. Qed.

Lemma loaded_ext data phs f g a : (∀ a, f a = g a) → loaded data phs f a = loaded data phs g a.
Proof.
  revert f g. induction phs as [|ph phs IH]; intros f g E; simpl; [done|]. apply IH. intros x.
  destruct (is_load ph); [by apply write_at_ext|done].
Qed.

(** * The arguments *)

(** A C string: it ends in a null and has no other. *)
Definition c_string (s : list Z) : Prop := ∃ cs, s = cs ++ [0] ∧ 0 ∉ cs ∧ bytes cs.

Lemma strlen_c_string cs : 0 ∉ cs → strlen (cs ++ [0]) = Some (Z.of_nat (length cs)).
Proof.
  induction cs as [|c cs IH]; intros Hn; [done|]. rewrite not_elem_of_cons in Hn. simpl.
  rewrite (proj2 (Z.eqb_neq _ _)) by naive_solver. rewrite IH by naive_solver. simpl. f_equal. lia.
Qed.

(** A string is pushed at the next multiple of eight below the stack pointer. *)
Definition push_sp (sp : Z) (s : list Z) : Z := let x := sp - Z.of_nat (length s) in x - x mod 8.
Fixpoint places (sp : Z) (argv : list (list Z)) : list Z :=
  match argv with [] => [] | s :: argv => push_sp sp s :: places (push_sp sp s) argv end.
Fixpoint lowest (sp : Z) (argv : list (list Z)) : Z :=
  match argv with [] => sp | s :: argv => lowest (push_sp sp s) argv end.
Fixpoint pushed (sp : Z) (argv : list (list Z)) (f : Z → Z) : Z → Z :=
  match argv with [] => f | s :: argv => pushed (push_sp sp s) argv (write_at (push_sp sp s) s f) end.

Lemma push_sp_range sp s : sp - Z.of_nat (length s) - 8 < push_sp sp s ≤ sp - Z.of_nat (length s) ∧ push_sp sp s mod 8 = 0.
Proof.
  unfold push_sp. cbv zeta. pose proof (Z.mod_pos_bound (sp - Z.of_nat (length s)) 8 ltac:(lia)). split; [lia|].
  by rewrite Zminus_mod, Zmod_mod, Z.sub_diag.
Qed.

Lemma lowest_le sp argv : lowest sp argv ≤ sp.
Proof.
  revert sp. induction argv as [|s argv IH]; intros sp; simpl; [lia|].
  pose proof (IH (push_sp sp s)). pose proof (push_sp_range sp s). lia.
Qed.

Lemma lowest_aligned sp argv : sp mod 8 = 0 → lowest sp argv mod 8 = 0.
Proof. revert sp. induction argv as [|s argv IH]; intros sp Hs; simpl; [done|]. apply IH, push_sp_range. Qed.

Lemma length_places sp argv : length (places sp argv) = length argv.
Proof. revert sp. induction argv as [|s argv IH]; intros sp; simpl; [done|]. by rewrite IH. Qed.

Lemma pushed_above sp argv f a : sp ≤ a → pushed sp argv f a = f a.
Proof.
  revert sp f. induction argv as [|s argv IH]; intros sp f Ha; simpl; [done|]. pose proof (push_sp_range sp s).
  rewrite IH by lia. unfold write_at. by rewrite decide_False by lia.
Qed.

Lemma pushed_ext sp argv f g a : (∀ a, f a = g a) → pushed sp argv f a = pushed sp argv g a.
Proof. revert sp f g. induction argv as [|s argv IH]; intros sp f g E; simpl; [done|]. apply IH. intros. by apply write_at_ext. Qed.

(** Every argument is where its pointer says, above the stack pointer. *)
Lemma pushed_string sp argv f i s a :
  argv !! i = Some s → places sp argv !! i = Some a →
  lowest sp argv ≤ a ∧ a + Z.of_nat (length s) ≤ sp ∧ ∀ j x, s !! j = Some x → pushed sp argv f (a + Z.of_nat j) = x.
Proof.
  revert sp f i. induction argv as [|s0 argv IH]; intros sp f i Hi Ha; [done|]. pose proof (push_sp_range sp s0) as Hr.
  destruct i as [|i]; simpl in *.
  - injection Hi as ->. injection Ha as <-. split; [apply lowest_le|]. split; [lia|]. intros j x Hj.
    rewrite pushed_above by lia. unfold write_at. apply lookup_lt_Some in Hj as Hlt. rewrite decide_True by lia.
    rewrite list_lookup_total_alt. replace (Z.to_nat _) with j by lia. by rewrite Hj.
  - destruct (IH (push_sp sp s0) (write_at (push_sp sp s0) s0 f) i Hi Ha) as (?&?&?). split_and!; [done|lia|done].
Qed.

(** What main finds at the stack pointer: a return address, the pointers to the arguments, and a null. *)
Lemma length_ustack ptrs : length (ustack_bytes ptrs) = (8 * (length ptrs + 2))%nat.
Proof.
  unfold ustack_bytes. assert (∀ xs, length (concat ((λ x, put_u64 0 x (replicate 8 0)) <$> xs)) = (8 * length xs)%nat) as H.
  { induction xs as [|x xs IH]; [done|]. cbn [fmap list_fmap concat]. rewrite length_app, IH, length_put_le; [|by simpl].
    rewrite length_replicate. simpl. lia. }
  rewrite H. simpl. rewrite length_app. simpl. lia.
Qed.

Lemma ustack_is_bytes ptrs : bytes (ustack_bytes ptrs).
Proof.
  unfold ustack_bytes. generalize (u64 (-1) :: ptrs ++ [0]) as xs. induction xs as [|x xs IH]; [done|].
  cbn [fmap list_fmap concat]. apply Forall_app. split; [|done]. apply put_le_bytes, Forall_replicate. done.
Qed.

Lemma last_elem_null last s : 0 ∈ s → 0 ∈ last → 0 ∈ last_elem last s.
Proof.
  revert last. induction s as [|c s IH]; intros last Hs Hl; [done|]. cbn [last_elem].
  destruct (Z.eqb_spec c 0); [done|]. assert (0 ∈ s) as Hs' by (apply elem_of_cons in Hs as [?|?]; [congruence|done]).
  apply IH; [done|]. by destruct (c =? 47).
Qed.

Lemma pgroundup_aligned x : 0 ≤ x ≤ 2 ^ 47 → x mod PGSIZE = 0 → PGROUNDUP x = x.
Proof.
  intros Hx Hm. rewrite PGROUNDUP_spec by (unfold PGSIZE; lia). unfold PGSIZE in *.
  pose proof (Z.div_mod x 4096 ltac:(lia)). replace (x + 4096 - 1) with (4095 + x / 4096 * 4096) by lia.
  rewrite Z.div_add by lia. change (4095 / 4096) with 0. lia.
Qed.

Lemma holds_round m d sz fl f : 0 ≤ sz ≤ 2 ^ 47 - 2 * PGSIZE → holds m d sz fl f → holds m d (PGROUNDUP sz) fl f.
Proof.
  intros Hs [Hp Hb Hz]. unfold PGSIZE in Hs. destruct (pgroundup_page sz ltac:(unfold PGSIZE; lia)) as [[_ Hum] Hur].
  assert (∀ va, va mod PGSIZE = 0 → va < sz ↔ va < PGROUNDUP sz) as Hal
    by (intros va Hm; apply aligned_below; [unfold PGSIZE; lia|done]).
  split.
  - intros va Hva. rewrite Hp by done. specialize (Hal va (proj2 Hva)). repeat case_decide; lia || done.
  - intros a Ha Hin. specialize (Hal (a - a mod PGSIZE) (proj2 (page_mod a))). apply Hb; [done|lia].
  - intros a Ha. apply Hz. unfold PGSIZE in *. destruct (pgroundup_page (PGROUNDUP sz) ltac:(unfold PGSIZE; lia)) as [_ ?]. lia.
Qed.

Lemma holds_same m m' d sz fl f : (∀ va, user_page va → upage m' d va = upage m d va) → holds m d sz fl f → holds m' d sz fl f.
Proof.
  intros E [Hp Hb Hz]. split; [|intros a Ha Hin|done].
  - intros va Hva. rewrite E by done. by apply Hp.
  - rewrite (ubyte_same m); [by apply Hb|]. by apply E, page_base.
Qed.

(** * The kernel while exec runs *)

Section Exec.
Context {St : Type} `{!TxnIO St, !TxnOps St} (devsw : list (devops (St := St))) (kend : Z) (Hend : KERNBASE ≤ kend).
Context (k0 : kernel St) (cwd : nat).
Implicit Types (f : fsst St) (m s : kmem) (q : proc) (l : list Z) (R : gset Z).

(** The file system [f], memory [m] and the process that runs, [q]; the rest as before. *)
Definition during f m q : kernel St :=
  Kernel f (k_ft k0) m (k_pipes k0) (set_pt_proc (<[k_me k0 := q]> (pt_proc (k_pt k0))) (k_pt k0)) (k_me k0)
    (k_ticks k0) (k_tickslock k0) (k_kpdpt k0) (k_first k0).

Section Steps.
Context (Hme : (k_me k0 < length (pt_proc (k_pt k0)))%nat).

Lemma wp_during_me f m q (Q : proc → kernel St → Prop) : Q q (during f m q) → wp me Q (during f m q).
Proof using Hme.
  intros HQ. apply wp_bind, wp_gets, wp_zoom. eapply wp_getp; [simpl; by apply list_lookup_insert_eq|]. exact HQ.
Qed.
Lemma wp_during_upd f m q g (Q : unit → kernel St → Prop) :
  Q tt (during f m (g q)) → wp (upd_me g) Q (during f m q).
Proof using Hme.
  intros HQ. apply wp_bind, wp_gets, wp_zoom. eapply wp_updp; [simpl; by apply list_lookup_insert_eq|]. simpl.
  unfold set_pt_proc. simpl. rewrite list_insert_insert_eq. exact HQ.
Qed.
Lemma wp_during_mem {A} f m q (x : M kmem A) (Q : A → kernel St → Prop) :
  wp x (λ a m', Q a (during f m' q)) m → wp (mem x) Q (during f m q).
Proof using. intros HQ. by apply wp_zoom. Qed.
Lemma wp_during_fs {A} f m q (x : M (fsst St) A) (Q : A → kernel St → Prop) :
  p_cwd q = Some cwd →
  wp x (λ a f', Q a (during f' m q)) (set_fs_proc (p_pid q) cwd f) → wp (fs x) Q (during f m q).
Proof using Hme.
  intros Hc HQ. apply wp_bind, wp_during_me, wp_bind, (wp_the _ _ cwd); [done|]. by apply wp_zoom.
Qed.
End Steps.

(** ** Loading *)

Section Load.
Context (Hme : (k_me k0 < length (pt_proc (k_pt k0)))%nat).
Context (q : proc) (Hcwd : p_cwd q = Some cwd) (d : Z) (R : gset Z) (Hd : d ∈ R).
(** the program, open and locked *)
Context (ip : nat) (data : list Z) (opened : fsst St → Prop).
Context (Hdata : bytes data) (Hlen : Z.of_nat (length data) < 2 ^ 31).
Context (Hread : ∀ f off len (Q : Z * list Z → fsst St → Prop), opened f → 0 ≤ off < 2 ^ 32 → 0 ≤ len < 2 ^ 32 →
  (∀ f', opened f' → Q (file_read data off len) f') →
  wp (readi devsw ip off len) Q (set_fs_proc (p_pid q) cwd f)).

Lemma kloaduvm_loop_run fuel addr off size sz fl i f s l g (Q : Z → kernel St → Prop) :
  opened f → vm_inv kend s l R → holds (km_mem s) d size fl g → 0 ≤ size ≤ 2 ^ 47 - PGSIZE →
  fuel = Z.to_nat ((sz - i) / PGSIZE + 1) → 0 ≤ i → i mod PGSIZE = 0 → 0 ≤ sz → i < sz + PGSIZE →
  addr mod PGSIZE = 0 → PGSIZE ≤ addr → addr + sz ≤ PGROUNDUP size →
  0 ≤ off → off + sz ≤ Z.of_nat (length data) →
  (∀ f' s', opened f' → vm_inv kend s' l R → only_contents (km_mem s) (km_mem s') R d →
     holds (km_mem s') d size fl (write_at (addr + i) (sub (Z.to_nat (off + i)) (Z.to_nat (sz - i)) data) g) →
     Q 0 (during f' s' q)) →
  wp (kloaduvm_loop devsw fuel d addr ip off sz i) Q (during f s q).
Proof using All.
  revert i f s g. induction fuel as [|fuel IH]; intros i f s g Ho Hi Hh Hs Hf Hi0 Him Hsz Hisz Ha Ha0 Hasz Hoff Hos HQ;
    cbn [kloaduvm_loop]; (destruct (Z.ltb_spec i sz) as [Hlt|Hge]; cbn [negb]).
  { pose proof (Z.div_pos (sz - i) PGSIZE ltac:(lia) ltac:(done)). lia. }
  1,3: apply wp_ret, HQ; [done|done|by intros r va _ _|]; eapply holds_ext; [|exact Hh]; intros a;
    replace (Z.to_nat (sz - i)) with 0%nat by lia; unfold sub; simpl; by rewrite write_at_nil.
  destruct (pgroundup_page size Hs) as [_ Hur]. unfold PGSIZE in Ha0.
  assert (user_page (addr + i)) as Hpg.
  { split; [unfold user_va, PGSIZE in *; lia|]. by rewrite Zplus_mod, Ha, Him. }
  assert (PGSIZE ≤ addr + i < size) as Hin.
  { split; [unfold PGSIZE; lia|]. apply (aligned_below _ size Hs); [apply Hpg|lia]. }
  destruct (holds_leaf kend s l R d size fl g (addr + i) Hi Hd Hh Hpg Hin) as (e&He&_).
  destruct (pte_load kend Hend s l R d (addr + i) e Hi Hd (proj1 Hpg) He) as (pte&Hw&Hz&Hld&_).
  rewrite (wrap_small 64 (addr + i)) by (unfold PGSIZE in *; lia).
  apply wp_bind, wp_during_mem. eapply wp_eq; [exact Hw|]. rewrite Hz.
  apply wp_bind, wp_during_mem. eapply wp_eq; [by apply load_run|]. cbv zeta.
  rewrite (wrap_small 32 (sz - i)), (wrap_small 32 (off + i)) by lia.
  replace (if sz - i <? PGSIZE then sz - i else PGSIZE) with (Z.min (sz - i) PGSIZE)
    by (destruct (Z.ltb_spec (sz - i) PGSIZE); lia).
  set (n := Z.min (sz - i) PGSIZE). assert (0 < n ≤ PGSIZE) as Hn by (unfold n, PGSIZE; lia).
  apply wp_bind, wp_during_fs; [done..|]. apply Hread; [done|lia|unfold n, PGSIZE; lia|]. intros f' Ho'.
  rewrite file_read_whole by (unfold n; lia). cbn [fst snd].
  set (chunk := sub (Z.to_nat (off + i)) (Z.to_nat n) data).
  assert (length chunk = Z.to_nat n) as Hcl by (apply length_sub; unfold n; lia).
  destruct (holds_fill kend Hend s l R d size fl g (addr + i) chunk e Hi Hd Hh Hs Hpg Hin He) as (s'&Hst&Hi'&Hoc&Hh').
  { by apply sub_forall. }
  { lia. }
  apply wp_bind, wp_during_mem. eapply wp_eq; [exact Hst|]. rewrite Z.eqb_refl. cbn [negb].
  rewrite (wrap_small 32 (i + PGSIZE)) by (unfold PGSIZE; lia).
  apply (IH (i + PGSIZE) f' s' (write_at (addr + i) chunk g)); try done.
  - unfold PGSIZE in *. destruct (Z.lt_ge_cases (sz - i) 4096) as [Hs1|Hs1].
    + rewrite Z.div_small in Hf by lia. assert ((sz - (i + 4096)) / 4096 < 0) by (apply Z.div_lt_upper_bound; lia). lia.
    + replace (sz - i) with (sz - (i + 4096) + 1 * 4096) in Hf by lia. rewrite Z.div_add in Hf by lia.
      pose proof (Z.div_pos (sz - (i + 4096)) 4096 ltac:(lia) ltac:(lia)). lia.
  - unfold PGSIZE. lia.
  - rewrite Zplus_mod, Him. done.
  - lia.
  - intros f2 s2 Ho2 Hi2 Hoc2 Hh2. apply HQ; [done|done|by eapply only_contents_trans|].
    eapply holds_ext; [|exact Hh2]. intros a. destruct (Z.lt_ge_cases (sz - i) PGSIZE) as [Hs1|Hs1].
    + replace (Z.to_nat (sz - (i + PGSIZE))) with 0%nat by lia. assert (n = sz - i) as En by (unfold n; lia).
      unfold sub at 1. rewrite take_0, write_at_nil. unfold chunk. by rewrite En.
    + assert (n = PGSIZE) as En by (unfold n; lia). replace (addr + (i + PGSIZE)) with (addr + i + Z.of_nat (length chunk)) by lia. rewrite write_at_app.
      f_equal. unfold chunk.
      replace (Z.to_nat (off + (i + PGSIZE))) with (Z.to_nat (off + i) + Z.to_nat n)%nat by (unfold PGSIZE in *; lia).
      rewrite sub_app. f_equal. unfold PGSIZE in *. lia.
Qed.

(** One loadable segment. *)
Lemma load_program_segment ph off sz f s l g (Q : option Z → kernel St → Prop) :
  opened f → vm_inv kend s l R → holds (km_mem s) d sz (λ _, RWU) g → PGSIZE ≤ sz ≤ 2 ^ 47 - 4 * PGSIZE → 0 ≤ off →
  headers data off [ph] → loadable data sz [ph] → is_load ph = true → (pages_needed sz [ph] ≤ length l)%nat →
  (∀ f' s' l', opened f' → vm_inv kend s' l' R → (length l ≤ pages_needed sz [ph] + length l')%nat →
     (∀ r va, r ∈ R → r ≠ d → user_page va → upage (km_mem s') r va = upage (km_mem s) r va) →
     holds (km_mem s') d (ph_vaddr ph + ph_memsz ph) (λ _, RWU) (loaded data [ph] g) →
     Q (Some (ph_vaddr ph + ph_memsz ph)) (during f' s' q)) →
  wp (load_segment devsw kend d ip off sz) Q (during f s q).
Proof using All.
  intros Ho Hi Hh Hsz Hoff (Hend1&Hph&_) Hl Hload Hpages HQ. cbn [loadable pages_needed loaded] in *. rewrite Hload in *.
  destruct Hl as (Hup&Hal&Hpo&Hfm&Hfile&Htop&_). unfold PROGHDR_SIZE, PGSIZE in Hend1, Hsz, Htop.
  destruct (pgroundup_page sz ltac:(unfold PGSIZE; lia)) as [_ Hru].
  set (newsz := ph_vaddr ph + ph_memsz ph) in *.
  destruct (pgroundup_page newsz ltac:(unfold PGSIZE; lia)) as [_ Hrn].
  unfold load_segment. rewrite (wrap_small 32 off) by lia. apply wp_bind, wp_during_fs; [done..|].
  apply Hread; [done|lia|unfold PROGHDR_SIZE; lia|]. intros f1 Ho1. rewrite file_read_whole by (unfold PROGHDR_SIZE; lia).
  cbn [fst snd]. rewrite Z.eqb_refl, Hph. cbn [negb]. unfold is_load in Hload. rewrite Hload. cbn [negb].
  rewrite (proj2 (Z.ltb_ge _ _)) by lia. fold newsz. rewrite (wrap_small 64 newsz) by lia.
  rewrite (proj2 (Z.ltb_ge _ _)) by lia.
  destruct (holds_alloc kend Hend s l R d sz newsz (λ _, RWU) g Hi Hd Hh) as (s1&l1&Hrun&Hi1&Hl1&Hh1&Hother);
    [done|unfold PGSIZE; lia|unfold PGSIZE; lia|unfold pages_for in Hpages; lia|].
  apply wp_bind, wp_during_mem. eapply wp_eq; [exact Hrun|].
  rewrite (proj2 (Z.eqb_neq _ _)) by lia. rewrite Hal. cbn [negb Z.eqb].
  unfold kloaduvm. rewrite (wrap_small 32 (ph_off ph)), (wrap_small 32 (ph_filesz ph)) by lia.
  rewrite Hal. cbn [negb Z.eqb]. apply wp_bind.
  eapply (kloaduvm_loop_run _ (ph_vaddr ph) (ph_off ph) newsz (ph_filesz ph) (λ _, RWU) 0 f1 s1 l1 g); try done;
    try lia; try (unfold PGSIZE; lia).
  { by rewrite Z.sub_0_r. }
  intros f2 s2 Ho2 Hi2 Hoc Hh2. apply wp_ret. cbn [Z.ltb]. change (0 <? 0) with false. cbv iota.
  eapply (HQ f2 s2 l1); [done|done|unfold pages_for; lia| |].
  - intros r va Hr Hne Hva. rewrite (proj2 (Hoc r va Hr Hva) Hne). by apply Hother.
  - eapply holds_ext; [|exact Hh2]. intros a. by rewrite !Z.add_0_r, Z.sub_0_r.
Qed.

Lemma load_segments_run phs off sz f s l g (Q : option Z → kernel St → Prop) :
  opened f → vm_inv kend s l R → holds (km_mem s) d sz (λ _, RWU) g → PGSIZE ≤ sz ≤ 2 ^ 47 - 4 * PGSIZE → 0 ≤ off →
  headers data off phs → loadable data sz phs → (pages_needed sz phs ≤ length l)%nat →
  (∀ f' s' l', opened f' → vm_inv kend s' l' R → (length l ≤ pages_needed sz phs + length l')%nat →
     (∀ r va, r ∈ R → r ≠ d → user_page va → upage (km_mem s') r va = upage (km_mem s) r va) →
     PGSIZE ≤ loaded_size sz phs ≤ 2 ^ 47 - 4 * PGSIZE →
     holds (km_mem s') d (loaded_size sz phs) (λ _, RWU) (loaded data phs g) →
     Q (Some (loaded_size sz phs)) (during f' s' q)) →
  wp (load_segments devsw kend (length phs) d ip off sz) Q (during f s q).
Proof using All.
  revert off sz f s l g. induction phs as [|ph phs IH]; intros off sz f s l g Ho Hi Hh Hsz Hoff Hhd Hl Hp HQ.
  { cbn [length load_segments]. by apply wp_ret, (HQ f s l). }
  cbn [length load_segments]. destruct Hhd as (Hend1&Hph&Hhd). unfold PROGHDR_SIZE in Hend1.
  assert (s32 (off + PROGHDR_SIZE) = off + PROGHDR_SIZE) as Hoff'.
  { apply sext_small; unfold PROGHDR_SIZE; lia. }
  cbn [loadable pages_needed loaded_size loaded] in *. destruct (is_load ph) eqn:Hload.
  - pose proof Hl as (Hup&Hal&Hpo&Hfm&Hfile&Htop&Hl').
    apply wp_bind. eapply (load_program_segment ph off sz f s l g); try done.
    + cbn [loadable]. by rewrite Hload.
    + cbn [pages_needed]. rewrite Hload. lia.
    + intros f1 s1 l1 Ho1 Hi1 Hl1 Hoth1 Hh1. cbn [pages_needed loaded] in Hl1, Hh1. rewrite Hload in Hl1, Hh1.
      destruct (pgroundup_page sz ltac:(unfold PGSIZE in *; lia)) as [_ Hru].
      rewrite Hoff'. eapply (IH _ _ f1 s1 l1); try done; try (unfold PROGHDR_SIZE; lia); try lia.
      intros f2 s2 l2 Ho2 Hi2 Hl2 Hoth2 Hr2 Hh2. apply (HQ f2 s2 l2); try done; [lia|].
      intros r va Hr Hne Hva. rewrite Hoth2, Hoth1; done.
  - apply wp_bind. unfold load_segment. rewrite (wrap_small 32 off) by lia. apply wp_bind, wp_during_fs; [done..|].
    apply Hread; [done|lia|unfold PROGHDR_SIZE; lia|]. intros f1 Ho1. rewrite file_read_whole by (unfold PROGHDR_SIZE; lia).
    cbn [fst snd]. rewrite Z.eqb_refl, Hph. cbn [negb]. unfold is_load in Hload. rewrite Hload. cbn [negb].
    apply wp_ret. rewrite Hoff'. eapply (IH _ _ f1 s l); try done; unfold PROGHDR_SIZE; lia.
Qed.
End Load.

(** ** The stack *)

Lemma push_args_run argv argc sp d R q f s l sz fl g b (Q : option (Z * list Z) → kernel St → Prop) :
  d ∈ R → vm_inv kend s l R → holds (km_mem s) d sz fl g → 0 ≤ sz ≤ 2 ^ 47 - PGSIZE →
  Z.of_nat (argc + length argv) ≤ MAXARG → Forall c_string argv →
  PGSIZE ≤ b ≤ lowest sp argv → sp ≤ PGROUNDUP sz →
  (∀ a, b ≤ a < PGROUNDUP sz → Z.land (fl (a - a mod PGSIZE)) PTE_U ≠ 0) →
  (∀ s', vm_inv kend s' l R → only_contents (km_mem s) (km_mem s') R d →
     holds (km_mem s') d sz fl (pushed sp argv g) → Q (Some (lowest sp argv, places sp argv)) (during f s' q)) →
  wp (push_args d argc sp argv) Q (during f s q).
Proof using All.
  intros Hd. revert argc sp s g Q. induction argv as [|str argv IH];
    intros argc sp s g Q Hi Hh Hsz Hargc Hstr Hb Hsp Hfl HQ; cbn [push_args lowest places pushed] in *.
  { apply wp_ret, (HQ s); [done|by intros r va _ _|done]. }
  apply Forall_cons_1 in Hstr as [(cs&->&Hn0&Hcs) Hstr]. set (str := cs ++ [0]) in *. cbn [length] in Hargc.
  assert (length str = S (length cs)) as Hlen by (unfold str; rewrite length_app; simpl; lia).
  rewrite (proj2 (Z.leb_gt _ _)) by lia. apply wp_bind, (wp_the _ _ (Z.of_nat (length cs))); [by apply strlen_c_string|].
  destruct (pgroundup_page sz Hsz) as [_ Hur]. pose proof (push_sp_range sp str) as [Hr _].
  pose proof (lowest_le (push_sp sp str) argv). unfold PGSIZE in Hb.
  assert (Z.land (u64 (sp - (Z.of_nat (length cs) + 1))) (u64 (Z.lnot 7)) = push_sp sp str) as Esp.
  { change 7 with (2 ^ 3 - 1). rewrite wrap_small by lia. rewrite land_lnot_ones by lia.
    unfold push_sp. rewrite Hlen. replace (sp - Z.of_nat (S (length cs))) with (sp - (Z.of_nat (length cs) + 1)) by lia. done. }
  cbv zeta. rewrite Esp. rewrite take_ge by lia.
  destruct (holds_copyout kend Hend s l R d sz fl g (push_sp sp str) str Hi Hd Hh Hsz) as (s1&Hrun&Hi1&Hoc1&Hh1).
  { unfold PGSIZE. lia. }
  { lia. }
  { intros a Ha. apply Hfl. lia. }
  { unfold str. apply Forall_app. split; [done|]. by repeat constructor. }
  apply wp_bind, wp_during_mem. eapply wp_eq; [exact Hrun|]. change (0 <? 0) with false. cbv iota. apply wp_bind.
  eapply (IH (S argc) (push_sp sp str) s1); try done; try lia; try (unfold PGSIZE; lia).
  - intros s2 Hi2 Hoc2 Hh2. apply wp_ret, (HQ s2); [done|by eapply only_contents_trans|done].
Qed.

Definition guarded (guard : Z) (a : Z) : Z := if decide (a = guard) then Z.land RWU NOT_U else RWU.

(** The memory of the new program: [sz] is the size of what was loaded, [g] its contents. *)
Definition stack_top (sz : Z) : Z := PGROUNDUP sz + 2 * PGSIZE.
Definition start_sp (sz : Z) (argv : list (list Z)) : Z :=
  lowest (stack_top sz) argv - 8 * (Z.of_nat (length argv) + 2).
Definition with_stack (sz : Z) (argv : list (list Z)) (g : Z → Z) : Z → Z :=
  write_at (start_sp sz argv) (ustack_bytes (places (stack_top sz) argv)) (pushed (stack_top sz) argv g).

(** The process that exec leaves. *)
Definition replaced q (path : list Z) (argv : list (list Z)) (entry sz d : Z) (q' : proc) : Prop :=
  ∃ nm, safestrcpy (p_name q) (last_elem path path) 16 = Some nm ∧
    let sp := start_sp sz argv in
    q' = Proc (stack_top sz) d (p_kstack q) (p_state q) (p_pid q) (p_parent q)
           (set_tf_entry entry entry sp (set_tf_args (Z.of_nat (length argv)) (sp + 8) (p_tf q)))
           (p_rip q) (p_chan q) (p_killed q) (p_ofile q) (p_cwd q) nm.

Lemma exec_stack_run (Hme : (k_me k0 < length (pt_proc (k_pt k0)))%nat) path argv entry d sz R q f s l g
    (Q : Z → kernel St → Prop) :
  d ∈ R → p_pgdir q ∈ R → p_pgdir q ≠ d → vm_inv kend s l R → holds (km_mem s) d sz (λ _, RWU) g →
  PGSIZE ≤ sz ≤ 2 ^ 47 - 4 * PGSIZE → (12 ≤ length l)%nat →
  Z.of_nat (length argv) ≤ MAXARG → Forall c_string argv → stack_top sz - PGSIZE ≤ start_sp sz argv →
  0 ∈ path → length (p_name q) = 16%nat →
  (∀ s' q' l', replaced q path argv entry sz d q' → vm_inv kend s' l' (R ∖ {[p_pgdir q]}) →
     p_pgdir q ∈ l' → holds (km_mem s') d (stack_top sz) (guarded (PGROUNDUP sz)) (with_stack sz argv g) →
     (∀ r va, r ∈ R → r ≠ d → r ≠ p_pgdir q → user_page va → upage (km_mem s') r va = upage (km_mem s) r va) →
     Q 0 (during f s' q')) →
  wp (exec_stack kend path argv entry d sz) Q (during f s q).
Proof using All.
  intros Hd Hold Hne Hi Hh Hsz Hl Hargc Hstr Hsp Hpath Hname HQ. unfold PGSIZE in Hsz.
  destruct (pgroundup_page sz ltac:(unfold PGSIZE; lia)) as [[Huv Hum] Hur].
  pose proof (lowest_le (stack_top sz) argv) as Hlow. unfold start_sp in Hsp.
  set (top := stack_top sz) in *. set (lo := lowest top argv) in *.
  assert (top = PGROUNDUP sz + 8192) as Htop by done. unfold PGSIZE in Hur, Hsp.
  assert (user_page (PGROUNDUP sz)) as Hguard by done.
  assert (PGROUNDUP top = top) as Hrt.
  { apply pgroundup_aligned; [lia|]. by rewrite Htop, Zplus_mod, Hum. }
  unfold exec_stack. cbv zeta. rewrite (wrap_small 64 (PGROUNDUP sz + 2 * PGSIZE)) by (unfold PGSIZE; lia).
  change (PGROUNDUP sz + 2 * PGSIZE) with top.
  pose proof (holds_round (km_mem s) d sz _ _ ltac:(unfold PGSIZE; lia) Hh) as Hh0.
  destruct (holds_alloc kend Hend s l R d (PGROUNDUP sz) top (λ _, RWU) g Hi Hd Hh0) as (s1&l1&Hrun1&Hi1&_&Hh1&Hoth1);
    [done|unfold PGSIZE; lia|unfold PGSIZE; lia| |].
  { rewrite (pgroundup_aligned (PGROUNDUP sz)) by (done || lia). rewrite Htop.
    replace (PGROUNDUP sz + 8192 - PGROUNDUP sz) with 8192 by lia. change (8192 / PGSIZE + 1) with 3. lia. }
  apply wp_bind, wp_during_mem. eapply wp_eq; [exact Hrun1|]. rewrite (proj2 (Z.eqb_neq _ _)) by lia.
  replace (u64 (top - 2 * PGSIZE)) with (PGROUNDUP sz) by (unfold PGSIZE; rewrite wrap_small; lia).
  destruct (holds_clear kend Hend s1 l1 R d top (λ _, RWU) g (PGROUNDUP sz) Hi1 Hd Hh1 Hguard) as (s2&Hrun2&Hi2&Hh2&Hoth2);
    [unfold PGSIZE; lia|].
  apply wp_bind, wp_during_mem. eapply wp_eq; [exact Hrun2|]. apply wp_bind.
  assert (∀ a, top - 4096 ≤ a < top → Z.land (guarded (PGROUNDUP sz) (a - a mod PGSIZE)) PTE_U ≠ 0) as Hfl.
  { intros a Ha. unfold guarded. pose proof (Z.mod_pos_bound a PGSIZE ltac:(done)) as Hm. unfold PGSIZE in Hm.
    rewrite decide_False by (unfold PGSIZE; lia). done. }
  eapply (push_args_run argv 0 top d R q f s2 l1 top (guarded (PGROUNDUP sz)) g (top - 4096)); try done;
    [unfold PGSIZE; lia|unfold PGSIZE; lia|lia|by rewrite Hrt|]. fold lo.
  intros s3 Hi3 Hoc3 Hh3. rewrite length_places.
  set (argc := Z.of_nat (length argv)) in *. unfold MAXARG in Hargc.
  apply wp_bind, wp_during_upd; [done|].
  rewrite (wrap_small 64 (lo - (1 + argc + 1) * 8)), (wrap_small 64 (lo - (argc + 1) * 8)) by lia.
  assert (start_sp sz argv = lo - (1 + argc + 1) * 8) as Esp by (unfold start_sp; fold top lo argc; lia).
  rewrite <- Esp. pose proof (length_ustack (places top argv)) as Hul. rewrite length_places in Hul.
  destruct (holds_copyout kend Hend s3 l1 R d top (guarded (PGROUNDUP sz)) (pushed top argv g) (start_sp sz argv)
    (ustack_bytes (places top argv)) Hi3 Hd Hh3) as (s4&Hrun4&Hi4&Hoc4&Hh4).
  { unfold PGSIZE. lia. }
  { unfold PGSIZE. lia. }
  { rewrite Hul, Hrt. lia. }
  { intros a Ha. apply Hfl. rewrite Hul in Ha. lia. }
  { apply ustack_is_bytes. }
  apply wp_bind, wp_during_mem. eapply wp_eq; [exact Hrun4|]. change (0 <? 0) with false. cbv iota.
  apply wp_bind, wp_during_me; [done|]. cbn [p_name set_p_tf p_pgdir].
  destruct (safestrcpy_loop_run 15 (p_name q) (last_elem path path)) as (nm&Hnm&_); [lia|right; by apply last_elem_null|].
  apply wp_bind, (wp_the _ _ nm); [exact Hnm|]. do 4 (apply wp_bind, wp_during_upd; [done|]).
  destruct (freevm_run kend Hend s4 l1 R (p_pgdir q) Hi4 Hold) as (s5&P&Hrun5&Hi5&_&Hoth5).
  apply wp_bind, wp_during_mem. eapply wp_eq; [exact Hrun5|]. apply wp_ret.
  eapply HQ; [|exact Hi5|left| |].
  - exists nm. split; [done|]. cbv zeta. rewrite Esp.
    replace (lo - (1 + argc + 1) * 8 + 8) with (lo - (argc + 1) * 8) by lia. done.
  - eapply holds_same; [|exact Hh4]. intros va Hva. by apply Hoth5.
  - intros r va Hr Hrd Hro Hva. rewrite Hoth5 by done.
    rewrite (proj2 (Hoc4 r va Hr Hva) Hrd), (proj2 (Hoc3 r va Hr Hva) Hrd). by rewrite Hoth2, Hoth1.
Qed.
End Exec.

(** * exec *)

Section Main.
Context {St : Type} `{!TxnIO St, !TxnSpec St, !TxnOps St, !TxnOpsSpec St}.
Context (devsw : list (devops (St := St))) (junk_name : list Z) (sb : superblock).
Implicit Types (f : fsst St) (V : list (list Z)) (I : Z → dinode) (E : gset Z) (r : nat → Z).

(** The file system between operations: [r] counts the references to its cached inodes. *)
Definition fs_idle f V I E r : Prop :=
  tx_idle (fs_io f) V ∧ (∀ io, tx_is io V ∅ ∅ → fs_inv sb (set_fs_io io f) V ∅ I E ∅ ∅) ∧ shape f r None.

Lemma fs_inv_proc f V X I E T U pid cwd : fs_inv sb f V X I E T U → fs_inv sb (set_fs_proc pid cwd f) V X I E T U.
Proof using. intros []. by split. Qed.

Lemma fs_inv_set_io f V X I E T U io : fs_inv sb f V X I E T U → tx_is io V X ∅ → fs_inv sb (set_fs_io io f) V X I E T U.
Proof using. intros []. by split. Qed.

Lemma fdata_bytes V di : Forall block V → bytes (fdata V di).
Proof using.
  intros HV. unfold fdata, frange. apply Forall_fmap, list.Forall_forall. intros o _. unfold compose, fbyte.
  set (b := V !!! _). assert (bytes b) as Hb.
  { subst b. rewrite list_lookup_total_alt. destruct (V !! _) as [b|] eqn:Eb; simpl; [|constructor].
    rewrite list.Forall_forall in HV. by apply HV, (list_elem_of_lookup_2 _ _ _ Eb). }
  rewrite list_lookup_total_alt. destruct (b !! _) as [x|] eqn:Ex; simpl; [|done].
  rewrite list.Forall_forall in Hb. by apply Hb, (list_elem_of_lookup_2 _ _ _ Ex).
Qed.

Lemma fdata_length f V X I E n :
  fs_inv sb f V X I E ∅ ∅ → inum_ok sb n →
  Z.of_nat (length (fdata V (I n))) = di_size (I n) ∧ di_size (I n) < 2 ^ 31.
Proof using.
  intros Hi Hn. pose proof (fi_ok _ _ _ _ _ _ _ _ Hi) as Hok. pose proof (fo_wf _ _ _ _ _ Hok n Hn) as Hwf.
  assert (0 ≤ di_size (I n)) as H0 by apply (dw_size _ Hwf). split.
  - unfold fdata. rewrite length_frange. lia.
  - destruct (Z.lt_ge_cases (di_size (I n)) (2 ^ 31)) as [|Hge]; [done|].
    destruct (fo_dense _ _ _ _ _ Hok n 140 Hn) as [Hlt _]; [set_solver|lia|unfold BSIZE; lia|].
    change MAXFILE with 140 in Hlt. lia.
Qed.

(** The inode [n] at [ip], locked, in an operation that changes nothing. *)
Definition program V I E r ip n f : Prop :=
  fs_inv sb f V ∅ I E ∅ ∅ ∧ shape f r (Some ip) ∧ ∃ i, inode_at f ip n i.

Lemma program_read V I E r ip n f pid cwd off len (Q : Z * list Z → fsst St → Prop) :
  live sb I n → di_type (I n) ≠ T_DEV → program V I E r ip n f → 0 ≤ off < 2 ^ 32 → 0 ≤ len < 2 ^ 32 →
  (∀ f', program V I E r ip n f' → Q (file_read (fdata V (I n)) off len) f') →
  wp (readi devsw ip off len) Q (set_fs_proc pid cwd f).
Proof using.
  intros Hlive Hty (Hif&Hsf&i&Hat) Hoff Hlen HQ.
  destruct (fdata_length f V ∅ I E n Hif (proj1 Hlive)) as [Hdlen _].
  eapply (readi_run sb devsw _ V ∅ I E ∅ ∅ ip n i); [by apply fs_inv_proc|done|set_solver|rewrite size_empty; lia|done|done|done|].
  intros io' Htx'.
  assert ((if decide (off ≤ di_size (I n) ∧ off + len < 2 ^ 32) then
     (Z.min len (di_size (I n) - off), frange V (di_addrs (I n)) off (Z.min len (di_size (I n) - off)))
     else (-1, [])) = file_read (fdata V (I n)) off len) as ->.
  { unfold file_read. cbv zeta. rewrite Hdlen. destruct (decide _); [|done]. f_equal. symmetry. apply sub_fdata; lia. }
  apply HQ. split; [apply fs_inv_set_io; [by apply fs_inv_proc|exact Htx']|]. split; [exact Hsf|by exists i].
Qed.

Context (kend : Z) (Hend : KERNBASE ≤ kend) (k0 : kernel St) (p : proc) (cwd : nat).

(** What exec relies on.  The process [p] runs, with a current directory; [path] leads to the inode [n], which is a program
    with the segments [phs] and the entry point [entry]; there are pages for the new memory; the arguments are strings
    that fit the stack. *)
Record can_exec path argv V I E r cn n entry phoff phs l R : Prop := {
  ce_me : pt_proc (k_pt k0) !! k_me k0 = Some p;
  ce_cwd : p_cwd p = Some cwd;
  ce_name : length (p_name p) = 16%nat;
  ce_fs : fs_idle (k_fs k0) V I E r;
  ce_free : two_free r;
  ce_tree : tree_ok sb V I;
  ce_root : live sb I ROOTINO;
  ce_dir : entry_of (k_fs k0) cwd cn;
  ce_dir_ref : 0 < r cwd;
  ce_dir_live : live sb I cn;
  ce_path : 0 ∈ path;
  ce_junk : (DIRSIZ ≤ length junk_name)%nat;
  ce_resolve : resolve V I false (if bool_decide (head path = Some SLASH) then ROOTINO else cn) (elems path) = Some n;
  ce_live : live sb I n;
  ce_type : di_type (I n) ≠ T_DEV;
  ce_prog : runnable (fdata V (I n)) entry phoff phs;
  ce_mem : vm_inv kend (k_mem k0) l R;
  ce_pgdir : p_pgdir p ∈ R;
  ce_pages : (13 + pages_needed PGSIZE phs ≤ length l)%nat;
  ce_argc : Z.of_nat (length argv) ≤ MAXARG;
  ce_argv : Forall c_string argv;
  ce_fits : stack_top (loaded_size PGSIZE phs) - PGSIZE ≤ start_sp (loaded_size PGSIZE phs) argv;
}.

Lemma during_start : pt_proc (k_pt k0) !! k_me k0 = Some p → k0 = during k0 (k_fs k0) (k_mem k0) p.
Proof using.
  intros Hp. unfold during. destruct k0 as [fs ft m pp pt me tk tl kp fi]; simpl in *.
  destruct pt as [lk ps np ini]; simpl in *. unfold set_pt_proc. simpl. by rewrite list_insert_id.
Qed.

(** The image of a program: its segments, and above them the stack with its arguments. *)
Definition image data phs argv : Z → Z :=
  with_stack (loaded_size PGSIZE phs) argv (loaded data phs (λ _, 0)).

Lemma exec_run path argv V I E r cn n entry phoff phs l R (Q : Z → kernel St → Prop) :
  can_exec path argv V I E r cn n entry phoff phs l R →
  (∀ f s d q l', let sz := loaded_size PGSIZE phs in
     fs_idle f V I E r → d ∉ R → replaced p path argv entry sz d q →
     vm_inv kend s l' (({[d]} ∪ R) ∖ {[p_pgdir p]}) → p_pgdir p ∈ l' →
     holds (km_mem s) d (stack_top sz) (guarded (PGROUNDUP sz)) (image (fdata V (I n)) phs argv) →
     (∀ t va : Z, t ∈ R → t ≠ p_pgdir p → user_page va → upage (km_mem s) t va = upage (km_mem (k_mem k0)) t va) →
     Q 0 (during k0 f s q)) →
  wp (exec devsw kend junk_name path argv) Q k0.
Proof using All.
  intros Hc HQ. pose proof Hc as [Hp Hcwd Hname (Hidle&Hinv&Hshape) H2 Htree Hroot Hdir Hdref Hdlive Hpath Hjunk Hres Hlive Hty
    [Helf1 Helf2 Hpho Hhd Hload] Hmem Hpg Hpages Hargc Hargv Hfits].
  pose proof (lookup_lt_Some _ _ _ Hp) as Hme.
  cut (wp (exec devsw kend junk_name path argv) Q (during k0 (k_fs k0) (k_mem k0) p)); [by rewrite <- (during_start Hp)|].
  set (data := fdata V (I n)) in *. unfold exec, kbegin_op, kend_op.
  apply wp_bind, (wp_during_fs k0 cwd Hme _ _ _ _ _ Hcwd), wp_zoom.
  eapply wp_mono; [apply tx_begin; exact Hidle|]. intros [] io Htx.
  set (f1 := over fs_io_lens io (set_fs_proc (p_pid p) cwd (k_fs k0))).
  assert (fs_inv sb f1 V ∅ I E ∅ ∅) as Hi1 by exact (fs_inv_proc _ _ _ _ _ _ _ (p_pid p) cwd (Hinv io Htx)).
  apply wp_bind, (wp_during_fs k0 cwd Hme _ _ _ _ _ Hcwd). unfold namei. apply wp_bind.
  eapply wp_mono; [apply (namex_run sb devsw (set_fs_proc (p_pid p) cwd f1) V ∅ I E r path false junk_name cn); try done|].
  { rewrite size_empty. lia. }
  intros [res nm] f2 (Hi2&Hfound&_). rewrite Hres in Hfound. destruct Hfound as (ip&Eip&Hent&Hsh2). cbn [fst] in Eip. subst res.
  apply wp_ret. cbn [fst]. set (r1 := <[ip := r ip + 1]> r) in *.
  apply wp_bind, (wp_during_fs k0 cwd Hme _ _ _ _ _ Hcwd).
  eapply (ilock_shape sb (set_fs_proc (p_pid p) cwd f2) V ∅ I E r1 ip n); try done.
  { by apply fs_inv_proc. }
  { unfold r1. rewrite fn_lookup_insert. destruct H2 as [Hr0 _]. specialize (Hr0 ip). lia. }
  { rewrite size_empty. lia. }
  intros f3 i3 Hi3 Hsh3 Hat3 _.
  set (opened := program V I E r1 ip n).
  assert (opened f3) as Hop3 by by split_and!; [..|exists i3].
  destruct (fdata_length f3 V ∅ I E n Hi3 (proj1 Hlive)) as [Hdlen Hdmax]. fold data in Hdlen.
  assert (bytes data) as Hdb by (apply fdata_bytes; by eapply fi_blocks).
  pose proof (λ f off len Q', program_read V I E r1 ip n f (p_pid p) cwd off len Q' Hlive Hty) as Hread. fold data opened in Hread.
  apply wp_bind, (wp_during_fs k0 cwd Hme _ _ _ _ _ Hcwd). apply Hread; [done|lia|unfold ELFHDR_SIZE; lia|].
  intros f4 Hop4. unfold ELFHDR_SIZE in Helf1. rewrite file_read_whole by (unfold ELFHDR_SIZE; lia). cbn [fst snd].
  rewrite Z.eqb_refl. change (Z.to_nat 0) with 0%nat. rewrite Helf2. cbn [negb eh_magic eh_phnum eh_phoff eh_entry].
  rewrite Z.eqb_refl. cbn [negb]. apply wp_bind, wp_gets. cbn [k_kpdpt during].
  destruct l as [|d l]; [simpl in Hpages; lia|].
  destruct (setupkvm_run kend Hend (k_kpdpt k0) (k_mem k0) d l R Hmem) as (s1&Hset&Hdz&Hi1'&HdR&Hup1&Hnone1&_).
  apply wp_bind, wp_during_mem. eapply wp_eq; [exact Hset|]. rewrite Hdz.
  rewrite Nat2Z.id, (sext_small 32 phoff) by lia. apply wp_bind. cbn [length] in Hpages.
  assert (d ∈ {[d]} ∪ R) as HdR' by set_solver.
  eapply (load_segments_run devsw kend Hend k0 cwd Hme p Hcwd d ({[d]} ∪ R) HdR' ip data opened Hdb ltac:(lia) Hread
    phs phoff PGSIZE f4 s1 l (λ _, 0)); try done; try lia; [by apply holds_empty|].
  intros f5 s5 l5 (Hi5&Hsh5&i5&Hat5) Hvm5 Hl5 Hoth5 Hsz5 Hh5.
  apply wp_bind, (wp_during_fs k0 cwd Hme _ _ _ _ _ Hcwd).
  eapply (iunlockput_shape sb _ V ∅ I E r1 ip n i5); [by apply fs_inv_proc|done|done|done|]. intros f6 Hi6 Hsh6 _.
  assert (shape f6 r None) as Hsh6'.
  { eapply shape_ext; [exact Hsh6|]. intros jp. unfold r1. apply refs_back. }
  apply wp_bind, (wp_during_fs k0 cwd Hme _ _ _ _ _ Hcwd), wp_zoom.
  eapply wp_mono; [apply tx_end; exact (fi_io _ _ _ _ _ _ _ _ Hi6)|]. intros [] io7 Hidle7.
  assert (p_pgdir p ≠ d) as Hold by congruence.
  eapply (exec_stack_run devsw kend Hend k0 cwd Hme path argv entry d (loaded_size PGSIZE phs) ({[d]} ∪ R) p _ s5 l5);
    try done; [set_solver|lia|].
  intros s8 q8 l8 Hq8 Hvm8 Hold8 Hh8 Hoth8. eapply (HQ _ s8 d q8 l8); try done.
  - split_and!; [done| |done]. intros io' Htx'. apply (fs_inv_proc (set_fs_io io' f6)). by apply fs_inv_set_io.
  - intros t va Ht Hne Hva. assert (t ≠ d) as Htd by congruence. rewrite Hoth8 by (done || set_solver).
    rewrite Hoth5 by (done || set_solver). by apply Hup1, Hva.
Qed.
(** The arguments of the new program are in its memory. *)
Lemma image_args m d data phs argv fl i s a j x :
  let sz := loaded_size PGSIZE phs in
  holds m d (stack_top sz) fl (image data phs argv) → PGSIZE ≤ sz ≤ 2 ^ 47 - 4 * PGSIZE →
  stack_top sz - PGSIZE ≤ start_sp sz argv →
  argv !! i = Some s → places (stack_top sz) argv !! i = Some a → s !! j = Some x →
  ubyte m d (a + Z.of_nat j) = Some x.
Proof using.
  intros sz Hh Hsz Hfit Hs Ha Hx. pose proof (lookup_lt_Some _ _ _ Hx) as Hlt.
  destruct (pushed_string (stack_top sz) argv (loaded data phs (λ _, 0)) i s a Hs Ha) as (Hlo&Hhi&Hp).
  unfold PGSIZE in Hsz. destruct (pgroundup_page sz ltac:(unfold PGSIZE; lia)) as [[_ Hum] Hur].
  assert (stack_top sz = PGROUNDUP sz + 8192) as Htop by done. unfold start_sp in Hfit. unfold PGSIZE in Hur, Hfit.
  rewrite (ho_bytes _ _ _ _ _ Hh).
  - rewrite <- (Hp j x Hx). unfold image, with_stack, write_at. fold sz.
    rewrite decide_False; [done|]. rewrite length_ustack, length_places. unfold start_sp. lia.
  - unfold user_va. lia.
  - pose proof (page_base_range (a + Z.of_nat j) (PGROUNDUP sz) (stack_top sz) Hum) as Hpg. unfold PGSIZE in *.
    destruct Hpg; [by rewrite Htop, Zplus_mod, Hum|lia|lia].
Qed.

Lemma loaded_size_range data sz phs :
  loadable data sz phs → PGSIZE ≤ sz ≤ 2 ^ 47 - 4 * PGSIZE → PGSIZE ≤ loaded_size sz phs ≤ 2 ^ 47 - 4 * PGSIZE.
Proof using.
  revert sz. induction phs as [|ph phs IH]; intros sz Hl Hsz; simpl in *; [done|]. destruct (is_load ph); [|by apply IH].
  destruct Hl as (Hv&_&_&Hm&_&Hmax&Hl). apply IH; [done|]. unfold PGSIZE in *.
  destruct (pgroundup_page sz ltac:(unfold PGSIZE; lia)) as [_ Hur]. lia.
Qed.

(** C4. exec replaces the image of the process.  Let the path lead to a program whose segments exec can load, let there be
    pages for the new memory, and let the arguments fit the stack.  Then exec returns 0.  The process has a new
    address space, in which the bytes of the file stand at the addresses of its segments, with zeroes up to the end of
    each segment and page, then a page that the user cannot access, then a page of stack that ends in the arguments, the pointers to them and a
    return address; every argument can be read where its pointer says.  The process starts at the entry point of the
    program with argc, argv and the stack pointer in its registers, under the last element of the path as its name; the rest of the process and all
    other processes are unchanged.  The root of the old address space is free again, every other address space has the memory it had, and
    the file system is between operations with the same contents and the same references as before. *)
Theorem exec_loads path argv V I E r cn n entry phoff phs l R :
  can_exec path argv V I E r cn n entry phoff phs l R →
  let sz := loaded_size PGSIZE phs in
  ∃ k' d q l', exec devsw kend junk_name path argv k0 = Ok 0 k' ∧
    pt_proc (k_pt k') = <[k_me k0 := q]> (pt_proc (k_pt k0)) ∧ replaced p path argv entry sz d q ∧
    holds (km_mem (k_mem k')) d (stack_top sz) (guarded (PGROUNDUP sz)) (image (fdata V (I n)) phs argv) ∧
    (∀ i s a j x, argv !! i = Some s → places (stack_top sz) argv !! i = Some a → s !! j = Some x →
       ubyte (km_mem (k_mem k')) d (a + Z.of_nat j) = Some x) ∧
    d ∉ R ∧ vm_inv kend (k_mem k') l' (({[d]} ∪ R) ∖ {[p_pgdir p]}) ∧ p_pgdir p ∈ l' ∧
    (∀ t va : Z, t ∈ R → t ≠ p_pgdir p → user_page va →
       upage (km_mem (k_mem k')) t va = upage (km_mem (k_mem k0)) t va) ∧
    fs_idle (k_fs k') V I E r.
Proof using All.
  intros Hc sz. pose proof (loaded_size_range _ _ _ (ru_loadable _ _ _ _ (ce_prog _ _ _ _ _ _ _ _ _ _ _ _ _ Hc)) ltac:(done)) as Hsz.
  destruct (proj1 (wp_run _ _ _) (exec_run path argv V I E r cn n entry phoff phs l R (λ x k', x = 0 ∧ ∃ d q l',
    pt_proc (k_pt k') = <[k_me k0 := q]> (pt_proc (k_pt k0)) ∧ replaced p path argv entry sz d q ∧
    holds (km_mem (k_mem k')) d (stack_top sz) (guarded (PGROUNDUP sz)) (image (fdata V (I n)) phs argv) ∧
    d ∉ R ∧ vm_inv kend (k_mem k') l' (({[d]} ∪ R) ∖ {[p_pgdir p]}) ∧ p_pgdir p ∈ l' ∧
    (∀ t va : Z, t ∈ R → t ≠ p_pgdir p → user_page va →
       upage (km_mem (k_mem k')) t va = upage (km_mem (k_mem k0)) t va) ∧
    fs_idle (k_fs k') V I E r) Hc ltac:(intros f s d q l'; split; [done|by exists d, q, l'])))
    as (x&k'&Hrun&->&d&q&l'&Hq&Hr&Hh&Hrest).
  exists k', d, q, l'. split_and!; try done; try apply Hrest. intros i s a j x.
  eapply (image_args _ d); [exact Hh|exact Hsz|]. apply Hc.
Qed.
End Main.

(** * Example *)

(** A program of five bytes of code, in one segment that is 32 bytes long in memory: "/e" with the arguments "e" and "hi". *)
Module Example.
Definition elf_header : list Z :=
  put_u32 0 ELF_MAGIC (put_u64 24 0x1000 (put_u64 32 64 (put_u16 56 1 (replicate 64 0)))).
Definition prog_header : list Z :=
  put_u32 0 ELF_PROG_LOAD (put_u64 8 120 (put_u64 16 0x1000 (put_u64 32 5 (put_u64 40 32 (replicate 56 0))))).
Definition code : list Z := [0x48; 0x31; 0xC0; 0xEB; 0xFE].
Definition program : list Z := elf_header ++ prog_header ++ code.
Definition segment : proghdr := Proghdr ELF_PROG_LOAD 120 0x1000 5 32.
Definition files : list input := [Input [101] (Some [program])].
Definition argv : list (list Z) := [[101; 0]; [104; 105; 0]].

Lemma is_runnable : runnable program 0x1000 64 [segment].
Proof. split; [vm_compute; discriminate|vm_compute; reflexivity|lia|..]; vm_compute; repeat split; discriminate. Qed.

Lemma files_fit : fits files.
Proof.
  split; [|vm_compute; discriminate..]. constructor; [|constructor].
  split; [split; [simpl; set_solver|by repeat constructor]|].
  eexists. split; [done|]. split; [|vm_compute; discriminate]. constructor; [|constructor].
  apply (bool_decide_unpack _). vm_compute. exact I.
Qed.

Lemma files_disk :
  ∃ s, Mkfs.main files Mkfs.start = Ok tt s ∧ disk_with (St := MemTxn.mst) (mk_img s) (root_entries files) (contents <$> files).
Proof.
  assert (∀ n, 32 ≤ n < 1000 → tx_home (St := MemTxn.mst) 1000 n) as Hh by (intros n ?; simpl; lia).
  destruct (proj1 (wp_run _ _ _) (main_run Hh files (λ _ s, disk_with (St := MemTxn.mst) (mk_img s) (root_entries files)
    (contents <$> files)) files_fit (λ s H, H))) as ([]&s&Hs&Hd). exists s. split; [exact Hs|exact Hd].
Qed.

Definition process (pgdir : Z) : proc :=
  Proc 0x3000 pgdir 0 RUNNING 1 None zero_tf 0 0 false (replicate NOFILE None) (Some 0%nat) (replicate 16 0).
Definition state (V : list (list Z)) (pgdir : Z) (m : kmem) : kernel MemTxn.mst :=
  Kernel (FsSt (MemTxn.Mst V ∅ ∅) Mkfs.sb false root_cache 1 0 []) (Ftable false []) m ∅
    (Ptable false [process pgdir] 2 None) 0 0 false 0 false.

Lemma exec_ready V pgdir m l :
  disk_with V (root_entries files) (contents <$> files) → vm_inv example_end m l {[pgdir]} → (27 ≤ length l)%nat →
  can_exec (replicate 14 0) Mkfs.sb example_end (state V pgdir m) (process pgdir) 0 [47; 101; 0] argv
    V (dino V Mkfs.sb) ∅ root_refs ROOTINO 2 0x1000 64 [segment] l {[pgdir]}.
Proof.
  intros Hd Hm Hl. destruct (disk_shows V V files Hd (ft_inputs _ files_fit) (λ b _, eq_refl)) as [Htree Hroot Hpath Hfile].
  assert (named files 0 (Input [101] (Some [program]))) as Hn.
  { split; [done| |done|lia]. split; [done|]. simpl. set_solver. }
  destruct (Hfile _ _ Hn) as (Hlive&Hty&_&Hdata). change (2 + Z.of_nat 0) with 2 in *.
  assert (Forall block V) as HV by apply Hd.
  split; try done.
  - split; [by split_and!|]. split; [|by apply root_cache_shape].
    intros io Hio. eapply root_cache_inv; try done; apply Hd.
  - apply root_two_free.
  - by exists root_entry.
  - set_solver.
  - exact (Hpath _ _ Hn).
  - rewrite Hty. done.
  - rewrite Hdata. apply is_runnable.
  - by apply elem_of_singleton.
  - eapply Nat.le_trans; [|exact Hl]. vm_compute. lia.
  - repeat constructor; [exists [101]|exists [104; 105]]; (split; [done|]); (split; [set_solver|by repeat constructor]).
Qed.
End Example.

Lemma exec_loads_witness :
  ∃ s m l r, Mkfs.main Example.files Mkfs.start = Ok tt s ∧ vm_inv example_end m l {[r]} ∧
    ∃ k' d q, exec [] example_end (replicate 14 0) [47; 101; 0] Example.argv (Example.state (mk_img s) r m) = Ok 0 k' ∧
      pt_proc (k_pt k') = [q] ∧ p_pgdir q = d ∧ p_sz q = 0x4000 ∧
      ubyte (km_mem (k_mem k')) d 0x1004 = Some 0xFE ∧ ubyte (km_mem (k_mem k')) d 0x3FF1 = Some 105.
Proof.
  destruct Example.files_disk as (s&Hs&Hd).
  destruct example_user as (m&l&r&Hi&Hl&_). exists s, m, l, r. split; [exact Hs|]. split; [exact Hi|].
  destruct (exec_loads (St := MemTxn.mst) [] (replicate 14 0) Mkfs.sb example_end (proj1 example_end_ok)
    (Example.state (mk_img s) r m) (Example.process r) 0 [47; 101; 0] Example.argv (mk_img s) (dino (mk_img s) Mkfs.sb) ∅
    root_refs ROOTINO 2 0x1000 64 [Example.segment] l {[r]} (Example.exec_ready (mk_img s) r m l Hd Hi Hl))
    as (k'&d&q&l'&Hrun&Hp&(nm&_&Hq)&Hh&Hargs&_).
  exists k', d, q. split; [exact Hrun|]. split; [exact Hp|]. rewrite Hq. split; [reflexivity|]. split; [reflexivity|].
  split.
  - rewrite (ho_bytes _ _ _ _ _ Hh); [|unfold user_va; lia|vm_compute; split; [discriminate|reflexivity]].
    destruct (dk_file _ _ _ Hd 0%nat Example.program eq_refl) as (_&_&Hc). change (2 + Z.of_nat 0) with 2 in Hc.
    rewrite Hc. vm_compute. reflexivity.
  - apply (Hargs 1%nat [104; 105; 0] 0x3FF0 1%nat 105); vm_compute; reflexivity.
Defined.
