(* ===== verification/Init.v ===== *)
(** The start of the system: from the image that mkfs wrote and memory as the machine has it, through the allocator, the
    kernel's page table, the first process (userinit), the scheduler and forkret, to the program /init in
    memory.  This is what main (src/main.c) does apart from the devices, which have files of their own; the code of
    the first process (src/initcode.S) is assembly whose only effect is the call of exec. *)

From stdpp Require Import functions.
From S2P Require Import Prelude Bytes Layout Sleeplock Bio Blocks LogDisk Log LogSafety Mem Kalloc Vm Freevm Uimage Kstring Pipe Txn Mkfs Boot.
From S2P Require Import Fs FsDisk FsInode FsFile FsCrash FsPath Proc Kernel File Sysarg Kproc Exec ExecSpec.
Import Proc.System.

Section Init.
Context {St : Type} `{!BlockIO St, !BlockIOSpec St} (devsw : list (devops (St := logst St))).
Context (kend forkret_addr : Z) (junk_name : list Z).
Local Abbreviation MK := (M (kernel (logst St))).

(** "/init" *)
Definition INIT_PATH : list Z := [47; 105; 110; 105; 116; 0].

Definition set_k_kpdpt (x : Z) (k : kernel (logst St)) : kernel (logst St) :=
  Kernel (k_fs k) (k_ft k) (k_mem k) (k_pipes k) (k_pt k) (k_me k) (k_ticks k) (k_tickslock k) x (k_first k).
Definition set_k_me (i : nat) (k : kernel (logst St)) : kernel (logst St) :=
  Kernel (k_fs k) (k_ft k) (k_mem k) (k_pipes k) (k_pt k) i (k_ticks k) (k_tickslock k) (k_kpdpt k) (k_first k).

(** The steps of main on memory and the tables. *)
Definition start_tables : MK unit :=
  mem (kinit1 kend kend (u64 (KERNBASE + PHYSTOP)));;
  tables ← mem kvmalloc;
  modify (set_k_kpdpt tables.2);;
  pt pinit;;
  mem kinit2.

(** The scheduler of the first CPU runs the first process that is runnable, which starts in forkret. *)
Definition run_first : MK unit :=
  r ← pt (scheduler_pick 0);
  i ← the "p" r;
  modify (set_k_me i);;
  forkret.

Definition start_init (initcode : list Z) : MK Z :=
  start_tables;;
  userinit devsw forkret_addr junk_name initcode;;
  run_first;;
  exec devsw kend junk_name INIT_PATH [INIT_PATH].

(** The kernel as it is loaded, with the disk [d]: the tables are zero, nextpid and first are 1. *)
Definition cold (d : list (list Z)) (files : list file) (m : kmem) : kernel (logst St) :=
  Kernel (boot_fs d) (Ftable false files) m ∅ (Ptable false (replicate (Z.to_nat NPROC) unused) 1 None) 0 0 false 0 true.

Context (Hend : KERNBASE ≤ kend).
Implicit Types (d D V : list (list Z)) (m s : kmem) (f : fsst (logst St)) (q : proc) (l : list Z).

(** ** Memory *)

Lemma start_tables_run d files m (Q : unit → kernel (logst St) → Prop) :
  kend + PGSIZE ≤ 2 ^ 64 → (∀ v, good_page kend v → ∃ pg, km_mem m !! page_of v = Some pg ∧ is_page pg) →
  km_mem m !! page_of 0 = None → (2 ≤ length (range_pages kend (KERNBASE + PHYSTOP)))%nat →
  (∀ kpdpt s l, vm_inv kend s l ∅ → (length (range_pages kend (KERNBASE + PHYSTOP)) = 2 + length l)%nat →
     Q tt (set_k_kpdpt kpdpt (cold d files s))) →
  wp start_tables Q (cold d files m).
Proof using Hend.
  intros Hov Hram Hnull Hpages HQ. unfold start_tables.
  rewrite (wrap_small 64 (KERNBASE + PHYSTOP)) by (unfold KERNBASE, PHYSTOP; lia).
  destruct (kinit1_run kend Hend m kend (KERNBASE + PHYSTOP)) as (s1&Hrun1&Hk1); [lia|done|lia|done|done|].
  apply wp_bind, wp_zoom. eapply wp_eq; [exact Hrun1|].
  rewrite <- length_rev in Hpages. destruct (rev _) as [|a [|b l]] eqn:El; [simpl in Hpages; lia..|].
  destruct (kvmalloc_run kend Hend s1 a b l ∅) as (s2&Hrun2&Hi2); [split; [done|set_solver..]|].
  apply wp_bind, wp_zoom. eapply wp_eq; [exact Hrun2|]. apply wp_bind, wp_modify.
  apply wp_bind, wp_zoom, wp_modify, wp_zoom, wp_modify.
  eapply (HQ b _ l); [|by rewrite <- length_rev, El].
  split; [|set_solver..]. destruct (vi_kmem _ _ _ _ Hi2). by split.
Qed.

(** ** The first process *)

Section First.
Context (files : list file) (kpdpt : Z).

(** The kernel with one process, [q]. *)
Definition alone f s q (fst : bool) : kernel (logst St) :=
  Kernel f (Ftable false files) s ∅ (Ptable false (q :: replicate (Z.to_nat NPROC - 1) unused) 2 (Some 0%nat)) 0 0 false kpdpt fst.

Lemma wp_alone_upd f s q fst g (Q : unit → kernel (logst St) → Prop) :
  Q tt (alone f s (g q) fst) → wp (updpr 0 g) Q (alone f s q fst).
Proof using. intros HQ. by apply wp_zoom, wp_modify. Qed.
Lemma wp_alone_get f s q fst (Q : proc → kernel (logst St) → Prop) :
  Q q (alone f s q fst) → wp (getpr 0) Q (alone f s q fst).
Proof using. intros HQ. apply wp_zoom. by eapply wp_getp. Qed.
Lemma wp_alone_fs {A} f s q fst cwd (x : M (fsst (logst St)) A) (Q : A → kernel (logst St) → Prop) :
  p_cwd q = Some cwd →
  wp x (λ a f', Q a (alone f' s q fst)) (set_fs_proc (p_pid q) cwd f) → wp (fs x) Q (alone f s q fst).
Proof using.
  intros Hc HQ. unfold fs. apply wp_bind. unfold me. apply wp_bind, wp_gets, wp_zoom. eapply wp_getp; [done|].
  apply wp_bind, (wp_the _ _ cwd); [done|]. by apply wp_zoom.
Qed.

(** The first process as userinit leaves it. *)
Definition init_proc (d ks : Z) (nm : list Z) : proc :=
  Proc (PGSIZE * 2) d ks RUNNABLE 1 None (first_tf PGSIZE FL_IF (PGSIZE * 2)) forkret_addr 0 false
    (replicate NOFILE None) (Some 0%nat) nm.

(** The file system after namei("/"): one entry of the cache is in use. *)
Definition root_fs d : fsst (logst St) := set_fs_inodes root_cache (boot_fs d).

Lemma namei_root_run d :
  (DIRSIZ ≤ length junk_name)%nat →
  namei devsw [47; 0] junk_name (set_fs_proc 0 0 (boot_fs d)) = Ok (Some 0%nat) (set_fs_proc 0 0 (root_fs d)).
Proof using. intros _. reflexivity. Qed.

Lemma userinit_run d s l initcode (Q : unit → kernel (logst St) → Prop) :
  vm_inv kend s l ∅ → (6 ≤ length l)%nat → bytes initcode → Z.of_nat (length initcode) < PGSIZE →
  (DIRSIZ ≤ length junk_name)%nat →
  (∀ s' l' pg ks nm, vm_inv kend s' l' {[pg]} → (length l ≤ 6 + length l')%nat → length nm = 16%nat →
     (∀ j x, initcode !! j = Some x → ubyte (km_mem s') pg (PGSIZE + Z.of_nat j) = Some x) →
     Q tt (alone (set_fs_proc 0 0 (root_fs d)) s' (init_proc pg ks nm) true)) →
  wp (userinit devsw forkret_addr junk_name initcode) Q (set_k_kpdpt kpdpt (cold d files s)).
Proof using Hend.
  intros Hi Hl Hb Hlen Hj HQ. destruct l as [|ks [|pg l]]; [simpl in Hl; lia..|]. simpl in Hl.
  destruct (vm_kalloc kend Hend s (pg :: l) ks ∅ Hi) as (y&Hal&Hi1&Hf1).
  unfold userinit. apply wp_bind. unfold allocproc. apply wp_bind, wp_zoom.
  eapply wp_eq; [reflexivity|]. apply wp_bind, wp_zoom. eapply wp_eq; [exact Hal|].
  destruct (good_page_addr kend Hend ks (proj1 Hf1)) as (_&_&Hks&_).
  apply wp_bind, wp_zoom, wp_modify. rewrite (proj2 (Z.eqb_neq _ _)) by done.
  apply wp_bind, wp_zoom, wp_modify. apply wp_ret. apply wp_bind, (wp_the _ _ 0%nat); [done|].
  apply wp_bind, wp_zoom, wp_modify.
  match goal with |- wp _ _ ?k => change k with (alone (boot_fs d) (set_km_freelist y s)
    (Proc 0 0 ks EMBRYO 1 None zero_tf forkret_addr 0 false (replicate NOFILE None) None (replicate 16 0)) true) end.
  destruct (setupkvm_run kend Hend kpdpt _ pg l ∅ Hi1) as (s2&Hset&Hpz&Hi2&_&_&Hnone&_). rewrite union_empty_r_L in Hi2.
  apply wp_bind, wp_gets. apply wp_bind, wp_zoom. eapply wp_eq; [exact Hset|]. apply wp_bind.
  apply (wp_alone_upd _ s2). rewrite Hpz.
  destruct (inituvm_run kend Hend s2 l {[pg]} pg initcode) as (s3&l3&Hin&Hi3&Hl3&Hby&_); try done.
  { by apply elem_of_singleton. }
  { lia. }
  { apply Hnone. unfold user_va, PGSIZE. lia. }
  apply wp_bind, wp_zoom. eapply wp_eq; [exact Hin|].
  do 2 (apply wp_bind, (wp_alone_upd _ s3)). apply wp_bind, (wp_alone_get _ s3).
  apply wp_bind. eapply (wp_the _ _ _); [reflexivity|]. apply wp_bind, (wp_alone_upd _ s3).
  apply wp_bind, wp_zoom. eapply wp_eq; [exact (namei_root_run d Hj)|].
  apply wp_bind, (wp_alone_upd _ s3), (wp_alone_upd _ s3).
  eapply HQ; [exact Hi3|simpl; lia|reflexivity|exact Hby].
Qed.

(** The first process runs: forkret initializes the file system. *)
Definition running (d ks : Z) (nm : list Z) : proc := set_p_state RUNNING (init_proc d ks nm).

Lemma init_root_run start lsize sb d (Q : unit → fsst (logst St) → Prop) :
  recoverable start lsize d → sb_of_bytes (d !!! 1%nat) = sb →
  (∀ f D tr, log_idle start lsize D tr 1 (fs_io f) D → same_home start lsize D (logical start d) →
     fs_sb f = sb → fs_lock f = false → fs_inodes f = root_cache → Q tt f) →
  wp (iinit ROOTDEV) (λ _, wp (zoom fs_io_lens (initlog ROOTDEV)) (λ _ f, Q tt (set_fs_proc 1 0 f)))
    (set_fs_proc 1 0 (set_fs_proc 0 0 (root_fs d))).
Proof using.
  intros Hrec Hsb HQ. eapply (init_run start lsize sb d); [exact Hrec|exact Hsb|reflexivity|..].
  - cbn [fs_inodes set_fs_proc root_fs set_fs_inodes]. constructor; [done|by apply Forall_replicate].
  - intros f D tr Hidle Hsame Hsb' Hlk Hins. exact (HQ (set_fs_proc 1 0 f) D tr Hidle Hsame Hsb' Hlk Hins).
Qed.

Lemma pick_first pg ks nm :
  scheduler_pick 0 (Ptable false (init_proc pg ks nm :: replicate (Z.to_nat NPROC - 1) unused) 2 (Some 0%nat)) =
    Ok (Some 0%nat) (Ptable false (running pg ks nm :: replicate (Z.to_nat NPROC - 1) unused) 2 (Some 0%nat)).
Proof using. reflexivity. Qed.

Lemma wp_alone_initlog f s pg ks nm (Q : unit → kernel (logst St) → Prop) :
  wp (zoom fs_io_lens (initlog ROOTDEV)) (λ _ f', Q tt (alone (set_fs_proc 1 0 f') s (running pg ks nm) false)) f →
  wp (fs (zoom fs_io_lens (t_initlog ROOTDEV))) Q (alone f s (running pg ks nm) false).
Proof using.
  intros HQ. apply (wp_alone_fs _ _ _ _ 0%nat); [reflexivity|]. apply wp_zoom. apply (proj1 (wp_zoom _ _ _ _)) in HQ.
  eapply wp_mono; [exact HQ|]. intros [] io HQ'. exact HQ'.
Qed.

Lemma wp_alone_forkret d s pg ks nm (Q : unit → kernel (logst St) → Prop) :
  wp (iinit ROOTDEV) (λ _ f, wp (fs (zoom fs_io_lens (t_initlog ROOTDEV))) Q (alone f s (running pg ks nm) false))
    (set_fs_proc 1 0 (set_fs_proc 0 0 (root_fs d))) →
  wp forkret Q (alone (set_fs_proc 0 0 (root_fs d)) s (running pg ks nm) true).
Proof using.
  intros HQ. unfold forkret. apply wp_bind, wp_gets. cbn [when k_first alone]. apply wp_bind, wp_modify.
  apply wp_bind, (wp_alone_fs (set_fs_proc 0 0 (root_fs d)) s (running pg ks nm) false 0%nat); [reflexivity|]. exact HQ.
Qed.

Lemma run_first_run start lsize sb d s pg ks nm (Q : unit → kernel (logst St) → Prop) :
  recoverable start lsize d → sb_of_bytes (d !!! 1%nat) = sb →
  (∀ f D tr, log_idle start lsize D tr 1 (fs_io f) D → same_home start lsize D (logical start d) →
     fs_sb f = sb → fs_lock f = false → fs_inodes f = root_cache → Q tt (alone f s (running pg ks nm) false)) →
  wp run_first Q (alone (set_fs_proc 0 0 (root_fs d)) s (init_proc pg ks nm) true).
Proof using.
  intros Hrec Hsb HQ. unfold run_first. apply wp_bind, wp_zoom. eapply wp_eq; [exact (pick_first pg ks nm)|].
  apply wp_bind, (wp_the _ _ 0%nat); [done|]. apply wp_bind, wp_modify, wp_alone_forkret.
  pose proof (init_root_run start lsize sb d (λ _ f, Q tt (alone f s (running pg ks nm) false)) Hrec Hsb HQ) as Hw.
  eapply wp_mono; [exact Hw|]. intros [] f Hw2. apply wp_alone_initlog. exact Hw2.
Qed.

Lemma one_op : 1 ≤ 1 ≤ 3.
Proof using. lia. Qed.

(** The disk after recovery is that of the image. *)
Lemma image_agree V fs D tr :
  disk_with (TxnSpec0 := log_txn 2 30 D tr 1) V (root_entries fs) (contents <$> fs) → same_home 2 30 D V →
  agree Mkfs.sb V D ∧ geom (TxnSpec0 := log_txn 2 30 D tr 1) Mkfs.sb D.
Proof using.
  intros Hd Hsame. destruct (image_recoverable D tr V _ _ Hd) as (Hrec&Hlog&_).
  destruct (logical_agree 2 30 Mkfs.sb V D Hrec) as [Ha Hg].
  - intros D' tr'. rewrite Hlog. exact (image_geom D tr D' tr' V _ _ Hd).
  - by rewrite Hlog.
  - rewrite Hlog in Ha. by split.
Qed.

(** The first process can exec /init. *)
Lemma can_exec_init V fs k g D tr f s l pg ks nm entry phoff phs :
  disk_with (TxnSpec0 := log_txn 2 30 D tr 1) V (root_entries fs) (contents <$> fs) → Forall input_ok fs →
  named fs k g → file_name g = [105; 110; 105; 116] → runnable (contents g) entry phoff phs →
  log_idle 2 30 D tr 1 (fs_io f) D → same_home 2 30 D V → fs_sb f = Mkfs.sb → fs_lock f = false → fs_inodes f = root_cache →
  vm_inv kend s l {[pg]} → (13 + pages_needed PGSIZE phs ≤ length l)%nat → length nm = 16%nat → (DIRSIZ ≤ length junk_name)%nat →
  can_exec (TxnSpec0 := log_txn 2 30 D tr 1) (TxnOpsSpec0 := log_ops_spec 2 30 D tr 1 one_op) junk_name Mkfs.sb kend
    (alone f s (running pg ks nm) false) (running pg ks nm) 0 INIT_PATH [INIT_PATH]
    D (dino V Mkfs.sb) ∅ root_refs ROOTINO (2 + Z.of_nat k) entry phoff phs l {[pg]}.
Proof using.
  intros Hd Hin Hn Hname Hrun Hidle Hsame Hsb Hlk Hins Hm Hl Hnm Hj.
  destruct (image_agree V fs D tr Hd Hsame) as [Ha Hg].
  destruct (disk_shows V D fs Hd Hin Ha) as [Htree Hroot Hpath Hfile].
  destruct (Hfile k g Hn) as (Hlive&Hty&_&Hdata). specialize (Hpath k g Hn). rewrite Hname in Hpath.
  assert (∀ io, log_tx 2 30 D tr 1 io D ∅ ∅ → fs_inv (TxnSpec0 := log_txn 2 30 D tr 1) Mkfs.sb (set_fs_io io f) D ∅ (dino V Mkfs.sb) ∅ ∅ ∅) as Hinv.
  { intros io Htx. apply (root_cache_inv Mkfs.sb (set_fs_io io f) D (dino V Mkfs.sb)); try done.
    - exact (agree_ok Mkfs.sb V D _ _ _ (dk_geom _ _ _ Hd) Ha (dk_ok _ _ _ Hd)).
    - intros n Hi. symmetry. exact (agree_dino Mkfs.sb V D n (dk_geom _ _ _ Hd) Ha Hi). }
  split; [reflexivity|reflexivity|exact Hnm| |exact root_two_free|exact Htree|exact Hroot| |reflexivity|exact Hroot| |
    exact Hj|exact Hpath|exact Hlive| | |exact Hm|by apply elem_of_singleton|exact Hl|vm_compute; discriminate| |].
  - split; [exact Hidle|]. split; [exact Hinv|]. exact (root_cache_shape f Hins).
  - exists root_entry. split; [|reflexivity]. cbn [k_fs alone]. by rewrite Hins.
  - apply (bool_decide_unpack _). done.
  - by rewrite Hty.
  - by rewrite Hdata.
  - repeat constructor. exists [47; 105; 110; 105; 116]. split; [done|].
    split; [apply (bool_decide_unpack _); done|by repeat constructor].
  - set (sz := loaded_size PGSIZE phs). unfold start_sp. cbn [lowest length]. pose proof (push_sp_range (stack_top sz) INIT_PATH) as Hp.
    unfold INIT_PATH in Hp |- *. unfold PGSIZE. cbn [length] in Hp |- *. clear Hend. lia.
Qed.
End First.

(** /init is in memory and about to run, with [data] its program file. *)
Record started (data : list Z) (entry : Z) (phs : list proghdr) (k : kernel (logst St)) (q : proc) : Prop := {
  st_procs : pt_proc (k_pt k) = q :: replicate (Z.to_nat NPROC - 1) unused;
  st_me : k_me k = 0%nat ∧ pt_initproc (k_pt k) = Some 0%nat;
  st_proc : p_pid q = 1 ∧ p_state q = RUNNING ∧ p_cwd q = Some 0%nat;
  st_sz : p_sz q = stack_top (loaded_size PGSIZE phs);
  st_regs : tf_rcx (p_tf q) = entry ∧ tf_rsp (p_tf q) = start_sp (loaded_size PGSIZE phs) [INIT_PATH];
  st_memory : holds (km_mem (k_mem k)) (p_pgdir q) (p_sz q) (guarded (PGROUNDUP (loaded_size PGSIZE phs))) (image data phs [INIT_PATH]);
  st_only : ∃ l, vm_inv kend (k_mem k) l {[p_pgdir q]};
}.

(** C3. The system starts /init.  Let mkfs make an image of files that fit the disk, one of them, "init", a program that exec
    can load; let memory have enough pages.  Then the kernel, from its zero tables: allocator, page table and first process are
    set up, the scheduler runs that process, recovery leaves the file system of the image, and exec of "/init"
    succeeds.  Afterwards the process that runs has the process id 1 and is the one that inherits orphans; its memory is the
    image of the program, byte by byte, with a stack that holds its argument, below it a page that a user cannot access; it
    starts at the entry point; its address space is the only one. *)
Theorem start_init_runs fs k g initcode entry phoff phs files m :
  fits fs → named fs k g → file_name g = [105; 110; 105; 116] → runnable (contents g) entry phoff phs →
  kend + PGSIZE ≤ 2 ^ 64 → (∀ v, good_page kend v → ∃ pg, km_mem m !! page_of v = Some pg ∧ is_page pg) →
  km_mem m !! page_of 0 = None → (21 + pages_needed PGSIZE phs ≤ length (range_pages kend (KERNBASE + PHYSTOP)))%nat →
  bytes initcode → Z.of_nat (length initcode) < PGSIZE → (DIRSIZ ≤ length junk_name)%nat →
  ∃ i k' q, Mkfs.main fs Mkfs.start = Ok tt i ∧
    start_init initcode (cold (mk_img i) files m) = Ok 0 k' ∧ started (contents g) entry phs k' q.
Proof using Hend BlockIOSpec0.
  intros Hf Hn Hname Hrun Hov Hram Hnull Hpages Hb Hlen Hj.
  destruct (mkfs_disk fs [] [] Hf) as (i&Hmk&Hd). exists i. set (V := mk_img i) in *.
  destruct (image_recoverable [] [] V _ _ Hd) as (Hrec&Hlog&Hsb).
  assert (wp (start_init initcode) (λ x k', x = 0 ∧ ∃ q, started (contents g) entry phs k' q) (cold V files m))
    as (x&k'&Hw&->&q&Hq)%wp_run; [|exists k', q; split; [exact Hmk|split; [exact Hw|exact Hq]]].
  unfold start_init. apply wp_bind, start_tables_run; [done|done|done|lia|]. intros kpdpt s1 l1 Hi1 Hl1.
  apply wp_bind, (userinit_run files kpdpt V s1 l1); [done|lia|done..|]. intros s2 l2 pg ks nm Hi2 Hl2 Hnm _.
  apply wp_bind, (run_first_run files kpdpt 2 30 Mkfs.sb V); [done|done|]. intros f D tr Hidle Hsame Hfs Hlk Hins.
  rewrite Hlog in Hsame. pose proof (disk_any_log [] [] D tr V _ _ Hd) as Hd'.
  destruct (disk_shows V D fs Hd' (ft_inputs _ Hf)) as [_ _ _ Hfile]; [by eapply image_agree|].
  assert (13 + pages_needed PGSIZE phs ≤ length l2)%nat as Hl by lia.
  pose proof (can_exec_init files kpdpt V fs k g D tr f s2 l2 pg ks nm entry phoff phs Hd' (ft_inputs _ Hf) Hn Hname Hrun
    Hidle Hsame Hfs Hlk Hins Hi2 Hl Hnm Hj) as Hce.
  eapply (exec_run (TxnSpec0 := log_txn 2 30 D tr 1) (TxnOpsSpec0 := log_ops_spec 2 30 D tr 1 one_op) devsw junk_name Mkfs.sb kend Hend);
    [exact Hce|].
  cbv zeta. intros f' s3 d q l3 _ HdR (nm'&_&Hq) Hi3 _ Hh _. split; [done|]. exists q.
  destruct (Hfile k g Hn) as (_&_&_&Hdata). rewrite Hdata in Hh. cbv zeta in Hq. subst q.
  split; [reflexivity|split; reflexivity|split_and!; reflexivity|reflexivity|split; reflexivity|exact Hh|]. exists l3.
  replace (({[d]} ∪ {[pg]}) ∖ {[pg]} : gset Z) with ({[d]} : gset Z) in Hi3; [exact Hi3|].
  clear -HdR. set_solver.
Qed.
End Init.

(** An image with the example program as "_init". *)
Definition init_input : input := Input [95; 105; 110; 105; 116] (Some [Example.program]).

Lemma init_input_fits : fits [init_input].
Proof.
  split; [|vm_compute; discriminate..]. constructor; [|constructor].
  split; [split; [apply (bool_decide_unpack _); done|by repeat constructor]|].
  eexists. split; [done|]. split; [|vm_compute; discriminate]. constructor; [|constructor].
  apply (bool_decide_unpack _). vm_compute. exact I.
Qed.

Lemma init_input_named : named [init_input] 0 init_input.
Proof. split; [done| |done|lia]. split; [done|]. apply (bool_decide_unpack _). done. Qed.

Lemma start_init_runs_witness :
  ∃ i (k' : kernel (logst bcache)) q, Mkfs.main [init_input] Mkfs.start = Ok tt i ∧
    start_init [] example_end 42 (replicate 14 0) [0x90; 0x90] (cold (mk_img i) [] (Kmem false false 0 ram)) = Ok 0 k' ∧
    pt_proc (k_pt k') !! k_me k' = Some q ∧ p_pid q = 1 ∧ p_sz q = 0x4000 ∧ tf_rcx (p_tf q) = 0x1000 ∧
    ubyte (km_mem (k_mem k')) (p_pgdir q) 0x1004 = Some 0xFE.
Proof.
  assert (25 ≤ length (range_pages example_end (KERNBASE + PHYSTOP)))%nat as Hl
    by (unfold range_pages, pages_from; rewrite length_fmap, length_seq; apply Nat.leb_le; vm_compute; reflexivity).
  destruct (start_init_runs (St := bcache) [] example_end 42 (replicate 14 0) (proj1 example_end_ok) [init_input] 0 init_input
    [0x90; 0x90] 0x1000 64 [Example.segment] [] (Kmem false false 0 ram)) as (i&k'&q&Hmk&Hrun&Hst).
  - exact init_input_fits.
  - exact init_input_named.
  - reflexivity.
  - exact Example.is_runnable.
  - vm_compute. discriminate.
  - intros v Hv. exact (ram_pages example_end v (proj1 example_end_ok) Hv).
  - exact ram_null.
  - exact Hl.
  - repeat constructor; vm_compute; discriminate.
  - reflexivity.
  - vm_compute. lia.
  - exists i, k', q. destruct Hst as [Hp [Hme _] (Hpid&_&_) Hsz [Hrcx _] Hh _].
    split; [exact Hmk|]. split; [exact Hrun|]. split; [rewrite Hme, Hp; reflexivity|]. split; [exact Hpid|].
    split; [exact Hsz|]. split; [exact Hrcx|]. rewrite Hsz in Hh.
    rewrite (ho_bytes _ _ _ _ _ Hh); [|unfold user_va; lia|vm_compute; split; [discriminate|reflexivity]].
    vm_compute. reflexivity.
Defined.
