(* ===== verification/Trap.v ===== *)
(** System calls and traps (src/syscall.c, src/syscall.h, src/trap.c): the dispatch of a system call, and what the
    kernel does on an interrupt or an exception.

    The handlers of the disk, the keyboard and the serial line are arguments, and messages on the
    console are left out. *)

From S2P Require Import Prelude Bytes Layout Ports Mem Kalloc Vm Kstring Pipe Txn Fs Proc Kernel File Sysarg Sysfile Kproc Exec.

Section Code.
Context {St : Type} `{!TxnIO St, !TxnOps St} (devsw : list (devops (St := St))) (kend ptab : Z).
Context (forkret_addr ticks_chan : Z) (junk_de : dirent) (junk_name : list Z) (junk_ptr : Z).
Local Abbreviation MK := (M (kernel St)).

(** syscalls[num], for the numbers of syscall.h *)
Definition syscalls (num : Z) : option (MK Z) :=
  match num with
  | 1 => Some (sys_fork kend forkret_addr)
  | 2 => Some (sys_exit kend ptab)
  | 3 => Some (sys_wait kend ptab)
  | 4 => Some (sys_pipe kend junk_ptr)
  | 5 => Some (sys_read devsw junk_ptr)
  | 6 => Some sys_kill
  | 7 => Some (sys_exec devsw kend junk_name)
  | 8 => Some (sys_fstat junk_ptr)
  | 9 => Some (sys_chdir devsw junk_name)
  | 10 => Some sys_dup
  | 11 => Some sys_getpid
  | 12 => Some (sys_sbrk kend)
  | 13 => Some (sys_sleep ticks_chan)
  | 14 => Some sys_uptime
  | 15 => Some (sys_open devsw kend junk_de junk_name)
  | 16 => Some (sys_write devsw junk_ptr)
  | 17 => Some (sys_mknod devsw junk_de junk_name)
  | 18 => Some (sys_unlink devsw junk_name)
  | 19 => Some (sys_link devsw junk_de junk_name)
  | 20 => Some (sys_mkdir devsw junk_de junk_name)
  | 21 => Some (sys_close kend)
  | _ => None
  end.

(** All calls but sbrk return an int, of which the low half of rax is certain. *)
Definition syscall_result (num r : Z) : Z := if num =? 12 then r else u32 r.

Definition syscall (tf : trapframe) : MK unit :=
  upd_me (set_p_tf tf);;
  let num := tf_rax tf in
  r ← match syscalls num with
      | Some call => r ← call; mret (syscall_result num r)
      | None => mret (u64 (-1))
      end;
  upd_me (λ p, set_p_tf (set_tf_rax r (p_tf p)) p);;
  k ← gets me_killed;
  when k (exit kend ptab).

(** A clock tick, on the first CPU. *)
Definition clock_tick : MK unit :=
  acquire tickslock_lens;;
  modify (λ k, set_k_ticks (u32 (k_ticks k + 1)) k);;
  kwakeup ticks_chan;;
  release tickslock_lens.

Section Devices.
Context (ideintr kbdintr uartintr : MK unit).

(** What trap does for the trap number, before it looks at the process: [user] says whether there is a process, and
    the trap came from its user code. *)
Definition trap_handler (cpunum : Z) (user : bool) (trapno : Z) : MK unit :=
  if trapno =? T_IRQ0 + IRQ_TIMER then when (cpunum =? 0) clock_tick
  else if trapno =? T_IRQ0 + IRQ_IDE then ideintr
  else if trapno =? T_IRQ0 + IRQ_IDE + 1 then mret tt
  else if trapno =? T_IRQ0 + IRQ_KBD then kbdintr
  else if trapno =? T_IRQ0 + IRQ_COM1 then uartintr
  else if (trapno =? T_IRQ0 + 7) || (trapno =? T_IRQ0 + IRQ_SPURIOUS) then mret tt
  else if negb user then panic "trap"
  else upd_me (set_p_killed true).

(** A process that was killed exits when it is about to return to user code. *)
Definition exit_if_killed (tf : trapframe) : MK unit :=
  k ← gets me_killed;
  when (k && (Z.land (tf_cs tf) 3 =? DPL_USER)) (exit kend ptab).

(** trap while a process runs on the CPU, until it returns or the process gives up the CPU on a
    clock tick. *)
Definition trap (cpunum : Z) (tf : trapframe) : MK unit :=
  trap_handler cpunum (negb (Z.land (tf_cs tf) 3 =? 0)) (tf_trapno tf);;
  exit_if_killed tf;;
  p ← me;
  i ← gets k_me;
  when (bool_decide (p_state p = RUNNING) && (tf_trapno tf =? T_IRQ0 + IRQ_TIMER)) (pt (yield i)).

(** The end of trap, after the process got the CPU back. *)
Definition trap_end (tf : trapframe) : MK unit := exit_if_killed tf.
End Devices.
End Code.
