(* ===== verification/FileRefs.v ===== *)
(** The reference counts of open files: in every state between system calls, f->ref is the number of
    descriptors, over all processes, that refer to f.

    [stable v m] says that the code [m] does not change the view [v] of the state when it returns. *)

From S2P Require Import Prelude Bytes Layout Mem Kalloc Vm Kstring Pipe Txn Fs Proc Kernel File Sysarg Sysfile Kproc Exec Trap.

(** * Code that leaves a part of the state alone *)

Definition stable {St V A} (v : St → V) (m : M St A) : Prop := ∀ s a s', m s = Ok a s' → v s' = v s.

Section Stable.
Context {St V : Type} (v : St → V).

Lemma stable_ret {A} (a : A) : stable v (mret a).
Proof. by intros s b s' [= _ <-]. Qed.
Lemma stable_bind {A B} (m : M St A) (f : A → M St B) : stable v m → (∀ a, stable v (f a)) → stable v (m ≫= f).
Proof. intros Hm Hf s b s'' (a&s'&E&E')%bind_ok. rewrite (Hf a _ _ _ E'). by eapply Hm. Qed.
Lemma stable_gets {A} (f : St → A) : stable v (gets f).
Proof. by intros s b s' [= _ <-]. Qed.
Lemma stable_modify f : (∀ s, v (f s) = v s) → stable v (modify f).
Proof. by intros H s b s' [= _ <-]. Qed.
Lemma stable_panic {A} msg : stable v (panic (A := A) msg).
Proof. by intros s a s'. Qed.
Lemma stable_undefined {A} what : stable v (undefined (A := A) what).
Proof. by intros s a s'. Qed.
Lemma stable_out_of_fuel {A} : stable v (out_of_fuel (A := A)).
Proof. by intros s a s'. Qed.
Lemma stable_sleep_on {A} ch : stable v (sleep_on (A := A) ch).
Proof. by intros s a s'. Qed.
Lemma stable_the {A} what (o : option A) : stable v (the what o).
Proof. destruct o; [apply stable_ret|apply stable_undefined]. Qed.
Lemma stable_when c m : stable v m → stable v (when c m).
Proof. destruct c; [done|]. intros _. apply stable_ret. Qed.
Lemma stable_zoom {C A} (l : lens St C) (m : M C A) :
  (∀ s a c, m (view l s) = Ok a c → v (over l c s) = v s) → stable v (zoom l m).
Proof. intros H s a s'. unfold zoom. destruct (m (view l s)) eqn:E; [|done..]. intros [= <- <-]. by eapply H. Qed.
Lemma stable_zoom_other {C A} (l : lens St C) (m : M C A) :
  (∀ c s, v (over l c s) = v s) → stable v (zoom l m).
Proof. intros H. by apply stable_zoom. Qed.
Lemma stable_bind_sleep {A B} (m : M St A) ch : stable v (m ≫= λ _, sleep_on (A := B) ch).
Proof. by intros s b s' (a&s1&_&E)%bind_ok. Qed.
Lemma stable_acquire (l : lens St bool) : (∀ b s, v (over l b s) = v s) → stable v (acquire l).
Proof.
  intros H. apply stable_bind; [apply stable_gets|]. intros []; [apply stable_panic|]. by apply stable_modify.
Qed.
Lemma stable_release (l : lens St bool) : (∀ b s, v (over l b s) = v s) → stable v (release l).
Proof.
  intros H. apply stable_bind; [apply stable_gets|]. intros []; [|apply stable_panic]. by apply stable_modify.
Qed.
End Stable.

Create HintDb stable.

(** One step of the proof that code is stable. *)
Ltac stable_step :=
  match goal with
  | |- stable _ (mret _) => apply stable_ret
  | |- stable _ (_ ≫= λ _, sleep_on _) => apply stable_bind_sleep
  | |- stable _ (_ ≫= _) => apply stable_bind; [|intros ?]
  | |- stable _ (gets _) => apply stable_gets
  | |- stable _ (panic _) => apply stable_panic
  | |- stable _ (undefined _) => apply stable_undefined
  | |- stable _ out_of_fuel => apply stable_out_of_fuel
  | |- stable _ (sleep_on _) => apply stable_sleep_on
  | |- stable _ (the _ _) => apply stable_the
  | |- stable _ (when _ _) => apply stable_when
  | |- stable _ (acquire _) => apply stable_acquire; done
  | |- stable _ (release _) => apply stable_release; done
  | |- stable _ (match ?x with _ => _ end) => destruct x
  | |- stable _ _ => progress cbv zeta
  | |- stable _ _ => solve [eauto with stable nocore]
  end.
Ltac stable_steps := repeat stable_step.

(** * What the counts depend on *)

(** A slot of the table of processes that has no process, or one that has exited. *)
Definition dead (st : procstate) : bool := bool_decide (st = UNUSED ∨ st = ZOMBIE).
Definition pview (p : proc) : list (option nat) * bool := (p_ofile p, dead (p_state p)).
Definition ptview (s : ptable) : list (list (option nat) * bool) := pview <$> pt_proc s.

Lemma pt_stable_updp i f : (∀ p, pview (f p) = pview p) → stable ptview (updp i f).
Proof.
  intros H. apply stable_modify. intros s. unfold ptview. simpl. apply list_eq. intros j.
  rewrite !list_lookup_fmap. destruct (decide (j = i)) as [->|Hne]; [|by rewrite list_lookup_alter_ne].
  rewrite list_lookup_alter_eq. destruct (pt_proc s !! i); simpl; [|done]. by rewrite H.
Qed.

Lemma wake_view ch p : pview (wake_proc ch p) = pview p.
Proof. unfold wake_proc. case_decide as Hs; [|done]. destruct p; simpl in *. by destruct Hs as [-> _]. Qed.

Lemma pt_stable_wakeup1 ch : stable ptview (wakeup1 ch).
Proof.
  apply stable_modify. intros s. unfold ptview. simpl. rewrite <- list_fmap_compose. apply list_fmap_ext.
  intros i p _. apply wake_view.
Qed.
#[export] Hint Resolve pt_stable_wakeup1 : stable.

Lemma pt_stable_getp i : stable ptview (getp i).
Proof. unfold getp. stable_steps. Qed.
#[export] Hint Resolve pt_stable_getp : stable.

Lemma pt_stable_wakeup ch : stable ptview (wakeup ch).
Proof. unfold wakeup. stable_steps. Qed.
#[export] Hint Resolve pt_stable_wakeup : stable.

Lemma pt_stable_sched i : stable ptview (sched i).
Proof. unfold sched, sched_checks. stable_steps. Qed.
#[export] Hint Resolve pt_stable_sched : stable.

(** An update that depends on the process. *)
Lemma pt_stable_update_if i (P : proc → Prop) `{!∀ p, Decision (P p)} f :
  (∀ p, P p → pview (f p) = pview p) → stable ptview (p ← getp i; if decide (P p) then updp i f else mret tt).
Proof.
  intros Hv s [] s' (p&s1&E1&E2)%bind_ok. unfold getp in E1. apply bind_ok in E1 as (l&s2&[= <- <-]&E1).
  destruct (pt_proc s !! i) as [q|] eqn:Hq; [|done]. injection E1 as <- <-.
  case_decide as Hp; [|by injection E2 as <-]. injection E2 as <-. unfold ptview. simpl.
  apply list_eq. intros j. rewrite !list_lookup_fmap. destruct (decide (j = i)) as [->|Hne]; [|by rewrite list_lookup_alter_ne].
  rewrite list_lookup_alter_eq, Hq. simpl. by rewrite Hv.
Qed.

Lemma bind_assoc {St A B C} (m : M St A) (f : A → M St B) (g : B → M St C) s :
  ((m ≫= f) ≫= g) s = (m ≫= (λ a, f a ≫= g)) s.
Proof. unfold mbind, M_bind. by destruct (m s). Qed.

Lemma pt_stable_kill pid : stable ptview (kill pid).
Proof.
  unfold kill. stable_step; [stable_steps|]. stable_step; [stable_steps|]. destruct (find_pid pid 0 _) as [n|]; [|stable_steps].
  stable_step; [by apply pt_stable_updp|]. intros s r s' E. rewrite <- (bind_assoc (getp n)) in E. revert s r s' E. change (stable ptview
    ((p ← getp n; if decide (p_state p = SLEEPING) then updp n (set_p_state RUNNABLE) else mret tt) ≫= λ _, release ptable_lock;; mret 0)).
  apply stable_bind; [|intros; stable_steps].
  apply (pt_stable_update_if n (λ p, p_state p = SLEEPING)). intros p Hp. unfold pview. simpl. by rewrite Hp.
Qed.

(** * The view of the kernel *)

Section View.
Context {St : Type} `{!TxnIO St, !TxnOps St} (devsw : list (devops (St := St))) (kend ptab : Z).
Context (forkret_addr ticks_chan : Z) (junk_de : dirent) (junk_name : list Z) (junk_ptr : Z).
Implicit Types k : kernel St.

Definition refs_of (s : ftable) : list Z := f_ref <$> ft_file s.
Definition kview k : nat * list (list (option nat) * bool) * list Z := (k_me k, ptview (k_pt k), refs_of (k_ft k)).

Lemma quiet_pt {A} (m : M ptable A) : stable ptview m → stable kview (pt m).
Proof. intros H. apply stable_zoom. intros k a c E. unfold kview. simpl. by rewrite (H _ _ _ E). Qed.
Lemma quiet_ft {A} (m : M ftable A) : stable refs_of m → stable kview (ft m).
Proof. intros H. apply stable_zoom. intros k a c E. unfold kview. simpl. by rewrite (H _ _ _ E). Qed.
Lemma quiet_mem {A} (m : M kmem A) : stable kview (mem m).
Proof. by apply stable_zoom_other. Qed.
Lemma quiet_me : stable kview me.
Proof. unfold me. stable_steps. apply quiet_pt, pt_stable_getp. Qed.
Lemma quiet_fs {A} (m : M (fsst St) A) : stable kview (fs m).
Proof. unfold fs. stable_steps; [apply quiet_me|]. by apply stable_zoom_other. Qed.
Lemma quiet_upd_me f : (∀ p, pview (f p) = pview p) → stable kview (upd_me f).
Proof. intros H. unfold upd_me. stable_steps. by apply quiet_pt, pt_stable_updp. Qed.
Lemma quiet_updpr i f : (∀ p, pview (f p) = pview p) → stable kview (updpr i f).
Proof. intros H. by apply quiet_pt, pt_stable_updp. Qed.
Lemma quiet_getpr i : stable kview (getpr i).
Proof. apply quiet_pt, pt_stable_getp. Qed.
Lemma quiet_getf f : stable kview (ft (getf f)).
Proof. apply quiet_ft. unfold getf. stable_steps. Qed.
Lemma quiet_updf f g : (∀ x, f_ref (g x) = f_ref x) → stable kview (ft (updf f g)).
Proof.
  intros H. apply quiet_ft, stable_modify. intros s. unfold refs_of. simpl. apply list_eq. intros j.
  rewrite !list_lookup_fmap. destruct (decide (j = f)) as [->|Hne]; [|by rewrite list_lookup_alter_ne].
  rewrite list_lookup_alter_eq. destruct (ft_file s !! f); simpl; [|done]. by rewrite H.
Qed.
Lemma quiet_kwakeup ch : stable kview (kwakeup ch).
Proof. apply quiet_pt, pt_stable_wakeup. Qed.
Lemma quiet_pipe {A} pa (m : M pipe A) : stable kview (zoom (pipe_lens pa) m).
Proof. by apply stable_zoom_other. Qed.
Lemma quiet_begin_op : stable kview kbegin_op.
Proof. apply quiet_fs. Qed.
Lemma quiet_end_op : stable kview kend_op.
Proof. apply quiet_fs. Qed.
Hint Resolve quiet_mem quiet_me quiet_fs quiet_getpr quiet_getf quiet_kwakeup quiet_pipe quiet_begin_op quiet_end_op : stable.

Lemma quiet_user_prefix a n : stable kview (user_prefix a n).
Proof. unfold user_prefix. stable_steps. Qed.
Hint Resolve quiet_user_prefix : stable.
Lemma quiet_user_load a n : stable kview (user_load a n).
Proof. unfold user_load. stable_steps. Qed.
Lemma quiet_user_store a bs : stable kview (user_store a bs).
Proof. unfold user_store, trap_if_none. stable_steps. Qed.
Lemma quiet_kfree_pipe pa : stable kview (kfree_pipe kend pa).
Proof. unfold kfree_pipe. stable_steps. by apply stable_modify. Qed.
Hint Resolve quiet_user_load quiet_user_store quiet_kfree_pipe : stable.

Lemma quiet_pipeclose pa wr : stable kview (pipeclose (pipe_lens pa) pa kwakeup (kfree_pipe kend) wr).
Proof. unfold pipeclose, p_acquire, p_release. stable_steps. Qed.
Lemma quiet_piperead_copy pa n : stable kview (piperead_copy (pipe_lens pa) n).
Proof. induction n; simpl; stable_steps. Qed.
Hint Resolve quiet_piperead_copy : stable.
Lemma quiet_piperead pa n : stable kview (piperead (pipe_lens pa) pa kwakeup me_killed n).
Proof. unfold piperead, p_acquire, p_release. stable_steps. Qed.
Lemma quiet_pipewrite_loop pa n bs : stable kview (pipewrite_loop (pipe_lens pa) pa kwakeup me_killed n bs).
Proof. induction bs; simpl; unfold p_release; stable_steps. Qed.
Hint Resolve quiet_pipewrite_loop : stable.
Lemma quiet_pipewrite pa n bs : stable kview (pipewrite (pipe_lens pa) pa kwakeup me_killed n bs).
Proof. unfold pipewrite, p_acquire. stable_steps. Qed.
Lemma quiet_on_pipe {A} pa (m : M (kernel St) A) : stable kview m → stable kview (on_pipe pa m).
Proof. intros H. unfold on_pipe. stable_steps. Qed.
Hint Resolve quiet_pipeclose quiet_piperead quiet_pipewrite quiet_on_pipe : stable.

(** ** The calls that do not touch descriptors *)

Ltac quiet := stable_steps;
  solve [done | by apply quiet_updf | by apply quiet_upd_me | by apply quiet_updpr | by apply stable_modify | apply quiet_pt, pt_stable_kill].

Lemma quiet_filestat f : stable kview (filestat f).
Proof. unfold filestat. quiet. Qed.
Lemma quiet_fileread f a n : stable kview (fileread devsw f a n).
Proof. unfold fileread. quiet. Qed.
Lemma quiet_filewrite_loop fuel f ip a n i : stable kview (filewrite_loop devsw fuel f ip a n i).
Proof. revert i. induction fuel; intros i; simpl; quiet. Qed.
Hint Resolve quiet_filestat quiet_fileread quiet_filewrite_loop : stable.
Lemma quiet_filewrite f a n : stable kview (filewrite devsw f a n).
Proof. unfold filewrite. quiet. Qed.
Lemma quiet_pipe_page pa : stable kview (pipe_page pa).
Proof. unfold pipe_page. quiet. Qed.
Hint Resolve quiet_filewrite quiet_pipe_page : stable.

Lemma quiet_fetcharg n : stable kview (fetcharg n).
Proof. unfold fetcharg. quiet. Qed.
Hint Resolve quiet_fetcharg : stable.
Lemma quiet_argint n : stable kview (argint n).
Proof. unfold argint. quiet. Qed.
Lemma quiet_argaddr n : stable kview (argaddr n).
Proof. apply quiet_fetcharg. Qed.
Hint Resolve quiet_argint quiet_argaddr : stable.
Lemma quiet_argptr n size junk : stable kview (argptr n size junk).
Proof. unfold argptr. quiet. Qed.
Lemma quiet_fetchaddr a : stable kview (fetchaddr a).
Proof. unfold fetchaddr. quiet. Qed.
Lemma quiet_fetchstr_loop a n : stable kview (fetchstr_loop a n).
Proof. revert a. induction n; intros a; simpl; quiet. Qed.
Hint Resolve quiet_argptr quiet_fetchaddr quiet_fetchstr_loop : stable.
Lemma quiet_fetchstr a : stable kview (fetchstr a).
Proof. unfold fetchstr. quiet. Qed.
Hint Resolve quiet_fetchstr : stable.
Lemma quiet_argstr n : stable kview (argstr n).
Proof. unfold argstr. quiet. Qed.
Lemma quiet_argfd n : stable kview (argfd n).
Proof. unfold argfd. quiet. Qed.
Hint Resolve quiet_argstr quiet_argfd : stable.

Lemma quiet_sys_read : stable kview (sys_read devsw junk_ptr).
Proof. unfold sys_read. quiet. Qed.
Lemma quiet_sys_write : stable kview (sys_write devsw junk_ptr).
Proof. unfold sys_write. quiet. Qed.
Lemma quiet_store_stat a st : stable kview (store_stat a st).
Proof. unfold store_stat. quiet. Qed.
Hint Resolve quiet_store_stat : stable.
Lemma quiet_sys_fstat : stable kview (sys_fstat junk_ptr).
Proof. unfold sys_fstat. quiet. Qed.
Lemma quiet_isdirempty_loop fuel dp off : stable kview (isdirempty_loop devsw fuel dp off).
Proof. revert off. induction fuel; intros off; simpl; quiet. Qed.
Hint Resolve quiet_isdirempty_loop : stable.
Lemma quiet_isdirempty dp : stable kview (isdirempty devsw dp).
Proof. unfold isdirempty. quiet. Qed.
Lemma quiet_add_nlink ip d : stable kview (add_nlink ip d).
Proof. apply quiet_fs. Qed.
Lemma quiet_init_inode ip a b : stable kview (init_inode ip a b).
Proof. apply quiet_fs. Qed.
Hint Resolve quiet_isdirempty quiet_add_nlink quiet_init_inode : stable.
Lemma quiet_sys_link : stable kview (sys_link devsw junk_de junk_name).
Proof. unfold sys_link, sys_link_bad. quiet. Qed.
Lemma quiet_sys_unlink : stable kview (sys_unlink devsw junk_name).
Proof. unfold sys_unlink, sys_unlink_bad. quiet. Qed.
Lemma quiet_create path ty ma mi : stable kview (create devsw junk_de junk_name path ty ma mi).
Proof. unfold create. quiet. Qed.
Hint Resolve quiet_create : stable.
Lemma quiet_open_inode path m : stable kview (open_inode devsw junk_de junk_name path m).
Proof. unfold open_inode. quiet. Qed.
Lemma quiet_sys_mkdir : stable kview (sys_mkdir devsw junk_de junk_name).
Proof. unfold sys_mkdir. quiet. Qed.
Lemma quiet_sys_mknod : stable kview (sys_mknod devsw junk_de junk_name).
Proof. unfold sys_mknod. quiet. Qed.
Lemma quiet_sys_chdir : stable kview (sys_chdir devsw junk_name).
Proof. unfold sys_chdir. quiet. Qed.

Lemma quiet_kloaduvm_loop fuel pgdir a ip off sz i : stable kview (kloaduvm_loop devsw fuel pgdir a ip off sz i).
Proof. revert i. induction fuel; intros i; simpl; quiet. Qed.
Hint Resolve quiet_kloaduvm_loop : stable.
Lemma quiet_load_segment pgdir ip off sz : stable kview (load_segment devsw kend pgdir ip off sz).
Proof. unfold load_segment, kloaduvm. quiet. Qed.
Hint Resolve quiet_load_segment : stable.
Lemma quiet_load_segments n pgdir ip off sz : stable kview (load_segments devsw kend n pgdir ip off sz).
Proof. revert off sz. induction n; intros off sz; simpl; quiet. Qed.
Lemma quiet_push_args pgdir argc sp argv : stable kview (push_args pgdir argc sp argv).
Proof. revert argc sp. induction argv; intros argc sp; simpl; quiet. Qed.
Lemma quiet_exec_bad pgdir ip : stable kview (exec_bad kend pgdir ip).
Proof. unfold exec_bad. quiet. Qed.
Hint Resolve quiet_load_segments quiet_push_args quiet_exec_bad : stable.
Lemma quiet_exec_stack path argv e pgdir sz : stable kview (exec_stack kend path argv e pgdir sz).
Proof. unfold exec_stack. quiet. Qed.
Hint Resolve quiet_exec_stack : stable.
Lemma quiet_exec path argv : stable kview (exec devsw kend junk_name path argv).
Proof. unfold exec. quiet. Qed.
Lemma quiet_fetch_args n a i : stable kview (fetch_args n a i).
Proof. revert i. induction n; intros i; simpl; quiet. Qed.
Hint Resolve quiet_exec quiet_fetch_args : stable.
Lemma quiet_sys_exec : stable kview (sys_exec devsw kend junk_name).
Proof. unfold sys_exec. quiet. Qed.

Lemma quiet_sys_kill : stable kview sys_kill.
Proof. unfold sys_kill. quiet. Qed.
Lemma quiet_sys_getpid : stable kview sys_getpid.
Proof. unfold sys_getpid. quiet. Qed.
Lemma quiet_sys_sbrk : stable kview (sys_sbrk kend).
Proof. unfold sys_sbrk, growproc. quiet. Qed.
Lemma quiet_sys_sleep : stable kview (sys_sleep ticks_chan).
Proof. unfold sys_sleep, sleep_ticks. quiet. Qed.
Lemma quiet_sys_uptime : stable kview sys_uptime.
Proof. unfold sys_uptime. quiet. Qed.
End View.

(** * Counting references *)

Definition refers (f : nat) (o : option nat) : Z := if decide (o = Some f) then 1 else 0.
Fixpoint total (f : nat) (l : list (option nat)) : Z :=
  match l with [] => 0 | o :: l => refers f o + total f l end.
(** The descriptors of all processes. *)
Fixpoint total_all (f : nat) (ls : list (list (option nat) * bool)) : Z :=
  match ls with [] => 0 | l :: ls => total f l.1 + total_all f ls end.

(** The references in variables. *)
Fixpoint holds (f : nat) (e : list nat) : Z :=
  match e with [] => 0 | g :: e => refers f (Some g) + holds f e end.

Lemma total_insert f l i o o' : l !! i = Some o → total f (<[i := o']> l) = total f l - refers f o + refers f o'.
Proof.
  revert i. induction l as [|x l IH]; intros [|i] Hi; simplify_eq/=; [lia|]. rewrite (IH _ Hi). lia.
Qed.
Lemma total_all_insert f ls i l d l' d' :
  ls !! i = Some (l, d) → total_all f (<[i := (l', d')]> ls) = total_all f ls - total f l + total f l'.
Proof.
  revert i. induction ls as [|x ls IH]; intros [|i] Hi; simplify_eq/=; [lia|]. rewrite (IH _ Hi). lia.
Qed.
Lemma refers_nonneg f o : 0 ≤ refers f o.
Proof. unfold refers. case_decide; lia. Qed.
Lemma total_nonneg f l : 0 ≤ total f l.
Proof. induction l as [|o l IH]; simpl; [lia|]. pose proof (refers_nonneg f o). lia. Qed.
Lemma total_all_nonneg f ls : 0 ≤ total_all f ls.
Proof. induction ls as [|l ls IH]; simpl; [lia|]. pose proof (total_nonneg f l.1). lia. Qed.
Lemma total_none f l : Forall (λ o, o = None) l → total f l = 0.
Proof. induction 1 as [|o l -> _ IH]; simpl; [done|]. rewrite IH. done. Qed.

Definition view : Type := nat * list (list (option nat) * bool) * list Z.

(** The counts are right, with the references [e] that the code that runs holds in its variables; processes
    that are not there hold none. *)
Record counts_ok (e : list nat) (v : view) : Prop := {
  ro_count f : default 0 (v.2 !! f) = total_all f v.1.2 + holds f e;
  ro_dead i l : v.1.2 !! i = Some (l, true) → Forall (λ o, o = None) l;
  ro_len i l d : v.1.2 !! i = Some (l, d) → length l = NOFILE;
}.
(** The same, while the process that runs is there. *)
Record refs_ok (e : list nat) (v : view) : Prop := {
  ro_counts : counts_ok e v;
  ro_me : ∃ l, v.1.2 !! v.1.1 = Some (l, false);
}.

Lemma counts_refs e e' m ps rs f r r' :
  counts_ok e (m, ps, rs) → rs !! f = Some r → (∀ g, holds g e' = holds g e + if decide (g = f) then r' - r else 0) →
  counts_ok e' (m, ps, <[f := r']> rs).
Proof.
  intros [Hc Hd Hn] Hf He. split; simpl in *; [|done|done]. intros g. specialize (Hc g). pose proof (lookup_lt_Some _ _ _ Hf).
  rewrite list_lookup_insert_dec by done. rewrite He. destruct (decide (g = f)) as [->|Hne]; [|lia].
  rewrite Hf in Hc. simpl in *. lia.
Qed.

Lemma holds_cons f e g : holds g (f :: e) = holds g e + if decide (g = f) then 1 else 0.
Proof. simpl. unfold refers. destruct (decide (g = f)) as [->|]; [rewrite decide_True by done; lia|]. rewrite decide_False by congruence. lia. Qed.

Lemma refs_ok_alloc e m ps rs f :
  refs_ok e (m, ps, rs) → rs !! f = Some 0 → refs_ok (f :: e) (m, ps, <[f := 1]> rs).
Proof.
  intros [Hc Hm] Hf. split; [|done]. eapply counts_refs; [done|done|]. intros g. rewrite holds_cons. case_decide; lia.
Qed.
Lemma refs_ok_dup e m ps rs f r :
  refs_ok e (m, ps, rs) → rs !! f = Some r → refs_ok (f :: e) (m, ps, <[f := r + 1]> rs).
Proof.
  intros [Hc Hm] Hf. split; [|done]. eapply counts_refs; [done|done|]. intros g. rewrite holds_cons. case_decide; lia.
Qed.
Lemma refs_ok_drop e m ps rs f r :
  refs_ok (f :: e) (m, ps, rs) → rs !! f = Some r → refs_ok e (m, ps, <[f := r - 1]> rs).
Proof.
  intros [Hc Hm] Hf. split; [|done]. eapply counts_refs; [done|done|]. intros g. rewrite holds_cons. case_decide; lia.
Qed.

(** A process gets other descriptors. *)
Lemma counts_procs e e' m ps rs i l d l' d' :
  counts_ok e (m, ps, rs) → ps !! i = Some (l, d) → length l' = length l → (d' = true → Forall (λ o, o = None) l') →
  (∀ g, holds g e' + total g l' = holds g e + total g l) → counts_ok e' (m, <[i := (l', d')]> ps, rs).
Proof.
  intros [Hc Hd Hn] Hi Hl Hd' Ht. pose proof (lookup_lt_Some _ _ _ Hi). split; simpl in *.
  - intros g. specialize (Hc g). specialize (Ht g). rewrite (total_all_insert _ _ _ _ _ _ _ Hi). lia.
  - intros j l1. rewrite list_lookup_insert_dec by done. destruct (decide (j = i)); [|apply Hd]. intros [= <- ->]. by apply Hd'.
  - intros j l1 d1. rewrite list_lookup_insert_dec by done. destruct (decide (j = i)); [|apply Hn].
    intros [= <- _]. rewrite Hl. by eapply Hn.
Qed.
Lemma me_insert (m i : nat) (ps : list (list (option nat) * bool)) x :
  (∃ l, ps !! m = Some (l, false)) → (i < length ps)%nat → (i = m → x.2 = false) → ∃ l, <[i := x]> ps !! m = Some (l, false).
Proof.
  intros [l Hl] Hi Hx. rewrite list_lookup_insert_dec by done. destruct (decide (m = i)) as [->|]; [|by exists l].
  destruct x as [l' d]. exists l'. f_equal. f_equal. by apply Hx.
Qed.

(** A reference goes from a variable to a descriptor, or back. *)
Lemma refs_ok_install e m ps rs f i l fd :
  refs_ok (f :: e) (m, ps, rs) → ps !! i = Some (l, false) → l !! fd = Some None →
  refs_ok e (m, <[i := (<[fd := Some f]> l, false)]> ps, rs).
Proof.
  intros [Hc Hm] Hi Hfd. split; [|apply me_insert; [exact Hm|by eapply lookup_lt_Some|done]].
  eapply counts_procs; [done|done|by rewrite length_insert|done|]. intros g. rewrite (total_insert _ _ _ _ _ Hfd). simpl.
  change (refers g None) with 0. lia.
Qed.
Lemma refs_ok_take e m ps rs f l fd :
  refs_ok e (m, ps, rs) → ps !! m = Some (l, false) → l !! fd = Some (Some f) →
  refs_ok (f :: e) (m, <[m := (<[fd := None]> l, false)]> ps, rs).
Proof.
  intros [Hc Hm] Hi Hfd. split; [|apply me_insert; [exact Hm|by eapply lookup_lt_Some|done]].
  eapply counts_procs; [done|done|by rewrite length_insert|done|]. intros g. rewrite (total_insert _ _ _ _ _ Hfd). simpl.
  change (refers g None) with 0. lia.
Qed.
(** A process without descriptors appears or goes away. *)
Lemma refs_ok_dead e m ps rs i l d d' :
  refs_ok e (m, ps, rs) → ps !! i = Some (l, d) → Forall (λ o, o = None) l → (i = m → d' = false) →
  refs_ok e (m, <[i := (l, d')]> ps, rs).
Proof.
  intros [Hc Hm] Hi Hl Hd'. split; [|apply me_insert; [exact Hm|by eapply lookup_lt_Some|done]].
  by eapply counts_procs.
Qed.
Lemma refs_ok_perm e e' v : e ≡ₚ e' → refs_ok e v → refs_ok e' v.
Proof.
  intros Hp [[Hc Hd Hn] Hm]. split; [split|]; try done. intros f. rewrite Hc. f_equal. clear -Hp.
  induction Hp; simpl; lia.
Qed.

(** * The operations that move references *)

Lemma zoom_ok {St C A} (l : lens St C) (m : M C A) s a s' :
  zoom l m s = Ok a s' → ∃ c, m (Prelude.view l s) = Ok a c ∧ s' = over l c s.
Proof. unfold zoom. destruct (m (Prelude.view l s)) as [a' c| |]; [|done..]. intros [= <- <-]. by exists c. Qed.
Lemma acquire_ok {St} (l : lens St bool) s a s' : acquire l s = Ok a s' → s' = over l true s.
Proof. intros (b&s1&[= <- <-]&E)%bind_ok. destruct (Prelude.view l s); [discriminate E|]. by injection E as _ <-. Qed.
Lemma release_ok {St} (l : lens St bool) s a s' : release l s = Ok a s' → s' = over l false s.
Proof. intros (b&s1&[= <- <-]&E)%bind_ok. destruct (Prelude.view l s); [|discriminate E]. by injection E as _ <-. Qed.
Lemma the_ok {St A} what (o : option A) (s : St) a s' : the what o s = Ok a s' → o = Some a ∧ s' = s.
Proof. destruct o; [|done]. by intros [= <- <-]. Qed.

Lemma getf_ok f s x s' : getf f s = Ok x s' → ft_file s !! f = Some x ∧ s' = s.
Proof. intros (l&s1&[= <- <-]&E)%bind_ok. by apply the_ok in E. Qed.
Lemma getp_ok i s p s' : getp i s = Ok p s' → pt_proc s !! i = Some p ∧ s' = s.
Proof. intros (l&s1&[= <- <-]&E)%bind_ok. by apply the_ok in E. Qed.

(** Takes a run of a sequence apart. *)
Ltac run E :=
  match type of E with
  | (_ ≫= _) _ = Ok _ _ =>
      let s := fresh "s" in let a := fresh "a" in let E1 := fresh "E" in
      apply bind_ok in E as (a&s&E1&E); run E1; run E
  | mret _ _ = Ok _ _ => injection E as <- <-
  | gets _ _ = Ok _ _ => injection E as <- <-
  | modify _ _ = Ok _ _ => injection E as <- <-
  | acquire _ _ = Ok _ _ => apply acquire_ok in E as ->
  | release _ _ = Ok _ _ => apply release_ok in E as ->
  | panic _ _ = Ok _ _ => discriminate E
  | undefined _ _ = Ok _ _ => discriminate E
  | sleep_on _ _ = Ok _ _ => discriminate E
  | updf _ _ _ = Ok _ _ => injection E as <- <-
  | updp _ _ _ = Ok _ _ => injection E as <- <-
  | the _ _ _ = Ok _ _ => let H := fresh "Hx" in apply the_ok in E as [H ->]
  | getf _ _ = Ok _ _ => let H := fresh "Hx" in apply getf_ok in E as [H ->]
  | getp _ _ = Ok _ _ => let H := fresh "Hx" in apply getp_ok in E as [H ->]
  | ft _ _ = Ok _ _ => unfold ft in E; run E
  | pt _ _ = Ok _ _ => unfold pt in E; run E
  | zoom _ _ _ = Ok _ _ =>
      let c := fresh "c" in let E1 := fresh "E" in apply zoom_ok in E as (c&E1&->); run E1
  | _ => idtac
  end.

Lemma refs_updf (b : bool) s f g x :
  ft_file s !! f = Some x → refs_of (Ftable b (alter g f (ft_file s))) = <[f := f_ref (g x)]> (refs_of s).
Proof.
  intros Hx. unfold refs_of. simpl. rewrite (alter_known _ _ _ _ Hx). by rewrite list_fmap_insert.
Qed.

Lemma find_free_spec i l f : find_free i l = Some f → ∃ x, l !! (f - i)%nat = Some x ∧ f_ref x = 0 ∧ (i ≤ f)%nat.
Proof.
  revert i. induction l as [|y l IH]; intros i; simpl; [done|]. destruct (Z.eqb_spec (f_ref y) 0) as [E|E].
  - intros [= <-]. rewrite Nat.sub_diag. by exists y.
  - intros (x&Hx&Hr&Hi)%IH. exists x. replace (f - i)%nat with (S (f - S i)) by lia. split_and!; [done|done|lia].
Qed.

Lemma filealloc_refs s r s' :
  filealloc s = Ok r s' →
  match r with
  | Some f => refs_of s !! f = Some 0 ∧ refs_of s' = <[f := 1]> (refs_of s)
  | None => refs_of s' = refs_of s
  end.
Proof.
  unfold filealloc. intros E. run E. destruct (find_free 0 _) as [f|] eqn:Hf; run E; [|done].
  apply find_free_spec in Hf as (x&Hx&Hr&_). rewrite Nat.sub_0_r in Hx.
  split; [unfold refs_of; rewrite list_lookup_fmap; simpl in Hx; rewrite Hx; simpl; by rewrite Hr|].
  exact (refs_updf false s f (set_f_ref 1) x Hx).
Qed.

Lemma filedup_refs f s r s' :
  filedup f s = Ok r s' → r = f ∧ ∃ n, refs_of s !! f = Some n ∧ 1 ≤ n ∧ refs_of s' = <[f := n + 1]> (refs_of s).
Proof.
  unfold filedup. intros E. run E. destruct (Z.ltb_spec (f_ref a0) 1); run E.
  split; [done|]. exists (f_ref a0). simpl in Hx.
  split_and!; [unfold refs_of; rewrite list_lookup_fmap, Hx; done|done|].
  exact (refs_updf false s f (set_f_ref (f_ref a0 + 1)) a0 Hx).
Qed.

Lemma drop_ref_refs f s r s' :
  drop_ref f s = Ok r s' → ∃ n, refs_of s !! f = Some n ∧ refs_of s' = <[f := n - 1]> (refs_of s).
Proof.
  unfold drop_ref. intros E. run E. simpl in Hx.
  destruct (Z.ltb_spec (f_ref a0) 1) as [Hlt|Hge]; run E. exists (f_ref a0).
  assert (refs_of s !! f = Some (f_ref a0)) as Hr by (unfold refs_of; by rewrite list_lookup_fmap, Hx).
  split; [done|]. pose proof (lookup_lt_Some _ _ _ Hx) as Hlt'.
  destruct (Z.ltb_spec 0 (f_ref a0 - 1)) as [Hpos|Hz]; run E.
  { exact (refs_updf false s f (set_f_ref (f_ref a0 - 1)) a0 Hx). }
  simpl in *. rewrite (alter_known _ _ _ _ Hx) in *.
  rewrite list_lookup_insert_eq in Hx0 by done. injection Hx0 as <-.
  unfold refs_of in *. simpl. rewrite (alter_known _ (<[f := _]> _) _ _ (list_lookup_insert_eq _ _ _ Hlt')).
  rewrite list_insert_insert_eq. rewrite (alter_known _ (<[f := _]> _) _ _ (list_lookup_insert_eq _ _ _ Hlt')).
  rewrite list_insert_insert_eq, list_fmap_insert. simpl. f_equal. lia.
Qed.

Lemma ptview_updp i f s p :
  pt_proc s !! i = Some p → ptview (set_pt_proc (alter f i (pt_proc s)) s) = <[i := pview (f p)]> (ptview s).
Proof. intros Hp. unfold ptview. simpl. rewrite (alter_known _ _ _ _ Hp). by rewrite list_fmap_insert. Qed.

Lemma ptview_lookup s i l d : ptview s !! i = Some (l, d) ↔ ∃ p, pt_proc s !! i = Some p ∧ p_ofile p = l ∧ dead (p_state p) = d.
Proof.
  unfold ptview. rewrite list_lookup_fmap, fmap_Some. unfold pview. split.
  - intros (p&Hp&[= -> ->]). by exists p.
  - intros (p&Hp&<-&<-). by exists p.
Qed.

Section Keeps.
Context {St : Type} `{!TxnIO St, !TxnOps St} (devsw : list (devops (St := St))) (kend ptab : Z).
Context (forkret_addr ticks_chan : Z) (junk_de : dirent) (junk_name : list Z) (junk_ptr : Z).
Implicit Types k : kernel St.

Definition keeps {A} (P : view → Prop) (m : M (kernel St) A) (Q : A → view → Prop) : Prop :=
  ∀ k a k', P (kview k) → m k = Ok a k' → Q a (kview k').

Lemma keeps_quiet {A} P (m : M (kernel St) A) : stable kview m → keeps P m (λ _, P).
Proof. intros H k a k' HP E. by rewrite (H _ _ _ E). Qed.
Lemma keeps_ret {A} (a : A) P : keeps P (mret a) (λ b v, b = a ∧ P v).
Proof. by intros k b k' HP [= <- <-]. Qed.
Lemma keeps_bind {A B} P (m : M (kernel St) A) R (f : A → M (kernel St) B) Q :
  keeps P m R → (∀ a, keeps (R a) (f a) Q) → keeps P (m ≫= f) Q.
Proof. intros Hm Hf k b k'' HP (a&k'&E&E')%bind_ok. by eapply Hf, E'; eapply Hm. Qed.
Lemma keeps_then {A B} P (m : M (kernel St) A) (f : A → M (kernel St) B) Q :
  stable kview m → (∀ a, keeps P (f a) Q) → keeps P (m ≫= f) Q.
Proof. intros Hm Hf. by eapply keeps_bind; [apply keeps_quiet|]. Qed.
Lemma keeps_mono {A} P (m : M (kernel St) A) Q Q' :
  keeps P m Q → (∀ a v, Q a v → Q' a v) → keeps P m Q'.
Proof. intros Hm HQ k a k' HP E. by apply HQ, (Hm k). Qed.

Lemma keeps_filealloc e :
  keeps (refs_ok e) (ft filealloc) (λ r v, match r with Some f => refs_ok (f :: e) v | None => refs_ok e v end).
Proof.
  intros k r k' HP E. run E. apply filealloc_refs in E0. destruct r as [f|].
  - destruct E0 as [Hf Hr]. unfold kview in *. simpl. rewrite Hr. by apply refs_ok_alloc.
  - unfold kview in *. simpl. by rewrite E0.
Qed.

Lemma keeps_fileclose e f : keeps (refs_ok (f :: e)) (fileclose kend f) (λ _, refs_ok e).
Proof.
  eapply (keeps_bind _ _ (λ _, refs_ok e)).
  - intros k r k' HP E. run E. apply drop_ref_refs in E0 as (n&Hf&Hr). unfold kview in *. simpl. rewrite Hr. by eapply refs_ok_drop.
  - intros [ff|]; apply keeps_quiet; stable_steps; auto using quiet_on_pipe, quiet_pipeclose, quiet_begin_op, quiet_end_op, quiet_fs.
Qed.

Lemma upd_me_view k g a k' p :
  upd_me g k = Ok a k' → pt_proc (k_pt k) !! k_me k = Some p →
  kview k' = (k_me k, <[k_me k := pview (g p)]> (ptview (k_pt k)), refs_of (k_ft k)).
Proof. intros E Hp. unfold upd_me in E. run E. unfold kview. simpl. by rewrite (ptview_updp _ _ _ p). Qed.

Lemma find_fd_spec i l n : find_fd i l = Some n → (i ≤ n)%nat ∧ l !! (n - i)%nat = Some None.
Proof.
  revert i. induction l as [|[f|] l IH]; intros i; simpl; [done| |].
  - intros [Hi Hl]%IH. replace (n - i)%nat with (S (n - S i)) by lia. split; [lia|done].
  - intros [= <-]. by rewrite Nat.sub_diag.
Qed.

Lemma me_ok k p k' : me k = Ok p k' → pt_proc (k_pt k) !! k_me k = Some p ∧ k' = k.
Proof. intros E. unfold me in E. run E. split; [done|]. by destruct k. Qed.

Lemma fdalloc_view f k fd k' :
  fdalloc f k = Ok fd k' →
  (fd < 0 ∧ k' = k) ∨
  ∃ p n, fd = Z.of_nat n ∧ pt_proc (k_pt k) !! k_me k = Some p ∧ p_ofile p !! n = Some None ∧
    kview k' = (k_me k, <[k_me k := (<[n := Some f]> (p_ofile p), dead (p_state p))]> (ptview (k_pt k)), refs_of (k_ft k)).
Proof.
  unfold fdalloc. intros E. apply bind_ok in E as (p&k1&E1&E). apply me_ok in E1 as [Hp ->].
  destruct (find_fd 0 (p_ofile p)) as [n|] eqn:Hn; [|injection E as <- <-; left; done]. right.
  apply bind_ok in E as (u&k1&E1&E). injection E as <- <-.
  apply find_fd_spec in Hn as [_ Hn]. rewrite Nat.sub_0_r in Hn. exists p, n. split_and!; [done..|].
  by apply (upd_me_view _ _ _ _ p E1).
Qed.

Lemma alive_me e k p : refs_ok e (kview k) → pt_proc (k_pt k) !! k_me k = Some p → dead (p_state p) = false.
Proof.
  intros [_ [l Hl]] Hp. simpl in Hl. apply ptview_lookup in Hl as (q&Hq&_&Hd). congruence.
Qed.

Lemma keeps_fdalloc e f : keeps (refs_ok (f :: e)) (fdalloc f) (λ fd v, if fd <? 0 then refs_ok (f :: e) v else refs_ok e v).
Proof.
  intros k fd k' HP E. apply fdalloc_view in E as [[Hfd ->]|(p&n&->&Hp&Hn&->)].
  - by rewrite (proj2 (Z.ltb_lt _ _)).
  - rewrite (proj2 (Z.ltb_ge _ _)) by lia. pose proof (alive_me _ _ _ HP Hp) as Hal. rewrite Hal.
    eapply refs_ok_install; [exact HP| |done]. apply ptview_lookup. by exists p.
Qed.

Lemma keeps_sys_dup : keeps (refs_ok []) sys_dup (λ _, refs_ok []).
Proof.
  unfold sys_dup. apply keeps_then; [apply quiet_argfd|]. intros [[fd0 f]|]; [|by apply keeps_quiet, stable_ret].
  intros k r k' HP E. apply bind_ok in E as (fd&k1&E1&E). apply fdalloc_view in E1 as [[Hfd ->]|(p&n&->&Hp&Hn&Hv)].
  - rewrite (proj2 (Z.ltb_lt _ _) Hfd) in E. by injection E as <- <-.
  - rewrite (proj2 (Z.ltb_ge _ _)) in E by lia. apply bind_ok in E as (g&k2&E2&E). injection E as <- <-.
    apply zoom_ok in E2 as (c&E2&->). apply filedup_refs in E2 as (->&m&Hm&_&Hr).
    pose proof (alive_me _ _ _ HP Hp) as Hal. unfold kview in *. simpl in *. injection Hv as Hme Hps Hrs. rewrite Hr, Hme, Hps, Hrs in *.
    rewrite Hal. eapply refs_ok_install; [by apply refs_ok_dup| |done]. apply ptview_lookup. by exists p.
Qed.

Lemma argfd_ok n k fd f k' :
  argfd n k = Ok (Some (fd, f)) k' →
  ∃ p, pt_proc (k_pt k) !! k_me k = Some p ∧ p_ofile p !! Z.to_nat fd = Some (Some f) ∧ k' = k.
Proof.
  intros E. unfold argfd, argint, fetcharg in E. apply bind_ok in E as (x&k1&E1&E).
  apply bind_ok in E1 as (y&k2&E1&E2). injection E2 as <- <-. apply bind_ok in E1 as (p&k3&E1&E2).
  apply me_ok in E1 as [Hp ->]. assert (k2 = k) as -> by (repeat case_match; first [discriminate E2|by injection E2]).
  destruct ((s32 y <? 0) || (Z.of_nat NOFILE <=? s32 y)); [done|].
  apply bind_ok in E as (q&k1&E1&E). apply me_ok in E1 as [Hq ->].
  apply bind_ok in E as (o&k1&E1&E). apply the_ok in E1 as [Ho ->]. injection E as E <-.
  destruct o as [f'|]; [|done]. injection E as <- <-. by exists q.
Qed.

Lemma set_ofile_view fd o k a k' p :
  set_ofile fd o k = Ok a k' → pt_proc (k_pt k) !! k_me k = Some p →
  kview k' = (k_me k, <[k_me k := (<[fd := o]> (p_ofile p), dead (p_state p))]> (ptview (k_pt k)), refs_of (k_ft k)).
Proof. intros E Hp. by apply (upd_me_view _ _ _ _ p E). Qed.

Lemma keeps_sys_close : keeps (refs_ok []) (sys_close kend) (λ _, refs_ok []).
Proof.
  intros k r k' HP E. unfold sys_close in E. apply bind_ok in E as ([[fd f]|]&k1&E1&E).
  2: { injection E as <- <-. by rewrite (quiet_argfd _ _ _ _ E1). }
  apply argfd_ok in E1 as (p&Hp&Hf&->). apply bind_ok in E as (u&k1&E1&E). apply bind_ok in E as (w&k2&E2&E).
  injection E as <- <-. eapply keeps_fileclose; [|exact E2]. rewrite (set_ofile_view _ _ _ _ _ p E1 Hp).
  rewrite (alive_me _ _ _ HP Hp). eapply refs_ok_take; [exact HP| |done]. apply ptview_lookup. exists p.
  by rewrite (alive_me _ _ _ HP Hp).
Qed.

Lemma keeps_sys_open : keeps (refs_ok []) (sys_open devsw kend junk_de junk_name) (λ _, refs_ok []).
Proof.
  unfold sys_open. apply keeps_then; [apply quiet_argstr|]. intros [path|]; [|by apply keeps_quiet, stable_ret].
  apply keeps_then; [apply quiet_argint|]. intros omode. apply keeps_then; [apply quiet_begin_op|]. intros _.
  apply keeps_then; [apply quiet_open_inode|]. intros [ip|]; [|apply keeps_quiet; stable_steps; apply quiet_end_op].
  eapply keeps_bind; [apply keeps_filealloc|]. intros [f|]; [|apply keeps_quiet; stable_steps; [apply quiet_fs|apply quiet_end_op]].
  eapply keeps_bind; [apply keeps_fdalloc|]. intros fd. cbv beta. destruct (fd <? 0).
  - eapply keeps_bind; [apply keeps_fileclose|]. intros ?. apply keeps_quiet; stable_steps; [apply quiet_fs|apply quiet_end_op].
  - apply keeps_quiet; stable_steps; [apply quiet_fs|apply quiet_end_op|by apply quiet_updf].
Qed.

Lemma keeps_pipealloc :
  keeps (refs_ok []) (pipealloc kend) (λ r v, match r with Some (f0, f1) => refs_ok [f0; f1] v | None => refs_ok [] v end).
Proof.
  unfold pipealloc. eapply keeps_bind; [apply keeps_filealloc|]. intros [f0|].
  2: { intros k r k' HP E. by injection E as <- <-. }
  eapply keeps_bind; [apply keeps_filealloc|]. intros [f1|].
  2: { eapply keeps_bind; [apply keeps_fileclose|]. intros ? k r k' HP E. by injection E as <- <-. }
  apply keeps_then; [apply quiet_mem|]. intros pa. destruct (pa =? 0).
  - eapply (keeps_bind _ _ (λ _, refs_ok [f1])).
    { intros k r k' HP. apply keeps_fileclose. by eapply refs_ok_perm, HP; apply perm_swap. }
    intros ?. eapply keeps_bind; [apply keeps_fileclose|]. intros ? k r k' HP E. by injection E as <- <-.
  - apply keeps_then; [apply quiet_pipe_page|]. intros _. do 2 (apply keeps_then; [by apply quiet_updf|]; intros _).
    intros k r k' HP E. injection E as <- <-. eapply refs_ok_perm, HP. apply perm_swap.
Qed.

Lemma keeps_sys_pipe : keeps (refs_ok []) (sys_pipe kend junk_ptr) (λ _, refs_ok []).
Proof.
  unfold sys_pipe. apply keeps_then; [apply quiet_argptr|]. intros rp. destruct (rp.1 <? 0); [apply keeps_quiet, stable_ret|].
  eapply keeps_bind; [apply keeps_pipealloc|]. intros [[rf wf]|]; [|apply keeps_quiet, stable_ret].
  assert (keeps (refs_ok [rf; wf]) (fileclose kend rf;; fileclose kend wf;; mret (-1)) (λ _, refs_ok [])) as Hclose.
  { eapply keeps_bind; [apply keeps_fileclose|]. intros ?. eapply keeps_bind; [apply keeps_fileclose|]. intros ?. apply keeps_quiet, stable_ret. }
  intros k r k' HP E. apply bind_ok in E as (fd0&k1&E1&E). apply bind_ok in E as (fd1&k2&E2&E).
  pose proof (keeps_fdalloc [wf] rf k fd0 k1 HP E1) as HP1. apply fdalloc_view in E1 as [[Hfd0 ->]|(p&n&->&Hp&Hn&Hv)].
  - rewrite (proj2 (Z.ltb_lt _ _) Hfd0) in E, E2. injection E2 as <- <-. simpl in E.
    rewrite (proj2 (Z.leb_gt _ _) Hfd0) in E. by apply (Hclose k r k').
  - rewrite (proj2 (Z.ltb_ge _ _)) in HP1, E, E2 by lia. simpl in E.
    pose proof (keeps_fdalloc [] wf k1 fd1 k2 HP1 E2) as HP2. cbv beta in HP2. destruct (Z.ltb_spec fd1 0) as [Hfd1|Hfd1].
    + apply fdalloc_view in E2 as [[_ ->]|(?&?&->&_)]; [|lia].
      rewrite (proj2 (Z.leb_le _ _)) in E by lia. apply bind_ok in E as (u&k3&E3&E). eapply (Hclose k3 r k'); [|exact E].
      rewrite Nat2Z.id in E3. unfold kview in HP1, Hv. simpl in Hv. injection Hv as Hme Hps Hrs.
      assert (∃ q, pt_proc (k_pt k1) !! k_me k1 = Some q ∧ p_ofile q = <[n := Some rf]> (p_ofile p) ∧ dead (p_state q) = false) as (q&Hq&Hof&Hdq).
      { apply ptview_lookup. rewrite Hps, Hme. rewrite list_lookup_insert_eq; [by rewrite (alive_me _ _ _ HP Hp)|].
        unfold ptview. rewrite length_fmap. by eapply lookup_lt_Some. }
      rewrite (set_ofile_view _ _ _ _ _ q E3 Hq). rewrite Hdq. eapply refs_ok_take; [exact HP1|apply ptview_lookup; by exists q|].
      rewrite Hof. apply list_lookup_insert_eq. by eapply lookup_lt_Some.
    + revert E. apply (keeps_quiet (refs_ok []) (user_store _ _;; user_store _ _;; mret 0)); [|exact HP2].
      stable_steps; apply quiet_user_store.
Qed.

(** ** fork *)

(** The child's slot: it is there, and not the process that runs. *)
Definition child (P : list (option nat) → Prop) (np : nat) (v : view) : Prop :=
  refs_ok [] v ∧ np ≠ v.1.1 ∧ ∃ l, v.1.2 !! np = Some (l, false) ∧ P l.

Lemma find_unused_dead i l np : find_unused i l = Some np → ∃ p, l !! (np - i)%nat = Some p ∧ p_state p = UNUSED ∧ (i ≤ np)%nat.
Proof.
  revert i. induction l as [|q l IH]; intros i; simpl; [done|]. case_decide as Hq.
  - intros [= <-]. rewrite Nat.sub_diag. by exists q.
  - intros (p&Hp&Hs&Hi)%IH. exists p. replace (np - i)%nat with (S (np - S i)) by lia. split_and!; [done|done|lia].
Qed.

Lemma keeps_alloc_slot :
  keeps (refs_ok []) (pt alloc_slot) (λ r v, match r with Some np => child (Forall (λ o, o = None)) np v | None => refs_ok [] v end).
Proof.
  intros k r k' HP E. apply zoom_ok in E as (c&E&->). unfold alloc_slot in E. apply bind_ok in E as (u&s1&E1&E).
  apply acquire_ok in E1 as ->. apply bind_ok in E as (l&s2&E1&E). injection E1 as <- <-. cbn [over ptable_lock] in E.
  destruct (find_unused 0 _) as [np|] eqn:Hf; run E; [|exact HP].
  apply find_unused_dead in Hf as (p&Hp&Hs&_). rewrite Nat.sub_0_r in Hp. simpl in Hp.
  set (x := k_pt k) in *. assert (ptview x !! np = Some (p_ofile p, true)) as Hv.
  { apply ptview_lookup. exists p. by rewrite Hs. }
  destruct HP as [HC HM]. pose proof (ro_dead _ _ HC np _ Hv) as Hnone. unfold kview in *. simpl in *. fold x in HC, HM.
  assert (ptview (set_pt_lock false (set_pt_nextpid (pt_nextpid x + 1) s)) = <[np := (p_ofile p, false)]> (ptview x)) as ->.
  { destruct (2 ^ 31 - 1 <=? pt_nextpid x); [discriminate|]. injection E0 as _ <-. unfold ptview. simpl.
    rewrite !(alter_known _ _ _ _ Hp). pose proof (lookup_lt_Some _ _ _ Hp) as Hlt.
    rewrite (alter_known _ (<[np := _]> _) _ _ (list_lookup_insert_eq _ _ _ Hlt)).
    rewrite list_insert_insert_eq. by rewrite list_fmap_insert. }
  assert (np ≠ k_me k) as Hne by (intros ->; destruct HM as [? HM]; congruence).
  split; [|split; [done|]].
  - eapply refs_ok_dead; [split; [exact HC|exact HM]|done|done|done].
  - exists (p_ofile p). split; [|done]. apply list_lookup_insert_eq. by eapply lookup_lt_Some.
Qed.

(** The state of the child's slot changes. *)
Lemma keeps_child_state P np st :
  keeps (child P np) (updpr np (set_p_state st)) (λ _ v, (dead st = true → ∀ l, P l → Forall (λ o, o = None) l) → refs_ok [] v).
Proof.
  intros k a k' (HR&Hne&l&Hl&HPl) E Hst. unfold updpr in E. run E. unfold kview in *. simpl in *.
  pose proof Hl as (p&Hp&Hof&Hd)%ptview_lookup. rewrite (ptview_updp _ _ _ p Hp). unfold pview. simpl. rewrite Hof.
  destruct HR as [HC HM]. pose proof (lookup_lt_Some _ _ _ Hl) as Hlt. split.
  - eapply counts_procs; [exact HC|exact Hl|done| |done]. intros Hdead. by apply Hst.
  - apply me_insert; [exact HM|done|done].
Qed.

Lemma keeps_allocproc :
  keeps (refs_ok []) (allocproc forkret_addr)
    (λ r v, match r with Some np => child (Forall (λ o, o = None)) np v | None => refs_ok [] v end).
Proof.
  unfold allocproc. eapply keeps_bind; [apply keeps_alloc_slot|]. intros [np|].
  2: { intros k r k' HP E. by injection E as <- <-. }
  apply keeps_then; [apply quiet_mem|]. intros ks. apply keeps_then; [by apply quiet_updpr|]. intros _.
  destruct (ks =? 0).
  - eapply keeps_bind; [apply keeps_child_state|]. intros ? k r k' HP E. injection E as <- <-. by apply HP.
  - apply keeps_then; [by apply quiet_updpr|]. intros _ k r k' HP E. by injection E as <- <-.
Qed.

(** From descriptor [fd] on the child has none. *)
Definition free_from (fd : nat) (l : list (option nat)) : Prop := ∀ j, (fd ≤ j < NOFILE)%nat → l !! j = Some None.

Lemma keeps_dup_files np fd ofile :
  (fd + length ofile = NOFILE)%nat → keeps (child (free_from fd) np) (dup_files np fd ofile) (λ _, child (λ _, True) np).
Proof.
  revert fd. induction ofile as [|[f|] ofile IH]; intros fd Hlen; simpl in Hlen.
  - intros k a k' (HR&Hne&l&Hl&_) E. injection E as <- <-. split_and!; [done|done|]. by exists l.
  - intros k a k' (HR&Hne&l&Hl&Hfree) E. cbn [dup_files] in E. apply bind_ok in E as (f'&k1&E1&E). apply bind_ok in E as (u&k2&E2&E).
    apply zoom_ok in E1 as (c&E1&->). apply filedup_refs in E1 as (->&n&Hn&_&Hr). unfold updpr in E2. run E2.
    eapply (IH (S fd) ltac:(lia)); [|exact E]. clear E IH. unfold kview in *. simpl in *.
    pose proof Hl as (p&Hp&Hof&Hd)%ptview_lookup. rewrite (ptview_updp _ _ _ p Hp), Hr. unfold pview. simpl. rewrite Hof, Hd.
    pose proof (lookup_lt_Some _ _ _ Hl) as Hlt. split; [|split; [done|]].
    + eapply refs_ok_install; [by apply refs_ok_dup|exact Hl|apply Hfree; lia].
    + exists (<[fd := Some f]> l). split; [by apply list_lookup_insert_eq|]. intros j Hj.
      rewrite list_lookup_insert_ne by lia. apply Hfree. lia.
  - cbn [dup_files]. intros k a k' (HR&Hne&l&Hl&Hfree) E. eapply (IH (S fd) ltac:(lia)); [|exact E].
    split; [done|]. split; [done|]. exists l. split; [done|]. intros j Hj. apply Hfree. lia.
Qed.

Lemma keeps_me (P : view → Prop) : keeps P me (λ p v, P v ∧ v.1.2 !! v.1.1 = Some (pview p)).
Proof.
  intros k p k' HP E. apply me_ok in E as [Hp ->]. split; [done|]. simpl. unfold ptview. by rewrite list_lookup_fmap, Hp.
Qed.

Lemma keeps_pre {A} (P P' : view → Prop) (m : M (kernel St) A) Q : (∀ v, P v → P' v) → keeps P' m Q → keeps P m Q.
Proof. intros HPP Hm k a k' HP E. by eapply Hm; [apply HPP|]. Qed.

Lemma keeps_pure {A} (φ : Prop) (P : view → Prop) (m : M (kernel St) A) Q : (φ → keeps P m Q) → keeps (λ v, φ ∧ P v) m Q.
Proof. intros Hm k a k' [Hφ HP] E. by eapply Hm. Qed.

Lemma keeps_pt_bind {A B} P (m : M ptable A) R (f : A → M ptable B) Q :
  keeps P (pt m) R → (∀ a, keeps (R a) (pt (f a)) Q) → keeps P (pt (m ≫= f)) Q.
Proof.
  intros Hm Hf k b k' HP E. apply zoom_ok in E as (c&E&->). apply bind_ok in E as (a&s1&E1&E2).
  eapply (Hf a (set_k_pt s1 k)); [eapply Hm; [exact HP|by apply (zoom_run pt_lens)]|]. exact (zoom_run pt_lens (f a) (set_k_pt s1 k) b c E2).
Qed.

Lemma keeps_fork : keeps (refs_ok []) (fork kend forkret_addr) (λ _, refs_ok []).
Proof.
  unfold fork. eapply keeps_bind; [apply keeps_allocproc|]. intros [np|]; [|apply keeps_quiet, stable_ret].
  eapply keeps_bind; [apply keeps_me|]. intros p.
  eapply (keeps_pre _ (λ v, length (p_ofile p) = NOFILE ∧ child (Forall (λ o, o = None)) np v)).
  { intros v [Hc Hp]. split; [|done]. destruct Hc as ([HC _]&_). by eapply ro_len. }
  apply keeps_pure. intros Hlen. apply keeps_then; [apply stable_gets|]. intros kpdpt. apply keeps_then; [apply quiet_mem|]. intros pgdir.
  apply keeps_then; [by apply quiet_updpr|]. intros _. destruct (pgdir =? 0).
  - apply keeps_then; [apply quiet_getpr|]. intros n. apply keeps_then; [apply quiet_mem|]. intros _.
    unfold fork_undo. eapply (keeps_bind _ _ (λ _, refs_ok [])); [|intros; apply keeps_quiet, stable_ret].
    eapply keeps_pt_bind; [apply keeps_quiet; by apply (quiet_updpr np)|]. intros ?.
    eapply keeps_mono; [apply (keeps_child_state _ np UNUSED)|]. intros ? v HP. by apply HP.
  - apply keeps_then; [apply stable_gets|]. intros i. do 3 (apply keeps_then; [by apply quiet_updpr|]; intros _).
    eapply keeps_bind.
    { eapply keeps_pre; [|by apply keeps_dup_files]. intros v (HR&Hne&l&Hl&Hnone). split; [done|]. split; [done|]. exists l. split; [done|].
      intros j Hj. destruct HR as [HC _]. pose proof (ro_len _ _ HC _ _ _ Hl) as Hll.
      destruct (lookup_lt_is_Some_2 l j ltac:(lia)) as [o Ho]. rewrite Ho. f_equal. eapply Forall_lookup_1 in Hnone; done. }
    intros ?. apply keeps_then; [apply stable_the|]. intros cwd. apply keeps_then; [apply quiet_fs|]. intros d.
    apply keeps_then; [by apply quiet_updpr|]. intros _. apply keeps_then; [apply quiet_getpr|]. intros n.
    apply keeps_then; [apply stable_the|]. intros nm. apply keeps_then; [by apply quiet_updpr|]. intros _.
    eapply keeps_bind; [apply keeps_child_state|]. intros ? k r k' HP E. injection E as <- <-. by apply HP.
Qed.

(** ** wait and exit *)

Lemma keeps_dead_state np : 
  keeps (λ v, refs_ok [] v ∧ ∃ l, v.1.2 !! np = Some (l, true)) (updpr np (set_p_state UNUSED)) (λ _, refs_ok []).
Proof.
  intros k a k' (HR&l&Hl) E. unfold updpr in E. run E. unfold kview in *. simpl in *.
  pose proof Hl as (p&Hp&Hof&Hd)%ptview_lookup. rewrite (ptview_updp _ _ _ p Hp). unfold pview. simpl. rewrite Hof.
  destruct HR as [HC HM]. pose proof (ro_dead _ _ HC _ _ Hl) as Hnone.
  eapply refs_ok_dead; [split; [exact HC|exact HM]|exact Hl|done|]. intros ->. destruct HM as [? HM]. simpl in HM. congruence.
Qed.

Lemma keeps_wait : keeps (refs_ok []) (wait kend ptab) (λ _, refs_ok []).
Proof.
  unfold wait. apply keeps_then; [apply stable_gets|]. intros i. apply keeps_then; [apply quiet_pt; stable_steps|]. intros _.
  intros k r k' HP E. apply bind_ok in E as (l&k1&E1&E). apply zoom_ok in E1 as (c&E1&->). injection E1 as <- <-.
  pose proof (Proc.System.wait_scan_spec i 0 (pt_proc (k_pt k)) false _ eq_refl) as Hspec. destruct k as [f1 f2 f3 f4 f5 f6 f7 f8 f9 f10].
  cbn [k_pt Prelude.view pt_lens] in *. destruct (wait_scan i 0 (pt_proc f5) false) as [[c|] hk]; simpl in Hspec.
  - destruct Hspec as (x&p&->&Hp&_&Hz). simpl in E. revert r k' E.
    match goal with |- ∀ r k', ?m ?k = Ok r k' → _ => set (K := k); set (m0 := m) end.
    assert (keeps (λ v, refs_ok [] v ∧ ∃ l, v.1.2 !! x = Some (l, true)) m0 (λ _, refs_ok [])) as Hkeep.
    { subst m0. apply keeps_then; [apply quiet_getpr|]. intros q. apply keeps_then; [apply quiet_mem|]. intros _.
      apply keeps_then; [by apply quiet_updpr|]. intros _. apply keeps_then; [apply quiet_mem|]. intros _.
      eapply (keeps_bind _ _ (λ _, refs_ok [])).
      - unfold clear_slot. do 4 (eapply keeps_pt_bind; [apply keeps_quiet; by apply (quiet_updpr x)|]; intros ?). apply (keeps_dead_state x).
      - intros ?. apply keeps_quiet. stable_steps. apply quiet_pt. stable_steps. }
    intros r k' E. eapply (Hkeep K); [|exact E]. split; [exact HP|]. exists (p_ofile p). simpl. apply ptview_lookup. exists p. by rewrite Hz.
  - revert E. match goal with |- ?m ?k = Ok r k' → _ => set (K := k); set (m0 := m) end.
    apply (keeps_quiet (refs_ok []) m0); [|exact HP]. subst m0. stable_steps; [apply quiet_me|apply quiet_pt; stable_steps].
Qed.

(** The descriptors of the process that runs. *)
Definition mine (P : list (option nat) → Prop) (v : view) : Prop :=
  refs_ok [] v ∧ ∃ l, v.1.2 !! v.1.1 = Some (l, false) ∧ P l.

Lemma fileclose_view f k a k' :
  fileclose kend f k = Ok a k' →
  ∃ n, refs_of (k_ft k) !! f = Some n ∧ kview k' = (k_me k, ptview (k_pt k), <[f := n - 1]> (refs_of (k_ft k))).
Proof.
  intros E. unfold fileclose in E. apply bind_ok in E as (ff&k1&E1&E). apply zoom_ok in E1 as (c&E1&->).
  apply drop_ref_refs in E1 as (n&Hn&Hr). exists n. split; [done|].
  assert (stable kview (match ff with
    | None => mret tt
    | Some ff => if decide (f_type ff = FD_PIPE) then
          on_pipe (f_pipe ff) (pipeclose (pipe_lens (f_pipe ff)) (f_pipe ff) kwakeup (kfree_pipe kend) (f_writable ff))
        else if decide (f_type ff = FD_INODE) then kbegin_op;; fs (iput (f_ip ff));; kend_op else mret tt
    end : M (kernel St) unit)) as Hq.
  { stable_steps; auto using quiet_on_pipe, quiet_pipeclose, quiet_begin_op, quiet_end_op, quiet_fs. }
  rewrite (Hq _ _ _ E). unfold kview. simpl. by rewrite Hr.
Qed.

Lemma keeps_close_files fd ofile :
  keeps (mine (λ l, (∀ j, (j < fd)%nat → l !! j = Some None) ∧ drop fd l = ofile)) (close_files kend fd ofile)
    (λ _, mine (Forall (λ o, o = None))).
Proof.
  revert fd. induction ofile as [|o ofile IH]; intros fd k a k' (HR&l&Hl&Hlow&Hdrop) E.
  - injection E as <- <-. split; [done|]. exists l. split; [done|]. apply Forall_lookup. intros j o Hj.
    assert (j < fd)%nat as Hjf.
    { apply lookup_lt_Some in Hj. apply (f_equal length) in Hdrop. rewrite length_drop in Hdrop. simpl in Hdrop. lia. }
    rewrite Hlow in Hj by done. by injection Hj.
  - assert (l !! fd = Some o ∧ drop (S fd) l = ofile) as [Hfd Hdrop'].
    { rewrite <- (Nat.add_0_r fd), <- lookup_drop, Hdrop. split; [done|]. rewrite Nat.add_0_r, <- Nat.add_1_r, <- drop_drop, Hdrop. done. }
    assert (∀ l' : list (option nat), l' !! fd = Some None → (∀ j, j ≠ fd → l' !! j = l !! j) → drop (S fd) l' = drop (S fd) l →
      (∀ j, (j < S fd)%nat → l' !! j = Some None) ∧ drop (S fd) l' = ofile) as Hnext.
    { intros l' Hl' Hsame Hd'. split; [|by rewrite Hd']. intros j Hj. destruct (decide (j = fd)) as [->|Hne]; [done|].
      rewrite Hsame by done. apply Hlow. lia. }
    destruct o as [f|]; cbn [close_files] in E.
    + apply bind_ok in E as (u&k1&E1&E). apply bind_ok in E as (w&k2&E2&E). eapply (IH (S fd)); [|exact E]. clear E IH.
      apply fileclose_view in E1 as (n&Hn&Hv). pose proof Hl as (p&Hp&Hof&Hd)%ptview_lookup. simpl in Hp.
      unfold kview in Hv. injection Hv as Hme Hps Hrs.
      assert (∃ q, pt_proc (k_pt k1) !! k_me k1 = Some q ∧ p_ofile q = l ∧ dead (p_state q) = false) as (q&Hq&Hofq&Hdq).
      { apply ptview_lookup. by rewrite Hps, Hme. }
      rewrite (upd_me_view _ _ _ _ q E2 Hq). unfold pview. simpl. rewrite Hofq, Hdq, Hme, Hps, Hrs.
      pose proof (lookup_lt_Some _ _ _ Hl) as Hlt. pose proof (lookup_lt_Some _ _ _ Hfd) as Hltf. split.
      * eapply refs_ok_drop; [|done]. eapply refs_ok_take; [exact HR|exact Hl|done].
      * exists (<[fd := None]> l). split; [by apply list_lookup_insert_eq|].
        apply Hnext; [by apply list_lookup_insert_eq|intros; by apply list_lookup_insert_ne|rewrite drop_insert_lt by lia; done].
    + eapply (IH (S fd)); [|exact E]. split; [done|]. exists l. split; [done|]. by apply Hnext.
Qed.

Lemma pt_stable_reparent i ix : stable ptview (reparent ptab i ix).
Proof. induction ix as [|j ix IH]; simpl; stable_steps; by apply pt_stable_updp. Qed.

Lemma keeps_exit : keeps (refs_ok []) (exit_body kend ptab) (λ _, counts_ok []).
Proof.
  intros k a k' HP E. unfold exit_body in E. apply bind_ok in E as (i&k1&E1&E). injection E1 as <- <-. revert a k' E.
  match goal with |- ∀ a k', ?m k = Ok a k' → _ => set (m0 := m) end. intros a k' E.
  assert (keeps (λ v, v.1.1 = k_me k ∧ refs_ok [] v) m0 (λ _, counts_ok [])) as Hk; [|by eapply (Hk k)].
  clear E HP. subst m0. apply keeps_then; [apply quiet_pt, stable_gets|]. intros init.
  destruct (decide (init = Some (k_me k))); [by intros ???|].
  eapply keeps_bind; [apply keeps_me|]. intros p.
  eapply (keeps_bind _ _ (λ _ v, v.1.1 = k_me k ∧ mine (Forall (λ o, o = None)) v)).
  { intros k1 b k1' ((Hme&HR)&Hp) E. split.
    - clear HR Hp. revert k1 Hme E. generalize 0%nat. induction (p_ofile p) as [|[f|] l IH]; intros fd k1 Hme E.
      + by injection E as <- <-.
      + cbn [close_files] in E. apply bind_ok in E as (u&k2&E2&E). apply bind_ok in E as (w&k3&E3&E). eapply IH, E.
        apply fileclose_view in E2 as (?&_&Hv). simpl in *. unfold kview in Hv. injection Hv as Hme2 _ _.
        unfold upd_me in E3. apply bind_ok in E3 as (mi&k4&E4&E3). injection E4 as <- <-. apply zoom_ok in E3 as (c&_&->). simpl. congruence.
      + by eapply IH, E.
    - eapply keeps_close_files; [|exact E]. split; [done|]. exists (p_ofile p). 
      destruct HR as [HC HM]. assert (dead (p_state p) = false) as Hd by (destruct HM as [? HM]; unfold pview in Hp; congruence).
      rewrite Hp. unfold pview. rewrite Hd. split; [done|]. split; [intros; lia|done]. }
  intros _. do 2 (apply keeps_then; [first [apply quiet_begin_op|apply stable_the]|]; intros ?).
  do 2 (apply keeps_then; [first [apply quiet_fs|apply quiet_end_op]|]; intros _).
  apply keeps_then; [by apply quiet_upd_me|]. intros _. unfold exit_locked.
  eapply keeps_pt_bind; [apply keeps_quiet, quiet_pt; stable_steps|]. intros ?.
  eapply keeps_pt_bind; [apply keeps_quiet, quiet_pt; stable_steps|]. intros q.
  eapply keeps_pt_bind; [apply keeps_quiet, quiet_pt; stable_steps|]. intros ?.
  eapply keeps_pt_bind; [apply keeps_quiet, quiet_pt; stable_steps|]. intros l.
  eapply keeps_pt_bind; [apply keeps_quiet, quiet_pt, pt_stable_reparent|]. intros ?.
  eapply (keeps_pt_bind _ _ (λ _, counts_ok [])); [|intros ?; apply keeps_quiet, quiet_pt; stable_steps].
  intros k1 b k1' (Hme&HR&o&Ho&Hnone) E. run E. unfold kview in *. simpl in *. rewrite <- Hme.
  pose proof Ho as (x&Hx&Hof&Hd)%ptview_lookup. rewrite (ptview_updp _ _ _ x Hx). unfold pview. simpl. rewrite Hof.
  destruct HR as [HC _]. eapply counts_procs; [exact HC|exact Ho|done|done|done].
Qed.

(** Between system calls, f->ref is the number of descriptors that refer to f. *)
Definition files_counted k : Prop := refs_ok [] (kview k).

(** C5. Open files are counted.  If the reference count of every open file is the number of descriptors, over all processes,
    that refer to it, then this still holds when any system call returns, whatever it
    does on the way and wherever it fails, and when a process has exited; and slots of the
    process table without a live process hold no descriptors. *)
Theorem syscalls_count_files num call k :
  syscalls devsw kend ptab forkret_addr ticks_chan junk_de junk_name junk_ptr num = Some call → files_counted k →
  (∀ r k', call k = Ok r k' → files_counted k') ∧
  (∀ a k', exit_body kend ptab k = Ok a k' → counts_ok [] (kview k')).
Proof.
  intros Hcall HP. split; [|intros a k' E; by eapply keeps_exit].
  assert (keeps (refs_ok []) call (λ _, refs_ok [])) as Hk; [|intros r k' E; by eapply Hk].
  unfold syscalls in Hcall. repeat case_match; simplify_eq/=; try (by apply keeps_quiet; auto using
    quiet_sys_read, quiet_sys_kill, quiet_sys_exec, quiet_sys_fstat, quiet_sys_chdir, quiet_sys_getpid, quiet_sys_sbrk, quiet_sys_sleep,
    quiet_sys_uptime, quiet_sys_write, quiet_sys_mknod, quiet_sys_unlink, quiet_sys_link, quiet_sys_mkdir).
  all: auto using keeps_fork, keeps_wait, keeps_sys_pipe, keeps_sys_dup, keeps_sys_open, keeps_sys_close.
  intros k1 r k1' _ E. unfold sys_exit, exit in E. by apply bind_ok in E as (?&?&_&?).
Qed.
End Keeps.

(** A process with one open file calls dup. *)
Module Example.
Definition me : proc :=
  Proc 8192 0 0 RUNNING 1 None zero_tf 0 0 false (Some 0%nat :: replicate 15 None) (Some 0%nat) (replicate 16 0).
Definition state : kernel MemTxn.mst :=
  Kernel (FsSt (MemTxn.Mst [] ∅ ∅) (Superblock 0 0 0 0 0 0 0) false [] 0 0 [])
    (Ftable false [File FD_INODE 1 true true 0 0 0]) (Kmem false true 0 ∅) ∅ (Ptable false [me] 2 None) 0 0 false 0 false.

Lemma counted : files_counted state.
Proof.
  split; [split|]; simpl.
  - intros [|f]; done.
  - intros [|i] l; done.
  - intros [|i] l d; [by intros [= <- _]|done].
  - by eexists.
Qed.
End Example.

Lemma syscalls_count_files_witness :
  ∃ k', sys_dup Example.state = Ok 1 k' ∧ files_counted k' ∧ refs_of (k_ft k') = [2].
Proof.
  eexists. split; [reflexivity|]. split; [|reflexivity].
  apply (proj1 (syscalls_count_files [] 0 0 0 0 (Dirent 0 []) [] 0 10 sys_dup Example.state eq_refl Example.counted) 1). reflexivity.
Defined.
