(* ===== verification/Fork.v ===== *)
(** fork makes a copy of the process that calls it: the composition of the process table, the memory
    of processes, open files and the inode cache. *)

From S2P Require Import Prelude Bytes Layout Mem Kalloc Vm Kstring Pipe Txn Fs Proc Kernel File Sysarg Sysfile Kproc.
Import Proc.System.

Section Fork.
Context {St : Type} `{!TxnIO St, !TxnOps St} (kend forkret_addr : Z) (Hend : KERNBASE ≤ kend).
Context (k0 : kernel St) (np : nat) (p c : proc).

(** What fork relies on: the caller [p] runs, [np] is the first unused slot, with the record [c]; there is memory for the
    copy; the files and the current directory of the caller are there. *)
Record can_fork (l : list Z) (R : gset Z) (d : nat) (i : inode) : Prop := {
  cf_me : pt_proc (k_pt k0) !! k_me k0 = Some p;
  cf_state : p_state p = RUNNING;
  cf_lock : pt_lock (k_pt k0) = false;
  cf_slot : find_unused 0 (pt_proc (k_pt k0)) = Some np;
  cf_child : pt_proc (k_pt k0) !! np = Some c;
  cf_unused : p_state c = UNUSED;
  cf_pid : pt_nextpid (k_pt k0) < 2 ^ 31 - 1;
  cf_none : p_ofile c = replicate NOFILE None;
  cf_mem : vm_inv kend (k_mem k0) l R;
  cf_pgdir : p_pgdir p ∈ R;
  cf_sz : PGSIZE ≤ p_sz p < 2 ^ 32;
  cf_free : (2 + 4 * Z.to_nat (p_sz p / PGSIZE) ≤ length l)%nat;
  cf_pages va : user_page va → PGSIZE ≤ va < p_sz p → ∃ fl pg, upage (km_mem (k_mem k0)) (p_pgdir p) va = Some (fl, pg);
  cf_ftlock : ft_lock (k_ft k0) = false;
  cf_ofile : length (p_ofile p) = NOFILE;
  cf_files fd f : p_ofile p !! fd = Some (Some f) → ∃ x, ft_file (k_ft k0) !! f = Some x ∧ 1 ≤ f_ref x;
  cf_cwd : p_cwd p = Some d;
  cf_fslock : fs_lock (k_fs k0) = false;
  cf_inode : fs_inodes (k_fs k0) !! d = Some i;
  cf_name : length (p_name c) = 16%nat ∧ length (p_name p) = 16%nat;
}.

(** The kernel while fork runs: the child's slot holds [q]. *)
Definition with_child (fs : fsst St) (ft : ftable) (m : kmem) (q : proc) : kernel St :=
  Kernel fs ft m (k_pipes k0)
    (Ptable false (<[np := q]> (pt_proc (k_pt k0))) (pt_nextpid (k_pt k0) + 1) (pt_initproc (k_pt k0)))
    (k_me k0) (k_ticks k0) (k_tickslock k0) (k_kpdpt k0) (k_first k0).

Section Steps.
Context (Hnp : (np < length (pt_proc (k_pt k0)))%nat) (Hne : np ≠ k_me k0).
Context (Hme : pt_proc (k_pt k0) !! k_me k0 = Some p).
Implicit Types (fs : fsst St) (ft : ftable) (m : kmem) (q : proc).

Lemma wp_child_upd fs ft m q f (Q : unit → kernel St → Prop) :
  Q tt (with_child fs ft m (f q)) → wp (updpr np f) Q (with_child fs ft m q).
Proof using Hnp.
  intros HQ. apply wp_zoom. eapply wp_updp; [simpl; by apply list_lookup_insert_eq|]. simpl.
  rewrite list_insert_insert_eq. exact HQ.
Qed.
Lemma wp_child_get fs ft m q (Q : proc → kernel St → Prop) :
  Q q (with_child fs ft m q) → wp (getpr np) Q (with_child fs ft m q).
Proof using Hnp. intros HQ. apply wp_zoom. eapply wp_getp; [simpl; by apply list_lookup_insert_eq|]. exact HQ. Qed.
Lemma wp_child_me fs ft m q (Q : proc → kernel St → Prop) :
  Q p (with_child fs ft m q) → wp me Q (with_child fs ft m q).
Proof using Hnp Hne Hme.
  intros HQ. apply wp_bind, wp_gets, wp_zoom. eapply wp_getp; [simpl; by rewrite list_lookup_insert_ne|]. exact HQ.
Qed.
Lemma wp_child_mem {A} fs ft m q (x : M kmem A) (Q : A → kernel St → Prop) :
  wp x (λ a m', Q a (with_child fs ft m' q)) m → wp (mem x) Q (with_child fs ft m q).
Proof. intros HQ. by apply wp_zoom. Qed.
Lemma wp_child_ft {A} fs ft m q (x : M ftable A) (Q : A → kernel St → Prop) :
  wp x (λ a ft', Q a (with_child fs ft' m q)) ft → wp (Kernel.ft x) Q (with_child fs ft m q).
Proof. intros HQ. by apply wp_zoom. Qed.
End Steps.

(** The files after one more reference to each of [ofile]. *)
Fixpoint dup_all (ofile : list (option nat)) (l : list file) : list file :=
  match ofile with
  | [] => l
  | None :: ofile => dup_all ofile l
  | Some f :: ofile => dup_all ofile (alter (λ x, set_f_ref (f_ref x + 1) x) f l)
  end.

Lemma dup_files_run (Hnp : (np < length (pt_proc (k_pt k0)))%nat) done ofile fs files m q (Q : unit → kernel St → Prop) :
  p_ofile q = done ++ replicate (length ofile) None →
  (∀ fd f, ofile !! fd = Some (Some f) → ∃ x, files !! f = Some x ∧ 1 ≤ f_ref x) →
  Q tt (with_child fs (Ftable false (dup_all ofile files)) m (set_p_ofile (done ++ ofile) q)) →
  wp (dup_files np (length done) ofile) Q (with_child fs (Ftable false files) m q).
Proof.
  revert done files q. induction ofile as [|o ofile IH]; intros done files q Hof Hfiles HQ.
  - apply wp_ret. simpl in *. rewrite <- Hof in HQ. by destruct q.
  - assert (p_ofile q = (done ++ [None]) ++ replicate (length ofile) None) as Hof' by (rewrite Hof, <- app_assoc; done).
    assert (∀ files' : list file, (∀ g x, files !! g = Some x → ∃ x', files' !! g = Some x' ∧ f_ref x ≤ f_ref x') →
      ∀ fd f, ofile !! fd = Some (Some f) → ∃ x, files' !! f = Some x ∧ 1 ≤ f_ref x) as Hnext.
    { intros files' Hmono fd f Hf. destruct (Hfiles (S fd) f Hf) as (x&Hx&Hr). destruct (Hmono _ _ Hx) as (x'&Hx'&?).
      exists x'. split; [done|lia]. }
    destruct o as [f|]; cbn [dup_files dup_all] in *.
    + destruct (Hfiles 0%nat f eq_refl) as (x&Hx&Hr). apply wp_bind, wp_child_ft.
      unfold filedup, getf, updf. apply wp_bind, wp_acquire; [done|]. apply wp_bind, wp_bind, wp_gets. cbn [over ftable_lock set_ft_lock ft_file].
      apply (wp_the _ _ x); [exact Hx|]. rewrite (proj2 (Z.ltb_ge _ _)) by lia. apply wp_bind, wp_modify, wp_bind, wp_release; [done|].
      apply wp_ret. simpl. apply wp_bind, wp_child_upd; [done|].
      replace (S (length done)) with (length (done ++ [Some f])) by (rewrite length_app; simpl; lia).
      rewrite (alter_known _ _ _ _ Hx). rewrite (alter_known _ _ _ _ Hx) in HQ.
      apply IH; simpl.
      * rewrite Hof. rewrite insert_app_r_alt by lia. rewrite Nat.sub_diag. simpl. by rewrite <- app_assoc.
      * apply Hnext. intros g y Hg. destruct (decide (g = f)) as [->|Hgf].
        -- exists (set_f_ref (f_ref x + 1) x). rewrite list_lookup_insert_eq by (by eapply lookup_lt_Some).
           split; [done|]. simpl. simplify_eq. lia.
        -- exists y. rewrite list_lookup_insert_ne by done. split; [done|lia].
      * rewrite <- app_assoc. exact HQ.
    + replace (S (length done)) with (length (done ++ [None])) by (rewrite length_app; simpl; lia).
      apply IH; [done| |by rewrite <- app_assoc]. apply Hnext. intros g y Hg. exists y. split; [done|lia].
Qed.

Lemma alloc_slot_run l R d i :
  can_fork l R d i →
  alloc_slot (k_pt k0) = Ok (Some np)
    (Ptable false (<[np := set_p_pid (pt_nextpid (k_pt k0)) (set_p_state EMBRYO c)]> (pt_proc (k_pt k0))) (pt_nextpid (k_pt k0) + 1)
       (pt_initproc (k_pt k0))).
Proof.
  intros Hf. pose proof (cf_child _ _ _ _ Hf) as Hc. pose proof (cf_pid _ _ _ _ Hf) as Hpid.
  unfold alloc_slot. rewrite (bind_run _ _ _ _ _ (acquire_run ptable_lock _ (cf_lock _ _ _ _ Hf))).
  erewrite bind_run; [|reflexivity]. simpl. rewrite (cf_slot _ _ _ _ Hf). unfold updp, mbind, M_bind, modify, gets. simpl.
  rewrite (proj2 (Z.leb_gt _ _)) by lia. simpl. rewrite !(alter_known _ _ _ _ Hc).
  rewrite (alter_known _ (<[np := _]> _) np (set_p_state EMBRYO c)); [|apply list_lookup_insert_eq; by eapply lookup_lt_Some].
  by rewrite list_insert_insert_eq.
Qed.

(** The child that fork makes. *)
Definition forked (q : proc) (ks d : Z) (nm : list Z) (q' : proc) : Prop :=
  q' = Proc (p_sz q) d ks RUNNABLE (pt_nextpid (k_pt k0)) (Some (k_me k0)) (set_tf_rax 0 (p_tf q)) forkret_addr (p_chan c)
         (p_killed c) (p_ofile q) (p_cwd q) nm.

(** The inode cache with one more reference to the current directory of the caller. *)
Definition dup_cwd (d : nat) (i : inode) : fsst St :=
  FsSt (fs_io (k_fs k0)) (fs_sb (k_fs k0)) false (<[d := set_i_ref (i_ref i + 1) i]> (fs_inodes (k_fs k0)))
    (p_pid p) d (fs_wakes (k_fs k0)).

(** C12. fork copies the process.  When there are an unused slot and enough memory, fork returns the next process id; the child is
    runnable, is the caller's child, has the caller's name, returns 0 from the same registers, and has the same
    open files, each with one more reference per descriptor, and the same current directory; its memory has the contents and permissions of the
    caller's, page by page, in pages of its own.  The kernel stack and the memory of the child
    come off the front of the free list, and the kernel stack is in no address space.  Everything else is as before: the
    caller and all other processes, the initial process, pipes, ticks, the disk and the log, all other
    files and inodes, the memory of all address spaces, and every page that the kernel has for
    other purposes; and every lock that fork takes is released. *)
Theorem fork_copies_process l R d i :
  can_fork l R d i →
  ∃ q ks pgdir nm m k l',
    fork kend forkret_addr k0 = Ok (pt_nextpid (k_pt k0))
      (with_child (dup_cwd d i) (Ftable false (dup_all (p_ofile p) (ft_file (k_ft k0)))) m q) ∧
    forked p ks pgdir nm q ∧ length nm = 16%nat ∧ cut 16 nm = cut 15 (p_name p) ∧ 0 ∈ nm ∧
    l = ks :: k ++ l' ∧ pgdir ∉ R ∧ vm_inv kend m l' ({[pgdir]} ∪ R) ∧ fresh kend m l' ({[pgdir]} ∪ R) ks ∧
    untouched kend (k_mem k0) l R m l' ({[pgdir]} ∪ R) ∧
    (∀ va, user_page va → upage (km_mem m) pgdir va =
       if decide (PGSIZE ≤ va < p_sz p) then upage (km_mem (k_mem k0)) (p_pgdir p) va else None) ∧
    ∀ r va, r ∈ R → user_page va → upage (km_mem m) r va = upage (km_mem (k_mem k0)) r va.
Proof using Hend.
  intros Hf. pose proof Hf as [Hme Hrun Hlk Hslot Hc Hun Hpid Hnone Hmem Hpg Hsz Hfree Hpages Hftl Hol Hfiles Hcwd Hfsl Hino [Hn1 Hn2]].
  pose proof (lookup_lt_Some _ _ _ Hc) as Hnp. assert (np ≠ k_me k0) as Hne by (intros ->; congruence).
  destruct l as [|ks l]; [simpl in Hfree; lia|].
  destruct (vm_kalloc kend Hend _ _ _ _ Hmem) as (x&Hka&Hmem1&Hfr1).
  destruct (copyuvm_run kend Hend (k_kpdpt k0) _ l R (p_pgdir p) (p_sz p) Hmem1 Hpg Hsz ltac:(simpl in Hfree; lia) Hpages)
    as (pgdir&m2&l2&Hcopy&HdR&Hmem2&[k Hk]&Hunt&Hup&Hother).
  destruct (safestrcpy_loop_run 15 (p_name c) (p_name p)) as (nm&Hnm&Hnml&Hcut&Hnul&_); [lia|left; lia|].
  assert (ks ≠ 0) as Hks.
  { apply vi_kmem in Hmem as [_ _ _ Hg _ _]. apply Forall_cons_1 in Hg as [Hg _]. destruct Hg as (_&Hge&_). unfold KERNBASE in Hend. lia. }
  assert (pgdir ≠ 0) as Hpz.
  { destruct (vi_node _ _ _ _ Hmem2 pgdir [] pgdir) as [Hg _]; [set_solver|by split_and!; [simpl; lia|constructor|]|done|]. destruct Hg as (_&Hge&_). unfold KERNBASE in Hend. lia. }
  set (post := λ (pid : Z) (k' : kernel St), pid = pt_nextpid (k_pt k0) ∧ ∃ q, forked p ks pgdir nm q ∧
    k' = with_child (dup_cwd d i) (Ftable false (dup_all (p_ofile p) (ft_file (k_ft k0)))) m2 q).
  assert (wp (fork kend forkret_addr) post k0) as (pid&k'&Hk'&->&q&Hq&->)%wp_run.
  2: { exists q, ks, pgdir, nm, m2, k, l2. split_and!; try done.
       - congruence.
       - rewrite firstn_all2 in Hnul by lia. done.
       - by rewrite Hk.
       - by apply Hunt.
       - eapply untouched_trans; [|exact Hunt]. by apply untouched_kalloc. }
  unfold fork, allocproc. apply wp_bind, wp_bind, wp_zoom. eapply wp_eq; [exact (alloc_slot_run _ _ _ _ Hf)|].
  change (over pt_lens _ k0) with (with_child (k_fs k0) (k_ft k0) (k_mem k0) (set_p_pid (pt_nextpid (k_pt k0)) (set_p_state EMBRYO c))).
  apply wp_bind, wp_child_mem. eapply wp_eq; [exact Hka|]. apply wp_bind, wp_child_upd; [done|].
  rewrite (proj2 (Z.eqb_neq _ _) Hks). apply wp_bind, wp_child_upd; [done|]. apply wp_ret.
  apply wp_bind, wp_child_me; [done..|]. apply wp_bind, wp_gets. cbn [k_kpdpt with_child].
  apply wp_bind, wp_child_mem. eapply wp_eq; [exact Hcopy|]. apply wp_bind, wp_child_upd; [done|].
  rewrite (proj2 (Z.eqb_neq _ _) Hpz). apply wp_bind, wp_gets. cbn [k_me with_child].
  do 3 (apply wp_bind, wp_child_upd; [done|]).
  replace (k_ft k0) with (Ftable false (ft_file (k_ft k0))) by (destruct (k_ft k0); simpl in *; congruence).
  apply wp_bind. apply (dup_files_run Hnp [] (p_ofile p)); [simpl; by rewrite Hnone, Hol|done|].
  apply wp_bind, (wp_the _ _ d); [done|]. apply wp_bind. unfold fs. apply wp_bind, wp_child_me; [done..|].
  apply wp_bind, (wp_the _ _ d); [done|]. apply wp_zoom. unfold idup. apply wp_bind, wp_acquire; [done|].
  apply wp_bind, wp_modify, wp_bind, wp_release; [done|]. apply wp_ret. simpl. rewrite (alter_known _ _ _ _ Hino).
  match goal with |- wp _ _ ?k => change k with (with_child (dup_cwd d i) (Ftable false (dup_all (p_ofile p) (ft_file (k_ft k0)))) m2
    (Proc (p_sz p) pgdir ks EMBRYO (pt_nextpid (k_pt k0)) (Some (k_me k0)) (set_tf_rax 0 (p_tf p)) forkret_addr (p_chan c)
       (p_killed c) (p_ofile p) (p_cwd c) (p_name c))) end.
  apply wp_bind, wp_child_upd; [done|]. apply wp_bind, wp_child_get; [done|].
  apply wp_bind, (wp_the _ _ nm); [exact Hnm|]. apply wp_bind, wp_child_upd; [done|]. apply wp_bind, wp_child_upd; [done|].
  apply wp_ret. split; [done|]. eexists. split; [|reflexivity]. unfold forked, set_p_state, set_p_cwd, set_p_name. simpl. by rewrite Hcwd.
Qed.
End Fork.

(** A process with two pages of memory and one open file; the next slot is unused. *)
Module Example.
Definition parent (pgdir : Z) : proc :=
  Proc 0x3000 pgdir 0 RUNNING 1 None zero_tf 0 0 false (Some 0%nat :: replicate 15 None) (Some 0%nat) (replicate 16 0).
Definition unused : proc := Proc 0 0 0 UNUSED 0 None zero_tf 0 0 false (replicate NOFILE None) None (replicate 16 0).
Definition state (pgdir : Z) (m : kmem) : kernel MemTxn.mst :=
  Kernel (FsSt (MemTxn.Mst [] ∅ ∅) (Superblock 0 0 0 0 0 0 0) false [zero_inode] 0 0 [])
    (Ftable false [File FD_INODE 1 true true 0 0 0]) m ∅ (Ptable false [parent pgdir; unused] 2 None) 0 0 false 0 false.

Lemma ready pgdir m l :
  vm_inv example_end m l {[pgdir]} → (27 ≤ length l)%nat →
  (∀ va, user_page va → 0x1000 ≤ va < 0x3000 → upage (km_mem m) pgdir va = Some (flags [PTE_W; PTE_U; PTE_P], full_page 0)) →
  can_fork example_end (state pgdir m) 1 (parent pgdir) unused l {[pgdir]} 0 zero_inode.
Proof.
  intros Hm Hl Hup. split; simpl; try done.
  - by apply elem_of_singleton.
  - eapply Nat.le_trans; [|exact Hl]. vm_compute. lia.
  - intros va Hv Hr. eexists _, _. by apply Hup.
  - intros [|fd] f; simpl.
    + intros [= <-]. eexists. split; [done|]. simpl. lia.
    + intros Hf%(list_elem_of_lookup_2 (replicate 15 None))%elem_of_replicate_inv. done.
Qed.
End Example.

Lemma fork_copies_process_witness :
  ∃ m l r, vm_inv example_end m l {[r]} ∧
    ∃ k' q ks pgdir nm, fork example_end 42 (Example.state r m) = Ok 2 k' ∧
      forked 42 (Example.state r m) Example.unused (Example.parent r) ks pgdir nm q ∧
      pt_proc (k_pt k') = [Example.parent r; q] ∧ p_ofile q !! 0%nat = Some (Some 0%nat).
Proof.
  destruct example_user as (m&l&r&Hi&Hl&Hup). exists m, l, r. split; [exact Hi|].
  destruct (fork_copies_process example_end 42 (proj1 example_end_ok) (Example.state r m) 1 (Example.parent r) Example.unused
    l {[r]} 0 zero_inode (Example.ready r m l Hi Hl Hup)) as (q&ks&pgdir&nm&m'&k&l'&Hrun&Hq&_).
  eexists _, q, ks, pgdir, nm. split; [exact Hrun|]. split; [exact Hq|]. split; [reflexivity|].
  unfold forked in Hq. rewrite Hq. reflexivity.
Defined.
