(* ===== verification/Umalloc.v ===== *)
(** The memory allocator of the user library (umalloc.c): Kernighan and
    Ritchie's circular list of free blocks in order of address, with [malloc],
    [free] and [morecore].

    Memory is a map from addresses to units of 16 bytes, each seen as a
    header; a program that writes to its blocks writes whole units.  The
    address of the static header [base] is a parameter.  sbrk is what sys_sbrk and growproc do to the
    memory of the process: whole pages are added, zeroed, and taken away; how many pages the kernel has left is a
    parameter, and it panics when there are not enough.  The
    loops over the free list get as fuel the number of units there are, which
    is at least the number of free blocks.  The theorems say that malloc
    returns blocks that are large enough and disjoint from all others, that
    free merges neighbours, and that the blocks of a program keep their contents. *)

From stdpp Require Import sorting.
From S2P Require Import Prelude Bytes Mem.

(** union header; the compiler pads it to 16 bytes *)
Record header := Header { h_ptr : Z; h_size : Z; h_pad : Z }.

#[export] Instance header_eq_dec : EqDecision header.
Proof. solve_decision. Defined.

Definition set_h_ptr v (h : header) : header := Header v (h_size h) (h_pad h).
Definition set_h_size v (h : header) : header := Header (h_ptr h) v (h_pad h).

Definition UNIT : Z := 16.

(** The mapped memory of the process, [freep], and the size of the process. *)
Record heap := Heap { u_mem : gmap Z header; u_freep : Z; u_brk : Z }.

Definition set_u_mem m (h : heap) : heap := Heap m (u_freep h) (u_brk h).
Definition set_u_freep p (h : heap) : heap := Heap (u_mem h) p (u_brk h).
Definition set_u_brk b (h : heap) : heap := Heap (u_mem h) (u_freep h) b.

Section umalloc.
Variable base : Z.
(** the pages that the kernel has left for the memory of the process *)
Variable avail : Z.

Definition hd (a : Z) : M heap header := m ← gets u_mem; the "header" (m !! a).
Definition upd_hd (a : Z) (f : header → header) : M heap unit :=
  h ← hd a; modify (λ s, set_u_mem (<[a := f h]> (u_mem s)) s).
Definition set_ptr (a v : Z) : M heap unit := upd_hd a (set_h_ptr v).
Definition set_size (a v : Z) : M heap unit := upd_hd a (set_h_size v).

(** allocuvm from the old size [b] to [n], when there are pages enough: the pages that are new start as zero. *)
Definition zero_units (a : Z) (n : nat) : gmap Z header :=
  list_to_map ((λ i, (a + UNIT * Z.of_nat i, Header 0 0 0)) <$> seq 0 n).
Definition new_pages (b n : Z) : Z := (PGROUNDUP n - PGROUNDUP b) / PGSIZE.
Definition map_pages (b n : Z) (h : heap) : heap :=
  set_u_mem (zero_units (PGROUNDUP b) (Z.to_nat (new_pages b n * (PGSIZE / UNIT))) ∪ u_mem h) h.
Definition uallocuvm (b n : Z) : M heap Z :=
  if KERNBASE <=? n then mret 0 else
  if n <? b then mret b else
  if avail <? new_pages b n then panic "Out of memory!" else
  modify (map_pages b n);;
  mret n.

(** deallocuvm: the pages from the new size on are gone; the last page stays as it is. *)
Definition unmap_pages (n : Z) (h : heap) : heap :=
  set_u_mem (filter (λ u : Z * header, u.1 < PGROUNDUP n) (u_mem h)) h.
Definition udeallocuvm (b n : Z) : M heap Z :=
  if b <=? n then mret b else
  modify (unmap_pages n);;
  mret n.

Definition ugrowproc (n : Z) : M heap Z :=
  sz ← gets u_brk;
  sz ← (if 0 <? n then uallocuvm sz (u64 (sz + n)) else if n <? 0 then udeallocuvm sz (u64 (sz + n)) else mret sz);
  if negb (n =? 0) && (sz =? 0) then mret (-1) else
  modify (set_u_brk sz);;
  mret 0.

Definition sbrk (n : Z) : M heap Z :=
  addr ← gets u_brk;
  r ← ugrowproc n;
  if r <? 0 then mret (u64 (-1)) else mret addr.

(** The block after which [bp] belongs. *)
Fixpoint free_find (fuel : nat) (bp p : Z) : M heap Z :=
  h ← hd p;
  let q := h_ptr h in
  if (p <? bp) && (bp <? q) then mret p else
  if (q <=? p) && ((p <? bp) || (bp <? q)) then mret p else
  match fuel with
  | O => out_of_fuel
  | S fuel => free_find fuel bp q
  end.

(** Link [bp] to what follows [p], or merge the two. *)
Definition free_upper (bp p : Z) : M heap unit :=
  b ← hd bp;
  h ← hd p;
  if bp + UNIT * h_size b =? h_ptr h then
    q ← hd (h_ptr h);
    set_size bp (u32 (h_size b + h_size q));;
    h ← hd p;
    q ← hd (h_ptr h);
    set_ptr bp (h_ptr q)
  else set_ptr bp (h_ptr h).

(** Link [p] to [bp], or merge the two. *)
Definition free_lower (bp p : Z) : M heap unit :=
  h ← hd p;
  if p + UNIT * h_size h =? bp then
    b ← hd bp;
    set_size p (u32 (h_size h + h_size b));;
    b ← hd bp;
    set_ptr p (h_ptr b)
  else set_ptr p bp.

Definition free (ap : Z) : M heap unit :=
  let bp := ap - UNIT in
  p ← gets u_freep;
  n ← gets (λ h, size (u_mem h));
  p ← free_find n bp p;
  free_upper bp p;;
  free_lower bp p;;
  modify (set_u_freep p).

Definition morecore (nu : Z) : M heap Z :=
  let nu := if nu <? 4096 then 4096 else nu in
  p ← sbrk (nu * UNIT);
  if p =? u64 (-1) then mret 0 else
  set_size p nu;;
  free (p + UNIT);;
  gets u_freep.

(** A block of at least [nunits] units is found after [prevp]. *)
Definition malloc_take (nunits prevp p : Z) : M heap Z :=
  h ← hd p;
  p ← (if h_size h =? nunits then set_ptr prevp (h_ptr h);; mret p
       else
         let s := u32 (h_size h - nunits) in
         set_size p s;;
         set_size (p + UNIT * s) nunits;;
         mret (p + UNIT * s));
  modify (set_u_freep prevp);;
  mret (p + UNIT).

Fixpoint malloc_loop (fuel : nat) (nunits prevp p : Z) : M heap Z :=
  h ← hd p;
  if nunits <=? h_size h then malloc_take nunits prevp p else
  let next p :=
    match fuel with
    | O => out_of_fuel
    | S fuel => h ← hd p; malloc_loop fuel nunits p (h_ptr h)
    end in
  freep ← gets u_freep;
  if p =? freep then
    p ← morecore nunits;
    if p =? 0 then mret 0 else next p
  else next p.

(** The first call makes the static header a list of its own. *)
Definition malloc_init : M heap unit :=
  freep ← gets u_freep;
  when (freep =? 0) (
    set_ptr base base;;
    modify (set_u_freep base);;
    set_size base 0).

Definition malloc (nbytes : Z) : M heap Z :=
  let nunits := u32 ((nbytes + UNIT - 1) / UNIT + 1) in
  malloc_init;;
  prevp ← gets u_freep;
  n ← gets (λ h, size (u_mem h));
  h ← hd prevp;
  malloc_loop (2 * n + 4) nunits prevp (h_ptr h).

(** * The free list

    A block is the address of its header and its size in units.  The free
    list is the static header followed by the free blocks. *)

Notation block := (Z * Z)%type.

Definition head_addr (l : list block) (e : Z) : Z :=
  match l with [] => e | b :: _ => b.1 end.

(** The headers of [l] are linked in this order, the last one to [e]. *)
Fixpoint chain (m : gmap Z header) (l : list block) (e : Z) : Prop :=
  match l with
  | [] => True
  | (a, s) :: l => (∃ pad, m !! a = Some (Header (head_addr l e) s pad)) ∧ chain m l e
  end.

(** Ordered by address, and never adjacent: free merges neighbours. *)
Definition before (b c : block) : Prop := b.1 + UNIT * b.2 < c.1.

(** How often the unit at [x] occurs in blocks. *)
Definition cnt (b : block) (x : Z) : Z :=
  if decide (b.1 ≤ x < b.1 + UNIT * b.2 ∧ (x - b.1) mod UNIT = 0) then 1 else 0.
Definition total (l : list block) (x : Z) : Z := foldr (λ b n, cnt b x + n) 0 l.

(** A heap with free blocks [L], blocks [A] in use by the program, and
    memory [F] the program got from sbrk itself: every unit of its memory other
    than the static header is in exactly one of these blocks. *)
Record heap_ok (h : heap) (L A F : list block) : Prop := {
  ok_list : u_freep h = 0 ∧ L = [] ∨
    u_freep h ∈ base :: L.*1 ∧ chain (u_mem h) ((base, 0) :: L) base;
  ok_order : StronglySorted before ((base, 0) :: L);
  ok_free : Forall (λ b, 0 < b.2) L;
  ok_used : ∀ a s, (a, s) ∈ A → 0 < s ∧ ∃ p pad, u_mem h !! a = Some (Header p s pad);
  ok_units : ∀ x, total (L ++ A ++ F) x = if decide (x ≠ base ∧ x < u_brk h ∧ is_Some (u_mem h !! x)) then 1 else 0;
  ok_mem : ∀ x, is_Some (u_mem h !! x) → base ≤ x < PGROUNDUP (u_brk h) ∧ x mod UNIT = 0;
  (** the rest of the last page is mapped *)
  ok_top : ∀ x, u_brk h ≤ x < PGROUNDUP (u_brk h) → x mod UNIT = 0 → is_Some (u_mem h !! x);
  ok_base : 0 < base < u_brk h ∧ is_Some (u_mem h !! base);
  ok_brk : u_brk h mod UNIT = 0 ∧ u_brk h ≤ PHYSTOP;
}.

(** ** Counting *)

Lemma cnt_range b x : 0 ≤ cnt b x ≤ 1.
Proof. unfold cnt. case_decide; lia. Qed.

Lemma total_app l l' x : total (l ++ l') x = total l x + total l' x.
Proof. induction l as [|b l IH]; simpl; [done|]. rewrite IH. lia. Qed.

Lemma units_nonneg l x : 0 ≤ total l x.
Proof. induction l as [|b l IH]; simpl; [done|]. pose proof (cnt_range b x). lia. Qed.

Lemma total_perm l l' x : l ≡ₚ l' → total l x = total l' x.
Proof. induction 1; simpl; lia. Qed.

Lemma cnt_split a s t x : 0 ≤ s → 0 ≤ t → cnt (a, s + t) x = cnt (a, s) x + cnt (a + UNIT * s, t) x.
Proof.
  intros Hs Ht. unfold cnt, UNIT. simpl.
  replace (x - (a + 16 * s)) with (x - a + (- s) * 16) by lia. rewrite Z_mod_plus_full.
  repeat case_decide; lia.
Qed.

Lemma total_elem b l x : b ∈ l → cnt b x ≤ total l x.
Proof.
  intros (l1&l2&->)%list_elem_of_split. rewrite total_app. simpl.
  pose proof (units_nonneg l1 x). pose proof (units_nonneg l2 x). lia.
Qed.

Lemma cnt_head a s : 0 < s → cnt (a, s) a = 1.
Proof. intros Hs. unfold cnt, UNIT. simpl. rewrite Z.sub_diag. rewrite decide_True; [done|]. split; [lia|done]. Qed.

(** ** Chains *)

Lemma chain_app m l l' e : chain m (l ++ l') e ↔ chain m l (head_addr l' e) ∧ chain m l' e.
Proof.
  induction l as [|[a s] l IH]; simpl; [tauto|].
  replace (head_addr (l ++ l') e) with (head_addr l (head_addr l' e)) by by destruct l.
  rewrite IH. tauto.
Qed.

Lemma chain_insert m l e a v : a ∉ l.*1 → chain m l e → chain (<[a := v]> m) l e.
Proof.
  induction l as [|[b s] l IH]; simpl; [done|].
  rewrite not_elem_of_cons. intros [Hab Ha] [[pad Hb] Hl]. split; [|auto].
  exists pad. by rewrite lookup_insert_ne.
Qed.

Lemma sorted_app {B} (R : B → B → Prop) l l' :
  StronglySorted R (l ++ l') ↔
  StronglySorted R l ∧ StronglySorted R l' ∧ ∀ b c, b ∈ l → c ∈ l' → R b c.
Proof. rewrite StronglySorted_app. naive_solver. Qed.

Section facts.
Context (h : heap) (L A F : list block).
Hypothesis Hok : heap_ok h L A F.

Lemma unit_of b x : b ∈ L ++ A ++ F → cnt b x = 1 → x ≠ base ∧ x < u_brk h ∧ is_Some (u_mem h !! x).
Proof.
  intros Hb Hx. pose proof (total_elem _ _ x Hb) as Ht. rewrite (ok_units _ _ _ _ Hok) in Ht.
  case_decide; [done|lia].
Qed.

Lemma one_owner b c R x : L ++ A ++ F ≡ₚ b :: c :: R → cnt b x = 1 → cnt c x = 1 → False.
Proof.
  intros Hp Hb Hc. pose proof (ok_units _ _ _ _ Hok x) as Ht. rewrite (total_perm _ _ _ Hp) in Ht.
  simpl in Ht. pose proof (units_nonneg R x). case_decide; lia.
Qed.

Lemma block_unit b : b ∈ L ++ A ++ F → 0 < b.2 → base < b.1 < u_brk h ∧ b.1 mod UNIT = 0.
Proof.
  intros Hb Hs. destruct b as [a s]. destruct (unit_of _ a Hb (cnt_head _ _ Hs)) as (Hne&Hlt&Hm).
  destruct (ok_mem _ _ _ _ Hok _ Hm). simpl. lia.
Qed.

Lemma block_end b : b ∈ L ++ A ++ F → 0 < b.2 → b.1 + UNIT * b.2 ≤ u_brk h.
Proof.
  intros Hb Hs. destruct b as [a s]; simpl in *. pose proof (block_unit _ Hb Hs) as [Hr Ha]. simpl in *.
  destruct (unit_of _ (a + UNIT * (s - 1)) Hb) as (_&Hlt&Hm).
  { unfold cnt, UNIT. simpl. replace (a + 16 * (s - 1) - a) with ((s - 1) * 16) by lia.
    rewrite Z_mod_mult. rewrite decide_True; [done|]. lia. }
  destruct (ok_mem _ _ _ _ Hok _ Hm) as [? Hd]. pose proof (ok_brk _ _ _ _ Hok) as [Hb1 _].
  unfold UNIT in *. apply Z.mod_divide in Hb1 as [k Hk]; [|lia]. apply Z.mod_divide in Ha as [j Hj]; [|lia]. lia.
Qed.

Lemma block_size b : b ∈ L ++ A ++ F → 0 < b.2 → b.2 < 2 ^ 32.
Proof.
  intros Hb Hs. pose proof (block_end _ Hb Hs). pose proof (block_unit _ Hb Hs).
  pose proof (ok_brk _ _ _ _ Hok). pose proof (ok_base _ _ _ _ Hok). unfold UNIT, PHYSTOP in *. lia.
Qed.

Lemma blocks_apart b c R : L ++ A ++ F ≡ₚ b :: c :: R → 0 < b.2 → 0 < c.2 → b.1 < c.1 → b.1 + UNIT * b.2 ≤ c.1.
Proof.
  intros Hp Hb Hc Hlt. destruct (Z.le_gt_cases (b.1 + UNIT * b.2) c.1) as [|Hgt]; [done|]. exfalso.
  destruct (block_unit b) as [_ H1]; [rewrite Hp; set_solver|done|].
  destruct (block_unit c) as [_ H2]; [rewrite Hp; set_solver|done|].
  apply (one_owner _ _ _ c.1 Hp).
  - unfold cnt. rewrite decide_True; [done|]. split; [lia|].
    rewrite Zminus_mod, H1, H2. done.
  - destruct c. by apply cnt_head.
Qed.
End facts.

(** ** Finding the place of a block *)

Definition below (b c : block) : Prop := b.1 < c.1.

Lemma order_below l : Forall (λ b, 0 ≤ b.2) l → StronglySorted before l → StronglySorted below l.
Proof.
  induction l as [|[a s] l IH]; [constructor|].
  intros [Hs Hl]%Forall_cons_1 [Hb Ha]%StronglySorted_inv. constructor; [auto|].
  eapply list.Forall_impl; [exact Ha|]. unfold before, below, UNIT. simpl in *. intros ?. lia.
Qed.

Lemma below_NoDup l : StronglySorted below l → NoDup l.*1.
Proof.
  induction 1 as [|[a s] l Ho IH Ha]; simpl; constructor; [|done].
  intros ([b t]&->&Hi)%list_elem_of_fmap. rewrite list.Forall_forall in Ha. specialize (Ha _ Hi).
  unfold below in *. simpl in *. lia.
Qed.

Lemma hd_run a v s : u_mem s !! a = Some v → hd a s = Ok v s.
Proof. intros H. unfold hd, the, mbind, M_bind, gets. by rewrite H. Qed.

Lemma hd_bind {B} a v (k : header → M heap B) s : u_mem s !! a = Some v → (hd a ≫= k) s = k v s.
Proof. intros H. by rewrite (bind_run _ _ _ _ _ (hd_run _ _ _ H)). Qed.

(** The list, cut before and after the place of [bp]. *)
Record place (m : gmap Z header) (bp : Z) (N1 : list block) (p ps : Z) (N2 : list block) : Prop := {
  pl_chain : chain m (N1 ++ (p, ps) :: N2) base;
  pl_head : head_addr (N1 ++ (p, ps) :: N2) base = base;
  pl_order : StronglySorted below (N1 ++ (p, ps) :: N2);
  pl_before : base ≤ p < bp;
  pl_after : Forall (λ b, bp < b.1) N2;
}.

Lemma below_next l a s l' e :
  StronglySorted below (l ++ (a, s) :: l') → (l' = [] ∧ head_addr l' e = e ∨ a < head_addr l' e).
Proof.
  intros (_&[_ H]%StronglySorted_inv&_)%sorted_app. destruct l' as [|b l']; [by left|right].
  by apply Forall_cons_1 in H as [H _].
Qed.

Lemma below_le l p ps l' : StronglySorted below (l ++ (p, ps) :: l') → head_addr l p ≤ p.
Proof.
  destruct l as [|b l]; simpl; [done|]. intros [_ H]%StronglySorted_inv.
  rewrite list.Forall_forall in H. specialize (H (p, ps) ltac:(set_solver)). unfold below in H. simpl in H. lia.
Qed.

Lemma find_forward s bp N0 N1 p ps N2 fuel :
  place (u_mem s) bp (N0 ++ N1) p ps N2 → (length N1 ≤ fuel)%nat →
  free_find fuel bp (head_addr N1 p) s = Ok p s.
Proof.
  revert N0 fuel. induction N1 as [|[a t] N1 IH]; intros N0 fuel Hp Hf.
  - destruct Hp as [Hc Hh Ho Hb Ha]. rewrite app_nil_r in *. apply chain_app in Hc as [_ [[pad Hm] _]].
    destruct (below_next _ _ _ _ base Ho) as [[-> Hq]|Hq];
      (destruct fuel; simpl; rewrite (hd_bind _ _ _ _ Hm); simpl).
    1,2: by rewrite !(proj2 (Z.ltb_lt _ _)), !(proj2 (Z.ltb_ge _ _)), !(proj2 (Z.leb_le _ _)) by lia.
    all: destruct N2 as [|b N2]; simpl in *; [lia|]; apply Forall_cons_1 in Ha as [Ha _].
    all: by rewrite !(proj2 (Z.ltb_lt _ _)) by lia.
  - pose proof Hp as [Hc Hh Ho Hb Ha]. rewrite <- app_assoc in *. simpl in *.
    apply chain_app in Hc as [_ [[pad Hm] _]].
    replace (head_addr (N1 ++ (p, ps) :: N2) base) with (head_addr N1 p) in * by by destruct N1.
    destruct (below_next _ _ _ _ base Ho) as [[Hq _]|Hq]; [by destruct N1|].
    replace (head_addr (N1 ++ (p, ps) :: N2) base) with (head_addr N1 p) in Hq by by destruct N1.
    apply sorted_app in Ho as (_&[Ho _]%StronglySorted_inv&_). apply below_le in Ho.
    destruct fuel as [|fuel]; [lia|]. simpl. rewrite (hd_bind _ _ _ _ Hm). simpl.
    rewrite (proj2 (Z.ltb_ge bp (head_addr N1 p))), (proj2 (Z.leb_gt (head_addr N1 p) a)) by lia.
    rewrite andb_false_r. simpl. apply (IH (N0 ++ [(a, t)])); [|lia]. by rewrite <- app_assoc.
Qed.

Lemma find_around s bp N1 p ps Y X fuel :
  place (u_mem s) bp N1 p ps (Y ++ X) → (length X + length N1 ≤ fuel)%nat →
  free_find fuel bp (head_addr X base) s = Ok p s.
Proof.
  revert Y fuel. induction X as [|[a t] X IH]; intros Y fuel Hp Hf.
  - simpl. pose proof (pl_head _ _ _ _ _ _ Hp) as Hh.
    replace base with (head_addr N1 p) at 1 by by destruct N1. by eapply (find_forward _ _ []).
  - pose proof Hp as [Hc Hh Ho Hb Ha].
    replace (N1 ++ (p, ps) :: Y ++ (a, t) :: X) with ((N1 ++ (p, ps) :: Y) ++ (a, t) :: X) in Hc, Ho
      by by rewrite <- app_assoc.
    apply chain_app in Hc as [_ [[pad Hm] _]].
    apply Forall_app in Ha as [_ [Ha Ha']%Forall_cons_1]. simpl in Ha.
    pose proof (below_next _ _ _ _ base Ho) as Hq.
    destruct fuel as [|fuel]; [simpl in Hf; lia|]. simpl. rewrite (hd_bind _ _ _ _ Hm). simpl.
    rewrite (proj2 (Z.ltb_ge a bp)) by lia. simpl.
    assert ((head_addr X base <=? a) && (bp <? head_addr X base) = false) as ->.
    { destruct Hq as [[-> Hq]|Hq]; [rewrite (proj2 (Z.ltb_ge bp _)) by (simpl; lia); apply andb_false_r|].
      by rewrite (proj2 (Z.leb_gt _ a)) by lia. }
    apply (IH (Y ++ [(a, t)])); [by rewrite <- app_assoc|simpl in Hf; lia].
Qed.

Lemma free_find_run s bp N1 p ps N2 fuel :
  place (u_mem s) bp N1 p ps N2 → u_freep s ∈ (N1 ++ (p, ps) :: N2).*1 →
  (length (N1 ++ (p, ps) :: N2) ≤ fuel)%nat →
  free_find fuel bp (u_freep s) s = Ok p s.
Proof.
  intros Hp (b&Hb&Hin)%list_elem_of_fmap. rewrite length_app. simpl.
  assert (b ∈ N1 ++ [(p, ps)] ∨ b ∈ N2) as [H|H] by set_solver.
  - rewrite Hb. intros ?. apply list_elem_of_split in H as (X&X'&HX).
    destruct X' as [|c X' _] using rev_ind.
    + apply app_inj_tail in HX as [-> <-]. by apply (find_forward _ _ X []) with ps N2; [rewrite app_nil_r|simpl; lia].
    + rewrite app_comm_cons, app_assoc in HX. apply app_inj_tail in HX as [-> <-].
      apply (find_forward _ _ X (b :: X') p ps N2); [done|]. rewrite length_app in *. lia.
  - rewrite Hb. intros ?. apply list_elem_of_split in H as (Y&X&->).
    apply (find_around _ _ N1 p ps Y (b :: X)); [done|]. rewrite length_app in *. simpl in *. lia.
Qed.

Lemma split_sorted b l bp :
  StronglySorted below (b :: l) → b.1 < bp → bp ∉ l.*1 →
  ∃ N1 q N2, b :: l = N1 ++ q :: N2 ∧ b.1 ≤ q.1 < bp ∧ Forall (λ c, bp < c.1) N2.
Proof.
  revert b. induction l as [|c l IH]; intros b Ho Hb Hn; [by exists [], b, []|].
  apply StronglySorted_inv in Ho as [Ho Hbl]. rewrite fmap_cons, not_elem_of_cons in Hn. destruct Hn as [Hc Hn].
  apply Forall_cons_1 in Hbl as [Hbc Hbl]. unfold below in Hbc.
  destruct (Z.lt_ge_cases c.1 bp) as [Hlt|Hge].
  - destruct (IH c Ho Hlt Hn) as (N1&q&N2&->&Hq&Hf). exists (b :: N1), q, N2. split; [done|]. split; [lia|done].
  - exists [], b, (c :: l). split; [done|]. split; [lia|]. constructor; [lia|].
    apply StronglySorted_inv in Ho as [_ Ho]. eapply list.Forall_impl; [exact Ho|]. unfold below. intros ?. lia.
Qed.

Lemma upd_run a f v s : u_mem s !! a = Some v → upd_hd a f s = Ok tt (set_u_mem (<[a := f v]> (u_mem s)) s).
Proof. intros H. unfold upd_hd. by rewrite (bind_run _ _ _ _ _ (hd_run _ _ _ H)). Qed.

Lemma upd_bind {B} a f v (k : unit → M heap B) s :
  u_mem s !! a = Some v → (upd_hd a f ≫= k) s = k tt (set_u_mem (<[a := f v]> (u_mem s)) s).
Proof. intros H. by rewrite (bind_run _ _ _ _ _ (upd_run _ _ _ _ H)). Qed.

(** ** Linking a block *)

Definition upper (bp bs : Z) (N : list block) : block * list block :=
  match N with
  | (q, qs) :: N' => if bp + UNIT * bs =? q then ((bp, bs + qs), N') else ((bp, bs), N)
  | [] => ((bp, bs), [])
  end.
Definition lower (p ps : Z) (b : block) : list block :=
  if p + UNIT * ps =? b.1 then [(p, ps + b.2)] else [(p, ps); b].

Lemma free_upper_run s bp bs pb pad p ps ppad N e :
  u_mem s !! bp = Some (Header pb bs pad) → u_mem s !! p = Some (Header (head_addr N e) ps ppad) →
  chain (u_mem s) N e → p ≠ bp → bp ∉ N.*1 → p ∉ N.*1 → bp + UNIT * bs ≠ e → 0 ≤ (upper bp bs N).1.2 < 2 ^ 32 →
  free_upper bp p s =
    Ok tt (set_u_mem (<[bp := Header (head_addr (upper bp bs N).2 e) (upper bp bs N).1.2 pad]> (u_mem s)) s).
Proof.
  intros Hb Hp Hc Hne Hbn Hpn He Hr. unfold free_upper.
  rewrite (hd_bind _ _ _ _ Hb), (hd_bind _ _ _ _ Hp). simpl.
  destruct N as [|[q qs] N]; simpl in *.
  { rewrite (proj2 (Z.eqb_neq _ _)) by done. unfold set_ptr. by rewrite (upd_run _ _ _ _ Hb). }
  destruct Hc as [[qpad Hq] Hc].
  destruct (Z.eqb_spec (bp + UNIT * bs) q) as [E|E]; simpl in *.
  - rewrite not_elem_of_cons in *. destruct Hbn, Hpn.
    rewrite (hd_bind _ _ _ _ Hq). simpl. rewrite wrap_small by done.
    unfold set_size. rewrite (upd_bind _ _ _ _ _ Hb).
    rewrite (hd_bind p (Header q ps ppad)) by (simpl; by rewrite lookup_insert_ne). simpl.
    rewrite (hd_bind q (Header (head_addr N e) qs qpad)) by (simpl; by rewrite lookup_insert_ne). simpl.
    unfold set_ptr. rewrite (upd_run _ _ _ _ (lookup_insert_eq _ _ _)). unfold set_u_mem. simpl. by rewrite insert_insert_eq.
  - unfold set_ptr. by rewrite (upd_run _ _ _ _ Hb).
Qed.

Lemma free_lower_run s bp nb bs pad p np ps ppad :
  u_mem s !! bp = Some (Header nb bs pad) → u_mem s !! p = Some (Header np ps ppad) → p ≠ bp →
  0 ≤ ps + bs < 2 ^ 32 →
  free_lower bp p s =
    Ok tt (set_u_mem (<[p := if p + UNIT * ps =? bp then Header nb (ps + bs) ppad else Header bp ps ppad]> (u_mem s)) s).
Proof.
  intros Hb Hp Hne Hr. unfold free_lower. rewrite (hd_bind _ _ _ _ Hp). simpl.
  case_match.
  - rewrite (hd_bind _ _ _ _ Hb). simpl. rewrite wrap_small by done.
    unfold set_size. rewrite (upd_bind _ _ _ _ _ Hp).
    rewrite (hd_bind bp (Header nb bs pad)) by (simpl; by rewrite lookup_insert_ne). simpl.
    unfold set_ptr. rewrite (upd_run _ _ _ _ (lookup_insert_eq _ _ _)). unfold set_u_mem. simpl. by rewrite insert_insert_eq.
  - unfold set_ptr. by rewrite (upd_run _ _ _ _ Hp).
Qed.

Lemma upper_ok bp bs N :
  0 < bs → StronglySorted before N → Forall (λ b, 0 < b.2) N → Forall (λ c, bp + UNIT * bs ≤ c.1) N →
  let '(b, N') := upper bp bs N in
  b.1 = bp ∧ bs ≤ b.2 ∧ StronglySorted before (b :: N') ∧ Forall (λ b, 0 < b.2) (b :: N') ∧
  (∀ x, total (b :: N') x = cnt (bp, bs) x + total N x) ∧ N' `suffix_of` N ∧
  (b.2 = bs ∨ ∃ c, c ∈ N ∧ bp + UNIT * b.2 = c.1 + UNIT * c.2).
Proof.
  intros Hs Ho Hpos Hle. destruct N as [|[q qs] N]; simpl.
  { split_and!; try done; [repeat constructor; simpl; lia..|by left]. }
  apply Forall_cons_1 in Hpos as [Hq Hpos]. apply Forall_cons_1 in Hle as [Hbq Hle]. simpl in *.
  apply StronglySorted_inv in Ho as [Ho Hqn].
  destruct (Z.eqb_spec (bp + UNIT * bs) q) as [E|E]; simpl.
  - split_and!; [done|lia| |by constructor; [simpl; lia|]| |by apply suffix_cons_r|].
    + constructor; [done|]. eapply list.Forall_impl; [exact Hqn|]. unfold before, UNIT in *. simpl. intros ?. lia.
    + intros x. rewrite cnt_split by lia. rewrite E. lia.
    + right. exists (q, qs). split; [set_solver|simpl; lia].
  - split_and!; [done|lia| |by repeat constructor| |done|by left].
    + constructor; [by constructor|]. constructor; [unfold before; simpl; lia|].
      eapply list.Forall_impl; [exact Hqn|]. unfold before, UNIT in *. simpl. intros ?. lia.
    + done.
Qed.

Lemma lower_ok N1 p ps b N :
  StronglySorted before (N1 ++ (p, ps) :: N) → 0 ≤ ps → StronglySorted before (b :: N) → 0 < b.2 →
  p + UNIT * ps ≤ b.1 →
  StronglySorted before (N1 ++ lower p ps b ++ N) ∧
  (∀ x, total (N1 ++ lower p ps b ++ N) x = total (N1 ++ (p, ps) :: N) x + cnt b x).
Proof.
  intros Ho Hps Hb Hbs Hle. apply sorted_app in Ho as (H1&Hp&Hx). apply StronglySorted_inv in Hp as [HN Hp].
  pose proof Hb as [_ HbN]%StronglySorted_inv. rewrite list.Forall_forall in Hp, HbN.
  unfold lower. destruct b as [bp bs]; simpl in *. destruct (Z.eqb_spec (p + UNIT * ps) bp) as [E|E]; simpl.
  - split.
    + apply sorted_app. split_and!; [done| |].
      * constructor; [done|]. apply list.Forall_forall. intros c Hc. specialize (HbN c Hc). unfold before, UNIT in *. simpl in *. lia.
      * intros c d Hc [->|Hd]%elem_of_cons; [|apply Hx; set_solver]. specialize (Hx c (p, ps) Hc ltac:(set_solver)). done.
    + intros x. rewrite !total_app. simpl. rewrite cnt_split by lia. rewrite E. lia.
  - split.
    + apply sorted_app. split_and!; [done| |].
      * constructor; [done|]. constructor; [unfold before; simpl; lia|]. by apply list.Forall_forall.
      * intros c d Hc Hd. pose proof (Hx c (p, ps) Hc ltac:(set_solver)) as Hcp.
        apply elem_of_cons in Hd as [->|[->|Hd]%elem_of_cons]; [done| |apply Hx; set_solver].
        unfold before, UNIT in *. simpl in *. lia.
    + intros x. rewrite !total_app. simpl. lia.
Qed.

Lemma suffix_elem (N' N : list block) b : N' `suffix_of` N → b ∈ N' → b ∈ N.
Proof. intros [pre ->]. set_solver. Qed.

Lemma sorted_drop {B} (R : B → B → Prop) l N N' :
  StronglySorted R (l ++ N) → N' `suffix_of` N → StronglySorted R (l ++ N').
Proof.
  intros Ho [pre ->]. rewrite !sorted_app in *. destruct Ho as (H1&(_&H2&_)&Hx). split_and!; [done..|].
  intros b c Hb Hc. apply Hx; set_solver.
Qed.

Lemma chain_suffix m N N' e : chain m N e → N' `suffix_of` N → chain m N' e.
Proof. intros Hc [pre ->]. by apply chain_app in Hc as [_ ?]. Qed.

Lemma link_run s bp bs pb pad N1 p ps N2 :
  place (u_mem s) bp N1 p ps N2 → u_freep s ∈ (N1 ++ (p, ps) :: N2).*1 →
  (length (N1 ++ (p, ps) :: N2) ≤ size (u_mem s))%nat →
  u_mem s !! bp = Some (Header pb bs pad) → bp ∉ N1.*1 → 0 < bs →
  let '(b, N') := upper bp bs N2 in
  b.1 = bp → N' `suffix_of` N2 → 0 ≤ b.2 → 0 ≤ ps → ps + b.2 < 2 ^ 32 →
  ∃ v w, let m := <[p := w]> (<[bp := v]> (u_mem s)) in
    free (bp + UNIT) s = Ok tt (Heap m p (u_brk s)) ∧
    chain m (N1 ++ lower p ps b ++ N') base ∧ h_size v = b.2.
Proof.
  intros Hpl Hfp Hlen Hbp Hbn Hbs. pose proof Hpl as [Hc Hh Ho Hb Ha].
  destruct (upper bp bs N2) as [b N'] eqn:Hu. intros Hb1 Hsuf Hb2 Hps Hsz.
  pose proof (below_NoDup _ Ho) as Hnd. rewrite fmap_app in Hnd. simpl in Hnd.
  apply list.NoDup_app in Hnd as (_&HN1&[HpN2 _]%list.NoDup_cons).
  assert (p ∉ N1.*1) as HpN1 by (intros H; apply (HN1 p H); set_solver).
  assert (bp ∉ N2.*1) as HbN2.
  { intros (c&->&Hi)%list_elem_of_fmap. rewrite list.Forall_forall in Ha. specialize (Ha _ Hi). simpl in Ha. lia. }
  assert (∀ x, x ∉ N2.*1 → x ∉ N'.*1) as HN'.
  { intros x Hx (c&->&Hi)%list_elem_of_fmap. apply Hx. apply list_elem_of_fmap_2. by eapply suffix_elem. }
  apply chain_app in Hc as [HcN1 [[ppad Hp] HcN2]]. fold chain in HcN2.
  assert (bp + UNIT * bs ≠ base) by (unfold UNIT; lia).
  pose proof (free_upper_run s bp bs pb pad p ps ppad N2 base Hbp Hp HcN2) as Hup.
  rewrite Hu in Hup. simpl in Hup. specialize (Hup ltac:(lia) HbN2 HpN2 ltac:(done) ltac:(lia)).
  set (v := Header (head_addr N' base) b.2 pad) in *.
  exists v, (if p + UNIT * ps =? bp then Header (head_addr N' base) (ps + b.2) ppad else Header bp ps ppad).
  split_and!; [| |done].
  - unfold free. replace (bp + UNIT - UNIT) with bp by lia.
    change (gets u_freep s) with (@Ok heap Z (u_freep s) s). rewrite (bind_run _ _ s (u_freep s) s) by done.
    rewrite (bind_run _ _ s (size (u_mem s)) s) by done.
    rewrite (bind_run _ _ _ _ _ (free_find_run _ _ _ _ _ _ _ Hpl Hfp Hlen)).
    rewrite (bind_run _ _ _ _ _ Hup).
    erewrite bind_run; [|apply (free_lower_run _ bp (head_addr N' base) b.2 pad p (head_addr N2 base) ps ppad); simpl].
    + done.
    + by rewrite lookup_insert_eq.
    + rewrite lookup_insert_ne by lia. done.
    + lia.
    + lia.
  - assert (chain (u_mem s) N' base) as HcN' by by eapply chain_suffix.
    apply chain_app. split.
    + replace (head_addr (lower p ps b ++ N') base) with p by (unfold lower; by case_match).
      by repeat apply chain_insert.
    + unfold lower. rewrite Hb1. destruct (Z.eqb_spec (p + UNIT * ps) bp) as [E|E]; simpl.
      * split; [exists ppad; by rewrite lookup_insert_eq|]. repeat (apply chain_insert; [auto|]). done.
      * destruct b as [b1 b2]; simpl in *; subst b1. split; [exists ppad; by rewrite lookup_insert_eq|].
        split; [exists pad; rewrite lookup_insert_ne by lia; by rewrite lookup_insert_eq|].
        repeat (apply chain_insert; [auto|]). done.
Qed.

(** ** free *)

Definition kept (B : list block) (h h' : heap) : Prop :=
  ∀ b x, b ∈ B → cnt b x = 1 → u_mem h' !! x = u_mem h !! x.

Lemma owner_free (L A F : list block) b c A' :
  b ∈ L → A ≡ₚ c :: A' → ∃ R, L ++ A ++ F ≡ₚ b :: c :: R.
Proof.
  intros (l1&l2&->)%list_elem_of_split HA. exists (l1 ++ l2 ++ A' ++ F). rewrite HA. solve_Permutation.
Qed.

Lemma owner_rest (L A F : list block) b c A' :
  b ∈ A' ++ F → A ≡ₚ c :: A' → ∃ R, L ++ A ++ F ≡ₚ b :: c :: R.
Proof.
  intros (l1&l2&Hl)%list_elem_of_split HA. exists (L ++ l1 ++ l2). rewrite HA.
  transitivity (c :: L ++ A' ++ F); [solve_Permutation|]. rewrite Hl. solve_Permutation.
Qed.

Lemma owner_both (L A F : list block) b c :
  b ∈ L → c ∈ A ++ F → ∃ R, L ++ A ++ F ≡ₚ b :: c :: R.
Proof.
  intros (l1&l2&->)%list_elem_of_split (l3&l4&->)%list_elem_of_split. exists (l1 ++ l2 ++ l3 ++ l4). solve_Permutation.
Qed.

Lemma nodes_NoDup h L A F : heap_ok h L A F → NoDup (((base, 0) :: L).*1).
Proof.
  intros Hok. apply below_NoDup, order_below, Hok. constructor; [done|].
  eapply list.Forall_impl; [apply Hok|]. simpl. intros ?. lia.
Qed.

Lemma length_list h L A F :
  heap_ok h L A F → (S (length L) ≤ size (u_mem h))%nat.
Proof.
  intros Hok. change (S (length L)) with (length ((base, 0) :: L)). rewrite <- (length_fmap fst), <- size_dom.
  pose proof (nodes_NoDup _ _ _ _ Hok) as Hnd.
  rewrite <- (size_list_to_set (C := gset Z) _ Hnd). apply subseteq_size.
  intros x. rewrite elem_of_list_to_set, elem_of_dom. intros [->|Hx]%elem_of_cons; [apply (ok_base _ _ _ _ Hok)|].
  apply list_elem_of_fmap in Hx as ([a t]&->&Hi). pose proof (ok_free _ _ _ _ Hok) as Hf.
  rewrite list.Forall_forall in Hf. eapply unit_of; [done| |apply cnt_head, (Hf _ Hi)]. set_solver.
Qed.

Lemma free_place h L A F bp bs A' :
  heap_ok h L A F → u_freep h ≠ 0 → A ≡ₚ (bp, bs) :: A' →
  ∃ N1 p ps N2, (base, 0) :: L = N1 ++ (p, ps) :: N2 ∧ place (u_mem h) bp N1 p ps N2 ∧
    0 ≤ ps ∧ p + UNIT * ps ≤ bp ∧ Forall (λ c, bp + UNIT * bs ≤ c.1) N2 ∧ bp ∉ (N1 ++ (p, ps) :: N2).*1.
Proof.
  intros Hok Hfp HA.
  assert ((bp, bs) ∈ L ++ A ++ F) as Hin by (rewrite HA; set_solver).
  destruct (ok_used _ _ _ _ Hok bp bs ltac:(rewrite HA; set_solver)) as [Hbs (pb&pad&Hbp)].
  destruct (block_unit _ _ _ _ Hok _ Hin Hbs) as [[Hb1 Hb2] _]. simpl in *.
  pose proof (ok_free _ _ _ _ Hok) as Hf. rewrite list.Forall_forall in Hf.
  assert (bp ∉ L.*1) as HbL.
  { intros ([a t]&->&Hi)%list_elem_of_fmap. destruct (owner_free L A F _ _ _ Hi HA) as [R HR].
    apply (one_owner _ _ _ _ Hok _ _ _ a HR); apply cnt_head; [apply (Hf _ Hi)|done]. }
  assert (StronglySorted below ((base, 0) :: L)) as Ho.
  { apply order_below, Hok. constructor; [done|]. apply list.Forall_forall. intros c Hc. specialize (Hf c Hc). lia. }
  destruct (ok_list _ _ _ _ Hok) as [[? _]|[Hfr Hch]]; [done|].
  destruct (split_sorted (base, 0) L bp Ho Hb1 HbL) as (N1&[p ps]&N2&HN&Hp&Ha). simpl in Hp.
  exists N1, p, ps, N2. rewrite HN in *.
  assert (∀ c, c ∈ N1 ++ (p, ps) :: N2 → c = (base, 0) ∨ c ∈ L) as HL by (intros c Hc; rewrite <- HN in Hc; set_solver).
  assert (0 ≤ ps ∧ p + UNIT * ps ≤ bp) as [Hps Hend].
  { destruct (HL (p, ps) ltac:(set_solver)) as [[= -> ->]|Hi]; [unfold UNIT; lia|]. specialize (Hf _ Hi). simpl in Hf.
    destruct (owner_free L A F _ _ _ Hi HA) as [R HR].
    split; [lia|]. apply (blocks_apart _ _ _ _ Hok (p, ps) (bp, bs) R); [done..|simpl; lia]. }
  assert (head_addr (N1 ++ (p, ps) :: N2) base = base) as Hh by (rewrite <- HN; done).
  split_and!; [done|by split|done|done| |].
  - apply list.Forall_forall. intros [a t] Hc. rewrite list.Forall_forall in Ha. specialize (Ha _ Hc). simpl in *.
    destruct (HL (a, t) ltac:(set_solver)) as [[= -> ->]|Hi]; [lia|]. specialize (Hf _ Hi). simpl in Hf.
    destruct (owner_free L A F _ _ _ Hi HA) as [R HR].
    apply (blocks_apart _ _ _ _ Hok (bp, bs) (a, t) R); [by rewrite HR, Permutation_swap|done..].
  - rewrite <- HN. simpl. rewrite not_elem_of_cons. split; [lia|done].
Qed.

Lemma free_rest L N1 p ps N2 :
  (base, 0) :: L = N1 ++ (p, ps) :: N2 → Forall (λ b, 0 < b.2) L → Forall (λ b, 0 < b.2) N2.
Proof.
  intros HN Hf. destruct N1 as [|c N1]; injection HN as; subst; [done|].
  apply Forall_app in Hf as [_ Hf]. by apply Forall_cons_1 in Hf as [_ ?].
Qed.

Lemma free_list L N1 p ps N2 b N' :
  (base, 0) :: L = N1 ++ (p, ps) :: N2 → Forall (λ b, 0 < b.2) L → Forall (λ b, 0 < b.2) (b :: N') →
  base < b.1 → 0 ≤ ps → (length N' ≤ length N2)%nat →
  ∃ L', N1 ++ lower p ps b ++ N' = (base, 0) :: L' ∧ Forall (λ b, 0 < b.2) L' ∧
    (length L' ≤ S (length L))%nat ∧ ∃ c, c ∈ L' ∧ c.1 ≤ b.1 ∧ b.1 + UNIT * b.2 ≤ c.1 + UNIT * c.2.
Proof.
  intros HN Hf [Hb HN']%Forall_cons_1 Hlt Hps Hlen. destruct N1 as [|c N1]; injection HN as; subst.
  - unfold lower. rewrite (proj2 (Z.eqb_neq _ _)) by (unfold UNIT; lia).
    exists (b :: N'). split; [done|]. split; [by constructor|]. split; [simpl; lia|]. exists b. split; [set_solver|done].
  - apply Forall_app in Hf as [Hf1 [Hp Hf2]%Forall_cons_1]. simpl in Hp.
    exists (N1 ++ lower p ps b ++ N'). split; [done|]. unfold lower. destruct (Z.eqb_spec (p + UNIT * ps) b.1) as [E|E]; simpl.
    + split; [apply Forall_app; split; [done|]; constructor; [simpl; lia|done]|].
      split; [rewrite !length_app; simpl; lia|]. eexists. split; [apply elem_of_app; right; apply list_elem_of_here|]. unfold UNIT in *. simpl. lia.
    + split; [apply Forall_app; split; [done|]; by repeat constructor|].
      split; [rewrite !length_app; simpl; lia|]. exists b. split; [set_solver|done].
Qed.

Lemma free_elem L N1 p ps N2 c :
  (base, 0) :: L = N1 ++ (p, ps) :: N2 → c ∈ N2 → c ∈ L.
Proof. intros HN Hc. destruct N1 as [|d N1]; injection HN as; subst; set_solver. Qed.

(** No block in use contains the header of a free block. *)
Lemma free_head_owner h L A F p d :
  heap_ok h L A F → p ∈ base :: L.*1 → d ∈ A ++ F → cnt d p ≠ 1.
Proof.
  intros Hok Hp Hd Hx. apply elem_of_cons in Hp as [->|Hp].
  - destruct (unit_of _ _ _ _ Hok d base) as [? _]; [set_solver|done..].
  - apply list_elem_of_fmap in Hp as ([a t]&->&Hi). destruct (owner_both L A F _ _ Hi Hd) as [R HR].
    apply (one_owner _ _ _ _ Hok _ _ _ a HR); [|done]. apply cnt_head.
    pose proof (ok_free _ _ _ _ Hok) as Hf. rewrite list.Forall_forall in Hf. by apply (Hf _ Hi).
Qed.

Lemma heap_update h L A F m fp L' A' :
  heap_ok h L A F → (∀ x, is_Some (m !! x) ↔ is_Some (u_mem h !! x)) →
  fp ∈ base :: L'.*1 → chain m ((base, 0) :: L') base → StronglySorted before ((base, 0) :: L') →
  Forall (λ b, 0 < b.2) L' → (∀ x, total (L' ++ A' ++ F) x = total (L ++ A ++ F) x) →
  (∀ a s, (a, s) ∈ A' → 0 < s ∧ ∃ p pad, m !! a = Some (Header p s pad)) →
  heap_ok (Heap m fp (u_brk h)) L' A' F.
Proof.
  intros Hok Hm Hfp Hc Ho Hf Ht Hu. split; simpl; try done.
  - by right.
  - intros x. rewrite Ht, (ok_units _ _ _ _ Hok).
    by rewrite (decide_ext _ _ _ _ (and_iff_compat_l _ (and_iff_compat_l _ (Hm x)))).
  - intros x. rewrite Hm. apply Hok.
  - intros x. rewrite Hm. apply Hok.
  - rewrite Hm. apply Hok.
  - apply Hok.
Qed.

Lemma free_ok h L A F bp bs A' :
  heap_ok h L A F → u_freep h ≠ 0 → A ≡ₚ (bp, bs) :: A' →
  ∃ h' L', free (bp + UNIT) h = Ok tt h' ∧ heap_ok h' L' A' F ∧ u_freep h' ≠ 0 ∧ u_brk h' = u_brk h ∧
    (length L' ≤ S (length L))%nat ∧ (∃ b, b ∈ L' ∧ b.1 ≤ bp ∧ bp + UNIT * bs ≤ b.1 + UNIT * b.2) ∧ kept (A' ++ F) h h'.
Proof.
  intros Hok Hfp HA.
  destruct (free_place _ _ _ _ _ _ _ Hok Hfp HA) as (N1&p&ps&N2&HN&Hpl&Hps&Hle&Hge&HbN).
  assert ((bp, bs) ∈ L ++ A ++ F) as Hin by (rewrite HA; set_solver).
  destruct (ok_used _ _ _ _ Hok bp bs ltac:(rewrite HA; set_solver)) as [Hbs (pb&pad&Hbp)].
  pose proof (ok_order _ _ _ _ Hok) as Ho. rewrite HN in Ho.
  pose proof Ho as (_&[HoN2 _]%StronglySorted_inv&_)%sorted_app.
  pose proof (free_rest _ _ _ _ _ HN (ok_free _ _ _ _ Hok)) as HposN2.
  pose proof (upper_ok bp bs N2 Hbs HoN2 HposN2 Hge) as Hup.
  pose proof (length_list _ _ _ _ Hok) as Hlen.
  change (S (length L)) with (length ((base, 0) :: L)) in Hlen. rewrite HN in Hlen.
  pose proof (link_run h bp bs pb pad N1 p ps N2 Hpl) as Hlink.
  destruct (upper bp bs N2) as [b N']. destruct Hup as (Hb1&Hb2&Hbo&Hbpos&Hbt&Hsuf&Hbe).
  apply Forall_cons_1 in Hbpos as [Hbp' HposN'].
  assert (p ∈ base :: L.*1) as HpL.
  { change (base :: L.*1) with (((base, 0) :: L).*1). rewrite HN, fmap_app. set_solver. }
  assert (bp + UNIT * b.2 ≤ u_brk h) as Hend.
  { destruct Hbe as [->|(c&Hc&->)]; [by apply (block_end _ _ _ _ Hok (bp, bs))|].
    rewrite list.Forall_forall in HposN2. apply (block_end _ _ _ _ Hok c); [|by apply HposN2].
    apply elem_of_app. left. eapply free_elem; [exact HN|done]. }
  pose proof (pl_before _ _ _ _ _ _ Hpl) as Hpb. pose proof (ok_base _ _ _ _ Hok) as [Hb0 _].
  pose proof (ok_brk _ _ _ _ Hok) as [_ Hbrk]. unfold PHYSTOP in Hbrk.
  destruct Hlink as (v&w&Hrun&Hch&Hv); try done; try (unfold UNIT in *; lia).
  { destruct (ok_list _ _ _ _ Hok) as [[? _]|[Hfr _]]; [done|]. by rewrite <- HN. }
  { intros H. apply HbN. rewrite fmap_app. set_solver. }
  destruct (free_list L N1 p ps N2 b N' HN (ok_free _ _ _ _ Hok)) as (L'&HL'&Hpos'&Hlen'&c&Hc&Hcs);
    [by constructor|lia|done|by apply suffix_length|].
  destruct (lower_ok N1 p ps b N') as [Ho' Ht]; [|done..|lia|].
  { rewrite cons_middle, app_assoc in Ho |- *. by eapply sorted_drop. }
  assert (∀ d x, d ∈ A' ++ F → cnt d x = 1 → x ≠ p ∧ x ≠ bp) as Hsep.
  { intros d x Hd Hx. split; intros ->.
    - eapply (free_head_owner h L A F); [done|exact HpL| |exact Hx]. rewrite HA. set_solver.
    - destruct (owner_rest L A F _ _ _ Hd HA) as [R HR]. by apply (one_owner _ _ _ _ Hok _ _ _ bp HR), cnt_head. }
  rewrite HL' in Hch, Ho', Ht. eexists _, L'. split; [exact Hrun|]. split_and!; simpl; [|lia|done|done|exists c; split; [done|unfold UNIT in *; lia]|].
  - apply heap_update with L A; [done| | |done|done|done| |].
    + intros x. rewrite !lookup_insert_is_Some'. split; [|tauto].
      intros [<-|[<-|?]]; [|by rewrite Hbp|done].
      destruct Hpl as [Hch' _ _ _ _]. apply chain_app in Hch' as [_ [[ppad Hp] _]]. by rewrite Hp.
    + change (base :: L'.*1) with (((base, 0) :: L').*1). rewrite <- HL', !fmap_app. unfold lower.
      case_match; set_solver.
    + intros x. specialize (Ht x). specialize (Hbt x). rewrite !total_app, (total_perm _ _ _ HA).
      apply (f_equal (λ l, total l x)) in HN. rewrite total_app in *. simpl in *. lia.
    + intros a t Ha. destruct (ok_used _ _ _ _ Hok a t) as [Ht' (q&pd&Hq)]; [rewrite HA; set_solver|].
      split; [done|]. exists q, pd. destruct (Hsep (a, t) a) as [??]; [set_solver|by apply cnt_head|].
      by rewrite !lookup_insert_ne.
  - intros d x Hd Hx. destruct (Hsep d x Hd Hx). simpl. by rewrite !lookup_insert_ne.
Qed.

(** free merges.  free of a block in use returns; the block is inside a free block,
    the free list is again ordered by address with no two blocks that touch, so that the
    block was merged with the free neighbours on both sides, and no
    unit of the other blocks in use changes. *)
Theorem free_merges h L A F r n A' :
  heap_ok h L A F → u_freep h ≠ 0 → A ≡ₚ (r - UNIT, n) :: A' →
  ∃ h' L', free r h = Ok tt h' ∧ heap_ok h' L' A' F ∧
    (∃ b, b ∈ L' ∧ b.1 ≤ r - UNIT ∧ r - UNIT + UNIT * n ≤ b.1 + UNIT * b.2) ∧ kept (A' ++ F) h h'.
Proof.
  intros Hok Hf HA. destruct (free_ok h L A F (r - UNIT) n A' Hok Hf HA) as (h'&L'&Hrun&Hok'&_&_&_&Hb&Hk).
  replace (r - UNIT + UNIT) with r in Hrun by lia. by exists h', L'.
Qed.

(** ** Growing and shrinking the memory *)

Lemma pgup_spec b : 0 ≤ b ≤ 2 ^ 63 + 2 ^ 40 → b ≤ PGROUNDUP b < b + PGSIZE ∧ PGROUNDUP b mod PGSIZE = 0 ∧ PGROUNDUP b mod UNIT = 0.
Proof.
  intros Hb. rewrite PGROUNDUP_spec by (unfold PHYSTOP, PGSIZE in *; lia).
  pose proof (Z.div_mod (b + PGSIZE - 1) PGSIZE ltac:(done)). pose proof (Z.mod_pos_bound (b + PGSIZE - 1) PGSIZE ltac:(done)).
  split; [unfold PGSIZE in *; lia|]. split; [by apply Z_mod_mult|].
  change PGSIZE with (256 * UNIT) at 3. rewrite Z.mul_assoc. by apply Z_mod_mult.
Qed.

Lemma pgup_mono a b : 0 ≤ a ≤ b → b ≤ 2 ^ 63 + 2 ^ 40 → PGROUNDUP a ≤ PGROUNDUP b.
Proof.
  intros Ha Hb. rewrite !PGROUNDUP_spec by (unfold PHYSTOP, PGSIZE in *; lia).
  apply Z.mul_le_mono_nonneg_r; [done|]. apply Z.div_le_mono; [done|]. lia.
Qed.

Lemma zero_units_lookup a n x :
  is_Some (zero_units a n !! x) ↔ cnt (a, Z.of_nat n) x = 1.
Proof.
  rewrite <- elem_of_dom. unfold zero_units. rewrite dom_list_to_map_L, elem_of_list_to_set, <- list_fmap_compose.
  unfold cnt, UNIT. simpl. rewrite list_elem_of_fmap. split.
  - intros (i&->&Hi%elem_of_seq). simpl. replace (a + 16 * Z.of_nat i - a) with (Z.of_nat i * 16) by lia.
    rewrite Z_mod_mult, decide_True; [done|]. lia.
  - case_decide as H; [intros _|done]. destruct H as [Hr Hm]. apply Z.mod_divide in Hm as [k Hk]; [|lia].
    exists (Z.to_nat k). rewrite elem_of_seq. simpl. split; lia.
Qed.

Lemma map_pages_lookup b n h x :
  0 ≤ b ≤ n → n ≤ 2 ^ 63 + 2 ^ 40 →
  u_mem (map_pages b n h) !! x =
    if decide (PGROUNDUP b ≤ x < PGROUNDUP n ∧ x mod UNIT = 0) then Some (Header 0 0 0) else u_mem h !! x.
Proof.
  intros Hb Hn. unfold map_pages. simpl. rewrite lookup_union.
  set (k := Z.to_nat _). pose proof (zero_units_lookup (PGROUNDUP b) k x) as Hz.
  destruct (pgup_spec b) as (_&Hb1&Hb2); [lia|]. destruct (pgup_spec n) as (_&Hn1&_); [lia|].
  pose proof (pgup_mono b n Hb Hn) as Hm.
  assert (UNIT * Z.of_nat k = PGROUNDUP n - PGROUNDUP b) as Hk.
  { unfold k, new_pages. change (PGSIZE / UNIT) with 256. pose proof (Z.div_pos (PGROUNDUP n - PGROUNDUP b) PGSIZE ltac:(lia) ltac:(done)).
    rewrite Z2Nat.id by lia. assert ((PGROUNDUP n - PGROUNDUP b) mod PGSIZE = 0) as E by (rewrite Zminus_mod, Hn1, Hb1; done).
    apply Z.div_exact in E; [|done]. rewrite E at 2. unfold UNIT, PGSIZE. lia. }
  assert (cnt (PGROUNDUP b, Z.of_nat k) x = 1 ↔ PGROUNDUP b ≤ x < PGROUNDUP n ∧ x mod UNIT = 0) as Hc.
  { unfold cnt. simpl. rewrite Hk. rewrite (Zminus_mod x), Hb2, Z.sub_0_r, Zmod_mod.
    replace (PGROUNDUP b + (PGROUNDUP n - PGROUNDUP b)) with (PGROUNDUP n) by lia. case_decide; split; (done || lia). }
  rewrite Hc in Hz. destruct (zero_units _ _ !! x) as [v|] eqn:E.
  - rewrite decide_True by (by apply Hz). unfold zero_units in E. apply elem_of_list_to_map_2, list_elem_of_fmap in E as (i&[= _ <-]&_).
    by destruct (u_mem h !! x).
  - rewrite decide_False by (intros H; apply Hz in H; by destruct H). by destruct (u_mem h !! x).
Qed.

Lemma chain_mono m m' l e :
  (∀ x, x ∈ l.*1 → is_Some (m !! x) → m' !! x = m !! x) → chain m l e → chain m' l e.
Proof.
  induction l as [|[a s] l IH]; simpl; [done|]. intros Hm [[pad Ha] Hl]. split.
  - exists pad. rewrite Hm; [done|set_solver|]. by rewrite Ha.
  - apply IH; [|done]. intros x Hx. apply Hm. set_solver.
Qed.

(** The memory after sbrk of a number of units. *)
Definition grow (k : Z) (h : heap) : heap := set_u_brk (u_brk h + UNIT * k) (map_pages (u_brk h) (u_brk h + UNIT * k) h).
Definition shrink (k : Z) (h : heap) : heap := set_u_brk (u_brk h - UNIT * k) (unmap_pages (u_brk h - UNIT * k) h).

Lemma grow_ok h L A F k :
  heap_ok h L A F → 0 < k → u_brk h + UNIT * k ≤ PHYSTOP →
  heap_ok (grow k h) L A ((u_brk h, k) :: F) ∧ kept (A ++ F) h (grow k h).
Proof.
  intros Hok Hk Hle. unfold PHYSTOP in Hle. pose proof (ok_base _ _ _ _ Hok) as [Hb0 Hbm]. destruct (ok_brk _ _ _ _ Hok) as [Hbu _].
  set (h' := grow k h). assert (0 < UNIT * k) as Hk' by (unfold UNIT; lia).
  pose proof (λ x, map_pages_lookup (u_brk h) (u_brk h + UNIT * k) h x ltac:(lia) ltac:(lia)) as Hl.
  change (u_mem (map_pages (u_brk h) (u_brk h + UNIT * k) h)) with (u_mem h') in Hl.
  destruct (pgup_spec (u_brk h)) as (Hp1&_&_); [lia|]. destruct (pgup_spec (u_brk h + UNIT * k)) as (Hp2&_&_); [lia|].
  assert (∀ x, cnt (u_brk h, k) x = 1 ↔ u_brk h ≤ x < u_brk h + UNIT * k ∧ x mod UNIT = 0) as Hc.
  { intros x. unfold cnt. simpl. rewrite Zminus_mod, Hbu, Z.sub_0_r, Zmod_mod. case_decide; split; (done || tauto). }
  assert (∀ x, is_Some (u_mem h !! x) → u_mem h' !! x = u_mem h !! x) as Hold.
  { intros x Hx. rewrite Hl, decide_False; [done|]. apply (ok_mem _ _ _ _ Hok) in Hx. lia. }
  assert (∀ x, is_Some (u_mem h' !! x) → base ≤ x < PGROUNDUP (u_brk h') ∧ x mod UNIT = 0 ∧ (x < u_brk h → is_Some (u_mem h !! x))) as Hnew.
  { intros x Hx. rewrite Hl in Hx. pose proof (pgup_mono (u_brk h) (u_brk h + UNIT * k) ltac:(lia) ltac:(lia)) as Hm. simpl. case_decide as E.
    - split; [lia|]. split; [tauto|lia].
    - pose proof (ok_mem _ _ _ _ Hok x Hx). split; [lia|]. split; [tauto|done]. }
  assert (∀ x, u_brk h ≤ x < PGROUNDUP (u_brk h + UNIT * k) → x mod UNIT = 0 → is_Some (u_mem h' !! x)) as Htop.
  { intros x Hx Hm. rewrite Hl. case_decide; [done|]. apply (ok_top _ _ _ _ Hok); [lia|done]. }
  assert (heap_ok h' L A ((u_brk h, k) :: F)) as Hok'; [split|split; [done|]].
  - destruct (ok_list _ _ _ _ Hok) as [?|[? Hch]]; [by left|right]. split; [done|]. eapply chain_mono; [|done]. auto.
  - apply Hok.
  - apply Hok.
  - intros a s Ha. destruct (ok_used _ _ _ _ Hok a s Ha) as [Hs (p&pad&Hp)]. split; [done|].
    exists p, pad. rewrite Hold; [done|]. by rewrite Hp.
  - intros x. rewrite (total_perm _ ((u_brk h, k) :: L ++ A ++ F)) by solve_Permutation. cbn [total foldr].
    fold (total (L ++ A ++ F) x). rewrite (ok_units _ _ _ _ Hok). pose proof (cnt_range (u_brk h, k) x).
    change (u_brk h') with (u_brk h + UNIT * k). destruct (decide (cnt (u_brk h, k) x = 1)) as [E|E].
    + rewrite E. apply Hc in E. rewrite decide_False, decide_True; [done|split_and!; [lia|lia|apply Htop; [lia|tauto]]|lia].
    + assert (x < u_brk h ∧ is_Some (u_mem h !! x) ↔ x < u_brk h + UNIT * k ∧ is_Some (u_mem h' !! x)) as Hiff.
      { split; [intros [? Hx]; rewrite Hold by done; split; [lia|done]|]. intros [Hx Hs]. destruct (Hnew x Hs) as (_&Hm&Hs').
        destruct (Z.lt_ge_cases x (u_brk h)); [auto|]. destruct E. apply Hc. lia. }
      rewrite (decide_ext _ _ _ _ (and_iff_compat_l (x ≠ base) Hiff)). case_decide; lia.
  - intros x Hx. by destruct (Hnew x Hx) as (?&?&_).
  - intros x Hx Hm. apply Htop; [simpl in Hx; lia|done].
  - simpl. split; [lia|]. by rewrite Hold.
  - simpl. split; [|exact Hle]. unfold UNIT in *. rewrite (Z.mul_comm 16), Z_mod_plus_full. done.
  - intros b x Hb Hx. apply Hold. eapply unit_of; [exact Hok| |exact Hx]. set_solver.
Qed.

Lemma write_ok h L A F x v :
  heap_ok h L A F → is_Some (u_mem h !! x) → x ∉ base :: L.*1 → (∀ s, (x, s) ∈ A → h_size v = s) →
  heap_ok (set_u_mem (<[x := v]> (u_mem h)) h) L A F.
Proof.
  intros Hok Hx Hn Hs. rewrite not_elem_of_cons in Hn. destruct Hn as [Hb Hn].
  assert (∀ y, is_Some (<[x := v]> (u_mem h) !! y) ↔ is_Some (u_mem h !! y)) as Hm.
  { intros y. rewrite lookup_insert_is_Some'. split; [|tauto]. by intros [<-|?]. }
  split; simpl; try apply Hok.
  - destruct (ok_list _ _ _ _ Hok) as [?|[? Hc]]; [by left|right]. split; [done|].
    apply (chain_insert _ ((base, 0) :: L)); [|done]. simpl. by rewrite not_elem_of_cons.
  - intros a s Ha. destruct (ok_used _ _ _ _ Hok a s Ha) as [Hs' (p&pad&Hp)]. split; [done|].
    destruct (decide (a = x)) as [->|Hne]; [|exists p, pad; by rewrite lookup_insert_ne].
    rewrite lookup_insert_eq, <- (Hs s Ha). destruct v. by eexists _, _.
  - intros y. rewrite (ok_units _ _ _ _ Hok).
    by rewrite (decide_ext _ _ _ _ (and_iff_compat_l _ (and_iff_compat_l _ (Hm y)))).
  - intros y. rewrite Hm. apply Hok.
  - intros y. rewrite Hm. apply Hok.
  - rewrite Hm. apply Hok.
Qed.

Lemma move_ok h L A F a s p pad :
  heap_ok h L A ((a, s) :: F) → 0 < s → u_mem h !! a = Some (Header p s pad) → heap_ok h L ((a, s) :: A) F.
Proof.
  intros Hok Hs Ha. split; try apply Hok.
  - intros b t [[= -> ->]|Hi]%elem_of_cons; [split; [done|by exists p, pad]|by apply Hok].
  - intros x. rewrite <- (ok_units _ _ _ _ Hok). apply total_perm. solve_Permutation.
Qed.

(** The pages of the process and those that are left are pages of the machine. *)
Definition fits (av : Z) (h : heap) : Prop := PGROUNDUP (u_brk h) + av * PGSIZE ≤ PHYSTOP.

(** sbrk of [k] units succeeds when there are pages enough, and stops the machine otherwise. *)
Lemma sbrk_units h L A F k :
  heap_ok h L A F → 0 < k → k * UNIT < 2 ^ 63 →
  sbrk (k * UNIT) h =
    if decide (avail < new_pages (u_brk h) (u_brk h + UNIT * k)) then Fail (Panic "Out of memory!")
    else Ok (u_brk h) (grow k h).
Proof.
  intros Hok Hk Hk'. pose proof (ok_base _ _ _ _ Hok) as [Hb _]. pose proof (ok_brk _ _ _ _ Hok) as [_ Hbig].
  unfold UNIT, PHYSTOP in *.
  assert (uallocuvm (u_brk h) (u_brk h + 16 * k) h =
    if decide (avail < new_pages (u_brk h) (u_brk h + 16 * k)) then Fail (Panic "Out of memory!")
    else Ok (u_brk h + 16 * k) (map_pages (u_brk h) (u_brk h + 16 * k) h)) as Ha.
  { unfold uallocuvm. rewrite (proj2 (Z.leb_gt KERNBASE _)) by (unfold KERNBASE; lia). rewrite (proj2 (Z.ltb_ge _ _)) by lia.
    destruct (Z.ltb_spec avail (new_pages (u_brk h) (u_brk h + 16 * k))); [by rewrite decide_True|by rewrite decide_False by lia]. }
  assert (ugrowproc (k * 16) h =
    if decide (avail < new_pages (u_brk h) (u_brk h + 16 * k)) then Fail (Panic "Out of memory!") else Ok 0 (grow k h)) as Hg.
  { unfold ugrowproc. rewrite (bind_run _ _ h (u_brk h) h) by done.
    rewrite (proj2 (Z.ltb_lt _ _)) by lia. rewrite wrap_small by lia. rewrite (Z.mul_comm k 16). case_decide.
    - unfold mbind, M_bind. by rewrite Ha.
    - rewrite (bind_run _ _ _ _ _ Ha). by rewrite (proj2 (Z.eqb_neq (u_brk h + 16 * k) 0)), andb_false_r by lia. }
  unfold sbrk. rewrite (bind_run _ _ h (u_brk h) h) by done. case_decide.
  - unfold mbind, M_bind. by rewrite Hg.
  - by rewrite (bind_run _ _ _ _ _ Hg).
Qed.

(** The units that a program gives back are no longer its own. *)
Lemma shrink_below h L A F a n k c x :
  heap_ok h L A ((a, n) :: F) → a + UNIT * n = u_brk h → 0 < k ≤ n →
  c ∈ L ++ A ++ (a, n - k) :: F → cnt c x = 1 → x < u_brk h - UNIT * k ∧ is_Some (u_mem h !! x).
Proof.
  intros Hok He Hk Hc Hx. assert (L ++ A ++ (a, n) :: F ≡ₚ (a, n) :: L ++ A ++ F) as Hp by solve_Permutation.
  assert (c = (a, n - k) ∨ c ∈ L ++ A ++ F) as [->|Hc'] by set_solver.
  - assert (cnt (a, n) x = 1) as Hx'.
    { replace n with ((n - k) + k) by lia. rewrite cnt_split by lia. pose proof (cnt_range (a + UNIT * (n - k), k) x).
      pose proof (cnt_range (a, n - k + k) x). rewrite cnt_split in * by lia. lia. }
    destruct (unit_of _ _ _ _ Hok (a, n) x) as (_&_&Hm); [rewrite Hp; set_solver|done|]. split; [|done].
    unfold cnt in Hx. case_decide as H; [|done]. simpl in H. unfold UNIT in *. lia.
  - apply list_elem_of_split in Hc' as (l1&l2&Hl).
    assert (L ++ A ++ (a, n) :: F ≡ₚ (a, n) :: c :: l1 ++ l2) as Hp' by (rewrite Hp, Hl; solve_Permutation).
    destruct (unit_of _ _ _ _ Hok c x) as (_&Hlt&Hm); [rewrite Hp'; set_solver|done|]. split; [|done].
    destruct (Z.lt_ge_cases x (u_brk h - UNIT * k)) as [|Hge]; [done|]. exfalso.
    apply (one_owner _ _ _ _ Hok _ _ _ x Hp'); [|done].
    destruct (block_unit _ _ _ _ Hok (a, n)) as [_ Ha]; [rewrite Hp; set_solver|simpl; lia|].
    destruct (ok_mem _ _ _ _ Hok x Hm) as [_ Hu]. simpl in Ha.
    unfold cnt. simpl. rewrite decide_True; [done|]. split; [unfold UNIT in *; lia|]. rewrite Zminus_mod, Hu, Ha. done.
Qed.

Lemma shrink_ok h L A F a n k :
  heap_ok h L A ((a, n) :: F) → a + UNIT * n = u_brk h → 0 < k ≤ n →
  heap_ok (shrink k h) L A ((a, n - k) :: F) ∧ kept (L ++ A ++ (a, n - k) :: F) h (shrink k h).
Proof.
  intros Hok He Hk. set (h' := shrink k h). set (nb := u_brk h - UNIT * k).
  assert (L ++ A ++ (a, n) :: F ≡ₚ (a, n) :: L ++ A ++ F) as Hp by solve_Permutation.
  destruct (block_unit _ _ _ _ Hok (a, n)) as [Hba Ha]; [rewrite Hp; set_solver|simpl; lia|]. simpl in Hba, Ha.
  pose proof (ok_base _ _ _ _ Hok) as [Hb0 Hbm]. pose proof (ok_brk _ _ _ _ Hok) as [Hbu Hbrk]. unfold PHYSTOP in Hbrk.
  assert (a ≤ nb < u_brk h) as Hnb by (unfold nb, UNIT in *; lia).
  assert (nb mod UNIT = 0) as Hnu.
  { unfold nb. rewrite Zminus_mod, Hbu, Z.mul_comm, Z_mod_mult. done. }
  destruct (pgup_spec nb) as (Hpn&_&_); [lia|]. pose proof (pgup_mono nb (u_brk h) ltac:(lia) ltac:(lia)) as Hpm.
  assert (∀ x, x < PGROUNDUP nb → u_mem h' !! x = u_mem h !! x) as Hin.
  { intros x Hx. unfold h', shrink, unmap_pages. simpl. rewrite map_lookup_filter. fold nb.
    destruct (u_mem h !! x); simpl; [|done]. by rewrite option_guard_True. }
  assert (∀ x, is_Some (u_mem h' !! x) → x < PGROUNDUP nb ∧ is_Some (u_mem h !! x)) as Hsub.
  { intros x [v Hv]. apply map_lookup_filter_Some in Hv as [Hv Hx]. split; [exact Hx|by rewrite Hv]. }
  assert (∀ c x, c ∈ L ++ A ++ (a, n - k) :: F → cnt c x = 1 → u_mem h' !! x = u_mem h !! x) as Hkept.
  { intros c x Hc Hx. destruct (shrink_below _ _ _ _ _ _ _ _ _ Hok He Hk Hc Hx) as [Hlt _]. apply Hin. unfold nb in *. lia. }
  assert (∀ x, x mod UNIT = 0 → nb ≤ x < u_brk h → cnt (nb, k) x = 1) as Hgone.
  { intros x Hx Hr. unfold cnt. simpl. rewrite decide_True; [done|]. rewrite Zminus_mod, Hx, Hnu. unfold nb in *. split; [lia|done]. }
  split; [split|intros c x; apply Hkept].
  - destruct (ok_list _ _ _ _ Hok) as [?|[? Hch]]; [by left|right]. split; [done|]. eapply chain_mono; [|done].
    intros x [->|(b&->&Hb)%list_elem_of_fmap]%elem_of_cons _; [apply Hin; simpl; lia|].
    pose proof (ok_free _ _ _ _ Hok) as Hf. rewrite list.Forall_forall in Hf. apply (Hkept b); [set_solver|].
    destruct b. by apply cnt_head, (Hf _ Hb).
  - apply Hok.
  - apply Hok.
  - intros b s Hb. destruct (ok_used _ _ _ _ Hok b s Hb) as [Hs (p&pad&Hb')]. split; [done|]. exists p, pad.
    rewrite (Hkept (b, s)); [done|set_solver|by apply cnt_head].
  - intros x. pose proof (ok_units _ _ _ _ Hok x) as Ht. rewrite (total_perm _ _ _ Hp) in Ht.
    rewrite (total_perm _ ((a, n - k) :: L ++ A ++ F)) by solve_Permutation. cbn [total foldr] in Ht |- *.
    fold (total (L ++ A ++ F) x) in Ht |- *. replace n with ((n - k) + k) in Ht by lia. rewrite cnt_split in Ht by lia.
    replace (a + UNIT * (n - k)) with nb in Ht by (unfold nb, UNIT in *; lia).
    pose proof (cnt_range (a, n - k) x). pose proof (cnt_range (nb, k) x). pose proof (units_nonneg (L ++ A ++ F) x).
    change (u_brk h') with nb. destruct (decide (cnt (nb, k) x = 1)) as [E|E].
    + rewrite (decide_False (P := x ≠ base ∧ x < nb ∧ _)); [case_decide; lia|].
      unfold cnt in E. case_decide as H3; [simpl in H3; lia|done].
    + assert (x < u_brk h ∧ is_Some (u_mem h !! x) ↔ x < nb ∧ is_Some (u_mem h' !! x)) as Hiff.
      { split; intros [Hx Hs].
        - destruct (Z.lt_ge_cases x nb); [by rewrite Hin by lia|]. destruct E. apply Hgone; [by apply (ok_mem _ _ _ _ Hok)|lia].
        - split; [lia|by apply Hsub]. }
      rewrite <- (decide_ext _ _ _ _ (and_iff_compat_l (x ≠ base) Hiff)). lia.
  - intros x Hx. destruct (Hsub x Hx) as [Hlt Hs]. destruct (ok_mem _ _ _ _ Hok x Hs). change (u_brk h') with nb. split; [lia|done].
  - change (u_brk h') with nb. intros x Hx Hm. rewrite Hin by lia. destruct (Z.lt_ge_cases x (u_brk h)) as [Hlt|Hge].
    + apply (unit_of _ _ _ _ Hok (a, n)); [rewrite Hp; set_solver|]. unfold cnt. simpl. rewrite decide_True; [done|].
      rewrite Zminus_mod, Hm, Ha. split; [unfold nb in *; lia|done].
    + apply (ok_top _ _ _ _ Hok); [lia|done].
  - change (u_brk h') with nb. split; [lia|]. by rewrite Hin by lia.
  - change (u_brk h') with nb. split; [done|unfold PHYSTOP; lia].
Qed.

Lemma sbrk_back h L A F a n k :
  heap_ok h L A ((a, n) :: F) → a + UNIT * n = u_brk h → 0 < k ≤ n →
  sbrk (- (k * UNIT)) h = Ok (u_brk h) (shrink k h).
Proof.
  intros Hok He Hk. assert (L ++ A ++ (a, n) :: F ≡ₚ (a, n) :: L ++ A ++ F) as Hp by solve_Permutation.
  destruct (block_unit _ _ _ _ Hok (a, n)) as [Hba _]; [rewrite Hp; set_solver|simpl; lia|]. simpl in Hba.
  pose proof (ok_base _ _ _ _ Hok) as [Hb0 _]. pose proof (ok_brk _ _ _ _ Hok) as [_ Hbrk]. unfold UNIT, PHYSTOP in *.
  assert (ugrowproc (- (k * 16)) h = Ok 0 (shrink k h)) as Hg.
  { unfold ugrowproc. rewrite (bind_run _ _ h (u_brk h) h) by done.
    rewrite (proj2 (Z.ltb_ge 0 _)), (proj2 (Z.ltb_lt _ 0)), wrap_small by lia.
    replace (u_brk h + - (k * 16)) with (u_brk h - 16 * k) by lia.
    rewrite (bind_run _ _ h (u_brk h - 16 * k) (unmap_pages (u_brk h - 16 * k) h)).
    - by rewrite (proj2 (Z.eqb_neq (u_brk h - 16 * k) 0)), andb_false_r by lia.
    - unfold udeallocuvm. by rewrite (proj2 (Z.leb_gt _ _)) by lia. }
  unfold sbrk. rewrite (bind_run _ _ h (u_brk h) h) by done. by rewrite (bind_run _ _ _ _ _ Hg).
Qed.

Lemma new_pages_fit h L A F k :
  heap_ok h L A F → fits avail h → 0 < k → k * UNIT < 2 ^ 63 → new_pages (u_brk h) (u_brk h + UNIT * k) ≤ avail →
  u_brk h + UNIT * k ≤ PHYSTOP.
Proof.
  intros Hok Hfit Hk Hk' Hn. pose proof (ok_base _ _ _ _ Hok) as [Hb _]. pose proof (ok_brk _ _ _ _ Hok) as [_ Hbig].
  destruct (pgup_spec (u_brk h)) as (_&Hm1&_); [unfold PHYSTOP in *; lia|].
  destruct (pgup_spec (u_brk h + UNIT * k)) as (Hp&Hm2&_); [unfold UNIT, PHYSTOP in *; lia|].
  unfold new_pages, fits in *. assert ((PGROUNDUP (u_brk h + UNIT * k) - PGROUNDUP (u_brk h)) mod PGSIZE = 0) as E
    by (rewrite Zminus_mod, Hm1, Hm2; done). apply Z.div_exact in E; [|done]. unfold PGSIZE in *. lia.
Qed.

Lemma morecore_ok h L A F nu :
  heap_ok h L A F → fits avail h → u_freep h ≠ 0 → 0 < nu < 2 ^ 32 →
  let n := Z.max nu 4096 in
  if decide (avail < new_pages (u_brk h) (u_brk h + UNIT * n)) then morecore nu h = Fail (Panic "Out of memory!")
  else ∃ h' L', morecore nu h = Ok (u_freep h') h' ∧ heap_ok h' L' A F ∧ u_freep h' ≠ 0 ∧
    (length L' ≤ S (length L))%nat ∧ (∃ b, b ∈ L' ∧ nu ≤ b.2) ∧ kept (A ++ F) h h'.
Proof.
  intros Hok Hfit Hfp Hnu n. unfold morecore.
  replace (if nu <? 4096 then 4096 else nu) with n by (unfold n; destruct (Z.ltb_spec nu 4096); lia).
  assert (0 < n < 2 ^ 32) as Hn by (unfold n; lia). pose proof (sbrk_units h L A F n Hok ltac:(lia) ltac:(unfold UNIT; lia)) as Hs.
  case_decide as Hav; [unfold mbind, M_bind; by rewrite Hs|].
  pose proof (new_pages_fit h L A F n Hok Hfit ltac:(lia) ltac:(unfold UNIT; lia) ltac:(lia)) as Hbig. pose proof (ok_base _ _ _ _ Hok) as [Hb0 Hbm].
  pose proof (ok_brk _ _ _ _ Hok) as [Hbu Hbrk].
  destruct (grow_ok h L A F n) as [Hg Hk]; [done|lia|lia|].
  assert (cnt (u_brk h, n) (u_brk h) = 1) as Hc by (apply cnt_head; lia).
  set (h1 := grow n h) in *.
  destruct (unit_of _ _ _ _ Hg (u_brk h, n) (u_brk h)) as (_&_&[[q1 s1 pd1] H1]); [set_solver|done|].
  set (h2 := set_u_mem (<[u_brk h := Header q1 n pd1]> (u_mem h1)) h1).
  assert (∀ s, (u_brk h, s) ∉ A) as HnA.
  { intros s Hs'. destruct (ok_used _ _ _ _ Hok _ _ Hs') as [Hpos _].
    destruct (block_unit _ _ _ _ Hok (u_brk h, s)) as [? _]; [set_solver|done|simpl in *; lia]. }
  assert (heap_ok h2 L ((u_brk h, n) :: A) F) as H2.
  { apply move_ok with q1 pd1; [|lia|by apply lookup_insert_eq]. apply write_ok; [done|by rewrite H1| |].
    - intros H. by apply (free_head_owner _ _ _ _ _ (u_brk h, n) Hg H); [set_solver|].
    - intros s Hs'. by destruct (HnA s). }
  destruct (free_ok h2 L ((u_brk h, n) :: A) F (u_brk h) n A H2) as (h3&L'&Hrun&H3&Hf3&_&Hl3&(b&Hb&Hbn)&Hk3); [done|done|].
  exists h3, L'. split.
  - rewrite (bind_run _ _ h (u_brk h) h1) by done.
    replace (u64 (-1)) with (2 ^ 64 - 1) by done. rewrite (proj2 (Z.eqb_neq _ _)) by (unfold PHYSTOP in *; lia).
    unfold set_size. rewrite (upd_bind _ _ _ _ _ H1). unfold set_h_size. simpl. fold h2.
    rewrite (bind_run _ _ _ _ _ Hrun). done.
  - split_and!; [done..|exists b; split; [done|unfold UNIT in *; lia]|]. intros c x Hc' Hx.
    rewrite (Hk3 c x Hc' Hx). simpl. rewrite lookup_insert_ne; [by apply (Hk c)|].
    intros <-. destruct (owner_rest L ((u_brk h, n) :: A) F c (u_brk h, n) A Hc' ltac:(done)) as [R HR].
    by apply (one_owner _ _ _ _ H2 _ _ _ (u_brk h) HR).
Qed.

(** ** malloc *)

(** The first block that is large enough, with the one before it. *)
Fixpoint first_fit (nu prev : Z) (l : list block) : option (Z * Z) :=
  match l with
  | [] => None
  | (a, s) :: l => if nu <=? s then Some (prev, a) else first_fit nu a l
  end.
Fixpoint last_addr (prev : Z) (l : list block) : Z :=
  match l with [] => prev | (a, _) :: l => last_addr a l end.

Lemma last_addr_split a s l : ∃ P t, (a, s) :: l = P ++ [(last_addr a l, t)].
Proof.
  revert a s. induction l as [|[b u] l IH]; intros a s; simpl; [by exists [], s|].
  destruct (IH b u) as (P&t&->). by exists ((a, s) :: P), t.
Qed.

Lemma first_fit_spec nu prev l :
  match first_fit nu prev l with
  | Some (x, a) => ∃ l1 s l2, l = l1 ++ (a, s) :: l2 ∧ x = last_addr prev l1 ∧ nu ≤ s
  | None => Forall (λ b, b.2 < nu) l
  end.
Proof.
  revert prev. induction l as [|[a s] l IH]; intros prev; simpl; [done|].
  destruct (Z.leb_spec nu s); [by exists [], s, l|].
  specialize (IH a). destruct (first_fit nu a l) as [[x b]|].
  - destruct IH as (l1&t&l2&->&->&?). by exists ((a, s) :: l1), t, l2.
  - by constructor.
Qed.

Lemma scan_run h nu prev l e f :
  chain (u_mem h) l e → u_freep h ∉ l.*1 →
  malloc_loop (length l + f) nu prev (head_addr l e) h =
    match first_fit nu prev l with
    | Some (x, a) => malloc_take nu x a h
    | None => malloc_loop f nu (last_addr prev l) e h
    end.
Proof.
  revert prev. induction l as [|[a s] l IH]; intros prev; simpl; [done|].
  rewrite not_elem_of_cons. intros [[pad Ha] Hc] [Hn Hl]. rewrite (hd_bind _ _ _ _ Ha). simpl.
  destruct (nu <=? s); [done|].
  rewrite (bind_run _ _ h (u_freep h) h) by done.
  rewrite (proj2 (Z.eqb_neq _ _)) by done. rewrite (hd_bind _ _ _ _ Ha). by apply IH.
Qed.

(** One round through the list finds a block or comes back to its start. *)
Lemma round_run h L A F nu f :
  heap_ok h L A F → u_freep h ≠ 0 → 0 < nu →
  ∃ fh, u_mem h !! u_freep h = Some fh ∧
  ((∃ P x xs a s Q, (base, 0) :: L = P ++ (x, xs) :: (a, s) :: Q ∧ nu ≤ s ∧
     malloc_loop (S (length L) + f) nu (u_freep h) (h_ptr fh) h = malloc_take nu x a h) ∨
   (Forall (λ b, b.2 < nu) L ∧ h_size fh < nu ∧ ∃ prev,
     malloc_loop (S (length L) + f) nu (u_freep h) (h_ptr fh) h = malloc_loop (S f) nu prev (u_freep h) h)).
Proof.
  intros Hok Hfp Hnu. destruct (ok_list _ _ _ _ Hok) as [[? _]|[Hfr Hch]]; [done|].
  change (base :: L.*1) with (((base, 0) :: L).*1) in Hfr.
  apply list_elem_of_fmap in Hfr as ([fp fs]&Hfeq&Hin). simpl in Hfeq.
  apply list_elem_of_split in Hin as (N1&N2&HN).
  pose proof (nodes_NoDup _ _ _ _ Hok) as Hnd. rewrite HN, fmap_app in Hnd. simpl in Hnd. apply list.NoDup_app in Hnd as (_&HN1&[HN2 _]%list.NoDup_cons).
  assert (fp ∉ N1.*1) as HN1' by (intros H; apply (HN1 fp H); set_solver).
  pose proof Hch as Hch'. rewrite HN in Hch'. apply chain_app in Hch' as [Hc1 [[pad Hf] Hc2]]. fold chain in Hc2. simpl in Hc1.
  rewrite Hfeq. eexists. split; [exact Hf|]. simpl h_ptr. simpl h_size.
  assert (S (length L) + f = length N2 + (length N1 + S f))%nat as ->.
  { apply (f_equal length) in HN. rewrite length_app in HN. simpl in HN. lia. }
  rewrite <- Hfeq in *. rewrite scan_run by done.
  pose proof (first_fit_spec nu (u_freep h) N2) as Hfit. destruct (first_fit nu _ N2) as [[x a]|].
  { destruct Hfit as (l1&s&l2&->&->&Hs). left. destruct (last_addr_split (u_freep h) fs l1) as (P&t&HP).
    exists (N1 ++ P), (last_addr (u_freep h) l1), t, a, s, l2. split; [|done]. rewrite HN, app_comm_cons, HP.
    by rewrite <- !app_assoc. }
  destruct N1 as [|b N1]; simpl in HN.
  { injection HN as Hb Hs HL. right. rewrite HL. split; [done|]. split; [lia|]. eexists. by rewrite <- Hb. }
  injection HN as <- HL. set (prev := last_addr _ _).
  change (malloc_loop (length ((base, 0) :: N1) + S f) nu prev base h)
    with (malloc_loop (length ((base, 0) :: N1) + S f) nu prev (head_addr ((base, 0) :: N1) (u_freep h)) h).
  rewrite scan_run by done. cbn [first_fit last_addr]. rewrite (proj2 (Z.leb_gt nu 0)) by done.
  pose proof (first_fit_spec nu base N1) as Hfit1. destruct (first_fit nu base N1) as [[x a]|].
  { destruct Hfit1 as (l1&s&l2&->&->&Hs). left. destruct (last_addr_split base 0 l1) as (P&t&HP).
    exists P, (last_addr base l1), t, a, s, (l2 ++ (u_freep h, fs) :: N2). split; [|done].
    rewrite HL. rewrite <- app_assoc, app_comm_cons, HP. by rewrite <- !app_assoc. }
  destruct (Z.leb_spec nu fs) as [Hs|Hs].
  - left. destruct (last_addr_split base 0 N1) as (P&t&HP).
    exists P, (last_addr base N1), t, (u_freep h), fs, N2. split; [|split; [done|]].
    + rewrite HL, app_comm_cons, HP. by rewrite <- app_assoc.
    + simpl. rewrite (hd_bind _ _ _ _ Hf). simpl. by rewrite (proj2 (Z.leb_le _ _)).
  - right. split; [|split; [done|by eexists]]. rewrite HL. apply Forall_app. split; [done|]. by constructor.
Qed.

Lemma round_end h fh nu prev f :
  u_mem h !! u_freep h = Some fh → h_size fh < nu →
  malloc_loop (S f) nu prev (u_freep h) h =
    (p ← morecore nu; if p =? 0 then mret 0 else h ← hd p; malloc_loop f nu p (h_ptr h)) h.
Proof.
  intros Hf Hs. cbn [malloc_loop]. rewrite (hd_bind _ _ _ _ Hf), (proj2 (Z.leb_gt _ _)) by done.
  rewrite (bind_run _ _ h (u_freep h) h) by done. by rewrite Z.eqb_refl.
Qed.

Lemma cut_list L P x xs R R' :
  (base, 0) :: L = P ++ (x, xs) :: R → Forall (λ b, 0 < b.2) L → Forall (λ b, 0 < b.2) R' →
  ∃ L', P ++ (x, xs) :: R' = (base, 0) :: L' ∧ Forall (λ b, 0 < b.2) L'.
Proof.
  intros HN Hf HR. destruct P as [|b P]; injection HN as; subst; [by exists R'|].
  apply Forall_app in Hf as [HP [Hx _]%Forall_cons_1]. exists (P ++ (x, xs) :: R'). split; [done|].
  apply Forall_app. split; [done|]. by constructor.
Qed.

Lemma node_elem L P (b : block) R : (base, 0) :: L = P ++ b :: R → b.1 ∈ base :: L.*1.
Proof.
  intros HN. change (base :: L.*1) with (((base, 0) :: L).*1). rewrite HN, fmap_app. set_solver.
Qed.

Section take.
Context (h : heap) (L A F : list block) (nu : Z) (P : list block) (x xs a s : Z) (Q : list block).
Hypothesis Hok : heap_ok h L A F.
Hypothesis Hfp : u_freep h ≠ 0.
Hypothesis HN : (base, 0) :: L = P ++ (x, xs) :: (a, s) :: Q.

Lemma take_nodes : x ≠ a ∧ x ∉ P.*1 ∧ x ∉ Q.*1 ∧ a ∉ P.*1 ∧ a ∉ Q.*1 ∧ (a, s) ∈ L ∧ Forall (λ b, 0 < b.2) Q.
Proof.
  pose proof (nodes_NoDup _ _ _ _ Hok) as Hnd. rewrite HN, fmap_app in Hnd. simpl in Hnd.
  apply list.NoDup_app in Hnd as (_&H1&[H2 [H3 _]%list.NoDup_cons]%list.NoDup_cons).
  assert ((a, s) ∈ L) as Hi by (apply (free_elem L P x xs _ _ HN); set_solver).
  rewrite not_elem_of_cons in H2. destruct H2. split_and!; try done.
  - intros Hx. apply (H1 x Hx). set_solver.
  - intros Hx. apply (H1 a Hx). set_solver.
  - pose proof (free_rest _ _ _ _ _ HN (ok_free _ _ _ _ Hok)) as Hf. by apply Forall_cons_1 in Hf as [_ ?].
Qed.

Lemma take_order : (∀ b, b ∈ P ++ [(x, xs)] → b.1 < a) ∧ (∀ b, b ∈ Q → a + UNIT * s < b.1).
Proof.
  pose proof (ok_order _ _ _ _ Hok) as Ho. rewrite HN, cons_middle, app_assoc in Ho.
  pose proof Ho as (_&[_ HQ]%StronglySorted_inv&_)%sorted_app. rewrite list.Forall_forall in HQ.
  split; [|intros b Hb; apply (HQ b Hb)].
  apply order_below in Ho; [|].
  - apply sorted_app in Ho as (_&_&Hx). intros b Hb. apply (Hx b (a, s) Hb). set_solver.
  - rewrite <- app_assoc. simpl. rewrite <- HN. constructor; [done|].
    eapply list.Forall_impl; [apply Hok|]. simpl. intros ?. lia.
Qed.

Lemma take_prev : x ≠ 0.
Proof.
  pose proof (node_elem L P (x, xs) _ HN) as HxL. simpl in HxL. pose proof (ok_base _ _ _ _ Hok) as [Hb0 _].
  pose proof (ok_free _ _ _ _ Hok) as Hf. rewrite list.Forall_forall in Hf.
  apply elem_of_cons in HxL as [Hxb|HxL]; [lia|]. apply list_elem_of_fmap in HxL as (b&Hxb&Hb).
  pose proof (block_unit _ _ _ _ Hok b ltac:(set_solver) (Hf b Hb)). lia.
Qed.

(** A free block that has the right size is taken out of the list. *)
Lemma take_whole :
  ∃ h' L', malloc_take s x a h = Ok (a + UNIT) h' ∧ heap_ok h' L' ((a, s) :: A) F ∧
    u_freep h' ≠ 0 ∧ kept (A ++ F) h h'.
Proof.
  destruct take_nodes as (Hxa&HxP&HxQ&HaP&HaQ&HaL&HfQ).
  destruct (ok_list _ _ _ _ Hok) as [[? _]|[Hfr Hch]]; [done|].
  rewrite HN in Hch. apply chain_app in Hch as [HcP [[xpad Hx] [[apad Ha] HcQ]]]. fold chain in HcQ. simpl in HcP, Hx, Ha.
  pose proof (ok_order _ _ _ _ Hok) as Ho. rewrite HN in Ho.
  pose proof (ok_free _ _ _ _ Hok) as Hf. rewrite list.Forall_forall in Hf.
  destruct (cut_list L P x xs _ Q HN (ok_free _ _ _ _ Hok) HfQ) as (L'&HL'&Hpos).
  pose proof (node_elem L P (x, xs) _ HN) as HxL. simpl in HxL.
  assert (kept (A ++ F) h (Heap (<[x := Header (head_addr Q base) xs xpad]> (u_mem h)) x (u_brk h))) as Hk.
  { intros b y Hb Hy. simpl. rewrite lookup_insert_ne; [done|]. intros <-. by apply (free_head_owner _ _ _ _ _ _ Hok HxL Hb). }
  eexists _, L'. split; [|split; [|split; [|exact Hk]]].
  - unfold malloc_take. rewrite (hd_bind _ _ _ _ Ha). simpl. rewrite Z.eqb_refl.
    unfold set_ptr. erewrite bind_run; [|by rewrite (upd_bind _ _ _ _ _ Hx)]. done.
  - apply heap_update with L A; [done|..].
    + intros y. rewrite lookup_insert_is_Some'. split; [|tauto]. intros [<-|?]; [by rewrite Hx|done].
    + by apply (node_elem L' P (x, xs) Q).
    + rewrite <- HL'. apply chain_app. split; [by apply chain_insert|].
      split; [exists xpad; by rewrite lookup_insert_eq|by apply chain_insert].
    + rewrite <- HL'. rewrite cons_middle, app_assoc in Ho |- *. eapply sorted_drop; [exact Ho|]. by exists [(a, s)].
    + done.
    + intros y. apply (f_equal (λ l, total l y)) in HN as Ht, HL'. rewrite !total_app in *. simpl in *. lia.
    + intros b t [[= -> ->]|Hb]%elem_of_cons.
      * split; [by apply (Hf (a, s))|]. exists (head_addr Q base), apad. by rewrite lookup_insert_ne.
      * destruct (ok_used _ _ _ _ Hok b t Hb) as [Ht (p&pad&Hp)]. split; [done|]. exists p, pad.
        rewrite <- Hp. apply (Hk (b, t)); [set_solver|by apply cnt_head].
  - apply take_prev.
Qed.

(** Of a larger block the upper end is taken. *)
Lemma take_part :
  0 < nu < s → ∃ h' L', malloc_take nu x a h = Ok (a + UNIT * (s - nu) + UNIT) h' ∧
    heap_ok h' L' ((a + UNIT * (s - nu), nu) :: A) F ∧ u_freep h' ≠ 0 ∧ kept (A ++ F) h h'.
Proof.
  intros Hnu. destruct take_nodes as (Hxa&HxP&HxQ&HaP&HaQ&HaL&HfQ).
  destruct (ok_list _ _ _ _ Hok) as [[? _]|[Hfr Hch]]; [done|].
  rewrite HN in Hch. apply chain_app in Hch as [HcP [[xpad Hx] [[apad Ha] HcQ]]]. fold chain in HcQ. simpl in HcP, Hx, Ha.
  pose proof (ok_order _ _ _ _ Hok) as Ho. rewrite HN in Ho.
  pose proof (ok_free _ _ _ _ Hok) as Hf. rewrite list.Forall_forall in Hf.
  destruct (cut_list L P x xs _ ((a, s - nu) :: Q) HN (ok_free _ _ _ _ Hok)) as (L'&HL'&Hpos); [constructor; [simpl; lia|done]|].
  set (a' := a + UNIT * (s - nu)).
  assert (cnt (a, s) a' = 1) as Hc'.
  { unfold cnt, a', UNIT. simpl. replace (a + 16 * (s - nu) - a) with ((s - nu) * 16) by lia.
    rewrite Z_mod_mult, decide_True; [done|lia]. }
  assert ((a, s) ∈ L ++ A ++ F) as HaB by set_solver.
  destruct (unit_of _ _ _ _ Hok _ _ HaB Hc') as (Hab&_&[v Hv]).
  pose proof (block_size _ _ _ _ Hok _ HaB ltac:(simpl; lia)) as Hsz. simpl in Hsz.
  destruct take_order as [HlP HlQ].
  assert (a' ≠ a ∧ a' ≠ x ∧ a' ∉ P.*1 ∧ a' ∉ Q.*1) as (Ha'a&Ha'x&Ha'P&Ha'Q).
  { unfold a', UNIT in *. split_and!; [lia| | |].
    - specialize (HlP (x, xs) ltac:(set_solver)). simpl in HlP. lia.
    - intros (b&Hb1&Hb)%list_elem_of_fmap. specialize (HlP b ltac:(set_solver)). lia.
    - intros (b&Hb1&Hb)%list_elem_of_fmap. specialize (HlQ b Hb). lia. }
  pose proof (node_elem L P (x, xs) _ HN) as HxL. simpl in HxL.
  pose proof (node_elem L (P ++ [(x, xs)]) (a, s) Q ltac:(by rewrite <- app_assoc)) as HaL'. simpl in HaL'.
  set (m := <[a' := set_h_size nu v]> (<[a := Header (head_addr Q base) (s - nu) apad]> (u_mem h))).
  assert (kept (A ++ F) h (Heap m x (u_brk h))) as Hk.
  { intros b y Hb Hy. simpl. unfold m. rewrite !lookup_insert_ne; [done| |].
    - intros <-. by apply (free_head_owner _ _ _ _ _ _ Hok HaL' Hb).
    - intros <-. destruct (owner_both L A F _ _ HaL Hb) as [R HR]. by apply (one_owner _ _ _ _ Hok _ _ _ a' HR). }
  exists (Heap m x (u_brk h)), L'. split; [|split; [|split; [|exact Hk]]].
  - unfold malloc_take. rewrite (hd_bind _ _ _ _ Ha). simpl. rewrite (proj2 (Z.eqb_neq _ _)) by lia.
    rewrite wrap_small by lia. unfold set_size.
    erewrite bind_run; last first.
    { rewrite (upd_bind _ _ _ _ _ Ha). fold a'. rewrite (upd_bind _ _ v); [done|]. simpl. by rewrite lookup_insert_ne. }
    done.
  - apply heap_update with L A; [done|..].
    + intros y. unfold m. rewrite !lookup_insert_is_Some'. split; [|tauto]. intros [<-|[<-|?]]; [by rewrite Hv|by rewrite Ha|done].
    + by apply (node_elem L' P (x, xs) ((a, s - nu) :: Q)).
    + rewrite <- HL'. apply chain_app. unfold m. split; [by repeat (apply chain_insert; [done|])|].
      split; [exists xpad; by rewrite !lookup_insert_ne|].
      split; [exists apad; rewrite lookup_insert_ne by done; by rewrite lookup_insert_eq|by repeat (apply chain_insert; [done|])].
    + rewrite <- HL'. rewrite cons_middle, app_assoc in Ho |- *. rewrite sorted_app in Ho |- *.
      destruct Ho as (H1&[H2 H3]%StronglySorted_inv&H4). split; [done|]. split.
      * constructor; [done|]. eapply list.Forall_impl; [exact H3|]. unfold before, UNIT. simpl. intros ?. lia.
      * intros b c Hb [->|Hc]%elem_of_cons; [apply (H4 b (a, s) Hb)|apply H4]; set_solver.
    + done.
    + intros y. apply (f_equal (λ l, total l y)) in HN as Ht, HL'. rewrite !total_app in *. simpl in *.
      replace s with (s - nu + nu) in Ht by lia. rewrite cnt_split in Ht by lia. unfold a'. lia.
    + intros b t [[= -> ->]|Hb]%elem_of_cons.
      * split; [lia|]. exists (h_ptr v), (h_pad v). unfold m. by rewrite lookup_insert_eq.
      * destruct (ok_used _ _ _ _ Hok b t Hb) as [Ht (p&pad&Hp)]. split; [done|]. exists p, pad.
        rewrite <- Hp. apply (Hk (b, t)); [set_solver|by apply cnt_head].
  - apply take_prev.
Qed.
End take.

Lemma take_ok h L A F nu P x xs a s Q :
  heap_ok h L A F → u_freep h ≠ 0 → 0 < nu ≤ s → (base, 0) :: L = P ++ (x, xs) :: (a, s) :: Q →
  ∃ h' L' a', malloc_take nu x a h = Ok (a' + UNIT) h' ∧ heap_ok h' L' ((a', nu) :: A) F ∧
    u_freep h' ≠ 0 ∧ kept (A ++ F) h h'.
Proof.
  intros Hok Hfp Hnu HN. destruct (decide (s = nu)) as [<-|Hne].
  - destruct (take_whole h L A F P x xs a s Q Hok Hfp HN) as (h'&L'&?). by exists h', L', a.
  - destruct (take_part h L A F nu P x xs a s Q Hok Hfp HN ltac:(lia)) as (h'&L'&?). by eexists h', L', _.
Qed.

Lemma kept_trans B h1 h2 h3 : kept B h1 h2 → kept B h2 h3 → kept B h1 h3.
Proof. intros H1 H2 b x Hb Hx. by rewrite (H2 b x Hb Hx), (H1 b x Hb Hx). Qed.

Lemma init_ok h L A F :
  heap_ok h L A F →
  ∃ h', malloc_init h = Ok tt h' ∧
    heap_ok h' L A F ∧ u_freep h' ≠ 0 ∧ u_brk h' = u_brk h ∧ size (u_mem h') = size (u_mem h) ∧ kept (A ++ F) h h'.
Proof.
  intros Hok. destruct (ok_base _ _ _ _ Hok) as [Hb0 [[q t pad] Hb]].
  unfold malloc_init. rewrite (bind_run _ _ h (u_freep h) h) by done.
  destruct (Z.eqb_spec (u_freep h) 0) as [E|E]; simpl; [|by exists h].
  assert (L = []) as ->.
  { destruct (ok_list _ _ _ _ Hok) as [[_ ?]|[Hf _]]; [done|]. exfalso. rewrite E in Hf.
    apply elem_of_cons in Hf as [?|(b&Hb1&Hi)%list_elem_of_fmap]; [lia|].
    pose proof (ok_free _ _ _ _ Hok) as HF. rewrite list.Forall_forall in HF.
    pose proof (block_unit _ _ _ _ Hok b ltac:(set_solver) (HF b Hi)). lia. }
  unfold set_ptr, set_size. rewrite (upd_bind _ _ _ _ _ Hb). rewrite (bind_run _ _ _ tt _) by done.
  erewrite upd_run by apply lookup_insert_eq. eexists. split; [done|]. cbn [u_mem u_freep u_brk set_u_mem set_u_freep].
  rewrite insert_insert_eq. unfold set_h_size, set_h_ptr. simpl.
  assert (kept (A ++ F) h (Heap (<[base := Header base 0 pad]> (u_mem h)) base (u_brk h))) as Hk.
  { intros b x Hb1 Hx. simpl. rewrite lookup_insert_ne; [done|]. intros <-.
    destruct (unit_of _ _ _ _ Hok b base) as [? _]; [set_solver|done..]. }
  split_and!; [|lia|done| |done].
  - unfold set_u_mem, set_u_freep. cbn [u_mem u_freep u_brk]. apply heap_update with [] A; [done|..]; try done.
    + intros x. rewrite lookup_insert_is_Some'. split; [|tauto]. intros [<-|?]; [by rewrite Hb|done].
    + set_solver.
    + split; [|done]. exists pad. by rewrite lookup_insert_eq.
    + apply Hok.
    + intros a s Ha. destruct (ok_used _ _ _ _ Hok a s Ha) as [Hs (p&pd&Hp)]. split; [done|]. exists p, pd.
      rewrite <- Hp. apply (Hk (a, s)); [set_solver|by apply cnt_head].
  - rewrite map_size_insert_Some; [done|]. by rewrite Hb.
Qed.

Definition units (nbytes : Z) : Z := (nbytes + UNIT - 1) / UNIT + 1.

Lemma units_range n : 0 ≤ n < 2 ^ 32 → 0 < units n < 2 ^ 32 ∧ n ≤ UNIT * (units n - 1).
Proof.
  intros Hn. unfold units, UNIT. pose proof (Z.div_mod (n + 16 - 1) 16 ltac:(lia)).
  pose proof (Z.mod_pos_bound (n + 16 - 1) 16 ltac:(lia)). lia.
Qed.

Lemma malloc_ok h L A F n :
  heap_ok h L A F → fits avail h → 0 ≤ n < 2 ^ 32 →
  (∃ a h' L', malloc n h = Ok (a + UNIT) h' ∧ u_freep h' ≠ 0 ∧ kept (A ++ F) h h' ∧ heap_ok h' L' ((a, units n) :: A) F) ∨
  malloc n h = Fail (Panic "Out of memory!") ∧
    avail < new_pages (u_brk h) (u_brk h + UNIT * Z.max (units n) 4096) ∧ Forall (λ b, b.2 < units n) L.
Proof.
  intros Hok Hfit Hn. destruct (units_range n Hn) as [Hu _].
  destruct (init_ok h L A F Hok) as (h1&Hi&H1&Hf1&Hb1&Hs1&Hk1).
  assert (fits avail h1) as Hfit1 by (unfold fits in *; by rewrite Hb1).
  pose proof (length_list _ _ _ _ H1) as Hlen.
  destruct (round_run h1 L A F (units n) (2 * size (u_mem h1) + 4 - S (length L)) H1 Hf1 ltac:(lia)) as (fh&Hfh&Hr).
  replace (S (length L) + (2 * size (u_mem h1) + 4 - S (length L)))%nat with (2 * size (u_mem h1) + 4)%nat in Hr by lia.
  assert (malloc n h = malloc_loop (2 * size (u_mem h1) + 4) (units n) (u_freep h1) (h_ptr fh) h1) as Hm.
  { unfold malloc. fold (units n). rewrite wrap_small by lia. rewrite (bind_run _ _ _ _ _ Hi).
    by rewrite (bind_run _ _ h1 (u_freep h1) h1), (bind_run _ _ h1 (size (u_mem h1)) h1), (hd_bind _ _ _ _ Hfh) by done. }
  rewrite Hm. destruct Hr as [(P&x&xs&a&s&Q&HN&Hs&Hloop)|(Hsmall&Hfs&prev&Hloop)].
  { destruct (take_ok h1 L A F (units n) P x xs a s Q H1 Hf1 ltac:(lia) HN) as (h'&L'&a'&Hrun&Hok'&Hf'&Hk').
    left. exists a', h', L'. rewrite Hloop. split; [done|]. split; [done|]. split; [by eapply kept_trans|done]. }
  rewrite (round_end _ fh) in Hloop by done.
  pose proof (morecore_ok h1 L A F (units n) H1 Hfit1 Hf1 ltac:(lia)) as Hmore. cbv zeta in Hmore. rewrite Hb1 in Hmore.
  case_decide as Hav.
  { right. split; [|done]. rewrite Hloop. unfold mbind, M_bind. by rewrite Hmore. }
  destruct Hmore as (h2&L2&Hmore&H2&Hf2&Hl2&(b&Hb&Hbs)&Hk2).
  set (f := (2 * size (u_mem h1) + 4 - S (length L))%nat) in *.
  destruct (round_run h2 L2 A F (units n) (f - S (length L2)) H2 Hf2 ltac:(lia)) as (fh2&Hfh2&Hr2).
  replace (S (length L2) + (f - S (length L2)))%nat with f in Hr2 by (unfold f; lia).
  destruct Hr2 as [(P&x&xs&a&s&Q&HN&Hs&Hloop2)|(Hsmall2&_)].
  - destruct (take_ok h2 L2 A F (units n) P x xs a s Q H2 Hf2 ltac:(lia) HN) as (h'&L'&a'&Hrun&Hok'&Hf'&Hk').
    left. exists a', h', L'. split.
    + rewrite Hloop, (bind_run _ _ _ _ _ Hmore), (proj2 (Z.eqb_neq _ _)) by done.
      by rewrite (hd_bind _ _ _ _ Hfh2), Hloop2.
    + split; [done|]. split; [by do 2 (eapply kept_trans; [done|])|done].
  - rewrite list.Forall_forall in Hsmall2. specialize (Hsmall2 b Hb). lia.
Qed.

(** malloc allocates.  On a well-formed heap malloc returns the address behind the header of
    a block that was free, has room for the bytes asked for, and is now in use, unless no free block has enough
    units and the kernel runs out of pages when the process grows.
    No unit of the blocks that were in use changes, and the heap stays well
    formed: every unit is in exactly one block, and the free blocks are linked in
    the order of their addresses, no two of them adjacent. *)
Theorem malloc_allocates h L A F n :
  heap_ok h L A F → fits avail h → 0 ≤ n < 2 ^ 32 →
  (∃ r h' L', malloc n h = Ok r h' ∧ kept (A ++ F) h h' ∧
     r ≠ 0 ∧ n ≤ UNIT * (units n - 1) ∧ heap_ok h' L' ((r - UNIT, units n) :: A) F) ∨
  malloc n h = Fail (Panic "Out of memory!") ∧ Forall (λ b, b.2 < units n) L ∧
    avail < new_pages (u_brk h) (u_brk h + UNIT * Z.max (units n) 4096).
Proof.
  intros Hok Hfit Hn. destruct (malloc_ok h L A F n Hok Hfit Hn) as [(a&h'&L'&Hm&_&Hk&Hok')|(?&?&?)]; [left|by right].
  exists (a + UNIT), h', L'. split; [done|]. split; [done|]. destruct (units_range n Hn) as [Hu Hle].
  destruct (block_unit _ _ _ _ Hok' (a, units n)) as [Hb _]; [set_solver|simpl; lia|].
  pose proof (ok_base _ _ _ _ Hok). simpl in Hb. unfold UNIT in *.
  replace (a + 16 - 16) with a by lia. split; [lia|done].
Qed.
(** * Programs

    A program calls malloc and free, and writes to the
    units of its blocks; [w_data] records what it last wrote where.  It may also call sbrk itself, to ask for the
    size of the process, to grow it by a number of units, or to give back units at the end of the memory that it got in this
    way.  How many pages the kernel has left may change from call to call. *)

Record world := World {
  w_heap : heap; w_blocks : list block; w_own : list block; w_data : gmap Z header;
}.

Definition writable (w : world) (x : Z) : Prop :=
  (∃ b, b ∈ w_blocks w ∧ cnt b x = 1 ∧ x ≠ b.1) ∨ (∃ b, b ∈ w_own w ∧ cnt b x = 1).

(** A program starts as exec leaves it: with its static data, and a size that is a multiple of the page size. *)
Definition start (brk : Z) : world := World (Heap {[base := Header 0 0 0]} 0 brk) [] [] ∅.

Record world_ok (w : world) : Prop := {
  wk_heap : ∃ L, heap_ok (w_heap w) L (w_blocks w) (w_own w);
  wk_freep : w_blocks w ≠ [] → u_freep (w_heap w) ≠ 0;
  wk_data : ∀ x v, w_data w !! x = Some v → u_mem (w_heap w) !! x = Some v ∧ writable w x;
}.

Lemma start_heap brk :
  0 < base < brk → base mod UNIT = 0 → brk mod PGSIZE = 0 → brk ≤ PHYSTOP → heap_ok (w_heap (start brk)) [] [] [].
Proof.
  intros Hb Hm Hbm Hbig.
  assert (PGROUNDUP brk = brk) as Hup.
  { unfold PHYSTOP in Hbig. destruct (pgup_spec brk) as (Hr&Hp&_); [lia|]. unfold PGSIZE in *.
    pose proof (Z.div_mod brk 4096 ltac:(lia)). pose proof (Z.div_mod (PGROUNDUP brk) 4096 ltac:(lia)). lia. }
  assert (∀ x, is_Some (({[base := Header 0 0 0]} : gmap Z header) !! x) ↔ x = base) as Hx.
  { intros x. destruct (decide (x = base)) as [->|Hne]; [by rewrite lookup_singleton_eq|].
    rewrite lookup_singleton_ne by done. split; [by intros []|done]. }
  split; simpl; try done.
  - by left.
  - repeat constructor.
  - by intros a s ?%not_elem_of_nil.
  - intros x. rewrite decide_False; [done|]. intros (?&_&?%Hx). done.
  - intros x ->%Hx. rewrite Hup. lia.
  - intros x. rewrite Hup. lia.
  - split; [lia|]. by apply Hx.
  - split; [|done]. apply Z.mod_divide in Hbm as [c ->]; [|done]. change PGSIZE with (256 * UNIT).
    rewrite Z.mul_assoc. by apply Z_mod_mult.
Qed.

Lemma start_ok brk :
  0 < base < brk → base mod UNIT = 0 → brk mod PGSIZE = 0 → brk ≤ PHYSTOP → world_ok (start brk).
Proof.
  intros. split; [exists []; by apply start_heap|done|]. simpl. by intros x v ?%lookup_empty_Some.
Qed.

Lemma writable_block w x : writable w x → ∃ b, b ∈ w_blocks w ++ w_own w ∧ cnt b x = 1.
Proof. intros [(b&?&?&_)|(b&?&?)]; exists b; set_solver. Qed.

Lemma write_keeps w x v L :
  heap_ok (w_heap w) L (w_blocks w) (w_own w) → writable w x →
  heap_ok (set_u_mem (<[x := v]> (u_mem (w_heap w))) (w_heap w)) L (w_blocks w) (w_own w).
Proof.
  intros Hok Hw. destruct (writable_block w x Hw) as (b&Hb&Hx). apply write_ok; [done|..].
  - eapply unit_of; [exact Hok| |exact Hx]. set_solver.
  - intros Hn. by apply (free_head_owner _ _ _ _ _ _ Hok Hn Hb).
  - intros s Hs. exfalso. destruct (ok_used _ _ _ _ Hok x s Hs) as [Hpos _].
    apply list_elem_of_split in Hs as (l1&l2&Hl). set (A' := l1 ++ l2).
    assert (w_blocks w ≡ₚ (x, s) :: A') as HA by (rewrite Hl; unfold A'; solve_Permutation).
    destruct Hw as [(c&Hc&Hcx&Hne)|(c&Hc&Hcx)].
    + destruct (owner_rest L (w_blocks w) (w_own w) c (x, s) A') as [R HR]; [|done|].
      { rewrite HA in Hc. apply elem_of_cons in Hc as [->|Hc]; [done|set_solver]. }
      by apply (one_owner _ _ _ _ Hok _ _ _ x HR), cnt_head.
    + destruct (owner_rest L (w_blocks w) (w_own w) c (x, s) A') as [R HR]; [set_solver|done|].
      by apply (one_owner _ _ _ _ Hok _ _ _ x HR), cnt_head.
Qed.

Lemma data_kept w h bs d :
  world_ok w → kept (bs ++ w_own w) (w_heap w) h → d ⊆ w_data w →
  (∀ x v b, d !! x = Some v → b ∈ w_blocks w → cnt b x = 1 → b ∈ bs) →
  ∀ x v, d !! x = Some v → u_mem h !! x = Some v ∧
    ((∃ b, b ∈ bs ∧ cnt b x = 1 ∧ x ≠ b.1) ∨ (∃ b, b ∈ w_own w ∧ cnt b x = 1)).
Proof.
  intros Hw Hk Hd Hbs x v Hx. destruct (wk_data _ Hw x v) as [Hm Hwr]; [by eapply lookup_weaken|].
  destruct Hwr as [(b&Hb&Hc&Hne)|(b&Hb&Hc)].
  - pose proof (Hbs x v b Hx Hb Hc) as Hb'. split; [rewrite (Hk b x); [done|set_solver|done]|]. left. by exists b.
  - split; [rewrite (Hk b x); [done|set_solver|done]|]. right. by exists b.
Qed.

Lemma blocks_disjoint h L A F i j a n b m :
  heap_ok h L A F → A !! i = Some (a, n) → A !! j = Some (b, m) → i ≠ j →
  a + UNIT * n ≤ b ∨ b + UNIT * m ≤ a.
Proof.
  intros Hok Hi Hj Hij. pose proof (list_elem_of_lookup_2 _ _ _ Hi) as HA1. pose proof (list_elem_of_lookup_2 _ _ _ Hj) as HA2.
  destruct (ok_used _ _ _ _ Hok a n HA1) as [Hn _]. destruct (ok_used _ _ _ _ Hok b m HA2) as [Hm _].
  pose proof (delete_Permutation _ _ _ Hi) as HA.
  assert ((b, m) ∈ delete i A ++ F) as Hb.
  { apply elem_of_app. left. apply list_elem_of_lookup. destruct (decide (j < i)%nat).
    - exists j. by rewrite list_lookup_delete_lt.
    - exists (pred j). rewrite list_lookup_delete_ge by lia. replace (S (pred j)) with j by lia. done. }
  destruct (owner_rest L A F _ _ _ Hb HA) as [R HR].
  destruct (Z.lt_trichotomy a b) as [Hlt|[->|Hlt]].
  - left. apply (blocks_apart _ _ _ _ Hok (a, n) (b, m) R); [by rewrite HR, Permutation_swap|done..].
  - exfalso. apply (one_owner _ _ _ _ Hok _ _ _ b HR); by apply cnt_head.
  - right. by apply (blocks_apart _ _ _ _ Hok (b, m) (a, n) R).
Qed.

End umalloc.

Section programs.
Variable base : Z.

Inductive step (w : world) : world → Prop :=
| s_malloc av n r h : fits av (w_heap w) → 0 ≤ n < 2 ^ 32 → malloc base av n (w_heap w) = Ok r h →
    step w (World h ((r - UNIT, units n) :: w_blocks w) (w_own w) (w_data w))
| s_free r n bs h : w_blocks w ≡ₚ (r - UNIT, n) :: bs → free r (w_heap w) = Ok tt h →
    step w (World h bs (w_own w) (filter (λ d, cnt (r - UNIT, n) d.1 ≠ 1) (w_data w)))
| s_sbrk_grow av k b h : fits av (w_heap w) → 0 < k → k * UNIT < 2 ^ 63 → sbrk av (k * UNIT) (w_heap w) = Ok b h →
    step w (World h (w_blocks w) ((b, k) :: w_own w) (w_data w))
| s_sbrk_back av a n own k b h :
    w_own w ≡ₚ (a, n) :: own → a + UNIT * n = u_brk (w_heap w) → 0 < k ≤ n → sbrk av (- (k * UNIT)) (w_heap w) = Ok b h →
    step w (World h (w_blocks w) ((a, n - k) :: own) (filter (λ d, d.1 < u_brk h) (w_data w)))
| s_sbrk_size av b h : sbrk av 0 (w_heap w) = Ok b h → step w (World h (w_blocks w) (w_own w) (w_data w))
| s_write x v : writable w x →
    step w (World (set_u_mem (<[x := v]> (u_mem (w_heap w))) (w_heap w)) (w_blocks w) (w_own w) (<[x := v]> (w_data w))).

Lemma heap_perm h L A F F' : heap_ok base h L A F → F ≡ₚ F' → heap_ok base h L A F'.
Proof.
  intros Hok Hp. split; try apply Hok. intros x. rewrite <- (ok_units _ _ _ _ _ Hok). apply total_perm. by rewrite Hp.
Qed.

Lemma sbrk_size av h b h' : 0 < u_brk h → sbrk av 0 h = Ok b h' → h' = h.
Proof. intros _. unfold sbrk, ugrowproc, mbind, M_bind, gets, modify. simpl. intros [= _ <-]. by destruct h. Qed.

(** What the program wrote below the new end of its memory is still its own. *)
Lemma writable_back w h a n own k x :
  heap_ok base (w_heap w) h (w_blocks w) ((a, n) :: own) → w_own w ≡ₚ (a, n) :: own →
  a + UNIT * n = u_brk (w_heap w) → 0 < k ≤ n → x < u_brk (w_heap w) - UNIT * k → writable w x →
  ∃ b, b ∈ w_blocks w ++ (a, n - k) :: own ∧ cnt b x = 1 ∧ (b ∈ w_blocks w ∧ x ≠ b.1 ∨ b ∈ (a, n - k) :: own).
Proof.
  intros Hok Hp He Hk Hx [(b&Hb&Hc&Hne)|(b&Hb&Hc)]; [exists b; set_solver|]. rewrite Hp in Hb.
  apply elem_of_cons in Hb as [->|Hb]; [|exists b; set_solver]. exists (a, n - k). split; [set_solver|]. split; [|set_solver].
  replace n with ((n - k) + k) in Hc by lia. rewrite cnt_split in Hc by lia.
  assert (cnt (a + UNIT * (n - k), k) x = 0) as E; [|pose proof (cnt_range (a, n - k) x); lia].
  unfold cnt. rewrite decide_False; [done|]. simpl. unfold UNIT in *. lia.
Qed.

Lemma step_ok w w' : world_ok base w → step w w' → world_ok base w'.
Proof.
  intros Hw Hs. pose proof Hw as [[L Hok] Hfp Hdata].
  destruct Hs as [av n r h Hfit Hn Hm|r n bs h Hp Hf|av k b h Hfit Hk Hk' Hr|av a n own k b h Hp He Hk Hr|av b h Hr|x v Hx].
  - destruct (malloc_ok base av _ _ _ _ n Hok Hfit Hn) as [(a&h'&L'&Hm'&Hf'&Hk&Hok')|(Hm'&_)]; rewrite Hm in Hm'; simplify_eq.
    split; simpl; [exists L'; by replace (a + UNIT - UNIT) with a by lia|done|].
    intros x v Hx. destruct (data_kept base w _ (w_blocks w) (w_data w) Hw Hk ltac:(done)) with x v as [H1 H2]; [naive_solver|done|].
    split; [done|]. destruct H2 as [(b&?&?&?)|?]; [left; exists b; set_solver|by right].
  - destruct (free_ok base _ _ _ _ (r - UNIT) n bs Hok) as (h'&L'&Hf'&Hok'&Hfp'&_&_&_&Hk); [|done|].
    { apply Hfp. intros E. rewrite E in Hp. by apply Permutation_nil_cons in Hp. }
    replace (r - UNIT + UNIT) with r in Hf' by lia. rewrite Hf in Hf'. simplify_eq.
    split; simpl; [by exists L'|done|]. apply (data_kept base w _ bs); [done|done|apply map_filter_subseteq|].
    intros x v b [_ Hx]%map_lookup_filter_Some Hb Hc. rewrite Hp in Hb. apply elem_of_cons in Hb as [->|Hb]; [done|done].
  - pose proof (sbrk_units base av _ _ _ _ k Hok Hk Hk') as Hs. rewrite Hr in Hs. case_decide as Hav; [done|]. injection Hs as -> ->.
    destruct (grow_ok base _ _ _ _ k Hok Hk) as [Hok' Hkept]; [by apply (new_pages_fit base av _ _ _ _ _ Hok Hfit Hk Hk'); lia|].
    split; simpl; [by exists L|done|]. intros x v Hx.
    destruct (data_kept base w _ (w_blocks w) (w_data w) Hw Hkept ltac:(done)) with x v as [H1 H2]; [naive_solver|done|].
    split; [done|]. destruct H2 as [?|(b&?&?)]; [by left|right; exists b; set_solver].
  - pose proof (heap_perm _ _ _ _ _ Hok Hp) as Hok1. rewrite (sbrk_back base av _ _ _ _ _ _ _ Hok1 He Hk) in Hr. injection Hr as <- <-.
    destruct (shrink_ok base _ _ _ _ _ _ _ Hok1 He Hk) as [Hok' Hkept].
    split; cbn [w_heap w_blocks w_own w_data]; [by exists L|done|]. intros x v [Hx Hlt]%map_lookup_filter_Some. destruct (Hdata x v Hx) as [Hm Hwr].
    destruct (writable_back w L a n own k x Hok1 Hp He Hk Hlt Hwr) as (c&Hc&Hcx&Hown).
    split; [rewrite (Hkept c x); [done|set_solver|done]|]. destruct Hown as [[? ?]|?]; [left|right]; by exists c.
  - apply sbrk_size in Hr as ->; [by destruct w|]. pose proof (ok_base _ _ _ _ _ Hok). lia.
  - split; simpl; [exists L; by apply write_keeps|done|].
    intros y u. destruct (decide (y = x)) as [->|Hne].
    + rewrite !lookup_insert_eq. done.
    + rewrite !lookup_insert_ne by done. apply Hdata.
Qed.


End programs.

(** * A program with its static header at 4096 and its heap from 8192 on *)

Module Example.

Definition base : Z := 4096.
(** the pages that are left *)
Definition avail : Z := 100.
Definition after {A} (h : heap) (m : M heap A) : heap := match m h with Ok _ h' => h' | _ => h end.
Definition h0 : heap := w_heap (start base 8192).
Definition h1 : heap := after h0 (malloc base avail 100).
Definition r1 : Z := 73616.
Definition w1 : world := World h1 [(r1 - UNIT, 8)] [] ∅.
Definition w2 : world := World (set_u_mem (<[r1 := Header 1 2 3]> (u_mem h1)) h1) [(r1 - UNIT, 8)] [] {[r1 := Header 1 2 3]}.

Lemma fits_h0 : fits avail h0.
Proof. vm_compute. discriminate. Qed.

Lemma ok_inj {A} (a b : A) (s t : heap) : Ok a s = Ok b t → a = b ∧ s = t.
Proof. by intros [= -> ->]. Qed.

Lemma start_heap_ok : heap_ok base h0 [] [] [].
Proof. by apply start_heap. Qed.

Lemma malloc_r1 : match malloc base avail 100 h0 with Ok r _ => r =? r1 | _ => false end = true.
Proof. vm_compute. reflexivity. Qed.

Lemma malloc_h0 : malloc base avail 100 h0 = Ok r1 h1.
Proof.
  unfold h1, after. pose proof malloc_r1 as H. destruct (malloc base avail 100 h0) as [r h| |]; [|discriminate H..].
  apply Z.eqb_eq in H. by rewrite H.
Qed.

Lemma h1_ok : ∃ L, heap_ok base h1 L [(r1 - UNIT, 8)] [].
Proof.
  assert (0 ≤ 100 < 2 ^ 32) as Hn by lia.
  destruct (malloc_ok base avail h0 [] [] [] 100 start_heap_ok fits_h0 Hn) as [(a&h'&L'&Hm&_&_&Hok)|(Hm&_)].
  - pose proof malloc_h0 as H0. rewrite Hm in H0. apply ok_inj in H0 as [Hr1 Hh1]. rewrite <- Hh1. exists L'.
    replace (r1 - UNIT) with a by (rewrite <- Hr1; unfold UNIT; lia). exact Hok.
  - rewrite malloc_h0 in Hm. discriminate Hm.
Qed.

Lemma w2_reachable : rtc (step base) (start base 8192) w2.
Proof.
  apply rtc_l with w1.
  - assert (0 ≤ 100 < 2 ^ 32) as Hn by lia.
    exact (s_malloc base (start base 8192) avail 100 r1 h1 fits_h0 Hn malloc_h0).
  - apply rtc_once. apply (s_write base w1 r1 (Header 1 2 3)). left. exists (r1 - UNIT, 8).
    split; [apply list_elem_of_here|]. split; [reflexivity|discriminate].
Qed.

End Example.

Lemma malloc_allocates_witness :
  ∃ r h' L', malloc Example.base Example.avail 100 Example.h0 = Ok r h' ∧
    heap_ok Example.base h' L' [(r - UNIT, units 100)] [].
Proof.
  assert (0 ≤ 100 < 2 ^ 32) as Hn by lia.
  destruct (malloc_allocates Example.base Example.avail Example.h0 [] [] [] 100
              Example.start_heap_ok Example.fits_h0 Hn) as [(r&h'&L'&Hm&_&_&_&Hok)|(_&_&H)].
  - exists r, h', L'. split; [exact Hm|exact Hok].
  - vm_compute in H. discriminate H.
Defined.

Lemma free_merges_witness :
  ∃ h' L', free Example.r1 Example.h1 = Ok tt h' ∧ heap_ok Example.base h' L' [] [].
Proof.
  destruct Example.h1_ok as [L Hok].
  destruct (free_merges Example.base Example.h1 L [(Example.r1 - UNIT, 8)] [] Example.r1 8 [] Hok) as (h'&L'&Hf&Hok'&_).
  - vm_compute. discriminate.
  - reflexivity.
  - exists h', L'. split; [exact Hf|exact Hok'].
Defined.

