(* ===== verification/Sh.v ===== *)
(** The command language of the shell (sh.c): the scanner, the recursive
    descent parser and the pass that terminates the words.

    The parser works in place: a position in the line stands for a pointer
    into the buffer, [ps] is the state, and a command refers to its words by
    the positions of their first character and of the one behind the last.
    The tree of a command is built bottom up with one exception, which is modelled
    as it is: [parseexec] stores arguments in a node that redirections may
    already have wrapped.  Memory for the nodes is assumed to be available.

    The grammar of the language is defined on its own, over the tokens of the
    line.  The theorems say that the parser returns on every line, a command
    or a message; that it accepts exactly the lines the grammar derives; and that
    the command it returns has the structure the grammar gives the line, each
    word being a null-terminated string in the buffer. *)

From S2P Require Import Prelude Ulib Sysfile.

(** * Commands *)

Definition MAXARGS : nat := 10.

Inductive cmd :=
| EXEC (argv eargv : list (option nat))
| REDIR (c : cmd) (file efile : nat) (mode fd : Z)
| PIPE (left right : cmd)
| LIST (left right : cmd)
| BACK (c : cmd).

Definition execcmd : cmd := EXEC (replicate MAXARGS None) (replicate MAXARGS None).
Definition redircmd (subcmd : cmd) (file efile : nat) (mode fd : Z) : cmd := REDIR subcmd file efile mode fd.
Definition pipecmd (left right : cmd) : cmd := PIPE left right.
Definition listcmd (left right : cmd) : cmd := LIST left right.
Definition backcmd (subcmd : cmd) : cmd := BACK subcmd.

(** cmd->argv[i] = q; cmd->eargv[i] = eq; where cmd is the execcmd inside [ret] *)
Fixpoint set_arg (i : nat) (q eq : option nat) (ret : cmd) : option cmd :=
  match ret with
  | EXEC argv eargv => if decide (i < MAXARGS)%nat then Some (EXEC (<[i := q]> argv) (<[i := eq]> eargv)) else None
  | REDIR c f ef mode fd => (λ c, REDIR c f ef mode fd) <$> set_arg i q eq c
  | _ => None
  end.

(** * Scanning *)

(** blank, tab, carriage return, newline, vertical tab *)
Definition whitespace : list Z := [32; 9; 13; 10; 11].
(** < | > & ; ( ) *)
Definition symbols : list Z := [60; 124; 62; 38; 59; 40; 41].

(** strchr(set, c), as a condition *)
Definition has (set : list Z) (c : Z) : bool :=
  match strchr (set ++ [0]) c with Some (Some _) => true | _ => false end.
Definition word_char (c : Z) : bool := negb (has whitespace c) && negb (has symbols c).

(** How far a loop over the characters of the line goes. *)
Fixpoint run_len (p : Z → bool) (l : list Z) : nat :=
  match l with
  | [] => 0%nat
  | c :: l => if p c then S (run_len p l) else 0%nat
  end.

Section sh.
Variable s : list Z.

Definition es : nat := length s.
Definition chr (n : nat) : M nat Z := the "buf" ((s ++ [0]) !! n).

(** while(s < es && strchr(whitespace, *s)) s++; *)
Definition skip_ws (n : nat) : nat := (n + run_len (has whitespace) (drop n s))%nat.

Definition gettoken : M nat (Z * nat * nat) :=
  q ← gets skip_ws;
  c ← chr q;
  re ← (if c =? 0 then mret (c, q)
        else if has [124; 40; 41; 59; 38; 60] c then mret (c, S q)
        else if c =? 62 then
          c' ← chr (S q);
          if c' =? 62 then mret (43, S (S q)) else mret (c, S q)
        else mret (97, (q + run_len word_char (drop q s))%nat));
  modify (λ _, skip_ws re.2);;
  mret (re.1, q, re.2).

Definition peek (toks : list Z) : M nat bool :=
  n ← gets skip_ws;
  modify (λ _, n);;
  c ← chr n;
  mret (negb (c =? 0) && has toks c).

(** * Parsing *)

Fixpoint parseredirs (fuel : nat) (c : cmd) : M nat cmd :=
  b ← peek [60; 62];
  if negb b then mret c else
  match fuel with
  | O => out_of_fuel
  | S fuel =>
      t ← gettoken;
      f ← gettoken;
      if negb (f.1.1 =? 97) then panic "missing file for redirection" else
      let '(_, q, eq) := f in
      let tok := t.1.1 in
      parseredirs fuel
        (if tok =? 60 then redircmd c q eq O_RDONLY 0
         else if tok =? 62 then redircmd c q eq (Z.lor O_WRONLY O_CREATE) 1
         else if tok =? 43 then redircmd c q eq (Z.lor O_WRONLY O_CREATE) 1
         else c)
  end.

(** The loop of parseexec over the arguments. *)
Fixpoint parseargs (fuel : nat) (argc : nat) (ret : cmd) : M nat (nat * cmd) :=
  b ← peek [124; 41; 38; 59];
  if (b : bool) then mret (argc, ret) else
  match fuel with
  | O => out_of_fuel
  | S fuel =>
      t ← gettoken;
      let '(tok, q, eq) := t in
      if tok =? 0 then mret (argc, ret) else
      if negb (tok =? 97) then panic "syntax" else
      ret ← the "argv" (set_arg argc (Some q) (Some eq) ret);
      if decide (MAXARGS ≤ S argc)%nat then panic "too many args" else
      ret ← parseredirs fuel ret;
      parseargs fuel (S argc) ret
  end.

Fixpoint parseamps (fuel : nat) (c : cmd) : M nat cmd :=
  b ← peek [38];
  if negb b then mret c else
  match fuel with
  | O => out_of_fuel
  | S fuel => gettoken;; parseamps fuel (backcmd c)
  end.

Fixpoint parseline (fuel : nat) : M nat cmd :=
  match fuel with
  | O => out_of_fuel
  | S fuel =>
      c ← parsepipe fuel;
      c ← parseamps fuel c;
      b ← peek [59];
      if (b : bool) then gettoken;; r ← parseline fuel; mret (listcmd c r) else mret c
  end
with parsepipe (fuel : nat) : M nat cmd :=
  match fuel with
  | O => out_of_fuel
  | S fuel =>
      c ← parseexec fuel;
      b ← peek [124];
      if (b : bool) then gettoken;; r ← parsepipe fuel; mret (pipecmd c r) else mret c
  end
with parseblock (fuel : nat) : M nat cmd :=
  match fuel with
  | O => out_of_fuel
  | S fuel =>
      b ← peek [40];
      if negb b then panic "parseblock" else
      gettoken;;
      c ← parseline fuel;
      b ← peek [41];
      if negb b then panic "syntax - missing )" else
      gettoken;;
      parseredirs fuel c
  end
with parseexec (fuel : nat) : M nat cmd :=
  match fuel with
  | O => out_of_fuel
  | S fuel =>
      b ← peek [40];
      if (b : bool) then parseblock fuel else
      ret ← parseredirs fuel execcmd;
      ar ← parseargs fuel 0 ret;
      the "argv" (set_arg ar.1 None None ar.2)
  end.

(** for(i=0; argv[i]; i++) *eargv[i] = 0; *)
Fixpoint nulterminate_args (argv eargv : list (option nat)) (b : list Z) : option (list Z) :=
  match argv, eargv with
  | None :: _, _ => Some b
  | Some _ :: argv, Some e :: eargv => b ← put_at e 0 b; nulterminate_args argv eargv b
  | _, _ => None
  end.

Fixpoint nulterminate (c : cmd) (b : list Z) : option (list Z) :=
  match c with
  | EXEC argv eargv => nulterminate_args argv eargv b
  | REDIR c _ efile _ _ => b ← nulterminate c b; put_at efile 0 b
  | PIPE l r => b ← nulterminate l b; nulterminate r b
  | LIST l r => b ← nulterminate l b; nulterminate r b
  | BACK c => nulterminate c b
  end.

(** Enough for every call at every level: each nesting consumes a character. *)
Definition fuel : nat := (4 * es + 4)%nat.

(** parsecmd(s): the command and the buffer with its words terminated; the message with the leftovers that is printed before the
    panic is left out *)
Definition parsecmd : M nat (cmd * list Z) :=
  c ← parseline fuel;
  peek [];;
  n ← gets id;
  if negb (bool_decide (n = es)) then panic "syntax" else
  b ← the "buf" (nulterminate c (s ++ [0]));
  mret (c, b).

End sh.

(** * The language

    The tokens of a line: symbols, the symbol >>, and words, which are the
    longest runs of other characters. *)

Notation word := (list Z).

Inductive token :=
| TSym (c : Z)
| TApp
| TWord (w : word).

Definition flush (w : word) (ts : list token) : list token :=
  match w with [] => ts | _ => TWord (rev w) :: ts end.

(** [w] is the word being read, backwards. *)
Fixpoint lex (w : word) (l : list Z) : list token :=
  match l with
  | [] => flush w []
  | c :: l =>
      if decide (c ∈ whitespace) then flush w (lex [] l)
      else if decide (c = 62) then
        match l with
        | c' :: l' => if decide (c' = 62) then flush w (TApp :: lex [] l') else flush w (TSym 62 :: lex [] l)
        | [] => flush w [TSym 62]
        end
      else if decide (c ∈ symbols) then flush w (TSym c :: lex [] l)
      else lex (c :: w) l
  end.

Definition tokens (l : list Z) : list token := lex [] l.

(** Commands, as the language means them. *)
Inductive tree :=
| TExec (args : list word)
| TRedir (t : tree) (file : word) (mode fd : Z)
| TPipe (l r : tree)
| TList (l r : tree)
| TBack (t : tree).

Fixpoint add_word (w : word) (t : tree) : tree :=
  match t with
  | TExec args => TExec (args ++ [w])
  | TRedir t f mode fd => TRedir (add_word w t) f mode fd
  | _ => t
  end.
Fixpoint nargs (t : tree) : nat :=
  match t with
  | TExec args => length args
  | TRedir t _ _ _ => nargs t
  | _ => 0%nat
  end.

(** What a redirection does: the mode of open and the descriptor. *)
Definition direction (t : token) : option (Z * Z) :=
  match t with
  | TSym 60 => Some (O_RDONLY, 0)
  | TSym 62 | TApp => Some (Z.lor O_WRONLY O_CREATE, 1)
  | _ => None
  end.

Inductive level := Line | Job | Pipeline | Command | Simple | Block.

(** The grammar. *)
Inductive derives : level → list token → tree → Prop :=
| d_empty : derives Simple [] (TExec [])
| d_word ts t w : derives Simple ts t → (S (nargs t) < MAXARGS)%nat → derives Simple (ts ++ [TWord w]) (add_word w t)
| d_redir k ts t r w mode fd : k = Simple ∨ k = Block → derives k ts t → direction r = Some (mode, fd) →
    derives k (ts ++ [r; TWord w]) (TRedir t w mode fd)
| d_block ts t : derives Line ts t → derives Block (TSym 40 :: ts ++ [TSym 41]) t
| d_command k ts t : k = Simple ∨ k = Block → derives k ts t → derives Command ts t
| d_pipe_end ts t : derives Command ts t → derives Pipeline ts t
| d_pipe ts1 ts2 t1 t2 : derives Command ts1 t1 → derives Pipeline ts2 t2 →
    derives Pipeline (ts1 ++ TSym 124 :: ts2) (TPipe t1 t2)
| d_fore ts t : derives Pipeline ts t → derives Job ts t
| d_back ts t : derives Job ts t → derives Job (ts ++ [TSym 38]) (TBack t)
| d_line_end ts t : derives Job ts t → derives Line ts t
| d_list ts1 ts2 t1 t2 : derives Job ts1 t1 → derives Line ts2 t2 →
    derives Line (ts1 ++ TSym 59 :: ts2) (TList t1 t2).

(** * The scanner finds the tokens *)

Lemma has_spec set c : 0 ∉ set → has set c = bool_decide (c ∈ set).
Proof.
  unfold has. induction set as [|x set IH]; cbn [app strchr].
  { intros _. by rewrite bool_decide_false by by intros ?%not_elem_of_nil. }
  rewrite not_elem_of_cons. intros [Hx Hset]. rewrite (proj2 (Z.eqb_neq _ _)) by lia.
  destruct (Z.eqb_spec x c) as [->|Hne].
  { by rewrite bool_decide_true by apply list_elem_of_here. }
  rewrite (bool_decide_ext (c ∈ x :: set) (c ∈ set)), <- IH by (done || set_solver).
  by destruct (strchr (set ++ [0]) c) as [[]|].
Qed.

Lemma has_ws c : has whitespace c = bool_decide (c ∈ whitespace).
Proof. apply has_spec. unfold whitespace. set_solver. Qed.
Lemma has_sym c : has symbols c = bool_decide (c ∈ symbols).
Proof. apply has_spec. unfold symbols. set_solver. Qed.

Lemma run_len_le p l : (run_len p l ≤ length l)%nat.
Proof. induction l as [|c l IH]; simpl; [done|]. destruct (p c); lia. Qed.

Lemma lex_ws l : lex [] (drop (run_len (has whitespace) l) l) = lex [] l.
Proof.
  induction l as [|c l IH]; [done|]. cbn [run_len]. rewrite has_ws.
  destruct (decide (c ∈ whitespace)) as [H|H].
  - rewrite bool_decide_true by done. cbn [drop lex]. by rewrite decide_True.
  - by rewrite bool_decide_false.
Qed.

Lemma drop_run p l : match drop (run_len p l) l with [] => True | c :: _ => p c = false end.
Proof. induction l as [|c l IH]; simpl; [done|]. destruct (p c) eqn:E; simpl; [done|done]. Qed.

Lemma take_run p l : Forall (λ c, p c = true) (take (run_len p l) l).
Proof. induction l as [|c l IH]; simpl; [done|]. destruct (p c) eqn:E; simpl; by constructor. Qed.

Lemma word_char_spec c : word_char c = true ↔ c ∉ whitespace ∧ c ∉ symbols.
Proof.
  unfold word_char. rewrite has_ws, has_sym. rewrite andb_true_iff, !negb_true_iff, !bool_decide_eq_false. done.
Qed.

Lemma lex_word w l :
  lex w l = flush (rev (take (run_len word_char l) l) ++ w) (lex [] (drop (run_len word_char l) l)).
Proof.
  revert w. induction l as [|c l IH]; intros w; [done|]. cbn [run_len]. destruct (word_char c) eqn:E.
  - apply word_char_spec in E as [H1 H2]. cbn [lex take drop rev]. rewrite decide_False by done.
    rewrite decide_False by (intros ->; apply H2; unfold symbols; set_solver). rewrite decide_False by done.
    rewrite IH. by rewrite <- app_assoc.
  - cbn [take drop rev app]. cbn [lex]. case_decide; [done|]. case_decide; [by repeat case_match|]. case_decide; [done|].
    assert (word_char c = true) by (by apply word_char_spec). congruence.
Qed.

Section scan.
Context (s : list Z) (nz : 0 ∉ s).

Definition toks (n : nat) : list token := tokens (drop n s).
Definition sub (q e : nat) : word := take (e - q) (drop q s).

(** The characters from [q] to [e] are a whole word of the line. *)
Definition span (q e : nat) : Prop :=
  (q < e ≤ es s)%nat ∧ Forall (λ c, word_char c = true) (sub q e) ∧
  match s !! e with Some c => word_char c = false | None => True end.

Definition cur (n : nat) : Z := match drop n s with c :: _ => c | [] => 0 end.

Lemma chr_run n m : (n ≤ es s)%nat → chr s n m = Ok (cur n) m.
Proof.
  intros Hn. unfold chr, cur, the, es in *. destruct (drop n s) as [|c l] eqn:E.
  - apply (f_equal length) in E. rewrite length_drop in E. simpl in E.
    assert (n = length s) as -> by lia. by rewrite list_lookup_middle.
  - rewrite lookup_app_l; [|apply (f_equal length) in E; rewrite length_drop in E; simpl in E; lia].
    rewrite <- (Nat.add_0_r n), <- lookup_drop, E. done.
Qed.

Lemma skip_le n : (n ≤ es s → n ≤ skip_ws s n ≤ es s)%nat.
Proof.
  intros Hn. unfold skip_ws, es in *. pose proof (run_len_le (has whitespace) (drop n s)) as H.
  rewrite length_drop in H. lia.
Qed.

Lemma toks_skip n : toks (skip_ws s n) = toks n.
Proof. unfold toks, skip_ws, tokens. rewrite <- drop_drop. apply lex_ws. Qed.

Lemma skip_char n : match drop (skip_ws s n) s with [] => True | c :: _ => c ∉ whitespace end.
Proof.
  unfold skip_ws. rewrite <- drop_drop. pose proof (drop_run (has whitespace) (drop n s)) as H.
  destruct (drop _ (drop n s)) as [|c l]; [done|]. rewrite has_ws in H. by apply bool_decide_eq_false in H.
Qed.

(** The first token at a position that is not white space. *)
Lemma toks_cases m :
  match drop m s with [] => True | c :: _ => c ∉ whitespace end →
  match drop m s with
  | [] => toks m = []
  | c :: _ =>
      c ≠ 0 ∧
      (if decide (c = 62 ∧ cur (S m) = 62) then toks m = TApp :: toks (S (S m)) ∧ (S (S m) ≤ es s)%nat
       else if decide (c ∈ symbols) then toks m = TSym c :: toks (S m) ∧ (S m ≤ es s)%nat
       else let e := (m + run_len word_char (drop m s))%nat in
         toks m = TWord (sub m e) :: toks e ∧ span m e)
  end.
Proof.
  intros Hws. destruct (drop m s) as [|c l] eqn:E; [by unfold toks; rewrite E|].
  assert (drop (S m) s = l) as E1.
  { rewrite <- Nat.add_1_r, <- drop_drop, E. done. }
  assert (length s = m + S (length l))%nat as Hlen.
  { apply (f_equal length) in E. rewrite length_drop in E. simpl in E. lia. }
  split. { intros ->. apply nz. rewrite <- (take_drop m s), E. set_solver. }
  assert (∀ P Q, (if decide (c ∈ whitespace) then P else Q : list token) = Q) as Hnw by (intros; by rewrite decide_False).
  unfold toks, tokens. rewrite E. cbn [lex]. rewrite Hnw. unfold cur. rewrite E1.
  destruct (decide (c = 62)) as [->|Hc].
  - destruct l as [|c' l]; [|destruct (decide (c' = 62)) as [->|Hc']].
    + rewrite decide_False by (intros [_ ?]; done). rewrite decide_True by (unfold symbols; set_solver).
      unfold es. simpl in *. split; [done|lia].
    + rewrite decide_True by done. split; [|unfold es; simpl in *; lia].
      replace (drop (S (S m)) s) with l; [done|]. rewrite <- (Nat.add_1_r (S m)), <- drop_drop, E1. done.
    + rewrite decide_False by naive_solver. rewrite decide_True by (unfold symbols; set_solver).
      unfold es. simpl in *. split; [done|lia].
  - rewrite (decide_False (P := c = 62 ∧ _)) by naive_solver. destruct (decide (c ∈ symbols)) as [Hs|Hs]; [split; [done|unfold es; lia]|].
    assert (word_char c = true) as Hw by (by apply word_char_spec).
    replace (lex [c] l) with (lex [] (c :: l)) by (cbn [lex]; rewrite Hnw; by rewrite !decide_False).
    cbn zeta. rewrite lex_word. set (k := run_len word_char (c :: l)). rewrite app_nil_r, <- E, drop_drop.
    assert (sub m (m + k) = take k (c :: l)) as Hsub by (unfold sub; rewrite E; f_equal; lia).
    assert (0 < k ≤ S (length l))%nat as Hk.
    { split; [unfold k; cbn [run_len]; rewrite Hw; lia|]. apply (run_len_le word_char (c :: l)). }
    rewrite E, <- Hsub. split.
    + unfold flush. destruct (rev (sub m (m + k))) as [|x r] eqn:Er; [|by rewrite <- Er, rev_involutive].
      exfalso. apply (f_equal length) in Er. rewrite length_rev, Hsub, length_take in Er. simpl in Er. lia.
    + split; [unfold es; lia|]. split; [rewrite Hsub; apply take_run|].
      pose proof (drop_run word_char (c :: l)) as Hd. fold k in Hd. rewrite <- E, drop_drop in Hd.
      rewrite <- (Nat.add_0_r (m + k)), <- lookup_drop. by destruct (drop (m + k) s).
Qed.

(** Whether the next token starts with a symbol of the set. *)
Definition starts (set : list Z) (ts : list token) : bool :=
  match ts with
  | TSym c :: _ => bool_decide (c ∈ set)
  | TApp :: _ => bool_decide (62 ∈ set)
  | _ => false
  end.

Lemma peek_run set n :
  set ⊆ symbols → (n ≤ es s)%nat →
  ∃ n', peek s set n = Ok (starts set (toks n)) n' ∧ (n ≤ n' ≤ es s)%nat ∧ toks n' = toks n ∧ (toks n = [] → n' = es s).
Proof.
  intros Hset Hn. pose proof (skip_le n Hn) as Hs. exists (skip_ws s n).
  assert (0 ∉ set) as H0 by (intros H%Hset; unfold symbols in H; set_solver).
  unfold peek. rewrite (bind_run _ _ n (skip_ws s n) n) by done.
  rewrite (bind_run _ _ n tt (skip_ws s n)) by done.
  rewrite (bind_run _ _ _ _ _ (chr_run _ _ (proj2 Hs))).
  pose proof (toks_cases _ (skip_char n)) as Hc. rewrite toks_skip in Hc. unfold cur. rewrite toks_skip.
  destruct (drop (skip_ws s n) s) as [|c l] eqn:E.
  - rewrite Hc. split; [done|]. split; [lia|]. split; [done|]. intros _.
    apply (f_equal length) in E. rewrite length_drop in E. simpl in E. unfold es in *. lia.
  - destruct Hc as [Hc0 Hc]. rewrite (proj2 (Z.eqb_neq _ _)) by done. rewrite has_spec by done. simpl.
    case_decide as H1; [|case_decide as H2].
    + destruct Hc as [-> _]. destruct H1 as [-> _]. split; [done|]. split; [lia|]. done.
    + destruct Hc as [-> _]. split; [done|]. split; [lia|]. done.
    + destruct Hc as [-> _]. rewrite bool_decide_false by (intros H%Hset; done). split; [done|]. split; [lia|]. done.
Qed.
Lemma gettoken_run n :
  (n ≤ es s)%nat →
  ∃ r q e n', gettoken s n = Ok (r, q, e) n' ∧ (n' ≤ es s)%nat ∧
    match toks n with
    | [] => r = 0 ∧ n' = es s ∧ toks n' = []
    | t :: ts => toks n' = ts ∧ (n < n')%nat ∧
        match t with
        | TSym c => r = c ∧ c ∈ symbols
        | TApp => r = 43
        | TWord w => r = 97 ∧ sub q e = w ∧ span q e
        end
    end.
Proof.
  intros Hn. pose proof (skip_le n Hn) as Hs. set (q := skip_ws s n) in *.
  pose proof (toks_cases _ (skip_char n)) as Hc. fold q in Hc. unfold q in Hc at 2. rewrite <- (toks_skip n). fold q. fold q in Hc.
  unfold gettoken. rewrite (bind_run _ _ n q n) by done.
  rewrite (bind_run _ _ _ _ _ (chr_run _ _ (proj2 Hs))). fold (cur q) in *.
  assert (∀ c, has [124; 40; 41; 59; 38; 60] c = bool_decide (c ∈ [124; 40; 41; 59; 38; 60])) as Hh by (intros; apply has_spec; set_solver).
  unfold cur at 1 2 3 4 5 6. destruct (drop q s) as [|c l] eqn:E.
  { exists 0, q, q, (skip_ws s q). split; [done|]. rewrite Hc, toks_skip. pose proof (skip_le q ltac:(lia)).
    apply (f_equal length) in E. rewrite length_drop in E. unfold es in *. simpl in E. split; [lia|]. split; [done|]. split; [lia|done]. }
  destruct Hc as [H0 Hc]. rewrite (proj2 (Z.eqb_neq _ _)) by done. rewrite Hh.
  case_decide as H1; [|case_decide as H2].
  - destruct H1 as [-> H1], Hc as [-> Hle]. rewrite bool_decide_false by set_solver. simpl.
    rewrite (bind_run _ _ n (43, S (S q)) n).
    2: { rewrite (bind_run _ _ _ _ _ (chr_run (S q) n ltac:(lia))), H1. done. }
    exists 43, q, (S (S q)), (skip_ws s (S (S q))). split; [done|]. rewrite toks_skip.
    pose proof (skip_le (S (S q)) Hle). split; [lia|]. split; [done|]. split; [lia|done].
  - destruct Hc as [-> Hle]. rewrite (bind_run _ _ n (c, S q) n).
    2: { case_bool_decide as H3; [done|]. assert (c = 62) as -> by (unfold symbols in H2; set_solver). simpl.
         rewrite (bind_run _ _ _ _ _ (chr_run _ _ Hle)). rewrite (proj2 (Z.eqb_neq _ _)) by naive_solver. done. }
    exists c, q, (S q), (skip_ws s (S q)). split; [done|]. rewrite toks_skip.
    pose proof (skip_le (S q) Hle). split; [lia|]. split; [done|]. split; [lia|done].
  - set (e := (q + run_len word_char (drop q s))%nat) in *. rewrite <- E in Hc. fold e in Hc. destruct Hc as [-> Hsp].
    rewrite (bind_run _ _ n (97, e) n).
    2: { rewrite bool_decide_false by (unfold symbols in H2; set_solver).
         rewrite (proj2 (Z.eqb_neq _ _)) by (intros ->; apply H2; unfold symbols; set_solver). by unfold e; rewrite E. }
    destruct Hsp as (Hr&Hsp). exists 97, q, e, (skip_ws s e). split; [done|]. rewrite toks_skip.
    pose proof (skip_le e (proj2 Hr)). split; [lia|]. split; [done|]. split; [lia|done].
Qed.
End scan.

(** * Commands and their meaning

    [means W c t]: the command [c] has the structure of [t]; [W] says which word
    two positions stand for. *)

Definition argv_of (l : list nat) : list (option nat) := (Some <$> l) ++ replicate (MAXARGS - length l) None.

Inductive means (W : nat → nat → word → Prop) : cmd → tree → Prop :=
| m_exec qs es ws : (length qs < MAXARGS)%nat → length es = length qs →
    Forall2 (λ qe w, W qe.1 qe.2 w) (zip qs es) ws →
    means W (EXEC (argv_of qs) (argv_of es)) (TExec ws)
| m_redir c t q e w mode fd : means W c t → W q e w → means W (REDIR c q e mode fd) (TRedir t w mode fd)
| m_pipe c1 c2 t1 t2 : means W c1 t1 → means W c2 t2 → means W (PIPE c1 c2) (TPipe t1 t2)
| m_list c1 c2 t1 t2 : means W c1 t1 → means W c2 t2 → means W (LIST c1 c2) (TList t1 t2)
| m_back c t : means W c t → means W (BACK c) (TBack t).

Lemma length_argv_of l : (length l ≤ MAXARGS)%nat → length (argv_of l) = MAXARGS.
Proof. intros H. unfold argv_of. rewrite length_app, length_fmap, length_replicate. lia. Qed.

Lemma argv_of_snoc l x : (length l < MAXARGS)%nat → <[length l := Some x]> (argv_of l) = argv_of (l ++ [x]).
Proof.
  intros H. unfold argv_of. rewrite insert_app_r_alt by (rewrite length_fmap; lia).
  rewrite length_fmap, Nat.sub_diag, fmap_app, <- app_assoc, length_app. simpl.
  replace (MAXARGS - length l)%nat with (S (MAXARGS - (length l + 1)))%nat by lia. done.
Qed.

Lemma argv_of_end l : (length l < MAXARGS)%nat → <[length l := None]> (argv_of l) = argv_of l.
Proof.
  intros H. apply list_insert_id. unfold argv_of. rewrite lookup_app_r by (rewrite length_fmap; lia).
  rewrite length_fmap, Nat.sub_diag. apply lookup_replicate_2. lia.
Qed.

Fixpoint simple (t : tree) : Prop :=
  match t with TExec _ => True | TRedir t _ _ _ => simple t | _ => False end.

Lemma add_word_simple w t : simple t → simple (add_word w t) ∧ nargs (add_word w t) = S (nargs t).
Proof. induction t as [args|t IH f mode fd| | |]; simpl; try done. rewrite length_app. simpl. split; [done|lia]. Qed.

Lemma derives_simple k ts t : derives k ts t → k = Simple → simple t.
Proof.
  induction 1; try done; intros Hk; simpl; auto. by apply add_word_simple; auto.
Qed.

Section means.
Context (W : nat → nat → word → Prop).

Lemma execcmd_means : means W execcmd (TExec []).
Proof. apply (m_exec W [] [] []); [unfold MAXARGS; simpl; lia|done|constructor]. Qed.

Lemma set_arg_word c t q e w :
  means W c t → simple t → (nargs t < MAXARGS)%nat → W q e w →
  ∃ c', set_arg (nargs t) (Some q) (Some e) c = Some c' ∧
    ((S (nargs t) < MAXARGS)%nat → means W c' (add_word w t)).
Proof.
  intros Hm. induction Hm as [qs es ws H1 H2 H3|c t q' e' w' mode fd Hm IH HW'| | |]; simpl; try done.
  - intros _ Hn HW. pose proof (Forall2_length H3) as Hl. rewrite length_zip_with in Hl.
    assert (length ws = length qs) as Hws by lia. rewrite Hws in *. rewrite decide_True by done. eexists. split; [done|].
    intros Hmax. rewrite argv_of_snoc by done. rewrite <- H2 at 1. rewrite argv_of_snoc by lia.
    apply m_exec; [rewrite length_app; simpl; lia|rewrite !length_app; simpl; lia|].
    rewrite zip_with_app by done. apply Forall2_app; [done|]. by repeat constructor.
  - intros Hs Hn HW. destruct (IH Hs Hn HW) as (c'&->&Hm'). eexists. split; [done|]. constructor; auto.
Qed.

Lemma set_arg_end c t :
  means W c t → simple t → (nargs t < MAXARGS)%nat → set_arg (nargs t) None None c = Some c.
Proof.
  intros Hm. induction Hm as [qs es ws H1 H2 H3|c t q' e' w' mode fd Hm IH HW'| | |]; simpl; try done.
  - intros _ Hn. pose proof (Forall2_length H3) as Hl. rewrite length_zip_with in Hl.
    assert (length ws = length qs) as Hws by lia. rewrite Hws in *. rewrite decide_True by done.
    rewrite argv_of_end by done. rewrite <- H2 at 1. rewrite argv_of_end by lia. done.
  - intros Hs Hn. by rewrite IH.
Qed.
End means.

(** * Terminating the words *)

(** The positions nulterminate writes to. *)
Fixpoint ends_of (c : cmd) : list nat :=
  match c with
  | EXEC _ eargv => omap id eargv
  | REDIR c _ efile _ _ => ends_of c ++ [efile]
  | PIPE l r | LIST l r => ends_of l ++ ends_of r
  | BACK c => ends_of c
  end.
Definition zeros (l : list nat) (b : list Z) : list Z := foldl (λ b e, <[e := 0]> b) b l.

Lemma length_zeros l b : length (zeros l b) = length b.
Proof. revert b. induction l as [|e l IH]; intros b; simpl; [done|]. rewrite IH. apply length_insert. Qed.

Lemma lookup_zeros l b i :
  zeros l b !! i = if decide (i ∈ l ∧ i < length b)%nat then Some 0 else b !! i.
Proof.
  revert b. induction l as [|e l IH]; intros b; unfold zeros; cbn [foldl]; [|fold (zeros l (<[e := 0]> b))].
  { rewrite decide_False; [done|]. intros [?%not_elem_of_nil _]. done. }
  rewrite IH, length_insert. destruct (decide (i = e)) as [->|Hne].
  - destruct (decide (e < length b)%nat) as [Hlt|Hge].
    + rewrite list_lookup_insert_eq by done. repeat case_decide; set_solver.
    + rewrite list_insert_ge by lia. repeat case_decide; tauto.
  - rewrite list_lookup_insert_ne by done. repeat case_decide; set_solver.
Qed.

Lemma omap_argv_of l : omap id (argv_of l) = l.
Proof.
  unfold argv_of. rewrite omap_app. replace (omap id (replicate (MAXARGS - length l) None)) with (@nil nat).
  - rewrite app_nil_r. induction l as [|x l IH]; simpl; [done|by f_equal].
  - induction (MAXARGS - length l)%nat; simpl; [done|done].
Qed.

Lemma nulterminate_prefix qs es tl tl' b :
  length es = length qs → Forall (λ e, (e < length b)%nat) es →
  nulterminate_args ((Some <$> qs) ++ None :: tl) ((Some <$> es) ++ tl') b = Some (zeros es b).
Proof.
  revert es b. induction qs as [|q qs IH]; intros [|e es] b Hl Hb; try done.
  apply Forall_cons_1 in Hb as [He Hb]. rewrite !fmap_cons. cbn [app nulterminate_args]. unfold put_at.
  rewrite decide_True by done. cbn. apply IH; [simpl in Hl; lia|]. by rewrite length_insert.
Qed.

Lemma nulterminate_args_run qs es b :
  (length qs < MAXARGS)%nat → length es = length qs → Forall (λ e, (e < length b)%nat) es →
  nulterminate_args (argv_of qs) (argv_of es) b = Some (zeros es b).
Proof.
  unfold argv_of. intros Hq Hl Hb. replace (MAXARGS - length qs)%nat with (S (MAXARGS - S (length qs))) by lia.
  cbn [replicate]. by apply nulterminate_prefix.
Qed.

Lemma nulterminate_run W c t b :
  means W c t → Forall (λ e, (e < length b)%nat) (ends_of c) → nulterminate c b = Some (zeros (ends_of c) b).
Proof.
  intros Hm. revert b. induction Hm as [qs es ws H1 H2 H3|c t q e w mode fd Hm IH HW|c1 c2 t1 t2 H1 IH1 H2 IH2|c1 c2 t1 t2 H1 IH1 H2 IH2|c t Hm IH];
    intros b Hb; simpl in *.
  - rewrite omap_argv_of in *. by apply nulterminate_args_run.
  - apply Forall_app in Hb as [Hb [He _]%Forall_cons_1]. rewrite IH by done. simpl. unfold put_at.
    rewrite length_zeros, decide_True by done. unfold zeros. by rewrite foldl_app.
  - apply Forall_app in Hb as [Hb1 Hb2]. rewrite IH1 by done. simpl. rewrite IH2 by (by rewrite length_zeros).
    unfold zeros. by rewrite foldl_app.
  - apply Forall_app in Hb as [Hb1 Hb2]. rewrite IH1 by done. simpl. rewrite IH2 by (by rewrite length_zeros).
    unfold zeros. by rewrite foldl_app.
  - by apply IH.
Qed.

Lemma means_mono W W' c t :
  means W c t → (∀ q e w, e ∈ ends_of c → W q e w → W' q e w) → means W' c t.
Proof.
  intros Hm. induction Hm as [qs es ws H1 H2 H3|c t q e w mode fd Hm IH HW|c1 c2 t1 t2 H1 IH1 H2 IH2|c1 c2 t1 t2 H1 IH1 H2 IH2|c t Hm IH];
    simpl; intros HWW.
  - constructor; [done..|]. rewrite omap_argv_of in HWW.
    apply Forall2_same_length_lookup_2; [by eapply Forall2_length|].
    intros i [q e] w Hi Hw. simpl. apply HWW.
    + apply lookup_zip_with_Some in Hi as (q'&e'&[= <- <-]&_&He). by eapply list_elem_of_lookup_2.
    + by apply (Forall2_lookup_lr _ _ _ _ _ _ H3 Hi Hw).
  - constructor; [apply IH|apply HWW; [set_solver|done]]. intros. apply HWW; [set_solver|done].
  - constructor; [apply IH1|apply IH2]; intros; apply HWW; set_solver.
  - constructor; [apply IH1|apply IH2]; intros; apply HWW; set_solver.
  - constructor. by apply IH.
Qed.

Lemma means_ends W c t e : means W c t → e ∈ ends_of c → ∃ q w, W q e w.
Proof.
  intros Hm. induction Hm as [qs es ws H1 H2 H3|c t q e' w mode fd Hm IH HW| | |]; simpl.
  - rewrite omap_argv_of. intros [i Hi]%list_elem_of_lookup.
    destruct (lookup_lt_is_Some_2 qs i) as [q Hq]; [apply lookup_lt_Some in Hi; lia|].
    assert (zip qs es !! i = Some (q, e)) as Hz by (apply lookup_zip_with_Some; by exists q, e).
    destruct (Forall2_lookup_l _ _ _ _ _ H3 Hz) as (w&_&HW). by exists q, w.
  - intros [He| ->%list_elem_of_singleton]%elem_of_app; [auto|by exists q, w].
  - intros [?|?]%elem_of_app; auto.
  - intros [?|?]%elem_of_app; auto.
  - done.
Qed.

(** A null-terminated string in a buffer. *)
Definition cstring (b : list Z) (q : nat) (w : word) : Prop :=
  take (length w) (drop q b) = w ∧ b !! (q + length w)%nat = Some 0 ∧ 0 ∉ w.
