(* ===== verification/ShParse.v ===== *)
(** The parser of the shell decides its language (sh.c, definitions in Sh.v).

    [sound] is what every parsing function promises on every input: it returns,
    and then has consumed tokens that the grammar derives at its level, or it
    panics.  [complete] is the converse.  Both rest on the same measure: the fuel
    is at least four times the number of characters that are left, since between
    two calls at the same level a character is consumed. *)

From S2P Require Import Prelude Ulib Sysfile Sh.

(** The code returns and the post-condition holds, or it panics. *)
Definition wpp {St A} (m : M St A) (Q : A → St → Prop) (s : St) : Prop :=
  match m s with Ok a s' => Q a s' | Fail (Panic _) => True | _ => False end.

Lemma wpp_bind {St A B} (m : M St A) (k : A → M St B) Q s :
  wpp (m ≫= k) Q s ↔ wpp m (λ a s', wpp (k a) Q s') s.
Proof. unfold wpp, mbind, M_bind. by destruct (m s) as [| |[]]. Qed.

Lemma wpp_run {St A} (m : M St A) (Q : A → St → Prop) s a s' : m s = Ok a s' → Q a s' → wpp m Q s.
Proof. unfold wpp. by intros ->. Qed.

Lemma wpp_mono {St A} (m : M St A) (P Q : A → St → Prop) s :
  wpp m P s → (∀ a s', P a s' → Q a s') → wpp m Q s.
Proof. unfold wpp. destruct (m s) as [| |[]]; naive_solver. Qed.

Lemma wpp_panic {St A} msg (Q : A → St → Prop) s : wpp (panic msg) Q s.
Proof. done. Qed.

Section parse.
Context (s : list Z) (nz : 0 ∉ s).

Notation es := (es s).
Notation toks := (toks s).

(** The word between two positions of the line. *)
Definition at_line (q e : nat) (w : word) : Prop := span s q e ∧ w = sub s q e.
Notation means := (means at_line).

Lemma wpp_peek set Q n :
  set ⊆ symbols → (n ≤ es)%nat →
  (∀ n', (n ≤ n' ≤ es)%nat → toks n' = toks n → (toks n = [] → n' = es) → Q (starts set (toks n)) n') →
  wpp (peek s set) Q n.
Proof. intros Hs Hn HQ. destruct (peek_run s nz set n Hs Hn) as (n'&Hr&?&?&?). eapply wpp_run; [exact Hr|auto]. Qed.

(** What gettoken returns for the tokens that are left. *)
Definition scanned (ts : list token) (r : Z) (q e n n' : nat) : Prop :=
  match ts with
  | [] => r = 0 ∧ n' = es ∧ toks n' = []
  | t :: ts => toks n' = ts ∧ (n < n')%nat ∧
      match t with
      | TSym c => r = c ∧ c ∈ symbols
      | TApp => r = 43
      | TWord w => r = 97 ∧ sub s q e = w ∧ span s q e
      end
  end.

Lemma wpp_gettoken Q n :
  (n ≤ es)%nat → (∀ r q e n', (n' ≤ es)%nat → scanned (toks n) r q e n n' → Q (r, q, e) n') → wpp (gettoken s) Q n.
Proof. intros Hn HQ. destruct (gettoken_run s nz n Hn) as (r&q&e&n'&Hr&?&?). eapply wpp_run; [exact Hr|auto]. Qed.

Lemma sym_codes c : c ∈ symbols → c ≠ 0 ∧ c ≠ 43 ∧ c ≠ 97.
Proof. unfold symbols. intros H. repeat (apply elem_of_cons in H as [->|H]; [done|]). by apply not_elem_of_nil in H. Qed.

Lemma scanned_word ts q e n n' :
  scanned ts 97 q e n n' → ∃ w ts', ts = TWord w :: ts' ∧ toks n' = ts' ∧ (n < n')%nat ∧ at_line q e w.
Proof.
  destruct ts as [|[c| |w] ts]; simpl; [naive_solver| | |].
  - intros (_&_&<-&H%sym_codes). naive_solver.
  - naive_solver.
  - intros (?&?&_&<-&?). by eexists _, _.
Qed.

Lemma scanned_end ts q e n n' : scanned ts 0 q e n n' → ts = [] ∧ toks n' = [] ∧ n' = es.
Proof.
  destruct ts as [|[c| |w] ts]; simpl; [naive_solver| |naive_solver..].
  intros (_&_&<-&H%sym_codes). naive_solver.
Qed.

Lemma scanned_sym c ts r q e n n' : scanned (TSym c :: ts) r q e n n' → toks n' = ts ∧ (n < n')%nat.
Proof. unfold scanned. naive_solver. Qed.

(** The command parseredirs builds for a redirection. *)
Definition redirected (tok : Z) (c : cmd) (q e : nat) : cmd :=
  if tok =? 60 then redircmd c q e O_RDONLY 0
  else if tok =? 62 then redircmd c q e (Z.lor O_WRONLY O_CREATE) 1
  else if tok =? 43 then redircmd c q e (Z.lor O_WRONLY O_CREATE) 1
  else c.

Lemma scanned_redir ts r q e n n' :
  starts [60; 62] ts = true → scanned ts r q e n n' →
  ∃ t ts' mode fd, ts = t :: ts' ∧ direction t = Some (mode, fd) ∧ toks n' = ts' ∧ (n < n')%nat ∧
    ∀ c q' e', redirected r c q' e' = REDIR c q' e' mode fd.
Proof.
  destruct ts as [|[c| |w] ts]; simpl; [done| | |done].
  - intros Hc%bool_decide_eq_true (?&?&->&_). apply elem_of_cons in Hc as [->|Hc%list_elem_of_singleton]; [|subst];
      by eexists _, _, _, _.
  - intros _ (?&?&->). by eexists _, _, _, _.
Qed.

Lemma starts_one c ts : starts [c] ts = true → c ≠ 62 → ∃ ts', ts = TSym c :: ts'.
Proof.
  destruct ts as [|[c'| |w] ts]; simpl; try done; intros H%bool_decide_eq_true%list_elem_of_singleton Hc.
  - subst. by eexists.
  - done.
Qed.

Lemma toks_es : toks es = [].
Proof. unfold Sh.toks, Sh.es. by rewrite drop_all. Qed.

(** What a parsing function at level [k] promises. *)
Definition result (k : level) (n : nat) (c : cmd) (n' : nat) : Prop :=
  (n ≤ n' ≤ es)%nat ∧ ∃ ts t, toks n = ts ++ toks n' ∧ derives k ts t ∧ means c t.

(** What a loop promises that has consumed [ts0], which derives [t0]. *)
Definition continues (k : level) (ts0 : list token) (t0 : tree) (n : nat) (c : cmd) (n' : nat) : Prop :=
  (n ≤ n' ≤ es)%nat ∧
  ∃ ts t, toks n = ts ++ toks n' ∧ derives k (ts0 ++ ts) t ∧ means c t ∧ nargs t = nargs t0.

Lemma redirs_sound k f ts0 t0 c n :
  k = Simple ∨ k = Block → derives k ts0 t0 → means c t0 → (n ≤ es)%nat → (es - n ≤ f)%nat →
  wpp (parseredirs s f c) (continues k ts0 t0 n) n.
Proof.
  intros Hk. revert ts0 t0 c n. induction f as [|f IH]; intros ts0 t0 c n Hd Hm Hn Hf;
    cbn [parseredirs]; apply wpp_bind, wpp_peek; [by unfold symbols; set_solver|done| |by unfold symbols; set_solver|done|];
    intros n1 Hn1 Ht1 He1; destruct (starts [60; 62] (toks n)) eqn:Hst; simpl.
  1: { assert (n = es) as -> by lia. by rewrite toks_es in Hst. }
  1,3: split; [lia|]; exists [], t0; rewrite app_nil_r, Ht1; done.
  apply wpp_bind, wpp_gettoken; [lia|]. intros r q e n2 Hn2 H2. rewrite Ht1 in H2.
  destruct (scanned_redir _ _ _ _ _ _ Hst H2) as (t&ts1&mode&fd&Hts&Hdir&Ht2&Hlt2&Hred).
  apply wpp_bind, wpp_gettoken; [lia|]. intros r' q' e' n3 Hn3 H3. simpl.
  destruct (Z.eqb_spec r' 97) as [->|]; simpl; [|done].
  destruct (scanned_word _ _ _ _ _ H3) as (w&ts2&Hts2&Ht3&Hlt3&Hw).
  fold (redirected r c q' e'). rewrite Hred.
  eapply wpp_mono; [apply (IH (ts0 ++ [t; TWord w]) (TRedir t0 w mode fd)); [by constructor|by constructor|done|lia]|].
  intros c' n' (Hr&ts&t'&Ht&Hd'&Hm'&Hn'). split; [lia|]. exists (t :: TWord w :: ts), t'.
  split; [by rewrite Hts, <- Ht2, Hts2, <- Ht3, Ht|]. rewrite <- app_assoc in Hd'. done.
Qed.

(** The loop over the arguments has the arguments of [t0]. *)
Lemma args_sound f ts0 t0 c n :
  derives Simple ts0 t0 → means c t0 → (nargs t0 < MAXARGS)%nat → (n ≤ es)%nat → (es - n < f)%nat →
  wpp (parseargs s f (nargs t0) c) (λ r n', (n ≤ n' ≤ es)%nat ∧
    ∃ ts t, toks n = ts ++ toks n' ∧ derives Simple (ts0 ++ ts) t ∧ means r.2 t ∧ r.1 = nargs t ∧ (nargs t < MAXARGS)%nat) n.
Proof.
  revert ts0 t0 c n. induction f as [|f IH]; intros ts0 t0 c n Hd Hm Hlt Hn Hf; [lia|].
  cbn [parseargs]. apply wpp_bind, wpp_peek; [by unfold symbols; set_solver|done|].
  intros n1 Hn1 Ht1 He1. destruct (starts [124; 41; 38; 59] (toks n)) eqn:Hst.
  { split; [lia|]. exists [], t0. rewrite app_nil_r, Ht1. done. }
  apply wpp_bind, wpp_gettoken; [lia|]. intros r q e n2 Hn2 H2. rewrite Ht1 in H2.
  destruct (Z.eqb_spec r 0) as [->|Hr0].
  { destruct (scanned_end _ _ _ _ _ H2) as (He&He'&Hn'). split; [lia|]. exists [], t0. rewrite app_nil_r, He, He'. done. }
  destruct (Z.eqb_spec r 97) as [->|Hr]; simpl; [|done].
  destruct (scanned_word _ _ _ _ _ H2) as (w&ts2&Hts2&Ht2&Hlt2&Hw).
  pose proof (derives_simple _ _ _ Hd eq_refl) as Hsim. destruct (add_word_simple w t0 Hsim) as [_ Hna].
  destruct (set_arg_word at_line c t0 q e w Hm Hsim Hlt Hw) as (c'&Hset&Hm').
  apply wpp_bind. rewrite Hset. simpl. unfold wpp, the, mret, M_ret.
  case_decide as Hmax; [done|]. specialize (Hm' ltac:(lia)). apply wpp_bind.
  eapply wpp_mono; [apply (redirs_sound Simple f (ts0 ++ [TWord w]) (add_word w t0)); [by left| |done|done|lia]|].
  { constructor; [done|lia]. }
  intros c2 n3 (Hr3&ts3&t3&Ht3&Hd3&Hm3&Hn3). rewrite <- Hna, <- Hn3.
  eapply wpp_mono; [apply (IH _ t3 c2 n3 Hd3 Hm3); lia|].
  intros [argc c4] n4 (Hr4&ts4&t4&Ht4&Hd4&Hm4&Ha4&Hl4). split; [lia|].
  exists (TWord w :: ts3 ++ ts4), t4. split_and!; try done.
  - rewrite Hts2, <- Ht2, Ht3, Ht4. simpl. by rewrite app_assoc.
  - rewrite <- !app_assoc in Hd4. done.
Qed.

Lemma amps_sound f ts0 t0 c n :
  derives Job ts0 t0 → means c t0 → (n ≤ es)%nat → (es - n ≤ f)%nat →
  wpp (parseamps s f c) (λ c' n', (n ≤ n' ≤ es)%nat ∧
    ∃ ts t, toks n = ts ++ toks n' ∧ derives Job (ts0 ++ ts) t ∧ means c' t) n.
Proof.
  revert ts0 t0 c n. induction f as [|f IH]; intros ts0 t0 c n Hd Hm Hn Hf;
    cbn [parseamps]; apply wpp_bind, wpp_peek; [by unfold symbols; set_solver|done| |by unfold symbols; set_solver|done|];
    intros n1 Hn1 Ht1 He1; destruct (starts [38] (toks n)) eqn:Hst; simpl.
  1: { assert (n = es) as -> by lia. by rewrite toks_es in Hst. }
  1,3: split; [lia|]; exists [], t0; rewrite app_nil_r, Ht1; done.
  destruct (starts_one _ _ Hst) as [ts Hts]; [done|].
  apply wpp_bind, wpp_gettoken; [lia|]. intros r q e n2 Hn2 H2. rewrite Ht1, Hts in H2.
  apply scanned_sym in H2 as [Ht2 Hlt2].
  eapply wpp_mono; [apply (IH (ts0 ++ [TSym 38]) (TBack t0)); [by constructor|by constructor|done|lia]|].
  intros c' n' (Hr&ts'&t'&Ht&Hd'&Hm'). split; [lia|]. exists (TSym 38 :: ts'), t'.
  split; [by rewrite Hts, <- Ht2, Ht|]. rewrite <- app_assoc in Hd'. done.
Qed.

Definition sound (k : level) (m : M nat cmd) (n : nat) : Prop := wpp m (result k n) n.

Lemma result_shift k n n1 c n' : toks n1 = toks n → (n ≤ n1)%nat → result k n1 c n' → result k n c n'.
Proof. intros Ht Hle (Hr&ts&t&Hts&?). split; [lia|]. exists ts, t. by rewrite <- Ht. Qed.

(** A command followed by a symbol and another one, as in a pipeline or a list. *)
Lemma pair_sound k1 k2 sym (m : M nat cmd) (f : cmd → cmd → cmd) (g : tree → tree → tree) n :
  sym ∈ symbols → sym ≠ 62 →
  (∀ ts1 ts2 t1 t2, derives k1 ts1 t1 → derives k2 ts2 t2 → derives k2 (ts1 ++ TSym sym :: ts2) (g t1 t2)) →
  (∀ ts t, derives k1 ts t → derives k2 ts t) →
  (∀ c1 c2 t1 t2, means c1 t1 → means c2 t2 → means (f c1 c2) (g t1 t2)) →
  (∀ n', (n < n' ≤ es)%nat → sound k2 m n') →
  ∀ c n', result k1 n c n' →
  wpp (b ← peek s [sym]; if (b : bool) then gettoken s;; r ← m; mret (f c r) else mret c) (result k2 n) n'.
Proof.
  intros Hsym Hne Hpair Hone Hf Hm c n' (Hr&ts1&t1&Hts1&Hd1&Hm1).
  apply wpp_bind, wpp_peek; [set_solver|lia|]. intros n1 Hn1 Ht1 He1.
  destruct (starts [sym] (toks n')) eqn:Hst.
  - destruct (starts_one _ _ Hst Hne) as [ts Hts].
    apply wpp_bind, wpp_gettoken; [lia|]. intros r q e n2 Hn2 H2. rewrite Ht1, Hts in H2.
    apply scanned_sym in H2 as [Ht2 Hlt2]. apply wpp_bind.
    eapply wpp_mono; [apply (Hm n2); lia|]. intros c2 n3 (Hr3&ts2&t2&Hts2&Hd2&Hm2).
    split; [lia|]. exists (ts1 ++ TSym sym :: ts2), (g t1 t2). split; [|auto].
    rewrite Hts1, Hts, <- Ht2, Hts2. by rewrite <- app_assoc.
  - split; [lia|]. exists ts1, t1. rewrite Ht1. auto.
Qed.

Lemma parse_sound f :
  (∀ n, (n ≤ es → 4 * (es - n) + 4 ≤ f)%nat → (n ≤ es)%nat → sound Line (parseline s f) n) ∧
  (∀ n, (n ≤ es → 4 * (es - n) + 3 ≤ f)%nat → (n ≤ es)%nat → sound Pipeline (parsepipe s f) n) ∧
  (∀ n, (n ≤ es → 4 * (es - n) + 1 ≤ f)%nat → (n ≤ es)%nat → sound Block (parseblock s f) n) ∧
  (∀ n, (n ≤ es → 4 * (es - n) + 2 ≤ f)%nat → (n ≤ es)%nat → sound Command (parseexec s f) n).
Proof.
  induction f as [|f (IHl&IHp&IHb&IHe)]; [split_and!; intros n Hf Hn; specialize (Hf Hn); lia|].
  split_and!; intros n Hf Hn; specialize (Hf Hn); unfold sound;
    [cbn [parseline]|cbn [parsepipe]|cbn [parseblock]|cbn [parseexec]].
  - apply wpp_bind. eapply wpp_mono; [apply (IHp n); lia|]. intros c n1 (Hr1&ts1&t1&Hts1&Hd1&Hm1).
    apply wpp_bind. eapply wpp_mono; [apply (amps_sound f ts1 t1 c n1); [by constructor|done|lia|lia]|].
    intros c2 n2 (Hr2&ts2&t2&Hts2&Hd2&Hm2).
    eapply (pair_sound Job Line 59 _ LIST TList); [unfold symbols; set_solver|done|by constructor..| |].
    + intros n3 Hn3. apply IHl; lia.
    + split; [lia|]. exists (ts1 ++ ts2), t2. split; [by rewrite Hts1, Hts2, app_assoc|done].
  - apply wpp_bind. eapply wpp_mono; [apply (IHe n); lia|]. intros c n1 Hr1.
    eapply (pair_sound Command Pipeline 124 _ PIPE TPipe); [unfold symbols; set_solver|done|by constructor..| |done].
    intros n3 Hn3. apply IHp; lia.
  - apply wpp_bind, wpp_peek; [unfold symbols; set_solver|done|]. intros n1 Hn1 Ht1 He1.
    destruct (starts [40] (toks n)) eqn:Hst; simpl; [|done]. destruct (starts_one _ _ Hst) as [ts Hts]; [done|].
    apply wpp_bind, wpp_gettoken; [lia|]. intros r q e n2 Hn2 H2. rewrite Ht1, Hts in H2.
    apply scanned_sym in H2 as [Ht2 Hlt2]. apply wpp_bind. eapply wpp_mono; [apply (IHl n2); lia|].
    intros c n3 (Hr3&ts3&t3&Hts3&Hd3&Hm3).
    apply wpp_bind, wpp_peek; [unfold symbols; set_solver|lia|]. intros n4 Hn4 Ht4 He4.
    destruct (starts [41] (toks n3)) eqn:Hst3; simpl; [|done]. destruct (starts_one _ _ Hst3) as [ts5 Hts5]; [done|].
    apply wpp_bind, wpp_gettoken; [lia|]. intros r' q' e' n5 Hn5 H5. rewrite Ht4, Hts5 in H5.
    apply scanned_sym in H5 as [Ht5 Hlt5].
    eapply wpp_mono; [apply (redirs_sound Block f (TSym 40 :: ts3 ++ [TSym 41]) t3 c n5); [by right|by constructor|done|lia|lia]|].
    intros c6 n6 (Hr6&ts6&t6&Hts6&Hd6&Hm6&_). split; [lia|]. exists (TSym 40 :: ts3 ++ TSym 41 :: ts6), t6.
    simpl in Hd6. rewrite <- app_assoc in Hd6. split; [|done]. rewrite Hts, <- Ht2, Hts3, Hts5, <- Ht5, Hts6. simpl. by rewrite <- app_assoc.
  - apply wpp_bind, wpp_peek; [unfold symbols; set_solver|done|]. intros n1 Hn1 Ht1 He1.
    destruct (starts [40] (toks n)) eqn:Hst.
    + eapply wpp_mono; [apply (IHb n1); lia|]. intros c n2 Hr. apply (result_shift _ _ n1); [done|lia|].
      destruct Hr as (Hr&ts&t&Hts&Hd&Hm). split; [done|]. exists ts, t. split; [done|]. split; [|done]. eapply d_command; [by right|done].
    + apply wpp_bind. eapply wpp_mono; [apply (redirs_sound Simple f [] (TExec [])); [by left|constructor|apply execcmd_means|lia|lia]|].
      intros c n2 (Hr2&ts2&t2&Hts2&Hd2&Hm2&Hn2). simpl in Hn2. apply wpp_bind. rewrite <- Hn2.
      eapply wpp_mono; [apply (args_sound f ts2 t2 c n2 Hd2 Hm2); unfold MAXARGS; lia|].
      intros [argc c3] n3 (Hr3&ts3&t3&Hts3&Hd3&Hm3&->&Hl3). simpl in *.
      rewrite (set_arg_end at_line _ t3 Hm3) by (done || by eapply derives_simple). simpl.
      split; [lia|]. exists (ts2 ++ ts3), t3. split; [by rewrite <- Ht1, Hts2, Hts3, app_assoc|].
      split; [eapply d_command; [by left|done]|done].
Qed.

(** ** Every line of the language is accepted *)

Lemma wp_peek set Q n :
  set ⊆ symbols → (n ≤ es)%nat →
  (∀ n', (n ≤ n' ≤ es)%nat → toks n' = toks n → (toks n = [] → n' = es) → Q (starts set (toks n)) n') →
  wp (peek s set) Q n.
Proof. intros Hs Hn HQ. destruct (peek_run s nz set n Hs Hn) as (n'&Hr&?&?&?). eapply wp_eq; [exact Hr|auto]. Qed.

Lemma wp_gettoken Q n :
  (n ≤ es)%nat → (∀ r q e n', (n' ≤ es)%nat → scanned (toks n) r q e n n' → Q (r, q, e) n') → wp (gettoken s) Q n.
Proof. intros Hn HQ. destruct (gettoken_run s nz n Hn) as (r&q&e&n'&Hr&?&?). eapply wp_eq; [exact Hr|auto]. Qed.

(** A symbol that is expected is found and consumed. *)
Lemma wp_symbol {A} sym (m : bool → M nat A) Q n ts :
  sym ∈ symbols → (n ≤ es)%nat → toks n = TSym sym :: ts →
  (∀ n1, (n ≤ n1 ≤ es)%nat → toks n1 = TSym sym :: ts → wp (m true) Q n1) →
  wp (b ← peek s [sym]; m b) Q n.
Proof.
  intros Hsym Hn Hts Hm. apply wp_bind, wp_peek; [set_solver|done|]. intros n1 Hn1 Ht1 _. rewrite Hts in *. simpl.
  rewrite bool_decide_true by set_solver. by apply Hm.
Qed.

Lemma wp_consume {A} sym (m : M nat A) Q n ts :
  (n ≤ es)%nat → toks n = TSym sym :: ts →
  (∀ n1, (n < n1 ≤ es)%nat → toks n1 = ts → wp m Q n1) → wp (gettoken s;; m) Q n.
Proof.
  intros Hn Hts Hm. apply wp_bind, wp_gettoken; [done|]. intros r q e n1 Hn1 H1. rewrite Hts in H1.
  apply scanned_sym in H1 as [??]. apply Hm; [lia|done].
Qed.

Lemma redir_step f c Q n r w ts mode fd :
  (n ≤ es)%nat → (es - n ≤ f)%nat → toks n = r :: TWord w :: ts → direction r = Some (mode, fd) →
  (∀ f' q e n', (n ≤ n' ≤ es)%nat → (es - n' ≤ f')%nat → toks n' = ts → at_line q e w →
     wp (parseredirs s f' (REDIR c q e mode fd)) Q n') →
  wp (parseredirs s f c) Q n.
Proof.
  intros Hn Hf Hts Hdir HQ.
  assert (starts [60; 62] (toks n) = true) as Hst.
  { rewrite Hts. destruct r as [x| |]; simpl in *; [|done..]. apply bool_decide_eq_true.
    destruct (decide (x = 60)) as [->|]; [set_solver|]. destruct (decide (x = 62)) as [->|]; [set_solver|].
    exfalso. destruct x as [|x|x]; try done. repeat (destruct x as [x|x|]; try done). }
  destruct f as [|f]; [assert (n = es) as -> by lia; by rewrite toks_es in Hst|]. cbn [parseredirs].
  apply wp_bind, wp_peek; [unfold symbols; set_solver|done|]. intros n1 Hn1 Ht1 _. rewrite Hst. simpl.
  apply wp_bind, wp_gettoken; [lia|]. intros r1 q1 e1 n2 Hn2 H2. rewrite Ht1 in H2.
  destruct (scanned_redir _ _ _ _ _ _ Hst H2) as (t&ts1&mode'&fd'&Hts1&Hdir'&Ht2&Hlt2&Hred).
  rewrite Hts in Hts1. injection Hts1 as <- <-. rewrite Hdir in Hdir'. injection Hdir' as <- <-.
  apply wp_bind, wp_gettoken; [lia|]. intros r2 q2 e2 n3 Hn3 H3. rewrite Ht2 in H3. simpl in H3.
  destruct H3 as (Ht3&Hlt3&->&Hsub&Hsp). simpl. fold (redirected r1 c q2 e2). rewrite Hred. apply HQ; [lia|lia|done|by split].
Qed.

Lemma redir_stop f c Q n :
  (n ≤ es)%nat → starts [60; 62] (toks n) = false →
  (∀ n', (n ≤ n' ≤ es)%nat → toks n' = toks n → Q c n') → wp (parseredirs s f c) Q n.
Proof.
  intros Hn Hst HQ. destruct f; cbn [parseredirs];
    (apply wp_bind, wp_peek; [unfold symbols; set_solver|done|]; intros n1 Hn1 Ht1 _; rewrite Hst; simpl; by apply HQ).
Qed.

(** The tokens that may follow a command at each level. *)
Definition ends (set : list Z) (ts : list token) : Prop := ts = [] ∨ starts set ts = true.

Lemma ends_not set set' ts : ends set ts → (∀ c, c ∈ set → c ∉ set') → 62 ∉ set → starts set' ts = false.
Proof.
  intros [->|H] Hd H62; [done|]. destruct ts as [|[c| |w] ts]; simpl in *; try done; apply bool_decide_eq_true in H.
  - apply bool_decide_eq_false. by apply Hd.
  - done.
Qed.

Lemma ends_mono set set' ts : ends set ts → set ⊆ set' → ends set' ts.
Proof.
  intros [->|H] Hs; [by left|right]. destruct ts as [|[c| |w] ts]; simpl in *; try done;
    apply bool_decide_eq_true in H; apply bool_decide_eq_true; by apply Hs.
Qed.

Definition complete (k : level) (ts : list token) (t : tree) : Prop :=
  match k with
  | Line => ∀ n f rest Q, (n ≤ es)%nat → toks n = ts ++ rest → (4 * (es - n) + 4 ≤ f)%nat → ends [41] rest →
      (∀ c n', (n ≤ n' ≤ es)%nat → toks n' = rest → means c t → Q c n') → wp (parseline s f) Q n
  | Job => ∀ n f fa rest Q, (n ≤ es)%nat → toks n = ts ++ rest → (4 * (es - n) + 3 ≤ f)%nat → (es - n ≤ fa)%nat →
      ends [41; 59; 38] rest →
      (∀ c n' fa', (n ≤ n' ≤ es)%nat → toks n' = rest → means c t → (es - n' ≤ fa')%nat → wp (parseamps s fa' c) Q n') →
      wp (c ← parsepipe s f; parseamps s fa c) Q n
  | Pipeline => ∀ n f rest Q, (n ≤ es)%nat → toks n = ts ++ rest → (4 * (es - n) + 3 ≤ f)%nat → ends [41; 59; 38] rest →
      (∀ c n', (n ≤ n' ≤ es)%nat → toks n' = rest → means c t → Q c n') → wp (parsepipe s f) Q n
  | Command => ∀ n f rest Q, (n ≤ es)%nat → toks n = ts ++ rest → (4 * (es - n) + 2 ≤ f)%nat → ends [41; 59; 38; 124] rest →
      (∀ c n', (n ≤ n' ≤ es)%nat → toks n' = rest → means c t → Q c n') → wp (parseexec s f) Q n
  | Simple => ∀ n fr fa rest Q, (n ≤ es)%nat → toks n = ts ++ rest → (es - n ≤ fr)%nat → (es - n < fa)%nat →
      (∀ c n' fr' fa', (n ≤ n' ≤ es)%nat → toks n' = rest → means c t → (es - n' ≤ fr')%nat → (es - n' < fa')%nat →
         wp (ret ← parseredirs s fr' c; parseargs s fa' (nargs t) ret) Q n') →
      wp (ret ← parseredirs s fr execcmd; parseargs s fa 0 ret) Q n
  | Block => ∀ n f rest Q, (n ≤ es)%nat → toks n = ts ++ rest → (4 * (es - n) + 1 ≤ f)%nat →
      (∀ c n' fr', (n ≤ n' ≤ es)%nat → toks n' = rest → means c t → (es - n' ≤ fr')%nat → wp (parseredirs s fr' c) Q n') →
      wp (parseblock s f) Q n
  end.

Lemma word_step fr fa c t w rest Q n :
  simple t → means c t → (S (nargs t) < MAXARGS)%nat → (n ≤ es)%nat → toks n = TWord w :: rest → (es - n < fa)%nat →
  (∀ c' n' f', (n ≤ n' ≤ es)%nat → toks n' = rest → means c' (add_word w t) → (es - n' < f')%nat →
     wp (ret ← parseredirs s f' c'; parseargs s f' (S (nargs t)) ret) Q n') →
  wp (ret ← parseredirs s fr c; parseargs s fa (nargs t) ret) Q n.
Proof.
  intros Hsim Hm Hmax Hn Hts Hfa HQ. apply wp_bind, redir_stop; [done|by rewrite Hts|]. intros n1 Hn1 Ht1.
  destruct fa as [|fa]; [lia|]. cbn [parseargs].
  apply wp_bind, wp_peek; [unfold symbols; set_solver|lia|]. intros n2 Hn2 Ht2 _. rewrite Ht1, Hts. simpl.
  apply wp_bind, wp_gettoken; [lia|]. intros r q e n3 Hn3 H3. rewrite Ht2, Ht1, Hts in H3.
  destruct H3 as (Ht3&Hlt3&->&Hsub&Hsp). simpl.
  destruct (set_arg_word at_line c t q e w Hm Hsim ltac:(lia)) as (c'&Hset&Hm'); [by split|]. specialize (Hm' Hmax).
  apply wp_bind. rewrite Hset. apply wp_ret. rewrite decide_False by lia. apply HQ; [lia|done|done|lia].
Qed.

Lemma derives_nargs k ts t : derives k ts t → k = Simple → (nargs t < MAXARGS)%nat.
Proof.
  induction 1 as [|ts t w Hd IH Hlt|k ts t r w mode fd Hk Hd IH Hdir| | | | | | | |]; try done; intros E.
  - simpl. unfold MAXARGS. lia.
  - rewrite (proj2 (add_word_simple w t (derives_simple _ _ _ Hd eq_refl))). lia.
Qed.

Lemma direction_not_paren r md : direction r = Some md → r ≠ TSym 40.
Proof. by intros H ->. Qed.

(** How a command starts tells which kind it is. *)
Lemma derives_start k ts t :
  derives k ts t →
  match k with
  | Simple => ∀ rest, starts [40] rest = false → starts [40] (ts ++ rest) = false
  | Block => ∃ ts', ts = TSym 40 :: ts'
  | _ => True
  end.
Proof.
  induction 1 as [|ts t w Hd IH Hlt|k ts t r w mode fd Hk Hd IH Hdir| | | | | | | |]; try done.
  - intros rest Hr. rewrite <- app_assoc. by apply IH.
  - destruct Hk as [->| ->].
    + intros rest Hr. rewrite <- app_assoc. apply IH. destruct r as [c| |]; simpl; try done.
      apply bool_decide_eq_false. intros ->%list_elem_of_singleton. done.
    + destruct IH as [ts' ->]. by eexists.
  - by eexists.
Qed.

Lemma exec_complete k ts t :
  k = Simple ∨ k = Block → derives k ts t → complete k ts t → complete Command ts t.
Proof.
  intros Hk Hd Hc n f rest Q Hn Hts Hf Hend HQ. destruct f as [|f]; [lia|]. cbn [parseexec].
  assert (starts [40] rest = false) as Hr40.
  { apply (ends_not [41; 59; 38; 124]); [done|set_solver|set_solver]. }
  assert (starts [60; 62] rest = false) as Hr60.
  { apply (ends_not [41; 59; 38; 124]); [done|set_solver|set_solver]. }
  pose proof (derives_start _ _ _ Hd) as Hs. destruct Hk as [->| ->].
  - apply wp_bind, wp_peek; [unfold symbols; set_solver|done|]. intros n1 Hn1 Ht1 _.
    rewrite Hts, (Hs rest Hr40).
    enough (wp (ret ← parseredirs s f execcmd; ar ← parseargs s f 0 ret; the "argv" (set_arg ar.1 None None ar.2)) Q n1) by done.
    enough (wp (ret ← parseredirs s f execcmd; parseargs s f 0 ret)
      (λ ar n', wp (the "argv" (set_arg ar.1 None None ar.2)) Q n') n1) as H.
    { apply (proj1 (wp_bind _ _ _ _)) in H. apply wp_bind. eapply wp_mono; [exact H|]. intros a s' H'. by apply wp_bind. }
    apply (Hc n1 f f rest); [lia|by rewrite Ht1|lia|lia|]. intros c n2 fr fa Hn2 Ht2 Hm Hfr Hfa.
    apply wp_bind, redir_stop; [lia|by rewrite Ht2, Hr60|]. intros n3 Hn3 Ht3.
    assert (∀ n', (n3 ≤ n' ≤ es)%nat → toks n' = rest → wp (the "argv" (set_arg (nargs t) None None c)) Q n') as Hfin.
    { intros n' Hn' Ht'. rewrite (set_arg_end at_line c t Hm) by eauto using derives_simple, derives_nargs.
      apply wp_ret. apply HQ; [lia|done|done]. }
    destruct fa as [|fa]; [lia|]. cbn [parseargs].
    apply wp_bind, wp_peek; [unfold symbols; set_solver|lia|]. intros n4 Hn4 Ht4 He4. rewrite Ht3, Ht2 in *.
    destruct Hend as [->|Hend].
    + apply wp_bind, wp_gettoken; [lia|]. intros r q e n5 Hn5 H5. rewrite Ht4 in H5. destruct H5 as (->&->&Ht5). simpl.
      apply wp_ret, Hfin; [lia|done].
    + replace (starts [124; 41; 38; 59] rest) with true; [apply wp_ret, Hfin; [lia|done]|].
      destruct (ends_mono [41; 59; 38; 124] [124; 41; 38; 59] rest) as [->|Hx]; [by right|set_solver|done|done].
  - destruct Hs as [ts' ->].
    apply (wp_symbol 40 (λ b : bool, if b then parseblock s f else _) Q n (ts' ++ rest)); [unfold symbols; set_solver|done|done|].
    intros n1 Hn1 Ht1. apply (Hc n1 f rest); [lia|done|lia|]. intros c n2 fr Hn2 Ht2 Hm Hfr.
    apply redir_stop; [lia|by rewrite Ht2, Hr60|]. intros n3 Hn3 Ht3. apply HQ; [lia|congruence|done].
Qed.

Lemma wp_assoc {A B C} (m : M nat A) (k : A → M nat B) (h : B → M nat C) Q n :
  wp (a ← m; k a) (λ b, wp (h b) Q) n → wp (a ← m; b ← k a; h b) Q n.
Proof.
  intros H. apply (proj1 (wp_bind _ _ _ _)) in H. apply wp_bind. eapply wp_mono; [exact H|]. intros a n' Ha. by apply wp_bind.
Qed.

(** After the first half of a list or pipeline: its second half, or its end. *)
Lemma pair_more sym (m : M nat cmd) (f : cmd → cmd → cmd) c Q n ts :
  sym ∈ symbols → (n ≤ es)%nat → toks n = TSym sym :: ts →
  (∀ n', (n < n' ≤ es)%nat → toks n' = ts → wp m (λ r, Q (f c r)) n') →
  wp (b ← peek s [sym]; if (b : bool) then gettoken s;; r ← m; mret (f c r) else mret c) Q n.
Proof.
  intros Hsym Hn Hts Hm.
  apply (wp_symbol sym (λ b : bool, if b then gettoken s;; r ← m; mret (f c r) else mret c) Q n ts); [done..|].
  intros n1 Hn1 Ht1. apply (wp_consume sym _ _ _ ts); [lia|done|]. intros n2 Hn2 Ht2. apply wp_bind. apply Hm; [lia|done].
Qed.

Lemma pair_end sym (m : M nat cmd) (f : cmd → cmd → cmd) c (Q : cmd → nat → Prop) n :
  sym ∈ symbols → (n ≤ es)%nat → starts [sym] (toks n) = false →
  (∀ n', (n ≤ n' ≤ es)%nat → toks n' = toks n → Q c n') →
  wp (b ← peek s [sym]; if (b : bool) then gettoken s;; r ← m; mret (f c r) else mret c) Q n.
Proof.
  intros Hsym Hn Hst HQ. apply wp_bind, wp_peek; [set_solver|done|]. intros n1 Hn1 Ht1 _. rewrite Hst. apply wp_ret. by apply HQ.
Qed.

Lemma amps_step f c Q n ts :
  (n ≤ es)%nat → (es - n ≤ f)%nat → toks n = TSym 38 :: ts →
  (∀ f' n', (n ≤ n' ≤ es)%nat → (es - n' ≤ f')%nat → toks n' = ts → wp (parseamps s f' (BACK c)) Q n') →
  wp (parseamps s f c) Q n.
Proof.
  intros Hn Hf Hts HQ. destruct f as [|f]; [assert (n = es) as -> by lia; by rewrite toks_es in Hts|]. cbn [parseamps].
  apply (wp_symbol 38 (λ b, if negb b then mret c else gettoken s;; parseamps s f (backcmd c)) Q n ts);
    [unfold symbols; set_solver|done|done|]. intros n1 Hn1 Ht1. simpl.
  apply (wp_consume 38 _ _ _ ts); [lia|done|]. intros n2 Hn2 Ht2. apply HQ; [lia|lia|done].
Qed.

Lemma amps_stop f c Q n :
  (n ≤ es)%nat → starts [38] (toks n) = false →
  (∀ n', (n ≤ n' ≤ es)%nat → toks n' = toks n → Q c n') → wp (parseamps s f c) Q n.
Proof.
  intros Hn Hst HQ. destruct f; cbn [parseamps];
    (apply wp_bind, wp_peek; [unfold symbols; set_solver|done|]; intros n1 Hn1 Ht1 _; rewrite Hst; simpl; by apply HQ).
Qed.

Lemma ends_sym c set ts : c ∈ set → ends set (TSym c :: ts).
Proof. intros H. right. simpl. by apply bool_decide_eq_true. Qed.

Lemma block_complete ts t : complete Line ts t → complete Block (TSym 40 :: ts ++ [TSym 41]) t.
Proof.
  intros IH n f rest Q Hn Hts Hf HQ. destruct f as [|f]; [lia|]. cbn [parseblock].
  simpl in Hts. rewrite <- app_assoc in Hts. simpl in Hts.
  apply (wp_symbol 40 (λ b, if negb b then panic "parseblock" else _) Q n _ ltac:(unfold symbols; set_solver) Hn Hts).
  intros n1 Hn1 Ht1. simpl. apply (wp_consume 40 _ _ n1 _ ltac:(lia) Ht1). intros n2 Hn2 Ht2.
  apply wp_bind. apply (IH n2 f (TSym 41 :: rest)); [lia|done|lia|by apply ends_sym, list_elem_of_here|].
  intros c n3 Hn3 Ht3 Hm.
  apply (wp_symbol 41 (λ b, if negb b then panic "syntax - missing )" else _) Q n3 rest ltac:(unfold symbols; set_solver) ltac:(lia) Ht3).
  intros n4 Hn4 Ht4. simpl. apply (wp_consume 41 _ _ n4 _ ltac:(lia) Ht4). intros n5 Hn5 Ht5.
  apply HQ; [lia|done|done|lia].
Qed.

Lemma redir_complete k ts t r w mode fd :
  k = Simple ∨ k = Block → complete k ts t → direction r = Some (mode, fd) →
  complete k (ts ++ [r; TWord w]) (TRedir t w mode fd).
Proof.
  intros [->| ->] IH Hdir.
  - intros n fr fa rest Q Hn Hts Hfr Hfa HQ. rewrite <- app_assoc in Hts.
    apply (IH n fr fa _ _ Hn Hts Hfr Hfa). intros c n1 fr1 fa1 Hn1 Ht1 Hm Hfr1 Hfa1.
    apply wp_bind, (redir_step _ _ _ _ r w rest mode fd); [lia|done|done|done|].
    intros f' q e n2 Hn2 Hf2 Ht2 Hw. specialize (HQ (REDIR c q e mode fd) n2 f' fa1).
    apply (proj1 (wp_bind _ _ _ _)). apply HQ; [lia|done|by constructor|lia|lia].
  - intros n f rest Q Hn Hts Hf HQ. rewrite <- app_assoc in Hts. apply (IH n f _ _ Hn Hts Hf).
    intros c n1 fr1 Hn1 Ht1 Hm Hfr1. apply (redir_step _ _ _ _ r w rest mode fd); [lia|done|done|done|].
    intros f' q e n2 Hn2 Hf2 Ht2 Hw. apply HQ; [lia|done|by constructor|lia].
Qed.

Lemma derives_complete k ts t : derives k ts t → complete k ts t.
Proof.
  induction 1 as [|ts t w Hd IH Hlt|k ts t r w mode fd Hk Hd IH Hdir|ts t Hd IH|k ts t Hk Hd IH
    |ts t Hd IH|ts1 ts2 t1 t2 H1 IH1 H2 IH2|ts t Hd IH|ts t Hd IH|ts t Hd IH|ts1 ts2 t1 t2 H1 IH1 H2 IH2].
  - intros n fr fa rest Q Hn Hts Hfr Hfa HQ. apply (HQ execcmd); [lia|done|apply execcmd_means|lia|lia].
  - intros n fr fa rest Q Hn Hts Hfr Hfa HQ. rewrite <- app_assoc in Hts.
    apply (IH n fr fa _ _ Hn Hts Hfr Hfa). intros c n1 fr1 fa1 Hn1 Ht1 Hm Hfr1 Hfa1.
    pose proof (derives_simple _ _ _ Hd eq_refl) as Hsim.
    apply (word_step _ _ _ _ w rest); [done..|lia|done|done|]. intros c' n2 f' Hn2 Ht2 Hm2 Hf2.
    rewrite <- (proj2 (add_word_simple w t Hsim)). apply HQ; [lia|done|done|lia|lia].
  - by apply redir_complete.
  - by apply block_complete.
  - by eapply exec_complete.
  - intros n f rest Q Hn Hts Hf Hend HQ. destruct f as [|f]; [lia|]. cbn [parsepipe]. apply wp_bind.
    apply (IH n f rest); [done|done|lia|eapply ends_mono; [done|set_solver]|]. intros c n1 Hn1 Ht1 Hm.
    apply pair_end; [unfold symbols; set_solver|lia|rewrite Ht1; apply (ends_not [41; 59; 38]); [done|set_solver..]|].
    intros n2 Hn2 Ht2. apply HQ; [lia|congruence|done].
  - intros n f rest Q Hn Hts Hf Hend HQ. destruct f as [|f]; [lia|]. cbn [parsepipe]. apply wp_bind.
    rewrite <- app_assoc in Hts. simpl in Hts.
    apply (IH1 n f _ _ Hn Hts); [lia|apply ends_sym; set_solver|]. intros c n1 Hn1 Ht1 Hm.
    apply (pair_more _ _ _ _ _ _ (ts2 ++ rest)); [unfold symbols; set_solver|lia|done|]. intros n2 Hn2 Ht2.
    apply (IH2 n2 f rest); [lia|done|lia|done|]. intros c2 n3 Hn3 Ht3 Hm3. apply HQ; [lia|done|by constructor].
  - intros n f fa rest Q Hn Hts Hf Hfa Hend HQ. apply wp_bind, (IH n f rest); [done..|].
    intros c n1 Hn1 Ht1 Hm. apply HQ; [lia|done|done|lia].
  - intros n f fa rest Q Hn Hts Hf Hfa Hend HQ. rewrite <- app_assoc in Hts.
    apply (IH n f fa _ _ Hn Hts Hf Hfa); [apply ends_sym; set_solver|]. intros c n1 fa1 Hn1 Ht1 Hm Hfa1.
    apply (amps_step _ _ _ _ rest); [lia|done|done|]. intros f' n2 Hn2 Hf2 Ht2. apply HQ; [lia|done|by constructor|done].
  - intros n f rest Q Hn Hts Hf Hend HQ. destruct f as [|f]; [lia|]. cbn [parseline]. apply wp_assoc.
    apply (IH n f f rest); [done|done|lia|lia|eapply ends_mono; [done|set_solver]|]. intros c n1 fa1 Hn1 Ht1 Hm Hfa1.
    apply amps_stop; [lia|rewrite Ht1; apply (ends_not [41]); [done|set_solver..]|]. intros n2 Hn2 Ht2.
    apply pair_end; [unfold symbols; set_solver|lia|rewrite Ht2, Ht1; apply (ends_not [41]); [done|set_solver..]|].
    intros n3 Hn3 Ht3. apply HQ; [lia|congruence|done].
  - intros n f rest Q Hn Hts Hf Hend HQ. destruct f as [|f]; [lia|]. cbn [parseline]. apply wp_assoc.
    rewrite <- app_assoc in Hts. simpl in Hts.
    apply (IH1 n f f _ _ Hn Hts); [lia|lia|apply ends_sym; set_solver|]. intros c n1 fa1 Hn1 Ht1 Hm Hfa1.
    apply amps_stop; [lia|by rewrite Ht1|]. intros n2 Hn2 Ht2.
    apply (pair_more _ _ _ _ _ _ (ts2 ++ rest)); [unfold symbols; set_solver|lia|congruence|]. intros n3 Hn3 Ht3.
    apply (IH2 n3 f rest); [lia|done|lia|done|]. intros c2 n4 Hn4 Ht4 Hm4. apply HQ; [lia|done|by constructor].
Qed.

(** ** Terminating the words *)

Lemma nulterminate_words c t :
  means c t → ∃ b, nulterminate c (s ++ [0]) = Some b ∧ Sh.means (λ q _ w, cstring b q w) c t.
Proof.
  intros Hm.
  assert (∀ e, e ∈ ends_of c → (e ≤ es)%nat ∧ match s !! e with Some x => word_char x = false | None => True end) as Hends.
  { intros e He. destruct (means_ends _ _ _ _ Hm He) as (q&w&(Hr&_&Hx)&_). split; [lia|done]. }
  exists (zeros (ends_of c) (s ++ [0])). split.
  { eapply nulterminate_run; [exact Hm|]. apply list.Forall_forall. intros e He%Hends. rewrite length_app. unfold Sh.es in He. simpl. lia. }
  eapply means_mono; [exact Hm|]. intros q e w He ((Hr&Hw&_)&->).
  assert (length (sub s q e) = e - q)%nat as Hlen.
  { unfold sub. rewrite length_take, length_drop. unfold Sh.es in Hr. lia. }
  split_and!.
  - apply list_eq. intros i. rewrite Hlen. destruct (decide (i < e - q)%nat) as [Hi|Hi].
    + unfold sub. rewrite !lookup_take_lt, !lookup_drop, lookup_zeros by done.
      rewrite decide_False; [by rewrite lookup_app_l by (unfold Sh.es in Hr; lia)|].
      intros [[_ Hc]%Hends _]. destruct (s !! (q + i)%nat) as [x|] eqn:Ex.
      * rewrite list.Forall_forall in Hw. rewrite (Hw x) in Hc; [done|]. apply list_elem_of_lookup. exists i.
        unfold sub. by rewrite lookup_take_lt, lookup_drop.
      * apply lookup_ge_None in Ex. unfold Sh.es in Hr. lia.
    + unfold sub. rewrite !lookup_take_ge by lia. done.
  - rewrite Hlen. replace (q + (e - q))%nat with e by lia. rewrite lookup_zeros, decide_True; [done|].
    split; [done|]. rewrite length_app. unfold Sh.es in Hr. simpl. lia.
  - intros H0. apply nz. rewrite <- (take_drop q s), <- (take_drop (e - q) (drop q s)). unfold sub in H0. set_solver.
Qed.

Lemma parsecmd_sound :
  wpp (parsecmd s) (λ cb _, ∃ t, derives Line (tokens s) t ∧ Sh.means (λ q _ w, cstring cb.2 q w) cb.1 t) 0%nat.
Proof.
  unfold parsecmd. apply wpp_bind. eapply wpp_mono; [apply (proj1 (parse_sound (fuel s)) 0%nat); unfold fuel; lia|].
  intros c n (Hr&ts&t&Hts&Hd&Hm). apply wpp_bind, wpp_peek; [set_solver|lia|]. intros n1 Hn1 Ht1 He1.
  apply wpp_bind. eapply wpp_run; [done|]. cbn beta. case_bool_decide as Hn; simpl; [|done].
  destruct (nulterminate_words c t Hm) as (b&Hb&Hmb). apply wpp_bind. rewrite Hb. simpl.
  exists t. split; [|done]. rewrite <- Ht1 in Hts. simpl in Hn. rewrite Hn, toks_es, app_nil_r in Hts.
  unfold Sh.toks in Hts. rewrite drop_0 in Hts. by rewrite Hts.
Qed.

Lemma parsecmd_complete t :
  derives Line (tokens s) t →
  wp (parsecmd s) (λ cb _, Sh.means (λ q _ w, cstring cb.2 q w) cb.1 t) 0%nat.
Proof.
  intros Hd. unfold parsecmd. apply wp_bind.
  apply (derives_complete _ _ _ Hd 0%nat (fuel s) []); [lia|by unfold Sh.toks; rewrite drop_0, app_nil_r|unfold fuel; lia|by left|].
  intros c n Hn Ht Hm. apply wp_bind, wp_peek; [set_solver|lia|]. intros n1 Hn1 Ht1 He1. rewrite (He1 Ht).
  apply wp_bind, wp_gets. rewrite bool_decide_true by done. simpl.
  destruct (nulterminate_words c t Hm) as (b&Hb&Hmb). apply wp_bind. rewrite Hb. by apply wp_ret, wp_ret.
Qed.

End parse.

(** C38. The parser of the shell always comes to an end.  On every line it returns
    a command or prints a message and exits: the fuel suffices, no character
    past the end of the line is read, no argument is stored outside
    its array, and the pass that terminates the words stays inside the buffer. *)
Theorem parsecmd_total s :
  0 ∉ s →
  (∃ c b n, parsecmd s 0%nat = Ok (c, b) n) ∨ (∃ msg, parsecmd s 0%nat = Fail (Panic msg)).
Proof.
  intros nz. pose proof (parsecmd_sound s nz) as H. unfold wpp in H.
  destruct (parsecmd s 0%nat) as [[c b] n| |[msg| |]]; [left; by exists c, b, n|done|right; by exists msg|done..].
Qed.

(** C37. The parser of the shell decides its language.  It returns a command exactly
    for the lines whose tokens the grammar derives (lists of jobs, jobs in the
    background, pipelines, redirections, blocks in parentheses, at most nine
    words to a command); the command has the structure that the grammar gives to the
    line, and each of its words and file names is the word of the line, as a
    null-terminated string in the buffer. *)
Theorem parsecmd_decides s :
  0 ∉ s →
  (∀ t, derives Line (tokens s) t →
     ∃ c b n, parsecmd s 0%nat = Ok (c, b) n ∧ means (λ q _ w, cstring b q w) c t) ∧
  (∀ c b n, parsecmd s 0%nat = Ok (c, b) n →
     ∃ t, derives Line (tokens s) t ∧ means (λ q _ w, cstring b q w) c t).
Proof.
  intros nz. split.
  - intros t Hd. apply (parsecmd_complete s nz) in Hd. apply wp_run in Hd as ([c b]&n&Hr&Hm). by exists c, b, n.
  - intros c b n Hr. pose proof (parsecmd_sound s nz) as H. unfold wpp in H. by rewrite Hr in H.
Qed.

(** The line "ls <in|(wc;a)>out &". *)
Definition example_line : list Z :=
  [108; 115; 32; 60; 105; 110; 124; 40; 119; 99; 59; 97; 41; 62; 111; 117; 116; 32; 38].
Definition example_tree : tree :=
  TBack (TPipe (TRedir (TExec [[108; 115]]) [105; 110] O_RDONLY 0)
               (TRedir (TList (TExec [[119; 99]]) (TExec [[97]])) [111; 117; 116] (Z.lor O_WRONLY O_CREATE) 1)).

Lemma example_derives : derives Line (tokens example_line) example_tree.
Proof.
  change (tokens example_line) with
    ((([TWord [108; 115]] ++ [TSym 60; TWord [105; 110]]) ++ TSym 124 ::
      ((TSym 40 :: ([TWord [119; 99]] ++ TSym 59 :: [TWord [97]]) ++ [TSym 41]) ++ [TSym 62; TWord [111; 117; 116]])) ++ [TSym 38]).
  assert (∀ w, derives Simple [TWord w] (TExec [w])) as Hw.
  { intros w. apply (d_word [] (TExec []) w); [constructor|unfold MAXARGS; simpl; lia]. }
  assert (∀ w, derives Job [TWord w] (TExec [w])) as Hj.
  { intros w. apply d_fore, d_pipe_end. by apply (d_command Simple); [left|]. }
  apply d_line_end, d_back, d_fore, d_pipe.
  - apply (d_command Simple); [by left|]. by apply d_redir; [left| |].
  - apply d_pipe_end. apply (d_command Block); [by right|]. apply d_redir; [by right| |done].
    apply d_block, d_list; [|apply d_line_end]; apply Hj.
Qed.

Lemma parsecmd_total_witness : ∃ c b n, parsecmd example_line 0%nat = Ok (c, b) n.
Proof.
  destruct (parsecmd_total example_line) as [H|[msg H]].
  - unfold example_line. set_solver.
  - exact H.
  - vm_compute in H. discriminate H.
Defined.

Lemma parsecmd_decides_witness :
  ∃ c b n, parsecmd example_line 0%nat = Ok (c, b) n ∧ means (λ q _ w, cstring b q w) c example_tree.
Proof.
  assert (0 ∉ example_line) as H0 by (unfold example_line; set_solver).
  destruct (parsecmd_decides example_line H0) as [H _].
  exact (H example_tree example_derives).
Defined.
