(* ===== verification/ShRun.v ===== *)
(** Running commands (runcmd, getcmd and main of sh.c).

    A process is the tree of the system calls it makes, branching on their results; fork
    has the two processes that come out of it.  What matters here of
    the kernel is the table of open descriptors, and the order that wait enforces.  [events] runs a
    process on such a table, by the rules of sysfile.c (a new descriptor is the lowest that
    is free; fork copies the table), and collects the programs that are started,
    with the descriptors they start with, and the changes of directory, each with the programs that are
    certain to have ended before.  Whether
    a file can be opened and whether a fork succeeds are parameters.  A process is
    identified by its path: the choices of child and parent at the forks before.

    The theorems say that a command runs each of its programs with exactly three
    open descriptors, connected as the language promises, after the programs it has to wait for and
    after no others, and that a session of the shell does this for every line typed. *)

From S2P Require Import Prelude Bytes Layout Ulib Grep Sysfile Sh ShParse.

(** * Processes *)

Inductive proc :=
| PExit
| PStuck (* undefined behaviour, or no fuel *)
| PClose (fd : Z) (k : proc)
| POpen (name : word) (mode : Z) (k : Z → proc)
| PDup (fd : Z) (k : proc)
| PPipe (k : option (Z * Z) → proc)
| PFork (child parent failed : proc)
| PExec (argv : list word) (k : proc)
| PWait (k : proc)
| PChdir (name : word) (k : Z → proc)
| PPrint (fd : Z) (fmt : list Z) (arg : option word) (k : proc).

(** printf(2, "%s\n", s); exit(); *)
Definition panic (msg : list Z) : proc := PPrint 2 [37; 115; 10] (Some msg) PExit.

(** The two outcomes of fork1() == 0. *)
Definition fork1 (child parent : proc) : proc := PFork child parent (panic [102; 111; 114; 107]).

(** The string at a position of the buffer. *)
Definition str (b : list Z) (q : nat) : word := until_null (drop q b).

(** The strings of argv up to its null. *)
Fixpoint strs (b : list Z) (argv : list (option nat)) : list word :=
  match argv with
  | Some q :: argv => str b q :: strs b argv
  | _ => []
  end.

Fixpoint runcmd (b : list Z) (c : cmd) : proc :=
  match c with
  | EXEC argv _ =>
      match argv with
      | Some q :: _ => PExec (strs b argv) (PPrint 2 [101; 120; 101; 99; 32; 37; 115; 32; 102; 97; 105; 108; 101; 100; 10] (Some (str b q)) PExit)
      | _ => PExit
      end
  | REDIR c file _ mode fd =>
      PClose fd (POpen (str b file) mode (λ r,
        if r <? 0 then PPrint 2 [111; 112; 101; 110; 32; 37; 115; 32; 102; 97; 105; 108; 101; 100; 10] (Some (str b file)) PExit
        else runcmd b c))
  | LIST l r => fork1 (runcmd b l) (PWait (runcmd b r))
  | PIPE l r =>
      PPipe (λ p,
        match p with
        | None => panic [112; 105; 112; 101]
        | Some (p0, p1) =>
            fork1 (PClose 1 (PDup p1 (PClose p0 (PClose p1 (runcmd b l)))))
              (fork1 (PClose 0 (PDup p0 (PClose p0 (PClose p1 (runcmd b r)))))
                (PClose p0 (PClose p1 (PWait (PWait PExit)))))
        end)
  | BACK c => fork1 (runcmd b c) PExit
  end.

Definition NBUF : Z := 100.

(** getcmd: the buffer and the rest of the input, or the end of the input *)
Definition getcmd (input : list Z) : option (option (list Z) * list Z) :=
  bi ← ugets (replicate (Z.to_nat NBUF) 0) NBUF input;
  c ← bi.1 !! 0%nat;
  Some (if c =? 0 then None else Some bi.1, bi.2).

(** buf[strlen(buf)-1] = 0; then the string at buf+3 *)
Definition cd_name (buf : list Z) : word :=
  let n := length (until_null buf) in str (<[(n - 1)%nat := 0]> buf) 3.

Fixpoint bytes_of (msg : string) : list Z :=
  match msg with
  | EmptyString => []
  | String a msg => Z.of_N (Ascii.N_of_ascii a) :: bytes_of msg
  end.

(** The child that runs a line; a syntax error ends it with a message. *)
Definition run_line (buf : list Z) : proc :=
  match parsecmd (until_null buf) 0%nat with
  | Ok (c, b) _ => runcmd b c
  | Fail (Panic msg) => panic (bytes_of msg)
  | _ => PStuck
  end.

Fixpoint main_loop (fuel : nat) (input : list Z) : proc :=
  match fuel with
  | O => PStuck
  | S fuel =>
      PPrint 2 [36; 32] None
        match getcmd input with
        | Some (Some buf, input) =>
            if bool_decide (take 3 buf = [99; 100; 32]) then
              PChdir (cd_name buf) (λ r,
                if r <? 0 then PPrint 2 [99; 97; 110; 110; 111; 116; 32; 99; 100; 32; 37; 115; 10] (Some (cd_name buf)) (main_loop fuel input)
                else main_loop fuel input)
            else fork1 (run_line buf) (PWait (main_loop fuel input))
        | Some (None, _) => PExit
        | None => PStuck
        end
  end.

(** "console" *)
Definition CONSOLE : word := [99; 111; 110; 115; 111; 108; 101].

(** while((fd = open("console", O_RDWR)) >= 0){ if(fd >= 3){ close(fd); break; } } *)
Fixpoint main_open (fuel : nat) (k : proc) : proc :=
  match fuel with
  | O => PStuck
  | S fuel => POpen CONSOLE O_RDWR (λ fd, if fd <? 0 then k else if 3 <=? fd then PClose fd k else main_open fuel k)
  end.

(** Three descriptors can be missing at most, and every line has a character. *)
Definition main (input : list Z) : proc := main_open 4 (main_loop (S (length input)) input).

(** * What processes do *)

(** What a descriptor refers to: a file that was opened by name, or an end
    of the pipe that the process at a path made, or something else. *)
Inductive obj :=
| OFile (name : word) (mode : Z)
| OPipeRead (path : list nat)
| OPipeWrite (path : list nat)
| OOther (n : nat).

Notation fds := (list (option obj)).

(** A program is identified by the path of its process; [ended] are the programs that have ended. *)
Inductive event :=
| Started (at_path : list nat) (argv : list word) (table : fds) (ended : gset (list nat))
| Chdir (name : word) (ended : gset (list nat)).

(** The lowest free descriptor. *)
Fixpoint free_fd (t : fds) : option nat :=
  match t with
  | [] => None
  | None :: _ => Some 0%nat
  | Some _ :: t => S <$> free_fd t
  end.
Definition add_fd (o : obj) (t : fds) : option (nat * fds) :=
  (λ i, (i, <[i := Some o]> t)) <$> free_fd t.
Definition close_fd (fd : Z) (t : fds) : fds :=
  if (0 <=? fd) then <[Z.to_nat fd := None]> t else t.

(** Redirections concern the input or the output. *)
Fixpoint std_fds (t : tree) : Prop :=
  match t with
  | TExec _ => True
  | TRedir t _ _ fd => (fd = 0 ∨ fd = 1) ∧ std_fds t
  | TPipe l r | TList l r => std_fds l ∧ std_fds r
  | TBack t => std_fds t
  end.

Lemma direction_fd r mode fd : direction r = Some (mode, fd) → fd = 0 ∨ fd = 1.
Proof.
  destruct r as [c| |w]; simpl; [|by intros [= <- <-]; right|done].
  destruct c as [|c|c]; try done. repeat (destruct c as [c|c|]; try done; try (intros [= <- <-]; auto)).
Qed.

Lemma add_word_std w t : std_fds t → std_fds (add_word w t).
Proof. induction t; simpl; naive_solver. Qed.

Lemma derives_std k ts t : derives k ts t → std_fds t.
Proof.
  induction 1 as [|ts t w Hd IH Hlt|k ts t r w mode fd Hk Hd IH Hdir| | | | | | | |]; simpl; try done.
  - by apply add_word_std.
  - split; [by eapply direction_fd|done].
Qed.

Section events.
Context (opens : word → Z → bool) (forks : list nat → bool) (execs : list word → bool) (chdirs : word → bool).

(** The children of a process that it has not waited for, each with the programs that have ended when the
    child has, and how often the process has waited since there were none.  A wait returns when one of the children has
    ended, and does not say which: after as many waits as there are children, all of them have. *)
Record children := Children { c_ends : list (gset (list nat)); c_waits : nat }.
Definition no_children : children := Children [] 0.
Definition add_child (e : gset (list nat)) (cs : children) : children := Children (e :: c_ends cs) (c_waits cs).
Definition wait_child (ended : gset (list nat)) (cs : children) : gset (list nat) * children :=
  if decide (S (c_waits cs) = length (c_ends cs)) then (ended ∪ ⋃ c_ends cs, no_children)
  else if decide (c_ends cs = []) then (ended, cs)
  else (ended, Children (c_ends cs) (S (c_waits cs))).

(** The events of a process and its descendants, and the programs that have ended when the process has.  A
    program that is started by exec ends at some time of its own. *)
Fixpoint events (p : proc) (path : list nat) (t : fds) (ended : gset (list nat)) (cs : children)
    : option (list event * gset (list nat)) :=
  match p with
  | PExit => Some ([], ended)
  | PStuck => None
  | PClose fd k => events k path (close_fd fd t) ended cs
  | POpen name mode k =>
      match (if opens name mode then add_fd (OFile name mode) t else None) with
      | Some (i, t) => events (k (Z.of_nat i)) path t ended cs
      | None => events (k (-1)) path t ended cs
      end
  | PDup fd k =>
      match (if 0 <=? fd then o ← mjoin (t !! Z.to_nat fd); add_fd o t else None) with
      | Some (_, t) => events k path t ended cs
      | None => events k path t ended cs
      end
  | PPipe k =>
      match (it ← add_fd (OPipeRead path) t; jt ← add_fd (OPipeWrite path) it.2; Some (it.1, jt)) with
      | Some (i, (j, t)) => events (k (Some (Z.of_nat i, Z.of_nat j))) path t ended cs
      | None => events (k None) path t ended cs
      end
  | PFork child parent failed =>
      if forks path then
        c ← events child (path ++ [0%nat]) t ended no_children;
        r ← events parent (path ++ [1%nat]) t ended (add_child c.2 cs);
        Some (c.1 ++ r.1, r.2)
      else events failed path t ended cs
  | PExec argv k =>
      if execs argv then Some ([Started path argv t ended], {[path]} ∪ ended) else events k path t ended cs
  | PWait k => let w := wait_child ended cs in events k path t w.1 w.2
  | PChdir name k =>
      r ← events (k (if chdirs name then 0 else -1)) path t ended cs;
      Some (Chdir name ended :: r.1, r.2)
  | PPrint _ _ _ k => events k path t ended cs
  end.

(** * What the language promises

    The programs a command starts, each with its arguments, its input, its output and the programs that
    have ended before it starts; and the programs that have ended when the command has.  The
    sides of a pipe run at the same time and are both waited for; the second part of a list starts when the first has
    ended; nobody waits for a command in the background. *)
Record program := Program {
  pr_path : list nat; pr_args : list word; pr_in : obj; pr_out : obj; pr_after : gset (list nat);
}.

Fixpoint programs (t : tree) (path : list nat) (i o : obj) (ended : gset (list nat))
    : list program * gset (list nat) :=
  match t with
  | TExec args =>
      if bool_decide (args = []) || negb (execs args) then ([], ended)
      else ([Program path args i o ended], {[path]} ∪ ended)
  | TRedir t file mode fd =>
      if negb (opens file mode) then ([], ended)
      else if fd =? 0 then programs t path (OFile file mode) o ended else programs t path i (OFile file mode) ended
  | TPipe l r =>
      if negb (forks path) then ([], ended) else
      let '(ls, le) := programs l (path ++ [0%nat]) i (OPipeWrite path) ended in
      if negb (forks (path ++ [1%nat])) then (ls, ended) else
      let '(rs, re) := programs r (path ++ [1%nat] ++ [0%nat]) (OPipeRead path) o ended in
      (ls ++ rs, ended ∪ re ∪ le)
  | TList l r =>
      if negb (forks path) then ([], ended) else
      let '(ls, le) := programs l (path ++ [0%nat]) i o ended in
      let '(rs, re) := programs r (path ++ [1%nat]) i o (ended ∪ le) in
      (ls ++ rs, re)
  | TBack t =>
      if negb (forks path) then ([], ended) else ((programs t (path ++ [0%nat]) i o ended).1, ended)
  end.

(** A table with input, output and error output, and nothing else. *)
Definition table (i o e : obj) : fds := [Some i; Some o; Some e] ++ replicate 13 None.

Definition started (e : obj) (p : program) : event :=
  Started (pr_path p) (pr_args p) (table (pr_in p) (pr_out p) e) (pr_after p).

Lemma until_null_cstring b q w : cstring b q w → str b q = w.
Proof.
  intros (Ht&H0&Hn). unfold str. rewrite <- (take_drop (length w) (drop q b)), Ht, drop_drop.
  destruct (drop (q + length w) b) as [|x l] eqn:E.
  - apply (f_equal length) in E. rewrite length_drop in E. apply lookup_lt_Some in H0. simpl in E. lia.
  - assert (x = 0) as ->; [|apply until_null_app; unfold no_null; set_solver].
    rewrite <- (Nat.add_0_r (q + length w)), <- lookup_drop, E in H0. by injection H0.
Qed.
Lemma strs_argv b qs (es : list nat) ws :
  (length qs < MAXARGS)%nat → length es = length qs →
  Forall2 (λ (qe : nat * nat) w, cstring b qe.1 w) (zip qs es) ws → strs b (argv_of qs) = ws.
Proof.
  intros Hl Hes H. unfold argv_of. replace (MAXARGS - length qs)%nat with (S (MAXARGS - S (length qs))) by lia.
  cbn [replicate]. generalize (replicate (MAXARGS - S (length qs)) (@None nat)). intros tl. clear Hl.
  revert es ws Hes H. induction qs as [|q qs IH]; intros [|x es] ws Hes H; try done.
  - by inversion H.
  - apply Forall2_cons_inv_l in H as (w&ws'&Hw&H&->). rewrite fmap_cons. cbn [app strs].  simpl in Hw.
    rewrite (until_null_cstring _ _ _ Hw). f_equal. apply (IH es); [simpl in Hes; lia|done].
Qed.

(** The effect of a command on its process: whatever children the process has already, it does not wait for them. *)
Definition ran (e : obj) (r : list program * gset (list nat)) : option (list event * gset (list nat)) :=
  Some (started e <$> r.1, r.2).

Lemma wait_only ended e : wait_child ended (add_child e no_children) = (ended ∪ e, no_children).
Proof. unfold wait_child. simpl. by rewrite union_empty_r_L. Qed.

Lemma runcmd_events b c t :
  means (λ q _ w, cstring b q w) c t → std_fds t →
  ∀ path i o e ended, events (runcmd b c) path (table i o e) ended no_children = ran e (programs t path i o ended).
Proof.
  intros Hm. induction Hm as [qs es ws H1 H2 H3|c t q x w mode fd Hm IH HW|c1 c2 t1 t2 H1 IH1 H2 IH2
    |c1 c2 t1 t2 H1 IH1 H2 IH2|c t Hm IH]; intros Hstd path i o e ended; simpl in Hstd.
  - cbn [runcmd]. pose proof (strs_argv _ _ _ _ H1 H2 H3) as Hs.
    destruct qs as [|q qs]; [by rewrite <- Hs|]. cbn [argv_of fmap list_fmap app]. fold (argv_of (q :: qs)).
    change (argv_of (q :: qs)) with (Some q :: ((Some <$> qs) ++ replicate (MAXARGS - length (q :: qs)) None)) in Hs |- *.
    cbn [runcmd events programs]. rewrite Hs. rewrite bool_decide_false by (rewrite <- Hs; done). simpl.
    by destruct (execs ws).
  - cbn [runcmd events programs]. rewrite (until_null_cstring _ _ _ HW). destruct Hstd as [Hfd Hstd].
    destruct (opens w mode); [|done]. destruct Hfd as [->| ->]; by apply IH.
  - destruct Hstd as [Hs1 Hs2]. cbn [runcmd events programs].
    specialize (IH1 Hs1 (path ++ [0%nat]) i (OPipeWrite path) e ended).
    specialize (IH2 Hs2 (path ++ [1%nat] ++ [0%nat]) (OPipeRead path) o e ended).
    unfold fork1. simpl. destruct (forks path); [|done]. unfold table in *. unfold close_fd. simpl in *. rewrite IH1.
    destruct (programs t1 _ _ _ _) as [ls le]. simpl.
    destruct (forks (path ++ [1%nat])); simpl.
    + rewrite <- (app_assoc path [1%nat] [0%nat]). cbn [app]. rewrite IH2. destruct (programs t2 _ _ _ _) as [rs re]. simpl.
      unfold ran. simpl. by rewrite fmap_app, app_nil_r, union_empty_r_L, assoc_L by apply _.
    + unfold ran. simpl. by rewrite app_nil_r.
  - destruct Hstd as [Hs1 Hs2]. cbn [runcmd events programs]. unfold fork1. cbn [events].
    destruct (forks path); [|done]. rewrite IH1 by done. destruct (programs t1 _ _ _ _) as [ls le].
    cbn [ran mbind option_bind fst snd negb]. rewrite wait_only. cbn [fst snd]. rewrite IH2 by done. destruct (programs t2 _ _ _ _) as [rs re]. simpl.
    unfold ran. simpl. by rewrite fmap_app.
  - cbn [runcmd events programs]. unfold fork1. cbn [events]. destruct (forks path); [|done].
    rewrite IH by done. destruct (programs t _ _ _ _) as [ls le]. unfold ran. simpl. by rewrite app_nil_r.
Qed.

(** ** A line of input *)

Lemma lex_newline w l : lex w (l ++ [10]) = lex w l.
Proof.
  revert w. induction l as [l IH] using (induction_ltof1 _ length). unfold ltof in IH. intros w.
  destruct l as [|c l]; [done|].
  cbn [app lex]. case_decide; [f_equal; apply IH; simpl; lia|]. case_decide.
  - destruct l as [|c' l]; [done|]. cbn [app].
    destruct (decide (c' = 62)); [do 2 f_equal; apply IH; simpl; lia|do 2 f_equal; apply (IH (c' :: l)); simpl; lia].
  - case_decide; [do 2 f_equal; apply IH; simpl; lia|apply IH; simpl; lia].
Qed.

Definition line_ok (l : list Z) : Prop := (length l ≤ 98)%nat ∧ 0 ∉ l ∧ 10 ∉ l ∧ 13 ∉ l.

(** The input that typing the lines gives. *)
Fixpoint typed (ls : list (list Z)) : list Z :=
  match ls with
  | [] => []
  | l :: ls => l ++ 10 :: typed ls
  end.

Lemma ugets_loop_line pre k l rest :
  (length pre + k = 100)%nat → (length l + 2 ≤ k)%nat → 10 ∉ l → 13 ∉ l →
  ugets_loop (pre ++ replicate k 0) (length pre) 100 (l ++ 10 :: rest) =
    Some (pre ++ l ++ 10 :: replicate (k - length l - 1) 0, S (length pre + length l), rest).
Proof.
  revert pre k. induction l as [|c l IH]; intros pre k Hk Hl H10 H13; cbn [app ugets_loop];
    (destruct k as [|k]; [lia|]); (rewrite (proj2 (Z.ltb_lt _ _)) by (simpl in *; lia));
    unfold put_at; rewrite decide_True by (rewrite length_app, length_replicate; lia); cbn [mbind option_bind];
    rewrite insert_app_r_alt by lia; rewrite Nat.sub_diag; cbn [replicate insert list_insert].
  - simpl. repeat f_equal; lia.
  - rewrite not_elem_of_cons in H10, H13. destruct H10, H13.
    rewrite !(proj2 (Z.eqb_neq _ _)) by lia. cbn [orb].
    rewrite cons_middle, app_assoc. replace (S (length pre)) with (length (pre ++ [c])) by (rewrite length_app; simpl; lia).
    rewrite IH; [|rewrite length_app; simpl; lia|simpl in *; lia|done..].
    rewrite <- app_assoc. rewrite length_app. simpl.
    by replace (length pre + 1 + length l)%nat with (length pre + S (length l))%nat by lia.
Qed.

Lemma getcmd_line l rest :
  line_ok l → getcmd (l ++ 10 :: rest) = Some (Some (l ++ 10 :: replicate (99 - length l) 0), rest).
Proof.
  intros (Hl&H0&H10&H13). unfold getcmd, ugets. change (Z.to_nat NBUF) with 100%nat.
  pose proof (ugets_loop_line [] 100 l rest eq_refl ltac:(lia) H10 H13) as H. simpl length in H. cbn [app] in H.
  change NBUF with 100. rewrite H. cbn [mbind option_bind]. unfold put_at.
  rewrite decide_True by (rewrite length_app; cbn [length]; rewrite length_replicate; lia). cbn [mbind option_bind fst snd].
  rewrite insert_app_r_alt by lia. replace (S (0 + length l) - length l)%nat with 1%nat by lia.
  replace (100 - length l - 1)%nat with (S (98 - length l)) by lia. replace (99 - length l)%nat with (S (98 - length l)) by lia.
  cbn [replicate insert list_insert]. destruct l as [|c l]; [done|]. cbn [app lookup list_lookup mbind option_bind].
  rewrite (proj2 (Z.eqb_neq c 0)) by set_solver. done.
Qed.

Lemma getcmd_end : getcmd [] = Some (None, []).
Proof. done. Qed.

Lemma no_null_elem l : 0 ∉ l → no_null l.
Proof. intros H. unfold no_null. set_solver. Qed.

Lemma until_null_line l n : 0 ∉ l → until_null (l ++ 10 :: replicate (S n) 0) = l ++ [10].
Proof. intros H. rewrite cons_middle, app_assoc. cbn [replicate]. apply until_null_app, no_null_elem. set_solver. Qed.

(** ** Sessions

    What the shell does with the lines that are typed: change directory, or run the
    programs of the command that the line is, or nothing when it is not a command.  The shell
    ends when it cannot fork. *)

(** "cd " *)
Definition CD : word := [99; 100; 32].

Inductive session (i o e : obj) : list (list Z) → list nat → gset (list nat) → list event → Prop :=
| session_end path ended : session i o e [] path ended []
| session_cd l ls path ended es :
    take 3 l = CD → session i o e ls path ended es →
    session i o e (l :: ls) path ended (Chdir (drop 3 l) ended :: es)
| session_run l t ls path ended es :
    take 3 l ≠ CD → derives Line (tokens l) t → forks path = true →
    session i o e ls (path ++ [1%nat]) (ended ∪ (programs t (path ++ [0%nat]) i o ended).2) es →
    session i o e (l :: ls) path ended ((started e <$> (programs t (path ++ [0%nat]) i o ended).1) ++ es)
| session_error l ls path ended es :
    take 3 l ≠ CD → (∀ t, ¬ derives Line (tokens l) t) → forks path = true →
    session i o e ls (path ++ [1%nat]) ended es →
    session i o e (l :: ls) path ended es
| session_fork l ls path ended : take 3 l ≠ CD → forks path = false → session i o e (l :: ls) path ended [].

Lemma run_line_events l n path i o e ended :
  0 ∉ l →
  (∃ t, derives Line (tokens l) t ∧
     events (run_line (l ++ 10 :: replicate (S n) 0)) path (table i o e) ended no_children =
       ran e (programs t path i o ended)) ∨
  ((∀ t, ¬ derives Line (tokens l) t) ∧
     events (run_line (l ++ 10 :: replicate (S n) 0)) path (table i o e) ended no_children = Some ([], ended)).
Proof.
  intros H0. unfold run_line. rewrite until_null_line by done.
  assert (0 ∉ l ++ [10]) as H0' by set_solver.
  assert (tokens (l ++ [10]) = tokens l) as Htok by apply lex_newline.
  pose proof (parsecmd_sound _ H0') as Hs. unfold wpp in Hs. rewrite Htok in Hs.
  destruct (parsecmd (l ++ [10]) 0%nat) as [[c b] m| |[msg| |]] eqn:E; [|done| |done..].
  - destruct Hs as (t&Hd&Hm). left. exists t. split; [done|]. apply runcmd_events; [done|by eapply derives_std].
  - right. split; [|done]. intros t Hd. rewrite <- Htok in Hd.
    apply (parsecmd_complete _ H0'), wp_run in Hd as ([c b]&m&Hr&_). congruence.
Qed.

Lemma take_cd l tl : 10 ∉ CD → take 3 (l ++ 10 :: tl) = CD ↔ take 3 l = CD.
Proof.
  intros _. split; [|intros H; destruct l as [|a [|b [|c l]]]; try done].
  destruct l as [|a [|b [|c l]]]; simpl; try done.
Qed.

Lemma cd_name_line l n : 0 ∉ l → take 3 l = CD → cd_name (l ++ 10 :: replicate (S n) 0) = drop 3 l.
Proof.
  intros H0 Hcd. unfold cd_name. rewrite until_null_line by done. rewrite length_app. cbn [length].
  replace (length l + 1 - 1)%nat with (length l) by lia. rewrite insert_app_r_alt, Nat.sub_diag by lia.
  cbn [insert list_insert]. unfold str.
  assert (3 ≤ length l)%nat by (apply (f_equal length) in Hcd; rewrite length_take in Hcd; change (length CD) with 3%nat in Hcd; lia).
  rewrite drop_app_le by done. apply until_null_app, no_null_elem. intros Hin. apply H0. rewrite <- (take_drop 3 l). set_solver.
Qed.

Lemma main_loop_session ls i o e :
  Forall line_ok ls → ∀ n path ended, (length ls < n)%nat →
  ∃ es last, events (main_loop n (typed ls)) path (table i o e) ended no_children = Some (es, last) ∧
    session i o e ls path ended es.
Proof.
  induction 1 as [|l ls Hl Hls IH]; intros [|n] path ended Hn; simpl in Hn; try lia.
  { exists [], ended. split; [done|constructor]. }
  cbn [main_loop events typed]. rewrite getcmd_line by done.
  destruct Hl as (Hlen&H0&_). replace (99 - length l)%nat with (S (98 - length l)) by lia.
  destruct (decide (take 3 l = CD)) as [Hcd|Hcd].
  - rewrite bool_decide_true by (apply take_cd; [unfold CD; set_solver|done]). cbn [events].
    rewrite cd_name_line by done. destruct (IH n path ended) as (es&last&He&Hs); [lia|].
    exists (Chdir (drop 3 l) ended :: es), last.
    split; [|by constructor]. destruct (chdirs _); simpl; by rewrite He.
  - rewrite bool_decide_false by (rewrite take_cd by (unfold CD; set_solver); done). unfold fork1. cbn [events].
    destruct (forks path) eqn:Ef; [|exists [], ended; split; [done|by constructor]].
    destruct (run_line_events l (98 - length l) (path ++ [0%nat]) i o e ended H0) as [(t&Hd&Hr)|[Hd Hr]]; rewrite Hr;
      cbn [ran mbind option_bind fst snd]; rewrite wait_only; cbn [fst snd].
    + destruct (IH n (path ++ [1%nat]) (ended ∪ (programs t (path ++ [0%nat]) i o ended).2)) as (es&last&He&Hs); [lia|].
      rewrite He. eexists _, last. split; [done|by econstructor].
    + rewrite union_idemp_L. destruct (IH n (path ++ [1%nat]) ended) as (es&last&He&Hs); [lia|].
      rewrite He. exists es, last. split; [done|by eapply session_error].
Qed.

Lemma main_open_std k i o e path ended :
  events (main_open 4 k) path (table i o e) ended no_children = events k path (table i o e) ended no_children.
Proof. cbn [main_open events]. by destruct (opens CONSOLE O_RDWR). Qed.
End events.

Lemma length_lines (ls : list (list Z)) : (length ls ≤ length (typed ls))%nat.
Proof. induction ls as [|l ls IH]; [done|]. cbn [typed length]. rewrite length_app. cbn [length]. lia. Qed.

(** What a command line runs.  When the tokens of a line have a
    derivation in the language of the shell, parsecmd succeeds, and runcmd of what it returns
    starts exactly the programs of the tree that was derived: the
    two sides of a pipe connected by the pipe that their parent made, a redirected
    program with the file as its input or its output, a program of a list after those
    before it have ended, a program in the background without anybody waiting for it.  Each starts with exactly three
    open descriptors, so that no end of a pipe is left open in a program that does not use it. *)
Theorem line_runs_programs opens forks execs chdirs s t :
  0 ∉ s → derives Line (tokens s) t →
  ∃ c b n, parsecmd s 0%nat = Ok (c, b) n ∧
    ∀ path i o e ended, events opens forks execs chdirs (runcmd b c) path (table i o e) ended no_children =
      ran e (programs opens forks execs t path i o ended).
Proof.
  intros H0 Hd. pose proof (derives_std _ _ _ Hd) as Hstd.
  apply (parsecmd_complete s H0), wp_run in Hd as ([c b]&n&Hr&Hm). exists c, b, n. split; [done|].
  intros path i o e ended. by apply runcmd_events.
Qed.

(** C36. A session of the shell.  On lines of at most 98 characters, main of the shell
    does what the lines say, one after the other: a line that starts with "cd " changes the directory of the
    shell itself to the rest of the line, without its newline; any other line runs in a child
    the programs of a command that it is, connected as the language promises, and nothing when it is none.  A program
    starts, and the directory changes, when the programs that come before it have ended, and without waiting for
    any others: those of the earlier lines and of the earlier parts of its list, except those in the
    background; the programs of a pipe run at the same time.  The shell goes on
    after a syntax error and after a failed cd, keeps its own descriptors, and ends at the end of the
    input, or, before that, at a line for which it cannot fork. *)
Theorem shell_session opens forks execs chdirs ls path i o e :
  Forall line_ok ls →
  ∃ es last, events opens forks execs chdirs (main (typed ls)) path (table i o e) ∅ no_children = Some (es, last) ∧
    session opens forks execs i o e ls path ∅ es.
Proof.
  intros Hls. unfold main. rewrite main_open_std. apply main_loop_session; [done|].
  pose proof (length_lines ls). lia.
Qed.

(** * Examples *)

(** Everything succeeds. *)
Definition ex_events (p : proc) : option (list event) :=
  fst <$> events (λ _ _, true) (λ _, true) (λ _, true) (λ _, true) p [] (table (OOther 0) (OOther 1) (OOther 2)) ∅ no_children.

(** "ls <in|(wc;a)>out &" starts ls, wc and a; a starts when wc has ended. *)
Lemma line_runs_programs_witness :
  ∃ c b n, parsecmd example_line 0%nat = Ok (c, b) n ∧
    ex_events (runcmd b c) = Some
      [Started [0; 0]%nat [[108; 115]] (table (OFile [105; 110] O_RDONLY) (OPipeWrite [0%nat]) (OOther 2)) ∅;
       Started [0; 1; 0; 0]%nat [[119; 99]] (table (OPipeRead [0%nat]) (OFile [111; 117; 116] (Z.lor O_WRONLY O_CREATE)) (OOther 2)) ∅;
       Started [0; 1; 0; 1]%nat [[97]] (table (OPipeRead [0%nat]) (OFile [111; 117; 116] (Z.lor O_WRONLY O_CREATE)) (OOther 2))
         {[ [0; 1; 0; 0]%nat ]}].
Proof.
  assert (0 ∉ example_line) as H0 by (unfold example_line; set_solver).
  destruct (line_runs_programs (λ _ _, true) (λ _, true) (λ _, true) (λ _, true) example_line example_tree H0 example_derives)
    as (c&b&n&Hp&He).
  exists c, b, n. split; [exact Hp|]. unfold ex_events. rewrite He. reflexivity.
Defined.

(** "a", "b &" and "cd /d": b starts when a has ended, and the directory changes without waiting for b. *)
Lemma shell_session_witness :
  ∃ es, ex_events (main (typed [[97]; [98; 38]; [99; 100; 32; 47; 100]])) = Some es ∧
    session (λ _ _, true) (λ _, true) (λ _, true) (OOther 0) (OOther 1) (OOther 2) [[97]; [98; 38]; [99; 100; 32; 47; 100]] [] ∅ es ∧
    es = [Started [0]%nat [[97]] (table (OOther 0) (OOther 1) (OOther 2)) ∅;
          Started [1; 0; 0]%nat [[98]] (table (OOther 0) (OOther 1) (OOther 2)) {[ [0]%nat ]};
          Chdir [47; 100] {[ [0]%nat ]}].
Proof.
  destruct (shell_session (λ _ _, true) (λ _, true) (λ _, true) (λ _, true) [[97]; [98; 38]; [99; 100; 32; 47; 100]] []
    (OOther 0) (OOther 1) (OOther 2)) as (es&last&He&Hs).
  - unfold line_ok. repeat constructor; simpl; try lia; set_solver.
  - exists es.
    assert (ex_events (main (typed [[97]; [98; 38]; [99; 100; 32; 47; 100]])) = Some es) as Hx
      by (unfold ex_events; rewrite He; reflexivity).
    split; [exact Hx|]. split; [exact Hs|]. vm_compute in Hx. injection Hx as Hx. rewrite <- Hx. vm_compute. reflexivity.
Defined.
