(* ===== verification/UserProgs.v ===== *)
(** The small user programs: cat.c, wc.c, echo.c, ls.c, init.c, kill.c, ln.c, mkdir.c,
    rm.c, zombie.c, forktest.c and stressfs.c, main of grep.c, and stat of ulib.c.

    A program runs over the class [Calls] of the system calls it makes, on a state [W] of the
    world outside of it; the class [Files] states what cat and wc rely on: reads return the next
    bytes of a file, possibly fewer than asked for, and writes append.  A function that may call exit
    returns [false] if it did.  [args] is argv without the program's name; a string is
    the list of its characters without the null. *)

From S2P Require Import Prelude Bytes Layout Fs Ulib Grep.

Abbreviation word := (list Z) (only parsing).

(** The system calls; read also returns the bytes it stored. *)
Class Calls (W : Type) := {
  sys_open : word → Z → M W Z;
  sys_read : Z → Z → M W (Z * list Z);
  sys_write : Z → list Z → M W Z;
  sys_close : Z → M W Z;
  sys_fstat : Z → M W (Z * stat);
  sys_link : word → word → M W Z;
  sys_unlink : word → M W Z;
  sys_mkdir : word → M W Z;
  sys_mknod : word → Z → Z → M W Z;
  sys_dup : Z → M W Z;
  sys_kill : Z → M W Z;
  sys_fork : M W Z;
  sys_exec : word → list word → M W Z;
  sys_wait : M W Z;
  sys_sleep : Z → M W Z;
}.

Section progs.
Context {W : Type} `{Calls W}.
(** the buffer of printf before it is filled, and a bound for loops over input *)
Context (junk : list Z) (fuel : nat).

(** putc of printf.c *)
Definition putc (fd c : Z) : M W unit := sys_write fd [c];; mret tt.
Definition print (fd : Z) (fmt : list Z) (ap : list arg) : M W unit := printf putc fd junk fmt ap.
Definition msg (s : string) : list Z := chars s ++ [10].

(** The loop of main of cat.c and wc.c over the files of the command line. *)
Fixpoint each_file (cannot_open : list Z) (body : Z → word → M W bool) (args : list word) : M W unit :=
  match args with
  | [] => mret tt
  | path :: args =>
      fd ← sys_open path 0;
      if fd <? 0 then print 1 cannot_open [AStr (Some path)] else
      go ← body fd path;
      if negb go then mret tt else
      sys_close fd;;
      each_file cannot_open body args
  end.

(** * cat.c *)

Fixpoint cat_loop (n : nat) (fd : Z) : M W bool :=
  match n with
  | O => out_of_fuel
  | S n =>
      '(r, buf) ← sys_read fd 512;
      if 0 <? r then
        w ← sys_write 1 (take (Z.to_nat r) buf);
        if negb (w =? r) then print 1 (msg "cat: write error") [];; mret false
        else cat_loop n fd
      else if r <? 0 then print 1 (msg "cat: read error") [];; mret false
      else mret true
  end.
Definition cat (fd : Z) : M W bool := cat_loop fuel fd.

Definition cat_files : list word → M W unit :=
  each_file (msg "cat: cannot open %s") (λ fd _, cat fd).
Definition cat_main (args : list word) : M W unit :=
  match args with [] => cat 0;; mret tt | _ => cat_files args end.

(** * wc.c *)

Record counts := Counts { n_lines : Z; n_words : Z; n_chars : Z; inword : bool }.

(** an int that is incremented *)
Definition incr (n : Z) : M W Z := if int_range (n + 1) then mret (n + 1) else undefined "int overflow".

(** the body of the for loop; strchr of " \r\t\n\v" *)
Definition wc_char (k : counts) (ch : Z) : M W counts :=
  c ← incr (n_chars k);
  l ← (if ch =? 10 then incr (n_lines k) else mret (n_lines k));
  sep ← the "strchr" (strchr [32; 13; 9; 10; 11; 0] ch);
  match sep with
  | Some _ => mret (Counts l (n_words k) c false)
  | None =>
      if negb (inword k) then w ← incr (n_words k); mret (Counts l w c true)
      else mret (Counts l (n_words k) c (inword k))
  end.
Fixpoint wc_chars (k : counts) (buf : list Z) : M W counts :=
  match buf with [] => mret k | ch :: buf => k ← wc_char k ch; wc_chars k buf end.

Fixpoint wc_loop (n : nat) (fd : Z) (k : counts) : M W (Z * counts) :=
  match n with
  | O => out_of_fuel
  | S n =>
      '(r, buf) ← sys_read fd 512;
      if 0 <? r then k ← wc_chars k (take (Z.to_nat r) buf); wc_loop n fd k
      else mret (r, k)
  end.
Definition wc (fd : Z) (name : word) : M W bool :=
  '(r, k) ← wc_loop fuel fd (Counts 0 0 0 false);
  if r <? 0 then print 1 (msg "wc: read error") [];; mret false else
  print 1 (msg "%d %d %d %s") [AInt (n_lines k); AInt (n_words k); AInt (n_chars k); AStr (Some name)];;
  mret true.

Definition wc_files : list word → M W unit := each_file (msg "wc: cannot open %s") wc.
Definition wc_main (args : list word) : M W unit :=
  match args with [] => wc 0 [];; mret tt | _ => wc_files args end.

(** * grep.c *)

(** grep(pattern, fd) *)
Definition grep_fd (pattern buf : list Z) (fd : Z) : M W (list Z) :=
  grep (λ n, sys_read fd (Z.of_nat n)) (λ bs, sys_write 1 bs;; mret tt) fuel pattern buf.
Fixpoint grep_files (pattern buf : list Z) (args : list word) : M W unit :=
  match args with
  | [] => mret tt
  | path :: args =>
      fd ← sys_open path 0;
      if fd <? 0 then print 1 (msg "grep: cannot open %s") [AStr (Some path)] else
      buf ← grep_fd pattern buf fd;
      sys_close fd;;
      grep_files pattern buf args
  end.
Definition grep_main (args : list word) : M W unit :=
  let buf := replicate BUFSIZE 0 in
  match args with
  | [] => print 2 (msg "usage: grep pattern [file ...]") []
  | [pattern] => grep_fd pattern buf 0;; mret tt
  | pattern :: args => grep_files pattern buf args
  end.

(** * echo.c *)

Fixpoint echo_main (args : list word) : M W unit :=
  match args with
  | [] => mret tt
  | a :: args =>
      print 1 (chars "%s%s") [AStr (Some a); AStr (Some (match args with [] => [10] | _ => [32] end))];;
      echo_main args
  end.

(** * kill.c, ln.c, mkdir.c, rm.c, zombie.c *)

Fixpoint kill_pids (args : list word) : M W unit :=
  match args with
  | [] => mret tt
  | a :: args => pid ← the "atoi" (atoi (a ++ [0])); sys_kill pid;; kill_pids args
  end.
Definition kill_main (args : list word) : M W unit :=
  match args with [] => print 2 (msg "usage: kill pid...") [] | _ => kill_pids args end.

Definition ln_main (args : list word) : M W unit :=
  match args with
  | [old; new] =>
      r ← sys_link old new;
      when (r <? 0) (print 2 (msg "link %s %s: failed") [AStr (Some old); AStr (Some new)])
  | _ => print 2 (msg "Usage: ln old new") []
  end.

Fixpoint mkdir_files (args : list word) : M W unit :=
  match args with
  | [] => mret tt
  | a :: args =>
      r ← sys_mkdir a;
      if r <? 0 then print 2 (msg "mkdir: %s failed to create") [AStr (Some a)] else mkdir_files args
  end.
Definition mkdir_main (args : list word) : M W unit :=
  match args with [] => print 2 (msg "Usage: mkdir files...") [] | _ => mkdir_files args end.

Fixpoint rm_files (args : list word) : M W unit :=
  match args with
  | [] => mret tt
  | a :: args =>
      r ← sys_unlink a;
      if r <? 0 then print 2 (msg "rm: %s failed to delete") [AStr (Some a)] else rm_files args
  end.
Definition rm_main (args : list word) : M W unit :=
  match args with [] => print 2 (msg "Usage: rm files...") [] | _ => rm_files args end.

Definition zombie_main : M W unit :=
  pid ← sys_fork;
  when (0 <? pid) (sys_sleep 5;; mret tt).

(** * ulib.c *)

(** stat(n, st) *)
Definition ustat (name : word) : M W (Z * stat) :=
  fd ← sys_open name 0;
  if fd <? 0 then mret (-1, Stat 0 0 0 0 0) else
  r ← sys_fstat fd;
  sys_close fd;;
  mret r.

(** * ls.c *)

(** The loop of fmtname over the string with its null, from the character before [k] on:
    the index after the last slash. *)
Fixpoint after_slash (k : nat) (path : list Z) : M W nat :=
  match k with
  | O => mret 0%nat
  | S p =>
      c ← the "path" (path !! p);
      if c =? 47 then mret (S p) else after_slash p path
  end.

(** fmtname with its static buffer: the string it returns and the buffer after the call *)
Definition fmtname (buf : list Z) (path : word) : M W (word * list Z) :=
  p ← after_slash (S (length path)) (path ++ [0]);
  let name := drop p path in
  if decide (DIRSIZ ≤ length name)%nat then mret (name, buf) else
  let buf := splice 0 name buf in
  let buf := splice (length name) (replicate (DIRSIZ - length name) 32) buf in
  mret (until_null buf, buf).

(** printf(1, "%s %d %d %d\n", fmtname(path), st.type, st.ino, st.size) *)
Definition ls_line (buf : list Z) (path : word) (st : stat) : M W (list Z) :=
  '(name, buf) ← fmtname buf path;
  print 1 (msg "%s %d %d %d") [AStr (Some name); AInt (st_type st); AInt (st_ino st); AInt (st_size st)];;
  mret buf.

(** the entries of the directory that is open as [fd]; [path] ends with the slash *)
Fixpoint ls_entries (n : nat) (buf : list Z) (fd : Z) (path : word) : M W (list Z) :=
  match n with
  | O => out_of_fuel
  | S n =>
      '(r, bs) ← sys_read fd 16;
      if negb (r =? 16) then mret buf else
      let de := dirent_of_bytes bs in
      if de_inum de =? 0 then ls_entries n buf fd path else
      let name := path ++ until_null (de_name de) in
      '(r, st) ← ustat name;
      if r <? 0 then
        print 1 (msg "ls: cannot stat %s") [AStr (Some name)];;
        ls_entries n buf fd path
      else
        buf ← ls_line buf name st;
        ls_entries n buf fd path
  end.

Definition ls (buf : list Z) (path : word) : M W (list Z) :=
  fd ← sys_open path 0;
  if fd <? 0 then print 2 (msg "ls: cannot open %s") [AStr (Some path)];; mret buf else
  '(r, st) ← sys_fstat fd;
  if r <? 0 then
    print 2 (msg "ls: cannot stat %s") [AStr (Some path)];;
    sys_close fd;;
    mret buf
  else
    buf ← (if st_type st =? T_FILE then ls_line buf path st
           else if st_type st =? T_DIR then
             if 512 <? Z.of_nat (length path + 1 + DIRSIZ + 1)
             then print 1 (msg "ls: path too long") [];; mret buf
             else ls_entries fuel buf fd (path ++ [47])
           else mret buf);
    sys_close fd;;
    mret buf.

Fixpoint ls_paths (buf : list Z) (args : list word) : M W unit :=
  match args with [] => mret tt | a :: args => buf ← ls buf a; ls_paths buf args end.
Definition ls_main (args : list word) : M W unit :=
  ls_paths (replicate (DIRSIZ + 1) 0) (match args with [] => [chars "."] | _ => args end).

(** * init.c *)

(** while((wpid=wait()) >= 0 && wpid != pid) printf(1, "zombie!\n"); *)
Fixpoint init_reap (n : nat) (pid : Z) : M W unit :=
  match n with
  | O => out_of_fuel
  | S n =>
      wpid ← sys_wait;
      if (0 <=? wpid) && negb (wpid =? pid) then print 1 (msg "zombie!") [];; init_reap n pid
      else mret tt
  end.

(** the next [rounds] rounds of the endless loop; [false] if the process has called exit or exec *)
Fixpoint init_loop (rounds : nat) : M W bool :=
  match rounds with
  | O => mret true
  | S rounds =>
      print 1 (msg "init: starting sh") [];;
      pid ← sys_fork;
      if pid <? 0 then print 1 (msg "init: fork failed") [];; mret false else
      if pid =? 0 then
        sys_exec (chars "sh") [chars "sh"];;
        print 1 (msg "init: exec sh failed") [];;
        mret false
      else
        init_reap fuel pid;;
        init_loop rounds
  end.

Definition init_main (rounds : nat) : M W bool :=
  fd ← sys_open (chars "console") 2;
  when (fd <? 0) (sys_mknod (chars "console") 1 1;; sys_open (chars "console") 2;; mret tt);;
  sys_dup 0;;
  sys_dup 0;;
  init_loop rounds.

(** * forktest.c *)

Definition FORKTEST_N : nat := 1000.
(** its own printf, for a string that needs no terminator here *)
Definition forktest_printf (fd : Z) (s : list Z) : M W unit := sys_write fd s;; mret tt.

(** The forks, [k] of them at most: how many succeeded, or [None] in a child, which exits. *)
Fixpoint forktest_forks (k n : nat) : M W (option nat) :=
  match k with
  | O => mret (Some n)
  | S k =>
      pid ← sys_fork;
      if pid <? 0 then mret (Some n)
      else if pid =? 0 then mret None
      else forktest_forks k (S n)
  end.
(** [false] if wait stopped early *)
Fixpoint forktest_waits (n : nat) : M W bool :=
  match n with
  | O => mret true
  | S n =>
      r ← sys_wait;
      if r <? 0 then forktest_printf 1 (msg "wait stopped early");; mret false
      else forktest_waits n
  end.
Definition forktest : M W unit :=
  forktest_printf 1 (msg "fork test");;
  r ← forktest_forks FORKTEST_N 0;
  match r with
  | None => mret tt
  | Some n =>
      if decide (n = FORKTEST_N) then forktest_printf 1 (msg "fork claimed to work N times!") else
      go ← forktest_waits n;
      if negb go then mret tt else
      r ← sys_wait;
      if negb (r =? -1) then forktest_printf 1 (msg "wait got too many") else
      forktest_printf 1 (msg "fork test OK")
  end.

(** * stressfs.c *)

Fixpoint stressfs_fork (k : nat) (i : Z) : M W Z :=
  match k with
  | O => mret i
  | S k => pid ← sys_fork; if 0 <? pid then mret i else stressfs_fork k (i + 1)
  end.
Fixpoint stressfs_writes (n : nat) (fd : Z) (data : list Z) : M W unit :=
  match n with O => mret tt | S n => sys_write fd data;; stressfs_writes n fd data end.
Fixpoint stressfs_reads (n : nat) (fd : Z) : M W unit :=
  match n with O => mret tt | S n => sys_read fd 512;; stressfs_reads n fd end.
Definition stressfs_main : M W unit :=
  print 1 (msg "stressfs starting") [];;
  let data := replicate 512 97 in
  i ← stressfs_fork 4 0;
  print 1 (msg "write %d") [AInt i];;
  let path := chars "stressfs" ++ [u8 (48 + i)] in
  fd ← sys_open path (Z.lor 0x200 2);
  stressfs_writes 20 fd data;;
  sys_close fd;;
  print 1 (msg "read") [];;
  fd ← sys_open path 0;
  stressfs_reads 20 fd;;
  sys_close fd;;
  sys_wait;;
  mret tt.
End progs.

(** * What wc counts *)

Definition is_blank (c : Z) : bool := bool_decide (c ∈ [32; 13; 9; 10; 11]).

(** The pieces of a text between blanks; its words are those that are not empty. *)
Fixpoint pieces (bs : list Z) : list (list Z) :=
  match bs with
  | [] => [[]]
  | c :: bs =>
      match pieces bs with
      | p :: ps => if is_blank c then [] :: p :: ps else (c :: p) :: ps
      | [] => [[c]]
      end
  end.
Definition words (bs : list Z) : list (list Z) := filter (λ p, p ≠ []) (pieces bs).
Definition lines (bs : list Z) : list Z := filter (λ c, c = 10) bs.

Definition starts_word (bs : list Z) : bool :=
  match bs with c :: _ => negb (is_blank c) | [] => false end.

Lemma pieces_head bs : ∃ p ps, pieces bs = p :: ps ∧ (p = [] ↔ starts_word bs = false).
Proof.
  induction bs as [|c bs (p & ps & E & _)]; simpl; [by exists [], []|]. rewrite E.
  destruct (is_blank c); simpl; [by exists [], (p :: ps)|by exists (c :: p), ps].
Qed.

Lemma words_cons c bs :
  length (words (c :: bs)) =
    (length (words bs) + if is_blank c || starts_word bs then 0 else 1)%nat.
Proof.
  unfold words. simpl. destruct (pieces_head bs) as (p & ps & -> & Hp).
  destruct (is_blank c); simpl orb; rewrite !filter_cons.
  - rewrite (decide_False (P := [] ≠ [])) by tauto. lia.
  - rewrite decide_True by done. destruct (starts_word bs).
    + rewrite decide_True by naive_solver. simpl. lia.
    + rewrite decide_False by tauto. simpl. lia.
Qed.

Lemma strchr_blank c :
  strchr [32; 13; 9; 10; 11; 0] c ≠ None ∧
  (is_blank c = false ↔ strchr [32; 13; 9; 10; 11; 0] c = Some None).
Proof.
  unfold is_blank. rewrite bool_decide_eq_false, !not_elem_of_cons. cbn [strchr].
  repeat match goal with |- context [?x =? c] => destruct (Z.eqb_spec x c) end; subst; simpl; split; try done;
    split; try done; intros; [tauto || (repeat split; (congruence || apply not_elem_of_nil))..].
Qed.

Section count.
Context {W : Type}.

Lemma incr_run n (w : W) : 0 ≤ n < 2 ^ 31 - 1 → incr n w = Ok (n + 1) w.
Proof.
  intros Hn. unfold incr, int_range.
  rewrite (proj2 (Z.leb_le _ _)), (proj2 (Z.ltb_lt _ _)) by lia. done.
Qed.

Definition good_counts (k : counts) (n : Z) : Prop :=
  0 ≤ n_lines k ≤ n_chars k ∧ 0 ≤ n_words k ≤ n_chars k ∧ n_chars k + n < 2 ^ 31.

(** One character. *)
Definition count (k : counts) (c : Z) : counts :=
  Counts (n_lines k + if c =? 10 then 1 else 0) (n_words k + if is_blank c || inword k then 0 else 1)
    (n_chars k + 1) (negb (is_blank c)).

Lemma count_good k c n : good_counts k (1 + n) → good_counts (count k c) n.
Proof. unfold good_counts, count. simpl. destruct (c =? 10), (is_blank c || inword k); lia. Qed.

Lemma wc_char_run k c (w : W) : good_counts k 1 → wc_char k c w = Ok (count k c) w.
Proof.
  intros (Hl & Hw & Hc). unfold wc_char. rewrite (bind_run _ _ _ _ _ (incr_run (n_chars k) w ltac:(lia))).
  rewrite (bind_run _ _ _ (n_lines k + if c =? 10 then 1 else 0) w).
  2: { destruct (c =? 10); [apply incr_run; lia|]. unfold mret, M_ret. f_equal. lia. }
  unfold count. destruct (strchr_blank c) as [Hs Hb].
  destruct (strchr [32; 13; 9; 10; 11; 0] c) as [o|] eqn:E; [|done].
  rewrite (bind_run _ _ _ o w) by done. destruct o as [i|].
  - destruct (is_blank c); [|by destruct Hb as [Hb _]; specialize (Hb eq_refl)].
    simpl. unfold mret, M_ret. by rewrite Z.add_0_r.
  - rewrite (proj2 Hb eq_refl). simpl. destruct (inword k); simpl.
    + unfold mret, M_ret. by rewrite Z.add_0_r.
    + by rewrite (bind_run _ _ _ _ _ (incr_run (n_words k) w ltac:(lia))).
Qed.

Lemma counts_good k bs n :
  good_counts k (Z.of_nat (length bs) + n) → good_counts (foldl count k bs) n.
Proof.
  revert k. induction bs as [|c bs IH]; intros k Hk; simpl; [by rewrite Z.add_0_l in Hk|].
  apply IH, count_good. unfold good_counts in *. simpl in Hk. lia.
Qed.

Lemma wc_chars_run bs k (w : W) :
  good_counts k (Z.of_nat (length bs)) → wc_chars k bs w = Ok (foldl count k bs) w.
Proof.
  revert k. induction bs as [|c bs IH]; intros k Hk; simpl; [done|].
  rewrite (bind_run _ _ _ _ _ (wc_char_run k c w ltac:(unfold good_counts in *; simpl in Hk; lia))).
  apply IH, count_good. unfold good_counts in *. simpl in Hk. lia.
Qed.

(** wc adds the lines, words and characters of the text, except that a word it is in the middle of
    is not counted again. *)
Lemma count_text bs k :
  n_lines (foldl count k bs) = n_lines k + Z.of_nat (length (lines bs)) ∧
  n_words (foldl count k bs) =
    n_words k + Z.of_nat (length (words bs)) - (if inword k && starts_word bs then 1 else 0) ∧
  n_chars (foldl count k bs) = n_chars k + Z.of_nat (length bs).
Proof.
  revert k. induction bs as [|c bs IH]; intros k.
  { simpl. rewrite andb_false_r. lia. }
  cbn [foldl]. destruct (IH (count k c)) as (-> & -> & ->). cbn [count n_lines n_words n_chars inword].
  split_and!.
  - unfold lines. rewrite filter_cons. destruct (Z.eqb_spec c 10).
    + rewrite decide_True by done. simpl. lia.
    + rewrite decide_False by done. lia.
  - rewrite words_cons. simpl starts_word. destruct (is_blank c), (inword k), (starts_word bs); simpl; lia.
  - simpl. lia.
Qed.
End count.

(** * What the programs rely on *)

(** Files with their contents, the input that is left on each open descriptor, and what was written
    to each. *)
Class Files (W : Type) `{Calls W} := {
  file : W → word → option (list Z);
  input : W → Z → option (list Z);
  output : W → Z → list Z;
  files_read w fd bs n : input w fd = Some bs → 0 < n →
    ∃ k w', sys_read fd n w = Ok (Z.of_nat k, take k bs) w' ∧
      Z.of_nat k ≤ n ∧ (k ≤ length bs)%nat ∧ (k = 0%nat → bs = []) ∧
      input w' fd = Some (drop k bs) ∧ (∀ f, output w' f = output w f) ∧ (∀ p, file w' p = file w p);
  files_write w fd bs : fd = 1 ∨ fd = 2 →
    ∃ w', sys_write fd bs w = Ok (Z.of_nat (length bs)) w' ∧
      (∀ f, output w' f = if decide (f = fd) then output w fd ++ bs else output w f) ∧
      (∀ f, input w' f = input w f) ∧ (∀ p, file w' p = file w p);
  files_open w path : 
    ∃ fd w', sys_open path 0 w = Ok fd w' ∧
      (∀ f, output w' f = output w f) ∧ (∀ p, file w' p = file w p) ∧
      match file w path with
      | Some bs => 0 ≤ fd ∧ input w' fd = Some bs
      | None => fd < 0
      end;
  files_close w fd :
    ∃ r w', sys_close fd w = Ok r w' ∧
      (∀ f, output w' f = output w f) ∧ (∀ p, file w' p = file w p);
}.

Section theorems.
Context {W : Type} `{HF : Files W} (junk : list Z) (fuel : nat).
Hypothesis (Hjunk : length junk = 16%nat).
Implicit Types (w : W).

(** [w'] is [w] with [bs] written to descriptor 1, and possibly input consumed. *)
Definition wrote w w' (bs : list Z) : Prop :=
  (∀ f, output w' f = if decide (f = 1) then output w 1 ++ bs else output w f) ∧
  (∀ p, file w' p = file w p).

Lemma wrote_none w w' :
  (∀ f, output w' f = output w f) → (∀ p, file w' p = file w p) → wrote w w' [].
Proof. intros Ho Hf. split; [|done]. intros f. rewrite Ho. case_decide; subst; by rewrite ?app_nil_r. Qed.

Lemma wrote_trans w1 w2 w3 b1 b2 : wrote w1 w2 b1 → wrote w2 w3 b2 → wrote w1 w3 (b1 ++ b2).
Proof.
  intros [H1 F1] [H2 F2]. split.
  - intros f. rewrite H2, H1. case_decide; [|by rewrite H1, decide_False].
    rewrite decide_True by done. by rewrite app_assoc.
  - intros p. by rewrite F2.
Qed.

(** Characters put one by one, and whatever printf puts. *)
Lemma puts_wrote bs w :
  ∃ w', puts (putc 1) bs w = Ok tt w' ∧ wrote w w' bs ∧ ∀ f, input w' f = input w f.
Proof.
  revert w. induction bs as [|c bs IH]; intros w; simpl.
  { exists w. split; [done|]. split; [by apply wrote_none|done]. }
  destruct (files_write w 1 [c] (or_introl eq_refl)) as (w1 & Hw & Ho & Hi & Hf).
  destruct (IH w1) as (w2 & Hrun & Hwr & Hin). exists w2.
  rewrite (bind_run _ _ _ tt w1) by (unfold putc; by rewrite (bind_run _ _ _ _ _ Hw)).
  split; [done|]. split; [|intros f; by rewrite Hin].
  change (c :: bs) with ([c] ++ bs). apply (wrote_trans _ w1); [|done]. split; [|done].
  intros f. rewrite Ho. case_decide; by subst.
Qed.

Lemma print_wrote fmt ap bs w :
  formatted true fmt ap = Some bs →
  ∃ w', print junk 1 fmt ap w = Ok tt w' ∧ wrote w w' bs ∧ ∀ f, input w' f = input w f.
Proof.
  intros E. unfold print, printf.
  rewrite (format_loop_run (putc 1) junk Hjunk true (length fmt) fmt ap bs) by done. apply puts_wrote.
Qed.

(** ** cat *)

Lemma cat_run n fd bs w :
  input w fd = Some bs → (length bs < n)%nat →
  ∃ w', cat_loop junk n fd w = Ok true w' ∧ wrote w w' bs.
Proof.
  revert bs w. induction n as [|n IH]; intros bs w Hin Hn; [lia|]. simpl.
  destruct (files_read w fd bs 512 Hin ltac:(lia)) as (k & w1 & Hr & Hk & Hkl & Hk0 & Hin1 & Ho1 & Hf1).
  rewrite (bind_run _ _ _ _ _ Hr). destruct (decide (k = 0%nat)) as [->|Hne].
  - rewrite (Hk0 eq_refl). simpl. exists w1. split; [done|]. by apply wrote_none.
  - rewrite (proj2 (Z.ltb_lt _ _)) by lia.
    rewrite Nat2Z.id, take_take, Nat.min_id.
    destruct (files_write w1 1 (take k bs) (or_introl eq_refl)) as (w2 & Hw & Ho2 & Hin2 & Hf2).
    rewrite (bind_run _ _ _ _ _ Hw). rewrite length_take, Nat.min_l by lia. rewrite Z.eqb_refl. simpl.
    destruct (IH (drop k bs) w2) as (w3 & Hrun & Hwr); [by rewrite Hin2|rewrite length_drop; lia|].
    exists w3. split; [done|]. rewrite <- (take_drop k bs). apply (wrote_trans _ w2); [|done].
    rewrite <- (app_nil_l (take k bs)). apply (wrote_trans _ w1); [by apply wrote_none|].
    split; [|done]. intros f. rewrite Ho2. case_decide; by subst.
Qed.

(** ** The loop over the files *)

Lemma each_file_run cannot_open body (ok : list Z → Prop) (out : word → list Z → list Z) args contents w :
  (∀ fd a bs w, input w fd = Some bs → ok bs → ∃ w', body fd a w = Ok true w' ∧ wrote w w' (out a bs)) →
  Forall2 (λ a bs, file w a = Some bs ∧ ok bs) args contents →
  ∃ w', each_file junk cannot_open body args w = Ok tt w' ∧ wrote w w' (concat (zip_with out args contents)).
Proof.
  intros Hbody. revert contents w. induction args as [|a args IH]; intros contents w Hall.
  { apply Forall2_nil_inv_l in Hall as ->. exists w. split; [done|]. by apply wrote_none. }
  apply Forall2_cons_inv_l in Hall as (bs & contents' & [Hfile Hok] & Hall & ->). simpl.
  destruct (files_open w a) as (fd & w1 & Hopen & Ho1 & Hf1 & Hfd). rewrite Hfile in Hfd.
  rewrite (bind_run _ _ _ _ _ Hopen). destruct Hfd as [Hfd Hin]. rewrite (proj2 (Z.ltb_ge _ _)) by done.
  destruct (Hbody fd a bs w1 Hin Hok) as (w2 & Hrun & Hw2). rewrite (bind_run _ _ _ _ _ Hrun). simpl.
  destruct (files_close w2 fd) as (r & w3 & Hclose & Ho3 & Hf3). rewrite (bind_run _ _ _ _ _ Hclose).
  assert (wrote w w3 (out a bs)) as Hw3.
  { rewrite <- (app_nil_r (out a bs)), <- (app_nil_l (out a bs ++ [])).
    eapply wrote_trans; [by apply (wrote_none w w1)|].
    eapply wrote_trans; [exact Hw2|]. by apply wrote_none. }
  destruct (IH contents' w3) as (w4 & Hrest & Hw4).
  { eapply Forall2_impl; [|exact Hall]. intros a' bs' [? ?]. split; [|done].
    destruct Hw3 as [_ Hf]. by rewrite Hf. }
  exists w4. split; [done|]. by apply (wrote_trans _ w3).
Qed.

(** cat copies: cat with the names of existing files writes their contents to its output, one after
    the other, whatever the sizes of the pieces that read returns, and nothing else. *)
Theorem cat_copies args contents w :
  args ≠ [] → Forall2 (λ a bs, file w a = Some bs ∧ (length bs < fuel)%nat) args contents →
  ∃ w', cat_main junk fuel args w = Ok tt w' ∧ wrote w w' (concat contents).
Proof.
  intros Hne Hall. assert (cat_main junk fuel args = cat_files junk fuel args) as -> by by destruct args.
  replace (concat contents) with (concat (zip_with (λ _ bs, bs) args contents))
    by (f_equal; clear -Hall; induction Hall; simpl; congruence).
  apply (each_file_run _ _ (λ bs, length bs < fuel)%nat); [|done].
  intros fd a bs w1 Hin Hb. by apply cat_run.
Qed.

(** ** wc *)

Lemma wc_loop_run n fd bs k w :
  input w fd = Some bs → (length bs < n)%nat → good_counts k (Z.of_nat (length bs)) →
  ∃ w', wc_loop n fd k w = Ok (0, foldl count k bs) w' ∧ wrote w w' [].
Proof.
  revert bs k w. induction n as [|n IH]; intros bs k w Hin Hn Hk; [lia|]. simpl.
  destruct (files_read w fd bs 512 Hin ltac:(lia)) as (i & w1 & Hr & Hi & Hil & Hi0 & Hin1 & Ho1 & Hf1).
  rewrite (bind_run _ _ _ _ _ Hr). destruct (decide (i = 0%nat)) as [->|Hne].
  - rewrite (Hi0 eq_refl). simpl. exists w1. split; [done|]. by apply wrote_none.
  - rewrite (proj2 (Z.ltb_lt _ _)) by lia. rewrite Nat2Z.id, take_take, Nat.min_id.
    assert (foldl count k bs = foldl count (foldl count k (take i bs)) (drop i bs)) as ->
      by by rewrite <- foldl_app, take_drop.
    assert (length (take i bs) = i) as Hti by (rewrite length_take; lia).
    rewrite (bind_run _ _ _ (foldl count k (take i bs)) w1)
      by (apply wc_chars_run; unfold good_counts in *; lia).
    destruct (IH (drop i bs) (foldl count k (take i bs)) w1) as (w2 & Hrun & Hwr); [done|rewrite length_drop; lia| |].
    { apply counts_good. rewrite Hti, length_drop.
      by replace (Z.of_nat i + Z.of_nat (length bs - i)) with (Z.of_nat (length bs)) by lia. }
    exists w2. split; [done|].
    rewrite <- (app_nil_l []). apply (wrote_trans _ w1); [by apply wrote_none|done].
Qed.

(** the line that wc prints for a file *)
Definition wc_line (name : word) (bs : list Z) : list Z :=
  decimal (Z.of_nat (length (lines bs))) ++ [32] ++ decimal (Z.of_nat (length (words bs))) ++ [32] ++
  decimal (Z.of_nat (length bs)) ++ [32] ++ name ++ [10].

Lemma lines_le bs : (length (lines bs) ≤ length bs)%nat.
Proof. apply length_filter. Qed.
Lemma words_le bs : (length (words bs) ≤ length bs)%nat.
Proof.
  induction bs as [|c bs IH]; [done|]. rewrite words_cons. simpl.
  destruct (is_blank c || starts_word bs); lia.
Qed.

Lemma wc_format l n c name :
  0 ≤ l < 2 ^ 31 → 0 ≤ n < 2 ^ 31 → 0 ≤ c < 2 ^ 31 →
  formatted true (msg "%d %d %d %s") [AInt l; AInt n; AInt c; AStr (Some name)] =
    Some (decimal l ++ [32] ++ decimal n ++ [32] ++ decimal c ++ [32] ++ name ++ [10]).
Proof.
  intros Hl Hn Hc. change (msg "%d %d %d %s") with [37; 100; 32; 37; 100; 32; 37; 100; 32; 37; 115; 10].
  simpl. by rewrite !sext_small by lia.
Qed.

Lemma wc_run fd name bs w :
  input w fd = Some bs → (length bs < fuel)%nat → Z.of_nat (length bs) < 2 ^ 31 →
  ∃ w', wc junk fuel fd name w = Ok true w' ∧ wrote w w' (wc_line name bs).
Proof.
  intros Hin Hn Hlen. unfold wc.
  destruct (wc_loop_run fuel fd bs (Counts 0 0 0 false) w Hin Hn) as (w1 & Hrun & Hw1).
  { unfold good_counts. simpl. lia. }
  rewrite (bind_run _ _ _ _ _ Hrun). simpl.
  destruct (count_text bs (Counts 0 0 0 false)) as (El & Ew & Ec). simpl in El, Ew, Ec.
  rewrite El, Ew, Ec, Z.sub_0_r, !Z.add_0_l.
  pose proof (lines_le bs). pose proof (words_le bs).
  destruct (print_wrote (msg "%d %d %d %s")
    [AInt (Z.of_nat (length (lines bs))); AInt (Z.of_nat (length (words bs))); AInt (Z.of_nat (length bs));
     AStr (Some name)] (wc_line name bs) w1) as (w2 & Hp & Hw2 & _).
  { apply wc_format; lia. }
  rewrite (bind_run _ _ _ _ _ Hp). exists w2. split; [done|].
  rewrite <- (app_nil_l (wc_line name bs)). by apply (wrote_trans _ w1).
Qed.

(** wc counts: wc with the names of existing files prints, for each, the number of its newlines, of its words (the
    pieces between blanks that are not empty) and of its characters, whatever the sizes of the pieces that read
    returns. *)
Theorem wc_counts args contents w :
  args ≠ [] →
  Forall2 (λ a bs, file w a = Some bs ∧ (length bs < fuel)%nat ∧ Z.of_nat (length bs) < 2 ^ 31) args contents →
  ∃ w', wc_main junk fuel args w = Ok tt w' ∧ wrote w w' (concat (zip_with wc_line args contents)).
Proof.
  intros Hne Hall. assert (wc_main junk fuel args = wc_files junk fuel args) as -> by by destruct args.
  apply (each_file_run _ _ (λ bs, (length bs < fuel)%nat ∧ Z.of_nat (length bs) < 2 ^ 31)); [|done].
  intros fd a bs w1 Hin [Hb1 Hb2]. by apply wc_run.
Qed.

(** ** grep *)

(** Reads that fit the buffer of grep return all that is asked for, or all that is left, as on regular files. *)
Definition whole_reads : Prop := ∀ w fd bs n, input w fd = Some bs → 0 < n < 1024 →
  ∃ w', sys_read fd n w = Ok (Z.of_nat (length (take (Z.to_nat n) bs)), take (Z.to_nat n) bs) w'.

Definition greppable (bs : list Z) : Prop := no_null bs ∧ lines_fit bs ∧ (length bs < fuel)%nat.

Lemma grep_fd_run re buf fd bs w :
  whole_reads → input w fd = Some bs → length buf = BUFSIZE → greppable bs →
  ∃ buf' w', grep_fd fuel re buf fd w = Ok buf' w' ∧ length buf' = BUFSIZE ∧ wrote w w' (selected re bs).
Proof.
  intros Hwhole Hin Hlen (Hn & Hfit & Hf).
  destruct (grep_run (λ n, sys_read fd (Z.of_nat n)) (λ bs, sys_write 1 bs;; mret tt)
    (λ w' data out, input w' fd = Some data ∧ wrote w w' out)) with (re := re) (fuel := fuel) (buf := buf)
    (data := bs) (w := w) (out := @nil Z) as (buf' & w' & Hrun & Hl & _ & Hw); try done.
  - intros w1 data out n [Hin1 Hw1] Hpos. unfold BUFSIZE in Hpos.
    destruct (files_read w1 fd data (Z.of_nat n) Hin1 ltac:(lia)) as (k & w2 & Hr & _ & Hk & _ & Hin2 & Ho & Hfi).
    destruct (Hwhole w1 fd data (Z.of_nat n) Hin1 ltac:(lia)) as (w2' & Hr'). rewrite Hr, Nat2Z.id in Hr'.
    injection Hr' as Hkn Htake <-. apply Nat2Z.inj in Hkn. exists w2. rewrite Hr, Htake, Hkn.
    split; [done|]. split; [|rewrite <- (app_nil_r out); apply (wrote_trans _ w1); [done|by apply wrote_none]].
    rewrite Hin2, Hkn. rewrite length_take. f_equal.
    destruct (decide (n ≤ length data)%nat); [by rewrite Nat.min_l by lia|]. by rewrite !drop_ge by lia.
  - intros w1 data out b [Hin1 Hw1]. destruct (files_write w1 1 b (or_introl eq_refl)) as (w2 & Hr & Ho & Hi & Hfi).
    exists w2. split; [by rewrite (bind_run _ _ _ _ _ Hr)|]. rewrite Hi. split; [done|].
    apply (wrote_trans _ w1); [done|]. split; [|done]. intros f. rewrite Ho. case_decide; by subst.
  - split; [done|]. by apply wrote_none.
  - by exists buf', w'.
Qed.

Lemma grep_files_run re buf args contents w :
  whole_reads → length buf = BUFSIZE → Forall2 (λ a bs, file w a = Some bs ∧ greppable bs) args contents →
  ∃ w', grep_files junk fuel re buf args w = Ok tt w' ∧ wrote w w' (concat (selected re <$> contents)).
Proof.
  intros Hwhole. revert buf contents w. induction args as [|a args IH]; intros buf contents w Hlen Hall.
  { apply Forall2_nil_inv_l in Hall as ->. exists w. split; [done|]. by apply wrote_none. }
  apply Forall2_cons_inv_l in Hall as (bs & contents' & [Hfile Hok] & Hall & ->). cbn [grep_files].
  destruct (files_open w a) as (fd & w1 & Hopen & Ho1 & Hf1 & Hfd). rewrite Hfile in Hfd.
  rewrite (bind_run _ _ _ _ _ Hopen). destruct Hfd as [Hfd Hin]. rewrite (proj2 (Z.ltb_ge _ _)) by done.
  destruct (grep_fd_run re buf fd bs w1) as (buf2 & w2 & Hrun & Hl2 & Hw2); [done..|]. rewrite (bind_run _ _ _ _ _ Hrun).
  destruct (files_close w2 fd) as (r & w3 & Hclose & Ho3 & Hf3). rewrite (bind_run _ _ _ _ _ Hclose).
  assert (wrote w w3 (selected re bs)) as Hw3.
  { rewrite <- (app_nil_r (selected re bs)), <- (app_nil_l (selected re bs ++ [])).
    eapply wrote_trans; [by apply (wrote_none w w1)|].
    eapply wrote_trans; [exact Hw2|]. by apply wrote_none. }
  destruct (IH buf2 contents' w3 Hl2) as (w4 & Hrest & Hw4).
  { eapply Forall2_impl; [|exact Hall]. intros a' bs' [? ?]. split; [|done].
    destruct Hw3 as [_ Hf]. by rewrite Hf. }
  exists w4. split; [done|]. by apply (wrote_trans _ w3).
Qed.

(** grep prints its matches: with a pattern and the names of regular files without null characters, whose lines have
    at most 1022 characters, grep writes exactly the lines of the files that match, each once and in order, also those
    that cross the end of its buffer. *)
Theorem grep_prints_matches re args contents w :
  whole_reads → args ≠ [] → Forall2 (λ a bs, file w a = Some bs ∧ greppable bs) args contents →
  ∃ w', grep_main junk fuel (re :: args) w = Ok tt w' ∧ wrote w w' (concat (selected re <$> contents)).
Proof.
  intros Hwhole Hne Hall. destruct args as [|a args]; [done|].
  apply (grep_files_run re (replicate BUFSIZE 0) (a :: args)); [done|apply length_replicate|done].
Qed.

(** ** echo *)

(** the arguments with blanks between them and a newline at the end *)
Fixpoint echoed (args : list word) : list Z :=
  match args with
  | [] => []
  | [a] => a ++ [10]
  | a :: args => a ++ [32] ++ echoed args
  end.

Theorem echo_prints args w :
  ∃ w', echo_main junk args w = Ok tt w' ∧ wrote w w' (echoed args).
Proof.
  revert w. induction args as [|a args IH]; intros w; cbn [echo_main].
  { exists w. split; [done|]. by apply wrote_none. }
  set (sep := match args with [] => [10] | _ => [32] end).
  destruct (print_wrote (chars "%s%s") [AStr (Some a); AStr (Some sep)] (a ++ sep) w) as (w1 & Hp & Hw1 & _).
  { change (chars "%s%s") with [37; 115; 37; 115]. simpl. by rewrite app_nil_r. }
  rewrite (bind_run _ _ _ _ _ Hp). destruct (IH w1) as (w2 & Hrun & Hw2). exists w2. split; [done|].
  assert (echoed (a :: args) = (a ++ sep) ++ echoed args) as ->.
  { unfold sep. destruct args; simpl; [by rewrite app_nil_r|]. by rewrite <- app_assoc. }
  by apply (wrote_trans _ w1).
Qed.
End theorems.

(** * forktest *)

(** What forktest relies on: fork makes a child, or fails when there is no room for one; wait ends with a child, as long as there is
    one, and neither writes. *)
Class Children (W : Type) `{Files W} := {
  children : W → nat;
  room : W → nat;
  children_fork w :
    ∃ pid w', sys_fork w = Ok pid w' ∧ (∀ f, output w' f = output w f) ∧
      match room w with
      | O => pid < 0 ∧ children w' = children w
      | S r => 0 < pid ∧ children w' = S (children w) ∧ room w' = r
      end;
  children_wait w :
    ∃ pid w', sys_wait w = Ok pid w' ∧ (∀ f, output w' f = output w f) ∧
      match children w with O => pid = -1 | S c => 0 < pid ∧ children w' = c end;
  children_write w fd bs : fd = 1 →
    ∃ w', sys_write fd bs w = Ok (Z.of_nat (length bs)) w' ∧ children w' = children w ∧ room w' = room w;
}.

Section forktest.
Context {W : Type} `{HC : Children W}.
Implicit Types (w : W).

Lemma forks_run r k n w :
  room w = r → (r < k)%nat →
  ∃ w', forktest_forks k n w = Ok (Some (n + r)%nat) w' ∧ (∀ f, output w' f = output w f) ∧
    children w' = (children w + r)%nat.
Proof.
  revert k n w. induction r as [|r IH]; intros [|k] n w Hr Hk; try lia; cbn [forktest_forks];
    destruct (children_fork w) as (pid & w1 & R1 & O1 & C1); rewrite Hr in C1; rewrite (bind_run _ _ _ _ _ R1).
  - destruct C1 as [Hp C1]. rewrite (proj2 (Z.ltb_lt _ _)) by done. exists w1. rewrite !Nat.add_0_r. done.
  - destruct C1 as (Hp & C1 & Hr1). rewrite (proj2 (Z.ltb_ge _ _)), (proj2 (Z.eqb_neq _ _)) by lia.
    destruct (IH k (S n) w1 Hr1) as (w' & -> & O' & C'); [lia|]. exists w'.
    split; [do 2 f_equal; lia|]. split; [intros f; by rewrite O', O1|lia].
Qed.

Lemma waits_run n w :
  children w = n →
  ∃ w', forktest_waits n w = Ok true w' ∧ (∀ f, output w' f = output w f) ∧ children w' = 0%nat.
Proof.
  revert w. induction n as [|n IH]; intros w Hc; cbn [forktest_waits]; [by exists w|].
  destruct (children_wait w) as (pid & w1 & R1 & O1 & C1). rewrite Hc in C1. destruct C1 as [Hp C1].
  rewrite (bind_run _ _ _ _ _ R1), (proj2 (Z.ltb_ge _ _)) by lia.
  destruct (IH w1 C1) as (w' & -> & O' & C'). exists w'. split; [done|]. split; [intros f; by rewrite O', O1|done].
Qed.

(** When the table of processes has room for fewer than 1000 children, forktest collects every child it made and
    reports success. *)
Theorem forktest_ok w :
  children w = 0%nat → (room w < FORKTEST_N)%nat →
  ∃ w', forktest w = Ok tt w' ∧ output w' 1 = output w 1 ++ msg "fork test" ++ msg "fork test OK".
Proof.
  intros Hc Hr. unfold forktest, forktest_printf.
  destruct (children_write w 1 (msg "fork test") eq_refl) as (w1 & R1 & C1 & M1).
  destruct (files_write w 1 (msg "fork test") (or_introl eq_refl)) as (w1' & R1' & O1 & _ & _).
  rewrite R1 in R1'. injection R1' as <-.
  rewrite (bind_run _ _ w tt w1) by (by rewrite (bind_run _ _ _ _ _ R1)).
  destruct (forks_run (room w) FORKTEST_N 0 w1) as (w2 & R2 & O2 & C2); [done|done|]. rewrite (bind_run _ _ _ _ _ R2).
  rewrite Nat.add_0_l, decide_False by lia.
  destruct (waits_run (room w) w2) as (w3 & R3 & O3 & C3); [lia|]. rewrite (bind_run _ _ _ _ _ R3). cbn [negb].
  destruct (children_wait w3) as (pid & w4 & R4 & O4 & C4). rewrite C3 in C4. subst pid.
  rewrite (bind_run _ _ _ _ _ R4). change (negb (-1 =? -1)) with false. cbv iota.
  destruct (files_write w4 1 (msg "fork test OK") (or_introl eq_refl)) as (w5 & R5 & O5 & _ & _).
  exists w5. rewrite (bind_run _ _ _ _ _ R5). split; [done|].
  by rewrite O5, O4, O3, O2, O1, !decide_True, <- app_assoc by done.
Qed.
End forktest.

(** * ls *)

(** The last component of a path. *)
Fixpoint basename (path : word) : word :=
  match path with
  | [] => []
  | c :: rest => if bool_decide (47 ∈ rest) then basename rest else if c =? 47 then rest else path
  end.

Lemma basename_snoc l c : basename (l ++ [c]) = if c =? 47 then [] else basename l ++ [c].
Proof.
  induction l as [|x l IH]; cbn [app basename].
  { rewrite bool_decide_false by apply not_elem_of_nil. destruct (c =? 47); done. }
  rewrite IH. destruct (Z.eqb_spec c 47) as [E|Hc].
  - rewrite bool_decide_true; [done|]. rewrite E. set_solver.
  - destruct (decide (47 ∈ l)).
    + by rewrite !bool_decide_true by set_solver.
    + rewrite !bool_decide_false by set_solver. by destruct (x =? 47).
Qed.

Lemma basename_length l : (length (basename l) ≤ length l)%nat.
Proof.
  induction l as [|x l IH]; [done|]. cbn [basename]. case_bool_decide; [simpl; lia|].
  destruct (x =? 47); simpl; lia.
Qed.

Lemma basename_drop l : drop (length l - length (basename l)) l = basename l.
Proof.
  induction l as [|x l IH]; [done|]. cbn [basename].
  pose proof (basename_length l). case_bool_decide.
  - replace (length (x :: l) - length (basename l))%nat with (S (length l - length (basename l)))
      by (simpl; lia). done.
  - destruct (x =? 47).
    + replace (length (x :: l) - length l)%nat with 1%nat by (simpl; lia). done.
    + by rewrite Nat.sub_diag.
Qed.

Lemma after_slash_run {W} k l (w : W) :
  (k ≤ length l)%nat → after_slash k l w = Ok (k - length (basename (take k l)))%nat w.
Proof.
  induction k as [|k IH]; intros Hk; [done|]. cbn [after_slash].
  destruct (lookup_lt_is_Some_2 l k) as [c Hc]; [lia|]. rewrite (bind_run _ _ _ c w) by by rewrite Hc.
  rewrite (take_S_r _ _ _ Hc), basename_snoc. destruct (c =? 47); [done|].
  rewrite IH by lia. rewrite length_app. f_equal. simpl. lia.
Qed.

Definition padded (name : word) : word := name ++ replicate (DIRSIZ - length name) 32.

(** fmtname returns the last component of the path, padded with blanks to DIRSIZ characters, and its static buffer
    keeps its terminating null. *)
Theorem fmtname_pads {W} buf path (w : W) :
  length buf = S DIRSIZ → buf !! DIRSIZ = Some 0 → 0 ∉ path →
  ∃ buf', fmtname buf path w = Ok (padded (basename path), buf') w ∧
    length buf' = S DIRSIZ ∧ buf' !! DIRSIZ = Some 0.
Proof.
  intros Hlen Hnull Hp. unfold fmtname.
  rewrite (bind_run _ _ _ _ _ (after_slash_run (S (length path)) (path ++ [0]) w ltac:(rewrite length_app; simpl; lia))).
  rewrite take_ge by (rewrite length_app; simpl; lia). rewrite basename_snoc. cbn [Z.eqb].
  pose proof (basename_length path) as Hb.
  replace (S (length path) - length (basename path ++ [0%Z]))%nat with (length path - length (basename path))%nat
    by (rewrite length_app; simpl; lia).
  rewrite basename_drop. set (name := basename path) in *.
  assert (0 ∉ name) as Hn.
  { intros Hin. apply Hp. rewrite <- (take_drop (length path - length name) path).
    apply elem_of_app. right. unfold name in *. by rewrite basename_drop. }
  case_decide as Hd.
  - exists buf. split; [|done]. unfold padded. replace (DIRSIZ - length name)%nat with 0%nat by lia.
    by rewrite app_nil_r.
  - assert (drop DIRSIZ buf = [0]) as Hlast.
    { apply list_eq. intros [|i]; rewrite lookup_drop.
      - by rewrite Nat.add_0_r.
      - rewrite lookup_ge_None_2 by lia. done. }
    assert (splice (length name) (replicate (DIRSIZ - length name) 32) (splice 0 name buf) = padded name ++ [0]) as ->.
    { unfold splice, padded. rewrite take_0, app_nil_l, Nat.add_0_l.
      rewrite take_app_length, length_replicate.
      replace (length name + (DIRSIZ - length name))%nat with DIRSIZ by lia.
      rewrite drop_app, drop_ge by lia. rewrite drop_drop.
      replace (length name + (DIRSIZ - length name))%nat with DIRSIZ by lia.
      rewrite Hlast. by rewrite <- app_assoc. }
    assert (length (padded name) = DIRSIZ) as Hpl by (unfold padded; rewrite length_app, length_replicate; lia).
    assert (0 ∉ padded name) as Hpn.
    { unfold padded. intros [?|Hr]%elem_of_app; [done|]. by apply elem_of_replicate in Hr as [??]. }
    exists (padded name ++ [0]). rewrite until_null_app by done. split; [done|].
    rewrite length_app, Hpl. split; [done|].
    by rewrite lookup_app_r, Hpl by lia.
Qed.

(** * Examples *)

(** A world of named files, in which read returns at most [S most] bytes and each open file is the next
    descriptor from 3 on. *)
Record world (most : nat) := World { wd_files : list (word * list Z); wd_open : list (list Z); wd_out1 : list Z; wd_out2 : list Z }.
Arguments World {most} wd_files wd_open wd_out1 wd_out2.
Arguments wd_files {most} w.
Arguments wd_open {most} w.
Arguments wd_out1 {most} w.
Arguments wd_out2 {most} w.

Definition wd_file {most} (w : world most) (p : word) : option (list Z) :=
  snd <$> (snd <$> list_find (λ f, f.1 = p) (wd_files w)).
Definition wd_input {most} (w : world most) (fd : Z) : option (list Z) :=
  if 3 <=? fd then wd_open w !! Z.to_nat (fd - 3) else None.

#[global] Instance world_calls {most} : Calls (world most) := {
  sys_open p _ w :=
    match wd_file w p with
    | Some bs => Ok (3 + Z.of_nat (length (wd_open w))) (World (wd_files w) (wd_open w ++ [bs]) (wd_out1 w) (wd_out2 w))
    | None => Ok (-1) w
    end;
  sys_read fd n w :=
    match wd_input w fd with
    | Some bs =>
        let k := Nat.min (S most) (Nat.min (Z.to_nat n) (length bs)) in
        Ok (Z.of_nat k, take k bs)
          (World (wd_files w) (<[Z.to_nat (fd - 3) := drop k bs]> (wd_open w)) (wd_out1 w) (wd_out2 w))
    | None => Ok (-1, []) w
    end;
  sys_write fd bs w :=
    if fd =? 1 then Ok (Z.of_nat (length bs)) (World (wd_files w) (wd_open w) (wd_out1 w ++ bs) (wd_out2 w))
    else if fd =? 2 then Ok (Z.of_nat (length bs)) (World (wd_files w) (wd_open w) (wd_out1 w) (wd_out2 w ++ bs))
    else Ok (-1) w;
  sys_close _ w := Ok 0 w;
  sys_fstat _ w := Ok (-1, Stat 0 0 0 0 0) w;
  sys_link _ _ w := Ok (-1) w;
  sys_unlink _ w := Ok (-1) w;
  sys_mkdir _ w := Ok (-1) w;
  sys_mknod _ _ _ w := Ok (-1) w;
  sys_dup _ w := Ok (-1) w;
  sys_kill _ w := Ok (-1) w;
  sys_fork w := Ok (-1) w;
  sys_exec _ _ w := Ok (-1) w;
  sys_wait w := Ok (-1) w;
  sys_sleep _ w := Ok 0 w;
}.

#[global] Instance world_files {most} : Files (world most).
Proof.
  refine {| file := wd_file; input := wd_input;
            output w f := if decide (f = 1) then wd_out1 w else if decide (f = 2) then wd_out2 w else [] |}.
  - intros w fd bs n Hin Hn. cbn [sys_read world_calls]. rewrite Hin.
    exists (Nat.min (S most) (Nat.min (Z.to_nat n) (length bs))). eexists. split; [done|].
    split; [lia|]. split; [lia|]. split.
    { intros E. destruct bs; [done|]. cbn [length] in E. lia. }
    split; [|done]. unfold wd_input in *. simpl. destruct (3 <=? fd) eqn:E3; [|done].
    apply list_lookup_insert_eq. by apply lookup_lt_Some in Hin.
  - intros w fd bs [-> | ->]; simpl; eexists; (split; [done|]); (split; [|done]); intros f; simpl;
      repeat case_decide; subst; done.
  - intros w p. simpl. destruct (wd_file w p) as [bs|]; eexists _, _; (split; [done|]); split_and!; try done.
    + lia.
    + unfold wd_input. simpl. rewrite (proj2 (Z.leb_le _ _)) by lia.
      replace (Z.to_nat (3 + Z.of_nat (length (wd_open w)) - 3)) with (length (wd_open w)) by lia.
      by rewrite lookup_app_r, Nat.sub_diag by lia.
  - intros w fd. by eexists _, _.
Defined.

Definition ex_world {most} : world most := World [(chars "a", chars "one two"); (chars "b", chars "three " ++ [10])] [] [] [].

Lemma cat_copies_witness :
  ∃ w', cat_main (replicate 16 0) 10 [chars "a"; chars "b"] (ex_world (most := 2)) = Ok tt w' ∧
    wrote ex_world w' (chars "one twothree " ++ [10]).
Proof.
  apply (cat_copies (replicate 16 0) 10 eq_refl [chars "a"; chars "b"]
    [chars "one two"; chars "three " ++ [10]] ex_world); [done|].
  repeat constructor; done || (simpl; lia).
Defined.

(** The matches of .*e in both files, which are read whole. *)
Lemma grep_prints_matches_witness :
  ∃ w', grep_main (replicate 16 0) 10 [chars "th.*e"; chars "a"; chars "b"] (ex_world (most := 1023)) = Ok tt w' ∧
    wrote ex_world w' (chars "three " ++ [10]).
Proof.
  apply (grep_prints_matches (replicate 16 0) 10 eq_refl (chars "th.*e") [chars "a"; chars "b"]
    [chars "one two"; chars "three " ++ [10]] ex_world); [|done|].
  - intros w fd bs n Hin Hn. cbn [sys_read world_calls]. cbn [input world_files] in Hin. rewrite Hin. eexists.
    f_equal. rewrite length_take. replace (Nat.min 1024 (Nat.min (Z.to_nat n) (length bs))) with (Nat.min (Z.to_nat n) (length bs)) by lia.
    f_equal. destruct (decide (Z.to_nat n ≤ length bs)%nat); [by rewrite Nat.min_l by lia|]. by rewrite !take_ge by lia.
  - repeat constructor; try done; try (simpl; lia); apply (bool_decide_unpack _); reflexivity.
Defined.

Lemma wc_counts_witness :
  ∃ w', wc_main (replicate 16 0) 10 [chars "a"; chars "b"] (ex_world (most := 2)) = Ok tt w' ∧
    wrote ex_world w' (chars "0 2 7 a" ++ [10] ++ chars "1 1 7 b" ++ [10]).
Proof.
  apply (wc_counts (replicate 16 0) 10 eq_refl [chars "a"; chars "b"]
    [chars "one two"; chars "three " ++ [10]] ex_world); [done|].
  repeat constructor; done || (simpl; lia).
Defined.
